(* ===== verification/_CoqProject ===== *)
-Q . S2P
Prelude.v
Types.v
Quorum.v
Replicator.v
Secondary.v
Actor.v
Identity.v
Checkpoint.v
Replay.v
Store.v
Host.v
Election.v
Lifecycle.v
AddReplica.v
RemoveReplica.v
Control.v
Agent.v
Task.v
PeerStage.v
RemoveCoordinator.v
RemoveProtocol.v
RemoveTermination.v
AddCoordinator.v
AddProtocol.v
Proto.v
Convert.v
Wire.v
Ledger.v
Grpc.v
Calls.v
Crd.v
Operation.v
Switchover.v
SwitchoverSteps.v
Effects.v
SwitchoverRuns.v
SwitchoverEnds.v
SwitchoverDemo.v
Failover.v
FailoverLoop.v
FailoverSteps.v
FailoverRuns.v
FailoverInvariant.v
FailoverPanics.v
FailoverSafety.v
FailoverDemo.v
AddWorkflow.v
AddSteps.v
Turns.v
AddRuns.v
AddSafety.v
AddDemo.v
RemoveWorkflow.v
RemoveSteps.v
RemoveOutcomes.v
RemoveRuns.v
RemoveSafety.v
RemoveFinish.v
RemoveDemo.v
CreateWorkflow.v
CreateSteps.v
CreateOutcomes.v
CreateRuns.v
CreateSafety.v
CreateDemo.v
