(* ===== verification/Prelude.v ===== *)
(** * Verification of Kuberic

    Kuberic runs stateful services with replicas on Kubernetes. This library
    models its replication core, its durable execution kernel, the agents that
    run in the pods, the wire between them, and the workflows of its operator, and
    proves what makes them correct.

    ** The program and where its parts are modelled

    - The replication core (src/kuberic-core/src/replicator). A primary
      assigns LSNs to writes, keeps them in a queue, streams them to the
      secondaries and commits a write when a write quorum acknowledged it,
      during a reconfiguration a quorum of both configurations.
      [Quorum] models quorum.rs: [QuorumTracker] is the struct, each method a
      function of type [step], from a tracker to the next one and the replies
      sent. [Replicator] models queue.rs, the partition state of handles.rs and
      primary.rs (modules [Queue], [PState], [Handle], [Sender]). [Secondary]
      models secondary.rs and copy.rs. [Actor] models actor.rs: the handlers of
      the select loop as programs of atomic segments ([proc]), and a step
      relation [step_cfg] in which ACK readers, drain tasks, the expiration
      scheduler and the writers of the partition state come between any two
      segments.
    - The durable execution kernel (src/durable-execution/src). A workflow is
      replayed against the history in its checkpoint; a host makes one decision
      per turn and persists it with one compare-and-swap before it acts.
      [Identity] models identity.rs, [Checkpoint] checkpoint.rs, [Replay]
      replay.rs with the context of workflow.rs, [Store] store.rs and
      in_memory.rs, [Host] host.rs. The host is proved against the store's
      contract, the classes [CheckpointStore] and [CheckpointStoreLaws], which
      the in-memory store discharges.
    - Planning of failover and membership changes. [Election] models
      failover_election.rs of src/kuberic-operator/src/durable; [Lifecycle],
      [AddReplica] and [RemoveReplica] model replica_lifecycle.rs,
      add_replica.rs and remove_replica.rs of src/kuberic-core/src: what an
      operation's intent must satisfy and what its progress must show.
    - The replica agent (src/kuberic-core/src/replica_agent.rs), the process in
      a pod that carries out one action at a time. [Control] has its actions,
      observations and status (types.rs) and the runtime effects of pod.rs.
      [Agent] models the select loop: [agent_step] is one turn, each handler a
      function from the agent to the agent and what it sends. The tasks an
      agent spawns are programs that call and are answered ([Task]: [task],
      and [stateful] where they own a state), run against an arbitrary oracle:
      [PeerStage] models the stages a target runs for a remote primary,
      [RemoveCoordinator] and [AddCoordinator] the coordinators of a removal
      and an addition. [RemoveProtocol], [RemoveTermination] and [AddProtocol]
      hold the protocols they refine and what follows from them; [Ledger] what
      an agent's history looks like after any run.
    - The wire (src/kuberic-core/proto/kuberic.proto and src/grpc). [Proto] has
      the messages and the numbers of their enums, [Convert] the conversions of
      convert.rs, [Grpc] the two services and their clients (server.rs,
      peer_server.rs, handle.rs, peer_client.rs); [Wire] and [Calls] hold what
      is proved of them.
    - The operator's durable operations (src/kuberic-operator/src). [Crd] has
      the status records of a set (crd.rs), [Operation] what its machines share
      (durable/mod.rs), [Effects] how an authorized action is dispatched
      (effects.rs). [Switchover] models switchover.rs: [decide_switchover]
      takes the checkpoint, the live observations and the clock to a decision.
      [Failover] models failover.rs and [FailoverLoop]
      [reconcile_failover_operation] of reconciler.rs, which feeds it.
      [AddWorkflow] models add_replica.rs, [RemoveWorkflow]
      remove_replica.rs and [CreateWorkflow] create_partition.rs; [Turns] is
      what their runs share. [SwitchoverSteps],
      [SwitchoverRuns] and [SwitchoverEnds], [FailoverSteps], [FailoverRuns],
      [FailoverInvariant], [FailoverPanics] and [FailoverSafety], [AddSteps],
      [AddRuns] and [AddSafety], [RemoveSteps], [RemoveOutcomes], [RemoveRuns],
      [RemoveSafety] and [RemoveFinish], [CreateSteps], [CreateOutcomes],
      [CreateRuns] and [CreateSafety] hold their step relations, runs and what
      is proved over them; [SwitchoverDemo], [FailoverDemo], [AddDemo],
      [RemoveDemo] and [CreateDemo] play some of each.
    - [Types] models types.rs and error.rs, which all parts share.

    ** What is proved

    - Commit safety, C1: [Ok] only on a write quorum; no reply
      lost or doubled; catch-up waits.
    - Streams, in [Replicator] and [Secondary]: stale connections do not count;
      what a secondary acknowledges it holds.
    - The actor as a whole, C2 to C3, by induction over its runs: conservation
      of callers, increasing LSNs, gap-free streams under every interleaving.
    - Checkpoints and replay, C4 to C5: encoding round trips,
      terminal capacity is reserved, replay reports exactly what the workflow
      does and decides nothing else.
    - Hosts on a shared store, C6 to C7: the in-memory store refines the
      contract; over any interleaving at most one permit per activity, each
      recorded before it is given; the stored state refines the protocol
      [progress].
    - Election, C8 to C9, and intents, C10: the best
      candidate, no committed write lost; validated removals and additions keep
      quorums overlapping; terminal results need their evidence.
    - The agent, C11 to C13, and the stages of a target, C14: launches
      are fenced and unique, every caller is answered, kept results have their
      evidence, known actions are repeated and not run again, senders of stages
      are fenced and run one at a time, and stages act only for the true
      primary.
    - Coordinators, C15 to C19: whatever their
      surroundings answer they follow their protocol, never roll a dispatched
      removal back, call no target past the deadline, are accepted by the agent
      that spawned them, and a removal ends.
    - The wire, C20 to C22: a message is read exactly when it is the encoding
      of a well-formed request; payloads round trip; errors keep their class;
      stage calls answer their request; the status of an agent reaches the
      operator unchanged where the wire can represent it.
    - Switchover, C23 to C27: over all runs, with status
      writes lost or not: the order of a promotion, one writer, what a
      completion attests, termination, no panic. [SwitchoverDemo] also plays a
      run that leaves a revocation in force.
    - Failover, C28 to C30: over all runs nothing is sent without what
      it rests on (an election, the callback of a data loss, the committed
      promotion), what a completion attests, no panic. [FailoverDemo] also
      plays a replacement that skips the epoch distribution.
    - Addition, C31 to C33: over all runs no pod is deleted where a commit
      was seen, what a completion attests, and the intent rebuilt from the
      checkpoint is the one that was observed.
    - Removal, C34 to C37: over all runs a pod is deleted only after the
      commit was seen and the target is fenced off, what a completion attests,
      the intent rebuilt is the one observed, and a committed removal can
      be finished from every checkpoint.
    - Creation, C38 to C39: over all runs, restarts included, replicas are
      brought up in order and asked only for the next step of the next member;
      what is committed stays, and only what is not is ever undone.
    - Dispatch and status, C40: a request is sent under the persisted fences, to
      the process it was planned for; a persisted snapshot is read back as itself.

    ** Conventions

    - i64, u32 and u64 are [Z]. Arithmetic that release builds wrap is wrapped
      ([i64_add]); checked arithmetic returns [option]; [as u32] is [as_u32].
      usize is unbounded except where the code converts it; the platform has
      64 bits.
    - HashMap and HashSet are [gmap] and [gset]; a BTreeMap is a [gmap] whose
      iteration [btree_entries] sorts. Strings are [string], byte buffers [list
      Byte.byte]. Display and Debug renderings are written out, since
      signatures and error texts are built from them.
    - Errors are the [Err] of [result]. A one-shot sender is an identifier, and
      a reply sent is an event of the call; dropping a sender is an event too.
    - Time is an argument. What another task does in between is a step of the
      step relation or an answer of the oracle, never assumed away.
    - Panics ([expect], [unreachable]) are outcomes ([panic] of the host monad,
      [Unreachable] of the agent).

    ** Parameters

    Code outside the repository is a parameter with its documented laws:
    serde_json and base64 ([Checkpoint.Encoding], [EncodingLaws], met by a
    concrete encoder in [Checkpoint.Demo]), tonic's endpoint parser
    ([Lifecycle.Endpoints], a decision without laws) and rendering of a status
    ([Grpc]), prost's bytes ([Convert]; [PayloadCodec]
    with [PayloadCodecLaws] where a persisted payload is read back), the transport and the user's state
    provider (the answers and events the [Actor], [Secondary] and [Task]
    functions take). A workflow body is a parameter too, as a tree of what it
    does with each result ([Replay.body]).

    ** Fuel

    [Lifecycle.split_fuel] has the length of the string, which every piece
    shortens. The loops of the coordinators are unfolded [fuel] times and are
    then found [Looping]; safety holds for every fuel, and
    [RemoveTermination.removal_terminates] gives a fuel that is enough. Loops
    over waiting input are runs over a list of events or labels of any length.

    ** Not modelled

    The pod runtime and the in-process driver (pod.rs, runtime.rs, driver.rs);
    the operator's switchover pilot, the rest
    of the reconciler, and its cluster API; the ConfigMap store and the typed layer of the kernel; examples and
    tests. Of the modelled files, tracing and metrics are left out, and the
    writes to the cluster are effects returned. The next parts to model, in
    this order: the reconciler's phases, the pod runtime. *)

From stdpp Require Export gmap strings pretty sorting relations.

Set Default Goal Selector "!".

(** ** Record update

    [r <| f := v |>] is the record [r] with field [f] replaced, the way the
    Rust code assigns [self.f = v]; [r <| f ::= g |>] applies [g] to it. *)

Class Settable (R : Type) := { eta_record : R → R }.

Class Setter {R T : Type} (proj : R → T) := over : (T → T) → R → R.

Ltac derive_setter proj :=
  lazymatch type of proj with
  | ?R → _ =>
      let eta := constr:(@eta_record R _) in
      let eta := eval hnf in eta in
      match eval pattern proj in eta with
      | ?build _ =>
          let f := constr:(fun g r => build (fun x => g (proj x)) r) in
          let f := eval cbv beta in f in exact f
      end
  end.

#[export] Hint Extern 1 (Setter ?proj) => derive_setter proj : typeclass_instances.

Declare Scope rust_scope.
Delimit Scope rust_scope with rust.

Notation "r <| f := v |>" := (over (proj := f) (fun _ => v) r)
  (at level 1, left associativity, f at level 0, format "r  <| f  :=  v |>") : rust_scope.
Notation "r <| f ::= g |>" := (over (proj := f) g r)
  (at level 1, left associativity, f at level 0, format "r  <| f  ::=  g |>") : rust_scope.

Open Scope rust_scope.
Open Scope Z_scope.

(** ** Results

    [result E A] is Rust's [Result<A, E>]; stdpp's [x ← m; k] is the [?]
    operator and [reject_if c e;; k] an early [return Err(e)]. *)

Inductive result (E A : Type) : Type :=
| Ok (a : A)
| Err (e : E).
Arguments Ok {E A} a.
Arguments Err {E A} e.

#[export] Instance result_eq_dec {E A} `{!EqDecision E, !EqDecision A} : EqDecision (result E A).
Proof. intros [a|e] [a'|e']; [|right; congruence..|]; [destruct (decide (a = a'))|destruct (decide (e = e'))]; (left; congruence) || (right; congruence). Defined.

#[export] Instance result_ret {E} : MRet (result E) := λ A a, Ok a.
#[export] Instance result_bind {E} : MBind (result E) := λ A B f m,
  match m with Ok a => f a | Err e => Err e end.
#[export] Instance result_fmap {E} : FMap (result E) := λ A B f m,
  match m with Ok a => Ok (f a) | Err e => Err e end.

Definition reject_if {E} (c : bool) (e : E) : result E unit :=
  if c then Err e else Ok tt.

Definition ok_or {E A} (o : option A) (e : E) : result E A :=
  match o with Some a => Ok a | None => Err e end.

Definition map_err {E F A} (f : E → F) (r : result E A) : result F A :=
  match r with Ok a => Ok a | Err e => Err (f e) end.

Definition is_ok {E A} (r : result E A) : bool :=
  match r with Ok _ => true | Err _ => false end.

Lemma reject_if_Ok {E} (c : bool) (e : E) u : reject_if c e = Ok u ↔ c = false.
Proof. destruct u, c; simpl; split; congruence. Qed.

Lemma bind_Ok {E A B} (m : result E A) (f : A → result E B) b :
  (m ≫= f) = Ok b ↔ ∃ a, m = Ok a ∧ f a = Ok b.
Proof. destruct m; simpl; split; naive_solver. Qed.

Lemma bind_Err {E A B} (m : result E A) (f : A → result E B) e :
  (m ≫= f) = Err e ↔ m = Err e ∨ ∃ a, m = Ok a ∧ f a = Err e.
Proof. destruct m; simpl; split; naive_solver. Qed.

Lemma ok_or_Ok {E A} (o : option A) (e : E) a : ok_or o e = Ok a ↔ o = Some a.
Proof. destruct o; simpl; naive_solver. Qed.

(** A bound check that rejects in a loop: the first element with an error
    decides, as in a Rust [for] loop with an early [return]. *)
Fixpoint try_for_each {E A} (f : A → result E unit) (l : list A) : result E unit :=
  match l with
  | [] => Ok tt
  | x :: l => f x;; try_for_each f l
  end.

(** The same with loop-carried state (the [HashSet]s a loop fills). *)
Fixpoint try_fold {E S A} (f : S → A → result E S) (s : S) (l : list A) : result E S :=
  match l with
  | [] => Ok s
  | x :: l => s ← f s x; try_fold f s l
  end.

Lemma try_for_each_Ok {E A} (f : A → result E unit) l u :
  try_for_each f l = Ok u ↔ Forall (λ x, f x = Ok tt) l.
Proof.
  induction l as [|x l IH]; simpl.
  - destruct u. split; [by constructor|done].
  - rewrite bind_Ok, Forall_cons. split.
    + intros ([] & Hx & Hl). by rewrite <-IH.
    + intros [Hx Hl]. exists tt. by rewrite IH.
Qed.

(** Items in order, up to the first error
    ([map(f).collect::<Result<Vec<_>, _>>()]). *)
Fixpoint try_map {E A B} (f : A → result E B) (l : list A) : result E (list B) :=
  match l with
  | [] => Ok []
  | x :: l => y ← f x; ys ← try_map f l; Ok (y :: ys)
  end.

Lemma try_map_fmap {E A B} (f : A → result E B) (g : B → A) l :
  Forall (λ x, f (g x) = Ok x) l → try_map f (g <$> l) = Ok l.
Proof. induction 1 as [|x l Hx _ IH]; [done|]. rewrite fmap_cons. cbn [try_map]. rewrite Hx, IH. done. Qed.
Lemma try_map_Ok {E A B} (f : A → result E B) (P : A → B → Prop) l l' :
  (∀ x y, f x = Ok y → P x y) → try_map f l = Ok l' → Forall2 P l l'.
Proof.
  intros Hf. revert l'. induction l as [|x l IH]; intros l' H; simpl in H; [injection H as <-; constructor|].
  apply bind_Ok in H as (y & Hy & H). apply bind_Ok in H as (ys & Hys & H). injection H as <-. constructor; auto.
Qed.

Lemma try_map_cancel {E A B} (f : A → result E B) (g : B → result E A) (P : A → Prop) l l' :
  (∀ x y, P x → f x = Ok y → g y = Ok x) → Forall P l → try_map f l = Ok l' → try_map g l' = Ok l.
Proof.
  intros Hfg HP. revert l'. induction HP as [|x l Hx HP IH]; intros l'; simpl.
  - by intros [= <-].
  - rewrite bind_Ok. intros (y & Hy & (ys & Hys & [= <-])%bind_Ok). simpl.
    rewrite (Hfg _ _ Hx Hy). simpl. by rewrite (IH _ Hys).
Qed.

Lemma try_map_length {E A B} (f : A → result E B) l l' : try_map f l = Ok l' → length l' = length l.
Proof.
  revert l'. induction l as [|x l IH]; intros l'; simpl; [by intros [= <-]|].
  rewrite bind_Ok. intros (y & _ & (ys & Hys & [= <-])%bind_Ok). simpl. by rewrite (IH _ Hys).
Qed.

Lemma try_fold_ext {E S A} (f g : S → A → result E S) s l :
  (∀ s x, f s x = g s x) → try_fold f s l = try_fold g s l.
Proof.
  intros H. revert s. induction l as [|x l IH]; intros s; simpl; [done|].
  rewrite H. destruct (g s x); simpl; [apply IH|done].
Qed.

Lemma try_fold_invariant {E S A} (f : S → A → result E S) (P : S → Prop) l s s' :
  P s → (∀ s x s', x ∈ l → P s → f s x = Ok s' → P s') →
  try_fold f s l = Ok s' → P s'.
Proof.
  revert s. induction l as [|x l IH]; simpl; intros s Hs Hf.
  - by intros [= <-].
  - rewrite bind_Ok. intros (s1 & Hx & Hl). eapply (IH s1); [..|done].
    + eapply Hf; [left|done|done].
    + intros s2 y s3 Hy. apply Hf. by right.
Qed.

(** ** Machine integers

    [i64], [u32], [u64] and [usize] (64 bits) are integers; an operation
    that can leave the range is written with the function the code calls.
    [+] is the release profile's two's complement addition. *)

Definition i64_min : Z := - 2 ^ 63.
Definition i64_max : Z := 2 ^ 63 - 1.
Definition u32_max : Z := 2 ^ 32 - 1.
Definition u64_max : Z := 2 ^ 64 - 1.
Definition usize_max : Z := 2 ^ 64 - 1.

Definition in_i64 (z : Z) : Prop := i64_min ≤ z ≤ i64_max.
#[export] Instance in_i64_dec z : Decision (in_i64 z) := _.

Definition i64_wrap (z : Z) : Z := (z + 2 ^ 63) `mod` 2 ^ 64 - 2 ^ 63.
Definition i64_add (a b : Z) : Z := i64_wrap (a + b).
Definition i64_saturating_add (a b : Z) : Z := Z.max i64_min (Z.min i64_max (a + b)).
Definition i64_saturating_sub (a b : Z) : Z := Z.max i64_min (Z.min i64_max (a - b)).
Definition i64_checked_add (a b : Z) : option Z :=
  if decide (in_i64 (a + b)) then Some (a + b) else None.
Definition u64_checked_add (a b : Z) : option Z :=
  if decide (a + b ≤ u64_max) then Some (a + b) else None.
Definition u64_saturating_add (a b : Z) : Z := Z.min u64_max (a + b).
Definition usize_checked_add (a b : Z) : option Z :=
  if decide (a + b ≤ usize_max) then Some (a + b) else None.

(** [n as u32] for a [usize]. *)
Definition as_u32 (n : nat) : Z := Z.of_nat n `mod` 2 ^ 32.

Lemma i64_wrap_in z : in_i64 (i64_wrap z).
Proof. unfold in_i64, i64_wrap, i64_min, i64_max. pose proof (Z.mod_pos_bound (z + 2^63) (2^64)). lia. Qed.

Lemma i64_wrap_id z : in_i64 z → i64_wrap z = z.
Proof. unfold in_i64, i64_wrap, i64_min, i64_max. intros. rewrite Z.mod_small; lia. Qed.

Lemma i64_add_small a b : in_i64 (a + b) → i64_add a b = a + b.
Proof. apply i64_wrap_id. Qed.

Lemma i64_add_1 a : in_i64 a → a < i64_max → i64_add a 1 = a + 1.
Proof. intros. apply i64_add_small. unfold in_i64, i64_min, i64_max in *. lia. Qed.

Lemma i64_saturating_add_in a b : in_i64 (i64_saturating_add a b).
Proof. unfold in_i64, i64_saturating_add, i64_min, i64_max. lia. Qed.

Lemma i64_checked_add_Some a b c :
  i64_checked_add a b = Some c ↔ c = a + b ∧ in_i64 c.
Proof. unfold i64_checked_add. case_decide; naive_solver. Qed.

Lemma as_u32_le n : as_u32 n ≤ Z.of_nat n.
Proof. apply Z.mod_le; lia. Qed.

Lemma as_u32_nonneg n : 0 ≤ as_u32 n.
Proof. apply Z.mod_pos_bound; lia. Qed.

Lemma as_u32_small n : Z.of_nat n ≤ u32_max → as_u32 n = Z.of_nat n.
Proof. unfold as_u32, u32_max. intros. rewrite Z.mod_small; lia. Qed.

(** ** Sorting

    Rust's stable [sort], [sort_by_key] and [sort_unstable] (which sorts a
    list of keys, so stability cannot be seen). *)

Section sort_by.
  Context {A : Type} (R : relation A) `{!RelDecision R}.

Fixpoint insert_by (x : A) (l : list A) : list A :=
  match l with
  | [] => [x]
  | y :: l' => if decide (R x y) then x :: l else y :: insert_by x l'
  end.

Definition sort_by : list A → list A := foldr insert_by [].

Lemma insert_by_Permutation x l : insert_by x l ≡ₚ x :: l.
Proof.
  induction l as [|y l IH]; simpl; [done|]. case_decide; [done|].
  rewrite IH. constructor.
Qed.

Lemma sort_by_Permutation l : sort_by l ≡ₚ l.
Proof. induction l as [|x l IH]; simpl; [done|]. by rewrite insert_by_Permutation, IH. Qed.

Lemma elem_of_sort_by x l : x ∈ sort_by l ↔ x ∈ l.
Proof. by rewrite sort_by_Permutation. Qed.

Lemma insert_by_HdRel x y l : R y x → HdRel R y l → HdRel R y (insert_by x l).
Proof. intros Hx. inversion 1; simpl; [by constructor|]. case_decide; by constructor. Qed.

Lemma sort_by_Sorted `{!Total R} l : Sorted R (sort_by l).
Proof.
  induction l as [|x l IH]; simpl; [constructor|].
  induction IH as [|y l' Hl IHl Hd]; simpl; [repeat constructor|].
  case_decide as Hxy; [by repeat constructor|].
  constructor; [done|]. apply insert_by_HdRel; [|done].
  by destruct (total R x y).
Qed.

Lemma sort_by_id l : StronglySorted R l → sort_by l = l.
Proof.
  induction 1 as [|x l' Hl IH Hx]; simpl; [done|]. rewrite IH.
  destruct Hx; simpl; [done|]. by rewrite decide_True.
Qed.

Lemma sort_by_Permutation_eq `{!Transitive R, !Total R, !AntiSymm (=) R} l1 l2 :
  l1 ≡ₚ l2 → sort_by l1 = sort_by l2.
Proof.
  intros Hp. apply (Sorted_unique R); [apply sort_by_Sorted..|].
  by rewrite !sort_by_Permutation.
Qed.
End sort_by.

(** Sorting records by an integer key. *)
Definition key_le {A} (key : A → Z) : relation A := λ x y, key x ≤ key y.
#[export] Instance key_le_dec {A} (key : A → Z) : RelDecision (key_le key).
Proof. intros x y. unfold key_le. apply _. Defined.
#[export] Instance key_le_total {A} (key : A → Z) : Total (key_le key).
Proof. intros x y. unfold key_le. lia. Qed.
#[export] Instance key_le_trans {A} (key : A → Z) : Transitive (key_le key).
Proof. intros x y z. unfold key_le. lia. Qed.

Definition sort_by_key {A} (key : A → Z) : list A → list A := sort_by (key_le key).

Lemma sort_by_key_Permutation {A} (key : A → Z) l : sort_by_key key l ≡ₚ l.
Proof. apply sort_by_Permutation. Qed.

Lemma elem_of_sort_by_key {A} (key : A → Z) x l : x ∈ sort_by_key key l ↔ x ∈ l.
Proof. apply elem_of_sort_by. Qed.

Lemma sort_by_key_StronglySorted {A} (key : A → Z) l : StronglySorted (key_le key) (sort_by_key key l).
Proof. apply Sorted_StronglySorted; [apply _|]. apply sort_by_Sorted, _. Qed.

Lemma sort_by_key_fmap {A} (key : A → Z) l :
  StronglySorted Z.le (key <$> sort_by_key key l).
Proof.
  induction (sort_by_key_StronglySorted key l) as [|x l' Hl IH Hx]; simpl; constructor; [done|].
  apply Forall_fmap. eapply Forall_impl; [exact Hx|]. done.
Qed.

(** A map that keeps the keys commutes with sorting. *)
Lemma sort_by_key_map {A B} (f : A → B) (key : A → Z) (key' : B → Z) l :
  (∀ x, key' (f x) = key x) → sort_by_key key' (f <$> l) = f <$> sort_by_key key l.
Proof.
  intros Hk. unfold sort_by_key, sort_by. induction l as [|x l IH]; [done|]. rewrite fmap_cons. cbn [foldr].
  rewrite IH. generalize (foldr (insert_by (key_le key)) [] l). clear IH l. intros l.
  induction l as [|y l IH]; [done|]. rewrite fmap_cons. cbn [insert_by].
  rewrite (decide_ext (key_le key' (f x) (f y)) (key_le key x y)) by (unfold key_le; by rewrite !Hk).
  destruct (decide (key_le key x y)); [done|]. by rewrite fmap_cons, IH.
Qed.

Lemma sort_by_key_idemp {A} (key : A → Z) l : sort_by_key key (sort_by_key key l) = sort_by_key key l.
Proof. apply sort_by_id, sort_by_key_StronglySorted. Qed.

(** Distinct keys are sorted strictly. *)
Lemma sort_by_key_strict {A} (key : A → Z) l :
  NoDup (key <$> l) → StronglySorted Z.lt (key <$> sort_by_key key l).
Proof.
  intros Hnd. pose proof (sort_by_key_fmap key l) as Hs.
  assert (NoDup (key <$> sort_by_key key l)) as Hnd' by (by rewrite sort_by_key_Permutation).
  clear Hnd. rename Hnd' into Hnd. induction Hs as [|k l' Hs IH Hk]; [constructor|]. apply NoDup_cons in Hnd as [Hni Hnd].
  constructor; [by apply IH|]. rewrite Forall_forall in *. intros k' Hk'.
  assert (k ≠ k') by (by intros ->). specialize (Hk _ Hk'). lia.
Qed.

(** A list of distinct elements that are all the same one. *)
(** Finding by a key. *)
Lemma find_key_In {A} (key : A → Z) (l : list A) x :
  NoDup (key <$> l) → x ∈ l → List.find (λ y, key y =? key x) l = Some x.
Proof.
  induction l as [|y l IH]; simpl; intros Hnd Hx; [by apply elem_of_nil in Hx|].
  apply NoDup_cons in Hnd as [Hy Hnd]. destruct (Z.eqb_spec (key y) (key x)) as [He|He].
  - apply elem_of_cons in Hx as [->|Hx]; [done|]. destruct Hy. rewrite He. by apply list_elem_of_fmap_2.
  - apply IH; [done|]. by apply elem_of_cons in Hx as [->|].
Qed.

Lemma find_filter {A} (f : A → bool) (P : A → Prop) `{∀ x, Decision (P x)} (l : list A) :
  (∀ x, f x = true → P x) → List.find f (filter P l) = List.find f l.
Proof.
  intros Hf. induction l as [|x l IH]; simpl; [done|]. rewrite filter_cons. destruct (decide (P x)) as [Hx|Hx]; simpl.
  - by rewrite IH.
  - destruct (f x) eqn:Hfx; [by destruct Hx; apply Hf|done].
Qed.

Lemma singleton_list {A} (x : A) l : x ∈ l → NoDup l → (∀ y, y ∈ l → y = x) → l = [x].
Proof.
  intros Hx Hnd Hall. destruct Hnd as [|y l Hy Hnd]; [by apply elem_of_nil in Hx|].
  rewrite (Hall y) in Hy |- * by left. destruct l as [|z l]; [done|].
  exfalso. apply Hy. rewrite (Hall z) by (right; left). left.
Qed.

(** With pairwise distinct keys the sorted list does not depend on the
    order of the input. *)
Lemma sort_by_key_unique {A} (key : A → Z) l1 l2 :
  NoDup (key <$> l1) → l1 ≡ₚ l2 → sort_by_key key l1 = sort_by_key key l2.
Proof.
  intros Hnd Hp. apply (StronglySorted_unique_strong (key_le key)).
  - intros x y Hx Hy Hxy Hyx. rewrite elem_of_sort_by_key in Hx, Hy.
    rewrite <-Hp in Hy. unfold key_le in *.
    assert (key x = key y) as Hk by lia.
    apply list_elem_of_lookup in Hx as [i Hi], Hy as [j Hj].
    assert (i = j) as ->; [|congruence].
    apply (NoDup_lookup (key <$> l1) _ _ (key x)); [done|..].
    + by rewrite list_lookup_fmap, Hi.
    + by rewrite list_lookup_fmap, Hj, Hk.
  - apply sort_by_key_StronglySorted.
  - apply sort_by_key_StronglySorted.
  - by rewrite !sort_by_key_Permutation.
Qed.

(** ** Ordered maps

    A [BTreeMap<i64, V>] is a [gmap Z V] whose iteration goes by
    increasing key. *)

Definition btree_entries {A} (m : gmap Z A) : list (Z * A) := sort_by_key fst (map_to_list m).
Definition btree_values {A} (m : gmap Z A) : list A := (btree_entries m).*2.

Lemma btree_entries_Permutation {A} (m : gmap Z A) : btree_entries m ≡ₚ map_to_list m.
Proof. apply sort_by_key_Permutation. Qed.

Lemma elem_of_btree_entries {A} (m : gmap Z A) k x : (k, x) ∈ btree_entries m ↔ m !! k = Some x.
Proof. unfold btree_entries. by rewrite elem_of_sort_by_key, elem_of_map_to_list. Qed.

Lemma elem_of_btree_values {A} (m : gmap Z A) x : x ∈ btree_values m ↔ ∃ k, m !! k = Some x.
Proof.
  unfold btree_values. rewrite list_elem_of_fmap. split.
  - intros ([k y] & -> & Hk). exists k. by rewrite <-elem_of_btree_entries.
  - intros [k Hk]. exists (k, x). by rewrite elem_of_btree_entries.
Qed.

Lemma btree_entries_NoDup {A} (m : gmap Z A) : NoDup (btree_entries m).*1.
Proof. rewrite btree_entries_Permutation. apply NoDup_fst_map_to_list. Qed.

Lemma btree_entries_sorted {A} (m : gmap Z A) : StronglySorted Z.lt (btree_entries m).*1.
Proof.
  apply sort_by_key_strict, NoDup_fst_map_to_list.
Qed.

(** ** Maximum

    [Iterator::max_by] keeps the later of two elements that compare equal. *)

Fixpoint max_by_from {A} (cmp : A → A → comparison) (best : A) (l : list A) : A :=
  match l with
  | [] => best
  | x :: l => max_by_from cmp (match cmp best x with Gt => best | _ => x end) l
  end.

Definition max_by {A} (cmp : A → A → comparison) (l : list A) : option A :=
  match l with
  | [] => None
  | x :: l => Some (max_by_from cmp x l)
  end.

(** [Iterator::min] over integers. *)
Definition list_min (l : list Z) : option Z :=
  match l with
  | [] => None
  | x :: l => Some (foldr Z.min x l)
  end.

Lemma list_min_spec l m : list_min l = Some m → m ∈ l ∧ ∀ x, x ∈ l → m ≤ x.
Proof.
  destruct l as [|x l]; simpl; [done|]. intros [= <-].
  induction l as [|y l [IHin IHle]]; simpl.
  - split; [left|]. intros z ->%list_elem_of_singleton. lia.
  - split.
    + destruct (Z.min_spec y (foldr Z.min x l)) as [[_ ->]|[_ ->]].
      * right. left.
      * apply elem_of_cons in IHin as [->|?]; [left|by right; right].
    + intros z [->|[->|Hz]%elem_of_cons]%elem_of_cons.
      * specialize (IHle x (list_elem_of_here _ _)). lia.
      * lia.
      * assert (z ∈ x :: l) as Hz' by (by right). specialize (IHle z Hz'). lia.
Qed.

Lemma list_min_None l : list_min l = None ↔ l = [].
Proof. by destruct l. Qed.

(** [Ordering::then]. *)
Definition cmp_then (c1 c2 : comparison) : comparison :=
  match c1 with Eq => c2 | _ => c1 end.

Class CmpOrder {A} (cmp : A → A → comparison) : Prop := {
  cmp_refl x : cmp x x = Eq;
  cmp_opp x y : cmp y x = CompOpp (cmp x y);
  cmp_trans x y z : cmp x y ≠ Gt → cmp y z ≠ Gt → cmp x z ≠ Gt;
}.

Section max_by.
  Context {A : Type} (cmp : A → A → comparison) `{!CmpOrder cmp}.

Lemma max_by_from_spec best l :
  max_by_from cmp best l ∈ best :: l ∧ ∀ x, x ∈ best :: l → cmp x (max_by_from cmp best l) ≠ Gt.
Proof.
  revert best. induction l as [|y l IH]; intros best; simpl.
  - split; [left|]. intros x ->%list_elem_of_singleton. by rewrite cmp_refl.
  - set (b := match cmp best y with Gt => best | _ => y end).
    assert (b = best ∨ b = y) as Hb by (unfold b; destruct (cmp best y); auto).
    assert (cmp best b ≠ Gt ∧ cmp y b ≠ Gt) as [Hb1 Hb2].
    { unfold b. pose proof (cmp_opp best y). pose proof (cmp_refl y). pose proof (cmp_refl best).
      destruct (cmp best y) eqn:E; simpl in *; split; congruence. }
    destruct (IH b) as [Hin Hmax]. split.
    + apply elem_of_cons in Hin as [->|?]; [|by do 2 right].
      destruct Hb as [->| ->]; [left|right; left].
    + intros x [->|[->|Hx]%elem_of_cons]%elem_of_cons.
      * eapply cmp_trans; [exact Hb1|]. apply Hmax. left.
      * eapply cmp_trans; [exact Hb2|]. apply Hmax. left.
      * apply Hmax. by right.
Qed.

Lemma max_by_Some l m : max_by cmp l = Some m → m ∈ l ∧ ∀ x, x ∈ l → cmp x m ≠ Gt.
Proof. destruct l as [|x l]; simpl; [done|]. intros [= <-]. apply max_by_from_spec. Qed.

Lemma max_by_None l : max_by cmp l = None ↔ l = [].
Proof. by destruct l. Qed.
End max_by.

(** Orders built from orders, as [cmp().then(...)] chains are. *)
#[export] Instance Zcompare_order : CmpOrder Z.compare.
Proof.
  split; [apply Z.compare_refl|intros; apply Z.compare_antisym|]. intros x y z.
  rewrite !Z.compare_ngt_iff, <-!Z.le_ngt. lia.
Qed.

Lemma cmp_on_order {A B} (f : B → A) (cmp : A → A → comparison) `{!CmpOrder cmp} :
  CmpOrder (λ x y, cmp (f x) (f y)).
Proof. split; intros; [apply cmp_refl|apply cmp_opp|by eapply cmp_trans]. Qed.

Lemma cmp_flip_order {A} (cmp : A → A → comparison) `{!CmpOrder cmp} :
  CmpOrder (λ x y, cmp y x).
Proof. split; intros; [apply cmp_refl|apply cmp_opp|by eapply cmp_trans]. Qed.

Lemma cmp_then_not_gt {A} (c1 : A → A → comparison) (c2 : comparison) x y :
  cmp_then (c1 x y) c2 ≠ Gt ↔ c1 x y ≠ Gt ∧ (c1 x y = Eq → c2 ≠ Gt).
Proof. destruct (c1 x y); simpl; naive_solver. Qed.

Lemma cmp_then_order {A} (c1 c2 : A → A → comparison) `{!CmpOrder c1, !CmpOrder c2} :
  CmpOrder (λ x y, cmp_then (c1 x y) (c2 x y)).
Proof.
  split.
  - intros x. by rewrite !cmp_refl.
  - intros x y. rewrite (cmp_opp (cmp := c1) x y), (cmp_opp (cmp := c2) x y). by destruct (c1 x y).
  - intros x y z. rewrite !cmp_then_not_gt. intros [Hxy Hxy2] [Hyz Hyz2].
    split; [by eapply cmp_trans|]. intros Hxz.
    assert (c1 z x ≠ Gt) as Hzx by (by rewrite (cmp_opp x z), Hxz).
    pose proof (cmp_trans _ _ _ Hzx Hxy) as Hzy. pose proof (cmp_trans _ _ _ Hyz Hzx) as Hyx.
    rewrite (cmp_opp y z) in Hzy. rewrite (cmp_opp x y) in Hyx.
    apply (cmp_trans _ y).
    + apply Hxy2. destruct (c1 x y); done.
    + apply Hyz2. destruct (c1 y z); done.
Qed.

Lemma existsb_false {A} (f : A → bool) l x : existsb f l = false → x ∈ l → f x = false.
Proof.
  intros Hf Hx. apply not_true_is_false. intros Ht. apply not_true_iff_false in Hf. apply Hf.
  apply existsb_exists. exists x. split; [by apply list_elem_of_In|done].
Qed.

(** ** Overlapping sets *)

Lemma set_overlap {A} `{Countable A} (X Y M : gset A) :
  X ⊆ M → Y ⊆ M → (size M < size X + size Y)%nat → ∃ x, x ∈ X ∧ x ∈ Y.
Proof.
  intros HX HY Hlt. destruct (decide (X ∩ Y = ∅)) as [He|Hne].
  - exfalso. assert (X ## Y) as Hd by set_solver.
    pose proof (size_union X Y Hd) as Hs. assert (X ∪ Y ⊆ M) as Hsub by set_solver.
    apply subseteq_size in Hsub. lia.
  - apply set_choose_L in Hne as [x Hx]. exists x. set_solver.
Qed.

Lemma size_list_to_set_le {A} `{Countable A} (l : list A) : (size (list_to_set l : gset A) ≤ length l)%nat.
Proof.
  induction l as [|x l IH]; [by rewrite list_to_set_nil, size_empty|].
  rewrite list_to_set_cons, size_union_alt, size_singleton. cbn [length].
  assert (size (list_to_set l ∖ {[x]} : gset A) ≤ size (list_to_set l : gset A))%nat by (apply subseteq_size; set_solver).
  lia.
Qed.

(** ** Integer intervals *)

Lemma seqZ_snoc a n : a ≤ n → seqZ a (n + 1 - a) = seqZ a (n - a) ++ [n].
Proof.
  intros Ha. replace (n + 1 - a) with ((n - a) + 1) by lia. rewrite seqZ_app by lia. f_equal.
  replace (a + (n - a)) with n by lia. done.
Qed.

Lemma seqZ_sorted a n : StronglySorted Z.lt (seqZ a n).
Proof.
  destruct (decide (0 < n)) as [Hn|Hn]; [|rewrite seqZ_nil by lia; constructor].
  assert (0 ≤ n) as Hn0 by lia. clear Hn. revert a. pattern n. apply natlike_ind; [| |done]; clear n Hn0.
  - intros a. constructor.
  - intros n Hn IH a. rewrite seqZ_cons by lia. constructor.
    + rewrite Z.pred_succ. apply IH.
    + rewrite Forall_forall. intros x Hx%elem_of_seqZ. lia.
Qed.

(** A strictly increasing list with the members of an interval is it. *)
Lemma sorted_interval l a b :
  StronglySorted Z.lt l → (∀ k, k ∈ l ↔ a ≤ k < b) → l = seqZ a (b - a).
Proof.
  intros Hs Hm. apply (StronglySorted_unique_strong Z.lt); [lia|done|apply seqZ_sorted|].
  apply NoDup_Permutation.
  - clear Hm. induction Hs as [|x l Hl IH Hx]; constructor; [|done].
    rewrite Forall_forall in Hx. intros Hin%Hx. lia.
  - apply NoDup_seqZ.
  - intros k. rewrite Hm, elem_of_seqZ. lia.
Qed.

(** What guards that were passed leave in the context: [b1 || b2 = false]
    and the like, as propositions. *)
Ltac guards :=
  repeat match goal with
  | H : _ || _ = false |- _ => apply orb_false_elim in H as [? H]
  | H : negb (bool_decide _) = false |- _ => apply negb_false_iff, bool_decide_eq_true in H
  | H : bool_decide _ = false |- _ => apply bool_decide_eq_false in H
  | H : bool_decide _ = true |- _ => apply bool_decide_eq_true in H
  | H : negb (_ =? _) = false |- _ => apply negb_false_iff, Z.eqb_eq in H
  | H : (_ <? _) = false |- _ => apply Z.ltb_ge in H
  | H : negb (_ =? _)%nat = false |- _ => apply negb_false_iff, Nat.eqb_eq in H
  | H : negb _ = false |- _ => apply negb_false_iff in H
  | H : negb _ = true |- _ => apply negb_true_iff in H
  end.
