(* ===== verification/Types.v ===== *)
(** Shared vocabulary of the replication core: epochs, roles, replica
    descriptions, access status, agent versions and the error type
    (kuberic-core/src/types.rs, kuberic-core/src/error.rs). *)

From S2P Require Import Prelude.

Set Default Goal Selector "!".

(** [Lsn] and [ReplicaId] are [i64]; [ReplicaInstanceId] and
    [AgentGeneration] are string newtypes. *)
Abbreviation Lsn := Z (only parsing).
Abbreviation ReplicaId := Z (only parsing).
Abbreviation ReplicaInstanceId := string (only parsing).
Abbreviation AgentGeneration := string (only parsing).
Abbreviation bytes := (list Byte.byte) (only parsing).

#[export] Instance byte_eq_dec : EqDecision Byte.byte.
Proof. exact Byte.byte_eq_dec. Defined.

(** ** Epochs *)

Record Epoch := mkEpoch {
  data_loss_number : Z;
  configuration_number : Z;
}.

#[export] Instance Epoch_eq_dec : EqDecision Epoch.
Proof. solve_decision. Defined.

Definition epoch_default : Epoch := mkEpoch 0 0.

Definition epoch_cmp (a b : Epoch) : comparison :=
  cmp_then (data_loss_number a ?= data_loss_number b)
    (configuration_number a ?= configuration_number b).

(** [a < b] through [PartialOrd], which is [Some (cmp a b)]. *)
Definition epoch_ltb (a b : Epoch) : bool :=
  match epoch_cmp a b with Lt => true | _ => false end.

Definition epoch_lt (a b : Epoch) : Prop := epoch_cmp a b = Lt.
Definition epoch_le (a b : Epoch) : Prop := epoch_cmp a b ≠ Gt.

#[export] Instance epoch_lt_dec : RelDecision epoch_lt.
Proof. intros a b. unfold epoch_lt. apply _. Defined.
#[export] Instance epoch_le_dec : RelDecision epoch_le.
Proof. intros a b. unfold epoch_le. apply _. Defined.

Lemma epoch_cmp_spec a b :
  match epoch_cmp a b with
  | Eq => a = b
  | Lt => data_loss_number a < data_loss_number b ∨
          data_loss_number a = data_loss_number b ∧ configuration_number a < configuration_number b
  | Gt => data_loss_number b < data_loss_number a ∨
          data_loss_number a = data_loss_number b ∧ configuration_number b < configuration_number a
  end.
Proof.
  destruct a as [a1 a2], b as [b1 b2]. unfold epoch_cmp; simpl.
  destruct (Z.compare_spec a1 b1), (Z.compare_spec a2 b2); simpl; first [congruence|lia].
Qed.

Lemma epoch_ltb_spec a b : epoch_ltb a b = true ↔ epoch_lt a b.
Proof. unfold epoch_ltb, epoch_lt. destruct (epoch_cmp a b); split; congruence. Qed.

Lemma epoch_lt_spec a b :
  epoch_lt a b ↔ data_loss_number a < data_loss_number b ∨
    (data_loss_number a = data_loss_number b ∧ configuration_number a < configuration_number b).
Proof.
  unfold epoch_lt. pose proof (epoch_cmp_spec a b) as H. split; [by intros E; rewrite E in H|].
  destruct (epoch_cmp a b); [subst|done|]; lia.
Qed.

#[export] Instance epoch_cmp_order : CmpOrder epoch_cmp.
Proof.
  split.
  - intros x. pose proof (epoch_cmp_spec x x). destruct (epoch_cmp x x); [done|lia..].
  - intros x y. pose proof (epoch_cmp_spec x y) as H1. pose proof (epoch_cmp_spec y x) as H2.
    destruct (epoch_cmp x y), (epoch_cmp y x); simpl; try done; subst; lia.
  - intros x y z. pose proof (epoch_cmp_spec x y). pose proof (epoch_cmp_spec y z).
    pose proof (epoch_cmp_spec x z).
    destruct (epoch_cmp x y), (epoch_cmp y z), (epoch_cmp x z); subst; try done; lia.
Qed.

Lemma epoch_cmp_opp a b : epoch_cmp b a = CompOpp (epoch_cmp a b).
Proof. apply cmp_opp. Qed.

#[export] Instance epoch_le_total_order : TotalOrder epoch_le.
Proof.
  split; [split; [split|]|].
  - intros x. unfold epoch_le. by rewrite (cmp_refl x).
  - intros x y z. apply cmp_trans.
  - intros x y. unfold epoch_le. rewrite (epoch_cmp_opp x y). pose proof (epoch_cmp_spec x y).
    by destruct (epoch_cmp x y).
  - intros x y. unfold strict, epoch_le. rewrite (epoch_cmp_opp x y). pose proof (epoch_cmp_spec x y).
    destruct (epoch_cmp x y); simpl; naive_solver.
Qed.

Lemma epoch_lt_le a b : epoch_lt a b → epoch_le a b.
Proof. unfold epoch_lt, epoch_le. congruence. Qed.
Lemma epoch_le_not_lt a b : epoch_le a b ↔ ¬ epoch_lt b a.
Proof. unfold epoch_lt, epoch_le. rewrite (epoch_cmp_opp a b). destruct (epoch_cmp a b); simpl; naive_solver. Qed.

Definition epoch_debug (e : Epoch) : string :=
  "Epoch { data_loss_number: " +:+ pretty (data_loss_number e) +:+
  ", configuration_number: " +:+ pretty (configuration_number e) +:+ " }".

(** ** Roles and statuses *)

Inductive Role := Unknown | Primary | ActiveSecondary | IdleSecondary | RoleNone.

#[export] Instance Role_eq_dec : EqDecision Role.
Proof. solve_decision. Defined.

Definition role_as_u8 (r : Role) : Z :=
  match r with
  | Unknown => 0 | Primary => 1 | ActiveSecondary => 2 | IdleSecondary => 3 | RoleNone => 4
  end.

Definition role_try_from (v : Z) : result Z Role :=
  match v with
  | 0 => Ok Unknown
  | 1 => Ok Primary
  | 2 => Ok ActiveSecondary
  | 3 => Ok IdleSecondary
  | 4 => Ok RoleNone
  | other => Err other
  end.

Definition role_debug (r : Role) : string :=
  match r with
  | Unknown => "Unknown" | Primary => "Primary" | ActiveSecondary => "ActiveSecondary"
  | IdleSecondary => "IdleSecondary" | RoleNone => "None"
  end.

Inductive ReplicaStatus := Up | Down.
#[export] Instance ReplicaStatus_eq_dec : EqDecision ReplicaStatus.
Proof. solve_decision. Defined.
Definition replica_status_debug (s : ReplicaStatus) : string :=
  match s with Up => "Up" | Down => "Down" end.

Inductive OpenMode := OpenNew | OpenExisting.
#[export] Instance OpenMode_eq_dec : EqDecision OpenMode.
Proof. solve_decision. Defined.
Definition open_mode_debug (m : OpenMode) : string :=
  match m with OpenNew => "New" | OpenExisting => "Existing" end.

Inductive DataLossAction := DataLossNone | StateChanged.
#[export] Instance DataLossAction_eq_dec : EqDecision DataLossAction.
Proof. solve_decision. Defined.

Inductive AccessStatus := Granted | StReconfigurationPending | StNotPrimary | StNoWriteQuorum.
#[export] Instance AccessStatus_eq_dec : EqDecision AccessStatus.
Proof. solve_decision. Defined.

Definition access_as_u8 (s : AccessStatus) : Z :=
  match s with
  | Granted => 0 | StReconfigurationPending => 1 | StNotPrimary => 2 | StNoWriteQuorum => 3
  end.

Definition access_from_u8 (v : Z) : AccessStatus :=
  match v with
  | 0 => Granted
  | 1 => StReconfigurationPending
  | 2 => StNotPrimary
  | 3 => StNoWriteQuorum
  | _ => StNotPrimary
  end.

Lemma role_roundtrip r : role_try_from (role_as_u8 r) = Ok r.
Proof. by destruct r. Qed.

Lemma access_roundtrip s : access_from_u8 (access_as_u8 s) = s.
Proof. by destruct s. Qed.

#[export] Instance role_as_u8_inj : Inj (=) (=) role_as_u8.
Proof. by intros [] []. Qed.
#[export] Instance role_debug_inj : Inj (=) (=) role_debug.
Proof. by intros [] []. Qed.

(** ** Stable snapshots and replica set configurations *)

Record StableReplicaElectionMetadata := mkStableReplicaElectionMetadata {
  md_current_lsn : Lsn;
  md_committed_lsn : Lsn;
  md_first_retained_lsn : Lsn;
  md_deactivation_epoch : Epoch;
  md_deactivation_catch_up_lsn : Lsn;
}.
#[export] Instance StableReplicaElectionMetadata_eq_dec : EqDecision StableReplicaElectionMetadata.
Proof. solve_decision. Defined.

Record StableReplicaSnapshot := mkStableReplicaSnapshot {
  sr_id : ReplicaId;
  sr_instance_id : ReplicaInstanceId;
  sr_role : Role;
  sr_election_metadata : option StableReplicaElectionMetadata;
}.
#[export] Instance StableReplicaSnapshot_eq_dec : EqDecision StableReplicaSnapshot.
Proof. solve_decision. Defined.

Record StablePartitionSnapshot := mkStablePartitionSnapshot {
  sp_epoch : Epoch;
  sp_primary_id : ReplicaId;
  sp_members : list StableReplicaSnapshot;
  sp_write_quorum : Z;
}.
#[export] Instance StablePartitionSnapshot_eq_dec : EqDecision StablePartitionSnapshot.
Proof. solve_decision. Defined.

Record ReplicaInfo := mkReplicaInfo {
  ri_id : ReplicaId;
  ri_instance_id : ReplicaInstanceId;
  ri_role : Role;
  ri_status : ReplicaStatus;
  ri_replicator_address : string;
  ri_current_progress : Lsn;
  ri_catch_up_capability : Lsn;
  ri_must_catch_up : bool;
}.
#[export] Instance ReplicaInfo_eq_dec : EqDecision ReplicaInfo.
Proof. solve_decision. Defined.

Record ReplicaSetConfig := mkReplicaSetConfig {
  rc_members : list ReplicaInfo;
  rc_write_quorum : Z;
}.
#[export] Instance ReplicaSetConfig_eq_dec : EqDecision ReplicaSetConfig.
Proof. solve_decision. Defined.

Inductive ReplicaSetQuorumMode := QuorumAll | QuorumWrite.
#[export] Instance ReplicaSetQuorumMode_eq_dec : EqDecision ReplicaSetQuorumMode.
Proof. solve_decision. Defined.

Inductive ReplicaConfigurationMode := CatchUp | Current.
#[export] Instance ReplicaConfigurationMode_eq_dec : EqDecision ReplicaConfigurationMode.
Proof. solve_decision. Defined.

Record ReplicaConfigurationMemberStatus := mkReplicaConfigurationMemberStatus {
  cm_id : ReplicaId;
  cm_instance_id : ReplicaInstanceId;
  cm_role : Role;
}.
#[export] Instance ReplicaConfigurationMemberStatus_eq_dec : EqDecision ReplicaConfigurationMemberStatus.
Proof. solve_decision. Defined.

Record ReplicaConfigurationStatus := mkReplicaConfigurationStatus {
  cs_mode : ReplicaConfigurationMode;
  cs_members : list ReplicaConfigurationMemberStatus;
  cs_write_quorum : Z;
}.
#[export] Instance ReplicaConfigurationStatus_eq_dec : EqDecision ReplicaConfigurationStatus.
Proof. solve_decision. Defined.

Definition configuration_status_from_config
    (mode : ReplicaConfigurationMode) (config : ReplicaSetConfig) : ReplicaConfigurationStatus :=
  mkReplicaConfigurationStatus mode
    (sort_by_key cm_id
      ((λ member, mkReplicaConfigurationMemberStatus (ri_id member) (ri_instance_id member)
          (ri_role member)) <$> rc_members config))
    (rc_write_quorum config).

Record ReplicaElectionConfiguration := mkReplicaElectionConfiguration {
  ec_previous : option ReplicaConfigurationStatus;
  ec_current : ReplicaConfigurationStatus;
}.
#[export] Instance ReplicaElectionConfiguration_eq_dec : EqDecision ReplicaElectionConfiguration.
Proof. solve_decision. Defined.

Record ReplicaDeactivationInfo := mkReplicaDeactivationInfo {
  di_epoch : Epoch;
  di_catch_up_lsn : Lsn;
}.
#[export] Instance ReplicaDeactivationInfo_eq_dec : EqDecision ReplicaDeactivationInfo.
Proof. solve_decision. Defined.

(** ** Pod-local agent identity *)

(** [AgentGeneration::parse]: 32 bytes, each an ASCII digit or in [a..f]. *)
Definition lower_hex_byte (c : Ascii.ascii) : bool :=
  let n := Ascii.N_of_ascii c in
  ((48 <=? n) && (n <=? 57) || (97 <=? n) && (n <=? 102))%N.

Fixpoint string_forallb (f : Ascii.ascii → bool) (s : string) : bool :=
  match s with
  | EmptyString => true
  | String c s => f c && string_forallb f s
  end.

Definition agent_generation_parse (value : string) : result string AgentGeneration :=
  reject_if (negb (Nat.eqb (String.length value) 32) || negb (string_forallb lower_hex_byte value))
    "agent generation must be 32 lowercase hexadecimal characters";;
  Ok value.

(** [AgentControlVersion] wraps a [u64]. *)
Abbreviation AgentControlVersion := Z (only parsing).

Definition control_version_advance (v : AgentControlVersion) : AgentControlVersion :=
  u64_saturating_add v 1.

Definition control_version_debug (v : AgentControlVersion) : string :=
  "AgentControlVersion(" +:+ pretty v +:+ ")".

(** ** Reported faults and action results *)

Inductive FaultType := Transient | Permanent.

Inductive DurableActionErrorClass :=
| ClsInternal | ClsNotPrimary | ClsNoWriteQuorum | ClsReconfigurationPending
| ClsStaleEpoch | ClsCancelled | ClsClosed.
#[export] Instance DurableActionErrorClass_eq_dec : EqDecision DurableActionErrorClass.
Proof. solve_decision. Defined.

Definition error_class_debug (c : DurableActionErrorClass) : string :=
  match c with
  | ClsInternal => "Internal" | ClsNotPrimary => "NotPrimary" | ClsNoWriteQuorum => "NoWriteQuorum"
  | ClsReconfigurationPending => "ReconfigurationPending" | ClsStaleEpoch => "StaleEpoch"
  | ClsCancelled => "Cancelled" | ClsClosed => "Closed"
  end.

Inductive DurableActionState := Scheduled | InProgress | Completed | Failed.
#[export] Instance DurableActionState_eq_dec : EqDecision DurableActionState.
Proof. solve_decision. Defined.

(** ** Errors *)

Inductive RecoveryError :=
| EmptySnapshot
| DuplicateReplicaId (id : ReplicaId)
| DuplicateInstanceId (instance : ReplicaInstanceId)
| DuplicateHandleId (id : ReplicaId)
| DuplicateHandleInstanceId (instance : ReplicaInstanceId)
| MissingHandle (id : ReplicaId)
| ExtraHandle (id : ReplicaId)
| HandleInstanceMismatch (id : ReplicaId) (expected actual : ReplicaInstanceId)
| PrimaryMissing (id : ReplicaId)
| InvalidPrimaryCount (count : nat)
| ConflictingPrimary (expected actual : ReplicaId)
| UnsupportedStableRole (id : ReplicaId) (role : Role)
| InvalidWriteQuorum (actual expected : Z) (members : nat)
| EpochMismatch (id : ReplicaId) (expected actual : Epoch)
| RuntimeInstanceMismatch (id : ReplicaId) (expected actual : ReplicaInstanceId)
| RuntimeRoleMismatch (id : ReplicaId) (expected actual : Role)
| InvalidConfiguration (message : string).
#[export] Instance RecoveryError_eq_dec : EqDecision RecoveryError.
Proof. solve_decision. Defined.

(** The boxed error of [KubericError::Internal] is its rendered message. *)
Inductive KubericError :=
| NotPrimary
| NoWriteQuorum
| ReconfigurationPending
| StaleEpoch (got current : Epoch)
| Cancelled
| Closed
| AgentBusy
| ActionIdConflict (action_id : string)
| InvalidCorrelatedActionId
| ActionSignatureMismatch (action_id : string)
| UnsupportedControlProtocolVersion (got : Z)
| UnsupportedPeerProtocolVersion (got : Z)
| PeerStageIdConflict (message_id : string)
| PeerStageTargetMismatch (message : string)
| PeerStageStale (message : string)
| CorrelatedTargetMismatch (expected_id : ReplicaId) (expected_instance : ReplicaInstanceId)
    (actual_id : ReplicaId) (actual_instance : ReplicaInstanceId)
| StaleAgentGeneration (expected current : AgentGeneration)
| StaleAgentControlVersion (expected current : AgentControlVersion)
| CorrelatedContinuityUnavailable (action_id : string)
| RemoteAgentRequestRejected (message : string)
| RemoteAgentPreconditionRejected (message : string)
| RemoteAgentConflict (message : string)
| RemoteAgentContinuityUnavailable (message : string)
| RemoteControlProtocolUnsupported (message : string)
| RemotePeerRequestRejected (message : string)
| RemotePeerUnavailable (message : string)
| RemoteAgentTerminalFailure (class : DurableActionErrorClass) (message : string)
| Internal (message : string)
| Recovery (e : RecoveryError).
#[export] Instance KubericError_eq_dec : EqDecision KubericError.
Proof. solve_decision. Defined.

(** The [Display] text of the [#[error(...)]] attributes. *)
Definition recovery_error_to_string (e : RecoveryError) : string :=
  match e with
  | EmptySnapshot => "stable snapshot has no members"
  | DuplicateReplicaId id => "duplicate snapshot replica ID " +:+ pretty id
  | DuplicateInstanceId i => "duplicate snapshot incarnation " +:+ i
  | DuplicateHandleId id => "duplicate live handle replica ID " +:+ pretty id
  | DuplicateHandleInstanceId i => "duplicate live handle incarnation " +:+ i
  | MissingHandle id => "snapshot member " +:+ pretty id +:+ " has no current live handle"
  | ExtraHandle id => "live handle " +:+ pretty id +:+ " is absent from the stable snapshot"
  | HandleInstanceMismatch id expected actual =>
      "handle incarnation mismatch for replica " +:+ pretty id +:+ ": expected " +:+ expected +:+
      ", current " +:+ actual
  | PrimaryMissing id => "snapshot primary " +:+ pretty id +:+ " is not a member"
  | InvalidPrimaryCount n =>
      "stable snapshot must contain exactly one primary, found " +:+ pretty n
  | ConflictingPrimary expected actual =>
      "snapshot primary ID " +:+ pretty expected +:+ " conflicts with role primary " +:+ pretty actual
  | UnsupportedStableRole id role =>
      "replica " +:+ pretty id +:+ " has unsupported stable role " +:+ role_debug role
  | InvalidWriteQuorum actual expected members =>
      "invalid write quorum " +:+ pretty actual +:+ "; expected " +:+ pretty expected +:+ " for " +:+
      pretty members +:+ " members"
  | EpochMismatch id expected actual =>
      "runtime epoch mismatch for replica " +:+ pretty id +:+ ": expected " +:+ epoch_debug expected
      +:+ ", got " +:+ epoch_debug actual
  | RuntimeInstanceMismatch id expected actual =>
      "runtime incarnation mismatch for replica " +:+ pretty id +:+ ": expected " +:+ expected +:+
      ", got " +:+ actual
  | RuntimeRoleMismatch id expected actual =>
      "runtime role mismatch for replica " +:+ pretty id +:+ ": expected " +:+ role_debug expected +:+
      ", got " +:+ role_debug actual
  | InvalidConfiguration m => "driver stable configuration is inconsistent: " +:+ m
  end.

Definition error_to_string (e : KubericError) : string :=
  match e with
  | NotPrimary => "not primary"
  | NoWriteQuorum => "no write quorum"
  | ReconfigurationPending => "reconfiguration pending"
  | StaleEpoch got current =>
      "stale epoch: got " +:+ epoch_debug got +:+ ", current " +:+ epoch_debug current
  | Cancelled => "cancelled"
  | Closed => "closed"
  | AgentBusy => "replica agent is busy"
  | ActionIdConflict a => "correlated action ID " +:+ a +:+ " was reused with different input"
  | InvalidCorrelatedActionId => "correlated action ID must not be empty"
  | ActionSignatureMismatch a =>
      "correlated action " +:+ a +:+ " input signature does not match its payload"
  | UnsupportedControlProtocolVersion got =>
      "unsupported correlated control protocol version " +:+ pretty got
  | UnsupportedPeerProtocolVersion got =>
      "unsupported replica add/build peer protocol version " +:+ pretty got
  | PeerStageIdConflict m => "peer stage message ID " +:+ m +:+ " was reused with different input"
  | PeerStageTargetMismatch m => "peer stage target mismatch: " +:+ m
  | PeerStageStale m => "peer stage is stale: " +:+ m
  | CorrelatedTargetMismatch ei en ai an =>
      "correlated action target mismatch: expected replica " +:+ pretty ei +:+ "@" +:+ en +:+
      ", got " +:+ pretty ai +:+ "@" +:+ an
  | StaleAgentGeneration expected current =>
      "stale agent generation: expected " +:+ expected +:+ ", current " +:+ current
  | StaleAgentControlVersion expected current =>
      "stale agent control version: expected " +:+ control_version_debug expected +:+
      ", current " +:+ control_version_debug current
  | CorrelatedContinuityUnavailable a =>
      "correlated action " +:+ a +:+ " continuity is unavailable"
  | RemoteAgentRequestRejected m => "remote replica-agent request rejected: " +:+ m
  | RemoteAgentPreconditionRejected m => "remote replica-agent precondition rejected: " +:+ m
  | RemoteAgentConflict m => "remote replica-agent action conflict: " +:+ m
  | RemoteAgentContinuityUnavailable m => "remote replica-agent continuity unavailable: " +:+ m
  | RemoteControlProtocolUnsupported m => "remote replica-agent protocol unsupported: " +:+ m
  | RemotePeerRequestRejected m => "remote replica add/build peer request rejected: " +:+ m
  | RemotePeerUnavailable m => "remote replica add/build peer is unavailable: " +:+ m
  | RemoteAgentTerminalFailure c m =>
      "remote replica-agent terminal failure (" +:+ error_class_debug c +:+ "): " +:+ m
  | Internal m => m
  | Recovery e => recovery_error_to_string e
  end.
