(* ===== verification/Quorum.v ===== *)
(** The quorum tracker of a primary (kuberic-core/src/replicator/quorum.rs):
    pending writes, dual-configuration quorums, catch-up waiters and
    deadlines. Every method of [QuorumTracker] is a function from a tracker
    to the new tracker and the replies it sends on one-shot channels. *)

From S2P Require Import Prelude Types.

Set Default Goal Selector "!".

(** [Instant] and [Duration] in nanoseconds; the current time is an argument. *)
Abbreviation Instant := Z (only parsing).
Abbreviation Duration := Z (only parsing).

Definition DEFAULT_QUORUM_TIMEOUT : Duration := 5 * 10 ^ 9.

(** A one-shot sender, and what happens on it. *)
Abbreviation ReplyId := positive (only parsing).

Inductive Reply :=
| OpReply (r : ReplyId) (res : result KubericError Lsn)
| WaitReply (r : ReplyId) (res : result KubericError unit)
| ReplyDropped (r : ReplyId).

Definition reply_sender (e : Reply) : ReplyId :=
  match e with OpReply r _ | WaitReply r _ | ReplyDropped r => r end.

Record CatchUpWaiter := mkCatchUpWaiter {
  waiter_id : option string;
  waiter_mode : ReplicaSetQuorumMode;
  waiter_reply : ReplyId;
  waiter_deadline : Instant;
}.

Record PendingOp := mkPendingOp {
  acked_by : gset ReplicaId;
  op_reply : option ReplyId;
  op_lsn : Lsn;
  op_deadline : Instant;
}.
#[export] Instance eta_PendingOp : Settable PendingOp :=
  {| eta_record r := mkPendingOp (acked_by r) (op_reply r) (op_lsn r) (op_deadline r) |}.

Record QuorumTracker := mkQuorumTracker {
  pending : gmap Lsn PendingOp;
  current_members : gset ReplicaId;
  current_write_quorum : Z;
  previous_members : gset ReplicaId;
  previous_write_quorum : Z;
  must_catch_up_ids : gset ReplicaId;
  replica_acked_lsn : gmap ReplicaId Lsn;
  committed_lsn : Lsn;
  highest_lsn : Lsn;
  catch_up_baseline_lsn : Lsn;
  catch_up_waiters : list CatchUpWaiter;
  quorum_timeout : Duration;
  catch_up_failed : bool;
  catch_up_active : bool;
}.
#[export] Instance eta_QuorumTracker : Settable QuorumTracker :=
  {| eta_record r := mkQuorumTracker (pending r) (current_members r) (current_write_quorum r)
    (previous_members r) (previous_write_quorum r) (must_catch_up_ids r) (replica_acked_lsn r)
    (committed_lsn r) (highest_lsn r) (catch_up_baseline_lsn r) (catch_up_waiters r)
    (quorum_timeout r) (catch_up_failed r) (catch_up_active r) |}.

Definition with_timeout (timeout : Duration) : QuorumTracker :=
  mkQuorumTracker ∅ ∅ 0 ∅ 0 ∅ ∅ 0 0 0 [] timeout false false.

Definition tracker_new : QuorumTracker := with_timeout DEFAULT_QUORUM_TIMEOUT.

(** A method: the tracker it leaves and the replies it sends, in order. *)
Definition step : Type := QuorumTracker → QuorumTracker * list Reply.

Definition then_ (f g : step) : step := λ t,
  let '(t1, e1) := f t in
  let '(t2, e2) := g t1 in (t2, e1 ++ e2).
Infix ">>>" := then_ (at level 60, right associativity).

Definition modify (f : QuorumTracker → QuorumTracker) : step := λ t, (f t, []).

Fixpoint for_each {A} (l : list A) (body : A → step) : step :=
  match l with
  | [] => λ t, (t, [])
  | x :: l => body x >>> for_each l body
  end.

(** ** Quorum test *)

Definition count_acks_in_set (acked members : gset ReplicaId) : Z := as_u32 (size (acked ∩ members)).

Definition is_quorum_met (t : QuorumTracker) (acked : gset ReplicaId) : bool :=
  if current_write_quorum t =? 0 then false
  else
    let cc_met := current_write_quorum t <=? count_acks_in_set acked (current_members t) in
    if decide (previous_members t = ∅) then cc_met
    else if previous_write_quorum t =? 0 then false
    else
      let pc_met := previous_write_quorum t <=? count_acks_in_set acked (previous_members t) in
      cc_met && pc_met.

(** ** Per-replica progress *)

(** [entry(id).and_modify(|v| if lsn > *v { *v = lsn }).or_insert(lsn)]. *)
Definition bump_acked (id : ReplicaId) (lsn : Lsn) (m : gmap ReplicaId Lsn) : gmap ReplicaId Lsn :=
  match m !! id with
  | Some v => if v <? lsn then <[id := lsn]> m else m
  | None => <[id := lsn]> m
  end.

Definition all_acked (t : QuorumTracker) (ids : gset ReplicaId) (lsn : Lsn) : bool :=
  forallb (λ id, negb (default 0 (replica_acked_lsn t !! id) <? lsn)) (elements ids).

Definition is_caught_up (t : QuorumTracker) (mode : ReplicaSetQuorumMode) : bool :=
  if decide (pending t ≠ ∅) then false
  else
    let check_lsn := highest_lsn t in
    if check_lsn <=? catch_up_baseline_lsn t then true
    else
      match mode with
      | QuorumWrite => all_acked t (must_catch_up_ids t) check_lsn
      | QuorumAll => all_acked t (current_members t) check_lsn
      end.

Definition catch_up_attempt_failed (t : QuorumTracker) : bool := catch_up_failed t.

(** ** Commit *)

Definition send_op (r : option ReplyId) (res : result KubericError Lsn) : list Reply :=
  match r with Some r => [OpReply r res] | None => [] end.

Definition commit_op (op : PendingOp) (t : QuorumTracker) : PendingOp * QuorumTracker * list Reply :=
  let t := if committed_lsn t <? op_lsn op then t <| committed_lsn := op_lsn op |> else t in
  (op <| op_reply := None |>, t, send_op (op_reply op) (Ok (op_lsn op))).

(** The waiters taken out of the tracker: each one either gets its verdict
    or is pushed back. *)
Definition settle_waiters (verdict : CatchUpWaiter → option (result KubericError unit)) : step := λ t,
  (t <| catch_up_waiters := filter (λ w, verdict w = None) (catch_up_waiters t) |>,
   omap (λ w, WaitReply (waiter_reply w) <$> verdict w) (catch_up_waiters t)).

Definition notify_verdict (t : QuorumTracker) (w : CatchUpWaiter) : option (result KubericError unit) :=
  if catch_up_attempt_failed t then Some (Err NoWriteQuorum)
  else if is_caught_up t (waiter_mode w) then Some (Ok tt)
  else None.

Definition notify_catch_up_waiters : step := λ t, settle_waiters (notify_verdict t) t.

(** [self.pending.remove(&lsn)] followed by [commit_op]. *)
Definition commit_pending (lsn : Lsn) : step := λ t,
  match pending t !! lsn with
  | Some op =>
      let '(_, t, e) := commit_op op (t <| pending ::= delete lsn |>) in (t, e)
  | None => (t, [])
  end.

Definition committable (t : QuorumTracker) : list Lsn :=
  (filter (λ p : Lsn * PendingOp, is_quorum_met t (acked_by p.2) = true) (map_to_list (pending t))).*1.

Definition try_commit_pending : step := λ t, for_each (committable t) commit_pending t.

(** ** Deadlines *)

Definition expired_lsns (now : Instant) (t : QuorumTracker) : list Lsn :=
  (filter (λ p : Lsn * PendingOp, op_deadline p.2 ≤ now) (map_to_list (pending t))).*1.

Definition expire_op (lsn : Lsn) : step := λ t,
  match pending t !! lsn with
  | Some op => (t <| pending ::= delete lsn |>, send_op (op_reply op) (Err NoWriteQuorum))
  | None => (t, [])
  end.

Definition expire_verdict (now : Instant) (t : QuorumTracker) (w : CatchUpWaiter) :
    option (result KubericError unit) :=
  if catch_up_attempt_failed t || (waiter_deadline w <=? now) then Some (Err NoWriteQuorum)
  else if is_caught_up t (waiter_mode w) then Some (Ok tt)
  else None.

Definition mark_failed (expired : list Lsn) (t : QuorumTracker) : QuorumTracker :=
  if catch_up_active t && negb (bool_decide (expired = [])) then t <| catch_up_failed := true |> else t.

Definition expire_due (now : Instant) : step := λ t,
  let expired := expired_lsns now t in
  (modify (mark_failed expired) >>>
   for_each expired expire_op >>>
   (λ t, settle_waiters (expire_verdict now t) t)) t.

Definition next_deadline (t : QuorumTracker) : option Instant :=
  list_min ((op_deadline <$> (map_to_list (pending t)).*2) ++ (waiter_deadline <$> catch_up_waiters t)).

(** ** The methods callers use *)

Definition seed_progress (current_progress committed : Lsn) : step :=
  modify (λ t, t <| highest_lsn ::= λ h, Z.max h current_progress |>
                 <| committed_lsn ::= λ c, Z.max c committed |>).

(** The error a failed reply carries: the two variants callers match on are
    kept, any other is rendered. *)
Definition fail_error (error : KubericError) : KubericError :=
  match error with
  | NotPrimary => NotPrimary
  | Closed => Closed
  | e => Internal (error_to_string e)
  end.

Definition fail_all (error : KubericError) : step := λ t,
  (t <| pending := ∅ |> <| catch_up_waiters := [] |>
     <| catch_up_active := false |> <| catch_up_failed := false |>,
   (map_to_list (pending t) ≫= λ p, send_op (op_reply p.2) (Err (fail_error error))) ++
   ((λ w, WaitReply (waiter_reply w) (Err (fail_error error))) <$> catch_up_waiters t)).

Definition reset_progress_after_data_loss (current_progress committed : Lsn) : step :=
  fail_all (Internal "state changed after data loss") >>>
  modify (λ t, t <| highest_lsn := current_progress |> <| committed_lsn := committed |>
                 <| catch_up_baseline_lsn := current_progress |> <| replica_acked_lsn := ∅ |>).

Definition begin_catch_up (t : QuorumTracker) : QuorumTracker :=
  if catch_up_active t then t
  else t <| catch_up_baseline_lsn := highest_lsn t |> <| catch_up_failed := false |>
         <| catch_up_active := true |>.

Definition set_catch_up_configuration (now : Instant)
    (cm : gset ReplicaId) (cwq : Z) (pm : gset ReplicaId) (pwq : Z)
    (must_catch_up : gset ReplicaId) (member_progress : gmap ReplicaId Lsn) : step :=
  expire_due now >>>
  modify (λ t, t <| current_members := cm |> <| current_write_quorum := cwq |>
                 <| previous_members := pm |> <| previous_write_quorum := pwq |>
                 <| must_catch_up_ids := must_catch_up |>) >>>
  modify begin_catch_up >>>
  modify (λ t, t <| replica_acked_lsn ::= λ m, map_fold bump_acked m member_progress |>) >>>
  try_commit_pending >>>
  notify_catch_up_waiters.

Definition set_current_configuration (now : Instant) (cm : gset ReplicaId) (cwq : Z) : step :=
  expire_due now >>>
  modify (λ t, t <| current_members := cm |> <| current_write_quorum := cwq |>
                 <| previous_members := ∅ |> <| previous_write_quorum := 0 |>
                 <| must_catch_up_ids := ∅ |>
                 <| catch_up_active := false |> <| catch_up_failed := false |>) >>>
  try_commit_pending >>>
  notify_catch_up_waiters.

(** An entry that [HashMap::insert] overwrites is dropped with its sender. *)
Definition insert_pending (lsn : Lsn) (op : PendingOp) : step := λ t,
  (t <| pending ::= <[lsn := op]> |>,
   match pending t !! lsn with
   | Some old => match op_reply old with Some r => [ReplyDropped r] | None => [] end
   | None => []
   end).

Definition register (now : Instant) (lsn : Lsn) (primary_id : ReplicaId) (reply : ReplyId) : step := λ t,
  let t := if highest_lsn t <? lsn then t <| highest_lsn := lsn |> else t in
  let acked := {[primary_id]} in
  let t := t <| replica_acked_lsn ::= bump_acked primary_id lsn |> in
  let op := mkPendingOp acked (Some reply) lsn (now + quorum_timeout t) in
  let '(op, t, e) :=
    if is_quorum_met t (acked_by op) then commit_op op t else (op, t, []) in
  match op_reply op with
  | Some _ => let '(t, e') := insert_pending lsn op t in (t, e ++ e')
  | None => let '(t, e') := notify_catch_up_waiters t in (t, e ++ e')
  end.

Definition record_ack (lsn : Lsn) (replica_id : ReplicaId) : step := λ t,
  match pending t !! lsn with
  | None => notify_catch_up_waiters t
  | Some op =>
      let op := op <| acked_by ::= λ s, {[replica_id]} ∪ s |> in
      let t := t <| pending ::= <[lsn := op]> |> in
      if is_quorum_met t (acked_by op) then
        (commit_pending lsn >>> try_commit_pending >>> notify_catch_up_waiters) t
      else (t, [])
  end.

Definition ack (now : Instant) (lsn : Lsn) (replica_id : ReplicaId) : step :=
  expire_due now >>>
  modify (λ t, t <| replica_acked_lsn ::= bump_acked replica_id lsn |>) >>>
  record_ack lsn replica_id.

Definition pending_count (t : QuorumTracker) : nat := size (pending t).

Definition wait_for_catch_up_inner (now : Instant) (id : option string)
    (mode : ReplicaSetQuorumMode) (reply : ReplyId) : step := λ t,
  if catch_up_attempt_failed t then (t, [WaitReply reply (Err NoWriteQuorum)])
  else if is_caught_up t mode then (t, [WaitReply reply (Ok tt)])
  else
    let w := mkCatchUpWaiter id mode reply (now + quorum_timeout t) in
    (t <| catch_up_waiters ::= λ ws, ws ++ [w] |>, []).

Definition wait_for_catch_up (now : Instant) (mode : ReplicaSetQuorumMode) (reply : ReplyId) : step :=
  wait_for_catch_up_inner now None mode reply.

(** Remove the first waiter with this id and answer it [Cancelled]. *)
Definition remove_waiter (id : string) : step := λ t,
  match list_find (λ w, waiter_id w = Some id) (catch_up_waiters t) with
  | Some (i, w) =>
      (t <| catch_up_waiters ::= delete i |>, [WaitReply (waiter_reply w) (Err Cancelled)])
  | None => (t, [])
  end.

Definition wait_for_catch_up_tracked (now : Instant) (id : string)
    (mode : ReplicaSetQuorumMode) (reply : ReplyId) : step :=
  remove_waiter id >>> wait_for_catch_up_inner now (Some id) mode reply.

(** [cancel_catch_up_wait] also returns whether a waiter was found. *)
Definition cancel_catch_up_wait (id : string) : step := remove_waiter id.
Definition cancel_catch_up_wait_found (id : string) (t : QuorumTracker) : bool :=
  match list_find (λ w, waiter_id w = Some id) (catch_up_waiters t) with
  | Some _ => true | None => false
  end.

(** ** Histories of calls *)

Inductive TrackerOp :=
| OSeedProgress (current_progress committed : Lsn)
| OResetAfterDataLoss (current_progress committed : Lsn)
| OSetCatchUp (now : Instant) (cm : gset ReplicaId) (cwq : Z) (pm : gset ReplicaId) (pwq : Z)
    (must_catch_up : gset ReplicaId) (member_progress : gmap ReplicaId Lsn)
| OSetCurrent (now : Instant) (cm : gset ReplicaId) (cwq : Z)
| ORegister (now : Instant) (lsn : Lsn) (primary_id : ReplicaId) (reply : ReplyId)
| OAck (now : Instant) (lsn : Lsn) (replica_id : ReplicaId)
| OFailAll (error : KubericError)
| OWait (now : Instant) (id : option string) (mode : ReplicaSetQuorumMode) (reply : ReplyId)
| OCancelWait (id : string)
| OExpireDue (now : Instant).

Definition apply_op (op : TrackerOp) : step :=
  match op with
  | OSeedProgress p c => seed_progress p c
  | OResetAfterDataLoss p c => reset_progress_after_data_loss p c
  | OSetCatchUp now cm cwq pm pwq must progress =>
      set_catch_up_configuration now cm cwq pm pwq must progress
  | OSetCurrent now cm cwq => set_current_configuration now cm cwq
  | ORegister now lsn p r => register now lsn p r
  | OAck now lsn q => ack now lsn q
  | OFailAll e => fail_all e
  | OWait now None mode r => wait_for_catch_up now mode r
  | OWait now (Some id) mode r => wait_for_catch_up_tracked now id mode r
  | OCancelWait id => cancel_catch_up_wait id
  | OExpireDue now => expire_due now
  end.

Definition run_ops (ops : list TrackerOp) : step := for_each ops apply_op.

(** The example of the unit tests: three replicas, quorum two. *)
Example three_replica_quorum :
  (run_ops [OSetCurrent 0 {[1; 2; 3]} 2; ORegister 0 1 1 7; OAck 1 1 2] tracker_new).2
  = [OpReply 7 (Ok 1)].
Proof. vm_compute. reflexivity. Qed.
Example dual_config_quorum :
  (run_ops [OSetCatchUp 0 {[1; 2; 3]} 2 {[1; 2]} 2 ∅ ∅; ORegister 0 1 1 7; OAck 1 1 3] tracker_new).2 = [].
Proof. vm_compute. reflexivity. Qed.

(** ** Composition *)

Lemma then_fst f g t : ((f >>> g) t).1 = (g (f t).1).1.
Proof. unfold then_. destruct (f t) as [t1 e1]; simpl. by destruct (g t1). Qed.

Lemma then_snd f g t : ((f >>> g) t).2 = (f t).2 ++ (g (f t).1).2.
Proof. unfold then_. destruct (f t) as [t1 e1]; simpl. by destruct (g t1). Qed.

Lemma for_each_app {A} (l1 l2 : list A) (body : A → step) t :
  for_each (l1 ++ l2) body t = (for_each l1 body >>> for_each l2 body) t.
Proof.
  revert t. induction l1 as [|x l1 IH]; intros t; simpl; unfold then_.
  - by destruct (for_each l2 body t).
  - destruct (body x t) as [t1 e1]. rewrite IH. unfold then_.
    destruct (for_each l1 body t1) as [t2 e2]. destruct (for_each l2 body t2) as [t3 e3].
    by rewrite app_assoc.
Qed.

(** Methods are compared pointwise; sequencing respects that equality. *)
Definition step_eq : relation step := pointwise_relation QuorumTracker eq.

#[export] Instance step_eq_equivalence : Equivalence step_eq.
Proof. unfold step_eq. apply _. Qed.

#[export] Instance then_proper : Proper (step_eq ==> step_eq ==> step_eq) then_.
Proof. intros f f' Hf g g' Hg t. unfold then_. rewrite (Hf t). destruct (f' t). by rewrite (Hg _). Qed.

Lemma modify_then f g h : step_eq (modify f >>> modify g >>> h) (modify (λ t, g (f t)) >>> h).
Proof. intros t. unfold then_, modify. by destruct (h (g (f t))). Qed.

Create HintDb tracker.
Create Rewrite HintDb tracker_rw.
#[export] Hint Rewrite then_fst then_snd : tracker_rw.

(** ** The configuration part of a tracker *)

Definition config (t : QuorumTracker) : gset ReplicaId * Z * gset ReplicaId * Z :=
  (current_members t, current_write_quorum t, previous_members t, previous_write_quorum t).

Lemma is_quorum_met_config t1 t2 s :
  config t1 = config t2 → is_quorum_met t1 s = is_quorum_met t2 s.
Proof. unfold config, is_quorum_met. by intros [= -> -> -> ->]. Qed.

(** What the test promises, with the numbers of distinct members. *)
Definition write_quorum (t : QuorumTracker) (s : gset ReplicaId) : Prop :=
  current_write_quorum t ≠ 0 ∧
  current_write_quorum t ≤ Z.of_nat (size (s ∩ current_members t)) ∧
  (previous_members t = ∅ ∨
   previous_write_quorum t ≠ 0 ∧ previous_write_quorum t ≤ Z.of_nat (size (s ∩ previous_members t))).

Lemma is_quorum_met_sound t s : is_quorum_met t s = true → write_quorum t s.
Proof.
  unfold is_quorum_met, write_quorum, count_acks_in_set.
  pose proof (as_u32_le (size (s ∩ current_members t))).
  pose proof (as_u32_le (size (s ∩ previous_members t))).
  destruct (Z.eqb_spec (current_write_quorum t) 0); [done|].
  case_decide; [intros ?%Z.leb_le; split_and!; [lia|lia|by left]|].
  destruct (Z.eqb_spec (previous_write_quorum t) 0); [done|].
  intros [?%Z.leb_le ?%Z.leb_le]%andb_prop. split_and!; [lia|lia|right; lia].
Qed.

(** ** Every reply channel is answered once

    [outstanding] lists the senders the tracker still holds. *)

Definition outstanding (t : QuorumTracker) : list ReplyId :=
  omap op_reply (map_to_list (pending t)).*2 ++ (waiter_reply <$> catch_up_waiters t).

Definition conserves (f : step) : Prop :=
  ∀ t, outstanding (f t).1 ++ (reply_sender <$> (f t).2) ≡ₚ outstanding t.

Lemma conserves_then f g : conserves f → conserves g → conserves (f >>> g).
Proof.
  intros Hf Hg t. autorewrite with tracker_rw. rewrite fmap_app, <-(Hf t), <-(Hg (f t).1).
  rewrite <-!app_assoc. f_equiv. apply Permutation_app_comm.
Qed.

Lemma conserves_for_each {A} (l : list A) body :
  (∀ x, conserves (body x)) → conserves (for_each l body).
Proof.
  intros Hb. induction l as [|x l IH]; simpl; [|by apply conserves_then].
  intros t; simpl. by rewrite app_nil_r.
Qed.

Lemma conserves_modify f :
  (∀ t, pending (f t) = pending t ∧ catch_up_waiters (f t) = catch_up_waiters t) →
  conserves (modify f).
Proof.
  intros Hf t. unfold outstanding; simpl. destruct (Hf t) as [-> ->]. by rewrite app_nil_r.
Qed.

(** A tracker-dependent step conserves when each instance does. *)
Lemma conserves_self (f : QuorumTracker → step) :
  (∀ t0, conserves (f t0)) → conserves (λ t, f t t).
Proof. intros Hf t. apply Hf. Qed.

Lemma conserves_settle verdict : conserves (settle_waiters verdict).
Proof.
  intros t. unfold outstanding, settle_waiters; simpl. rewrite <-app_assoc. f_equiv.
  induction (catch_up_waiters t) as [|w ws IH]; simpl; [done|].
  rewrite filter_cons. destruct (verdict w) as [v|]; simpl.
  - rewrite <-Permutation_middle. by constructor.
  - by constructor.
Qed.

Lemma outstanding_delete t lsn op :
  pending t !! lsn = Some op →
  outstanding t ≡ₚ option_list (op_reply op) ++ outstanding (t <| pending ::= delete lsn |>).
Proof.
  intros Hop. unfold outstanding; simpl. rewrite <-(map_to_list_delete _ _ _ Hop); simpl.
  by destruct (op_reply op).
Qed.

Lemma outstanding_insert t lsn op :
  pending t !! lsn = None →
  outstanding (t <| pending ::= <[lsn := op]> |>) ≡ₚ option_list (op_reply op) ++ outstanding t.
Proof.
  intros Hop. unfold outstanding; simpl. rewrite (map_to_list_insert _ _ _ Hop). simpl.
  by destruct (op_reply op).
Qed.

Lemma sender_send_op o res : reply_sender <$> send_op o res = option_list o.
Proof. by destruct o. Qed.
#[export] Hint Rewrite sender_send_op : tracker_rw.

Lemma outstanding_committed t op : outstanding (commit_op op t).1.2 = outstanding t.
Proof. unfold commit_op. case_match; done. Qed.

Lemma commit_pending_eq lsn t op :
  pending t !! lsn = Some op →
  commit_pending lsn t =
    ((commit_op op (t <| pending ::= delete lsn |>)).1.2, send_op (op_reply op) (Ok (op_lsn op))).
Proof. unfold commit_pending. by intros ->. Qed.

Lemma conserves_commit_pending lsn : conserves (commit_pending lsn).
Proof.
  intros t. destruct (pending t !! lsn) as [op|] eqn:Hop.
  - rewrite (commit_pending_eq _ _ _ Hop). cbn [fst snd].
    rewrite outstanding_committed, sender_send_op, (outstanding_delete _ _ _ Hop).
    apply Permutation_app_comm.
  - unfold commit_pending. rewrite Hop; simpl. by rewrite app_nil_r.
Qed.

Lemma conserves_expire_op lsn : conserves (expire_op lsn).
Proof.
  intros t. unfold expire_op. destruct (pending t !! lsn) as [op|] eqn:Hop; cbn [fst snd].
  - rewrite sender_send_op, (outstanding_delete _ _ _ Hop). apply Permutation_app_comm.
  - simpl. by rewrite app_nil_r.
Qed.

Lemma conserves_try_commit : conserves try_commit_pending.
Proof.
  apply (conserves_self (λ t, for_each (committable t) commit_pending)).
  intros t0. apply conserves_for_each, conserves_commit_pending.
Qed.

Lemma conserves_notify : conserves notify_catch_up_waiters.
Proof. apply (conserves_self (λ t, settle_waiters (notify_verdict t))). intros t0. apply conserves_settle. Qed.

#[export] Hint Resolve conserves_then conserves_settle conserves_commit_pending
  conserves_expire_op conserves_try_commit conserves_notify : tracker.

Lemma conserves_expire_due now : conserves (expire_due now).
Proof.
  apply (conserves_self (λ t, modify (mark_failed (expired_lsns now t)) >>>
    for_each (expired_lsns now t) expire_op >>> (λ t, settle_waiters (expire_verdict now t) t))).
  intros t0. repeat apply conserves_then.
  - apply conserves_modify. intros t. unfold mark_failed. by case_match.
  - apply conserves_for_each. auto with tracker.
  - apply (conserves_self (λ t, settle_waiters (expire_verdict now t))). auto with tracker.
Qed.
#[export] Hint Resolve conserves_expire_due : tracker.

Lemma conserves_fail_all e : conserves (fail_all e).
Proof.
  intros t. unfold outstanding, fail_all; simpl. rewrite map_to_list_empty, fmap_app. cbn [omap list_omap fmap list_fmap app].
  f_equiv.
  - induction (map_to_list (pending t)) as [|[k op] l IH]; [done|].
    rewrite bind_cons, fmap_app, sender_send_op, IH. cbn. by destruct (op_reply op).
  - rewrite <-list_fmap_compose. done.
Qed.

Lemma conserves_reset p c : conserves (reset_progress_after_data_loss p c).
Proof. apply conserves_then; [apply conserves_fail_all|]. by apply conserves_modify. Qed.

Lemma conserves_set_catch_up now cm cwq pm pwq must progress :
  conserves (set_catch_up_configuration now cm cwq pm pwq must progress).
Proof.
  repeat apply conserves_then; auto with tracker; apply conserves_modify; [done| |done].
  intros t. unfold begin_catch_up. by case_match.
Qed.

Lemma conserves_set_current now cm cwq : conserves (set_current_configuration now cm cwq).
Proof. repeat apply conserves_then; auto with tracker. by apply conserves_modify. Qed.

Lemma conserves_insert_pending lsn op t :
  outstanding (insert_pending lsn op t).1 ++ (reply_sender <$> (insert_pending lsn op t).2)
  ≡ₚ option_list (op_reply op) ++ outstanding t.
Proof.
  unfold insert_pending. destruct (pending t !! lsn) as [old|] eqn:Hold; cbn [fst snd].
  - rewrite (outstanding_delete t lsn old Hold).
    assert (t <| pending ::= <[lsn := op]> |> =
      (t <| pending ::= delete lsn |>) <| pending ::= <[lsn := op]> |>) as ->.
    { destruct t; simpl. unfold over; simpl. by rewrite insert_delete_eq. }
    rewrite outstanding_insert by (simpl; apply lookup_delete_eq).
    rewrite <-app_assoc. f_equiv.
    destruct (op_reply old); simpl; [by rewrite <-Permutation_cons_append|by rewrite app_nil_r].
  - rewrite outstanding_insert by done. simpl. by rewrite app_nil_r.
Qed.

(** The sender a call hands over. *)
Definition new_reply (op : TrackerOp) : option ReplyId :=
  match op with
  | ORegister _ _ _ r | OWait _ _ _ r => Some r
  | _ => None
  end.

Lemma conserves_register now lsn p r t :
  outstanding (register now lsn p r t).1 ++ (reply_sender <$> (register now lsn p r t).2)
  ≡ₚ r :: outstanding t.
Proof.
  unfold register.
  set (t1 := (if highest_lsn t <? lsn then _ else t) <| replica_acked_lsn ::= bump_acked p lsn |>).
  assert (outstanding t1 = outstanding t) as Ht1 by (subst t1; by case_match).
  set (op := mkPendingOp _ _ _ _). destruct (is_quorum_met t1 (acked_by op)).
  - cbn [commit_op]. pose proof (outstanding_committed t1 op) as Hc. unfold commit_op in Hc |- *.
    cbn [fst snd op_reply] in *. set (t2 := if committed_lsn t1 <? op_lsn op then _ else t1) in *.
    pose proof (conserves_notify t2) as Hn. destruct (notify_catch_up_waiters t2) as [t3 e3].
    cbn [fst snd] in *. cbn. rewrite <-Permutation_middle. constructor. by rewrite Hn, Hc, Ht1.
  - cbn [op_reply op]. pose proof (conserves_insert_pending lsn op t1) as Hi.
    destruct (insert_pending lsn op t1) as [t3 e3]. cbn in *. by rewrite Hi, Ht1.
Qed.

Lemma conserves_remove_waiter id : conserves (remove_waiter id).
Proof.
  intros t. unfold remove_waiter. destruct (list_find _ _) as [[i w]|] eqn:Hf; cbn.
  - apply list_find_Some in Hf as (Hi & _ & _). unfold outstanding; simpl.
    rewrite <-app_assoc. f_equiv. rewrite list_fmap_delete.
    assert ((waiter_reply <$> catch_up_waiters t) !! i = Some (waiter_reply w)) as Hr
      by (by rewrite list_lookup_fmap, Hi).
    symmetry. etrans; [exact (delete_Permutation _ _ _ Hr)|]. apply Permutation_cons_append.
  - by rewrite app_nil_r.
Qed.

Lemma conserves_wait_inner now id mode r t :
  outstanding (wait_for_catch_up_inner now id mode r t).1 ++
    (reply_sender <$> (wait_for_catch_up_inner now id mode r t).2) ≡ₚ r :: outstanding t.
Proof.
  unfold wait_for_catch_up_inner, outstanding.
  case_match; [|case_match]; cbn; [by rewrite <-Permutation_cons_append..|].
  rewrite app_nil_r, fmap_app, app_assoc. cbn. by rewrite <-Permutation_cons_append.
Qed.

Lemma conserves_apply_op op t :
  outstanding (apply_op op t).1 ++ (reply_sender <$> (apply_op op t).2)
  ≡ₚ option_list (new_reply op) ++ outstanding t.
Proof.
  destruct op as [| | | | | | |now [id|] mode r| |]; cbn [new_reply option_list app].
  - by apply conserves_modify.
  - apply conserves_reset.
  - apply conserves_set_catch_up.
  - apply conserves_set_current.
  - apply conserves_register.
  - repeat apply conserves_then; auto with tracker; [by apply conserves_modify|].
    intros t1. unfold record_ack. destruct (pending t1 !! lsn) as [op|] eqn:Hop; [|apply conserves_notify].
    set (op' := op <| acked_by ::= _ |>). set (t2 := t1 <| pending ::= <[lsn := op']> |>).
    assert (outstanding t2 ≡ₚ outstanding t1) as Ht2.
    { rewrite (outstanding_delete t2 lsn op') by (simpl; apply lookup_insert_eq).
      rewrite (outstanding_delete t1 lsn op Hop). subst t2; simpl. unfold over; simpl.
      unfold outstanding; simpl. by rewrite delete_insert_eq. }
    case_match; [|by simpl; rewrite app_nil_r].
    rewrite <-Ht2. repeat apply conserves_then; auto with tracker.
  - apply conserves_fail_all.
  - cbn [apply_op]. unfold wait_for_catch_up_tracked. autorewrite with tracker_rw.
    rewrite fmap_app, <-(conserves_remove_waiter id t).
    change (option_list (Some r)) with [r]. rewrite (app_assoc [r]).
    change ([r] ++ ?l) with (r :: l). rewrite <-(conserves_wait_inner now (Some id) mode r), <-!app_assoc.
    f_equiv. apply Permutation_app_comm.
  - apply conserves_wait_inner.
  - apply conserves_remove_waiter.
  - apply conserves_expire_due.
Qed.

(** ** Commits are backed by acknowledgements *)

(** Steps that only take writes out of [pending] and keep the configuration. *)
Definition shrinks (f : step) : Prop :=
  ∀ t, pending (f t).1 ⊆ pending t ∧ config (f t).1 = config t.

(** Steps that answer no write with success. *)
Definition quiet (f : step) : Prop := ∀ t r lsn, OpReply r (Ok lsn) ∉ (f t).2.

Lemma shrinks_then f g : shrinks f → shrinks g → shrinks (f >>> g).
Proof.
  intros Hf Hg t. autorewrite with tracker_rw.
  destruct (Hf t) as [Hp Hc], (Hg (f t).1) as [Hp' Hc'].
  split; [by etrans|by rewrite Hc'].
Qed.

Lemma shrinks_for_each {A} (l : list A) body : (∀ x, shrinks (body x)) → shrinks (for_each l body).
Proof. intros Hb. induction l as [|x l IH]; simpl; [by intros t|by apply shrinks_then]. Qed.

Lemma shrinks_self (f : QuorumTracker → step) : (∀ t0, shrinks (f t0)) → shrinks (λ t, f t t).
Proof. intros Hf t. apply Hf. Qed.

Lemma quiet_then f g : quiet f → quiet g → quiet (f >>> g).
Proof. intros Hf Hg t r lsn. autorewrite with tracker_rw. rewrite elem_of_app. by intros [?%Hf|?%Hg]. Qed.

Lemma quiet_for_each {A} (l : list A) body : (∀ x, quiet (body x)) → quiet (for_each l body).
Proof.
  intros Hb. induction l as [|x l IH]; simpl; [|by apply quiet_then].
  intros t r lsn. apply not_elem_of_nil.
Qed.

Lemma quiet_modify f : quiet (modify f).
Proof. intros t r lsn. apply not_elem_of_nil. Qed.

Lemma shrinks_settle v : shrinks (settle_waiters v).
Proof. by intros t. Qed.

Lemma quiet_settle v : quiet (settle_waiters v).
Proof. intros t r lsn. unfold settle_waiters; cbn [snd]. rewrite list_elem_of_omap. intros (w & _ & Hw). by destruct (v w). Qed.

Lemma shrinks_notify : shrinks notify_catch_up_waiters.
Proof. by intros t. Qed.

Lemma quiet_notify : quiet notify_catch_up_waiters.
Proof. intros t. apply quiet_settle. Qed.

Lemma shrinks_commit_pending lsn : shrinks (commit_pending lsn).
Proof.
  intros t. unfold commit_pending. case_match; [|done]. unfold commit_op.
  case_match; simpl; (split; [apply delete_subseteq|done]).
Qed.

Lemma shrinks_expire_op lsn : shrinks (expire_op lsn).
Proof. intros t. unfold expire_op. case_match; [|done]. simpl. split; [apply delete_subseteq|done]. Qed.

Lemma quiet_expire_op lsn : quiet (expire_op lsn).
Proof.
  intros t r lsn'. unfold expire_op. case_match; [|apply not_elem_of_nil].
  unfold send_op. simpl. case_match; [by intros ?%list_elem_of_singleton|apply not_elem_of_nil].
Qed.

Lemma shrinks_try_commit : shrinks try_commit_pending.
Proof.
  apply (shrinks_self (λ t, for_each (committable t) commit_pending)).
  intros t0. apply shrinks_for_each, shrinks_commit_pending.
Qed.

Lemma shrinks_expire_due now : shrinks (expire_due now).
Proof.
  apply (shrinks_self (λ t, modify (mark_failed (expired_lsns now t)) >>>
    for_each (expired_lsns now t) expire_op >>> (λ t, settle_waiters (expire_verdict now t) t))).
  intros t0. repeat apply shrinks_then; [|apply shrinks_for_each, shrinks_expire_op|by intros t].
  intros t. unfold modify, mark_failed; simpl. by case_match.
Qed.

Lemma quiet_expire_due now : quiet (expire_due now).
Proof.
  intros t. apply quiet_then; [apply quiet_modify|]. apply quiet_then; [apply quiet_for_each, quiet_expire_op|].
  intros t'. apply quiet_settle.
Qed.

#[export] Hint Resolve shrinks_then shrinks_settle shrinks_notify shrinks_commit_pending
  shrinks_expire_op shrinks_try_commit shrinks_expire_due quiet_then quiet_modify quiet_settle
  quiet_notify quiet_expire_op quiet_expire_due : tracker.

Section acked.
  (** [A lsn s]: the replicas of [s] have acknowledged [lsn]. *)
  Context (A : Lsn → gset ReplicaId → Prop).

Definition acks_ok (t : QuorumTracker) : Prop :=
  map_Forall (λ lsn op, op_lsn op = lsn ∧ A lsn (acked_by op)) (pending t).

Definition sound (f : step) : Prop := ∀ t r lsn, acks_ok t → OpReply r (Ok lsn) ∈ (f t).2 →
  ∃ s, A lsn s ∧ write_quorum (f t).1 s.

Lemma acks_ok_shrinks f t : shrinks f → acks_ok t → acks_ok (f t).1.
Proof.
  intros Hf Ht lsn op Hop. apply (Ht lsn). eapply lookup_weaken; [done|]. apply Hf.
Qed.

Lemma write_quorum_config t1 t2 s : config t1 = config t2 → write_quorum t1 s → write_quorum t2 s.
Proof. unfold config, write_quorum. by intros [= -> -> -> ->]. Qed.

Lemma quiet_sound f : quiet f → sound f.
Proof. by intros Hf t r lsn _ ?%Hf. Qed.

Lemma sound_then f g :
  sound f → (∀ t, acks_ok t → acks_ok (f t).1) → sound g → shrinks g → sound (f >>> g).
Proof.
  intros Hf Hp Hg Hs t r lsn Ht. autorewrite with tracker_rw. rewrite elem_of_app. intros [Hin|Hin].
  - destruct (Hf t r lsn Ht Hin) as (s & ? & ?). exists s. split; [done|].
    eapply write_quorum_config; [|done]. symmetry. apply Hs.
  - by apply Hg in Hin; [|apply Hp].
Qed.

Lemma quiet_then_sound f g :
  quiet f → (∀ t, acks_ok t → acks_ok (f t).1) → sound g → sound (f >>> g).
Proof.
  intros Hf Hp Hg t r lsn Ht. autorewrite with tracker_rw. rewrite elem_of_app.
  intros [?%Hf|Hin]; [done|]. by apply Hg in Hin; [|apply Hp].
Qed.

Lemma commit_pending_Ok lsn t r lsn' :
  OpReply r (Ok lsn') ∈ (commit_pending lsn t).2 → ∃ op, pending t !! lsn = Some op ∧ op_lsn op = lsn'.
Proof.
  unfold commit_pending. destruct (pending t !! lsn) as [op|] eqn:Hop; [|by intros ?%not_elem_of_nil].
  unfold commit_op, send_op. simpl. case_match; [|by intros ?%not_elem_of_nil].
  intros ?%list_elem_of_singleton. simplify_eq. eauto.
Qed.

Lemma for_each_commit_Ok l t r lsn :
  OpReply r (Ok lsn) ∈ (for_each l commit_pending t).2 →
  ∃ k op, k ∈ l ∧ pending t !! k = Some op ∧ op_lsn op = lsn.
Proof.
  revert t. induction l as [|k l IH]; intros t; simpl; [by intros ?%not_elem_of_nil|].
  autorewrite with tracker_rw. rewrite elem_of_app. intros [Hin|Hin].
  - apply commit_pending_Ok in Hin as (op & ? & ?). exists k, op. split; [left|done].
  - apply IH in Hin as (k' & op & ? & Hk & ?). exists k', op. split; [by right|]. split; [|done].
    eapply lookup_weaken; [done|]. apply shrinks_commit_pending.
Qed.

Lemma elem_of_committable t k :
  k ∈ committable t ↔ ∃ op, pending t !! k = Some op ∧ is_quorum_met t (acked_by op) = true.
Proof.
  unfold committable. rewrite list_elem_of_fmap. split.
  - intros ([k' op] & -> & [Hm Hin]%list_elem_of_filter). rewrite elem_of_map_to_list in Hin. eauto.
  - intros (op & Hop & Hm). exists (k, op). split; [done|].
    by rewrite list_elem_of_filter, elem_of_map_to_list.
Qed.

Lemma sound_try_commit : sound try_commit_pending.
Proof.
  intros t r lsn Ht Hin. apply for_each_commit_Ok in Hin as (k & op & Hk & Hop & Hl).
  apply elem_of_committable in Hk as (op' & Hop' & Hm).
  rewrite Hop in Hop'. injection Hop' as <-.
  destruct (Ht k op Hop) as [Hkl HA]. rewrite <-Hkl, Hl in HA.
  exists (acked_by op). split; [done|].
  eapply write_quorum_config; [symmetry; apply shrinks_try_commit|by apply is_quorum_met_sound].
Qed.
End acked.

#[export] Hint Resolve acks_ok_shrinks quiet_sound sound_try_commit : tracker.

Lemma commit_pending_lookup lsn t : pending (commit_pending lsn t).1 !! lsn = None.
Proof.
  unfold commit_pending. destruct (pending t !! lsn) as [op|] eqn:Hop; [|done].
  unfold commit_op. case_match; apply lookup_delete_eq.
Qed.

Lemma for_each_commit_lookup l t k : k ∈ l → pending (for_each l commit_pending t).1 !! k = None.
Proof.
  revert t. induction l as [|x l IH]; intros t; [by intros ?%not_elem_of_nil|].
  simpl. autorewrite with tracker_rw. intros [->|Hk]%elem_of_cons; [|by apply IH].
  eapply lookup_weaken_None; [apply (commit_pending_lookup x t)|].
  apply shrinks_for_each, shrinks_commit_pending.
Qed.

Lemma try_commit_no_quorum t k op :
  pending (try_commit_pending t).1 !! k = Some op → is_quorum_met t (acked_by op) = false.
Proof.
  intros Hop. destruct (is_quorum_met t (acked_by op)) eqn:Hm; [|done]. exfalso.
  assert (pending t !! k = Some op) as Hop'.
  { eapply lookup_weaken; [done|]. apply shrinks_try_commit. }
  unfold try_commit_pending in Hop. rewrite for_each_commit_lookup in Hop; [done|].
  apply elem_of_committable. eauto.
Qed.

(** Well-formedness: a pending write is stored under its LSN, still owes its
    caller an answer, and lacks a quorum under the configuration in force. *)
Definition tracker_wf (t : QuorumTracker) : Prop :=
  map_Forall (λ lsn op, op_lsn op = lsn ∧ is_Some (op_reply op) ∧
    is_quorum_met t (acked_by op) = false) (pending t).

(** The part that a configuration change cannot break. *)
Definition tracker_keyed (t : QuorumTracker) : Prop :=
  map_Forall (λ lsn op, op_lsn op = lsn ∧ is_Some (op_reply op)) (pending t).

Lemma wf_keyed t : tracker_wf t → tracker_keyed t.
Proof. intros Ht k op Hop. destruct (Ht k op Hop) as (? & ? & _). done. Qed.

Lemma wf_shrinks f t : shrinks f → tracker_wf t → tracker_wf (f t).1.
Proof.
  intros Hf Ht k op Hop. destruct (Hf t) as [Hp Hc].
  rewrite (is_quorum_met_config _ t) by done. apply (Ht k). by eapply lookup_weaken.
Qed.

Lemma keyed_shrinks f t : shrinks f → tracker_keyed t → tracker_keyed (f t).1.
Proof. intros Hf Ht k op Hop. apply (Ht k). eapply lookup_weaken; [done|]. apply Hf. Qed.

Lemma wf_try_commit t : tracker_keyed t → tracker_wf (try_commit_pending t).1.
Proof.
  intros Ht k op Hop. rewrite (is_quorum_met_config _ t) by apply shrinks_try_commit.
  destruct (keyed_shrinks _ t shrinks_try_commit Ht k op Hop) as [? ?].
  split_and!; [done..|]. by eapply try_commit_no_quorum.
Qed.

Lemma wf_same t t' :
  pending t' = pending t → config t' = config t → tracker_wf t → tracker_wf t'.
Proof. intros Hp Hc Ht k op. rewrite Hp, (is_quorum_met_config t' t) by done. apply Ht. Qed.

Lemma wf_with_timeout d : tracker_wf (with_timeout d).
Proof. apply map_Forall_empty. Qed.

Lemma wf_reconfigure now (f : QuorumTracker → QuorumTracker) t :
  (∀ t, pending (f t) = pending t) → tracker_wf t →
  tracker_wf ((expire_due now >>> modify f >>> try_commit_pending >>> notify_catch_up_waiters) t).1.
Proof.
  intros Hf Ht. autorewrite with tracker_rw. apply (wf_shrinks _ _ shrinks_notify).
  apply wf_try_commit. unfold tracker_keyed, modify; cbn [fst]. rewrite Hf. apply wf_keyed.
  by apply wf_shrinks; [apply shrinks_expire_due|].
Qed.

Lemma wf_register now lsn p r t : tracker_wf t → tracker_wf (register now lsn p r t).1.
Proof.
  intros Ht. unfold register.
  set (t1 := (if highest_lsn t <? lsn then _ else t) <| replica_acked_lsn ::= bump_acked p lsn |>).
  assert (pending t1 = pending t ∧ config t1 = config t) as [Hp Hc] by (subst t1; by case_match).
  assert (tracker_wf t1) as Ht1.
  { intros k op. rewrite Hp, (is_quorum_met_config _ t) by done. apply Ht. }
  clearbody t1. destruct (is_quorum_met t1 _) eqn:Hm; unfold commit_op.
  - simpl. case_match; by apply Ht1.
  - simpl. intros k op. simpl. rewrite lookup_insert. case_decide as Hk; [|apply Ht1].
    intros [= <-]. subst. split_and!; [done|eauto|done].
Qed.

Lemma wf_record_ack lsn q t : tracker_wf t → tracker_wf (record_ack lsn q t).1.
Proof.
  intros Ht. unfold record_ack. destruct (pending t !! lsn) as [op|] eqn:Hop.
  2: by apply (wf_shrinks _ _ shrinks_notify).
  set (op' := op <| acked_by ::= _ |>). set (t1 := t <| pending ::= <[lsn := op']> |>).
  assert (tracker_keyed t1) as Ht1.
  { intros k o. subst t1; simpl. rewrite lookup_insert. case_decide; [|apply wf_keyed, Ht].
    intros [= <-]. subst. destruct (Ht _ _ Hop) as (? & ? & _). done. }
  destruct (is_quorum_met t1 (acked_by op')) eqn:Hm.
  - autorewrite with tracker_rw. apply (wf_shrinks _ _ shrinks_notify). apply wf_try_commit.
    by apply keyed_shrinks; [apply shrinks_commit_pending|].
  - intros k o. subst t1; cbn [fst]. intros Ho. destruct (Ht1 k o Ho) as [? ?].
    split_and!; [done..|]. revert Ho; simpl. rewrite lookup_insert. case_decide; [by intros [= <-]|].
    intros Ho. by destruct (Ht k o Ho) as (_ & _ & ?).
Qed.

(** The three assignments of [set_catch_up_configuration] as one. *)
Definition enter_catch_up (cm : gset ReplicaId) (cwq : Z) (pm : gset ReplicaId) (pwq : Z)
    (must : gset ReplicaId) (progress : gmap ReplicaId Lsn) (t : QuorumTracker) : QuorumTracker :=
  (begin_catch_up
    (t <| current_members := cm |> <| current_write_quorum := cwq |>
       <| previous_members := pm |> <| previous_write_quorum := pwq |>
       <| must_catch_up_ids := must |>))
  <| replica_acked_lsn ::= λ m, map_fold bump_acked m progress |>.

Lemma set_catch_up_eq now cm cwq pm pwq must progress :
  step_eq (set_catch_up_configuration now cm cwq pm pwq must progress)
    (expire_due now >>> modify (enter_catch_up cm cwq pm pwq must progress) >>>
     try_commit_pending >>> notify_catch_up_waiters).
Proof. unfold set_catch_up_configuration. by rewrite !modify_then. Qed.

Lemma enter_catch_up_pending cm cwq pm pwq must progress t :
  pending (enter_catch_up cm cwq pm pwq must progress t) = pending t.
Proof. unfold enter_catch_up, begin_catch_up. by case_match. Qed.

Lemma wf_set_catch_up now cm cwq pm pwq must progress t :
  tracker_wf t → tracker_wf (set_catch_up_configuration now cm cwq pm pwq must progress t).1.
Proof.
  intros Ht. rewrite (set_catch_up_eq _ _ _ _ _ _ _ t). apply wf_reconfigure; [|done].
  apply enter_catch_up_pending.
Qed.

Lemma wf_set_current now cm cwq t :
  tracker_wf t → tracker_wf (set_current_configuration now cm cwq t).1.
Proof. intros Ht. unfold set_current_configuration. by apply wf_reconfigure. Qed.

Lemma wf_ack now lsn q t : tracker_wf t → tracker_wf (ack now lsn q t).1.
Proof.
  intros Ht. unfold ack. autorewrite with tracker_rw. apply wf_record_ack.
  apply (wf_shrinks _ _ (shrinks_expire_due now)) in Ht. by apply (wf_same (expire_due now t).1).
Qed.

Lemma remove_waiter_same id t :
  pending (remove_waiter id t).1 = pending t ∧ config (remove_waiter id t).1 = config t.
Proof. unfold remove_waiter. by repeat case_match. Qed.

Lemma wait_inner_same now id mode r t :
  pending (wait_for_catch_up_inner now id mode r t).1 = pending t ∧
  config (wait_for_catch_up_inner now id mode r t).1 = config t.
Proof. unfold wait_for_catch_up_inner. by repeat case_match. Qed.

Lemma wf_fail_all e t : tracker_wf (fail_all e t).1.
Proof. apply map_Forall_empty. Qed.

Lemma wf_apply_op op t : tracker_wf t → tracker_wf (apply_op op t).1.
Proof.
  intros Ht. destruct op as [| | | | | | |now [id|] mode r| |]; cbn [apply_op].
  - by apply (wf_same t).
  - unfold reset_progress_after_data_loss. rewrite then_fst.
    apply (wf_same (fail_all (Internal "state changed after data loss") t).1); [done..|apply wf_fail_all].
  - by apply wf_set_catch_up.
  - by apply wf_set_current.
  - by apply wf_register.
  - by apply wf_ack.
  - apply wf_fail_all.
  - unfold wait_for_catch_up_tracked. rewrite then_fst.
    destruct (remove_waiter_same id t) as [Hp Hc].
    destruct (wait_inner_same now (Some id) mode r (remove_waiter id t).1) as [Hp' Hc'].
    apply (wf_same t); [by rewrite Hp'|by rewrite Hc'|done].
  - destruct (wait_inner_same now None mode r t). by apply (wf_same t).
  - destruct (remove_waiter_same id t). by apply (wf_same t).
  - by apply (wf_shrinks _ _ (shrinks_expire_due now)).
Qed.

Lemma wf_run_ops ops t : tracker_wf t → tracker_wf (run_ops ops t).1.
Proof.
  revert t. induction ops as [|op ops IH]; intros t Ht; [done|].
  unfold run_ops in *; simpl. rewrite then_fst. by apply IH, wf_apply_op.
Qed.

(** *** What a call adds to the acknowledgements *)

Lemma fail_all_quiet e : quiet (fail_all e).
Proof.
  intros t r l. unfold fail_all; cbn [snd]. rewrite elem_of_app, list_elem_of_bind, list_elem_of_fmap.
  intros [(p & Hp & _)|(w & ? & _)]; [|done]. unfold send_op in Hp.
  case_match; [by apply list_elem_of_singleton in Hp|by apply not_elem_of_nil in Hp].
Qed.

Lemma remove_waiter_quiet id : quiet (remove_waiter id).
Proof.
  intros t r l. unfold remove_waiter. repeat case_match; cbn [snd].
  - by intros ?%list_elem_of_singleton.
  - apply not_elem_of_nil.
Qed.

Lemma wait_inner_quiet now id mode r : quiet (wait_for_catch_up_inner now id mode r).
Proof.
  intros t r' l. unfold wait_for_catch_up_inner. repeat case_match; cbn [snd].
  all: by intros ?%list_elem_of_singleton || apply not_elem_of_nil.
Qed.

Section history.
  Context (A : Lsn → gset ReplicaId → Prop).

Definition admits (op : TrackerOp) : Prop :=
  match op with
  | ORegister _ lsn p _ => A lsn {[p]}
  | OAck _ lsn q => ∀ s, A lsn s → A lsn ({[q]} ∪ s)
  | _ => True
  end.

Lemma acks_same t t' : pending t' = pending t → acks_ok A t → acks_ok A t'.
Proof. unfold acks_ok. by intros ->. Qed.

Lemma acks_nil t : pending t = ∅ → acks_ok A t.
Proof. unfold acks_ok. intros ->. apply map_Forall_empty. Qed.

Lemma acks_reconfigure now f t :
  (∀ t, pending (f t) = pending t) → acks_ok A t →
  acks_ok A (modify f (expire_due now t).1).1.
Proof.
  intros Hf Ht. apply (acks_same (expire_due now t).1); [apply Hf|].
  apply acks_ok_shrinks; auto with tracker.
Qed.

Lemma register_acks now lsn p r t :
  A lsn {[p]} → acks_ok A t →
  acks_ok A (register now lsn p r t).1 ∧
  ∀ r' lsn', OpReply r' (Ok lsn') ∈ (register now lsn p r t).2 →
    lsn' = lsn ∧ write_quorum (register now lsn p r t).1 {[p]}.
Proof.
  intros HA Ht. unfold register.
  set (t1 := (if highest_lsn t <? lsn then _ else t) <| replica_acked_lsn ::= bump_acked p lsn |>).
  assert (acks_ok A t1) as Ht1 by (by apply (acks_same t); [subst t1; by case_match|]).
  clearbody t1. destruct (is_quorum_met t1 _) eqn:Hm; unfold commit_op; simpl.
  - apply is_quorum_met_sound in Hm. cbn [acked_by] in Hm. case_match; simpl.
    all: split; [exact Ht1|]; intros r' lsn' [[= <- <-]|Hin]%elem_of_cons; [done|].
    all: rewrite list_elem_of_omap in Hin; destruct Hin as (w & _ & Hw); by destruct (notify_verdict _ w).
  - split.
    + intros k op. simpl. rewrite lookup_insert. case_decide; [|apply Ht1].
      intros [= <-]. by subst.
    + intros r' lsn'. case_match; [case_match|]; by intros [?|?%not_elem_of_nil]%elem_of_cons || by intros ?%not_elem_of_nil.
Qed.

Lemma record_ack_acks lsn q t :
  (∀ s, A lsn s → A lsn ({[q]} ∪ s)) → acks_ok A t →
  acks_ok A (record_ack lsn q t).1 ∧
  ∀ r lsn', OpReply r (Ok lsn') ∈ (record_ack lsn q t).2 →
    ∃ s, A lsn' s ∧ write_quorum (record_ack lsn q t).1 s.
Proof.
  intros HA Ht. unfold record_ack. destruct (pending t !! lsn) as [op|] eqn:Hop.
  2: { split; [by apply acks_ok_shrinks; auto with tracker|]. by intros r l ?%quiet_notify. }
  set (op' := op <| acked_by ::= _ |>). set (t1 := t <| pending ::= <[lsn := op']> |>).
  destruct (Ht _ _ Hop) as [Hl HAop].
  assert (acks_ok A t1) as Ht1.
  { intros k o. subst t1; simpl. rewrite lookup_insert. case_decide; [|apply Ht].
    intros [= <-]. subst. split; [done|]. by apply HA. }
  destruct (is_quorum_met t1 (acked_by op')) eqn:Hm.
  2: split; [done|by intros r l ?%not_elem_of_nil].
  assert (shrinks (commit_pending lsn >>> try_commit_pending >>> notify_catch_up_waiters)) as Hs
    by auto with tracker.
  split; [by apply acks_ok_shrinks|]. intros r l. autorewrite with tracker_rw.
  rewrite !elem_of_app. intros [Hc|[Hc|?%quiet_notify]]; [..|done].
  - apply commit_pending_Ok in Hc as (o & Ho & <-). subst t1; simpl in Ho.
    rewrite lookup_insert_eq in Ho. injection Ho as <-.
    exists (acked_by op'). split; [change (op_lsn op') with (op_lsn op); rewrite Hl; by apply HA|].
    rewrite <-!then_fst. eapply write_quorum_config; [symmetry; apply Hs|].
    by apply is_quorum_met_sound.
  - apply (sound_try_commit A) in Hc as (s & Hs1 & Hs2).
    + exists s. split; [done|]. eapply write_quorum_config; [|exact Hs2]. symmetry. apply shrinks_notify.
    + apply acks_ok_shrinks; auto with tracker.
Qed.

Lemma reconfigure_acks now f t :
  (∀ t, pending (f t) = pending t) → acks_ok A t →
  let g := expire_due now >>> modify f >>> try_commit_pending >>> notify_catch_up_waiters in
  acks_ok A (g t).1 ∧
  ∀ r lsn, OpReply r (Ok lsn) ∈ (g t).2 → ∃ s, A lsn s ∧ write_quorum (g t).1 s.
Proof.
  intros Hf Ht g.
  assert (shrinks (try_commit_pending >>> notify_catch_up_waiters)) as Hs by auto with tracker.
  split.
  - unfold g. rewrite !(then_fst _ (modify f >>> _)), (then_fst (modify f)).
    apply acks_ok_shrinks; [done|]. by apply acks_reconfigure.
  - intros r lsn. apply (quiet_then_sound A); [apply quiet_expire_due| |..|done].
    + intros t1. apply acks_ok_shrinks; auto with tracker.
    + apply quiet_then_sound; [apply quiet_modify|intros t1; apply acks_same, Hf|].
      apply sound_then; auto with tracker.
Qed.

Lemma apply_op_acks op t :
  admits op → acks_ok A t →
  acks_ok A (apply_op op t).1 ∧
  ∀ r lsn, OpReply r (Ok lsn) ∈ (apply_op op t).2 → ∃ s, A lsn s ∧ write_quorum (apply_op op t).1 s.
Proof.
  intros Ha Ht. destruct op as [| | | | | | |now [id|] mode r| |]; cbn [apply_op admits] in *.
  - split; [by apply (acks_same t)|by intros r l ?%not_elem_of_nil].
  - split; [by apply acks_nil|]. intros r l. unfold reset_progress_after_data_loss.
    rewrite then_snd, app_nil_r. intros Hin. by apply fail_all_quiet in Hin.
  - rewrite (set_catch_up_eq _ _ _ _ _ _ _ t). apply reconfigure_acks; [|done].
    apply enter_catch_up_pending.
  - unfold set_current_configuration. by apply reconfigure_acks.
  - destruct (register_acks now lsn primary_id reply t Ha Ht) as [H1 H2].
    split; [done|]. intros r l [-> ?]%H2. eauto.
  - unfold ack. rewrite !then_fst, !then_snd.
    destruct (record_ack_acks lsn replica_id
      (modify (λ t, t <| replica_acked_lsn ::= bump_acked replica_id lsn |>) (expire_due now t).1).1 Ha)
      as [H1 H2]; [by apply acks_reconfigure|].
    split; [done|]. intros r l. rewrite !elem_of_app.
    by intros [?%quiet_expire_due|[?%not_elem_of_nil|?%H2]].
  - split; [by apply acks_nil|]. by intros r l ?%fail_all_quiet.
  - destruct (remove_waiter_same id t) as [Hp _].
    destruct (wait_inner_same now (Some id) mode r (remove_waiter id t).1) as [Hp' _].
    unfold wait_for_catch_up_tracked. rewrite then_fst, then_snd.
    split; [by apply (acks_same t); [rewrite Hp'|]|].
    intros r' l. rewrite elem_of_app. by intros [?%remove_waiter_quiet|?%wait_inner_quiet].
  - destruct (wait_inner_same now None mode r t) as [Hp _].
    split; [by apply (acks_same t)|]. by intros r' l ?%wait_inner_quiet.
  - destruct (remove_waiter_same id t) as [Hp _].
    split; [by apply (acks_same t)|]. by intros r' l ?%remove_waiter_quiet.
  - split; [by apply acks_ok_shrinks; auto with tracker|]. by intros r' l ?%quiet_expire_due.
Qed.
End history.

(** ** Histories from a fresh tracker *)

(** The replicas that acknowledged [lsn] since the tracker was last emptied. *)
Definition note_ack (lsn : Lsn) (s : gset ReplicaId) (op : TrackerOp) : gset ReplicaId :=
  match op with
  | ORegister _ l p _ => if decide (l = lsn) then {[p]} ∪ s else s
  | OAck _ l q => if decide (l = lsn) then {[q]} ∪ s else s
  | OFailAll _ | OResetAfterDataLoss _ _ => ∅
  | _ => s
  end.

Definition ackers (ops : list TrackerOp) (lsn : Lsn) : gset ReplicaId := foldl (note_ack lsn) ∅ ops.

Lemma ackers_snoc ops op lsn : ackers (ops ++ [op]) lsn = note_ack lsn (ackers ops lsn) op.
Proof. unfold ackers. by rewrite foldl_app. Qed.

Lemma run_ops_app ops1 ops2 t : run_ops (ops1 ++ ops2) t = (run_ops ops1 >>> run_ops ops2) t.
Proof. apply for_each_app. Qed.

Lemma run_ops_snoc ops op t :
  (run_ops (ops ++ [op]) t).1 = (apply_op op (run_ops ops t).1).1.
Proof. rewrite run_ops_app, then_fst. unfold run_ops. simpl. by rewrite then_fst. Qed.

Definition empties (op : TrackerOp) : bool :=
  match op with OFailAll _ | OResetAfterDataLoss _ _ => true | _ => false end.

Lemma note_ack_mono lsn s op : empties op = false → s ⊆ note_ack lsn s op.
Proof. intros. destruct op; simpl in *; try done; case_decide; set_solver. Qed.

Lemma note_ack_admits ops op : admits (λ l s, s ⊆ ackers (ops ++ [op]) l) op.
Proof.
  destruct op; simpl; try done; [|intros s Hs]; rewrite ackers_snoc in *; simpl in *;
    rewrite decide_True in * by done; set_solver.
Qed.

Lemma empties_acks A op t :
  empties op = true → acks_ok A (apply_op op t).1 ∧ quiet (apply_op op).
Proof.
  destruct op; try done; intros _; cbn [apply_op].
  - split; [by apply acks_nil|]. apply quiet_then; [apply fail_all_quiet|apply quiet_modify].
  - split; [by apply acks_nil|]. apply fail_all_quiet.
Qed.

Lemma acks_step ops op t :
  acks_ok (λ l s, s ⊆ ackers ops l) t →
  let A l s := s ⊆ ackers (ops ++ [op]) l in
  acks_ok A (apply_op op t).1 ∧
  ∀ r lsn, OpReply r (Ok lsn) ∈ (apply_op op t).2 → ∃ s, A lsn s ∧ write_quorum (apply_op op t).1 s.
Proof.
  intros Ht A. destruct (empties op) eqn:He.
  - destruct (empties_acks A op t He) as [? Hq]. split; [done|]. by intros r l ?%Hq.
  - apply apply_op_acks; [apply note_ack_admits|].
    intros l o Ho. destruct (Ht l o Ho) as [? Hs]. split; [done|]. simpl in *. unfold A.
    rewrite ackers_snoc. etrans; [exact Hs|]. by apply note_ack_mono.
Qed.

Lemma acks_run d ops : acks_ok (λ l s, s ⊆ ackers ops l) (run_ops ops (with_timeout d)).1.
Proof.
  induction ops as [|op ops IH] using rev_ind; [apply map_Forall_empty|].
  rewrite run_ops_snoc. by apply acks_step.
Qed.

(** C1. A write is reported committed only on a write quorum: whatever calls
    led there, when a call answers an operation with [Ok lsn] there is a set
    of replicas, each of which registered or acknowledged [lsn] since the
    tracker was last emptied, that holds the write quorum of the current
    configuration and, while a previous configuration is in force, the write
    quorum of the previous one too. *)
Theorem quorum_commit_sound d ops op r lsn :
  let t := (run_ops ops (with_timeout d)).1 in
  OpReply r (Ok lsn) ∈ (apply_op op t).2 →
  ∃ s, s ⊆ ackers (ops ++ [op]) lsn ∧ write_quorum (apply_op op t).1 s.
Proof. intros t Hr. eapply (acks_step ops op); [apply acks_run|exact Hr]. Qed.

Lemma quorum_commit_sound_witness :
  let t := (run_ops [OSetCatchUp 0 {[1; 2; 3]} 2 {[1; 2]} 2 ∅ ∅; ORegister 0 1 1 7; OAck 1 1 3]
    (with_timeout 9)).1 in
  OpReply 7 (Ok 1) ∈ (apply_op (OAck 2 1 2) t).2 ∧
  ∃ s, s ⊆ ackers [OSetCatchUp 0 {[1; 2; 3]} 2 {[1; 2]} 2 ∅ ∅; ORegister 0 1 1 7; OAck 1 1 3; OAck 2 1 2] 1 ∧
       write_quorum (apply_op (OAck 2 1 2) t).1 s.
Proof.
  assert (OpReply 7 (Ok 1) ∈ (apply_op (OAck 2 1 2)
    (run_ops [OSetCatchUp 0 {[1; 2; 3]} 2 {[1; 2]} 2 ∅ ∅; ORegister 0 1 1 7; OAck 1 1 3]
       (with_timeout 9)).1).2) as H by (vm_compute; left).
  split; [exact H|]. exact (quorum_commit_sound 9 _ _ 7 1 H).
Defined.

(** No reply is lost or sent twice: over any sequence of calls, the
    senders answered together with those the tracker still holds are exactly
    the senders the calls handed over. *)
Theorem replies_conserved d ops :
  (reply_sender <$> (run_ops ops (with_timeout d)).2) ++ outstanding (run_ops ops (with_timeout d)).1
  ≡ₚ omap new_reply ops.
Proof.
  induction ops as [|op ops IH] using rev_ind; [done|].
  rewrite run_ops_snoc, run_ops_app, then_snd, omap_app, <-IH.
  unfold run_ops at 2; simpl. rewrite then_snd, !fmap_app. simpl. rewrite app_nil_r.
  set (t := (run_ops ops (with_timeout d)).1). rewrite <-!app_assoc. f_equiv.
  rewrite (Permutation_app_comm (_ <$> _)), conserves_apply_op.
  rewrite Permutation_app_comm. by destruct (new_reply op).
Qed.

(** In every reachable tracker a pending write is filed under its own
    LSN, still holds the sender to answer, and has no write quorum: no commit
    is ever left waiting for another event once its quorum is there. *)
Theorem reachable_tracker_wf d ops : tracker_wf (run_ops ops (with_timeout d)).1.
Proof. apply wf_run_ops, wf_with_timeout. Qed.

(** ** Deadlines *)

Lemma expire_op_lookup lsn t k :
  pending (expire_op lsn t).1 !! k = if decide (k = lsn) then None else pending t !! k.
Proof.
  unfold expire_op. destruct (pending t !! lsn) as [op|] eqn:Hop; simpl.
  - unfold over; simpl. rewrite lookup_delete. repeat case_decide; congruence.
  - case_decide; [by subst|done].
Qed.

Lemma for_each_expire_lookup l t k :
  pending (for_each l expire_op t).1 !! k = if decide (k ∈ l) then None else pending t !! k.
Proof.
  revert t. induction l as [|x l IH]; intros t; simpl; [done|].
  rewrite then_fst, IH, expire_op_lookup. repeat case_decide; set_solver.
Qed.

Lemma elem_of_expired now t k :
  k ∈ expired_lsns now t ↔ ∃ op, pending t !! k = Some op ∧ op_deadline op ≤ now.
Proof.
  unfold expired_lsns. rewrite list_elem_of_fmap. split.
  - intros ([k' op] & -> & [Hd Hin]%list_elem_of_filter). rewrite elem_of_map_to_list in Hin. eauto.
  - intros (op & Hop & Hd). exists (k, op). by rewrite list_elem_of_filter, elem_of_map_to_list.
Qed.

Lemma mark_failed_pending e t : pending (mark_failed e t) = pending t.
Proof. unfold mark_failed. by case_match. Qed.

Lemma expire_due_lookup now t k op :
  pending (expire_due now t).1 !! k = Some op ↔ pending t !! k = Some op ∧ now < op_deadline op.
Proof.
  unfold expire_due. rewrite !then_fst. cbn [settle_waiters fst modify].
  change (pending (?x <| catch_up_waiters := _ |>)) with (pending x).
  rewrite for_each_expire_lookup, mark_failed_pending. case_decide as Hk.
  - split; [done|]. intros [Hop Hd]. apply elem_of_expired in Hk as (o & Ho & Hod).
    rewrite Hop in Ho. simplify_eq. lia.
  - split; [|tauto]. intros Hop. split; [done|]. rewrite elem_of_expired in Hk.
    destruct (decide (now < op_deadline op)); [done|]. destruct Hk. exists op. split; [done|lia].
Qed.

Lemma for_each_expire_reply l t k op r :
  NoDup l → k ∈ l → pending t !! k = Some op → op_reply op = Some r →
  OpReply r (Err NoWriteQuorum) ∈ (for_each l expire_op t).2.
Proof.
  revert t. induction l as [|x l IH]; intros t Hnd Hk Hop Hr; [by apply not_elem_of_nil in Hk|].
  simpl. rewrite then_snd, elem_of_app. apply NoDup_cons in Hnd as [Hx Hnd].
  apply elem_of_cons in Hk as [->|Hk].
  - left. unfold expire_op. rewrite Hop. simpl. rewrite Hr. left.
  - right. apply IH; [done..| |done]. rewrite expire_op_lookup, decide_False; [done|]. by intros ->.
Qed.

Lemma expired_NoDup now t : NoDup (expired_lsns now t).
Proof.
  unfold expired_lsns. apply NoDup_fmap_fst.
  - intros k o1 o2 [_ H1]%list_elem_of_filter [_ H2]%list_elem_of_filter.
    rewrite elem_of_map_to_list in H1, H2. congruence.
  - apply NoDup_filter, NoDup_map_to_list.
Qed.

Lemma expire_due_reply now t k op r :
  pending t !! k = Some op → op_deadline op ≤ now → op_reply op = Some r →
  OpReply r (Err NoWriteQuorum) ∈ (expire_due now t).2.
Proof.
  intros Hop Hd Hr. unfold expire_due. rewrite !then_snd, !elem_of_app. right. left.
  eapply for_each_expire_reply; [apply expired_NoDup| | |done].
  - apply elem_of_expired. eauto.
  - simpl. by rewrite mark_failed_pending.
Qed.

Lemma expire_due_waiter now t w :
  w ∈ catch_up_waiters (expire_due now t).1 → now < waiter_deadline w.
Proof.
  unfold expire_due. rewrite !then_fst. unfold settle_waiters. cbn [fst].
  set (t1 := (for_each _ _ _).1).
  change (catch_up_waiters (?x <| catch_up_waiters := ?y |>)) with y.
  rewrite list_elem_of_filter. unfold expire_verdict. intros [Hv _].
  destruct (Z.leb_spec (waiter_deadline w) now); [|done].
  by rewrite orb_true_r in Hv.
Qed.

(** Deadlines are kept: when [expire_due now] has run nothing overdue is
    left, so the next deadline the actor arms is in the future, and every
    write that was overdue has been answered [NoWriteQuorum]. *)
Theorem expire_due_complete now t :
  (∀ d, next_deadline (expire_due now t).1 = Some d → now < d) ∧
  (∀ lsn op r, pending t !! lsn = Some op → op_reply op = Some r → op_deadline op ≤ now →
     OpReply r (Err NoWriteQuorum) ∈ (expire_due now t).2 ∧ pending (expire_due now t).1 !! lsn = None).
Proof.
  split.
  - intros d [Hin _]%list_min_spec. apply elem_of_app in Hin as [Hin|Hin].
    + apply list_elem_of_fmap in Hin as (op & -> & Hop).
      apply list_elem_of_fmap in Hop as ([k op'] & -> & Hop). apply elem_of_map_to_list in Hop.
      by apply expire_due_lookup in Hop as [_ ?].
    + apply list_elem_of_fmap in Hin as (w & -> & Hw). by eapply expire_due_waiter.
  - intros lsn op r Hop Hr Hd. split; [by eapply expire_due_reply|].
    destruct (pending (expire_due now t).1 !! lsn) as [o|] eqn:Ho; [|done].
    apply expire_due_lookup in Ho as [Ho ?]. rewrite Hop in Ho. simplify_eq. lia.
Qed.

Lemma expire_due_complete_witness :
  let t := (run_ops [OSetCurrent 0 {[1; 2; 3]} 2; ORegister 0 1 1 7] (with_timeout 9)).1 in
  OpReply 7 (Err NoWriteQuorum) ∈ (expire_due 9 t).2 ∧ pending (expire_due 9 t).1 !! 1 = None.
Proof.
  intros t. destruct (expire_due_complete 9 t) as [_ H].
  apply (H 1 (mkPendingOp {[1]} (Some 7%positive) 1 9)); vm_compute; congruence.
Defined.

(** ** Acknowledgements in time and late *)

Lemma commit_pending_reply lsn t op r :
  pending t !! lsn = Some op → op_reply op = Some r →
  OpReply r (Ok (op_lsn op)) ∈ (commit_pending lsn t).2.
Proof. intros Hop Hr. rewrite (commit_pending_eq _ _ _ Hop). cbn [snd]. rewrite Hr. left. Qed.

Lemma record_ack_reply lsn q t op r :
  pending t !! lsn = Some op → op_reply op = Some r →
  is_quorum_met t ({[q]} ∪ acked_by op) = true →
  OpReply r (Ok (op_lsn op)) ∈ (record_ack lsn q t).2.
Proof.
  intros Hop Hr Hm. unfold record_ack. rewrite Hop.
  set (op' := op <| acked_by ::= _ |>). set (t1 := t <| pending ::= <[lsn := op']> |>).
  change (is_quorum_met t1 (acked_by op')) with (is_quorum_met t ({[q]} ∪ acked_by op)).
  rewrite Hm, then_snd, elem_of_app. left.
  apply (commit_pending_reply lsn t1 op'); [|done]. apply lookup_insert_eq.
Qed.

(** The acknowledgement that completes a quorum commits the write when it
    arrives before the deadline; after the deadline it cannot: the write is
    answered [NoWriteQuorum] by that very call and leaves the tracker. *)
Theorem ack_decides d ops now lsn q op :
  let t := (run_ops ops (with_timeout d)).1 in
  pending t !! lsn = Some op →
  ∃ r, op_reply op = Some r ∧
  (now < op_deadline op → is_quorum_met t ({[q]} ∪ acked_by op) = true →
     OpReply r (Ok lsn) ∈ (ack now lsn q t).2) ∧
  (op_deadline op ≤ now →
     OpReply r (Err NoWriteQuorum) ∈ (ack now lsn q t).2 ∧ pending (ack now lsn q t).1 !! lsn = None).
Proof.
  intros t Hop. destruct (reachable_tracker_wf d ops lsn op Hop) as (Hl & [r Hr] & _).
  exists r. split; [done|]. unfold ack. rewrite !then_snd, !then_fst.
  set (t1 := (modify _ _).1). split.
  - intros Hd Hm. rewrite !elem_of_app. right. right. rewrite <-Hl at 1.
    apply record_ack_reply; [|done|].
    + by apply expire_due_lookup.
    + rewrite (is_quorum_met_config _ t); [done|]. apply (shrinks_expire_due now t).
  - intros Hd. split; [rewrite elem_of_app; left; by eapply expire_due_reply|].
    assert (pending t1 !! lsn = None) as Hn.
    { destruct (pending t1 !! lsn) as [o|] eqn:Ho; [|done].
      apply expire_due_lookup in Ho as [Ho ?]. rewrite Hop in Ho. simplify_eq. lia. }
    unfold record_ack. rewrite Hn. eapply lookup_weaken_None; [exact Hn|]. apply shrinks_notify.
Qed.

Lemma ack_decides_witness :
  let t := (run_ops [OSetCurrent 0 {[1; 2; 3]} 2; ORegister 0 1 1 7] (with_timeout 9)).1 in
  OpReply 7 (Ok 1) ∈ (ack 8 1 3 t).2 ∧ OpReply 7 (Err NoWriteQuorum) ∈ (ack 9 1 3 t).2.
Proof.
  intros t.
  assert (pending t !! 1 = Some (mkPendingOp {[1]} (Some 7%positive) 1 9)) as Hp
    by (vm_compute; reflexivity).
  split.
  - destruct (ack_decides 9 [OSetCurrent 0 {[1; 2; 3]} 2; ORegister 0 1 1 7] 8 1 3 _ Hp)
      as (r & Hr & H & _). injection Hr as <-. apply H; vm_compute; reflexivity.
  - destruct (ack_decides 9 [OSetCurrent 0 {[1; 2; 3]} 2; ORegister 0 1 1 7] 9 1 3 _ Hp)
      as (r & Hr & _ & H). injection Hr as <-. apply H. vm_compute. congruence.
Defined.

(** ** Catch-up *)

Definition required (t : QuorumTracker) (mode : ReplicaSetQuorumMode) : gset ReplicaId :=
  match mode with QuorumWrite => must_catch_up_ids t | QuorumAll => current_members t end.

Definition caught_up (t : QuorumTracker) (mode : ReplicaSetQuorumMode) : Prop :=
  pending t = ∅ ∧ catch_up_failed t = false ∧
  (highest_lsn t ≤ catch_up_baseline_lsn t ∨
   ∀ id, id ∈ required t mode → highest_lsn t ≤ default 0 (replica_acked_lsn t !! id)).

Lemma all_acked_spec t ids lsn :
  all_acked t ids lsn = true ↔ ∀ id, id ∈ ids → lsn ≤ default 0 (replica_acked_lsn t !! id).
Proof.
  unfold all_acked. rewrite forallb_forall. split.
  - intros H id Hid. specialize (H id). rewrite <-list_elem_of_In, elem_of_elements in H.
    specialize (H Hid). apply negb_true_iff, Z.ltb_ge in H. done.
  - intros H id Hid%list_elem_of_In%elem_of_elements%H. apply negb_true_iff, Z.ltb_ge. done.
Qed.

Lemma is_caught_up_spec t mode :
  catch_up_attempt_failed t = false → is_caught_up t mode = true → caught_up t mode.
Proof.
  unfold is_caught_up, caught_up, catch_up_attempt_failed. intros Hf. case_decide as Hp; [done|].
  destruct (Z.leb_spec (highest_lsn t) (catch_up_baseline_lsn t)).
  - intros _. split_and!; [done..|]. by left.
  - destruct mode; intros Ha; (split_and!; [done..|right]; by apply all_acked_spec).
Qed.

(** [wait_ok t t' r]: [r] answers a waiter of [t], and [t'] has caught up. *)
Definition wait_ok (t t' : QuorumTracker) (r : ReplyId) : Prop :=
  ∃ w, w ∈ catch_up_waiters t ∧ waiter_reply w = r ∧ caught_up t' (waiter_mode w).

Definition wait_sound (f : step) : Prop :=
  ∀ t r, WaitReply r (Ok tt) ∈ (f t).2 → wait_ok t (f t).1 r.

(** Steps that answer no waiter with success and add none. *)
Definition mute (f : step) : Prop := ∀ t,
  (∀ r, WaitReply r (Ok tt) ∉ (f t).2) ∧ catch_up_waiters (f t).1 ⊆ catch_up_waiters t.

Lemma wait_sound_settle verdict t r :
  (∀ w, verdict w = Some (Ok tt) → caught_up t (waiter_mode w)) →
  WaitReply r (Ok tt) ∈ (settle_waiters verdict t).2 → wait_ok t (settle_waiters verdict t).1 r.
Proof.
  intros Hv. unfold settle_waiters; cbn [fst snd]. rewrite list_elem_of_omap. intros (w & Hw & Hr).
  destruct (verdict w) as [v|] eqn:Hvw; [|done]. simpl in Hr. simplify_eq.
  exists w. split_and!; [done..|]. by apply Hv.
Qed.

Lemma wait_sound_notify : wait_sound notify_catch_up_waiters.
Proof.
  intros t r. apply wait_sound_settle. intros w. unfold notify_verdict.
  destruct (catch_up_attempt_failed t) eqn:Hf; [done|]. case_match; [|done]. intros _.
  by apply is_caught_up_spec.
Qed.

Lemma mute_then f g : mute f → mute g → mute (f >>> g).
Proof.
  intros Hf Hg t. rewrite then_fst, then_snd. destruct (Hf t) as [H1 H2], (Hg (f t).1) as [H3 H4].
  split; [|by etrans]. intros r. rewrite elem_of_app. intros [?%H1|?%H3]; done.
Qed.

Lemma mute_for_each {A} (l : list A) body : (∀ x, mute (body x)) → mute (for_each l body).
Proof.
  intros Hb. induction l as [|x l IH]; simpl; [|by apply mute_then].
  intros t. split; [intros r; apply not_elem_of_nil|done].
Qed.

Lemma mute_modify f : (∀ t, catch_up_waiters (f t) = catch_up_waiters t) → mute (modify f).
Proof. intros Hf t. split; [intros r; apply not_elem_of_nil|]. simpl. by rewrite Hf. Qed.

Lemma mute_then_sound f g : mute f → wait_sound g → wait_sound (f >>> g).
Proof.
  intros Hf Hg t r. rewrite then_fst, then_snd, elem_of_app. destruct (Hf t) as [H1 H2].
  intros [?%H1|(w & Hw & Hr)%Hg]; [done|]. exists w. split; [by apply H2|done].
Qed.

Lemma mute_send r res l : ∀ r', WaitReply r' (Ok tt) ∈ send_op r res ++ l → WaitReply r' (Ok tt) ∈ l.
Proof.
  intros r' [Hin|]%elem_of_app; [|done]. destruct r; [by apply list_elem_of_singleton in Hin|].
  by apply not_elem_of_nil in Hin.
Qed.

Lemma mute_commit_pending lsn : mute (commit_pending lsn).
Proof.
  intros t. unfold commit_pending. case_match; [|split; [intros r; apply not_elem_of_nil|done]].
  unfold commit_op. split; [|cbn; by case_match].
  intros r. cbn [snd]. rewrite <-(app_nil_r (send_op _ _)). by intros ?%mute_send%not_elem_of_nil.
Qed.

Lemma mute_expire_op lsn : mute (expire_op lsn).
Proof.
  intros t. unfold expire_op. case_match; [|split; [intros r; apply not_elem_of_nil|done]].
  split; [|done]. intros r. cbn [snd]. rewrite <-(app_nil_r (send_op _ _)).
  by intros ?%mute_send%not_elem_of_nil.
Qed.

Lemma mute_try_commit : mute try_commit_pending.
Proof. intros t. unfold try_commit_pending. apply mute_for_each, mute_commit_pending. Qed.

Lemma wait_sound_expire_due now : wait_sound (expire_due now).
Proof.
  intros t r. unfold expire_due.
  assert (wait_sound (λ t, settle_waiters (expire_verdict now t) t)) as Hs.
  { intros t1 r1. apply wait_sound_settle. intros w. unfold expire_verdict.
    destruct (catch_up_attempt_failed t1) eqn:Hf; [done|]. simpl.
    repeat case_match; try done. intros _. by apply is_caught_up_spec. }
  apply mute_then_sound, mute_then_sound, Hs.
  - apply mute_modify. intros t1. unfold mark_failed. by case_match.
  - apply mute_for_each, mute_expire_op.
Qed.

#[export] Hint Resolve mute_then mute_then_sound mute_commit_pending mute_try_commit
  wait_sound_notify wait_sound_expire_due : tracker.

(** The instant at which a call first expires what is overdue. *)
Definition expires_at (op : TrackerOp) : option Instant :=
  match op with
  | OSetCatchUp now _ _ _ _ _ _ | OSetCurrent now _ _ | OAck now _ _ | OExpireDue now => Some now
  | _ => None
  end.

(** What an [Ok] sent to [r] by the call [op] on [t] rests on. *)
Definition wait_evidence (op : TrackerOp) (t : QuorumTracker) (r : ReplyId) : Prop :=
  (∃ now id mode, op = OWait now id mode r ∧ caught_up (apply_op op t).1 mode) ∨
  wait_ok t (apply_op op t).1 r ∨
  (∃ now, expires_at op = Some now ∧ wait_ok t (expire_due now t).1 r).

Lemma expire_then_Ok now g t r :
  wait_sound g → WaitReply r (Ok tt) ∈ ((expire_due now >>> g) t).2 →
  wait_ok t ((expire_due now >>> g) t).1 r ∨ wait_ok t (expire_due now t).1 r.
Proof.
  intros Hg. rewrite then_fst, then_snd, elem_of_app. intros [Hr|Hr].
  - right. by apply wait_sound_expire_due.
  - left. apply Hg in Hr as (w & Hw & Hr). exists w. split; [|done].
    revert Hw. unfold expire_due. rewrite !then_fst. unfold settle_waiters; cbn [fst].
    change (catch_up_waiters (?x <| catch_up_waiters := ?y |>)) with y.
    rewrite list_elem_of_filter. intros [_ Hw].
    apply (mute_for_each _ _ mute_expire_op) in Hw. revert Hw.
    unfold modify, mark_failed; simpl. by case_match.
Qed.

Lemma wait_sound_record_ack lsn q : wait_sound (record_ack lsn q).
Proof.
  intros t r. unfold record_ack. destruct (pending t !! lsn) as [op|]; [|apply wait_sound_notify].
  set (t1 := t <| pending ::= _ |>). case_match; [|by intros ?%not_elem_of_nil].
  intros Hr. eapply (mute_then_sound _ _ (mute_commit_pending lsn)) in Hr; [|auto with tracker].
  exact Hr.
Qed.

Lemma wait_sound_register now lsn p r : wait_sound (register now lsn p r).
Proof.
  intros t r'. unfold register.
  set (t1 := (if highest_lsn t <? lsn then _ else t) <| replica_acked_lsn ::= bump_acked p lsn |>).
  assert (catch_up_waiters t1 = catch_up_waiters t) as Hw by (subst t1; by case_match).
  clearbody t1. destruct (is_quorum_met t1 _); unfold commit_op; simpl.
  - set (t2 := if committed_lsn t1 <? lsn then _ else t1).
    assert (catch_up_waiters t2 = catch_up_waiters t) as Hw2 by (subst t2; by case_match).
    intros [?|Hr]%elem_of_cons; [done|].
    destruct (wait_sound_notify t2 r' Hr) as (w & Hin & Hrest). exists w. by rewrite <-Hw2.
  - case_match; [case_match|]; by intros [?|?%not_elem_of_nil]%elem_of_cons || by intros ?%not_elem_of_nil.
Qed.

Lemma wait_inner_Ok now id mode r t r' :
  WaitReply r' (Ok tt) ∈ (wait_for_catch_up_inner now id mode r t).2 →
  r' = r ∧ caught_up (wait_for_catch_up_inner now id mode r t).1 mode.
Proof.
  unfold wait_for_catch_up_inner. destruct (catch_up_attempt_failed t) eqn:Hf.
  - by intros ?%list_elem_of_singleton.
  - case_match; [|by intros ?%not_elem_of_nil]. intros ?%list_elem_of_singleton. simplify_eq.
    split; [done|]. by apply is_caught_up_spec.
Qed.

Lemma fail_all_mute e t r : WaitReply r (Ok tt) ∉ (fail_all e t).2.
Proof.
  unfold fail_all; cbn [snd]. rewrite elem_of_app, list_elem_of_bind, list_elem_of_fmap.
  intros [(p & Hp & _)|(w & ? & _)]; [|done]. rewrite <-(app_nil_r (send_op _ _)) in Hp.
  by apply mute_send, not_elem_of_nil in Hp.
Qed.

Lemma remove_waiter_mute id t r : WaitReply r (Ok tt) ∉ (remove_waiter id t).2.
Proof.
  unfold remove_waiter. repeat case_match; cbn [snd]; [by intros ?%list_elem_of_singleton|].
  apply not_elem_of_nil.
Qed.

(** A catch-up wait is granted only when the replicas it waits for have
    caught up: no write is pending, the attempt has not failed, and either
    nothing was written since the catch-up began or every replica the mode
    names has acknowledged the highest LSN. This holds in the state after the
    call, or, for a waiter released by the expiry that opens the call, in the
    state right after that expiry. *)
Theorem catch_up_wait_sound op t r :
  WaitReply r (Ok tt) ∈ (apply_op op t).2 → wait_evidence op t r.
Proof.
  unfold wait_evidence. destruct op as [| | | | | | |now [id|] mode r'| |]; cbn [apply_op expires_at].
  - by intros ?%not_elem_of_nil.
  - unfold reset_progress_after_data_loss. rewrite then_snd, elem_of_app.
    by intros [?%fail_all_mute|?%not_elem_of_nil].
  - intros Hr. right. rewrite (set_catch_up_eq _ _ _ _ _ _ _ t) in *.
    apply expire_then_Ok in Hr as [?|?]; [by left|right; eauto|].
    apply mute_then_sound; [|auto with tracker]. apply mute_modify.
    intros t1. unfold enter_catch_up, begin_catch_up. by case_match.
  - intros Hr. right. apply expire_then_Ok in Hr as [?|?]; [by left|right; eauto|].
    apply mute_then_sound; [by apply mute_modify|auto with tracker].
  - intros Hr. right. left. by apply wait_sound_register.
  - intros Hr. right. apply expire_then_Ok in Hr as [?|?]; [by left|right; eauto|].
    apply mute_then_sound; [by apply mute_modify|apply wait_sound_record_ack].
  - by intros ?%fail_all_mute.
  - unfold wait_for_catch_up_tracked. rewrite then_fst, then_snd, elem_of_app.
    intros [?%remove_waiter_mute|[-> ?]%wait_inner_Ok]; [done|]. left. eauto.
  - intros [-> ?]%wait_inner_Ok. left. unfold wait_for_catch_up. eauto 6.
  - by intros ?%remove_waiter_mute.
  - intros Hr. right. left. by apply wait_sound_expire_due.
Qed.

Lemma catch_up_wait_sound_witness :
  let t := (run_ops [OSetCatchUp 0 {[1; 2]} 2 {[1; 2]} 2 {[2]} ∅; ORegister 0 1 1 7;
    OWait 0 None QuorumWrite 8] (with_timeout 9)).1 in
  WaitReply 8 (Ok tt) ∈ (apply_op (OAck 1 1 2) t).2 ∧ wait_evidence (OAck 1 1 2) t 8.
Proof.
  assert (WaitReply 8 (Ok tt) ∈ (apply_op (OAck 1 1 2)
    (run_ops [OSetCatchUp 0 {[1; 2]} 2 {[1; 2]} 2 {[2]} ∅; ORegister 0 1 1 7;
      OWait 0 None QuorumWrite 8] (with_timeout 9)).1).2) as H by (vm_compute; right; left).
  split; [exact H|]. exact (catch_up_wait_sound _ _ _ H).
Defined.

(** ** The committed LSN *)

Definition rises (f : step) : Prop := ∀ t, committed_lsn t ≤ committed_lsn (f t).1.

Lemma rises_then f g : rises f → rises g → rises (f >>> g).
Proof. intros Hf Hg t. rewrite then_fst. etrans; [apply Hf|apply Hg]. Qed.

Lemma rises_for_each {A} (l : list A) body : (∀ x, rises (body x)) → rises (for_each l body).
Proof. intros Hb. induction l as [|x l IH]; simpl; [by intros t|by apply rises_then]. Qed.

Lemma rises_modify f : (∀ t, committed_lsn t ≤ committed_lsn (f t)) → rises (modify f).
Proof. intros Hf t. apply Hf. Qed.

Lemma rises_same f : (∀ t, committed_lsn (f t).1 = committed_lsn t) → rises f.
Proof. intros Hf t. by rewrite Hf. Qed.

Lemma rises_commit_op op t : committed_lsn t ≤ committed_lsn (commit_op op t).1.2.
Proof. unfold commit_op. destruct (Z.ltb_spec (committed_lsn t) (op_lsn op)); simpl; lia. Qed.

Lemma rises_commit_pending lsn : rises (commit_pending lsn).
Proof.
  intros t. destruct (pending t !! lsn) as [op|] eqn:Hop.
  - rewrite (commit_pending_eq _ _ _ Hop). etrans; [|apply rises_commit_op]. done.
  - unfold commit_pending. by rewrite Hop.
Qed.

Lemma rises_try_commit : rises try_commit_pending.
Proof. intros t. unfold try_commit_pending. apply rises_for_each, rises_commit_pending. Qed.

Lemma rises_settle v : rises (settle_waiters v).
Proof. by intros t. Qed.

Lemma rises_notify : rises notify_catch_up_waiters.
Proof. by intros t. Qed.

Lemma rises_expire_due now : rises (expire_due now).
Proof.
  intros t. unfold expire_due. apply rises_then; [|apply rises_then].
  - apply rises_modify. intros t1. unfold mark_failed. by case_match.
  - apply rises_for_each. intros l. apply rises_same. intros t1. unfold expire_op. by case_match.
  - by intros t1.
Qed.
#[export] Hint Resolve rises_then rises_commit_pending rises_try_commit rises_settle rises_notify
  rises_expire_due : tracker.

Lemma rises_record_ack lsn q : rises (record_ack lsn q).
Proof.
  intros t. unfold record_ack. destruct (pending t !! lsn) as [op|]; [|apply rises_notify].
  set (t1 := t <| pending ::= _ |>). case_match; [|done].
  change (committed_lsn t) with (committed_lsn t1). apply rises_then; auto with tracker.
Qed.

Lemma rises_register now lsn p r : rises (register now lsn p r).
Proof.
  intros t. unfold register.
  set (t1 := (if highest_lsn t <? lsn then _ else t) <| replica_acked_lsn ::= bump_acked p lsn |>).
  assert (committed_lsn t1 = committed_lsn t) as <- by (subst t1; by case_match).
  set (op := mkPendingOp _ _ _ _). destruct (is_quorum_met t1 (acked_by op)).
  - pose proof (rises_commit_op op t1) as Hc. unfold commit_op in *. cbn [fst snd op_reply] in *.
    etrans; [exact Hc|]. apply rises_notify.
  - done.
Qed.

(** The committed LSN never moves back, except through the reset that
    follows a data-loss decision, which sets it to the LSN it is given; and a
    seed never lowers the highest LSN. *)
Theorem committed_lsn_monotone op t :
  match op with
  | OResetAfterDataLoss p c =>
      committed_lsn (apply_op op t).1 = c ∧ highest_lsn (apply_op op t).1 = p ∧
      pending (apply_op op t).1 = ∅ ∧ replica_acked_lsn (apply_op op t).1 = ∅
  | OSeedProgress p c =>
      committed_lsn (apply_op op t).1 = Z.max (committed_lsn t) c ∧
      highest_lsn (apply_op op t).1 = Z.max (highest_lsn t) p
  | _ => committed_lsn t ≤ committed_lsn (apply_op op t).1
  end.
Proof.
  destruct op as [| | | | | | |now [id|] mode r'| |]; cbn [apply_op]; [done|done|..].
  - rewrite (set_catch_up_eq _ _ _ _ _ _ _ t). apply rises_then, rises_then; auto with tracker.
    apply rises_modify. intros t1. unfold enter_catch_up, begin_catch_up. by case_match.
  - apply rises_then, rises_then; auto with tracker.
  - apply rises_register.
  - apply rises_then, rises_then; auto with tracker; apply rises_record_ack.
  - done.
  - apply rises_then; apply rises_same; intros t1.
    + unfold remove_waiter. by repeat case_match.
    + unfold wait_for_catch_up_inner. by repeat case_match.
  - apply rises_same. intros t1. unfold wait_for_catch_up, wait_for_catch_up_inner. by repeat case_match.
  - apply rises_same. intros t1. unfold cancel_catch_up_wait, remove_waiter. by repeat case_match.
  - apply rises_expire_due.
Qed.

(** ** What a call can do to the pending table

    Only a registration adds an entry, and only a registration of an LSN
    that is already pending drops a sender. *)

Definition keeps (f : step) : Prop := ∀ t,
  dom (pending (f t).1) ⊆ dom (pending t) ∧ ∀ r, ReplyDropped r ∉ (f t).2.

Lemma keeps_then f g : keeps f → keeps g → keeps (f >>> g).
Proof.
  intros Hf Hg t. rewrite then_fst, then_snd. destruct (Hf t) as [H1 H2], (Hg (f t).1) as [H3 H4].
  split; [set_solver|]. intros r. rewrite elem_of_app. by intros [?%H2|?%H4].
Qed.

Lemma keeps_for_each {A} (l : list A) body : (∀ x, keeps (body x)) → keeps (for_each l body).
Proof.
  intros Hb. induction l as [|x l IH]; simpl; [|by apply keeps_then].
  intros t. split; [done|]. intros r. apply not_elem_of_nil.
Qed.

Lemma keeps_modify f : (∀ t, pending (f t) = pending t) → keeps (modify f).
Proof. intros Hf t. split; [simpl; by rewrite Hf|]. intros r. apply not_elem_of_nil. Qed.

Lemma keeps_settle v : keeps (settle_waiters v).
Proof.
  intros t. split; [done|]. intros r. unfold settle_waiters; cbn [snd]. rewrite list_elem_of_omap.
  intros (w & _ & Hw). by destruct (v w).
Qed.

Lemma no_drop_send o res r : ReplyDropped r ∉ send_op o res.
Proof. destruct o; simpl; [by intros ?%list_elem_of_singleton|apply not_elem_of_nil]. Qed.

Lemma keeps_commit_pending lsn : keeps (commit_pending lsn).
Proof.
  intros t. split; [apply subseteq_dom, shrinks_commit_pending|]. intros r.
  destruct (pending t !! lsn) as [op|] eqn:Hop.
  - rewrite (commit_pending_eq _ _ _ Hop). apply no_drop_send.
  - unfold commit_pending. rewrite Hop. apply not_elem_of_nil.
Qed.

Lemma keeps_expire_op lsn : keeps (expire_op lsn).
Proof.
  intros t. split; [apply subseteq_dom, shrinks_expire_op|]. intros r. unfold expire_op.
  case_match; [apply no_drop_send|apply not_elem_of_nil].
Qed.

Lemma keeps_notify : keeps notify_catch_up_waiters.
Proof. intros t. apply keeps_settle. Qed.

Lemma keeps_try_commit : keeps try_commit_pending.
Proof. intros t. unfold try_commit_pending. apply keeps_for_each, keeps_commit_pending. Qed.

Lemma keeps_expire_due now : keeps (expire_due now).
Proof.
  intros t. unfold expire_due. apply keeps_then; [|apply keeps_then].
  - apply keeps_modify, mark_failed_pending.
  - apply keeps_for_each, keeps_expire_op.
  - intros t1. apply keeps_settle.
Qed.

Lemma keeps_record_ack lsn q : keeps (record_ack lsn q).
Proof.
  intros t. unfold record_ack. destruct (pending t !! lsn) as [op|] eqn:Hop; [|apply keeps_notify].
  set (t1 := t <| pending ::= _ |>).
  assert (dom (pending t1) = dom (pending t)) as Hd.
  { simpl. unfold over; simpl. rewrite dom_insert_L.
    assert (lsn ∈ dom (pending t)) by (apply elem_of_dom; eauto). set_solver. }
  case_match; [|split; [cbn [fst]; by rewrite Hd|intros r; apply not_elem_of_nil]].
  rewrite <-Hd. apply keeps_then; [apply keeps_commit_pending|].
  apply keeps_then; [apply keeps_try_commit|apply keeps_notify].
Qed.

Lemma keeps_fail_all e : keeps (fail_all e).
Proof.
  intros t. split; [apply empty_subseteq|]. intros r. unfold fail_all; cbn [snd].
  rewrite elem_of_app, list_elem_of_bind, list_elem_of_fmap.
  by intros [(p & ?%no_drop_send & _)|(w & ? & _)].
Qed.

Lemma keeps_remove_waiter id : keeps (remove_waiter id).
Proof.
  intros t. destruct (remove_waiter_same id t) as [-> _]. split; [done|]. intros r.
  unfold remove_waiter. repeat case_match; cbn [snd]; [by intros ?%list_elem_of_singleton|].
  apply not_elem_of_nil.
Qed.

Lemma keeps_wait_inner now id mode r : keeps (wait_for_catch_up_inner now id mode r).
Proof.
  intros t. destruct (wait_inner_same now id mode r t) as [-> _]. split; [done|]. intros r'.
  unfold wait_for_catch_up_inner. repeat case_match; cbn [snd];
    (by intros ?%list_elem_of_singleton) || apply not_elem_of_nil.
Qed.

Definition registers (op : TrackerOp) : option Lsn :=
  match op with ORegister _ lsn _ _ => Some lsn | _ => None end.

Lemma register_keys now lsn p r t :
  dom (pending (register now lsn p r t).1) ⊆ {[lsn]} ∪ dom (pending t) ∧
  (pending t !! lsn = None → ∀ r', ReplyDropped r' ∉ (register now lsn p r t).2).
Proof.
  unfold register.
  set (t1 := (if highest_lsn t <? lsn then _ else t) <| replica_acked_lsn ::= bump_acked p lsn |>).
  assert (pending t1 = pending t) as <- by (subst t1; by case_match).
  clearbody t1. destruct (is_quorum_met t1 _); unfold commit_op; simpl.
  - split; [case_match; set_solver|]. intros _ r' [?|Hr]%elem_of_cons; [done|].
    revert Hr. apply keeps_notify.
  - unfold over; simpl. rewrite dom_insert_L. split; [done|]. intros ->. intros r'. apply not_elem_of_nil.
Qed.

Lemma apply_op_keeps op : registers op = None → keeps (apply_op op).
Proof.
  intros Hr. destruct op as [| | | | | | |now [id|] mode r| |]; cbn [apply_op]; [| | | |done|..].
  - by apply keeps_modify.
  - apply keeps_then; [apply keeps_fail_all|by apply keeps_modify].
  - intros t. rewrite (set_catch_up_eq _ _ _ _ _ _ _ t).
    apply keeps_then; [apply keeps_expire_due|]. apply keeps_then; [apply keeps_modify, enter_catch_up_pending|].
    apply keeps_then; [apply keeps_try_commit|apply keeps_notify].
  - apply keeps_then; [apply keeps_expire_due|]. apply keeps_then; [by apply keeps_modify|].
    apply keeps_then; [apply keeps_try_commit|apply keeps_notify].
  - apply keeps_then; [apply keeps_expire_due|]. apply keeps_then; [by apply keeps_modify|apply keeps_record_ack].
  - apply keeps_fail_all.
  - apply keeps_then; [apply keeps_remove_waiter|apply keeps_wait_inner].
  - apply keeps_wait_inner.
  - apply keeps_remove_waiter.
  - apply keeps_expire_due.
Qed.

Lemma fail_all_outstanding e t : outstanding (fail_all e t).1 = [].
Proof. done. Qed.
