(* ===== verification/Replicator.v ===== *)
(** The shared parts of the WAL replicator: the replication queue
    (replicator/queue.rs), the partition state and the handles that read it
    (handles.rs), and the primary's sender with its per-incarnation
    connections and ACK readers (replicator/primary.rs). *)

From S2P Require Import Prelude Types Quorum.

Set Default Goal Selector "!".

(** ** ReplicationQueue: a [BTreeMap] from LSN to data *)

Module Queue.

Abbreviation ReplicationQueue := (gmap Lsn bytes) (only parsing).

Definition new : ReplicationQueue := ∅.
Definition push (lsn : Lsn) (data : bytes) (q : ReplicationQueue) : ReplicationQueue := <[lsn := data]> q.

(** [self.ops.range(from_lsn..)]. *)
Definition ops_from (from_lsn : Lsn) (q : ReplicationQueue) : list (Lsn * bytes) :=
  filter (λ p : Lsn * bytes, from_lsn ≤ p.1) (btree_entries q).

(** [split_off(&(acked_lsn + 1))] keeps the keys from there on. *)
Definition gc (acked_lsn : Lsn) (q : ReplicationQueue) : ReplicationQueue :=
  filter (λ p : Lsn * bytes, i64_add acked_lsn 1 ≤ p.1) q.

Definition len (q : ReplicationQueue) : nat := size q.
Definition clear (q : ReplicationQueue) : ReplicationQueue := ∅.

Example ops_from_order : (ops_from 2 (push 3 [] (push 2 [] (push 10 [] (push 1 [] new))))).*1 = [2; 3; 10].
Proof. vm_compute. reflexivity. Qed.

Lemma elem_of_ops_from from q lsn data :
  (lsn, data) ∈ ops_from from q ↔ q !! lsn = Some data ∧ from ≤ lsn.
Proof. unfold ops_from. rewrite list_elem_of_filter, elem_of_btree_entries. naive_solver. Qed.

Lemma gc_lookup acked q lsn :
  in_i64 acked → acked < i64_max →
  gc acked q !! lsn = if decide (acked < lsn) then q !! lsn else None.
Proof.
  intros Hin Hm. unfold gc. rewrite map_lookup_filter, i64_add_1 by done.
  destruct (q !! lsn) as [d|]; simpl; [|by case_decide].
  case_decide; [rewrite option_guard_True by (simpl; lia)|rewrite option_guard_False by (simpl; lia)]; done.
Qed.

Lemma ops_from_sorted from q : StronglySorted Z.lt (ops_from from q).*1.
Proof.
  unfold ops_from. pose proof (btree_entries_sorted q) as Hs.
  induction (btree_entries q) as [|[k d] l IH]; simpl in *; [constructor|].
  apply StronglySorted_inv in Hs as [Hs Hk].
  rewrite filter_cons. case_decide; simpl; [|by apply IH].
  constructor; [by apply IH|]. rewrite Forall_forall in *. intros x (p & -> & Hp)%list_elem_of_fmap.
  apply Hk. apply list_elem_of_filter in Hp as [_ Hp]. apply list_elem_of_fmap. eauto.
Qed.

End Queue.

(** ** PartitionState: the atomics the replicator publishes *)

Record ReplicaConnectionStatus := mkReplicaConnectionStatus {
  rcs_id : ReplicaId;
  rcs_instance_id : ReplicaInstanceId;
}.

Abbreviation CopyBoundaryKey := (ReplicaId * ReplicaInstanceId * option string)%type (only parsing).

Module PState.

Record PartitionState := mkPartitionState {
  read_status_u8 : Z;
  write_status_u8 : Z;
  current_progress : Lsn;
  catch_up_capability : Lsn;
  catch_up_capability_known : bool;
  ps_committed_lsn : Lsn;
  copy_lsn_map : gmap CopyBoundaryKey Lsn;
  active_replica_connections_map : gmap ReplicaId ReplicaInstanceId;
}.

#[export] Instance eta_PartitionState : Settable PartitionState :=
  {| eta_record r := mkPartitionState (read_status_u8 r) (write_status_u8 r) (current_progress r)
    (catch_up_capability r) (catch_up_capability_known r) (ps_committed_lsn r) (copy_lsn_map r)
    (active_replica_connections_map r) |}.

Definition new : PartitionState :=
  mkPartitionState (access_as_u8 StNotPrimary) (access_as_u8 StNotPrimary) 0 0 false 0 ∅ ∅.

Definition read_status (s : PartitionState) : AccessStatus := access_from_u8 (read_status_u8 s).
Definition write_status (s : PartitionState) : AccessStatus := access_from_u8 (write_status_u8 s).

Definition observed_catch_up_capability (s : PartitionState) : option Lsn :=
  if catch_up_capability_known s then Some (catch_up_capability s) else None.

Definition set_read_status (st : AccessStatus) (s : PartitionState) := s <| read_status_u8 := access_as_u8 st |>.
Definition set_write_status (st : AccessStatus) (s : PartitionState) := s <| write_status_u8 := access_as_u8 st |>.
Definition set_current_progress (lsn : Lsn) (s : PartitionState) := s <| current_progress := lsn |>.
Definition set_catch_up_capability (lsn : Lsn) (s : PartitionState) :=
  s <| catch_up_capability := lsn |> <| catch_up_capability_known := true |>.
Definition set_committed_lsn (lsn : Lsn) (s : PartitionState) := s <| ps_committed_lsn := lsn |>.

(** [fetch_max]. *)
Definition advance_committed_lsn (lsn : Lsn) (s : PartitionState) := s <| ps_committed_lsn ::= Z.max lsn |>.

Definition set_copy_lsn (replica_id : ReplicaId) (instance_id : ReplicaInstanceId)
    (build_key : option string) (lsn : Lsn) (s : PartitionState) : PartitionState :=
  s <| copy_lsn_map ::= λ boundaries,
    <[(replica_id, instance_id, build_key) := lsn]>
      (filter (λ p : CopyBoundaryKey * Lsn, p.1.1.1 ≠ replica_id) boundaries) |>.

Definition copy_lsn (replica_id : ReplicaId) (instance_id : ReplicaInstanceId)
    (build_key : option string) (s : PartitionState) : option Lsn :=
  copy_lsn_map s !! (replica_id, instance_id, build_key).

Definition set_active_replica_connections (connections : gmap ReplicaId ReplicaInstanceId)
    (s : PartitionState) := s <| active_replica_connections_map := connections |>.

Definition active_replica_connections (s : PartitionState) : list ReplicaConnectionStatus :=
  sort_by_key rcs_id
    ((λ p, mkReplicaConnectionStatus p.1 p.2) <$> map_to_list (active_replica_connections_map s)).

(** One boundary per replica: recording a build forgets every other build of
    the same replica and no build of another one. *)
Lemma copy_lsn_set rid inst key lsn s rid' inst' key' :
  copy_lsn rid' inst' key' (set_copy_lsn rid inst key lsn s) =
    if decide ((rid', inst', key') = (rid, inst, key)) then Some lsn
    else if decide (rid' = rid) then None else copy_lsn rid' inst' key' s.
Proof.
  unfold copy_lsn, set_copy_lsn; simpl. unfold over; simpl.
  rewrite lookup_insert. case_decide as H1; [case_decide; congruence|].
  case_decide as H2; [congruence|].
  rewrite map_lookup_filter. destruct (copy_lsn_map s !! _) as [l|]; simpl; [|by case_decide].
  case_decide; [rewrite option_guard_False by (simpl; congruence)|rewrite option_guard_True by done]; done.
Qed.

End PState.

(** ** StateReplicatorHandle::replicate

    The gate before the data channel. [send] says whether the channel took
    the request, [answer] what [select!] saw first: the reply (or its
    dropped sender) or the caller's cancellation. *)

Module Handle.

Inductive reply_event := Replied (r : result KubericError Lsn) | SenderDropped | TokenCancelled.

Definition fast_path (st : AccessStatus) : result KubericError unit :=
  match st with
  | Granted => Ok tt
  | StNotPrimary => Err NotPrimary
  | StNoWriteQuorum => Err NoWriteQuorum
  | StReconfigurationPending => Err ReconfigurationPending
  end.

Definition replicate (st : PState.PartitionState) (sent : bool) (answer : reply_event) : result KubericError Lsn :=
  fast_path (PState.write_status st);;
  reject_if (negb sent) Closed;;
  match answer with
  | Replied r => r
  | SenderDropped => Err Closed
  | TokenCancelled => Err Cancelled
  end.

Lemma replicate_Ok st sent answer lsn :
  replicate st sent answer = Ok lsn →
  PState.write_status st = Granted ∧ sent = true ∧ answer = Replied (Ok lsn).
Proof.
  unfold replicate. rewrite bind_Ok. intros ([] & Hf & H). apply bind_Ok in H as ([] & Hs & H).
  destruct (PState.write_status st); try done. apply reject_if_Ok, negb_false_iff in Hs.
  destruct answer; naive_solver.
Qed.

End Handle.

(** ** PrimarySender *)

Record ReplicationItem := mkReplicationItem {
  epoch_data_loss : Z;
  epoch_config : Z;
  item_lsn : Lsn;
  item_data : bytes;
  item_committed_lsn : Lsn;
}.
#[export] Instance ReplicationItem_eq_dec : EqDecision ReplicationItem.
Proof. solve_decision. Defined.

(** [CancellationToken]s by identity. *)
Abbreviation Token := positive (only parsing).

Module Sender.

(** A connection: what was put on its unbounded channel, whether the drain
    task still receives, and the token that stops its two tasks. *)
Record SecondaryConnection := mkSecondaryConnection {
  instance_id : ReplicaInstanceId;
  item_tx : list ReplicationItem;
  rx_alive : bool;
  cancellation : Token;
}.
#[export] Instance eta_SecondaryConnection : Settable SecondaryConnection :=
  {| eta_record r := mkSecondaryConnection (instance_id r) (item_tx r) (rx_alive r) (cancellation r) |}.

Record PrimarySender := mkPrimarySender {
  connections : gmap ReplicaId SecondaryConnection;
  active_instances : gmap ReplicaId ReplicaInstanceId;
  primary_id : ReplicaId;
  epoch : Epoch;
  cancelled_tokens : gset Token;
}.
#[export] Instance eta_PrimarySender : Settable PrimarySender :=
  {| eta_record r := mkPrimarySender (connections r) (active_instances r) (primary_id r) (epoch r) (cancelled_tokens r) |}.

Definition new (primary_id : ReplicaId) (epoch : Epoch) : PrimarySender :=
  mkPrimarySender ∅ ∅ primary_id epoch ∅.

Definition set_epoch (e : Epoch) (s : PrimarySender) : PrimarySender := s <| epoch := e |>.

Definition has_connection (rid : ReplicaId) (inst : ReplicaInstanceId) (s : PrimarySender) : bool :=
  match connections s !! rid with
  | Some c => bool_decide (instance_id c = inst)
  | None => false
  end.

Definition cancel_old (old : option SecondaryConnection) (s : PrimarySender) : PrimarySender :=
  match old with
  | Some c => s <| cancelled_tokens ::= λ ts, {[cancellation c]} ∪ ts |>
  | None => s
  end.

Definition install_connection (rid : ReplicaId) (c : SecondaryConnection) (s : PrimarySender) : PrimarySender :=
  cancel_old (connections s !! rid)
    (s <| active_instances ::= <[rid := instance_id c]> |> <| connections ::= <[rid := c]> |>).

(** [connect] is the outcome of reaching the secondary's gRPC endpoint and
    opening its stream, with the token made for the new connection. *)
Definition add_secondary (rid : ReplicaId) (inst : ReplicaInstanceId)
    (connect : result KubericError Token) (s : PrimarySender) : PrimarySender * result KubericError unit :=
  if has_connection rid inst s then (s, Ok tt)
  else
    match connect with
    | Err e => (s, Err e)
    | Ok token => (install_connection rid (mkSecondaryConnection inst [] true token) s, Ok tt)
    end.

Definition make_item (s : PrimarySender) (lsn : Lsn) (data : bytes) (committed : Lsn) : ReplicationItem :=
  mkReplicationItem (data_loss_number (epoch s)) (configuration_number (epoch s)) lsn data committed.

(** [item_tx.send(item)]: lost when the receiver is gone. *)
Definition push_item (item : ReplicationItem) (c : SecondaryConnection) : SecondaryConnection :=
  if rx_alive c then c <| item_tx ::= λ items, items ++ [item] |> else c.

Definition send_to_one (rid : ReplicaId) (lsn : Lsn) (data : bytes) (committed : Lsn)
    (s : PrimarySender) : PrimarySender :=
  s <| connections ::= alter (push_item (make_item s lsn data committed)) rid |>.

Definition remove_secondary_by_id (rid : ReplicaId) (s : PrimarySender) : PrimarySender :=
  cancel_old (connections s !! rid)
    (s <| active_instances ::= delete rid |> <| connections ::= delete rid |>).

Definition remove_secondary (rid : ReplicaId) (inst : ReplicaInstanceId)
    (s : PrimarySender) : PrimarySender * bool :=
  if decide (active_instances s !! rid = Some inst) then (remove_secondary_by_id rid s, true)
  else (s, false).

Definition dead_connections (s : PrimarySender) : list ReplicaId :=
  (filter (λ p : ReplicaId * SecondaryConnection, rx_alive p.2 = false) (map_to_list (connections s))).*1.

Definition send_to_all (lsn : Lsn) (data : bytes) (committed : Lsn) (s : PrimarySender) : PrimarySender :=
  let item := make_item s lsn data committed in
  let dead := dead_connections s in
  foldl (λ s rid, remove_secondary_by_id rid s) (s <| connections ::= fmap (push_item item) |>) dead.

Definition connection_count (s : PrimarySender) : nat := size (connections s).
Definition connected_ids (s : PrimarySender) : gset ReplicaId := dom (connections s).
Definition active_connections (s : PrimarySender) : gmap ReplicaId ReplicaInstanceId := active_instances s.

Definition close_all (s : PrimarySender) : PrimarySender :=
  s <| active_instances := ∅ |> <| connections := ∅ |>
    <| cancelled_tokens ::= λ ts, list_to_set (cancellation <$> (map_to_list (connections s)).*2) ∪ ts |>.

(** The drain task of a connection ends: its receiver is dropped. *)
Definition drain_exit (rid : ReplicaId) (inst : ReplicaInstanceId) (s : PrimarySender) : PrimarySender :=
  s <| connections ::= alter (λ c, if decide (instance_id c = inst) then c <| rx_alive := false |> else c) rid |>.

(** The ACK reader of one incarnation. *)
Record AckReader := mkAckReader {
  reader_rid : ReplicaId;
  reader_instance : ReplicaInstanceId;
  reader_token : Token;
}.

(** One turn of the reader's loop on an incoming [ack.lsn]; [None] is
    [break]. The tracker's lock is held from the check to the publication. *)
Definition read_ack (now : Instant) (r : AckReader) (lsn : Lsn) (s : PrimarySender)
    (t : QuorumTracker) (ps : PState.PartitionState) :
    option (QuorumTracker * list Reply * PState.PartitionState) :=
  if decide (reader_token r ∈ cancelled_tokens s) then None
  else if decide (active_instances s !! reader_rid r ≠ Some (reader_instance r)) then None
  else
    let '(t, replies) := ack now lsn (reader_rid r) t in
    Some (t, replies, PState.advance_committed_lsn (committed_lsn t) ps).

(** ** The two tables agree *)

Definition sender_wf (s : PrimarySender) : Prop :=
  active_instances s = instance_id <$> connections s ∧
  (∀ rid c, connections s !! rid = Some c → cancellation c ∉ cancelled_tokens s) ∧
  (∀ r1 r2 c1 c2, connections s !! r1 = Some c1 → connections s !! r2 = Some c2 →
     cancellation c1 = cancellation c2 → r1 = r2).

Lemma wf_new pid e : sender_wf (new pid e).
Proof. split_and!; [done| |]; intros *; simpl; by rewrite lookup_empty. Qed.

(** Changing connections in place, keeping their identity. *)
Lemma wf_alter s f :
  (∀ c, instance_id (f c) = instance_id c ∧ cancellation (f c) = cancellation c) →
  ∀ rid, sender_wf s → sender_wf (s <| connections ::= alter f rid |>).
Proof.
  intros Hf rid (Ha & Hc & Hi). split_and!; simpl; unfold over; simpl.
  - rewrite Ha. apply map_eq. intros k. rewrite !lookup_fmap, lookup_alter.
    case_decide; [subst|done]. destruct (connections s !! k) as [c|]; [|done]. simpl. by destruct (Hf c) as [-> _].
  - intros k c. rewrite lookup_alter. case_decide; [subst|by apply Hc].
    intros (c' & Hc' & ->)%fmap_Some. destruct (Hf c') as [_ ->]. by eapply Hc.
  - assert (∀ k c, alter f rid (connections s) !! k = Some c →
      ∃ c', connections s !! k = Some c' ∧ cancellation c' = cancellation c) as Hold.
    { intros k c. rewrite lookup_alter. case_decide; [subst|eauto].
      intros (c' & Hc' & ->)%fmap_Some. exists c'. split; [done|]. by destruct (Hf c') as [_ ->]. }
    intros k1 k2 c1 c2 (c1' & H1 & <-)%Hold (c2' & H2 & <-)%Hold. by apply Hi.
Qed.

Lemma wf_remove rid s : sender_wf s → sender_wf (remove_secondary_by_id rid s).
Proof.
  intros (Ha & Hc & Hi). unfold remove_secondary_by_id, cancel_old.
  assert (∀ k c, delete rid (connections s) !! k = Some c → k ≠ rid ∧ connections s !! k = Some c) as Hdel.
  { intros k c [? ?]%lookup_delete_Some. split; [by intros ->|done]. }
  destruct (connections s !! rid) as [old|] eqn:Hold; split_and!; simpl; unfold over; simpl.
  1,4: by rewrite Ha, fmap_delete.
  - intros k c [Hne Hk]%Hdel. intros [Heq%elem_of_singleton|Hin]%elem_of_union; [|by eapply Hc].
    by apply Hne, (Hi k rid c old).
  - intros k1 k2 c1 c2 [_ H1]%Hdel [_ H2]%Hdel. by apply Hi.
  - intros k c [Hne Hk]%Hdel. by eapply Hc.
  - intros k1 k2 c1 c2 [_ H1]%Hdel [_ H2]%Hdel. by apply Hi.
Qed.

Definition fresh_token (tok : Token) (s : PrimarySender) : Prop :=
  (tok ∉ cancelled_tokens s) ∧ map_Forall (λ _ c, cancellation c ≠ tok) (connections s).

#[export] Instance fresh_token_dec tok s : Decision (fresh_token tok s).
Proof. unfold fresh_token. apply _. Defined.

Lemma wf_install rid c s :
  fresh_token (cancellation c) s → sender_wf s → sender_wf (install_connection rid c s).
Proof.
  intros [Hf1 Hf2] (Ha & Hc & Hi). unfold install_connection, cancel_old.
  assert (∀ k c', <[rid := c]> (connections s) !! k = Some c' →
    (k = rid ∧ c' = c) ∨ (k ≠ rid ∧ connections s !! k = Some c')) as Hins.
  { intros k c' [[-> ->]|[? ?]]%lookup_insert_Some; [by left|by right]. }
  destruct (connections s !! rid) as [old|] eqn:Hold; split_and!; simpl; unfold over; simpl.
  1,4: by rewrite Ha, fmap_insert.
  - intros k c' [[-> ->]|[Hne Hk]]%Hins; [|intros [Heq%elem_of_singleton|Hin]%elem_of_union].
    + intros [Heq%elem_of_singleton|Hin]%elem_of_union; [by apply (Hf2 rid old)|done].
    + by apply Hne, (Hi k rid c' old).
    + by eapply Hc.
  - intros k1 k2 c1 c2 [[-> ->]|[? H1]]%Hins [[-> ->]|[? H2]]%Hins Heq; [done| | |by eapply Hi].
    + by destruct (Hf2 k2 c2).
    + by destruct (Hf2 k1 c1).
  - intros k c' [[-> ->]|[Hne Hk]]%Hins; [done|by eapply Hc].
  - intros k1 k2 c1 c2 [[-> ->]|[? H1]]%Hins [[-> ->]|[? H2]]%Hins Heq; [done| | |by eapply Hi].
    + by destruct (Hf2 k2 c2).
    + by destruct (Hf2 k1 c1).
Qed.

Lemma wf_fmap s f :
  (∀ c, instance_id (f c) = instance_id c ∧ cancellation (f c) = cancellation c) →
  sender_wf s → sender_wf (s <| connections ::= fmap f |>).
Proof.
  intros Hf (Ha & Hc & Hi). split_and!; simpl; unfold over; simpl.
  - rewrite Ha, <-map_fmap_compose. apply map_fmap_ext. intros k c _. symmetry. apply Hf.
  - intros k c (c' & <- & Hk)%lookup_fmap_Some. destruct (Hf c') as [_ ->]. by eapply Hc.
  - intros k1 k2 c1 c2 (c1' & <- & H1)%lookup_fmap_Some (c2' & <- & H2)%lookup_fmap_Some.
    destruct (Hf c1') as [_ ->], (Hf c2') as [_ ->]. by apply Hi.
Qed.

Lemma push_item_same item c :
  instance_id (push_item item c) = instance_id c ∧ cancellation (push_item item c) = cancellation c.
Proof. unfold push_item. by case_match. Qed.

Lemma remove_all_connections l s :
  connections (foldl (λ s rid, remove_secondary_by_id rid s) s l) =
    filter (λ p : ReplicaId * SecondaryConnection, p.1 ∉ l) (connections s).
Proof.
  revert s. induction l as [|x l IH]; intros s; simpl.
  - symmetry. apply map_filter_id. intros k c _. apply not_elem_of_nil.
  - rewrite IH. assert (connections (remove_secondary_by_id x s) = delete x (connections s)) as ->.
    { unfold remove_secondary_by_id, cancel_old. by case_match. }
    apply map_eq. intros k. apply option_eq. intros c.
    rewrite !map_lookup_filter_Some, lookup_delete_Some, not_elem_of_cons. simpl. naive_solver.
Qed.

Lemma wf_remove_all l s : sender_wf s → sender_wf (foldl (λ s rid, remove_secondary_by_id rid s) s l).
Proof. revert s. induction l as [|x l IH]; intros s Hs; simpl; [done|]. by apply IH, wf_remove. Qed.

(** What one broadcast does to each connection. *)
Lemma send_to_all_lookup lsn data committed s rid :
  connections (send_to_all lsn data committed s) !! rid =
    (c ← connections s !! rid;
     if rx_alive c
     then Some (c <| item_tx ::= λ items, items ++ [make_item s lsn data committed] |>) else None).
Proof.
  unfold send_to_all. rewrite remove_all_connections. set (item := make_item s lsn data committed).
  change (connections (s <| connections ::= fmap (push_item item) |>))
    with (push_item item <$> connections s).
  assert (∀ k, k ∈ dead_connections s ↔ ∃ c, connections s !! k = Some c ∧ rx_alive c = false) as Hd.
  { intros k. unfold dead_connections. rewrite list_elem_of_fmap. split.
    - intros ([k' c] & -> & [Ha Hin]%list_elem_of_filter). rewrite elem_of_map_to_list in Hin. eauto.
    - intros (c & Hc & Ha). exists (k, c). by rewrite list_elem_of_filter, elem_of_map_to_list. }
  apply option_eq. intros c. rewrite map_lookup_filter_Some, lookup_fmap. cbn [fst]. rewrite Hd.
  unfold push_item. destruct (connections s !! rid) as [c0|] eqn:Hc0.
  2: { simpl. naive_solver. }
  cbn [fmap option_fmap option_map mbind option_bind].
  destruct (rx_alive c0) eqn:Ha.
  - split; [by intros [? _]|]. intros Hc. split; [done|]. intros (c1 & [= <-] & ?). congruence.
  - split; [intros [_ []]; eauto|done].
Qed.

(** ** Histories of sender calls *)

Inductive SenderOp :=
| SSetEpoch (e : Epoch)
| SAddSecondary (rid : ReplicaId) (inst : ReplicaInstanceId) (connect : result KubericError Token)
| SSendToOne (rid : ReplicaId) (lsn : Lsn) (data : bytes) (committed : Lsn)
| SSendToAll (lsn : Lsn) (data : bytes) (committed : Lsn)
| SRemove (rid : ReplicaId) (inst : ReplicaInstanceId)
| SRemoveById (rid : ReplicaId)
| SCloseAll
| SDrainExit (rid : ReplicaId) (inst : ReplicaInstanceId).

Definition apply_sender_op (op : SenderOp) (s : PrimarySender) : PrimarySender :=
  match op with
  | SSetEpoch e => set_epoch e s
  | SAddSecondary rid inst connect => (add_secondary rid inst connect s).1
  | SSendToOne rid lsn data committed => send_to_one rid lsn data committed s
  | SSendToAll lsn data committed => send_to_all lsn data committed s
  | SRemove rid inst => (remove_secondary rid inst s).1
  | SRemoveById rid => remove_secondary_by_id rid s
  | SCloseAll => close_all s
  | SDrainExit rid inst => drain_exit rid inst s
  end.

Definition run_sender (ops : list SenderOp) (s : PrimarySender) : PrimarySender :=
  foldl (λ s op, apply_sender_op op s) s ops.

(** Every [CancellationToken::new()] in the history is a new token. *)
Fixpoint tokens_fresh (ops : list SenderOp) (s : PrimarySender) : Prop :=
  match ops with
  | [] => True
  | op :: ops =>
      match op with SAddSecondary _ _ (Ok tok) => fresh_token tok s | _ => True end ∧
      tokens_fresh ops (apply_sender_op op s)
  end.

#[export] Instance tokens_fresh_dec ops s : Decision (tokens_fresh ops s).
Proof.
  revert s. induction ops as [|op ops IH]; intros s; simpl; [apply _|].
  apply and_dec; [|apply IH]. destruct op as [| ? ? [?|?]| | | | | |]; apply _.
Defined.

Lemma wf_apply op s :
  match op with SAddSecondary _ _ (Ok tok) => fresh_token tok s | _ => True end →
  sender_wf s → sender_wf (apply_sender_op op s).
Proof.
  intros Hfr Hs. destruct op as [| rid inst [tok|e]| | | | | | ]; cbn [apply_sender_op].
  - exact Hs.
  - unfold add_secondary. case_match; [done|]. cbn [fst]. by apply wf_install.
  - unfold add_secondary. by case_match.
  - apply wf_alter; [apply push_item_same|done].
  - apply wf_remove_all, wf_fmap; [apply push_item_same|done].
  - unfold remove_secondary. case_decide; [by apply wf_remove|done].
  - by apply wf_remove.
  - split_and!; [done| |]; intros *; simpl; by rewrite lookup_empty.
  - apply wf_alter; [|done]. intros c. by case_decide.
Qed.

Lemma wf_run ops s : tokens_fresh ops s → sender_wf s → sender_wf (run_sender ops s).
Proof.
  revert s. induction ops as [|op ops IH]; intros s; [done|].
  intros [Hfr Hf] Hs. simpl. by apply IH, wf_apply.
Qed.

(** ** An ACK counts for the incarnation that is connected *)

(** The reader spawned for a connection: still linked to it, or cancelled. *)
Definition linked (r : AckReader) (s : PrimarySender) : Prop :=
  reader_token r ∈ cancelled_tokens s ∨
  ∃ c, connections s !! reader_rid r = Some c ∧ instance_id c = reader_instance r ∧
       cancellation c = reader_token r.

Lemma linked_remove r rid s : linked r s → linked r (remove_secondary_by_id rid s).
Proof.
  unfold linked, remove_secondary_by_id, cancel_old. intros [Hc|(c & Hc & Hi & Ht)].
  - left. destruct (connections s !! rid); simpl; unfold over; simpl; set_solver.
  - destruct (decide (rid = reader_rid r)) as [->|Hne].
    + left. rewrite Hc. simpl. unfold over; simpl. set_solver.
    + right. exists c. destruct (connections s !! rid); simpl; unfold over; simpl;
        by rewrite lookup_delete_ne.
Qed.

Lemma linked_remove_all r l s :
  linked r s → linked r (foldl (λ s rid, remove_secondary_by_id rid s) s l).
Proof. revert s. induction l as [|x l IH]; intros s Hs; simpl; [done|]. by apply IH, linked_remove. Qed.

Lemma linked_install r rid c s : linked r s → linked r (install_connection rid c s).
Proof.
  unfold linked, install_connection, cancel_old. intros [Hc|(c' & Hc & Hi & Ht)].
  - left. destruct (connections s !! rid); simpl; unfold over; simpl; set_solver.
  - destruct (decide (rid = reader_rid r)) as [->|Hne].
    + left. rewrite Hc. simpl. unfold over; simpl. set_solver.
    + right. exists c'. destruct (connections s !! rid); simpl; unfold over; simpl;
        by rewrite lookup_insert_ne.
Qed.

Lemma linked_map r s s' :
  cancelled_tokens s' = cancelled_tokens s →
  (∀ rid c, connections s !! rid = Some c → ∃ c', connections s' !! rid = Some c' ∧
     instance_id c' = instance_id c ∧ cancellation c' = cancellation c) →
  linked r s → linked r s'.
Proof.
  unfold linked. intros Ht Hm [Hc|(c & Hc & <- & <-)]; [left; by rewrite Ht|right].
  destruct (Hm _ _ Hc) as (c' & ? & ? & ?). eauto.
Qed.

Lemma linked_alter r rid f s :
  (∀ c, instance_id (f c) = instance_id c ∧ cancellation (f c) = cancellation c) →
  linked r s → linked r (s <| connections ::= alter f rid |>).
Proof.
  intros Hf. apply linked_map; [done|]. intros k c Hc. simpl; unfold over; simpl.
  rewrite lookup_alter. case_decide; [subst; rewrite Hc; simpl; eauto|eauto].
Qed.

Lemma linked_fmap r f s :
  (∀ c, instance_id (f c) = instance_id c ∧ cancellation (f c) = cancellation c) →
  linked r s → linked r (s <| connections ::= fmap f |>).
Proof.
  intros Hf. apply linked_map; [done|]. intros k c Hc. simpl; unfold over; simpl.
  rewrite lookup_fmap, Hc. simpl. eauto.
Qed.

Lemma linked_apply r op s : linked r s → linked r (apply_sender_op op s).
Proof.
  intros Hr. destruct op as [| rid inst [tok|e]| | | | | | ]; cbn [apply_sender_op].
  - exact Hr.
  - unfold add_secondary. case_match; [done|]. by apply linked_install.
  - unfold add_secondary. by case_match.
  - apply linked_alter; [apply push_item_same|done].
  - apply linked_remove_all, linked_fmap; [apply push_item_same|done].
  - unfold remove_secondary. case_decide; [by apply linked_remove|done].
  - by apply linked_remove.
  - destruct Hr as [Hc|(c & Hc & Hi & Ht)]; left; simpl; unfold over; simpl; [set_solver|].
    rewrite elem_of_union, elem_of_list_to_set. left. rewrite <-Ht. apply list_elem_of_fmap.
    exists c. split; [done|]. apply list_elem_of_fmap. exists (reader_rid r, c).
    by rewrite elem_of_map_to_list.
  - apply linked_alter; [|done]. intros c. by case_decide.
Qed.

Lemma linked_run r ops s : linked r s → linked r (run_sender ops s).
Proof. revert s. induction ops as [|op ops IH]; intros s Hs; simpl; [done|]. by apply IH, linked_apply. Qed.

Lemma linked_spawned rid inst tok s :
  has_connection rid inst s = false →
  linked (mkAckReader rid inst tok) (add_secondary rid inst (Ok tok) s).1.
Proof.
  intros Hh. right. unfold add_secondary. rewrite Hh. cbn [fst].
  exists (mkSecondaryConnection inst [] true tok). split_and!; [|done..].
  unfold install_connection, cancel_old. simpl.
  destruct (connections s !! rid); simpl; unfold over; simpl; apply lookup_insert_eq.
Qed.

Lemma run_sender_app ops1 ops2 s : run_sender (ops1 ++ ops2) s = run_sender ops2 (run_sender ops1 s).
Proof. apply foldl_app. Qed.

Lemma tokens_fresh_app ops1 ops2 s :
  tokens_fresh (ops1 ++ ops2) s ↔ tokens_fresh ops1 s ∧ tokens_fresh ops2 (run_sender ops1 s).
Proof. revert s. induction ops1 as [|op ops1 IH]; intros s; simpl; [tauto|]. rewrite IH. tauto. Qed.

(** An acknowledgement read by the reader of one incarnation reaches the
    quorum tracker exactly while that reader's connection is the one
    installed: after the connection is replaced, removed or closed, through
    any sequence of sender calls, the reader stops and a buffered stale ACK
    changes nothing; before that it is counted for its replica and the
    committed LSN it yields is published. *)
Theorem ack_counts_iff_connected pid e ops1 rid inst tok ops2 now lsn t ps :
  let s0 := new pid e in
  let s := run_sender (ops1 ++ SAddSecondary rid inst (Ok tok) :: ops2) s0 in
  tokens_fresh (ops1 ++ SAddSecondary rid inst (Ok tok) :: ops2) s0 →
  has_connection rid inst (run_sender ops1 s0) = false →
  let connected := ∃ c, connections s !! rid = Some c ∧ cancellation c = tok in
  match read_ack now (mkAckReader rid inst tok) lsn s t ps with
  | Some (t', replies, ps') =>
      connected ∧ (t', replies) = ack now lsn rid t ∧
      PState.ps_committed_lsn ps' = Z.max (committed_lsn t') (PState.ps_committed_lsn ps)
  | None => ¬ connected
  end.
Proof.
  intros s0 s Hfresh Hh connected.
  assert (sender_wf s) as (Ha & Hc & _) by (by apply wf_run, wf_new).
  assert (linked (mkAckReader rid inst tok) s) as Hl.
  { unfold s. rewrite run_sender_app. simpl. by apply linked_run, linked_spawned. }
  unfold read_ack. cbn [reader_token reader_rid reader_instance].
  case_decide as Hcan; [|case_decide as Hact].
  - intros (c & Hconn & <-). by apply (Hc rid c).
  - destruct Hl as [|(c & Hconn & Hi & _)]; [done|]. simpl in *. destruct Hact.
    by rewrite Ha, lookup_fmap, Hconn, <-Hi.
  - destruct (ack now lsn rid t) as [t' replies]. split_and!; [|done|done].
    destruct Hl as [|(c & Hconn & _ & Ht)]; [done|]. simpl in *. by exists c.
Qed.

Lemma ack_counts_iff_connected_witness :
  read_ack 0 (mkAckReader 2 "old" 1) 7
    (run_sender [SAddSecondary 2 "old" (Ok 1%positive); SAddSecondary 2 "new" (Ok 2%positive)] (new 1 epoch_default))
    tracker_new PState.new = None.
Proof.
  pose proof (ack_counts_iff_connected 1 epoch_default [] 2 "old" 1 [SAddSecondary 2 "new" (Ok 2%positive)]
    0 7 tracker_new PState.new) as H.
  cbv zeta in H. destruct (read_ack _ _ _ _ _ _) as [[[t' e'] ps']|]; [|reflexivity].
  exfalso. destruct H as [(c & Hc & Ht) _].
  - apply (bool_decide_unpack _). vm_compute. exact I.
  - vm_compute. reflexivity.
  - vm_compute in Hc. injection Hc as <-. vm_compute in Ht. discriminate Ht.
Defined.

(** A broadcast: every connection whose drain task still runs gets the
    operation, stamped with the sender's epoch, at the end of its channel;
    every other connection is dropped from both tables; nothing else
    changes. *)
Theorem send_to_all_delivers pid e ops lsn data committed :
  let s := run_sender ops (new pid e) in
  let s' := send_to_all lsn data committed s in
  tokens_fresh ops (new pid e) →
  ∀ rid,
    (∀ c, connections s !! rid = Some c → rx_alive c = true →
       connections s' !! rid = Some (c <| item_tx := item_tx c ++ [make_item s lsn data committed] |>) ∧
       active_instances s' !! rid = Some (instance_id c)) ∧
    ((∀ c, connections s !! rid = Some c → rx_alive c = false) →
       connections s' !! rid = None ∧ active_instances s' !! rid = None).
Proof.
  intros s s' Hfresh rid.
  assert (sender_wf s') as (Ha & _ & _).
  { apply wf_remove_all, wf_fmap; [apply push_item_same|]. by apply wf_run, wf_new. }
  assert (connections s' !! rid = c ← connections s !! rid;
     if rx_alive c
     then Some (c <| item_tx ::= λ items, items ++ [make_item s lsn data committed] |>) else None) as Hs'
    by apply send_to_all_lookup.
  rewrite Ha, lookup_fmap. split.
  - intros c Hc Halive. rewrite Hs', Hc. simpl. by rewrite Halive.
  - intros Hdead. rewrite Hs'. destruct (connections s !! rid) as [c|]; [|done]. simpl.
    by rewrite (Hdead c).
Qed.

Lemma send_to_all_delivers_witness :
  let s := run_sender [SAddSecondary 2 "a" (Ok 1%positive)] (new 1 (mkEpoch 0 3)) in
  (item_tx <$> connections (send_to_all 5 [] 4 s) !! 2) = Some [mkReplicationItem 0 3 5 [] 4].
Proof.
  destruct (send_to_all_delivers 1 (mkEpoch 0 3) [SAddSecondary 2 "a" (Ok 1%positive)] 5 [] 4) with (rid := 2)
    as [H _].
  - apply (bool_decide_unpack _). vm_compute. exact I.
  - destruct (H (mkSecondaryConnection "a" [] true 1%positive)) as [Hc _]; [vm_compute; reflexivity..|].
    cbv zeta. rewrite Hc. vm_compute. reflexivity.
Defined.

End Sender.
