(* ===== verification/Secondary.v ===== *)
(** The secondary's side of replication: the epoch-fenced log and the
    receiver's two streams (replicator/secondary.rs), and the copy protocol
    of a build that feeds one of them (replicator/copy.rs). *)

From S2P Require Import Prelude Types Quorum Replicator.

Set Default Goal Selector "!".

(** [tonic::Status]: its code and message. *)
Inductive StatusCode := FailedPrecondition | InternalStatus.
Record Status := mkStatus { status_code : StatusCode; status_message : string }.

Definition failed_precondition (m : string) : Status := mkStatus FailedPrecondition m.
Definition status_internal (m : string) : Status := mkStatus InternalStatus m.

(** [Status] is boxed by [KubericError::Internal]; only its text remains.
    How tonic renders it is tonic's, so callers pass the text. *)

Record SecondaryState := mkSecondaryState {
  current_epoch : Epoch;
  log : gmap Lsn bytes;
  received_lsn : Lsn;
  sec_committed_lsn : Lsn;
}.
#[export] Instance eta_SecondaryState : Settable SecondaryState :=
  {| eta_record r := mkSecondaryState (current_epoch r) (log r) (received_lsn r) (sec_committed_lsn r) |}.

Definition secondary_state_new : SecondaryState := mkSecondaryState epoch_default ∅ 0 0.

Definition set_secondary_committed_lsn (lsn : Lsn) (s : SecondaryState) : SecondaryState :=
  s <| sec_committed_lsn := lsn |>.

Definition update_epoch (new_epoch : Epoch) (s : SecondaryState) : SecondaryState :=
  let s := s <| current_epoch := new_epoch |> in
  let committed := sec_committed_lsn s in
  let s := s <| log ::= filter (λ p : Lsn * bytes, p.1 ≤ committed) |> in
  let new_received := Z.max committed (Z.min (received_lsn s) committed) in
  s <| received_lsn := new_received |>.

Definition log_len (s : SecondaryState) : nat := size (log s).
Definition log_get (lsn : Lsn) (s : SecondaryState) : option bytes := log s !! lsn.

Definition accept_item (item : ReplicationItem) (s : SecondaryState) : result Status SecondaryState :=
  let item_epoch := mkEpoch (epoch_data_loss item) (epoch_config item) in
  reject_if (epoch_ltb item_epoch (current_epoch s))
    (failed_precondition ("stale epoch: got " +:+ epoch_debug item_epoch +:+ ", current " +:+
       epoch_debug (current_epoch s)));;
  let s := s <| log ::= <[item_lsn item := item_data item]> |> in
  let s := if received_lsn s <? item_lsn item then s <| received_lsn := item_lsn item |> else s in
  let s := if sec_committed_lsn s <? item_committed_lsn item
           then s <| sec_committed_lsn := item_committed_lsn item |> else s in
  Ok s.

(** ** The replication stream

    The task of [replication_stream] with the deferred acknowledgements it
    spawns. [delivered] is what went to the user's operation stream,
    [deferred] the operations whose user acknowledgement is awaited, [acks]
    what was sent back to the primary. *)

Record ReplicationStream := mkReplicationStream {
  rs_state : SecondaryState;
  rs_partition : option PState.PartitionState;
  rs_persisted : bool;
  delivered : list (Lsn * bytes);
  deferred : list Lsn;
  acks : list Lsn;
  rs_running : bool;
}.
#[export] Instance eta_ReplicationStream : Settable ReplicationStream :=
  {| eta_record r := mkReplicationStream (rs_state r) (rs_partition r) (rs_persisted r) (delivered r) (deferred r)
    (acks r) (rs_running r) |}.

Definition stream_open (st : SecondaryState) (ps : option PState.PartitionState) (persisted : bool) :
    ReplicationStream := mkReplicationStream st ps persisted [] [] [] true.

(** What reaches the task: an item (with whether the channel it is passed on
    to takes it), a stream error or the end of the stream; and the user's
    answer on the n-th deferred operation ([false]: dropped unanswered). *)
Inductive StreamEvent :=
| SItem (item : ReplicationItem) (passed_on : bool)
| SError
| SEnd
| SUser (n : nat) (acknowledged : bool).

Definition publish_progress (item : ReplicationItem) (ps : PState.PartitionState) : PState.PartitionState :=
  let ps := if PState.ps_committed_lsn ps <? item_committed_lsn item
            then PState.set_committed_lsn (item_committed_lsn item) ps else ps in
  if PState.current_progress ps <? item_lsn item then PState.set_current_progress (item_lsn item) ps else ps.

Definition stream_item (item : ReplicationItem) (passed_on : bool) (r : ReplicationStream) : ReplicationStream :=
  match accept_item item (rs_state r) with
  | Err _ => r <| rs_running := false |>
  | Ok st =>
      let r := r <| rs_state := st |> <| rs_partition ::= fmap (publish_progress item) |> in
      if negb passed_on then r <| rs_running := false |>
      else if rs_persisted r then
        r <| delivered ::= λ l, l ++ [(item_lsn item, item_data item)] |>
          <| deferred ::= λ l, l ++ [item_lsn item] |>
      else r <| acks ::= λ l, l ++ [item_lsn item] |>
  end.

Definition stream_step (ev : StreamEvent) (r : ReplicationStream) : ReplicationStream :=
  match ev with
  | SItem item passed_on => if rs_running r then stream_item item passed_on r else r
  | SError | SEnd => r <| rs_running := false |>
  | SUser n acknowledged =>
      match deferred r !! n with
      | None => r
      | Some lsn =>
          let r := r <| deferred ::= delete n |> in
          if acknowledged then r <| acks ::= λ l, l ++ [lsn] |> else r
      end
  end.

Definition run_stream (evs : list StreamEvent) (r : ReplicationStream) : ReplicationStream :=
  foldl (λ r ev, stream_step ev r) r evs.

(** The copy items and the copy stream of a build. *)
Record CopyItem := mkCopyItem { copy_item_lsn : Lsn; copy_item_data : bytes; is_boundary : bool }.

Record CopyState := mkCopyState {
  copied : list (Lsn * bytes);
  copy_count : Z;
  copy_progress : option Lsn;
}.

(** The loop over the inbound items; [closes_after] is how many operations
    the receiving side of the copy channel takes before it is closed. *)
Fixpoint copy_loop (closes_after : option nat) (items : list (result string CopyItem))
    (c : CopyState) : result Status CopyState :=
  match items with
  | [] => Ok c
  | Err e :: _ => Err (status_internal e)
  | Ok item :: items =>
      let progress := Some (match copy_progress c with
                            | None => copy_item_lsn item
                            | Some lsn => Z.max lsn (copy_item_lsn item) end) in
      if is_boundary item then copy_loop closes_after items (mkCopyState (copied c) (copy_count c) progress)
      else
        match closes_after with
        | Some O => Ok (mkCopyState (copied c) (copy_count c) progress)
        | _ =>
            copy_loop (pred <$> closes_after) items
              (mkCopyState (copied c ++ [(copy_item_lsn item, copy_item_data item)])
                 (i64_add (copy_count c) 1) progress)
        end
  end.

(** [taken]: a copy stream already used the one-shot channel, or there is none. *)
Definition copy_stream (taken : bool) (closes_after : option nat) (items : list (result string CopyItem))
    (ps : option PState.PartitionState) : result Status (CopyState * option PState.PartitionState) :=
  reject_if taken (failed_precondition "copy stream not available or already used");;
  c ← copy_loop closes_after items (mkCopyState [] 0 None);
  Ok (c, match copy_progress c, ps with
         | Some progress, Some st =>
             Some (PState.set_committed_lsn (Z.max (PState.ps_committed_lsn st) progress)
                     (PState.set_current_progress (Z.max (PState.current_progress st) progress) st))
         | _, _ => ps
         end).

(** ** The copy protocol on the primary

    Each await of [run_build_replica_copy] races the cancellation token. *)
Inductive Awaited (A : Type) := WasCancelled | Done (a : A).
Arguments WasCancelled {A}.
Arguments Done {A} a.

Definition awaited {A B} (a : Awaited A) (k : A → result KubericError B) : result KubericError B :=
  match a with WasCancelled => Err Cancelled | Done x => k x end.

(** The reply of a state provider callback under a timeout. *)
Inductive ProviderReply (A : Type) :=
| Answered (r : result KubericError A)
| ReplyLost
| TimedOut.
Arguments Answered {A} r.
Arguments ReplyLost {A}.
Arguments TimedOut {A}.

Definition provider_result {A} (timeout : string) (r : ProviderReply A) : result KubericError A :=
  match r with
  | Answered r => r
  | ReplyLost => Err Closed
  | TimedOut => Err (Internal timeout)
  end.

(** The outcomes of one build's awaits, in order. *)
Record CopyEnv := mkCopyEnv {
  endpoint : result string unit;
  connected : Awaited (result string unit);
  copy_context : Awaited (result string (list (Lsn * bytes)));
  provider_open : bool;
  copy_state : Awaited (ProviderReply unit);
  collected : Awaited (list (Lsn * bytes));
  copy_response : Awaited (result string unit);
}.

Definition internal_err {A} (r : result string A) : result KubericError A :=
  match r with Ok a => Ok a | Err e => Err (Internal e) end.

Definition copy_items (state_ops : list (Lsn * bytes)) (boundary : Lsn) : list CopyItem :=
  ((λ p : Lsn * bytes, mkCopyItem p.1 p.2 false) <$> state_ops) ++ [mkCopyItem boundary [] true].

(** The result and the items streamed; [up_to_lsn] is the committed LSN read
    when the state is requested. *)
Definition build_copy (env : CopyEnv) (up_to_lsn : Lsn) : result KubericError (Lsn * list CopyItem) :=
  internal_err (endpoint env);;
  awaited (connected env) internal_err;;
  awaited (copy_context env) internal_err;;
  reject_if (negb (provider_open env)) Closed;;
  awaited (copy_state env) (provider_result "state_provider timeout");;
  state_ops ← awaited (collected env) Ok;
  let copy_lsn := up_to_lsn in
  let items := copy_items state_ops copy_lsn in
  awaited (copy_response env) internal_err;;
  Ok (copy_lsn, items).

(** [at_request] and [at_end] are the partition state when the copy state is
    requested and when the copy has completed. *)
Definition run_build_replica_copy (env : CopyEnv) (replica_id : ReplicaId)
    (instance_id : ReplicaInstanceId) (build_key : option string)
    (at_request at_end : PState.PartitionState) : result KubericError Lsn * PState.PartitionState :=
  match build_copy env (PState.ps_committed_lsn at_request) with
  | Ok (copy_lsn, _) => (Ok copy_lsn, PState.set_copy_lsn replica_id instance_id build_key copy_lsn at_end)
  | Err e => (Err e, at_end)
  end.

(** ** Theorems *)

Lemma accept_item_Ok item s s' :
  accept_item item s = Ok s' ↔
  ¬ epoch_lt (mkEpoch (epoch_data_loss item) (epoch_config item)) (current_epoch s) ∧
  s' = mkSecondaryState (current_epoch s) (<[item_lsn item := item_data item]> (log s))
         (Z.max (received_lsn s) (item_lsn item)) (Z.max (sec_committed_lsn s) (item_committed_lsn item)).
Proof.
  unfold accept_item. rewrite bind_Ok.
  transitivity (epoch_ltb (mkEpoch (epoch_data_loss item) (epoch_config item)) (current_epoch s) = false ∧
    s' = mkSecondaryState (current_epoch s) (<[item_lsn item := item_data item]> (log s))
         (Z.max (received_lsn s) (item_lsn item)) (Z.max (sec_committed_lsn s) (item_committed_lsn item))).
  - set (s1 := s <| log ::= _ |>).
    set (s2 := if received_lsn s1 <? item_lsn item then _ else s1).
    assert ((if sec_committed_lsn s2 <? item_committed_lsn item
       then s2 <| sec_committed_lsn := item_committed_lsn item |> else s2) =
      mkSecondaryState (current_epoch s) (<[item_lsn item := item_data item]> (log s))
         (Z.max (received_lsn s) (item_lsn item)) (Z.max (sec_committed_lsn s) (item_committed_lsn item))) as Hs.
    { subst s2 s1. destruct s as [e l r c]; simpl; unfold over; simpl.
      destruct (Z.ltb_spec r (item_lsn item)); simpl;
        destruct (Z.ltb_spec c (item_committed_lsn item)); simpl; f_equal; lia. }
    split.
    + intros ([] & Hr%reject_if_Ok & [= <-]). split; [done|exact Hs].
    + intros [Hr ->]. exists tt. split; [by apply reject_if_Ok|]. f_equal. exact Hs.
  - unfold epoch_ltb, epoch_lt. destruct (epoch_cmp _ _); naive_solver.
Qed.

(** Moving to a new epoch truncates the log to exactly the committed
    prefix, adopts the epoch and leaves the received LSN at the committed one
    (even where less had been received). *)
Theorem update_epoch_truncates e s :
  let s' := update_epoch e s in
  current_epoch s' = e ∧ sec_committed_lsn s' = sec_committed_lsn s ∧
  received_lsn s' = sec_committed_lsn s ∧
  ∀ lsn, log s' !! lsn = if decide (lsn ≤ sec_committed_lsn s) then log s !! lsn else None.
Proof.
  split_and!; [done|done|simpl; unfold over; simpl; lia|]. intros lsn. simpl. unfold over; simpl.
  rewrite map_lookup_filter. destruct (log s !! lsn) as [d|]; simpl; [|by case_decide].
  case_decide; [by rewrite option_guard_True|by rewrite option_guard_False].
Qed.

(** What an accepted item leaves in the state. *)
Definition item_held (r : ReplicationStream) (item : ReplicationItem) : Prop :=
  is_Some (log (rs_state r) !! item_lsn item) ∧ item_lsn item ≤ received_lsn (rs_state r) ∧
  match rs_partition r with
  | Some ps => item_lsn item ≤ PState.current_progress ps ∧
      item_committed_lsn item ≤ PState.ps_committed_lsn ps
  | None => True
  end.

Definition item_epoch (item : ReplicationItem) : Epoch := mkEpoch (epoch_data_loss item) (epoch_config item).

(** [items] are the operations passed on so far, oldest first; [dropped] the
    LSNs the user gave up without acknowledging. *)
Definition stream_inv (e : Epoch) (evs : list StreamEvent) (r : ReplicationStream)
    (items : list ReplicationItem) (dropped : list Lsn) : Prop :=
  current_epoch (rs_state r) = e ∧
  Forall (λ item, SItem item true ∈ evs ∧ ¬ epoch_lt (item_epoch item) e) items ∧
  Forall (item_held r) items ∧
  acks r ++ deferred r ++ dropped ≡ₚ item_lsn <$> items ∧
  delivered r = (if rs_persisted r then (λ i, (item_lsn i, item_data i)) <$> items else []) ∧
  (rs_persisted r = false → deferred r = []).

Lemma publish_progress_spec item ps :
  PState.current_progress (publish_progress item ps) = Z.max (PState.current_progress ps) (item_lsn item) ∧
  PState.ps_committed_lsn (publish_progress item ps) =
    Z.max (PState.ps_committed_lsn ps) (item_committed_lsn item).
Proof.
  unfold publish_progress.
  destruct (Z.ltb_spec (PState.ps_committed_lsn ps) (item_committed_lsn item)); cbn [PState.current_progress PState.set_committed_lsn];
    match goal with |- context [?a <? ?b] => destruct (Z.ltb_spec a b) end; simpl in *; unfold over in *; simpl in *; lia.
Qed.

(** Accepting an item keeps what was held and holds the item itself. *)
Lemma held_mono item st' r :
  accept_item item (rs_state r) = Ok st' →
  let r' := r <| rs_state := st' |> <| rs_partition ::= fmap (publish_progress item) |> in
  item_held r' item ∧ ∀ i, item_held r i → item_held r' i.
Proof.
  intros [_ ->]%accept_item_Ok r'. unfold item_held. simpl. unfold over; simpl. split.
  - rewrite lookup_insert_eq. split_and!; [done|lia|].
    destruct (rs_partition r) as [ps|]; [|done]. simpl. destruct (publish_progress_spec item ps) as [-> ->]. lia.
  - intros i (Hl & Hr & Hp). split_and!; [|lia|].
    + rewrite lookup_insert. case_decide; [done|exact Hl].
    + destruct (rs_partition r) as [ps|]; [|done]. simpl. destruct (publish_progress_spec item ps) as [-> ->]. lia.
Qed.

Lemma stream_inv_step e evs ev r items dropped :
  stream_inv e evs r items dropped →
  ∃ items' dropped', stream_inv e (evs ++ [ev]) (stream_step ev r) items' dropped'.
Proof.
  intros (He & Hin & Hheld & Hacks & Hdel & Hdef).
  assert (Forall (λ item, SItem item true ∈ evs ++ [ev] ∧ ¬ epoch_lt (item_epoch item) e) items) as Hin'.
  { eapply Forall_impl; [exact Hin|]. intros i [Hi ?]. split; [|done]. set_solver. }
  destruct ev as [item passed_on| | |n acknowledged]; cbn [stream_step].
  2,3: by exists items, dropped.
  - destruct (rs_running r); [|by exists items, dropped]. unfold stream_item.
    destruct (accept_item item (rs_state r)) as [st'|] eqn:Hacc; [|by exists items, dropped].
    destruct (held_mono _ _ _ Hacc) as [Hnew Hold].
    apply accept_item_Ok in Hacc as [Hep Hst]. rewrite He in Hep.
    assert (current_epoch st' = e) as He' by (by subst).
    set (r1 := r <| rs_state := st' |> <| rs_partition ::= _ |>) in *.
    destruct passed_on; cbn [negb].
    + assert (Forall (item_held r1) (items ++ [item])) as Hheld'.
      { apply Forall_app. split; [exact (Forall_impl _ _ _ Hheld Hold)|]. by constructor. }
      assert (Forall (λ i, SItem i true ∈ evs ++ [SItem item true] ∧ ¬ epoch_lt (item_epoch i) e)
        (items ++ [item])) as Hin1.
      { apply Forall_app. split; [exact Hin'|]. constructor; [|done]. split; [set_solver|exact Hep]. }
      exists (items ++ [item]), dropped. destruct (rs_persisted r) eqn:Hp.
      * change (rs_persisted r1) with (rs_persisted r). rewrite Hp. split_and!; [done|done|done|..].
        -- simpl. unfold over; simpl. rewrite fmap_app, <-Hacks. simpl. solve_Permutation.
        -- simpl. unfold over; simpl. rewrite Hp, Hdel, fmap_app. done.
        -- simpl. by rewrite Hp.
      * change (rs_persisted r1) with (rs_persisted r). rewrite Hp. split_and!; [done|done|done|..].
        -- simpl. unfold over; simpl. rewrite fmap_app, <-Hacks. simpl. solve_Permutation.
        -- simpl. by rewrite Hp.
        -- simpl. by rewrite Hp.
    + exists items, dropped. split_and!; [done|done| |done|done|done].
      exact (Forall_impl _ _ _ Hheld Hold).
  - destruct (deferred r !! n) as [lsn|] eqn:Hn; [|by exists items, dropped].
    pose proof (delete_Permutation _ _ _ Hn) as Hperm.
    assert (rs_persisted r = false → delete n (deferred r) = []) as Hdel'.
    { intros Hf%Hdef. rewrite Hf in Hn. done. }
    destruct acknowledged.
    + exists items, dropped. split_and!; [done|done|done| |done|done].
      simpl. unfold over; simpl. rewrite <-Hacks. revert Hperm. generalize (delete n (deferred r)). intros d ->. solve_Permutation.
    + exists items, (lsn :: dropped). split_and!; [done|done|done| |done|done].
      simpl. unfold over; simpl. rewrite <-Hacks. revert Hperm. generalize (delete n (deferred r)). intros d ->. solve_Permutation.
Qed.

Lemma stream_step_persisted ev r : rs_persisted (stream_step ev r) = rs_persisted r.
Proof.
  destruct ev as [item p| | |n a]; cbn [stream_step]; [|done|done|].
  - unfold stream_item. by repeat case_match.
  - destruct (deferred r !! n); [by destruct a|done].
Qed.

Lemma run_stream_snoc evs ev r : run_stream (evs ++ [ev]) r = stream_step ev (run_stream evs r).
Proof. unfold run_stream. by rewrite foldl_app. Qed.

(** The secondary acknowledges only what it holds: on a replication
    stream, whatever arrives and however the user answers, the LSNs
    acknowledged, still deferred and given up are exactly those of the items
    passed on; each of these came from an epoch that is not older than the
    receiver's, is in the log, and is covered by the received and published
    progress; in persisted mode the user receives them in stream order. *)
Theorem stream_acks_sound evs st ps persisted :
  let r := run_stream evs (stream_open st ps persisted) in
  ∃ items dropped,
    Forall (λ item, SItem item true ∈ evs ∧ ¬ epoch_lt (item_epoch item) (current_epoch st)) items ∧
    Forall (item_held r) items ∧
    acks r ++ deferred r ++ dropped ≡ₚ item_lsn <$> items ∧
    delivered r = (if persisted then (λ i, (item_lsn i, item_data i)) <$> items else []).
Proof.
  intros r.
  assert (rs_persisted r = persisted ∧ ∃ items dropped, stream_inv (current_epoch st) evs r items dropped)
    as [Hp (items & dropped & _ & ? & ? & ? & Hd & _)].
  { subst r. induction evs as [|ev evs [Hp (items & dropped & IH)]] using rev_ind.
    - split; [done|]. exists [], []. split_and!; [done|constructor|constructor|done|by destruct persisted|done].
    - rewrite run_stream_snoc. split; [|by eapply stream_inv_step].
      by rewrite stream_step_persisted. }
  exists items, dropped. rewrite <-Hp. split_and!; done.
Qed.

(** Epoch fencing: an item of an older epoch ends the stream; neither it
    nor anything after it reaches the state, the published progress or the
    user, and no item is acknowledged any more unless it was deferred. *)
Theorem stale_item_ends_stream item p evs r :
  epoch_lt (item_epoch item) (current_epoch (rs_state r)) →
  let r' := run_stream (SItem item p :: evs) r in
  rs_running r = true →
  rs_running r' = false ∧ rs_state r' = rs_state r ∧ rs_partition r' = rs_partition r ∧
  delivered r' = delivered r ∧ ∀ lsn, lsn ∈ acks r' → lsn ∈ acks r ∨ lsn ∈ deferred r.
Proof.
  intros Hlt r' Hrun. subst r'. unfold run_stream; simpl. rewrite Hrun.
  assert (stream_item item p r = r <| rs_running := false |>) as ->.
  { unfold stream_item. destruct (accept_item item (rs_state r)) eqn:Ha; [|done].
    by apply accept_item_Ok in Ha as [? _]. }
  set (r1 := r <| rs_running := false |>).
  assert (∀ r2, rs_running r2 = false →
    let r3 := foldl (λ r ev, stream_step ev r) r2 evs in
    rs_running r3 = false ∧ rs_state r3 = rs_state r2 ∧ rs_partition r3 = rs_partition r2 ∧
    delivered r3 = delivered r2 ∧ ∀ lsn, lsn ∈ acks r3 → lsn ∈ acks r2 ∨ lsn ∈ deferred r2) as H.
  { clear. induction evs as [|ev evs IH]; intros r2 H2; simpl; [split_and!; [done..|by left]|].
    destruct ev as [i q| | |n a]; simpl.
    - rewrite H2. by apply IH.
    - exact (IH (r2 <| rs_running := false |>) eq_refl).
    - exact (IH (r2 <| rs_running := false |>) eq_refl).
    - destruct (deferred r2 !! n) as [l|] eqn:Hn; [|by apply IH].
      pose proof (list_elem_of_lookup_2 _ _ _ Hn) as Hl.
      assert (∀ x, x ∈ delete n (deferred r2) → x ∈ deferred r2) as Hsub.
      { intros x Hx. rewrite (delete_Permutation _ _ _ Hn). by right. }
      match goal with |- context [foldl _ ?r4 evs] =>
        destruct (IH r4) as (E1 & E2 & E3 & E4 & Ha); [by destruct a|];
        rewrite E1, E2, E3, E4 end.
      split_and!; [done|by destruct a..|]. intros x [Hx|Hx]%Ha; destruct a; simpl in Hx;
        unfold over in Hx; simpl in Hx; [|left; exact Hx|right; apply Hsub, Hx|right; apply Hsub, Hx].
      apply elem_of_app in Hx as [?| ->%list_elem_of_singleton]; [by left|by right]. }
  exact (H r1 eq_refl).
Qed.

Lemma stale_item_ends_stream_witness :
  let st := update_epoch (mkEpoch 0 2) secondary_state_new in
  let r := run_stream [SItem (mkReplicationItem 0 1 5 [] 4) true; SItem (mkReplicationItem 0 2 6 [] 4) true]
             (stream_open st None false) in
  rs_running r = false ∧ rs_state r = st ∧ acks r = [].
Proof.
  destruct (stale_item_ends_stream (mkReplicationItem 0 1 5 [] 4) true
    [SItem (mkReplicationItem 0 2 6 [] 4) true]
    (stream_open (update_epoch (mkEpoch 0 2) secondary_state_new) None false)) as (? & ? & _);
    [vm_compute; reflexivity|reflexivity|].
  split; [assumption|]. split; [assumption|vm_compute; reflexivity].
Defined.

(** ** The copy protocol end to end *)

Lemma copy_loop_ops ops items c :
  Z.of_nat (length ops) + copy_count c ≤ i64_max → 0 ≤ copy_count c →
  copy_loop None ((Ok <$> ((λ p : Lsn * bytes, mkCopyItem p.1 p.2 false) <$> ops)) ++ items) c =
  copy_loop None items (mkCopyState (copied c ++ ops) (copy_count c + Z.of_nat (length ops))
    (foldl (λ acc p, Some (match acc with None => p.1 | Some l => Z.max l p.1 end)) (copy_progress c) ops)).
Proof.
  revert c. induction ops as [|[lsn data] ops IH]; intros c Hlen Hpos; simpl.
  - rewrite app_nil_r, Z.add_0_r. by destruct c.
  - simpl in Hlen. unfold i64_max in *. rewrite i64_add_small.
    + rewrite IH; simpl; [|unfold i64_max; lia|lia]. rewrite <-app_assoc. simpl. do 2 f_equal. lia.
    + unfold in_i64, i64_min, i64_max. lia.
Qed.

Lemma fold_progress_ge (ops : list (Lsn * bytes)) (acc : option Lsn) p :
  foldl (λ acc p, Some (match acc with None => p.1 | Some l => Z.max l p.1 end)) acc ops = Some p →
  (∀ l, acc = Some l → l ≤ p) ∧ Forall (λ q, q.1 ≤ p) ops.
Proof.
  revert acc. induction ops as [|q ops IH]; intros acc; simpl.
  - intros ->. split; [intros l [= ->]; lia|constructor].
  - intros Hf. destruct (IH _ Hf) as [H1 H2]. specialize (H1 _ eq_refl). split.
    + intros l ->. lia.
    + constructor; [|done]. destruct acc; lia.
Qed.

Lemma build_copy_Ok env up c items :
  build_copy env up = Ok (c, items) →
  c = up ∧ ∃ ops, collected env = Done ops ∧ items = copy_items ops c ∧ copy_response env = Done (Ok tt).
Proof.
  unfold build_copy. rewrite bind_Ok. intros ([] & _ & H).
  apply bind_Ok in H as ([] & _ & H). apply bind_Ok in H as (ctx & _ & H).
  apply bind_Ok in H as ([] & _ & H). apply bind_Ok in H as (u & _ & H).
  apply bind_Ok in H as (ops & Hops & H). apply bind_Ok in H as ([] & Hr & H). simplify_eq.
  split; [done|]. exists ops. split; [|split; [done|]].
  - destruct (collected env); naive_solver.
  - destruct (copy_response env) as [|[[]|]]; naive_solver.
Qed.

(** A finished build: the copy boundary it returns is the LSN committed
    when the snapshot was requested; it is recorded for exactly this replica,
    incarnation and build key, replacing every earlier boundary of that
    replica and no other's. The secondary that reads the streamed items hands
    exactly the snapshot to its user and has progress and committed LSN of at
    least the boundary, even when the snapshot is empty. A build that fails
    or is cancelled records nothing. *)
Theorem build_copy_boundary env rid inst key at_request at_end :
  let '(res, ps') := run_build_replica_copy env rid inst key at_request at_end in
  match res with
  | Err _ => ps' = at_end
  | Ok c =>
      c = PState.ps_committed_lsn at_request ∧
      (∀ rid' inst' key', PState.copy_lsn rid' inst' key' ps' =
         if decide ((rid', inst', key') = (rid, inst, key)) then Some c
         else if decide (rid' = rid) then None else PState.copy_lsn rid' inst' key' at_end) ∧
      ∃ ops, build_copy env c = Ok (c, copy_items ops c) ∧
        (Z.of_nat (length ops) ≤ i64_max → ∀ st : PState.PartitionState, ∃ cs st',
           copy_stream false None (Ok <$> copy_items ops c) (Some st) = Ok (cs, Some st') ∧
           copied cs = ops ∧ copy_count cs = Z.of_nat (length ops) ∧
           c ≤ PState.current_progress st' ∧ c ≤ PState.ps_committed_lsn st')
  end.
Proof.
  unfold run_build_replica_copy.
  destruct (build_copy env _) as [[c items]|e] eqn:Hb; [|done].
  destruct (build_copy_Ok _ _ _ _ Hb) as (-> & ops & Hc & -> & Hr).
  split; [done|]. split; [intros *; apply PState.copy_lsn_set|].
  exists ops. split; [done|]. intros Hlen st.
  unfold copy_stream, copy_items. cbn [reject_if mbind result_bind].
  rewrite fmap_app, copy_loop_ops by (simpl; lia). simpl.
  match goal with |- context [foldl ?f None ops] => set (fp := foldl f None ops) end.
  eexists _, _. split; [reflexivity|]. simpl. unfold over; simpl.
  split_and!; [done|done|..]; destruct fp; lia.
Qed.
