(* ===== verification/Actor.v ===== *)
(** The WAL replicator actor (replicator/actor.rs): one task that serves
    control events and replicate requests, with ACK readers, the expiration
    scheduler and the other writers of the partition state running beside
    it. A handler is a program of segments; each segment is the synchronous
    code between two awaits and runs as one step, and any background step can
    come between two segments. *)

From S2P Require Import Prelude Types Quorum Replicator Secondary.

Set Default Goal Selector "!".

(** ** The world the actor works on

    [role] to [queue] are locals of [run]; the tracker, the partition state
    and the sender's tables are shared with the background tasks. *)

Record World := mkWorld {
  role : Role;
  w_epoch : Epoch;
  next_lsn : Lsn;
  primary_sender : option Sender.PrimarySender;
  replication_queue : gmap Lsn bytes;
  quorum_tracker : QuorumTracker;
  state : PState.PartitionState;
}.
#[export] Instance eta_World : Settable World :=
  {| eta_record r := mkWorld (role r) (w_epoch r) (next_lsn r) (primary_sender r) (replication_queue r)
    (quorum_tracker r) (state r) |}.

(** ReplicatorControlEvent. *)
Inductive ControlEvent :=
| EvOpen (mode : OpenMode) (reply : ReplyId)
| EvClose (reply : ReplyId)
| EvAbort
| EvChangeRole (epoch : Epoch) (role : Role) (reply : ReplyId)
| EvUpdateEpoch (epoch : Epoch) (reply : ReplyId)
| EvOnDataLoss (expected_epoch : option Epoch) (reply : ReplyId)
| EvUpdateCatchUpConfiguration (current previous : ReplicaSetConfig) (required_build_key : option string)
    (reply : ReplyId)
| EvUpdateCurrentConfiguration (current : ReplicaSetConfig) (reply : ReplyId)
| EvWaitForCatchUpQuorum (wait_id : option string) (mode : ReplicaSetQuorumMode) (reply : ReplyId)
| EvCancelCatchUpQuorumWait (wait_id : string) (reply : ReplyId)
| EvBuildReplica (replica : ReplicaInfo) (build_key : option string) (reply : ReplyId)
| EvRemoveReplica (replica_id : ReplicaId) (instance_id : ReplicaInstanceId) (reply : ReplyId).

(** What the actor sends, and marks the theorems speak about: an LSN handed
    to a request, progress replaced after a data loss or by an [Open] that
    reaches a primary. A sender that will be handed to the tracker is marked
    when it arrives. *)
Inductive Out :=
| OTracker (e : Reply)
| OUnit (r : ReplyId) (res : result KubericError unit)
| OAction (r : ReplyId) (res : result KubericError DataLossAction)
| OSpawnCopy (replica : ReplicaInfo) (build_key : option string) (r : ReplyId)
| OAccepted (r : ReplyId)
| OAssigned (lsn : Lsn)
| OReset (lsn : Lsn)
| OReopened (lsn : Lsn).

(** A handler: segments, calls to the state provider ([None]: its channel is
    closed) and connection attempts. [Next] goes back to the loop, [Break]
    leaves it; [finished] tells whether the tracker was drained before. *)
Inductive proc :=
| Next
| Break (drained : bool)
| Act (f : Instant → World → World * list Out) (k : World → proc)
| AskLsn (k : option (ProviderReply Lsn) → proc)
| AskEpoch (epoch : Epoch) (previous_epoch_last_lsn : Lsn) (k : option (ProviderReply unit) → proc)
| AskLoss (k : option (ProviderReply bool) → proc)
| Connect (id : ReplicaId) (instance : ReplicaInstanceId) (address : string)
    (k : result KubericError Token → proc).

(** A call of the tracker under its lock. *)
Definition tracker_call (op : TrackerOp) (w : World) : World * list Out :=
  let '(t, e) := apply_op op (quorum_tracker w) in (w <| quorum_tracker := t |>, OTracker <$> e).

Definition send (o : list Out) : proc := Act (λ _ w, (w, o)) (λ _, Next).

Section actor.
  Context (replica_id : ReplicaId).

Definition provider_answer {A} (timeout : string) (ans : option (ProviderReply A)) : result KubericError A :=
  match ans with None => Err Closed | Some r => provider_result timeout r end.

(** [if let Some(mut sender) = primary_sender.take() { sender.close_all() }]. *)
Definition take_sender (w : World) : World := w <| primary_sender := None |>.

Definition publish_connections (w : World) : World :=
  w <| state ::= PState.set_active_replica_connections
         (match primary_sender w with Some s => Sender.active_connections s | None => ∅ end) |>.

Definition handle_open (mode : OpenMode) (r : ReplyId) : proc :=
  match mode with
  | OpenExisting =>
      AskLsn (λ ans,
        match provider_answer "state provider GetLastCommittedLsn timeout" ans with
        | Ok lsn =>
            Act (λ _ w,
              (w <| state ::= λ s, PState.set_committed_lsn lsn
                      (PState.set_catch_up_capability lsn (PState.set_current_progress lsn s)) |>
                 <| next_lsn ::= λ n, Z.max n (i64_saturating_add lsn 1) |>,
               (if decide (role w = Primary) then [OReopened lsn] else []) ++ [OUnit r (Ok tt)])) (λ _, Next)
        | Err e => send [OUnit r (Err e)]
        end)
  | OpenNew => Act (λ _ w, (w <| state ::= PState.set_catch_up_capability 0 |>, [OUnit r (Ok tt)])) (λ _, Next)
  end.

(** [fail_all], then the sender and the queue. *)
Definition drain (error : KubericError) (w : World) : World * list Out :=
  let '(w, o) := tracker_call (OFailAll error) w in
  ((take_sender w) <| replication_queue ::= Queue.clear |>, o).

Definition handle_close (r : ReplyId) : proc :=
  Act (λ _ w, let '(w, o) := drain Closed w in (w, o ++ [OUnit r (Ok tt)])) (λ _, Break true).

Definition handle_abort : proc := Act (λ _ w, drain Closed w) (λ _, Break true).

(** The end of [ChangeRole]: publish the connections and answer. *)
Definition role_changed (r : ReplyId) (w : World) : World * list Out :=
  (publish_connections w, [OUnit r (Ok tt)]).

Definition handle_change_role (w0 : World) (e : Epoch) (new_role : Role) (r : ReplyId) : proc :=
  let was_primary := bool_decide (role w0 = Primary) in
  let assume (w : World) := w <| w_epoch := e |> <| role := new_role |> in
  if decide (new_role = Primary) then
    if was_primary then
      Act (λ _ w, role_changed r ((assume w) <| primary_sender ::= fmap (Sender.set_epoch e) |>)) (λ _, Next)
    else
      Act (λ _ w, (assume w, [])) (λ w,
        let current_progress := PState.current_progress (state w) in
        let committed := PState.ps_committed_lsn (state w) in
        Act (λ _ w,
          let '(w, o) := tracker_call (OSeedProgress current_progress committed) w in
          let w := w <| next_lsn ::= λ n, Z.max n (i64_add current_progress 1) |>
                     <| primary_sender := Some (Sender.new replica_id e) |> in
          let '(w, o') := role_changed r w in (w, o ++ o')) (λ _, Next))
  else
    Act (λ _ w,
      let '(w, o) := if was_primary then drain NotPrimary w else (w, []) in
      let '(w, o') := role_changed r (assume w) in (w, o ++ o')) (λ _, Next).

Definition handle_update_epoch (e : Epoch) (r : ReplyId) : proc :=
  Act (λ _ w, (w <| w_epoch := e |>, [])) (λ w,
    AskEpoch e (PState.ps_committed_lsn (state w)) (λ ans,
      send [OUnit r (provider_answer "state provider UpdateEpoch timeout" ans)])).

(** Tracker progress published after a configuration change. *)
Definition publish_committed (w : World) : World :=
  w <| state ::= PState.advance_committed_lsn (committed_lsn (quorum_tracker w)) |>.

Definition replay (s : Sender.PrimarySender) (rid : ReplicaId) (pending : list (Lsn * bytes)) (committed : Lsn) :
    Sender.PrimarySender :=
  foldl (λ s p, Sender.send_to_one rid p.1 p.2 committed s) s pending.

(** The connection of one member is made: install it and replay the
    retained operations beyond the copy boundary. *)
Definition connect_and_replay (m : ReplicaInfo) (copy : option Lsn) (tok : Token) (w : World) : World :=
  let replay_from := i64_add (default 0 copy) 1 in
  w <| primary_sender ::= fmap (λ s,
         replay (Sender.add_secondary (ri_id m) (ri_instance_id m) (Ok tok) s).1 (ri_id m)
           (Queue.ops_from replay_from (replication_queue w)) (PState.ps_committed_lsn (state w))) |>.

Definition missing_boundary (m : ReplicaInfo) : KubericError :=
  Internal ("missing exact copy boundary for replica " +:+ pretty (ri_id m) +:+ "@" +:+ ri_instance_id m).

Definition needs_connection (m : ReplicaInfo) (w : World) : bool :=
  match primary_sender w with
  | None => false
  | Some s => negb (ri_id m =? replica_id) && negb (Sender.has_connection (ri_id m) (ri_instance_id m) s)
  end.

Fixpoint connect_members (required_build_key : option string) (members : list ReplicaInfo) (r : ReplyId) : proc :=
  match members with
  | [] => Act (λ _ w, role_changed r w) (λ _, Next)
  | m :: ms =>
      Act (λ _ w, (w, [])) (λ w,
        if negb (needs_connection m w) then connect_members required_build_key ms r
        else
          let copy := PState.copy_lsn (ri_id m) (ri_instance_id m)
            (if ri_must_catch_up m then required_build_key else None) (state w) in
          if ri_must_catch_up m && negb (bool_decide (is_Some copy)) then send [OUnit r (Err (missing_boundary m))]
          else
            Connect (ri_id m) (ri_instance_id m) (ri_replicator_address m) (λ ans,
              match ans with
              | Err e =>
                  if ri_must_catch_up m then send [OUnit r (Err e)]
                  else connect_members required_build_key ms r
              | Ok tok => Act (λ _ w, (connect_and_replay m copy tok w, []))
                            (λ _, connect_members required_build_key ms r)
              end))
  end.

Definition member_ids (config : ReplicaSetConfig) : gset ReplicaId := list_to_set (ri_id <$> rc_members config).

Definition handle_update_catch_up (current previous : ReplicaSetConfig) (required_build_key : option string)
    (r : ReplyId) : proc :=
  let cc_members := {[replica_id]} ∪ member_ids current in
  let pc_ids := member_ids previous in
  let pc_members := if decide (pc_ids = ∅) then pc_ids else {[replica_id]} ∪ pc_ids in
  let must_catch_up := list_to_set (ri_id <$> filter (λ m, ri_must_catch_up m = true) (rc_members current)) in
  let member_progress := foldl (λ acc m, <[ri_id m := ri_current_progress m]> acc) ∅ (rc_members current) in
  Act (λ now w, tracker_call (OSetCatchUp now cc_members (rc_write_quorum current) pc_members
         (rc_write_quorum previous) must_catch_up member_progress) w) (λ _,
  Act (λ _ w, (publish_committed w, [])) (λ _, connect_members required_build_key (rc_members current) r)).

Definition handle_update_current (current : ReplicaSetConfig) (r : ReplyId) : proc :=
  let cc_members := {[replica_id]} ∪ member_ids current in
  Act (λ now w, tracker_call (OSetCurrent now cc_members (rc_write_quorum current)) w) (λ _,
  Act (λ _ w,
    let w := publish_committed w in
    (w <| replication_queue ::= Queue.gc (PState.ps_committed_lsn (state w)) |>, [OUnit r (Ok tt)])) (λ _, Next)).

Definition handle_wait (wait_id : option string) (mode : ReplicaSetQuorumMode) (r : ReplyId) : proc :=
  Act (λ now w, tracker_call (OWait now wait_id mode r) w) (λ _, Next).

Definition handle_cancel_wait (wait_id : string) (r : ReplyId) : proc :=
  Act (λ _ w, let '(w, o) := tracker_call (OCancelWait wait_id) w in (w, o ++ [OUnit r (Ok tt)])) (λ _, Next).

Definition handle_build (replica : ReplicaInfo) (build_key : option string) (r : ReplyId) : proc :=
  send [OSpawnCopy replica build_key r].

Definition handle_remove (rid : ReplicaId) (inst : ReplicaInstanceId) (r : ReplyId) : proc :=
  Act (λ _ w, role_changed r (w <| primary_sender ::= fmap (λ s, (Sender.remove_secondary rid inst s).1) |>))
    (λ _, Next).

Definition epoch_mismatch (expected actual : Epoch) : KubericError :=
  Internal ("data-loss expected epoch " +:+ epoch_debug expected +:+ " does not match actor epoch " +:+
            epoch_debug actual).

Definition handle_on_data_loss (w0 : World) (expected_epoch : option Epoch) (r : ReplyId) : proc :=
  let continue :=
    AskLoss (λ ans,
      match provider_answer "state provider OnDataLoss timeout" ans with
      | Err e => send [OAction r (Err e)]
      | Ok false => send [OAction r (Ok DataLossNone)]
      | Ok true =>
          AskLsn (λ ans,
            match provider_answer "state provider progress refresh timeout" ans with
            | Err e => send [OAction r (Err e)]
            | Ok lsn =>
                Act (λ _ w, (w <| state ::= λ s, PState.set_committed_lsn lsn
                       (PState.set_catch_up_capability lsn (PState.set_current_progress lsn s)) |>, [])) (λ _,
                Act (λ _ w,
                  let '(w, o) := tracker_call (OResetAfterDataLoss lsn lsn) w in
                  (w <| replication_queue ::= Queue.clear |> <| next_lsn := i64_saturating_add lsn 1 |>,
                   o ++ [OReset lsn; OAction r (Ok StateChanged)])) (λ _, Next))
            end)
      end) in
  match expected_epoch with
  | Some expected =>
      if decide (expected = w_epoch w0) then continue
      else send [OAction r (Err (epoch_mismatch expected (w_epoch w0)))]
  | None => continue
  end.

Definition handle_control (ev : ControlEvent) (w0 : World) : proc :=
  match ev with
  | EvOpen mode r => handle_open mode r
  | EvClose r => handle_close r
  | EvAbort => handle_abort
  | EvChangeRole e new_role r => handle_change_role w0 e new_role r
  | EvUpdateEpoch e r => handle_update_epoch e r
  | EvOnDataLoss expected r => handle_on_data_loss w0 expected r
  | EvUpdateCatchUpConfiguration current previous key r => handle_update_catch_up current previous key r
  | EvUpdateCurrentConfiguration current r => handle_update_current current r
  | EvWaitForCatchUpQuorum wait_id mode r => handle_wait wait_id mode r
  | EvCancelCatchUpQuorumWait wait_id r => handle_cancel_wait wait_id r
  | EvBuildReplica replica key r => handle_build replica key r
  | EvRemoveReplica rid inst r => handle_remove rid inst r
  end.

(** The data arm. *)
Definition handle_request (w0 : World) (data : bytes) (r : ReplyId) : proc :=
  if decide (role w0 ≠ Primary) then send [OTracker (OpReply r (Err NotPrimary))]
  else
    let lsn := next_lsn w0 in
    Act (λ _ w, (w <| next_lsn := i64_add lsn 1 |> <| replication_queue ::= Queue.push lsn data |>,
                 [OAssigned lsn])) (λ _,
    Act (λ now w, tracker_call (ORegister now lsn replica_id r) w) (λ _,
    Act (λ _ w,
      let committed := committed_lsn (quorum_tracker w) in
      let w := w <| state ::= λ s, PState.advance_committed_lsn committed (PState.set_current_progress lsn s) |> in
      (match primary_sender w with
       | Some s => publish_connections (w <| primary_sender := Some (Sender.send_to_all lsn data committed s) |>)
       | None => w
       end, [])) (λ _, Next))).

(** ** Steps *)

Record Cfg := mkCfg { cfg_proc : proc; cfg_world : World }.

(** One turn of [run_expiration_scheduler]. *)
Definition expiration_turn (now : Instant) (t : QuorumTracker) : QuorumTracker * list Reply * option Instant :=
  let '(t, e) := expire_due now t in (t, e, next_deadline t).

Inductive Label :=
(* the loop and its handlers *)
| LControl (ev : ControlEvent)
| LRequest (data : bytes) (reply : ReplyId)
| LChannelsClosed
| LRun (now : Instant)
| LLsn (ans : option (ProviderReply Lsn))
| LEpoch (ans : option (ProviderReply unit))
| LLoss (ans : option (ProviderReply bool))
| LConnect (ans : result KubericError Token)
(* background tasks; an ACK may come from any reader ever spawned *)
| BAck (now : Instant) (reader : Sender.AckReader) (lsn : Lsn)
| BExpire (now : Instant)
| BDrainExit (rid : ReplicaId) (inst : ReplicaInstanceId)
| BState (s : PState.PartitionState).

Definition accepted_by (ev : ControlEvent) : list Out :=
  match ev with EvWaitForCatchUpQuorum _ _ r => [OAccepted r] | _ => [] end.

Definition step_background (l : Label) (w : World) : option (World * list Out) :=
  match l with
  | BAck now reader lsn =>
      match primary_sender w with
      | None => Some (w, [])
      | Some s =>
          match Sender.read_ack now reader lsn s (quorum_tracker w) (state w) with
          | Some (t, e, ps) => Some (w <| quorum_tracker := t |> <| state := ps |>, OTracker <$> e)
          | None => Some (w, [])
          end
      end
  | BExpire now =>
      let '(t, e, _) := expiration_turn now (quorum_tracker w) in
      Some (w <| quorum_tracker := t |>, OTracker <$> e)
  | BDrainExit rid inst => Some (w <| primary_sender ::= fmap (Sender.drain_exit rid inst) |>, [])
  | BState s => Some (w <| state := s |>, [])
  | _ => None
  end.

Definition step_actor (l : Label) (c : Cfg) : option (Cfg * list Out) :=
  let w := cfg_world c in
  match l, cfg_proc c with
  | LControl ev, Next => Some (mkCfg (handle_control ev w) w, accepted_by ev)
  | LRequest data r, Next => Some (mkCfg (handle_request w data r) w, [OAccepted r])
  | LChannelsClosed, Next => Some (mkCfg (Break false) w, [])
  | LRun now, Act f k => let '(w, o) := f now w in Some (mkCfg (k w) w, o)
  | LLsn ans, AskLsn k => Some (mkCfg (k ans) w, [])
  | LEpoch ans, AskEpoch _ _ k => Some (mkCfg (k ans) w, [])
  | LLoss ans, AskLoss k => Some (mkCfg (k ans) w, [])
  | LConnect ans, Connect _ _ _ k => Some (mkCfg (k ans) w, [])
  | _, _ => None
  end.

Definition step_cfg (l : Label) (c : Cfg) : option (Cfg * list Out) :=
  match step_background l (cfg_world c) with
  | Some (w, o) => Some (mkCfg (cfg_proc c) w, o)
  | None => step_actor l c
  end.

(** A run; [None] when a label does not apply where it comes. *)
Fixpoint run (ls : list Label) (c : Cfg) : option (Cfg * list Out) :=
  match ls with
  | [] => Some (c, [])
  | l :: ls =>
      '(c, o) ← step_cfg l c;
      '(c, o') ← run ls c;
      Some (c, o ++ o')
  end.

Definition initial (quorum_timeout : Duration) : Cfg :=
  mkCfg Next (mkWorld Unknown epoch_default 1 None Queue.new (with_timeout quorum_timeout) PState.new).

End actor.

(** A single-replica primary commits at once; a second one acknowledges. *)
Example single_replica_commit :
  option_map snd (run 1 [LControl (EvChangeRole (mkEpoch 0 1) Primary 5); LRun 0; LRun 0;
    LControl (EvUpdateCurrentConfiguration (mkReplicaSetConfig [] 1) 6); LRun 0; LRun 0;
    LRequest [] 7; LRun 1; LRun 1; LRun 1] (initial 9))
  = Some [OUnit 5 (Ok tt); OUnit 6 (Ok tt); OAccepted 7; OAssigned 1; OTracker (OpReply 7 (Ok 1))].
Proof. vm_compute. reflexivity. Qed.

(** ** Reasoning about handlers

    A history is what was sent so far. Background steps send only tracker
    replies; [bg] is what they may do to a history and a world: the actor's
    locals stay, pending writes only leave, the senders the tracker held are
    still held or were answered, and connections may lose their receiver. *)

Definition answered (o : Out) : option ReplyId :=
  match o with OTracker e => Some (reply_sender e) | _ => None end.
Definition accepted (o : Out) : option ReplyId := match o with OAccepted r => Some r | _ => None end.
Definition assigned (o : Out) : option Lsn := match o with OAssigned lsn => Some lsn | _ => None end.

Definition no_drops (o : list Out) : Prop := ∀ r, OTracker (ReplyDropped r) ∉ o.

(** Only tracker replies, none of them dropped, covering what left the tracker. *)
Definition tracker_outs (o : list Out) (t t' : QuorumTracker) : Prop :=
  Forall (λ x, ∃ e, x = OTracker e) o ∧ no_drops o ∧
  omap answered o ++ outstanding t' ≡ₚ outstanding t ∧
  dom (pending t') ⊆ dom (pending t).

Definition conn_le (c c' : Sender.SecondaryConnection) : Prop :=
  Sender.item_tx c' = Sender.item_tx c ∧ Sender.instance_id c' = Sender.instance_id c ∧
  (Sender.rx_alive c' = true → Sender.rx_alive c = true).

Definition sender_le (s s' : option Sender.PrimarySender) : Prop :=
  match s, s' with
  | None, None => True
  | Some s, Some s' => ∀ rid c', Sender.connections s' !! rid = Some c' →
      ∃ c, Sender.connections s !! rid = Some c ∧ conn_le c c'
  | _, _ => False
  end.

Definition bg (h : list Out) (w : World) (h' : list Out) (w' : World) : Prop :=
  role w' = role w ∧ w_epoch w' = w_epoch w ∧ next_lsn w' = next_lsn w ∧
  replication_queue w' = replication_queue w ∧
  sender_le (primary_sender w) (primary_sender w') ∧
  ∃ o, h' = h ++ o ∧ tracker_outs o (quorum_tracker w) (quorum_tracker w').

Lemma sender_le_refl s : sender_le s s.
Proof. destruct s; simpl; [|done]. intros rid c Hc. exists c. done. Qed.

Lemma sender_le_trans s1 s2 s3 : sender_le s1 s2 → sender_le s2 s3 → sender_le s1 s3.
Proof.
  destruct s1, s2, s3; simpl; try done. intros H1 H2 rid c3 (c2 & Hc2 & He2 & Hi2 & Ha2)%H2.
  destruct (H1 _ _ Hc2) as (c1 & Hc1 & He1 & Hi1 & Ha1). exists c1. split; [done|]. split_and!; [congruence..|auto].
Qed.

Lemma tracker_outs_nil t : tracker_outs [] t t.
Proof. split_and!; [constructor|by intros r ?%not_elem_of_nil|done|done]. Qed.

Lemma tracker_outs_app o1 o2 t1 t2 t3 :
  tracker_outs o1 t1 t2 → tracker_outs o2 t2 t3 → tracker_outs (o1 ++ o2) t1 t3.
Proof.
  intros (Hf1 & Hd1 & Hp1 & Hs1) (Hf2 & Hd2 & Hp2 & Hs2). split_and!.
  - by apply Forall_app.
  - intros r. rewrite elem_of_app. by intros [?%Hd1|?%Hd2].
  - by rewrite omap_app, <-app_assoc, Hp2.
  - by etrans.
Qed.

Lemma bg_refl h w : bg h w h w.
Proof.
  split_and!; [done..|apply sender_le_refl|]. exists []. rewrite app_nil_r. split; [done|]. apply tracker_outs_nil.
Qed.

Lemma bg_trans h1 w1 h2 w2 h3 w3 : bg h1 w1 h2 w2 → bg h2 w2 h3 w3 → bg h1 w1 h3 w3.
Proof.
  intros (E1 & E2 & E3 & E4 & Hs & o & -> & Ho) (E1' & E2' & E3' & E4' & Hs' & o' & -> & Ho').
  split_and!; [congruence..|by eapply sender_le_trans|].
  exists (o ++ o'). split; [by rewrite app_assoc|]. by eapply tracker_outs_app.
Qed.

Lemma answered_tracker (e : list Reply) : omap answered (OTracker <$> e) = reply_sender <$> e.
Proof. induction e as [|x e IH]; [done|]. simpl. by f_equal. Qed.

(** A tracker call that hands over no sender. *)
Lemma tracker_outs_step (f : step) t :
  conserves f → keeps f → tracker_outs (OTracker <$> (f t).2) t (f t).1.
Proof.
  intros Hc Hk. destruct (Hk t) as [Hd Hn]. split_and!; [| | |done].
  - apply Forall_fmap, Forall_true. intros e. by exists e.
  - intros r (e & [= <-] & ?)%list_elem_of_fmap. by eapply Hn.
  - rewrite answered_tracker, Permutation_app_comm. apply Hc.
Qed.

Lemma tracker_call_outs op w :
  new_reply op = None → registers op = None →
  tracker_outs (tracker_call op w).2 (quorum_tracker w) (quorum_tracker (tracker_call op w).1).
Proof.
  intros Hn Hr. unfold tracker_call.
  pose proof (tracker_outs_step (apply_op op) (quorum_tracker w)) as H.
  destruct (apply_op op (quorum_tracker w)) as [t e] eqn:He. cbn [fst snd] in *.
  apply H; [|by apply apply_op_keeps]. intros t'. pose proof (conserves_apply_op op t') as Hc.
  by rewrite Hn in Hc.
Qed.

Lemma conserves_ack now lsn q : conserves (ack now lsn q).
Proof. intros t. apply (conserves_apply_op (OAck now lsn q)). Qed.

Lemma step_background_bg l h w w' o : step_background l w = Some (w', o) → bg h w (h ++ o) w'.
Proof.
  destruct l as [| | | | | | | |now reader lsn|now|rid inst|s]; try done; simpl.
  - destruct (primary_sender w) as [s|] eqn:Hs.
    2: { intros [= <- <-]. rewrite app_nil_r. apply bg_refl. }
    unfold Sender.read_ack. case_decide; [intros [= <- <-]; rewrite app_nil_r; apply bg_refl|].
    case_decide; [intros [= <- <-]; rewrite app_nil_r; apply bg_refl|].
    pose proof (tracker_outs_step _ (quorum_tracker w) (conserves_ack now lsn (Sender.reader_rid reader))
      (apply_op_keeps (OAck now lsn (Sender.reader_rid reader)) eq_refl)) as Ho.
    cbn [apply_op] in Ho. destruct (ack now lsn _ (quorum_tracker w)) as [t e].
    intros [= <- <-]. split_and!; [done..|apply sender_le_refl|]. eauto.
  - unfold expiration_turn.
    pose proof (tracker_outs_step _ (quorum_tracker w) (conserves_expire_due now) (keeps_expire_due now)) as Ho.
    destruct (expire_due now (quorum_tracker w)) as [t e]. intros [= <- <-].
    split_and!; [done..|apply sender_le_refl|]. eauto.
  - intros [= <- <-]. rewrite app_nil_r. split_and!; [done..| |].
    + simpl. unfold over; simpl. destruct (primary_sender w) as [s|]; simpl; [|done].
      intros k c'. unfold over; simpl. rewrite lookup_alter. case_decide as Hk.
      * subst. intros (c & Hc & ->)%fmap_Some. exists c. split; [done|]. by case_decide.
      * intros Hc. exists c'. done.
    + exists []. rewrite app_nil_r. split; [done|]. apply tracker_outs_nil.
  - intros [= <- <-]. rewrite app_nil_r. split_and!; [done..|apply sender_le_refl|].
    exists []. rewrite app_nil_r. split; [done|]. apply tracker_outs_nil.
Qed.

(** A rely-guarantee logic: [ok Inv Fin excused p h w] says that from the
    history [h] and world [w] the handler [p], whatever the background does
    between its segments and whatever its calls answer, ends in [Inv] at the
    loop or in [Fin] out of it, unless something [excused] was sent. *)
Section ok.
  Context (Inv : list Out → World → Prop) (Fin : bool → list Out → World → Prop).
  Context (excused : Out → Prop).

Fixpoint ok (p : proc) (h : list Out) (w : World) : Prop :=
  match p with
  | Next => ∀ h' w', bg h w h' w' → Inv h' w'
  | Break d => ∀ h' w', bg h w h' w' → Fin d h' w'
  | Act f k => ∀ now h' w', bg h w h' w' →
      Exists excused (f now w').2 ∨ ok (k (f now w').1) (h' ++ (f now w').2) (f now w').1
  | AskLsn k => ∀ ans, ok (k ans) h w
  | AskEpoch _ _ k => ∀ ans, ok (k ans) h w
  | AskLoss k => ∀ ans, ok (k ans) h w
  | Connect _ _ _ k => ∀ ans, ok (k ans) h w
  end.

Lemma ok_bg p h w h' w' : bg h w h' w' → ok p h w → ok p h' w'.
Proof.
  intros Hb. induction p as [| |f k IH|k IH|e l k IH|k IH|i n a k IH]; simpl; intros Hok; try by auto.
  - intros h2 w2 Hb2. apply Hok. by eapply bg_trans.
  - intros h2 w2 Hb2. apply Hok. by eapply bg_trans.
  - intros now h2 w2 Hb2. apply Hok. by eapply bg_trans.
Qed.

Lemma run_ok replica_id ls c h c' o :
  (∀ ev h w, Inv h w → ok (handle_control replica_id ev w) (h ++ accepted_by ev) w) →
  (∀ data r h w, Inv h w → ok (handle_request replica_id w data r) (h ++ [OAccepted r]) w) →
  (∀ h w, Inv h w → ok (Break false) h w) →
  ok (cfg_proc c) h (cfg_world c) →
  run replica_id ls c = Some (c', o) →
  Exists excused o ∨ ok (cfg_proc c') (h ++ o) (cfg_world c').
Proof.
  intros Hctl Hreq Hclosed. revert c h o. induction ls as [|l ls IH]; intros c h o Hok; simpl.
  { intros [= <- <-]. right. by rewrite app_nil_r. }
  destruct (step_cfg replica_id l c) as [[c1 o1]|] eqn:Hstep; [|done]. simpl.
  destruct (run replica_id ls c1) as [[c2 o2]|] eqn:Hrun; [|done]. simpl. intros [= -> <-].
  assert (Exists excused o1 ∨ ok (cfg_proc c1) (h ++ o1) (cfg_world c1)) as [Hx|Hok1].
  - revert Hstep. unfold step_cfg. destruct (step_background l (cfg_world c)) as [[w o']|] eqn:Hbg.
    + intros [= <- <-]. right. cbn [cfg_proc cfg_world]. eapply ok_bg; [|done].
      by eapply step_background_bg.
    + unfold step_actor. destruct l, (cfg_proc c) eqn:Hp; try done; simpl in Hok.
      * intros [= <- <-]. right. apply Hctl, Hok, bg_refl.
      * intros [= <- <-]. right. apply Hreq, Hok, bg_refl.
      * intros [= <- <-]. right. rewrite app_nil_r. apply Hclosed, Hok, bg_refl.
      * destruct (f now (cfg_world c)) as [w1 o'] eqn:Hf. intros [= <- <-].
        specialize (Hok now h (cfg_world c) (bg_refl _ _)). rewrite Hf in Hok. exact Hok.
      * intros [= <- <-]. right. rewrite app_nil_r. apply Hok.
      * intros [= <- <-]. right. rewrite app_nil_r. apply Hok.
      * intros [= <- <-]. right. rewrite app_nil_r. apply Hok.
      * intros [= <- <-]. right. rewrite app_nil_r. apply Hok.
  - left. apply Exists_app. by left.
  - destruct (IH c1 (h ++ o1) o2 Hok1 Hrun) as [Hx|Hok2].
    + left. apply Exists_app. by right.
    + right. by rewrite app_assoc.
Qed.
End ok.

(** ** The invariant of the loop *)

Definition lsns (c : Sender.SecondaryConnection) : list Lsn := item_lsn <$> Sender.item_tx c.

(** Every live connection has been sent an unbroken run of LSNs up to [n - 1]. *)
Definition streams (n : Lsn) (so : option Sender.PrimarySender) : Prop :=
  ∀ s rid c, so = Some s → Sender.connections s !! rid = Some c → Sender.rx_alive c = true →
    ∃ a, a ≤ n ∧ lsns c = seqZ a (n - a).

(** The queue holds an unbroken run of LSNs up to [n - 1]. *)
Definition queue_run (n : Lsn) (q : gmap Lsn bytes) : Prop :=
  ∃ lo, lo ≤ n ∧ ∀ k, is_Some (q !! k) ↔ lo ≤ k < n.

Lemma streams_le n so so' : sender_le so so' → streams n so → streams n so'.
Proof.
  intros Hle Hs s' rid c' -> Hc' Ha'. destruct so as [s|]; [|done].
  destruct (Hle _ _ Hc') as (c & Hc & He & _ & Ha). unfold lsns. rewrite He. by eapply Hs; auto.
Qed.

Lemma streams_None n : streams n None.
Proof. by intros s rid c. Qed.

Lemma streams_sub n s s' :
  (∀ rid c, Sender.connections s' !! rid = Some c → Sender.connections s !! rid = Some c) →
  streams n (Some s) → streams n (Some s').
Proof. intros Hsub Hs ? rid c [= <-] Hc. exact (Hs s rid c eq_refl (Hsub _ _ Hc)). Qed.

Lemma queue_run_empty n : queue_run n ∅.
Proof. exists n. split; [lia|]. intros k. rewrite lookup_empty. split; [by intros [? ?]|lia]. Qed.

Lemma queue_run_push n data q : queue_run n q → queue_run (n + 1) (Queue.push n data q).
Proof.
  intros (lo & Hlo & Hq). exists lo. split; [lia|]. intros k. unfold Queue.push. rewrite lookup_insert.
  case_decide; [subst; split; [lia|eauto]|]. rewrite Hq. lia.
Qed.

Lemma queue_run_gc n acked q : queue_run n q → queue_run n (Queue.gc acked q).
Proof.
  intros (lo & Hlo & Hq). exists (Z.min n (Z.max lo (i64_add acked 1))). split; [lia|]. intros k.
  unfold Queue.gc. rewrite map_lookup_filter. specialize (Hq k).
  destruct (q !! k) as [d|]; simpl; [|split; [by intros [? ?]|]].
  - assert (lo ≤ k < n) as Hk by (apply Hq; eauto).
    destruct (decide (i64_add acked 1 ≤ k)); [rewrite option_guard_True by done|rewrite option_guard_False by done];
      simpl; split; intros; [lia|eauto|by destruct H|lia].
  - intros ?. assert (is_Some (None (A := bytes))) as [? ?] by (apply Hq; lia). done.
Qed.

(** What a replay sends. *)
Lemma ops_from_run n f q : queue_run n q → ∃ a, a ≤ n ∧ (Queue.ops_from f q).*1 = seqZ a (n - a).
Proof.
  intros (lo & Hlo & Hq). exists (Z.min n (Z.max lo f)). split; [lia|].
  apply sorted_interval; [apply Queue.ops_from_sorted|]. intros k. rewrite list_elem_of_fmap. split.
  - intros ([k' d] & -> & [Hk Hf]%Queue.elem_of_ops_from). simpl.
    assert (lo ≤ k' < n) by (apply Hq; eauto). lia.
  - intros Hk. assert (is_Some (q !! k)) as [d Hd] by (apply Hq; lia).
    exists (k, d). split; [done|]. apply Queue.elem_of_ops_from. split; [done|lia].
Qed.

Lemma push_item_lsns i c :
  lsns (Sender.push_item i c) = lsns c ++ (if Sender.rx_alive c then [item_lsn i] else []).
Proof.
  unfold lsns, Sender.push_item. destruct (Sender.rx_alive c); simpl; unfold over; simpl.
  - by rewrite fmap_app.
  - by rewrite app_nil_r.
Qed.

Lemma push_item_alive i c : Sender.rx_alive (Sender.push_item i c) = Sender.rx_alive c.
Proof. unfold Sender.push_item. by destruct (Sender.rx_alive c) eqn:E. Qed.

Lemma replay_other s rid pend committed k :
  k ≠ rid → Sender.connections (replay s rid pend committed) !! k = Sender.connections s !! k.
Proof.
  intros Hk. unfold replay. revert s. induction pend as [|p pend IH]; intros s; simpl; [done|].
  rewrite IH. unfold Sender.send_to_one; simpl; unfold over; simpl. by rewrite lookup_alter_ne.
Qed.

Lemma replay_lsns s rid pend committed c c' :
  Sender.connections s !! rid = Some c → Sender.rx_alive c = true →
  Sender.connections (replay s rid pend committed) !! rid = Some c' →
  lsns c' = lsns c ++ pend.*1.
Proof.
  unfold replay. revert s c. induction pend as [|p pend IH]; intros s c Hc Ha; simpl.
  { rewrite Hc. intros [= <-]. by rewrite app_nil_r. }
  intros Hc'. apply (IH _ (Sender.push_item (Sender.make_item s p.1 p.2 committed) c)) in Hc'.
  - rewrite Hc', push_item_lsns, Ha, <-app_assoc. done.
  - unfold Sender.send_to_one; simpl; unfold over; simpl. by rewrite lookup_alter_eq, Hc.
  - by rewrite push_item_alive.
Qed.

Lemma replay_is_Some s rid pend committed :
  is_Some (Sender.connections s !! rid) → is_Some (Sender.connections (replay s rid pend committed) !! rid).
Proof.
  unfold replay. revert s. induction pend as [|p pend IH]; intros s Hs; simpl; [done|]. apply IH.
  unfold Sender.send_to_one; simpl; unfold over; simpl. rewrite lookup_alter_eq. by apply fmap_is_Some.
Qed.

Lemma install_lookup rid c s k :
  Sender.connections (Sender.install_connection rid c s) !! k =
    if decide (k = rid) then Some c else Sender.connections s !! k.
Proof.
  unfold Sender.install_connection, Sender.cancel_old.
  destruct (Sender.connections s !! rid); simpl; unfold over; simpl; rewrite lookup_insert;
    repeat case_decide; congruence.
Qed.

Lemma streams_connect n m copy tok w s :
  primary_sender w = Some s → Sender.has_connection (ri_id m) (ri_instance_id m) s = false →
  queue_run n (replication_queue w) → streams n (Some s) →
  streams n (primary_sender (connect_and_replay m copy tok w)).
Proof.
  intros Hs Hh Hq Hst s' rid c' Hs' Hc' Ha'.
  unfold connect_and_replay in Hs'. simpl in Hs'. unfold over in Hs'; simpl in Hs'. rewrite Hs in Hs'.
  simpl in Hs'. unfold Sender.add_secondary in Hs'. rewrite Hh in Hs'. cbn [fst] in Hs'.
  set (s1 := Sender.install_connection _ _ s) in Hs'. injection Hs' as <-.
  destruct (decide (rid = ri_id m)) as [->|Hne].
  - destruct (ops_from_run n (i64_add (default 0 copy) 1) _ Hq) as (a & Ha & Hops).
    exists a. split; [done|]. rewrite <-Hops.
    apply (replay_lsns s1 (ri_id m) _ _ (Sender.mkSecondaryConnection (ri_instance_id m) [] true tok)) in Hc';
      [exact Hc'| |done].
    unfold s1. rewrite install_lookup. by case_decide.
  - rewrite replay_other in Hc' by done. unfold s1 in Hc'. rewrite install_lookup, decide_False in Hc' by done.
    by eapply Hst.
Qed.

Lemma streams_broadcast n data committed s :
  streams n (Some s) → streams (n + 1) (Some (Sender.send_to_all n data committed s)).
Proof.
  intros Hst s' rid c' [= <-]. rewrite Sender.send_to_all_lookup.
  destruct (Sender.connections s !! rid) as [c|] eqn:Hc; [|done]. simpl.
  destruct (Sender.rx_alive c) eqn:Ha; [|done]. intros [= <-] _.
  destruct (Hst s rid c eq_refl Hc Ha) as (a & Han & Hl). exists a. split; [lia|].
  rewrite seqZ_snoc, <-Hl by done. unfold lsns; simpl; unfold over; simpl. by rewrite fmap_app.
Qed.

Section invariant.
  (** With [strict], nothing is claimed once progress was replaced after a
      data loss. *)
  Context (strict : bool).

Definition excused (o : Out) : Prop :=
  match o with
  | OAssigned lsn => i64_add lsn 1 ≠ lsn + 1
  | OReset _ => strict = true
  | OReopened _ => True
  | _ => False
  end.

(** [held]: senders the running handler has not handed over yet; [n]: the LSN
    the streams have reached. *)
Record inv (held : list ReplyId) (n : Lsn) (h : list Out) (w : World) : Prop := {
  inv_replies : omap answered h ++ held ++ outstanding (quorum_tracker w) ≡ₚ omap accepted h;
  inv_drops : no_drops h;
  inv_pending : ∀ k, k ∈ dom (pending (quorum_tracker w)) → k < next_lsn w;
  inv_queue : queue_run (next_lsn w) (replication_queue w);
  inv_streams : strict = true → streams n (primary_sender w);
  inv_assigned : strict = true →
    StronglySorted Z.lt (omap assigned h) ∧ Forall (λ l, l < next_lsn w) (omap assigned h);
  inv_role : role w ≠ Primary →
    pending (quorum_tracker w) = ∅ ∧ replication_queue w = ∅ ∧ primary_sender w = None;
}.

Definition Inv (h : list Out) (w : World) : Prop := inv [] (next_lsn w) h w.

(** Out of the loop: every sender accounted for; none left after a drain. *)
Definition Fin (d : bool) (h : list Out) (w : World) : Prop :=
  omap answered h ++ outstanding (quorum_tracker w) ≡ₚ omap accepted h ∧ no_drops h ∧
  (strict = true → StronglySorted Z.lt (omap assigned h)) ∧
  (d = true → outstanding (quorum_tracker w) = []).

Lemma tracker_outs_plain o t t' : tracker_outs o t t' → omap accepted o = [] ∧ omap assigned o = [].
Proof.
  intros (Hf & _ & _ & _). induction Hf as [|x o (e & ->) Ho [IH1 IH2]]; [done|]. done.
Qed.

(** Sending tracker replies and changing the tracker accordingly. *)
Lemma inv_tracker held n h w o w' :
  tracker_outs o (quorum_tracker w) (quorum_tracker w') →
  role w' = role w → next_lsn w' = next_lsn w → replication_queue w' = replication_queue w →
  sender_le (primary_sender w) (primary_sender w') →
  inv held n h w → inv held n (h ++ o) w'.
Proof.
  intros Ho Hr Hn Hq Hs [I1 I2 I3 I4 I5 I6 I7].
  destruct (tracker_outs_plain _ _ _ Ho) as [Hacc Hass]. destruct Ho as (_ & Hd & Hp & Hk).
  split.
  - rewrite !omap_app, Hacc, app_nil_r, <-I1, <-Hp. solve_Permutation.
  - intros r. rewrite elem_of_app. by intros [?%I2|?%Hd].
  - intros k Hin%Hk. rewrite Hn. by apply I3.
  - by rewrite Hn, Hq.
  - intros Hst. by eapply streams_le; [|apply I5].
  - intros Hst. rewrite omap_app, Hass, app_nil_r, Hn. by apply I6.
  - rewrite Hr, Hq. intros Hne. destruct (I7 Hne) as (Hpe & ? & Hse). split_and!; [|done|].
    + apply dom_empty_inv_L. rewrite Hpe, dom_empty_L in Hk. set_solver.
    + rewrite Hse in Hs. by destruct (primary_sender w').
Qed.

Lemma inv_bg held n h w h' w' : bg h w h' w' → inv held n h w → inv held n h' w'.
Proof. intros (E1 & _ & E3 & E4 & Hs & o & -> & Ho). by apply inv_tracker. Qed.

Lemma Inv_bg h w h' w' : bg h w h' w' → Inv h w → Inv h' w'.
Proof. intros Hb HI. unfold Inv. rewrite (proj1 (proj2 (proj2 Hb))). by eapply inv_bg. Qed.

(** Sending what is neither a tracker reply nor a mark. *)
Definition plain (o : Out) : Prop := match o with OUnit _ _ | OAction _ _ | OSpawnCopy _ _ _ => True | _ => False end.

Lemma plain_facts o :
  Forall plain o → omap answered o = [] ∧ omap accepted o = [] ∧ omap assigned o = [] ∧ no_drops o.
Proof.
  induction 1 as [|x o Hx Ho (IH1 & IH2 & IH3 & IH4)]; [split_and!; try done; by intros r ?%not_elem_of_nil|].
  destruct x; try done; (split_and!; [done..|]); intros ? [?|?%IH4]%elem_of_cons; done.
Qed.

Lemma inv_plain held n h w o : Forall plain o → inv held n h w → inv held n (h ++ o) w.
Proof.
  intros (H1 & H2 & H3 & H4)%plain_facts [I1 I2 I3 I4 I5 I6 I7]. split; try done.
  - by rewrite !omap_app, H1, H2, !app_nil_r.
  - intros r. rewrite elem_of_app. by intros [?%I2|?%H4].
  - by rewrite omap_app, H3, app_nil_r.
Qed.

(** Changing only fields the invariant does not constrain. *)
Lemma inv_frame held n h w w' :
  role w' = role w → next_lsn w' = next_lsn w → replication_queue w' = replication_queue w →
  quorum_tracker w' = quorum_tracker w → sender_le (primary_sender w) (primary_sender w') →
  inv held n h w → inv held n h w'.
Proof.
  intros Hr Hn Hq Ht Hs HI. rewrite <-(app_nil_r h). eapply inv_tracker; try done.
  rewrite Ht. apply tracker_outs_nil.
Qed.

(** ** Every handler keeps the invariant *)

#[local] Arguments drain : simpl never.
#[local] Arguments tracker_call : simpl never.
#[local] Arguments role_changed : simpl never.

Abbreviation OK := (ok Inv Fin excused).

Lemma ok_next h w : Inv h w → OK Next h w.
Proof. intros HI h' w' Hb. by eapply Inv_bg. Qed.

(** A segment that ends the handler. *)
Lemma ok_last f h w :
  Inv h w →
  (∀ now h' w', Inv h' w' → bg h w h' w' →
     Exists excused (f now w').2 ∨ Inv (h' ++ (f now w').2) (f now w').1) →
  OK (Act f (λ _, Next)) h w.
Proof.
  intros HI Hf now h' w' Hb. destruct (Hf now h' w' (Inv_bg _ _ _ _ Hb HI) Hb) as [?|?]; [by left|right].
  by apply ok_next.
Qed.

Lemma ok_send o h w : Forall plain o → Inv h w → OK (send o) h w.
Proof. intros Ho HI. apply ok_last; [done|]. intros now h' w' HI' _. right. by apply inv_plain. Qed.

Lemma tracker_call_frame op w :
  let w' := (tracker_call op w).1 in
  role w' = role w ∧ w_epoch w' = w_epoch w ∧ next_lsn w' = next_lsn w ∧
  replication_queue w' = replication_queue w ∧ primary_sender w' = primary_sender w ∧
  state w' = state w ∧ quorum_tracker w' = (apply_op op (quorum_tracker w)).1 ∧
  (tracker_call op w).2 = OTracker <$> (apply_op op (quorum_tracker w)).2.
Proof. unfold tracker_call. by destruct (apply_op op (quorum_tracker w)) as [t e]. Qed.

Lemma inv_tracker_call op held n h w :
  new_reply op = None → registers op = None → inv held n h w →
  inv held n (h ++ (tracker_call op w).2) (tracker_call op w).1.
Proof.
  intros Hn Hr HI. destruct (tracker_call_frame op w) as (E1 & E2 & E3 & E4 & E5 & E6 & E7 & E8).
  apply (inv_tracker held n h w); try done; [by apply tracker_call_outs|].
  rewrite E5. apply sender_le_refl.
Qed.

(** After [drain]: the tracker, the queue and the sender are empty. *)
Lemma drain_spec e w :
  let '(w', o) := drain e w in
  role w' = role w ∧ next_lsn w' = next_lsn w ∧ replication_queue w' = ∅ ∧ primary_sender w' = None ∧
  pending (quorum_tracker w') = ∅ ∧ outstanding (quorum_tracker w') = [] ∧
  tracker_outs o (quorum_tracker w) (quorum_tracker w').
Proof.
  unfold drain. pose proof (tracker_call_outs (OFailAll e) w eq_refl eq_refl) as Ho.
  destruct (tracker_call_frame (OFailAll e) w) as (E1 & E2 & E3 & E4 & E5 & E6 & E7 & E8).
  destruct (tracker_call (OFailAll e) w) as [w1 o]. cbn [fst snd] in *.
  split_and!; [exact E1|exact E3|done|done|..]; cbn; unfold take_sender, over; cbn; rewrite E7 in *; done.
Qed.

Lemma inv_drain e held h w :
  inv held (next_lsn w) h w →
  inv held (next_lsn (drain e w).1) (h ++ (drain e w).2) (drain e w).1.
Proof.
  intros [I1 I2 I3 I4 I5 I6 I7]. pose proof (drain_spec e w) as H. destruct (drain e w) as [w' o].
  destruct H as (E1 & E2 & E3 & E4 & E5 & E6 & Ho). cbn [fst snd].
  destruct (tracker_outs_plain _ _ _ Ho) as [Hacc Hass]. destruct Ho as (_ & Hd & Hp & _).
  split.
  - rewrite !omap_app, Hacc, app_nil_r, <-I1, <-Hp. solve_Permutation.
  - intros r. rewrite elem_of_app. by intros [?%I2|?%Hd].
  - rewrite E5. set_solver.
  - rewrite E3. apply queue_run_empty.
  - rewrite E4. intros _. apply streams_None.
  - intros Hst. rewrite omap_app, Hass, app_nil_r, E2. by apply I6.
  - done.
Qed.

Lemma ok_open mode r h w : Inv h w → OK (handle_open mode r) h w.
Proof.
  intros HI. destruct mode; simpl.
  - intros now h' w' Hb. right. apply ok_next. apply inv_plain; [by repeat constructor|].
    apply (inv_frame [] _ _ w'); [done..|apply sender_le_refl|]. exact (Inv_bg _ _ _ _ Hb HI).
  - intros ans. destruct (provider_answer _ ans) as [lsn|e]; [|by apply ok_send; [repeat constructor|]].
    apply ok_last; [done|]. intros now h' w' HI' _. cbn [fst snd].
    case_decide as Hp; [left; by repeat constructor|]. right. simpl.
    apply inv_plain; [by repeat constructor|]. destruct HI' as [I1 I2 I3 I4 I5 I6 I7].
    destruct (I7 Hp) as (P1 & P2 & P3). split; simpl; unfold over; simpl; try done.
    + intros k Hk%I3. lia.
    + rewrite P2. apply queue_run_empty.
    + rewrite P3. intros _. apply streams_None.
    + intros Hst. destruct (I6 Hst) as [? Hf]. split; [done|]. eapply Forall_impl; [exact Hf|]. simpl. lia.
Qed.

Lemma fin_drained e h w o :
  Inv h w → Forall plain o → Fin true (h ++ (drain e w).2 ++ o) (drain e w).1.
Proof.
  intros HI Ho. pose proof (inv_drain e [] h w HI) as HI'. pose proof (drain_spec e w) as H.
  destruct (drain e w) as [w' o']. destruct H as (_ & _ & _ & _ & _ & E6 & _). cbn [fst snd] in *.
  rewrite app_assoc. apply (inv_plain _ _ _ _ _ Ho) in HI'. destruct HI' as [I1 I2 _ _ _ I6 _].
  split_and!; [exact I1|exact I2|intros Hst; by apply I6|done].
Qed.

Lemma Fin_bg d h w h' w' : bg h w h' w' → Fin d h w → Fin d h' w'.
Proof.
  intros (_ & _ & _ & _ & _ & o & -> & Ho) (F1 & F2 & F3 & F4).
  destruct (tracker_outs_plain _ _ _ Ho) as [Hacc Hass]. destruct Ho as (_ & Hd & Hp & _). split_and!.
  - rewrite !omap_app, Hacc, app_nil_r, <-F1, <-Hp. solve_Permutation.
  - intros r. rewrite elem_of_app. by intros [?%F2|?%Hd].
  - intros Hst. rewrite omap_app, Hass, app_nil_r. by apply F3.
  - intros Hdr. specialize (F4 Hdr). rewrite F4 in Hp. symmetry in Hp.
    apply Permutation_nil_l, eq_sym, app_eq_nil in Hp as [_ ->]. done.
Qed.

Lemma Inv_Fin h w : Inv h w → Fin false h w.
Proof. intros [I1 I2 _ _ _ I6 _]. split_and!; [exact I1|exact I2|intros Hst; by apply I6|done]. Qed.

Lemma ok_close r h w : Inv h w → OK (handle_close r) h w.
Proof.
  intros HI now h' w' Hb. right. intros h2 w2 Hb2. eapply Fin_bg; [exact Hb2|].
  pose proof (fin_drained Closed h' w' [OUnit r (Ok tt)] (Inv_bg _ _ _ _ Hb HI)) as HF.
  destruct (drain Closed w') as [w3 o3]. apply HF. by repeat constructor.
Qed.

Lemma ok_abort h w : Inv h w → OK handle_abort h w.
Proof.
  intros HI now h' w' Hb. right. intros h2 w2 Hb2. eapply Fin_bg; [exact Hb2|].
  pose proof (fin_drained Closed h' w' [] (Inv_bg _ _ _ _ Hb HI)) as HF.
  rewrite app_nil_r in HF. by apply HF.
Qed.

(** Publishing connections and answering. *)
Lemma inv_role_changed r held n h w :
  inv held n h w → inv held n (h ++ (role_changed r w).2) (role_changed r w).1.
Proof.
  intros HI. unfold role_changed; cbn [fst snd]. apply inv_plain; [by repeat constructor|].
  apply (inv_frame _ _ _ w); [done..|apply sender_le_refl|done].
Qed.

Lemma Inv_role_changed r h w : Inv h w → Inv (h ++ (role_changed r w).2) (role_changed r w).1.
Proof. apply inv_role_changed. Qed.

Lemma streams_new n e rid : streams n (Some (Sender.new rid e)).
Proof. intros s k c [= <-]. simpl. by rewrite lookup_empty. Qed.

Lemma ok_demote replica_id e new_role r h w :
  new_role ≠ Primary → Inv h w → OK (handle_change_role replica_id w e new_role r) h w.
Proof.
  intros Hne HI. unfold handle_change_role. rewrite decide_False by done.
  apply ok_last; [done|]. intros now h' w' HI' Hb. right.
  destruct (bool_decide (role w = Primary)) eqn:Hwas.
  - pose proof (inv_drain NotPrimary [] h' w' HI') as Hd. pose proof (drain_spec NotPrimary w') as Hs.
    destruct (drain NotPrimary w') as [w1 o]. destruct Hs as (_ & E2 & E3 & E4 & E5 & _).
    cbn [fst snd] in *.
    set (w2 := w1 <| w_epoch := e |> <| role := new_role |>).
    assert (Inv (h' ++ o) w2) as HI2.
    { destruct Hd as [I1 I2 I3 I4 I5 I6 I7]. by split. }
    pose proof (Inv_role_changed r _ _ HI2) as H. destruct (role_changed r w2) as [w3 o'].
    cbn [fst snd] in *. rewrite <-app_assoc in H. exact H.
  - apply bool_decide_eq_false in Hwas.
    set (w2 := w' <| w_epoch := e |> <| role := new_role |>).
    assert (Inv h' w2) as HI2.
    { destruct HI' as [I1 I2 I3 I4 I5 I6 I7]. split; try done. intros _. apply I7.
      destruct Hb as [-> _]. done. }
    exact (Inv_role_changed r _ _ HI2).
Qed.

Lemma ok_promote replica_id e r h w : Inv h w → OK (handle_change_role replica_id w e Primary r) h w.
Proof.
  intros HI. unfold handle_change_role. rewrite decide_True by done.
  destruct (bool_decide (role w = Primary)) eqn:Hwas.
  - apply ok_last; [done|]. intros now h' w' HI' Hb. right.
    apply bool_decide_eq_true in Hwas. destruct Hb as [Hrole _].
    set (w2 := w' <| w_epoch := e |> <| role := Primary |> <| primary_sender ::= fmap (Sender.set_epoch e) |>).
    assert (Inv h' w2) as HI2.
    { destruct HI' as [I1 I2 I3 I4 I5 I6 I7]. split; try done.
      intros Hst s rid c Hs Hc. subst w2. simpl in Hs; unfold over in Hs; simpl in Hs.
      destruct (primary_sender w') as [s0|] eqn:Hs0; [|done]. injection Hs as <-.
      by apply (I5 Hst s0 rid c). }
    exact (Inv_role_changed r _ _ HI2).
  - apply bool_decide_eq_false in Hwas. destruct (inv_role _ _ _ _ HI Hwas) as (P1 & P2 & P3).
    intros now h' w' Hb. right.
    pose proof (Inv_bg _ _ _ _ Hb HI) as [I1 I2 I3 I4 I5 I6 I7].
    assert (role w' ≠ Primary) as Hwas' by (destruct Hb as [-> _]; done).
    destruct (I7 Hwas') as (Q1 & Q2 & Q3).
    set (w1 := w' <| w_epoch := e |> <| role := Primary |>).
    assert (Inv (h' ++ []) w1) as HI1 by (rewrite app_nil_r; by split).
    intros now2 h2 w2 Hb2. right. pose proof (Inv_bg _ _ _ _ Hb2 HI1) as HI2.
    set (cp := PState.current_progress _). set (cl := PState.ps_committed_lsn _).
    assert (replication_queue w2 = ∅) as Hq.
    { destruct Hb2 as (_ & _ & _ & -> & _). exact Q2. }
    pose proof (inv_tracker_call (OSeedProgress cp cl) [] _ _ _ eq_refl eq_refl HI2) as HI3.
    destruct (tracker_call_frame (OSeedProgress cp cl) w2) as (E1 & E2 & E3 & E4 & E5 & _).
    destruct (tracker_call (OSeedProgress cp cl) w2) as [w3 o3]. cbn [fst snd] in *.
    set (w4 := w3 <| next_lsn ::= λ n, Z.max n (i64_add cp 1) |>
                  <| primary_sender := Some (Sender.new replica_id e) |>).
    assert (Inv (h2 ++ o3) w4) as HI4.
    { destruct HI3 as [J1 J2 J3 J4 J5 J6 J7]. subst w4. split; simpl; unfold over; simpl; try done.
      - intros k Hk%J3. lia.
      - rewrite E4, Hq. apply queue_run_empty.
      - intros _. apply streams_new.
      - intros Hst. destruct (J6 Hst) as [? Hf]. split; [done|]. eapply Forall_impl; [exact Hf|]. simpl. lia.
      - rewrite E1. destruct Hb2 as [-> _]. by intros []. }
    pose proof (Inv_role_changed r _ _ HI4) as H. destruct (role_changed r w4) as [w5 o5].
    cbn [fst snd] in *. rewrite <-app_assoc in H. by apply ok_next.
Qed.

Lemma ok_update_epoch e r h w : Inv h w → OK (handle_update_epoch e r) h w.
Proof.
  intros HI now h' w' Hb. right. intros ans. apply ok_send; [by repeat constructor|]. cbn [fst snd].
  rewrite app_nil_r. destruct (Inv_bg _ _ _ _ Hb HI). by split.
Qed.

Lemma ok_connect_members replica_id key members r h w :
  Inv h w → OK (connect_members replica_id key members r) h w.
Proof.
  revert h w. induction members as [|m ms IH]; intros h w HI.
  - apply ok_last; [done|]. intros now h' w' HI' _. right. by apply inv_role_changed.
  - intros now h' w' Hb. right. cbn [fst snd]. rewrite app_nil_r.
    pose proof (Inv_bg _ _ _ _ Hb HI) as HI'. destruct (needs_connection replica_id m w') eqn:Hn; cbn [negb].
    2: by apply IH.
    set (copy := PState.copy_lsn _ _ _ _).
    destruct (ri_must_catch_up m && negb (bool_decide (is_Some copy))).
    { by apply ok_send; [repeat constructor|]. }
    intros [tok|e].
    2: { destruct (ri_must_catch_up m); [|by apply IH]. by apply ok_send; [repeat constructor|]. }
    intros now2 h2 w2 Hb2. right. cbn [fst snd]. rewrite app_nil_r. apply IH.
    pose proof (Inv_bg _ _ _ _ Hb2 HI') as [I1 I2 I3 I4 I5 I6 I7].
    unfold needs_connection in Hn. destruct (primary_sender w') as [s|] eqn:Hs; [|done].
    apply andb_prop in Hn as [_ Hn]. apply negb_true_iff in Hn.
    destruct Hb2 as (_ & _ & _ & _ & Hle & _). rewrite Hs in Hle.
    destruct (primary_sender w2) as [s2|] eqn:Hs2; [|done].
    assert (Sender.has_connection (ri_id m) (ri_instance_id m) s2 = false) as Hn2.
    { unfold Sender.has_connection in *. destruct (Sender.connections s2 !! ri_id m) as [c2|] eqn:Hc2; [|done].
      destruct (Hle _ _ Hc2) as (c & Hc & _ & -> & _). by rewrite Hc in Hn. }
    split; try done.
    + intros Hst. apply (streams_connect _ m copy tok w2 s2); [done..|by apply I5].
    + intros Hne. destruct (I7 Hne) as (_ & _ & ?). congruence.
Qed.

Lemma inv_publish_committed held n h w : inv held n h w → inv held n h (publish_committed w).
Proof. apply inv_frame; [done..|apply sender_le_refl]. Qed.

(** A tracker call followed by the rest of the handler. *)
Lemma ok_tracker_then (op : Instant → TrackerOp) k h w :
  (∀ now, new_reply (op now) = None ∧ registers (op now) = None) → Inv h w →
  (∀ h' w', Inv h' w' → OK (k w') h' w') →
  OK (Act (λ now w, tracker_call (op now) w) k) h w.
Proof.
  intros Hop HI Hk now h' w' Hb. right. apply Hk. unfold Inv.
  destruct (tracker_call_frame (op now) w') as (_ & _ & -> & _).
  destruct (Hop now). apply inv_tracker_call; [done..|]. by eapply Inv_bg.
Qed.

Lemma ok_update_catch_up replica_id current previous key r h w :
  Inv h w → OK (handle_update_catch_up replica_id current previous key r) h w.
Proof.
  intros HI. apply ok_tracker_then; [done|done|]. intros h1 w1 HI1 now h2 w2 Hb2. right.
  cbn [fst snd]. rewrite app_nil_r. apply ok_connect_members. exact (inv_publish_committed _ _ _ _ (Inv_bg _ _ _ _ Hb2 HI1)).
Qed.

Lemma ok_update_current replica_id current r h w :
  Inv h w → OK (handle_update_current replica_id current r) h w.
Proof.
  intros HI. apply ok_tracker_then; [done|done|]. intros h1 w1 HI1.
  apply ok_last; [done|]. intros now h2 w2 HI2 _. right. cbn [fst snd].
  apply inv_plain; [by repeat constructor|].
  apply (inv_publish_committed [] _ _ _) in HI2. destruct HI2 as [I1 I2 I3 I4 I5 I6 I7].
  split; try done.
  - by apply queue_run_gc.
  - intros Hne. destruct (I7 Hne) as (? & Hq & ?). split_and!; [done| |done].
    simpl; unfold over; simpl. simpl in Hq. rewrite Hq. apply map_filter_empty.
Qed.

Lemma ok_cancel_wait id r h w : Inv h w → OK (handle_cancel_wait id r) h w.
Proof.
  intros HI. apply ok_last; [done|]. intros now h' w' HI' _. right.
  pose proof (inv_tracker_call (OCancelWait id) [] _ _ _ eq_refl eq_refl HI') as H.
  destruct (tracker_call_frame (OCancelWait id) w') as (_ & _ & E3 & _).
  destruct (tracker_call (OCancelWait id) w') as [w1 o1]. cbn [fst snd] in *. unfold Inv. rewrite E3, app_assoc.
  apply inv_plain; [by repeat constructor|done].
Qed.

Lemma ok_remove rid inst r h w : Inv h w → OK (handle_remove rid inst r) h w.
Proof.
  intros HI. apply ok_last; [done|]. intros now h' w' HI' _. right.
  set (w1 := w' <| primary_sender ::= _ |>).
  assert (Inv h' w1) as HI1.
  { apply (inv_frame [] _ _ w'); [done..| |exact HI']. subst w1; simpl; unfold over; simpl.
    destruct (primary_sender w') as [s|]; simpl; [|done]. intros k c' Hc'. exists c'. split; [|done].
    revert Hc'. unfold Sender.remove_secondary. case_decide; [|done]. cbn [fst].
    unfold Sender.remove_secondary_by_id, Sender.cancel_old.
    destruct (Sender.connections s !! rid); simpl; unfold over; simpl; rewrite lookup_delete_Some; tauto. }
  exact (Inv_role_changed r _ _ HI1).
Qed.

(** A sender is handed to the tracker. *)
Lemma inv_accept r h w : Inv h w → inv [r] (next_lsn w) (h ++ [OAccepted r]) w.
Proof.
  intros [I1 I2 I3 I4 I5 I6 I7]. split; try done.
  - rewrite !omap_app; simpl. rewrite app_nil_r, <-I1. simpl. solve_Permutation.
  - intros x. rewrite elem_of_app. by intros [?%I2|?%list_elem_of_singleton].
  - rewrite omap_app; simpl. by rewrite app_nil_r.
Qed.

Lemma unmarked (e : list Reply) : omap accepted (OTracker <$> e) = [] ∧ omap assigned (OTracker <$> e) = [].
Proof. induction e as [|x e [IH1 IH2]]; [done|]. split; [exact IH1|exact IH2]. Qed.

Lemma inv_hand_over op r n h w :
  new_reply op = Some r →
  (∀ k, k ∈ dom (pending (apply_op op (quorum_tracker w)).1) → k < next_lsn w) →
  (∀ x, ReplyDropped x ∉ (apply_op op (quorum_tracker w)).2) →
  (role w ≠ Primary → pending (apply_op op (quorum_tracker w)).1 = ∅) →
  inv [r] n h w → inv [] n (h ++ (tracker_call op w).2) (tracker_call op w).1.
Proof.
  intros Hr Hk Hd Hp [I1 I2 I3 I4 I5 I6 I7].
  destruct (tracker_call_frame op w) as (E1 & _ & E3 & E4 & E5 & _ & E7 & E8).
  pose proof (conserves_apply_op op (quorum_tracker w)) as Hc. rewrite Hr in Hc. simpl in Hc.
  destruct (unmarked (apply_op op (quorum_tracker w)).2) as [Hacc Hass].
  destruct (tracker_call op w) as [w' o]. cbn [fst snd] in *. subst o. split.
  - rewrite !omap_app, Hacc, app_nil_r, answered_tracker, E7, <-I1. simpl. rewrite <-Hc. solve_Permutation.
  - intros x. rewrite elem_of_app. intros [?%I2|(e & [= <-] & ?)%list_elem_of_fmap]; [done|by eapply Hd].
  - rewrite E7, E3. exact Hk.
  - by rewrite E3, E4.
  - by rewrite E5.
  - by rewrite omap_app, Hass, app_nil_r, E3.
  - rewrite E1, E4, E5, E7. intros Hne. destruct (I7 Hne) as (_ & ? & ?). auto.
Qed.

Lemma ok_wait id mode r h w : Inv h w → OK (handle_wait id mode r) (h ++ [OAccepted r]) w.
Proof.
  intros HI now h' w' Hb. right. apply ok_next. unfold Inv.
  destruct (tracker_call_frame (OWait now id mode r) w') as (_ & _ & -> & _).
  assert (inv [r] (next_lsn w') h' w') as HI'.
  { rewrite (proj1 (proj2 (proj2 Hb))). eapply inv_bg; [exact Hb|by apply inv_accept]. }
  destruct (apply_op_keeps (OWait now id mode r) eq_refl (quorum_tracker w')) as [Hk Hd].
  apply (inv_hand_over _ r); [done| |done| |done].
  - intros k Hin%Hk. by apply (inv_pending _ _ _ _ HI').
  - intros Hne. destruct (inv_role _ _ _ _ HI' Hne) as (Hp & _). apply dom_empty_inv_L.
    rewrite Hp in Hk. set_solver.
Qed.

Lemma ok_on_data_loss expected r h w : Inv h w → OK (handle_on_data_loss w expected r) h w.
Proof.
  intros HI.
  assert (∀ x, Forall plain [OAction r x]) as Hpl by (intros; repeat constructor).
  unfold handle_on_data_loss. set (cont := AskLoss _).
  assert (OK cont h w) as Hc; [|destruct expected; [case_decide; [done|by apply ok_send]|done]].
  intros ans. destruct (provider_answer _ ans) as [[]|e]; [|by apply ok_send..].
  intros ans2. destruct (provider_answer _ ans2) as [lsn|e]; [|by apply ok_send].
  intros now h1 w1 Hb1. right. cbn [fst snd]. rewrite app_nil_r. set (w2 := w1 <| state ::= _ |>).
  assert (Inv h1 w2) as HI2.
  { apply (inv_frame [] _ _ w1); [done..|apply sender_le_refl|exact (Inv_bg _ _ _ _ Hb1 HI)]. }
  intros now2 h3 w3 Hb3. pose proof (Inv_bg _ _ _ _ Hb3 HI2) as HI3.
  destruct (Bool.bool_dec strict true) as [Hst|Hst].
  { left. destruct (tracker_call _ w3) as [w4 o4]. apply Exists_app. right. by constructor. }
  right. apply ok_next.
  pose proof (inv_tracker_call (OResetAfterDataLoss lsn lsn) [] _ _ _ eq_refl eq_refl HI3) as HI4.
  destruct (tracker_call_frame (OResetAfterDataLoss lsn lsn) w3) as (E1 & _ & _ & E4 & E5 & _ & E7 & _).
  destruct (tracker_call (OResetAfterDataLoss lsn lsn) w3) as [w4 o4]. cbn [fst snd] in *.
  change [OReset lsn; OAction r (Ok StateChanged)] with ([OReset lsn] ++ [OAction r (Ok StateChanged)]).
  rewrite 2!app_assoc. apply inv_plain; [apply Hpl|].
  destruct HI4 as [I1 I2 I3 I4 I5 I6 I7]. split; simpl; unfold over; simpl; try done.
  - rewrite !omap_app. simpl. rewrite !app_nil_r. by rewrite !omap_app in I1.
  - intros x. rewrite elem_of_app. by intros [?%I2|?%list_elem_of_singleton].
  - rewrite E7. simpl. unfold over; simpl. set_solver.
  - apply queue_run_empty.
  - intros Hne. destruct (I7 Hne) as (? & ? & ?). done.
Qed.

Lemma ok_control replica_id ev h w :
  Inv h w → OK (handle_control replica_id ev w) (h ++ accepted_by ev) w.
Proof.
  intros HI. destruct ev; simpl; rewrite ?app_nil_r.
  - by apply ok_open.
  - by apply ok_close.
  - by apply ok_abort.
  - destruct (decide (role0 = Primary)) as [->|]; [by apply ok_promote|by apply ok_demote].
  - by apply ok_update_epoch.
  - by apply ok_on_data_loss.
  - by apply ok_update_catch_up.
  - by apply ok_update_current.
  - by apply ok_wait.
  - by apply ok_cancel_wait.
  - apply ok_send; [by repeat constructor|done].
  - by apply ok_remove.
Qed.

(** The data arm. *)
Lemma ok_not_primary r h w :
  Inv h w → OK (send [OTracker (OpReply r (Err NotPrimary))]) (h ++ [OAccepted r]) w.
Proof.
  intros HI now h' w' Hb. right. apply ok_next. cbn [fst snd].
  assert (inv [r] (next_lsn w') h' w') as [I1 I2 I3 I4 I5 I6 I7].
  { rewrite (proj1 (proj2 (proj2 Hb))). eapply inv_bg; [exact Hb|by apply inv_accept]. }
  split; try done.
  - rewrite !omap_app. simpl. rewrite app_nil_r, <-I1. solve_Permutation.
  - intros x. rewrite elem_of_app. by intros [?%I2|[= ]%list_elem_of_singleton].
  - rewrite omap_app. simpl. by rewrite app_nil_r.
Qed.

Lemma StronglySorted_snoc (l : list Z) x :
  StronglySorted Z.lt l → Forall (λ y, y < x) l → StronglySorted Z.lt (l ++ [x]).
Proof.
  intros Hl. induction Hl as [|y l Hl IH Hy]; intros Hx; simpl; [repeat constructor|].
  apply Forall_cons in Hx as [? ?]. constructor; [by apply IH|]. apply Forall_app. split; [done|]. by constructor.
Qed.

Lemma ok_request replica_id data r h w :
  Inv h w → OK (handle_request replica_id w data r) (h ++ [OAccepted r]) w.
Proof.
  intros HI. unfold handle_request. case_decide as Hrole; [by apply ok_not_primary|].
  set (lsn := next_lsn w).
  intros now h1 w1 Hb1. cbn [fst snd].
  assert (next_lsn w1 = lsn ∧ role w1 = Primary) as [Hn1 Hr1] by (destruct Hb1 as (-> & _ & -> & _); done).
  destruct (decide (i64_add lsn 1 = lsn + 1)) as [Hov|Hov]; [right|left; by constructor].
  assert (inv [r] lsn h1 w1) as [I1 I2 I3 I4 I5 I6 I7] by (eapply inv_bg; [exact Hb1|by apply inv_accept]).
  set (w2 := w1 <| next_lsn := _ |> <| replication_queue ::= _ |>).
  assert (inv [r] lsn (h1 ++ [OAssigned lsn]) w2) as HI2.
  { subst w2. split; simpl; unfold over; simpl; rewrite ?Hov; try done.
    - rewrite !omap_app. simpl. by rewrite !app_nil_r.
    - intros x. rewrite elem_of_app. by intros [?%I2|?%list_elem_of_singleton].
    - intros k Hk%I3. lia.
    - rewrite <-Hn1. apply queue_run_push. done.
    - intros Hst. rewrite omap_app. simpl. destruct (I6 Hst) as [Hs Hf]. rewrite Hn1 in Hf.
      split; [by apply StronglySorted_snoc|]. apply Forall_app. split; [|constructor; [lia|done]].
      eapply Forall_impl; [exact Hf|]. simpl. lia. }
  assert (∀ k, k ∈ dom (pending (quorum_tracker w2)) → k < lsn) as Hfresh.
  { rewrite <-Hn1. exact I3. }
  assert (next_lsn w2 = lsn + 1 ∧ role w2 = Primary) as [Hn2 Hr2] by (split; [exact Hov|exact Hr1]).
  clearbody w2. clear I1 I2 I3 I4 I5 I6 I7.
  intros now3 h3 w3 Hb3. right. pose proof (inv_bg _ _ _ _ _ _ Hb3 HI2) as HI3.
  assert (next_lsn w3 = lsn + 1 ∧ role w3 = Primary) as [Hn3 Hr3]
    by (destruct Hb3 as (-> & _ & -> & _); done).
  assert (dom (pending (quorum_tracker w3)) ⊆ dom (pending (quorum_tracker w2))) as Hdom
    by (destruct Hb3 as (_ & _ & _ & _ & _ & o & _ & (_ & _ & _ & ?)); done).
  set (op := ORegister now3 lsn replica_id r).
  destruct (register_keys now3 lsn replica_id r (quorum_tracker w3)) as [Hkeys Hdrop].
  assert (inv [] lsn (h3 ++ (tracker_call op w3).2) (tracker_call op w3).1) as HI4.
  { apply (inv_hand_over op r); [done| | |by rewrite Hr3|done].
    - intros k Hk%Hkeys. rewrite Hn3. apply elem_of_union in Hk as [->%elem_of_singleton|Hk]; [lia|].
      apply Hdom, Hfresh in Hk. lia.
    - apply Hdrop. apply not_elem_of_dom. intros Hin%Hdom%Hfresh. lia. }
  destruct (tracker_call_frame op w3) as (F1 & _ & F3 & _). rewrite Hn3 in F3. rewrite Hr3 in F1.
  destruct (tracker_call op w3) as [w4 o4]. cbn [fst snd] in *.
  intros now5 h5 w5 Hb5. right. pose proof (inv_bg _ _ _ _ _ _ Hb5 HI4) as HI5.
  assert (next_lsn w5 = lsn + 1 ∧ role w5 = Primary) as [Hn5 Hr5]
    by (destruct Hb5 as (-> & _ & -> & _); done).
  cbn [fst snd]. rewrite app_nil_r. apply ok_next. set (w6 := w5 <| state ::= _ |>).
  destruct HI5 as [I1 I2 I3 I4 I5 I6 I7]. change (primary_sender w6) with (primary_sender w5).
  destruct (primary_sender w5) as [s|] eqn:Hs; split; try done.
  - intros Hst. pose proof (streams_broadcast lsn data (committed_lsn (quorum_tracker w5)) s (I5 Hst)) as H.
    rewrite <-Hn5 in H. exact H.
  - intros _. change (primary_sender w6) with (primary_sender w5). rewrite Hs. apply streams_None.
Qed.

Lemma ok_closed h w : Inv h w → OK (Break false) h w.
Proof. intros HI h' w' Hb. eapply Fin_bg; [exact Hb|]. by apply Inv_Fin. Qed.

Lemma Inv_initial timeout : Inv [] (cfg_world (initial timeout)).
Proof.
  split; simpl; try done; try (by intros ?%not_elem_of_nil).
  - intros r ?%not_elem_of_nil. done.
  - apply queue_run_empty.
  - intros _. split; constructor.
Qed.

Lemma run_initial replica_id timeout ls c o :
  run replica_id ls (initial timeout) = Some (c, o) → ¬ Exists excused o →
  OK (cfg_proc c) o (cfg_world c).
Proof.
  intros Hrun Hx.
  destruct (run_ok Inv Fin excused replica_id ls (initial timeout) [] c o) as [?|Hok]; try done.
  - intros. by apply ok_control.
  - intros. by apply ok_request.
  - intros. by apply ok_closed.
  - apply ok_next, Inv_initial.
Qed.
End invariant.

(** ** What every run of the actor guarantees *)

(** Nothing wrapped around and no [Open] reached a primary; with [strict], no
    data loss replaced the progress either. *)
Definition regular (strict : bool) (o : Out) : Prop :=
  match o with
  | OAssigned lsn => i64_add lsn 1 = lsn + 1
  | OReset _ => strict = false
  | OReopened _ => False
  | _ => True
  end.

#[export] Instance regular_dec strict o : Decision (regular strict o).
Proof. destruct o; simpl; apply _. Defined.

Lemma regular_not_excused strict o : Forall (regular strict) o → ¬ Exists (excused strict) o.
Proof.
  intros Hf Hx. apply Exists_exists in Hx as (x & Hin & Hx). rewrite Forall_forall in Hf.
  specialize (Hf _ Hin). destruct x; simpl in *; try done. congruence.
Qed.

Definition at_rest (c : Cfg) : Prop := match cfg_proc c with Next | Break _ => True | _ => False end.

Lemma run_facts strict replica_id timeout ls c o :
  run replica_id ls (initial timeout) = Some (c, o) → Forall (regular strict) o →
  match cfg_proc c with
  | Next => Inv strict o (cfg_world c)
  | Break d => Fin strict d o (cfg_world c)
  | _ => True
  end.
Proof.
  intros Hrun Hreg%regular_not_excused. pose proof (run_initial strict replica_id timeout ls c o Hrun Hreg) as Hok.
  destruct (cfg_proc c); try done; apply Hok, bg_refl.
Qed.

(** C2. No caller is left without an answer: in any run in which no [Open]
    reaches a replica that is already primary (it would replace the tracker
    with its pending writes) and no LSN wraps around, whatever the background
    tasks do between the steps of a handler, whenever the actor is back at its
    loop or has left it, the requests and waits it accepted are exactly those
    answered (each once) and those its tracker still holds; a reply channel is
    never silently dropped; and after [Close] or [Abort] nothing is left
    unanswered. *)
Theorem actor_replies_conserved replica_id timeout ls c o :
  run replica_id ls (initial timeout) = Some (c, o) → Forall (regular false) o →
  at_rest c →
  omap answered o ++ outstanding (quorum_tracker (cfg_world c)) ≡ₚ omap accepted o ∧
  no_drops o ∧
  (cfg_proc c = Break true → omap answered o ≡ₚ omap accepted o).
Proof.
  intros Hrun Hreg Hrest. pose proof (run_facts false _ _ _ _ _ Hrun Hreg) as H.
  unfold at_rest in Hrest. destruct (cfg_proc c) eqn:Hp; try done.
  - destruct H as [I1 I2 _ _ _ _ _]. done.
  - destruct H as (F1 & F2 & _ & F4). split_and!; [done..|]. intros [= ->].
    rewrite (F4 eq_refl), app_nil_r in F1. done.
Qed.

(** A run that promotes, writes under a quorum of two, is acknowledged by the
    secondary, and closes with a write still pending. *)
Definition member (id : ReplicaId) (must : bool) : ReplicaInfo :=
  mkReplicaInfo id "inst" ActiveSecondary Up "addr" 0 0 must.

Definition demo_run : list Label :=
  [ LControl (EvChangeRole (mkEpoch 0 1) Primary 101); LRun 0; LRun 0;
    LControl (EvUpdateCatchUpConfiguration (mkReplicaSetConfig [member 2 false; member 3 false] 2)
      (mkReplicaSetConfig [] 0) None 102);
    LRun 0; LRun 0; LRun 0; LConnect (Ok 1%positive); LRun 0; LRun 0; LConnect (Ok 2%positive); LRun 0; LRun 0;
    LRequest [] 7; LRun 1; LRun 1; LRun 1;
    BAck 2 (Sender.mkAckReader 2 "inst" 1) 1;
    LRequest [] 8; LRun 3; LRun 3; LRun 3 ].

Lemma actor_replies_conserved_witness :
  ∃ c o, run 1 (demo_run ++ [LControl (EvClose 103); LRun 4]) (initial 9) = Some (c, o) ∧
    omap answered o = [7; 8]%positive ∧ omap answered o ≡ₚ omap accepted o.
Proof.
  destruct (run 1 (demo_run ++ [LControl (EvClose 103); LRun 4]) (initial 9)) as [[c o]|] eqn:Hrun;
    [|exfalso; vm_compute in Hrun; discriminate Hrun].
  exists c, o. split; [reflexivity|].
  destruct (actor_replies_conserved 1 9 _ c o Hrun) as (_ & _ & H);
    vm_compute in Hrun; injection Hrun as <- <-.
  - apply (bool_decide_unpack _). vm_compute. exact I.
  - exact I.
  - split; [reflexivity|]. apply H. reflexivity.
Defined.

(** LSNs are handed out once and in increasing order: in any run without
    a data-loss reset, over all changes of role and configuration, the LSNs
    assigned to requests are strictly increasing and below the next one. *)
Theorem assigned_lsns_increase replica_id timeout ls c o :
  run replica_id ls (initial timeout) = Some (c, o) → Forall (regular true) o →
  at_rest c →
  StronglySorted Z.lt (omap assigned o) ∧
  (cfg_proc c = Next → Forall (λ lsn, lsn < next_lsn (cfg_world c)) (omap assigned o)).
Proof.
  intros Hrun Hreg Hrest. pose proof (run_facts true _ _ _ _ _ Hrun Hreg) as H.
  unfold at_rest in Hrest. destruct (cfg_proc c) eqn:Hp; try done.
  - destruct H as [_ _ _ _ _ I6 _]. by destruct (I6 eq_refl).
  - destruct H as (_ & _ & F3 & _). split; [by apply F3|done].
Qed.

Lemma assigned_lsns_increase_witness :
  ∃ c o, run 1 demo_run (initial 9) = Some (c, o) ∧ omap assigned o = [1; 2] ∧
    StronglySorted Z.lt (omap assigned o).
Proof.
  destruct (run 1 demo_run (initial 9)) as [[c o]|] eqn:Hrun; [|exfalso; vm_compute in Hrun; discriminate Hrun].
  exists c, o. split; [reflexivity|].
  destruct (assigned_lsns_increase 1 9 _ c o Hrun) as [H _]; vm_compute in Hrun; injection Hrun as <- <-.
  - apply (bool_decide_unpack _). vm_compute. exact I.
  - exact I.
  - split; [reflexivity|exact H].
Defined.

(** C3. Gap-free streams: in any run without a data-loss reset of the
    progress, without an [Open] that reaches a primary and without an LSN that
    wraps around, whenever the actor is at its loop, what every live connection has been sent is an
    unbroken run of LSNs, each once and in order, that ends with the last LSN
    assigned: an operation is never skipped or reordered between the replay
    at connection and the live broadcast, however the background tasks
    interleave; and the queue retains an unbroken run that ends there too. *)
Theorem streams_gap_free replica_id timeout ls c o :
  run replica_id ls (initial timeout) = Some (c, o) → Forall (regular true) o →
  cfg_proc c = Next →
  streams (next_lsn (cfg_world c)) (primary_sender (cfg_world c)) ∧
  queue_run (next_lsn (cfg_world c)) (replication_queue (cfg_world c)).
Proof.
  intros Hrun Hreg Hp. pose proof (run_facts true _ _ _ _ _ Hrun Hreg) as H. rewrite Hp in H.
  destruct H as [_ _ _ I4 I5 _ _]. auto.
Qed.

Lemma streams_gap_free_witness :
  ∃ c o s conn, run 1 demo_run (initial 9) = Some (c, o) ∧ primary_sender (cfg_world c) = Some s ∧
    Sender.connections s !! 3 = Some conn ∧ lsns conn = [1; 2] ∧
    ∃ a, a ≤ 3 ∧ lsns conn = seqZ a (3 - a).
Proof.
  destruct (run 1 demo_run (initial 9)) as [[c o]|] eqn:Hrun; [|exfalso; vm_compute in Hrun; discriminate Hrun].
  destruct (streams_gap_free 1 9 _ c o Hrun) as [H _]; vm_compute in Hrun; injection Hrun as <- <-.
  - apply (bool_decide_unpack _). vm_compute. exact I.
  - reflexivity.
  - eexists _, _, _, _. split; [reflexivity|]. split; [reflexivity|]. split; [vm_compute; reflexivity|].
    split; [reflexivity|]. eapply (H _ 3); [reflexivity|vm_compute; reflexivity|reflexivity].
Defined.

(** What a new connection is sent first: exactly the retained operations
    beyond the copy boundary, in order. When the queue still holds everything
    beyond the boundary, the stream continues the copied state without a
    gap. *)
Theorem replay_covers_boundary m copy tok w s :
  primary_sender w = Some s → Sender.has_connection (ri_id m) (ri_instance_id m) s = false →
  in_i64 copy → copy < i64_max →
  ∃ s' conn, primary_sender (connect_and_replay m (Some copy) tok w) = Some s' ∧
    Sender.connections s' !! ri_id m = Some conn ∧
    lsns conn = (Queue.ops_from (copy + 1) (replication_queue w)).*1 ∧
    (∀ lo, copy + 1 < next_lsn w → lo ≤ copy + 1 →
       (∀ k, is_Some (replication_queue w !! k) ↔ lo ≤ k < next_lsn w) →
       lsns conn = seqZ (copy + 1) (next_lsn w - (copy + 1))).
Proof.
  intros Hs Hh Hc1 Hc2. unfold connect_and_replay. simpl. unfold over; simpl. rewrite Hs. simpl.
  rewrite i64_add_1 by done. unfold Sender.add_secondary. rewrite Hh. cbn [fst].
  set (c0 := Sender.mkSecondaryConnection (ri_instance_id m) [] true tok).
  set (s1 := Sender.install_connection (ri_id m) c0 s).
  set (ops := Queue.ops_from (copy + 1) (replication_queue w)).
  assert (Sender.connections s1 !! ri_id m = Some c0) as Hs1
    by (unfold s1; rewrite install_lookup; by case_decide).
  assert (is_Some (Sender.connections (replay s1 (ri_id m) ops (PState.ps_committed_lsn (state w))) !! ri_id m))
    as [conn Hconn].
  { apply replay_is_Some. rewrite Hs1. eauto. }
  exists (replay s1 (ri_id m) ops (PState.ps_committed_lsn (state w))), conn.
  assert (lsns conn = ops.*1) as Hl by (by apply (replay_lsns s1 (ri_id m) ops _ c0) in Hconn).
  split_and!; [done..|]. intros lo Hn Hlo Hq. rewrite Hl.
  apply sorted_interval; [apply Queue.ops_from_sorted|]. intros k. rewrite list_elem_of_fmap. split.
  - intros ([k' d] & -> & [Hk Hf]%Queue.elem_of_ops_from). simpl.
    assert (lo ≤ k' < next_lsn w) by (apply Hq; eauto). lia.
  - intros Hk. assert (is_Some (replication_queue w !! k)) as [d Hd] by (apply Hq; lia).
    exists (k, d). split; [done|]. apply Queue.elem_of_ops_from. split; [done|lia].
Qed.

Lemma replay_covers_boundary_witness :
  let w := mkWorld Primary (mkEpoch 0 1) 4 (Some (Sender.new 1 (mkEpoch 0 1)))
    (Queue.push 3 [] (Queue.push 2 [] (Queue.push 1 [] Queue.new))) tracker_new PState.new in
  ∃ s' conn, primary_sender (connect_and_replay (member 2 true) (Some 1) 9 w) = Some s' ∧
    Sender.connections s' !! 2 = Some conn ∧ lsns conn = [2; 3].
Proof.
  intros w. destruct (replay_covers_boundary (member 2 true) 1 9 w (Sender.new 1 (mkEpoch 0 1)))
    as (s' & conn & H1 & H2 & H3 & _); [reflexivity|reflexivity|unfold in_i64, i64_min, i64_max; lia|reflexivity|].
  exists s', conn. split; [exact H1|]. split; [exact H2|]. rewrite H3. vm_compute. reflexivity.
Defined.

(** Only a primary writes: whenever the actor is at its loop in another
    role it holds no pending write, no retained operation and no connection,
    and a request that arrives then is answered [NotPrimary] and changes
    nothing. *)
Theorem follower_rejects replica_id timeout ls c o data r now :
  run replica_id ls (initial timeout) = Some (c, o) → Forall (regular false) o →
  cfg_proc c = Next → role (cfg_world c) ≠ Primary →
  pending (quorum_tracker (cfg_world c)) = ∅ ∧ replication_queue (cfg_world c) = ∅ ∧
  primary_sender (cfg_world c) = None ∧
  run replica_id [LRequest data r; LRun now] c =
    Some (c, [OAccepted r; OTracker (OpReply r (Err NotPrimary))]).
Proof.
  intros Hrun Hreg Hp Hrole. pose proof (run_facts false _ _ _ _ _ Hrun Hreg) as H. rewrite Hp in H.
  destruct (inv_role _ _ _ _ _ H Hrole) as (? & ? & ?). split_and!; [done..|].
  destruct c as [p w]. cbn [cfg_proc cfg_world] in *. subst p.
  assert (handle_request replica_id w data r = send [OTracker (OpReply r (Err NotPrimary))]) as Hreq.
  { unfold handle_request. by rewrite decide_True. }
  cbn. by rewrite Hreq.
Qed.

Lemma follower_rejects_witness :
  ∃ c o, run 1 (demo_run ++ [LControl (EvChangeRole (mkEpoch 0 2) ActiveSecondary 103); LRun 4]) (initial 9)
           = Some (c, o) ∧
    run 1 [LRequest [] 9; LRun 5] c = Some (c, [OAccepted 9; OTracker (OpReply 9 (Err NotPrimary))]).
Proof.
  destruct (run 1 (demo_run ++ [LControl (EvChangeRole (mkEpoch 0 2) ActiveSecondary 103); LRun 4]) (initial 9))
    as [[c o]|] eqn:Hrun; [|exfalso; vm_compute in Hrun; discriminate Hrun].
  exists c, o. split; [reflexivity|].
  destruct (follower_rejects 1 9 _ c o [] 9 5 Hrun) as (_ & _ & _ & H); [| | |exact H];
    vm_compute in Hrun; injection Hrun as <- <-.
  - apply (bool_decide_unpack _). vm_compute. exact I.
  - reflexivity.
  - discriminate.
Defined.

(** The queue is collected up to the committed LSN, not up to what every
    configured secondary has acknowledged: here replica 3 has acknowledged
    nothing when the operation it lacks leaves the queue. *)
Theorem gc_ignores_lagging_secondary :
  ∃ c o, run 1 (demo_run ++
      [LControl (EvUpdateCurrentConfiguration (mkReplicaSetConfig [member 2 false; member 3 false] 2) 103);
       LRun 4; LRun 4]) (initial 9) = Some (c, o) ∧
    replica_acked_lsn (quorum_tracker (cfg_world c)) !! 3 = Some 0 ∧
    3 ∈ current_members (quorum_tracker (cfg_world c)) ∧
    replication_queue (cfg_world c) !! 1 = None ∧ is_Some (replication_queue (cfg_world c) !! 2).
Proof.
  destruct (run 1 _ (initial 9)) as [[c o]|] eqn:Hrun; [|exfalso; vm_compute in Hrun; discriminate Hrun].
  exists c, o. vm_compute in Hrun. injection Hrun as <- <-. split; [reflexivity|].
  split; [vm_compute; reflexivity|]. split; [|split; [vm_compute; reflexivity|vm_compute; eauto]].
  apply (bool_decide_unpack _). vm_compute. exact I.
Qed.
