(* ===== verification/Identity.v ===== *)
(** Identities of the durable execution kernel (durable-execution/src/identity.rs
    and the outcome type of workflow.rs): executions, hosts, activities,
    attempts, and the rendered identity of a logical activity. *)

From Stdlib Require Import Strings.Byte Strings.Ascii.
From S2P Require Import Prelude Types.

Set Default Goal Selector "!".
Delimit Scope char_scope with char.

(** [ExactBytes] wraps a byte vector; [ExecutionId] and [HostEpoch] are byte
    arrays of length 16; counters and bounds are [u64]; versions [u32]. *)
Abbreviation ExactBytes := (list Byte.byte) (only parsing).
Abbreviation ExecutionId := (list Byte.byte) (only parsing).
Abbreviation HostEpoch := (list Byte.byte) (only parsing).
Abbreviation ActivitySequence := Z (only parsing).

Definition bytes_len (b : ExactBytes) : Z := Z.of_nat (length b).

Record ExecutionSpec := mkExecutionSpec {
  execution_id : ExecutionId;
  workflow_input : ExactBytes;
  max_terminal_payload_bytes : Z;
}.
#[export] Instance ExecutionSpec_eq_dec : EqDecision ExecutionSpec.
Proof. solve_decision. Defined.

Inductive IdentityError := EmptyActivityName | ZeroActivityVersion | ZeroAttemptCounter.

Record ActivityName := mkActivityName { an_name : string; an_version : Z }.
#[export] Instance ActivityName_eq_dec : EqDecision ActivityName.
Proof. solve_decision. Defined.

Definition activity_name_new (name : string) (version : Z) : result IdentityError ActivityName :=
  reject_if (bool_decide (name = "")) EmptyActivityName;;
  reject_if (version =? 0) ZeroActivityVersion;;
  Ok (mkActivityName name version).

Record ActivitySpec := mkActivitySpec {
  as_name : ActivityName;
  as_input : ExactBytes;
  max_result_bytes : Z;
}.
#[export] Instance ActivitySpec_eq_dec : EqDecision ActivitySpec.
Proof. solve_decision. Defined.

Record AttemptId := mkAttemptId { host_epoch : HostEpoch; counter : Z }.
#[export] Instance AttemptId_eq_dec : EqDecision AttemptId.
Proof. solve_decision. Defined.

Definition attempt_id_new (host_epoch : HostEpoch) (counter : Z) : result IdentityError AttemptId :=
  reject_if (counter =? 0) ZeroAttemptCounter;;
  Ok (mkAttemptId host_epoch counter).

(** The wire types of [ActivityName] and [AttemptId] are decoded field by
    field and re-validated by their constructors. *)
Definition activity_name_from_wire (name : string) (version : Z) : result IdentityError ActivityName :=
  activity_name_new name version.
Definition attempt_id_from_wire (host_epoch : HostEpoch) (counter : Z) : result IdentityError AttemptId :=
  attempt_id_new host_epoch counter.

Record LogicalActivityId := mkLogicalActivityId {
  la_execution_id : ExecutionId;
  la_sequence : ActivitySequence;
  la_spec : ActivitySpec;
}.
#[export] Instance LogicalActivityId_eq_dec : EqDecision LogicalActivityId.
Proof. solve_decision. Defined.

Inductive TerminalOutcome := Succeeded (payload : ExactBytes) | FailedWith (payload : ExactBytes).
#[export] Instance TerminalOutcome_eq_dec : EqDecision TerminalOutcome.
Proof. solve_decision. Defined.

Definition outcome_payload (o : TerminalOutcome) : ExactBytes :=
  match o with Succeeded p | FailedWith p => p end.

(** ** Rendering *)

Definition hex_digit (n : N) : Ascii.ascii :=
  if (n <? 10)%N then Ascii.ascii_of_N (48 + n) else Ascii.ascii_of_N (87 + n).

(** [{byte:02x}]. *)
Definition hex_byte (b : Byte.byte) : string :=
  let n := Byte.to_N b in
  String (hex_digit (n / 16)) (String (hex_digit (n mod 16)) EmptyString).

Fixpoint push_hex (bytes : list Byte.byte) : string :=
  match bytes with
  | [] => ""
  | b :: bytes => hex_byte b +:+ push_hex bytes
  end.

Definition string_bytes (s : string) : list Byte.byte := String.list_byte_of_string s.

Definition execution_id_to_string (id : ExecutionId) : string := "execution:" +:+ push_hex id.
Definition host_epoch_to_string (h : HostEpoch) : string := "host:" +:+ push_hex h.
Definition activity_name_to_string (n : ActivityName) : string := an_name n +:+ "@v" +:+ pretty (an_version n).
Definition attempt_id_to_string (a : AttemptId) : string :=
  "attempt:" +:+ push_hex (host_epoch a) +:+ ":" +:+ pretty (counter a).

(** The rendering writes the name's byte length, so it is computed from the
    bytes, not the characters. *)
Definition to_external_id (id : LogicalActivityId) : string :=
  let name_bytes := string_bytes (an_name (as_name (la_spec id))) in
  let input := as_input (la_spec id) in
  "logical:v2:" +:+ push_hex (la_execution_id id) +:+ ":" +:+ pretty (la_sequence id) +:+ ":" +:+
  pretty (bytes_len name_bytes) +:+ ":" +:+ push_hex name_bytes +:+ ":" +:+
  pretty (an_version (as_name (la_spec id))) +:+ ":" +:+ pretty (bytes_len input) +:+ ":" +:+
  push_hex input +:+ ":" +:+ pretty (max_result_bytes (la_spec id)).

Example external_id_example :
  to_external_id (mkLogicalActivityId [Byte.x0a; Byte.xff] 3 (mkActivitySpec (mkActivityName "ab" 2) [Byte.x01] 64))
  = "logical:v2:0aff:3:2:6162:2:1:01:64".
Proof. vm_compute. reflexivity. Qed.

(** ** The rendering is unambiguous *)

Lemma string_app_assoc (a b c : string) : (a +:+ b) +:+ c = a +:+ (b +:+ c).
Proof. induction a as [|x a IH]; [done|]. change (String x ((a +:+ b) +:+ c) = String x (a +:+ (b +:+ c))). by rewrite IH. Qed.

Definition plain_field (s : string) : Prop := Forall (λ c, c ≠ ":"%char) (String.list_ascii_of_string s).

Lemma field_split a a' r r' :
  plain_field a → plain_field a' → a +:+ ":" +:+ r = a' +:+ ":" +:+ r' → a = a' ∧ r = r'.
Proof.
  unfold plain_field. revert a'. induction a as [|c a IH]; intros a' Ha Ha'; destruct a' as [|c' a']; simpl in *.
  - intros Heq. injection Heq as Heq. split; [done|exact Heq].
  - intros Heq. injection Heq as Hc _. apply Forall_cons in Ha' as [? _]. congruence.
  - intros Heq. injection Heq as Hc _. apply Forall_cons in Ha as [? _]. congruence.
  - apply Forall_cons in Ha as [_ Ha], Ha' as [_ Ha']. intros Heq. injection Heq as -> Heq.
    destruct (IH a' Ha Ha' Heq) as [-> ->]. done.
Qed.

Lemma list_ascii_app a b :
  String.list_ascii_of_string (a +:+ b) = String.list_ascii_of_string a ++ String.list_ascii_of_string b.
Proof. induction a as [|c a IH]; simpl; [done|]. f_equal. exact IH. Qed.

Lemma plain_field_app a b : plain_field a → plain_field b → plain_field (a +:+ b).
Proof. unfold plain_field. rewrite list_ascii_app. intros. by apply Forall_app. Qed.

Lemma hex_byte_plain b : plain_field (hex_byte b).
Proof. unfold plain_field. destruct b; vm_compute; repeat constructor; discriminate. Qed.

Lemma hex_digit_inj (n m : N) : (n < 16 → m < 16 → hex_digit n = hex_digit m → n = m)%N.
Proof.
  intros Hn Hm. unfold hex_digit.
  destruct (N.ltb_spec n 10), (N.ltb_spec m 10); intros Heq%(f_equal Ascii.N_of_ascii);
    rewrite !Ascii.N_ascii_embedding in Heq by lia; lia.
Qed.

Lemma hex_byte_inj : Inj (=) (=) hex_byte.
Proof.
  assert (∀ b, Byte.to_N b = ((Byte.to_N b / 16) * 16 + Byte.to_N b mod 16)%N) as Hdiv.
  { intros b. pose proof (N.div_mod (Byte.to_N b) 16). lia. }
  intros a b Hab. unfold hex_byte in Hab. injection Hab as H1 H2.
  assert (∀ c, Byte.to_N c < 256)%N as Hlt by (intros c; pose proof (Byte.to_N_bounded c); lia).
  apply hex_digit_inj in H1; [|apply N.Div0.div_lt_upper_bound; specialize (Hlt a); lia
                     |apply N.Div0.div_lt_upper_bound; specialize (Hlt b); lia].
  apply hex_digit_inj in H2; [|by apply N.mod_lt..].
  assert (Byte.to_N a = Byte.to_N b) as HN by (rewrite (Hdiv a), (Hdiv b); congruence).
  assert (Some a = Some b) as [= ->]; [|done]. by rewrite <-!Byte.of_to_N, HN.
Qed.

Lemma push_hex_plain l : plain_field (push_hex l).
Proof. induction l as [|b l IH]; simpl; [constructor|]. apply plain_field_app; [apply hex_byte_plain|done]. Qed.

Lemma push_hex_inj : Inj (=) (=) push_hex.
Proof.
  intros l. induction l as [|b l IH]; intros [|b' l']; simpl; [done|by destruct b'|by destruct b|].
  intros Heq. assert (hex_byte b = hex_byte b' ∧ push_hex l = push_hex l') as [Hb%hex_byte_inj Hl%IH].
  { unfold hex_byte in *. injection Heq as H1 H2 H3. rewrite H1, H2. split; [done|exact H3]. }
  by subst.
Qed.

Lemma pretty_N_go_plain n s : plain_field s → plain_field (pretty_N_go n s).
Proof.
  revert s. induction (N.lt_wf_0 n) as [n _ IH]; intros s Hs.
  destruct (decide (0 < n)%N) as [Hn|Hn].
  - rewrite pretty_N_go_step by done. apply IH; [apply N.div_lt; lia|].
    constructor; [|exact Hs]. unfold pretty_N_char. repeat case_match; discriminate.
  - assert (n = 0%N) as -> by lia. by rewrite pretty_N_go_0.
Qed.

Lemma pretty_Z_plain (z : Z) : plain_field (pretty z).
Proof.
  assert (∀ n : N, plain_field (pretty n)) as HN.
  { intros n. unfold pretty, pretty_N. case_decide; [repeat constructor; discriminate|].
    apply pretty_N_go_plain. constructor. }
  unfold pretty, pretty_Z. destruct z; [apply (HN 0%N)|apply HN|].
  apply (plain_field_app "-"); [repeat constructor; discriminate|apply HN].
Qed.

Lemma string_bytes_inj : Inj (=) (=) string_bytes.
Proof.
  intros s t Heq. rewrite <-(String.string_of_list_byte_of_string s), <-(String.string_of_list_byte_of_string t).
  unfold string_bytes in Heq. by rewrite Heq.
Qed.

Create HintDb fields.
#[export] Hint Resolve push_hex_plain pretty_Z_plain : fields.

(** The external identity of a logical activity determines the activity:
    execution, position, name, version, input bytes and result bound. *)
Theorem to_external_id_inj : Inj (=) (=) to_external_id.
Proof.
  intros [e1 q1 [[n1 v1] i1 m1]] [e2 q2 [[n2 v2] i2 m2]]. unfold to_external_id; cbn [la_execution_id la_sequence la_spec as_name as_input max_result_bytes an_name an_version].
  intros Heq. injection Heq as Heq.
  apply field_split in Heq as [->%push_hex_inj Heq]; [|auto with fields..].
  apply field_split in Heq as [->%(inj pretty) Heq]; [|auto with fields..].
  apply field_split in Heq as [_ Heq]; [|auto with fields..].
  apply field_split in Heq as [->%push_hex_inj%string_bytes_inj Heq]; [|auto with fields..].
  apply field_split in Heq as [->%(inj pretty) Heq]; [|auto with fields..].
  apply field_split in Heq as [_ Heq]; [|auto with fields..].
  apply field_split in Heq as [->%push_hex_inj Heq]; [|auto with fields..].
  apply (inj pretty) in Heq as ->. done.
Qed.

(** Validated names and attempts: what the constructors, and so the decoders,
    let through. *)
Lemma activity_name_new_Ok name version n :
  activity_name_new name version = Ok n ↔ n = mkActivityName name version ∧ name ≠ "" ∧ version ≠ 0.
Proof.
  unfold activity_name_new. case_bool_decide; simpl; [split; [done|naive_solver]|].
  destruct (Z.eqb_spec version 0); simpl; naive_solver.
Qed.

Lemma attempt_id_new_Ok h c a : attempt_id_new h c = Ok a ↔ a = mkAttemptId h c ∧ c ≠ 0.
Proof. unfold attempt_id_new. destruct (Z.eqb_spec c 0); simpl; naive_solver. Qed.
