(* ===== verification/Checkpoint.v ===== *)
(** Checkpoints of a durable execution (durable-execution/src/checkpoint.rs):
    the payload and its envelope, validation, and the capacity that is
    reserved for terminal outcomes and activity results. *)

From S2P Require Import Prelude Types Identity.

Set Default Goal Selector "!".

Definition CHECKPOINT_FORMAT_VERSION : Z := 3.

Record CheckpointLimits := mkCheckpointLimits {
  max_activity_records : Z;
  max_encoded_bytes : Z;
}.

Record CheckpointEnvelope := mkCheckpointEnvelope {
  format_version : Z;
  payload : ExactBytes;
}.
#[export] Instance CheckpointEnvelope_eq_dec : EqDecision CheckpointEnvelope.
Proof. solve_decision. Defined.

Record ExecutionContract := mkExecutionContract {
  spec : ExecutionSpec;
  admitted_max_encoded_checkpoint_bytes : Z;
}.

Inductive ActivityState :=
| ActScheduled
| DispatchExposed (attempt_id : AttemptId)
| ActCompleted (res : ExactBytes).
#[export] Instance ActivityState_eq_dec : EqDecision ActivityState.
Proof. solve_decision. Defined.

Record ActivityRecord := mkActivityRecord {
  ar_sequence : ActivitySequence;
  ar_spec : ActivitySpec;
  ar_state : ActivityState;
}.
#[export] Instance ActivityRecord_eq_dec : EqDecision ActivityRecord.
Proof. solve_decision. Defined.
#[export] Instance eta_ActivityRecord : Settable ActivityRecord :=
  {| eta_record r := mkActivityRecord (ar_sequence r) (ar_spec r) (ar_state r) |}.

Definition record_scheduled (sequence : ActivitySequence) (s : ActivitySpec) : ActivityRecord :=
  mkActivityRecord sequence s ActScheduled.
Definition record_completed (sequence : ActivitySequence) (s : ActivitySpec) (r : ExactBytes) : ActivityRecord :=
  mkActivityRecord sequence s (ActCompleted r).
Definition record_dispatch_exposed (sequence : ActivitySequence) (s : ActivitySpec) (a : AttemptId) :
    ActivityRecord := mkActivityRecord sequence s (DispatchExposed a).

Definition logical_id (r : ActivityRecord) (id : ExecutionId) : LogicalActivityId :=
  mkLogicalActivityId id (ar_sequence r) (ar_spec r).

Inductive CheckpointState :=
| Active (activities : list ActivityRecord)
| Terminal (outcome : TerminalOutcome) (completed_activity_count : Z).

Record CheckpointPayload := mkCheckpointPayload {
  execution : ExecutionContract;
  cp_state : CheckpointState;
}.

Definition payload_active (e : ExecutionContract) (activities : list ActivityRecord) : CheckpointPayload :=
  mkCheckpointPayload e (Active activities).
Definition payload_terminal (e : ExecutionContract) (o : TerminalOutcome) (n : Z) : CheckpointPayload :=
  mkCheckpointPayload e (Terminal o n).

Definition active_activities (p : CheckpointPayload) : option (list ActivityRecord) :=
  match cp_state p with Active activities => Some activities | Terminal _ _ => None end.
Definition terminal_outcome (p : CheckpointPayload) : option (TerminalOutcome * Z) :=
  match cp_state p with Terminal o n => Some (o, n) | Active _ => None end.

(** [active_activities_mut] followed by a change of the vector. *)
Definition map_activities (f : list ActivityRecord → list ActivityRecord) (p : CheckpointPayload) :
    CheckpointPayload :=
  match cp_state p with
  | Active activities => mkCheckpointPayload (execution p) (Active (f activities))
  | Terminal _ _ => p
  end.

Inductive CheckpointError :=
| UnsupportedFormat (actual supported : Z)
| InvalidJson (message : string)
| ExecutionMismatch (expected actual : ExecutionId)
| WorkflowInputMismatch (expected actual : ExactBytes)
| TerminalPayloadBoundMismatch (expected actual : Z)
| ZeroActivityRecordLimit
| ZeroEncodedCheckpointLimit
| ActivityRecordLimitExceeded (actual maximum : Z)
| EncodedCheckpointLimitExceeded (actual maximum : Z)
| ConfiguredCapacityBelowAdmission (configured admitted : Z)
| AdmittedTerminalCapacityInsufficient (required admitted : Z)
| ResultLengthUnrepresentable
| TerminalPayloadLengthUnrepresentable
| EncodedLengthOverflow
| MissingPendingActivity
| ExpectedActiveCheckpoint
| CompletedResultExceedsDeclared (sequence : ActivitySequence) (actual maximum : Z)
| TerminalPayloadExceedsDeclared (actual maximum : Z)
| HistoryTooLong
| NonContiguousSequence (expected actual : ActivitySequence)
| PendingActivityNotFinal (sequence : ActivitySequence).

Definition limits_new (max_activity_records max_encoded_bytes : Z) : result CheckpointError CheckpointLimits :=
  reject_if (max_activity_records =? 0) ZeroActivityRecordLimit;;
  reject_if (max_encoded_bytes =? 0) ZeroEncodedCheckpointLimit;;
  Ok (mkCheckpointLimits max_activity_records max_encoded_bytes).

(** [u64::try_from(usize)] and [usize::try_from(u64)]. *)
Definition u64_try_from (n : Z) : option Z := if decide (n ≤ u64_max) then Some n else None.
Definition usize_try_from (n : Z) : option Z := if decide (n ≤ usize_max) then Some n else None.

(** ** Validation that needs no encoding *)

Definition validate_activity_count (activities : list ActivityRecord) (limits : CheckpointLimits) :
    result CheckpointError unit :=
  let actual := Z.of_nat (length activities) in
  reject_if (max_activity_records limits <? actual)
    (ActivityRecordLimitExceeded actual (max_activity_records limits)).

Definition validate_record (count : Z) (index : Z) (record : ActivityRecord) : result CheckpointError unit :=
  expected ← ok_or (u64_try_from index) HistoryTooLong;
  reject_if (negb (ar_sequence record =? expected)) (NonContiguousSequence expected (ar_sequence record));;
  match ar_state record with
  | ActCompleted res =>
      actual ← ok_or (u64_try_from (bytes_len res)) ResultLengthUnrepresentable;
      reject_if (max_result_bytes (ar_spec record) <? actual)
        (CompletedResultExceedsDeclared (ar_sequence record) actual (max_result_bytes (ar_spec record)))
  | _ => reject_if (negb (index + 1 =? count)) (PendingActivityNotFinal (ar_sequence record))
  end.

Fixpoint validate_from (count index : Z) (activities : list ActivityRecord) : result CheckpointError unit :=
  match activities with
  | [] => Ok tt
  | record :: activities => validate_record count index record;; validate_from count (index + 1) activities
  end.

Definition validate_active_history (activities : list ActivityRecord) : result CheckpointError unit :=
  validate_from (Z.of_nat (length activities)) 0 activities.

Definition validate_terminal_outcome (outcome : TerminalOutcome) (maximum : Z) : result CheckpointError unit :=
  actual ← ok_or (u64_try_from (bytes_len (outcome_payload outcome))) TerminalPayloadLengthUnrepresentable;
  reject_if (maximum <? actual) (TerminalPayloadExceedsDeclared actual maximum).

Definition into_terminal (p : CheckpointPayload) (outcome : TerminalOutcome) (count : Z) :
    result CheckpointError CheckpointPayload :=
  reject_if (negb (bool_decide (is_Some (active_activities p)))) ExpectedActiveCheckpoint;;
  validate_terminal_outcome outcome (max_terminal_payload_bytes (spec (execution p)));;
  Ok (payload_terminal (execution p) outcome count).

(** ** Encoding

    [serde_json] and [base64] are parameters: [json_payload] and
    [json_envelope] are [to_vec] on the two types, [json_parse] is
    [from_slice], [encoded_len] is [base64::encoded_len] with padding. *)

Class Encoding := {
  json_payload : CheckpointPayload → result string (list Byte.byte);
  json_parse : list Byte.byte → result string CheckpointPayload;
  json_envelope : CheckpointEnvelope → result string (list Byte.byte);
  encoded_len : Z → option Z;
}.

Section encoding.
  Context {Enc : Encoding}.

Definition invalid_json {A} (r : result string A) : result CheckpointError A :=
  match r with Ok a => Ok a | Err m => Err (InvalidJson m) end.

Definition encode (p : CheckpointPayload) : result CheckpointError CheckpointEnvelope :=
  b ← invalid_json (json_payload p);
  Ok (mkCheckpointEnvelope CHECKPOINT_FORMAT_VERSION b).

Definition envelope_encoded_len (env : CheckpointEnvelope) : result CheckpointError Z :=
  payload_base64_len ← ok_or (encoded_len (bytes_len (payload env))) EncodedLengthOverflow;
  fixed ← invalid_json (json_envelope (mkCheckpointEnvelope (format_version env) []));
  ok_or (usize_checked_add (bytes_len fixed) payload_base64_len) EncodedLengthOverflow.

Definition validate_encoded_size (env : CheckpointEnvelope) (limits : CheckpointLimits) :
    result CheckpointError unit :=
  actual ← envelope_encoded_len env;
  reject_if (max_encoded_bytes limits <? actual)
    (EncodedCheckpointLimitExceeded actual (max_encoded_bytes limits)).

(** The largest envelope of one kind of outcome, with an empty stand-in for
    its payload of [payload_base64_len] characters. *)
Definition projected_terminal_len (p : CheckpointPayload) (payload_base64_len : Z) (outcome : TerminalOutcome) :
    result CheckpointError Z :=
  empty_inner ← invalid_json (json_payload (payload_terminal (execution p) outcome u64_max));
  projected_inner_len ← ok_or (usize_checked_add (bytes_len empty_inner) payload_base64_len) EncodedLengthOverflow;
  projected_envelope_payload_len ← ok_or (encoded_len projected_inner_len) EncodedLengthOverflow;
  empty_envelope_len ← envelope_encoded_len (mkCheckpointEnvelope CHECKPOINT_FORMAT_VERSION []);
  ok_or (usize_checked_add empty_envelope_len projected_envelope_payload_len) EncodedLengthOverflow.

Definition maximum_terminal_encoded_len (p : CheckpointPayload) : result CheckpointError Z :=
  declared_len ← ok_or (usize_try_from (max_terminal_payload_bytes (spec (execution p))))
    TerminalPayloadLengthUnrepresentable;
  payload_base64_len ← ok_or (encoded_len declared_len) EncodedLengthOverflow;
  try_fold (λ largest outcome,
      projected ← projected_terminal_len p payload_base64_len outcome; Ok (Z.max largest projected))
    0 [Succeeded []; FailedWith []].

(** [activities.last_mut()], the record then set to an empty completion. *)
Definition complete_last (activities : list ActivityRecord) : list ActivityRecord :=
  alter (λ r, r <| ar_state := ActCompleted [] |>) (pred (length activities)) activities.

Definition maximum_activity_completed_encoded_len (p : CheckpointPayload) : result CheckpointError Z :=
  activities ← ok_or (active_activities p) ExpectedActiveCheckpoint;
  record ← ok_or (last activities) MissingPendingActivity;
  result_len ← ok_or (usize_try_from (max_result_bytes (ar_spec record))) ResultLengthUnrepresentable;
  result_base64_len ← ok_or (encoded_len result_len) EncodedLengthOverflow;
  let empty_completion := map_activities complete_last p in
  empty_inner ← invalid_json (json_payload empty_completion);
  projected_inner_len ← ok_or (usize_checked_add (bytes_len empty_inner) result_base64_len) EncodedLengthOverflow;
  projected_payload_base64_len ← ok_or (encoded_len projected_inner_len) EncodedLengthOverflow;
  empty_envelope_len ← envelope_encoded_len (mkCheckpointEnvelope CHECKPOINT_FORMAT_VERSION []);
  ok_or (usize_checked_add empty_envelope_len projected_payload_base64_len) EncodedLengthOverflow.

Definition validate_internal (p : CheckpointPayload) (limits : CheckpointLimits) : result CheckpointError unit :=
  configured ← ok_or (u64_try_from (max_encoded_bytes limits)) EncodedLengthOverflow;
  let admitted := admitted_max_encoded_checkpoint_bytes (execution p) in
  reject_if (configured <? admitted) (ConfiguredCapacityBelowAdmission configured admitted);;
  required ← maximum_terminal_encoded_len p;
  required ← ok_or (u64_try_from required) EncodedLengthOverflow;
  reject_if (admitted <? required) (AdmittedTerminalCapacityInsufficient required admitted);;
  match cp_state p with
  | Active activities => validate_activity_count activities limits;; validate_active_history activities
  | Terminal outcome _ => validate_terminal_outcome outcome (max_terminal_payload_bytes (spec (execution p)))
  end.

Definition validate (p : CheckpointPayload) (expected : ExecutionSpec) (limits : CheckpointLimits) :
    result CheckpointError unit :=
  let actual := spec (execution p) in
  reject_if (negb (bool_decide (execution_id actual = execution_id expected)))
    (ExecutionMismatch (execution_id expected) (execution_id actual));;
  reject_if (negb (bool_decide (workflow_input actual = workflow_input expected)))
    (WorkflowInputMismatch (workflow_input expected) (workflow_input actual));;
  reject_if (negb (max_terminal_payload_bytes actual =? max_terminal_payload_bytes expected))
    (TerminalPayloadBoundMismatch (max_terminal_payload_bytes expected) (max_terminal_payload_bytes actual));;
  validate_internal p limits.

Definition encode_with_limits (p : CheckpointPayload) (limits : CheckpointLimits) :
    result CheckpointError CheckpointEnvelope :=
  validate_internal p limits;;
  checkpoint ← encode p;
  validate_encoded_size checkpoint limits;;
  Ok checkpoint.

Definition decode_and_validate (env : CheckpointEnvelope) (expected : ExecutionSpec) (limits : CheckpointLimits) :
    result CheckpointError CheckpointPayload :=
  reject_if (negb (format_version env =? CHECKPOINT_FORMAT_VERSION))
    (UnsupportedFormat (format_version env) CHECKPOINT_FORMAT_VERSION);;
  validate_encoded_size env limits;;
  p ← invalid_json (json_parse (payload env));
  validate p expected limits;;
  Ok p.

End encoding.

(** ** History validation *)

(** What an active history must look like: contiguous from zero, results
    within their declared bound, and at most one pending record, at the end. *)
Definition well_formed_history (activities : list ActivityRecord) : Prop :=
  ∀ i r, activities !! i = Some r →
    ar_sequence r = Z.of_nat i ∧
    match ar_state r with
    | ActCompleted res => bytes_len res ≤ max_result_bytes (ar_spec r)
    | _ => i = pred (length activities)
    end.

Lemma u64_try_from_Some n m : u64_try_from n = Some m ↔ m = n ∧ n ≤ u64_max.
Proof. unfold u64_try_from. case_decide; naive_solver. Qed.

Lemma validate_record_Ok count i r :
  0 ≤ i → i ≤ u64_max → (∀ res, ar_state r = ActCompleted res → bytes_len res ≤ u64_max) →
  validate_record count i r = Ok tt ↔
  ar_sequence r = i ∧
  match ar_state r with
  | ActCompleted res => bytes_len res ≤ max_result_bytes (ar_spec r)
  | _ => i + 1 = count
  end.
Proof.
  intros H0 Hi Hlen. unfold validate_record, u64_try_from. rewrite decide_True by done.
  cbn [ok_or mbind result_bind]. destruct (Z.eqb_spec (ar_sequence r) i) as [->|Hne]; cbn [negb reject_if mbind result_bind].
  2: { split; [done|]. tauto. }
  destruct (ar_state r) as [|a|res] eqn:Hst.
  - rewrite reject_if_Ok, negb_false_iff, Z.eqb_eq. tauto.
  - rewrite reject_if_Ok, negb_false_iff, Z.eqb_eq. tauto.
  - rewrite decide_True by eauto. cbn [ok_or mbind result_bind]. rewrite reject_if_Ok, Z.ltb_ge. tauto.
Qed.

Lemma validate_from_Ok count i activities :
  0 ≤ i → i + Z.of_nat (length activities) ≤ u64_max + 1 →
  (∀ r res, r ∈ activities → ar_state r = ActCompleted res → bytes_len res ≤ u64_max) →
  validate_from count i activities = Ok tt ↔
  ∀ k r, activities !! k = Some r →
    ar_sequence r = i + Z.of_nat k ∧
    match ar_state r with
    | ActCompleted res => bytes_len res ≤ max_result_bytes (ar_spec r)
    | _ => i + Z.of_nat k + 1 = count
    end.
Proof.
  revert i. induction activities as [|r rs IH]; intros i H0 Hi Hlen; simpl in *.
  { split; [intros _ k r; by rewrite lookup_nil|done]. }
  rewrite bind_Ok. split.
  - intros ([] & Hr & Hrs) [|k] r'; simpl.
    + intros [= <-]. rewrite Z.add_0_r. apply validate_record_Ok in Hr; [done|done|lia|]. intros res. apply Hlen. left.
    + intros Hk. rewrite (IH (i + 1)) in Hrs; [|lia|lia|intros r'' res Hin; apply Hlen; by right].
      specialize (Hrs k r' Hk). replace (i + Z.of_nat (S k)) with (i + 1 + Z.of_nat k) by lia. done.
  - intros Hall. exists tt. split.
    + apply validate_record_Ok; [done|lia|intros res; apply Hlen; left|].
      specialize (Hall O r eq_refl). by rewrite Z.add_0_r in Hall.
    + apply (IH (i + 1)); [lia|lia|intros r'' res Hin; apply Hlen; by right|]. intros k r' Hk.
      specialize (Hall (S k) r' Hk). replace (i + 1 + Z.of_nat k) with (i + Z.of_nat (S k)) by lia. done.
Qed.

(** On a 64-bit platform every length in memory is a [u64]. *)
Definition in_memory (activities : list ActivityRecord) : Prop :=
  Z.of_nat (length activities) ≤ u64_max ∧
  ∀ r res, r ∈ activities → ar_state r = ActCompleted res → bytes_len res ≤ u64_max.

Lemma validate_active_history_Ok activities :
  in_memory activities → validate_active_history activities = Ok tt ↔ well_formed_history activities.
Proof.
  intros [Hlen Hres]. unfold validate_active_history, well_formed_history.
  rewrite validate_from_Ok by (done || lia). split; intros H i r Hi; destruct (H i r Hi) as [Hs Hc].
  - split; [lia|]. pose proof (lookup_lt_Some _ _ _ Hi). destruct (ar_state r); [lia|lia|done].
  - split; [lia|]. pose proof (lookup_lt_Some _ _ _ Hi). destruct (ar_state r); [lia|lia|done].
Qed.

(** History validation accepts exactly the well-formed histories: record
    [i] carries sequence [i], completed results respect the declared bound,
    and a record that is not completed is the last one. *)
Theorem history_validation_exact activities :
  in_memory activities →
  (validate_active_history activities = Ok tt ↔ well_formed_history activities).
Proof. apply validate_active_history_Ok. Qed.

Lemma history_validation_exact_witness :
  let s := mkActivitySpec (mkActivityName "a" 1) [] 1 in
  well_formed_history [record_completed 0 s [Byte.x00]; record_scheduled 1 s] ∧
  ¬ well_formed_history [record_scheduled 0 s; record_scheduled 1 s].
Proof.
  intros s.
  assert (∀ l, length l ≤ 2 → (∀ r, r ∈ l → r = record_completed 0 s [Byte.x00] ∨ ∃ i, r = record_scheduled i s) →
    in_memory l)%nat as Hmem.
  { intros l Hl Hr. split; [unfold u64_max; lia|]. intros r res Hin Hst.
    destruct (Hr r Hin) as [->|[i ->]]; [|done]. injection Hst as <-. unfold u64_max, bytes_len. simpl. lia. }
  split.
  - apply (history_validation_exact [record_completed 0 s [Byte.x00]; record_scheduled 1 s]).
    + apply Hmem; [simpl; lia|]. intros r [->|[->|?%not_elem_of_nil]%elem_of_cons]%elem_of_cons; [by left|right; eauto|done].
    + vm_compute. reflexivity.
  - intros Hwf. apply (history_validation_exact [record_scheduled 0 s; record_scheduled 1 s]) in Hwf.
    + vm_compute in Hwf. discriminate Hwf.
    + apply Hmem; [simpl; lia|]. intros r [->|[->|?%not_elem_of_nil]%elem_of_cons]%elem_of_cons; [right; eauto..|done].
Defined.

(** ** Encoding laws

    What the code relies on of [serde_json] and [base64]: serialization of
    these types succeeds and is undone by parsing; a base64 text of [n] bytes
    has [4 * ceil (n / 3)] characters, or does not fit; and in the JSON of a
    terminal checkpoint the payload is one base64 string and the count one
    decimal number. *)

Definition b64 (n : Z) : Z := 4 * ((n + 2) / 3).

Definition emptied (o : TerminalOutcome) : TerminalOutcome :=
  match o with Succeeded _ => Succeeded [] | FailedWith _ => FailedWith [] end.

Class EncodingLaws `{!Encoding} : Prop := {
  json_total p : ∃ b, json_payload p = Ok b;
  json_roundtrip p b : json_payload p = Ok b → json_parse b = Ok p;
  encoded_len_spec n : 0 ≤ n → encoded_len n = if decide (b64 n ≤ usize_max) then Some (b64 n) else None;
  json_terminal_len e o n b b0 : 0 ≤ n ≤ u64_max →
    json_payload (payload_terminal e o n) = Ok b →
    json_payload (payload_terminal e (emptied o) u64_max) = Ok b0 →
    bytes_len b ≤ bytes_len b0 + b64 (bytes_len (outcome_payload o));
}.

Lemma b64_mono n m : n ≤ m → b64 n ≤ b64 m.
Proof. unfold b64. intros. apply Z.mul_le_mono_nonneg_l; [lia|]. apply Z.div_le_mono; lia. Qed.

Lemma bytes_len_nonneg b : 0 ≤ bytes_len b.
Proof. unfold bytes_len. lia. Qed.

Lemma usize_checked_add_Some a b c : usize_checked_add a b = Some c ↔ c = a + b ∧ a + b ≤ usize_max.
Proof. unfold usize_checked_add. case_decide; naive_solver. Qed.

Lemma usize_try_from_Some n m : usize_try_from n = Some m ↔ m = n ∧ n ≤ usize_max.
Proof. unfold usize_try_from. case_decide; naive_solver. Qed.

Lemma invalid_json_Ok {A} (r : result string A) a : invalid_json r = Ok a ↔ r = Ok a.
Proof. destruct r; simpl; naive_solver. Qed.

Section laws.
  Context {Enc : Encoding} {Laws : EncodingLaws}.

Lemma encoded_len_Some n m : 0 ≤ n → encoded_len n = Some m ↔ m = b64 n ∧ b64 n ≤ usize_max.
Proof. intros. rewrite encoded_len_spec by done. case_decide; naive_solver. Qed.

Lemma envelope_encoded_len_Ok env l :
  envelope_encoded_len env = Ok l ↔
  ∃ fixed, json_envelope (mkCheckpointEnvelope (format_version env) []) = Ok fixed ∧
    b64 (bytes_len (payload env)) ≤ usize_max ∧
    l = bytes_len fixed + b64 (bytes_len (payload env)) ∧ l ≤ usize_max.
Proof.
  unfold envelope_encoded_len. rewrite bind_Ok. setoid_rewrite ok_or_Ok.
  setoid_rewrite encoded_len_Some; [|apply bytes_len_nonneg]. setoid_rewrite bind_Ok.
  setoid_rewrite invalid_json_Ok. setoid_rewrite ok_or_Ok. setoid_rewrite usize_checked_add_Some.
  naive_solver.
Qed.

(** Round trip: a checkpoint that was encoded under some limits decodes,
    under the same limits and for its own execution, to the same payload. *)
Theorem checkpoint_roundtrip p limits env :
  encode_with_limits p limits = Ok env →
  decode_and_validate env (spec (execution p)) limits = Ok p.
Proof.
  unfold encode_with_limits. rewrite bind_Ok. intros ([] & Hv & H).
  apply bind_Ok in H as (env' & Henc & H). apply bind_Ok in H as ([] & Hs & [= ->]).
  unfold encode in Henc. apply bind_Ok in Henc as (b & Hb%invalid_json_Ok & [= <-]).
  unfold decode_and_validate. cbn [format_version payload]. rewrite Z.eqb_refl. cbn [negb reject_if mbind result_bind].
  rewrite Hs. cbn [mbind result_bind]. rewrite (json_roundtrip _ _ Hb). cbn [invalid_json mbind result_bind].
  unfold validate. rewrite !bool_decide_eq_true_2, Z.eqb_refl by done.
  cbn [negb reject_if mbind result_bind]. by rewrite Hv.
Qed.

Lemma projected_terminal_len_Ok p c o l :
  projected_terminal_len p c o = Ok l →
  ∃ b0 fixed, json_payload (payload_terminal (execution p) o u64_max) = Ok b0 ∧
    json_envelope (mkCheckpointEnvelope CHECKPOINT_FORMAT_VERSION []) = Ok fixed ∧
    (0 ≤ c → b64 (bytes_len b0 + c) ≤ usize_max ∧ l = bytes_len fixed + b64 (bytes_len b0 + c) ∧ l ≤ usize_max).
Proof.
  unfold projected_terminal_len. rewrite bind_Ok. intros (b0 & Hb0%invalid_json_Ok & H).
  apply bind_Ok in H as (inner & Hin%ok_or_Ok%usize_checked_add_Some & H). destruct Hin as [-> _].
  apply bind_Ok in H as (enc & Henc%ok_or_Ok & H).
  apply bind_Ok in H as (el & Hel%envelope_encoded_len_Ok & H).
  apply ok_or_Ok, usize_checked_add_Some in H as [-> Hle].
  destruct Hel as (fixed & Hf & _ & -> & _). cbn [format_version payload] in *.
  exists b0, fixed. split_and!; [done..|]. intros Hc.
  apply encoded_len_Some in Henc as [-> ?]; [|pose proof (bytes_len_nonneg b0); lia].
  change (b64 (bytes_len [])) with 0 in *. split; [done|]. split; lia.
Qed.

Lemma maximum_terminal_Ok p required o :
  o = Succeeded [] ∨ o = FailedWith [] →
  maximum_terminal_encoded_len p = Ok required → 0 ≤ max_terminal_payload_bytes (spec (execution p)) →
  max_terminal_payload_bytes (spec (execution p)) ≤ usize_max ∧
  ∃ l, projected_terminal_len p (b64 (max_terminal_payload_bytes (spec (execution p)))) o = Ok l ∧ l ≤ required.
Proof.
  intros Ho H H0. unfold maximum_terminal_encoded_len in H.
  apply bind_Ok in H as (d & Hd%ok_or_Ok%usize_try_from_Some & H). destruct Hd as [-> Hd].
  apply bind_Ok in H as (c & Hc%ok_or_Ok & H). apply encoded_len_Some in Hc as [-> _]; [|done].
  split; [done|]. cbn [try_fold] in H.
  apply bind_Ok in H as (m1 & H1 & H). apply bind_Ok in H1 as (l1 & Hl1 & [= <-]).
  apply bind_Ok in H as (m2 & H2 & H). apply bind_Ok in H2 as (l2 & Hl2 & [= <-]).
  injection H as <-. destruct Ho as [->| ->]; [exists l1|exists l2]; (split; [done|lia]).
Qed.

Lemma validate_internal_terminal p limits :
  validate_internal p limits = Ok tt →
  ∃ required, maximum_terminal_encoded_len p = Ok required ∧
    required ≤ admitted_max_encoded_checkpoint_bytes (execution p) ≤ max_encoded_bytes limits ∧
    max_encoded_bytes limits ≤ u64_max.
Proof.
  unfold validate_internal. rewrite bind_Ok. intros (c & Hc%ok_or_Ok%u64_try_from_Some & H). destruct Hc as [-> Hc].
  apply bind_Ok in H as ([] & Ha%reject_if_Ok%Z.ltb_ge & H).
  apply bind_Ok in H as (r & Hr & H). apply bind_Ok in H as (r' & Hr'%ok_or_Ok%u64_try_from_Some & H).
  destruct Hr' as [-> _]. apply bind_Ok in H as ([] & Hb%reject_if_Ok%Z.ltb_ge & _).
  exists r. split_and!; done.
Qed.

(** C4. Terminal capacity is reserved: once an active checkpoint is
    acceptable under some limits, every terminal outcome whose payload
    respects the execution's bound can be recorded: it converts, passes
    validation, and its envelope fits both the admitted capacity and the
    limits. An execution is never left unable to finish for lack of room. *)
Theorem terminal_capacity_reserved p limits outcome count :
  validate_internal p limits = Ok tt → is_Some (active_activities p) →
  bytes_len (outcome_payload outcome) ≤ max_terminal_payload_bytes (spec (execution p)) →
  0 ≤ count ≤ u64_max →
  ∃ p' env l, into_terminal p outcome count = Ok p' ∧ encode_with_limits p' limits = Ok env ∧
    envelope_encoded_len env = Ok l ∧ l ≤ admitted_max_encoded_checkpoint_bytes (execution p).
Proof.
  intros Hv Hact Hpay Hcount. pose proof (bytes_len_nonneg (outcome_payload outcome)) as Hnn.
  destruct (validate_internal_terminal _ _ Hv) as (required & Hreq & Hadm & Hmax).
  destruct (maximum_terminal_Ok p required (emptied outcome)) as (Husz & l0 & Hproj & Hl0);
    [destruct outcome; auto|done|lia|].
  apply projected_terminal_len_Ok in Hproj as (b0 & fixed & Hb0 & Hf & Hl).
  set (bound := max_terminal_payload_bytes _) in *.
  destruct Hl as (Hb64 & -> & Hle); [unfold b64; apply Z.mul_nonneg_nonneg; [lia|apply Z.div_pos; lia]|].
  set (p' := payload_terminal (execution p) outcome count).
  destruct (json_total p') as [b Hb].
  pose proof (json_terminal_len _ _ _ _ _ Hcount Hb Hb0) as Hlen.
  pose proof (b64_mono _ _ Hpay) as Hm.
  assert (b64 (bytes_len b) ≤ b64 (bytes_len b0 + b64 bound)) as Hbb by (apply b64_mono; lia).
  set (env := mkCheckpointEnvelope CHECKPOINT_FORMAT_VERSION b).
  assert (envelope_encoded_len env = Ok (bytes_len fixed + b64 (bytes_len b))) as Henv.
  { apply envelope_encoded_len_Ok. exists fixed. cbn [format_version payload env]. split_and!; [done|lia|done|lia]. }
  assert (validate_terminal_outcome outcome bound = Ok tt) as Hvt.
  { unfold validate_terminal_outcome. apply bind_Ok. exists (bytes_len (outcome_payload outcome)).
    rewrite ok_or_Ok, u64_try_from_Some, reject_if_Ok, Z.ltb_ge. unfold usize_max, u64_max in *. split_and!; [done|lia|lia]. }
  exists p', env, (bytes_len fixed + b64 (bytes_len b)). split_and!.
  - unfold into_terminal. rewrite bool_decide_eq_true_2 by done. cbn [negb reject_if mbind result_bind].
    fold bound. by rewrite Hvt.
  - unfold encode_with_limits. apply bind_Ok. exists tt. split.
    + revert Hv. unfold validate_internal. change (execution p') with (execution p).
      change (maximum_terminal_encoded_len p') with (maximum_terminal_encoded_len p). fold bound.
      intros Hv. apply bind_Ok in Hv as (c & Hc & Hv). rewrite Hc. cbn [mbind result_bind] in *.
      apply bind_Ok in Hv as ([] & Hc2 & Hv). rewrite Hc2. cbn [mbind result_bind] in *.
      apply bind_Ok in Hv as (c3 & Hc3 & Hv). rewrite Hc3. cbn [mbind result_bind] in *.
      apply bind_Ok in Hv as (c4 & Hc4 & Hv). rewrite Hc4. cbn [mbind result_bind] in *.
      apply bind_Ok in Hv as ([] & Hc5 & Hv). rewrite Hc5. exact Hvt.
    + unfold encode. rewrite Hb. cbn [invalid_json mbind result_bind]. unfold validate_encoded_size.
      fold env. rewrite Henv. cbn [mbind result_bind].
      apply bind_Ok. exists tt. split; [|done]. apply reject_if_Ok, Z.ltb_ge. lia.
  - done.
  - lia.
Qed.
End laws.

(** ** The laws are satisfiable

    A small self-delimiting encoding, used only to instantiate the
    parameters in the witnesses. *)
Module Demo.

#[local] Instance byte_countable : Countable Byte.byte.
Proof.
  apply (inj_countable Byte.to_N Byte.of_N). intros b. apply Byte.of_to_N.
Defined.

#[local] Instance contract_eq_dec : EqDecision ExecutionContract.
Proof. solve_decision. Defined.
#[local] Instance contract_countable : Countable ExecutionContract.
Proof.
  apply (inj_countable'
    (λ e, (execution_id (spec e), workflow_input (spec e), max_terminal_payload_bytes (spec e),
           admitted_max_encoded_checkpoint_bytes e))
    (λ '(i, w, m, a), mkExecutionContract (mkExecutionSpec i w m) a)).
  by intros [[i w m] a].
Defined.

#[local] Instance record_countable : Countable ActivityRecord.
Proof.
  apply (inj_countable'
    (λ r, (ar_sequence r, (an_name (as_name (ar_spec r)), an_version (as_name (ar_spec r))),
           (as_input (ar_spec r), max_result_bytes (ar_spec r)),
           match ar_state r with
           | ActScheduled => inl None
           | DispatchExposed a => inl (Some (host_epoch a, counter a))
           | ActCompleted b => inr b end))
    (λ '(s, (n, v), (i, m), st), mkActivityRecord s (mkActivitySpec (mkActivityName n v) i m)
       match st with
       | inl None => ActScheduled
       | inl (Some (h, c)) => DispatchExposed (mkAttemptId h c)
       | inr b => ActCompleted b end)).
  by intros [s [[n v] i m] [|[h c]|b]].
Defined.

Fixpoint put (q : positive) : list Byte.byte :=
  match q with
  | xH => [Byte.x02]
  | xO q => Byte.x00 :: put q
  | xI q => Byte.x01 :: put q
  end.

Fixpoint get (b : list Byte.byte) : option (positive * list Byte.byte) :=
  match b with
  | Byte.x02 :: b => Some (xH, b)
  | Byte.x00 :: b => '(q, r) ← get b; Some (xO q, r)
  | Byte.x01 :: b => '(q, r) ← get b; Some (xI q, r)
  | _ => None
  end.

Lemma get_put q r : get (put q ++ r) = Some (q, r).
Proof. induction q as [q IH|q IH|]; simpl; [by rewrite IH..|done]. Qed.

Lemma put_length q : length (put q) = Pos.size_nat q.
Proof. induction q; simpl; lia. Qed.

Definition state_code (s : CheckpointState) : list ActivityRecord + bool * ExactBytes * Z :=
  match s with
  | Active l => inl l
  | Terminal (Succeeded b) n => inr (true, b, n)
  | Terminal (FailedWith b) n => inr (false, b, n)
  end.
Definition state_decode (s : list ActivityRecord + bool * ExactBytes * Z) : CheckpointState :=
  match s with
  | inl l => Active l
  | inr (true, b, n) => Terminal (Succeeded b) n
  | inr (false, b, n) => Terminal (FailedWith b) n
  end.

Definition general (p : CheckpointPayload) : list Byte.byte :=
  Byte.x20 :: put (countable.encode (execution p)) ++ put (countable.encode (state_code (cp_state p))).

Definition terminal_bytes (tag : Byte.byte) (e : ExecutionContract) (b : ExactBytes) (n : Z) : list Byte.byte :=
  tag :: put (countable.encode e) ++ put (Z.to_pos (n + 1)) ++ b.

Definition to_bytes (p : CheckpointPayload) : list Byte.byte :=
  match cp_state p with
  | Terminal o n =>
      if decide (0 ≤ n) then
        terminal_bytes (match o with Succeeded _ => Byte.x10 | FailedWith _ => Byte.x11 end)
          (execution p) (outcome_payload o) n
      else general p
  | Active _ => general p
  end.

Definition from_bytes (b : list Byte.byte) : option CheckpointPayload :=
  match b with
  | tag :: b =>
      '(e, b) ← get b;
      e ← countable.decode e;
      match tag with
      | Byte.x20 => '(s, _) ← get b; s ← countable.decode s; Some (mkCheckpointPayload e (state_decode s))
      | Byte.x10 => '(n, b) ← get b; Some (mkCheckpointPayload e (Terminal (Succeeded b) (Z.pos n - 1)))
      | Byte.x11 => '(n, b) ← get b; Some (mkCheckpointPayload e (Terminal (FailedWith b) (Z.pos n - 1)))
      | _ => None
      end
  | [] => None
  end.

Lemma from_to_bytes p : from_bytes (to_bytes p) = Some p.
Proof.
  assert (from_bytes (general p) = Some p) as Hg.
  { unfold general, from_bytes. rewrite get_put. cbn [mbind option_bind]. rewrite decode_encode.
    cbn [mbind option_bind]. rewrite <-(app_nil_r (put (countable.encode (state_code _)))), get_put.
    cbn [mbind option_bind]. rewrite decode_encode. destruct p as [e [l|[b|b] n]]; done. }
  destruct p as [e [l|o n]]; [exact Hg|]. unfold to_bytes; cbn [cp_state execution].
  case_decide; [|exact Hg]. unfold terminal_bytes, from_bytes. rewrite get_put. cbn [mbind option_bind].
  rewrite decode_encode. cbn [mbind option_bind]. rewrite get_put. cbn [mbind option_bind].
  rewrite Z2Pos.id by lia. destruct o; cbn; repeat f_equal; lia.
Qed.

#[export] Instance demo_encoding : Encoding := {
  json_payload p := Ok (to_bytes p);
  json_parse b := match from_bytes b with Some p => Ok p | None => Err "invalid" end;
  json_envelope env := Ok [];
  encoded_len n := if decide (b64 n ≤ usize_max) then Some (b64 n) else None;
}.

Lemma b64_ge n : 0 ≤ n → n ≤ b64 n.
Proof. unfold b64. intros. pose proof (Z.div_mod (n + 2) 3). pose proof (Z.mod_pos_bound (n + 2) 3). lia. Qed.

#[export] Instance demo_laws : EncodingLaws.
Proof.
  split; cbn [json_payload json_parse encoded_len demo_encoding].
  - eauto.
  - intros p b [= <-]. by rewrite from_to_bytes.
  - done.
  - intros e o n b b0 Hn [= <-] [= <-]. unfold to_bytes, payload_terminal; cbn [cp_state execution].
    rewrite !decide_True by (unfold u64_max; lia). unfold terminal_bytes, bytes_len. simpl.
    rewrite !length_app, !put_length. pose proof (b64_ge (Z.of_nat (length (outcome_payload o)))).
    assert (Pos.size_nat (Z.to_pos (n + 1)) ≤ Pos.size_nat (Z.to_pos (u64_max + 1)))%nat.
    { destruct (decide (n = u64_max)) as [->|]; [done|]. apply Pos.size_nat_monotone.
      change (Z.pos (Z.to_pos (n + 1)) < Z.pos (Z.to_pos (u64_max + 1))).
      unfold u64_max in *. rewrite !Z2Pos.id by lia. lia. }
    destruct o; simpl in *; lia.
Qed.

Definition demo_contract : ExecutionContract := mkExecutionContract (mkExecutionSpec [Byte.x01] [Byte.x05] 4) 4096.
Definition demo_payload : CheckpointPayload :=
  payload_active demo_contract [record_scheduled 0 (mkActivitySpec (mkActivityName "a" 1) [] 8)].
Definition demo_limits : CheckpointLimits := mkCheckpointLimits 10 8192.
End Demo.

Lemma checkpoint_roundtrip_witness :
  ∃ env, encode_with_limits (Enc := Demo.demo_encoding) Demo.demo_payload Demo.demo_limits = Ok env ∧
    decode_and_validate (Enc := Demo.demo_encoding) env (spec Demo.demo_contract) Demo.demo_limits = Ok Demo.demo_payload.
Proof.
  destruct (encode_with_limits (Enc := Demo.demo_encoding) Demo.demo_payload Demo.demo_limits) as [env|e] eqn:He.
  - exists env. split; [reflexivity|]. exact (checkpoint_roundtrip (Laws := Demo.demo_laws) _ _ _ He).
  - exfalso. vm_compute in He. discriminate He.
Defined.

Lemma terminal_capacity_reserved_witness :
  ∃ p' env l, into_terminal Demo.demo_payload (Succeeded [Byte.x00; Byte.x01]) 1 = Ok p' ∧
    encode_with_limits (Enc := Demo.demo_encoding) p' Demo.demo_limits = Ok env ∧
    envelope_encoded_len (Enc := Demo.demo_encoding) env = Ok l ∧ l ≤ 4096.
Proof.
  apply (terminal_capacity_reserved (Laws := Demo.demo_laws) Demo.demo_payload Demo.demo_limits).
  - vm_compute. reflexivity.
  - vm_compute. eauto.
  - vm_compute. discriminate.
  - vm_compute. split; discriminate.
Defined.
