(* ===== verification/Replay.v ===== *)
(** Deterministic replay (durable-execution/src/replay.rs and the replay
    context of workflow.rs): one poll of a workflow body against a recorded
    history. *)

From S2P Require Import Prelude Types Identity Checkpoint.

Set Default Goal Selector "!".

Inductive Nondeterminism :=
| ActivityMismatch (sequence : ActivitySequence) (recorded requested : ActivitySpec)
| UnusedHistory (consumed remaining : Z)
| UnsupportedSuspension.

Inductive ContextDecision :=
| Schedule (sequence : ActivitySequence) (s : ActivitySpec) (id : LogicalActivityId)
| ExistingPending (id : LogicalActivityId) (st : ActivityState)
| DecNondeterminism (n : Nondeterminism).

(** [WorkflowContext]. *)
Record Context := mkContext {
  ctx_execution_id : ExecutionId;
  history : list ActivityRecord;
  cursor : nat;
  decision : option ContextDecision;
}.
#[export] Instance eta_Context : Settable Context :=
  {| eta_record r := mkContext (ctx_execution_id r) (history r) (cursor r) (decision r) |}.

Definition context_new (id : ExecutionId) (h : list ActivityRecord) : Context := mkContext id h 0 None.

(** [Poll<ExactBytes>] as an option, with the context it leaves. *)
Definition poll_activity (s : ActivitySpec) (c : Context) : option ExactBytes * Context :=
  match decision c with
  | Some _ => (None, c)
  | None =>
      let sequence := Z.of_nat (cursor c) in
      let requested_id := mkLogicalActivityId (ctx_execution_id c) sequence s in
      match history c !! cursor c with
      | None => (None, c <| decision := Some (Schedule sequence s requested_id) |>)
      | Some record =>
          if decide (ar_spec record ≠ s) then
            (None, c <| decision := Some (DecNondeterminism (ActivityMismatch sequence (ar_spec record) s)) |>)
          else
            match ar_state record with
            | ActCompleted res => (Some res, c <| cursor ::= S |>)
            | st => (None, c <| decision := Some (ExistingPending requested_id st) |>)
            end
      end
  end.

(** What a workflow body can do in one poll: finish, suspend on something
    else, or poll an activity and go on with the outcome. A body that only
    awaits suspends where an activity is pending; one that races or joins
    futures may go on. *)
Inductive body :=
| Ready (outcome : TerminalOutcome)
| Suspended
| PollActivity (s : ActivitySpec) (ready : ExactBytes → body) (pending : body).

(** An implementation of [Workflow]: its body for an execution and input. *)
Abbreviation Workflow := (ExecutionId → ExactBytes → body) (only parsing).

Fixpoint poll_body (b : body) (c : Context) : option TerminalOutcome * Context :=
  match b with
  | Ready o => (Some o, c)
  | Suspended => (None, c)
  | PollActivity s ready pending =>
      match poll_activity s c with
      | (Some res, c) => poll_body (ready res) c
      | (None, c) => poll_body pending c
      end
  end.

Inductive Evaluation :=
| EvScheduled (activity : LogicalActivityId) (checkpoint : CheckpointEnvelope)
| EvPending (activity : LogicalActivityId) (st : ActivityState)
| EvComplete (outcome : TerminalOutcome) (completed_activity_count : Z) (checkpoint : CheckpointEnvelope)
| EvTerminal (outcome : TerminalOutcome) (completed_activity_count : Z)
| EvNondeterminism (n : Nondeterminism)
| EvCheckpointRejected (e : CheckpointError)
| EvWorkflowStalled.

Section replay.
  Context {Enc : Encoding}.

(** The payload to replay: the decoded checkpoint, or a new execution's. *)
Definition load_payload (execution : ExecutionSpec) (checkpoint : option CheckpointEnvelope)
    (limits : CheckpointLimits) : result CheckpointError CheckpointPayload :=
  match checkpoint with
  | Some envelope => decode_and_validate envelope execution limits
  | None =>
      admitted ← ok_or (u64_try_from (max_encoded_bytes limits)) EncodedLengthOverflow;
      let p := payload_active (mkExecutionContract execution admitted) [] in
      validate p execution limits;;
      Ok p
  end.

Definition evaluate (workflow : Workflow) (execution : ExecutionSpec)
    (checkpoint : option CheckpointEnvelope) (limits : CheckpointLimits) : Evaluation :=
  match load_payload execution checkpoint limits with
  | Err e => EvCheckpointRejected e
  | Ok p =>
      match cp_state p with
      | Terminal outcome count => EvTerminal outcome count
      | Active h =>
          let '(poll, context) :=
            poll_body (workflow (execution_id execution) (workflow_input execution))
              (context_new (execution_id execution) h) in
          match decision context with
          | Some (Schedule sequence s id) =>
              match encode_with_limits (map_activities (λ l, l ++ [record_scheduled sequence s]) p) limits with
              | Ok checkpoint => EvScheduled id checkpoint
              | Err e => EvCheckpointRejected e
              end
          | Some (ExistingPending id st) => EvPending id st
          | Some (DecNondeterminism e) => EvNondeterminism e
          | None =>
              match poll with
              | Some outcome =>
                  if decide (cursor context ≠ length h) then
                    EvNondeterminism (UnusedHistory (Z.of_nat (cursor context))
                      (Z.of_nat (length h) - Z.of_nat (cursor context)))
                  else
                    match encode_with_limits p limits with
                    | Ok checkpoint => EvComplete outcome (Z.of_nat (cursor context)) checkpoint
                    | Err e => EvCheckpointRejected e
                    end
              | None => EvWorkflowStalled
              end
          end
      end
  end.

End replay.

(** ** The reference semantics of a poll

    [drive b results] runs the body alone, answering its activities from a
    list of results: the activities it asked for, the results left, and where
    it stopped. *)

Inductive stop :=
| Finished (o : TerminalOutcome)
| Waits (s : ActivitySpec)
| Stuck.

Fixpoint drive (b : body) (results : list ExactBytes) : list ActivitySpec * list ExactBytes * stop :=
  match b with
  | Ready o => ([], results, Finished o)
  | Suspended => ([], results, Stuck)
  | PollActivity s ready _ =>
      match results with
      | [] => ([], [], Waits s)
      | r :: results =>
          let '(asked, rest, st) := drive (ready r) results in (s :: asked, rest, st)
      end
  end.

(** A history that records, for each activity asked for, its result. *)
Fixpoint completed_from (n : nat) (specs : list ActivitySpec) (results : list ExactBytes) : list ActivityRecord :=
  match specs, results with
  | s :: specs, r :: results => record_completed (Z.of_nat n) s r :: completed_from (S n) specs results
  | _, _ => []
  end.

(** After a decision the context answers nothing and does not move. *)
Lemma poll_decided b c d : decision c = Some d → (poll_body b c).2 = c.
Proof.
  revert c. induction b as [o| |s ready IHr pending IHp]; intros c Hd; simpl; [done|done|].
  unfold poll_activity. rewrite Hd. by apply IHp.
Qed.

(** The result of the completed record at a position. *)
Definition result_at (h : list ActivityRecord) (i : nat) : option ExactBytes :=
  r ← h !! i; match ar_state r with ActCompleted res => Some res | _ => None end.

(** One poll consumes a prefix of the history, and the body alone, fed with
    the results of that prefix, asks for exactly the recorded activities. *)
Lemma poll_body_drive b c :
  decision c = None →
  let '(poll, c') := poll_body b c in
  ctx_execution_id c' = ctx_execution_id c ∧ history c' = history c ∧ (cursor c ≤ cursor c')%nat ∧
  ∃ specs results,
    (cursor c' = cursor c + length results)%nat ∧ length specs = length results ∧
    (∀ i s r, specs !! i = Some s → results !! i = Some r →
       ∃ rec, history c !! (cursor c + i)%nat = Some rec ∧ ar_spec rec = s ∧ ar_state rec = ActCompleted r) ∧
    match decision c' with
    | None =>
        match poll with
        | Some o => drive b results = (specs, [], Finished o)
        | None => drive b results = (specs, [], Stuck)
        end
    | Some (Schedule sequence s id) =>
        drive b results = (specs, [], Waits s) ∧ sequence = Z.of_nat (cursor c') ∧
        id = mkLogicalActivityId (ctx_execution_id c) sequence s ∧ history c !! cursor c' = None
    | Some (ExistingPending id st) =>
        ∃ rec, drive b results = (specs, [], Waits (ar_spec rec)) ∧
          history c !! cursor c' = Some rec ∧ ar_state rec = st ∧ (∀ res, st ≠ ActCompleted res) ∧
          id = mkLogicalActivityId (ctx_execution_id c) (Z.of_nat (cursor c')) (ar_spec rec)
    | Some (DecNondeterminism n) =>
        ∃ s rec, drive b results = (specs, [], Waits s) ∧ history c !! cursor c' = Some rec ∧
          ar_spec rec ≠ s ∧ n = ActivityMismatch (Z.of_nat (cursor c')) (ar_spec rec) s
    end.
Proof.
  revert c. induction b as [o| |s ready IHr pending IHp]; intros c Hd.
  - simpl. split_and!; [done..|]. exists [], []. rewrite Hd. split_and!; [simpl; lia|done| |done].
    intros i s r. by rewrite lookup_nil.
  - simpl. split_and!; [done..|]. exists [], []. rewrite Hd. split_and!; [simpl; lia|done| |done].
    intros i s r. by rewrite lookup_nil.
  - assert (∀ d, poll_body pending (c <| decision := Some d |>) =
      ((poll_body pending (c <| decision := Some d |>)).1, c <| decision := Some d |>)) as Hstop.
    { intros d. pose proof (poll_decided pending (c <| decision := Some d |>) d eq_refl) as H.
      destruct (poll_body pending (c <| decision := Some d |>)). simpl in H. by rewrite H. }
    cbn [poll_body]. unfold poll_activity. rewrite Hd.
    destruct (history c !! cursor c) as [rec|] eqn:Hrec.
    2: { rewrite Hstop. split_and!; [done..|]. exists [], [].
         split_and!; [simpl; lia|done|intros i s' r; by rewrite lookup_nil|]. by split_and!. }
    case_decide as Hspec.
    { rewrite Hstop. split_and!; [done..|]. exists [], [].
      split_and!; [simpl; lia|done|intros i s' r; by rewrite lookup_nil|]. exists s, rec. by split_and!. }
    destruct (ar_state rec) as [|a|res] eqn:Hst.
    1,2: rewrite Hstop; (split_and!; [done..|]); exists [], [];
      (split_and!; [simpl; lia|done|intros i s' r; by rewrite lookup_nil|]);
      exists rec; rewrite Hspec; by split_and!.
    set (c1 := c <| cursor ::= S |>) in *. specialize (IHr res c1 Hd). destruct (poll_body (ready res) c1) as [poll c'].
    subst c1.
    cbn [ctx_execution_id history cursor] in IHr. unfold over in IHr; simpl in IHr.
    destruct IHr as (E1 & E2 & E3 & specs & results & Hcur & Hlen & Hall & Hdec).
    split_and!; [done|done|lia|]. exists (s :: specs), (res :: results).
    split_and!; [simpl; lia|simpl; lia| |].
    + intros [|i] s' r'; simpl.
      * intros [= <-] [= <-]. exists rec. by rewrite Nat.add_0_r.
      * intros Hs Hr. replace (cursor c + S i)%nat with (S (cursor c) + i)%nat by lia. by apply Hall.
    + cbn [drive]. destruct (decision c') as [[sq s' id|id st|n]|].
      * destruct Hdec as (-> & Hdec). by split.
      * destruct Hdec as (rec' & -> & Hdec). exists rec'. by split.
      * destruct Hdec as (s' & rec' & -> & Hdec). exists s', rec'. by split.
      * destruct poll; by rewrite Hdec.
Qed.

(** ** Histories of completed activities *)

Lemma completed_lookup n specs results i r :
  completed_from n specs results !! i = Some r →
  ∃ s res, specs !! i = Some s ∧ results !! i = Some res ∧ r = record_completed (Z.of_nat (n + i)) s res.
Proof.
  revert n results i. induction specs as [|s specs IH]; intros n [|res results] [|i]; simpl; try done.
  - intros [= <-]. exists s, res. by rewrite Nat.add_0_r.
  - intros (s' & r' & ? & ? & ->)%IH. exists s', r'. split_and!; [done..|]. do 2 f_equal. lia.
Qed.

Lemma completed_length n specs results :
  length specs = length results → length (completed_from n specs results) = length results.
Proof.
  revert n results. induction specs as [|s specs IH]; intros n [|res results]; simpl; try done.
  intros [= Hl]. by rewrite IH.
Qed.

(** A history whose records all carry their index, the given activities and
    their results is [completed_from]. *)
Lemma completed_eq h specs results :
  length h = length results → length specs = length results →
  (∀ i s r, specs !! i = Some s → results !! i = Some r →
     ∃ rec, h !! i = Some rec ∧ ar_spec rec = s ∧ ar_state rec = ActCompleted r) →
  (∀ i rec, h !! i = Some rec → ar_sequence rec = Z.of_nat i) →
  h = completed_from 0 specs results.
Proof.
  intros Hh Hs Hrec Hseq. apply list_eq_same_length with (length results);
    [by rewrite completed_length|done|].
  intros i x y Hi Hx Hy. apply completed_lookup in Hy as (s & r & Hsi & Hri & ->).
  destruct (Hrec i s r Hsi Hri) as (rec & Hrec' & <- & Hst). rewrite Hx in Hrec'. injection Hrec' as <-.
  specialize (Hseq i x Hx). destruct x as [sq sp st]. simpl in *. by subst.
Qed.

Lemma validate_from_sequence count n activities i r :
  validate_from count n activities = Ok tt → activities !! i = Some r → ar_sequence r = n + Z.of_nat i.
Proof.
  revert n i. induction activities as [|x xs IH]; intros n [|i]; simpl; try done;
    rewrite bind_Ok; intros ([] & Hx & Hxs).
  - intros [= <-]. unfold validate_record in Hx. apply bind_Ok in Hx as (e & He%ok_or_Ok%u64_try_from_Some & Hx).
    destruct He as [-> _]. apply bind_Ok in Hx as ([] & Hx%reject_if_Ok & _).
    apply negb_false_iff, Z.eqb_eq in Hx. lia.
  - intros Hi. rewrite (IH _ _ Hxs Hi). lia.
Qed.

Lemma validate_from_pending count n activities i r :
  validate_from count n activities = Ok tt → activities !! i = Some r →
  (∀ res, ar_state r ≠ ActCompleted res) → n + Z.of_nat i + 1 = count.
Proof.
  revert n i. induction activities as [|x xs IH]; intros n [|i]; simpl; try done;
    rewrite bind_Ok; intros ([] & Hx & Hxs).
  - intros [= <-] Hst. unfold validate_record in Hx. apply bind_Ok in Hx as (e & _ & Hx).
    apply bind_Ok in Hx as ([] & _ & Hx).
    destruct (ar_state x); [..|by destruct (Hst res)];
      apply reject_if_Ok, negb_false_iff, Z.eqb_eq in Hx; lia.
  - intros Hi Hst. pose proof (IH _ _ Hxs Hi Hst). lia.
Qed.

Definition all_completed (h : list ActivityRecord) : Prop :=
  Forall (λ r, ∃ res, ar_state r = ActCompleted res) h.

Lemma completed_all n specs results : all_completed (completed_from n specs results).
Proof.
  revert n results. induction specs as [|s specs IH]; intros n [|r results]; simpl; [constructor..|].
  constructor; [by exists r|apply IH].
Qed.

Section replay_theorems.
  Context {Enc : Encoding}.

Lemma validate_history p execution limits h :
  validate p execution limits = Ok tt → cp_state p = Active h → validate_active_history h = Ok tt.
Proof.
  unfold validate, validate_internal. intros Hv Hst. apply bind_Ok in Hv as ([] & _ & Hv).
  apply bind_Ok in Hv as ([] & _ & Hv). apply bind_Ok in Hv as ([] & _ & Hv).
  apply bind_Ok in Hv as (a & _ & Hv). apply bind_Ok in Hv as ([] & _ & Hv). apply bind_Ok in Hv as (b & _ & Hv).
  apply bind_Ok in Hv as (b' & _ & Hv). apply bind_Ok in Hv as ([] & _ & Hv). rewrite Hst in Hv.
  by apply bind_Ok in Hv as ([] & _ & Hv).
Qed.

Lemma load_payload_active execution checkpoint limits p h :
  load_payload execution checkpoint limits = Ok p → cp_state p = Active h →
  validate p execution limits = Ok tt ∧ ∀ i r, h !! i = Some r → ar_sequence r = Z.of_nat i.
Proof.
  intros Hl Hst. assert (validate p execution limits = Ok tt) as Hv.
  { destruct checkpoint as [env|]; simpl in Hl.
    - unfold decode_and_validate in Hl. apply bind_Ok in Hl as ([] & _ & Hl). apply bind_Ok in Hl as ([] & _ & Hl).
      apply bind_Ok in Hl as (p' & _ & Hl). by apply bind_Ok in Hl as ([] & Hv & [= <-]).
    - apply bind_Ok in Hl as (a & _ & Hl). by apply bind_Ok in Hl as ([] & Hv & [= <-]). }
  split; [done|]. intros i r Hi. pose proof (validate_history _ _ _ _ Hv Hst) as Hh.
  by eapply validate_from_sequence in Hh.
Qed.

(** What each report says of the payload that was replayed: a new activity is
    appended, a pending one is the last record, an outcome ends a history. *)
Lemma evaluate_report (workflow : Workflow) execution checkpoint limits :
  match evaluate workflow execution checkpoint limits with
  | EvScheduled id env => ∃ p h s,
      load_payload execution checkpoint limits = Ok p ∧ cp_state p = Active h ∧ all_completed h ∧
      id = mkLogicalActivityId (execution_id execution) (Z.of_nat (length h)) s ∧
      encode_with_limits (payload_active (Checkpoint.execution p)
        (h ++ [record_scheduled (Z.of_nat (length h)) s])) limits = Ok env
  | EvPending id st => ∃ p h r,
      load_payload execution checkpoint limits = Ok p ∧ cp_state p = Active (h ++ [r]) ∧
      ar_state r = st ∧ (∀ res, st ≠ ActCompleted res) ∧ ar_sequence r = Z.of_nat (length h) ∧
      id = logical_id r (execution_id execution)
  | EvComplete o n env => ∃ p h,
      load_payload execution checkpoint limits = Ok p ∧ cp_state p = Active h ∧ all_completed h ∧
      n = Z.of_nat (length h) ∧
      encode_with_limits p limits = Ok env
  | EvTerminal o n => ∃ p,
      load_payload execution checkpoint limits = Ok p ∧ cp_state p = Terminal o n
  | _ => True
  end.
Proof.
  unfold evaluate. destruct (load_payload execution checkpoint limits) as [p|e] eqn:Hload; [|done].
  destruct (cp_state p) as [h|o n] eqn:Hst; [|by exists p].
  destruct (load_payload_active _ _ _ _ _ Hload Hst) as [Hval Hseq].
  pose proof (validate_history _ _ _ _ Hval Hst) as Hhist.
  pose proof (poll_body_drive (workflow (execution_id execution) (workflow_input execution))
    (context_new (execution_id execution) h) eq_refl) as Hpoll.
  destruct (poll_body _ _) as [poll c]. destruct Hpoll as (_ & _ & _ & specs & results & Hcur & Hlen & Hrec & Hdec).
  simpl in Hcur, Hrec, Hdec.
  assert (cursor c = length h → all_completed h) as Hall.
  { intros Hc. rewrite (completed_eq h specs results); [apply completed_all|congruence|done..]. }
  destruct (decision c) as [[sq s id|id st|n]|]; [| |done|].
  - destruct Hdec as (_ & -> & -> & Hnone).
    assert (cursor c = length h) as Hc.
    { apply lookup_ge_None in Hnone. destruct (decide (length results = 0)%nat) as [|Hnz]; [lia|].
      destruct (lookup_lt_is_Some_2 specs (pred (length results))) as [s1 Hs1]; [lia|].
      destruct (lookup_lt_is_Some_2 results (pred (length results))) as [r1 Hr1]; [lia|].
      destruct (Hrec _ _ _ Hs1 Hr1) as (rec & Hr & _). apply lookup_lt_Some in Hr. lia. }
    rewrite Hc. destruct (encode_with_limits _ limits) as [env|e] eqn:Henc; [|done].
    exists p, h, s. split_and!; [done|done|by apply Hall|done|]. unfold map_activities in Henc. by rewrite Hst in Henc.
  - destruct Hdec as (r & _ & Hr & <- & Hnc & ->).
    pose proof (validate_from_pending _ _ _ _ _ Hhist Hr Hnc) as Hlast.
    pose proof (Hseq _ _ Hr) as Hsq.
    destruct h as [|x h' _] using rev_ind; [by rewrite lookup_nil in Hr|].
    rewrite length_app in Hlast. simpl in Hlast.
    assert (cursor c = length h') as Hc by lia. rewrite Hc, lookup_app_r, Nat.sub_diag in Hr by lia.
    injection Hr as ->. exists p, h', r. split_and!; [done..|congruence|]. unfold logical_id. by rewrite Hsq.
  - destruct poll as [o|]; [|done]. case_decide as Hc; [done|].
    destruct (encode_with_limits p limits) eqn:Henc; [|done]. exists p, h. split_and!; [done|done|by apply Hall|lia|done].
Qed.

(** C5. What an evaluation reports is what the workflow did. When it
    completes, the history is exactly the sequence of activities the body
    asks for when it is fed their recorded results, all of it was consumed,
    and the outcome is the body's. When it schedules, the history is what the
    body asked for so far, the new activity is the one it asks for next, at
    the next position, and the accepted checkpoint decodes to the history
    with that one record added. *)
Theorem evaluation_sound {Laws : EncodingLaws} (workflow : Workflow) execution checkpoint limits :
  let b := workflow (execution_id execution) (workflow_input execution) in
  match evaluate workflow execution checkpoint limits with
  | EvComplete o n env =>
      ∃ p specs results, load_payload execution checkpoint limits = Ok p ∧
        cp_state p = Active (completed_from 0 specs results) ∧ n = Z.of_nat (length results) ∧
        drive b results = (specs, [], Finished o)
  | EvScheduled id env =>
      ∃ p specs results s, load_payload execution checkpoint limits = Ok p ∧
        cp_state p = Active (completed_from 0 specs results) ∧
        drive b results = (specs, [], Waits s) ∧
        id = mkLogicalActivityId (execution_id execution) (Z.of_nat (length results)) s ∧
        decode_and_validate env (spec (Checkpoint.execution p)) limits =
          Ok (payload_active (Checkpoint.execution p)
                (completed_from 0 specs results ++ [record_scheduled (Z.of_nat (length results)) s]))
  | _ => True
  end.
Proof.
  intros b. unfold evaluate. destruct (load_payload execution checkpoint limits) as [p|e] eqn:Hload; [|done].
  destruct (cp_state p) as [h|o n] eqn:Hst; [|done].
  destruct (load_payload_active _ _ _ _ _ Hload Hst) as [_ Hseq].
  pose proof (poll_body_drive b (context_new (execution_id execution) h) eq_refl) as Hpoll.
  fold b. destruct (poll_body b _) as [poll c]. destruct Hpoll as (_ & _ & _ & specs & results & Hcur & Hlen & Hrec & Hdec).
  simpl in Hcur, Hrec, Hdec.
  destruct (decision c) as [[sq s id|id st|n]|]; [|done|done|].
  - destruct Hdec as (Hdrive & -> & -> & Hnone).
    assert (h = completed_from 0 specs results) as Hh.
    { apply completed_eq; [|done..]. apply lookup_ge_None in Hnone.
      destruct (decide (length h = length results)) as [|Hne]; [done|]. exfalso.
      assert (length results ≤ length h)%nat; [|lia].
      destruct (decide (length results = 0)%nat) as [->|Hnz]; [lia|].
      destruct (lookup_lt_is_Some_2 specs (pred (length results))) as [s1 Hs1]; [lia|].
      destruct (lookup_lt_is_Some_2 results (pred (length results))) as [r1 Hr1]; [lia|].
      destruct (Hrec _ _ _ Hs1 Hr1) as (rec & Hr & _). apply lookup_lt_Some in Hr. lia. }
    destruct (encode_with_limits _ limits) as [env|e] eqn:Henc; [|done].
    exists p, specs, results, s. split_and!; [done|by rewrite Hst, Hh|done|by rewrite Hcur|].
    apply checkpoint_roundtrip in Henc. unfold map_activities in Henc. rewrite Hst in Henc. simpl in Henc.
    rewrite Henc, Hh, Hcur. done.
  - destruct poll as [o|]; [|done]. case_decide as Hc; [done|].
    assert (h = completed_from 0 specs results) as Hh.
    { apply completed_eq; [congruence|done..]. }
    destruct (encode_with_limits p limits); [|done].
    exists p, specs, results. split_and!; [done|by rewrite Hst, Hh|by rewrite Hcur|done].
Qed.

(** The converse of [poll_body_drive] on a history of completed records. *)
Lemma poll_body_completed b id pre specs results asked rest st :
  drive b results = (asked, rest, st) →
  specs = asked ++ drop (length asked) specs → length specs = length results →
  let h := pre ++ completed_from (length pre) specs results in
  let '(poll, c) := poll_body b (mkContext id h (length pre) None) in
  cursor c = (length pre + length asked)%nat ∧
  match st with
  | Finished o => poll = Some o ∧ decision c = None
  | Stuck => poll = None ∧ decision c = None
  | Waits s => rest = [] ∧
      decision c = Some (Schedule (Z.of_nat (length h)) s (mkLogicalActivityId id (Z.of_nat (length h)) s)) ∧
      length h = (length pre + length asked)%nat
  end.
Proof.
  revert pre specs results asked. induction b as [o| |s ready IHr pending IHp]; intros pre specs results asked Hd Hs Hlen h.
  - injection Hd as <- <- <-. simpl. split; [lia|done].
  - injection Hd as <- <- <-. simpl. split; [lia|done].
  - cbn [drive] in Hd. destruct results as [|r results].
    + injection Hd as <- <- <-. destruct specs; [|done].
      assert (length h = length pre) as Hh by (subst h; simpl; by rewrite app_nil_r).
      cbn [poll_body]. unfold poll_activity. cbn [decision history cursor].
      rewrite lookup_ge_None_2 by lia. set (c1 := (mkContext _ _ _ _) <| decision := _ |>).
      pose proof (poll_decided pending c1 _ eq_refl) as Hc.
      destruct (poll_body pending c1) as [poll c]. simpl in Hc. subst c.
      subst c1. simpl. unfold over; simpl. rewrite Hh. split_and!; done || lia.
    + destruct (drive (ready r) results) as [[asked' rest'] st'] eqn:Hd'. injection Hd as <- -> ->.
      destruct specs as [|s' specs]; [done|]. injection Hs as -> Hs. injection Hlen as Hlen.
      specialize (IHr r (pre ++ [record_completed (Z.of_nat (length pre)) s r]) specs results asked' Hd' Hs Hlen).
      rewrite length_app in IHr. cbn [length] in IHr.
      replace (length pre + 1)%nat with (S (length pre)) in IHr by lia.
      assert ((pre ++ [record_completed (Z.of_nat (length pre)) s r]) ++ completed_from (S (length pre)) specs results = h)
        as Heq by (subst h; by rewrite <-app_assoc).
      rewrite Heq in IHr. clearbody h. cbn [poll_body]. unfold poll_activity. cbn [decision history cursor].
      assert (h !! length pre = Some (record_completed (Z.of_nat (length pre)) s r)) as ->.
      { rewrite <-Heq, <-app_assoc. by rewrite lookup_app_r, Nat.sub_diag by lia. }
      cbn [ar_spec ar_state record_completed]. rewrite decide_False by (intros []; done).
      change ((mkContext id h (length pre) None) <| cursor ::= S |>) with (mkContext id h (S (length pre)) None).
      destruct (poll_body (ready r) _) as [poll c]. cbv zeta in IHr. cbn [length].
      replace (length pre + S (length asked'))%nat with (S (length pre) + length asked')%nat by lia. exact IHr.
Qed.

(** Replay is faithful and complete: on a recorded history of completed
    activities whose first records are what the body asks for, evaluation
    depends on nothing but the body and the recorded results. If the body
    consumes the whole history the evaluation finishes with its outcome,
    schedules the activity it asks for next, or reports that it stalled; a
    body that finishes early is reported as nondeterministic, with the number
    of records it left. *)
Theorem evaluation_complete (workflow : Workflow) execution checkpoint limits p specs results asked rest st :
  load_payload execution checkpoint limits = Ok p →
  cp_state p = Active (completed_from 0 specs results) → length specs = length results →
  drive (workflow (execution_id execution) (workflow_input execution)) results = (asked, rest, st) →
  specs = asked ++ drop (length asked) specs →
  evaluate workflow execution checkpoint limits =
    match st with
    | Stuck => EvWorkflowStalled
    | Waits s =>
        let n := Z.of_nat (length results) in
        match encode_with_limits (payload_active (Checkpoint.execution p)
                (completed_from 0 specs results ++ [record_scheduled n s])) limits with
        | Ok env => EvScheduled (mkLogicalActivityId (execution_id execution) n s) env
        | Err e => EvCheckpointRejected e
        end
    | Finished o =>
        if decide (length asked = length results) then
          match encode_with_limits p limits with
          | Ok env => EvComplete o (Z.of_nat (length results)) env
          | Err e => EvCheckpointRejected e
          end
        else EvNondeterminism (UnusedHistory (Z.of_nat (length asked))
               (Z.of_nat (length results) - Z.of_nat (length asked)))
    end.
Proof.
  intros Hload Hst Hlen Hd Hs. unfold evaluate. rewrite Hload, Hst.
  pose proof (poll_body_completed _ (execution_id execution) [] specs results asked rest st Hd Hs Hlen) as H.
  cbn [app length] in H. unfold context_new. destruct (poll_body _ _) as [poll c].
  destruct H as [Hcur H]. rewrite completed_length in * by done. destruct st as [o|s|].
  - destruct H as [-> ->]. rewrite Hcur. simpl. destruct (decide (length asked = length results)) as [Heq|Hne].
    + rewrite Heq, decide_False; [done|]. by intros [].
    + by rewrite decide_True.
  - destruct H as (_ & -> & _). unfold map_activities. rewrite Hst. reflexivity.
  - by destruct H as [-> ->].
Qed.
End replay_theorems.

(** A workflow of two activities, the second fed with the first's result. *)
Module DemoWorkflow.
Definition first : ActivitySpec := mkActivitySpec (mkActivityName "first" 1) [] 8.
Definition second (b : ExactBytes) : ActivitySpec := mkActivitySpec (mkActivityName "second" 1) b 8.
Definition workflow : Workflow := λ _ _,
  PollActivity first (λ r, PollActivity (second r) (λ r', Ready (Succeeded r')) Suspended) Suspended.
Definition execution : ExecutionSpec := mkExecutionSpec [Byte.x01] [Byte.x05] 4.
Definition history1 : list ActivityRecord := completed_from 0 [first] [[Byte.x07]].
Definition payload1 : CheckpointPayload := payload_active (mkExecutionContract execution 4096) history1.
Definition envelope1 : CheckpointEnvelope := mkCheckpointEnvelope 3 (Demo.to_bytes payload1).
End DemoWorkflow.

Lemma evaluation_complete_witness :
  ∃ env, evaluate (Enc := Demo.demo_encoding) DemoWorkflow.workflow DemoWorkflow.execution
      (Some DemoWorkflow.envelope1) Demo.demo_limits =
    EvScheduled (mkLogicalActivityId [Byte.x01] 1 (DemoWorkflow.second [Byte.x07])) env.
Proof.
  rewrite (evaluation_complete (Enc := Demo.demo_encoding) DemoWorkflow.workflow DemoWorkflow.execution _ _
    DemoWorkflow.payload1 [DemoWorkflow.first] [[Byte.x07]] [DemoWorkflow.first] []
    (Waits (DemoWorkflow.second [Byte.x07]))); [|vm_compute; reflexivity|reflexivity..].
  eexists. vm_compute. reflexivity.
Defined.

Lemma evaluation_sound_witness :
  match evaluate (Enc := Demo.demo_encoding) DemoWorkflow.workflow DemoWorkflow.execution
      (Some DemoWorkflow.envelope1) Demo.demo_limits with
  | EvScheduled id _ => la_spec id = DemoWorkflow.second [Byte.x07] ∧ la_sequence id = 1
  | _ => False
  end.
Proof.
  pose proof (evaluation_sound (Enc := Demo.demo_encoding) (Laws := Demo.demo_laws)
    DemoWorkflow.workflow DemoWorkflow.execution (Some DemoWorkflow.envelope1) Demo.demo_limits) as H.
  destruct (evaluate (Enc := Demo.demo_encoding) _ _ _ _) as [id env| | | | | |] eqn:He; try (vm_compute in He; discriminate He).
  destruct H as (p & specs & results & s & _ & _ & _ & Hid & _).
  vm_compute in He. injection He as He _. rewrite <-He. split; reflexivity.
Defined.
