(* ===== verification/Store.v ===== *)
(** The checkpoint store (durable-execution/src/store.rs): what the host
    relies on, as a specification of one compare-and-swap; and the in-memory
    store (in_memory.rs), which implements it, faults included. *)

From S2P Require Import Prelude Types Identity Checkpoint.

Set Default Goal Selector "!".

(** [StorageRevision] wraps a nonempty provider token. *)
Abbreviation StorageRevision := string (only parsing).

Inductive StoreErrorKind := Authorization | Unavailable | Timeout | MalformedResponse | OtherError.
#[export] Instance StoreErrorKind_eq_dec : EqDecision StoreErrorKind.
Proof. solve_decision. Defined.

Definition store_error_kind_to_string (k : StoreErrorKind) : string :=
  match k with
  | Authorization => "authorization"
  | Unavailable => "unavailable or transport"
  | Timeout => "timeout"
  | MalformedResponse => "malformed response"
  | OtherError => "other"
  end.

Record StoreError := mkStoreError { se_kind : StoreErrorKind; se_description : string }.
#[export] Instance StoreError_eq_dec : EqDecision StoreError.
Proof. solve_decision. Defined.

Definition storage_revision_new (value : string) : result StoreError StorageRevision :=
  reject_if (bool_decide (value = ""))
    (mkStoreError MalformedResponse "checkpoint storage returned an empty revision token");;
  Ok value.

Record StoredCheckpoint := mkStoredCheckpoint {
  sc_revision : StorageRevision;
  sc_checkpoint : CheckpointEnvelope;
}.

Inductive CasOutcome := Accepted (r : StorageRevision) | Conflict | OutcomeUnknown.

(** ** The contract of [CheckpointStore]

    A provider is a state with what it stores for each execution and the
    revisions it ever handed out for it. *)

Class CheckpointStore (S : Type) := {
  stored : S → ExecutionId → option StoredCheckpoint;
  used : S → ExecutionId → StorageRevision → Prop;
  load : ExecutionId → S → result StoreError (option StoredCheckpoint) * S;
  compare_and_swap : ExecutionId → option StorageRevision → CheckpointEnvelope → S →
    result StoreError CasOutcome * S;
}.

Section contract.
  Context {S : Type} {Store : CheckpointStore S}.

(** Nothing a load or a refused compare-and-swap does is visible. *)
Definition same_contents (s s' : S) : Prop :=
  (∀ e, stored s' e = stored s e) ∧ (∀ e r, used s e r → used s' e r).

(** The compare-and-swap was applied, with revision [r]. *)
Definition applied (e : ExecutionId) (expected : option StorageRevision) (cp : CheckpointEnvelope)
    (s s' : S) (r : StorageRevision) : Prop :=
  sc_revision <$> stored s e = expected ∧ ¬ used s e r ∧
  stored s' e = Some (mkStoredCheckpoint r cp) ∧ (∀ e', e' ≠ e → stored s' e' = stored s e') ∧
  used s' e r ∧ (∀ e' r', used s e' r' → used s' e' r').

(** [Accepted] means applied; [OutcomeUnknown] may hide either; an error or a
    conflict means not applied. *)
Definition cas_contract (e : ExecutionId) (expected : option StorageRevision) (cp : CheckpointEnvelope)
    (s : S) (o : result StoreError CasOutcome) (s' : S) : Prop :=
  match o with
  | Ok (Accepted r) => applied e expected cp s s' r
  | Ok OutcomeUnknown => same_contents s s' ∨ ∃ r, applied e expected cp s s' r
  | Ok Conflict | Err _ => same_contents s s'
  end.
End contract.

(** The laws of a provider, on the states it can reach. *)
Class CheckpointStoreLaws (S : Type) `{!CheckpointStore S} := {
  store_inv : S → Prop;
  stored_used s e c : store_inv s → stored s e = Some c → used s e (sc_revision c);
  load_inv e s : store_inv s → store_inv (load e s).2;
  load_same e s : store_inv s → same_contents s (load e s).2;
  load_stored e s o : store_inv s → (load e s).1 = Ok o → o = stored s e;
  cas_inv e x cp s : store_inv s → store_inv (compare_and_swap e x cp s).2;
  cas_lawful e x cp s : store_inv s →
    cas_contract e x cp s (compare_and_swap e x cp s).1 (compare_and_swap e x cp s).2;
}.

(** ** The in-memory store *)

Module InMemory.

Inductive InMemoryFault :=
| FailBeforeRequest (k : StoreErrorKind)
| ConflictWithoutApply
| OutcomeUnknownWithoutApply
| OutcomeUnknownAfterApply.

#[export] Instance byte_countable : Countable Byte.byte.
Proof. apply (inj_countable Byte.to_N Byte.of_N). intros b. apply Byte.of_to_N. Defined.

Record State := mkState {
  checkpoints : gmap ExecutionId StoredCheckpoint;
  next_cas_fault : option InMemoryFault;
  matching_cas_before_fault : nat;
  next_load_error : option StoreError;
  revision_counter : Z;
}.
#[export] Instance eta_State : Settable State :=
  {| eta_record r := mkState (checkpoints r) (next_cas_fault r) (matching_cas_before_fault r)
       (next_load_error r) (revision_counter r) |}.

Definition new : State := mkState ∅ None 0 None 0.

Definition fail_compare_and_swap_after (n : nat) (fault : InMemoryFault) (s : State) : State :=
  s <| matching_cas_before_fault := n |> <| next_cas_fault := Some fault |>.
Definition fail_next_compare_and_swap (fault : InMemoryFault) (s : State) : State :=
  fail_compare_and_swap_after 0 fault s.
Definition fail_next_load (e : StoreError) (s : State) : State := s <| next_load_error := Some e |>.

Definition load (e : ExecutionId) (s : State) : result StoreError (option StoredCheckpoint) * State :=
  match next_load_error s with
  | Some err => (Err err, s <| next_load_error := None |>)
  | None => (Ok (checkpoints s !! e), s)
  end.

(** [{:016x}] of a [u64]. *)
Fixpoint hex_digits (k : nat) (n : N) : string :=
  match k with
  | O => ""
  | S k => hex_digits k (n / 16) +:+ String (hex_digit (n mod 16)) ""
  end.

Definition render_revision (counter : Z) : StorageRevision := "memory-revision-" +:+ hex_digits 16 (Z.to_N counter).

Definition take_fault (s : State) : option InMemoryFault * State :=
  match matching_cas_before_fault s with
  | O => (next_cas_fault s, s <| next_cas_fault := None |>)
  | S n => (None, s <| matching_cas_before_fault := n |>)
  end.

Definition apply_cas (e : ExecutionId) (cp : CheckpointEnvelope) (s : State) :
    result StoreError StorageRevision * State :=
  match u64_checked_add (revision_counter s) 1 with
  | None => (Err (mkStoreError OtherError "in-memory checkpoint revision counter exhausted"), s)
  | Some n =>
      let r := render_revision n in
      (Ok r, s <| revision_counter := n |> <| checkpoints ::= <[e := mkStoredCheckpoint r cp]> |>)
  end.

Definition compare_and_swap (e : ExecutionId) (expected : option StorageRevision)
    (cp : CheckpointEnvelope) (s : State) : result StoreError CasOutcome * State :=
  if decide (sc_revision <$> checkpoints s !! e ≠ expected) then (Ok Conflict, s)
  else
    let '(fault, s) := take_fault s in
    match fault with
    | Some (FailBeforeRequest k) =>
        (Err (mkStoreError k "in-memory fault injected before compare-and-swap request"), s)
    | Some ConflictWithoutApply => (Ok Conflict, s)
    | Some OutcomeUnknownWithoutApply => (Ok OutcomeUnknown, s)
    | Some OutcomeUnknownAfterApply =>
        let '(r, s) := apply_cas e cp s in
        (match r with Ok _ => Ok OutcomeUnknown | Err err => Err err end, s)
    | None =>
        let '(r, s) := apply_cas e cp s in
        (match r with Ok r => Ok (Accepted r) | Err err => Err err end, s)
    end.

#[export] Instance store : CheckpointStore State := {
  stored s e := checkpoints s !! e;
  used s e r := ∃ n, 0 < n ≤ revision_counter s ∧ r = render_revision n;
  Store.load := load;
  Store.compare_and_swap := compare_and_swap;
}.

(** ** The implementation keeps the contract *)

(** Every stored revision was handed out, and the counter never wrapped. *)
Definition wf (s : State) : Prop :=
  0 ≤ revision_counter s ≤ u64_max ∧
  ∀ e c, checkpoints s !! e = Some c → ∃ n, 0 < n ≤ revision_counter s ∧ sc_revision c = render_revision n.

Lemma string_snoc_inj (a b : string) (c d : Ascii.ascii) :
  a +:+ String c "" = b +:+ String d "" → a = b ∧ c = d.
Proof.
  intros Heq%(f_equal String.list_ascii_of_string). rewrite !list_ascii_app in Heq.
  apply app_inj_tail in Heq as [Heq ->]. split; [|done].
  by rewrite <-(String.string_of_list_ascii_of_string a), <-(String.string_of_list_ascii_of_string b), Heq.
Qed.

Lemma hex_digits_inj k : ∀ n m : N,
  (n < 16 ^ N.of_nat k)%N → (m < 16 ^ N.of_nat k)%N → hex_digits k n = hex_digits k m → n = m.
Proof.
  induction k as [|k IH]; intros n m Hn Hm; [simpl in *; lia|].
  rewrite Nat2N.inj_succ, N.pow_succ_r' in Hn, Hm. simpl. intros [Hq Hr]%string_snoc_inj.
  apply hex_digit_inj in Hr; [|by apply N.mod_lt..].
  apply IH in Hq; [|apply N.Div0.div_lt_upper_bound; lia..].
  rewrite (N.div_mod n 16), (N.div_mod m 16) by done. congruence.
Qed.

Lemma render_revision_inj a b :
  0 ≤ a ≤ u64_max → 0 ≤ b ≤ u64_max → render_revision a = render_revision b → a = b.
Proof.
  unfold render_revision, u64_max. intros Ha Hb Heq%(inj (String.append _)).
  assert (Z.to_N a = Z.to_N b); [|lia]. apply (hex_digits_inj 16) in Heq; [done| |];
    change (16 ^ N.of_nat 16)%N with 18446744073709551616%N; lia.
Qed.

Lemma take_fault_frame s f s' :
  take_fault s = (f, s') → checkpoints s' = checkpoints s ∧ revision_counter s' = revision_counter s.
Proof. unfold take_fault. destruct (matching_cas_before_fault s); intros; by simplify_eq/=. Qed.

Lemma frame_same s s' :
  checkpoints s' = checkpoints s → revision_counter s' = revision_counter s → same_contents s s'.
Proof. intros Hc Hr. split; intros; simpl; by rewrite ?Hc, ?Hr. Qed.

Lemma frame_wf s s' :
  checkpoints s' = checkpoints s → revision_counter s' = revision_counter s → wf s → wf s'.
Proof. unfold wf. by intros -> ->. Qed.

Lemma apply_cas_spec e x cp s r s' :
  wf s → sc_revision <$> checkpoints s !! e = x → apply_cas e cp s = (r, s') →
  wf s' ∧ match r with Ok r => applied e x cp s s' r | Err _ => s' = s end.
Proof.
  unfold apply_cas, u64_checked_add. intros [Hc Hs] Hx. case_decide as Hmax; intros; simplify_eq/=; [|done].
  split.
  - split; simpl; [lia|]. intros e' c. rewrite lookup_insert. case_decide; intros; simplify_eq/=.
    + eexists. split; [|done]. lia.
    + destruct (Hs e' c) as (n & ? & ?); [done|]. exists n. split; [lia|done].
  - split_and!; simpl; [done| | | | |].
    + intros (n & Hn & Heq%render_revision_inj); lia.
    + by rewrite lookup_insert_eq.
    + intros e' He. by rewrite lookup_insert_ne.
    + exists (revision_counter s + 1). split; [lia|done].
    + intros e' r (n & ? & ->). exists n. split; [lia|done].
Qed.

Lemma cas_spec e x cp s o s' :
  wf s → compare_and_swap e x cp s = (o, s') → wf s' ∧ cas_contract e x cp s o s'.
Proof.
  intros Hwf. unfold compare_and_swap. case_decide as Hx.
  { intros. simplify_eq. split; [done|]. by apply frame_same. }
  destruct (take_fault s) as [f s1] eqn:Hf.
  apply take_fault_frame in Hf as [Hc Hr].
  assert (wf s1) as Hwf1 by (by eapply frame_wf).
  assert (same_contents s s1) as Hs1 by (by apply frame_same).
  assert (∀ r s2, apply_cas e cp s1 = (r, s2) → wf s2 ∧
    match r with Ok r => applied e x cp s s2 r | Err _ => same_contents s s2 end) as Happ.
  { intros r s2 Happ. apply (apply_cas_spec e x) in Happ as [Hwf2 Happ]; [|done|by rewrite Hc].
    split; [done|]. destruct r; [|by subst].
    unfold applied in *. simpl in *. by rewrite Hc, Hr in Happ. }
  destruct f as [[]|]; try (intros; simplify_eq; by split; [|auto]).
  all: destruct (apply_cas e cp s1) as [[r|err] s2] eqn:Ha; intros; simplify_eq;
    destruct (Happ _ _ eq_refl); (split; [done|]); simpl; eauto.
Qed.

Lemma load_spec e s o s' :
  load e s = (o, s') →
  checkpoints s' = checkpoints s ∧ revision_counter s' = revision_counter s ∧
  ∀ c, o = Ok c → c = checkpoints s !! e.
Proof. unfold load. destruct (next_load_error s); intros; simplify_eq/=; naive_solver. Qed.

#[export] Instance laws : CheckpointStoreLaws State.
Proof.
  refine {| store_inv := wf |}.
  - intros s e c [_ Hs] (n & ? & ->)%Hs. by exists n.
  - intros e s Hwf. simpl. destruct (load e s) as [o s'] eqn:H. apply load_spec in H as (? & ? & _).
    by eapply frame_wf.
  - intros e s _. simpl. destruct (load e s) as [o s'] eqn:H. apply load_spec in H as (? & ? & _).
    by apply frame_same.
  - intros e s o _. simpl. destruct (load e s) as [o' s'] eqn:H. apply load_spec in H as (_ & _ & H).
    apply H.
  - intros e x cp s Hwf. simpl. destruct (compare_and_swap e x cp s) as [o s'] eqn:H. apply cas_spec in H; [|exact Hwf]. apply H.
  - intros e x cp s Hwf. simpl. destruct (compare_and_swap e x cp s) as [o s'] eqn:H. apply cas_spec in H; [|exact Hwf]. apply H.
Defined.

Inductive reachable : State → Prop :=
| reach_new : reachable new
| reach_fault n fault s : reachable s → reachable (fail_compare_and_swap_after n fault s)
| reach_load_error err s : reachable s → reachable (fail_next_load err s)
| reach_load e s : reachable s → reachable (load e s).2
| reach_cas e x cp s : reachable s → reachable (compare_and_swap e x cp s).2.

Lemma reachable_wf s : reachable s → wf s.
Proof.
  induction 1 as [|n f s H IH|err s H IH|e s H IH|e x cp s H IH].
  - split; [unfold u64_max; simpl; lia|done].
  - done.
  - done.
  - exact (load_inv e s IH).
  - exact (cas_inv e x cp s IH).
Qed.
(** Refinement of the store contract by the in-memory store: from a new
    store, whatever faults are injected and whatever loads and
    compare-and-swaps ran before, a compare-and-swap keeps the contract the
    host relies on. It is applied only against the revision currently stored,
    under a revision that execution never had, so a stale revision never
    matches again; [Accepted] means applied, an outcome reported unknown may
    hide either, and an error or a conflict leaves what is stored as it was.
    When no fault is pending the outcome is [Accepted] exactly when the
    expected revision is the stored one, until the revision counter runs out. *)
Theorem in_memory_refines_contract s e expected cp (R : reachable s) :
  let '(o, s') := compare_and_swap e expected cp s in
  cas_contract e expected cp s o s' ∧
  (next_cas_fault s = None → revision_counter s < u64_max →
   (∃ r, o = Ok (Accepted r)) ↔ sc_revision <$> checkpoints s !! e = expected).
Proof.
  apply reachable_wf in R. destruct (compare_and_swap e expected cp s) as [o s'] eqn:Hcas.
  split; [by apply cas_spec in Hcas as [_ ?]|]. intros Hf Hc. unfold compare_and_swap in Hcas.
  case_decide as Hx; [simplify_eq; naive_solver|].
  unfold take_fault, apply_cas, u64_checked_add in Hcas.
  destruct (matching_cas_before_fault s); rewrite ?Hf in Hcas; simpl in Hcas;
    (rewrite decide_True in Hcas by lia); simplify_eq; naive_solver.
Qed.

(** Two writers loaded the same checkpoint; the fault applied the first write
    and lost its answer, and the second is refused. *)
Lemma in_memory_refines_contract_witness :
  let cp := mkCheckpointEnvelope 2 [Byte.x01] in
  let e : ExecutionId := [Byte.x07] in
  let s1 := (compare_and_swap e None cp new).2 in
  let s2 := (compare_and_swap e (Some (render_revision 1)) cp
               (fail_next_compare_and_swap OutcomeUnknownAfterApply s1)).2 in
  reachable s2 ∧ (compare_and_swap e (Some (render_revision 1)) cp s2).1 = Ok Conflict ∧
  cas_contract e (Some (render_revision 2)) cp s2 (Ok (Accepted (render_revision 3)))
    (compare_and_swap e (Some (render_revision 2)) cp s2).2.
Proof.
  intros cp e s1 s2.
  assert (reachable s2) as R.
  { apply (reach_cas e (Some (render_revision 1)) cp), (reach_fault 0), (reach_cas e None cp), reach_new. }
  split; [exact R|]. split; [vm_compute; reflexivity|].
  exact (proj1 (in_memory_refines_contract s2 e (Some (render_revision 2)) cp R)).
Defined.
End InMemory.
