(* ===== verification/Host.v ===== *)
(** The durable host (durable-execution/src/host.rs): one turn loads the
    checkpoint, decides, and persists its decision with one compare-and-swap;
    a dispatch permit exists only once that swap was accepted. Also the system
    of hosts that share a store, with their loads and swaps interleaved. *)

From S2P Require Import Prelude Types Identity Checkpoint Replay Store.

Set Default Goal Selector "!".

Inductive PersistenceBoundary :=
| BSchedule | BExposure | BScheduleExposure | BObservation | BObservationProgression | BCompletion.

Inductive ReloadReason := ReloadConflict | ReloadOutcomeUnknown.

Inductive StoreOperation := OpLoad | OpCompareAndSwap (boundary : PersistenceBoundary).

Inductive ObservationRejection :=
| CheckpointMissing
| ActivityNotExposed
| LogicalActivityMismatch (expected observed : LogicalActivityId)
| ResultExceedsDeclaredBound (actual maximum : Z).

Record ActivityObservation := mkActivityObservation {
  ob_activity : LogicalActivityId;
  ob_result : ExactBytes;
}.

Record DispatchPermit := mkDispatchPermit {
  dp_activity : LogicalActivityId;
  dp_attempt_id : AttemptId;
}.

Inductive HostOutcome :=
| ScheduleAccepted (activity : LogicalActivityId) (revision : StorageRevision)
| DispatchPermitted (permit : DispatchPermit) (revision : StorageRevision) (boundary : PersistenceBoundary)
| ObservationAccepted (activity : LogicalActivityId) (revision : StorageRevision)
| WorkflowCompleted (outcome : TerminalOutcome) (revision : StorageRevision) (boundary : PersistenceBoundary)
| Quarantined (activity : LogicalActivityId) (attempt_id : AttemptId)
| HostNondeterminism (n : Nondeterminism)
| CheckpointRejected (e : CheckpointError)
| ObservationRejected (r : ObservationRejection)
| ReloadRequired (boundary : PersistenceBoundary) (reason : ReloadReason)
| StoreFailed (operation : StoreOperation) (error : StoreError).

(** [DurableHost], without its store. *)
Record DurableHost := mkDurableHost {
  dh_host_epoch : HostEpoch;
  next_attempt_counter : Z;
  dh_limits : CheckpointLimits;
}.
#[export] Instance eta_DurableHost : Settable DurableHost :=
  {| eta_record r := mkDurableHost (dh_host_epoch r) (next_attempt_counter r) (dh_limits r) |}.

Definition host_new (host_epoch : HostEpoch) (limits : CheckpointLimits) : DurableHost :=
  mkDurableHost host_epoch 1 limits.

(** ** A turn between its load and its compare-and-swap

    The code of a turn runs on the host's own state; it returns early with an
    outcome, panics, or ends in a compare-and-swap whose result is mapped to
    the outcome. *)

Inductive exit := Exit (o : HostOutcome) | Panic (message : string).

Definition host (A : Type) : Type := DurableHost → result exit A * DurableHost.
#[export] Instance host_ret : MRet host := λ A a h, (Ok a, h).
#[export] Instance host_bind : MBind host := λ A B f m h,
  match m h with
  | (Ok a, h) => f a h
  | (Err e, h) => (Err e, h)
  end.

Definition return_ {A} (o : HostOutcome) : host A := λ h, (Err (Exit o), h).
Definition panic {A} (message : string) : host A := λ h, (Err (Panic message), h).
Definition asks {A} (f : DurableHost → A) : host A := λ h, (Ok (f h), h).
Definition expect {A} (o : option A) (message : string) : host A :=
  match o with Some a => mret a | None => panic message end.

(** [match r { Ok(a) => a, Err(e) => return HostOutcome::CheckpointRejected(e) }]. *)
Definition checked {A} (r : result CheckpointError A) : host A :=
  match r with Ok a => mret a | Err e => return_ (CheckpointRejected e) end.

Record Swap := mkSwap {
  sw_execution : ExecutionId;
  sw_expected : option StorageRevision;
  sw_checkpoint : CheckpointEnvelope;
  sw_outcome : result StoreError CasOutcome → HostOutcome;
}.

(** The result of the compare-and-swap: [accepted], [reload_outcome] or
    [store_failed]. *)
Definition swap_outcome (boundary : PersistenceBoundary) (accepted : StorageRevision → HostOutcome)
    (r : result StoreError CasOutcome) : HostOutcome :=
  match r with
  | Ok (Accepted revision) => accepted revision
  | Ok Conflict => ReloadRequired boundary ReloadConflict
  | Ok OutcomeUnknown => ReloadRequired boundary ReloadOutcomeUnknown
  | Err error => StoreFailed (OpCompareAndSwap boundary) error
  end.

Definition next_attempt : host AttemptId := λ h,
  match u64_checked_add (next_attempt_counter h) 1 with
  | None => (Err (Panic "host attempt counter exhausted"), h)
  | Some n =>
      let h' := h <| next_attempt_counter := n |> in
      match attempt_id_new (dh_host_epoch h) (next_attempt_counter h) with
      | Ok a => (Ok a, h')
      | Err _ => (Err (Panic "host attempt counters start above the reserved zero value"), h')
      end
  end.

Definition replace_final_record (p : CheckpointPayload) (replacement : ActivityRecord) : host CheckpointPayload :=
  activities ← expect (active_activities p) "replacement requires active state";
  _ ← expect (last activities) "replacement requires a final activity";
  mret (mkCheckpointPayload (execution p) (Active (<[pred (length activities) := replacement]> activities))).

Definition last_record (p : CheckpointPayload) : option ActivityRecord := active_activities p ≫= last.

Record PreparedExposure := mkPreparedExposure {
  pe_execution_id : ExecutionId;
  pe_expected_revision : option StorageRevision;
  pe_checkpoint : CheckpointEnvelope;
  pe_activity : LogicalActivityId;
  pe_attempt_id : AttemptId;
}.

Section host.
  Context {Enc : Encoding}.

Definition loaded_or_fail (loaded : result StoreError (option StoredCheckpoint)) : host (option StoredCheckpoint) :=
  match loaded with Ok l => mret l | Err error => return_ (StoreFailed OpLoad error) end.

(** The checks a turn makes on a stored checkpoint before it replays. *)
Definition inspect (spec : ExecutionSpec) (stored : StoredCheckpoint) : host unit :=
  limits ← asks dh_limits;
  p ← checked (decode_and_validate (sc_checkpoint stored) spec limits);
  match terminal_outcome p with
  | Some (outcome, _) => return_ (WorkflowCompleted outcome (sc_revision stored) BCompletion)
  | None =>
      match last_record p with
      | Some record =>
          match ar_state record with
          | DispatchExposed attempt_id =>
              return_ (Quarantined (logical_id record (execution_id spec)) attempt_id)
          | _ => mret tt
          end
      | None => mret tt
      end
  end.

Definition prepare_exposure (spec : ExecutionSpec) (expected_revision : option StorageRevision)
    (checkpoint : CheckpointEnvelope) (activity : LogicalActivityId) : host PreparedExposure :=
  limits ← asks dh_limits;
  p ← checked (decode_and_validate checkpoint spec limits);
  record ← expect (last_record p) "scheduled evaluation requires an activity record";
  reserved_encoded_bytes ← checked (maximum_activity_completed_encoded_len p);
  _ ← checked (reject_if (max_encoded_bytes limits <? reserved_encoded_bytes)
         (EncodedCheckpointLimitExceeded reserved_encoded_bytes (max_encoded_bytes limits)));
  attempt_id ← next_attempt;
  p ← replace_final_record p (record_dispatch_exposed (ar_sequence record) (ar_spec record) attempt_id);
  checkpoint ← checked (encode_with_limits p limits);
  mret (mkPreparedExposure (execution_id spec) expected_revision checkpoint activity attempt_id).

Definition commit_schedule (id : ExecutionId) (expected_revision : option StorageRevision)
    (activity : LogicalActivityId) (checkpoint : CheckpointEnvelope) : host Swap :=
  mret (mkSwap id expected_revision checkpoint (swap_outcome BSchedule (ScheduleAccepted activity))).

Definition commit_exposure (proposal : PreparedExposure) (boundary : PersistenceBoundary) : host Swap :=
  mret (mkSwap (pe_execution_id proposal) (pe_expected_revision proposal) (pe_checkpoint proposal)
    (swap_outcome boundary (λ revision,
       DispatchPermitted (mkDispatchPermit (pe_activity proposal) (pe_attempt_id proposal)) revision boundary))).

Definition commit_completion_at_boundary (expected_revision : option StorageRevision) (spec : ExecutionSpec)
    (outcome : TerminalOutcome) (completed_activity_count : Z) (active_checkpoint : CheckpointEnvelope)
    (boundary : PersistenceBoundary) : host Swap :=
  limits ← asks dh_limits;
  active ← checked (decode_and_validate active_checkpoint spec limits);
  terminal ← checked (into_terminal active outcome completed_activity_count);
  checkpoint ← checked (encode_with_limits terminal limits);
  mret (mkSwap (execution_id spec) expected_revision checkpoint
    (swap_outcome boundary (λ revision, WorkflowCompleted outcome revision boundary))).

Definition commit_completion (expected_revision : option StorageRevision) (spec : ExecutionSpec)
    (outcome : TerminalOutcome) (completed_activity_count : Z) (active_checkpoint : CheckpointEnvelope) : host Swap :=
  commit_completion_at_boundary expected_revision spec outcome completed_activity_count active_checkpoint BCompletion.

Definition turn (workflow : Workflow) (spec : ExecutionSpec)
    (loaded : result StoreError (option StoredCheckpoint)) : host Swap :=
  loaded ← loaded_or_fail loaded;
  let expected_revision := sc_revision <$> loaded in
  _ ← match loaded with Some stored => inspect spec stored | None => mret tt end;
  limits ← asks dh_limits;
  match evaluate workflow spec (sc_checkpoint <$> loaded) limits with
  | EvScheduled activity checkpoint => commit_schedule (execution_id spec) expected_revision activity checkpoint
  | EvPending activity ActScheduled =>
      stored ← expect loaded "pending evaluation requires a loaded checkpoint";
      proposal ← prepare_exposure spec (Some (sc_revision stored)) (sc_checkpoint stored) activity;
      commit_exposure proposal BExposure
  | EvPending activity (DispatchExposed attempt_id) => return_ (Quarantined activity attempt_id)
  | EvPending _ (ActCompleted _) => panic "completed activities are replayed rather than pending"
  | EvComplete outcome count checkpoint => commit_completion expected_revision spec outcome count checkpoint
  | EvTerminal outcome _ =>
      stored ← expect loaded "terminal evaluation requires a loaded checkpoint";
      return_ (WorkflowCompleted outcome (sc_revision stored) BCompletion)
  | EvNondeterminism n => return_ (HostNondeterminism n)
  | EvCheckpointRejected e => return_ (CheckpointRejected e)
  | EvWorkflowStalled => return_ (HostNondeterminism UnsupportedSuspension)
  end.

Definition turn_and_expose (workflow : Workflow) (spec : ExecutionSpec)
    (loaded : result StoreError (option StoredCheckpoint)) : host Swap :=
  loaded ← loaded_or_fail loaded;
  let expected_revision := sc_revision <$> loaded in
  _ ← match loaded with Some stored => inspect spec stored | None => mret tt end;
  limits ← asks dh_limits;
  match evaluate workflow spec (sc_checkpoint <$> loaded) limits with
  | EvScheduled activity checkpoint =>
      proposal ← prepare_exposure spec expected_revision checkpoint activity;
      commit_exposure proposal BScheduleExposure
  | EvPending activity ActScheduled =>
      stored ← expect loaded "pending evaluation requires a loaded checkpoint";
      proposal ← prepare_exposure spec (Some (sc_revision stored)) (sc_checkpoint stored) activity;
      commit_exposure proposal BScheduleExposure
  | EvPending activity (DispatchExposed attempt_id) => return_ (Quarantined activity attempt_id)
  | EvPending _ (ActCompleted _) => panic "completed activities are replayed rather than pending"
  | EvComplete outcome count checkpoint => commit_completion expected_revision spec outcome count checkpoint
  | EvTerminal outcome _ =>
      stored ← expect loaded "terminal evaluation requires a loaded checkpoint";
      return_ (WorkflowCompleted outcome (sc_revision stored) BCompletion)
  | EvNondeterminism n => return_ (HostNondeterminism n)
  | EvCheckpointRejected e => return_ (CheckpointRejected e)
  | EvWorkflowStalled => return_ (HostNondeterminism UnsupportedSuspension)
  end.

(** The length of an observed result: [observe] rejects one that is no [u64],
    [observe_and_turn] saturates. *)
Definition measured (maximum : Z) (b : ExactBytes) : host Z :=
  match u64_try_from (bytes_len b) with
  | Some actual => mret actual
  | None => return_ (ObservationRejected (ResultExceedsDeclaredBound u64_max maximum))
  end.
Definition measured_saturating (_ : Z) (b : ExactBytes) : host Z :=
  mret (default u64_max (u64_try_from (bytes_len b))).

(** The checks of an observation: what was loaded, the activity, and the
    payload that records its result. *)
Definition accept_observation (measure : Z → ExactBytes → host Z) (spec : ExecutionSpec)
    (observation : ActivityObservation) (loaded : result StoreError (option StoredCheckpoint)) :
    host (StoredCheckpoint * LogicalActivityId * CheckpointPayload) :=
  loaded ← loaded_or_fail loaded;
  match loaded with
  | None => return_ (ObservationRejected CheckpointMissing)
  | Some stored =>
      limits ← asks dh_limits;
      p ← checked (decode_and_validate (sc_checkpoint stored) spec limits);
      match last_record p with
      | None => return_ (ObservationRejected ActivityNotExposed)
      | Some record =>
          let expected_activity := logical_id record (execution_id spec) in
          if decide (expected_activity ≠ ob_activity observation) then
            return_ (ObservationRejected (LogicalActivityMismatch expected_activity (ob_activity observation)))
          else
            match ar_state record with
            | DispatchExposed _ =>
                actual ← measure (max_result_bytes (ar_spec record)) (ob_result observation);
                if max_result_bytes (ar_spec record) <? actual then
                  return_ (ObservationRejected (ResultExceedsDeclaredBound actual (max_result_bytes (ar_spec record))))
                else
                  p ← replace_final_record p
                        (record_completed (ar_sequence record) (ar_spec record) (ob_result observation));
                  mret (stored, expected_activity, p)
            | _ => return_ (ObservationRejected ActivityNotExposed)
            end
      end
  end.

Definition observe (spec : ExecutionSpec) (observation : ActivityObservation)
    (loaded : result StoreError (option StoredCheckpoint)) : host Swap :=
  '(stored, activity, p) ← accept_observation measured spec observation loaded;
  limits ← asks dh_limits;
  checkpoint ← checked (encode_with_limits p limits);
  mret (mkSwap (execution_id spec) (Some (sc_revision stored)) checkpoint
    (swap_outcome BObservation (ObservationAccepted activity))).

Definition observe_and_turn (workflow : Workflow) (spec : ExecutionSpec) (observation : ActivityObservation)
    (loaded : result StoreError (option StoredCheckpoint)) : host Swap :=
  '(stored, _, p) ← accept_observation measured_saturating spec observation loaded;
  limits ← asks dh_limits;
  completed_checkpoint ← checked (encode_with_limits p limits);
  let expected_revision := Some (sc_revision stored) in
  match evaluate workflow spec (Some completed_checkpoint) limits with
  | EvScheduled activity checkpoint =>
      proposal ← prepare_exposure spec expected_revision checkpoint activity;
      commit_exposure proposal BObservationProgression
  | EvComplete outcome count checkpoint =>
      commit_completion_at_boundary expected_revision spec outcome count checkpoint BObservationProgression
  | EvPending activity (DispatchExposed attempt_id) => return_ (Quarantined activity attempt_id)
  | EvPending _ _ => return_ (HostNondeterminism UnsupportedSuspension)
  | EvTerminal outcome _ => return_ (WorkflowCompleted outcome (sc_revision stored) BCompletion)
  | EvNondeterminism n => return_ (HostNondeterminism n)
  | EvCheckpointRejected e => return_ (CheckpointRejected e)
  | EvWorkflowStalled => return_ (HostNondeterminism UnsupportedSuspension)
  end.

(** ** Calls on a shared store

    Any number of hosts share a store. A call loads, runs to its
    compare-and-swap and waits there; other calls interleave before the swap
    reaches the store, and it may never reach it. *)

Inductive Call :=
| CTurn (workflow : Workflow) (spec : ExecutionSpec)
| CTurnAndExpose (workflow : Workflow) (spec : ExecutionSpec)
| CObserve (spec : ExecutionSpec) (observation : ActivityObservation)
| CObserveAndTurn (workflow : Workflow) (spec : ExecutionSpec) (observation : ActivityObservation).

Definition call_spec (c : Call) : ExecutionSpec :=
  match c with
  | CTurn _ spec | CTurnAndExpose _ spec | CObserve spec _ | CObserveAndTurn _ spec _ => spec
  end.

Definition run_call (c : Call) (loaded : result StoreError (option StoredCheckpoint)) : host Swap :=
  match c with
  | CTurn w spec => turn w spec loaded
  | CTurnAndExpose w spec => turn_and_expose w spec loaded
  | CObserve spec ob => observe spec ob loaded
  | CObserveAndTurn w spec ob => observe_and_turn w spec ob loaded
  end.

Context {S : Type} {Store : CheckpointStore S}.

Record System := mkSystem {
  sys_store : S;
  hosts : list DurableHost;
  in_flight : list Swap;
}.

Inductive Event := Returned (o : HostOutcome) | Panicked (message : string).

Inductive Label :=
| LStart (host_epoch : HostEpoch) (limits : CheckpointLimits)
| LCall (host : nat) (c : Call)
| LSwap (flight : nat)
| LLost (flight : nat).

Definition sys_step (l : Label) (y : System) : System * list Event :=
  match l with
  | LStart epoch limits => (mkSystem (sys_store y) (hosts y ++ [host_new epoch limits]) (in_flight y), [])
  | LCall i c =>
      match hosts y !! i with
      | None => (y, [])
      | Some h =>
          let '(loaded, s) := load (execution_id (call_spec c)) (sys_store y) in
          let '(r, h) := run_call c loaded h in
          let hs := <[i := h]> (hosts y) in
          match r with
          | Ok w => (mkSystem s hs (in_flight y ++ [w]), [])
          | Err (Exit o) => (mkSystem s hs (in_flight y), [Returned o])
          | Err (Panic m) => (mkSystem s hs (in_flight y), [Panicked m])
          end
      end
  | LSwap j =>
      match in_flight y !! j with
      | None => (y, [])
      | Some w =>
          let '(r, s) := compare_and_swap (sw_execution w) (sw_expected w) (sw_checkpoint w) (sys_store y) in
          (mkSystem s (hosts y) (delete j (in_flight y)), [Returned (sw_outcome w r)])
      end
  | LLost j => (mkSystem (sys_store y) (hosts y) (delete j (in_flight y)), [])
  end.

Fixpoint sys_run (ls : list Label) (y : System) : System * list Event :=
  match ls with
  | [] => (y, [])
  | l :: ls =>
      let '(y, e) := sys_step l y in
      let '(y, e') := sys_run ls y in (y, e ++ e')
  end.
End host.

(** ** The protocol of one execution

    What a stored checkpoint may become, one decision at a time. An execution
    begins with no activity; the next one is scheduled only once all others
    completed; a scheduled one is exposed to dispatch under an attempt; an
    exposed one completes with a result within its bound; an outcome ends it,
    and nothing leads out of a terminal checkpoint. *)

Inductive progress : option CheckpointPayload → option CheckpointPayload → Prop :=
| begins c : progress None (Some (payload_active c []))
| schedules c h s : all_completed h →
    progress (Some (payload_active c h))
      (Some (payload_active c (h ++ [record_scheduled (Z.of_nat (length h)) s])))
| exposes c h s a :
    progress (Some (payload_active c (h ++ [record_scheduled (Z.of_nat (length h)) s])))
      (Some (payload_active c (h ++ [record_dispatch_exposed (Z.of_nat (length h)) s a])))
| completes c h s a r : bytes_len r ≤ max_result_bytes s →
    progress (Some (payload_active c (h ++ [record_dispatch_exposed (Z.of_nat (length h)) s a])))
      (Some (payload_active c (h ++ [record_completed (Z.of_nat (length h)) s r])))
| finishes c h o : all_completed h →
    bytes_len (outcome_payload o) ≤ max_terminal_payload_bytes (Checkpoint.spec c) →
    progress (Some (payload_active c h)) (Some (payload_terminal c o (Z.of_nat (length h)))).

(** Activity [k] was exposed to dispatch, now or before. *)
Definition past (po : option CheckpointPayload) (k : nat) : Prop :=
  match po with
  | None => False
  | Some p =>
      match cp_state p with
      | Terminal _ _ => True
      | Active h => ∃ r, h !! k = Some r ∧ ar_state r ≠ ActScheduled
      end
  end.


Lemma progress_past po po' k : progress po po' → past po k → past po' k.
Proof.
  destruct 1 as [c|c h s Hall|c h s a|c h s a r Hr|c h o Hall Ho]; simpl; [done|..|done].
  - intros (r & Hr & Hst). exists r. split; [|done]. by apply lookup_app_l_Some.
  - intros (r & Hr & Hst). apply lookup_app_Some in Hr as [Hr|[Hle Hr]].
    + exists r. split; [|done]. by apply lookup_app_l_Some.
    + destruct (k - length h)%nat eqn:Hk; [|done]. injection Hr as <-. done.
  - intros (r' & Hr' & Hst). apply lookup_app_Some in Hr' as [Hr'|[Hle Hr']].
    + exists r'. split; [|done]. by apply lookup_app_l_Some.
    + exists (record_completed (Z.of_nat (length h)) s r). split; [|done].
      rewrite lookup_app_r by done. destruct (k - length h)%nat; [done|discriminate Hr'].
Qed.

Lemma past_rtc po po' k : rtc progress po po' → past po k → past po' k.
Proof. induction 1; eauto using progress_past. Qed.



(** ** What a call prepares *)

Lemma host_bind_Ok {A B} (m : host A) (f : A → host B) h b h2 :
  (m ≫= f) h = (Ok b, h2) ↔ ∃ a h1, m h = (Ok a, h1) ∧ f a h1 = (Ok b, h2).
Proof.
  unfold mbind, host_bind. destruct (m h) as [[a|e] h1]; split; [eauto| |done|].
  - by intros (? & ? & [= -> ->] & ?).
  - by intros (? & ? & [=] & ?).
Qed.

Lemma checked_Ok {A} (r : result CheckpointError A) h a h' : checked r h = (Ok a, h') ↔ r = Ok a ∧ h' = h.
Proof. destruct r; simpl; unfold mret, host_ret, return_; naive_solver. Qed.

Lemma expect_Ok {A} (o : option A) m h a h' : expect o m h = (Ok a, h') ↔ o = Some a ∧ h' = h.
Proof. destruct o; simpl; unfold mret, host_ret, panic; naive_solver. Qed.

Lemma last_record_Some p r :
  last_record p = Some r ↔ ∃ h, cp_state p = Active (h ++ [r]).
Proof.
  unfold last_record, active_activities. destruct (cp_state p) as [h|o n]; simpl; [|naive_solver].
  rewrite last_Some. naive_solver.
Qed.

Lemma replace_final_record_Ok p h r r' d p' d' :
  cp_state p = Active (h ++ [r]) → replace_final_record p r' d = (Ok p', d') →
  p' = payload_active (execution p) (h ++ [r']) ∧ d' = d.
Proof.
  intros Hst Hr. unfold replace_final_record, active_activities in Hr. rewrite Hst in Hr.
  apply host_bind_Ok in Hr as (acts & d1 & [[= <-] ->]%expect_Ok & Hr).
  apply host_bind_Ok in Hr as (x & d1 & [_ ->]%expect_Ok & [= <- <-]).
  rewrite length_app. simpl. replace (pred (length h + 1)) with (length h + 0)%nat by lia.
  by rewrite insert_app_r.
Qed.

Section calls.
  Context {Enc : Encoding} {Laws : EncodingLaws}.

(** The payload in an envelope. *)
Definition parsed (env : CheckpointEnvelope) (p : CheckpointPayload) : Prop := json_parse (payload env) = Ok p.

Lemma decode_parsed env spec limits p :
  decode_and_validate env spec limits = Ok p →
  parsed env p ∧ Checkpoint.spec (execution p) = spec ∧ validate p spec limits = Ok tt.
Proof.
  unfold decode_and_validate. intros H. apply bind_Ok in H as ([] & _ & H). apply bind_Ok in H as ([] & _ & H).
  apply bind_Ok in H as (q & Hq%invalid_json_Ok & H). apply bind_Ok in H as ([] & Hv & [= ->]).
  split_and!; [done| |done]. unfold validate in Hv. apply bind_Ok in Hv as ([] & H1%reject_if_Ok & Hv).
  apply bind_Ok in Hv as ([] & H2%reject_if_Ok & Hv). apply bind_Ok in Hv as ([] & H3%reject_if_Ok & _).
  apply negb_false_iff in H1, H2, H3. apply bool_decide_eq_true in H1, H2. apply Z.eqb_eq in H3.
  destruct (Checkpoint.spec (execution p)), spec. simpl in *. congruence.
Qed.

Lemma encode_parsed p limits env : encode_with_limits p limits = Ok env → parsed env p.
Proof.
  unfold encode_with_limits, encode. intros H. apply bind_Ok in H as ([] & _ & H).
  apply bind_Ok in H as (e & He & H). apply bind_Ok in H as ([] & _ & [= ->]).
  apply bind_Ok in He as (b & Hb%invalid_json_Ok & [= <-]). by apply json_roundtrip.
Qed.

Lemma parsed_inj env p q : parsed env p → parsed env q → p = q.
Proof. unfold parsed. congruence. Qed.

(** The payload of what a store holds. *)
Definition payload_of (c : option StoredCheckpoint) : option CheckpointPayload :=
  c ≫= λ c, match json_parse (payload (sc_checkpoint c)) with Ok p => Some p | Err _ => None end.

Lemma payload_of_parsed c p : parsed (sc_checkpoint c) p → payload_of (Some c) = Some p.
Proof. unfold parsed. simpl. by intros ->. Qed.

(** An attempt that a swap with this outcome would permit: the activity is
    the last one of the new payload, exposed under that attempt, and it was
    never exposed before. *)
Definition permits (po : option CheckpointPayload) (p' : CheckpointPayload) (permit : DispatchPermit) : Prop :=
  let a := dp_activity permit in
  ∃ h, p' = payload_active (execution p')
         (h ++ [record_dispatch_exposed (Z.of_nat (length h)) (la_spec a) (dp_attempt_id permit)]) ∧
    la_sequence a = Z.of_nat (length h) ∧ ¬ past po (length h) ∧
    la_execution_id a = execution_id (Checkpoint.spec (execution p')).

(** A swap that moves the payload [po] it was prepared from on. *)
Definition lawful (po : option CheckpointPayload) (w : Swap) : Prop :=
  ∃ p', parsed (sw_checkpoint w) p' ∧ tc progress po (Some p') ∧
    sw_execution w = execution_id (Checkpoint.spec (execution p')) ∧
    ∀ res permit revision boundary, sw_outcome w res = DispatchPermitted permit revision boundary →
      res = Ok (Accepted revision) ∧ permits po p' permit.

Lemma swap_outcome_permit b f res permit revision boundary :
  swap_outcome b f res = DispatchPermitted permit revision boundary →
  ∃ r, res = Ok (Accepted r) ∧ f r = DispatchPermitted permit revision boundary.
Proof. destruct res as [[r| |]|e]; simpl; naive_solver. Qed.

Lemma lawful_rtc po po' w : rtc progress po po' → lawful po' w → lawful po w.
Proof.
  intros Hr (p' & Hp & Htc & He & Hout). exists p'. split_and!; [done|by eapply tc_rtc_l|done|].
  intros res permit rev b Ho. destruct (Hout _ _ _ _ Ho) as (-> & h & Heq & Hsq & Hpast & Hid).
  split; [done|]. exists h. split_and!; [done|done| |done]. contradict Hpast. by eapply past_rtc.
Qed.

Lemma prepare_exposure_Ok spec expected cp activity d pe d' p :
  prepare_exposure spec expected cp activity d = (Ok pe, d') → parsed cp p →
  ∃ h r, cp_state p = Active (h ++ [r]) ∧ Checkpoint.spec (execution p) = spec ∧
    pe_execution_id pe = execution_id spec ∧ pe_expected_revision pe = expected ∧ pe_activity pe = activity ∧
    parsed (pe_checkpoint pe) (payload_active (execution p)
      (h ++ [record_dispatch_exposed (ar_sequence r) (ar_spec r) (pe_attempt_id pe)])).
Proof.
  unfold prepare_exposure. intros H Hp. apply host_bind_Ok in H as (limits & d1 & [= <- <-] & H).
  apply host_bind_Ok in H as (q & d1 & [Hq ->]%checked_Ok & H).
  apply decode_parsed in Hq as (Hq & Hspec & _). rewrite (parsed_inj _ _ _ Hq Hp) in *. clear q Hq.
  apply host_bind_Ok in H as (r & d1 & [Hr ->]%expect_Ok & H).
  apply last_record_Some in Hr as [h Hst].
  apply host_bind_Ok in H as (n & d1 & [_ ->]%checked_Ok & H).
  apply host_bind_Ok in H as ([] & d1 & [_ ->]%checked_Ok & H).
  apply host_bind_Ok in H as (a & d1 & _ & H). apply host_bind_Ok in H as (q & d2 & Hq & H).
  apply (replace_final_record_Ok _ _ _ _ _ _ _ Hst) in Hq as [-> ->].
  apply host_bind_Ok in H as (env & d2 & [Henv%encode_parsed ->]%checked_Ok & [= <- <-]).
  by exists h, r.
Qed.

Lemma load_payload_progress l spec limits p :
  load_payload spec (sc_checkpoint <$> l) limits = Ok p →
  rtc progress (payload_of l) (Some p) ∧ Checkpoint.spec (execution p) = spec.
Proof.
  destruct l as [c|]; cbn [load_payload fmap option_fmap option_map].
  - intros (Hp & Hs & _)%decode_parsed. rewrite (payload_of_parsed _ _ Hp). split; [apply rtc_refl|done].
  - intros H. apply bind_Ok in H as (a & _ & H). apply bind_Ok in H as ([] & _ & [= <-]).
    split; [apply rtc_once, begins|done].
Qed.

Lemma active_payload p h : cp_state p = Active h → p = payload_active (execution p) h.
Proof. destruct p. simpl. by intros ->. Qed.

(** Exposing the activity that was scheduled last. *)
Lemma expose_lawful spec expected cp id d pe d' boundary w d'' c h s :
  prepare_exposure spec expected cp id d = (Ok pe, d') → commit_exposure pe boundary d' = (Ok w, d'') →
  parsed cp (payload_active c (h ++ [record_scheduled (Z.of_nat (length h)) s])) →
  id = mkLogicalActivityId (execution_id spec) (Z.of_nat (length h)) s →
  sw_execution w = execution_id spec ∧ sw_expected w = expected ∧
  lawful (Some (payload_active c (h ++ [record_scheduled (Z.of_nat (length h)) s]))) w.
Proof.
  intros Hprep Hw Hcp ->. destruct (prepare_exposure_Ok _ _ _ _ _ _ _ _ Hprep Hcp) as
    (h' & r & Hst & Hspec & Hid & Hexp & Hact & Hp'). simpl in Hst, Hspec, Hp'.
  injection Hst as Hst. apply app_inj_tail in Hst as [<- <-]. simpl in Hp'.
  injection Hw as <- <-. simpl. split_and!; [done|done|].
  eexists. split_and!; [exact Hp'|apply tc_once, exposes|simpl; congruence|].
  simpl. intros res permit rev b (r & -> & [= <- <- <-])%swap_outcome_permit. split; [done|].
  exists h. simpl. rewrite Hact, Hspec. split_and!; [done|done| |done].
  intros (r' & Hr' & Hst'). rewrite list_lookup_middle in Hr' by done. injection Hr' as <-. done.
Qed.

Lemma completion_lawful expected spec o cp boundary d w d' p h :
  commit_completion_at_boundary expected spec o (Z.of_nat (length h)) cp boundary d = (Ok w, d') →
  parsed cp p → cp_state p = Active h → all_completed h →
  sw_execution w = execution_id spec ∧ sw_expected w = expected ∧ lawful (Some p) w.
Proof.
  unfold commit_completion_at_boundary. intros H Hp Hst Hall.
  apply host_bind_Ok in H as (limits & d1 & [= <- <-] & H).
  apply host_bind_Ok in H as (q & d1 & [Hq ->]%checked_Ok & H).
  apply decode_parsed in Hq as (Hq & Hspec & _). rewrite (parsed_inj _ _ _ Hq Hp) in *. clear q Hq.
  apply host_bind_Ok in H as (t & d1 & [Ht ->]%checked_Ok & H).
  apply host_bind_Ok in H as (env & d1 & [Henv%encode_parsed ->]%checked_Ok & [= <- <-]). simpl.
  unfold into_terminal in Ht. apply bind_Ok in Ht as ([] & _ & Ht). apply bind_Ok in Ht as ([] & Hv & [= <-]).
  unfold validate_terminal_outcome in Hv. apply bind_Ok in Hv as (a & Ha%ok_or_Ok%u64_try_from_Some & Hv).
  destruct Ha as [-> _]. apply reject_if_Ok, Z.ltb_ge in Hv.
  split_and!; [done|done|]. eexists. split_and!; [exact Henv| |by rewrite <-Hspec|].
  - apply tc_once. rewrite (active_payload _ _ Hst) at 1. by constructor.
  - simpl. intros res permit rev b (r & _ & [=])%swap_outcome_permit.
Qed.

Lemma schedule_lawful id expected activity cp d w d' c h s :
  commit_schedule id expected activity cp d = (Ok w, d') → all_completed h →
  id = execution_id (Checkpoint.spec c) →
  parsed cp (payload_active c (h ++ [record_scheduled (Z.of_nat (length h)) s])) →
  sw_execution w = id ∧ sw_expected w = expected ∧ lawful (Some (payload_active c h)) w.
Proof.
  intros [= <- <-] Hall Hid Hp. simpl. split_and!; [done|done|]. eexists.
  split_and!; [exact Hp|apply tc_once; by constructor|done|].
  simpl. intros res permit rev b (r & _ & [=])%swap_outcome_permit.
Qed.

(** What every call establishes of the swap it ends in. *)
Definition prepared (spec : ExecutionSpec) (l : option StoredCheckpoint) (w : Swap) : Prop :=
  sw_execution w = execution_id spec ∧ sw_expected w = sc_revision <$> l ∧ lawful (payload_of l) w.

Lemma prepared_from spec l w p :
  rtc progress (payload_of l) (Some p) →
  sw_execution w = execution_id spec ∧ sw_expected w = sc_revision <$> l ∧ lawful (Some p) w →
  prepared spec l w.
Proof. intros Hr (? & ? & ?). split_and!; [done|done|by eapply lawful_rtc]. Qed.

(** A pending activity that is only scheduled. *)
Lemma pending_lawful workflow spec l limits id d pe d' boundary w d'' stored :
  evaluate workflow spec (sc_checkpoint <$> l) limits = EvPending id ActScheduled → l = Some stored →
  prepare_exposure spec (Some (sc_revision stored)) (sc_checkpoint stored) id d = (Ok pe, d') →
  commit_exposure pe boundary d' = (Ok w, d'') → prepared spec l w.
Proof.
  intros Hev -> Hprep Hw. pose proof (evaluate_report workflow spec (Some (sc_checkpoint stored)) limits) as Hrep.
  cbn [fmap option_fmap option_map] in Hev. rewrite Hev in Hrep.
  destruct Hrep as (p & h & r & Hload & Hst & Hsch & _ & Hsq & ->).
  destruct (load_payload_progress (Some stored) _ _ _ Hload) as [Hrtc _].
  cbn [load_payload] in Hload. apply decode_parsed in Hload as (Hp & Hs & _).
  assert (r = record_scheduled (Z.of_nat (length h)) (ar_spec r)) as Hr by (destruct r; simpl in *; by subst).
  rewrite (active_payload _ _ Hst), Hr in Hp, Hrtc.
  eapply prepared_from; [exact Hrtc|].
  eapply (expose_lawful _ _ _ _ _ _ _ _ _ _ _ _ (ar_spec r) Hprep Hw Hp).
  unfold logical_id. by rewrite Hsq.
Qed.

Lemma scheduled_exposed workflow spec l limits id cp d pe d' boundary w d'' expected p0 :
  evaluate workflow spec (sc_checkpoint <$> l) limits = EvScheduled id cp →
  rtc progress p0 (payload_of l) →
  prepare_exposure spec expected cp id d = (Ok pe, d') → commit_exposure pe boundary d' = (Ok w, d'') →
  sw_execution w = execution_id spec ∧ sw_expected w = expected ∧ lawful p0 w.
Proof.
  intros Hev Hr0 Hprep Hw. pose proof (evaluate_report workflow spec (sc_checkpoint <$> l) limits) as Hrep.
  rewrite Hev in Hrep. destruct Hrep as (p & h & s & Hload & Hst & Hall & -> & Henv%encode_parsed).
  destruct (load_payload_progress _ _ _ _ Hload) as [Hrtc _].
  destruct (expose_lawful _ _ _ _ _ _ _ _ _ _ _ _ s Hprep Hw Henv eq_refl) as (? & ? & Hl).
  split_and!; [done|done|]. eapply lawful_rtc; [|exact Hl]. etrans; [exact Hr0|]. etrans; [exact Hrtc|].
  rewrite (active_payload _ _ Hst) at 1. apply rtc_once. by constructor.
Qed.

Lemma completed_prepared workflow spec l limits o n cp d boundary w d' expected p0 :
  evaluate workflow spec (sc_checkpoint <$> l) limits = EvComplete o n cp →
  rtc progress p0 (payload_of l) →
  commit_completion_at_boundary expected spec o n cp boundary d = (Ok w, d') →
  sw_execution w = execution_id spec ∧ sw_expected w = expected ∧ lawful p0 w.
Proof.
  intros Hev Hr0 Hw. pose proof (evaluate_report workflow spec (sc_checkpoint <$> l) limits) as Hrep.
  rewrite Hev in Hrep. destruct Hrep as (p & h & Hload & Hst & Hall & -> & Henv%encode_parsed).
  destruct (load_payload_progress _ _ _ _ Hload) as [Hrtc _].
  destruct (completion_lawful _ _ _ _ _ _ _ _ _ _ Hw Henv Hst Hall) as (? & ? & Hl).
  split_and!; [done|done|]. eapply lawful_rtc; [|exact Hl]. by etrans.
Qed.

Lemma turn_prepared workflow spec loaded d w d' :
  turn workflow spec loaded d = (Ok w, d') → ∃ l, loaded = Ok l ∧ prepared spec l w.
Proof.
  unfold turn. intros H. destruct loaded as [l|e]; [|discriminate H]. exists l. split; [done|].
  apply host_bind_Ok in H as (l' & d1 & [= <- <-] & H). apply host_bind_Ok in H as ([] & d1 & _ & H).
  apply host_bind_Ok in H as (limits & d2 & [= <- <-] & H).
  destruct (evaluate _ _ _ _) as [id cp|id st|o n cp|o n|n|e|] eqn:Hev; try discriminate H.
  - pose proof (evaluate_report workflow spec (sc_checkpoint <$> l) (dh_limits d1)) as Hrep. rewrite Hev in Hrep.
    destruct Hrep as (p & h & s & Hload & Hst & Hall & -> & Henv%encode_parsed).
    destruct (load_payload_progress _ _ _ _ Hload) as [Hrtc Hs].
    eapply prepared_from; [exact Hrtc|]. rewrite (active_payload _ _ Hst).
    eapply schedule_lawful; [exact H|done|by rewrite Hs|exact Henv].
  - destruct st as [|a|r]; [|discriminate H..].
    apply host_bind_Ok in H as (st & d2 & [Hl ->]%expect_Ok & H).
    apply host_bind_Ok in H as (pe & d2 & Hprep & H). by eapply pending_lawful.
  - by eapply completed_prepared.
  - by apply host_bind_Ok in H as (st & d2 & _ & [=]).
Qed.

Lemma turn_and_expose_prepared workflow spec loaded d w d' :
  turn_and_expose workflow spec loaded d = (Ok w, d') → ∃ l, loaded = Ok l ∧ prepared spec l w.
Proof.
  unfold turn_and_expose. intros H. destruct loaded as [l|e]; [|discriminate H]. exists l. split; [done|].
  apply host_bind_Ok in H as (l' & d1 & [= <- <-] & H). apply host_bind_Ok in H as ([] & d1 & _ & H).
  apply host_bind_Ok in H as (limits & d2 & [= <- <-] & H).
  destruct (evaluate _ _ _ _) as [id cp|id st|o n cp|o n|n|e|] eqn:Hev; try discriminate H.
  - apply host_bind_Ok in H as (pe & d2 & Hprep & H). by eapply scheduled_exposed.
  - destruct st as [|a|r]; [|discriminate H..].
    apply host_bind_Ok in H as (st & d2 & [Hl ->]%expect_Ok & H).
    apply host_bind_Ok in H as (pe & d2 & Hprep & H). by eapply pending_lawful.
  - by eapply completed_prepared.
  - by apply host_bind_Ok in H as (st & d2 & _ & [=]).
Qed.

(** An accepted observation completes the exposed activity. *)
Lemma accept_observation_Ok measure spec ob loaded d stored id p d' :
  accept_observation measure spec ob loaded d = (Ok (stored, id, p), d') →
  loaded = Ok (Some stored) ∧ id = ob_activity ob ∧ ∃ c h a,
    Checkpoint.spec c = spec ∧
    id = mkLogicalActivityId (execution_id spec) (Z.of_nat (length h)) (la_spec id) ∧
    payload_of (Some stored) = Some (payload_active c
      (h ++ [record_dispatch_exposed (Z.of_nat (length h)) (la_spec id) a])) ∧
    p = payload_active c (h ++ [record_completed (Z.of_nat (length h)) (la_spec id) (ob_result ob)]).
Proof.
  unfold accept_observation. intros H. destruct loaded as [[st|]|e]; [|discriminate H..].
  apply host_bind_Ok in H as (l' & d1 & [= <- <-] & H). apply host_bind_Ok in H as (limits & d1 & [= <- <-] & H).
  apply host_bind_Ok in H as (p0 & d1 & [Hp0 ->]%checked_Ok & H).
  apply decode_parsed in Hp0 as (Hp0 & Hspec & Hval).
  destruct (last_record p0) as [r|] eqn:Hr; [|discriminate H].
  apply last_record_Some in Hr as [h Hst]. case_decide as Hid; [discriminate H|].
  destruct (ar_state r) as [|a|res] eqn:Hrs; [discriminate H| |discriminate H].
  apply host_bind_Ok in H as (n & d1 & Hn & H).
  destruct (max_result_bytes (ar_spec r) <? n); [discriminate H|].
  apply host_bind_Ok in H as (p1 & d2 & Hp1 & [= <- <- <- <-]).
  apply (replace_final_record_Ok _ _ _ _ _ _ _ Hst) in Hp1 as [-> _].
  pose proof (validate_history _ _ _ _ Hval Hst) as Hhist.
  apply validate_from_sequence with (i := length h) (r := r) in Hhist; [|by apply list_lookup_middle].
  split_and!; [done|done|]. exists (execution p0), h, a. rewrite (payload_of_parsed _ _ Hp0).
  unfold logical_id in *. cbn [la_spec]. rewrite Hhist, Z.add_0_l. split_and!; [done|done| |done].
  f_equal. rewrite (active_payload _ _ Hst) at 1. do 3 f_equal. destruct r; simpl in *. subst. by rewrite Z.add_0_l.
Qed.

Lemma encode_history p limits env h :
  encode_with_limits p limits = Ok env → cp_state p = Active h → validate_active_history h = Ok tt.
Proof.
  unfold encode_with_limits, validate_internal. intros Hv Hst. apply bind_Ok in Hv as ([] & Hv & _).
  apply bind_Ok in Hv as (a & _ & Hv). apply bind_Ok in Hv as ([] & _ & Hv). apply bind_Ok in Hv as (b & _ & Hv).
  apply bind_Ok in Hv as (b' & _ & Hv). apply bind_Ok in Hv as ([] & _ & Hv). rewrite Hst in Hv.
  by apply bind_Ok in Hv as ([] & _ & Hv).
Qed.

Lemma validate_from_bound count n activities i r res :
  validate_from count n activities = Ok tt → activities !! i = Some r → ar_state r = ActCompleted res →
  bytes_len res ≤ max_result_bytes (ar_spec r).
Proof.
  revert n i. induction activities as [|x xs IH]; intros n [|i]; simpl; try done;
    rewrite bind_Ok; intros ([] & Hx & Hxs).
  - intros [= <-] Hst. unfold validate_record in Hx. rewrite Hst in Hx.
    apply bind_Ok in Hx as (e & _ & Hx). apply bind_Ok in Hx as ([] & _ & Hx).
    apply bind_Ok in Hx as (a & Ha%ok_or_Ok%u64_try_from_Some & Hx). destruct Ha as [-> _].
    by apply reject_if_Ok, Z.ltb_ge in Hx.
  - intros Hi Hst. by eapply IH.
Qed.

(** ... and the completed payload is one step on, once it was encoded. *)
Lemma observation_progress c h s a r limits env :
  encode_with_limits (payload_active c (h ++ [record_completed (Z.of_nat (length h)) s r])) limits = Ok env →
  progress (Some (payload_active c (h ++ [record_dispatch_exposed (Z.of_nat (length h)) s a])))
    (Some (payload_active c (h ++ [record_completed (Z.of_nat (length h)) s r]))).
Proof.
  intros He. eapply encode_history in He; [|done]. apply completes.
  eapply (validate_from_bound _ _ _ (length h) (record_completed _ s r)) in He; [exact He| |done].
  by apply list_lookup_middle.
Qed.

Lemma observe_prepared spec ob loaded d w d' :
  observe spec ob loaded d = (Ok w, d') → ∃ l, loaded = Ok l ∧ prepared spec l w.
Proof.
  unfold observe. intros H. apply host_bind_Ok in H as ([[stored id] p] & d1 & Hacc & H).
  apply accept_observation_Ok in Hacc as (-> & _ & c & h & a & Hspec & _ & Hpo & ->).
  exists (Some stored). split; [done|]. cbn beta iota in H.
  apply host_bind_Ok in H as (limits & d2 & [= <- <-] & H).
  apply host_bind_Ok in H as (env & d2 & [Henv ->]%checked_Ok & [= <- <-]).
  split_and!; [done|done|]. rewrite Hpo. pose proof (encode_parsed _ _ _ Henv) as Hp.
  eexists. split_and!; [exact Hp|by eapply tc_once, observation_progress|simpl; by rewrite Hspec|].
  simpl. intros res permit rev b (r & _ & [=])%swap_outcome_permit.
Qed.

Lemma observe_and_turn_prepared workflow spec ob loaded d w d' :
  observe_and_turn workflow spec ob loaded d = (Ok w, d') → ∃ l, loaded = Ok l ∧ prepared spec l w.
Proof.
  unfold observe_and_turn. intros H. apply host_bind_Ok in H as ([[stored id] p] & d1 & Hacc & H).
  apply accept_observation_Ok in Hacc as (-> & _ & c & h & a & Hspec & _ & Hpo & ->).
  exists (Some stored). split; [done|]. cbn beta iota in H.
  apply host_bind_Ok in H as (limits & d2 & [= <- <-] & H).
  apply host_bind_Ok in H as (env & d2 & [Henv ->]%checked_Ok & H).
  set (l' := Some (mkStoredCheckpoint "" env)).
  assert (rtc progress (payload_of (Some stored)) (payload_of l')) as Hr.
  { rewrite Hpo. unfold l'. erewrite payload_of_parsed by (simpl; by eapply encode_parsed).
    by eapply rtc_once, observation_progress. }
  change (Some env) with (sc_checkpoint <$> l') in H.
  destruct (evaluate _ _ _ _) as [id' cp|id' st|o n cp|o n|n|e|] eqn:Hev; try discriminate H.
  - apply host_bind_Ok in H as (pe & d2 & Hprep & H). by eapply scheduled_exposed.
  - destruct st; discriminate H.
  - by eapply completed_prepared.
Qed.

Lemma call_prepared c loaded d w d' :
  run_call c loaded d = (Ok w, d') → ∃ l, loaded = Ok l ∧ prepared (call_spec c) l w.
Proof.
  destruct c; simpl.
  - apply turn_prepared.
  - apply turn_and_expose_prepared.
  - apply observe_prepared.
  - apply observe_and_turn_prepared.
Qed.

(** ** Calls do not panic

    [safe k m]: [m] never returns a permit early, and while the attempt
    counter has [k] values left it does not panic and uses at most [k] of
    them. *)
Definition is_permit (o : HostOutcome) : bool :=
  match o with DispatchPermitted _ _ _ => true | _ => false end.

Definition safe {A} (k : Z) (m : host A) : Prop :=
  ∀ d r d', m d = (r, d') →
    (∀ o, r = Err (Exit o) → is_permit o = false) ∧
    (0 < next_attempt_counter d → next_attempt_counter d + k ≤ u64_max →
     (∀ s, r ≠ Err (Panic s)) ∧ next_attempt_counter d ≤ next_attempt_counter d' ≤ next_attempt_counter d + k).

Lemma safe_ret {A} (a : A) k : 0 ≤ k → safe k (mret a : host A).
Proof. intros Hk d r d' [= <- <-]. split; [done|]. split; [done|lia]. Qed.

Lemma safe_return {A} o k : 0 ≤ k → is_permit o = false → safe k (return_ o : host A).
Proof. intros Hk Ho d r d' [= <- <-]. split; [by intros ? [= <-]|]. split; [done|lia]. Qed.

Lemma safe_bind {A B} k1 k2 (m : host A) (f : A → host B) :
  0 ≤ k2 → safe k1 m → (∀ a d d', m d = (Ok a, d') → safe k2 (f a)) → safe (k1 + k2) (m ≫= f).
Proof.
  intros Hk2 Hm Hf d r d' H. unfold mbind, host_bind in H. destruct (m d) as [[a|e] d1] eqn:Hmd.
  - destruct (Hm _ _ _ Hmd) as [_ Hd]. destruct (Hf a d d1 Hmd _ _ _ H) as [Ho Hd'].
    split; [exact Ho|]. intros Hpos Hmax. destruct Hd as [_ ?]; [done|lia|].
    destruct Hd' as [? ?]; [lia|lia|]. split; [done|lia].
  - injection H as <- <-. destruct (Hm _ _ _ Hmd) as [Ho Hp]. split; [intros o [= ->]; by apply Ho|].
    intros Hpos Hmax. destruct Hp as [Hp ?]; [done|lia|]. split; [|lia]. intros s [= ->]. by eapply Hp.
Qed.

(** The computation before a bind takes nothing from the counter. *)
Lemma safe_bind0 {A B} k (m : host A) (f : A → host B) :
  0 ≤ k → safe 0 m → (∀ a d d', m d = (Ok a, d') → safe k (f a)) → safe k (m ≫= f).
Proof. intros. change k with (0 + k). by apply safe_bind. Qed.

Lemma safe_asks {A} (f : DurableHost → A) : safe 0 (asks f).
Proof. intros d r d' [= <- <-]. split; [done|]. split; [done|lia]. Qed.

Lemma safe_checked {A} (r : result CheckpointError A) : safe 0 (checked r).
Proof. destruct r; [by apply safe_ret|by apply safe_return]. Qed.

Lemma safe_expect {A} (o : option A) m : is_Some o → safe 0 (expect o m).
Proof. intros [a ->]. by apply safe_ret. Qed.

Lemma safe_next_attempt : safe 1 next_attempt.
Proof.
  intros d r d' H. unfold next_attempt, u64_checked_add, attempt_id_new in H. split.
  - repeat case_match; naive_solver.
  - intros Hpos Hmax. rewrite decide_True in H by lia.
    rewrite (proj2 (Z.eqb_neq _ _)) in H by lia. simpl in H. injection H as <- <-. simpl. split; [done|lia].
Qed.

Lemma safe_replace p r h x : cp_state p = Active (h ++ [x]) → safe 0 (replace_final_record p r).
Proof.
  intros Hst. unfold replace_final_record, active_activities. rewrite Hst.
  apply safe_bind0; [lia|by apply safe_expect|]. intros acts d d' [[= <-] _]%expect_Ok.
  apply safe_bind0; [lia|apply safe_expect; by rewrite last_snoc|]. intros. by apply safe_ret.
Qed.

#[local] Hint Resolve safe_asks safe_checked safe_next_attempt safe_replace : core.

Lemma safe_prepare spec expected cp activity p h r :
  parsed cp p → cp_state p = Active (h ++ [r]) → safe 1 (prepare_exposure spec expected cp activity).
Proof.
  intros Hp Hst. unfold prepare_exposure. apply safe_bind0; [lia|done|]. intros limits d d' _.
  apply safe_bind0; [lia|done|]. intros q d1 d1' [Hq _]%checked_Ok. apply decode_parsed in Hq as (Hq & _).
  rewrite (parsed_inj _ _ _ Hq Hp) in *. apply safe_bind0; [lia| |].
  { apply safe_expect. exists r. apply last_record_Some. by exists h. }
  intros. apply safe_bind0; [lia|done|]. intros. apply safe_bind0; [lia|done|]. intros.
  apply (safe_bind 1 0); [lia|done|]. intros. apply safe_bind0; [lia|by eapply safe_replace|]. intros.
  apply safe_bind0; [lia|done|]. intros. by apply safe_ret.
Qed.

Lemma safe_loaded loaded : safe 0 (loaded_or_fail loaded).
Proof. destruct loaded; [by apply safe_ret|by apply safe_return]. Qed.

Lemma safe_inspect spec stored : safe 0 (inspect spec stored).
Proof.
  unfold inspect. apply safe_bind0; [lia|done|]. intros. apply safe_bind0; [lia|done|]. intros.
  repeat case_match; by apply safe_return || by apply safe_ret.
Qed.

Lemma safe_completion expected spec o n cp boundary : safe 0 (commit_completion_at_boundary expected spec o n cp boundary).
Proof.
  unfold commit_completion_at_boundary. do 4 (apply safe_bind0; [lia|done|]; intros). by apply safe_ret.
Qed.

Lemma safe_weaken {A} k k' (m : host A) : k ≤ k' → safe k m → safe k' m.
Proof.
  intros Hk Hm d r d' H. destruct (Hm d r d' H) as [Ho Hp]. split; [done|]. intros Hpos Hmax.
  destruct Hp; [done|lia|]. split; [done|lia].
Qed.

(** Preparing what an evaluation scheduled, or what is pending. *)
Lemma safe_scheduled workflow spec cp0 limits id cp expected boundary :
  evaluate workflow spec cp0 limits = EvScheduled id cp →
  safe 1 (prepare_exposure spec expected cp id ≫= λ pe, commit_exposure pe boundary).
Proof.
  intros Hev. pose proof (evaluate_report workflow spec cp0 limits) as Hrep. rewrite Hev in Hrep.
  destruct Hrep as (p & h & s & _ & _ & _ & -> & Henv%encode_parsed).
  apply (safe_bind 1 0); [lia|by eapply safe_prepare|]. intros. by apply safe_ret.
Qed.

Lemma safe_pending workflow spec l limits id boundary :
  evaluate workflow spec (sc_checkpoint <$> l) limits = EvPending id ActScheduled →
  safe 1 (stored ← expect l "pending evaluation requires a loaded checkpoint";
          pe ← prepare_exposure spec (Some (sc_revision stored)) (sc_checkpoint stored) id;
          commit_exposure pe boundary).
Proof.
  intros Hev. pose proof (evaluate_report workflow spec (sc_checkpoint <$> l) limits) as Hrep. rewrite Hev in Hrep.
  destruct Hrep as (p & h & r & Hload & Hst & _). destruct l as [stored|].
  - apply safe_bind0; [lia|by apply safe_expect|]. intros ? ? ? [[= <-] _]%expect_Ok.
    cbn [fmap option_fmap option_map load_payload] in Hload. apply decode_parsed in Hload as (Hp & _).
    apply (safe_bind 1 0); [lia|by eapply safe_prepare|]. intros. by apply safe_ret.
  - cbn [fmap option_fmap option_map load_payload] in Hload. apply bind_Ok in Hload as (a & _ & Hload).
    apply bind_Ok in Hload as ([] & _ & [= <-]). simpl in Hst. injection Hst as Hst. by destruct h.
Qed.

Lemma safe_terminal workflow spec l limits o n :
  evaluate workflow spec (sc_checkpoint <$> l) limits = EvTerminal o n →
  safe 1 (stored ← expect l "terminal evaluation requires a loaded checkpoint";
          (return_ (WorkflowCompleted o (sc_revision stored) BCompletion) : host Swap)).
Proof.
  intros Hev. pose proof (evaluate_report workflow spec (sc_checkpoint <$> l) limits) as Hrep. rewrite Hev in Hrep.
  destruct Hrep as (p & Hload & Hst). destruct l as [stored|].
  - apply safe_bind0; [lia|by apply safe_expect|]. intros. by apply safe_return.
  - cbn [fmap option_fmap option_map load_payload] in Hload. apply bind_Ok in Hload as (a & _ & Hload).
    by apply bind_Ok in Hload as ([] & _ & [= <-]).
Qed.

Lemma not_pending_completed workflow spec cp limits id r :
  evaluate workflow spec cp limits ≠ EvPending id (ActCompleted r).
Proof.
  intros Hev. pose proof (evaluate_report workflow spec cp limits) as Hrep. rewrite Hev in Hrep.
  destruct Hrep as (p & h & x & _ & _ & _ & Hne & _). by eapply Hne.
Qed.

Lemma safe_completion1 expected spec o n cp boundary : safe 1 (commit_completion_at_boundary expected spec o n cp boundary).
Proof. by eapply (safe_weaken 0), safe_completion. Qed.

Lemma safe_commit_completion expected spec o n cp : safe 1 (commit_completion expected spec o n cp).
Proof. apply safe_completion1. Qed.

#[local] Hint Resolve safe_commit_completion safe_loaded safe_inspect safe_scheduled safe_pending safe_terminal safe_completion1 : core.

Lemma safe_inspected spec l :
  safe 0 (match l with Some stored => inspect spec stored | None => mret tt end).
Proof. destruct l; [done|by apply safe_ret]. Qed.

Lemma safe_turn workflow spec loaded : safe 1 (turn workflow spec loaded).
Proof.
  unfold turn. apply safe_bind0; [lia|done|]. intros l d d' _.
  apply safe_bind0; [lia|apply safe_inspected|]. intros _ d1 d1' _.
  apply safe_bind0; [lia|done|]. intros limits d2 d2' _.
  destruct (evaluate _ _ _ _) as [id cp|id [|a|r]|o n cp|o n|n|e|] eqn:Hev; eauto; try by apply safe_return.
  - by apply safe_ret.
  - by apply not_pending_completed in Hev.
Qed.

Lemma safe_turn_and_expose workflow spec loaded : safe 1 (turn_and_expose workflow spec loaded).
Proof.
  unfold turn_and_expose. apply safe_bind0; [lia|done|]. intros l d d' _.
  apply safe_bind0; [lia|apply safe_inspected|]. intros _ d1 d1' _.
  apply safe_bind0; [lia|done|]. intros limits d2 d2' _.
  destruct (evaluate _ _ _ _) as [id cp|id [|a|r]|o n cp|o n|n|e|] eqn:Hev; eauto; try by apply safe_return.
  by apply not_pending_completed in Hev.
Qed.

Lemma safe_accept measure spec ob loaded :
  (∀ n b, safe 0 (measure n b)) → safe 0 (accept_observation measure spec ob loaded).
Proof.
  intros Hm. unfold accept_observation. apply safe_bind0; [lia|done|]. intros [stored|] d d' _; [|by apply safe_return].
  apply safe_bind0; [lia|done|]. intros limits d1 d1' _. apply safe_bind0; [lia|done|]. intros p d2 d2' _.
  destruct (last_record p) as [r|] eqn:Hr; [|by apply safe_return]. apply last_record_Some in Hr as [h Hst].
  case_decide; [by apply safe_return|]. destruct (ar_state r); [by apply safe_return| |by apply safe_return].
  apply safe_bind0; [lia|done|]. intros n d3 d3' _. case_match; [by apply safe_return|].
  apply safe_bind0; [lia|by eapply safe_replace|]. intros. by apply safe_ret.
Qed.

Lemma safe_observe spec ob loaded : safe 1 (observe spec ob loaded).
Proof.
  unfold observe. apply safe_bind0; [lia| |].
  { apply safe_accept. intros n b. unfold measured. case_match; [by apply safe_ret|by apply safe_return]. }
  intros [[stored id] p] d d' _. apply safe_bind0; [lia|done|]. intros. apply safe_bind0; [lia|done|].
  intros. by apply safe_ret.
Qed.

Lemma safe_observe_and_turn workflow spec ob loaded : safe 1 (observe_and_turn workflow spec ob loaded).
Proof.
  unfold observe_and_turn. apply safe_bind0; [lia| |].
  { apply safe_accept. intros n b. by apply safe_ret. }
  intros [[stored id] p] d d' _. apply safe_bind0; [lia|done|]. intros limits d1 d1' _.
  apply safe_bind0; [lia|done|]. intros cp d2 d2' _.
  destruct (evaluate _ _ _ _) as [id' cp'|id' [|a|r]|o n cp'|o n|n|e|] eqn:Hev; eauto; by apply safe_return.
Qed.

Lemma safe_call c loaded : safe 1 (run_call c loaded).
Proof. destruct c; [apply safe_turn|apply safe_turn_and_expose|apply safe_observe|apply safe_observe_and_turn]. Qed.
End calls.

(** ** Many hosts on one store *)

Section system.
  Context {Enc : Encoding} {Laws : EncodingLaws}.
  Context {S : Type} {Store : CheckpointStore S} {SLaws : CheckpointStoreLaws S}.

(** What the store holds for an execution. *)
Definition held (s : S) (e : ExecutionId) : option CheckpointPayload := payload_of (stored s e).

(** Only an accepted swap permits a dispatch. *)
Definition permits_accepted (w : Swap) : Prop :=
  ∀ res permit revision boundary, sw_outcome w res = DispatchPermitted permit revision boundary →
    res = Ok (Accepted revision).

(** A swap in flight is lawful for what it will be compared with. *)
Definition flight_ok (s : S) (w : Swap) : Prop :=
  permits_accepted w ∧
  match sw_expected w with
  | None => lawful None w
  | Some r => used s (sw_execution w) r ∧
      ∀ c, stored s (sw_execution w) = Some c → sc_revision c = r → lawful (payload_of (Some c)) w
  end.

Record sys_inv (y : System) : Prop := {
  inv_store : store_inv (sys_store y);
  inv_flights : Forall (flight_ok (sys_store y)) (in_flight y);
}.

Lemma flight_same s s' w : same_contents s s' → flight_ok s w → flight_ok s' w.
Proof.
  intros [Hs Hu] [Ha H]. split; [done|]. destruct (sw_expected w) as [r|]; [|done].
  destruct H as [Hr Hw]. split; [by apply Hu|]. intros c. rewrite Hs. apply Hw.
Qed.

Lemma flight_applied e x cp s s' r w : applied e x cp s s' r → flight_ok s w → flight_ok s' w.
Proof.
  intros (_ & Hfresh & Hst & Hother & _ & Hu) [Ha H]. split; [done|]. destruct (sw_expected w) as [r'|]; [|done].
  destruct H as [Hr Hw]. split; [by apply Hu|]. intros c Hc Hrc. destruct (decide (sw_execution w = e)) as [He|Hne].
  - rewrite He in *. rewrite Hst in Hc. injection Hc as <-. simpl in Hrc. by subst.
  - rewrite Hother in Hc by done. by apply Hw.
Qed.

Lemma flight_prepared spec s s' w l :
  store_inv s → same_contents s s' → l = stored s (execution_id spec) → prepared spec l w → flight_ok s' w.
Proof.
  intros Hinv Hsame -> (He & Hx & Hw). apply (flight_same s); [done|]. split.
  { destruct Hw as (p' & _ & _ & _ & Ho). intros res permit rev b Hout. by apply Ho in Hout as [-> _]. }
  rewrite Hx, He.
  destruct (stored s (execution_id spec)) as [c|] eqn:Hc; simpl; [|done].
  split; [by eapply stored_used|]. by intros ? [= <-] _.
Qed.

(** A swap that reaches the store: an applied one moves the payload it was
    prepared from; a permit means it was applied, and under which revision. *)
Lemma swap_effect s w res s' :
  store_inv s → flight_ok s w →
  compare_and_swap (sw_execution w) (sw_expected w) (sw_checkpoint w) s = (res, s') →
  store_inv s' ∧ (∀ w', flight_ok s w' → flight_ok s' w') ∧
  (∀ e, rtc progress (held s e) (held s' e)) ∧
  (∀ permit revision boundary, sw_outcome w res = DispatchPermitted permit revision boundary →
     let e := la_execution_id (dp_activity permit) in
     ∃ p', held s' e = Some p' ∧ permits (held s e) p' permit ∧
       sc_revision <$> stored s' e = Some revision).
Proof.
  intros Hinv Hw Hcas. pose proof (cas_inv (sw_execution w) (sw_expected w) (sw_checkpoint w) s Hinv) as Hinv'.
  pose proof (cas_lawful (sw_execution w) (sw_expected w) (sw_checkpoint w) s Hinv) as Hc.
  rewrite Hcas in Hinv', Hc. simpl in Hinv', Hc.
  assert (∀ r, applied (sw_execution w) (sw_expected w) (sw_checkpoint w) s s' r → lawful (held s (sw_execution w)) w)
    as Hlawful.
  { intros r (Hx & _). destruct Hw as [_ Hw]. unfold held. rewrite <-Hx in Hw.
    destruct (stored s (sw_execution w)) as [c|]; simpl in Hw; [by apply Hw|done]. }
  assert (same_contents s s' ∨ ∃ r, applied (sw_execution w) (sw_expected w) (sw_checkpoint w) s s' r) as Hcase.
  { destruct res as [[r| |]|]; simpl in Hc; eauto. }
  split_and!; [done|..].
  - intros w' Hw'. destruct Hcase as [?|[r ?]]; [by eapply flight_same|by eapply flight_applied].
  - intros e. unfold held. destruct Hcase as [[Hs _]|[r Happ]]; [by rewrite Hs|].
    destruct (decide (e = sw_execution w)) as [->|Hne].
    + destruct (Hlawful r Happ) as (p' & Hp & Htc & _). destruct Happ as (_ & _ & -> & _).
      rewrite (payload_of_parsed _ p') by done. by apply tc_rtc.
    + destruct Happ as (_ & _ & _ & Ho & _). by rewrite Ho.
  - intros permit rev b Hout.
    pose proof (proj1 Hw _ _ _ _ Hout) as ->.
    simpl in Hc. destruct (Hlawful rev Hc) as (p' & Hp & _ & He & Ho). destruct (Ho _ _ _ _ Hout) as [_ Hpm].
    destruct Hc as (_ & _ & Hst & _). pose proof Hpm as (h & _ & _ & _ & Heq).
    rewrite Heq, <-He. unfold held at 1. rewrite Hst. exists p'.
    split_and!; [by apply payload_of_parsed|done|done].
Qed.

(** A permit returned by a step that led to [y']: the store holds the
    exposed activity under the permit's revision and attempt. *)
Definition granted (y y' : System) (o : Event) : Prop :=
  ∀ permit revision boundary, o = Returned (DispatchPermitted permit revision boundary) →
    let e := la_execution_id (dp_activity permit) in
    ∃ p', held (sys_store y') e = Some p' ∧ permits (held (sys_store y) e) p' permit ∧
      sc_revision <$> stored (sys_store y') e = Some revision.

Lemma held_same s s' e : same_contents s s' → held s' e = held s e.
Proof. intros [Hs _]. unfold held. by rewrite Hs. Qed.

Lemma step_effect l y y' es :
  sys_inv y → sys_step l y = (y', es) →
  sys_inv y' ∧ (∀ e, rtc progress (held (sys_store y) e) (held (sys_store y') e)) ∧
  (es = [] ∨ ∃ o, es = [o] ∧ granted y y' o).
Proof.
  intros [Hst Hfl] H. destruct l as [epoch limits|i c|j|j]; simpl in H.
  - injection H as <- <-. split; [by constructor|]. split; [|by left]. intros. apply rtc_refl.
  - destruct (hosts y !! i) as [d|] eqn:Hi.
    2: { injection H as <- <-. split; [done|]. split; [|by left]. intros. apply rtc_refl. }
    pose proof (load_inv (execution_id (call_spec c)) _ Hst) as Hinv'.
    pose proof (load_same (execution_id (call_spec c)) _ Hst) as Hsame.
    pose proof (load_stored (execution_id (call_spec c)) (sys_store y)) as Hloaded.
    destruct (load _ _) as [loaded s']. simpl in Hinv', Hsame, Hloaded.
    destruct (run_call c loaded d) as [r d'] eqn:Hrun.
    assert (Forall (flight_ok s') (in_flight y)) as Hfl'.
    { eapply Forall_impl; [exact Hfl|]. intros w. by apply flight_same. }
    assert (∀ e, rtc progress (held (sys_store y) e) (held s' e)) as Hrtc.
    { intros e. rewrite (held_same _ _ e Hsame). apply rtc_refl. }
    destruct r as [w|[o|m]]; injection H as <- <-.
    + split; [|split; [done|by left]]. split; [done|]. simpl. apply Forall_app. split; [done|].
      apply Forall_singleton. apply call_prepared in Hrun as (l & -> & Hprep).
      eapply flight_prepared; [exact Hst|done|by apply Hloaded|exact Hprep].
    + split; [done|]. split; [done|]. right. eexists. split; [done|]. intros permit rev b [= ->].
      destruct (safe_call c loaded d _ _ Hrun) as [Ho _]. by specialize (Ho _ eq_refl).
    + split; [done|]. split; [done|]. right. eexists. split; [done|]. intros permit rev b [=].
  - destruct (in_flight y !! j) as [w|] eqn:Hj.
    2: { injection H as <- <-. split; [done|]. split; [|by left]. intros. apply rtc_refl. }
    destruct (compare_and_swap _ _ _ _) as [res s'] eqn:Hcas. injection H as <- <-.
    pose proof (proj1 (Forall_lookup _ _) Hfl j w Hj) as Hw.
    destruct (swap_effect _ _ _ _ Hst Hw Hcas) as (Hinv' & Hfl' & Hrtc & Hpm).
    split; [|split; [done|]].
    + split; [done|]. apply Forall_delete. eapply Forall_impl; [exact Hfl|done].
    + right. eexists. split; [done|]. intros permit rev b [= Hout]. by apply (Hpm permit rev b).
  - injection H as <- <-. split; [|split; [|by left]].
    + split; [done|]. by apply Forall_delete.
    + intros. apply rtc_refl.
Qed.

Lemma run_effect ls y y' es :
  sys_inv y → sys_run ls y = (y', es) →
  sys_inv y' ∧ (∀ e, rtc progress (held (sys_store y) e) (held (sys_store y') e)).
Proof.
  revert y es. induction ls as [|l ls IH]; intros y es Hinv; simpl.
  - intros [= <- <-]. split; [done|]. intros. apply rtc_refl.
  - destruct (sys_step l y) as [y1 e1] eqn:H1. destruct (sys_run ls y1) as [y2 e2] eqn:H2. intros [= <- <-].
    destruct (step_effect _ _ _ _ Hinv H1) as (Hinv1 & Hr1 & _). destruct (IH _ _ Hinv1 H2) as [? Hr2].
    split; [done|]. intros e. etrans; [apply Hr1|apply Hr2].
Qed.

(** The activities that were permitted, in order. *)
Definition permitted (o : Event) : option (ExecutionId * ActivitySequence) :=
  match o with
  | Returned (DispatchPermitted permit _ _) =>
      Some (la_execution_id (dp_activity permit), la_sequence (dp_activity permit))
  | _ => None
  end.

(** The steps of a run whose result the host handed to its caller. *)
Lemma step_permits l y y' es e q :
  sys_inv y → sys_step l y = (y', es) → (e, q) ∈ omap permitted es →
  ∃ n, q = Z.of_nat n ∧ ¬ past (held (sys_store y) e) n ∧ past (held (sys_store y') e) n ∧
    omap permitted es = [(e, q)].
Proof.
  intros Hinv H Hin. destruct (step_effect _ _ _ _ Hinv H) as (_ & _ & [->|(o & -> & Hg)]); [by inversion Hin|].
  simpl in Hin |- *. destruct o as [o|m]; simpl in *; [|by apply elem_of_nil in Hin].
  destruct o as [| permit rev b| | | | | | | |]; simpl in *; try by apply elem_of_nil in Hin.
  apply list_elem_of_singleton in Hin as [= -> ->].
  destruct (Hg _ _ _ eq_refl) as (p' & Hheld & (h & Hp' & Hsq & Hpast & _) & _).
  exists (length h). split_and!; [done|done| |done]. rewrite Hheld, Hp'. simpl.
  eexists. split; [by apply list_lookup_middle|done].
Qed.

Lemma run_permits ls y y' es :
  sys_inv y → sys_run ls y = (y', es) →
  NoDup (omap permitted es) ∧ ∀ e q, (e, q) ∈ omap permitted es →
    ∃ n, q = Z.of_nat n ∧ ¬ past (held (sys_store y) e) n ∧ past (held (sys_store y') e) n.
Proof.
  revert y es. induction ls as [|l ls IH]; intros y es Hinv; simpl.
  - intros [= <- <-]. split; [constructor|]. by intros e q ?%elem_of_nil.
  - destruct (sys_step l y) as [y1 e1] eqn:H1. destruct (sys_run ls y1) as [y2 e2] eqn:H2. intros [= <- <-].
    destruct (step_effect _ _ _ _ Hinv H1) as (Hinv1 & Hr1 & _). destruct (IH _ _ Hinv1 H2) as [Hnd Hrest].
    destruct (run_effect _ _ _ _ Hinv1 H2) as [_ Hr2]. rewrite omap_app. split.
    + apply NoDup_app. split_and!; [|intros [e q] Hin Hin2|done].
      * destruct (omap permitted e1) as [|[e q] ?] eqn:He; [constructor|].
        destruct (step_permits _ _ _ _ e q Hinv H1) as (n & _ & _ & _ & Heq); [rewrite He; left|].
        rewrite He in Heq. rewrite Heq. apply NoDup_singleton.
      * destruct (step_permits _ _ _ _ _ _ Hinv H1 Hin) as (n & -> & _ & Hp & _).
        destruct (Hrest _ _ Hin2) as (n' & Hn & Hnp & _). assert (n = n') as <- by lia. done.
    + intros e q [Hin|Hin]%elem_of_app.
      * destruct (step_permits _ _ _ _ _ _ Hinv H1 Hin) as (n & -> & Hnp & Hp & _).
        exists n. split_and!; [done|done|]. exact (past_rtc _ _ n (Hr2 e) Hp).
      * destruct (Hrest _ _ Hin) as (n & -> & Hnp & Hp). exists n. split_and!; [done| |done].
        contradict Hnp. exact (past_rtc _ _ n (Hr1 e) Hnp).
Qed.

(** The counters of hosts that were started at one: after [n] steps none is
    beyond [n + 1]. *)
Definition counters (n : Z) (y : System (S := S)) : Prop :=
  Forall (λ d, 0 < next_attempt_counter d ≤ n + 1) (hosts y).

Lemma step_counters n l (y y' : System (S := S)) es :
  0 ≤ n → n + 2 ≤ u64_max → counters n y → sys_step l y = (y', es) →
  counters (n + 1) y' ∧ ∀ m, Panicked m ∉ es.
Proof.
  intros H0 Hn Hc H. assert (counters (n + 1) y) as Hc1.
  { eapply Forall_impl; [exact Hc|]. simpl. lia. }
  destruct l as [epoch limits|i c|j|j]; simpl in H.
  - injection H as <- <-. split; [|by intros m ?%elem_of_nil].
    apply Forall_app. split; [exact Hc1|]. apply Forall_singleton. simpl. lia.
  - destruct (hosts y !! i) as [d|] eqn:Hi; [|injection H as <- <-; split; [done|by intros m ?%elem_of_nil]].
    destruct (load _ _) as [loaded s']. destruct (run_call c loaded d) as [r d'] eqn:Hrun.
    pose proof (proj1 (Forall_lookup _ _) Hc i d Hi) as Hd. simpl in Hd.
    destruct (safe_call c loaded d _ _ Hrun) as [_ Hs]. destruct Hs as [Hp Hd']; [lia|lia|].
    assert (Forall (λ d, 0 < next_attempt_counter d ≤ n + 1 + 1) (<[i := d']> (hosts y))) as Hc'.
    { apply Forall_insert; [exact Hc1|lia]. }
    destruct r as [w|[o|m]]; injection H as <- <-; (split; [exact Hc'|]).
    + by intros m ?%elem_of_nil.
    + by intros m ?%list_elem_of_singleton.
    + exfalso. by apply (Hp m).
  - destruct (in_flight y !! j) as [w|]; [|injection H as <- <-; split; [done|by intros m ?%elem_of_nil]].
    destruct (compare_and_swap _ _ _ _) as [res s']. injection H as <- <-.
    split; [done|]. by intros m ?%list_elem_of_singleton.
  - injection H as <- <-. split; [done|by intros m ?%elem_of_nil].
Qed.

Lemma run_counters ls : ∀ n (y y' : System (S := S)) es,
  0 ≤ n → n + Z.of_nat (length ls) + 1 ≤ u64_max → counters n y → sys_run ls y = (y', es) →
  ∀ m, Panicked m ∉ es.
Proof.
  induction ls as [|l ls IH]; intros n y y' es H0 Hn Hc; cbn [sys_run length] in *.
  - intros [= <- <-] m. apply not_elem_of_nil.
  - destruct (sys_step l y) as [y1 e1] eqn:H1. destruct (sys_run ls y1) as [y2 e2] eqn:H2. intros [= <- <-] m.
    apply step_counters with (n := n) in H1 as [Hc1 Hp]; [|lia|lia|done].
    rewrite elem_of_app. intros [Hm|Hm]; [by apply (Hp m)|].
    apply (IH (n + 1) _ _ _) with (m := m) in H2; [done|lia|lia|done].
Qed.

(** A system just started: a store in any contents it can have, no host yet. *)
Definition fresh (s : S) : System (S := S) := mkSystem s [] [].

Lemma fresh_inv s : store_inv s → sys_inv (fresh s).
Proof. intros Hs. split; [done|constructor]. Qed.

(** C6. At most one dispatch permit per activity: however many hosts share
    the store, whatever they run, however their loads and compare-and-swaps
    interleave, get lost, conflict or have an unknown outcome, no two permits
    are ever handed out for the same position of the same execution. *)
Theorem one_permit_per_activity s ls y es :
  store_inv s → sys_run ls (fresh s) = (y, es) → NoDup (omap permitted es).
Proof. intros Hs H. by apply (run_permits _ _ _ _ (fresh_inv s Hs)) in H as [? _]. Qed.

(** A permit is evidence: in any run, when a step returns a permit, the
    store holds, under the revision the permit came with, a checkpoint whose
    last activity is the permitted one, exposed to dispatch under the permit's
    attempt, and that activity had not been exposed before. *)
Theorem permit_is_recorded s ls y es l y' es' permit revision boundary :
  store_inv s → sys_run ls (fresh s) = (y, es) → sys_step l y = (y', es') →
  Returned (DispatchPermitted permit revision boundary) ∈ es' →
  let a := dp_activity permit in
  ∃ c h, held (sys_store y') (la_execution_id a) = Some (payload_active c
      (h ++ [record_dispatch_exposed (la_sequence a) (la_spec a) (dp_attempt_id permit)])) ∧
    la_sequence a = Z.of_nat (length h) ∧
    ¬ past (held (sys_store y) (la_execution_id a)) (length h) ∧
    sc_revision <$> stored (sys_store y') (la_execution_id a) = Some revision.
Proof.
  intros Hs Hrun Hstep Hin a. destruct (run_effect _ _ _ _ (fresh_inv s Hs) Hrun) as [Hinv _].
  destruct (step_effect _ _ _ _ Hinv Hstep) as (_ & _ & [->|(o & -> & Hg)]); [by inversion Hin|].
  apply list_elem_of_singleton in Hin as <-. destruct (Hg _ _ _ eq_refl) as (p' & Hheld & (h & Hp' & Hsq & Hpast & _) & Hrev).
  exists (execution p'), h. fold a in Hheld, Hp', Hsq, Hpast, Hrev. rewrite Hheld, Hsq. split_and!; [by f_equal|done..].
Qed.


(** The host does not panic: none of its [expect]s and [unreachable]s
    can be hit, whatever the store returns, in any run short enough not to
    exhaust a 64-bit attempt counter. *)
Theorem hosts_never_panic s ls y es m :
  Z.of_nat (length ls) + 1 ≤ u64_max → sys_run ls (fresh s) = (y, es) → Panicked m ∉ es.
Proof. intros Hlen Hrun. eapply (run_counters ls 0); [lia|lia| |exact Hrun]. constructor. Qed.
End system.

(** ** A run of two hosts

    Both hosts load before either swaps: both would expose the first activity,
    and one of them gets the permit. *)
#[local] Existing Instances InMemory.store InMemory.laws.

Module DemoHosts.
Definition call : Call := CTurnAndExpose DemoWorkflow.workflow DemoWorkflow.execution.
Definition start : System (S := InMemory.State) := fresh InMemory.new.
Definition race : list Label :=
  [LStart [Byte.x0a] Demo.demo_limits; LStart [Byte.x0b] Demo.demo_limits;
   LCall 0 call; LCall 1 call; LSwap 1].
Definition first_activity : LogicalActivityId := mkLogicalActivityId [Byte.x01] 0 DemoWorkflow.first.
Definition permit : DispatchPermit := mkDispatchPermit first_activity (mkAttemptId [Byte.x0b] 1).
Definition raced := sys_run (Enc := Demo.demo_encoding) race start.
Definition lost := sys_step (Enc := Demo.demo_encoding) (LSwap 0) raced.1.
End DemoHosts.

Lemma new_store_inv : store_inv InMemory.new.
Proof. split; [unfold u64_max; simpl; lia|done]. Qed.

Lemma one_permit_per_activity_witness :
  NoDup (omap permitted (sys_run (Enc := Demo.demo_encoding) (DemoHosts.race ++ [LSwap 0]) DemoHosts.start).2) ∧
  (sys_run (Enc := Demo.demo_encoding) (DemoHosts.race ++ [LSwap 0]) DemoHosts.start).2 =
    [Returned (DispatchPermitted DemoHosts.permit (InMemory.render_revision 1) BScheduleExposure);
     Returned (ReloadRequired BScheduleExposure ReloadConflict)].
Proof.
  split; [|vm_compute; reflexivity].
  destruct (sys_run (Enc := Demo.demo_encoding) (DemoHosts.race ++ [LSwap 0]) DemoHosts.start) as [y es] eqn:H.
  exact (one_permit_per_activity (Laws := Demo.demo_laws) _ _ y es new_store_inv H).
Defined.

Lemma permit_is_recorded_witness :
  ∃ c h, held (Enc := Demo.demo_encoding) (sys_store DemoHosts.raced.1) [Byte.x01] = Some (payload_active c
      (h ++ [record_dispatch_exposed 0 DemoWorkflow.first (mkAttemptId [Byte.x0b] 1)])).
Proof.
  destruct (sys_run (Enc := Demo.demo_encoding) (take 4 DemoHosts.race) DemoHosts.start) as [y es] eqn:H.
  destruct (sys_step (Enc := Demo.demo_encoding) (LSwap 1) y) as [y' es'] eqn:H'.
  assert (DemoHosts.raced.1 = y') as ->.
  { unfold DemoHosts.raced. change DemoHosts.race with (take 4 DemoHosts.race ++ [LSwap 1]).
    vm_compute in H. injection H as <- _. vm_compute in H'. injection H' as <- _. vm_compute. reflexivity. }
  assert (Returned (DispatchPermitted DemoHosts.permit (InMemory.render_revision 1) BScheduleExposure) ∈ es') as Hin.
  { vm_compute in H. injection H as <- _. vm_compute in H'. injection H' as _ <-. vm_compute. left. }
  destruct (permit_is_recorded (Laws := Demo.demo_laws) _ _ _ _ _ _ _ _ _ _ new_store_inv H H' Hin)
    as (c & h & Hheld & _). exists c, h. exact Hheld.
Defined.


Lemma hosts_never_panic_witness :
  Panicked "host attempt counter exhausted" ∉ DemoHosts.raced.2.
Proof.
  destruct DemoHosts.raced as [y es] eqn:H.
  exact (hosts_never_panic (Laws := Demo.demo_laws) InMemory.new DemoHosts.race y es _ ltac:(unfold u64_max; simpl; lia) H).
Defined.
