(* ===== verification/Election.v ===== *)
(** Failover election (kuberic-operator/src/durable/failover_election.rs):
    which observations of the replicas count, whether they are a read quorum
    of every configuration in force, who is promoted, and the configuration
    the new primary starts with. *)

From S2P Require Import Prelude Types.

Set Default Goal Selector "!".

Record ElectionMember := mkElectionMember {
  em_id : ReplicaId;
  em_instance_id : ReplicaInstanceId;
  em_role : Role;
  em_dropped : bool;
  em_last_known : option StableReplicaElectionMetadata;
}.

Record ElectionConfiguration := mkElectionConfiguration {
  el_members : list ElectionMember;
  el_write_quorum : Z;
}.

Record ElectionObservation := mkElectionObservation {
  ob_instance_id : ReplicaInstanceId;
  ob_epoch : Epoch;
  ob_role : Role;
  ob_healthy : bool;
  ob_current_lsn : Lsn;
  ob_committed_lsn : Lsn;
  ob_first_retained_lsn : option Lsn;
  ob_deactivation : option ReplicaDeactivationInfo;
  ob_configuration : option ReplicaElectionConfiguration;
}.

Inductive ObservationExclusion :=
| Dropped
| IncarnationMismatch
| EpochMismatch
| Unhealthy
| IneligibleRole
| UnknownProgress
| InvalidProgressRange
| ConfigurationMismatch.
#[export] Instance ObservationExclusion_eq_dec : EqDecision ObservationExclusion.
Proof. solve_decision. Defined.

Definition is_transient (e : ObservationExclusion) : bool :=
  match e with
  | IncarnationMismatch | EpochMismatch | Unhealthy | UnknownProgress => true
  | _ => false
  end.

Record QuorumAssessment := mkQuorumAssessment {
  member_count : nat;
  required : nat;
  qa_accepted : list ReplicaId;
  qa_outstanding : list ReplicaId;
  qa_excluded : list (ReplicaId * ObservationExclusion);
}.

Definition satisfied (a : QuorumAssessment) : bool := (required a <=? length (qa_accepted a))%nat.
Definition can_still_be_satisfied (a : QuorumAssessment) : bool :=
  (required a <=? length (qa_accepted a) + length (qa_outstanding a))%nat.

Record RankedCandidate := mkRankedCandidate {
  rk_id : ReplicaId;
  rk_instance_id : ReplicaInstanceId;
  rk_deactivation : ReplicaDeactivationInfo;
  rk_current_lsn : Lsn;
  rk_committed_lsn : Lsn;
  rk_first_retained_lsn : Lsn;
}.

Inductive ElectionDecision :=
| Proceed (candidate : RankedCandidate) (previous : option QuorumAssessment) (current : QuorumAssessment)
| WaitForBestCandidate (possible_candidates : list ReplicaId) (previous : option QuorumAssessment)
    (current : QuorumAssessment)
| WaitForQuorum (previous : option QuorumAssessment) (current : QuorumAssessment)
| DataLossRequired (candidate : RankedCandidate) (previous : option QuorumAssessment) (current : QuorumAssessment).

Record ElectionInput := mkElectionInput {
  expected_epoch : Epoch;
  failed_primary_id : ReplicaId;
  required_catch_up_lsn : Lsn;
  in_previous : option ElectionConfiguration;
  in_current : ElectionConfiguration;
  observations : gmap ReplicaId ElectionObservation;
}.

(** ** Validation *)

Definition validate_configuration (configuration : ElectionConfiguration) (name : string) : result string unit :=
  reject_if (bool_decide (el_members configuration = [])) (name +:+ " election configuration is empty");;
  try_fold (λ (ids : gset ReplicaId) member,
      reject_if (bool_decide (em_instance_id member = ""))
        (name +:+ " election member " +:+ pretty (em_id member) +:+ " has empty incarnation");;
      reject_if (bool_decide (em_id member ∈ ids))
        (name +:+ " election configuration repeats replica " +:+ pretty (em_id member));;
      Ok ({[em_id member]} ∪ ids)) ∅ (el_members configuration);;
  reject_if ((el_write_quorum configuration =? 0) ||
             (Z.of_nat (length (el_members configuration)) <? el_write_quorum configuration))
    (name +:+ " election configuration has invalid write quorum " +:+ pretty (el_write_quorum configuration)).

(** The current configuration's members win over the previous one's. *)
Definition all_members (input : ElectionInput) : gmap ReplicaId ElectionMember :=
  let insert_all := foldl (λ (m : gmap ReplicaId ElectionMember) member, <[em_id member := member]> m) in
  insert_all
    (insert_all ∅ (match in_previous input with Some c => el_members c | None => [] end))
    (el_members (in_current input)).

(** ** Which observations count *)

(** A configuration as the sorted list of its members' identities and roles. *)
Definition identity_key : Type := ReplicaId * string * Z.
Definition identity_le (a b : identity_key) : Prop :=
  let '(i, s, r) := a in
  let '(i', s', r') := b in
  i < i' ∨ (i = i' ∧ match String.compare s s' with Lt => True | Eq => r ≤ r' | Gt => False end).
#[export] Instance identity_le_dec : RelDecision identity_le.
Proof.
  intros [[i s] r] [[i' s'] r']. unfold identity_le. apply or_dec; [apply _|].
  apply and_dec; [apply _|]. destruct (String.compare s s'); apply _.
Defined.

Definition status_matches_configuration (status : ReplicaConfigurationStatus)
    (configuration : ElectionConfiguration) : bool :=
  if negb (cs_write_quorum status =? el_write_quorum configuration)
     || negb (length (cs_members status) =? length (el_members configuration))%nat
  then false
  else
    let actual := (λ m, (cm_id m, cm_instance_id m, role_as_u8 (cm_role m))) <$> cs_members status in
    let expected := (λ m, (em_id m, em_instance_id m, role_as_u8 (em_role m))) <$> el_members configuration in
    bool_decide (sort_by identity_le actual = sort_by identity_le expected).

Definition configuration_matches (input : ElectionInput) (observed : option ReplicaElectionConfiguration) : bool :=
  match observed with
  | None => false
  | Some observed =>
      status_matches_configuration (ec_current observed) (in_current input) &&
      match ec_previous observed, in_previous input with
      | None, None => true
      | Some status, Some configuration => status_matches_configuration status configuration
      | _, _ => false
      end
  end.

Definition observation_exclusion (member : ElectionMember) (observation : ElectionObservation)
    (input : ElectionInput) : option ObservationExclusion :=
  if em_dropped member then Some Dropped
  else if negb (bool_decide (em_instance_id member = ob_instance_id observation)) then Some IncarnationMismatch
  else if negb (bool_decide (ob_role observation = Primary ∨ ob_role observation = ActiveSecondary)) then
    Some IneligibleRole
  else if negb (bool_decide (ob_epoch observation = expected_epoch input)) then Some EpochMismatch
  else if negb (ob_healthy observation) then Some Unhealthy
  else
    match ob_first_retained_lsn observation with
    | None => Some UnknownProgress
    | Some first_retained_lsn =>
        if (ob_committed_lsn observation <? first_retained_lsn)
           || (ob_current_lsn observation <? ob_committed_lsn observation) then Some InvalidProgressRange
        else if negb (configuration_matches input (ob_configuration observation)) then Some ConfigurationMismatch
        else None
    end.

Definition accepted_observations (input : ElectionInput) : gmap ReplicaId ElectionObservation :=
  map_imap (λ id observation,
    member ← all_members input !! id;
    match observation_exclusion member observation input with
    | None => Some observation
    | Some _ => None
    end) (observations input).

(** Observations that settle what a replica can offer: accepted ones, and
    those rejected for good. *)
Definition settled (input : ElectionInput) (accepted : gmap ReplicaId ElectionObservation) : gset ReplicaId :=
  dom (map_imap (λ id observation,
    member ← all_members input !! id;
    let terminal := match observation_exclusion member observation input with
                    | Some reason => negb (is_transient reason) | None => false end in
    if bool_decide (is_Some (accepted !! id)) || terminal then Some tt else None) (observations input)).

(** ** Quorum assessment *)

(** What one member contributes: accepted, excluded, outstanding. *)
Definition assess_member (input : ElectionInput) (accepted : gmap ReplicaId ElectionObservation)
    (member : ElectionMember) : list ReplicaId * list ReplicaId * list (ReplicaId * ObservationExclusion) :=
  if em_dropped member then ([], [], [(em_id member, Dropped)])
  else
    match observations input !! em_id member with
    | None => ([], [em_id member], [])
    | Some observation =>
        if bool_decide (is_Some (accepted !! em_id member)) then ([em_id member], [], [])
        else
          let reason := default ConfigurationMismatch (observation_exclusion member observation input) in
          ([], if is_transient reason then [em_id member] else [], [(em_id member, reason)])
    end.

Definition assess_configuration (configuration : ElectionConfiguration) (input : ElectionInput)
    (accepted : gmap ReplicaId ElectionObservation) : QuorumAssessment :=
  let parts := assess_member input accepted <$> el_members configuration in
  mkQuorumAssessment (length (el_members configuration))
    (Nat.div (length (el_members configuration) + 1) 2)
    (sort_by Z.le (parts ≫= λ p, p.1.1))
    (sort_by Z.le (parts ≫= λ p, p.1.2))
    (sort_by_key fst (parts ≫= λ p, p.2)).

(** ** The candidate *)

Definition compare_candidates (left right : RankedCandidate) : comparison :=
  cmp_then (epoch_cmp (di_epoch (rk_deactivation left)) (di_epoch (rk_deactivation right)))
  (cmp_then (rk_current_lsn left ?= rk_current_lsn right)
  (cmp_then (rk_first_retained_lsn right ?= rk_first_retained_lsn left)
            (rk_id right ?= rk_id left))).

Definition compare_last_known (member_id : ReplicaId) (metadata : StableReplicaElectionMetadata)
    (candidate : RankedCandidate) : comparison :=
  cmp_then (epoch_cmp (md_deactivation_epoch metadata) (di_epoch (rk_deactivation candidate)))
  (cmp_then (md_current_lsn metadata ?= rk_current_lsn candidate)
  (cmp_then (rk_first_retained_lsn candidate ?= md_first_retained_lsn metadata)
            (rk_id candidate ?= member_id))).

(** The freshest deactivation among the accepted replicas other than the
    failed primary. *)
Definition freshest_deactivation (input : ElectionInput) (accepted : gmap ReplicaId ElectionObservation) :
    option Epoch :=
  max_by epoch_cmp
    (omap (λ p : ReplicaId * ElectionObservation, di_epoch <$> ob_deactivation p.2)
      (filter (λ p, p.1 ≠ failed_primary_id input) (btree_entries accepted))).

(** One accepted observation as a candidate; [unwrap] of the first retained
    LSN cannot fail on it ([accepted_retained]). *)
Definition ranked (freshest : Epoch) (p : ReplicaId * ElectionObservation) : option RankedCandidate :=
  deactivation ← ob_deactivation p.2;
  first_retained ← ob_first_retained_lsn p.2;
  if decide (di_epoch deactivation = freshest) then
    Some (mkRankedCandidate p.1 (ob_instance_id p.2) deactivation (ob_current_lsn p.2)
      (ob_committed_lsn p.2) first_retained)
  else None.

Definition select_candidate (input : ElectionInput) (accepted : gmap ReplicaId ElectionObservation) :
    result string RankedCandidate :=
  freshest ← ok_or (freshest_deactivation input accepted) "no candidate has deactivation evidence";
  let candidates := omap (ranked freshest)
    (filter (λ p, p.1 ≠ failed_primary_id input) (btree_entries accepted)) in
  let capable := filter (λ c, rk_first_retained_lsn c ≤ required_catch_up_lsn input) candidates in
  let ranked := if decide (capable = []) then candidates else capable in
  ok_or (max_by compare_candidates ranked) "no reachable catch-up-capable candidate".

(** What is last known of the member does not rank it below the candidate. *)
Definition may_beat (candidate : RankedCandidate) (member : ElectionMember) : bool :=
  match em_last_known member with
  | None => true
  | Some metadata => bool_decide (compare_last_known (em_id member) metadata candidate = Gt)
  end.

(** Replicas not settled that may be better than the candidate. *)
Definition possibly_better_outstanding (input : ElectionInput)
    (accepted : gmap ReplicaId ElectionObservation) (candidate : RankedCandidate) : list ReplicaId :=
  let observed := settled input accepted in
  sort_by Z.le (em_id <$> filter (λ member,
    em_dropped member = false ∧ em_id member ≠ failed_primary_id input ∧ (em_id member ∉ observed) ∧
    may_beat candidate member = true) (btree_values (all_members input))).

(** Replicas not settled, when nobody can be a candidate yet. *)
Definition outstanding_candidates (input : ElectionInput) (accepted : gmap ReplicaId ElectionObservation) :
    list ReplicaId :=
  let observed := settled input accepted in
  sort_by Z.le (em_id <$> filter (λ member,
    em_id member ≠ failed_primary_id input ∧ em_dropped member = false ∧ em_id member ∉ observed)
    (btree_values (all_members input))).

Definition is_none_or {A} (f : A → bool) (o : option A) : bool :=
  match o with Some a => f a | None => true end.

Definition evaluate (input : ElectionInput) : result string ElectionDecision :=
  validate_configuration (in_current input) "current";;
  (match in_previous input with Some c => validate_configuration c "previous" | None => Ok tt end);;
  let accepted := accepted_observations input in
  let current := assess_configuration (in_current input) input accepted in
  let previous := (λ c, assess_configuration c input accepted) <$> in_previous input in
  match select_candidate input accepted with
  | Err error =>
      let possible_candidates := outstanding_candidates input accepted in
      if decide (possible_candidates = []) then Err error
      else Ok (WaitForBestCandidate possible_candidates previous current)
  | Ok candidate =>
      let possible_candidates := possibly_better_outstanding input accepted candidate in
      if decide (possible_candidates ≠ []) then Ok (WaitForBestCandidate possible_candidates previous current)
      else if satisfied current && is_none_or satisfied previous then Ok (Proceed candidate previous current)
      else if can_still_be_satisfied current && is_none_or can_still_be_satisfied previous then
        Ok (WaitForQuorum previous current)
      else Ok (DataLossRequired candidate previous current)
  end.

(** ** The configuration of the new primary *)

Definition target_member (input : ElectionInput) (accepted : gmap ReplicaId ElectionObservation)
    (candidate : RankedCandidate) (freshest : Epoch) (state_changed : bool) (member : ElectionMember) :
    option StableReplicaSnapshot :=
  observation ← accepted !! em_id member;
  deactivation ← ob_deactivation observation;
  first_retained_lsn ← ob_first_retained_lsn observation;
  if negb (bool_decide (di_epoch deactivation = freshest))
     || (negb (em_id member =? rk_id candidate) && (required_catch_up_lsn input <? first_retained_lsn))
     || (em_id member =? failed_primary_id input) then None
  else if state_changed && negb (em_id member =? rk_id candidate) then None
  else Some (mkStableReplicaSnapshot (em_id member) (ob_instance_id observation)
    (if em_id member =? rk_id candidate then Primary else ActiveSecondary)
    (Some (mkStableReplicaElectionMetadata (ob_current_lsn observation) (ob_committed_lsn observation)
      first_retained_lsn (di_epoch deactivation) (di_catch_up_lsn deactivation)))).

Definition decided_candidate (decision : ElectionDecision) : option RankedCandidate :=
  match decision with
  | Proceed candidate _ _ | DataLossRequired candidate _ _ => Some candidate
  | _ => None
  end.

Definition build_target (input : ElectionInput) (decision : ElectionDecision) (state_changed : bool) :
    result string (ReplicaId * list StableReplicaSnapshot * Z) :=
  candidate ← ok_or (decided_candidate decision) "cannot build a target for a waiting election";
  let accepted := accepted_observations input in
  freshest ← ok_or (freshest_deactivation input accepted) "no accepted deactivation evidence";
  let members := omap (target_member input accepted candidate freshest state_changed)
    (el_members (in_current input)) in
  reject_if (negb (bool_decide (rk_id candidate ∈ sr_id <$> members))) "confirmed candidate is absent from target";;
  let members := sort_by_key sr_id members in
  Ok (rk_id candidate, members, as_u32 (length members) / 2 + 1).

(** ** Facts about the parts *)

Lemma foldl_insert_lookup (l : list ElectionMember) (m : gmap ReplicaId ElectionMember) id x :
  (∀ i y, m !! i = Some y → em_id y = i) →
  foldl (λ (m : gmap ReplicaId ElectionMember) member, <[em_id member := member]> m) m l !! id = Some x →
  em_id x = id.
Proof.
  revert m. induction l as [|y l IH]; simpl; intros m Hm; [apply Hm|]. apply IH.
  intros i z. rewrite lookup_insert. case_decide; [by intros [= <-]|apply Hm].
Qed.

Lemma all_members_id input id x : all_members input !! id = Some x → em_id x = id.
Proof.
  unfold all_members. apply foldl_insert_lookup. intros i y. apply foldl_insert_lookup.
  by intros j z; rewrite lookup_empty.
Qed.

Lemma foldl_insert_mem (l : list ElectionMember) (m : gmap ReplicaId ElectionMember) x :
  x ∈ l → NoDup (em_id <$> l) →
  foldl (λ (m : gmap ReplicaId ElectionMember) member, <[em_id member := member]> m) m l !! em_id x = Some x.
Proof.
  revert m. induction l as [|y l IH]; intros m; [by intros ?%elem_of_nil|].
  rewrite fmap_cons, NoDup_cons. intros Hx [Hy Hnd]. simpl. apply elem_of_cons in Hx as [->|Hx]; [|by apply IH].
  assert (∀ (l' : list ElectionMember) (m' : gmap ReplicaId ElectionMember), em_id y ∉ em_id <$> l' →
    foldl (λ (m : gmap ReplicaId ElectionMember) member, <[em_id member := member]> m) m' l' !! em_id y =
    m' !! em_id y) as Hskip.
  { clear. induction l' as [|z l IH]; intros m' Hni; [done|]. rewrite fmap_cons, not_elem_of_cons in Hni.
    destruct Hni as [Hz Hni]. simpl. rewrite IH by done. by apply lookup_insert_ne. }
  rewrite Hskip by done. apply lookup_insert_eq.
Qed.

(** A member of the current configuration is what [all_members] holds. *)
Lemma all_members_current input x :
  x ∈ el_members (in_current input) → NoDup (em_id <$> el_members (in_current input)) →
  all_members input !! em_id x = Some x.
Proof. intros. by apply foldl_insert_mem. Qed.

Lemma accepted_spec input id o :
  accepted_observations input !! id = Some o ↔
  observations input !! id = Some o ∧
  ∃ m, all_members input !! id = Some m ∧ observation_exclusion m o input = None.
Proof.
  unfold accepted_observations. rewrite map_lookup_imap. destruct (observations input !! id) as [o'|]; simpl; [|naive_solver].
  destruct (all_members input !! id) as [m|]; simpl; [|naive_solver].
  destruct (observation_exclusion m o' input) eqn:He; naive_solver.
Qed.

(** What an accepted observation guarantees. *)
Lemma exclusion_None m o input :
  observation_exclusion m o input = None →
  em_dropped m = false ∧ em_instance_id m = ob_instance_id o ∧ ob_epoch o = expected_epoch input ∧
  ob_healthy o = true ∧ (ob_role o = Primary ∨ ob_role o = ActiveSecondary) ∧
  configuration_matches input (ob_configuration o) = true ∧
  ∃ f, ob_first_retained_lsn o = Some f ∧ f ≤ ob_committed_lsn o ≤ ob_current_lsn o.
Proof.
  unfold observation_exclusion. destruct (em_dropped m); [done|].
  case_bool_decide; [|done]. case_bool_decide; [|done]. case_bool_decide; [|done]. simpl.
  destruct (ob_healthy o); [|done]. destruct (ob_first_retained_lsn o) as [f|]; [|done]. simpl.
  destruct (Z.ltb_spec (ob_committed_lsn o) f), (Z.ltb_spec (ob_current_lsn o) (ob_committed_lsn o)); simpl; try done.
  destruct (configuration_matches _ _); [|done]. naive_solver.
Qed.

Lemma accepted_retained input id o :
  accepted_observations input !! id = Some o → ∃ f, ob_first_retained_lsn o = Some f.
Proof. intros (_ & m & _ & He)%accepted_spec. apply exclusion_None in He. naive_solver. Qed.

Lemma validate_ids configuration name :
  validate_configuration configuration name = Ok tt → NoDup (em_id <$> el_members configuration).
Proof.
  unfold validate_configuration. intros H. apply bind_Ok in H as ([] & _ & H). apply bind_Ok in H as (ids & H & _).
  assert (∀ l s s', try_fold (λ (ids : gset ReplicaId) member,
      reject_if (bool_decide (em_instance_id member = ""))
        (name +:+ " election member " +:+ pretty (em_id member) +:+ " has empty incarnation");;
      reject_if (bool_decide (em_id member ∈ ids))
        (name +:+ " election configuration repeats replica " +:+ pretty (em_id member));;
      Ok ({[em_id member]} ∪ ids)) s l = Ok s' →
    NoDup (em_id <$> l) ∧ ∀ i, i ∈ em_id <$> l → i ∉ s) as Hgen; [|by eapply Hgen].
  clear. induction l as [|m l IH]; intros s s' H; simpl in *.
  - split; [constructor|]. by intros i ?%elem_of_nil.
  - apply bind_Ok in H as (s1 & H1 & H). apply bind_Ok in H1 as ([] & _ & H1).
    apply bind_Ok in H1 as ([] & Hin%reject_if_Ok & [= <-]). apply bool_decide_eq_false in Hin.
    apply IH in H as [Hnd Hout]. split.
    + constructor; [|done]. intros Hin'%Hout. set_solver.
    + intros i [->|Hi]%elem_of_cons; [done|]. apply Hout in Hi. set_solver.
Qed.

Lemma evaluate_valid input d :
  evaluate input = Ok d → ∀ c, (c = in_current input ∨ in_previous input = Some c) →
  NoDup (em_id <$> el_members c).
Proof.
  unfold evaluate. intros H. apply bind_Ok in H as ([] & Hc%validate_ids & H). apply bind_Ok in H as ([] & Hp & _).
  intros c [->|Heq]; [done|]. rewrite Heq in Hp. by eapply validate_ids.
Qed.

(** The accepted members of a configuration, in its order. *)
Definition accepted_members (c : ElectionConfiguration) (input : ElectionInput) : list ElectionMember :=
  filter (λ m, em_dropped m = false ∧ is_Some (accepted_observations input !! em_id m)) (el_members c).

Lemma assess_accepted c input :
  qa_accepted (assess_configuration c input (accepted_observations input)) ≡ₚ
  em_id <$> accepted_members c input.
Proof.
  unfold assess_configuration. cbn [qa_accepted]. rewrite sort_by_Permutation. unfold accepted_members.
  induction (el_members c) as [|m l IH]; [done|]. rewrite fmap_cons, bind_cons, IH. clear IH.
  unfold assess_member at 1. destruct (em_dropped m) eqn:Hd.
  { rewrite filter_cons_False; [done|]. intros [? _]. congruence. }
  destruct (observations input !! em_id m) as [o|] eqn:Ho.
  - case_bool_decide as Ha.
    + by rewrite filter_cons_True.
    + rewrite filter_cons_False; [done|]. by intros [_ ?].
  - rewrite filter_cons_False; [done|]. intros [_ [o Ho']]. apply accepted_spec in Ho' as [? _]. congruence.
Qed.

(** ** The candidate *)

#[export] Instance compare_candidates_order : CmpOrder compare_candidates.
Proof.
  pose proof (cmp_on_order (λ c, di_epoch (rk_deactivation c)) epoch_cmp).
  pose proof (cmp_on_order rk_current_lsn Z.compare).
  pose proof (cmp_on_order rk_first_retained_lsn Z.compare). pose proof (cmp_on_order rk_id Z.compare).
  pose proof (cmp_flip_order (λ x y, rk_first_retained_lsn x ?= rk_first_retained_lsn y)).
  pose proof (cmp_flip_order (λ x y, rk_id x ?= rk_id y)).
  pose proof (cmp_then_order (λ x y, rk_first_retained_lsn y ?= rk_first_retained_lsn x) (λ x y, rk_id y ?= rk_id x)).
  pose proof (cmp_then_order (λ x y, rk_current_lsn x ?= rk_current_lsn y)
    (λ x y, cmp_then (rk_first_retained_lsn y ?= rk_first_retained_lsn x) (rk_id y ?= rk_id x))).
  exact (cmp_then_order (λ x y, epoch_cmp (di_epoch (rk_deactivation x)) (di_epoch (rk_deactivation y)))
    (λ x y, cmp_then (rk_current_lsn x ?= rk_current_lsn y)
       (cmp_then (rk_first_retained_lsn y ?= rk_first_retained_lsn x) (rk_id y ?= rk_id x)))).
Qed.

(** The accepted replicas the election can choose from. *)
Definition eligible (input : ElectionInput) (id : ReplicaId) (o : ElectionObservation) : Prop :=
  accepted_observations input !! id = Some o ∧ id ≠ failed_primary_id input.

Lemma freshest_spec input e :
  freshest_deactivation input (accepted_observations input) = Some e →
  (∃ id o d, eligible input id o ∧ ob_deactivation o = Some d ∧ di_epoch d = e) ∧
  ∀ id o d, eligible input id o → ob_deactivation o = Some d → epoch_le (di_epoch d) e.
Proof.
  unfold freshest_deactivation. intros Hf. apply max_by_Some in Hf as [Hin Hmax]; [|apply _]. split.
  - apply list_elem_of_omap in Hin as ([id o] & Hin & He). apply list_elem_of_filter in Hin as [Hne Hin].
    apply elem_of_btree_entries in Hin. simpl in *. apply fmap_Some in He as (d & Hd & ->).
    exists id, o, d. done.
  - intros id o d [Ho Hne] Hd. apply Hmax. apply list_elem_of_omap. exists (id, o). simpl. rewrite Hd.
    split; [|done]. apply list_elem_of_filter. split; [done|]. by apply elem_of_btree_entries.
Qed.

Lemma ranked_Some freshest id o c :
  ranked freshest (id, o) = Some c ↔
  ∃ d f, ob_deactivation o = Some d ∧ ob_first_retained_lsn o = Some f ∧ di_epoch d = freshest ∧
    c = mkRankedCandidate id (ob_instance_id o) d (ob_current_lsn o) (ob_committed_lsn o) f.
Proof.
  unfold ranked. simpl. destruct (ob_deactivation o) as [d|]; simpl; [|naive_solver].
  destruct (ob_first_retained_lsn o) as [f|]; simpl; [|naive_solver]. case_decide; naive_solver.
Qed.

(** The candidate is the best of the capable replicas, or of all when none is
    capable. *)
Lemma select_candidate_spec input c :
  select_candidate input (accepted_observations input) = Ok c →
  ∃ freshest o, freshest_deactivation input (accepted_observations input) = Some freshest ∧
    eligible input (rk_id c) o ∧ ranked freshest (rk_id c, o) = Some c ∧
    ∀ id' o' c', eligible input id' o' → ranked freshest (id', o') = Some c' →
      (rk_first_retained_lsn c' ≤ required_catch_up_lsn input ∨ required_catch_up_lsn input < rk_first_retained_lsn c) →
      compare_candidates c' c ≠ Gt ∧
      (rk_first_retained_lsn c' ≤ required_catch_up_lsn input → rk_first_retained_lsn c ≤ required_catch_up_lsn input).
Proof.
  unfold select_candidate. intros H. apply bind_Ok in H as (e & He%ok_or_Ok & H).
  set (candidates := omap (ranked e) _) in H.
  assert (∀ x, x ∈ candidates ↔ ∃ id o, eligible input id o ∧ ranked e (id, o) = Some x) as Hc.
  { intros x. unfold candidates. rewrite list_elem_of_omap. split.
    - intros ([id o] & [Hne Ho]%list_elem_of_filter & Hx). apply elem_of_btree_entries in Ho. by exists id, o.
    - intros (id & o & [Ho Hne] & Hx). exists (id, o). split; [|done]. apply list_elem_of_filter.
      split; [done|]. by apply elem_of_btree_entries. }
  apply ok_or_Ok, max_by_Some in H as [Hin Hmax]; [|apply _].
  assert (c ∈ candidates) as Hcin.
  { case_decide; [done|]. by apply list_elem_of_filter in Hin as [_ ?]. }
  apply Hc in Hcin as (id & o & Hel & Hr). pose proof Hr as (d & f & _ & _ & _ & Hid)%ranked_Some.
  assert (rk_id c = id) as <- by (by rewrite Hid).
  exists e, o. split_and!; [done..|]. intros id' o' c' Hel' Hr' Hcap.
  assert (c' ∈ candidates) as Hin' by (apply Hc; eauto).
  case_decide as Hnil.
  - assert (¬ rk_first_retained_lsn c' ≤ required_catch_up_lsn input) as Hno.
    { intros Hle. eapply filter_nil_not_elem_of; [exact Hnil|exact Hle|exact Hin']. }
    split; [|done]. by apply Hmax.
  - apply list_elem_of_filter in Hin as [Hle _]. split; [|done]. destruct Hcap as [Hle'|]; [|lia].
    apply Hmax, list_elem_of_filter. by split.
Qed.

(** ** What a decision guarantees *)

Lemma decision_candidate input d c :
  evaluate input = Ok d → decided_candidate d = Some c →
  select_candidate input (accepted_observations input) = Ok c ∧
  possibly_better_outstanding input (accepted_observations input) c = [].
Proof.
  unfold evaluate. intros H Hd. apply bind_Ok in H as ([] & _ & H). apply bind_Ok in H as ([] & _ & H).
  destruct (select_candidate _ _) as [c'|e]; [|case_decide; simplify_eq/=].
  case_decide as Hp; [by simplify_eq/=|].
  repeat case_match; simplify_eq/=; done.
Qed.

(** What "better" means, on the fields: a later deactivation epoch (a data loss
    before a configuration change), then more received, then a longer retained
    log, then the lower identity. [outranked id e lsn first c]: replica [id]
    with these is no better than [c]. *)
Definition epoch_before (a b : Epoch) : Prop :=
  data_loss_number a < data_loss_number b ∨
  data_loss_number a = data_loss_number b ∧ configuration_number a < configuration_number b.

Definition outranked (id : ReplicaId) (e : Epoch) (lsn first : Lsn) (c : RankedCandidate) : Prop :=
  epoch_before e (di_epoch (rk_deactivation c)) ∨
  e = di_epoch (rk_deactivation c) ∧
    (lsn < rk_current_lsn c ∨
     lsn = rk_current_lsn c ∧
       (rk_first_retained_lsn c < first ∨ first = rk_first_retained_lsn c ∧ rk_id c ≤ id)).

Lemma rank_outranked id e lsn first c :
  cmp_then (epoch_cmp e (di_epoch (rk_deactivation c)))
    (cmp_then (lsn ?= rk_current_lsn c)
      (cmp_then (rk_first_retained_lsn c ?= first) (rk_id c ?= id))) ≠ Gt →
  outranked id e lsn first c.
Proof.
  unfold outranked, epoch_before. pose proof (epoch_cmp_spec e (di_epoch (rk_deactivation c))) as He.
  destruct (epoch_cmp _ _); simpl; [| tauto | done].
  destruct (Z.compare_spec lsn (rk_current_lsn c)); simpl; [| tauto | done].
  destruct (Z.compare_spec (rk_first_retained_lsn c) first); simpl; [| tauto | done].
  destruct (Z.compare_spec (rk_id c) id); simpl; intros; [| | done]; right; (split; [done|]); right;
    (split; [done|]); right; split; (done || lia).
Qed.

(** Every other accepted replica is outranked by the candidate, or was passed
    over because it cannot serve catch-up while the candidate can; where the
    candidate cannot, no replica of its deactivation epoch can. *)
Lemma candidate_best input d c :
  evaluate input = Ok d → decided_candidate d = Some c →
  ∀ id o' d' f', accepted_observations input !! id = Some o' → id ≠ failed_primary_id input →
    ob_deactivation o' = Some d' → ob_first_retained_lsn o' = Some f' →
    (outranked id (di_epoch d') (ob_current_lsn o') f' c ∨
     di_epoch d' = di_epoch (rk_deactivation c) ∧ rk_first_retained_lsn c ≤ required_catch_up_lsn input < f') ∧
    (di_epoch d' = di_epoch (rk_deactivation c) → f' ≤ required_catch_up_lsn input →
     rk_first_retained_lsn c ≤ required_catch_up_lsn input).
Proof.
  intros Hev Hd. destruct (decision_candidate _ _ _ Hev Hd) as [Hsel _].
  apply select_candidate_spec in Hsel as (e & o & He & _ & Hr & Hbest).
  apply ranked_Some in Hr as (dd & f & Hdd & Hf & <- & Hc). apply freshest_spec in He as [_ Hfresh].
  assert (rk_deactivation c = dd) as -> by (by rewrite Hc).
  intros id o' d' f' Ho' Hne' Hd' Hf'. pose proof (Hfresh id o' d' (conj Ho' Hne') Hd') as Hle.
  destruct (decide (di_epoch d' = di_epoch dd)) as [Heq|Hneq].
  2: { split; [|done]. left. left. unfold epoch_le in Hle. pose proof (epoch_cmp_spec (di_epoch d') (di_epoch dd)) as Hs.
       replace (rk_deactivation c) with dd by (by rewrite Hc). destruct (epoch_cmp _ _); [done|exact Hs|done]. }
  set (c' := mkRankedCandidate id (ob_instance_id o') d' (ob_current_lsn o') (ob_committed_lsn o') f').
  assert (ranked (di_epoch dd) (id, o') = Some c') as Hr' by (apply ranked_Some; by exists d', f').
  specialize (Hbest id o' c' (conj Ho' Hne') Hr'). cbn [c' rk_first_retained_lsn] in Hbest.
  destruct (decide (f' ≤ required_catch_up_lsn input)) as [Hcap|Hcap];
    [|destruct (decide (required_catch_up_lsn input < rk_first_retained_lsn c)) as [Hno|Hno]].
  - destruct (Hbest (or_introl Hcap)) as [Hcmp Hserve]. split; [left; by apply rank_outranked|]. intros _ _. by apply Hserve.
  - destruct (Hbest (or_intror Hno)) as [Hcmp _]. split; [left; by apply rank_outranked|]. intros _ ?. done.
  - split; [|done]. right. split; [done|lia].
Qed.

Lemma candidate_ahead input d c :
  evaluate input = Ok d → decided_candidate d = Some c →
  ∀ id o' d' f', accepted_observations input !! id = Some o' → id ≠ failed_primary_id input →
    ob_deactivation o' = Some d' → ob_first_retained_lsn o' = Some f' →
    di_epoch d' = di_epoch (rk_deactivation c) → f' ≤ required_catch_up_lsn input → ob_current_lsn o' ≤ rk_current_lsn c.
Proof.
  intros Hev Hd id o' d' f' Ho' Hne' Hd' Hf' Heq Hle.
  destruct (candidate_best _ _ _ Hev Hd _ _ _ _ Ho' Hne' Hd' Hf') as [[Hout|[_ Hno]] _]; [|lia].
  unfold outranked, epoch_before in Hout. rewrite Heq in Hout. lia.
Qed.

(** C8. Whom an election promotes (or recovers from, after data loss): an
    accepted replica other than the failed primary which outranks, field by
    field (later deactivation epoch, higher LSN, lower first retained LSN,
    lower identity), every other accepted replica but those passed over
    because they cannot serve catch-up while it can. Where it cannot serve
    catch-up itself no accepted replica of its deactivation epoch can. Every
    member that has not been heard for good, is not dropped and is not the
    failed primary is outranked by its last known metadata too. *)
Theorem election_promotes_best input d c :
  evaluate input = Ok d → decided_candidate d = Some c →
  ∃ o, accepted_observations input !! rk_id c = Some o ∧ rk_id c ≠ failed_primary_id input ∧
    ob_deactivation o = Some (rk_deactivation c) ∧ ob_first_retained_lsn o = Some (rk_first_retained_lsn c) ∧
    ob_current_lsn o = rk_current_lsn c ∧
    (∀ id o' d' f', accepted_observations input !! id = Some o' → id ≠ failed_primary_id input →
       ob_deactivation o' = Some d' → ob_first_retained_lsn o' = Some f' →
       (outranked id (di_epoch d') (ob_current_lsn o') f' c ∨
        di_epoch d' = di_epoch (rk_deactivation c) ∧ rk_first_retained_lsn c ≤ required_catch_up_lsn input < f') ∧
       (di_epoch d' = di_epoch (rk_deactivation c) → f' ≤ required_catch_up_lsn input →
        rk_first_retained_lsn c ≤ required_catch_up_lsn input)) ∧
    (∀ id m, all_members input !! id = Some m → em_dropped m = false → id ≠ failed_primary_id input →
       id ∉ settled input (accepted_observations input) →
       ∃ md, em_last_known m = Some md ∧
         outranked id (md_deactivation_epoch md) (md_current_lsn md) (md_first_retained_lsn md) c).
Proof.
  intros Hev Hd. destruct (decision_candidate _ _ _ Hev Hd) as [Hsel Hposs].
  apply select_candidate_spec in Hsel as (e & o & He & [Ho Hne] & Hr & _).
  pose proof Hr as (dd & f & Hdd & Hf & <- & Hc)%ranked_Some. exists o.
  split_and!; [done|done|by rewrite Hc|by rewrite Hc|by rewrite Hc|by eapply candidate_best|].
  - intros id m Hm Hdrop Hid Hset. pose proof (all_members_id _ _ _ Hm) as Hmid.
    unfold possibly_better_outstanding in Hposs.
    assert (may_beat c m = false) as Hb.
    { apply not_true_is_false. intros Hb.
      assert (id ∈ ([] : list ReplicaId)) as ?%elem_of_nil; [|done]. rewrite <-Hposs, elem_of_sort_by.
      apply list_elem_of_fmap. exists m. split; [done|]. apply list_elem_of_filter. rewrite Hmid.
      split; [done|]. apply elem_of_btree_values. by exists id. }
    unfold may_beat in Hb. destruct (em_last_known m) as [md|]; [|done]. exists md. split; [done|].
    apply bool_decide_eq_false in Hb. rewrite <-Hmid. by apply rank_outranked.
Qed.

(** The configurations a decision must hold a quorum of. *)
Definition in_force (input : ElectionInput) (c : ElectionConfiguration) : Prop :=
  c = in_current input ∨ in_previous input = Some c.

Lemma accepted_members_id c input : accepted_members c input ⊆ el_members c.
Proof. intros m. unfold accepted_members. by intros [_ ?]%list_elem_of_filter. Qed.

Lemma satisfied_overlap c input (W : gset ReplicaId) :
  NoDup (em_id <$> el_members c) →
  satisfied (assess_configuration c input (accepted_observations input)) = true →
  W ⊆ list_to_set (em_id <$> el_members c) → (length (el_members c) < 2 * size W)%nat →
  ∃ m, m ∈ el_members c ∧ em_id m ∈ W ∧ em_dropped m = false ∧ is_Some (accepted_observations input !! em_id m).
Proof.
  intros Hnd Hsat HW Hsize. unfold satisfied in Hsat. apply Nat.leb_le in Hsat.
  rewrite assess_accepted, length_fmap in Hsat. cbn [required assess_configuration] in Hsat.
  set (A := list_to_set (em_id <$> accepted_members c input) : gset ReplicaId).
  assert (NoDup (em_id <$> accepted_members c input)) as HndA.
  { eapply sublist_NoDup; [exact Hnd|]. apply fmap_sublist, sublist_filter. }
  destruct (set_overlap W A (list_to_set (em_id <$> el_members c))) as (x & HxW & HxA); [done| | |].
  - intros x. unfold A. rewrite !elem_of_list_to_set, !list_elem_of_fmap.
    intros (m & -> & Hm). exists m. split; [done|]. by eapply accepted_members_id.
  - unfold A. rewrite !size_list_to_set, !length_fmap by done.
    assert (length (el_members c) <= 2 * Nat.div (length (el_members c) + 1) 2)%nat; [|lia].
    pose proof (Nat.div_mod_eq (length (el_members c) + 1) 2).
    pose proof (Nat.mod_upper_bound (length (el_members c) + 1) 2). lia.
  - unfold A in HxA. apply elem_of_list_to_set, list_elem_of_fmap in HxA as (m & -> & Hm).
    unfold accepted_members in Hm. apply list_elem_of_filter in Hm as [[Hd Hacc] Hm]. by exists m.
Qed.

(** C9. No committed write is lost by a normal election: take a configuration
    in force and any majority of its members (a write quorum that acknowledged
    LSN [L]). If the failed primary is marked dropped, as the operator does,
    and those of the majority that were accepted report at least [L] from this
    failover's deactivation and can serve catch-up, then the promoted replica
    has [L] too: the accepted replicas meet every write quorum. *)
Theorem proceed_keeps_committed input c previous current conf (W : gset ReplicaId) L :
  evaluate input = Ok (Proceed c previous current) → in_force input conf →
  W ⊆ list_to_set (em_id <$> el_members conf) → (length (el_members conf) < 2 * size W)%nat →
  (∀ m, m ∈ el_members conf → em_id m = failed_primary_id input → em_dropped m = true) →
  (∀ id o, id ∈ W → accepted_observations input !! id = Some o →
     L ≤ ob_current_lsn o ∧ ∃ d f, ob_deactivation o = Some d ∧ ob_first_retained_lsn o = Some f ∧
       di_epoch d = di_epoch (rk_deactivation c) ∧ f ≤ required_catch_up_lsn input) →
  L ≤ rk_current_lsn c.
Proof.
  intros Hev Hforce HW Hsize Hdropped Hacked.
  assert (satisfied (assess_configuration conf input (accepted_observations input)) = true) as Hsat.
  { clear -Hev Hforce. unfold evaluate in Hev. apply bind_Ok in Hev as ([] & _ & Hev).
    apply bind_Ok in Hev as ([] & _ & Hev). destruct (select_candidate _ _); [|case_decide; done].
    case_decide; [done|]. destruct (satisfied _ && _) eqn:Hs; [|destruct (can_still_be_satisfied _ && _); done].
    apply andb_prop in Hs as [Hs Hp]. destruct Hforce as [->|Heq]; [done|]. by rewrite Heq in Hp. }
  destruct (satisfied_overlap conf input W) as (m & Hm & HmW & Hd & [o Ho]);
    [by eapply evaluate_valid|done|done|done|].
  destruct (Hacked _ _ HmW Ho) as (HL & d & f & Hdd & Hf & Heq & Hle).
  assert (em_id m ≠ failed_primary_id input) as Hne by (intros Hfail; specialize (Hdropped m Hm Hfail); congruence).
  pose proof (candidate_ahead _ _ c Hev eq_refl _ _ d f Ho Hne Hdd Hf Heq Hle). lia.
Qed.

Lemma target_member_Some input accepted c e sc m s :
  target_member input accepted c e sc m = Some s →
  sr_id s = em_id m ∧ em_id m ≠ failed_primary_id input ∧
  (sr_role s = Primary ↔ em_id m = rk_id c) ∧ (sc = true → em_id m = rk_id c) ∧
  ∃ o d f, accepted !! em_id m = Some o ∧ ob_instance_id o = sr_instance_id s ∧
    ob_deactivation o = Some d ∧ di_epoch d = e ∧ ob_first_retained_lsn o = Some f ∧
    (em_id m = rk_id c ∨ f ≤ required_catch_up_lsn input).
Proof.
  unfold target_member. destruct (accepted !! em_id m) as [o|]; [|done]. simpl.
  destruct (ob_deactivation o) as [d|] eqn:Hd; [|done]. simpl.
  destruct (ob_first_retained_lsn o) as [f|] eqn:Hf; [|done]. simpl. case_bool_decide; [|done]. simpl.
  destruct (Z.eqb_spec (em_id m) (rk_id c)), (Z.ltb_spec (required_catch_up_lsn input) f),
    (Z.eqb_spec (em_id m) (failed_primary_id input)); simpl; try done;
    destruct sc; simpl; intros; simplify_eq/=; (split_and!; [done|done|done|done|]); eexists _, _, _;
    split_and!; eauto.
Qed.

(** What [build_target] builds, member by member. *)
Lemma build_target_spec input d state_changed pid members wq :
  evaluate input = Ok d → build_target input d state_changed = Ok (pid, members, wq) →
  ∃ c, decided_candidate d = Some c ∧ pid = rk_id c ∧ pid ∈ sr_id <$> members ∧
    StronglySorted Z.lt (sr_id <$> members) ∧ wq = as_u32 (length members) / 2 + 1 ∧
    (length members ≤ length (el_members (in_current input)))%nat ∧
    ∀ s, s ∈ members → ∃ m e, m ∈ el_members (in_current input) ∧ em_id m = sr_id s ∧
      freshest_deactivation input (accepted_observations input) = Some e ∧
      target_member input (accepted_observations input) c e state_changed m = Some s.
Proof.
  intros Hev Hb. pose proof (evaluate_valid _ _ Hev (in_current input) (or_introl eq_refl)) as Hnd.
  unfold build_target in Hb. apply bind_Ok in Hb as (c & Hc%ok_or_Ok & Hb).
  apply bind_Ok in Hb as (e & He%ok_or_Ok & Hb). apply bind_Ok in Hb as ([] & Hin%reject_if_Ok & Hb).
  apply negb_false_iff, bool_decide_eq_true in Hin. set (ms := omap _ _) in *.
  injection Hb as <- <- <-. exists c.
  assert (sublist (sr_id <$> ms) (em_id <$> el_members (in_current input))) as Hsub.
  { unfold ms. clear. induction (el_members (in_current input)) as [|m l IH]; simpl; [constructor|].
    destruct (target_member _ _ _ _ _ m) as [s|] eqn:Hs; simpl; [|by constructor].
    apply target_member_Some in Hs as [-> _]. by constructor. }
  split; [done|]. split; [done|]. split; [by rewrite sort_by_key_Permutation|].
  split; [by apply sort_by_key_strict, (sublist_NoDup _ _ Hnd Hsub)|]. split; [done|]. split.
  - rewrite sort_by_key_Permutation. apply sublist_length in Hsub. by rewrite !length_fmap in Hsub.
  - intros s Hs%elem_of_sort_by_key. unfold ms in Hs. apply list_elem_of_omap in Hs as (m & Hm & Hs).
    exists m, e. apply target_member_Some in Hs as Hid. by destruct Hid as [-> _].
Qed.

(** The member of the target has the incarnation of the configuration. *)
Lemma target_member_instance input c e sc m s :
  NoDup (em_id <$> el_members (in_current input)) → m ∈ el_members (in_current input) →
  target_member input (accepted_observations input) c e sc m = Some s → em_instance_id m = sr_instance_id s.
Proof.
  intros Hnd Hm Hs. apply target_member_Some in Hs as (_ & _ & _ & _ & o & d & f & Ho & <- & _).
  apply accepted_spec in Ho as (_ & m' & Hm' & He). rewrite (all_members_current input m Hm Hnd) in Hm'. injection Hm' as <-.
  by apply exclusion_None in He as (_ & ? & _).
Qed.

(** The configuration a decided election builds: its primary is the
    candidate and the only one in that role, its replicas are listed by
    increasing identity, each with the incarnation that was observed, accepted
    and of the freshest deactivation epoch, and can serve catch-up unless it
    is the candidate; the failed primary is not among them; the write quorum
    is their majority; and when data loss changed the state the candidate is
    alone. *)
Theorem target_well_formed input d state_changed pid members wq :
  evaluate input = Ok d → build_target input d state_changed = Ok (pid, members, wq) →
  Z.of_nat (length (el_members (in_current input))) ≤ u32_max →
  ∃ c, decided_candidate d = Some c ∧ pid = rk_id c ∧ pid ∈ sr_id <$> members ∧
    StronglySorted Z.lt (sr_id <$> members) ∧ wq = Z.of_nat (length members) / 2 + 1 ∧
    (state_changed = true → sr_id <$> members = [pid]) ∧
    ∀ s, s ∈ members →
      (sr_role s = Primary ↔ sr_id s = pid) ∧ sr_id s ≠ failed_primary_id input ∧
      ∃ o d f, accepted_observations input !! sr_id s = Some o ∧ ob_instance_id o = sr_instance_id s ∧
        ob_deactivation o = Some d ∧ freshest_deactivation input (accepted_observations input) = Some (di_epoch d) ∧
        ob_first_retained_lsn o = Some f ∧ (sr_id s = pid ∨ f ≤ required_catch_up_lsn input).
Proof.
  intros Hev Hb Hlen. destruct (build_target_spec _ _ _ _ _ _ Hev Hb) as (c & Hc & -> & Hin & Hsort & -> & Hle & Hms).
  exists c. split; [done|]. split; [done|]. split; [done|]. split; [done|]. split; [rewrite as_u32_small; [done|lia]|].
  assert (NoDup (sr_id <$> members)) as Hnd.
  { clear -Hsort. induction Hsort as [|x l _ IH Hx]; constructor; [|done]. rewrite Forall_forall in Hx. intros Hin%Hx. lia. }
  split.
  - intros ->. apply singleton_list; [done|done|]. intros x (s & -> & Hs)%list_elem_of_fmap.
    destruct (Hms s Hs) as (m & e & _ & <- & _ & (_ & _ & _ & Hsc & _)%target_member_Some). by apply Hsc.
  - intros s Hs. destruct (Hms s Hs) as (m & e & _ & Hid & He & (_ & Hf & Hr & _ & o & dd & f & Ho & Hi & Hd & <- & Hfr & Hcap)%target_member_Some).
    rewrite <-Hid. split; [done|]. split; [done|]. by exists o, dd, f.
Qed.

(** ** A three-replica partition that lost its primary *)
Module DemoElection.
Definition member (id : ReplicaId) : ElectionMember :=
  mkElectionMember id ("instance-" +:+ pretty id) (if id =? 1 then Primary else ActiveSecondary) (id =? 1)
    (Some (mkStableReplicaElectionMetadata (id * 10) (id * 10) 0 (mkEpoch 1 4) (id * 10))).
Definition config : ElectionConfiguration := mkElectionConfiguration (member <$> [1; 2; 3]) 2.
Definition reported : ReplicaConfigurationStatus :=
  mkReplicaConfigurationStatus Current
    ((λ m, mkReplicaConfigurationMemberStatus (em_id m) (em_instance_id m) (em_role m)) <$> el_members config) 2.
Definition observation (id : ReplicaId) (lsn : Lsn) : ElectionObservation :=
  mkElectionObservation ("instance-" +:+ pretty id) (mkEpoch 1 4) ActiveSecondary true lsn lsn (Some 0)
    (Some (mkReplicaDeactivationInfo (mkEpoch 1 4) lsn)) (Some (mkReplicaElectionConfiguration None reported)).
Definition input : ElectionInput :=
  mkElectionInput (mkEpoch 1 4) 1 0 None config {[2 := observation 2 20; 3 := observation 3 30]}.
Definition candidate : RankedCandidate :=
  mkRankedCandidate 3 "instance-3" (mkReplicaDeactivationInfo (mkEpoch 1 4) 30) 30 30 0.
Definition assessment : QuorumAssessment := mkQuorumAssessment 3 2 [2; 3] [] [(1, Dropped)].
Definition decision : ElectionDecision := Proceed candidate None assessment.
End DemoElection.

Example demo_election_proceeds : evaluate DemoElection.input = Ok DemoElection.decision.
Proof. vm_compute. reflexivity. Qed.

(** Without replica 3, whose last known progress ranks first, it waits. *)
Example demo_election_waits :
  ∃ previous current, evaluate (mkElectionInput (mkEpoch 1 4) 1 0 None DemoElection.config
    {[2 := DemoElection.observation 2 20]}) = Ok (WaitForBestCandidate [3] previous current).
Proof. do 2 eexists. vm_compute. reflexivity. Qed.

Lemma election_promotes_best_witness :
  ∃ o, accepted_observations DemoElection.input !! 3 = Some o ∧ ob_current_lsn o = 30.
Proof.
  destruct (election_promotes_best DemoElection.input DemoElection.decision DemoElection.candidate
    ltac:(vm_compute; reflexivity) eq_refl) as (o & Ho & _ & _ & _ & Hl & _).
  exists o. split; [exact Ho|exact Hl].
Defined.

Lemma proceed_keeps_committed_witness : 20 ≤ rk_current_lsn DemoElection.candidate.
Proof.
  apply (proceed_keeps_committed DemoElection.input DemoElection.candidate None DemoElection.assessment
    DemoElection.config {[1; 2]} 20).
  - vm_compute. reflexivity.
  - by left.
  - change (em_id <$> el_members DemoElection.config) with [1; 2; 3]. set_solver.
  - vm_compute. lia.
  - intros m Hm. repeat (apply elem_of_cons in Hm as [->|Hm]; [vm_compute; congruence|]). by apply elem_of_nil in Hm.
  - intros id o [->%elem_of_singleton| ->%elem_of_singleton]%elem_of_union.
    + vm_compute. discriminate.
    + vm_compute. intros [= <-]. split; [discriminate|]. eexists _, _. split_and!; [reflexivity..|discriminate].
Defined.

Lemma target_well_formed_witness :
  ∃ members, build_target DemoElection.input DemoElection.decision false = Ok (3, members, 2) ∧
    sr_id <$> members = [2; 3] ∧ StronglySorted Z.lt (sr_id <$> members).
Proof.
  destruct (build_target DemoElection.input DemoElection.decision false) as [[[pid ms] wq]|] eqn:Hb;
    [|vm_compute in Hb; discriminate Hb].
  destruct (target_well_formed DemoElection.input DemoElection.decision false pid ms wq
    ltac:(vm_compute; reflexivity) Hb ltac:(vm_compute; discriminate)) as (c & _ & _ & _ & Hs & _).
  vm_compute in Hb. injection Hb as <- <- <-. eexists. split; [reflexivity|]. split; [reflexivity|exact Hs].
Defined.
