(* ===== verification/Lifecycle.v ===== *)
(** Replica lifecycle descriptors and peer stages
    (kuberic-core/src/replica_lifecycle.rs): the configurations an add or
    remove operation carries, the requests it sends to its peer, their
    signatures and validation. *)

From S2P Require Import Prelude Types.
From Stdlib Require Import Ascii.

Set Default Goal Selector "!".

Definition REPLICA_LIFECYCLE_PEER_PROTOCOL_VERSION : Z := 2.
Definition PEER_STAGE_SEMANTIC_VERSION : Z := 1.
Definition RETIRE_STAGE_SEMANTIC_VERSION : Z := 1.
Definition MAX_LIFECYCLE_ERROR_BYTES : nat := 1024.

(** From remove_replica.rs, which this component shares a constant and a mode
    with. *)
Definition REMOVE_REPLICA_RETIREMENT_TIMEOUT_SECONDS : Z := 60.
Inductive RemoveReplicaMode := ScaleDown | Force.
#[export] Instance RemoveReplicaMode_eq_dec : EqDecision RemoveReplicaMode.
Proof. solve_decision. Defined.
Definition remove_mode_debug (m : RemoveReplicaMode) : string :=
  match m with ScaleDown => "ScaleDown" | Force => "Force" end.

(** ** Text *)

(** The order [sort] gives to strings is that of their bytes. *)
Definition string_le (a b : string) : Prop := String.leb a b = true.
#[export] Instance string_le_dec : RelDecision string_le.
Proof. intros a b. unfold string_le. apply _. Defined.

Definition bool_display (b : bool) : string := if b then "true" else "false".
Definition option_display {A} (f : A → string) (o : option A) : string :=
  match o with Some a => f a | None => "none" end.

Definition contains (pat s : string) : bool := bool_decide (is_Some (String.index 0 pat s)).

(** [s.split(pat)] for a nonempty [pat]; each piece is shorter than [s], which
    bounds their number. *)
Fixpoint split_fuel (fuel : nat) (pat s : string) : list string :=
  match fuel with
  | O => [s]
  | S fuel =>
      match String.index 0 pat s with
      | None => [s]
      | Some i =>
          String.substring 0 i s ::
          split_fuel fuel pat (String.substring (i + String.length pat) (String.length s) s)
      end
  end.
Definition split (pat s : string) : list string := split_fuel (String.length s) pat s.

Definition strip_prefix (pre s : string) : option string :=
  if String.prefix pre s then Some (String.substring (String.length pre) (String.length s) s) else None.
Definition strip_suffix_char (c : Ascii.ascii) (s : string) : option string :=
  let n := String.length s in
  if bool_decide (n ≠ 0%nat ∧ String.get (pred n) s = Some c) then Some (String.substring 0 (pred n) s) else None.

(** ** Configuration descriptors *)

Inductive ConfigurationProgressSource :=
| Frozen (current_progress catch_up_capability : Lsn)
| BuildCopyLsn.
#[export] Instance ConfigurationProgressSource_eq_dec : EqDecision ConfigurationProgressSource.
Proof. solve_decision. Defined.

Record ConfigurationMemberDescriptor := mkConfigurationMemberDescriptor {
  cd_id : ReplicaId;
  cd_instance_id : ReplicaInstanceId;
  cd_role : Role;
  cd_status : ReplicaStatus;
  cd_replicator_address : string;
  cd_must_catch_up : bool;
  cd_progress : ConfigurationProgressSource;
}.
#[export] Instance ConfigurationMemberDescriptor_eq_dec : EqDecision ConfigurationMemberDescriptor.
Proof. solve_decision. Defined.

Record ConfigurationDescriptor := mkConfigurationDescriptor {
  cfg_members : list ConfigurationMemberDescriptor;
  cfg_write_quorum : Z;
}.
#[export] Instance ConfigurationDescriptor_eq_dec : EqDecision ConfigurationDescriptor.
Proof. solve_decision. Defined.

Definition progress_display (p : ConfigurationProgressSource) : string :=
  match p with
  | Frozen current catch_up => "frozen:" +:+ pretty current +:+ ":" +:+ pretty catch_up
  | BuildCopyLsn => "build-copy-lsn"
  end.

Definition member_signature (m : ConfigurationMemberDescriptor) : string :=
  pretty (cd_id m) +:+ "@" +:+ cd_instance_id m +:+ ":" +:+ role_debug (cd_role m) +:+ ":" +:+
  replica_status_debug (cd_status m) +:+ ":" +:+ cd_replicator_address m +:+ ":" +:+
  bool_display (cd_must_catch_up m) +:+ ":" +:+ progress_display (cd_progress m).

Definition descriptor_signature (d : ConfigurationDescriptor) : string :=
  "q" +:+ pretty (cfg_write_quorum d) +:+ "[" +:+
  String.concat "," (sort_by string_le (member_signature <$> cfg_members d)) +:+ "]".

Definition materialize_member (copy_lsn : option Lsn) (m : ConfigurationMemberDescriptor) :
    result string ReplicaInfo :=
  '(current_progress, catch_up_capability) ←
    match cd_progress m with
    | Frozen current catch_up => Ok (current, catch_up)
    | BuildCopyLsn =>
        lsn ← ok_or copy_lsn ("configuration member " +:+ pretty (cd_id m) +:+ " requires a completed copy LSN");
        Ok (lsn, lsn)
    end;
  Ok (mkReplicaInfo (cd_id m) (cd_instance_id m) (cd_role m) (cd_status m) (cd_replicator_address m)
        current_progress catch_up_capability (cd_must_catch_up m)).

Definition materialize (d : ConfigurationDescriptor) (copy_lsn : option Lsn) : result string ReplicaSetConfig :=
  members ← try_fold (λ members m, info ← materialize_member copy_lsn m; Ok (members ++ [info])) [] (cfg_members d);
  Ok (mkReplicaSetConfig (sort_by_key ri_id members) (cfg_write_quorum d)).

Definition descriptor_status (d : ConfigurationDescriptor) (mode : ReplicaConfigurationMode) :
    ReplicaConfigurationStatus :=
  mkReplicaConfigurationStatus mode
    (sort_by_key cm_id ((λ m, mkReplicaConfigurationMemberStatus (cd_id m) (cd_instance_id m) (cd_role m))
       <$> cfg_members d))
    (cfg_write_quorum d).

(** A loop over members that rejects ids and incarnations seen before leaves
    distinct ones, each of which passed its other checks. *)
Lemma fold_distinct {E} (f : gset ReplicaId * gset string → ConfigurationMemberDescriptor → result E (gset ReplicaId * gset string))
    (P : ConfigurationMemberDescriptor → Prop) l seen seen' :
  (∀ s m s', f s m = Ok s' → P m ∧ (cd_id m ∉ s.1) ∧ (cd_instance_id m ∉ s.2) ∧
     s' = ({[cd_id m]} ∪ s.1, {[cd_instance_id m]} ∪ s.2)) →
  try_fold f seen l = Ok seen' →
  NoDup (cd_id <$> l) ∧ NoDup (cd_instance_id <$> l) ∧
  ∀ m, m ∈ l → P m ∧ (cd_id m ∉ seen.1) ∧ (cd_instance_id m ∉ seen.2).
Proof.
  intros Hf. revert seen. induction l as [|m l IH]; intros seen H; simpl in H.
  - split; [constructor|]. split; [constructor|]. by intros m ?%elem_of_nil.
  - apply bind_Ok in H as (s & (HP & Hid & Hinst & ->)%Hf & (Hids & Hinsts & Hall)%IH). simpl in Hall.
    split; [|split].
    + constructor; [|done]. intros (m' & He & Hm')%list_elem_of_fmap. apply Hall in Hm'. set_solver.
    + constructor; [|done]. intros (m' & He & Hm')%list_elem_of_fmap. apply Hall in Hm'. set_solver.
    + intros m' [->|Hm']%elem_of_cons; [done|]. destruct (Hall m' Hm') as (? & ? & ?). set_solver.
Qed.

(** ** Peer stages *)

Inductive PeerOperationKind := AddBuild | Remove.
#[export] Instance PeerOperationKind_eq_dec : EqDecision PeerOperationKind.
Proof. solve_decision. Defined.
Definition operation_kind_debug (k : PeerOperationKind) : string :=
  match k with AddBuild => "AddBuild" | Remove => "Remove" end.

Inductive PeerStage := Prepare | Activate | Cleanup | Retire.
#[export] Instance PeerStage_eq_dec : EqDecision PeerStage.
Proof. solve_decision. Defined.
Definition peer_stage_debug (s : PeerStage) : string :=
  match s with Prepare => "Prepare" | Activate => "Activate" | Cleanup => "Cleanup" | Retire => "Retire" end.

Inductive PeerStageState :=
| StageAccepted | StageInProgress | StageCompleted | StageFailed | StageStale | StageRejected | StageConflict.
#[export] Instance PeerStageState_eq_dec : EqDecision PeerStageState.
Proof. solve_decision. Defined.

Record PeerStageRequest := mkPeerStageRequest {
  pr_protocol_version : Z;
  pr_operation_kind : PeerOperationKind;
  pr_stage_semantic_version : Z;
  pr_operation_id : string;
  pr_attempt_id : string;
  pr_message_id : string;
  pr_input_signature : string;
  pr_stage : PeerStage;
  pr_sender_replica_id : ReplicaId;
  pr_sender_instance_id : ReplicaInstanceId;
  pr_sender_agent_generation : AgentGeneration;
  pr_sender_control_address : string;
  pr_parent_action_id : string;
  pr_parent_action_signature : string;
  pr_target_replica_id : ReplicaId;
  pr_target_instance_id : ReplicaInstanceId;
  pr_expected_target_agent_generation : AgentGeneration;
  pr_expected_target_peer_control_version : Z;
  pr_epoch : Epoch;
  pr_configuration_fence : string;
  pr_build_key : option string;
  pr_copy_lsn : option Lsn;
  pr_removal_mode : option RemoveReplicaMode;
  pr_commit_observed_unix_seconds : option Z;
  pr_retirement_expiry_unix_seconds : option Z;
  pr_reduced_current_projection : option ReplicaConfigurationStatus;
}.

Record PeerStageObservation := mkPeerStageObservation {
  po_protocol_version : Z;
  po_operation_kind : PeerOperationKind;
  po_stage_semantic_version : Z;
  po_message_id : string;
  po_input_signature : string;
  po_stage : PeerStage;
  po_state : PeerStageState;
  po_target_agent_generation : AgentGeneration;
  po_target_peer_control_version : Z;
  po_error : option string;
}.
#[export] Instance eta_PeerStageObservation : Settable PeerStageObservation :=
  {| eta_record r := mkPeerStageObservation (po_protocol_version r) (po_operation_kind r)
    (po_stage_semantic_version r) (po_message_id r) (po_input_signature r) (po_stage r) (po_state r)
    (po_target_agent_generation r) (po_target_peer_control_version r) (po_error r) |}.

Record PeerLifecycleStatus := mkPeerLifecycleStatus {
  pl_protocol_version : Z;
  pl_target_replica_id : ReplicaId;
  pl_target_instance_id : ReplicaInstanceId;
  pl_agent_generation : AgentGeneration;
  pl_peer_control_version : Z;
  pl_role : Role;
  pl_epoch : Epoch;
  pl_healthy : bool;
  pl_current_progress : Lsn;
  pl_current_action : option PeerStageObservation;
  pl_retained_terminal_actions : list PeerStageObservation;
}.

Definition mode_debug (m : ReplicaConfigurationMode) : string :=
  match m with CatchUp => "CatchUp" | Current => "Current" end.

Definition projection_member (m : ReplicaConfigurationMemberStatus) : string :=
  pretty (cm_id m) +:+ "@" +:+ cm_instance_id m +:+ ":" +:+ role_debug (cm_role m).

Definition reduced_current_projection_signature (p : ReplicaConfigurationStatus) : string :=
  mode_debug (cs_mode p) +:+ ":q" +:+ pretty (cs_write_quorum p) +:+ "[" +:+
  String.concat "," (projection_member <$> cs_members p) +:+ "]".

Definition none {A} (o : option A) : bool := match o with None => true | Some _ => false end.
Definition empty (s : string) : bool := bool_decide (s = "").

Definition add_build_signature (r : PeerStageRequest) : string :=
  "peer:" +:+ pr_operation_id r +:+ ":" +:+ pr_attempt_id r +:+ ":" +:+ pr_message_id r +:+ ":" +:+
  peer_stage_debug (pr_stage r) +:+ ":" +:+ pretty (pr_sender_replica_id r) +:+ "@" +:+
  pr_sender_instance_id r +:+ ":" +:+ pr_sender_agent_generation r +:+ ":" +:+
  pr_sender_control_address r +:+ ":" +:+ pr_parent_action_id r +:+ ":" +:+
  pr_parent_action_signature r +:+ ":" +:+ pretty (pr_target_replica_id r) +:+ "@" +:+
  pr_target_instance_id r +:+ ":" +:+ pr_expected_target_agent_generation r +:+ ":" +:+
  pretty (pr_expected_target_peer_control_version r) +:+ ":" +:+
  pretty (data_loss_number (pr_epoch r)) +:+ ":" +:+ pretty (configuration_number (pr_epoch r)) +:+ ":" +:+
  pr_configuration_fence r +:+ ":" +:+ option_display id (pr_build_key r) +:+ ":" +:+
  option_display pretty (pr_copy_lsn r).

Definition request_signature (r : PeerStageRequest) : string :=
  if bool_decide (pr_operation_kind r = AddBuild) && none (pr_removal_mode r)
     && none (pr_commit_observed_unix_seconds r) && none (pr_retirement_expiry_unix_seconds r)
     && none (pr_reduced_current_projection r)
  then add_build_signature r
  else
    "peer-lifecycle-v" +:+ pretty (pr_protocol_version r) +:+ ":" +:+
    operation_kind_debug (pr_operation_kind r) +:+ ":stage-v" +:+ pretty (pr_stage_semantic_version r) +:+ ":" +:+
    add_build_signature r +:+ ":remove-mode=" +:+ option_display remove_mode_debug (pr_removal_mode r) +:+
    ":commit=" +:+ option_display pretty (pr_commit_observed_unix_seconds r) +:+
    ":retirement-expiry=" +:+ option_display pretty (pr_retirement_expiry_unix_seconds r) +:+
    ":projection=" +:+ option_display reduced_current_projection_signature (pr_reduced_current_projection r).

(** ** Validation *)

Definition validate_reduced_current_projection (p : ReplicaConfigurationStatus) : result string unit :=
  reject_if (negb (bool_decide (cs_mode p = Current))) "reduced current projection is not Current";;
  reject_if ((cs_write_quorum p =? 0) || (Z.of_nat (length (cs_members p)) + 1 <? cs_write_quorum p))
    "reduced current projection write quorum is invalid";;
  try_fold (λ '(ids, instances, previous_id) member,
      reject_if ((cm_id member <=? 0) || empty (cm_instance_id member) || bool_decide (cm_role member = Unknown)
                 || bool_decide (cm_id member ∈ (ids : gset ReplicaId))
                 || bool_decide (cm_instance_id member ∈ (instances : gset string))
                 || match previous_id with Some id => cm_id member <=? id | None => false end)
        "reduced current projection members are invalid or not strictly sorted";;
      Ok ({[cm_id member]} ∪ ids, {[cm_instance_id member]} ∪ instances, Some (cm_id member)))
    (∅, ∅, None) (cs_members p);;
  Ok tt.

Definition validate_projection_against_configuration_fence (p : ReplicaConfigurationStatus)
    (configuration_fence : string) : result string unit :=
  reduced ← ok_or (split ";reduced-current=" configuration_fence !! 1%nat)
    "Retire configuration fence has no reduced Current descriptor";
  let expected_prefix := "q" +:+ pretty (cs_write_quorum p) +:+ "[" in
  reject_if (negb (String.prefix expected_prefix reduced))
    "Retire projection write quorum does not match the configuration fence";;
  try_for_each (λ member,
      reject_if (negb (contains (projection_member member +:+ ":") reduced))
        "Retire projection membership does not match the configuration fence") (cs_members p);;
  let descriptor_member_count :=
    match strip_prefix expected_prefix reduced ≫= strip_suffix_char "]"%char with
    | None => 0%nat
    | Some members => if empty members then 0%nat else length (split "," members)
    end in
  reject_if (negb (descriptor_member_count =? length (cs_members p))%nat)
    "Retire projection member count does not match the configuration fence".

Definition validate_add_build_fields (r : PeerStageRequest) : result string unit :=
  reject_if (negb (pr_protocol_version r =? REPLICA_LIFECYCLE_PEER_PROTOCOL_VERSION)
             || negb (pr_stage_semantic_version r =? PEER_STAGE_SEMANTIC_VERSION)
             || bool_decide (pr_stage r = Retire))
    "lifecycle peer v2 accepts only valid add/build stage semantics";;
  reject_if (negb (none (pr_removal_mode r)) || negb (none (pr_commit_observed_unix_seconds r))
             || negb (none (pr_retirement_expiry_unix_seconds r)) || negb (none (pr_reduced_current_projection r)))
    "add/build peer stage carries removal-only fields";;
  reject_if (bool_decide (pr_stage r = Activate)
             && (match pr_build_key r with Some k => empty k | None => true end || none (pr_copy_lsn r)))
    "activate peer stage requires build proof";;
  reject_if (negb (bool_decide (pr_stage r = Activate))
             && (negb (none (pr_build_key r)) || negb (none (pr_copy_lsn r))))
    "non-activate peer stage carries build proof".

Definition validate_retire_fields (r : PeerStageRequest) : result string unit :=
  reject_if (negb (pr_protocol_version r =? REPLICA_LIFECYCLE_PEER_PROTOCOL_VERSION)
             || negb (bool_decide (pr_stage r = Retire))
             || negb (pr_stage_semantic_version r =? RETIRE_STAGE_SEMANTIC_VERSION))
    "remove peer operation requires Retire stage v1 over lifecycle peer v2";;
  reject_if (negb (none (pr_build_key r)) || negb (none (pr_copy_lsn r)))
    "Retire peer stage carries add/build proof";;
  ok_or (pr_removal_mode r) "Retire peer stage has no removal mode";;
  commit_observed ← ok_or (pr_commit_observed_unix_seconds r) "Retire peer stage has no commit observation time";
  retirement_expiry ← ok_or (pr_retirement_expiry_unix_seconds r) "Retire peer stage has no retirement expiry";
  reject_if ((commit_observed <=? 0) || (retirement_expiry <? commit_observed)
             || (i64_saturating_add commit_observed REMOVE_REPLICA_RETIREMENT_TIMEOUT_SECONDS <? retirement_expiry))
    "Retire peer stage has an invalid commit/deadline fence";;
  projection ← ok_or (pr_reduced_current_projection r) "Retire peer stage has no reduced Current projection";
  validate_reduced_current_projection projection;;
  reject_if (existsb (λ m, (cm_id m =? pr_target_replica_id r)
                           && bool_decide (cm_instance_id m = pr_target_instance_id r)) (cs_members projection))
    "Retire target remains in the reduced Current projection";;
  reject_if (negb (String.prefix "previous=" (pr_configuration_fence r))
             || negb (contains ";reduced-catch-up=" (pr_configuration_fence r))
             || negb (contains ";reduced-current=" (pr_configuration_fence r))
             || negb (contains (":" +:+ pr_configuration_fence r +:+ ":") (pr_parent_action_signature r)))
    "Retire projection/configuration fence does not match the parent signature";;
  validate_projection_against_configuration_fence projection (pr_configuration_fence r).

(** [Endpoint::from_shared(address).is_ok()], of the tonic transport. *)
Class Endpoints := endpoint_valid : string → bool.

Definition validate_request `{Endpoints} (r : PeerStageRequest) : result string unit :=
  reject_if (empty (pr_operation_id r) || empty (pr_attempt_id r) || empty (pr_message_id r)
             || empty (pr_input_signature r) || empty (pr_parent_action_id r)
             || empty (pr_parent_action_signature r) || empty (pr_sender_control_address r)
             || empty (pr_configuration_fence r))
    "peer stage request has missing required text";;
  reject_if ((pr_sender_replica_id r <=? 0) || (pr_target_replica_id r <=? 0)
             || (pr_sender_replica_id r =? pr_target_replica_id r)
             || empty (pr_sender_instance_id r) || empty (pr_target_instance_id r))
    "peer stage request identity is invalid";;
  reject_if (negb (endpoint_valid (pr_sender_control_address r)))
    "peer stage sender control endpoint is invalid";;
  match pr_operation_kind r with
  | AddBuild => validate_add_build_fields r
  | Remove => validate_retire_fields r
  end;;
  reject_if (negb (bool_decide (pr_input_signature r = request_signature r)))
    "peer stage signature does not match its payload".

(** ** Error texts

    [normalize_add_error] and [normalize_remove_error] cut a UTF-8 string, as
    bytes, at the last character boundary within the bound. *)

(** [is_char_boundary]: the ends, and every byte that is no continuation. *)
Definition is_char_boundary (s : bytes) (i : nat) : bool :=
  bool_decide (i = 0%nat) || bool_decide (i = length s) ||
  match s !! i with Some b => negb (128 <=? Byte.to_N b)%N || (192 <=? Byte.to_N b)%N | None => false end.

Fixpoint last_boundary (s : bytes) (boundary : nat) : nat :=
  if is_char_boundary s boundary then boundary
  else match boundary with O => O | S b => last_boundary s b end.

Definition normalize_error (error : bytes) : bytes :=
  if decide (length error ≤ MAX_LIFECYCLE_ERROR_BYTES)%nat then error
  else take (last_boundary error MAX_LIFECYCLE_ERROR_BYTES) error.

(** ** What a descriptor promises *)

Lemma try_fold_snoc {E A B} (f : A → result E B) l acc r :
  try_fold (λ acc x, y ← f x; Ok (acc ++ [y])) acc l = Ok r ↔
  ∃ ys, Forall2 (λ x y, f x = Ok y) l ys ∧ r = acc ++ ys.
Proof.
  revert acc. induction l as [|x l IH]; intros acc; simpl.
  - split; [intros [= <-]; exists []; by rewrite app_nil_r|]. intros (ys & Hys%Forall2_nil_inv_l & ->).
    by rewrite Hys, app_nil_r.
  - rewrite bind_Ok. split.
    + intros (acc' & (y & Hy & [= <-])%bind_Ok & (ys & Hys & ->)%IH). exists (y :: ys).
      split; [by constructor|]. by rewrite <-app_assoc.
    + intros (ys & (y & ys' & Hy & Hys & ->)%Forall2_cons_inv_l & ->). exists (acc ++ [y]).
      split; [apply bind_Ok; by exists y|]. apply IH. exists ys'. split; [done|]. by rewrite <-app_assoc.
Qed.

Lemma materialize_member_Ok copy m i :
  materialize_member copy m = Ok i ↔
  ∃ p c, (cd_progress m = Frozen p c ∨ (cd_progress m = BuildCopyLsn ∧ copy = Some p ∧ c = p)) ∧
    i = mkReplicaInfo (cd_id m) (cd_instance_id m) (cd_role m) (cd_status m) (cd_replicator_address m)
          p c (cd_must_catch_up m).
Proof.
  unfold materialize_member. destruct (cd_progress m) as [p c|]; simpl.
  - naive_solver.
  - destruct copy as [lsn|]; simpl; naive_solver.
Qed.

(** A descriptor materializes exactly when every progress it leaves open
    can be filled with the copy boundary, and then the configuration it yields
    is the one it promised: it reports the very status the descriptor
    predicts, in both modes, with the members' identities, roles and
    addresses, frozen members at their frozen progress and built ones at the
    copy boundary. *)
Theorem materialized_as_promised d copy :
  (is_ok (materialize d copy) = true ↔
     ∀ m, m ∈ cfg_members d → cd_progress m = BuildCopyLsn → is_Some copy) ∧
  ∀ cfg, materialize d copy = Ok cfg →
    (∀ mode, configuration_status_from_config mode cfg = descriptor_status d mode) ∧
    ∀ i, i ∈ rc_members cfg ↔ ∃ m, m ∈ cfg_members d ∧ materialize_member copy m = Ok i.
Proof.
  unfold materialize. split.
  - split.
    + destruct (try_fold _ _ _) as [infos|] eqn:H; [|done]. apply try_fold_snoc in H as (ys & H & _). intros _ m Hm Hb.
      apply list_elem_of_lookup in Hm as [k Hk]. destruct (Forall2_lookup_l _ _ _ _ _ H Hk) as (i & _ & Hi).
      apply materialize_member_Ok in Hi as (p & c & [Hf|(_ & -> & _)] & _); [congruence|done].
    + intros Hall. assert (∃ ys, Forall2 (λ m i, materialize_member copy m = Ok i) (cfg_members d) ys) as [ys Hys].
      { induction (cfg_members d) as [|m l IH]; [by exists []|].
        destruct IH as [ys Hys]; [intros x Hx; apply Hall; by right|].
        assert (∃ i, materialize_member copy m = Ok i) as [i Hi]; [|exists (i :: ys); by constructor].
        setoid_rewrite materialize_member_Ok. destruct (cd_progress m) as [p c|] eqn:Hp; [by eauto 6|].
        destruct (Hall m) as [lsn ->]; [left|done|]. eauto 8. }
      rewrite (proj2 (try_fold_snoc _ _ [] ys)); [done|]. by exists ys.
  - intros cfg H. apply bind_Ok in H as (infos & (ys & Hys & ->)%try_fold_snoc & [= <-]). simpl. split.
    + intros mode. unfold configuration_status_from_config, descriptor_status. simpl. f_equal.
      rewrite (sort_by_key_map _ ri_id cm_id), sort_by_key_idemp, <-(sort_by_key_map _ ri_id cm_id) by done.
      f_equal. clear -Hys. induction Hys as [|m i ms js Hi Hs IH]; [done|]. rewrite !fmap_cons, IH.
      by apply materialize_member_Ok in Hi as (p & c & _ & ->).
    + intros i. rewrite elem_of_sort_by_key. split.
      * intros Hi. apply list_elem_of_lookup in Hi as [k Hk].
        destruct (Forall2_lookup_r _ _ _ _ _ Hys Hk) as (m & Hm & Hmi). exists m.
        split; [by eapply list_elem_of_lookup_2|done].
      * intros (m & Hm & Hmi). apply list_elem_of_lookup in Hm as [k Hk].
        destruct (Forall2_lookup_l _ _ _ _ _ Hys Hk) as (i' & Hi' & Hmi'). assert (i' = i) as -> by congruence.
        by eapply list_elem_of_lookup_2.
Qed.

(** ** Error texts are cut on a character boundary *)

Lemma last_boundary_spec s n :
  is_char_boundary s (last_boundary s n) = true ∧ (last_boundary s n ≤ n)%nat ∧
  ∀ k, (last_boundary s n < k ≤ n)%nat → is_char_boundary s k = false.
Proof.
  induction n as [|n (IH1 & IH2 & IH3)]; cbn [last_boundary].
  - destruct (is_char_boundary s 0) eqn:H; (split_and!; [done|lia|intros; lia]).
  - destruct (is_char_boundary s (S n)) eqn:H; [split_and!; [done|lia|intros; lia]|].
    split_and!; [done|lia|]. intros k Hk. destruct (decide (k = S n)) as [->|]; [done|apply IH3; lia].
Qed.
