(* ===== verification/AddReplica.v ===== *)
(** The add-replica intent (kuberic-core/src/add_replica.rs): its validation,
    its signatures, and what a validated intent guarantees. *)

From S2P Require Import Prelude Types Lifecycle.

Set Default Goal Selector "!".

Inductive AddReplicaMode := ScaleUp | Rebuild.
#[export] Instance AddReplicaMode_eq_dec : EqDecision AddReplicaMode.
Proof. solve_decision. Defined.
Definition add_mode_debug (m : AddReplicaMode) : string :=
  match m with ScaleUp => "ScaleUp" | Rebuild => "Rebuild" end.

Record AddReplicaIntent := mkAddReplicaIntent {
  ai_operation_id : string;
  ai_attempt_id : string;
  ai_mode : AddReplicaMode;
  ai_epoch : Epoch;
  ai_primary_replica_id : ReplicaId;
  ai_primary_instance_id : ReplicaInstanceId;
  ai_primary_agent_generation : AgentGeneration;
  ai_primary_control_address : string;
  ai_target_replica_id : ReplicaId;
  ai_target_instance_id : ReplicaInstanceId;
  ai_target_agent_generation : AgentGeneration;
  ai_target_control_address : string;
  ai_target_replicator_address : string;
  ai_retired_instance_id : option ReplicaInstanceId;
  ai_previous_configuration : ConfigurationDescriptor;
  ai_catch_up_configuration : ConfigurationDescriptor;
  ai_current_configuration : ConfigurationDescriptor;
  ai_minimum_committed_replicas : Z;
  ai_deadline_unix_seconds : Z;
  ai_compensation_deadline_unix_seconds : Z;
  ai_target_lifecycle_peer_protocol_version : Z;
}.

(** One exact member of a descriptor. *)
Definition is_member (id : ReplicaId) (inst : ReplicaInstanceId) (m : ConfigurationMemberDescriptor) : bool :=
  (cd_id m =? id) && bool_decide (cd_instance_id m = inst).

Definition validate_add_member (seen : gset ReplicaId * gset string) (m : ConfigurationMemberDescriptor) :
    result string (gset ReplicaId * gset string) :=
  let '(ids, instances) := seen in
  reject_if ((cd_id m <=? 0) || bool_decide (cd_id m ∈ ids) || empty (cd_instance_id m)
             || bool_decide (cd_instance_id m ∈ instances) || empty (cd_replicator_address m)
             || negb (bool_decide (cd_role m = ActiveSecondary)))
    "add-replica configuration member is invalid";;
  Ok ({[cd_id m]} ∪ ids, {[cd_instance_id m]} ∪ instances).

Definition validate_add_descriptor (d : ConfigurationDescriptor) : result string unit :=
  reject_if ((cfg_write_quorum d =? 0) || (Z.of_nat (length (cfg_members d)) + 1 <? cfg_write_quorum d))
    "add-replica configuration has invalid write quorum";;
  try_fold validate_add_member (∅, ∅) (cfg_members d);;
  Ok tt.

Definition validate_add_mode (i : AddReplicaIntent) : result string unit :=
  let previous := cfg_members (ai_previous_configuration i) in
  match ai_mode i with
  | ScaleUp =>
      reject_if (negb (none (ai_retired_instance_id i))
                 || existsb (λ m, (cd_id m =? ai_target_replica_id i)
                                  || bool_decide (cd_instance_id m = ai_target_instance_id i)) previous)
        "scale-up intent contains an existing target"
  | Rebuild =>
      retired ← ok_or (ai_retired_instance_id i) "rebuild intent has no retired incarnation";
      reject_if (bool_decide (retired = ai_target_instance_id i)
                 || negb (existsb (is_member (ai_target_replica_id i) retired) previous))
        "rebuild intent does not identify the retired target"
  end.

Definition validate_add_intent (i : AddReplicaIntent) : result string unit :=
  reject_if (empty (ai_operation_id i) || empty (ai_attempt_id i)
             || (ai_primary_replica_id i <=? 0) || (ai_target_replica_id i <=? 0)
             || (ai_primary_replica_id i =? ai_target_replica_id i)
             || empty (ai_primary_instance_id i) || empty (ai_target_instance_id i)
             || empty (ai_primary_control_address i) || empty (ai_target_control_address i)
             || empty (ai_target_replicator_address i)
             || (ai_minimum_committed_replicas i =? 0) || (ai_deadline_unix_seconds i <=? 0)
             || (ai_compensation_deadline_unix_seconds i <? ai_deadline_unix_seconds i)
             || negb (ai_target_lifecycle_peer_protocol_version i =? REPLICA_LIFECYCLE_PEER_PROTOCOL_VERSION))
    "add-replica intent has invalid identity, endpoint, or limit";;
  try_for_each validate_add_descriptor
    [ai_previous_configuration i; ai_catch_up_configuration i; ai_current_configuration i];;
  let exact := is_member (ai_target_replica_id i) (ai_target_instance_id i) in
  let catch_up_target := filter (λ m, exact m = true) (cfg_members (ai_catch_up_configuration i)) in
  let current_target := filter (λ m, exact m = true) (cfg_members (ai_current_configuration i)) in
  match catch_up_target, current_target with
  | [c], [t] =>
      reject_if (negb (cd_must_catch_up c) || cd_must_catch_up t
                 || negb (bool_decide (cd_progress c = BuildCopyLsn))
                 || negb (bool_decide (cd_progress t = BuildCopyLsn)))
        "add-replica target configuration is inconsistent"
  | _, _ => Err "add-replica target configuration is inconsistent"
  end;;
  let total_members := S (length (cfg_members (ai_current_configuration i))) in
  let expected_quorum := as_u32 total_members / 2 + 1 in
  reject_if (negb (cfg_write_quorum (ai_current_configuration i) =? expected_quorum)
             || negb (cfg_write_quorum (ai_catch_up_configuration i) =? expected_quorum)
             || (Z.of_nat total_members <? ai_minimum_committed_replicas i))
    "add-replica target quorum or minimum is inconsistent";;
  validate_add_mode i.

Definition semantic_build_key (i : AddReplicaIntent) : string :=
  "add-build:" +:+ ai_operation_id i +:+ ":" +:+ pretty (ai_target_replica_id i) +:+ "@" +:+
  ai_target_instance_id i +:+ ":" +:+ ai_target_agent_generation i +:+ ":" +:+
  ai_target_replicator_address i +:+ ":" +:+ pretty (data_loss_number (ai_epoch i)) +:+ ":" +:+
  pretty (configuration_number (ai_epoch i)) +:+ ":" +:+ descriptor_signature (ai_catch_up_configuration i).

Definition add_configuration_fence (i : AddReplicaIntent) : string :=
  "previous=" +:+ descriptor_signature (ai_previous_configuration i) +:+
  ";catch-up=" +:+ descriptor_signature (ai_catch_up_configuration i) +:+
  ";current=" +:+ descriptor_signature (ai_current_configuration i).

Definition add_signature (i : AddReplicaIntent) : string :=
  "add-replica:" +:+ ai_operation_id i +:+ ":" +:+ ai_attempt_id i +:+ ":" +:+ add_mode_debug (ai_mode i) +:+ ":" +:+
  pretty (data_loss_number (ai_epoch i)) +:+ ":" +:+ pretty (configuration_number (ai_epoch i)) +:+ ":" +:+
  pretty (ai_primary_replica_id i) +:+ "@" +:+ ai_primary_instance_id i +:+ ":" +:+
  ai_primary_agent_generation i +:+ ":" +:+ ai_primary_control_address i +:+ ":" +:+
  pretty (ai_target_replica_id i) +:+ "@" +:+ ai_target_instance_id i +:+ ":" +:+
  ai_target_agent_generation i +:+ ":" +:+ ai_target_control_address i +:+ ":" +:+
  ai_target_replicator_address i +:+ ":" +:+ option_display id (ai_retired_instance_id i) +:+ ":" +:+
  add_configuration_fence i +:+ ":" +:+ pretty (ai_minimum_committed_replicas i) +:+ ":" +:+
  pretty (ai_deadline_unix_seconds i) +:+ ":" +:+ pretty (ai_compensation_deadline_unix_seconds i) +:+ ":" +:+
  pretty (ai_target_lifecycle_peer_protocol_version i).

(** The coordinator's phases and what it observes of the target's build. *)
Inductive AddReplicaCoordinatorPhase :=
| AddValidating | RetiringOldConnection | PreparingTarget | Building | ActivatingTarget
| AddInstallingCatchUpConfiguration | AddWaitingForCatchUpQuorum | AddInstallingCurrentConfiguration
| AddAttesting | AddCompensating.
#[export] Instance AddReplicaCoordinatorPhase_eq_dec : EqDecision AddReplicaCoordinatorPhase.
Proof. solve_decision. Defined.

Inductive AddReplicaTerminalResult := AddCommitted | AddCompensated | AddCompensationIncomplete.

Record AddReplicaProgress := mkAddReplicaProgress {
  ap_phase : AddReplicaCoordinatorPhase;
  ap_commit_observed : bool;
  ap_copy_lsn : option Lsn;
}.

Inductive RuntimeBuildState := BuildInProgress | BuildCompleted | BuildFailed | BuildCancelled.
#[export] Instance RuntimeBuildState_eq_dec : EqDecision RuntimeBuildState.
Proof. solve_decision. Defined.

Record RuntimeBuildObservation := mkRuntimeBuildObservation {
  rb_execution_id : string;
  rb_build_key : string;
  rb_target_replica_id : ReplicaId;
  rb_target_instance_id : ReplicaInstanceId;
  rb_target_agent_generation : AgentGeneration;
  rb_state : RuntimeBuildState;
  rb_copy_lsn : option Lsn;
  rb_error : option string;
}.

Record RuntimeQuorumWaitObservation := mkRuntimeQuorumWaitObservation {
  rq_execution_id : string;
  rq_state : RuntimeBuildState;
  rq_error : option string;
}.

Definition normalize_add_error (error : bytes) : bytes := normalize_error error.

(** ** A validated descriptor *)

Lemma add_members_valid l seen seen' :
  try_fold validate_add_member seen l = Ok seen' →
  NoDup (cd_id <$> l) ∧ NoDup (cd_instance_id <$> l) ∧
  (∀ m, m ∈ l → (0 < cd_id m ∧ cd_instance_id m ≠ "" ∧ cd_replicator_address m ≠ "" ∧ cd_role m = ActiveSecondary) ∧
     (cd_id m ∉ seen.1) ∧ (cd_instance_id m ∉ seen.2)).
Proof.
  apply fold_distinct. intros [ids insts] m s' H. unfold validate_add_member in H.
  apply bind_Ok in H as ([] & Hc%reject_if_Ok & [= <-]). unfold empty in *. guards. split; [split_and!; (done || lia)|done].
Qed.

(** ** What a validated intent guarantees *)

(** The replicas of a configuration: its members and the primary, which a
    descriptor does not list. *)
Definition replicas (primary : ReplicaId) (d : ConfigurationDescriptor) : gset ReplicaId :=
  {[primary]} ∪ list_to_set (cd_id <$> cfg_members d).
Definition is_write_quorum (primary : ReplicaId) (d : ConfigurationDescriptor) (Q : gset ReplicaId) : Prop :=
  Q ⊆ replicas primary d ∧ cfg_write_quorum d ≤ Z.of_nat (size Q).

Lemma replicas_size primary d : (size (replicas primary d) ≤ S (length (cfg_members d)))%nat.
Proof.
  unfold replicas. rewrite <-(length_fmap cd_id). etrans; [|exact (size_list_to_set_le (primary :: (cd_id <$> cfg_members d)))].
  done.
Qed.

Lemma as_u32_majority n : Z.of_nat n ≤ u32_max → 2 * (as_u32 n / 2 + 1) > Z.of_nat n.
Proof. intros. rewrite as_u32_small by done. pose proof (Z.div_mod (Z.of_nat n) 2). pose proof (Z.mod_pos_bound (Z.of_nat n) 2). lia. Qed.

(** The exact target is the only member that matches it. *)
Definition target_once (i : AddReplicaIntent) (d : ConfigurationDescriptor) (must : bool) : Prop :=
  ∃ t, filter (λ m, is_member (ai_target_replica_id i) (ai_target_instance_id i) m = true) (cfg_members d) = [t] ∧
    cd_id t = ai_target_replica_id i ∧ cd_instance_id t = ai_target_instance_id i ∧
    cd_role t = ActiveSecondary ∧ cd_must_catch_up t = must ∧ cd_progress t = BuildCopyLsn.

(** A validated add-replica intent: every descriptor lists distinct,
    positive replica ids and distinct incarnations, all active secondaries; the
    target occurs exactly once in the catch-up and in the current
    configuration, fed by its build, and must catch up only in the former; any
    two write quorums of the configuration being installed share a replica; a
    scale-up target is new in id and incarnation, a rebuilt one replaces
    another incarnation of the same id; compensation never ends before the
    operation's deadline. *)
Theorem add_intent_sound i :
  validate_add_intent i = Ok tt → Z.of_nat (length (cfg_members (ai_current_configuration i))) < u32_max →
  (∀ d, d ∈ [ai_previous_configuration i; ai_catch_up_configuration i; ai_current_configuration i] →
     NoDup (cd_id <$> cfg_members d) ∧ NoDup (cd_instance_id <$> cfg_members d) ∧
     ∀ m, m ∈ cfg_members d → 0 < cd_id m ∧ cd_role m = ActiveSecondary) ∧
  target_once i (ai_catch_up_configuration i) true ∧ target_once i (ai_current_configuration i) false ∧
  (∀ Q1 Q2, is_write_quorum (ai_primary_replica_id i) (ai_current_configuration i) Q1 →
     is_write_quorum (ai_primary_replica_id i) (ai_current_configuration i) Q2 → ∃ r, r ∈ Q1 ∧ r ∈ Q2) ∧
  match ai_mode i with
  | ScaleUp => ∀ m, m ∈ cfg_members (ai_previous_configuration i) →
      cd_id m ≠ ai_target_replica_id i ∧ cd_instance_id m ≠ ai_target_instance_id i
  | Rebuild => ∃ m, m ∈ cfg_members (ai_previous_configuration i) ∧ cd_id m = ai_target_replica_id i ∧
      ai_retired_instance_id i = Some (cd_instance_id m) ∧ cd_instance_id m ≠ ai_target_instance_id i
  end ∧
  0 < ai_deadline_unix_seconds i ≤ ai_compensation_deadline_unix_seconds i.
Proof.
  intros H Hlen. unfold validate_add_intent in H. apply bind_Ok in H as ([] & Hid%reject_if_Ok & H).
  apply bind_Ok in H as ([] & Hds%try_for_each_Ok & H). apply bind_Ok in H as ([] & Ht & H).
  apply bind_Ok in H as ([] & Hq%reject_if_Ok & Hmode).
  assert (∀ d, d ∈ [ai_previous_configuration i; ai_catch_up_configuration i; ai_current_configuration i] →
    NoDup (cd_id <$> cfg_members d) ∧ NoDup (cd_instance_id <$> cfg_members d) ∧
    ∀ m, m ∈ cfg_members d → 0 < cd_id m ∧ cd_role m = ActiveSecondary) as Hvalid.
  { intros d Hd. rewrite Forall_forall in Hds. specialize (Hds d Hd). unfold validate_add_descriptor in Hds.
    apply bind_Ok in Hds as ([] & _ & Hds). apply bind_Ok in Hds as (s & Hs & _).
    apply add_members_valid in Hs as (H1 & H2 & H3). split_and!; [done|done|]. intros m Hm. by apply H3 in Hm as ((? & _ & _ & ?) & _). }
  assert (∀ d t, filter (λ m, is_member (ai_target_replica_id i) (ai_target_instance_id i) m = true) (cfg_members d) = [t] →
    d ∈ [ai_previous_configuration i; ai_catch_up_configuration i; ai_current_configuration i] →
    cd_id t = ai_target_replica_id i ∧ cd_instance_id t = ai_target_instance_id i ∧ cd_role t = ActiveSecondary) as Hone.
  { intros d t Hf Hd. assert (t ∈ filter (λ m, is_member (ai_target_replica_id i) (ai_target_instance_id i) m = true)
      (cfg_members d)) as Hin by (rewrite Hf; left).
    apply list_elem_of_filter in Hin as [Hm Hin]. unfold is_member in Hm. apply andb_prop in Hm as [Hm1 Hm2].
    apply Z.eqb_eq in Hm1. apply bool_decide_eq_true in Hm2. split_and!; [done|done|].
    destruct (Hvalid d Hd) as (_ & _ & Hall). by apply Hall in Hin as [_ ?]. }
  destruct (filter _ (cfg_members (ai_catch_up_configuration i))) as [|c [|? ?]] eqn:Hc; [done| |done].
  destruct (filter _ (cfg_members (ai_current_configuration i))) as [|t [|? ?]] eqn:Htt; [done| |done].
  apply reject_if_Ok in Ht. guards.
  destruct (Hone _ c Hc) as (? & ? & ?); [right; left|].
  destruct (Hone _ t Htt) as (? & ? & ?); [right; right; left|].
  split_and!; [done|by exists c|by exists t| | |lia|lia].
  - intros Q1 Q2 [HQ1 Hs1] [HQ2 Hs2]. apply (set_overlap Q1 Q2 (replicas (ai_primary_replica_id i) (ai_current_configuration i)));
      [done|done|]. pose proof (replicas_size (ai_primary_replica_id i) (ai_current_configuration i)).
    pose proof (as_u32_majority (S (length (cfg_members (ai_current_configuration i))))). lia.
  - unfold validate_add_mode in Hmode. destruct (ai_mode i).
    + apply reject_if_Ok, orb_false_elim in Hmode as [_ Hm]. intros m Hin.
      apply (existsb_false _ _ m) in Hm; [|done]. apply orb_false_elim in Hm as [Hm1 Hm2].
      apply Z.eqb_neq in Hm1. by apply bool_decide_eq_false in Hm2.
    + apply bind_Ok in Hmode as (retired & Hr%ok_or_Ok & Hm%reject_if_Ok).
      apply orb_false_elim in Hm as [Hne%bool_decide_eq_false Hm%negb_false_iff].
      apply existsb_exists in Hm as (m & Hin%list_elem_of_In & Hm). unfold is_member in Hm.
      apply andb_prop in Hm as [Hm1%Z.eqb_eq Hm2%bool_decide_eq_true]. exists m. rewrite Hr, Hm2. by split_and!.
Qed.

(** A partition of two replicas scaled up by a third. *)
Module DemoAdd.
Definition member (id : ReplicaId) (must : bool) (p : ConfigurationProgressSource) : ConfigurationMemberDescriptor :=
  mkConfigurationMemberDescriptor id ("i" +:+ pretty id) ActiveSecondary Up ("http://r" +:+ pretty id) must p.
Definition intent : AddReplicaIntent :=
  mkAddReplicaIntent "op" "try" ScaleUp (mkEpoch 1 2) 1 "i1" "g1" "http://c1" 3 "i3" "g3" "http://c3" "http://r3" None
    (mkConfigurationDescriptor [member 2 false (Frozen 5 5)] 2)
    (mkConfigurationDescriptor [member 2 false (Frozen 5 5); member 3 true BuildCopyLsn] 2)
    (mkConfigurationDescriptor [member 2 false (Frozen 5 5); member 3 false BuildCopyLsn] 2)
    2 100 130 2.
End DemoAdd.

Lemma add_intent_sound_witness :
  validate_add_intent DemoAdd.intent = Ok tt ∧ target_once DemoAdd.intent (ai_current_configuration DemoAdd.intent) false.
Proof.
  split; [vm_compute; reflexivity|].
  destruct (add_intent_sound DemoAdd.intent ltac:(vm_compute; reflexivity) ltac:(vm_compute; reflexivity))
    as (_ & _ & H & _). exact H.
Defined.
