(* ===== verification/RemoveReplica.v ===== *)
(** The remove-replica intent and its recorded progress
    (kuberic-core/src/remove_replica.rs): validation, fences, deadlines and
    the evidence each terminal result needs. *)

From S2P Require Import Prelude Types Lifecycle AddReplica.

Set Default Goal Selector "!".

Definition REMOVE_REPLICA_INTENT_PROTOCOL_VERSION : Z := 1.
Definition MAX_REMOVE_REPLICA_PRE_COMMIT_ATTEMPTS : Z := 3.
Definition REMOVE_REPLICA_COMPENSATION_GRACE_SECONDS : Z := 30.
Definition REMOVE_REPLICA_CALL_TIMEOUT_SECONDS : Z := 10.

Record RemoveReplicaIntent := mkRemoveReplicaIntent {
  rm_protocol_version : Z;
  rm_operation_id : string;
  rm_action_id : string;
  rm_attempt_number : Z;
  rm_attempt_id : string;
  rm_input_signature : string;
  rm_mode : RemoveReplicaMode;
  rm_epoch : Epoch;
  rm_primary_replica_id : ReplicaId;
  rm_primary_instance_id : ReplicaInstanceId;
  rm_primary_agent_generation : AgentGeneration;
  rm_primary_agent_control_version : AgentControlVersion;
  rm_primary_control_address : string;
  rm_primary_replicator_address : string;
  rm_target_replica_id : ReplicaId;
  rm_target_instance_id : ReplicaInstanceId;
  rm_expected_target_pod_uid : string;
  rm_target_pod_name : string;
  rm_expected_target_agent_generation : option AgentGeneration;
  rm_target_control_address : option string;
  rm_target_replicator_address : option string;
  rm_target_lifecycle_peer_protocol_version : option Z;
  rm_previous_configuration : ConfigurationDescriptor;
  rm_reduced_catch_up_configuration : ConfigurationDescriptor;
  rm_reduced_current_configuration : ConfigurationDescriptor;
  rm_required_write_quorum : Z;
  rm_minimum_committed_replicas : Z;
  rm_maximum_pre_commit_attempts : Z;
  rm_overall_deadline_unix_seconds : Z;
  rm_compensation_grace_seconds : Z;
  rm_compensation_deadline_cap_unix_seconds : Z;
  rm_call_timeout_seconds : Z;
  rm_target_retirement_timeout_seconds : Z;
}.

Definition remove_configuration_fence (i : RemoveReplicaIntent) : string :=
  "previous=" +:+ descriptor_signature (rm_previous_configuration i) +:+
  ";reduced-catch-up=" +:+ descriptor_signature (rm_reduced_catch_up_configuration i) +:+
  ";reduced-current=" +:+ descriptor_signature (rm_reduced_current_configuration i).

Definition previous_status (i : RemoveReplicaIntent) : ReplicaConfigurationStatus :=
  descriptor_status (rm_previous_configuration i) Current.
Definition reduced_catch_up_status (i : RemoveReplicaIntent) : ReplicaConfigurationStatus :=
  descriptor_status (rm_reduced_catch_up_configuration i) CatchUp.
Definition reduced_current_status (i : RemoveReplicaIntent) : ReplicaConfigurationStatus :=
  descriptor_status (rm_reduced_current_configuration i) Current.

Definition remove_signature (i : RemoveReplicaIntent) : string :=
  String.concat ":"
    [ "remove-replica-v" +:+ pretty (rm_protocol_version i); rm_operation_id i; rm_action_id i;
      pretty (rm_attempt_number i); rm_attempt_id i; remove_mode_debug (rm_mode i);
      pretty (data_loss_number (rm_epoch i)); pretty (configuration_number (rm_epoch i));
      pretty (rm_primary_replica_id i) +:+ "@" +:+ rm_primary_instance_id i;
      rm_primary_agent_generation i; pretty (rm_primary_agent_control_version i);
      rm_primary_control_address i; rm_primary_replicator_address i;
      pretty (rm_target_replica_id i) +:+ "@" +:+ rm_target_instance_id i;
      rm_expected_target_pod_uid i; rm_target_pod_name i;
      option_display id (rm_expected_target_agent_generation i);
      option_display id (rm_target_control_address i); option_display id (rm_target_replicator_address i);
      option_display pretty (rm_target_lifecycle_peer_protocol_version i);
      remove_configuration_fence i; pretty (rm_required_write_quorum i);
      pretty (rm_minimum_committed_replicas i); pretty (rm_maximum_pre_commit_attempts i);
      pretty (rm_overall_deadline_unix_seconds i); pretty (rm_compensation_grace_seconds i);
      pretty (rm_compensation_deadline_cap_unix_seconds i); pretty (rm_call_timeout_seconds i);
      pretty (rm_target_retirement_timeout_seconds i) ].

(** ** Validation *)

Section validation.
  Context {Ends : Endpoints}.

Definition validate_endpoint (name value : string) : result string unit :=
  reject_if (empty value) ("remove-replica " +:+ name +:+ " endpoint is missing");;
  reject_if (negb (endpoint_valid value)) ("remove-replica " +:+ name +:+ " endpoint is invalid").

Definition validate_target_observability (i : RemoveReplicaIntent) : result string unit :=
  let present := [negb (none (rm_expected_target_agent_generation i)); negb (none (rm_target_control_address i));
    negb (none (rm_target_replicator_address i)); negb (none (rm_target_lifecycle_peer_protocol_version i))] in
  let all_present := forallb id present in
  let all_absent := forallb negb present in
  reject_if (negb all_present && negb all_absent) "remove-replica target observability is partial";;
  reject_if (bool_decide (rm_mode i = ScaleDown) && negb all_present)
    "scale-down removal requires exact target observability";;
  if all_present then
    validate_endpoint "target control" (default "" (rm_target_control_address i));;
    validate_endpoint "target replicator" (default "" (rm_target_replicator_address i));;
    reject_if (negb (bool_decide (rm_target_lifecycle_peer_protocol_version i =
                                  Some REPLICA_LIFECYCLE_PEER_PROTOCOL_VERSION)))
      "remove-replica target lifecycle peer version is unsupported"
  else Ok tt.

Definition is_frozen (p : ConfigurationProgressSource) : bool :=
  match p with Frozen _ _ => true | BuildCopyLsn => false end.

Definition validate_remove_member (name : string) (seen : gset ReplicaId * gset string)
    (m : ConfigurationMemberDescriptor) : result string (gset ReplicaId * gset string) :=
  let '(ids, instances) := seen in
  reject_if ((cd_id m <=? 0) || bool_decide (cd_id m ∈ ids) || empty (cd_instance_id m)
             || bool_decide (cd_instance_id m ∈ instances))
    ("remove-replica " +:+ name +:+ " configuration has invalid or duplicate identity");;
  reject_if (negb (bool_decide (cd_role m = ActiveSecondary)) || cd_must_catch_up m || negb (is_frozen (cd_progress m)))
    ("remove-replica " +:+ name +:+ " configuration member " +:+ pretty (cd_id m) +:+ " is not stable");;
  validate_endpoint (name +:+ " configuration member " +:+ pretty (cd_id m) +:+ " replicator")
    (cd_replicator_address m);;
  Ok ({[cd_id m]} ∪ ids, {[cd_instance_id m]} ∪ instances).

Definition validate_descriptor (name : string) (d : ConfigurationDescriptor) : result string unit :=
  let total_members := S (length (cfg_members d)) in
  let expected_write_quorum := as_u32 total_members / 2 + 1 in
  reject_if (negb (cfg_write_quorum d =? expected_write_quorum))
    ("remove-replica " +:+ name +:+ " configuration has write quorum " +:+ pretty (cfg_write_quorum d) +:+
     ", expected " +:+ pretty expected_write_quorum);;
  try_fold (validate_remove_member name) (∅, ∅) (cfg_members d);;
  Ok tt.

(** The members as a [HashMap] by id: a later one replaces an earlier one. *)
Definition members_by_id (d : ConfigurationDescriptor) : gmap ReplicaId ConfigurationMemberDescriptor :=
  foldl (λ acc m, <[cd_id m := m]> acc) ∅ (cfg_members d).

Definition validate_configuration_relationship (i : RemoveReplicaIntent) : result string unit :=
  let previous := rm_previous_configuration i in
  let reduced := rm_reduced_current_configuration i in
  try_for_each (λ d,
      reject_if (existsb (λ m, (cd_id m =? rm_primary_replica_id i)
                               || bool_decide (cd_instance_id m = rm_primary_instance_id i)) (cfg_members d))
        "remove-replica primary appears in a remote configuration descriptor")
    [previous; rm_reduced_catch_up_configuration i; reduced];;
  match filter (λ m, is_member (rm_target_replica_id i) (rm_target_instance_id i) m = true) (cfg_members previous) with
  | [target] =>
      reject_if (negb (bool_decide (cd_role target = ActiveSecondary)))
        "remove-replica target is not one exact stable previous secondary";;
      reject_if (bool_decide (rm_mode i = ScaleDown) && negb (bool_decide (cd_status target = Up)))
        "scale-down removal target is not up"
  | _ => Err "remove-replica target is not one exact stable previous secondary"
  end;;
  reject_if (negb (bool_decide (rm_reduced_catch_up_configuration i = reduced)))
    "remove-replica reduced catch-up and current descriptors differ";;
  reject_if (negb (length (cfg_members previous) =? length (cfg_members reduced) + 1)%nat)
    "remove-replica descriptors do not differ by exactly one member";;
  reject_if (existsb (λ m, (cd_id m =? rm_target_replica_id i)
                           || bool_decide (cd_instance_id m = rm_target_instance_id i)) (cfg_members reduced))
    "remove-replica target remains in a reduced descriptor";;
  let previous_members := members_by_id previous in
  try_for_each (λ retained,
      reject_if (negb (bool_decide (previous_members !! cd_id retained = Some retained)))
        ("remove-replica retained member " +:+ pretty (cd_id retained) +:+ " changed")) (cfg_members reduced).

Definition validate_limits (i : RemoveReplicaIntent) : result string unit :=
  let previous_total := S (length (cfg_members (rm_previous_configuration i))) in
  let reduced := rm_reduced_current_configuration i in
  let retained_total := S (length (cfg_members reduced)) in
  reject_if ((rm_required_write_quorum i =? 0)
             || negb (rm_required_write_quorum i =? cfg_write_quorum (rm_previous_configuration i))
             || (Z.of_nat retained_total <? rm_required_write_quorum i)
             || (rm_minimum_committed_replicas i =? 0)
             || (Z.of_nat retained_total <? rm_minimum_committed_replicas i))
    "remove-replica quorum or minimum constraint is invalid";;
  let retained_up := S (length (filter (λ m, cd_status m = Up) (cfg_members reduced))) in
  reject_if ((Z.of_nat retained_up <? rm_required_write_quorum i)
             || (Z.of_nat retained_up <? cfg_write_quorum reduced)
             || negb (previous_total =? retained_total + 1)%nat)
    "remove-replica retained set cannot satisfy required quorums";;
  let deadlines :=
    (rm_overall_deadline_unix_seconds i <=? 0)
    || negb (rm_compensation_grace_seconds i =? REMOVE_REPLICA_COMPENSATION_GRACE_SECONDS)
    || negb (rm_call_timeout_seconds i =? REMOVE_REPLICA_CALL_TIMEOUT_SECONDS)
    || negb (rm_target_retirement_timeout_seconds i =? REMOVE_REPLICA_RETIREMENT_TIMEOUT_SECONDS)
    || (rm_compensation_grace_seconds i <? rm_call_timeout_seconds i)
    || (rm_target_retirement_timeout_seconds i <? rm_call_timeout_seconds i) in
  reject_if deadlines "remove-replica deadline budget is invalid";;
  cap ← ok_or (i64_checked_add (rm_overall_deadline_unix_seconds i) (rm_compensation_grace_seconds i))
    "remove-replica compensation deadline overflows";
  reject_if (negb (rm_compensation_deadline_cap_unix_seconds i =? cap)) "remove-replica deadline budget is invalid".

Definition validate_remove_intent (i : RemoveReplicaIntent) : result string unit :=
  reject_if (negb (rm_protocol_version i =? REMOVE_REPLICA_INTENT_PROTOCOL_VERSION))
    ("unsupported remove-replica intent protocol version " +:+ pretty (rm_protocol_version i));;
  reject_if (empty (rm_operation_id i) || empty (rm_action_id i) || empty (rm_attempt_id i)
             || empty (rm_input_signature i))
    "remove-replica intent identity is missing";;
  reject_if ((rm_attempt_number i =? 0)
             || negb (rm_maximum_pre_commit_attempts i =? MAX_REMOVE_REPLICA_PRE_COMMIT_ATTEMPTS)
             || (rm_maximum_pre_commit_attempts i <? rm_attempt_number i))
    "remove-replica attempt bounds are invalid";;
  reject_if ((rm_primary_replica_id i <=? 0) || (rm_target_replica_id i <=? 0)
             || (rm_primary_replica_id i =? rm_target_replica_id i)
             || empty (rm_primary_instance_id i) || empty (rm_target_instance_id i)
             || empty (rm_expected_target_pod_uid i) || empty (rm_target_pod_name i))
    "remove-replica primary or target identity is invalid";;
  reject_if (negb (bool_decide (rm_target_instance_id i = rm_expected_target_pod_uid i)))
    "remove-replica target runtime incarnation and Kubernetes pod UID differ";;
  validate_endpoint "primary control" (rm_primary_control_address i);;
  validate_endpoint "primary replicator" (rm_primary_replicator_address i);;
  validate_target_observability i;;
  validate_descriptor "previous" (rm_previous_configuration i);;
  validate_descriptor "reduced catch-up" (rm_reduced_catch_up_configuration i);;
  validate_descriptor "reduced current" (rm_reduced_current_configuration i);;
  validate_configuration_relationship i;;
  validate_limits i;;
  reject_if (negb (bool_decide (rm_input_signature i = remove_signature i)))
    "remove-replica intent signature does not match its payload".
End validation.

(** ** Deadlines *)

Definition retirement_expiry (i : RemoveReplicaIntent) (commit_observed : Z) : result string Z :=
  reject_if ((commit_observed <=? 0) || (rm_overall_deadline_unix_seconds i <? commit_observed))
    "remove-replica commit observation time is invalid";;
  expiry ← ok_or (i64_checked_add commit_observed (rm_target_retirement_timeout_seconds i))
    "remove-replica retirement expiry overflows";
  Ok (Z.min expiry (rm_overall_deadline_unix_seconds i)).

Definition compensation_expiry (i : RemoveReplicaIntent) (failure_observed : Z) : result string Z :=
  reject_if ((failure_observed <=? 0) || (rm_compensation_deadline_cap_unix_seconds i <? failure_observed))
    "remove-replica failure observation time is invalid";;
  expiry ← ok_or (i64_checked_add failure_observed (rm_compensation_grace_seconds i))
    "remove-replica compensation expiry overflows";
  Ok (Z.min expiry (rm_compensation_deadline_cap_unix_seconds i)).

(** ** Progress *)

Inductive RemoveReplicaCoordinatorPhase :=
| Validating | InstallingCatchUpConfiguration | WaitingForCatchUpQuorum | InstallingCurrentConfiguration
| RemovingConnection | RetiringTarget | Attesting | Compensating.
#[export] Instance RemoveReplicaCoordinatorPhase_eq_dec : EqDecision RemoveReplicaCoordinatorPhase.
Proof. solve_decision. Defined.

Inductive TargetRetirementObservation :=
| NotAttempted | RetInProgress | RetCompleted | RetUnavailable | RetStale | RetFailed.
#[export] Instance TargetRetirementObservation_eq_dec : EqDecision TargetRetirementObservation.
Proof. solve_decision. Defined.

Inductive RemoveReplicaTerminalResult :=
| CommittedClean | CommittedDegraded | Compensated | CompensationIncomplete.

Record RemoveReplicaProgress := mkRemoveReplicaProgress {
  rp_phase : RemoveReplicaCoordinatorPhase;
  rp_attempt_id : string;
  rp_commit_observed : bool;
  rp_commit_observed_unix_seconds : option Z;
  rp_connection_absent : bool;
  rp_target_retirement : TargetRetirementObservation;
  rp_retirement_expiry_unix_seconds : option Z;
  rp_compensation_expiry_unix_seconds : option Z;
  rp_error : option string;
  rp_current_install_dispatched : bool;
}.

Definition nonpositive (o : option Z) : bool := match o with Some v => v <=? 0 | None => false end.

Definition before_install (p : RemoveReplicaCoordinatorPhase) : bool :=
  match p with Validating | InstallingCatchUpConfiguration | WaitingForCatchUpQuorum => true | _ => false end.

Definition validate_phase (p : RemoveReplicaProgress) : result string unit :=
  match rp_phase p with
  | Validating | InstallingCatchUpConfiguration | WaitingForCatchUpQuorum =>
      reject_if (rp_commit_observed p) "pre-commit removal phase claims commit"
  | RemovingConnection | RetiringTarget | Attesting =>
      reject_if (negb (rp_commit_observed p)) "post-commit removal phase has no commit evidence"
  | Compensating =>
      reject_if (rp_commit_observed p || none (rp_compensation_expiry_unix_seconds p))
        "removal compensation progress is inconsistent"
  | InstallingCurrentConfiguration => Ok tt
  end.

Definition validate_progress_fields (p : RemoveReplicaProgress) : result string unit :=
  reject_if (empty (rp_attempt_id p)) "remove-replica progress has no attempt ID";;
  reject_if (match rp_error p with Some e => (MAX_LIFECYCLE_ERROR_BYTES <? String.length e)%nat | None => false end)
    "remove-replica progress error exceeds the protocol bound";;
  reject_if (nonpositive (rp_commit_observed_unix_seconds p) || nonpositive (rp_retirement_expiry_unix_seconds p)
             || nonpositive (rp_compensation_expiry_unix_seconds p))
    "remove-replica progress contains an invalid expiry";;
  (if rp_commit_observed p then
     commit_time ← ok_or (rp_commit_observed_unix_seconds p) "committed removal progress has no commit time";
     expiry ← ok_or (rp_retirement_expiry_unix_seconds p) "committed removal progress has no retirement expiry";
     reject_if (expiry <? commit_time) "remove-replica retirement expiry precedes commit observation";;
     reject_if (negb (none (rp_compensation_expiry_unix_seconds p)))
       "committed removal progress carries a compensation expiry"
   else
     reject_if (negb (none (rp_commit_observed_unix_seconds p)) || negb (none (rp_retirement_expiry_unix_seconds p))
                || rp_connection_absent p || negb (bool_decide (rp_target_retirement p = NotAttempted)))
       "pre-commit removal progress carries post-commit evidence");;
  validate_phase p;;
  reject_if (rp_current_install_dispatched p && before_install (rp_phase p))
    "remove-replica current-install evidence precedes its coordinator phase";;
  reject_if (bool_decide (rp_target_retirement p = RetCompleted) && negb (rp_connection_absent p))
    "completed target retirement precedes exact connection absence".

Definition degraded (o : TargetRetirementObservation) : bool :=
  match o with RetUnavailable | RetStale | RetFailed => true | _ => false end.

Definition validate_terminal (p : RemoveReplicaProgress) (r : RemoveReplicaTerminalResult) : result string unit :=
  validate_progress_fields p;;
  match r with
  | CommittedClean =>
      reject_if (negb (rp_commit_observed p) || negb (rp_connection_absent p)
                 || negb (bool_decide (rp_phase p = Attesting))
                 || negb (bool_decide (rp_target_retirement p = RetCompleted)))
        "committed-clean removal result lacks exact clean evidence"
  | CommittedDegraded =>
      reject_if (negb (rp_commit_observed p) || negb (rp_connection_absent p)
                 || negb (bool_decide (rp_phase p = Attesting)) || negb (degraded (rp_target_retirement p)))
        "committed-degraded removal result lacks degraded evidence"
  | Compensated =>
      reject_if (rp_commit_observed p || negb (bool_decide (rp_phase p = Compensating))
                 || none (rp_compensation_expiry_unix_seconds p) || rp_current_install_dispatched p)
        "compensated removal result lacks safe undispatched restoration evidence"
  | CompensationIncomplete =>
      reject_if (rp_commit_observed p || negb (bool_decide (rp_phase p = Compensating))
                 || none (rp_compensation_expiry_unix_seconds p) || none (rp_error p))
        "incomplete removal compensation lacks bounded failure evidence"
  end.

Definition validate_progress (i : RemoveReplicaIntent) (p : RemoveReplicaProgress) : result string unit :=
  validate_progress_fields p;;
  reject_if (negb (bool_decide (rp_attempt_id p = rm_attempt_id i)))
    "remove-replica progress attempt does not match its intent";;
  match rp_commit_observed_unix_seconds p with
  | Some commit_time =>
      expiry ← retirement_expiry i commit_time;
      reject_if (negb (bool_decide (rp_retirement_expiry_unix_seconds p = Some expiry)))
        "remove-replica progress retirement expiry is not deterministic"
  | None => Ok tt
  end;;
  reject_if (match rp_compensation_expiry_unix_seconds p with
             | Some expiry => rm_compensation_deadline_cap_unix_seconds i <? expiry | None => false end)
    "remove-replica progress exceeds the compensation cap".

Definition validate_terminal_progress (i : RemoveReplicaIntent) (p : RemoveReplicaProgress)
    (r : RemoveReplicaTerminalResult) : result string unit :=
  validate_progress i p;;
  validate_terminal p r.

Definition normalize_remove_error (error : bytes) : bytes := normalize_error error.

(** [ManualRemoveReplicaClock]. *)
Definition clock_set (unix_seconds : Z) (_ : Z) : Z := unix_seconds.
Definition clock_advance (seconds : Z) (clock : Z) : Z * Z := (i64_add clock seconds, i64_add clock seconds).

(** ** What a validated removal guarantees *)

Lemma members_by_id_elem d k m : members_by_id d !! k = Some m → m ∈ cfg_members d.
Proof.
  unfold members_by_id.
  enough (∀ l (acc : gmap ReplicaId ConfigurationMemberDescriptor), foldl (λ acc m, <[cd_id m := m]> acc) acc l !! k = Some m → m ∈ l ∨ acc !! k = Some m) as H.
  { intros Hk. apply H in Hk as [?|Hk]; [done|by rewrite lookup_empty in Hk]. }
  induction l as [|a l IH]; intros acc Hk; simpl in Hk; [by right|].
  apply IH in Hk as [?|Hk]; [left; by right|].
  apply lookup_insert_Some in Hk as [[_ ->]|[_ ?]]; [left; left|by right].
Qed.

Section guarantees.
  Context {Ends : Endpoints}.

Lemma remove_members_valid name l seen seen' :
  try_fold (validate_remove_member name) seen l = Ok seen' →
  NoDup (cd_id <$> l) ∧ NoDup (cd_instance_id <$> l) ∧
  (∀ m, m ∈ l → (0 < cd_id m ∧ cd_instance_id m ≠ "" ∧ cd_replicator_address m ≠ "" ∧ cd_role m = ActiveSecondary ∧
       cd_must_catch_up m = false) ∧
     (cd_id m ∉ seen.1) ∧ (cd_instance_id m ∉ seen.2)).
Proof.
  apply fold_distinct. intros [ids insts] m s' Hm. unfold validate_remove_member in Hm.
  apply bind_Ok in Hm as ([] & Hc%reject_if_Ok & Hm). apply bind_Ok in Hm as ([] & Hst%reject_if_Ok & Hm).
  apply bind_Ok in Hm as ([] & Ha & [= <-]). apply bind_Ok in Ha as ([] & Ha%reject_if_Ok & _). unfold empty in *. guards.
  split; [split_and!; (done || lia)|done].
Qed.

Lemma validated_descriptor name d :
  validate_descriptor name d = Ok tt →
  cfg_write_quorum d = as_u32 (S (length (cfg_members d))) / 2 + 1 ∧ NoDup (cd_id <$> cfg_members d) ∧
  NoDup (cd_instance_id <$> cfg_members d) ∧
  ∀ m, m ∈ cfg_members d → 0 < cd_id m ∧ cd_instance_id m ≠ "" ∧ cd_replicator_address m ≠ "" ∧
    cd_role m = ActiveSecondary ∧ cd_must_catch_up m = false.
Proof.
  intros H. unfold validate_descriptor in H. apply bind_Ok in H as ([] & Hq%reject_if_Ok & H).
  apply bind_Ok in H as (s & Hs & _). apply remove_members_valid in Hs as (Hnd & Hni & Hall). guards.
  split_and!; [done..|]. intros m Hm. by destruct (Hall m Hm) as (? & _).
Qed.

(** The parts of a validated intent. *)
Lemma validated_parts i :
  validate_remove_intent i = Ok tt →
  validate_descriptor "previous" (rm_previous_configuration i) = Ok tt ∧
  validate_descriptor "reduced catch-up" (rm_reduced_catch_up_configuration i) = Ok tt ∧
  validate_descriptor "reduced current" (rm_reduced_current_configuration i) = Ok tt ∧
  validate_configuration_relationship i = Ok tt ∧ validate_limits i = Ok tt.
Proof.
  intros H. unfold validate_remove_intent in H.
  do 8 apply bind_Ok in H as ([] & _ & H).
  apply bind_Ok in H as ([] & Hp & H). apply bind_Ok in H as ([] & Hc & H). apply bind_Ok in H as ([] & Hr & H).
  apply bind_Ok in H as ([] & Hrel & H). apply bind_Ok in H as ([] & Hlim & H). done.
Qed.

(** The reduced configuration is the previous one less the exact target. *)
Lemma reduced_is_previous_less_target i :
  validate_configuration_relationship i = Ok tt →
  NoDup (cd_id <$> cfg_members (rm_previous_configuration i)) →
  NoDup (cd_id <$> cfg_members (rm_reduced_current_configuration i)) →
  rm_reduced_catch_up_configuration i = rm_reduced_current_configuration i ∧
  ∃ t, cd_id t = rm_target_replica_id i ∧ cd_instance_id t = rm_target_instance_id i ∧
    (rm_mode i = ScaleDown → cd_status t = Up) ∧
    cfg_members (rm_previous_configuration i) ≡ₚ t :: cfg_members (rm_reduced_current_configuration i).
Proof.
  intros H Hnp Hnr. unfold validate_configuration_relationship in H.
  apply bind_Ok in H as ([] & _ & H). apply bind_Ok in H as ([] & Ht & H).
  apply bind_Ok in H as ([] & He%reject_if_Ok & H). apply bind_Ok in H as ([] & Hl%reject_if_Ok & H).
  apply bind_Ok in H as ([] & Ha%reject_if_Ok & Hr%try_for_each_Ok).
  destruct (filter _ _) as [|t [|? ?]] eqn:Hf; [done| |done].
  assert (t ∈ filter (λ m, is_member (rm_target_replica_id i) (rm_target_instance_id i) m = true)
            (cfg_members (rm_previous_configuration i))) as Hin by (rewrite Hf; left).
  apply list_elem_of_filter in Hin as [Hm Hin]. unfold is_member in Hm.
  apply andb_prop in Hm as [Hm1%Z.eqb_eq Hm2%bool_decide_eq_true].
  apply bind_Ok in Ht as ([] & _ & Hup%reject_if_Ok). guards. split; [done|]. exists t. split_and!; [done|done| |].
  - intros Hs. apply andb_false_iff in Hup as [Hup|Hup]; guards; done.
  - symmetry. apply submseteq_length_Permutation.
    + apply NoDup_submseteq.
      * constructor; [|by apply (NoDup_fmap_1 cd_id)]. intros Hin'.
        apply (existsb_false _ _ t) in Ha; [|done]. simpl in Ha. guards. lia.
      * intros m [->|Hm]%elem_of_cons; [done|]. rewrite Forall_forall in Hr.
        specialize (Hr m Hm). apply reject_if_Ok in Hr. guards. by apply (members_by_id_elem _ (cd_id m)).
    + simpl. lia.
Qed.

(** C10. A validated removal takes exactly the target out: the previous
    configuration is the reduced one (which catch-up and current share) plus
    the one exact target, which no longer occurs under its id; every write
    quorum of the previous configuration shares a replica with every write
    quorum of the reduced one, so nothing committed before is lost; the
    replicas that are left are enough, and enough of them are up, to commit
    under either configuration; compensation ends 30 s after the deadline. *)
Theorem removal_keeps_quorums i :
  validate_remove_intent i = Ok tt → Z.of_nat (length (cfg_members (rm_previous_configuration i))) < u32_max →
  let previous := rm_previous_configuration i in
  let reduced := rm_reduced_current_configuration i in
  let primary := rm_primary_replica_id i in
  rm_reduced_catch_up_configuration i = reduced ∧
  (∃ t, cd_id t = rm_target_replica_id i ∧ cd_instance_id t = rm_target_instance_id i ∧
     (rm_mode i = ScaleDown → cd_status t = Up) ∧ cfg_members previous ≡ₚ t :: cfg_members reduced ∧
     (cd_id t ∉ cd_id <$> cfg_members reduced)) ∧
  (∀ Q1 Q2, is_write_quorum primary previous Q1 → is_write_quorum primary reduced Q2 → ∃ r, r ∈ Q1 ∧ r ∈ Q2) ∧
  (let up := S (length (filter (λ m, cd_status m = Up) (cfg_members reduced))) in
   0 < rm_required_write_quorum i ∧ rm_required_write_quorum i = cfg_write_quorum previous ∧
   cfg_write_quorum previous ≤ Z.of_nat up ∧ cfg_write_quorum reduced ≤ Z.of_nat up) ∧
  rm_minimum_committed_replicas i ≤ Z.of_nat (S (length (cfg_members reduced))) ∧
  rm_compensation_deadline_cap_unix_seconds i =
    rm_overall_deadline_unix_seconds i + REMOVE_REPLICA_COMPENSATION_GRACE_SECONDS.
Proof.
  intros H Hlen. cbv zeta. apply validated_parts in H as (Hp & _ & Hr & Hrel & Hlim).
  apply validated_descriptor in Hp as (Hpq & Hpn & _ & Hpall). apply validated_descriptor in Hr as (Hrq & Hrn & _ & Hrall).
  destruct (reduced_is_previous_less_target i Hrel Hpn Hrn) as (Heq & t & Hid & Hinst & Hup & Hperm).
  pose proof (Permutation_length Hperm) as Hln. simpl in Hln.
  unfold validate_limits in Hlim. apply bind_Ok in Hlim as ([] & Hq%reject_if_Ok & Hlim).
  apply bind_Ok in Hlim as ([] & Hu%reject_if_Ok & Hlim). apply bind_Ok in Hlim as ([] & Hd%reject_if_Ok & Hlim).
  apply bind_Ok in Hlim as (cap & Hcap%ok_or_Ok & Hc%reject_if_Ok). apply i64_checked_add_Some in Hcap as [-> _].
  guards.
  assert (0 < cfg_write_quorum (rm_previous_configuration i)).
  { rewrite Hpq. pose proof (as_u32_majority (S (length (cfg_members (rm_previous_configuration i))))). lia. }
  match goal with H : rm_required_write_quorum i = _ |- _ => rename H into Hreq end.
  split_and!; [done| | |lia|done|by rewrite <-Hreq|done|lia|congruence].
  - exists t. split_and!; [done..|]. intros Hin. rewrite Hperm in Hpn. simpl in Hpn. by apply NoDup_cons in Hpn as [? _].
  - intros Q1 Q2 [HQ1 Hs1] [HQ2 Hs2]. apply (set_overlap Q1 Q2 (replicas (rm_primary_replica_id i) (rm_previous_configuration i))); [done| |].
    + etrans; [exact HQ2|]. unfold replicas. apply union_mono_l. intros x Hx. apply elem_of_list_to_set in Hx.
      apply elem_of_list_to_set. rewrite Hperm. by right.
    + pose proof (replicas_size (rm_primary_replica_id i) (rm_previous_configuration i)). rewrite Hpq in Hs1. rewrite Hrq in Hs2.
      pose proof (as_u32_majority (S (length (cfg_members (rm_previous_configuration i))))).
      pose proof (as_u32_majority (S (length (cfg_members (rm_reduced_current_configuration i))))). lia.
Qed.

(** *** The deadlines *)

Lemma retirement_expiry_bounds i t e :
  validate_remove_intent i = Ok tt → retirement_expiry i t = Ok e →
  0 < t ∧ t ≤ e ∧ e ≤ rm_overall_deadline_unix_seconds i ∧ e ≤ t + REMOVE_REPLICA_RETIREMENT_TIMEOUT_SECONDS.
Proof.
  intros H He. apply validated_parts in H as (_ & _ & _ & _ & Hlim). unfold validate_limits in Hlim.
  do 2 apply bind_Ok in Hlim as ([] & _ & Hlim). apply bind_Ok in Hlim as ([] & Hd%reject_if_Ok & _). guards.
  unfold retirement_expiry in He. apply bind_Ok in He as ([] & Ht%reject_if_Ok & He).
  apply bind_Ok in He as (x & Hx%ok_or_Ok & [= <-]). apply i64_checked_add_Some in Hx as [-> _]. guards.
  unfold REMOVE_REPLICA_RETIREMENT_TIMEOUT_SECONDS in *. lia.
Qed.

(** *** Progress and its evidence *)

(** Evidence that the reduced configuration was committed, and what follows. *)
Definition committed_evidence (i : RemoveReplicaIntent) (p : RemoveReplicaProgress) : Prop :=
  rp_commit_observed p = true ∧ rp_connection_absent p = true ∧ rp_phase p = Attesting ∧
  ∃ t e, rp_commit_observed_unix_seconds p = Some t ∧ rp_retirement_expiry_unix_seconds p = Some e ∧
    0 < t ∧ t ≤ e ∧ e ≤ rm_overall_deadline_unix_seconds i ∧ e ≤ t + REMOVE_REPLICA_RETIREMENT_TIMEOUT_SECONDS.

(** Evidence that it was not, and that nothing was done to the target. *)
Definition compensated_evidence (i : RemoveReplicaIntent) (p : RemoveReplicaProgress) : Prop :=
  rp_commit_observed p = false ∧ rp_connection_absent p = false ∧ rp_target_retirement p = NotAttempted ∧
  rp_commit_observed_unix_seconds p = None ∧ rp_retirement_expiry_unix_seconds p = None ∧ rp_phase p = Compensating ∧
  ∃ e, rp_compensation_expiry_unix_seconds p = Some e ∧ 0 < e ∧
    e ≤ rm_overall_deadline_unix_seconds i + REMOVE_REPLICA_COMPENSATION_GRACE_SECONDS.

Definition terminal_evidence (i : RemoveReplicaIntent) (p : RemoveReplicaProgress) (r : RemoveReplicaTerminalResult) : Prop :=
  match r with
  | CommittedClean => committed_evidence i p ∧ rp_target_retirement p = RetCompleted
  | CommittedDegraded => committed_evidence i p ∧
      (rp_target_retirement p = RetUnavailable ∨ rp_target_retirement p = RetStale ∨ rp_target_retirement p = RetFailed)
  | Compensated => compensated_evidence i p ∧ rp_current_install_dispatched p = false
  | CompensationIncomplete => compensated_evidence i p ∧
      ∃ e, rp_error p = Some e ∧ (String.length e ≤ MAX_LIFECYCLE_ERROR_BYTES)%nat
  end.

Lemma progress_fields_cases p :
  validate_progress_fields p = Ok tt →
  (∀ e, rp_error p = Some e → (String.length e ≤ MAX_LIFECYCLE_ERROR_BYTES)%nat) ∧
  nonpositive (rp_compensation_expiry_unix_seconds p) = false ∧
  if rp_commit_observed p then
    ∃ t e, rp_commit_observed_unix_seconds p = Some t ∧ rp_retirement_expiry_unix_seconds p = Some e ∧
      rp_compensation_expiry_unix_seconds p = None
  else rp_commit_observed_unix_seconds p = None ∧ rp_retirement_expiry_unix_seconds p = None ∧
       rp_connection_absent p = false ∧ rp_target_retirement p = NotAttempted.
Proof.
  intros H. unfold validate_progress_fields in H. apply bind_Ok in H as ([] & _ & H).
  apply bind_Ok in H as ([] & He%reject_if_Ok & H). apply bind_Ok in H as ([] & Hn%reject_if_Ok & H).
  apply bind_Ok in H as ([] & Hc & _). guards. split_and!; [|done|].
  - intros e Hp. rewrite Hp in He. by apply Nat.ltb_ge in He.
  - destruct (rp_commit_observed p).
    + apply bind_Ok in Hc as (t & Ht%ok_or_Ok & Hc). apply bind_Ok in Hc as (e & Hx%ok_or_Ok & Hc).
      apply bind_Ok in Hc as ([] & _ & Hc%reject_if_Ok). exists t, e. guards.
      by destruct (rp_compensation_expiry_unix_seconds p).
    + apply reject_if_Ok in Hc. guards. split_and!; [..|done|done].
      * by destruct (rp_commit_observed_unix_seconds p).
      * by destruct (rp_retirement_expiry_unix_seconds p).
Qed.

(** A validated removal that observed its commit has the deterministic
    retirement expiry; one that did not has a capped compensation expiry. *)
Lemma progress_expiries i p :
  validate_remove_intent i = Ok tt → validate_progress i p = Ok tt →
  (∀ t, rp_commit_observed_unix_seconds p = Some t → ∃ e, rp_retirement_expiry_unix_seconds p = Some e ∧
     0 < t ∧ t ≤ e ∧ e ≤ rm_overall_deadline_unix_seconds i ∧ e ≤ t + REMOVE_REPLICA_RETIREMENT_TIMEOUT_SECONDS) ∧
  (∀ e, rp_compensation_expiry_unix_seconds p = Some e →
     e ≤ rm_overall_deadline_unix_seconds i + REMOVE_REPLICA_COMPENSATION_GRACE_SECONDS).
Proof.
  intros Hi H. unfold validate_progress in H. do 2 apply bind_Ok in H as ([] & _ & H).
  apply bind_Ok in H as ([] & Hr & Hc%reject_if_Ok). split.
  - intros t Ht. rewrite Ht in Hr. apply bind_Ok in Hr as (e & He & Hb%reject_if_Ok). guards.
    exists e. split; [done|]. by apply retirement_expiry_bounds.
  - intros e He. rewrite He in Hc. guards. apply validated_parts in Hi as (_ & _ & _ & _ & Hlim).
    unfold validate_limits in Hlim. do 2 apply bind_Ok in Hlim as ([] & _ & Hlim).
    apply bind_Ok in Hlim as ([] & Hd%reject_if_Ok & Hlim).
    apply bind_Ok in Hlim as (cap & Hcap%ok_or_Ok & Hq%reject_if_Ok). apply i64_checked_add_Some in Hcap as [-> _].
    guards. lia.
Qed.

Lemma terminal_evidence_of_progress i p r :
  validate_remove_intent i = Ok tt → validate_terminal_progress i p r = Ok tt →
  rp_attempt_id p = rm_attempt_id i ∧ terminal_evidence i p r.
Proof.
  intros Hi H. unfold validate_terminal_progress in H. apply bind_Ok in H as ([] & Hp & H).
    pose proof (progress_expiries i p Hi Hp) as [Hret Hcomp].
    unfold validate_progress in Hp. apply bind_Ok in Hp as ([] & Hf & Hp).
    apply bind_Ok in Hp as ([] & Ha%reject_if_Ok & _). guards. split; [done|].
    apply progress_fields_cases in Hf as (Herr & Hpos & Hc).
    unfold validate_terminal in H. apply bind_Ok in H as ([] & _ & H).
    destruct r; apply reject_if_Ok in H; guards.
    - rewrite H2 in Hc. destruct Hc as (t & e & Ht & He & _). split; [|done]. split_and!; [done..|].
      exists t, e. destruct (Hret t Ht) as (e' & He' & ?). simplify_eq. split_and!; (done || lia).
    - rewrite H2 in Hc. destruct Hc as (t & e & Ht & He & _). split; [split_and!; [done..|]|].
      + exists t, e. destruct (Hret t Ht) as (e' & He' & ?). simplify_eq. split_and!; (done || lia).
      + destruct (rp_target_retirement p); naive_solver.
    - rewrite H2 in Hc. destruct Hc as (Ht & He & Hx & Hy). split; [split_and!; [done..|]|done].
      destruct (rp_compensation_expiry_unix_seconds p) as [e|]; [|done]. exists e.
      apply Z.leb_gt in Hpos. split_and!; [done|done|by apply Hcomp].
    - rewrite H2 in Hc. destruct Hc as (Ht & He & Hx & Hy). split; [split_and!; [done..|]|].
      + destruct (rp_compensation_expiry_unix_seconds p) as [e|]; [|done]. exists e.
        apply Z.leb_gt in Hpos. split_and!; [done|done|by apply Hcomp].
      + destruct (rp_error p) as [e|]; [|done]. exists e. by split; [|apply Herr].
Qed.

Lemma terminal_evidence_of i p r :
  validate_remove_intent i = Ok tt → validate_terminal_progress i p r = Ok tt → terminal_evidence i p r.
Proof. intros Hi H. by apply terminal_evidence_of_progress. Qed.

(** A terminal result of a removal is accepted only with its evidence:
    committed results need the observed commit, the connection gone, and a
    retirement expiry within 60 s of the commit and the operation's deadline;
    compensated results need that no commit was observed, that the target was
    neither disconnected nor retired, and an expiry within the deadline plus
    30 s; the incomplete one also an error of at most 1024 bytes. So no
    progress supports both a committed and a compensated result, nor both
    committed results. *)
Theorem terminal_needs_evidence i p r :
  validate_remove_intent i = Ok tt → validate_terminal_progress i p r = Ok tt →
  rp_attempt_id p = rm_attempt_id i ∧ terminal_evidence i p r ∧
  ∀ r', validate_terminal_progress i p r' = Ok tt →
    r' = r ∨ (r = Compensated ∧ r' = CompensationIncomplete) ∨ (r = CompensationIncomplete ∧ r' = Compensated).
Proof.
  intros Hi H. destruct (terminal_evidence_of_progress i p r Hi H) as [Ha Hr]. split_and!; [done..|]. intros r' H'.
  apply terminal_evidence_of in H' as Hr'; [|done]. unfold terminal_evidence, committed_evidence, compensated_evidence in *.
  destruct r, r'; naive_solver congruence.
Qed.

End guarantees.

(** A partition of three that lets its third replica go. *)
Module DemoRemove.
#[local] Instance ends : Endpoints := λ _, true.
Definition member (id : ReplicaId) : ConfigurationMemberDescriptor :=
  mkConfigurationMemberDescriptor id ("i" +:+ pretty id) ActiveSecondary Up ("http://r" +:+ pretty id) false (Frozen 5 5).
Definition unsigned (signature : string) : RemoveReplicaIntent :=
  mkRemoveReplicaIntent 1 "op" "act" 1 "try" signature ScaleDown (mkEpoch 1 2) 1 "i1" "g1" 0 "http://c1" "http://r1"
    3 "i3" "i3" "pod-3" (Some "g3") (Some "http://c3") (Some "http://r3") (Some 2)
    (mkConfigurationDescriptor [member 2; member 3] 2) (mkConfigurationDescriptor [member 2] 2)
    (mkConfigurationDescriptor [member 2] 2) 2 2 3 1000 30 1030 10 60.
Definition intent : RemoveReplicaIntent := unsigned (remove_signature (unsigned "")).
Definition clean : RemoveReplicaProgress :=
  mkRemoveReplicaProgress Attesting "try" true (Some 950) true RetCompleted (Some 1000) None None true.
End DemoRemove.
#[local] Existing Instance DemoRemove.ends.

Lemma removal_keeps_quorums_witness :
  validate_remove_intent DemoRemove.intent = Ok tt ∧
  rm_reduced_catch_up_configuration DemoRemove.intent = rm_reduced_current_configuration DemoRemove.intent.
Proof.
  assert (validate_remove_intent DemoRemove.intent = Ok tt) as H by (vm_compute; reflexivity).
  split; [exact H|].
  destruct (removal_keeps_quorums DemoRemove.intent H ltac:(vm_compute; reflexivity)) as [He _]. exact He.
Defined.

Lemma terminal_needs_evidence_witness :
  validate_terminal_progress DemoRemove.intent DemoRemove.clean CommittedClean = Ok tt ∧
  terminal_evidence DemoRemove.intent DemoRemove.clean CommittedClean.
Proof.
  assert (validate_remove_intent DemoRemove.intent = Ok tt) as H by (vm_compute; reflexivity).
  assert (validate_terminal_progress DemoRemove.intent DemoRemove.clean CommittedClean = Ok tt) as Ht
    by (vm_compute; reflexivity).
  split; [exact Ht|].
  destruct (terminal_needs_evidence DemoRemove.intent DemoRemove.clean CommittedClean H Ht) as (_ & He & _). exact He.
Defined.
