(* ===== verification/Control.v ===== *)
(** Control actions of a replica agent and what it reports
    (kuberic-core/src/types.rs): the durable actions with their signatures,
    their observations, and the status of a replica. *)

From Stdlib Require Import Strings.String.
From S2P Require Import Prelude Types Quorum Replicator Lifecycle AddReplica RemoveReplica.

Set Default Goal Selector "!".

(** ** Actions *)

Inductive DurableReplicaAction :=
| ActAddReplicaIntent (intent : AddReplicaIntent)
| ActRemoveReplicaIntent (intent : RemoveReplicaIntent)
| ActOpen (mode : OpenMode)
| ActClose
| ActRevokeWriteStatus
| ActChangeRole (epoch : Epoch) (role : Role)
| ActUpdateEpoch (epoch : Epoch)
| ActUpdateCatchUpConfiguration (current previous : ReplicaSetConfig)
| ActWaitForCatchUpQuorum (mode : ReplicaSetQuorumMode)
| ActUpdateCurrentConfiguration (current : ReplicaSetConfig)
| ActBuildReplica (replica : ReplicaInfo)
| ActRemoveReplica (replica_id : ReplicaId) (instance_id : ReplicaInstanceId)
| ActOnDataLoss (epoch : Epoch)
| ActRecordElectionConfiguration (configuration : ReplicaElectionConfiguration).

Definition quorum_mode_debug (m : ReplicaSetQuorumMode) : string :=
  match m with QuorumAll => "All" | QuorumWrite => "Write" end.

Definition configuration_signature (c : ReplicaConfigurationStatus) : string :=
  mode_debug (cs_mode c) +:+ ":q" +:+ pretty (cs_write_quorum c) +:+ "[" +:+
  String.concat "," (sort_by string_le (projection_member <$> cs_members c)) +:+ "]".

Definition replica_info_signature (m : ReplicaInfo) : string :=
  pretty (ri_id m) +:+ "@" +:+ ri_instance_id m +:+ ":" +:+ role_debug (ri_role m) +:+ ":" +:+
  replica_status_debug (ri_status m) +:+ ":" +:+ ri_replicator_address m +:+ ":" +:+
  pretty (ri_current_progress m) +:+ ":" +:+ pretty (ri_catch_up_capability m) +:+ ":" +:+
  bool_display (ri_must_catch_up m).

Definition config_signature (c : ReplicaSetConfig) : string :=
  "q" +:+ pretty (rc_write_quorum c) +:+ "[" +:+
  String.concat "," (sort_by string_le (replica_info_signature <$> rc_members c)) +:+ "]".

Definition epoch_signature (e : Epoch) : string :=
  pretty (data_loss_number e) +:+ ":" +:+ pretty (configuration_number e).

Definition action_signature (a : DurableReplicaAction) : string :=
  match a with
  | ActAddReplicaIntent intent => add_signature intent
  | ActRemoveReplicaIntent intent => remove_signature intent
  | ActOpen mode => "open:" +:+ open_mode_debug mode
  | ActClose => "close"
  | ActRevokeWriteStatus => "revoke-write-status"
  | ActChangeRole epoch role => "change-role:" +:+ role_debug role +:+ ":" +:+ epoch_signature epoch
  | ActUpdateEpoch epoch => "update-epoch:" +:+ epoch_signature epoch
  | ActUpdateCatchUpConfiguration current previous =>
      "update-catch-up:" +:+ config_signature current +:+ ":" +:+ config_signature previous
  | ActWaitForCatchUpQuorum mode => "wait-for-catch-up:" +:+ quorum_mode_debug mode
  | ActUpdateCurrentConfiguration current => "update-current:" +:+ config_signature current
  | ActBuildReplica replica => "build-replica:" +:+ replica_info_signature replica
  | ActRemoveReplica id inst => "remove-replica:" +:+ pretty id +:+ "@" +:+ inst
  | ActOnDataLoss epoch => "on-data-loss:" +:+ epoch_signature epoch
  | ActRecordElectionConfiguration c =>
      "record-election-configuration:current=" +:+ configuration_signature (ec_current c) +:+
      ":previous=" +:+ option_display configuration_signature (ec_previous c)
  end.

Record CorrelatedControlActionRequest := mkCorrelatedControlActionRequest {
  cr_protocol_version : Z;
  cr_action_id : string;
  cr_input_signature : string;
  cr_target_replica_id : ReplicaId;
  cr_target_instance_id : ReplicaInstanceId;
  cr_expected_agent_generation : AgentGeneration;
  cr_expected_control_version : AgentControlVersion;
  cr_observed_runtime_epoch : Epoch;
  cr_action : DurableReplicaAction;
}.

(** ** Observations *)

Inductive DurableActionResult :=
| ResDataLoss (a : DataLossAction)
| ResAddReplica (r : AddReplicaTerminalResult)
| ResRemoveReplica (r : RemoveReplicaTerminalResult).

Record DurableActionObservation := mkDurableActionObservation {
  do_action_id : string;
  do_signature : string;
  do_state : DurableActionState;
  do_error_class : option DurableActionErrorClass;
  do_error : option string;
  do_result : option DurableActionResult;
  do_add_replica_progress : option AddReplicaProgress;
  do_remove_replica_progress : option RemoveReplicaProgress;
}.
#[export] Instance eta_DurableActionObservation : Settable DurableActionObservation :=
  {| eta_record r := mkDurableActionObservation (do_action_id r) (do_signature r) (do_state r)
    (do_error_class r) (do_error r) (do_result r) (do_add_replica_progress r) (do_remove_replica_progress r) |}.

Record CorrelatedActionObservation := mkCorrelatedActionObservation {
  co_generation : AgentGeneration;
  co_control_version : AgentControlVersion;
  co_action : DurableActionObservation;
}.
#[export] Instance eta_CorrelatedActionObservation : Settable CorrelatedActionObservation :=
  {| eta_record r := mkCorrelatedActionObservation (co_generation r) (co_control_version r) (co_action r) |}.

Record LocalFaultRecord := mkLocalFaultRecord { lf_sequence : Z; lf_fault_type : FaultType }.

Record ReplicaAgentStatus := mkReplicaAgentStatus {
  as_protocol_version : Z;
  as_lifecycle_peer_protocol_version : Z;
  as_generation : AgentGeneration;
  as_control_version : AgentControlVersion;
  as_current_action : option CorrelatedActionObservation;
  as_retained_terminal_actions : list CorrelatedActionObservation;
  as_local_faults : list LocalFaultRecord;
}.

Record ReplicaStatusInfo := mkReplicaStatusInfo {
  si_instance_id : ReplicaInstanceId;
  si_role : Role;
  si_epoch : Epoch;
  si_current_progress : Lsn;
  si_catch_up_capability : option Lsn;
  si_committed_lsn : Lsn;
  si_healthy : bool;
  si_write_status : AccessStatus;
  si_configuration : option ReplicaConfigurationStatus;
  si_election_configuration : option ReplicaElectionConfiguration;
  si_deactivation_info : option ReplicaDeactivationInfo;
  si_active_replica_connections : list ReplicaConnectionStatus;
  si_build_observation : option RuntimeBuildObservation;
  si_agent : ReplicaAgentStatus;
}.

(** ** Error texts *)

(** The cut of an error text at 1024 bytes, on strings. *)
Definition normalize (error : string) : string :=
  String.string_of_list_byte (normalize_error (String.list_byte_of_string error)).

Definition terminal_error_class (e : KubericError) : DurableActionErrorClass :=
  match e with
  | NotPrimary => ClsNotPrimary
  | NoWriteQuorum => ClsNoWriteQuorum
  | ReconfigurationPending => ClsReconfigurationPending
  | StaleEpoch _ _ => ClsStaleEpoch
  | Cancelled => ClsCancelled
  | Closed => ClsClosed
  | _ => ClsInternal
  end.

(** ** Runtime effects (kuberic-core/src/pod.rs) *)

Inductive RuntimeEffect :=
| EffOpen (mode : OpenMode)
| EffClose
| EffChangeRole (epoch : Epoch) (role : Role)
| EffUpdateEpoch (epoch : Epoch)
| EffUpdateCatchUpConfiguration (current previous : ReplicaSetConfig)
| EffUpdateTrackedCatchUpConfiguration (current previous : ReplicaSetConfig) (required_build_key : string)
| EffUpdateCurrentConfiguration (current : ReplicaSetConfig)
| EffWaitForCatchUpQuorum (mode : ReplicaSetQuorumMode)
| EffBuildReplica (replica : ReplicaInfo)
| EffStartTrackedBuild (execution_id build_key : string) (target_agent_generation : AgentGeneration)
    (replica : ReplicaInfo)
| EffStartTrackedCatchUpQuorum (execution_id : string) (mode : ReplicaSetQuorumMode)
| EffCancelTrackedOperation (execution_id : string)
| EffRemoveReplica (replica_id : ReplicaId) (instance_id : ReplicaInstanceId)
| EffOnDataLoss (expected_epoch : Epoch)
| EffRevokeWriteStatus
| EffRecordElectionConfiguration (configuration : ReplicaElectionConfiguration).

Inductive RuntimeEffectResult := EffUnit | EffDataLoss (a : DataLossAction).

Record RuntimeControlSnapshot := mkRuntimeControlSnapshot {
  rt_instance_id : ReplicaInstanceId;
  rt_role : Role;
  rt_epoch : Epoch;
  rt_configuration : option ReplicaConfigurationStatus;
  rt_election_configuration : option ReplicaElectionConfiguration;
  rt_deactivation_info : option ReplicaDeactivationInfo;
  rt_build_observation : option RuntimeBuildObservation;
  rt_quorum_wait_observation : option RuntimeQuorumWaitObservation;
  rt_partition_state : option PState.PartitionState;
}.

(** [correlated_runtime_effect]; [None] is its [unreachable!]. *)
Definition correlated_runtime_effect (a : DurableReplicaAction) : option RuntimeEffect :=
  match a with
  | ActAddReplicaIntent _ | ActRemoveReplicaIntent _ => None
  | ActOpen mode => Some (EffOpen mode)
  | ActClose => Some EffClose
  | ActRevokeWriteStatus => Some EffRevokeWriteStatus
  | ActChangeRole epoch role => Some (EffChangeRole epoch role)
  | ActUpdateEpoch epoch => Some (EffUpdateEpoch epoch)
  | ActUpdateCatchUpConfiguration current previous => Some (EffUpdateCatchUpConfiguration current previous)
  | ActWaitForCatchUpQuorum mode => Some (EffWaitForCatchUpQuorum mode)
  | ActUpdateCurrentConfiguration current => Some (EffUpdateCurrentConfiguration current)
  | ActBuildReplica replica => Some (EffBuildReplica replica)
  | ActRemoveReplica id inst => Some (EffRemoveReplica id inst)
  | ActOnDataLoss epoch => Some (EffOnDataLoss epoch)
  | ActRecordElectionConfiguration c => Some (EffRecordElectionConfiguration c)
  end.
