(* ===== verification/Agent.v ===== *)
(** The replica agent (kuberic-core/src/replica_agent.rs): one task that
    admits correlated control actions and lifecycle peer stages, launches
    their effects and coordinators, and keeps what became of them. Each turn
    of [serve] is one step; what the runtime published, the clock and the
    messages that arrive are given with the step. *)

From S2P Require Import Prelude Types Quorum Replicator Lifecycle AddReplica RemoveReplica Control.

Set Default Goal Selector "!".

Definition TERMINAL_RETENTION : nat := 16.
Definition FAULT_RETENTION : nat := 16.
Definition PEER_TERMINAL_RETENTION : nat := 16.
Definition CORRELATED_CONTROL_PROTOCOL_VERSION : Z := 3.

Record RuntimeEffectExecutionId := mkRuntimeEffectExecutionId {
  ex_generation : AgentGeneration;
  ex_sequence : Z;
}.
#[export] Instance RuntimeEffectExecutionId_eq_dec : EqDecision RuntimeEffectExecutionId.
Proof. solve_decision. Defined.

Record CoordinatorExecutionId := mkCoordinatorExecutionId {
  ce_generation : AgentGeneration;
  ce_action_id : string;
  ce_attempt_id : string;
  ce_phase_sequence : Z;
}.
#[export] Instance CoordinatorExecutionId_eq_dec : EqDecision CoordinatorExecutionId.
Proof. solve_decision. Defined.

(** [CoordinatorExecution], its atomic phase sequence apart: [advance] adds
    one to it, and wraps. *)
Record CoordinatorExecution := mkCoordinatorExecution {
  cx_generation : AgentGeneration;
  cx_action_id : string;
  cx_attempt_id : string;
}.
Definition u64_wrapping_add (a b : Z) : Z := (a + b) `mod` 2 ^ 64.
Definition execution_at (x : CoordinatorExecution) (phase_sequence : Z) : CoordinatorExecutionId :=
  mkCoordinatorExecutionId (cx_generation x) (cx_action_id x) (cx_attempt_id x) phase_sequence.

Record CoordinatorAuthority := mkCoordinatorAuthority {
  ca_generation : AgentGeneration;
  ca_action_id : string;
  ca_action_signature : string;
  ca_attempt_id : string;
  ca_phase_sequence : Z;
}.

Inductive CoordinatorUpdate :=
| AddProgress (p : AddReplicaProgress)
| AddTerminal (r : result string AddReplicaTerminalResult)
| RemoveProgress (p : RemoveReplicaProgress)
| RemoveTerminal (r : result string RemoveReplicaTerminalResult).

Record CoordinatorEvent := mkCoordinatorEvent {
  cv_execution_id : CoordinatorExecutionId;
  cv_update : CoordinatorUpdate;
}.

(** [ac_authority]: the action has a watch sender of its authority. *)
Record ActiveCorrelated := mkActiveCorrelated {
  ac_execution_id : RuntimeEffectExecutionId;
  ac_coordinator_execution_id : option CoordinatorExecutionId;
  ac_authority : bool;
  ac_remove_intent : option RemoveReplicaIntent;
  ac_observation : CorrelatedActionObservation;
  ac_reply : option ReplyId;
}.
#[export] Instance eta_ActiveCorrelated : Settable ActiveCorrelated :=
  {| eta_record r := mkActiveCorrelated (ac_execution_id r) (ac_coordinator_execution_id r) (ac_authority r)
    (ac_remove_intent r) (ac_observation r) (ac_reply r) |}.

Record ActivePeerStage := mkActivePeerStage {
  ap_execution_id : RuntimeEffectExecutionId;
  ap_observation : PeerStageObservation;
}.
#[export] Instance eta_ActivePeerStage : Settable ActivePeerStage :=
  {| eta_record r := mkActivePeerStage (ap_execution_id r) (ap_observation r) |}.

Record PeerSenderFence := mkPeerSenderFence {
  pf_epoch : Epoch;
  pf_sender_replica_id : ReplicaId;
  pf_sender_instance_id : ReplicaInstanceId;
  pf_sender_generation : AgentGeneration;
  pf_sender_control_address : string;
}.

Record ReplicaAgent := mkReplicaAgent {
  ra_replica_id : ReplicaId;
  ra_instance_id : ReplicaInstanceId;
  ra_generation : AgentGeneration;
  ra_control_version : AgentControlVersion;
  execution_sequence : Z;
  fault_sequence : Z;
  fault_rx_open : bool;
  command_rx_open : bool;
  active : option ActiveCorrelated;
  peer_control_version : Z;
  peer_sender_fence : option PeerSenderFence;
  active_peer : option ActivePeerStage;
  peer_terminals : list PeerStageObservation;
  terminals : list CorrelatedActionObservation;
  faults : list LocalFaultRecord;
  shutting_down : bool;
}.
#[export] Instance eta_ReplicaAgent : Settable ReplicaAgent :=
  {| eta_record r := mkReplicaAgent (ra_replica_id r) (ra_instance_id r) (ra_generation r) (ra_control_version r)
    (execution_sequence r) (fault_sequence r) (fault_rx_open r) (command_rx_open r) (active r)
    (peer_control_version r) (peer_sender_fence r) (active_peer r) (peer_terminals r) (terminals r) (faults r)
    (shutting_down r) |}.

(** A new process draws its generation at random. *)
Definition agent_new (replica_id : ReplicaId) (instance_id : ReplicaInstanceId) (generation : AgentGeneration) :
    ReplicaAgent :=
  mkReplicaAgent replica_id instance_id generation 0 0 0 true true None 0 None None [] [] [] false.

Inductive AgentCommand :=
| ExecuteCorrelatedControlAction (request : CorrelatedControlActionRequest) (reply : ReplyId)
| GetStatus (reply : ReplyId)
| ExecuteLifecycleStage (request : PeerStageRequest) (reply : ReplyId)
| GetLifecycleStatus (target_replica_id : ReplicaId) (target_instance_id : ReplicaInstanceId)
    (expected_generation : AgentGeneration) (reply : ReplyId).

(** What a turn does: answers, tasks it spawns, authority it publishes. *)
Inductive AgentOut :=
| Ack (r : ReplyId) (res : result KubericError CorrelatedActionObservation)
| StageReply (r : ReplyId) (res : result KubericError PeerStageObservation)
| StatusReply (r : ReplyId) (s : ReplicaStatusInfo)
| PeerStatusReply (r : ReplyId) (res : result KubericError PeerLifecycleStatus)
| SenderDropped (r : ReplyId)
| Dispatch (id : RuntimeEffectExecutionId) (effect : RuntimeEffect)
| SpawnAddCoordinator (id : CoordinatorExecutionId) (intent : AddReplicaIntent) (parent_action_id parent_signature : string)
| SpawnRemoveCoordinator (id : CoordinatorExecutionId) (intent : RemoveReplicaIntent) (authority : CoordinatorAuthority)
| SpawnPeerStage (id : RuntimeEffectExecutionId) (request : PeerStageRequest)
| AuthorityChanged (a : option CoordinatorAuthority)
| Unreachable.

Abbreviation handler := (ReplicaAgent → ReplicaAgent * list AgentOut) (only parsing).

(** ** Bookkeeping *)

(** A bounded deque: the oldest entry makes room. *)
Definition retain {A} (bound : nat) (x : A) (l : list A) : list A :=
  (if (length l =? bound)%nat then tail l else l) ++ [x].

Definition retain_terminal (o : CorrelatedActionObservation) (a : ReplicaAgent) : ReplicaAgent :=
  a <| terminals ::= retain TERMINAL_RETENTION o |>.

Definition next_execution_id (a : ReplicaAgent) : RuntimeEffectExecutionId * ReplicaAgent :=
  let a := a <| execution_sequence ::= λ s, u64_saturating_add s 1 |> in
  (mkRuntimeEffectExecutionId (ra_generation a) (execution_sequence a), a).

Definition find_correlated (a : ReplicaAgent) (action_id : string) : option CorrelatedActionObservation :=
  let is_it o := bool_decide (do_action_id (co_action o) = action_id) in
  match active a with
  | Some c => if is_it (ac_observation c) then Some (ac_observation c)
              else List.find is_it (rev (terminals a))
  | None => List.find is_it (rev (terminals a))
  end.

Definition find_peer_stage (a : ReplicaAgent) (message_id : string) : option PeerStageObservation :=
  let is_it o := bool_decide (po_message_id o = message_id) in
  match active_peer a with
  | Some c => if is_it (ap_observation c) then Some (ap_observation c)
              else List.find is_it (rev (peer_terminals a))
  | None => List.find is_it (rev (peer_terminals a))
  end.

Definition start_effect (o : CorrelatedActionObservation) (reply : option ReplyId) (effect : RuntimeEffect) : handler :=
  λ a,
  let '(id, a) := next_execution_id a in
  (a <| active := Some (mkActiveCorrelated id None false None o reply) |>, [Dispatch id effect]).

Definition failed (c : DurableActionErrorClass) (error : string) (o : CorrelatedActionObservation) :
    CorrelatedActionObservation :=
  o <| co_action ::= λ d, d <| do_state := Failed |> <| do_error_class := Some c |> <| do_error := Some error |> |>.

Definition in_state (s : DurableActionState) (o : CorrelatedActionObservation) : CorrelatedActionObservation :=
  o <| co_action ::= λ d, d <| do_state := s |> |>.

Definition completed_with (r : option DurableActionResult) (o : CorrelatedActionObservation) :
    CorrelatedActionObservation :=
  o <| co_action ::= λ d, d <| do_state := Completed |>
         <| do_result ::= λ old, match r with Some r => Some r | None => old end |> |>.

Definition fail_before_dispatch (o : CorrelatedActionObservation) (reply : ReplyId) (message : string) : handler :=
  λ a,
  let o := failed ClsInternal message o in
  (retain_terminal o a, [Ack reply (Ok o)]).

Definition authority_lost (c : ActiveCorrelated) : list AgentOut :=
  if ac_authority c then [AuthorityChanged None] else [].

Definition fail_active_remove_coordinator (error : string) : handler := λ a,
  match active a with
  | None => (a, [])
  | Some c =>
      (retain_terminal (failed ClsInternal (normalize error) (ac_observation c)) (a <| active := None |>),
       authority_lost c)
  end.

(** ** Admission

    [Err] rejects the request, [Ok (Some o)] repeats what is known of its
    action, [Ok None] goes on to accept it. *)

Section admission.
  Context {Ends : Endpoints}.

Definition busy (a : ReplicaAgent) : bool := negb (none (active a)) || negb (none (active_peer a)).

Definition version_error (request : CorrelatedControlActionRequest) (a : ReplicaAgent) : KubericError :=
  if cr_expected_control_version request <? ra_control_version a then
    CorrelatedContinuityUnavailable (cr_action_id request)
  else StaleAgentControlVersion (cr_expected_control_version request) (ra_control_version a).

Definition target_mismatch (request : CorrelatedControlActionRequest) (a : ReplicaAgent) : KubericError :=
  CorrelatedTargetMismatch (ra_replica_id a) (ra_instance_id a) (cr_target_replica_id request)
    (cr_target_instance_id request).

(** What is known of the request's action. *)
Definition known_action (request : CorrelatedControlActionRequest) (a : ReplicaAgent) :
    result KubericError (option CorrelatedActionObservation) :=
  match find_correlated a (cr_action_id request) with
  | Some o =>
      reject_if (negb (bool_decide (do_signature (co_action o) = cr_input_signature request)))
        (ActionIdConflict (cr_action_id request));;
      Ok (Some o)
  | None => Ok None
  end.

Definition admit_correlated (runtime_epoch : Epoch) (request : CorrelatedControlActionRequest) (a : ReplicaAgent) :
    result KubericError (option CorrelatedActionObservation) :=
  reject_if (negb (cr_protocol_version request =? CORRELATED_CONTROL_PROTOCOL_VERSION))
    (UnsupportedControlProtocolVersion (cr_protocol_version request));;
  reject_if (empty (cr_action_id request)) InvalidCorrelatedActionId;;
  reject_if (negb (cr_target_replica_id request =? ra_replica_id a)
             || negb (bool_decide (cr_target_instance_id request = ra_instance_id a))) (target_mismatch request a);;
  reject_if (negb (bool_decide (cr_expected_agent_generation request = ra_generation a)))
    (StaleAgentGeneration (cr_expected_agent_generation request) (ra_generation a));;
  reject_if (negb (bool_decide (cr_input_signature request = action_signature (cr_action request))))
    (ActionSignatureMismatch (cr_action_id request));;
  known ← known_action request a;
  match known with
  | Some o => Ok (Some o)
  | None =>
      reject_if (negb (cr_expected_control_version request =? ra_control_version a)) (version_error request a);;
      reject_if (busy a) AgentBusy;;
      reject_if (negb (bool_decide (cr_observed_runtime_epoch request = runtime_epoch)))
        (StaleEpoch (cr_observed_runtime_epoch request) runtime_epoch);;
      reject_if (shutting_down a) Closed;;
      Ok None
  end.

Definition admit_remove (intent : RemoveReplicaIntent) (request : CorrelatedControlActionRequest) (a : ReplicaAgent) :
    result KubericError (option CorrelatedActionObservation) :=
  reject_if (negb (cr_protocol_version request =? CORRELATED_CONTROL_PROTOCOL_VERSION))
    (UnsupportedControlProtocolVersion (cr_protocol_version request));;
  reject_if (empty (cr_action_id request) || negb (bool_decide (cr_action_id request = rm_action_id intent)))
    InvalidCorrelatedActionId;;
  (match validate_remove_intent intent with
   | Ok _ => Ok tt
   | Err error => Err (RemoteAgentRequestRejected (normalize error))
   end);;
  reject_if (negb (cr_target_replica_id request =? ra_replica_id a)
             || negb (bool_decide (cr_target_instance_id request = ra_instance_id a))
             || negb (rm_primary_replica_id intent =? ra_replica_id a)
             || negb (bool_decide (rm_primary_instance_id intent = ra_instance_id a))) (target_mismatch request a);;
  reject_if (negb (bool_decide (cr_expected_agent_generation request = ra_generation a))
             || negb (bool_decide (rm_primary_agent_generation intent = ra_generation a)))
    (StaleAgentGeneration (cr_expected_agent_generation request) (ra_generation a));;
  reject_if (negb (bool_decide (cr_input_signature request = action_signature (cr_action request)))
             || negb (bool_decide (cr_input_signature request = rm_input_signature intent)))
    (ActionSignatureMismatch (cr_action_id request));;
  known ← known_action request a;
  match known with
  | Some o => Ok (Some o)
  | None =>
      reject_if (negb (cr_expected_control_version request =? ra_control_version a)
                 || negb (rm_primary_agent_control_version intent =? ra_control_version a)) (version_error request a);;
      reject_if (busy a) AgentBusy;;
      reject_if (shutting_down a) Closed;;
      Ok None
  end.

(** ** Acceptance *)

Definition scheduled (request : CorrelatedControlActionRequest) (state : DurableActionState) (a : ReplicaAgent) :
    CorrelatedActionObservation :=
  mkCorrelatedActionObservation (ra_generation a) (ra_control_version a)
    (mkDurableActionObservation (cr_action_id request) (cr_input_signature request) state None None None None None).

Definition advance_version (a : ReplicaAgent) : ReplicaAgent := a <| ra_control_version ::= control_version_advance |>.

Definition accept_add (rt : RuntimeControlSnapshot) (request : CorrelatedControlActionRequest)
    (intent : AddReplicaIntent) (reply : ReplyId) : handler := λ a,
  let a := advance_version a in
  let o := scheduled request Scheduled a in
  match validate_add_intent intent with
  | Err error => fail_before_dispatch o reply error a
  | Ok _ =>
      if negb (ai_primary_replica_id intent =? ra_replica_id a)
         || negb (bool_decide (ai_primary_instance_id intent = ra_instance_id a))
         || negb (bool_decide (ai_primary_agent_generation intent = ra_generation a))
         || negb (bool_decide (rt_role rt = Primary)) || negb (bool_decide (rt_epoch rt = ai_epoch intent))
         || none (rt_partition_state rt)
      then fail_before_dispatch o reply "add-replica intent does not match the active primary runtime" a
      else
        let o := (in_state InProgress o) <| co_action ::= λ d,
                   d <| do_add_replica_progress := Some (mkAddReplicaProgress AddValidating false None) |> |> in
        let '(id, a) := next_execution_id a in
        let ce := mkCoordinatorExecutionId (ra_generation a) (cr_action_id request) (ai_attempt_id intent) 0 in
        (a <| active := Some (mkActiveCorrelated id (Some ce) false None o None) |>,
         [Ack reply (Ok o);
          SpawnAddCoordinator ce intent (cr_action_id request) (do_signature (co_action o))])
  end.

Definition accept_data_loss (rt : RuntimeControlSnapshot) (request : CorrelatedControlActionRequest)
    (epoch : Epoch) (reply : ReplyId) : handler := λ a,
  let a := advance_version a in
  let o := scheduled request Scheduled a in
  if negb (bool_decide (rt_epoch rt = epoch)) then
    let o := failed ClsStaleEpoch (normalize ("data-loss action epoch " +:+ epoch_debug epoch +:+
               " does not match runtime epoch " +:+ epoch_debug (rt_epoch rt))) o in
    (retain_terminal o a, [Ack reply (Ok o)])
  else if none (rt_partition_state rt) then fail_before_dispatch o reply "replicator not opened" a
  else
    let o := in_state InProgress o in
    let '(a, outs) := start_effect o None (EffOnDataLoss epoch) a in
    (a, Ack reply (Ok o) :: outs).

Definition accept_build (rt : RuntimeControlSnapshot) (request : CorrelatedControlActionRequest)
    (replica : ReplicaInfo) (reply : ReplyId) : handler := λ a,
  let a := advance_version a in
  let o := scheduled request Scheduled a in
  if none (rt_partition_state rt) then fail_before_dispatch o reply "replicator not opened" a
  else
    let o := in_state InProgress o in
    let '(a, outs) := start_effect o None (EffBuildReplica replica) a in
    (a, Ack reply (Ok o) :: outs).

Definition accept_effect (request : CorrelatedControlActionRequest) (reply : ReplyId) : handler := λ a,
  let a := advance_version a in
  match correlated_runtime_effect (cr_action request) with
  | Some effect => start_effect (scheduled request InProgress a) (Some reply) effect a
  | None => (a, [Unreachable])
  end.

(** Why the runtime is not the exact live primary the removal was planned on. *)
Definition remove_runtime_class (rt : RuntimeControlSnapshot) (intent : RemoveReplicaIntent) : DurableActionErrorClass :=
  if none (rt_partition_state rt) || bool_decide (rt_role rt = Unknown) then ClsClosed
  else if negb (bool_decide (rt_role rt = Primary)) then ClsNotPrimary
  else if negb (bool_decide (rt_epoch rt = rm_epoch intent)) then ClsStaleEpoch
  else ClsInternal.

Definition remove_runtime_exact (rt : RuntimeControlSnapshot) (request : CorrelatedControlActionRequest)
    (intent : RemoveReplicaIntent) (a : ReplicaAgent) : bool :=
  bool_decide (cr_observed_runtime_epoch request = rm_epoch intent)
  && bool_decide (rt_instance_id rt = ra_instance_id a) && bool_decide (rt_role rt = Primary)
  && bool_decide (rt_epoch rt = rm_epoch intent)
  && (match rt_partition_state rt with
      | Some s => bool_decide (PState.write_status s = Granted)
      | None => false
      end)
  && (match rt_configuration rt with
      | Some c => bool_decide (c = previous_status intent ∨ c = reduced_catch_up_status intent
                               ∨ c = reduced_current_status intent)
      | None => false
      end).

Definition first_remove_progress (intent : RemoveReplicaIntent) : RemoveReplicaProgress :=
  mkRemoveReplicaProgress Validating (rm_attempt_id intent) false None false NotAttempted None None None false.

Definition accept_remove (now : Z) (rt : RuntimeControlSnapshot) (request : CorrelatedControlActionRequest)
    (intent : RemoveReplicaIntent) (reply : ReplyId) : handler := λ a,
  if negb (remove_runtime_exact rt request intent a) then
    let a := advance_version a in
    let o := failed (remove_runtime_class rt intent)
      (normalize "remove-replica primary runtime is not the exact live Primary at the frozen epoch and configuration")
      (scheduled request Scheduled a) in
    (retain_terminal o a, [Ack reply (Ok o)])
  else if rm_overall_deadline_unix_seconds intent <=? now then
    (a, [Ack reply (Err (RemoteAgentPreconditionRejected "remove-replica intent overall deadline has expired"))])
  else
    let a := advance_version a in
    let progress := first_remove_progress intent in
    match validate_progress intent progress with
    | Err error => (a, [Ack reply (Err (RemoteAgentRequestRejected error))])
    | Ok _ =>
        let o := (scheduled request InProgress a) <| co_action ::= λ d,
                   d <| do_remove_replica_progress := Some progress |> |> in
        let '(id, a) := next_execution_id a in
        let ce := mkCoordinatorExecutionId (ra_generation a) (cr_action_id request) (rm_attempt_id intent) 0 in
        let authority := mkCoordinatorAuthority (ra_generation a) (cr_action_id request)
          (cr_input_signature request) (rm_attempt_id intent) 0 in
        (a <| active := Some (mkActiveCorrelated id (Some ce) true (Some intent) o None) |>,
         [Ack reply (Ok o); SpawnRemoveCoordinator ce intent authority])
    end.

Definition answer (reply : ReplyId) (admission : result KubericError (option CorrelatedActionObservation))
    (accept : handler) : handler := λ a,
  match admission with
  | Err error => (a, [Ack reply (Err error)])
  | Ok (Some o) => (a, [Ack reply (Ok o)])
  | Ok None => accept a
  end.

(** The runtime is borrowed once for the epoch fence and again where the
    action needs it: it may change in between. *)
Definition accept_correlated (now : Z) (rt rt' : RuntimeControlSnapshot) (request : CorrelatedControlActionRequest)
    (reply : ReplyId) : handler := λ a,
  match cr_action request with
  | ActRemoveReplicaIntent intent => answer reply (admit_remove intent request a) (accept_remove now rt request intent reply) a
  | action =>
      answer reply (admit_correlated (rt_epoch rt) request a)
        match action with
        | ActAddReplicaIntent intent => accept_add rt' request intent reply
        | ActOnDataLoss epoch => accept_data_loss rt' request epoch reply
        | ActBuildReplica replica => accept_build rt' request replica reply
        | _ => accept_effect request reply
        end a
  end.

(** ** Peer stages *)

(** [retire_postcondition_holds]. *)
Definition retire_postcondition_holds (rt : RuntimeControlSnapshot) (request : PeerStageRequest) : bool :=
  bool_decide (rt_instance_id rt = pr_target_instance_id request) && bool_decide (rt_epoch rt = pr_epoch request)
  && bool_decide (rt_role rt = RoleNone) && none (rt_partition_state rt).

Definition peer_observation (request : PeerStageRequest) (state : PeerStageState) (error : option string)
    (a : ReplicaAgent) : PeerStageObservation :=
  mkPeerStageObservation (pr_protocol_version request) (pr_operation_kind request) (pr_stage_semantic_version request)
    (pr_message_id request) (pr_input_signature request) (pr_stage request) state (ra_generation a)
    (peer_control_version a) error.

Definition fence_conflict (request : PeerStageRequest) (f : PeerSenderFence) : bool :=
  epoch_ltb (pr_epoch request) (pf_epoch f) ||
  (bool_decide (pr_epoch request = pf_epoch f) &&
   (negb (pr_sender_replica_id request =? pf_sender_replica_id f)
    || negb (bool_decide (pr_sender_instance_id request = pf_sender_instance_id f))
    || negb (bool_decide (pr_sender_agent_generation request = pf_sender_generation f))
    || negb (bool_decide (pr_sender_control_address request = pf_sender_control_address f)))).

Definition instance_text (id : ReplicaId) (inst : ReplicaInstanceId) : string := pretty id +:+ "@" +:+ inst.

(** The answer to a stage that is not accepted: a state with its reason, or
    the observation to repeat. *)
Definition refused := (PeerStageState * string + PeerStageObservation)%type.
Definition refuse_if (c : bool) (state : PeerStageState) (error : string) : result refused unit :=
  reject_if c (inl (state, error)).

Definition known_stage (rt : RuntimeControlSnapshot) (request : PeerStageRequest) (a : ReplicaAgent) :
    result refused unit :=
  match find_peer_stage a (pr_message_id request) with
  | None => Ok tt
  | Some o =>
      refuse_if (negb (bool_decide (po_input_signature o = pr_input_signature request))) StageConflict
        "peer stage message ID was reused with a different signature";;
      refuse_if (bool_decide (po_stage o = Retire) && bool_decide (po_state o = StageCompleted)
                 && negb (retire_postcondition_holds rt request)) StageStale
        "completed Retire postcondition is no longer observable";;
      Err (inr o)
  end.

(** Three borrows of the runtime: the incarnation fence, the postcondition of
    a repeated Retire, the epoch fence. *)
Definition admit_stage (now : Z) (rt1 rt2 rt3 : RuntimeControlSnapshot) (request : PeerStageRequest) (a : ReplicaAgent) :
    result refused unit :=
  (match validate_request request with Ok _ => Ok tt | Err error => Err (inl (StageRejected, error)) end);;
  refuse_if (negb (pr_target_replica_id request =? ra_replica_id a)
             || negb (bool_decide (pr_target_instance_id request = ra_instance_id a))
             || negb (bool_decide (rt_instance_id rt1 = ra_instance_id a))) StageStale
    ("expected target " +:+ instance_text (ra_replica_id a) (ra_instance_id a) +:+ ", got " +:+
     instance_text (pr_target_replica_id request) (pr_target_instance_id request));;
  refuse_if (negb (bool_decide (pr_expected_target_agent_generation request = ra_generation a))) StageStale
    ("expected target generation " +:+ pr_expected_target_agent_generation request +:+ ", current " +:+ ra_generation a);;
  known_stage rt2 request a;;
  refuse_if (negb (pr_expected_target_peer_control_version request =? peer_control_version a)) StageStale
    ("expected peer control version " +:+ pretty (pr_expected_target_peer_control_version request) +:+
     ", current " +:+ pretty (peer_control_version a));;
  refuse_if (match peer_sender_fence a with Some f => fence_conflict request f | None => false end) StageStale
    "peer sender conflicts with the pinned primary fence";;
  refuse_if (busy a) StageRejected "replica agent is busy";;
  refuse_if (epoch_ltb (pr_epoch request) (rt_epoch rt3)) StageStale
    "peer stage epoch is older than target runtime epoch";;
  if decide (pr_stage request = Retire) then
    refuse_if (match pr_commit_observed_unix_seconds request with Some commit => now <? commit | None => true end)
      StageStale "Retire commit observation is in the future";;
    refuse_if (match pr_retirement_expiry_unix_seconds request with Some expiry => expiry <=? now | None => true end)
      StageStale "Retire stage deadline has expired"
  else Ok tt.

Definition accept_peer_stage (now : Z) (rt1 rt2 rt3 : RuntimeControlSnapshot) (request : PeerStageRequest)
    (reply : ReplyId) : handler := λ a,
  if negb (pr_protocol_version request =? REPLICA_LIFECYCLE_PEER_PROTOCOL_VERSION) then
    (a, [StageReply reply (Err (UnsupportedPeerProtocolVersion (pr_protocol_version request)))])
  else
    match admit_stage now rt1 rt2 rt3 request a with
    | Err (inl (state, error)) => (a, [StageReply reply (Ok (peer_observation request state (Some (normalize error)) a))])
    | Err (inr o) => (a, [StageReply reply (Ok o)])
    | Ok _ =>
        let a := a <| peer_control_version ::= λ v, u64_saturating_add v 1 |>
                   <| peer_sender_fence := Some (mkPeerSenderFence (pr_epoch request) (pr_sender_replica_id request)
                        (pr_sender_instance_id request) (pr_sender_agent_generation request)
                        (pr_sender_control_address request)) |> in
        let '(id, a) := next_execution_id a in
        let o := peer_observation request StageAccepted None a in
        (a <| active_peer := Some (mkActivePeerStage id (o <| po_state := StageInProgress |>)) |>,
         [StageReply reply (Ok o); SpawnPeerStage id request])
    end.

Definition handle_peer_completion (id : RuntimeEffectExecutionId) (state : PeerStageState) (error : option string) :
    handler := λ a,
  match active_peer a with
  | None => (a, [])
  | Some c =>
      if decide (ap_execution_id c ≠ id) then (a, [])
      else
        let o := (ap_observation c) <| po_state := state |> <| po_error := error |> in
        let a := a <| active_peer := None |> in
        match state with
        | StageCompleted | StageFailed | StageStale => (a <| peer_terminals ::= retain PEER_TERMINAL_RETENTION o |>, [])
        | _ => (a, [])
        end
  end.

(** ** Completions and coordinator events *)

Definition handle_completion (id : RuntimeEffectExecutionId) (res : result KubericError RuntimeEffectResult) :
    handler := λ a,
  match active a with
  | None => (a, [])
  | Some c =>
      if decide (ac_execution_id c ≠ id) then (a, [])
      else
        let o := match res with
                 | Ok EffUnit => completed_with None (ac_observation c)
                 | Ok (EffDataLoss r) => completed_with (Some (ResDataLoss r)) (ac_observation c)
                 | Err error => failed (terminal_error_class error) (normalize (error_to_string error)) (ac_observation c)
                 end in
        (retain_terminal o (a <| active := None |>),
         match ac_reply c with Some reply => [Ack reply (Ok o)] | None => [] end)
  end.

Definition is_progress (u : CoordinatorUpdate) : bool :=
  match u with AddProgress _ | RemoveProgress _ => true | _ => false end.

(** The event belongs to the active coordinator and is the next of its phase. *)
Definition is_current (ev : CoordinatorEvent) (current : CoordinatorExecutionId) : bool :=
  let sent := cv_execution_id ev in
  let expected_sequence := if is_progress (cv_update ev) then u64_saturating_add (ce_phase_sequence current) 1
                           else ce_phase_sequence current in
  bool_decide (ce_generation current = ce_generation sent) && bool_decide (ce_action_id current = ce_action_id sent)
  && bool_decide (ce_attempt_id current = ce_attempt_id sent) && (ce_phase_sequence sent =? expected_sequence).

Definition coordinator_error (error : string) (o : CorrelatedActionObservation) : CorrelatedActionObservation :=
  failed ClsInternal (normalize error) o.

Definition event_authority (id : CoordinatorExecutionId) (o : CorrelatedActionObservation) : CoordinatorAuthority :=
  mkCoordinatorAuthority (ce_generation id) (ce_action_id id) (do_signature (co_action o)) (ce_attempt_id id)
    (ce_phase_sequence id).

Definition coordinator_update (id : CoordinatorExecutionId) (u : CoordinatorUpdate) (c : ActiveCorrelated) : handler := λ a,
  match u with
  | AddProgress progress =>
      (a <| active := Some (c <| ac_coordinator_execution_id := Some id |>
              <| ac_observation ::= λ o, o <| co_action ::= λ d, d <| do_add_replica_progress := Some progress |> |> |>) |>,
       [])
  | AddTerminal res =>
      let o := match res with
               | Ok r => completed_with (Some (ResAddReplica r)) (ac_observation c)
               | Err error => coordinator_error error (ac_observation c)
               end in
      (retain_terminal o (a <| active := None |>), [])
  | RemoveProgress progress =>
      let validation :=
        intent ← ok_or (ac_remove_intent c) "active coordinator has no remove intent";
        validate_progress intent progress in
      match validation with
      | Err error => fail_active_remove_coordinator ("invalid remove-replica coordinator progress: " +:+ error) a
      | Ok _ =>
          (a <| active := Some (c <| ac_coordinator_execution_id := Some id |>
                  <| ac_observation ::= λ o, o <| co_action ::= λ d, d <| do_remove_replica_progress := Some progress |> |> |>) |>,
           if ac_authority c then [AuthorityChanged (Some (event_authority id (ac_observation c)))] else [])
      end
  | RemoveTerminal res =>
      let validation :=
        match res with
        | Ok r =>
            p ← ok_or (intent ← ac_remove_intent c; progress ← do_remove_replica_progress (co_action (ac_observation c));
                       Some (intent, progress)) "active coordinator has no remove terminal progress";
            validate_terminal_progress p.1 p.2 r
        | Err _ => Ok tt
        end in
      match validation with
      | Err error => fail_active_remove_coordinator ("invalid remove-replica coordinator terminal: " +:+ error) a
      | Ok _ =>
          let o := match res with
                   | Ok r => completed_with (Some (ResRemoveReplica r)) (ac_observation c)
                   | Err error => coordinator_error error (ac_observation c)
                   end in
          (retain_terminal o (a <| active := None |>), [])
      end
  end.

Definition handle_coordinator_event (ev : CoordinatorEvent) : handler := λ a,
  match active a with
  | Some c =>
      match ac_coordinator_execution_id c with
      | Some current =>
          if is_current ev current then coordinator_update (cv_execution_id ev) (cv_update ev) c a else (a, [])
      | None => (a, [])
      end
  | None => (a, [])
  end.

(** ** Faults, shutdown, status *)

Definition record_fault (f : FaultType) : handler := λ a,
  let a := a <| fault_sequence ::= λ s, u64_saturating_add s 1 |> in
  (a <| faults ::= retain FAULT_RETENTION (mkLocalFaultRecord (fault_sequence a) f) |>, []).

Definition begin_shutdown : handler := λ a,
  if shutting_down a then (a, [])
  else (a <| shutting_down := true |>, match active a with Some c => authority_lost c | None => [] end).

Definition agent_status (rt : RuntimeControlSnapshot) (a : ReplicaAgent) : ReplicaStatusInfo :=
  let state := rt_partition_state rt in
  mkReplicaStatusInfo (rt_instance_id rt) (rt_role rt) (rt_epoch rt)
    (default 0 (PState.current_progress <$> state))
    (state ≫= PState.observed_catch_up_capability)
    (default 0 (PState.ps_committed_lsn <$> state))
    (negb (none state))
    (default StNotPrimary (PState.write_status <$> state))
    (rt_configuration rt) (rt_election_configuration rt) (rt_deactivation_info rt)
    (default [] (PState.active_replica_connections <$> state))
    (rt_build_observation rt)
    (mkReplicaAgentStatus CORRELATED_CONTROL_PROTOCOL_VERSION REPLICA_LIFECYCLE_PEER_PROTOCOL_VERSION
      (ra_generation a) (ra_control_version a) (ac_observation <$> active a) (terminals a) (faults a)).

Definition peer_status (rt : RuntimeControlSnapshot) (target_replica_id : ReplicaId)
    (target_instance_id : ReplicaInstanceId) (expected_generation : AgentGeneration) (a : ReplicaAgent) :
    result KubericError PeerLifecycleStatus :=
  reject_if (negb (target_replica_id =? ra_replica_id a) || negb (bool_decide (target_instance_id = ra_instance_id a)))
    (PeerStageTargetMismatch ("expected " +:+ instance_text (ra_replica_id a) (ra_instance_id a) +:+ ", got " +:+
       instance_text target_replica_id target_instance_id));;
  reject_if (negb (bool_decide (expected_generation = ra_generation a)))
    (PeerStageStale ("expected target generation " +:+ expected_generation +:+ ", current " +:+ ra_generation a));;
  Ok (mkPeerLifecycleStatus REPLICA_LIFECYCLE_PEER_PROTOCOL_VERSION (ra_replica_id a) (ra_instance_id a)
        (ra_generation a) (peer_control_version a) (rt_role rt) (rt_epoch rt) (negb (none (rt_partition_state rt)))
        (default 0 (PState.current_progress <$> rt_partition_state rt))
        (ap_observation <$> active_peer a) (peer_terminals a)).

Definition reject_agent_command (command : AgentCommand) (error : KubericError) : list AgentOut :=
  match command with
  | ExecuteCorrelatedControlAction _ reply => [Ack reply (Err error)]
  | ExecuteLifecycleStage _ reply => [StageReply reply (Err error)]
  | GetLifecycleStatus _ _ _ reply => [PeerStatusReply reply (Err error)]
  | GetStatus reply => [SenderDropped reply]
  end.

(** ** The loop *)

(** What a turn may read: the clock, and the runtime at each borrow. *)
Record TurnEnv := mkTurnEnv { te_now : Z; te_rt1 : RuntimeControlSnapshot; te_rt2 : RuntimeControlSnapshot;
  te_rt3 : RuntimeControlSnapshot }.

Definition handle_command (e : TurnEnv) (command : AgentCommand) : handler := λ a,
  match command with
  | GetStatus reply => (a, [StatusReply reply (agent_status (te_rt1 e) a)])
  | GetLifecycleStatus id inst generation reply =>
      (a, [PeerStatusReply reply (peer_status (te_rt1 e) id inst generation a)])
  | command =>
      if shutting_down a then (a, reject_agent_command command Closed)
      else
        match command with
        | ExecuteCorrelatedControlAction request reply =>
            accept_correlated (te_now e) (te_rt1 e) (te_rt2 e) request reply a
        | ExecuteLifecycleStage request reply =>
            accept_peer_stage (te_now e) (te_rt1 e) (te_rt2 e) (te_rt3 e) request reply a
        | _ => (a, [])
        end
  end.

Inductive AgentEvent :=
| EvCompletion (id : RuntimeEffectExecutionId) (res : result KubericError RuntimeEffectResult)
| EvPeerCompletion (id : RuntimeEffectExecutionId) (state : PeerStageState) (error : option string)
| EvCoordinator (ev : CoordinatorEvent)
| EvFault (f : option FaultType)
| EvCommand (c : option AgentCommand)
| EvShutdown.

Definition serve_exits (a : ReplicaAgent) : bool := shutting_down a && none (active a) && none (active_peer a).

(** One turn of [serve]; [None] where the loop has ended or does not listen. *)
Definition agent_step (e : TurnEnv) (ev : AgentEvent) (a : ReplicaAgent) : option (ReplicaAgent * list AgentOut) :=
  if serve_exits a then None
  else
    match ev with
    | EvCompletion id res => Some (handle_completion id res a)
    | EvPeerCompletion id state error => Some (handle_peer_completion id state error a)
    | EvCoordinator ev => Some (handle_coordinator_event ev a)
    | EvFault f =>
        if fault_rx_open a then
          Some (match f with Some f => record_fault f a | None => (a <| fault_rx_open := false |>, []) end)
        else None
    | EvCommand c =>
        if command_rx_open a then
          Some (match c with
                | Some c => handle_command e c a
                | None => begin_shutdown (a <| command_rx_open := false |>)
                end)
        else None
    | EvShutdown => if shutting_down a then None else Some (begin_shutdown a)
    end.

Fixpoint run_agent (evs : list (TurnEnv * AgentEvent)) (a : ReplicaAgent) : option (ReplicaAgent * list AgentOut) :=
  match evs with
  | [] => Some (a, [])
  | (e, ev) :: evs =>
      '(a, o) ← agent_step e ev a;
      '(a, o') ← run_agent evs a;
      Some (a, o ++ o')
  end.
End admission.

(** ** What a turn launches *)

Definition is_launch (o : AgentOut) : bool :=
  match o with Dispatch _ _ | SpawnAddCoordinator _ _ _ _ | SpawnRemoveCoordinator _ _ _ => true | _ => false end.
Definition launches (o : list AgentOut) : list AgentOut := filter (λ o, is_launch o = true) o.

(** A sender is answered by a reply, or by being dropped. *)
Definition answered_by (o : AgentOut) : option ReplyId :=
  match o with
  | Ack r _ | StageReply r _ | StatusReply r _ | PeerStatusReply r _ | SenderDropped r => Some r
  | _ => None
  end.
Definition answered (o : list AgentOut) : list ReplyId := omap answered_by o.
Definition held (a : ReplicaAgent) : list ReplyId :=
  match active a with Some c => option_list (ac_reply c) | None => [] end.
Definition handed (ev : AgentEvent) : list ReplyId :=
  match ev with
  | EvCommand (Some (ExecuteCorrelatedControlAction _ r | GetStatus r | ExecuteLifecycleStage _ r
                     | GetLifecycleStatus _ _ _ r)) => [r]
  | _ => []
  end.

Lemma launches_app o o' : launches (o ++ o') = launches o ++ launches o'.
Proof. apply filter_app. Qed.
Lemma answered_app o o' : answered (o ++ o') = answered o ++ answered o'.
Proof. apply omap_app. Qed.

(** ** What the agent keeps

    An action in flight is in progress without a result; its coordinator has
    answered already; a removal carries its validated intent. *)
Section kept.
  Context {Ends : Endpoints}.

Definition intent_of (i : RemoveReplicaIntent) (o : CorrelatedActionObservation) : Prop :=
  validate_remove_intent i = Ok tt ∧ rm_action_id i = do_action_id (co_action o) ∧
  rm_input_signature i = do_signature (co_action o).

Definition active_ok (c : ActiveCorrelated) : Prop :=
  (is_Some (ac_coordinator_execution_id c) → ac_reply c = None) ∧
  do_state (co_action (ac_observation c)) = InProgress ∧ do_result (co_action (ac_observation c)) = None ∧
  ∀ i, ac_remove_intent c = Some i → intent_of i (ac_observation c).

(** A kept terminal: a removal's result has its evidence. *)
Definition terminal_ok (o : CorrelatedActionObservation) : Prop :=
  (do_state (co_action o) = Completed ∨ do_state (co_action o) = Failed) ∧
  ∀ r, do_result (co_action o) = Some (ResRemoveReplica r) →
    do_state (co_action o) = Completed ∧
    ∃ i p, intent_of i o ∧ do_remove_replica_progress (co_action o) = Some p ∧ validate_terminal_progress i p r = Ok tt.

Definition peer_terminal_ok (o : PeerStageObservation) : Prop :=
  po_state o = StageCompleted ∨ po_state o = StageFailed ∨ po_state o = StageStale.

Record agent_inv (a : ReplicaAgent) : Prop := mkAgentInv {
  inv_single : active a = None ∨ active_peer a = None;
  inv_active : ∀ c, active a = Some c → active_ok c;
  inv_terminals : Forall terminal_ok (terminals a) ∧ (length (terminals a) ≤ TERMINAL_RETENTION)%nat;
  inv_peer : Forall peer_terminal_ok (peer_terminals a) ∧ (length (peer_terminals a) ≤ PEER_TERMINAL_RETENTION)%nat;
  inv_faults : (length (faults a) ≤ FAULT_RETENTION)%nat;
}.

(** A terminal kept, or nothing. *)
Definition keeps (l l' : list CorrelatedActionObservation) : Prop :=
  l' = l ∨ ∃ o, terminal_ok o ∧ l' = retain TERMINAL_RETENTION o l.

End kept.

Lemma retain_bounded {A} bound (x : A) l :
  (0 < bound)%nat → (length l ≤ bound)%nat → (length (retain bound x l) ≤ bound)%nat.
Proof.
  intros Hb Hl. unfold retain. rewrite length_app. simpl. destruct (_ =? _)%nat eqn:E.
  - apply Nat.eqb_eq in E. destruct l; simpl in *; lia.
  - apply Nat.eqb_neq in E. lia.
Qed.

Lemma retain_Forall {A} (P : A → Prop) bound x l : P x → Forall P l → Forall P (retain bound x l).
Proof.
  intros Hx Hl. unfold retain. apply Forall_app. split; [|by constructor].
  destruct (_ =? _)%nat; [|done]. destruct l; [done|]. by apply Forall_cons in Hl as [_ ?].
Qed.

(** How an accepted action leaves the agent: still unanswered or answered,
    launched or failed at once, with one new version. *)
Record accepted `{Endpoints} (request : CorrelatedControlActionRequest) (reply : ReplyId) (a a' : ReplicaAgent) (outs : list AgentOut) :
  Prop := mkAccepted {
  acc_replies : answered outs ++ held a' ≡ₚ [reply];
  acc_version : ra_control_version a' = control_version_advance (ra_control_version a) ∨
                (ra_control_version a' = ra_control_version a ∧ a' = a ∧ launches outs = []);
  acc_launch : launches outs = [] ∧ active a' = active a ∨
    (∃ l c, launches outs = [l] ∧ active a' = Some c ∧
       do_action_id (co_action (ac_observation c)) = cr_action_id request ∧
       do_signature (co_action (ac_observation c)) = cr_input_signature request ∧
       do_state (co_action (ac_observation c)) = InProgress);
  acc_rest : active_peer a' = active_peer a ∧ peer_terminals a' = peer_terminals a ∧
    peer_control_version a' = peer_control_version a ∧ peer_sender_fence a' = peer_sender_fence a ∧
    shutting_down a' = shutting_down a ∧ faults a' = faults a ∧
    ra_replica_id a' = ra_replica_id a ∧ ra_instance_id a' = ra_instance_id a ∧ ra_generation a' = ra_generation a;
  acc_active : ∀ c, active a' = Some c → active_ok c;
  acc_terminals : keeps (terminals a) (terminals a');
  acc_stage : ∀ pid stage, SpawnPeerStage pid stage ∉ outs;
}.

Section turns.
  Context {Ends : Endpoints}.


(** The parts of [accepted] for a handler written out. *)
Ltac settle Ha :=
  split; simpl; [unfold held; simpl; by rewrite ?Ha|first [by left|right; by split_and!]
                |first [by left|right; by eexists _, _]|by split_and!
                |first [by intros ? Hc; rewrite Ha in Hc|intros ? [= <-]; unfold active_ok, intent_of; simpl; split_and!; naive_solver]
                |first [by left|right; eexists; split; [|done]; split; [first [by left|by right]|done]]
                |set_solver].

Lemma accept_remove_accepted now rt request intent reply a :
  validate_remove_intent intent = Ok tt → rm_action_id intent = cr_action_id request →
  rm_input_signature intent = cr_input_signature request →
  active a = None → let '(a', outs) := accept_remove now rt request intent reply a in accepted request reply a a' outs.
Proof.
  intros Hv Hid Hs Ha. unfold accept_remove. destruct (negb _); [settle Ha|]. destruct (_ <=? now); [settle Ha|].
  destruct (validate_progress _ _); [|settle Ha].
  settle Ha.
Qed.

Lemma accept_add_accepted rt request intent reply a :
  active a = None → let '(a', outs) := accept_add rt request intent reply a in accepted request reply a a' outs.
Proof.
  intros Ha. unfold accept_add. destruct (validate_add_intent intent); [|settle Ha].
  destruct (_ || _); settle Ha.
Qed.

Lemma accept_data_loss_accepted rt request epoch reply a :
  active a = None → let '(a', outs) := accept_data_loss rt request epoch reply a in accepted request reply a a' outs.
Proof.
  intros Ha. unfold accept_data_loss. destruct (negb _); [settle Ha|]. destruct (none _); settle Ha.
Qed.

Lemma accept_build_accepted rt request replica reply a :
  active a = None → let '(a', outs) := accept_build rt request replica reply a in accepted request reply a a' outs.
Proof. intros Ha. unfold accept_build. destruct (none _); settle Ha. Qed.

Lemma accept_effect_accepted request reply a effect :
  correlated_runtime_effect (cr_action request) = Some effect →
  active a = None → let '(a', outs) := accept_effect request reply a in accepted request reply a a' outs.
Proof. intros He Ha. unfold accept_effect. rewrite He. settle Ha. Qed.

(** *** Admission *)

Lemma known_action_Ok request a known :
  known_action request a = Ok known →
  find_correlated a (cr_action_id request) = known ∧
  ∀ o, known = Some o → do_signature (co_action o) = cr_input_signature request.
Proof.
  unfold known_action. destruct (find_correlated _ _) as [o|]; [|by intros [= <-]].
  intros ([] & Hs%reject_if_Ok & [= <-])%bind_Ok. guards. split; [done|]. by intros ? [= <-].
Qed.

(** What every admission to a new action has checked. *)
Record admitted (request : CorrelatedControlActionRequest) (a : ReplicaAgent) : Prop := mkAdmitted {
  ad_protocol : cr_protocol_version request = CORRELATED_CONTROL_PROTOCOL_VERSION;
  ad_named : cr_action_id request ≠ "";
  ad_target : cr_target_replica_id request = ra_replica_id a ∧ cr_target_instance_id request = ra_instance_id a;
  ad_generation : cr_expected_agent_generation request = ra_generation a;
  ad_signature : cr_input_signature request = action_signature (cr_action request);
  ad_version : cr_expected_control_version request = ra_control_version a;
  ad_new : find_correlated a (cr_action_id request) = None;
  ad_idle : active a = None ∧ active_peer a = None ∧ shutting_down a = false;
}.

Lemma not_busy a : busy a = false → active a = None ∧ active_peer a = None.
Proof. unfold busy. destruct (active a), (active_peer a); done. Qed.

Lemma admit_correlated_new epoch request a :
  admit_correlated epoch request a = Ok None → admitted request a ∧ cr_observed_runtime_epoch request = epoch.
Proof.
  intros H. unfold admit_correlated in H. do 5 (apply bind_Ok in H as ([] & ?%reject_if_Ok & H)).
  apply bind_Ok in H as (known & [Hf _]%known_action_Ok & H). destruct known; [done|].
  do 4 (apply bind_Ok in H as ([] & ?%reject_if_Ok & H)). unfold empty in *. guards.
  match goal with H : busy a = false |- _ => apply not_busy in H as [] end. split; [split; (done || by split_and!)|done].
Qed.

Lemma admit_remove_new intent request a :
  admit_remove intent request a = Ok None →
  admitted request a ∧ validate_remove_intent intent = Ok tt ∧ rm_action_id intent = cr_action_id request ∧
  rm_input_signature intent = cr_input_signature request.
Proof.
  intros H. unfold admit_remove in H. do 2 (apply bind_Ok in H as ([] & ?%reject_if_Ok & H)).
  apply bind_Ok in H as ([] & Hv & H). destruct (validate_remove_intent intent) as [[]|]; [|done].
  do 3 (apply bind_Ok in H as ([] & ?%reject_if_Ok & H)).
  apply bind_Ok in H as (known & [Hf _]%known_action_Ok & H). destruct known; [done|].
  do 3 (apply bind_Ok in H as ([] & ?%reject_if_Ok & H)). unfold empty in *. guards.
  match goal with H : busy a = false |- _ => apply not_busy in H as [] end. split; [split; (done || by split_and!)|done].
Qed.

Lemma admit_correlated_known epoch request a o :
  admit_correlated epoch request a = Ok (Some o) →
  find_correlated a (cr_action_id request) = Some o ∧ do_signature (co_action o) = cr_input_signature request.
Proof.
  intros H. unfold admit_correlated in H. do 5 (apply bind_Ok in H as ([] & _ & H)).
  apply bind_Ok in H as (known & [Hf Hs]%known_action_Ok & H). destruct known as [o'|].
  - injection H as ->. split; [done|by apply Hs].
  - by do 4 (apply bind_Ok in H as ([] & _ & H)).
Qed.

Lemma admit_remove_known intent request a o :
  admit_remove intent request a = Ok (Some o) →
  find_correlated a (cr_action_id request) = Some o ∧ do_signature (co_action o) = cr_input_signature request.
Proof.
  intros H. unfold admit_remove in H. do 6 (apply bind_Ok in H as ([] & _ & H)).
  apply bind_Ok in H as (known & [Hf Hs]%known_action_Ok & H). destruct known as [o'|].
  - injection H as ->. split; [done|by apply Hs].
  - by do 3 (apply bind_Ok in H as ([] & _ & H)).
Qed.

(** A correlated command is rejected, repeated, or admitted and accepted. *)
Lemma accept_correlated_cases now rt rt' request reply a a' outs :
  accept_correlated now rt rt' request reply a = (a', outs) →
  (∃ e, a' = a ∧ outs = [Ack reply (Err e)]) ∨
  (∃ o, a' = a ∧ outs = [Ack reply (Ok o)] ∧ find_correlated a (cr_action_id request) = Some o ∧
     do_signature (co_action o) = cr_input_signature request) ∨
  (admitted request a ∧ accepted request reply a a' outs).
Proof.
  unfold accept_correlated, answer. intros H.
  assert (∀ accept, (∀ a, active a = None → let '(a', outs) := accept a in accepted request reply a a' outs) →
    match admit_correlated (rt_epoch rt) request a with
    | Ok (Some o) => (a, [Ack reply (Ok o)]) | Ok None => accept a | Err error => (a, [Ack reply (Err error)]) end = (a', outs) →
    (∃ e, a' = a ∧ outs = [Ack reply (Err e)]) ∨
    (∃ o, a' = a ∧ outs = [Ack reply (Ok o)] ∧ find_correlated a (cr_action_id request) = Some o ∧
       do_signature (co_action o) = cr_input_signature request) ∨
    (admitted request a ∧ accepted request reply a a' outs)) as Hgen.
  { intros accept Hacc Heq. destruct (admit_correlated _ _ _) as [[o|]|e] eqn:E.
    - injection Heq as <- <-. right; left. exists o. apply admit_correlated_known in E as []. by split_and!.
    - right; right. apply admit_correlated_new in E as [E _]. split; [done|]. specialize (Hacc a).
      destruct (accept a) as [a1 o1]. injection Heq as <- <-. apply Hacc, (ad_idle _ _ E).
    - injection Heq as <- <-. left. by exists e. }
  destruct (cr_action request) eqn:Eact;
    try (refine (Hgen _ _ H); intros a0 Ha0;
         first [by apply accept_add_accepted|by apply accept_data_loss_accepted|by apply accept_build_accepted
               |eapply accept_effect_accepted; [by rewrite Eact|done]]).
  clear Hgen. destruct (admit_remove _ _ _) as [[o|]|e] eqn:E.
  - injection H as <- <-. right; left. exists o. apply admit_remove_known in E as []. by split_and!.
  - right; right. apply admit_remove_new in E as (E & Hv & Hid & Hs). split; [done|].
    pose proof (accept_remove_accepted now rt request intent reply a Hv Hid Hs (proj1 (ad_idle _ _ E))) as Hacc.
    rewrite H in Hacc. done.
  - injection H as <- <-. left. by exists e.
Qed.

(** *** Peer stages *)

(** What an accepted stage has checked. *)
Record stage_admitted (now : Z) (request : PeerStageRequest) (a : ReplicaAgent) : Prop := mkStageAdmitted {
  sa_valid : validate_request request = Ok tt;
  sa_target : pr_target_replica_id request = ra_replica_id a ∧ pr_target_instance_id request = ra_instance_id a ∧
    pr_expected_target_agent_generation request = ra_generation a;
  sa_new : find_peer_stage a (pr_message_id request) = None;
  sa_version : pr_expected_target_peer_control_version request = peer_control_version a;
  sa_fence : ∀ f, peer_sender_fence a = Some f → fence_conflict request f = false;
  sa_idle : active a = None ∧ active_peer a = None;
  sa_retire : pr_stage request = Retire → ∃ commit expiry, pr_commit_observed_unix_seconds request = Some commit ∧
    pr_retirement_expiry_unix_seconds request = Some expiry ∧ commit ≤ now ∧ now < expiry;
}.

Lemma admit_stage_Ok now rt1 rt2 rt3 request a :
  admit_stage now rt1 rt2 rt3 request a = Ok tt → stage_admitted now request a ∧ epoch_ltb (pr_epoch request) (rt_epoch rt3) = false.
Proof.
  intros H. unfold admit_stage in H. apply bind_Ok in H as ([] & Hv & H).
  destruct (validate_request request) as [[]|] eqn:Hval; [clear Hv|done].
  do 2 (apply bind_Ok in H as ([] & ?%reject_if_Ok & H)). apply bind_Ok in H as ([] & Hk & H).
  do 4 (apply bind_Ok in H as ([] & ?%reject_if_Ok & H)). unfold known_stage in Hk.
  destruct (find_peer_stage a _) eqn:Hf; [by do 2 (apply bind_Ok in Hk as ([] & _ & Hk))|]. guards.
  match goal with H : busy a = false |- _ => apply not_busy in H as [] end. split; [|done]. split; [done|by split_and!|done|done| |by split_and!|].
  - intros f Hfe. destruct (peer_sender_fence a); [congruence|done].
  - intros Hr. rewrite decide_True in H by done. apply bind_Ok in H as ([] & Hc%reject_if_Ok & He%reject_if_Ok).
    destruct (pr_commit_observed_unix_seconds request) as [c|]; [|done].
    destruct (pr_retirement_expiry_unix_seconds request) as [x|]; [|done]. exists c, x. split_and!; (done || lia).
Qed.

Lemma accept_peer_stage_cases now rt1 rt2 rt3 request reply a a' outs :
  accept_peer_stage now rt1 rt2 rt3 request reply a = (a', outs) →
  (a' = a ∧ ∃ res, outs = [StageReply reply res]) ∨
  (stage_admitted now request a ∧ ∃ id o p, outs = [StageReply reply (Ok o); SpawnPeerStage id request] ∧
     a' = a <| execution_sequence := u64_saturating_add (execution_sequence a) 1 |>
            <| peer_control_version := u64_saturating_add (peer_control_version a) 1 |>
            <| peer_sender_fence := Some (mkPeerSenderFence (pr_epoch request) (pr_sender_replica_id request)
                 (pr_sender_instance_id request) (pr_sender_agent_generation request) (pr_sender_control_address request)) |>
            <| active_peer := Some p |>).
Proof.
  unfold accept_peer_stage. destruct (negb _); [intros [= <- <-]; left; by eauto|].
  destruct (admit_stage _ _ _ _ _ _) as [[]|[[st e]|o]] eqn:E; [|intros [= <- <-]; left; by eauto..].
  simpl. intros [= <- <-]. right. apply admit_stage_Ok in E as [E _]. split; [done|]. by do 3 eexists.
Qed.

(** ** Invariant *)

Lemma retain_keeps o a :
  terminal_ok o → keeps (terminals a) (terminals (retain_terminal o a)).
Proof. intros Ho. right. by exists o. Qed.

Lemma keeps_ok l l' :
  keeps l l' → Forall terminal_ok l ∧ (length l ≤ TERMINAL_RETENTION)%nat →
  Forall terminal_ok l' ∧ (length l' ≤ TERMINAL_RETENTION)%nat.
Proof.
  intros [->|(o & Ho & ->)] [Hl Hb]; [done|]. split; [by apply retain_Forall|apply retain_bounded; [unfold TERMINAL_RETENTION; lia|done]].
Qed.

(** A turn that ends the active action, keeping [o] of it. *)
Lemma settled_inv a o :
  agent_inv a → terminal_ok o → agent_inv (retain_terminal o (a <| active := None |>)).
Proof.
  intros [_ _ Ht Hp Hf] Ho. split; simpl; [by left|done| |done|done].
  apply (keeps_ok (terminals a)); [right; by exists o|done].
Qed.

Lemma completed_ok c r :
  active_ok c → (∀ rr, r ≠ Some (ResRemoveReplica rr)) → terminal_ok (completed_with r (ac_observation c)).
Proof.
  intros (_ & _ & Hr & _) Hne. split; [by left|]. intros rr Heq. simpl in Heq.
  destruct r; [by apply Hne in Heq|congruence].
Qed.

Lemma failed_ok cl e c : active_ok c → terminal_ok (failed cl e (ac_observation c)).
Proof. intros (_ & _ & Hr & _). split; [by right|]. intros rr Heq. simpl in Heq. congruence. Qed.

Lemma updated_inv a c :
  agent_inv a → active a ≠ None → active_ok c → agent_inv (a <| active := Some c |>).
Proof.
  intros [Hs Ha Ht Hp Hf] Hn Hc. split; simpl; [right; by destruct Hs|by intros ? [= <-]|done..].
Qed.

Lemma coordinator_update_inv id u c a :
  agent_inv a → active a = Some c → ac_reply c = None → agent_inv (coordinator_update id u c a).1.
Proof.
  intros Hinv Hc Hrep. pose proof (inv_active _ Hinv c Hc) as Hok.
  assert (∀ e, agent_inv (fail_active_remove_coordinator e a).1) as Hfail.
  { intros e. unfold fail_active_remove_coordinator. rewrite Hc. apply settled_inv; [done|]. by apply failed_ok. }
  assert (active a ≠ None) as Hn by congruence. pose proof Hok as (H1 & H2 & H3 & H4).
  destruct u as [p|[r|e]|p|[r|e]]; unfold coordinator_update.
  - apply updated_inv; [done..|]. by split_and!.
  - by apply settled_inv, completed_ok.
  - by apply settled_inv, failed_ok.
  - destruct (_ ≫= _); [|done]. apply updated_inv; [done..|]. by split_and!.
  - destruct (_ ≫= _) eqn:E; [|done]. apply settled_inv; [done|].
    apply bind_Ok in E as ([i p] & Heq%ok_or_Ok & Hv). apply bind_Some in Heq as (i' & Hi & Heq).
    apply bind_Some in Heq as (p' & Hp & [= -> ->]).
    split; [by left|]. simpl. intros ? [= <-]. split; [done|]. exists i, p. split_and!; [by apply H4|done|].
    by destruct (validate_terminal_progress _ _ _) as [[]|].
  - by apply settled_inv, failed_ok.
Qed.

(** The agent after a coordinator's events. *)
Definition receive (evs : list CoordinatorEvent) (a : ReplicaAgent) : ReplicaAgent :=
  foldl (λ a ev, (handle_coordinator_event ev a).1) a evs.

Lemma next_sequence n : 0 ≤ n < u64_max → u64_wrapping_add n 1 = n + 1 ∧ u64_saturating_add n 1 = n + 1.
Proof.
  unfold u64_wrapping_add, u64_saturating_add, u64_max. intros H. split; [|lia]. apply Z.mod_small. lia.
Qed.

Lemma handle_coordinator_event_cases ev a :
  handle_coordinator_event ev a = (a, []) ∨
  ∃ c current, active a = Some c ∧ ac_coordinator_execution_id c = Some current ∧ is_current ev current = true ∧
    handle_coordinator_event ev a = coordinator_update (cv_execution_id ev) (cv_update ev) c a.
Proof.
  unfold handle_coordinator_event. destruct (active a) as [c|]; [|by left].
  destruct (ac_coordinator_execution_id c) as [cur|] eqn:Hcur; [|by left].
  destruct (is_current ev cur) eqn:Hi; [|by left]. right. by exists c, cur.
Qed.

Lemma accepted_inv request reply a a' outs :
  agent_inv a → active a = None → active_peer a = None → accepted request reply a a' outs → agent_inv a'.
Proof.
  intros [_ _ Ht Hp Hf] Ha Hpe [_ _ _ (H1 & H2 & _ & _ & _ & H3 & _) Hact Hk _]. split.
  - right. congruence.
  - done.
  - by apply (keeps_ok (terminals a)).
  - by rewrite H2.
  - by rewrite H3.
Qed.

Lemma agent_step_inv e ev a a' outs : agent_inv a → agent_step e ev a = Some (a', outs) → agent_inv a'.
Proof.
  intros Hinv H. unfold agent_step in H. destruct (serve_exits a); [done|]. destruct ev as [id res|id st er|ev|f|c|].
  - injection H as H. unfold handle_completion in H. destruct (active a) as [c|] eqn:Hc; [|congruence].
    case_decide; [congruence|]. injection H as <- _. apply settled_inv; [done|].
    pose proof (inv_active _ Hinv c Hc). destruct res as [[]|]; [by apply completed_ok..|by apply failed_ok].
  - injection H as H. unfold handle_peer_completion in H. destruct (active_peer a) as [c|] eqn:Hc; [|congruence].
    case_decide; [congruence|]. pose proof Hinv as [Hs Ha Ht [Hp Hpl] Hf].
    assert (∀ o, peer_terminal_ok o →
      agent_inv (a <| active_peer := None |> <| peer_terminals ::= retain PEER_TERMINAL_RETENTION o |>)) as Hkeep.
    { intros o Ho. split; simpl; [by right|done|done| |done].
      split; [by apply retain_Forall|apply retain_bounded; [unfold PEER_TERMINAL_RETENTION; lia|done]]. }
    assert (agent_inv (a <| active_peer := None |>)) as Hdrop by (split; simpl; [by right|done..]).
    destruct st; injection H as <- _; try done; apply Hkeep; unfold peer_terminal_ok; simpl; naive_solver.
  - injection H as H. destruct (handle_coordinator_event_cases ev a) as [He|(c & cur & Hc & Hcur & _ & He)];
      rewrite He in H; [congruence|].
    pose proof (coordinator_update_inv (cv_execution_id ev) (cv_update ev) c a Hinv Hc) as Hu. rewrite H in Hu. apply Hu.
    by apply (inv_active _ Hinv c Hc).
  - destruct (fault_rx_open a); [|done]. pose proof Hinv as [Hs Ha Ht Hp Hf].
    destruct f; injection H as <- _; split; simpl; try done. apply retain_bounded; [unfold FAULT_RETENTION; lia|done].
  - destruct (command_rx_open a); [|done]. destruct c as [c|].
    + injection H as H. destruct c as [request reply|reply|request reply|? ? ? reply]; simpl in H; [| congruence | |congruence].
      * destruct (shutting_down a); [congruence|]. apply accept_correlated_cases in H as [(? & -> & _)|[(? & -> & _)|[Had Hacc]]]; [done..|].
        destruct (ad_idle _ _ Had) as (? & ? & _). by eapply accepted_inv.
      * destruct (shutting_down a); [congruence|].
        apply accept_peer_stage_cases in H as [[-> _]|(Had & id & o & p & _ & ->)]; [done|].
        destruct (sa_idle _ _ _ Had) as [Ha _]. destruct Hinv as [_ Hact Ht Hp Hf]. split; simpl; [by left|done..].
    + injection H as H. unfold begin_shutdown in H. destruct Hinv as [Hs Ha Ht Hp Hf].
      destruct (shutting_down _); injection H as <- _; by split.
  - destruct (shutting_down a) eqn:Hsd; [done|]. injection H as H. unfold begin_shutdown in H. rewrite Hsd in H.
    injection H as <- _. by destruct Hinv.
Qed.

Lemma run_agent_inv evs a a' outs : agent_inv a → run_agent evs a = Some (a', outs) → agent_inv a'.
Proof.
  revert a outs. induction evs as [|[e ev] evs IH]; intros a outs Hinv H; simpl in H; [congruence|].
  apply bind_Some in H as ([a1 o1] & Hs & H). apply bind_Some in H as ([a2 o2] & Hr & [= <- _]).
  eapply IH; [|done]. by eapply agent_step_inv.
Qed.

Lemma agent_new_inv id inst g : agent_inv (agent_new id inst g).
Proof. split; simpl; [by left|done|by split; [|lia]|by split; [|lia]|lia]. Qed.

(** ** What one turn changes *)

Definition same_identity (a a' : ReplicaAgent) : Prop :=
  ra_replica_id a' = ra_replica_id a ∧ ra_instance_id a' = ra_instance_id a ∧ ra_generation a' = ra_generation a.

(** A turn that admits nothing: no launch, no stage, no new version. *)
Record quiet (ev : AgentEvent) (a a' : ReplicaAgent) (outs : list AgentOut) : Prop := mkQuiet {
  q_launch : launches outs = [];
  q_stage : ∀ id request, SpawnPeerStage id request ∉ outs;
  q_same : same_identity a a' ∧ ra_control_version a' = ra_control_version a ∧
    peer_control_version a' = peer_control_version a ∧ peer_sender_fence a' = peer_sender_fence a;
  q_replies : answered outs ++ held a' ≡ₚ held a ++ handed ev;
}.

Ltac quiet_done :=
  split; simpl; [done|set_solver|by split_and!|unfold held; simpl; rewrite ?app_nil_r; first [done|apply Permutation_cons_append]].

Lemma begin_shutdown_quiet ev a : handed ev = [] → quiet ev a (begin_shutdown a).1 (begin_shutdown a).2.
Proof.
  intros Hh. unfold begin_shutdown. destruct (shutting_down a); simpl; [split; simpl; [done|set_solver|by split_and!|by rewrite Hh, app_nil_r]|].
  unfold authority_lost. destruct (active a) as [c|] eqn:Hc; [destruct (ac_authority c)|];
    (split; simpl; [done|set_solver|by split_and!|rewrite Hh, app_nil_r; unfold held; simpl; by rewrite Hc]).
Qed.

Lemma coordinator_update_quiet ev id u c a :
  handed ev = [] → active a = Some c → ac_reply c = None →
  quiet ev a (coordinator_update id u c a).1 (coordinator_update id u c a).2.
Proof.
  intros Hh Hc Hr.
  assert (held a = []) as Hheld by (unfold held; by rewrite Hc, Hr).
  assert (∀ o c', launches o = [] → (∀ id request, SpawnPeerStage id request ∉ o) → answered o = [] →
    ac_reply c' = None → quiet ev a (a <| active := Some c' |>) o) as Hset.
  { intros o c' Hl Hs Ha Hr'. split; [done..|by split_and!|]. rewrite Ha, Hheld, Hh. unfold held. simpl. by rewrite Hr'. }
  assert (∀ o x, launches o = [] → (∀ id request, SpawnPeerStage id request ∉ o) → answered o = [] →
    quiet ev a (retain_terminal x (a <| active := None |>)) o) as Hend.
  { intros o x Hl Hs Ha. split; [done..|by split_and!|]. by rewrite Ha, Hheld, Hh. }
  assert (∀ e, quiet ev a (fail_active_remove_coordinator e a).1 (fail_active_remove_coordinator e a).2) as Hfail.
  { intros e. unfold fail_active_remove_coordinator. rewrite Hc. unfold authority_lost.
    destruct (ac_authority c); apply Hend; (done || set_solver). }
  unfold coordinator_update. destruct u as [p|r|p|r].
  - apply Hset; (done || set_solver).
  - apply Hend; (done || set_solver).
  - destruct (_ ≫= _); [|done]. destruct (ac_authority c); apply Hset; (done || set_solver).
  - destruct (match r with Ok _ => _ | Err _ => _ end); [|done]. apply Hend; (done || set_solver).
Qed.

(** Every turn is quiet, accepts an action, or accepts a stage. *)
Lemma agent_step_cases e ev a a' outs :
  agent_inv a → agent_step e ev a = Some (a', outs) →
  quiet ev a a' outs ∨
  (∃ request reply, ev = EvCommand (Some (ExecuteCorrelatedControlAction request reply)) ∧
     admitted request a ∧ accepted request reply a a' outs) ∨
  (∃ request reply id o p, ev = EvCommand (Some (ExecuteLifecycleStage request reply)) ∧
     stage_admitted (te_now e) request a ∧ outs = [StageReply reply (Ok o); SpawnPeerStage id request] ∧
     a' = a <| execution_sequence := u64_saturating_add (execution_sequence a) 1 |>
            <| peer_control_version := u64_saturating_add (peer_control_version a) 1 |>
            <| peer_sender_fence := Some (mkPeerSenderFence (pr_epoch request) (pr_sender_replica_id request)
                 (pr_sender_instance_id request) (pr_sender_agent_generation request) (pr_sender_control_address request)) |>
            <| active_peer := Some p |>).
Proof.
  intros Hinv H. unfold agent_step in H. destruct (serve_exits a); [done|].
  destruct ev as [id res|id st er|ev|f|c|].
  - left. injection H as H. unfold handle_completion in H. destruct (active a) as [c|] eqn:Hc.
    2: { injection H as <- <-. quiet_done. }
    case_decide; [injection H as <- <-; quiet_done|]. injection H as <- <-.
    split; [by destruct (ac_reply c)|destruct (ac_reply c); set_solver|by split_and!|].
    unfold held. simpl. rewrite Hc, !app_nil_r. by destruct (ac_reply c).
  - left. injection H as H. unfold handle_peer_completion in H. destruct (active_peer a) as [c|] eqn:Hc.
    2: { injection H as <- <-. quiet_done. }
    case_decide; [injection H as <- <-; quiet_done|]. destruct st; injection H as <- <-; quiet_done.
  - left. injection H as H. destruct (handle_coordinator_event_cases ev a) as [He|(c & cur & Hc & Hcur & _ & He)].
    + rewrite He in H. injection H as <- <-. quiet_done.
    + pose proof (coordinator_update_quiet (EvCoordinator ev) (cv_execution_id ev) (cv_update ev) c a eq_refl Hc) as Hq.
      rewrite <-He, H in Hq. apply Hq. by apply (inv_active _ Hinv c Hc).
  - left. destruct (fault_rx_open a); [|done]. destruct f; injection H as <- <-; quiet_done.
  - destruct (command_rx_open a); [|done]. destruct c as [c|].
    + injection H as H. destruct c as [request reply|reply|request reply|? ? ? reply]; simpl in H.
      * destruct (shutting_down a); [left; injection H as <- <-; quiet_done|].
        apply accept_correlated_cases in H as [(? & -> & ->)|[(? & -> & -> & _)|[Had Hacc]]].
        -- left. quiet_done.
        -- left. quiet_done.
        -- right; left. by exists request, reply.
      * left. injection H as <- <-. quiet_done.
      * destruct (shutting_down a); [left; injection H as <- <-; quiet_done|].
        apply accept_peer_stage_cases in H as [[-> [res ->]]|(Had & id & o & p & -> & ->)].
        -- left. quiet_done.
        -- right; right. by exists request, reply, id, o, p.
      * left. injection H as <- <-. quiet_done.
    + left. injection H as H. pose proof (begin_shutdown_quiet (EvCommand None) (a <| command_rx_open := false |>) eq_refl) as [H1 H2 H3 H4].
      rewrite H in *. by split.
  - left. destruct (shutting_down a); [done|]. injection H as H.
    pose proof (begin_shutdown_quiet EvShutdown a eq_refl) as Hq. by rewrite H in Hq.
Qed.

(** ** Runs *)

Definition launched_by (ev : AgentEvent) (outs : list AgentOut) : option CorrelatedControlActionRequest :=
  match ev, launches outs with
  | EvCommand (Some (ExecuteCorrelatedControlAction request _)), _ :: _ => Some request
  | _, _ => None
  end.

(** The requests that launched something, in order. *)
Fixpoint launch_log (evs : list (TurnEnv * AgentEvent)) (a : ReplicaAgent) : list CorrelatedControlActionRequest :=
  match evs with
  | [] => []
  | (e, ev) :: evs =>
      match agent_step e ev a with
      | Some (a', outs) => option_list (launched_by ev outs) ++ launch_log evs a'
      | None => []
      end
  end.

(** Addressed to this process, at this protocol, with its true signature. *)
Definition addressed (id : ReplicaId) (inst : ReplicaInstanceId) (g : AgentGeneration)
    (request : CorrelatedControlActionRequest) : Prop :=
  cr_protocol_version request = CORRELATED_CONTROL_PROTOCOL_VERSION ∧ cr_target_replica_id request = id ∧
  cr_target_instance_id request = inst ∧ cr_expected_agent_generation request = g ∧
  cr_input_signature request = action_signature (cr_action request).

Lemma agent_step_launch e ev a a' outs :
  agent_inv a → agent_step e ev a = Some (a', outs) → ra_control_version a < u64_max →
  same_identity a a' ∧ ra_control_version a ≤ ra_control_version a' ≤ ra_control_version a + 1 ∧
  (launches outs = [] ∧ launched_by ev outs = None ∨
   ∃ request reply l c, ev = EvCommand (Some (ExecuteCorrelatedControlAction request reply)) ∧
     launches outs = [l] ∧ launched_by ev outs = Some request ∧ admitted request a ∧ active a' = Some c ∧
     do_action_id (co_action (ac_observation c)) = cr_action_id request ∧
     do_state (co_action (ac_observation c)) = InProgress ∧ ra_control_version a' = ra_control_version a + 1).
Proof.
  intros Hinv H Hv.
  destruct (agent_step_cases _ _ _ _ _ Hinv H) as [[Hl _ (Hid & Hcv & _) _]|[(request & reply & -> & Had & Hacc)|Hst]]; clear H.
  - split; [done|]. split; [lia|]. left. split; [done|]. unfold launched_by. rewrite Hl. by destruct ev as [| | | |[[]|]|].
  - destruct Hacc as [_ Hver Hla (_ & _ & _ & _ & _ & _ & Hid) _ _ _]. split; [done|].
    assert (ra_control_version a ≤ ra_control_version a' ≤ ra_control_version a + 1) as Hb.
    { destruct Hver as [->|[-> _]]; unfold control_version_advance, u64_saturating_add; lia. }
    split; [done|]. destruct Hla as [[Hl _]|(l & c & Hl & Hc & Hn & _ & Hst)].
    + left. split; [done|]. unfold launched_by. by rewrite Hl.
    + right. exists request, reply, l, c. split_and!; try done; [unfold launched_by; by rewrite Hl|].
      destruct Hver as [->|(_ & _ & Hn')]; [|congruence]. unfold control_version_advance, u64_saturating_add. lia.
  - destruct Hst as (request & reply & id & o & p & -> & _ & -> & ->). simpl. split; [by split_and!|]. split; [lia|]. by left.
Qed.

Lemma launch_log_sorted evs a :
  agent_inv a → ra_control_version a + Z.of_nat (length evs) ≤ u64_max →
  StronglySorted Z.lt (cr_expected_control_version <$> launch_log evs a) ∧
  Forall (λ r, ra_control_version a ≤ cr_expected_control_version r ∧
     addressed (ra_replica_id a) (ra_instance_id a) (ra_generation a) r) (launch_log evs a).
Proof.
  revert a. induction evs as [|[e ev] evs IH]; intros a Hinv Hlen; [split; constructor|]. cbn [launch_log length] in *.
  destruct (agent_step e ev a) as [[a' outs]|] eqn:Hs; [|split; constructor].
  pose proof (agent_step_inv _ _ _ _ _ Hinv Hs) as Hinv'.
  destruct (agent_step_launch _ _ _ _ _ Hinv Hs) as ((E1 & E2 & E3) & Hv & Hl); [lia|].
  destruct (IH a' Hinv') as [Hsort Hall]; [lia|]. rewrite E1, E2, E3 in Hall. rewrite Forall_forall in Hall.
  destruct Hl as [[_ ->]|(request & reply & l & c & _ & _ & -> & Had & _ & _ & _ & Hv')]; simpl.
  - split; [done|]. rewrite Forall_forall. intros r Hr. destruct (Hall r Hr) as [? ?]. split; [lia|done].
  - pose proof Had as [? _ [? ?] ? ? Hver _ _]. split.
    + constructor; [done|]. rewrite Forall_fmap, Forall_forall. intros r Hr. destruct (Hall r Hr) as [? _]. simpl. lia.
    + constructor; [split; [lia|by split_and!]|]. rewrite Forall_forall. intros r Hr.
      destruct (Hall r Hr) as [? ?]. split; [lia|done].
Qed.

(** The requests of the accepted stages, in order. *)
Definition stage_by (ev : AgentEvent) (outs : list AgentOut) : option PeerStageRequest :=
  match ev, outs with
  | EvCommand (Some (ExecuteLifecycleStage request _)), [_; SpawnPeerStage _ _] => Some request
  | _, _ => None
  end.

Fixpoint stage_log (evs : list (TurnEnv * AgentEvent)) (a : ReplicaAgent) : list PeerStageRequest :=
  match evs with
  | [] => []
  | (e, ev) :: evs =>
      match agent_step e ev a with
      | Some (a', outs) => option_list (stage_by ev outs) ++ stage_log evs a'
      | None => []
      end
  end.

(** [r] may follow a stage of sender fence [f]: a newer epoch, or the same one
    from the same sender process. *)
Definition sender_of (r : PeerStageRequest) : PeerSenderFence :=
  mkPeerSenderFence (pr_epoch r) (pr_sender_replica_id r) (pr_sender_instance_id r) (pr_sender_agent_generation r)
    (pr_sender_control_address r).
Definition follows (f g : PeerSenderFence) : Prop := epoch_lt (pf_epoch f) (pf_epoch g) ∨ g = f.

Lemma follows_trans f g h : follows f g → follows g h → follows f h.
Proof.
  intros [H1| ->] [H2| ->]; [left|by left|by left|by right]. rewrite epoch_lt_spec in *. lia.
Qed.

Lemma no_conflict_follows request f : fence_conflict request f = false → follows f (sender_of request).
Proof.
  unfold fence_conflict. intros [Hlt Heq]%orb_false_elim.
  pose proof (epoch_cmp_spec (pr_epoch request) (pf_epoch f)) as Hc. unfold epoch_ltb in Hlt.
  destruct (epoch_cmp (pr_epoch request) (pf_epoch f)) eqn:E; [|done|].
  - right. rewrite bool_decide_eq_true_2 in Heq by done. simpl in Heq. guards.
    destruct f; unfold sender_of; simpl in *. congruence.
  - left. unfold epoch_lt. rewrite epoch_cmp_opp. simpl. by rewrite E.
Qed.

Lemma stage_log_follows evs a :
  agent_inv a → peer_control_version a + Z.of_nat (length evs) ≤ u64_max →
  StronglySorted (λ r s, pr_expected_target_peer_control_version r < pr_expected_target_peer_control_version s ∧
    follows (sender_of r) (sender_of s)) (stage_log evs a) ∧
  Forall (λ r, peer_control_version a ≤ pr_expected_target_peer_control_version r ∧
    ∀ f, peer_sender_fence a = Some f → follows f (sender_of r)) (stage_log evs a).
Proof.
  revert a. induction evs as [|[e ev] evs IH]; intros a Hinv Hlen; [split; constructor|]. cbn [stage_log length] in *.
  destruct (agent_step e ev a) as [[a' outs]|] eqn:Hs; [|split; constructor].
  pose proof (agent_step_inv _ _ _ _ _ Hinv Hs) as Hinv'.
  assert (∀ r, stage_by ev outs = Some r → ∃ id, SpawnPeerStage id r ∈ outs ∨
    ∃ reply o, ev = EvCommand (Some (ExecuteLifecycleStage r reply)) ∧ ∃ r', outs = [o; SpawnPeerStage id r']) as Hby.
  { unfold stage_by. intros r Hr. destruct ev as [| | | |[[]|]|]; try done.
    destruct outs as [|o [|o' [|? ?]]]; try done; destruct o'; try done. injection Hr as ->. eauto 8. }
  destruct (agent_step_cases _ _ _ _ _ Hinv Hs) as [[_ Hns (_ & _ & Hv & Hf) _]|[(request & reply & -> & _ & Hacc)|Hst]].
  - destruct (IH a' Hinv') as [Hsort Hall]; [lia|]. rewrite Hv, Hf in Hall.
    destruct (stage_by ev outs) as [r|] eqn:Hr; [|done].
    destruct (Hby r eq_refl) as (id & [Hin|(reply & o & _ & r' & ->)]); [by apply Hns in Hin|].
    destruct (Hns id r'). set_solver.
  - destruct Hacc as [_ _ _ (_ & _ & Hv & Hf & _) _ _ _]. destruct (IH a' Hinv') as [Hsort Hall]; [lia|].
    by rewrite Hv, Hf in Hall.
  - destruct Hst as (request & reply & id & o & p & -> & Had & -> & ->). simpl.
    destruct (IH _ Hinv') as [Hsort Hall]; [simpl; unfold u64_saturating_add; lia|]. simpl in Hall.
    rewrite Forall_forall in Hall. pose proof Had as [_ _ _ Hver Hfence _ _].
    assert (u64_saturating_add (peer_control_version a) 1 = peer_control_version a + 1) as Hplus
      by (unfold u64_saturating_add; lia).
    split; constructor.
    + done.
    + rewrite Forall_forall. intros r Hr. destruct (Hall r Hr) as [? Hfo]. split; [lia|by apply Hfo].
    + split; [lia|]. intros f Hfe. by apply no_conflict_follows, Hfence.
    + rewrite Forall_forall. intros r Hr. destruct (Hall r Hr) as [? Hfo]. split; [lia|]. intros f Hfe.
      eapply follows_trans; [|by apply Hfo]. by apply no_conflict_follows, Hfence.
Qed.

(** C11. Effects are fenced and launched once: over any run of an agent
    process, whatever arrives and whenever, every request that launched
    something (a runtime effect, an add or a remove coordinator) was addressed
    to this replica, incarnation and process generation at this protocol with
    the true signature of its action; and no two of them name the same control
    version: their versions are strictly increasing. Each launch was the only
    one of its turn, found the agent idle and the action unknown, and leaves
    it in flight under that action. *)
Theorem launches_fenced_and_unique evs id inst g :
  Z.of_nat (length evs) ≤ u64_max →
  let log := launch_log evs (agent_new id inst g) in
  StronglySorted Z.lt (cr_expected_control_version <$> log) ∧ Forall (addressed id inst g) log ∧
  ∀ pre e ev post a o a' outs, evs = pre ++ (e, ev) :: post → run_agent pre (agent_new id inst g) = Some (a, o) →
    agent_step e ev a = Some (a', outs) → launches outs ≠ [] →
    ∃ request reply l c, ev = EvCommand (Some (ExecuteCorrelatedControlAction request reply)) ∧ launches outs = [l] ∧
      admitted request a ∧ active a' = Some c ∧ do_action_id (co_action (ac_observation c)) = cr_action_id request ∧
      do_state (co_action (ac_observation c)) = InProgress.
Proof.
  intros Hlen log. pose proof (agent_new_inv id inst g) as Hinv.
  destruct (launch_log_sorted evs (agent_new id inst g) Hinv) as [Hs Hall]; [simpl; lia|]. split_and!; [done| |].
  - eapply Forall_impl; [exact Hall|]. by intros r [_ ?].
  - intros pre e ev post a o a' outs -> Hrun Hst Hne.
    assert (∀ evs a a' o, agent_inv a → run_agent evs a = Some (a', o) →
      ra_control_version a + Z.of_nat (length evs) ≤ u64_max →
      ra_control_version a' ≤ ra_control_version a + Z.of_nat (length evs)) as Hgrow.
    { clear. induction evs as [|[e ev] evs IH]; intros a a' o Hinv H Hl; simpl in *; [injection H as <- _; lia|].
      apply bind_Some in H as ([a1 o1] & Hst & H). apply bind_Some in H as ([a2 o2] & Hr & [= <- _]).
      destruct (agent_step_launch _ _ _ _ _ Hinv Hst) as (_ & Hv & _); [lia|].
      apply IH in Hr; [lia|by eapply agent_step_inv|lia]. }
    rewrite length_app in Hlen. simpl in Hlen. pose proof (Hgrow _ _ _ _ Hinv Hrun) as Hv. simpl in Hv.
    destruct (agent_step_launch e ev a a' outs) as (_ & _ & [[? _]|(request & reply & l & c & ? & ? & _ & ? & ? & ? & ? & _)]);
      [by eapply run_agent_inv|done|lia|done|]. exists request, reply, l, c. by split_and!.
Qed.

(** C12. Every caller is answered once: over any run, the reply senders that
    arrived with commands are exactly those answered and the one the agent
    still holds for the action in flight; when the loop ends nothing is left. *)
Theorem agent_answers_all evs id inst g a outs :
  run_agent evs (agent_new id inst g) = Some (a, outs) →
  answered outs ++ held a ≡ₚ evs.*2 ≫= handed ∧ (serve_exits a = true → answered outs ≡ₚ evs.*2 ≫= handed).
Proof.
  intros H.
  enough (∀ evs a a' outs, agent_inv a → run_agent evs a = Some (a', outs) →
    answered outs ++ held a' ≡ₚ held a ++ (evs.*2 ≫= handed)) as Hgen.
  { apply Hgen in H; [|apply agent_new_inv]. unfold held at 2 in H. simpl in H. split; [done|]. intros Hex.
    unfold serve_exits in Hex. apply andb_prop in Hex as [Hex _]. apply andb_prop in Hex as [_ Hex].
    unfold held in H. destruct (active a); [done|]. by rewrite app_nil_r in H. }
  clear. induction evs as [|[e ev] evs IH]; intros a a' outs Hinv H; simpl in H.
  { injection H as <- <-. simpl. by rewrite app_nil_r. }
  apply bind_Some in H as ([a1 o1] & Hst & H). apply bind_Some in H as ([a2 o2] & Hr & [= <- <-]).
  pose proof (agent_step_inv _ _ _ _ _ Hinv Hst) as Hinv1. apply IH in Hr; [|done].
  rewrite answered_app, <-app_assoc, Hr. simpl. rewrite !app_assoc. apply Permutation_app; [|done].
  destruct (agent_step_cases _ _ _ _ _ Hinv Hst) as [[_ _ _ Hq]|[(request & reply & -> & Had & [Hq _ _ _ _ _ _])|Hp]].
  - done.
  - rewrite Hq. unfold held. by rewrite (proj1 (ad_idle _ _ Had)).
  - destruct Hp as (request & reply & pid & o & p & -> & Had & -> & ->). unfold held. simpl.
    by rewrite (proj1 (sa_idle _ _ _ Had)).
Qed.

(** What the agent keeps, in every reachable state: at most one action or
    one peer stage in flight, never both; at most sixteen terminals, peer
    terminals and faults; kept actions are completed or failed; and a kept
    removal that claims a result has the evidence of that result: its recorded
    progress supports it against the validated intent of that very action. *)
Theorem agent_keeps_evidence evs id inst g a outs :
  run_agent evs (agent_new id inst g) = Some (a, outs) →
  (active a = None ∨ active_peer a = None) ∧
  (length (terminals a) ≤ TERMINAL_RETENTION)%nat ∧ (length (peer_terminals a) ≤ PEER_TERMINAL_RETENTION)%nat ∧
  (length (faults a) ≤ FAULT_RETENTION)%nat ∧
  ∀ o, o ∈ terminals a → (do_state (co_action o) = Completed ∨ do_state (co_action o) = Failed) ∧
    ∀ r, do_result (co_action o) = Some (ResRemoveReplica r) → ∃ i p, intent_of i o ∧
      do_remove_replica_progress (co_action o) = Some p ∧ terminal_evidence i p r.
Proof.
  intros H. apply run_agent_inv in H as [Hs _ [Ht Htl] [_ Hpl] Hf]; [|apply agent_new_inv].
  split_and!; [done..|]. intros o Ho. rewrite Forall_forall in Ht. destruct (Ht o Ho) as [Hst Hr]. split; [done|].
  intros r Hres. destruct (Hr r Hres) as (_ & i & p & Hi & Hp & Hv). exists i, p. split_and!; [done..|].
  apply terminal_evidence_of; [apply Hi|done].
Qed.

(** Retries are idempotent: a command for an action the agent knows, in
    flight or kept, changes nothing and launches nothing; it is answered with
    the very observation, when the signature is that of the known action, or
    with an error; a well-addressed retry always gets the observation, and a
    well-addressed request that reuses the action's ID for other input always
    gets [ActionIdConflict]. *)
Theorem known_action_replayed e request reply a a' outs o :
  agent_step e (EvCommand (Some (ExecuteCorrelatedControlAction request reply))) a = Some (a', outs) →
  find_correlated a (cr_action_id request) = Some o →
  a' = a ∧ (∃ err, outs = [Ack reply (Err err)] ∨
    outs = [Ack reply (Ok o)] ∧ do_signature (co_action o) = cr_input_signature request) ∧
  (shutting_down a = false → cr_action_id request ≠ "" →
   addressed (ra_replica_id a) (ra_instance_id a) (ra_generation a) request →
   (∀ i, cr_action request ≠ ActRemoveReplicaIntent i) →
   outs = [Ack reply (if decide (do_signature (co_action o) = cr_input_signature request) then Ok o
                      else Err (ActionIdConflict (cr_action_id request)))]).
Proof.
  intros H Hk. unfold agent_step in H. destruct (serve_exits a); [done|]. destruct (command_rx_open a); [|done].
  injection H as H. simpl in H. destruct (shutting_down a) eqn:Hsd.
  { injection H as <- <-. split; [done|]. split; [eexists; by left|done]. }
  pose proof H as Hcases. apply accept_correlated_cases in Hcases as [(err & -> & Ho)|[(o' & -> & Ho & Hf & Hs)|[Had _]]].
  3: { pose proof (ad_new _ _ Had). congruence. }
  all: split; [done|]; (split; [first [exists err; by left|exists Closed; right; by simplify_eq]|]).
  all: intros _ Hne (Hp & Hid & Hi & Hg & Hsig) Hnr; unfold accept_correlated in H.
  all: assert (admit_correlated (rt_epoch (te_rt1 e)) request a =
         if decide (do_signature (co_action o) = cr_input_signature request) then Ok (Some o)
         else Err (ActionIdConflict (cr_action_id request))) as Hadm.
  1, 3: unfold admit_correlated, empty, known_action; rewrite Hp, Hid, Hi, Hg, <-Hsig, !Z.eqb_refl, Hk;
    rewrite (bool_decide_eq_false_2 (cr_action_id request = "")) by done;
    rewrite (bool_decide_eq_true_2 (ra_instance_id a = _)), (bool_decide_eq_true_2 (ra_generation a = _)) by done;
    rewrite (bool_decide_eq_true_2 (cr_input_signature request = cr_input_signature request)) by done; simpl;
    case_decide as Hd; [rewrite (bool_decide_eq_true_2 (do_signature (co_action o) = _)) by done
      |rewrite (bool_decide_eq_false_2 (do_signature (co_action o) = _)) by done]; done.
  all: destruct (cr_action request) eqn:Ha; try (by destruct (Hnr intent)); unfold answer in H; rewrite Hadm in H;
    case_decide; congruence.
Qed.

(** A stage that is spawned: what was checked, and what is then in flight. *)
Lemma accept_peer_stage_spawns now rt1 rt2 rt3 request reply a a' outs pid r :
  accept_peer_stage now rt1 rt2 rt3 request reply a = (a', outs) → SpawnPeerStage pid r ∈ outs →
  r = request ∧ pr_protocol_version request = REPLICA_LIFECYCLE_PEER_PROTOCOL_VERSION ∧
  epoch_ltb (pr_epoch request) (rt_epoch rt3) = false ∧
  ∃ c, active_peer a' = Some c ∧ ap_execution_id c = pid ∧ po_message_id (ap_observation c) = pr_message_id request ∧
    po_state (ap_observation c) = StageInProgress.
Proof.
  unfold accept_peer_stage. destruct (Z.eqb_spec (pr_protocol_version request) REPLICA_LIFECYCLE_PEER_PROTOCOL_VERSION); simpl;
    [|intros [= <- <-]; set_solver].
  destruct (admit_stage _ _ _ _ _ _) as [[]|[[st er]|ob]] eqn:E; [|intros [= <- <-]; set_solver..].
  apply admit_stage_Ok in E as [_ E]. simpl. intros [= <- <-].
  intros [Hin|[Hin|Hin%elem_of_nil]%elem_of_cons]%elem_of_cons; [done| |done]. injection Hin as -> ->.
  split_and!; [done..|]. eexists. by split_and!.
Qed.

Lemma agent_step_identity e ev a a' outs :
  agent_inv a → agent_step e ev a = Some (a', outs) → same_identity a a'.
Proof.
  intros Hinv H. destruct (agent_step_cases _ _ _ _ _ Hinv H) as
    [[_ _ (Hid & _) _]|[(request & reply & _ & _ & [_ _ _ (_ & _ & _ & _ & _ & _ & Hid) _ _ _])|Hst]]; [done..|].
  by destruct Hst as (request & reply & id & o & p & _ & _ & _ & ->).
Qed.

Lemma run_agent_identity evs a a' outs : agent_inv a → run_agent evs a = Some (a', outs) → same_identity a a'.
Proof.
  revert a outs. induction evs as [|[e ev] evs IH]; intros a outs Hinv H; simpl in H; [by injection H as <- _|].
  apply bind_Some in H as ([a1 o1] & Hs & H). apply bind_Some in H as ([a2 o2] & Hr & [= <- _]).
  destruct (agent_step_identity _ _ _ _ _ Hinv Hs) as (E1 & E2 & E3). eapply agent_step_inv in Hs; [|done].
  destruct (IH _ _ Hs Hr) as (F1 & F2 & F3). split_and!; congruence.
Qed.

(** C13. Only one primary at a time drives a target's peer stages: over any
    run the stages the agent accepted name strictly increasing peer control
    versions, and each follows the ones before: its epoch is newer, or it is
    the same and the sender is the same replica, incarnation, process and
    address, so a primary of an older epoch is never served again. And at each
    turn that spawned a stage, it was the stage of that turn's command: of the
    current peer protocol, addressed to this replica, incarnation and process
    generation, expecting the version the agent was at, not known yet, at no
    older epoch than the runtime's, while neither an action nor another stage
    was in flight; it is in flight afterwards and the version has moved on. *)
Theorem peer_senders_fenced evs id inst g :
  Z.of_nat (length evs) ≤ u64_max →
  StronglySorted (λ r s, pr_expected_target_peer_control_version r < pr_expected_target_peer_control_version s ∧
    follows (sender_of r) (sender_of s)) (stage_log evs (agent_new id inst g)) ∧
  ∀ pre e ev post a o a' outs pid r, evs = pre ++ (e, ev) :: post →
    run_agent pre (agent_new id inst g) = Some (a, o) →
    agent_step e ev a = Some (a', outs) → SpawnPeerStage pid r ∈ outs →
    (∃ reply, ev = EvCommand (Some (ExecuteLifecycleStage r reply))) ∧
    pr_protocol_version r = REPLICA_LIFECYCLE_PEER_PROTOCOL_VERSION ∧
    pr_target_replica_id r = id ∧ pr_target_instance_id r = inst ∧ pr_expected_target_agent_generation r = g ∧
    pr_expected_target_peer_control_version r = peer_control_version a ∧
    find_peer_stage a (pr_message_id r) = None ∧ epoch_le (rt_epoch (te_rt3 e)) (pr_epoch r) ∧
    active a = None ∧ active_peer a = None ∧ active a' = None ∧
    peer_control_version a' = u64_saturating_add (peer_control_version a) 1 ∧
    ∃ c, active_peer a' = Some c ∧ ap_execution_id c = pid ∧ po_message_id (ap_observation c) = pr_message_id r ∧
      po_state (ap_observation c) = StageInProgress.
Proof.
  intros Hlen. split; [apply stage_log_follows; [apply agent_new_inv|simpl; lia]|].
  intros pre e ev post a o a' outs pid r _ Hrun Hs Hin. pose proof (agent_new_inv id inst g) as Hinv.
  pose proof (run_agent_identity _ _ _ _ Hinv Hrun) as (I1 & I2 & I3). eapply run_agent_inv in Hrun; [|done].
  destruct (agent_step_cases _ _ _ _ _ Hrun Hs) as [[_ Hns _ _]|[(request & reply & -> & _ & [_ _ _ _ _ _ Hns])|Hst]].
  - by apply Hns in Hin.
  - by apply Hns in Hin.
  - destruct Hst as (request & reply & id' & o' & p & -> & [_ (T1 & T2 & T3) Hnew Hver _ [Hia Hip] _] & Ho & Ha).
    assert (r = request) as ->.
    { rewrite Ho in Hin. apply elem_of_cons in Hin as [Hin|Hin%list_elem_of_singleton]; [done|congruence]. }
    unfold agent_step in Hs. destruct (serve_exits a); [done|]. destruct (command_rx_open a); [|done].
    injection Hs as Hs. simpl in Hs. destruct (shutting_down a); [injection Hs as <- <-; set_solver|].
    pose proof (accept_peer_stage_spawns _ _ _ _ _ _ _ _ _ _ _ Hs Hin) as (_ & Hp & He & c & Hc).
    split; [by eexists|]. simpl in I1, I2, I3. rewrite <-I1, <-I2, <-I3. split_and!; try done; try (by rewrite Ha); [|by exists c].
    unfold epoch_le. unfold epoch_ltb in He. rewrite epoch_cmp_opp. by destruct (epoch_cmp (pr_epoch request) _).
Qed.

End turns.

(** A removal that commits, then a retry of it; and an open refused a second
    launch. *)
Module DemoAgent.
#[local] Existing Instance DemoRemove.ends.
Definition runtime : RuntimeControlSnapshot :=
  mkRuntimeControlSnapshot "i1" Primary (mkEpoch 1 2) (Some (previous_status DemoRemove.intent)) None None None None
    (Some (PState.set_write_status Granted PState.new)).
Definition env : TurnEnv := mkTurnEnv 900 runtime runtime runtime.
Definition request : CorrelatedControlActionRequest :=
  mkCorrelatedControlActionRequest 3 "act" (remove_signature DemoRemove.intent) 1 "i1" "g1" 0 (mkEpoch 1 2)
    (ActRemoveReplicaIntent DemoRemove.intent).
Definition coordinator (sequence : Z) : CoordinatorExecutionId := mkCoordinatorExecutionId "g1" "act" "try" sequence.
Definition removal : list (TurnEnv * AgentEvent) :=
  (env,.) <$>
    [EvCommand (Some (ExecuteCorrelatedControlAction request 5));
     EvCoordinator (mkCoordinatorEvent (coordinator 1) (RemoveProgress DemoRemove.clean));
     EvCommand (Some (ExecuteCorrelatedControlAction request 6));
     EvCoordinator (mkCoordinatorEvent (coordinator 1) (RemoveTerminal (Ok CommittedClean)));
     EvCommand (Some (GetStatus 7)); EvShutdown].
Definition start : ReplicaAgent := agent_new 1 "i1" "g1".
Definition open_request (id : string) : CorrelatedControlActionRequest :=
  mkCorrelatedControlActionRequest 3 id "open:New" 1 "i1" "g1" 0 (mkEpoch 1 2) (ActOpen OpenNew).
Definition opening : list (TurnEnv * AgentEvent) :=
  (env,.) <$>
    [EvCommand (Some (ExecuteCorrelatedControlAction (open_request "o") 5));
     EvCommand (Some (ExecuteCorrelatedControlAction (open_request "p") 6));
     EvCommand (Some (ExecuteCorrelatedControlAction (open_request "o") 7));
     EvCompletion (mkRuntimeEffectExecutionId "g1" 1) (Ok EffUnit)].
Definition opened : ReplicaAgent * list AgentOut := default (start, []) (run_agent opening start).
Definition ended : ReplicaAgent * list AgentOut := default (start, []) (run_agent removal start).
Definition stage (message : string) (version : Z) : PeerStageRequest :=
  let unsigned (signature : string) :=
    mkPeerStageRequest 2 AddBuild 1 "op" "try" message signature Prepare 2 "i2" "g2" "http://c2" "parent" "psig"
      1 "i1" "g1" version (mkEpoch 1 2) "fence" None None None None None None in
  unsigned (request_signature (unsigned "")).
Definition staging : list (TurnEnv * AgentEvent) :=
  (env,.) <$>
    [EvCommand (Some (ExecuteLifecycleStage (stage "m1" 0) 5));
     EvPeerCompletion (mkRuntimeEffectExecutionId "g1" 1) StageCompleted None;
     EvCommand (Some (ExecuteLifecycleStage (stage "m2" 1) 6))].
End DemoAgent.
#[local] Existing Instance DemoRemove.ends.

Lemma launches_fenced_and_unique_witness :
  launch_log DemoAgent.opening DemoAgent.start = [DemoAgent.open_request "o"] ∧
  Forall (addressed 1 "i1" "g1") (launch_log DemoAgent.opening DemoAgent.start).
Proof.
  split; [vm_compute; reflexivity|].
  assert (Z.of_nat (length DemoAgent.opening) ≤ u64_max) as Hl by (vm_compute; discriminate).
  destruct (launches_fenced_and_unique DemoAgent.opening 1 "i1" "g1" Hl) as (_ & H & _). exact H.
Defined.

Lemma agent_answers_all_witness :
  run_agent DemoAgent.opening DemoAgent.start = Some DemoAgent.opened ∧ answered DemoAgent.opened.2 ≡ₚ [5; 6; 7]%positive.
Proof.
  assert (run_agent DemoAgent.opening DemoAgent.start = Some DemoAgent.opened) as H by (vm_compute; reflexivity).
  split; [exact H|]. rewrite (surjective_pairing DemoAgent.opened) in H.
  destruct (agent_answers_all _ _ _ _ _ _ H) as [Hp _].
  assert (held DemoAgent.opened.1 = []) as Hh by (vm_compute; reflexivity). rewrite Hh, app_nil_r in Hp. exact Hp.
Defined.

Lemma agent_keeps_evidence_witness :
  ∃ o r i p, terminals DemoAgent.ended.1 = [o] ∧ do_result (co_action o) = Some (ResRemoveReplica r) ∧
    do_remove_replica_progress (co_action o) = Some p ∧ terminal_evidence i p r.
Proof.
  assert (run_agent DemoAgent.removal DemoAgent.start = Some DemoAgent.ended) as H by (vm_compute; reflexivity).
  rewrite (surjective_pairing DemoAgent.ended) in H.
  destruct (agent_keeps_evidence _ _ _ _ _ _ H) as (_ & _ & _ & _ & Hk).
  assert (option_map (λ o, do_result (co_action o)) (head (terminals DemoAgent.ended.1)) =
    Some (Some (ResRemoveReplica CommittedClean)) ∧ tail (terminals DemoAgent.ended.1) = []) as [Hh Ht]
    by (vm_compute; split; reflexivity).
  destruct (terminals DemoAgent.ended.1) as [|o l]; [discriminate Hh|]. simpl in Hh, Ht. subst l.
  injection Hh as Hr. destruct (Hk o) as [_ Ho]; [left|]. destruct (Ho _ Hr) as (i & p & _ & Hp & He).
  exists o, CommittedClean, i, p. split_and!; [reflexivity|exact Hr|exact Hp|exact He].
Defined.

Lemma known_action_replayed_witness :
  ∃ o, find_correlated DemoAgent.opened.1 "o" = Some o ∧
    agent_step DemoAgent.env (EvCommand (Some (ExecuteCorrelatedControlAction (DemoAgent.open_request "o") 9)))
      DemoAgent.opened.1 = Some (DemoAgent.opened.1, [Ack 9 (Ok o)]).
Proof.
  destruct (find_correlated DemoAgent.opened.1 "o") as [o|] eqn:Hk; [|vm_compute in Hk; discriminate Hk].
  exists o. split; [reflexivity|].
  destruct (agent_step DemoAgent.env (EvCommand (Some (ExecuteCorrelatedControlAction (DemoAgent.open_request "o") 9)))
      DemoAgent.opened.1) as [[a outs]|] eqn:Hs; [|vm_compute in Hs; discriminate Hs].
  destruct (known_action_replayed _ _ _ _ _ _ o Hs Hk) as (-> & _ & Hr). rewrite Hr.
  - assert (do_signature (co_action o) = "open:New") as Hd.
    { assert (option_map (λ o, do_signature (co_action o)) (find_correlated DemoAgent.opened.1 "o") = Some "open:New") as E
        by (vm_compute; reflexivity). rewrite Hk in E. injection E as E. exact E. }
    rewrite Hd. reflexivity.
  - vm_compute. reflexivity.
  - discriminate.
  - vm_compute. repeat split; reflexivity.
  - intros i Hi. discriminate Hi.
Defined.

Lemma peer_senders_fenced_witness :
  (pr_message_id <$> stage_log DemoAgent.staging DemoAgent.start) = ["m1"; "m2"] ∧
  StronglySorted (λ r s, pr_expected_target_peer_control_version r < pr_expected_target_peer_control_version s ∧
    follows (sender_of r) (sender_of s)) (stage_log DemoAgent.staging DemoAgent.start).
Proof.
  split; [vm_compute; reflexivity|].
  assert (Z.of_nat (length DemoAgent.staging) ≤ u64_max) as Hl by (vm_compute; discriminate).
  destruct (peer_senders_fenced DemoAgent.staging 1 "i1" "g1" Hl) as [H _]. exact H.
Defined.
