(* ===== verification/Task.v ===== *)
(** Asynchronous tasks: a task asks its environment one question after the
    other and goes on with whatever it is answered. Clocks, other tasks,
    channels and peers are the environment, so a statement about every answer
    is one about every behaviour of the rest of the system. *)

From S2P Require Import Prelude.

Set Default Goal Selector "!".

Section task.
  Context {Q : Type} {R : Q → Type}.

(** [Call q k]: ask [q], then go on as [k] of the answer. *)
Inductive task (A : Type) :=
| Ret (a : A)
| Call (q : Q) (k : R q → task A).
#[global] Arguments Ret {A} a.
#[global] Arguments Call {A} q k.

Definition event := sigT R.

Fixpoint task_bind {A B} (f : A → task B) (t : task A) : task B :=
  match t with
  | Ret a => f a
  | Call q k => Call q (λ r, task_bind f (k r))
  end.

Definition ask (q : Q) : task (R q) := Call q Ret.

(** [wp t post h]: from history [h], whatever the answers, the task ends, in a
    history and with a result that satisfy [post]. *)
Fixpoint wp {A} (t : task A) (post : list event → A → Prop) (h : list event) : Prop :=
  match t with
  | Ret a => post h a
  | Call q k => ∀ r, wp (k r) post (h ++ [existT q r])
  end.

(** One run, answered by an oracle that knows the history. *)
Fixpoint exec {A} (oracle : list event → ∀ q, R q) (t : task A) (h : list event) : list event * A :=
  match t with
  | Ret a => (h, a)
  | Call q k => let r := oracle h q in exec oracle (k r) (h ++ [existT q r])
  end.

Lemma wp_exec {A} (t : task A) post oracle h :
  wp t post h → post (exec oracle t h).1 (exec oracle t h).2.
Proof. revert h. induction t as [a|q k IH]; intros h H; simpl in *; [done|]. apply IH, H. Qed.

Lemma wp_mono {A} (t : task A) (post post' : list event → A → Prop) h :
  wp t post h → (∀ h a, post h a → post' h a) → wp t post' h.
Proof. intros H Hp. revert h H. induction t as [a|q k IH]; intros h H; simpl in *; [by apply Hp|]. intros r. apply IH, H. Qed.

Lemma wp_bind {A B} (f : A → task B) (t : task A) post h :
  wp t (λ h a, wp (f a) post h) h → wp (task_bind f t) post h.
Proof. revert h. induction t as [a|q k IH]; intros h H; simpl in *; [done|]. intros r. apply IH, H. Qed.

(** Histories only grow. *)
Lemma wp_grows {A} (t : task A) h : wp t (λ h' _, ∃ l, h' = h ++ l) h.
Proof.
  revert h. induction t as [a|q k IH]; intros h; simpl; [exists []; by rewrite app_nil_r|].
  intros r. eapply wp_mono; [apply IH|]. intros h' a [l ->]. exists ([existT q r] ++ l). by rewrite <-app_assoc.
Qed.

(** What holds of a history and of all it grows to is kept. *)
Lemma wp_frame {A} (F : list event → Prop) (t : task A) post h :
  (∀ h l, F h → F (h ++ l)) → F h → wp t post h → wp t (λ h a, post h a ∧ F h) h.
Proof.
  intros HF. revert h. induction t as [a|q k IH]; intros h Hf H; simpl in *; [done|]. intros r. apply IH; [by apply HF|done].
Qed.

(** The same where only some answers occur. *)
Fixpoint wp_under {A} (env : list event → ∀ q, R q → Prop) (t : task A) (post : list event → A → Prop) (h : list event) : Prop :=
  match t with
  | Ret a => post h a
  | Call q k => ∀ r, env h q r → wp_under env (k r) post (h ++ [existT q r])
  end.

Lemma wp_under_exec {A} env (t : task A) post oracle h :
  (∀ h q, env h q (oracle h q)) → wp_under env t post h → post (exec oracle t h).1 (exec oracle t h).2.
Proof. intros He. revert h. induction t as [a|q k IH]; intros h H; simpl in *; [done|]. apply IH, H, He. Qed.

Lemma wp_under_mono {A} env (t : task A) (post post' : list event → A → Prop) h :
  wp_under env t post h → (∀ h a, post h a → post' h a) → wp_under env t post' h.
Proof.
  intros H Hp. revert h H. induction t as [a|q k IH]; intros h H; simpl in *; [by apply Hp|]. intros r Hr. by apply IH, H.
Qed.

Lemma wp_under_bind {A B} env (f : A → task B) (t : task A) post h :
  wp_under env t (λ h a, wp_under env (f a) post h) h → wp_under env (task_bind f t) post h.
Proof. revert h. induction t as [a|q k IH]; intros h H; simpl in *; [done|]. intros r Hr. by apply IH, H. Qed.

(** Tasks that may fail: [?]. *)
Definition try_task (E A : Type) := task (result E A).
Definition ok {E A} (a : A) : try_task E A := Ret (Ok a).
Definition fail {E A} (e : E) : try_task E A := Ret (Err e).
Definition lift {E A} (r : result E A) : try_task E A := Ret r.
Definition and_then {E A B} (t : try_task E A) (f : A → try_task E B) : try_task E B :=
  task_bind (λ r, match r with Ok a => f a | Err e => fail e end) t.
Definition await {E} (q : Q) : try_task E (R q) := Call q (λ r, Ret (Ok r)).

Lemma wp_and_then {E A B} (t : try_task E A) (f : A → try_task E B) post h :
  wp t (λ h r, match r with Ok a => wp (f a) post h | Err e => post h (Err e) end) h → wp (and_then t f) post h.
Proof. intros H. apply wp_bind. eapply wp_mono; [exact H|]. intros h' [a|e]; done. Qed.

(** Tasks that own a state, may fail, and may loop for as long as they like: a
    loop is unfolded [fuel] times and is then found [Looping]. *)
Inductive outcome (E A : Type) :=
| Done (a : A)
| Fails (e : E)
| Looping.
#[global] Arguments Done {E A} a.
#[global] Arguments Fails {E A} e.
#[global] Arguments Looping {E A}.

Definition stateful (S E A : Type) : Type := S → task (S * outcome E A).

Section stateful.
  Context {S E : Type}.

Definition sret {A} (a : A) : stateful S E A := λ s, Ret (s, Done a).
Definition sfail {A} (e : E) : stateful S E A := λ s, Ret (s, Fails e).
Definition slift {A} (r : result E A) : stateful S E A :=
  match r with Ok a => sret a | Err e => sfail e end.
Definition get {A} (f : S → A) : stateful S E A := λ s, Ret (s, Done (f s)).
Definition update (f : S → S) : stateful S E unit := λ s, Ret (f s, Done tt).
Definition sask (q : Q) : stateful S E (R q) := λ s, Call q (λ r, Ret (s, Done r)).

Definition sbind {A B} (t : stateful S E A) (f : A → stateful S E B) : stateful S E B := λ s,
  task_bind (λ r, match r.2 with
                  | Done a => f a r.1
                  | Fails e => Ret (r.1, Fails e)
                  | Looping => Ret (r.1, Looping)
                  end) (t s).

(** The result of a task, taken as a value. *)
Definition attempt {A} (t : stateful S E A) : stateful S E (result E A) := λ s,
  task_bind (λ r, Ret (r.1, match r.2 with Done a => Done (Ok a) | Fails e => Done (Err e) | Looping => Looping end)) (t s).

(** [None] goes round again. *)
Fixpoint loop {A} (fuel : nat) (body : stateful S E (option A)) : stateful S E A :=
  match fuel with
  | O => λ s, Ret (s, Looping)
  | Datatypes.S fuel => sbind body (λ r, match r with Some a => sret a | None => loop fuel body end)
  end.

(** [leads good bad]: what holds where the task is done and where it failed;
    found looping, [sound] holds. *)
Definition assertion := list event → S → Prop.

Definition leads {A} (sound : assertion) (good : list event → S → A → Prop) (bad : assertion) (h : list event)
    (r : S * outcome E A) : Prop :=
  match r.2 with Done a => good h r.1 a | Fails _ => bad h r.1 | Looping => sound h r.1 end.

Lemma leads_mono {A} (sound : assertion) (t : stateful S E A) s h good good' (bad bad' : assertion) :
  wp (t s) (leads sound good bad) h → (∀ h s a, good h s a → good' h s a) → (∀ h s, bad h s → bad' h s) →
  wp (t s) (leads sound good' bad') h.
Proof.
  intros H Hg Hb. eapply wp_mono; [exact H|]. intros h' [s' [a|e|]]; unfold leads; simpl; [apply Hg|apply Hb|done].
Qed.

(** In sequence, with a condition [mid] in between. *)
Lemma wp_sbind {A B} (sound bad : assertion) (t : stateful S E A) (f : A → stateful S E B) mid good s h :
  wp (t s) (leads sound mid bad) h → (∀ h s a, mid h s a → wp (f a s) (leads sound good bad) h) →
  wp (sbind t f s) (leads sound good bad) h.
Proof.
  intros Ht Hf. apply wp_bind. eapply wp_mono; [exact Ht|]. intros h' [s' [a|e|]]; unfold leads; simpl; [apply Hf|done|done].
Qed.

Lemma wp_sret {A} (sound bad : assertion) (good : list event → S → A → Prop) a s h :
  good h s a → wp (sret a s) (leads sound good bad) h.
Proof. done. Qed.
Lemma wp_sfail {A} (sound bad : assertion) (good : list event → S → A → Prop) e s h :
  bad h s → wp (sfail e s) (leads sound good bad) h.
Proof. done. Qed.

Lemma wp_sask {B} (sound bad : assertion) q (f : R q → stateful S E B) good s h :
  (∀ r, wp (f r s) (leads sound good bad) (h ++ [existT q r])) → wp (sbind (sask q) f s) (leads sound good bad) h.
Proof. done. Qed.

Lemma wp_slift {A B} (sound bad : assertion) (r : result E A) (f : A → stateful S E B) good s h :
  bad h s → (∀ a, r = Ok a → wp (f a s) (leads sound good bad) h) → wp (sbind (slift r) f s) (leads sound good bad) h.
Proof. intros Hb Hf. destruct r as [a|e]; [by apply Hf|done]. Qed.

Lemma wp_update {B} (sound bad : assertion) g (f : unit → stateful S E B) good s h :
  wp (f tt (g s)) (leads sound good bad) h → wp (sbind (update g) f s) (leads sound good bad) h.
Proof. done. Qed.

Lemma wp_get {A B} (sound bad : assertion) (g : S → A) (f : A → stateful S E B) good s h :
  wp (f (g s) s) (leads sound good bad) h → wp (sbind (get g) f s) (leads sound good bad) h.
Proof. done. Qed.

Lemma wp_attempt {A} (sound bad bad' : assertion) (t : stateful S E A) good s h :
  wp (t s) (leads sound good bad) h →
  wp (attempt t s) (leads sound (λ h s r, match r with Ok a => good h s a | Err _ => bad h s end) bad') h.
Proof.
  intros H. apply wp_bind. eapply wp_mono; [exact H|]. intros h' [s' [a|e|]]; done.
Qed.

Lemma wp_loop {A} (sound bad inv : assertion) (body : stateful S E (option A)) (good : list event → S → A → Prop) fuel :
  (∀ h s, inv h s → sound h s) →
  (∀ h s, inv h s →
     wp (body s) (leads sound (λ h s r, match r with Some a => good h s a | None => inv h s end) bad) h) →
  ∀ h s, inv h s → wp (loop fuel body s) (leads sound good bad) h.
Proof.
  intros Hs Hb. induction fuel as [|fuel IH]; intros h s H; simpl; [by apply Hs|].
  eapply wp_sbind; [by apply Hb|]. intros h' s' [a|] H'; [done|by apply IH].
Qed.

(** *** Termination *)

(** Done or failed, with [inv] kept: not found looping. *)
Definition ends {A} (inv : assertion) (good : list event → S → A → Prop) (h : list event) (r : S * outcome E A) : Prop :=
  inv h r.1 ∧ match r.2 with Done a => good h r.1 a | Fails _ => True | Looping => False end.

Definition terminates {A} (env : list event → ∀ q, R q → Prop) (inv : assertion) (t : stateful S E A) : Prop :=
  ∀ h s, inv h s → wp_under env (t s) (ends inv (λ _ _ _, True)) h.

Section terminates.
  Context (env : list event → ∀ q, R q → Prop) (inv : assertion).

Lemma ends_sbind {A B} (t : stateful S E A) (f : A → stateful S E B) mid good s h :
  wp_under env (t s) (ends inv mid) h →
  (∀ h s a, inv h s → mid h s a → wp_under env (f a s) (ends inv good) h) → wp_under env (sbind t f s) (ends inv good) h.
Proof.
  intros Ht Hf. apply wp_under_bind. eapply wp_under_mono; [exact Ht|].
  intros h' [s' [a|e|]] [Hi H]; simpl in *; [by apply Hf|done|done].
Qed.

Lemma ends_get {A B} (g : S → A) (f : A → stateful S E B) good s h :
  wp_under env (f (g s) s) (ends inv good) h → wp_under env (sbind (get g) f s) (ends inv good) h.
Proof. done. Qed.
Lemma ends_update {B} g (f : unit → stateful S E B) good s h :
  wp_under env (f tt (g s)) (ends inv good) h → wp_under env (sbind (update g) f s) (ends inv good) h.
Proof. done. Qed.
Lemma ends_slift {A B} (r : result E A) (f : A → stateful S E B) good s h :
  inv h s → (∀ a, r = Ok a → wp_under env (f a s) (ends inv good) h) → wp_under env (sbind (slift r) f s) (ends inv good) h.
Proof. intros Hi Hf. destruct r as [a|e]; [by apply Hf|done]. Qed.

Lemma terminates_sbind {A B} (t : stateful S E A) (f : A → stateful S E B) :
  terminates env inv t → (∀ a, terminates env inv (f a)) → terminates env inv (sbind t f).
Proof. intros Ht Hf h s Hi. eapply ends_sbind; [by apply Ht|]. intros h' s' a Hi' _. by apply Hf. Qed.

Lemma terminates_slift_bind {A B} (r : result E A) (f : A → stateful S E B) :
  (∀ a, r = Ok a → terminates env inv (f a)) → terminates env inv (sbind (slift r) f).
Proof. intros Hf h s Hi. apply ends_slift; [done|]. intros a Ha. by apply Hf. Qed.

Lemma terminates_sret {A} (a : A) : terminates env inv (sret a).
Proof. intros h s Hi. done. Qed.
Lemma terminates_sfail {A} (e : E) : terminates env inv (sfail (A := A) e).
Proof. intros h s Hi. done. Qed.
Lemma terminates_slift {A} (r : result E A) : terminates env inv (slift r).
Proof. by destruct r; intros h s Hi. Qed.
Lemma terminates_get {A} (f : S → A) : terminates env inv (get f).
Proof. intros h s Hi. done. Qed.
Lemma terminates_update f : (∀ h s, inv h s → inv h (f s)) → terminates env inv (update f).
Proof. intros Hf h s Hi. split; [by apply Hf|done]. Qed.
Lemma terminates_sask q : (∀ h s r, env h q r → inv h s → inv (h ++ [existT q r]) s) → terminates env inv (sask q).
Proof. intros Hf h s Hi r Hr. split; [by apply Hf|done]. Qed.
Lemma terminates_attempt {A} (t : stateful S E A) : terminates env inv t → terminates env inv (attempt t).
Proof.
  intros Ht h s Hi. apply wp_under_bind. eapply wp_under_mono; [by apply Ht|].
  intros h' [s' [a|e|]] [Hi' H]; simpl in *; by split.
Qed.
End terminates.

(** Every turn that goes on comes closer to [bound]: a loop with more fuel
    than there are steps left ends. *)
Lemma loop_terminates {A} env (inv : nat → assertion) bound fuel (body : stateful S E (option A)) :
  (∀ n h s, inv (Datatypes.S n) h s → inv n h s) →
  (∀ n h s, inv n h s →
     wp_under env (body s) (ends (inv n) (λ h s r, r = None → (n < bound)%nat ∧ inv (Datatypes.S n) h s)) h) →
  ∀ n, (n ≤ bound < fuel + n)%nat → terminates env (inv n) (loop fuel body).
Proof.
  intros Hmono Hbody. induction fuel as [|fuel IH]; intros n Hn h s Hi; [lia|].
  cbn [loop]. eapply ends_sbind; [by apply Hbody|]. clear h s Hi. intros h s [a|] Hi H; [done|].
  destruct (H eq_refl) as [Hb Hi']. eapply wp_under_mono; [apply (IH (Datatypes.S n)); [lia|done]|].
  intros h' [s' [a|e|]] [Hi'' H']; simpl in *; split; auto.
Qed.

End stateful.

End task.
Arguments task Q R A : clear implicits.
Arguments try_task Q R E A : clear implicits.
Arguments stateful Q R S E A : clear implicits.
Arguments event Q R : clear implicits.

Declare Scope task_scope.
Delimit Scope task_scope with task.
Notation "x ←? t ; f" := (and_then t (λ x, f)) (at level 20, t at level 100, f at level 200, right associativity) : task_scope.
Notation "t ;? f" := (and_then t (λ _, f)) (at level 100, f at level 200, right associativity) : task_scope.
Notation "x ←! t ; f" := (sbind t (λ x, f)) (at level 20, t at level 100, f at level 200, right associativity) : task_scope.
Notation "t ;! f" := (sbind t (λ _, f)) (at level 100, f at level 200, right associativity) : task_scope.
