(* ===== verification/PeerStage.v ===== *)
(** A lifecycle peer stage at its target (kuberic-core/src/replica_agent.rs,
    [run_peer_stage]): the runtime effects that prepare, activate, clean up or
    retire a replica, each only for a sender that is still the exact active
    primary. *)

From S2P Require Import Prelude Types Quorum Replicator Lifecycle AddReplica RemoveReplica Control Agent Task.

Set Default Goal Selector "!".
Local Open Scope task_scope.

Inductive PeerStageRunError :=
| StageIsStale (message : string)
| StageHasFailed (message : string).

(** What became of asking the sender for its status. *)
Inductive SenderAnswer :=
| ConnectFailed (message : string)
| BudgetExpired
| StatusTimedOut
| StatusFailed (message : string)
| SenderStatus (s : ReplicaStatusInfo).

(** What became of an effect sent to the runtime. *)
Inductive EffectAnswer :=
| RuntimeClosed
| ReplyClosed
| EffectReplied (r : result KubericError RuntimeEffectResult)
| EffectTimedOut.

Inductive stage_call :=
| AskNow
| AskSender (budget : Z)
| BorrowRuntime
| SendEffect (e : RuntimeEffect)
| SendEffectWithin (budget : Z) (e : RuntimeEffect).

Definition stage_answer (c : stage_call) : Type :=
  match c with
  | AskNow => Z
  | AskSender _ => SenderAnswer
  | BorrowRuntime => RuntimeControlSnapshot
  | SendEffect _ | SendEffectWithin _ _ => EffectAnswer
  end.

Abbreviation stage := (try_task stage_call stage_answer PeerStageRunError) (only parsing).

Definition sender_status (r : SenderAnswer) : result PeerStageRunError ReplicaStatusInfo :=
  match r with
  | ConnectFailed m | StatusFailed m => Err (StageIsStale m)
  | BudgetExpired => Err (StageIsStale "sender authorization budget expired while connecting")
  | StatusTimedOut => Err (StageIsStale "sender status timed out")
  | SenderStatus s => Ok s
  end.

Definition effect_result (r : EffectAnswer) : result PeerStageRunError unit :=
  match r with
  | RuntimeClosed => Err (StageHasFailed "target runtime closed")
  | ReplyClosed => Err (StageHasFailed "target runtime reply closed")
  | EffectReplied (Ok EffUnit) => Ok tt
  | EffectReplied (Ok (EffDataLoss _)) => Err (StageHasFailed "unexpected data-loss result for peer stage")
  | EffectReplied (Err e) => Err (StageHasFailed (error_to_string e))
  | EffectTimedOut => Err (StageHasFailed "target Retire runtime effect timed out")
  end.

Definition send_runtime_effect (e : RuntimeEffect) : stage unit :=
  r ←? await (SendEffect e);
  lift (effect_result r).

Definition peer_sender_authorization_budget (request : PeerStageRequest) : stage Z :=
  if decide (pr_stage request ≠ Retire) then ok 5
  else
    expiry ←? lift (ok_or (pr_retirement_expiry_unix_seconds request)
                (StageIsStale "Retire stage has no signed retirement expiry"));
    now ←? await AskNow;
    let remaining := i64_saturating_sub expiry now in
    if remaining <=? 0 then fail (StageIsStale "Retire stage deadline has expired")
    else ok (Z.min remaining REMOVE_REPLICA_CALL_TIMEOUT_SECONDS).

Definition send_retire_runtime_effect (request : PeerStageRequest) (e : RuntimeEffect) : stage unit :=
  timeout ←? peer_sender_authorization_budget request;
  r ←? await (SendEffectWithin timeout e);
  lift (effect_result r).

Definition exact_member (request : PeerStageRequest) (m : ReplicaConfigurationMemberStatus) : bool :=
  (cm_id m =? pr_target_replica_id request) && bool_decide (cm_instance_id m = pr_target_instance_id request).

(** The sender still runs the parent action of the request. *)
Definition parent_matches (request : PeerStageRequest) (s : ReplicaStatusInfo) : bool :=
  match as_current_action (si_agent s) with
  | Some o =>
      bool_decide (do_action_id (co_action o) = pr_parent_action_id request)
      && bool_decide (do_signature (co_action o) = pr_parent_action_signature request)
      && bool_decide (do_state (co_action o) = Scheduled ∨ do_state (co_action o) = InProgress)
  | None => false
  end.

Definition check_sender (request : PeerStageRequest) (cleanup : bool) (s : ReplicaStatusInfo) :
    result PeerStageRunError unit :=
  reject_if (negb (bool_decide (si_instance_id s = pr_sender_instance_id request))
             || negb (bool_decide (as_generation (si_agent s) = pr_sender_agent_generation request))
             || negb (bool_decide (si_role s = Primary)) || negb (bool_decide (si_epoch s = pr_epoch request))
             || negb (bool_decide (si_write_status s = Granted)))
    (StageIsStale "sender is not the exact active unrevoked primary");;
  reject_if (negb (parent_matches request s))
    (StageIsStale "sender does not expose the exact active parent action");;
  (if decide (pr_stage request = Retire) then
     configuration ← ok_or (si_configuration s)
       (StageIsStale "sender does not expose the reduced Current configuration");
     reject_if (negb (bool_decide (cs_mode configuration = Current)))
       (StageIsStale "sender configuration is CatchUp rather than Current");;
     reject_if (existsb (exact_member request) (cs_members configuration))
       (StageIsStale "exact target remains in the primary Current configuration");;
     reject_if (negb (bool_decide (pr_reduced_current_projection request = Some configuration)))
       (StageIsStale "sender Current configuration differs from the signed reduced projection")
   else Ok tt);;
  reject_if (cleanup && match si_configuration s with
                        | Some c => bool_decide (cs_mode c = Current) && existsb (exact_member request) (cs_members c)
                        | None => false
                        end)
    (StageIsStale "target is already present in the primary current configuration").

Definition authorize_peer_sender (request : PeerStageRequest) (cleanup : bool) : stage unit :=
  budget ←? peer_sender_authorization_budget request;
  r ←? await (AskSender budget);
  lift (s ← sender_status r; check_sender request cleanup s).

Definition validate_retire_target_runtime (request : PeerStageRequest) (rt : RuntimeControlSnapshot) :
    result PeerStageRunError unit :=
  reject_if (negb (bool_decide (rt_instance_id rt = pr_target_instance_id request)))
    (StageIsStale "target runtime incarnation changed during Retire");;
  reject_if (negb (bool_decide (rt_epoch rt = pr_epoch request)))
    (StageIsStale "target runtime epoch changed during Retire").

Definition secondary_role (r : Role) : bool :=
  match r with IdleSecondary | ActiveSecondary => true | _ => false end.

Definition stale {A} (message : string) : stage A := fail (StageIsStale message).

Definition prepare_stage (request : PeerStageRequest) : stage unit :=
  authorize_peer_sender request false;?
  rt ←? await BorrowRuntime;
  (if none (rt_partition_state rt) then send_runtime_effect (EffOpen OpenNew) else ok tt);?
  authorize_peer_sender request false;?
  rt ←? await BorrowRuntime;
  let current_epoch := rt_epoch rt in
  (if epoch_ltb (pr_epoch request) current_epoch then
     stale ("target epoch " +:+ epoch_debug current_epoch +:+ " is newer than request " +:+ epoch_debug (pr_epoch request))
   else if epoch_ltb current_epoch (pr_epoch request) then send_runtime_effect (EffUpdateEpoch (pr_epoch request))
   else ok tt);?
  authorize_peer_sender request false;?
  rt ←? await BorrowRuntime;
  if negb (bool_decide (rt_epoch rt = pr_epoch request)) then stale "target epoch did not reach peer request epoch"
  else
    match rt_role rt with
    | IdleSecondary | ActiveSecondary => ok tt
    | Unknown => send_runtime_effect (EffChangeRole (pr_epoch request) IdleSecondary)
    | role => stale ("target role " +:+ role_debug role +:+ " is incompatible with prepare")
    end.

Definition activate_stage (request : PeerStageRequest) : stage unit :=
  authorize_peer_sender request false;?
  rt ←? await BorrowRuntime;
  if negb (bool_decide (rt_epoch rt = pr_epoch request)) then stale "target epoch is incompatible with activation"
  else
    copy_lsn ←? lift (ok_or (pr_copy_lsn request) (StageHasFailed "activation has no copy LSN"));
    let current_progress := default 0 (PState.current_progress <$> rt_partition_state rt) in
    if current_progress <? copy_lsn then
      stale ("target progress " +:+ pretty current_progress +:+ " is below copy LSN " +:+ pretty copy_lsn)
    else
      match rt_role rt with
      | ActiveSecondary => ok tt
      | IdleSecondary => send_runtime_effect (EffChangeRole (pr_epoch request) ActiveSecondary)
      | role => stale ("target role " +:+ role_debug role +:+ " is incompatible with activation")
      end.

Definition cleanup_stage (request : PeerStageRequest) : stage unit :=
  authorize_peer_sender request true;?
  rt ←? await BorrowRuntime;
  if none (rt_partition_state rt) then ok tt
  else if negb (bool_decide (rt_epoch rt = pr_epoch request)) then stale "target epoch is incompatible with cleanup"
  else
    (if secondary_role (rt_role rt) then send_runtime_effect (EffChangeRole (pr_epoch request) RoleNone) else ok tt);?
    authorize_peer_sender request true;?
    rt ←? await BorrowRuntime;
    if negb (none (rt_partition_state rt)) then send_runtime_effect EffClose else ok tt.

(** The second half of Retire, once the role is None. *)
Definition retire_close (request : PeerStageRequest) : stage unit :=
  authorize_peer_sender request false;?
  rt ←? await BorrowRuntime;
  lift (validate_retire_target_runtime request rt);?
  if retire_postcondition_holds rt request then ok tt
  else if negb (bool_decide (rt_role rt = RoleNone)) then stale "target did not reach role None before Retire close"
  else
    (if negb (none (rt_partition_state rt)) then send_retire_runtime_effect request EffClose else ok tt);?
    rt ←? await BorrowRuntime;
    lift (validate_retire_target_runtime request rt);?
    if negb (retire_postcondition_holds rt request) then
      fail (StageHasFailed "target Retire close completed without the exact closed postcondition")
    else ok tt.

Definition retire_stage (request : PeerStageRequest) : stage unit :=
  authorize_peer_sender request false;?
  rt ←? await BorrowRuntime;
  lift (validate_retire_target_runtime request rt);?
  if retire_postcondition_holds rt request then ok tt
  else
    (if secondary_role (rt_role rt) then
       send_retire_runtime_effect request (EffChangeRole (pr_epoch request) RoleNone)
     else if negb (bool_decide (rt_role rt = RoleNone)) then
       stale ("target role " +:+ role_debug (rt_role rt) +:+ " is incompatible with Retire")
     else ok tt);?
    retire_close request.

Definition run_peer_stage (request : PeerStageRequest) : stage unit :=
  match pr_stage request with
  | Prepare => prepare_stage request
  | Activate => activate_stage request
  | Cleanup => cleanup_stage request
  | Retire => retire_stage request
  end.

(** What the spawned task reports to the agent; shutdown may cancel it at any
    question, which leaves its effects as they are. *)
Definition stage_completion (r : result PeerStageRunError unit) : PeerStageState * option string :=
  match r with
  | Ok _ => (StageCompleted, None)
  | Err (StageIsStale m) => (StageStale, Some (normalize m))
  | Err (StageHasFailed m) => (StageFailed, Some (normalize m))
  end.

(** ** What a run shows *)

(** The last runtime seen calls for this effect of the stage. *)
Definition called_for (request : PeerStageRequest) (rt : RuntimeControlSnapshot) (e : RuntimeEffect) : bool :=
  match pr_stage request, e with
  | Prepare, EffOpen OpenNew => none (rt_partition_state rt)
  | Prepare, EffUpdateEpoch epoch => bool_decide (epoch = pr_epoch request) && epoch_ltb (rt_epoch rt) epoch
  | Prepare, EffChangeRole epoch role =>
      bool_decide (epoch = pr_epoch request ∧ role = IdleSecondary ∧ rt_epoch rt = epoch ∧ rt_role rt = Unknown)
  | Activate, EffChangeRole epoch role =>
      bool_decide (epoch = pr_epoch request ∧ role = ActiveSecondary ∧ rt_epoch rt = epoch ∧ rt_role rt = IdleSecondary)
      && match pr_copy_lsn request with
         | Some lsn => lsn <=? default 0 (PState.current_progress <$> rt_partition_state rt)
         | None => false
         end
  | Cleanup, EffChangeRole epoch role =>
      bool_decide (epoch = pr_epoch request ∧ role = RoleNone ∧ rt_epoch rt = epoch) && secondary_role (rt_role rt)
  | Cleanup, EffClose => negb (none (rt_partition_state rt))
  | Retire, EffChangeRole epoch role =>
      bool_decide (epoch = pr_epoch request ∧ role = RoleNone ∧ rt_epoch rt = epoch ∧
                   rt_instance_id rt = pr_target_instance_id request) && secondary_role (rt_role rt)
  | Retire, EffClose =>
      bool_decide (rt_epoch rt = pr_epoch request ∧ rt_instance_id rt = pr_target_instance_id request ∧
                   rt_role rt = RoleNone) && negb (none (rt_partition_state rt))
  | _, _ => false
  end.

Definition effect_sent (ev : event stage_call stage_answer) : option RuntimeEffect :=
  match ev with
  | existT (SendEffect e) _ | existT (SendEffectWithin _ e) _ => Some e
  | _ => None
  end.
Definition sender_answer (ev : event stage_call stage_answer) : option SenderAnswer :=
  match ev with existT (AskSender _) r => Some r | _ => None end.
Definition runtime_seen (ev : event stage_call stage_answer) : option RuntimeControlSnapshot :=
  match ev with existT BorrowRuntime rt => Some rt | _ => None end.

(** The latest answer of a kind. *)
Definition latest {A} (f : event stage_call stage_answer → option A) (h : list (event stage_call stage_answer)) :
    option A := foldl (λ acc ev, match f ev with Some a => Some a | None => acc end) None h.

(** The status shows the sender of the request, the same process, as a primary
    at the request's epoch that may write and still runs the parent action;
    for Retire the signed reduced configuration is its current one and the
    target is not in it; for Cleanup the target is not in its current one. *)
Record true_primary (request : PeerStageRequest) (s : ReplicaStatusInfo) : Prop := mkTruePrimary {
  tp_process : si_instance_id s = pr_sender_instance_id request ∧
    as_generation (si_agent s) = pr_sender_agent_generation request;
  tp_primary : si_role s = Primary ∧ si_epoch s = pr_epoch request ∧ si_write_status s = Granted;
  tp_parent : ∃ o, as_current_action (si_agent s) = Some o ∧
    do_action_id (co_action o) = pr_parent_action_id request ∧
    do_signature (co_action o) = pr_parent_action_signature request ∧
    (do_state (co_action o) = Scheduled ∨ do_state (co_action o) = InProgress);
  tp_retire : pr_stage request = Retire → ∃ c, si_configuration s = Some c ∧ cs_mode c = Current ∧
    pr_reduced_current_projection request = Some c ∧
    ∀ m, m ∈ cs_members c → cm_id m = pr_target_replica_id request → cm_instance_id m ≠ pr_target_instance_id request;
  tp_cleanup : pr_stage request = Cleanup → ∀ c, si_configuration s = Some c → cs_mode c = Current →
    ∀ m, m ∈ cs_members c → cm_id m = pr_target_replica_id request → cm_instance_id m ≠ pr_target_instance_id request;
}.

(** The sender's last answer, given since the last effect, shows it so. *)
Definition authorized (request : PeerStageRequest) (h : list (event stage_call stage_answer)) : Prop :=
  ∃ h0 ev s hs, h = h0 ++ ev :: hs ∧ sender_answer ev = Some (SenderStatus s) ∧ true_primary request s ∧
    Forall (λ ev, effect_sent ev = None ∧ sender_answer ev = None) hs.

(** Every effect of the history was authorized, and called for by the runtime
    last seen before it. *)
Definition effects_justified (request : PeerStageRequest) (h : list (event stage_call stage_answer)) : Prop :=
  ∀ h1 ev h2 e, h = h1 ++ ev :: h2 → effect_sent ev = Some e →
    authorized request h1 ∧ ∃ rt, latest runtime_seen h1 = Some rt ∧ called_for request rt e = true.

(** The same by a scan of the history. *)
Definition passes (request : PeerStageRequest) (r : SenderAnswer) : bool :=
  is_ok (s ← sender_status r; check_sender request (bool_decide (pr_stage request = Cleanup)) s).

(** Reading a history from the left: whether the sender was authorized since
    the last effect, and the runtime last seen; [None] once an effect was sent
    that was not authorized or not called for. *)
Definition scan_step (request : PeerStageRequest) (st : option (bool * option RuntimeControlSnapshot))
    (ev : event stage_call stage_answer) : option (bool * option RuntimeControlSnapshot) :=
  match st with
  | None => None
  | Some (authorized, rt) =>
      match ev with
      | existT AskNow _ => Some (authorized, rt)
      | existT (AskSender _) r => Some (passes request r, rt)
      | existT BorrowRuntime rt => Some (authorized, Some rt)
      | existT (SendEffect e) _ | existT (SendEffectWithin _ e) _ =>
          if authorized && match rt with Some rt => called_for request rt e | None => false end then Some (false, rt)
          else None
      end
  end.
Definition scan (request : PeerStageRequest) (h : list (event stage_call stage_answer)) :
    option (bool * option RuntimeControlSnapshot) := foldl (scan_step request) (Some (false, None)) h.

Lemma scan_snoc request h ev : scan request (h ++ [ev]) = scan_step request (scan request h) ev.
Proof. unfold scan. by rewrite foldl_app. Qed.

Lemma latest_snoc {A} (f : event stage_call stage_answer → option A) h ev :
  latest f (h ++ [ev]) = match f ev with Some a => Some a | None => latest f h end.
Proof. unfold latest. by rewrite foldl_app. Qed.

Lemma not_exact request ms :
  existsb (exact_member request) ms = false →
  ∀ m, m ∈ ms → cm_id m = pr_target_replica_id request → cm_instance_id m ≠ pr_target_instance_id request.
Proof.
  intros He m Hm Hid Hi. pose proof (existsb_false _ _ _ He Hm) as Hx.
  unfold exact_member in Hx. rewrite Hid, Hi, Z.eqb_refl, bool_decide_eq_true_2 in Hx by done. done.
Qed.

Lemma check_sender_Ok request s :
  check_sender request (bool_decide (pr_stage request = Cleanup)) s = Ok tt → true_primary request s.
Proof.
  unfold check_sender. intros H. do 2 (apply bind_Ok in H as ([] & ?%reject_if_Ok & H)).
  apply bind_Ok in H as ([] & Hr & Hc%reject_if_Ok). unfold parent_matches in *.
  destruct (as_current_action (si_agent s)) as [o|] eqn:Ho; [|done]. guards.
  repeat match goal with H : _ && _ = true |- _ => apply andb_true_iff in H as [? H] end. guards.
  split; [by split_and!|by split_and!|exists o; by split_and!|..].
  - intros Hst. rewrite decide_True in Hr by done. apply bind_Ok in Hr as (c & Hcf%ok_or_Ok & Hr).
    do 2 (apply bind_Ok in Hr as ([] & ?%reject_if_Ok & Hr)). apply reject_if_Ok in Hr. guards.
    exists c. split_and!; [done..|]. by apply not_exact.
  - intros Hst c Hcf Hm. rewrite bool_decide_eq_true_2, Hcf, bool_decide_eq_true_2 in Hc by done. by apply not_exact.
Qed.

Lemma passes_true request r : passes request r = true → ∃ s, r = SenderStatus s ∧ true_primary request s.
Proof.
  unfold passes. destruct r as [m| | |m|s]; simpl; try done. destruct (check_sender _ _ _) as [[]|] eqn:E; [|done].
  intros _. exists s. split; [done|by apply check_sender_Ok].
Qed.

(** What the scan finds is so. *)
Lemma scan_sound request h b rt :
  scan request h = Some (b, rt) →
  effects_justified request h ∧ latest runtime_seen h = rt ∧ (b = true → authorized request h).
Proof.
  revert b rt. induction h as [|ev h IH] using rev_ind; intros b rt H.
  { injection H as <- <-. split_and!; [|done|done]. by intros [|? ?] ? ? ?. }
  rewrite scan_snoc in H. destruct (scan request h) as [[b0 rt0]|]; [|done].
  destruct (IH _ _ eq_refl) as (Hj & Hl & Ha). rewrite latest_snoc.
  assert ((∀ e, effect_sent ev = Some e → authorized request h ∧ ∃ rt, latest runtime_seen h = Some rt ∧
    called_for request rt e = true) → effects_justified request (h ++ [ev])) as Hgrow.
  { intros Hnew h1 ev' h2 e Heq He. destruct h2 as [|x h2] using rev_ind.
    - apply app_inj_tail in Heq as [<- <-]. by apply Hnew.
    - rewrite app_comm_cons, app_assoc in Heq. apply app_inj_tail in Heq as [-> _]. by apply (Hj h1 ev' h2). }
  assert (effect_sent ev = None → sender_answer ev = None → authorized request h → authorized request (h ++ [ev])) as Hkeep.
  { intros He Hs (h0 & a & s & hs & -> & Hx & Ht & Hq). exists h0, a, s, (hs ++ [ev]). rewrite <-app_assoc. split_and!; try done.
    apply Forall_app_2; [done|]. by repeat constructor. }
  destruct ev as [[|budget| |e|budget e] r]; simpl in *.
  - injection H as <- <-. split_and!; [by apply Hgrow|done|]. intros Hb. apply Hkeep; [done..|by apply Ha].
  - injection H as <- <-. split_and!; [by apply Hgrow|done|]. intros (s & -> & Ht)%passes_true.
    exists h, (existT (AskSender budget) (SenderStatus s)), s, []. by split_and!.
  - injection H as <- <-. split_and!; [by apply Hgrow|done|]. intros Hb. apply Hkeep; [done..|by apply Ha].
  - destruct (b0 && _) eqn:Hc; [|done]. injection H as <- <-. apply andb_prop in Hc as [-> Hc].
    destruct rt0 as [rt0|]; [|done]. split_and!; [|done|done]. apply Hgrow. intros ? [= <-]. split; [by apply Ha|by exists rt0].
  - destruct (b0 && _) eqn:Hc; [|done]. injection H as <- <-. apply andb_prop in Hc as [-> Hc].
    destruct rt0 as [rt0|]; [|done]. split_and!; [|done|done]. apply Hgrow. intros ? [= <-]. split; [by apply Ha|by exists rt0].
Qed.

Section proofs.
  Context (request : PeerStageRequest).
  Abbreviation scan := (scan request).

(** Good so far, in whatever state. *)
Definition sound (h : list (event stage_call stage_answer)) : Prop := is_Some (scan h).

Definition post {A} (good : list (event stage_call stage_answer) → A → Prop)
    (h : list (event stage_call stage_answer)) (r : result PeerStageRunError A) : Prop :=
  match r with Ok a => good h a | Err _ => sound h end.

Lemma wp_step {A B} (t : stage A) (f : A → stage B) mid good h :
  wp t (post mid) h → (∀ h a, mid h a → wp (f a) (post good) h) → wp (and_then t f) (post good) h.
Proof.
  intros Ht Hf. apply wp_and_then. eapply wp_mono; [exact Ht|]. intros h' [a|e] H; [by apply Hf|done].
Qed.

Lemma wp_budget h b rt :
  scan h = Some (b, rt) → wp (peer_sender_authorization_budget request) (post (λ h' _, scan h' = Some (b, rt))) h.
Proof.
  intros H. unfold peer_sender_authorization_budget. case_decide; [done|]. apply wp_and_then. simpl.
  destruct (ok_or _ _); simpl; [|by exists (b, rt)]. intros now. case_match; simpl; [|by rewrite scan_snoc, H].
  exists (b, rt). by rewrite scan_snoc, H.
Qed.

Lemma wp_authorize cleanup h b rt :
  cleanup = bool_decide (pr_stage request = Cleanup) → scan h = Some (b, rt) →
  wp (authorize_peer_sender request cleanup) (post (λ h' _, scan h' = Some (true, rt))) h.
Proof.
  intros -> H. unfold authorize_peer_sender. eapply wp_step; [by eapply wp_budget|]. clear h H. intros h budget H.
  intros r. simpl. pose proof (scan_snoc request h (existT (AskSender budget) r)) as Hs. rewrite H in Hs. simpl in Hs.
  unfold passes in Hs. destruct (_ ≫= _); simpl in *; [done|]. by eexists.
Qed.

Lemma wp_borrow {B} (f : RuntimeControlSnapshot → stage B) good h b rt0 :
  scan h = Some (b, rt0) → (∀ rt h, scan h = Some (b, Some rt) → wp (f rt) (post good) h) →
  wp (rt ←? await BorrowRuntime; f rt) (post good) h.
Proof. intros H Hf rt. simpl. apply Hf. by rewrite scan_snoc, H. Qed.

Lemma wp_stage_effect e h rt :
  scan h = Some (true, Some rt) → called_for request rt e = true →
  wp (send_runtime_effect e) (post (λ h' _, scan h' = Some (false, Some rt))) h.
Proof.
  intros H Hc r. simpl. unfold post, sound. rewrite scan_snoc, H. simpl. rewrite Hc. simpl.
  destruct (effect_result r); [done|by eexists].
Qed.

Lemma wp_retire_effect e h rt :
  scan h = Some (true, Some rt) → called_for request rt e = true →
  wp (send_retire_runtime_effect request e) (post (λ h' _, scan h' = Some (false, Some rt))) h.
Proof.
  intros H Hc. unfold send_retire_runtime_effect. eapply wp_step; [by eapply wp_budget|]. clear h H. intros h t H r.
  simpl. unfold post, sound. rewrite scan_snoc, H. simpl. rewrite Hc. simpl. destruct (effect_result r); [done|by eexists].
Qed.

(** Ends of a stage. *)
Lemma wp_ok (good : list (event stage_call stage_answer) → unit → Prop) h :
  good h tt → wp (ok tt : stage unit) (post good) h.
Proof. done. Qed.
Lemma wp_fail {A} (good : list (event stage_call stage_answer) → A → Prop) e h st :
  scan h = Some st → wp (fail e : stage A) (post good) h.
Proof. intros H. by exists st. Qed.

Lemma wp_lift (r : result PeerStageRunError unit) {B} (f : unit → stage B) good h st :
  scan h = Some st → (r = Ok tt → wp (f tt) (post good) h) → wp (and_then (lift r) f) (post good) h.
Proof. intros H Hf. apply wp_and_then. simpl. destruct r as [[]|e]; [by apply Hf|by exists st]. Qed.

Definition settled (h : list (event stage_call stage_answer)) (_ : unit) : Prop := sound h.

Lemma wp_effect_end e h rt :
  scan h = Some (true, Some rt) → called_for request rt e = true → wp (send_runtime_effect e) (post settled) h.
Proof.
  intros H Hc. eapply wp_mono; [by eapply wp_stage_effect|]. intros h' [[]|e'] H'; [by eexists|done].
Qed.

Lemma prepare_sound h : pr_stage request = Prepare → scan h = Some (false, None) →
  wp (prepare_stage request) (post settled) h.
Proof.
  intros Hst H. assert (false = bool_decide (pr_stage request = Cleanup)) as Hc by (by rewrite Hst).
  unfold prepare_stage. eapply wp_step; [by eapply wp_authorize|]. clear h H. intros h [] H.
  eapply wp_borrow; [exact H|]. clear h H. intros rt h H.
  eapply (wp_step _ _ (λ h' _, ∃ b, scan h' = Some (b, Some rt))).
  { destruct (none (rt_partition_state rt)) eqn:Hn; [|apply wp_ok; by exists true].
    eapply wp_mono; [eapply wp_stage_effect; [exact H|]; unfold called_for; by rewrite Hst|]. intros h' [[]|e] ?; [by exists false|done]. }
  clear h H. intros h [] [b H]. eapply wp_step; [by eapply wp_authorize|]. clear h H. intros h [] H.
  eapply wp_borrow; [exact H|]. clear h H. intros rt' h H.
  eapply (wp_step _ _ (λ h' _, ∃ b, scan h' = Some (b, Some rt'))).
  { destruct (epoch_ltb (pr_epoch request) _); [by eapply wp_fail|].
    destruct (epoch_ltb (rt_epoch rt') _) eqn:He; [|apply wp_ok; by exists true].
    eapply wp_mono; [eapply wp_stage_effect; [exact H|]|intros h' [[]|e] ?; [by exists false|done]].
    unfold called_for. rewrite Hst. by rewrite bool_decide_eq_true_2, He by done. }
  clear h H. intros h [] [b' H]. eapply wp_step; [by eapply wp_authorize|]. clear h H. intros h [] H.
  eapply wp_borrow; [exact H|]. clear h H. intros rt2 h H.
  destruct (negb _) eqn:He; [by eapply wp_fail|]. guards.
  destruct (rt_role rt2) eqn:Hr; try (apply wp_ok; by eexists); try (by eapply wp_fail).
  eapply wp_effect_end; [exact H|]. unfold called_for. rewrite Hst. by apply bool_decide_eq_true_2.
Qed.

Lemma activate_sound h : pr_stage request = Activate → scan h = Some (false, None) →
  wp (activate_stage request) (post settled) h.
Proof.
  intros Hst H. assert (false = bool_decide (pr_stage request = Cleanup)) as Hc by (by rewrite Hst).
  unfold activate_stage. eapply wp_step; [by eapply wp_authorize|]. clear h H. intros h [] H.
  eapply wp_borrow; [exact H|]. clear h H. intros rt h H.
  destruct (negb _) eqn:He; [by eapply wp_fail|]. guards.
  apply wp_and_then. simpl. destruct (pr_copy_lsn request) as [copy|] eqn:Hcopy; simpl; [|by eexists].
  destruct (_ <? copy) eqn:Hlt; [by eapply wp_fail|]. apply Z.ltb_ge in Hlt.
  destruct (rt_role rt) eqn:Hr; try (apply wp_ok; by eexists); try (by eapply wp_fail).
  eapply wp_effect_end; [exact H|]. unfold called_for. rewrite Hst, Hcopy, bool_decide_eq_true_2 by done. by apply Z.leb_le.
Qed.

Lemma cleanup_sound h : pr_stage request = Cleanup → scan h = Some (false, None) →
  wp (cleanup_stage request) (post settled) h.
Proof.
  intros Hst H. assert (true = bool_decide (pr_stage request = Cleanup)) as Hc by (by rewrite Hst).
  unfold cleanup_stage. eapply wp_step; [by eapply wp_authorize|]. clear h H. intros h [] H.
  eapply wp_borrow; [exact H|]. clear h H. intros rt h H.
  destruct (none _); [apply wp_ok; by eexists|]. destruct (negb _) eqn:He; [by eapply wp_fail|]. guards.
  eapply (wp_step _ _ (λ h' _, ∃ b, scan h' = Some (b, Some rt))).
  { destruct (secondary_role (rt_role rt)) eqn:Hr; [|apply wp_ok; by eexists].
    eapply wp_mono; [eapply wp_stage_effect; [exact H|]|intros h' [[]|e] ?; [by exists false|done]].
    unfold called_for. by rewrite Hst, bool_decide_eq_true_2, Hr by done. }
  clear h H. intros h [] [b H]. eapply wp_step; [by eapply wp_authorize|]. clear h H. intros h [] H.
  eapply wp_borrow; [exact H|]. clear h H. intros rt' h H.
  destruct (negb (none _)) eqn:Hn; [|apply wp_ok; by eexists].
  eapply wp_effect_end; [exact H|]. unfold called_for. by rewrite Hst, Hn.
Qed.

(** A finished Retire saw the target gone last. *)
Definition retired (h : list (event stage_call stage_answer)) (_ : unit) : Prop :=
  ∃ b rt, scan h = Some (b, Some rt) ∧ retire_postcondition_holds rt request = true.

Lemma validate_retire_target_runtime_Ok rt :
  validate_retire_target_runtime request rt = Ok tt →
  rt_instance_id rt = pr_target_instance_id request ∧ rt_epoch rt = pr_epoch request.
Proof.
  unfold validate_retire_target_runtime. intros H. apply bind_Ok in H as ([] & H1%reject_if_Ok & H2%reject_if_Ok).
  by guards.
Qed.

Lemma retire_close_sound h b rt0 : pr_stage request = Retire → scan h = Some (b, rt0) →
  wp (retire_close request) (post retired) h.
Proof.
  intros Hst H. assert (false = bool_decide (pr_stage request = Cleanup)) as Hc by (by rewrite Hst).
  unfold retire_close. eapply wp_step; [by eapply wp_authorize|]. clear h H. intros h [] H.
  eapply wp_borrow; [exact H|]. clear h H. intros rt h H.
  eapply wp_lift; [exact H|]. intros [Hi He]%validate_retire_target_runtime_Ok.
  destruct (retire_postcondition_holds rt request) eqn:Hp; [apply wp_ok; by exists true, rt|].
  destruct (negb (bool_decide _)) eqn:Hr; [by eapply wp_fail|]. guards.
  eapply (wp_step _ _ (λ h' _, ∃ b, scan h' = Some (b, Some rt))).
  { destruct (negb (none _)) eqn:Hn; [|apply wp_ok; by eexists].
    eapply wp_mono; [eapply wp_retire_effect; [exact H|]|intros h' [[]|e] ?; [by exists false|done]].
    unfold called_for. by rewrite Hst, bool_decide_eq_true_2, Hn by done. }
  clear h H. intros h [] [b' H]. eapply wp_borrow; [exact H|]. clear h H. intros rt' h H.
  eapply wp_lift; [exact H|]. intros _.
  destruct (retire_postcondition_holds rt' request) eqn:Hp'; simpl; [by exists b', rt'|by eexists].
Qed.

Lemma retire_sound h : pr_stage request = Retire → scan h = Some (false, None) →
  wp (retire_stage request) (post retired) h.
Proof.
  intros Hst H. assert (false = bool_decide (pr_stage request = Cleanup)) as Hc by (by rewrite Hst).
  unfold retire_stage. eapply wp_step; [by eapply wp_authorize|]. clear h H. intros h [] H.
  eapply wp_borrow; [exact H|]. clear h H. intros rt h H.
  eapply wp_lift; [exact H|]. intros [Hi He]%validate_retire_target_runtime_Ok.
  destruct (retire_postcondition_holds rt request) eqn:Hp; [apply wp_ok; by exists true, rt|].
  eapply (wp_step _ _ (λ h' _, ∃ b, scan h' = Some (b, Some rt))).
  { destruct (secondary_role (rt_role rt)) eqn:Hr.
    - eapply wp_mono; [eapply wp_retire_effect; [exact H|]|intros h' [[]|e] ?; [by exists false|done]].
      unfold called_for. by rewrite Hst, bool_decide_eq_true_2, Hr by done.
    - destruct (negb _); [by eapply wp_fail|apply wp_ok; by eexists]. }
  clear h H. intros h [] [b H]. by eapply retire_close_sound.
Qed.

(** C14. A peer stage touches the target only for its true primary: whatever
    the runtime, the sender, the transport and the clock answer, the stage
    ends, and every runtime effect of it was sent after the sender's last
    answer, given since the previous effect, had shown the sender process of
    the request as primary, at the request's epoch, with its writes granted,
    still running the parent action (and, for Retire, with the signed reduced
    configuration as its current one and the target out of it; for Cleanup,
    the target out of its current one); and it is an effect that the runtime
    last seen calls for. A Retire that reports success last saw the target's
    very incarnation at the request's epoch in role None and closed. *)
Theorem stage_effects_authorized oracle :
  let '(h, r) := exec oracle (run_peer_stage request) [] in
  effects_justified request h ∧
  (pr_stage request = Retire → r = Ok tt →
     ∃ rt, latest runtime_seen h = Some rt ∧ rt_instance_id rt = pr_target_instance_id request ∧
       rt_epoch rt = pr_epoch request ∧ rt_role rt = RoleNone ∧ rt_partition_state rt = None).
Proof.
  assert (wp (run_peer_stage request) (post (λ h _, settled h tt ∧ (pr_stage request = Retire → retired h tt))) []) as H.
  { unfold run_peer_stage. destruct (pr_stage request) eqn:Hst.
    - eapply wp_mono; [by apply prepare_sound|]. intros h [[]|e] Hp; [by split|done].
    - eapply wp_mono; [by apply activate_sound|]. intros h [[]|e] Hp; [by split|done].
    - eapply wp_mono; [by apply cleanup_sound|]. intros h [[]|e] Hp; [by split|done].
    - eapply wp_mono; [by apply retire_sound|]. intros h [[]|e] Hp; [|done]. split; [|done].
      destruct Hp as (b & rt & Hs & _). by eexists. }
  apply (wp_exec _ _ oracle) in H. destruct (exec _ _ _) as [h r]. simpl in H.
  assert (sound h) as [[b rt] Hs] by (destruct r; [by destruct H as [? _]|done]).
  split; [by eapply scan_sound|]. intros Hst ->. destruct H as [_ Hr].
  destruct (Hr Hst) as (b' & rt' & Hs' & Hp). exists rt'. split; [by eapply scan_sound|].
  unfold retire_postcondition_holds in Hp. do 3 (apply andb_prop in Hp as [Hp ?]).
  destruct (rt_partition_state rt'); [done|]. guards. by split_and!.
Qed.

End proofs.

(** ** A Retire of an active secondary *)
Module DemoStage.
Definition reduced : ReplicaConfigurationStatus :=
  mkReplicaConfigurationStatus Current [mkReplicaConfigurationMemberStatus 1 "i1" Primary] 1.
Definition request : PeerStageRequest :=
  mkPeerStageRequest 2 Remove 1 "op" "try" "m" "sig" Retire 1 "i1" "g1" "http://c1" "act" "asig"
    3 "i3" "g3" 0 (mkEpoch 1 2) "fence" None None (Some ScaleDown) (Some 900) (Some 1000) (Some reduced).
Definition parent : CorrelatedActionObservation :=
  mkCorrelatedActionObservation "g1" 1 (mkDurableActionObservation "act" "asig" InProgress None None None None None).
Definition sender : ReplicaStatusInfo :=
  mkReplicaStatusInfo "i1" Primary (mkEpoch 1 2) 5 (Some 5) 5 true Granted (Some reduced) None None [] None
    (mkReplicaAgentStatus 3 2 "g1" 1 (Some parent) [] []).
Definition runtime (role : Role) (open : bool) : RuntimeControlSnapshot :=
  mkRuntimeControlSnapshot "i3" role (mkEpoch 1 2) None None None None None (if open then Some PState.new else None).

(** The runtime does what it is told. *)
Fixpoint effects (h : list (event stage_call stage_answer)) : nat :=
  match h with [] => 0 | ev :: h => (if effect_sent ev then 1 else 0) + effects h end%nat.
Definition oracle (h : list (event stage_call stage_answer)) (c : stage_call) : stage_answer c :=
  match c with
  | AskNow => 950
  | AskSender _ => SenderStatus sender
  | BorrowRuntime => runtime (if Nat.eqb (effects h) 0 then ActiveSecondary else RoleNone) (Nat.ltb (effects h) 2)
  | SendEffect _ | SendEffectWithin _ _ => EffectReplied (Ok EffUnit)
  end.
End DemoStage.

Lemma stage_effects_authorized_witness :
  let '(h, r) := exec DemoStage.oracle (run_peer_stage DemoStage.request) [] in
  r = Ok tt ∧ omap effect_sent h = [EffChangeRole (mkEpoch 1 2) RoleNone; EffClose] ∧
  ∃ rt, latest runtime_seen h = Some rt ∧ rt_partition_state rt = None.
Proof.
  pose proof (stage_effects_authorized DemoStage.request DemoStage.oracle) as H.
  destruct (exec DemoStage.oracle (run_peer_stage DemoStage.request) []) as [h r] eqn:E. vm_compute in E.
  injection E as <- <-. destruct H as [_ H]. split; [reflexivity|]. split; [reflexivity|].
  destruct (H eq_refl eq_refl) as (rt & Hl & _ & _ & _ & Hp). exists rt. split; [exact Hl|exact Hp].
Defined.
