(* ===== verification/RemoveCoordinator.v ===== *)
(** The coordinator of a replica removal
    (kuberic-core/src/replica_agent.rs, [run_remove_replica_coordinator]): the
    task a primary's agent spawns for an accepted intent. It installs the
    reduced configuration, disconnects and retires the target, or restores the
    previous configuration, and publishes its progress to the agent, whose
    authority it needs for every step. *)

From S2P Require Import Prelude Types Quorum Replicator Lifecycle AddReplica RemoveReplica Control Agent Task.

Set Default Goal Selector "!".
Local Open Scope task_scope.

(** ** What the coordinator asks *)

Inductive LifecyclePeerTransportErrorKind := Unavailable | Stale.

Record LifecyclePeerTransportError := mkLifecyclePeerTransportError {
  te_kind : LifecyclePeerTransportErrorKind;
  te_message : string;
}.

(** A call to the target's agent; the clock may end any call. *)
Inductive PeerAnswer (A : Type) :=
| PeerTimedOut
| PeerConnectFailed (e : KubericError)
| PeerBudgetExpired
| PeerReplied (r : result KubericError A).
Arguments PeerTimedOut {A}.
Arguments PeerConnectFailed {A} e.
Arguments PeerBudgetExpired {A}.
Arguments PeerReplied {A} r.

Inductive Wake :=
| RuntimeChanged (open : bool)
| AuthorityWake (open : bool)
| Slept.

Inductive coordinator_call :=
| AskClock
| BorrowStatus
| BorrowAuthority
| AwaitAuthority
| AwaitEffect (deadline : Z) (e : RuntimeEffect)
| AwaitPeerStatus (deadline timeout : Z)
| AwaitStage (deadline timeout : Z) (request : PeerStageRequest)
| AwaitObservation
| AwaitAuthorityOrSleep
| SendEvent (ev : CoordinatorEvent).

(** An effect that ran out of its deadline answers [None]: it may or may not
    have been carried out. *)
Definition coordinator_answer (c : coordinator_call) : Type :=
  match c with
  | AskClock => Z
  | BorrowStatus => RuntimeControlSnapshot
  | BorrowAuthority => option CoordinatorAuthority
  | AwaitAuthority => bool
  | AwaitEffect _ _ => option (result KubericError RuntimeEffectResult)
  | AwaitPeerStatus _ _ => PeerAnswer PeerLifecycleStatus
  | AwaitStage _ _ _ => PeerAnswer PeerStageObservation
  | AwaitObservation => Wake
  | AwaitAuthorityOrSleep => option bool
  | SendEvent _ => bool
  end.

Record RemoveCoordinatorState := mkRemoveCoordinatorState {
  rs_progress : RemoveReplicaProgress;
  rs_current_install_dispatched : bool;
  rs_phase_sequence : Z;
}.
#[export] Instance eta_RemoveCoordinatorState : Settable RemoveCoordinatorState :=
  {| eta_record r := mkRemoveCoordinatorState (rs_progress r) (rs_current_install_dispatched r) (rs_phase_sequence r) |}.
#[export] Instance eta_RemoveReplicaProgress : Settable RemoveReplicaProgress :=
  {| eta_record r := mkRemoveReplicaProgress (rp_phase r) (rp_attempt_id r) (rp_commit_observed r)
    (rp_commit_observed_unix_seconds r) (rp_connection_absent r) (rp_target_retirement r)
    (rp_retirement_expiry_unix_seconds r) (rp_compensation_expiry_unix_seconds r) (rp_error r)
    (rp_current_install_dispatched r) |}.

Abbreviation coord := (stateful coordinator_call coordinator_answer RemoveCoordinatorState string).

Inductive RemoveConfigurationObservation := PreviousCurrent | ReducedCatchUp | ReducedCurrent.
#[export] Instance RemoveConfigurationObservation_eq_dec : EqDecision RemoveConfigurationObservation.
Proof. solve_decision. Defined.

Definition configuration_debug (c : RemoveConfigurationObservation) : string :=
  match c with PreviousCurrent => "PreviousCurrent" | ReducedCatchUp => "ReducedCatchUp" | ReducedCurrent => "ReducedCurrent" end.

Inductive PreCommitOutcome := PreCommitted | PreFailed (error : string).
Inductive CompensationOutcome := CompCommitted | CompTerminal (r : RemoveReplicaTerminalResult).

(** ** Pure parts *)

Definition transport_error (kind : LifecyclePeerTransportErrorKind) (message : string) : LifecyclePeerTransportError :=
  mkLifecyclePeerTransportError kind (normalize message).

Definition lifecycle_transport_error (e : KubericError) : LifecyclePeerTransportError :=
  match e with
  | RemotePeerRequestRejected m | RemoteAgentPreconditionRejected m | RemoteControlProtocolUnsupported m
  | RemoteAgentConflict m => transport_error Stale m
  | other => transport_error Unavailable (error_to_string other)
  end.

(** What [GrpcLifecyclePeerTransport] makes of a call; [None]: the clock ended it. *)
Definition transport_result {A} (what : string) (a : PeerAnswer A) : option (result LifecyclePeerTransportError A) :=
  match a with
  | PeerTimedOut => None
  | PeerConnectFailed e => Some (Err (lifecycle_transport_error e))
  | PeerBudgetExpired =>
      Some (Err (transport_error Unavailable ("target lifecycle " +:+ what +:+ " call budget expired during connect")))
  | PeerReplied r => Some (map_err lifecycle_transport_error r)
  end.

Definition transport_endpoint (i : RemoveReplicaIntent) : result LifecyclePeerTransportError (string * AgentGeneration) :=
  address ← ok_or (rm_target_control_address i)
    (transport_error Stale "remove intent has no frozen target lifecycle endpoint");
  generation ← ok_or (rm_expected_target_agent_generation i)
    (transport_error Stale "remove intent has no frozen target agent generation");
  Ok (address, generation).

Definition classify_remove_configuration (rt : RuntimeControlSnapshot) (i : RemoveReplicaIntent) :
    result string RemoveConfigurationObservation :=
  configuration ← ok_or (rt_configuration rt) "primary runtime does not expose a configuration";
  if decide (configuration = previous_status i) then Ok PreviousCurrent
  else if decide (configuration = reduced_catch_up_status i) then Ok ReducedCatchUp
  else if decide (configuration = reduced_current_status i) then Ok ReducedCurrent
  else Err "primary runtime configuration is outside the frozen remove intent".

Definition remove_connection_absent (rt : RuntimeControlSnapshot) (i : RemoveReplicaIntent) : bool :=
  match rt_partition_state rt with
  | Some state =>
      negb (existsb (λ c, (rcs_id c =? rm_target_replica_id i)
                          && bool_decide (rcs_instance_id c = rm_target_instance_id i))
              (PState.active_replica_connections state))
  | None => false
  end.

Definition validate_remove_peer_status (i : RemoveReplicaIntent) (s : PeerLifecycleStatus) : result string unit :=
  reject_if (negb (pl_protocol_version s =? REPLICA_LIFECYCLE_PEER_PROTOCOL_VERSION)
             || negb (pl_target_replica_id s =? rm_target_replica_id i)
             || negb (bool_decide (pl_target_instance_id s = rm_target_instance_id i))
             || negb (bool_decide (Some (pl_agent_generation s) = rm_expected_target_agent_generation i))
             || negb (bool_decide (pl_epoch s = rm_epoch i)))
    "target lifecycle status is stale for the remove intent".

Definition retirement_observation_from_transport_error (e : LifecyclePeerTransportError) : TargetRetirementObservation :=
  match te_kind e with Unavailable => RetUnavailable | Stale => RetStale end.

(** The retirement that is reported at the expiry. *)
Definition at_expiry (last : TargetRetirementObservation) : TargetRetirementObservation :=
  match last with NotAttempted | RetInProgress => RetFailed | terminal => terminal end.

(** The primary is the exact one the removal was planned on, and may write. *)
Definition live_primary (rt : RuntimeControlSnapshot) (i : RemoveReplicaIntent) : bool :=
  bool_decide (rt_instance_id rt = rm_primary_instance_id i) && bool_decide (rt_role rt = Primary)
  && bool_decide (rt_epoch rt = rm_epoch i)
  && match rt_partition_state rt with
     | Some state => bool_decide (PState.write_status state = Granted)
     | None => false
     end.

(** ** The coordinator *)

Section coordinator.
  Context {Ends : Endpoints} (fuel : nat) (x : CoordinatorExecution) (i : RemoveReplicaIntent).

Definition current_id (s : RemoveCoordinatorState) : CoordinatorExecutionId :=
  mkCoordinatorExecutionId (cx_generation x) (cx_action_id x) (cx_attempt_id x) (rs_phase_sequence s).

Definition unix_seconds : coord Z := sask AskClock.
Definition borrow_runtime : coord RuntimeControlSnapshot := sask BorrowStatus.

Definition set_progress (f : RemoveReplicaProgress → RemoveReplicaProgress) : coord unit :=
  update (λ s, s <| rs_progress ::= f |>).

(** The authority is this execution's, at any phase. *)
Definition own_authority (a : CoordinatorAuthority) : bool :=
  bool_decide (ca_generation a = cx_generation x) && bool_decide (ca_action_id a = cx_action_id x)
  && bool_decide (ca_action_signature a = rm_input_signature i) && bool_decide (ca_attempt_id a = cx_attempt_id x).

Definition wait_for_remove_authority : coord unit :=
  loop fuel
    (expected ←! get rs_phase_sequence;
     authority ←! sask BorrowAuthority;
     match authority with
     | Some a =>
         if own_authority a && (ca_phase_sequence a =? expected) then sret (Some tt)
         else if own_authority a && (ca_phase_sequence a <? expected) then
           open ←! sask AwaitAuthority;
           if open : bool then sret None else sfail "remove-replica parent authority closed"
         else sfail "remove-replica coordinator generation/action/attempt/phase authority is stale"
     | None => sfail "remove-replica coordinator generation/action/attempt/phase authority is stale"
     end).

Definition remove_authority_gate (deadline : option Z) (allowed : list RemoveConfigurationObservation) :
    coord RemoveConfigurationObservation :=
  wait_for_remove_authority;!
  expired ←! match deadline with
             | Some deadline => now ←! unix_seconds; sret (deadline <=? now)
             | None => sret false
             end;
  if expired : bool then sfail "remove-replica coordinator deadline expired"
  else
    rt ←! borrow_runtime;
    if negb (live_primary rt i) then sfail "remove-replica coordinator lost exact live-primary write authority"
    else
      configuration ←! slift (classify_remove_configuration rt i);
      if decide (configuration ∈ allowed) then sret configuration
      else sfail ("remove-replica coordinator phase does not allow configuration " +:+ configuration_debug configuration).

Definition publish_remove_progress : coord unit :=
  progress ←! get rs_progress;
  slift (validate_progress i progress);!
  update (λ s, s <| rs_phase_sequence ::= λ n, u64_wrapping_add n 1 |>);!
  id ←! get current_id;
  open ←! sask (SendEvent (mkCoordinatorEvent id (RemoveProgress progress)));
  if open : bool then wait_for_remove_authority else sfail "remove-replica coordinator status channel closed".

Definition transition_remove_progress (phase : RemoveReplicaCoordinatorPhase) : coord unit :=
  set_progress (λ p, p <| rp_phase := phase |>);!
  publish_remove_progress.

Definition remove_call_deadline (applicable_deadline call_timeout_seconds : Z) : coord Z :=
  now ←! unix_seconds;
  if applicable_deadline <=? now then sfail "remove-replica applicable deadline expired"
  else sret (Z.min (i64_saturating_add now call_timeout_seconds) applicable_deadline).

Definition remove_timeout_duration (deadline : Z) : coord Z :=
  now ←! unix_seconds;
  let remaining := i64_saturating_sub deadline now in
  if remaining <=? 0 then sfail "remove-replica call deadline expired" else sret remaining.

(** The future is first polled when the clock has not passed the deadline. *)
Definition await_remove_clock_bounded {A} (future : coord (option A)) (deadline : Z) : coord (option A) :=
  now ←! unix_seconds;
  if deadline <=? now then sret None else future.

Definition execute_remove_runtime_effect (e : RuntimeEffect) (applicable_deadline : Z) (operation : string) : coord unit :=
  call_deadline ←! remove_call_deadline applicable_deadline (rm_call_timeout_seconds i);
  r ←! await_remove_clock_bounded (sask (AwaitEffect call_deadline e)) call_deadline;
  match r : option (result KubericError RuntimeEffectResult) with
  | Some (Ok EffUnit) => sret tt
  | Some (Ok (EffDataLoss _)) => sfail ("remove-replica " +:+ operation +:+ " returned an unexpected data-loss result")
  | Some (Err error) => sfail (normalize (error_to_string error))
  | None => sfail ("remove-replica " +:+ operation +:+ " timed out")
  end.

Definition wait_for_remove_observation : coord unit :=
  w ←! sask AwaitObservation;
  match w : Wake with
  | RuntimeChanged true | AuthorityWake true | Slept => sret tt
  | RuntimeChanged false => sfail "remove-replica runtime observation channel closed"
  | AuthorityWake false => sfail "remove-replica parent authority channel closed"
  end.

Definition wait_for_remove_observation_only : coord unit :=
  w ←! sask AwaitAuthorityOrSleep;
  match w : option bool with
  | Some false => sfail "remove-replica parent authority channel closed"
  | _ => sret tt
  end.

(** *** Commit *)

Definition observe_remove_commit : coord unit :=
  remove_authority_gate None [ReducedCurrent];!
  observed ←! get (λ s, rp_commit_observed (rs_progress s));
  if observed : bool then sret tt
  else
    now ←! unix_seconds;
    let commit_observed := Z.min now (rm_overall_deadline_unix_seconds i) in
    expiry ←! slift (retirement_expiry i commit_observed);
    set_progress (λ p, p <| rp_commit_observed := true |> <| rp_commit_observed_unix_seconds := Some commit_observed |>
      <| rp_retirement_expiry_unix_seconds := Some expiry |> <| rp_compensation_expiry_unix_seconds := None |>
      <| rp_error := None |>);!
    transition_remove_progress RemovingConnection.

Definition deadline_gate : list RemoveConfigurationObservation → coord RemoveConfigurationObservation :=
  remove_authority_gate (Some (rm_overall_deadline_unix_seconds i)).

Definition any_configuration : list RemoveConfigurationObservation := [PreviousCurrent; ReducedCatchUp; ReducedCurrent].
Definition reduced_configuration : list RemoveConfigurationObservation := [ReducedCatchUp; ReducedCurrent].

(** Installs the reduced catch-up configuration; [true] when the commit was
    observed on the way. *)
Definition install_catch_up : coord bool :=
  transition_remove_progress InstallingCatchUpConfiguration;!
  configuration ←! deadline_gate any_configuration;
  match configuration : RemoveConfigurationObservation with
  | ReducedCurrent => observe_remove_commit;! sret true
  | ReducedCatchUp => sret false
  | PreviousCurrent =>
      current ←! slift (materialize (rm_reduced_catch_up_configuration i) None);
      previous ←! slift (materialize (rm_previous_configuration i) None);
      effect_result ←! attempt (execute_remove_runtime_effect (EffUpdateCatchUpConfiguration current previous)
                                  (rm_overall_deadline_unix_seconds i) "install reduced catch-up configuration");
      observed ←! deadline_gate any_configuration;
      match observed : RemoveConfigurationObservation with
      | ReducedCurrent => observe_remove_commit;! sret true
      | ReducedCatchUp => sret false
      | PreviousCurrent =>
          match effect_result with
          | Err e => sfail e
          | Ok _ => sfail "reduced catch-up effect completed without its exact postcondition"
          end
      end
  end.

Definition wait_id : string := rm_attempt_id i +:+ ":remove-quorum".

(** The tracked wait of this attempt, where the runtime shows it. *)
Definition quorum_wait_of (rt : RuntimeControlSnapshot) : option RuntimeQuorumWaitObservation :=
  match rt_quorum_wait_observation rt with
  | Some o => if decide (rq_execution_id o = wait_id) then Some o else None
  | None => None
  end.

(** One turn of the wait for the reduced write quorum. *)
Definition catch_up_turn : coord (option bool) :=
  configuration ←! deadline_gate reduced_configuration;
  if decide (configuration = ReducedCurrent) then observe_remove_commit;! sret (Some true)
  else
    rt ←! borrow_runtime;
    let pause : coord (option bool) := wait_for_remove_observation;! sret None in
    match quorum_wait_of rt with
    | Some o =>
        match rq_state o with
        | BuildCompleted => sret (Some false)
        | BuildFailed | BuildCancelled => sfail (default "tracked remove-replica quorum wait failed" (rq_error o))
        | BuildInProgress => pause
        end
    | None =>
        execute_remove_runtime_effect (EffStartTrackedCatchUpQuorum wait_id QuorumWrite)
          (rm_overall_deadline_unix_seconds i) "start tracked remove-replica quorum wait";!
        deadline_gate reduced_configuration;!
        pause
    end.

Definition await_catch_up : coord bool :=
  transition_remove_progress WaitingForCatchUpQuorum;!
  loop fuel catch_up_turn.

Definition install_current : coord unit :=
  transition_remove_progress InstallingCurrentConfiguration;!
  configuration ←! deadline_gate reduced_configuration;
  (if decide (configuration = ReducedCurrent) then sret tt
   else
     update (λ s, s <| rs_current_install_dispatched := true |>
                    <| rs_progress ::= λ p, p <| rp_current_install_dispatched := true |> |>);!
     publish_remove_progress;!
     current ←! slift (materialize (rm_reduced_current_configuration i) None);
     effect_result ←! attempt (execute_remove_runtime_effect (EffUpdateCurrentConfiguration current)
                                 (rm_overall_deadline_unix_seconds i) "install reduced current configuration");
     observed ←! attempt (deadline_gate reduced_configuration);
     match observed, effect_result with
     | Ok ReducedCurrent, _ => sret tt
     | _, Err e | Err e, _ => sfail e
     | Ok _, Ok _ => sfail "reduced-current installation was dispatched but its exact outcome is ambiguous"
     end);!
  observe_remove_commit.

Definition remove_pre_commit : coord unit :=
  committed ←! install_catch_up;
  if committed : bool then sret tt
  else
    committed ←! await_catch_up;
    if committed : bool then sret tt else install_current.

Definition run_remove_pre_commit : coord PreCommitOutcome :=
  r ←! attempt remove_pre_commit;
  match r with
  | Ok _ => sret PreCommitted
  | Err error => sret (PreFailed (normalize error))
  end.

(** *** Compensation *)

Definition enter_remove_compensation (failure : string) : coord unit :=
  expiry ←! get (λ s, rp_compensation_expiry_unix_seconds (rs_progress s));
  (if none expiry then
     now ←! unix_seconds;
     expiry ←! slift (compensation_expiry i (Z.min now (rm_compensation_deadline_cap_unix_seconds i)));
     set_progress (λ p, p <| rp_compensation_expiry_unix_seconds := Some expiry |>)
   else sret tt);!
  set_progress (λ p, p <| rp_error := Some (normalize failure) |>);!
  transition_remove_progress Compensating.

Definition committed_instead : coord (option CompensationOutcome) :=
  observe_remove_commit;! sret (Some CompCommitted).

Definition set_error (e : string) : coord unit := set_progress (λ p, p <| rp_error := Some (normalize e) |>).

Definition again : coord (option CompensationOutcome) := wait_for_remove_observation;! sret None.

(** Restores the previous configuration, once no tracked wait is running. *)
Definition restore_previous (expiry : Z) : coord (option CompensationOutcome) :=
  previous ←! slift (materialize (rm_previous_configuration i) None);
  effect_result ←! attempt (execute_remove_runtime_effect (EffUpdateCurrentConfiguration previous) expiry
                              "restore previous current configuration");
  observed ←! attempt (remove_authority_gate (Some expiry) any_configuration);
  match observed with
  | Ok PreviousCurrent => sret (Some (CompTerminal Compensated))
  | Ok ReducedCurrent => committed_instead
  | _ => (match effect_result with Err e => set_error e | Ok _ => sret tt end);! again
  end.

Definition cancel_wait (expiry : Z) : coord (option CompensationOutcome) :=
  attempt (execute_remove_runtime_effect (EffCancelTrackedOperation wait_id) expiry
             "cancel tracked remove-replica quorum wait");!
  remove_authority_gate (Some expiry) any_configuration;!
  again.

Definition compensation_turn (expiry : Z) : coord (option CompensationOutcome) :=
  now ←! unix_seconds;
  if expiry <=? now then
    set_progress (λ p, p <| rp_error ::= λ e,
      Some (normalize (default "remove-replica compensation expired before restoration" e)) |>);!
    publish_remove_progress;!
    sret (Some (CompTerminal CompensationIncomplete))
  else
    configuration ←! attempt (remove_authority_gate (Some expiry) any_configuration);
    match configuration with
    | Err e => set_error e;! again
    | Ok ReducedCurrent => committed_instead
    | Ok PreviousCurrent => sret (Some (CompTerminal Compensated))
    | Ok ReducedCatchUp =>
        rt ←! borrow_runtime;
        if match quorum_wait_of rt with Some o => bool_decide (rq_state o = BuildInProgress) | None => false end
        then cancel_wait expiry
        else restore_previous expiry
    end.

Definition ambiguous (what : string) : string :=
  normalize ("reduced-current installation was dispatched and " +:+ what).

Definition recover_remove_pre_commit_failure (failure : string) : coord CompensationOutcome :=
  rt ←! borrow_runtime;
  dispatched ←! get rs_current_install_dispatched;
  match classify_remove_configuration rt i, dispatched : bool with
  | Ok ReducedCurrent, _ => observe_remove_commit;! sret CompCommitted
  | Ok configuration, true =>
      sfail (ambiguous ("exact commit state is ambiguous after observing " +:+ configuration_debug configuration +:+
        "; previous-configuration rollback is forbidden without cancellation or quiescence proof"))
  | Err error, true =>
      sfail (ambiguous ("configuration observation is invalid or unavailable; previous-configuration rollback is forbidden without cancellation or quiescence proof: " +:+ error))
  | _, false =>
      enter_remove_compensation failure;!
      expiry ←! get (λ s, rp_compensation_expiry_unix_seconds (rs_progress s));
      expiry ←! slift (ok_or expiry "remove-replica compensation has no derived expiry");
      loop fuel (compensation_turn expiry)
  end.

(** *** After the commit *)

Definition note_absent : coord (option unit) :=
  set_progress (λ p, p <| rp_connection_absent := true |>);!
  publish_remove_progress;!
  sret (Some tt).

Definition connection_turn : coord (option unit) :=
  remove_authority_gate None [ReducedCurrent];!
  rt ←! borrow_runtime;
  if remove_connection_absent rt i then note_absent
  else
    now ←! unix_seconds;
    result ←! attempt (execute_remove_runtime_effect
                         (EffRemoveReplica (rm_target_replica_id i) (rm_target_instance_id i))
                         (i64_saturating_add now (rm_call_timeout_seconds i)) "remove exact target connection");
    remove_authority_gate None [ReducedCurrent];!
    rt ←! borrow_runtime;
    if remove_connection_absent rt i then note_absent
    else
      (match result with Err e => set_error e | Ok _ => sret tt end);!
      wait_for_remove_observation;!
      sret None.

Definition has_peer_authority : bool :=
  negb (none (rm_expected_target_agent_generation i)) && negb (none (rm_target_control_address i))
  && negb (none (rm_target_replicator_address i))
  && bool_decide (rm_target_lifecycle_peer_protocol_version i = Some REPLICA_LIFECYCLE_PEER_PROTOCOL_VERSION).

Definition message_id : string := rm_attempt_id i +:+ ":Retire".

(** Records what is known of the retirement, and publishes it. *)
Definition note_retirement (o : TargetRetirementObservation) (error : option string) : coord unit :=
  set_progress (λ p, p <| rp_target_retirement := o |> <| rp_error := error |>);!
  publish_remove_progress.

Definition peer_call {A} (what : string) (call : coordinator_call) (answer : coordinator_answer call → PeerAnswer A) :
    coord (option (result LifecyclePeerTransportError A)) :=
  match transport_endpoint i with
  | Err e => sret (Some (Err e))
  | Ok _ => r ←! sask call; sret (transport_result what (answer r))
  end.

Definition peer_get_status (deadline timeout : Z) : coord (option (result LifecyclePeerTransportError PeerLifecycleStatus)) :=
  await_remove_clock_bounded (peer_call "status" (AwaitPeerStatus deadline timeout) (λ r, r)) deadline.

Definition peer_execute_stage (deadline timeout : Z) (request : PeerStageRequest) :
    coord (option (result LifecyclePeerTransportError PeerStageObservation)) :=
  await_remove_clock_bounded (peer_call "stage" (AwaitStage deadline timeout request) (λ r, r)) deadline.

Definition retire_request (s : PeerLifecycleStatus) (generation : AgentGeneration) (p : RemoveReplicaProgress) (expiry : Z) :
    PeerStageRequest :=
  let unsigned signature := mkPeerStageRequest REPLICA_LIFECYCLE_PEER_PROTOCOL_VERSION Remove
    RETIRE_STAGE_SEMANTIC_VERSION (rm_operation_id i) (rm_attempt_id i) message_id signature Retire
    (rm_primary_replica_id i) (rm_primary_instance_id i) (rm_primary_agent_generation i) (rm_primary_control_address i)
    (rm_action_id i) (rm_input_signature i) (rm_target_replica_id i) (rm_target_instance_id i) generation
    (pl_peer_control_version s) (rm_epoch i) (remove_configuration_fence i) None None (Some (rm_mode i))
    (rp_commit_observed_unix_seconds p) (Some expiry) (Some (reduced_current_status i)) in
  unsigned (request_signature (unsigned "")).

(** What the target's observation of the stage says of the retirement. *)
Definition stage_retirement (state : PeerStageState) : TargetRetirementObservation :=
  match state with
  | StageAccepted | StageInProgress | StageCompleted => RetInProgress
  | StageStale => RetStale
  | StageFailed | StageRejected | StageConflict => RetFailed
  end.

Definition our_stage (s : PeerLifecycleStatus) : option PeerStageObservation :=
  List.find (λ o, bool_decide (po_message_id o = message_id))
    (option_list (pl_current_action s) ++ rev (pl_retained_terminal_actions s)).

(** A turn ends with the retirement, or goes on with the last observation. *)
Abbreviation turn := (coord (TargetRetirementObservation + TargetRetirementObservation)).

Definition go_on (last : TargetRetirementObservation) : turn := wait_for_remove_observation_only;! sret (inr last).

(** Ends the turn at the expiry, or passes the gate. *)
Definition before_expiry (expiry : Z) (last : TargetRetirementObservation) (t : turn) : turn :=
  now ←! unix_seconds;
  if expiry <=? now then sret (inl (at_expiry last))
  else remove_authority_gate (Some expiry) [ReducedCurrent];! t.

Definition send_retire (expiry : Z) (last : TargetRetirementObservation) (s : PeerLifecycleStatus) : turn :=
  generation ←! slift (ok_or (rm_expected_target_agent_generation i) "remove-replica target generation is missing");
  p ←! get rs_progress;
  let request := retire_request s generation p expiry in
  slift (validate_request request);!
  call_deadline ←! remove_call_deadline expiry (rm_call_timeout_seconds i);
  timeout ←! remove_timeout_duration call_deadline;
  stage_result ←! peer_execute_stage call_deadline timeout request;
  before_expiry expiry last
    (match stage_result with
     | Some (Ok o) =>
         let last := stage_retirement (po_state o) in
         note_retirement last (normalize <$> po_error o);! go_on last
     | Some (Err e) =>
         let last := retirement_observation_from_transport_error e in
         note_retirement last (Some (te_message e));! go_on last
     | None => note_retirement RetUnavailable (Some "target Retire call timed out");! go_on RetUnavailable
     end).

Definition handle_status (expiry : Z) (last : TargetRetirementObservation) (s : PeerLifecycleStatus) : turn :=
  match validate_remove_peer_status i s with
  | Err e => note_retirement RetStale (Some (normalize e));! go_on RetStale
  | Ok _ =>
      if negb (pl_healthy s) && bool_decide (pl_role s = RoleNone) then sret (inl RetCompleted)
      else
        match our_stage s with
        | Some o =>
            let last := stage_retirement (po_state o) in
            note_retirement last (if decide (last = RetInProgress) then None else normalize <$> po_error o);! go_on last
        | None => send_retire expiry last s
        end
  end.

Definition retirement_turn (expiry : Z) (last : TargetRetirementObservation) : turn :=
  before_expiry expiry last
    (call_deadline ←! remove_call_deadline expiry (rm_call_timeout_seconds i);
     timeout ←! remove_timeout_duration call_deadline;
     status ←! peer_get_status call_deadline timeout;
     before_expiry expiry last
       match status with
       | Some (Ok s) => handle_status expiry last s
       | Some (Err e) =>
           let last := retirement_observation_from_transport_error e in
           note_retirement last (Some (te_message e));! go_on last
       | None =>
           note_retirement RetUnavailable (Some "target lifecycle status call timed out");! sret (inr RetUnavailable)
       end).

Fixpoint retire_until (n : nat) (expiry : Z) (last : TargetRetirementObservation) : coord TargetRetirementObservation :=
  match n with
  | O => λ s, Ret (s, Looping)
  | S n =>
      r ←! retirement_turn expiry last;
      match r with inl o => sret o | inr last => retire_until n expiry last end
  end.

Definition ensure_remove_target_retirement : coord TargetRetirementObservation :=
  if decide (rm_mode i = Force ∧ has_peer_authority = false) then
    set_progress (λ p, p <| rp_target_retirement := RetUnavailable |>);!
    publish_remove_progress;!
    sret RetUnavailable
  else if negb has_peer_authority then sfail "scale-down removal lost its frozen target peer authority"
  else
    expiry ←! get (λ s, rp_retirement_expiry_unix_seconds (rs_progress s));
    expiry ←! slift (ok_or expiry "committed removal has no retirement expiry");
    retire_until fuel expiry RetUnavailable.

Definition retirement_error (o : TargetRetirementObservation) : result string (option string) :=
  match o with
  | RetCompleted => Ok None
  | RetUnavailable => Ok (Some "target retirement unavailable before its signed expiry")
  | RetStale => Ok (Some "target retirement became stale before its signed expiry")
  | RetFailed => Ok (Some "target retirement failed before its signed expiry")
  | NotAttempted | RetInProgress => Err "target retirement ended without a terminal observation"
  end.

Definition attest (retirement : TargetRetirementObservation) : coord RemoveReplicaTerminalResult :=
  set_progress (λ p, p <| rp_target_retirement := retirement |>);!
  error ←! slift (retirement_error retirement);
  set_progress (λ p, p <| rp_error := error |>);!
  transition_remove_progress Attesting;!
  remove_authority_gate None [ReducedCurrent];!
  rt ←! borrow_runtime;
  if negb (remove_connection_absent rt i) then sfail "remove-replica final attestation found the old connection"
  else
    let result := if decide (retirement = RetCompleted) then CommittedClean else CommittedDegraded in
    progress ←! get rs_progress;
    slift (validate_terminal progress result);!
    sret result.

Definition run_remove_post_commit : coord RemoveReplicaTerminalResult :=
  observed ←! get (λ s, rp_commit_observed (rs_progress s));
  if negb observed then sfail "post-commit remove path has no commit evidence"
  else
    loop fuel connection_turn;!
    transition_remove_progress RetiringTarget;!
    retirement ←! ensure_remove_target_retirement;
    attest retirement.

(** *** The whole coordinator *)

Definition initial_state : RemoveCoordinatorState :=
  mkRemoveCoordinatorState (first_remove_progress i) false 0.

Definition remove_terminal : coord RemoveReplicaTerminalResult :=
  rt ←! borrow_runtime;
  configuration ←! slift (classify_remove_configuration rt i);
  if decide (configuration = ReducedCurrent) then
    observe_remove_commit;! run_remove_post_commit
  else
    outcome ←! run_remove_pre_commit;
    match outcome with
    | PreCommitted => run_remove_post_commit
    | PreFailed error =>
        recovered ←! recover_remove_pre_commit_failure error;
        match recovered with
        | CompCommitted => run_remove_post_commit
        | CompTerminal result => sret result
        end
    end.

(** The last event sent: what the removal came to. *)
Definition run_remove_replica_coordinator : coord CoordinatorEvent :=
  terminal ←! attempt remove_terminal;
  progress ←! get rs_progress;
  id ←! get current_id;
  let checked :=
    match terminal with
    | Ok result =>
        match validate_terminal_progress i progress result with
        | Ok _ => Ok result
        | Err error => Err ("remove-replica coordinator produced invalid terminal state: " +:+ error)
        end
    | Err error => Err error
    end in
  let ev := mkCoordinatorEvent id (RemoveTerminal checked) in
  sask (SendEvent ev);!
  sret ev.

End coordinator.
