(* ===== verification/RemoveProtocol.v ===== *)
(** What the coordinator of a removal may do, as an automaton over the answers
    it gets and the calls it makes, and the proof that the coordinator of
    [RemoveCoordinator] keeps to it, whatever it is answered. *)

From S2P Require Import Prelude Types Quorum Replicator Lifecycle AddReplica RemoveReplica Control Agent Task RemoveCoordinator.

Set Default Goal Selector "!".
Local Open Scope task_scope.

Abbreviation history := (list (event coordinator_call coordinator_answer)) (only parsing).

(** ** The protocol *)

(** What the agent was told: the progress last published and its sequence
    number; whether the terminal was sent. *)
Record Told := mkTold {
  td_published : RemoveReplicaProgress;
  td_sequence : Z;
  td_ended : bool;
}.

(** Since the last effect, peer call or pause: whether the agent's authority
    for this very phase was seen, and the configuration that the live primary
    then showed; the runtime last seen has no connection to the target. *)
Record Seen := mkSeen {
  sn_told : Told;
  sn_authority : bool;
  sn_configuration : option RemoveConfigurationObservation;
  sn_absent : bool;
}.
#[export] Instance eta_Seen : Settable Seen :=
  {| eta_record r := mkSeen (sn_told r) (sn_authority r) (sn_configuration r) (sn_absent r) |}.

Definition phase_rank (p : RemoveReplicaCoordinatorPhase) : nat :=
  match p with
  | Validating => 0
  | InstallingCatchUpConfiguration => 1
  | WaitingForCatchUpQuorum => 2
  | InstallingCurrentConfiguration => 3
  | Compensating => 4
  | RemovingConnection => 5
  | RetiringTarget => 6
  | Attesting => 7
  end.

Section protocol.
  Context {Ends : Endpoints} (x : CoordinatorExecution) (i : RemoveReplicaIntent).

(** The one effect each phase sends, on the configuration it needs. The
    previous configuration is restored only if installing the reduced one was
    never announced. *)
Definition effect_allowed (σ : Seen) (e : RuntimeEffect) : bool :=
  let p := td_published (sn_told σ) in
  match rp_phase p, sn_configuration σ, e with
  | InstallingCatchUpConfiguration, Some PreviousCurrent, EffUpdateCatchUpConfiguration current previous =>
      bool_decide (materialize (rm_reduced_catch_up_configuration i) None = Ok current
                   ∧ materialize (rm_previous_configuration i) None = Ok previous)
  | WaitingForCatchUpQuorum, Some ReducedCatchUp, EffStartTrackedCatchUpQuorum id QuorumWrite =>
      bool_decide (id = wait_id i)
  | InstallingCurrentConfiguration, Some ReducedCatchUp, EffUpdateCurrentConfiguration current =>
      rp_current_install_dispatched p && bool_decide (materialize (rm_reduced_current_configuration i) None = Ok current)
  | Compensating, Some ReducedCatchUp, EffCancelTrackedOperation id => bool_decide (id = wait_id i)
  | Compensating, Some ReducedCatchUp, EffUpdateCurrentConfiguration current =>
      negb (rp_current_install_dispatched p) && bool_decide (materialize (rm_previous_configuration i) None = Ok current)
  | RemovingConnection, Some ReducedCurrent, EffRemoveReplica id inst =>
      rp_commit_observed p && bool_decide (id = rm_target_replica_id i ∧ inst = rm_target_instance_id i)
  | _, _, _ => false
  end.

(** The target is retired once the agent knows that it is disconnected, by a
    valid request for exactly it, with the announced commit and expiry. *)
Definition stage_allowed (σ : Seen) (r : PeerStageRequest) : bool :=
  let p := td_published (sn_told σ) in
  bool_decide (rp_phase p = RetiringTarget ∧ sn_configuration σ = Some ReducedCurrent)
  && rp_commit_observed p && rp_connection_absent p
  && is_ok (validate_request r)
  && bool_decide (pr_stage r = Retire ∧ pr_epoch r = rm_epoch i
                  ∧ pr_target_replica_id r = rm_target_replica_id i ∧ pr_target_instance_id r = rm_target_instance_id i
                  ∧ Some (pr_expected_target_agent_generation r) = rm_expected_target_agent_generation i
                  ∧ pr_commit_observed_unix_seconds r = rp_commit_observed_unix_seconds p
                  ∧ pr_retirement_expiry_unix_seconds r = rp_retirement_expiry_unix_seconds p
                  ∧ pr_reduced_current_projection r = Some (reduced_current_status i)).

(** Progress is valid, takes the next sequence number, never goes back to an
    earlier phase, keeps the evidence published before, and adds evidence only
    where it was seen. *)
Definition publish_allowed (σ : Seen) (id : CoordinatorExecutionId) (p : RemoveReplicaProgress) : bool :=
  let old := td_published (sn_told σ) in
  let reduced := bool_decide (sn_configuration σ = Some ReducedCurrent) in
  is_ok (validate_progress i p)
  && bool_decide (id = mkCoordinatorExecutionId (cx_generation x) (cx_action_id x) (cx_attempt_id x)
                         (u64_wrapping_add (td_sequence (sn_told σ)) 1))
  && (phase_rank (rp_phase old) <=? phase_rank (rp_phase p))%nat
  && (if rp_commit_observed old then rp_commit_observed p else implb (rp_commit_observed p) reduced)
  && (if rp_connection_absent old then rp_connection_absent p
      else implb (rp_connection_absent p) (reduced && sn_absent σ))
  && (if rp_current_install_dispatched old then rp_current_install_dispatched p
      else implb (rp_current_install_dispatched p) (bool_decide (rp_phase p = InstallingCurrentConfiguration))).

(** A terminal result is one that the progress last published supports, so
    that the agent accepts it, and was seen to hold. *)
Definition terminal_allowed (σ : Seen) (id : CoordinatorExecutionId) (r : result string RemoveReplicaTerminalResult) : bool :=
  bool_decide (id = mkCoordinatorExecutionId (cx_generation x) (cx_action_id x) (cx_attempt_id x) (td_sequence (sn_told σ)))
  && match r with
     | Err _ => true
     | Ok r =>
         is_ok (validate_terminal_progress i (td_published (sn_told σ)) r)
         && match r with
            | CommittedClean | CommittedDegraded =>
                bool_decide (sn_configuration σ = Some ReducedCurrent) && sn_absent σ
            | Compensated => bool_decide (sn_configuration σ = Some PreviousCurrent)
            | CompensationIncomplete => true
            end
     end.

Definition exact_authority (σ : Seen) (a : option CoordinatorAuthority) : bool :=
  match a with
  | Some a => own_authority x i a && (ca_phase_sequence a =? td_sequence (sn_told σ))
  | None => false
  end.

(** What a look at the runtime shows under the agent's authority. *)
Definition shown (rt : RuntimeControlSnapshot) : option RemoveConfigurationObservation :=
  if live_primary rt i then match classify_remove_configuration rt i with Ok c => Some c | Err _ => None end else None.

Definition forget (σ : Seen) : Seen := σ <| sn_authority := false |> <| sn_configuration := None |>.

Definition allow (b : bool) (σ : Seen) : option Seen := if b then Some σ else None.

Definition protocol_step (o : option Seen) (ev : event coordinator_call coordinator_answer) : option Seen :=
  match o with
  | None => None
  | Some σ =>
      if td_ended (sn_told σ) then None
      else
        match ev with
        | existT AskClock _ => Some σ
        | existT BorrowAuthority a => Some (σ <| sn_authority := exact_authority σ a |>)
        | existT AwaitAuthority _ => Some (σ <| sn_authority := false |>)
        | existT BorrowStatus rt =>
            Some (σ <| sn_authority := false |> <| sn_absent := remove_connection_absent rt i |>
                    <| sn_configuration ::= λ c, if sn_authority σ then shown rt else c |>)
        | existT (AwaitEffect _ e) _ => allow (effect_allowed σ e) (forget σ)
        | existT (AwaitPeerStatus _ _) _ => Some (forget σ)
        | existT (AwaitStage _ _ r) _ => allow (stage_allowed σ r) (forget σ)
        | existT AwaitObservation _ | existT AwaitAuthorityOrSleep _ => Some (forget σ)
        | existT (SendEvent ev) _ =>
            match cv_update ev with
            | RemoveProgress p =>
                allow (publish_allowed σ (cv_execution_id ev) p)
                  (σ <| sn_told := mkTold p (ce_phase_sequence (cv_execution_id ev)) false |> <| sn_authority := false |>)
            | RemoveTerminal r =>
                allow (terminal_allowed σ (cv_execution_id ev) r)
                  (σ <| sn_told := mkTold (td_published (sn_told σ)) (td_sequence (sn_told σ)) true |>)
            | _ => None
            end
        end
  end.

(** At first the agent knows the progress it accepted the intent with. *)
Definition initial_seen : Seen := mkSeen (mkTold (first_remove_progress i) 0 false) false None false.

Definition protocol (h : history) : option Seen := foldl protocol_step (Some initial_seen) h.

Lemma protocol_snoc h ev : protocol (h ++ [ev]) = protocol_step (protocol h) ev.
Proof. unfold protocol. by rewrite foldl_app. Qed.

End protocol.

(** ** The coordinator keeps to it *)

Section refinement.
  Context {Ends : Endpoints} (fuel : nat) (x : CoordinatorExecution) (i : RemoveReplicaIntent).
  Context (Hi : validate_remove_intent i = Ok tt).
  Abbreviation protocol := (protocol x i).
  Abbreviation state := RemoveCoordinatorState.
  Abbreviation relation := (Told → state → Prop).

(** The agent and the coordinator agree on the phase number. *)
Definition alive (t : Told) (s : state) : Prop := td_ended t = false ∧ td_sequence t = rs_phase_sequence s.

(** The history keeps to the protocol, [I] relates what was told to the
    coordinator's state, and [P] holds of what was seen. *)
Definition seen (P : Seen → Prop) (I : relation) : @assertion _ coordinator_answer state := λ h s,
  ∃ σ, protocol h = Some σ ∧ alive (sn_told σ) s ∧ I (sn_told σ) s ∧ P σ.
Definition holds (I : relation) : @assertion _ coordinator_answer state := seen (λ _, True) I.
Definition shows (c : RemoveConfigurationObservation) (I : relation) : @assertion _ coordinator_answer state :=
  seen (λ σ, sn_configuration σ = Some c) I.
Definition sound : @assertion _ coordinator_answer state :=
  λ h _, ∃ σ, protocol h = Some σ ∧ td_ended (sn_told σ) = false.

Lemma seen_holds P I h s : seen P I h s → holds I h s.
Proof. intros (σ & ? & ? & ? & ?). by exists σ. Qed.
Lemma holds_sound I h s : holds I h s → sound h s.
Proof. intros (σ & ? & [? _] & _). by exists σ. Qed.
Lemma seen_mono (P P' : Seen → Prop) (I I' : relation) h s :
  seen P I h s → (∀ σ, I (sn_told σ) s → P σ → P' σ) → (∀ t, alive t s → I t s → I' t s) → seen P' I' h s.
Proof. intros (σ & ? & ? & ? & ?) HP HI. exists σ. split_and!; auto. Qed.
Lemma holds_mono (I I' : relation) h s : holds I h s → (∀ t, alive t s → I t s → I' t s) → holds I' h s.
Proof. intros H HI. eapply seen_mono; [exact H|done|done]. Qed.

(** A change of the coordinator's progress. *)
Lemma seen_update P (I I' : relation) h s s' :
  seen P I h s → rs_phase_sequence s' = rs_phase_sequence s → (∀ t, I t s → I' t s') → seen P I' h s'.
Proof.
  intros (σ & ? & [? ?] & ? & ?) Hs HI. exists σ. split_and!; [done| |by apply HI|done]. split; [done|by rewrite Hs].
Qed.

Lemma protocol_next h ev σ :
  protocol h = Some σ → td_ended (sn_told σ) = false →
  protocol (h ++ [ev]) = protocol_step x i (Some σ) ev.
Proof. intros H _. by rewrite protocol_snoc, H. Qed.

(** One more event, in a history that is alive. *)
Ltac next := erewrite protocol_next; [|eassumption|assumption]; simpl.

(** *** Asking *)

(** Questions that change nothing. *)
Lemma wp_clock {A} (bad : assertion) (f : Z → coord A) (good : history → state → A → Prop) P I s h :
  (∀ now h, seen P I h s → wp (f now s) (leads sound good bad) h) →
  seen P I h s → wp (sbind unix_seconds f s) (leads sound good bad) h.
Proof.
  intros Hf (σ & H & [He Hq] & HI & HP) now. simpl. apply Hf. exists σ.
  split_and!; [|done..]. next. by rewrite He.
Qed.

Lemma wp_runtime {A} (bad : assertion) (f : RuntimeControlSnapshot → coord A) (good : history → state → A → Prop) P I s h :
  (∀ rt h, holds I h s → wp (f rt s) (leads sound good bad) h) →
  seen P I h s → wp (sbind borrow_runtime f s) (leads sound good bad) h.
Proof.
  intros Hf (σ & H & [He Hq] & HI & HP) rt. simpl. apply Hf. eexists.
  split_and!; [next; by rewrite He|done..].
Qed.

(** Looking once more where a configuration was shown. *)
Lemma wp_look {A} (bad : assertion) (f : RuntimeControlSnapshot → coord A) (good : history → state → A → Prop) c I s h :
  (∀ rt h, seen (λ σ, sn_configuration σ = Some c ∧ sn_absent σ = remove_connection_absent rt i ∧ sn_authority σ = false) I h s →
     wp (f rt s) (leads sound good bad) h) →
  seen (λ σ, sn_configuration σ = Some c ∧ sn_authority σ = false) I h s →
  wp (sbind borrow_runtime f s) (leads sound good bad) h.
Proof.
  intros Hf (σ & H & [He Hq] & HI & HP & Ha) rt. simpl. apply Hf. eexists.
  split_and!; [next; by rewrite He|done..| |done|done]. simpl. by rewrite Ha.
Qed.

Lemma wp_pause I s h : holds I h s → wp (wait_for_remove_observation s) (leads sound (λ h s _, holds I h s) (holds I)) h.
Proof.
  intros (σ & H & [He Hq] & HI & _) w. simpl.
  assert (holds I (h ++ [existT AwaitObservation w]) s).
  { eexists. split_and!; [next; by rewrite He|done..]. }
  destruct w as [[]|[]|]; done.
Qed.

Lemma wp_pause_only I s h :
  holds I h s → wp (wait_for_remove_observation_only s) (leads sound (λ h s _, holds I h s) (holds I)) h.
Proof.
  intros (σ & H & [He Hq] & HI & _) w. simpl.
  assert (holds I (h ++ [existT AwaitAuthorityOrSleep w]) s).
  { eexists. split_and!; [next; by rewrite He|done..]. }
  destruct w as [[]|]; done.
Qed.

(** *** Authority *)

Lemma wp_authority σ h s (good : history → state → unit → Prop) (bad : assertion) :
  protocol h = Some σ → alive (sn_told σ) s →
  (∀ h', protocol h' = Some (σ <| sn_authority := true |>) → good h' s tt) →
  (∀ h' b, protocol h' = Some (σ <| sn_authority := b |>) → bad h' s) →
  wp (wait_for_remove_authority fuel x i s) (leads sound good bad) h.
Proof.
  intros H [He Hq] Hg Hb. unfold wait_for_remove_authority.
  apply (wp_loop _ _ (λ h' s', s' = s ∧ ∃ b, protocol h' = Some (σ <| sn_authority := b |>))).
  - intros h' s' (_ & b & ?). eexists. split; [done|exact He].
  - clear h H. intros h s' (-> & b & H). apply wp_get. intros a. simpl.
    assert (protocol (h ++ [existT BorrowAuthority a]) = Some (σ <| sn_authority := exact_authority x i σ a |>)) as H'.
    { next. by rewrite He. }
    destruct a as [a|]; [|by eapply Hb]. simpl in H'. rewrite Hq in H'.
    destruct (own_authority x i a) eqn:Ho; simpl in *; [|by eapply Hb].
    destruct (_ =? _) eqn:Heq; simpl in *; [by apply Hg|].
    destruct (_ <? _); [|by eapply Hb]. intros open. simpl.
    match goal with |- wp (_ _) _ (?h' ++ [?ev]) => assert (protocol (h' ++ [ev]) = Some (σ <| sn_authority := false |>)) as H'' by (next; by rewrite He) end.
    destruct open; simpl; [by split; [|exists false]|by eapply Hb].
  - split; [done|]. exists (sn_authority σ). by destruct σ.
Qed.

Lemma wp_gate deadline allowed I h s :
  holds I h s →
  wp (remove_authority_gate fuel x i deadline allowed s)
    (leads sound (λ h s c, seen (λ σ, sn_configuration σ = Some c ∧ sn_authority σ = false) I h s ∧ c ∈ allowed) (holds I)) h.
Proof.
  intros (σ & H & [He Hq] & HI & _). unfold remove_authority_gate.
  eapply (wp_sbind _ _ _ _ (λ h s' _, s' = s ∧ protocol h = Some (σ <| sn_authority := true |>))).
  { apply (wp_authority σ); [done..| |]; [done|]. intros h' b H'. by eexists. }
  clear h H. intros h s' _ [-> H].
  eapply (wp_sbind _ _ _ _ (λ h s' _, s' = s ∧ protocol h = Some (σ <| sn_authority := true |>))).
  { destruct deadline; [|done]. intros now. simpl. split; [done|]. next. by rewrite He. }
  clear h H. intros h s' [] [-> H]; [by eexists|].
  intros rt. simpl. assert (holds I (h ++ [existT BorrowStatus rt]) s) as Hh.
  { eexists. split_and!; [next; by rewrite He|done..]. }
  destruct (live_primary rt i) eqn:Hl; simpl; [|done].
  apply wp_slift; [done|]. intros c Hc. case_decide; [|done].
  split; [|done]. eexists. split_and!; [next; by rewrite He|done|done| |done]. simpl. unfold shown. by rewrite Hl, Hc.
Qed.

(** *** Effects *)

Lemma wp_effect e deadline operation I h s :
  seen (λ σ, effect_allowed i σ e = true) I h s →
  wp (execute_remove_runtime_effect i e deadline operation s) (leads sound (λ h s _, holds I h s) (holds I)) h.
Proof.
  intros H. unfold execute_remove_runtime_effect.
  eapply (wp_sbind _ _ _ _ (λ h s _, seen (λ σ, effect_allowed i σ e = true) I h s)).
  { eapply wp_clock; [|exact H]. clear h H. intros now h H. case_match; simpl; [|done].
    unfold leads. simpl. by eapply seen_holds. }
  clear h s H. intros h s call_deadline H.
  eapply (wp_sbind _ _ _ _ (λ h s _, holds I h s)).
  { eapply wp_clock; [|exact H]. clear h H. intros now h H. case_match; simpl; [by eapply seen_holds|].
    intros r. unfold leads. simpl. destruct H as (σ & H & [He Hq] & HI & HP).
    eexists. split_and!; [next; by rewrite He, HP|done..]. }
  clear h s H. intros h s [[[|]|]|] H; done.
Qed.

(** An effect whose failure is only looked at. *)
Lemma wp_try_effect e deadline operation I h s (bad : assertion) :
  seen (λ σ, effect_allowed i σ e = true) I h s →
  wp (attempt (execute_remove_runtime_effect i e deadline operation) s) (leads sound (λ h s _, holds I h s) bad) h.
Proof.
  intros H. eapply leads_mono; [eapply (wp_attempt _ _ bad), wp_effect, H|by intros ?? []|done].
Qed.

Lemma wp_try_gate deadline allowed I h s (bad : assertion) :
  holds I h s →
  wp (attempt (remove_authority_gate fuel x i deadline allowed) s)
    (leads sound (λ h s r, match r with
       | Ok c => seen (λ σ, sn_configuration σ = Some c ∧ sn_authority σ = false) I h s ∧ c ∈ allowed
       | Err _ => holds I h s end) bad) h.
Proof. intros H. eapply (wp_attempt _ _ bad), wp_gate, H. Qed.

(** *** Publishing *)

Definition bump (s : state) : state := s <| rs_phase_sequence ::= λ n, u64_wrapping_add n 1 |>.
Definition told_now (s : state) : Told := mkTold (rs_progress s) (rs_phase_sequence s) false.

Lemma wp_publish σ h s (good : history → state → unit → Prop) (bad : assertion) :
  protocol h = Some σ → alive (sn_told σ) s →
  (validate_progress i (rs_progress s) = Ok tt →
     publish_allowed x i σ (current_id x (bump s)) (rs_progress s) = true) →
  (∀ h', validate_progress i (rs_progress s) = Ok tt →
     protocol h' = Some (mkSeen (told_now (bump s)) true (sn_configuration σ) (sn_absent σ)) → good h' (bump s) tt) →
  (validate_progress i (rs_progress s) ≠ Ok tt → bad h s) →
  (∀ h' b, validate_progress i (rs_progress s) = Ok tt →
     protocol h' = Some (mkSeen (told_now (bump s)) b (sn_configuration σ) (sn_absent σ)) → bad h' (bump s)) →
  wp (publish_remove_progress fuel x i s) (leads sound good bad) h.
Proof.
  intros H [He Hq] Hp Hg Hu Hb. unfold publish_remove_progress. apply wp_get.
  destruct (validate_progress i (rs_progress s)) as [[]|] eqn:Hv; [|by apply Hu]. specialize (Hp eq_refl).
  apply wp_update. apply wp_get. intros open. simpl.
  assert (protocol (h ++ [existT (SendEvent (mkCoordinatorEvent (current_id x (bump s)) (RemoveProgress (rs_progress s)))) open])
          = Some (mkSeen (told_now (bump s)) false (sn_configuration σ) (sn_absent σ))) as H'.
  { next. by rewrite He, Hp. }
  destruct open; [|by eapply Hb]. eapply wp_authority; [exact H'|done| |].
  - intros h' Hh. by apply Hg.
  - intros h' b Hh. by eapply Hb.
Qed.

(** *** Progress *)

Lemma valid_uncommitted q :
  validate_progress i q = Ok tt → rp_commit_observed q = false →
  (phase_rank (rp_phase q) ≤ 4)%nat ∧ rp_connection_absent q = false ∧ rp_target_retirement q = NotAttempted ∧
  rp_commit_observed_unix_seconds q = None ∧ rp_retirement_expiry_unix_seconds q = None.
Proof.
  intros H Hc. unfold validate_progress in H. apply bind_Ok in H as ([] & H & _).
  pose proof (progress_fields_cases q H) as (_ & _ & Hf). rewrite Hc in Hf. destruct Hf as (? & ? & ? & ?).
  split_and!; [|done..]. unfold validate_progress_fields in H. do 4 apply bind_Ok in H as ([] & _ & H).
  apply bind_Ok in H as ([] & Hp & _). unfold validate_phase in Hp. rewrite Hc in Hp.
  destruct (rp_phase q); simpl in *; (done || lia).
Qed.

Lemma valid_compensating q :
  validate_progress i q = Ok tt → rp_phase q = Compensating →
  rp_commit_observed q = false ∧ is_Some (rp_compensation_expiry_unix_seconds q).
Proof.
  intros H Hp. unfold validate_progress in H. apply bind_Ok in H as ([] & H & _).
  unfold validate_progress_fields in H. do 4 apply bind_Ok in H as ([] & _ & H).
  apply bind_Ok in H as ([] & Hv & _). unfold validate_phase in Hv. rewrite Hp in Hv. apply reject_if_Ok in Hv. guards.
  split; [done|]. by destruct (rp_compensation_expiry_unix_seconds q).
Qed.

Lemma attempt_named : rm_attempt_id i ≠ "".
Proof.
  pose proof Hi as H. unfold validate_remove_intent in H. apply bind_Ok in H as ([] & _ & H).
  apply bind_Ok in H as ([] & Hn%reject_if_Ok & _). unfold empty in Hn. guards. done.
Qed.

(** Noting the commit always makes valid progress. *)
Lemma commit_valid p t e :
  rp_attempt_id p = rm_attempt_id i → rp_target_retirement p = NotAttempted → retirement_expiry i t = Ok e →
  validate_progress i
    (p <| rp_commit_observed := true |> <| rp_commit_observed_unix_seconds := Some t |>
       <| rp_retirement_expiry_unix_seconds := Some e |> <| rp_compensation_expiry_unix_seconds := None |>
       <| rp_error := None |> <| rp_phase := RemovingConnection |>) = Ok tt.
Proof.
  intros Ha Hr He. destruct (retirement_expiry_bounds i t e Hi He) as (Ht & Hte & _ & _). pose proof attempt_named as Hn.
  unfold validate_progress, validate_progress_fields, validate_phase. simpl. rewrite Ha, Hr, He. simpl.
  unfold empty. rewrite (bool_decide_eq_false_2 (rm_attempt_id i = "")) by done. unfold nonpositive.
  rewrite (proj2 (Z.leb_gt t 0)) by lia. rewrite (proj2 (Z.leb_gt e 0)) by lia. rewrite (proj2 (Z.ltb_ge e t)) by lia.
  simpl. rewrite andb_false_r. simpl. rewrite !bool_decide_eq_true_2 by done. done.
Qed.

Lemma first_valid : validate_progress i (first_remove_progress i) = Ok tt.
Proof.
  pose proof attempt_named as Hn. unfold validate_progress, validate_progress_fields. simpl.
  unfold empty. rewrite (bool_decide_eq_false_2 (rm_attempt_id i = "")) by done. simpl.
  by rewrite bool_decide_eq_true_2 by done.
Qed.

(** *** Until the commit *)

(** Whatever happens before the commit is observed, this much holds: what was
    told is valid, the announced installation is known, and a commit is known
    exactly when it was told, in the phase that follows it. *)
Record base (t : Told) (s : state) : Prop := mkBase {
  bs_valid : validate_progress i (td_published t) = Ok tt;
  bs_attempt : rp_attempt_id (rs_progress s) = rm_attempt_id i;
  bs_commit : rp_commit_observed (rs_progress s) = rp_commit_observed (td_published t);
  bs_install : rp_current_install_dispatched (rs_progress s) = rs_current_install_dispatched s;
  bs_announced : rp_current_install_dispatched (td_published t) = rs_current_install_dispatched s;
  bs_before : rp_commit_observed (rs_progress s) = false →
    rp_target_retirement (rs_progress s) = NotAttempted ∧ rp_connection_absent (rs_progress s) = false;
  bs_after : rp_commit_observed (rs_progress s) = true →
    rs_progress s = td_published t ∧ rp_phase (td_published t) = RemovingConnection;
}.

Definition committed : relation := λ t s, base t s ∧ rp_commit_observed (rs_progress s) = true.
Definition pre (ph : RemoveReplicaCoordinatorPhase) : relation := λ t s,
  base t s ∧ rp_commit_observed (rs_progress s) = false ∧ rs_current_install_dispatched s = false ∧
  rp_phase (td_published t) = ph ∧ rs_progress s = td_published t.

Lemma pre_base ph P h s : seen P (pre ph) h s → holds base h s.
Proof. intros H. eapply seen_mono; [exact H|done|]. by intros t _ []. Qed.
Lemma committed_base P h s : seen P committed h s → holds base h s.
Proof. intros H. eapply seen_mono; [exact H|done|]. by intros t _ []. Qed.

Lemma wp_transition ph0 ph h s :
  (phase_rank ph0 ≤ phase_rank ph ≤ 3)%nat → holds (pre ph0) h s →
  wp (transition_remove_progress fuel x i ph s) (leads sound (λ h s _, holds (pre ph) h s) (holds base)) h.
Proof.
  intros Hr (σ & H & Ha & (Hb & Hc & Hd & Hp & _) & _). apply wp_update.
  destruct (valid_uncommitted _ (bs_valid _ _ Hb)) as (Hrank & Habs & Hret & _); [by rewrite <-(bs_commit _ _ Hb)|].
  destruct (bs_before _ _ Hb Hc) as [Hr0 Ha0].
  set (s' := s <| rs_progress ::= λ p, p <| rp_phase := ph |> |>).
  assert (∀ b, validate_progress i (rs_progress s') = Ok tt → ∀ h',
    protocol h' = Some (mkSeen (told_now (bump s')) b (sn_configuration σ) (sn_absent σ)) → holds (pre ph) h' (bump s')) as Hgood.
  { intros b Hv h' Hh. eexists. split_and!; [exact Hh|done| |done]. split_and!; try done. destruct Hb.
    split; simpl; congruence || done. }
  apply (wp_publish σ); [done|exact Ha| | | |].
  - intros Hv. unfold publish_allowed. simpl in *. rewrite Hv. simpl. rewrite (proj2 Ha), bool_decide_eq_true_2 by done.
    rewrite Hp, (proj2 (Nat.leb_le _ _)) by lia.
    by rewrite <-(bs_commit _ _ Hb), Hc, Habs, Ha0, (bs_announced _ _ Hb), (bs_install _ _ Hb), Hd.
  - intros h' Hv Hh. by eapply Hgood.
  - intros _. eexists. split_and!; [exact H|exact Ha| |done]. destruct Hb. split; simpl in *; (done || congruence).
  - intros h' b Hv Hh. eapply pre_base. by eapply Hgood.
Qed.


Lemma wp_observe h s :
  holds base h s → wp (observe_remove_commit fuel x i s) (leads sound (λ h s _, holds committed h s) (holds base)) h.
Proof.
  intros H. unfold observe_remove_commit. eapply wp_sbind; [by apply wp_gate|]. clear h s H.
  intros h s c [H ->%list_elem_of_singleton]. apply wp_get.
  destruct (rp_commit_observed (rs_progress s)) eqn:Hc.
  { destruct H as (σ & H & Ha & Hb & _). exists σ. by split_and!. }
  eapply wp_clock; [|exact H]. clear h H. intros now h H. apply wp_slift; [by eapply seen_holds|]. intros e He.
  do 2 apply wp_update. destruct H as (σ & H & Ha & Hb & Hcf & _).
  match goal with |- wp (_ ?st) _ _ => set (s' := st) end.
  assert (validate_progress i (rs_progress s') = Ok tt) as Hv.
  { apply commit_valid; [by apply bs_attempt in Hb|by apply (bs_before _ _ Hb)|done]. }
  destruct (valid_uncommitted _ (bs_valid _ _ Hb)) as (Hrank & Habs & Hret & _); [by rewrite <-(bs_commit _ _ Hb)|].
  destruct (bs_before _ _ Hb Hc) as [Hr0 Ha0].
  assert (∀ b h', protocol h' = Some (mkSeen (told_now (bump s')) b (sn_configuration σ) (sn_absent σ)) →
    holds committed h' (bump s')) as Hgood.
  { intros b h' Hh. eexists. split_and!; [exact Hh|done| |done]. split; [|done]. destruct Hb.
    split; simpl; congruence || done. }
  apply (wp_publish σ); [done|exact Ha| | | |].
  - intros _. unfold publish_allowed. simpl in *. rewrite Hv. simpl. rewrite (proj2 Ha), !bool_decide_eq_true_2 by done.
    rewrite (proj2 (Nat.leb_le _ _)) by lia.
    rewrite <-(bs_commit _ _ Hb), Hc, Habs, Ha0, (bs_announced _ _ Hb), (bs_install _ _ Hb). simpl.
    by destruct (rs_current_install_dispatched s).
  - intros h' _ Hh. by eapply Hgood.
  - done.
  - intros h' b _ Hh. eapply committed_base. by eapply Hgood.
Qed.

(** *** Installing the reduced configuration *)

(** Ends with the commit, or in a phase before it. *)
Definition or_committed (ph : RemoveReplicaCoordinatorPhase) (h : history) (s : state) (c : bool) : Prop :=
  if c then holds committed h s else holds (pre ph) h s.

Lemma wp_observe_then {A} (a : A) (good : history → state → A → Prop) h s :
  holds base h s → (∀ h s, holds committed h s → good h s a) →
  wp (sbind (observe_remove_commit fuel x i) (λ _, sret a) s) (leads sound good (holds base)) h.
Proof. intros H Hg. eapply wp_sbind; [by apply wp_observe|]. intros h' s' [] H'. by apply Hg. Qed.

Lemma install_catch_up_wp h s :
  holds (pre Validating) h s →
  wp (install_catch_up fuel x i s) (leads sound (or_committed InstallingCatchUpConfiguration) (holds base)) h.
Proof.
  intros H. unfold install_catch_up. eapply wp_sbind; [apply (wp_transition Validating); [simpl; lia|done]|].
  clear h s H. intros h s [] H. cbv beta in H. eapply wp_sbind.
  { eapply leads_mono; [by apply wp_gate|done|apply pre_base]. }
  clear h s H. intros h s c [H _].
  destruct c; [|apply wp_sret; by eapply seen_holds|apply wp_observe_then; [by eapply pre_base|done]].
  apply wp_slift; [by eapply pre_base|]. intros current Hcur. apply wp_slift; [by eapply pre_base|]. intros previous Hprev.
  eapply wp_sbind; [apply (wp_try_effect _ _ _ (pre InstallingCatchUpConfiguration))|].
  { eapply seen_mono; [exact H| |done]. intros σ (_ & _ & _ & Hp & _) [Hc _]. unfold effect_allowed.
    rewrite Hp, Hc. by apply bool_decide_eq_true_2. }
  clear h s H. intros h s effect_result H. cbv beta in H. eapply wp_sbind.
  { eapply leads_mono; [by apply wp_gate|done|apply pre_base]. }
  clear h s H. intros h s c [H _].
  destruct c; [destruct effect_result; apply wp_sfail; by eapply pre_base|apply wp_sret; by eapply seen_holds|apply wp_observe_then; [by eapply pre_base|done]].
Qed.

(** One turn of waiting: done, or waiting on. *)
Lemma catch_up_turn_wp h s :
  holds (pre WaitingForCatchUpQuorum) h s →
  wp (catch_up_turn fuel x i s)
    (leads sound (λ h s r, match r with Some c => or_committed WaitingForCatchUpQuorum h s c
                           | None => holds (pre WaitingForCatchUpQuorum) h s end) (holds base)) h.
Proof.
  intros H. unfold catch_up_turn. eapply wp_sbind.
  { eapply leads_mono; [by apply wp_gate|done|apply pre_base]. }
  clear h s H. intros h s c [H Hin]. case_decide as Hc.
  { apply wp_observe_then; [by eapply pre_base|done]. }
  assert (c = ReducedCatchUp) as -> by (unfold reduced_configuration in Hin; set_solver).
  eapply wp_look; [|exact H]. clear h H. intros rt h H.
  assert (∀ h s, holds (pre WaitingForCatchUpQuorum) h s →
    wp (sbind wait_for_remove_observation (λ _, sret (@None bool)) s)
      (leads sound (λ h s r, match r with Some c => or_committed WaitingForCatchUpQuorum h s c
                             | None => holds (pre WaitingForCatchUpQuorum) h s end) (holds base)) h) as Hpause.
  { clear h s H. intros h s H. eapply wp_sbind.
    { eapply leads_mono; [by apply wp_pause|done|apply pre_base]. }
    intros h' s' [] H'. by apply wp_sret. }
  destruct (quorum_wait_of i rt) as [o|].
  - destruct (rq_state o); [|apply wp_sret; by eapply seen_holds|apply wp_sfail; by eapply pre_base..].
    apply Hpause. by eapply seen_holds.
  - eapply wp_sbind.
    { eapply leads_mono; [eapply wp_effect|done|apply pre_base]. eapply seen_mono; [exact H| |done].
      intros σ (_ & _ & _ & Hp & _) [Hcf _]. unfold effect_allowed. rewrite Hp, Hcf. by apply bool_decide_eq_true_2. }
    clear h s H. intros h s [] H. cbv beta in H. eapply wp_sbind.
    { eapply leads_mono; [by apply wp_gate|done|apply pre_base]. }
    intros h' s' c [H' _]. apply Hpause. by eapply seen_holds.
Qed.

Lemma await_catch_up_wp h s :
  holds (pre InstallingCatchUpConfiguration) h s →
  wp (await_catch_up fuel x i s) (leads sound (or_committed WaitingForCatchUpQuorum) (holds base)) h.
Proof.
  intros H. unfold await_catch_up. eapply wp_sbind; [eapply wp_transition; [|exact H]; simpl; lia|].
  clear h s H. intros h s [] H. cbv beta in H. apply (wp_loop _ _ (holds (pre WaitingForCatchUpQuorum))); [apply holds_sound| |done].
  intros h' s' H'. by apply catch_up_turn_wp.
Qed.

(** Announcing the installation is valid wherever its phase was reached. *)
Lemma announce_valid p :
  validate_progress i p = Ok tt → rp_phase p = InstallingCurrentConfiguration →
  validate_progress i (p <| rp_current_install_dispatched := true |>) = Ok tt.
Proof.
  intros H Hp. unfold validate_progress, validate_progress_fields, validate_phase in *. simpl. rewrite Hp in *. simpl in *.
  by rewrite andb_false_r in H.
Qed.

Definition announced : relation := λ t s,
  base t s ∧ rp_commit_observed (rs_progress s) = false ∧ rp_phase (td_published t) = InstallingCurrentConfiguration ∧
  rp_current_install_dispatched (td_published t) = true.

Lemma announced_base P h s : seen P announced h s → holds base h s.
Proof. intros H. eapply seen_mono; [exact H|done|]. by intros t _ []. Qed.

Lemma install_current_wp h s :
  holds (pre WaitingForCatchUpQuorum) h s →
  wp (install_current fuel x i s) (leads sound (λ h s _, holds committed h s) (holds base)) h.
Proof.
  intros H. unfold install_current. eapply wp_sbind; [eapply wp_transition; [|exact H]; simpl; lia|].
  clear h s H. intros h s [] H. cbv beta in H. eapply wp_sbind.
  { eapply leads_mono; [by apply wp_gate|done|apply pre_base]. }
  clear h s H. intros h s c [H Hin].
  eapply (wp_sbind _ _ _ _ (λ h s _, holds base h s)); [|intros h' s' [] H'; by apply wp_observe].
  case_decide as Hc; [apply wp_sret; by eapply pre_base|].
  assert (c = ReducedCatchUp) as -> by (unfold reduced_configuration in Hin; set_solver).
  apply wp_update. match goal with |- wp (_ ?st) _ _ => set (s' := st) end.
  eapply (wp_sbind _ _ _ _ (λ h s _, shows ReducedCatchUp announced h s)).
  { destruct H as (σ & H & Ha & (Hb & Hcm & Hd & Hp & Heq) & Hcf & _).
    assert (validate_progress i (rs_progress s') = Ok tt) as Hv.
    { apply (announce_valid (rs_progress s)); rewrite Heq; [by apply (bs_valid _ _ Hb)|done]. }
    destruct (bs_before _ _ Hb Hcm) as [_ Ha0].
    assert (∀ b h', protocol h' = Some (mkSeen (told_now (bump s')) b (sn_configuration σ) (sn_absent σ)) →
      shows ReducedCatchUp announced h' (bump s')) as Hgood.
    { intros b h' Hh. eexists. split_and!; [exact Hh|done| |done]. split_and!; simpl; try (done || congruence). destruct Hb.
      split; simpl; congruence || done. }
    apply (wp_publish σ); [done|exact Ha| | | |].
    - intros _. unfold publish_allowed. simpl in *. rewrite Hv. simpl. rewrite (proj2 Ha), bool_decide_eq_true_2 by done.
      rewrite Heq in Hcm, Ha0 |- *. by rewrite Hp, Hcm, Ha0, (bs_announced _ _ Hb), Hd.
    - intros h' _ Hh. by eapply Hgood.
    - done.
    - intros h' b _ Hh. eapply announced_base. by eapply Hgood. }
  clear s' h s H. intros h s [] H. apply wp_slift; [by eapply announced_base|]. intros current Hcur.
  eapply wp_sbind; [apply (wp_try_effect _ _ _ announced)|].
  { eapply seen_mono; [exact H| |done]. intros σ (_ & _ & Hp & Hq) Hcf. unfold effect_allowed.
    rewrite Hp, Hcf, Hq. by apply bool_decide_eq_true_2. }
  clear h s H. intros h s r H. cbv beta in H. eapply wp_sbind.
  { eapply (wp_try_gate _ _ announced), H. }
  clear h s H. intros h s [c|e] H; cbv beta iota in H.
  - destruct H as [H%seen_holds%announced_base _].
    destruct c, r; first [by apply wp_sret|by apply wp_sfail].
  - apply announced_base in H. destruct r; by apply wp_sfail.
Qed.

Lemma remove_pre_commit_wp h s :
  holds (pre Validating) h s →
  wp (remove_pre_commit fuel x i s) (leads sound (λ h s _, holds committed h s) (holds base)) h.
Proof.
  intros H. unfold remove_pre_commit. eapply wp_sbind; [by apply install_catch_up_wp|]. clear h s H.
  intros h s [] H; [done|]. eapply wp_sbind; [by apply await_catch_up_wp|]. clear h s H.
  intros h s [] H; [done|]. by apply install_current_wp.
Qed.

(** *** Compensation *)

(** Where the coordinator gives up, only this matters. *)
Definition lively : @assertion _ coordinator_answer state := holds (λ _ _, True).
Lemma seen_lively P I h s : seen P I h s → lively h s.
Proof. intros H. by eapply seen_mono. Qed.

Definition same_but_error (p q : RemoveReplicaProgress) : Prop := p = q <| rp_error := rp_error p |>.

Lemma same_but_error_refl p : same_but_error p p.
Proof. by destruct p. Qed.

Lemma same_but_error_set p q e : same_but_error p q → same_but_error (p <| rp_error := e |>) q.
Proof. unfold same_but_error. intros ->. done. Qed.

Definition compensating : relation := λ t s,
  base t s ∧ rp_commit_observed (rs_progress s) = false ∧ rs_current_install_dispatched s = false ∧
  rp_phase (td_published t) = Compensating ∧ same_but_error (rs_progress s) (td_published t).

Lemma compensating_base P h s : seen P compensating h s → holds base h s.
Proof. intros H. eapply seen_mono; [exact H|done|]. by intros t _ []. Qed.

Lemma compensating_error e t s :
  compensating t s → compensating t (s <| rs_progress ::= λ p, p <| rp_error := e |> |>).
Proof.
  intros (Hb & Hcm & Hd & Hp & Heq). split_and!; [|done..|by apply same_but_error_set].
  destruct Hb. split; simpl; (done || congruence).
Qed.

(** A terminal result that may be sent as soon as it is checked. *)
Definition ready (h : history) (s : state) (r : RemoveReplicaTerminalResult) : Prop :=
  ∃ σ, protocol h = Some σ ∧ alive (sn_told σ) s ∧
    (validate_terminal_progress i (rs_progress s) r = Ok tt → terminal_allowed x i σ (current_id x s) (Ok r) = true).

Lemma enter_compensation_wp failure h s :
  holds base h s → rs_current_install_dispatched s = false →
  wp (enter_remove_compensation fuel x i failure s) (leads sound (λ h s _, holds compensating h s) lively) h.
Proof.
  intros H Hd. unfold enter_remove_compensation. apply wp_get.
  set (mid := λ (h : history) (s1 : state) (_ : unit), ∃ e,
    s1 = s <| rs_progress ::= λ p, p <| rp_compensation_expiry_unix_seconds := e |> |> ∧ holds base h s).
  eapply (wp_sbind _ _ _ _ mid).
  { destruct (none _).
    - eapply wp_clock; [|exact H]. clear h H. intros now h H. apply wp_slift; [by eapply seen_lively|]. intros e _.
      by exists (Some e).
    - apply wp_sret. exists (rp_compensation_expiry_unix_seconds (rs_progress s)). split; [|done].
      destruct s as [[] ? ?]. done. }
  clear h H. intros h s1 [] (e & -> & σ & H & Ha & Hb & _). do 2 apply wp_update.
  match goal with |- wp (_ ?st) _ _ => set (s' := st) end.
  assert (validate_progress i (rs_progress s') = Ok tt → rp_commit_observed (rs_progress s) = false) as Hcm.
  { intros Hv. by apply valid_compensating in Hv as [? _]. }
  assert (∀ b h', validate_progress i (rs_progress s') = Ok tt →
    protocol h' = Some (mkSeen (told_now (bump s')) b (sn_configuration σ) (sn_absent σ)) → holds compensating h' (bump s')) as Hgood.
  { intros b h' Hv Hh. specialize (Hcm Hv). eexists. split_and!; [exact Hh|done| |done].
    split_and!; [|done|done|done|apply same_but_error_refl]. destruct Hb. split; simpl; congruence || done. }
  apply (wp_publish σ); [done|exact Ha| | | |].
  - intros Hv. specialize (Hcm Hv). unfold publish_allowed. simpl in *. rewrite Hv. simpl.
    rewrite (proj2 Ha), bool_decide_eq_true_2 by done.
    destruct (valid_uncommitted _ (bs_valid _ _ Hb)) as (Hrank & Habs & _); [by rewrite <-(bs_commit _ _ Hb)|].
    destruct (bs_before _ _ Hb Hcm) as [_ Ha0].
    rewrite (proj2 (Nat.leb_le _ _)) by lia.
    by rewrite <-(bs_commit _ _ Hb), Hcm, Habs, Ha0, (bs_announced _ _ Hb), (bs_install _ _ Hb), Hd.
  - intros h' Hv Hh. by eapply Hgood.
  - intros _. exists σ. split_and!; [exact H|exact Ha|done|done].
  - intros h' b Hv Hh. eapply seen_lively. by eapply Hgood.
Qed.

(** What a turn of the compensation comes to. *)
Definition comp_turn_post (h : history) (s : state) (r : option CompensationOutcome) : Prop :=
  match r with
  | Some CompCommitted => holds committed h s
  | Some (CompTerminal r) => ready h s r
  | None => holds compensating h s
  end.

Lemma committed_instead_wp h s :
  holds base h s → wp (committed_instead fuel x i s) (leads sound comp_turn_post lively) h.
Proof.
  intros H. eapply leads_mono; [apply (wp_observe_then _ comp_turn_post)|done|intros ??; apply seen_lively]; done.
Qed.

Lemma again_wp h s : holds compensating h s → wp (again s) (leads sound comp_turn_post lively) h.
Proof.
  intros H. unfold again. eapply wp_sbind.
  { eapply leads_mono; [by apply wp_pause|done|intros ??; apply seen_lively]. }
  intros h' s' [] H'. by apply wp_sret.
Qed.

Lemma compensated_ready h s :
  seen (λ σ, sn_configuration σ = Some PreviousCurrent ∧ sn_authority σ = false) compensating h s → ready h s Compensated.
Proof.
  intros (σ & H & Ha & (Hb & Hcm & Hd & Hp & Heq) & Hcf & _). exists σ. split_and!; [done..|]. intros Hv.
  unfold terminal_allowed, current_id. rewrite (proj2 Ha), bool_decide_eq_true_2 by done. simpl.
  rewrite Hcf, bool_decide_eq_true_2 by done. rewrite andb_true_r.
  pose proof (bs_valid _ _ Hb) as Hq. unfold validate_terminal_progress in *. rewrite Hq. simpl.
  apply bind_Ok in Hv as ([] & _ & Hv). unfold validate_terminal in *. apply bind_Ok in Hv as ([] & _ & Hv%reject_if_Ok).
  unfold validate_progress in Hq. apply bind_Ok in Hq as ([] & -> & _). simpl. rewrite Heq in Hv. simpl in Hv. by rewrite Hv.
Qed.

Lemma restore_previous_wp expiry h s :
  seen (λ σ, sn_configuration σ = Some ReducedCatchUp) compensating h s →
  wp (restore_previous fuel x i expiry s) (leads sound comp_turn_post lively) h.
Proof.
  intros H. unfold restore_previous. apply wp_slift; [by eapply seen_lively|]. intros previous Hprev.
  eapply wp_sbind; [apply (wp_try_effect _ _ _ compensating)|].
  { eapply seen_mono; [exact H| |done]. intros σ (Hb & Hcm & Hd & Hp & Heq) Hcf. unfold effect_allowed.
    rewrite Hp, Hcf, (bs_announced _ _ Hb), Hd. simpl. by apply bool_decide_eq_true_2. }
  clear h s H. intros h s r H. cbv beta in H. eapply wp_sbind.
  { eapply (wp_try_gate _ _ compensating), H. }
  clear h s H. intros h s c H.
  assert (∀ h s, holds compensating h s →
    wp (sbind (match r with Err e => set_error e | Ok _ => sret tt end) (λ _, again) s) (leads sound comp_turn_post lively) h)
    as Hagain.
  { clear h s H. intros h s H. destruct r as [u|e]; [by apply again_wp|]. apply wp_update, again_wp.
    eapply seen_update; [exact H|done|]. intros t. apply compensating_error. }
  destruct c as [c|e]; cbv beta iota in H; [destruct H as [H _]|by apply Hagain].
  destruct c; [apply wp_sret; by apply compensated_ready|apply Hagain; by eapply seen_holds|].
  apply committed_instead_wp. by eapply compensating_base.
Qed.

Lemma cancel_wait_wp expiry h s :
  seen (λ σ, sn_configuration σ = Some ReducedCatchUp) compensating h s →
  wp (cancel_wait fuel x i expiry s) (leads sound comp_turn_post lively) h.
Proof.
  intros H. unfold cancel_wait. eapply wp_sbind; [apply (wp_try_effect _ _ _ compensating)|].
  { eapply seen_mono; [exact H| |done]. intros σ (Hb & Hcm & Hd & Hp & Heq) Hcf. unfold effect_allowed.
    rewrite Hp, Hcf. by apply bool_decide_eq_true_2. }
  clear h s H. intros h s r H. cbv beta in H. eapply wp_sbind.
  { eapply leads_mono; [by apply wp_gate|done|intros ??; apply seen_lively]. }
  clear h s H. intros h s c [H _]. apply again_wp. by eapply seen_holds.
Qed.

(** Publishing again in one phase or a later one, with the evidence known. *)
Definition republishable (σ : Seen) (p : RemoveReplicaProgress) : Prop :=
  let q := td_published (sn_told σ) in
  (phase_rank (rp_phase q) ≤ phase_rank (rp_phase p))%nat ∧ rp_commit_observed p = rp_commit_observed q ∧
  rp_current_install_dispatched p = rp_current_install_dispatched q ∧
  (rp_connection_absent p = rp_connection_absent q ∨
   rp_connection_absent p = true ∧ sn_configuration σ = Some ReducedCurrent ∧ sn_absent σ = true).

Lemma wp_republish σ h s :
  protocol h = Some σ → alive (sn_told σ) s → republishable σ (rs_progress s) →
  wp (publish_remove_progress fuel x i s)
    (leads sound (λ h s' _, s' = bump s ∧ validate_progress i (rs_progress s) = Ok tt ∧
       protocol h = Some (mkSeen (told_now s') true (sn_configuration σ) (sn_absent σ))) lively) h.
Proof.
  intros H Ha (Hr & Hc & Hd & Hab).
  apply (wp_publish σ); [done|done| |done| |].
  - intros Hv. unfold publish_allowed. rewrite Hv. simpl. rewrite (proj2 Ha), bool_decide_eq_true_2 by done.
    rewrite (proj2 (Nat.leb_le _ _)) by done. rewrite Hc, Hd. simpl.
    destruct Hab as [->|(-> & -> & ->)]; simpl; by repeat case_match.
  - intros _. by exists σ.
  - intros h' b Hv Hh. by eexists.
Qed.

Lemma compensation_turn_wp expiry h s :
  holds compensating h s → wp (compensation_turn fuel x i expiry s) (leads sound comp_turn_post lively) h.
Proof.
  intros H. unfold compensation_turn. eapply wp_clock; [|exact H]. clear h H. intros now h H.
  case_match.
  - apply wp_update. destruct H as (σ & H & Ha & (Hb & Hcm & Hd & Hp & Heq) & _).
    eapply wp_sbind.
    { apply (wp_republish σ); [done|done|]. unfold republishable. simpl. rewrite Heq. simpl. rewrite Hp. naive_solver. }
    clear h H. intros h s' [] (-> & Hv & H). apply wp_sret. eexists. split_and!; [exact H|done|]. intros Ht.
    unfold terminal_allowed. rewrite bool_decide_eq_true_2 by done. simpl in *. by rewrite Ht.
  - eapply wp_sbind; [eapply (wp_try_gate _ _ compensating), H|]. clear h s H. intros h s [c|e] H; cbv beta iota in H.
    + destruct H as [H _]. destruct c; [apply wp_sret; by apply compensated_ready| |].
      * eapply wp_look; [|exact H]. clear h H. intros rt h H.
        assert (seen (λ σ, sn_configuration σ = Some ReducedCatchUp) compensating h s) as H'.
        { by eapply seen_mono; [exact H|intros σ _ []|]. }
        destruct (match quorum_wait_of i rt with Some o => _ | None => _ end);
          [by apply cancel_wait_wp|by apply restore_previous_wp].
      * apply committed_instead_wp. by eapply compensating_base.
    + apply wp_update, again_wp. eapply seen_update; [exact H|done|]. intros t. apply compensating_error.
Qed.

Lemma recover_wp failure h s :
  holds base h s →
  wp (recover_remove_pre_commit_failure fuel x i failure s)
    (leads sound (λ h s r, comp_turn_post h s (Some r)) lively) h.
Proof.
  intros H. unfold recover_remove_pre_commit_failure. eapply wp_runtime; [|exact H]. clear h H. intros rt h H.
  apply wp_get.
  assert (rs_current_install_dispatched s = false →
    wp (sbind (enter_remove_compensation fuel x i failure) (λ _,
          expiry ←! get (λ s, rp_compensation_expiry_unix_seconds (rs_progress s));
          expiry ←! slift (ok_or expiry "remove-replica compensation has no derived expiry");
          loop fuel (compensation_turn fuel x i expiry)) s)
      (leads sound (λ h s r, comp_turn_post h s (Some r)) lively) h) as Hcomp.
  { intros Hd. eapply wp_sbind; [by apply enter_compensation_wp|]. clear h s H Hd. intros h s [] H. cbv beta in H.
    apply wp_get, wp_slift; [by eapply seen_lively|]. intros expiry _.
    apply (wp_loop _ _ (holds compensating)); [apply holds_sound| |done]. intros h' s' H'.
    eapply leads_mono; [by apply compensation_turn_wp|by intros ?? []|done]. }
  destruct (classify_remove_configuration rt i) as [c|e], (rs_current_install_dispatched s) eqn:Hd; [|destruct c| |];
    try (by apply Hcomp).
  - destruct c; try (apply wp_sfail; by eapply seen_lively).
    eapply leads_mono; [by apply (wp_observe_then _ (λ h s r, comp_turn_post h s (Some r)))|done|intros ??; apply seen_lively].
  - eapply leads_mono; [by apply (wp_observe_then _ (λ h s r, comp_turn_post h s (Some r)))|done|intros ??; apply seen_lively].
  - apply wp_sfail. by eapply seen_lively.
Qed.

(** *** After the commit *)

Definition post (ph : RemoveReplicaCoordinatorPhase) : relation := λ t s,
  rp_commit_observed (td_published t) = true ∧ rp_phase (td_published t) = ph ∧
  same_but_error (rs_progress s) (td_published t).

(** The target is known to be disconnected; its retirement expires then. *)
Definition retiring (expiry : option Z) : relation := λ t s,
  post RetiringTarget t s ∧ rp_connection_absent (td_published t) = true ∧
  rp_retirement_expiry_unix_seconds (td_published t) = expiry.

Lemma post_error ph e t s : post ph t s → post ph t (s <| rs_progress ::= λ p, p <| rp_error := e |> |>).
Proof. intros (? & ? & ?). split_and!; [done..|by apply same_but_error_set]. Qed.

Lemma committed_post t s : committed t s → post RemovingConnection t s.
Proof.
  intros [Hb Hc]. destruct (bs_after _ _ Hb Hc) as [Heq Hp]. split_and!; [by rewrite <-(bs_commit _ _ Hb)|done|].
  rewrite Heq. apply same_but_error_refl.
Qed.

(** A phase after the commit goes on to a later one. *)
Lemma wp_advance ph0 ph (I : relation) h s :
  (phase_rank ph0 ≤ phase_rank ph)%nat → holds I h s →
  (∀ t, I t s → rp_commit_observed (td_published t) = true ∧ rp_phase (td_published t) = ph0 ∧
     rp_commit_observed (rs_progress s) = true ∧
     rp_connection_absent (rs_progress s) = rp_connection_absent (td_published t) ∧
     rp_current_install_dispatched (rs_progress s) = rp_current_install_dispatched (td_published t)) →
  wp (transition_remove_progress fuel x i ph s)
    (leads sound (λ h s' _, holds (λ t s', s' = bump (s <| rs_progress ::= λ p, p <| rp_phase := ph |> |>) ∧
       td_published t = rs_progress s' ∧ validate_progress i (rs_progress s') = Ok tt) h s') lively) h.
Proof.
  intros Hr (σ & H & Ha & HI & _) HC. destruct (HC _ HI) as (Hc & Hp & Hc' & Hab & Hd). apply wp_update.
  eapply leads_mono; [apply (wp_republish σ); [done|exact Ha|]| |done].
  - unfold republishable. simpl. rewrite Hp. split_and!; [done|congruence|done|by left].
  - intros h' s' [] (-> & Hv & H'). eexists. split_and!; [exact H'|done..].
Qed.

Definition connection_post (h : history) (s : state) (r : option unit) : Prop :=
  match r with
  | Some _ => holds (λ t s, post RemovingConnection t s ∧ rp_connection_absent (td_published t) = true) h s
  | None => holds (post RemovingConnection) h s
  end.

Lemma note_absent_wp h s :
  seen (λ σ, sn_configuration σ = Some ReducedCurrent ∧ sn_absent σ = true) (post RemovingConnection) h s →
  wp (note_absent fuel x i s) (leads sound connection_post lively) h.
Proof.
  intros (σ & H & Ha & (Hc & Hp & Heq) & Hcf & Hab). apply wp_update. eapply wp_sbind.
  { apply (wp_republish σ); [done|exact Ha|]. unfold republishable. simpl. rewrite Heq. simpl. naive_solver. }
  clear h H. intros h s' [] (-> & Hv & H). apply wp_sret. eexists. split; [exact H|]. split; [done|]. split; [|done].
  unfold post. simpl. rewrite Heq. simpl. split_and!; (done || apply same_but_error_refl).
Qed.

Lemma connection_turn_wp h s :
  holds (post RemovingConnection) h s → wp (connection_turn fuel x i s) (leads sound connection_post lively) h.
Proof.
  assert (∀ h s, holds (post RemovingConnection) h s →
    wp (remove_authority_gate fuel x i None [ReducedCurrent] s)
      (leads sound (λ h s _, seen (λ σ, sn_configuration σ = Some ReducedCurrent ∧ sn_authority σ = false)
         (post RemovingConnection) h s) lively) h) as Hgate.
  { intros h' s' H. eapply leads_mono; [by apply wp_gate| |intros ??; apply seen_lively].
    by intros ??? [? ->%list_elem_of_singleton]. }
  intros H. unfold connection_turn. eapply wp_sbind; [by apply Hgate|]. clear h s H. intros h s c H. cbv beta in H.
  eapply wp_look; [|exact H]. clear h H. intros rt h H. destruct (remove_connection_absent rt i) eqn:Hab.
  { apply note_absent_wp. eapply seen_mono; [exact H| |done]. naive_solver congruence. }
  eapply wp_clock; [|exact H]. clear h H. intros now h H.
  eapply wp_sbind; [eapply (wp_try_effect _ _ _ (post RemovingConnection))|].
  { eapply seen_mono; [exact H| |done]. intros σ (Hc & Hp & Heq) [Hcf _]. unfold effect_allowed. rewrite Hp, Hcf, Hc.
    by apply bool_decide_eq_true_2. }
  clear h s rt Hab H. intros h s r H. cbv beta in H. eapply wp_sbind; [by apply Hgate|]. clear h s H.
  intros h s c' H. cbv beta in H. eapply wp_look; [|exact H]. clear h H. intros rt h H.
  destruct (remove_connection_absent rt i) eqn:Hab.
  { apply note_absent_wp. eapply seen_mono; [exact H| |done]. naive_solver congruence. }
  apply seen_holds in H.
  eapply (wp_sbind _ _ _ _ (λ h s _, holds (post RemovingConnection) h s)).
  { destruct r as [u|e]; [by apply wp_sret|]. unfold set_error, set_progress.
    eapply seen_update; [exact H|done|]. intros t. apply post_error. }
  clear h s H Hab. intros h s [] H. eapply wp_sbind.
  { eapply leads_mono; [by apply wp_pause|done|intros ??; apply seen_lively]. }
  intros h' s' [] H'. by apply wp_sret.
Qed.

(** *** Retiring the target *)

Lemma note_retirement_wp o e expiry h s :
  holds (retiring expiry) h s →
  wp (note_retirement fuel x i o e s) (leads sound (λ h s _, holds (retiring expiry) h s) lively) h.
Proof.
  intros (σ & H & Ha & ((Hc & Hp & Heq) & Hab & Hx) & _). apply wp_update.
  eapply leads_mono; [apply (wp_republish σ); [done|exact Ha|]| |done].
  - unfold republishable. simpl. rewrite Heq. simpl. naive_solver.
  - intros h' s' [] (-> & Hv & H'). eexists. split; [exact H'|]. split; [done|]. split; [|done].
    unfold retiring, post. simpl. rewrite Heq. simpl. split_and!; (done || apply same_but_error_refl).
Qed.

Definition turn_post (expiry : option Z) (h : history) (s : state)
    (_ : TargetRetirementObservation + TargetRetirementObservation) : Prop := holds (retiring expiry) h s.

Lemma note_and_go_on o e last expiry h s :
  holds (retiring expiry) h s →
  wp (sbind (note_retirement fuel x i o e) (λ _, go_on last) s) (leads sound (turn_post expiry) lively) h.
Proof.
  intros H. eapply wp_sbind; [by apply note_retirement_wp|]. clear h s H. intros h s [] H. cbv beta in H.
  unfold go_on. eapply wp_sbind.
  { eapply leads_mono; [by apply wp_pause_only|done|intros ??; apply seen_lively]. }
  intros h' s' [] H'. by apply wp_sret.
Qed.

Lemma before_expiry_wp deadline last t expiry h s :
  (∀ h s, seen (λ σ, sn_configuration σ = Some ReducedCurrent) (retiring expiry) h s →
     wp (t s) (leads sound (turn_post expiry) lively) h) →
  holds (retiring expiry) h s →
  wp (before_expiry fuel x i deadline last t s) (leads sound (turn_post expiry) lively) h.
Proof.
  intros Ht H. unfold before_expiry. eapply wp_clock; [|exact H]. clear h H. intros now h H.
  destruct (deadline <=? now); [by apply wp_sret|]. eapply wp_sbind.
  { eapply leads_mono; [by apply wp_gate|done|intros ??; apply seen_lively]. }
  clear h s H. intros h s c [H ->%list_elem_of_singleton]. apply Ht. by eapply seen_mono; [exact H|intros σ _ []|].
Qed.

(** Clock questions of a call's deadline. *)
Lemma wp_call_deadline {A} (f : Z → coord A) (good : history → state → A → Prop) P I deadline timeout h s :
  (∀ d h, seen P I h s → wp (f d s) (leads sound good lively) h) → seen P I h s →
  wp (sbind (remove_call_deadline deadline timeout) f s) (leads sound good lively) h.
Proof.
  intros Hf H. eapply (wp_sbind _ _ _ _ (λ h s' _, s' = s ∧ seen P I h s)); [|intros h' s' d [-> H']; by apply Hf].
  unfold remove_call_deadline. eapply wp_clock; [|exact H]. intros now h' H'.
  destruct (deadline <=? now); [apply wp_sfail; by eapply seen_lively|by apply wp_sret].
Qed.

Lemma wp_timeout {A} (f : Z → coord A) (good : history → state → A → Prop) P I deadline h s :
  (∀ d h, seen P I h s → wp (f d s) (leads sound good lively) h) → seen P I h s →
  wp (sbind (remove_timeout_duration deadline) f s) (leads sound good lively) h.
Proof.
  intros Hf H. eapply (wp_sbind _ _ _ _ (λ h s' _, s' = s ∧ seen P I h s)); [|intros h' s' d [-> H']; by apply Hf].
  unfold remove_timeout_duration. eapply wp_clock; [|exact H]. intros now h' H'. cbv zeta.
  destruct (_ <=? 0); [apply wp_sfail; by eapply seen_lively|by apply wp_sret].
Qed.

Lemma wp_peer_status {A} deadline timeout (f : _ → coord A) (good : history → state → A → Prop) I h s :
  (∀ r h, holds I h s → wp (f r s) (leads sound good lively) h) → holds I h s →
  wp (sbind (peer_get_status i deadline timeout) f s) (leads sound good lively) h.
Proof.
  intros Hf H. eapply (wp_sbind _ _ _ _ (λ h s' _, s' = s ∧ holds I h s)); [|intros h' s' d [-> H']; by apply Hf].
  unfold peer_get_status, await_remove_clock_bounded. eapply wp_clock; [|exact H]. clear h H. intros now h H.
  destruct (deadline <=? now); [by apply wp_sret|]. unfold peer_call.
  destruct (transport_endpoint i); [|by apply wp_sret]. intros r. simpl. split; [done|].
  destruct H as (σ & H & [He Hq] & HI & _). eexists. split_and!; [next; by rewrite He|done..].
Qed.

Lemma send_retire_wp expiry last st h s :
  seen (λ σ, sn_configuration σ = Some ReducedCurrent) (retiring (Some expiry)) h s →
  wp (send_retire fuel x i expiry last st s) (leads sound (turn_post (Some expiry)) lively) h.
Proof.
  intros H. unfold send_retire. apply wp_slift; [by eapply seen_lively|]. intros generation Hgen%ok_or_Ok. apply wp_get.
  apply wp_slift; [by eapply seen_lively|]. intros [] Hv.
  eapply wp_call_deadline; [|exact H]. clear h H. intros deadline h H.
  eapply wp_timeout; [|exact H]. clear h H. intros timeout h H.
  eapply (wp_sbind _ _ _ _ (λ h s _, holds (retiring (Some expiry)) h s)).
  - unfold peer_execute_stage, await_remove_clock_bounded. eapply wp_clock; [|exact H]. clear h H. intros now h H.
    destruct (deadline <=? now); [apply wp_sret; by eapply seen_holds|]. unfold peer_call.
    destruct (transport_endpoint i); [|apply wp_sret; by eapply seen_holds]. intros r. simpl.
    destruct H as (σ & H & [He Hq] & HI & Hcf). exists (forget σ). split; [next|done]. rewrite He.
    destruct HI as ((Hc & Hp & Heq) & Hab & Hx). unfold stage_allowed. rewrite Hp, Hcf, Hc, Hab, Hv. simpl.
    rewrite bool_decide_eq_true_2; [done|]. rewrite Hgen, Hx, Heq. by split_and!.
  - clear h s Hv H. intros h s r H. apply (before_expiry_wp _ _ _ (Some expiry)); [|done]. clear h s H.
    intros h s H%seen_holds. destruct r as [[o|e]|]; by apply note_and_go_on.
Qed.

Lemma handle_status_wp expiry last st h s :
  seen (λ σ, sn_configuration σ = Some ReducedCurrent) (retiring (Some expiry)) h s →
  wp (handle_status fuel x i expiry last st s) (leads sound (turn_post (Some expiry)) lively) h.
Proof.
  intros H. unfold handle_status. destruct (validate_remove_peer_status i st).
  - case_match; [apply wp_sret; by eapply seen_holds|]. destruct (our_stage i st); [|by apply send_retire_wp].
    apply note_and_go_on. by eapply seen_holds.
  - apply note_and_go_on. by eapply seen_holds.
Qed.

Lemma retirement_turn_wp expiry last h s :
  holds (retiring (Some expiry)) h s →
  wp (retirement_turn fuel x i expiry last s) (leads sound (turn_post (Some expiry)) lively) h.
Proof.
  intros H. apply (before_expiry_wp _ _ _ (Some expiry)); [|done]. clear h s H. intros h s H.
  eapply wp_call_deadline; [|exact H]. clear h H. intros deadline h H.
  eapply wp_timeout; [|exact H]. clear h H. intros timeout h H%seen_holds.
  eapply wp_peer_status; [|exact H]. clear h H. intros r h H.
  apply (before_expiry_wp _ _ _ (Some expiry)); [|done]. clear h s H. intros h s H.
  destruct r as [[st|e]|]; [by apply handle_status_wp|apply note_and_go_on; by eapply seen_holds|].
  eapply wp_sbind; [apply note_retirement_wp; by eapply seen_holds|]. intros h' s' [] H'. by apply wp_sret.
Qed.

Lemma retire_until_wp n expiry last h s :
  holds (retiring (Some expiry)) h s →
  wp (retire_until fuel x i n expiry last s) (leads sound (λ h s _, holds (retiring (Some expiry)) h s) lively) h.
Proof.
  revert last h s. induction n as [|n IH]; intros last h s H; [by eapply holds_sound|].
  cbn [retire_until]. eapply wp_sbind; [by apply retirement_turn_wp|]. clear h s H.
  intros h s [o|last'] H; [done|by apply IH].
Qed.

Definition disconnected : relation := λ t s, post RetiringTarget t s ∧ rp_connection_absent (td_published t) = true.

Lemma ensure_retirement_wp h s :
  holds disconnected h s →
  wp (ensure_remove_target_retirement fuel x i s) (leads sound (λ h s _, holds disconnected h s) lively) h.
Proof.
  intros H. unfold ensure_remove_target_retirement. case_decide.
  - apply wp_update. destruct H as (σ & H & Ha & ((Hc & Hp & Heq) & Hab) & _). eapply wp_sbind.
    { apply (wp_republish σ); [done|exact Ha|]. unfold republishable. simpl. rewrite Heq. simpl. naive_solver. }
    clear h H. intros h s' [] (-> & Hv & H). apply wp_sret. eexists. split; [exact H|]. split; [done|]. split; [|done].
    unfold disconnected, post. simpl. rewrite Heq. simpl. split_and!; (done || apply same_but_error_refl).
  - destruct (negb _); [apply wp_sfail; by eapply seen_lively|]. apply wp_get. apply wp_slift; [by eapply seen_lively|].
    intros expiry Hx%ok_or_Ok.
    eapply leads_mono; [apply (retire_until_wp _ expiry)|intros h' s' o H'; cbv beta in H'|done].
    + destruct H as (σ & H & Ha & ((Hc & Hp & Heq) & Hab) & _). exists σ. rewrite Heq in Hx. by split_and!.
    + eapply holds_mono; [exact H'|]. by intros t _ (? & ? & _).
Qed.

(** The evidence of the two agrees. *)
Definition agreed : relation := λ t s,
  rp_commit_observed (td_published t) = true ∧ rp_phase (td_published t) = RetiringTarget ∧
  rp_commit_observed (rs_progress s) = true ∧
  rp_connection_absent (rs_progress s) = rp_connection_absent (td_published t) ∧
  rp_current_install_dispatched (rs_progress s) = rp_current_install_dispatched (td_published t).

Lemma attest_wp retirement h s :
  holds disconnected h s → wp (attest fuel x i retirement s) (leads sound ready lively) h.
Proof.
  intros H. unfold attest. apply wp_update.
  assert (holds agreed h (s <| rs_progress ::= λ p, p <| rp_target_retirement := retirement |> |>)) as Hag.
  { eapply seen_update; [exact H|done|]. intros t ((Hc & Hp & Heq) & Hab). unfold agreed. simpl. rewrite Heq. simpl.
    by split_and!. }
  clear H. apply wp_slift; [by eapply seen_lively|]. intros error _. apply wp_update.
  eapply wp_sbind.
  { apply (wp_advance RetiringTarget _ agreed); [simpl; lia| |].
    - by eapply seen_update; [exact Hag|..].
    - by intros t ?. }
  clear h Hag. intros h s1 [] H.
  eapply wp_sbind.
  { eapply leads_mono; [apply (wp_gate _ _ (λ t s, td_published t = rs_progress s))|done|intros ??; apply seen_lively].
    eapply holds_mono; [exact H|]. by intros t _ (_ & ? & _). }
  clear h s1 H. intros h s1 c [H ->%list_elem_of_singleton]. eapply wp_look; [|exact H]. clear h H. intros rt h H.
  destruct (negb _) eqn:Hab; [apply wp_sfail; by eapply seen_lively|]. apply negb_false_iff in Hab.
  cbv zeta. apply wp_get. apply wp_slift; [by eapply seen_lively|]. intros [] _. apply wp_sret.
  destruct H as (σ & H & Ha & Hq & Hcf & Hab' & _). exists σ. split_and!; [done..|]. intros Hv.
  unfold terminal_allowed, current_id. rewrite (proj2 Ha), bool_decide_eq_true_2 by done. rewrite Hq, Hv. simpl.
  rewrite Hcf, Hab', Hab. by case_decide.
Qed.

Lemma run_remove_post_commit_wp h s :
  holds committed h s → wp (run_remove_post_commit fuel x i s) (leads sound ready lively) h.
Proof.
  intros H. unfold run_remove_post_commit. apply wp_get. destruct (negb _); [apply wp_sfail; by eapply seen_lively|].
  assert (holds (post RemovingConnection) h s) as Hp.
  { eapply holds_mono; [exact H|]. intros t _. apply committed_post. }
  eapply (wp_sbind _ _ _ _ (λ h s _, holds (λ t s, post RemovingConnection t s ∧ rp_connection_absent (td_published t) = true) h s)).
  { apply (wp_loop _ _ (holds (post RemovingConnection))); [apply holds_sound| |done]. intros h' s' H'.
    eapply leads_mono; [by apply connection_turn_wp|by intros ?? [[]|]|done]. }
  clear h s H Hp. intros h s [] H. eapply wp_sbind.
  { apply (wp_advance RemovingConnection RetiringTarget _ _ _ ltac:(simpl; lia) H). intros t ((Hc & Hp & Heq) & Hab).
    rewrite Heq. by split_and!. }
  intros h' s' [] H'. eapply wp_sbind; [apply ensure_retirement_wp|intros h2 s2 o H2; by apply attest_wp].
  eapply holds_mono; [exact H'|]. clear h' H'. intros t _ (-> & Hq & Hv).
  destruct H as (σ & _ & _ & ((Hc & Hp & Heq) & Hab) & _). unfold disconnected, post. rewrite Hq. simpl. rewrite Heq. simpl.
  split_and!; (done || apply same_but_error_refl).
Qed.

(** *** The whole coordinator *)

Lemma remove_terminal_wp :
  wp (remove_terminal fuel x i (initial_state i)) (leads sound ready lively) [].
Proof.
  assert (holds (pre Validating) [] (initial_state i)) as H.
  { exists (initial_seen i). split_and!; [done..| |done]. split_and!; try done. split; try done. apply first_valid. }
  unfold remove_terminal. eapply wp_runtime; [|exact H]. clear H. intros rt h H.
  apply wp_slift; [by eapply seen_lively|]. intros c _. case_decide.
  { eapply wp_sbind.
    - eapply leads_mono; [apply wp_observe; by eapply pre_base|done|intros ??; apply seen_lively].
    - intros h' s' [] H'. by apply run_remove_post_commit_wp. }
  generalize dependent (initial_state i). intros s H.
  eapply (wp_sbind _ _ _ _ (λ h s r, match r with PreCommitted => holds committed h s | PreFailed _ => holds base h s end)).
  - unfold run_remove_pre_commit. eapply wp_sbind; [eapply (wp_attempt _ _ lively); by apply remove_pre_commit_wp|].
    intros h' s' [u|e] H'; by apply wp_sret.
  - clear h s H. intros h s [|e] H; [by apply run_remove_post_commit_wp|]. eapply wp_sbind; [by apply recover_wp|].
    clear h s H. intros h s [|r] H; [by apply run_remove_post_commit_wp|done].
Qed.

(** A run ends with the terminal event, or is found in one of its loops. *)
Definition finished (h : history) (r : state * outcome string CoordinatorEvent) : Prop :=
  ∃ σ, protocol h = Some σ ∧
    (r.2 = Looping ∧ td_ended (sn_told σ) = false ∨
     ∃ ev, r.2 = Done ev ∧ td_ended (sn_told σ) = true ∧ (∃ h0 open, h = h0 ++ [existT (SendEvent ev) open]) ∧
       ∃ res, cv_update ev = RemoveTerminal res).

Lemma finished_with σ h s res open :
  protocol h = Some σ → alive (sn_told σ) s → terminal_allowed x i σ (current_id x s) res = true →
  let ev := mkCoordinatorEvent (current_id x s) (RemoveTerminal res) in
  finished (h ++ [existT (SendEvent ev) open]) (s, Done ev).
Proof.
  intros H [He _] Ht. unfold finished. rewrite protocol_snoc, H. simpl. rewrite He, Ht. simpl.
  eexists. split; [done|]. right. eexists. split_and!; [done|done|by do 2 eexists|by eexists].
Qed.

Lemma coordinator_wp : wp (run_remove_replica_coordinator fuel x i (initial_state i)) finished [].
Proof.
  unfold run_remove_replica_coordinator. apply wp_bind. unfold attempt. apply wp_bind.
  eapply wp_mono; [exact remove_terminal_wp|]. intros h [s o] H. unfold leads in H. simpl in *.
  assert (∀ σ e, alive (sn_told σ) s → terminal_allowed x i σ (current_id x s) (Err e) = true) as Herr.
  { intros σ e [_ Hq]. unfold terminal_allowed, current_id. by rewrite Hq, bool_decide_eq_true_2 by done. }
  destruct o as [r|e|]; simpl.
  - intros open. destruct H as (σ & H & Ha & Hr).
    destruct (validate_terminal_progress i (rs_progress s) r) as [[]|e]; eapply finished_with; eauto.
  - intros open. destruct H as (σ & H & Ha & _). eapply finished_with; eauto.
  - destruct H as (σ & H & He). exists σ. split; [done|]. by left.
Qed.

End refinement.

(** C15. The coordinator of a removal keeps to its protocol, whatever the
    agent, the runtime, the target and the clock answer and however long its
    loops run: each runtime effect is the one its published phase allows, sent
    after the agent's authority for that very phase was seen and on the
    configuration that the live primary then showed; progress is valid, takes
    the next sequence number, never goes back in phase, keeps its evidence and
    adds evidence only where it was seen; installing the reduced configuration
    is announced before it is sent, and then the previous one is not restored;
    the target is retired only once it is known to be disconnected; and the
    run ends by sending a terminal result that the progress last published
    supports, unless it is still looping. *)
Theorem removal_follows_protocol `{Endpoints} fuel x i oracle :
  validate_remove_intent i = Ok tt →
  let '(h, r) := exec oracle (run_remove_replica_coordinator fuel x i (initial_state i)) [] in
  ∃ σ, protocol x i h = Some σ ∧
    (r.2 = Looping ∧ td_ended (sn_told σ) = false ∨
     ∃ ev, r.2 = Done ev ∧ td_ended (sn_told σ) = true ∧ (∃ h0 open, h = h0 ++ [existT (SendEvent ev) open]) ∧
       ∃ res, cv_update ev = RemoveTerminal res).
Proof.
  intros Hi. pose proof (wp_exec _ _ oracle _ (coordinator_wp fuel x i Hi)) as Hw. by destruct (exec _ _ _).
Qed.

(** ** What follows from the protocol *)

Section consequences.
  Context {Ends : Endpoints} (x : CoordinatorExecution) (i : RemoveReplicaIntent).
  Abbreviation protocol := (protocol x i).

(** The configurations that effects were to make current. *)
Definition installed_by (ev : event coordinator_call coordinator_answer) : option ReplicaSetConfig :=
  match ev with existT (AwaitEffect _ (EffUpdateCurrentConfiguration c)) _ => Some c | _ => None end.
Definition installed (h : history) : list ReplicaSetConfig := omap installed_by h.

Definition published_by (ev : event coordinator_call coordinator_answer) : option RemoveReplicaProgress :=
  match ev with
  | existT (SendEvent ev) _ => match cv_update ev with RemoveProgress p => Some p | _ => None end
  | _ => None
  end.

(** Disconnects or retires the target. *)
Definition touches_target (ev : event coordinator_call coordinator_answer) : bool :=
  match ev with existT (AwaitEffect _ (EffRemoveReplica _ _)) _ | existT (AwaitStage _ _ _) _ => true | _ => false end.

(** The live primary was seen in the reduced current configuration. *)
Definition reduced_seen (h : history) : Prop :=
  ∃ rt, existT BorrowStatus rt ∈ h ∧ live_primary rt i = true ∧ classify_remove_configuration rt i = Ok ReducedCurrent.

Record consequences (h : history) (σ : Seen) : Prop := mkConsequences {
  cq_installed : ∀ c, c ∈ installed h →
    if rp_current_install_dispatched (td_published (sn_told σ)) then materialize (rm_reduced_current_configuration i) None = Ok c
    else materialize (rm_previous_configuration i) None = Ok c ∧
         (4 ≤ phase_rank (rp_phase (td_published (sn_told σ))))%nat;
  cq_configuration : sn_configuration σ = Some ReducedCurrent → reduced_seen h;
  cq_committed : rp_commit_observed (td_published (sn_told σ)) = true →
    reduced_seen h ∧ ∃ p, p ∈ omap published_by h ∧ rp_commit_observed p = true;
}.

Lemma reduced_seen_app h h' : reduced_seen h → reduced_seen (h ++ h').
Proof. intros (rt & ? & ?). exists rt. split; [set_solver|done]. Qed.

Lemma allow_Some b σ σ' : allow b σ = Some σ' → b = true ∧ σ' = σ.
Proof. unfold allow. destruct b; naive_solver. Qed.

(** Events that are neither effects nor published progress. *)
Lemma consequences_kept h σ σ' ev :
  consequences h σ → installed_by ev = None → published_by ev = None →
  td_published (sn_told σ') = td_published (sn_told σ) →
  (sn_configuration σ' = Some ReducedCurrent → reduced_seen (h ++ [ev])) → consequences (h ++ [ev]) σ'.
Proof.
  intros [H1 H2 H3] Hi Hp Ht Hc. split; [|done|].
  - unfold installed. rewrite omap_app. simpl. rewrite Hi, app_nil_r, Ht. done.
  - rewrite omap_app. simpl. rewrite Hp, app_nil_r, Ht. intros H. destruct (H3 H). split; [by apply reduced_seen_app|done].
Qed.

Lemma effect_consequences h σ d e r :
  consequences h σ → effect_allowed i σ e = true → consequences (h ++ [existT (AwaitEffect d e) r]) (forget σ).
Proof.
  intros [H1 H2 H3] He. split; [|done|].
  - unfold installed. rewrite omap_app. intros c [Hc|Hc]%elem_of_app; [by apply H1|]. simpl.
    destruct e; simpl in Hc; try by apply elem_of_nil in Hc. apply list_elem_of_singleton in Hc as ->.
    unfold effect_allowed in He. destruct (rp_phase _), (sn_configuration σ) as [[]|]; try done;
      apply andb_prop in He as [Hd He%bool_decide_eq_true].
    + simpl. by rewrite Hd.
    + apply negb_true_iff in Hd. simpl. rewrite Hd. split; [done|lia].
  - rewrite omap_app, app_nil_r. intros H. destruct (H3 H). split; [by apply reduced_seen_app|done].
Qed.

Lemma publish_consequences h σ id p r :
  consequences h σ → publish_allowed x i σ id p = true →
  consequences (h ++ [existT (SendEvent (mkCoordinatorEvent id (RemoveProgress p))) r])
    (σ <| sn_told := mkTold p (ce_phase_sequence id) false |> <| sn_authority := false |>).
Proof.
  intros [H1 H2 H3] He. unfold publish_allowed in He. repeat (apply andb_prop in He as [He ?]).
  rename H into Hd, H0 into Hab, H4 into Hc, H5 into Hr. apply Nat.leb_le in Hr. split.
  - unfold installed. rewrite omap_app. simpl. rewrite app_nil_r. intros c Hin. apply H1 in Hin.
    destruct (rp_current_install_dispatched (td_published (sn_told σ))); [by rewrite Hd|].
    destruct Hin as [Hin Hk]. destruct (rp_current_install_dispatched p); [|split; [done|lia]].
    apply bool_decide_eq_true in Hd. rewrite Hd in Hr. simpl in Hr. lia.
  - simpl. intros Hcf. by apply reduced_seen_app, H2.
  - simpl. intros Hp. rewrite omap_app. split; [|exists p; split; [apply elem_of_app; right; simpl; left|done]].
    apply reduced_seen_app. destruct (rp_commit_observed (td_published (sn_told σ))); [by apply H3|].
    rewrite Hp in Hc. apply bool_decide_eq_true in Hc. by apply H2.
Qed.

Lemma protocol_consequences h σ : protocol h = Some σ → consequences h σ.
Proof.
  revert σ. induction h as [|[q r] h IH] using rev_ind; intros σ' H.
  - injection H as <-. split; [by intros c ?%elem_of_nil|done|done].
  - rewrite protocol_snoc in H. destruct (protocol h) as [σ|]; [|done]. specialize (IH σ eq_refl). simpl in H.
    destruct (td_ended _); [done|].
    destruct q as [| | | |d e| | | | |[id u]].
    5: { apply allow_Some in H as [? ->]. by apply effect_consequences. }
    9: { destruct u; try done; apply allow_Some in H as [? ->]; [by apply publish_consequences|].
         apply (consequences_kept _ σ); [done..|]. intros Hcf. by apply reduced_seen_app, (cq_configuration _ _ IH). }
    all: try (apply allow_Some in H as [? ->]); try (injection H as <-);
      (apply (consequences_kept _ σ); [done..|]); simpl; try done; try (intros Hcf; by apply reduced_seen_app, (cq_configuration _ _ IH)).
    intros Hcf. destruct (sn_authority σ); [|by apply reduced_seen_app, (cq_configuration _ _ IH)].
    unfold shown in Hcf. destruct (live_primary r i) eqn:Hl; [|done].
    destruct (classify_remove_configuration r i) as [c|] eqn:Hc; [|done]. injection Hcf as ->.
    exists r. split; [set_solver|done].
Qed.

(** A prefix of a history that keeps to the protocol keeps to it. *)
Lemma protocol_prefix h h' σ : protocol (h ++ h') = Some σ → ∃ σ0, protocol h = Some σ0.
Proof.
  revert σ. induction h' as [|ev h' IH] using rev_ind; intros σ H; [rewrite app_nil_r in H; by exists σ|].
  rewrite app_assoc, protocol_snoc in H. destruct (protocol (h ++ h')) as [σ1|] eqn:H1; [by eapply IH|done].
Qed.

Lemma touch_committed h ev σ :
  protocol (h ++ [ev]) = Some σ → touches_target ev = true →
  reduced_seen h ∧ ∃ p, p ∈ omap published_by h ∧ rp_commit_observed p = true.
Proof.
  intros H Ht. rewrite protocol_snoc in H. destruct (protocol h) as [σ0|] eqn:H0; [|done].
  apply protocol_consequences in H0 as Hc. simpl in H. destruct (td_ended _); [done|].
  apply (cq_committed _ _ Hc). destruct ev as [[| | | |d e| |d t rq| | |ev] r]; try done.
  - destruct e; try done. apply allow_Some in H as [H _]. unfold effect_allowed in H.
    destruct (rp_phase _), (sn_configuration σ0) as [[]|]; try done. by apply andb_prop in H as [? _].
  - apply allow_Some in H as [H _]. unfold stage_allowed in H. do 3 apply andb_prop in H as [H _].
    by apply andb_prop in H as [_ ?].
Qed.

(** *** The agent's view *)

Definition sent_by (ev : event coordinator_call coordinator_answer) : option CoordinatorEvent :=
  match ev with existT (SendEvent ev) _ => Some ev | _ => None end.
Definition sent (h : history) : list CoordinatorEvent := omap sent_by h.

(** The agent runs this coordinator, which told it so much. *)
Definition tracks (t : Told) (a : ReplicaAgent) : Prop :=
  ∃ c, active a = Some c ∧
    ac_coordinator_execution_id c =
      Some (mkCoordinatorExecutionId (cx_generation x) (cx_action_id x) (cx_attempt_id x) (td_sequence t)) ∧
    ac_remove_intent c = Some i ∧
    do_remove_replica_progress (co_action (ac_observation c)) = Some (td_published t).

(** It keeps the removal as ended by this result. *)
Definition concluded (res : result string RemoveReplicaTerminalResult) (a : ReplicaAgent) : Prop :=
  active a = None ∧ ∃ o l, terminals a = l ++ [o] ∧
    match res with
    | Ok r => do_state (co_action o) = Completed ∧ do_result (co_action o) = Some (ResRemoveReplica r)
    | Err e => do_state (co_action o) = Failed ∧ do_error (co_action o) = Some (normalize e)
    end.

Lemma receive_progress t id p a :
  0 ≤ td_sequence t < u64_max → tracks t a → validate_progress i p = Ok tt →
  id = mkCoordinatorExecutionId (cx_generation x) (cx_action_id x) (cx_attempt_id x) (u64_wrapping_add (td_sequence t) 1) →
  tracks (mkTold p (ce_phase_sequence id) false) (handle_coordinator_event (mkCoordinatorEvent id (RemoveProgress p)) a).1.
Proof.
  intros Hq (c & Ha & Hid & Hin & Hp) Hv ->. unfold handle_coordinator_event. rewrite Ha, Hid. unfold is_current. simpl.
  destruct (next_sequence _ Hq) as [-> ->]. rewrite !bool_decide_eq_true_2, Z.eqb_refl by done. simpl.
  rewrite Hin. simpl. rewrite Hv. eexists. split; [done|]. by split_and!.
Qed.

Lemma receive_terminal t res a :
  tracks t a → (∀ r, res = Ok r → validate_terminal_progress i (td_published t) r = Ok tt) →
  let id := mkCoordinatorExecutionId (cx_generation x) (cx_action_id x) (cx_attempt_id x) (td_sequence t) in
  concluded res (handle_coordinator_event (mkCoordinatorEvent id (RemoveTerminal res)) a).1.
Proof.
  intros (c & Ha & Hid & Hin & Hp) Hv. cbv zeta. unfold handle_coordinator_event. rewrite Ha, Hid. unfold is_current. simpl.
  rewrite !bool_decide_eq_true_2, Z.eqb_refl by done. simpl.
  destruct res as [r|e]; simpl; [rewrite Hin; simpl; rewrite Hp; simpl; rewrite (Hv r eq_refl)|];
    (split; [done|]; do 2 eexists; split; [done|by split]).
Qed.

Lemma protocol_sequence h σ :
  protocol h = Some σ → Z.of_nat (length h) ≤ u64_max → 0 ≤ td_sequence (sn_told σ) ≤ Z.of_nat (length h).
Proof.
  revert σ. induction h as [|ev h IH] using rev_ind; intros σ' H Hl; [injection H as <-; simpl; lia|].
  rewrite protocol_snoc in H. rewrite length_app in *. simpl in *. destruct (protocol h) as [σ|]; [|done].
  specialize (IH σ eq_refl ltac:(lia)). simpl in H. destruct (td_ended _); [done|].
  destruct ev as [[| | | |d e| | | | |[id u]] r]; try (apply allow_Some in H as [_ ->]); try (injection H as <-); simpl; try lia.
  destruct u; try done; apply allow_Some in H as [H ->]; simpl; [|lia].
  unfold publish_allowed in H. do 4 apply andb_prop in H as [H _]. apply andb_prop in H as [_ H%bool_decide_eq_true].
  simpl in H. rewrite H. simpl. destruct (next_sequence (td_sequence (sn_told σ))) as [-> _]; lia.
Qed.

(** The agent follows the coordinator to its end. *)
Lemma agent_follows h σ a :
  protocol h = Some σ → Z.of_nat (length h) ≤ u64_max → tracks (mkTold (first_remove_progress i) 0 false) a →
  if td_ended (sn_told σ) then
    ∃ h0 ev open res, h = h0 ++ [existT (SendEvent ev) open] ∧ cv_update ev = RemoveTerminal res ∧
      concluded res (receive (sent h) a)
  else tracks (sn_told σ) (receive (sent h) a).
Proof.
  revert σ. induction h as [|ev h IH] using rev_ind; intros σ' H Hl Ha; [by injection H as <-|].
  rewrite protocol_snoc in H. rewrite length_app in Hl. simpl in Hl. destruct (protocol h) as [σ|] eqn:Hh; [|done].
  specialize (IH σ eq_refl ltac:(lia) Ha). simpl in H. destruct (td_ended (sn_told σ)) eqn:He; [done|].
  apply protocol_sequence in Hh as Hq; [|lia].
  unfold sent. rewrite omap_app. unfold receive. rewrite foldl_app. fold (receive (sent h) a).
  destruct ev as [[| | | |d e| | | | |[id u]] r]; try (apply allow_Some in H as [_ ->]); try (injection H as <-);
    simpl; try (rewrite He; exact IH).
  destruct u as [| |p|res]; try done; apply allow_Some in H as [H ->]; simpl.
  - unfold publish_allowed in H. do 4 apply andb_prop in H as [H _]. apply andb_prop in H as [Hv H%bool_decide_eq_true].
    apply receive_progress with (t := sn_told σ); [lia|done| |done]. by destruct (validate_progress i p) as [[]|].
  - unfold terminal_allowed in H. apply andb_prop in H as [Hid%bool_decide_eq_true H]. exists h, (mkCoordinatorEvent id (RemoveTerminal res)), r, res.
    split_and!; [done..|]. simpl in Hid. rewrite Hid. apply receive_terminal; [done|]. intros r' ->. apply andb_prop in H as [H _].
    by destruct (validate_terminal_progress i (td_published (sn_told σ)) r') as [[]|].
Qed.

End consequences.

(** C16. A removal never rolls back an installation, and never touches the
    target before the commit: in one run, all effects that make a
    configuration current are for one and the same configuration, the reduced
    or the previous one; and before the target is disconnected or asked to
    retire, the live primary was seen in the reduced current configuration,
    and the agent was told of the commit. *)
Theorem removal_never_rolls_back `{Endpoints} fuel x i oracle :
  validate_remove_intent i = Ok tt →
  let h := (exec oracle (run_remove_replica_coordinator fuel x i (initial_state i)) []).1 in
  (∃ d, (d = rm_reduced_current_configuration i ∨ d = rm_previous_configuration i) ∧
     ∀ c, c ∈ installed h → materialize d None = Ok c) ∧
  (∀ h1 ev h2, h = h1 ++ ev :: h2 → touches_target ev = true →
     reduced_seen i h1 ∧ ∃ p, p ∈ omap published_by h1 ∧ rp_commit_observed p = true).
Proof.
  intros Hi. pose proof (wp_exec _ _ oracle _ (coordinator_wp fuel x i Hi)) as Hw. cbv zeta.
  destruct (exec _ _ _) as [h r]. destruct Hw as (σ & Hσ & _). simpl in *. split.
  - apply protocol_consequences in Hσ as Hc. destruct (rp_current_install_dispatched (td_published (sn_told σ))) eqn:Hd.
    + exists (rm_reduced_current_configuration i). split; [by left|]. intros c Hin%(cq_installed _ _ _ Hc). by rewrite Hd in Hin.
    + exists (rm_previous_configuration i). split; [by right|]. intros c Hin%(cq_installed _ _ _ Hc). rewrite Hd in Hin. by destruct Hin.
  - intros h1 ev h2 -> Ht. rewrite cons_middle, app_assoc in Hσ. apply protocol_prefix in Hσ as [σ0 Hσ].
    by eapply touch_committed.
Qed.

(** The agent accepts everything its removal coordinator tells it: given
    the action it started the coordinator for, the coordinator's events never
    fail the action by being invalid or stale; at the end the agent keeps the
    action as completed with the coordinator's result, or as failed with the
    coordinator's own error. *)
Theorem agent_accepts_removal `{Endpoints} fuel x i oracle a :
  validate_remove_intent i = Ok tt → tracks x i (mkTold (first_remove_progress i) 0 false) a →
  let '(h, r) := exec oracle (run_remove_replica_coordinator fuel x i (initial_state i)) [] in
  Z.of_nat (length h) ≤ u64_max →
  match r.2 with
  | Done ev => ∃ res, cv_update ev = RemoveTerminal res ∧ concluded res (receive (sent h) a)
  | Fails _ => False
  | Looping => active (receive (sent h) a) ≠ None
  end.
Proof.
  intros Hi Ha. pose proof (wp_exec _ _ oracle _ (coordinator_wp fuel x i Hi)) as Hw.
  destruct (exec _ _ _) as [h r]. destruct Hw as (σ & Hσ & Hr). simpl in *. intros Hl.
  pose proof (agent_follows x i h σ a Hσ Hl Ha) as Hf.
  destruct Hr as [[-> He]|(ev & -> & He & (h0 & open & ->) & res & Hres)]; rewrite He in Hf.
  - destruct Hf as (c & -> & _). done.
  - destruct Hf as (h0' & ev' & open' & res' & Heq & Hres' & Hc). apply app_inj_tail in Heq as [_ Heq].
    apply (f_equal sent_by) in Heq. injection Heq as <-. by exists res'.
Qed.

(** A removal that goes well: the runtime does as it is told, and the target
    retires when it is asked to. *)
Module DemoRemoval.
#[local] Existing Instance DemoRemove.ends.
Definition execution : CoordinatorExecution := mkCoordinatorExecution "g1" "act" "try".
Definition effects (h : history) : list RuntimeEffect :=
  omap (λ ev, match ev with existT (AwaitEffect _ e) _ => Some e | _ => None end) h.
Definition did (f : RuntimeEffect → bool) (h : history) : bool := existsb f (effects h).
Definition asked_to_retire (h : history) : bool :=
  existsb (λ ev, match ev with existT (AwaitStage _ _ _) _ => true | _ => false end) h.
Definition runtime (h : history) : RuntimeControlSnapshot :=
  let i := DemoRemove.intent in
  let configuration :=
    if did (λ e, match e with EffUpdateCurrentConfiguration _ => true | _ => false end) h then reduced_current_status i
    else if did (λ e, match e with EffUpdateCatchUpConfiguration _ _ => true | _ => false end) h then reduced_catch_up_status i
    else previous_status i in
  let wait :=
    if did (λ e, match e with EffStartTrackedCatchUpQuorum _ _ => true | _ => false end) h
    then Some (mkRuntimeQuorumWaitObservation (wait_id i) BuildCompleted None) else None in
  let connections : gmap ReplicaId ReplicaInstanceId :=
    if did (λ e, match e with EffRemoveReplica _ _ => true | _ => false end) h then ∅ else {[3 := "i3"]} in
  mkRuntimeControlSnapshot "i1" Primary (mkEpoch 1 2) (Some configuration) None None None wait
    (Some (PState.mkPartitionState (access_as_u8 Granted) (access_as_u8 Granted) 5 5 true 5 ∅ connections)).
Definition authority (h : history) : CoordinatorAuthority :=
  let id := default (mkCoordinatorExecutionId "g1" "act" "try" 0)
              (cv_execution_id <$> last (sent h)) in
  mkCoordinatorAuthority "g1" "act" (rm_input_signature DemoRemove.intent) "try" (ce_phase_sequence id).
Definition peer (h : history) : PeerLifecycleStatus :=
  let retired := asked_to_retire h in
  mkPeerLifecycleStatus 2 3 "i3" "g3" 0 (if retired then RoleNone else ActiveSecondary) (mkEpoch 1 2) (negb retired) 5 None [].
Definition oracle (h : history) (q : coordinator_call) : coordinator_answer q :=
  match q return coordinator_answer q with
  | AskClock => 900
  | BorrowStatus => runtime h
  | BorrowAuthority => Some (authority h)
  | AwaitAuthority => true
  | AwaitEffect _ _ => Some (Ok EffUnit)
  | AwaitPeerStatus _ _ => PeerReplied (Ok (peer h))
  | AwaitStage _ _ r =>
      PeerReplied (Ok (mkPeerStageObservation 2 Remove 1 (pr_message_id r) (pr_input_signature r) Retire StageAccepted "g3" 1 None))
  | AwaitObservation => Slept
  | AwaitAuthorityOrSleep => None
  | SendEvent _ => true
  end.
Definition run := exec oracle (run_remove_replica_coordinator 10 execution DemoRemove.intent (initial_state DemoRemove.intent)) [].
End DemoRemoval.
#[local] Existing Instance DemoRemove.ends.

Lemma removal_follows_protocol_witness :
  (∃ ev, DemoRemoval.run.2.2 = Done ev ∧ cv_update ev = RemoveTerminal (Ok CommittedClean)) ∧
  ∃ σ, protocol DemoRemoval.execution DemoRemove.intent DemoRemoval.run.1 = Some σ.
Proof.
  split; [eexists; split; vm_compute; reflexivity|].
  assert (validate_remove_intent DemoRemove.intent = Ok tt) as H by (vm_compute; reflexivity).
  pose proof (removal_follows_protocol 10 DemoRemoval.execution DemoRemove.intent DemoRemoval.oracle H) as Hp.
  fold DemoRemoval.run in Hp. destruct DemoRemoval.run as [h r]. destruct Hp as (σ & Hσ & _). exists σ. exact Hσ.
Defined.

Lemma removal_never_rolls_back_witness :
  length (installed DemoRemoval.run.1) = 1%nat ∧
  ∃ d, ∀ c, c ∈ installed DemoRemoval.run.1 → materialize d None = Ok c.
Proof.
  split; [vm_compute; reflexivity|].
  assert (validate_remove_intent DemoRemove.intent = Ok tt) as H by (vm_compute; reflexivity).
  destruct (removal_never_rolls_back 10 DemoRemoval.execution DemoRemove.intent DemoRemoval.oracle H) as [(d & _ & Hd) _].
  exists d. exact Hd.
Defined.

Lemma agent_accepts_removal_witness :
  ∃ a, run_agent [(DemoAgent.env, EvCommand (Some (ExecuteCorrelatedControlAction DemoAgent.request 5)))] DemoAgent.start
       = Some a ∧
  ∃ res, concluded res (receive (sent DemoRemoval.run.1) a.1).
Proof.
  destruct (run_agent [(DemoAgent.env, EvCommand (Some (ExecuteCorrelatedControlAction DemoAgent.request 5)))] DemoAgent.start)
    as [a|] eqn:Ha; [|vm_compute in Ha; discriminate Ha].
  exists a. split; [reflexivity|].
  assert (validate_remove_intent DemoRemove.intent = Ok tt) as H by (vm_compute; reflexivity).
  assert (tracks DemoRemoval.execution DemoRemove.intent (mkTold (first_remove_progress DemoRemove.intent) 0 false) a.1) as Ht.
  { vm_compute in Ha. injection Ha as <-. eexists. split_and!; vm_compute; reflexivity. }
  pose proof (agent_accepts_removal 10 DemoRemoval.execution DemoRemove.intent DemoRemoval.oracle a.1 H Ht) as Hp.
  fold DemoRemoval.run in Hp.
  assert (Z.of_nat (length DemoRemoval.run.1) ≤ u64_max) as Hl by (vm_compute; discriminate).
  assert (match DemoRemoval.run.2.2 with Done _ => True | _ => False end) as Hd by (vm_compute; exact I).
  destruct DemoRemoval.run as [h [s o]]. simpl in *. destruct o; [|destruct Hd|destruct Hd].
  destruct (Hp Hl) as (res & _ & Hc). exists res. exact Hc.
Defined.
