(* ===== verification/RemoveTermination.v ===== *)
(** The coordinator of a removal ends: when the clock passes the operation's
    last deadline, the runtime drops the target's connection and the agent is
    not behind with its authority, every loop of [RemoveCoordinator] ends, and
    the agent gets a terminal result. *)

From S2P Require Import Prelude Types Quorum Replicator Lifecycle AddReplica RemoveReplica Control Agent Task RemoveCoordinator RemoveProtocol.

Set Default Goal Selector "!".
Local Open Scope task_scope.

(** How often the clock was asked. *)
Definition is_ask (ev : event coordinator_call coordinator_answer) : bool :=
  match projT1 ev with AskClock => true | _ => false end.
Definition asks (h : history) : nat := length (filter (λ ev, is_ask ev = true) h).

(** The phase last published. *)
Definition last_sequence (h : history) : Z := default 0 ((λ ev, ce_phase_sequence (cv_execution_id ev)) <$> last (sent h)).

(** The coordinator was just told that its authority changed. *)
Definition woken (h : history) : bool :=
  match last h with Some (existT AwaitAuthority open) => open | _ => false end.

Section termination.
  Context {Ends : Endpoints} (fuel : nat) (bound : nat) (x : CoordinatorExecution) (i : RemoveReplicaIntent).
  Context (Hi : validate_remove_intent i = Ok tt).

Definition cap : Z := rm_compensation_deadline_cap_unix_seconds i.

(** By the time the clock was asked [bound] times, it has passed the last
    deadline and the runtime has dropped the connection; an agent that
    announces a change of authority is not behind. *)
Definition fair (h : history) (q : coordinator_call) (r : coordinator_answer q) : Prop :=
  match q return coordinator_answer q → Prop with
  | AskClock => λ now, (bound ≤ asks h)%nat → cap ≤ now
  | BorrowStatus => λ rt, (bound ≤ asks h)%nat → remove_connection_absent rt i = true
  | BorrowAuthority => λ a, woken h = true → ∀ a', a = Some a' → own_authority x i a' = true →
      last_sequence h ≤ ca_phase_sequence a'
  | _ => λ _, True
  end r.

(** The clock was asked [n] times at least, the phase is the one published,
    and the expiries are within the cap. *)
Definition inv (n : nat) : @assertion _ coordinator_answer RemoveCoordinatorState := λ h s,
  (n ≤ asks h)%nat ∧ last_sequence h = rs_phase_sequence s ∧
  (∀ e, rp_compensation_expiry_unix_seconds (rs_progress s) = Some e → e ≤ cap) ∧
  (∀ e, rp_retirement_expiry_unix_seconds (rs_progress s) = Some e → e ≤ cap).
Abbreviation ending n := (terminates (E := string) fair (inv n)).

Lemma asks_snoc h ev : asks (h ++ [ev]) = (asks h + match projT1 ev with AskClock => 1 | _ => 0 end)%nat.
Proof. unfold asks. rewrite filter_app, length_app. f_equal. destruct ev as [[] ?]; done. Qed.

Lemma last_sequence_snoc h q r :
  last_sequence (h ++ [existT q r]) =
    match q with SendEvent ev => ce_phase_sequence (cv_execution_id ev) | _ => last_sequence h end.
Proof. unfold last_sequence, sent. rewrite omap_app. destruct q; simpl; rewrite ?app_nil_r; [..|by rewrite last_snoc]; done. Qed.

Lemma inv_mono n h s : inv (S n) h s → inv n h s.
Proof. intros [? ?]. split; [lia|done]. Qed.

Lemma inv_ask n h s q r : match q with SendEvent _ => False | _ => True end → inv n h s → inv n (h ++ [existT q r]) s.
Proof.
  intros Hq (Ha & Hs & He). split_and!; [|by rewrite last_sequence_snoc; destruct q|by apply He..].
  rewrite asks_snoc. lia.
Qed.

Lemma inv_clock n h s r : inv n h s → inv (S n) (h ++ [existT AskClock r]) s.
Proof.
  intros (Ha & Hs & He). split_and!; [|by rewrite last_sequence_snoc|by apply He..]. rewrite asks_snoc. simpl. lia.
Qed.

Lemma ending_ask n q : match q with SendEvent _ => False | _ => True end → ending n (sask q).
Proof. intros Hq. apply terminates_sask. intros h s r _. by apply inv_ask. Qed.

(** Progress keeps its expiries, or gets new ones within the cap. *)
Lemma ending_update n f :
  (∀ s, rs_phase_sequence (f s) = rs_phase_sequence s) →
  (∀ s e, rp_compensation_expiry_unix_seconds (rs_progress (f s)) = Some e →
     rp_compensation_expiry_unix_seconds (rs_progress s) = Some e ∨ e ≤ cap) →
  (∀ s e, rp_retirement_expiry_unix_seconds (rs_progress (f s)) = Some e →
     rp_retirement_expiry_unix_seconds (rs_progress s) = Some e ∨ e ≤ cap) →
  ending n (update f).
Proof.
  intros Hs Hc Hr. apply terminates_update. intros h s (Ha & Hq & H1 & H2). split_and!; [done|by rewrite Hs| |].
  - intros e He. destruct (Hc s e He); auto.
  - intros e He. destruct (Hr s e He); auto.
Qed.

Lemma caps : rm_overall_deadline_unix_seconds i ≤ cap ∧
  ∀ t e, compensation_expiry i t = Ok e → e ≤ cap.
Proof.
  split.
  - unfold cap. apply validated_parts in Hi as (_ & _ & _ & _ & Hlim). unfold validate_limits in Hlim.
    do 2 apply bind_Ok in Hlim as ([] & _ & Hlim). apply bind_Ok in Hlim as ([] & Hd%reject_if_Ok & Hlim).
    apply bind_Ok in Hlim as (c & Hc%ok_or_Ok & Hq%reject_if_Ok). apply i64_checked_add_Some in Hc as [-> _].
    guards. unfold REMOVE_REPLICA_COMPENSATION_GRACE_SECONDS in *. lia.
  - intros t e H. unfold compensation_expiry in H. apply bind_Ok in H as ([] & _ & H).
    apply bind_Ok in H as (? & _ & [= <-]). unfold cap. lia.
Qed.

Lemma retirement_cap t e : retirement_expiry i t = Ok e → e ≤ cap.
Proof. intros H. apply retirement_expiry_bounds in H; [|done]. destruct caps. lia. Qed.

(** *** The parts *)

Context (Hfuel : (2 ≤ fuel)%nat).

Lemma authority_ends n : ending n (wait_for_remove_authority fuel x i).
Proof.
  unfold wait_for_remove_authority. destruct fuel as [|[|f]]; [lia..|]. intros h s H.
  cbn [loop]. eapply (ends_sbind _ _ _ _ (λ h _ r, r = None → woken h = true)).
  - intros a _. simpl. pose proof (inv_ask n h s BorrowAuthority a I H) as H'.
    destruct a as [a|]; [|done]. destruct (own_authority x i a); [|done]. simpl.
    destruct (_ =? _); [done|]. destruct (_ <? _); [|done]. intros open _. simpl.
    pose proof (inv_ask n _ s AwaitAuthority open I H') as H''. destruct open; [|done].
    split; [done|]. intros _. unfold woken. by rewrite last_snoc.
  - clear h s H. intros h s [a|] H Hw; [done|]. specialize (Hw eq_refl).
    eapply (ends_sbind _ _ _ _ (λ h _ r, r ≠ None)); [|by intros h' s' [a|] ? ?].
    intros a Ha. simpl in *. pose proof (inv_ask n h s BorrowAuthority a I H) as H'.
    destruct a as [a|]; [|done]. destruct (own_authority x i a) eqn:Ho; [|done]. simpl. specialize (Ha Hw a eq_refl Ho).
    destruct (_ =? _) eqn:Heq; [done|]. destruct H as (_ & Hq & _). rewrite Hq in Ha.
    rewrite (proj2 (Z.ltb_ge _ _)) by lia. done.
Qed.

Lemma publish_ends n : ending n (publish_remove_progress fuel x i).
Proof.
  intros h s H. apply ends_get, ends_slift; [done|]. intros [] _. apply ends_update, ends_get. intros open _. simpl.
  match goal with |- wp_under _ (_ ?st) _ ?hist => assert (inv n hist st) as H' end.
  { destruct H as (Ha & Hs & He). split_and!; [|by rewrite last_sequence_snoc|by apply He..]. rewrite asks_snoc. lia. }
  destruct open; [by apply authority_ends|done].
Qed.

(** What is put together from parts that end. *)
Ltac ending_step :=
  match goal with
  | |- terminates _ _ _ => assumption
  | |- terminates _ _ (sbind (slift _) _) => apply terminates_slift_bind; intros ? ?
  | |- terminates _ _ (sbind _ _) => apply terminates_sbind; [|intros ?]
  | |- terminates _ _ (sret _) => apply terminates_sret
  | |- terminates _ _ (sfail _) => apply terminates_sfail
  | |- terminates _ _ (slift _) => apply terminates_slift
  | |- terminates _ _ (get _) => apply terminates_get
  | |- terminates _ _ (attempt _) => apply terminates_attempt
  | |- terminates _ _ (sask _) => by apply ending_ask
  | |- terminates _ _ (update _) => apply ending_update; [by intros ?|simpl; naive_solver..]
  | |- terminates _ _ (match ?r with _ => _ end) => destruct r eqn:?
  end.
Ltac ending := repeat (ending_step || (cbv zeta; ending_step)).

Lemma gate_ends n d allowed : ending n (remove_authority_gate fuel x i d allowed).
Proof. unfold remove_authority_gate, unix_seconds, borrow_runtime. pose proof (authority_ends n). ending. Qed.

Lemma effect_ends n e d o : ending n (execute_remove_runtime_effect i e d o).
Proof. unfold execute_remove_runtime_effect, remove_call_deadline, await_remove_clock_bounded, unix_seconds. ending. Qed.

Lemma transition_ends n ph : ending n (transition_remove_progress fuel x i ph).
Proof. unfold transition_remove_progress, set_progress. pose proof (publish_ends n). ending. Qed.

Lemma pause_ends n : ending n wait_for_remove_observation ∧ ending n wait_for_remove_observation_only.
Proof. split; unfold wait_for_remove_observation, wait_for_remove_observation_only; ending. Qed.

Lemma observe_ends n : ending n (observe_remove_commit fuel x i).
Proof.
  unfold observe_remove_commit, unix_seconds, set_progress.
  pose proof (gate_ends n). pose proof (transition_ends n). ending; try done.
  apply ending_update; [done|done|]. simpl. intros s e [= <-]. right. by eapply retirement_cap.
Qed.

(** *** The loops *)

(** A turn that goes on only with the clock asked once more, and only before
    it has passed the deadlines. *)
Definition closer {A} (n : nat) (goes_on : A → Prop) : history → RemoveCoordinatorState → A → Prop :=
  λ h s r, goes_on r → (n < bound)%nat ∧ inv (S n) h s.

Lemma closer_rest {A} n (goes_on : A → Prop) (t : coord A) h s :
  (n < bound)%nat → inv (S n) h s → ending (S n) t → wp_under fair (t s) (ends (inv n) (closer n goes_on)) h.
Proof.
  intros Hn Hs Ht. eapply wp_under_mono; [by apply Ht|]. intros h' [s' [a|e|]] [Hi' H]; split; try done; by apply inv_mono.
Qed.

(** Where nothing goes on. *)
Lemma closer_last {A} n (goes_on : A → Prop) (t : coord A) h s :
  inv n h s → wp_under fair (t s) (ends (inv n) (λ _ _ a, ¬ goes_on a)) h → wp_under fair (t s) (ends (inv n) (closer n goes_on)) h.
Proof.
  intros Hs Ht. eapply wp_under_mono; [exact Ht|]. intros h' [s' [a|e|]] [Hi' H]; split; done.
Qed.

Lemma ends_clock {A} n (f : Z → coord A) good h s :
  inv n h s → (∀ now h, inv (S n) h s → wp_under fair (f now s) (ends (inv n) good) h) →
  wp_under fair (sbind unix_seconds f s) (ends (inv n) good) h.
Proof. intros H Hf now _. by apply Hf, inv_clock. Qed.

(** A deadline looked at. *)
Lemma clock_closer {A} n (goes_on : A → Prop) d (t1 t2 : Z → coord A) h s :
  d ≤ cap → inv n h s →
  (∀ now h, inv n h s → wp_under fair (t1 now s) (ends (inv n) (λ _ _ a, ¬ goes_on a)) h) →
  (∀ now, ending (S n) (t2 now)) →
  wp_under fair (sbind unix_seconds (λ now, if d <=? now then t1 now else t2 now) s) (ends (inv n) (closer n goes_on)) h.
Proof.
  intros Hd H H1 H2 now Hnow. simpl. apply (inv_clock _ _ _ now) in H as H'. destruct (Z.leb_spec d now).
  - apply closer_last; [by apply inv_mono|]. apply H1. by apply inv_mono.
  - apply closer_rest; [|done|done]. destruct H as [Ha _]. simpl in Hnow.
    destruct (Nat.lt_ge_cases n bound) as [?|Hb]; [done|]. specialize (Hnow ltac:(lia)). lia.
Qed.

Lemma gate_closer n d allowed h s :
  d ≤ cap → inv n h s →
  wp_under fair (remove_authority_gate fuel x i (Some d) allowed s) (ends (inv n) (closer n (λ _, True))) h.
Proof.
  intros Hd H. unfold remove_authority_gate. eapply ends_sbind; [by apply authority_ends|]. clear h s H.
  intros h s [] H _. eapply (ends_sbind _ _ _ _ (closer n (λ b, b = false))).
  { intros now Hnow. simpl. apply (inv_clock _ _ _ now) in H as H'. split; [by apply inv_mono|].
    intros Hlt%Z.leb_gt. split; [|done]. destruct H as [Ha _]. simpl in Hnow.
    destruct (Nat.lt_ge_cases n bound) as [?|Hb]; [done|]. specialize (Hnow ltac:(lia)). lia. }
  clear h s H. intros h s [] H Hc; [done|]. destruct (Hc eq_refl) as [Hn H']. apply closer_rest; [done|done|].
  unfold borrow_runtime. ending.
Qed.

Context (Hbound : (bound < fuel)%nat).

(** A loop whose turns come closer ends. *)
Lemma loop_ends {A} (body : coord (option A)) n :
  (∀ n h s, inv n h s → wp_under fair (body s) (ends (inv n) (closer n (λ r, r = None))) h) →
  (n ≤ bound)%nat → (bound < fuel + n)%nat → ending n (loop fuel body).
Proof.
  intros Hbody Hn Hf. apply (loop_terminates fair inv bound); [intros ???; apply inv_mono|exact Hbody|lia].
Qed.

Lemma install_catch_up_ends n : ending n (install_catch_up fuel x i).
Proof.
  unfold install_catch_up, deadline_gate. pose proof (transition_ends n). pose proof (observe_ends n).
  pose proof (gate_ends n). pose proof (effect_ends n). ending; try done.
Qed.

Lemma catch_up_closer n h s :
  inv n h s → wp_under fair (catch_up_turn fuel x i s) (ends (inv n) (closer n (λ r, r = None))) h.
Proof.
  intros H. unfold catch_up_turn. destruct caps as [Hcap _].
  eapply ends_sbind; [by apply gate_closer|]. clear h s H. intros h s c _ Hc. destruct (Hc I) as [Hn H'].
  apply closer_rest; [done|done|]. unfold deadline_gate, borrow_runtime. pose proof (observe_ends (S n)).
  pose proof (gate_ends (S n)). pose proof (effect_ends (S n)). pose proof (pause_ends (S n)) as [??]. ending; done.
Qed.

Lemma pre_commit_ends : ending 0 (run_remove_pre_commit fuel x i).
Proof.
  unfold run_remove_pre_commit, remove_pre_commit, await_catch_up, install_current, deadline_gate.
  pose proof (install_catch_up_ends 0). pose proof (transition_ends 0). pose proof (observe_ends 0).
  pose proof (publish_ends 0). pose proof (gate_ends 0). pose proof (effect_ends 0).
  assert (ending 0 (loop fuel (catch_up_turn fuel x i))) by (apply loop_ends; [exact catch_up_closer|lia..]).
  ending; done.
Qed.

Lemma some_last {A} n (t : coord unit) (a : A) h s :
  inv n h s → ending n t →
  wp_under fair (sbind t (λ _, sret (Some a)) s) (ends (inv n) (λ _ _ r, ¬ r = None)) h.
Proof. intros H Ht. eapply ends_sbind; [by apply Ht|]. by intros h' s' [] ? _. Qed.

Lemma compensation_closer expiry n h s :
  expiry ≤ cap → inv n h s →
  wp_under fair (compensation_turn fuel x i expiry s) (ends (inv n) (closer n (λ r, r = None))) h.
Proof.
  intros Hx H. unfold compensation_turn.
  apply (clock_closer n _ expiry (λ _, _) (λ _, _)); [done|done| |].
  - clear h H. intros now h H. apply ends_update. eapply ends_sbind; [apply publish_ends|].
    + destruct H as (? & ? & ? & ?). by split_and!.
    + by intros h' s' [] ? _.
  - intros _. unfold restore_previous, cancel_wait, committed_instead, again, set_error, set_progress, borrow_runtime.
    pose proof (observe_ends (S n)). pose proof (gate_ends (S n)). pose proof (effect_ends (S n)).
    pose proof (pause_ends (S n)) as [??]. ending; done.
Qed.

Lemma recover_ends failure : ending 0 (recover_remove_pre_commit_failure fuel x i failure).
Proof.
  assert (ending 0 (sbind (enter_remove_compensation fuel x i failure) (λ _,
          expiry ←! get (λ s, rp_compensation_expiry_unix_seconds (rs_progress s));
          expiry ←! slift (ok_or expiry "remove-replica compensation has no derived expiry");
          loop fuel (compensation_turn fuel x i expiry)))) as Hc.
  { apply terminates_sbind.
    - unfold enter_remove_compensation, unix_seconds, set_progress. pose proof (transition_ends 0). destruct caps as [_ Hcap].
      ending; done.
    - intros _ h s H. apply ends_get, ends_slift; [done|]. intros expiry Hx%ok_or_Ok.
      apply loop_ends; [|lia..|done]. intros n h' s' H'. apply compensation_closer; [|done].
      destruct H as (_ & _ & Hcmp & _). by apply Hcmp. }
  unfold recover_remove_pre_commit_failure, borrow_runtime. pose proof (observe_ends 0). ending; done.
Qed.

Lemma connection_closer n h s :
  inv n h s → wp_under fair (connection_turn fuel x i s) (ends (inv n) (closer n (λ r, r = None))) h.
Proof.
  intros H. unfold connection_turn. eapply ends_sbind; [by apply gate_ends|]. clear h s H. intros h s c H _.
  intros rt Hrt. simpl. apply (inv_ask n h s BorrowStatus rt I) in H as H'.
  destruct (remove_connection_absent rt i) eqn:Habs.
  - apply closer_last; [done|]. unfold note_absent. apply ends_update. eapply ends_sbind; [apply publish_ends|].
    + destruct H' as (? & ? & ? & ?). by split_and!.
    + by intros h' s' [] ? _.
  - assert (n < bound)%nat as Hn.
    { destruct H as [Ha _]. simpl in Hrt. destruct (Nat.lt_ge_cases n bound) as [?|Hb]; [done|].
      rewrite Hrt in Habs by lia. done. }
    eapply ends_clock; [exact H'|]. clear h H H' Hrt. intros now h H. apply closer_rest; [done..|].
    unfold note_absent, borrow_runtime, set_error, set_progress.
    pose proof (publish_ends (S n)). pose proof (gate_ends (S n)). pose proof (effect_ends (S n)).
    pose proof (pause_ends (S n)) as [??]. ending; done.
Qed.

(** *** The retirement *)

Lemma note_ends n o e : ending n (note_retirement fuel x i o e).
Proof. unfold note_retirement, set_progress. pose proof (publish_ends n). ending. Qed.

Lemma turn_parts n expiry last t :
  ending n t → ending n (before_expiry fuel x i expiry last t).
Proof. intros Ht. unfold before_expiry, unix_seconds. pose proof (gate_ends n). ending; done. Qed.

Lemma handle_status_ends n expiry last st : ending n (handle_status fuel x i expiry last st).
Proof.
  unfold handle_status, send_retire, go_on, remove_call_deadline, remove_timeout_duration, peer_execute_stage,
    await_remove_clock_bounded, peer_call, unix_seconds.
  pose proof (note_ends n). pose proof (turn_parts n). pose proof (pause_ends n) as [??].
  repeat (ending_step || (cbv zeta; ending_step) || match goal with H : ∀ _ _ _, _ → ending n _ |- _ => apply H end); done.
Qed.

Lemma retirement_closer expiry last n h s :
  expiry ≤ cap → inv n h s →
  wp_under fair (retirement_turn fuel x i expiry last s)
    (ends (inv n) (closer n (λ r, match r with inl _ => False | inr _ => True end))) h.
Proof.
  intros Hx H. unfold retirement_turn, before_expiry at 1.
  apply (clock_closer n _ expiry (λ _, _) (λ _, _)); [done|done| |].
  { intros now h' H'. split; [done|]. simpl. tauto. }
  intros _.
  unfold remove_call_deadline, remove_timeout_duration, peer_get_status, await_remove_clock_bounded, peer_call, go_on, unix_seconds.
  pose proof (gate_ends (S n)). pose proof (note_ends (S n)). pose proof (turn_parts (S n)).
  pose proof (handle_status_ends (S n)). pose proof (pause_ends (S n)) as [??].
  repeat (ending_step || (cbv zeta; ending_step) || match goal with H : ∀ _ _ _, _ → ending _ _ |- _ => apply H end); done.
Qed.

Lemma retire_until_ends m expiry last n :
  expiry ≤ cap → (n ≤ bound)%nat → (bound < m + n)%nat → ending n (retire_until fuel x i m expiry last).
Proof.
  intros Hx. revert n last. induction m as [|m IH]; intros n last Hn Hm h s H; [lia|]. cbn [retire_until].
  eapply ends_sbind; [by apply retirement_closer|]. clear h s H. intros h s [o|last'] H Hc; [done|].
  destruct (Hc I) as [Hb H']. eapply wp_under_mono; [apply (IH (S n)); [lia|lia|done]|].
  intros h' [s' [a|e|]] [Hi' H'']; split; try done; by apply inv_mono.
Qed.

Lemma post_commit_ends : ending 0 (run_remove_post_commit fuel x i).
Proof.
  assert (ending 0 (loop fuel (connection_turn fuel x i))) by (apply loop_ends; [exact connection_closer|lia..]).
  pose proof (transition_ends 0). pose proof (gate_ends 0). pose proof (publish_ends 0).
  assert (ending 0 (sbind (get (λ s, rp_retirement_expiry_unix_seconds (rs_progress s))) (λ expiry,
    expiry ←! slift (ok_or expiry "committed removal has no retirement expiry");
    retire_until fuel x i fuel expiry RetUnavailable))).
  { intros h s Hs. apply ends_get, ends_slift; [done|]. intros expiry Hx%ok_or_Ok.
    apply retire_until_ends; [|lia..|done]. destruct Hs as (_ & _ & _ & Hr). by apply Hr. }
  unfold run_remove_post_commit, ensure_remove_target_retirement, attest, borrow_runtime, set_progress. ending; done.
Qed.

Lemma remove_terminal_ends : ending 0 (remove_terminal fuel x i).
Proof.
  unfold remove_terminal, borrow_runtime. pose proof (observe_ends 0). pose proof post_commit_ends.
  pose proof pre_commit_ends. pose proof recover_ends. ending; done.
Qed.

End termination.

(** C17. The coordinator of a removal always ends, with a terminal event for
    the agent: if, by the time it has asked the clock [bound] times, the clock
    has passed the operation's last deadline (the compensation cap) and the
    runtime has dropped the target's connection, and an agent that announces a
    change of authority is not behind, then more fuel than [bound] is enough,
    whatever else the runtime, the target and the channels answer. *)
Theorem removal_terminates `{Endpoints} fuel bound x i oracle :
  validate_remove_intent i = Ok tt → (2 ≤ fuel)%nat → (bound < fuel)%nat →
  (∀ h q, fair bound x i h q (oracle h q)) →
  ∃ ev res, (exec oracle (run_remove_replica_coordinator fuel x i (initial_state i)) []).2.2 = Done ev ∧
    cv_update ev = RemoveTerminal res.
Proof.
  intros Hi Hf Hb Hfair.
  assert (wp_under (fair bound x i) (run_remove_replica_coordinator fuel x i (initial_state i))
    (λ _ r, ∃ ev res, r.2 = Done ev ∧ cv_update ev = RemoveTerminal res) []) as Hw.
  { unfold run_remove_replica_coordinator. apply wp_under_bind. unfold attempt. apply wp_under_bind.
    eapply wp_under_mono; [apply (remove_terminal_ends fuel bound x i Hi Hf Hb)|].
    - split_and!; [simpl; lia|done|done|done].
    - intros h [s [r|e|]] [_ Ho]; simpl in *; [| |done]; intros open _; simpl; by do 2 eexists. }
  by apply (wp_under_exec _ _ _ oracle) in Hw.
Qed.

(** The removal of [DemoRemoval] under a clock that runs. *)
Module DemoTermination.
Definition oracle (h : history) (q : coordinator_call) : coordinator_answer q :=
  match q return coordinator_answer q with
  | AskClock => 900 + Z.of_nat (asks h)
  | BorrowStatus =>
      let rt := DemoRemoval.runtime h in
      if decide (130 ≤ asks h)%nat then
        mkRuntimeControlSnapshot (rt_instance_id rt) (rt_role rt) (rt_epoch rt) (rt_configuration rt) None None None
          (rt_quorum_wait_observation rt)
          (Some (PState.mkPartitionState (access_as_u8 Granted) (access_as_u8 Granted) 5 5 true 5 ∅ ∅))
      else rt
  | BorrowAuthority =>
      Some (mkCoordinatorAuthority "g1" "act" (rm_input_signature DemoRemove.intent) "try" (last_sequence h))
  | q => DemoRemoval.oracle h q
  end.
End DemoTermination.
#[local] Existing Instance DemoRemove.ends.

Lemma removal_terminates_witness :
  (∀ h q, fair 130 DemoRemoval.execution DemoRemove.intent h q (DemoTermination.oracle h q)) ∧
  ∃ ev res, (exec DemoTermination.oracle
    (run_remove_replica_coordinator 200 DemoRemoval.execution DemoRemove.intent (initial_state DemoRemove.intent)) []).2.2
      = Done ev ∧ cv_update ev = RemoveTerminal res.
Proof.
  assert (validate_remove_intent DemoRemove.intent = Ok tt) as H by (vm_compute; reflexivity).
  assert (∀ h q, fair 130 DemoRemoval.execution DemoRemove.intent h q (DemoTermination.oracle h q)) as Hf.
  { intros h q. destruct q; try exact I; cbn [fair DemoTermination.oracle].
    - assert (cap DemoRemove.intent = 1030) as -> by (vm_compute; reflexivity). lia.
    - intros Hb. rewrite decide_True by exact Hb. vm_compute. reflexivity.
    - intros _ a' Ha _. injection Ha as <-. simpl. lia. }
  split; [exact Hf|].
  apply (removal_terminates 200 130 DemoRemoval.execution DemoRemove.intent DemoTermination.oracle H); [lia|lia|exact Hf].
Defined.
