(* ===== verification/AddCoordinator.v ===== *)
(** The coordinator of a replica addition
    (kuberic-core/src/replica_agent.rs, [run_add_replica_coordinator]): the
    task a primary's agent spawns for an accepted intent. It prepares the
    target, has it built, activates it and installs the configuration with it,
    or compensates: restores the previous configuration and disconnects the
    target. *)

From S2P Require Import Prelude Types Quorum Replicator Lifecycle AddReplica RemoveReplica Control Agent Task.

Set Default Goal Selector "!".
Local Open Scope task_scope.

(** ** What the coordinator asks *)

Inductive add_call :=
| ReadClock
| LookAtRuntime
| ExecuteRuntime (e : RuntimeEffect)
| ConnectPeer (address : string) (id : ReplicaId) (inst : ReplicaInstanceId) (generation : AgentGeneration)
| PeerGetStatus (timeout : Z)
| PeerExecuteStage (timeout : Z) (request : PeerStageRequest)
| PauseOrChange
| Pause
| PublishEvent (ev : CoordinatorEvent).

(** A closed channel of effects answers [Closed]; the pause of a waiting loop
    and the sending of an event have no effect on what follows. *)
Definition add_answer (c : add_call) : Type :=
  match c with
  | ReadClock => Z
  | LookAtRuntime => RuntimeControlSnapshot
  | ExecuteRuntime _ => result KubericError RuntimeEffectResult
  | ConnectPeer _ _ _ _ => result KubericError unit
  | PeerGetStatus _ => result KubericError PeerLifecycleStatus
  | PeerExecuteStage _ _ => result KubericError PeerStageObservation
  | PauseOrChange | Pause | PublishEvent _ => unit
  end.

(** The state is the phase sequence of the execution. *)
Abbreviation acoord := (stateful add_call add_answer Z string).

(** ** Pure parts *)

Definition add_target_status (i : AddReplicaIntent) : ReplicaConfigurationStatus :=
  descriptor_status (ai_current_configuration i) Current.
Definition add_catch_up_status (i : AddReplicaIntent) : ReplicaConfigurationStatus :=
  descriptor_status (ai_catch_up_configuration i) CatchUp.
Definition add_previous_status (i : AddReplicaIntent) : ReplicaConfigurationStatus :=
  descriptor_status (ai_previous_configuration i) Current.

Definition shows (c : ReplicaConfigurationStatus) (rt : RuntimeControlSnapshot) : bool :=
  bool_decide (rt_configuration rt = Some c).

Definition connected_to (id : ReplicaId) (inst : ReplicaInstanceId) (rt : RuntimeControlSnapshot) : bool :=
  match rt_partition_state rt with
  | Some state =>
      existsb (λ c, (rcs_id c =? id) && bool_decide (rcs_instance_id c = inst)) (PState.active_replica_connections state)
  | None => false
  end.

Definition exact_completed_build (o : option RuntimeBuildObservation) (i : AddReplicaIntent) (build_key : string) :
    option Lsn :=
  match o with
  | Some o =>
      if bool_decide (rb_build_key o = build_key) && (rb_target_replica_id o =? ai_target_replica_id i)
         && bool_decide (rb_target_instance_id o = ai_target_instance_id i)
         && bool_decide (rb_target_agent_generation o = ai_target_agent_generation i)
         && bool_decide (rb_state o = BuildCompleted)
      then rb_copy_lsn o else None
  | None => None
  end.

(** The target's status shows that the stage is done. *)
Definition stage_holds (i : AddReplicaIntent) (st : PeerStage) (copy_lsn : option Lsn) (s : PeerLifecycleStatus) :
    result string bool :=
  match st with
  | Prepare =>
      Ok (bool_decide (pl_epoch s = ai_epoch i)
          && (bool_decide (pl_role s = IdleSecondary) || bool_decide (pl_role s = ActiveSecondary)))
  | Activate =>
      Ok (bool_decide (pl_epoch s = ai_epoch i) && bool_decide (pl_role s = ActiveSecondary)
          && (default 0 copy_lsn <=? pl_current_progress s))
  | Cleanup => Ok (negb (pl_healthy s))
  | Retire => Err "add-replica coordinator cannot issue Retire"
  end.

Definition add_message_id (i : AddReplicaIntent) (st : PeerStage) : string :=
  ai_attempt_id i +:+ ":" +:+ peer_stage_debug st.

Definition known_add_stage (message_id : string) (s : PeerLifecycleStatus) : option PeerStageObservation :=
  List.find (λ o, bool_decide (po_message_id o = message_id))
    (option_list (pl_current_action s) ++ rev (pl_retained_terminal_actions s)).

Definition add_stage_request (i : AddReplicaIntent) (parent_action_id parent_signature : string) (st : PeerStage)
    (build_key : option string) (copy_lsn : option Lsn) (s : PeerLifecycleStatus) : PeerStageRequest :=
  let unsigned signature := mkPeerStageRequest REPLICA_LIFECYCLE_PEER_PROTOCOL_VERSION AddBuild
    PEER_STAGE_SEMANTIC_VERSION (ai_operation_id i) (ai_attempt_id i) (add_message_id i st) signature st
    (ai_primary_replica_id i) (ai_primary_instance_id i) (ai_primary_agent_generation i) (ai_primary_control_address i)
    parent_action_id parent_signature (ai_target_replica_id i) (ai_target_instance_id i) (ai_target_agent_generation i)
    (pl_peer_control_version s) (ai_epoch i) (add_configuration_fence i) build_key copy_lsn None None None None in
  unsigned (request_signature (unsigned "")).

Definition build_target (i : AddReplicaIntent) : ReplicaInfo :=
  mkReplicaInfo (ai_target_replica_id i) (ai_target_instance_id i) IdleSecondary Up (ai_target_replicator_address i)
    0 0 false.

Definition build_execution_id (i : AddReplicaIntent) : string := ai_attempt_id i +:+ ":build".
Definition add_wait_id (i : AddReplicaIntent) : string := ai_attempt_id i +:+ ":wait".

(** ** The coordinator *)

Section coordinator.
  Context (fuel : nat) (x : CoordinatorExecution) (i : AddReplicaIntent) (parent_action_id parent_signature : string).

Definition read_clock : acoord Z := sask ReadClock.
Definition look : acoord RuntimeControlSnapshot := sask LookAtRuntime.

Definition execute_runtime (e : RuntimeEffect) : acoord (result KubericError RuntimeEffectResult) := sask (ExecuteRuntime e).

(** An effect whose error ends the coordinator. *)
Definition must_execute (e : RuntimeEffect) : acoord unit :=
  r ←! execute_runtime e;
  match r with Ok _ => sret tt | Err error => sfail (error_to_string error) end.

Definition publish (ev : CoordinatorEvent) : acoord unit := sask (PublishEvent ev).

Definition send_add_progress (phase : AddReplicaCoordinatorPhase) (commit_observed : bool) (copy_lsn : option Lsn) :
    acoord unit :=
  update (λ n, u64_wrapping_add n 1);!
  id ←! get (execution_at x);
  publish (mkCoordinatorEvent id (AddProgress (mkAddReplicaProgress phase commit_observed copy_lsn))).

Definition ensure_add_deadline (deadline : Z) : acoord unit :=
  now ←! read_clock;
  if deadline <=? now then sfail "add-replica intent reached its deadline" else sret tt.

Definition remaining_peer_timeout (deadline : Z) : acoord Z :=
  now ←! read_clock;
  let remaining := i64_saturating_sub deadline now in
  if remaining <=? 0 then sfail "add-replica intent reached its deadline" else sret (Z.min remaining 5).

(** *** Waiting for the runtime *)

(** Cancels the tracked operation and gives up, at the deadline. *)
Definition give_up_at_deadline {A} (execution_id error : string) : acoord (option A) :=
  now ←! read_clock;
  if ai_deadline_unix_seconds i <=? now then
    execute_runtime (EffCancelTrackedOperation execution_id);!
    sfail error
  else sask PauseOrChange;! sret None.

Definition build_turn (build_key execution_id : string) : acoord (option Lsn) :=
  rt ←! look;
  match exact_completed_build (rt_build_observation rt) i build_key with
  | Some copy_lsn => sret (Some copy_lsn)
  | None =>
      rt ←! look;
      let wait := give_up_at_deadline execution_id "tracked build reached its deadline" in
      match rt_build_observation rt with
      | Some o =>
          if bool_decide (rb_execution_id o = execution_id)
             && (bool_decide (rb_state o = BuildFailed) || bool_decide (rb_state o = BuildCancelled))
          then sfail (default "tracked build failed" (rb_error o))
          else wait
      | None => wait
      end
  end.
Definition wait_for_build (build_key execution_id : string) : acoord Lsn :=
  loop fuel (build_turn build_key execution_id).

Definition quorum_turn (execution_id : string) : acoord (option unit) :=
  rt ←! look;
  let wait := give_up_at_deadline execution_id "tracked quorum wait reached its deadline" in
  match rt_quorum_wait_observation rt with
  | Some o =>
      if decide (rq_execution_id o = execution_id) then
        match rq_state o with
        | BuildCompleted => sret (Some tt)
        | BuildFailed | BuildCancelled => sfail (default "tracked quorum wait failed" (rq_error o))
        | BuildInProgress => wait
        end
      else wait
  | None => wait
  end.
Definition wait_for_quorum (execution_id : string) : acoord unit := loop fuel (quorum_turn execution_id).

(** *** The target *)

(** The state of the stage at the target: done, failed, or to be asked again. *)
Definition stage_progress (o : PeerStageObservation) (completed : acoord (option unit)) : acoord (option unit) :=
  match po_state o with
  | StageCompleted => completed
  | StageFailed | StageStale | StageRejected | StageConflict => sfail (default "peer stage failed" (po_error o))
  | StageAccepted | StageInProgress => sask Pause;! sret None
  end.

Definition peer_stage_turn (st : PeerStage) (build_key : option string) (copy_lsn : option Lsn) : acoord (option unit) :=
  ensure_add_deadline (ai_deadline_unix_seconds i);!
  timeout ←! remaining_peer_timeout (ai_deadline_unix_seconds i);
  status ←! sask (PeerGetStatus timeout);
  match status with
  | Err error => sfail (error_to_string error)
  | Ok status =>
      postcondition ←! slift (stage_holds i st copy_lsn status);
      if postcondition : bool then sret (Some tt)
      else
        match known_add_stage (add_message_id i st) status with
        | Some o => stage_progress o (sfail "completed peer stage no longer satisfies its live postcondition")
        | None =>
            let request := add_stage_request i parent_action_id parent_signature st build_key copy_lsn status in
            timeout ←! remaining_peer_timeout (ai_deadline_unix_seconds i);
            observation ←! sask (PeerExecuteStage timeout request);
            match observation with
            | Err error => sfail (error_to_string error)
            | Ok o => stage_progress o (sret (Some tt))
            end
        end
  end.

Definition ensure_peer_stage (st : PeerStage) (build_key : option string) (copy_lsn : option Lsn) : acoord unit :=
  client ←! sask (ConnectPeer (ai_target_control_address i) (ai_target_replica_id i) (ai_target_instance_id i)
                    (ai_target_agent_generation i));
  match client with
  | Err error => sfail (error_to_string error)
  | Ok _ => loop fuel (peer_stage_turn st build_key copy_lsn)
  end.

Definition attested (rt : RuntimeControlSnapshot) : bool :=
  bool_decide (rt_role rt = Primary) && bool_decide (rt_epoch rt = ai_epoch i) && shows (add_target_status i) rt
  && connected_to (ai_target_replica_id i) (ai_target_instance_id i) rt.

Definition attest_add_replica : acoord unit :=
  rt ←! look;
  if negb (attested rt) then sfail "primary add-replica final attestation failed"
  else
    rt ←! look;
    let copy_lsn := exact_completed_build (rt_build_observation rt) i (semantic_build_key i) in
    ensure_peer_stage Activate (Some (semantic_build_key i)) copy_lsn.

(** *** Forward *)

(** A rebuilt replica's old incarnation is disconnected first. *)
Definition retire_old_connection : acoord unit :=
  match ai_retired_instance_id i with
  | None => sret tt
  | Some retired =>
      rt ←! look;
      if connected_to (ai_target_replica_id i) retired rt then
        send_add_progress RetiringOldConnection false None;!
        must_execute (EffRemoveReplica (ai_target_replica_id i) retired)
      else sret tt
  end.

Definition build_replica : acoord Lsn :=
  let build_key := semantic_build_key i in
  rt ←! look;
  match exact_completed_build (rt_build_observation rt) i build_key with
  | Some copy_lsn => sret copy_lsn
  | None =>
      must_execute (EffStartTrackedBuild (build_execution_id i) build_key (ai_target_agent_generation i)
                      (build_target i));!
      wait_for_build build_key (build_execution_id i)
  end.

Definition install_catch_up_configuration (copy_lsn : Lsn) : acoord unit :=
  send_add_progress AddInstallingCatchUpConfiguration false (Some copy_lsn);!
  current ←! slift (materialize (ai_catch_up_configuration i) (Some copy_lsn));
  previous ←! slift (materialize (ai_previous_configuration i) None);
  must_execute (EffUpdateTrackedCatchUpConfiguration current previous (semantic_build_key i)).

(** Unless the runtime shows the catch-up or already the current configuration. *)
Definition ensure_catch_up_configuration (copy_lsn : Lsn) : acoord unit :=
  rt ←! look;
  if shows (add_catch_up_status i) rt then sret tt
  else
    rt ←! look;
    if shows (add_target_status i) rt then sret tt else install_catch_up_configuration copy_lsn.

Definition ensure_current_configuration (copy_lsn : Lsn) : acoord unit :=
  rt ←! look;
  if shows (add_target_status i) rt then sret tt
  else
    send_add_progress AddWaitingForCatchUpQuorum false (Some copy_lsn);!
    must_execute (EffStartTrackedCatchUpQuorum (add_wait_id i) QuorumWrite);!
    wait_for_quorum (add_wait_id i);!
    send_add_progress AddInstallingCurrentConfiguration false (Some copy_lsn);!
    current ←! slift (materialize (ai_current_configuration i) (Some copy_lsn));
    must_execute (EffUpdateCurrentConfiguration current).

(** An installation found already current only needs attesting. *)
Definition attest_existing : acoord AddReplicaTerminalResult :=
  rt ←! look;
  send_add_progress AddAttesting true (o ← rt_build_observation rt; rb_copy_lsn o);!
  attest_add_replica;!
  sret AddCommitted.

Definition add_replica : acoord AddReplicaTerminalResult :=
  retire_old_connection;!
  send_add_progress PreparingTarget false None;!
  ensure_peer_stage Prepare None None;!
  send_add_progress Building false None;!
  copy_lsn ←! build_replica;
  send_add_progress ActivatingTarget false (Some copy_lsn);!
  ensure_peer_stage Activate (Some (semantic_build_key i)) (Some copy_lsn);!
  ensure_catch_up_configuration copy_lsn;!
  ensure_current_configuration copy_lsn;!
  send_add_progress AddAttesting true (Some copy_lsn);!
  attest_add_replica;!
  sret AddCommitted.

Definition run_add_replica_coordinator_inner : acoord AddReplicaTerminalResult :=
  ensure_add_deadline (ai_deadline_unix_seconds i);!
  rt ←! look;
  if shows (add_target_status i) rt then attest_existing else add_replica.

(** *** Compensation *)

Definition tracked_settled (rt : RuntimeControlSnapshot) : bool :=
  (match rt_build_observation rt with Some o => negb (bool_decide (rb_state o = BuildInProgress)) | None => true end)
  && (match rt_quorum_wait_observation rt with Some o => negb (bool_decide (rq_state o = BuildInProgress)) | None => true end).

Definition settlement_turn (deadline : Z) : acoord (option unit) :=
  rt ←! look;
  if tracked_settled rt then sret (Some tt)
  else
    now ←! read_clock;
    if deadline <=? now then sfail "tracked runtime operation did not settle before compensation deadline"
    else sask PauseOrChange;! sret None.
Definition wait_for_tracked_settlement (deadline : Z) : acoord unit := loop fuel (settlement_turn deadline).

Definition cancel_if_running (running : option string) : acoord unit :=
  match running with
  | Some execution_id => execute_runtime (EffCancelTrackedOperation execution_id);! sret tt
  | None => sret tt
  end.

Definition running_build (rt : RuntimeControlSnapshot) : option string :=
  o ← rt_build_observation rt;
  if bool_decide (rb_state o = BuildInProgress) then Some (rb_execution_id o) else None.
Definition running_wait (rt : RuntimeControlSnapshot) : option string :=
  o ← rt_quorum_wait_observation rt;
  if bool_decide (rq_state o = BuildInProgress) then Some (rq_execution_id o) else None.

Definition restore_previous_configuration : acoord unit :=
  rt ←! look;
  if shows (add_previous_status i) rt then sret tt
  else
    previous ←! slift (materialize (ai_previous_configuration i) None);
    must_execute (EffUpdateCurrentConfiguration previous).

(** Nothing of the addition is left at the primary. *)
Definition undone (rt : RuntimeControlSnapshot) : bool :=
  shows (add_previous_status i) rt && negb (connected_to (ai_target_replica_id i) (ai_target_instance_id i) rt).

Definition compensate_add_replica : acoord unit :=
  send_add_progress AddCompensating false None;!
  rt ←! look;
  cancel_if_running (running_build rt);!
  rt ←! look;
  cancel_if_running (running_wait rt);!
  wait_for_tracked_settlement (ai_compensation_deadline_unix_seconds i);!
  restore_previous_configuration;!
  must_execute (EffRemoveReplica (ai_target_replica_id i) (ai_target_instance_id i));!
  attempt (ensure_peer_stage Cleanup None None);!
  now ←! read_clock;
  if ai_compensation_deadline_unix_seconds i <? now then sfail "add-replica compensation reached its deadline"
  else
    rt ←! look;
    if undone rt then sret tt else sfail "add-replica compensation barrier is not proven".

(** *** The whole *)

(** A failure before the commit compensates; one after it is reported. *)
Definition add_terminal : acoord (result string AddReplicaTerminalResult) :=
  r ←! attempt run_add_replica_coordinator_inner;
  match r with
  | Ok r => sret (Ok r)
  | Err error =>
      rt ←! look;
      if shows (add_target_status i) rt then sret (Err error)
      else
        compensated ←! attempt compensate_add_replica;
        match compensated with
        | Ok _ => sret (Ok AddCompensated)
        | Err _ => send_add_progress AddCompensating false None;! sret (Ok AddCompensationIncomplete)
        end
  end.

Definition run_add_replica_coordinator : acoord CoordinatorEvent :=
  terminal ←! add_terminal;
  id ←! get (execution_at x);
  let ev := mkCoordinatorEvent id (AddTerminal terminal) in
  publish ev;!
  sret ev.

End coordinator.
