(* ===== verification/AddProtocol.v ===== *)
(** What the coordinator of an addition may do next, given all it was answered
    and did before, and the proof that the coordinator of [AddCoordinator]
    keeps to it, whatever it is answered. *)

From S2P Require Import Prelude Types Quorum Replicator Lifecycle AddReplica RemoveReplica Control Agent Task AddCoordinator.

Set Default Goal Selector "!".
Local Open Scope task_scope.

Abbreviation add_event := (event add_call add_answer) (only parsing).
Abbreviation add_history := (list (event add_call add_answer)) (only parsing).

(** ** What a history shows *)

(** [Q] was seen after [P]. *)
Definition later (P Q : add_event → Prop) (h : add_history) : Prop :=
  ∃ h1 ev h2, h = h1 ++ ev :: h2 ∧ P ev ∧ Exists Q h2.

Definition looked (f : RuntimeControlSnapshot → Prop) (ev : add_event) : Prop :=
  match ev with existT LookAtRuntime rt => f rt | _ => False end.

Definition add_progress_of (ev : add_event) : option AddReplicaProgress :=
  match ev with
  | existT (PublishEvent ev) _ => match cv_update ev with AddProgress p => Some p | _ => None end
  | _ => None
  end.
Definition add_terminal_of (ev : add_event) : option (result string AddReplicaTerminalResult) :=
  match ev with
  | existT (PublishEvent ev) _ => match cv_update ev with AddTerminal r => Some r | _ => None end
  | _ => None
  end.

(** The sequence number last published. *)
Definition add_sequence (h : add_history) : Z := Z.of_nat (length (omap add_progress_of h)) `mod` 2 ^ 64.

Definition starts_compensation (ev : add_event) : Prop :=
  match add_progress_of ev with Some p => ap_phase p = AddCompensating | None => False end.
#[export] Instance starts_compensation_dec ev : Decision (starts_compensation ev).
Proof. unfold starts_compensation. destruct (add_progress_of ev); apply _. Defined.

Section protocol.
  Context (x : CoordinatorExecution) (i : AddReplicaIntent) (parent_action_id parent_signature : string).

(** The target is known to have done the stage: its status shows it, or it
    answered so. *)
Definition confirmed (st : PeerStage) (copy_lsn : option Lsn) (ev : add_event) : Prop :=
  match ev with
  | existT (PeerGetStatus _) (Ok s) => stage_holds i st copy_lsn s = Ok true
  | existT (PeerExecuteStage _ r) (Ok o) => pr_stage r = st ∧ pr_copy_lsn r = copy_lsn ∧ po_state o = StageCompleted
  | _ => False
  end.

Definition built (copy_lsn : Lsn) : add_event → Prop :=
  looked (λ rt, exact_completed_build (rt_build_observation rt) i (semantic_build_key i) = Some copy_lsn).
Definition quorum_reached : add_event → Prop :=
  looked (λ rt, ∃ o, rt_quorum_wait_observation rt = Some o ∧ rq_execution_id o = add_wait_id i ∧ rq_state o = BuildCompleted).

(** The target was built up to the LSN, and is active with it. *)
Definition ready (h : add_history) (copy_lsn : Lsn) : Prop :=
  Exists (confirmed Prepare None) h ∧ Exists (built copy_lsn) h ∧ Exists (confirmed Activate (Some copy_lsn)) h.

(** The runtime has the new configuration. *)
Definition committed (ev : add_event) : Prop :=
  match ev with
  | existT LookAtRuntime rt => shows (add_target_status i) rt = true
  | existT (ExecuteRuntime (EffUpdateCurrentConfiguration c)) (Ok _) =>
      ∃ l, materialize (ai_current_configuration i) (Some l) = Ok c
  | _ => False
  end.

(** It has the previous one. *)
Definition restored (ev : add_event) : Prop :=
  match ev with
  | existT LookAtRuntime rt => shows (add_previous_status i) rt = true
  | existT (ExecuteRuntime (EffUpdateCurrentConfiguration c)) (Ok _) => materialize (ai_previous_configuration i) None = Ok c
  | _ => False
  end.

Definition compensating (h : add_history) : Prop := Exists starts_compensation h.

(** ** The protocol *)

Definition effect_allowed (h : add_history) (e : RuntimeEffect) : Prop :=
  match e with
  | EffRemoveReplica id inst =>
      id = ai_target_replica_id i ∧
      (¬ compensating h ∧ ai_retired_instance_id i = Some inst ∧
         Exists (looked (λ rt, connected_to id inst rt = true)) h
       ∨ inst = ai_target_instance_id i ∧ later starts_compensation restored h)
  | EffStartTrackedBuild id key generation replica =>
      ¬ compensating h ∧ Exists (confirmed Prepare None) h ∧
      id = build_execution_id i ∧ key = semantic_build_key i ∧ generation = ai_target_agent_generation i ∧
      replica = build_target i
  | EffUpdateTrackedCatchUpConfiguration current previous key =>
      ¬ compensating h ∧ key = semantic_build_key i ∧ materialize (ai_previous_configuration i) None = Ok previous ∧
      ∃ l, ready h l ∧ materialize (ai_catch_up_configuration i) (Some l) = Ok current
  | EffStartTrackedCatchUpQuorum id QuorumWrite => ¬ compensating h ∧ id = add_wait_id i ∧ ∃ l, ready h l
  | EffUpdateCurrentConfiguration c =>
      (¬ compensating h ∧ Exists quorum_reached h ∧
         ∃ l, ready h l ∧ materialize (ai_current_configuration i) (Some l) = Ok c)
      ∨ (later starts_compensation (looked (λ rt, tracked_settled rt = true)) h ∧
         materialize (ai_previous_configuration i) None = Ok c)
  | EffCancelTrackedOperation id =>
      (∃ h0 now, h = h0 ++ [existT ReadClock now] ∧ ai_deadline_unix_seconds i ≤ now ∧
         (id = build_execution_id i ∨ id = add_wait_id i))
      ∨ (∃ h0 rt, h = h0 ++ [existT LookAtRuntime rt] ∧ compensating h0 ∧
           (running_build rt = Some id ∨ running_wait rt = Some id))
  | _ => False
  end.

(** A call to the target ends before the deadline, by the clock just read. *)
Definition timely (h : add_history) (timeout : Z) : Prop :=
  ∃ h0 now, h = h0 ++ [existT ReadClock now] ∧ 0 < timeout ≤ 5 ∧ now + timeout ≤ ai_deadline_unix_seconds i.

(** What has to be known before the target is asked for a stage. *)
Definition stage_due (h : add_history) (st : PeerStage) (build_key : option string) (copy_lsn : option Lsn) : Prop :=
  match st with
  | Prepare => build_key = None ∧ copy_lsn = None ∧ ¬ compensating h
  | Activate =>
      build_key = Some (semantic_build_key i) ∧ ¬ compensating h ∧
      (∀ l, copy_lsn = Some l → Exists (built l) h) ∧
      (Exists (confirmed Prepare None) h ∨ Exists (looked (λ rt, attested i rt = true)) h)
  | Cleanup => build_key = None ∧ copy_lsn = None ∧ later starts_compensation restored h
  | Retire => False
  end.

Definition add_publish_allowed (h : add_history) (ev : CoordinatorEvent) : Prop :=
  match cv_update ev with
  | AddProgress p =>
      cv_execution_id ev = execution_at x (u64_wrapping_add (add_sequence h) 1) ∧
      (ap_commit_observed p = true → Exists committed h) ∧
      (if decide (ap_phase p = AddCompensating) then True else ¬ compensating h)
  | AddTerminal r =>
      cv_execution_id ev = execution_at x (add_sequence h) ∧
      match r with
      | Ok AddCommitted =>
          ¬ compensating h ∧
          ∃ copy_lsn, later (looked (λ rt, attested i rt = true)) (confirmed Activate copy_lsn) h
      | Ok AddCompensated =>
          ∃ h0 now rt, h = h0 ++ [existT ReadClock now; existT LookAtRuntime rt] ∧
            compensating h0 ∧ now ≤ ai_compensation_deadline_unix_seconds i ∧ undone i rt = true
      | Ok AddCompensationIncomplete => compensating h
      | Err _ => ¬ compensating h ∧ ∃ h0 rt, h = h0 ++ [existT LookAtRuntime rt] ∧ shows (add_target_status i) rt = true
      end
  | _ => False
  end.

Definition allowed (h : add_history) (q : add_call) : Prop :=
  match q with
  | ReadClock | LookAtRuntime | PauseOrChange | Pause => True
  | ExecuteRuntime e => effect_allowed h e
  | ConnectPeer address id inst generation =>
      address = ai_target_control_address i ∧ id = ai_target_replica_id i ∧ inst = ai_target_instance_id i ∧
      generation = ai_target_agent_generation i
  | PeerGetStatus timeout => timely h timeout
  | PeerExecuteStage timeout r =>
      timely h timeout ∧ ∃ st build_key copy_lsn h0 timeout' s now,
        h = h0 ++ [existT (PeerGetStatus timeout') (Ok s); existT ReadClock now] ∧
        stage_due h0 st build_key copy_lsn ∧ stage_holds i st copy_lsn s = Ok false ∧
        r = add_stage_request i parent_action_id parent_signature st build_key copy_lsn s
  | PublishEvent ev => add_publish_allowed h ev
  end.

(** Everything done was allowed after what came before, and nothing is done
    after the terminal event. *)
Definition follows (h : add_history) : Prop :=
  ∀ h1 ev h2, h = h1 ++ ev :: h2 → allowed h1 (projT1 ev) ∧ omap add_terminal_of h1 = [].

(** ** Facts that stay true as the history grows *)

Definition up (F : add_history → Prop) : Prop := ∀ h l, F h → F (h ++ l).

(** [P] was seen since [h0]. *)
Definition since (h0 : add_history) (P : add_event → Prop) (h : add_history) : Prop :=
  ∃ l, h = h0 ++ l ∧ Exists P l.

Lemma up_Exists P : up (Exists P).
Proof. intros h l H. apply Exists_app. by left. Qed.
Lemma up_later P Q : up (later P Q).
Proof.
  intros h l (h1 & ev & h2 & -> & HP & HQ). exists h1, ev, (h2 ++ l). rewrite <-app_assoc. split; [done|]. split; [done|].
  apply Exists_app. by left.
Qed.
Lemma up_since h0 P : up (since h0 P).
Proof. intros h l (l0 & -> & H). exists (l0 ++ l). rewrite app_assoc. split; [done|]. apply Exists_app. by left. Qed.
Lemma up_from h0 : up (λ h, ∃ l, h = h0 ++ l).
Proof. intros h l [l0 ->]. exists (l0 ++ l). by rewrite app_assoc. Qed.
Lemma up_and F G : up F → up G → up (λ h, F h ∧ G h).
Proof. intros HF HG h l [H1 H2]. split; [by apply HF|by apply HG]. Qed.
Lemma up_const (P : Prop) : up (λ _, P).
Proof. by intros h l H. Qed.

Lemma since_Exists h0 P h : since h0 P h → Exists P h.
Proof. intros (l & -> & H). apply Exists_app. by right. Qed.
Lemma since_snoc h0 (P : add_event → Prop) h ev : (∃ l, h = h0 ++ l) → P ev → since h0 P (h ++ [ev]).
Proof.
  intros [l ->] H. exists (l ++ [ev]). rewrite app_assoc. split; [done|]. apply Exists_app. right. by left.
Qed.
Lemma since_later h0 P Q h : Exists P h0 → since h0 Q h → later P Q h.
Proof.
  intros HP (l & -> & HQ). apply Exists_exists in HP as (ev & Hin & HP). apply list_elem_of_split in Hin as (h1 & h2 & ->).
  exists h1, ev, (h2 ++ l). rewrite <-app_assoc. simpl. split; [done|]. split; [done|]. apply Exists_app. by right.
Qed.
Lemma since_from h0 P h : since h0 P h → ∃ l, h = h0 ++ l.
Proof. intros (l & -> & _). by exists l. Qed.

(** ** The coordinator at work, forward or compensating *)

Record at_work (b : bool) (h : add_history) (n : Z) : Prop := mkAtWork {
  aw_follows : follows h;
  aw_sequence : n = add_sequence h;
  aw_open : omap add_terminal_of h = [];
  aw_side : if b then compensating h else ¬ compensating h;
}.

Definition working (h : add_history) (n : Z) : Prop := follows h ∧ omap add_terminal_of h = [].

Lemma at_work_working b h n : at_work b h n → working h n.
Proof. by intros []. Qed.

Lemma follows_snoc h ev : follows h → allowed h (projT1 ev) → omap add_terminal_of h = [] → follows (h ++ [ev]).
Proof.
  intros Hf Ha Ht h1 ev' h2 He. destruct (decide (h2 = [])) as [->|Hne].
  - apply app_inj_tail in He as [-> ->]. done.
  - apply exists_last in Hne as (h2' & ev'' & ->). rewrite app_comm_cons, app_assoc in He. apply app_inj_tail in He as [-> _].
    by eapply Hf.
Qed.

Definition quiet (q : add_call) : bool := match q with PublishEvent _ => false | _ => true end.

Lemma aw_step b h n q r : quiet q = true → at_work b h n → allowed h q → at_work b (h ++ [existT q r]) n.
Proof.
  intros Hq [Hf Hs Ho Hb] Ha. split.
  - by apply follows_snoc.
  - rewrite Hs. unfold add_sequence. rewrite omap_app. destruct q; simpl; try done; by rewrite app_nil_r.
  - rewrite omap_app, Ho. by destruct q.
  - destruct b; [by apply up_Exists|]. intros [H|H]%Exists_app; [done|].
    apply Exists_cons in H as [H|H]; [by destruct q|by apply Exists_nil in H].
Qed.

Lemma wp_call {B} b q (f : add_answer q → acoord B) good bad h n :
  quiet q = true → at_work b h n → allowed h q →
  (∀ r, at_work b (h ++ [existT q r]) n → wp (f r n) (leads working good bad) (h ++ [existT q r])) →
  wp (sbind (sask q) f n) (leads working good bad) h.
Proof. intros Hq Hw Ha Hf. apply wp_sask. intros r. apply Hf. by apply aw_step. Qed.

(** In sequence: [F] is kept, [G] is what the first task brings about. *)
Definition brings {A} (b : bool) (G : A → add_history → Prop) (t : acoord A) (h : add_history) (n : Z) : Prop :=
  wp (t n) (leads working (λ h n a, at_work b h n ∧ G a h) (at_work b)) h.

Lemma brings_keeps {A} (F : add_history → Prop) b G (t : acoord A) h n :
  up F → F h → brings b G t h n → brings b (λ a h, G a h ∧ F h) t h n.
Proof.
  intros HF Hf H. eapply wp_mono; [eapply (wp_frame F); [exact HF|exact Hf|exact H]|].
  intros h' [n' [a|e|]] [H1 H2]; [|exact H1|exact H1]. destruct H1 as [H1 H1']. by split.
Qed.

Lemma wp_then {A B} (F : add_history → Prop) b G (t : acoord A) (f : A → acoord B) good h n :
  up F → F h → brings b G t h n →
  (∀ h n a, at_work b h n → G a h → F h → wp (f a n) (leads working good (at_work b)) h) →
  wp (sbind t f n) (leads working good (at_work b)) h.
Proof.
  intros HF Hf Ht Hk. eapply wp_sbind; [by apply (brings_keeps F)|]. intros h' n' a (Hw & Hg & Hf'). by apply Hk.
Qed.

Lemma brings_loop {A} (F : add_history → Prop) b (G : A → add_history → Prop) fuel (body : acoord (option A)) h n :
  up F → F h → at_work b h n →
  (∀ h n, at_work b h n → F h → brings b (λ r h, match r with Some a => G a h | None => True end) body h n) →
  brings b G (loop fuel body) h n.
Proof.
  intros HF Hf Hw Hb. apply (wp_loop _ _ (λ h n, at_work b h n ∧ F h)); [by intros h' n' [?%at_work_working _]| |by split].
  clear h n Hf Hw. intros h n [Hw Hf]. eapply leads_mono; [eapply (brings_keeps F b); [done|done|by apply Hb]| |done].
  intros h' n' [a|] (Hw' & Hg & Hf'); by split.
Qed.

#[local] Hint Resolve up_Exists up_later up_since up_from up_and up_const : core.

Lemma up_ready l : up (λ h, ready h l).
Proof. unfold ready. auto. Qed.
#[local] Hint Resolve up_ready : core.

Context (fuel : nat).

(** *** Single steps *)

(** An effect that was carried out. *)
Definition executed (e : RuntimeEffect) (ev : add_event) : Prop :=
  match ev with existT (ExecuteRuntime e') (Ok _) => e' = e | _ => False end.

Lemma must_execute_brings b e h n :
  at_work b h n → effect_allowed h e → brings b (λ _, since h (executed e)) (must_execute e) h n.
Proof.
  intros Hw He. unfold must_execute, execute_runtime. apply (wp_call b); [done..|]. intros [r|error] Hw'.
  - apply wp_sret. split; [done|]. by apply since_snoc; [exists []; by rewrite app_nil_r|].
  - by apply wp_sfail.
Qed.

Lemma add_sequence_snoc h ev :
  add_sequence (h ++ [ev]) =
    match add_progress_of ev with Some _ => u64_wrapping_add (add_sequence h) 1 | None => add_sequence h end.
Proof.
  unfold add_sequence, u64_wrapping_add. rewrite omap_app, length_app. cbn [omap list_omap].
  destruct (add_progress_of ev); simpl; [|by rewrite Nat.add_0_r]. rewrite Nat2Z.inj_add. simpl. by rewrite Zplus_mod_idemp_l.
Qed.

Lemma send_progress_wp bad b phase c lsn h n :
  at_work b h n → (c = true → Exists committed h) → (phase = AddCompensating ∨ b = false) →
  wp (send_add_progress x phase c lsn n)
    (leads working (λ h n _, at_work (b || bool_decide (phase = AddCompensating)) h n) bad) h.
Proof.
  intros [Hf Hs Ho Hb] Hc Hp. unfold send_add_progress. apply wp_update. apply wp_get. intros u. split.
  - apply follows_snoc; [done| |done]. split; [by rewrite Hs|]. split; [done|]. simpl. destruct (decide _); [done|].
    by destruct Hp as [| ->].
  - by rewrite add_sequence_snoc, Hs.
  - rewrite omap_app, Ho. done.
  - unfold compensating. destruct b; simpl; [by apply up_Exists|]. case_bool_decide.
    + apply Exists_app. right. by left.
    + intros [He|[He|He%Exists_nil]%Exists_cons]%Exists_app; done.
Qed.

Lemma send_forward phase c lsn h n :
  at_work false h n → (c = true → Exists committed h) → phase ≠ AddCompensating →
  brings false (λ _ _, True) (send_add_progress x phase c lsn) h n.
Proof.
  intros Hw Hc Hp. pose proof (send_progress_wp (at_work false) false phase c lsn h n Hw Hc (or_intror eq_refl)) as H.
  rewrite bool_decide_eq_false_2 in H by done. eapply leads_mono; [exact H|done|done].
Qed.

(** *** Waiting *)

Lemma give_up_brings {A} (G : option A → add_history → Prop) b id error h n :
  at_work b h n → (id = build_execution_id i ∨ id = add_wait_id i) → (∀ h, G None h) →
  brings b G (give_up_at_deadline (A := A) i id error) h n.
Proof.
  intros Hw Hid HG. unfold give_up_at_deadline, read_clock. apply (wp_call b); [done..|]. intros now Hw'.
  destruct (Z.leb_spec (ai_deadline_unix_seconds i) now).
  - apply (wp_call b); [done|done| |intros r Hw''; by apply wp_sfail]. left. by exists h, now.
  - apply (wp_call b); [done..|]. intros r Hw''. by apply wp_sret.
Qed.

Lemma build_turn_brings b h0 h n :
  at_work b h n → (∃ l, h = h0 ++ l) →
  brings b (λ r h, match r with Some l => since h0 (built l) h | None => True end)
    (build_turn i (semantic_build_key i) (build_execution_id i)) h n.
Proof.
  intros Hw Hf. unfold build_turn, look. apply (wp_call b); [done..|]. intros rt Hw'.
  destruct (exact_completed_build _ _ _) as [l|] eqn:He.
  - apply wp_sret. split; [done|]. by apply since_snoc.
  - apply (wp_call b); [done..|]. intros rt' Hw''.
    destruct (rt_build_observation rt') as [o|]; [|by apply give_up_brings; auto].
    destruct (_ && _); [by apply wp_sfail|by apply give_up_brings; auto].
Qed.

Lemma quorum_turn_brings b h0 h n :
  at_work b h n → (∃ l, h = h0 ++ l) →
  brings b (λ r h, match r with Some _ => since h0 quorum_reached h | None => True end)
    (quorum_turn i (add_wait_id i)) h n.
Proof.
  intros Hw Hf. unfold quorum_turn, look. apply (wp_call b); [done..|]. intros rt Hw'.
  destruct (rt_quorum_wait_observation rt) as [o|] eqn:Ho; [|by apply give_up_brings; auto].
  destruct (decide _) as [He|]; [|by apply give_up_brings; auto].
  destruct (rq_state o) eqn:Hs; [by apply give_up_brings; auto| |by apply wp_sfail..].
  apply wp_sret. split; [done|]. apply since_snoc; [done|]. by exists o.
Qed.

Lemma here h : ∃ l : add_history, h = h ++ l.
Proof. exists []. by rewrite app_nil_r. Qed.

Lemma wait_for_build_brings b h n :
  at_work b h n →
  brings b (λ l, since h (built l)) (wait_for_build fuel i (semantic_build_key i) (build_execution_id i)) h n.
Proof.
  intros Hw. apply (brings_loop (λ h', ∃ l, h' = h ++ l)); [done|apply here|done|].
  intros h' n' Hw' Hf. by apply build_turn_brings.
Qed.

Lemma wait_for_quorum_brings b h n :
  at_work b h n → brings b (λ _, since h quorum_reached) (wait_for_quorum fuel i (add_wait_id i)) h n.
Proof.
  intros Hw. apply (brings_loop (λ h', ∃ l, h' = h ++ l)); [done|apply here|done|].
  intros h' n' Hw' Hf. eapply leads_mono; [by apply (quorum_turn_brings b h)| |done]. by intros h'' n'' [[]|].
Qed.

Lemma wait_settled_brings b deadline h n :
  at_work b h n → brings b (λ _, since h (looked (λ rt, tracked_settled rt = true))) (wait_for_tracked_settlement fuel deadline) h n.
Proof.
  intros Hw. apply (brings_loop (λ h', ∃ l, h' = h ++ l)); [done|apply here|done|]. clear n Hw.
  intros h' n' Hw' Hf. unfold settlement_turn, look, read_clock. apply (wp_call b); [done..|]. intros rt Hw.
  destruct (tracked_settled rt) eqn:Hs; [apply wp_sret; split; [done|by apply since_snoc]|].
  apply (wp_call b); [done..|]. intros now Hw''. destruct (deadline <=? now); [by apply wp_sfail|].
  apply (wp_call b); [done..|]. intros r Hw3. by apply wp_sret.
Qed.

(** *** The target *)

Definition due (b : bool) (st : PeerStage) (build_key : option string) (copy_lsn : option Lsn) (h : add_history) : Prop :=
  match st with
  | Prepare => build_key = None ∧ copy_lsn = None ∧ b = false
  | Activate =>
      build_key = Some (semantic_build_key i) ∧ b = false ∧
      (∀ l, copy_lsn = Some l → Exists (built l) h) ∧
      (Exists (confirmed Prepare None) h ∨ Exists (looked (λ rt, attested i rt = true)) h)
  | Cleanup => build_key = None ∧ copy_lsn = None ∧ later starts_compensation restored h
  | Retire => False
  end.

Lemma up_due b st build_key copy_lsn : up (due b st build_key copy_lsn).
Proof.
  destruct st; [by intros h l H| | |by intros h l H].
  - intros h l (? & ? & H1 & H2). split_and!; [done..| |].
    + intros l' ?. by apply up_Exists, H1.
    + destruct H2; [left|right]; by apply up_Exists.
  - intros h l (? & ? & H). split_and!; [done..|]. by apply up_later.
Qed.

Lemma due_stage_due b st build_key copy_lsn h n :
  at_work b h n → due b st build_key copy_lsn h → stage_due h st build_key copy_lsn.
Proof.
  intros [_ _ _ Hb] Hd. destruct st; [| |done|done].
  - destruct Hd as (-> & -> & ->). by split_and!.
  - destruct Hd as (-> & -> & ? & ?). by split_and!.
Qed.

(** The clock is read for the timeout of a call. *)
Lemma wp_peer_timeout {B} b (f : Z → acoord B) good h n :
  at_work b h n →
  (∀ now timeout, at_work b (h ++ [existT ReadClock now]) n → timely (h ++ [existT ReadClock now]) timeout →
     wp (f timeout n) (leads working good (at_work b)) (h ++ [existT ReadClock now])) →
  wp (sbind (remaining_peer_timeout (ai_deadline_unix_seconds i)) f n) (leads working good (at_work b)) h.
Proof.
  intros Hw Hf. unfold remaining_peer_timeout, read_clock.
  apply (wp_sbind _ _ _ _ (λ h' n' timeout, ∃ now, n' = n ∧ h' = h ++ [existT ReadClock now] ∧ at_work b h' n ∧ timely h' timeout)).
  - apply (wp_call b); [done..|]. intros now Hw'.
    destruct (Z.leb_spec (i64_saturating_sub (ai_deadline_unix_seconds i) now) 0) as [?|Hp]; [by apply wp_sfail|].
    apply wp_sret. exists now. split_and!; [done..|]. exists h, now. split; [done|].
    unfold i64_saturating_sub, i64_max, i64_min in *. lia.
  - intros h' n' timeout (now & -> & -> & Hw' & Ht). by apply Hf.
Qed.

Lemma stage_progress_brings b st copy_lsn h0 o completed h n :
  at_work b h n → (po_state o = StageCompleted → brings b
    (λ r h, match r with Some _ => since h0 (confirmed st copy_lsn) h | None => True end) completed h n) →
  brings b (λ r h, match r with Some _ => since h0 (confirmed st copy_lsn) h | None => True end)
    (stage_progress o completed) h n.
Proof.
  intros Hw Hc. unfold stage_progress. destruct (po_state o); try (by apply wp_sfail); [..|by apply Hc];
    (apply (wp_call b); [done..|]; intros r Hw'; by apply wp_sret).
Qed.

Lemma peer_stage_turn_brings b st build_key copy_lsn h0 h n :
  at_work b h n → due b st build_key copy_lsn h → (∃ l, h = h0 ++ l) →
  brings b (λ r h, match r with Some _ => since h0 (confirmed st copy_lsn) h | None => True end)
    (peer_stage_turn i parent_action_id parent_signature st build_key copy_lsn) h n.
Proof.
  intros Hw Hd Hf. unfold peer_stage_turn, ensure_add_deadline, read_clock.
  apply (wp_then (λ h, due b st build_key copy_lsn h ∧ ∃ l, h = h0 ++ l) b (λ _ _, True)).
  { apply up_and; [apply up_due|done]. } { done. }
  { apply (wp_call b); [done..|]. intros now Hw'. destruct (_ <=? _); [by apply wp_sfail|by apply wp_sret]. }
  clear h n Hw Hd Hf. intros h n _ Hw _ [Hd Hf]. apply (wp_peer_timeout b); [done|]. intros now timeout Hw1 Ht.
  assert (∃ l, h ++ [existT ReadClock now] = h0 ++ l) as Hf1 by by apply up_from.
  assert (due b st build_key copy_lsn (h ++ [existT ReadClock now])) as Hd1 by by apply up_due.
  remember (h ++ [existT ReadClock now]) as h1 eqn:Eh. clear h Eh Hw Hd Hf.
  apply (wp_call b); [done..|]. intros [s|error] Hw2; [|by apply wp_sfail].
  apply wp_slift; [done|]. intros [] Hh.
  { apply wp_sret. split; [done|]. by apply since_snoc. }
  destruct (known_add_stage _ _) as [o|]; [apply stage_progress_brings; [done|]; intros _; by apply wp_sfail|].
  apply (wp_peer_timeout b); [done|]. intros now' timeout' Hw3 Ht'. apply (wp_call b); [done|done| |].
  { split; [done|]. exists st, build_key, copy_lsn, h1, timeout, s, now'. rewrite <-app_assoc.
    split_and!; [done|by eapply due_stage_due|done..]. }
  intros [o|error] Hw4; [|by apply wp_sfail]. apply stage_progress_brings; [done|]. intros Ho. apply wp_sret. split; [done|].
  apply since_snoc; [|done]. rewrite <-app_assoc. by apply up_from.
Qed.

Lemma ensure_peer_stage_brings b st build_key copy_lsn h n :
  at_work b h n → due b st build_key copy_lsn h →
  brings b (λ _, since h (confirmed st copy_lsn))
    (ensure_peer_stage fuel i parent_action_id parent_signature st build_key copy_lsn) h n.
Proof.
  intros Hw Hd. unfold ensure_peer_stage. apply (wp_call b); [done..|]. intros [u|error] Hw'; [|by apply wp_sfail].
  apply (brings_loop (λ h', due b st build_key copy_lsn h' ∧ ∃ l, h' = h ++ l)).
  - apply up_and; [apply up_due|done].
  - split; [by apply up_due|apply up_from, here].
  - done.
  - intros h' n' Hw'' [Hd' Hf]. eapply leads_mono; [by apply (peer_stage_turn_brings b _ _ _ h)| |done].
    by intros h'' n'' [[]|].
Qed.

Lemma attest_brings h n :
  at_work false h n →
  brings false (λ _ h', ∃ copy_lsn, later (looked (λ rt, attested i rt = true)) (confirmed Activate copy_lsn) h')
    (attest_add_replica fuel i parent_action_id parent_signature) h n.
Proof.
  intros Hw. unfold attest_add_replica, look. apply (wp_call false); [done..|]. intros rt Hw1.
  destruct (attested i rt) eqn:Ha; [|by apply wp_sfail].
  apply (wp_call false); [done..|]. intros rt' Hw2.
  set (h2 := (h ++ [existT LookAtRuntime rt]) ++ [existT LookAtRuntime rt']) in *.
  assert (Exists (looked (λ rt, attested i rt = true)) h2) as Hl.
  { apply up_Exists, Exists_app. right. by left. }
  eapply leads_mono; [apply (ensure_peer_stage_brings false); [done|]| |done].
  - split_and!; [done|done| |by right]. intros l He. apply Exists_app. right. by left.
  - intros h' n' u [Hw' Hs]. split; [done|]. eexists. by eapply since_later.
Qed.

(** *** Forward *)

Lemma retire_old_brings h n :
  at_work false h n → brings false (λ _ _, True) (retire_old_connection x i) h n.
Proof.
  intros Hw. unfold retire_old_connection. destruct (ai_retired_instance_id i) as [retired|] eqn:Hr; [|by apply wp_sret].
  apply (wp_call false); [done..|]. intros rt Hw'.
  destruct (connected_to (ai_target_replica_id i) retired rt) eqn:Hc; [|by apply wp_sret].
  eapply (wp_then (Exists (looked (λ rt, connected_to (ai_target_replica_id i) retired rt = true)))); [done| |by apply send_forward|].
  { apply Exists_app. right. by left. }
  intros h' n' u Hw'' _ Hl. eapply leads_mono; [apply must_execute_brings; [done|]|by intros h'' n'' [] [? _]|done].
  split; [done|]. left. split_and!; [apply Hw''|done..].
Qed.

Lemma build_brings h n :
  at_work false h n → Exists (confirmed Prepare None) h →
  brings false (λ l, Exists (built l)) (build_replica fuel i) h n.
Proof.
  intros Hw Hp. unfold build_replica, look. apply (wp_call false); [done..|]. intros rt Hw'.
  destruct (exact_completed_build _ _ _) as [l|] eqn:He.
  { apply wp_sret. split; [done|]. apply Exists_app. right. by left. }
  eapply (wp_then (λ _, True)); [done|done|apply must_execute_brings; [done|]|].
  - split; [apply Hw'|]. split; [by apply up_Exists|done].
  - intros h' n' u Hw'' _ _. eapply leads_mono; [by apply wait_for_build_brings| |done].
    intros h'' n'' l [? ?%since_Exists]. by split.
Qed.

Lemma ensure_catch_up_brings l h n :
  at_work false h n → ready h l → brings false (λ _ _, True) (ensure_catch_up_configuration x i l) h n.
Proof.
  intros Hw Hr. unfold ensure_catch_up_configuration, look. apply (wp_call false); [done..|]. intros rt Hw1.
  destruct (shows _ rt); [by apply wp_sret|]. apply (wp_call false); [done..|]. intros rt' Hw2.
  destruct (shows _ rt'); [by apply wp_sret|]. unfold install_catch_up_configuration.
  eapply (wp_then (λ h, ready h l)); [done| |by apply send_forward|].
  { rewrite <-app_assoc. by apply up_ready. }
  intros h' n' u Hw' _ Hr'. apply wp_slift; [done|]. intros c Hc. apply wp_slift; [done|]. intros p Hp.
  eapply leads_mono; [apply must_execute_brings; [done|]|by intros h'' n'' [] [? _]|done].
  split_and!; [apply Hw'|done|done|by exists l].
Qed.

Lemma ensure_current_brings l h n :
  at_work false h n → ready h l → brings false (λ _, Exists committed) (ensure_current_configuration fuel x i l) h n.
Proof.
  intros Hw Hr. unfold ensure_current_configuration, look. apply (wp_call false); [done..|]. intros rt Hw1.
  destruct (shows _ rt) eqn:Hs; [apply wp_sret; split; [done|]; apply Exists_app; right; by left|].
  eapply (wp_then (λ h, ready h l)); [done|by apply up_ready|by apply send_forward|]. clear h n rt Hw Hr Hw1 Hs. intros h n u Hw _ Hr.
  eapply (wp_then (λ h, ready h l)); [done|done|apply must_execute_brings; [done|]|].
  { split_and!; [apply Hw|done|by exists l]. }
  clear n u Hw Hr. intros h1 n u Hw _ Hr.
  eapply (wp_then (λ h, ready h l)); [done|done|by apply wait_for_quorum_brings|].
  clear n u Hw Hr. intros h2 n u Hw Hq%since_Exists Hr.
  eapply (wp_then (λ h, ready h l ∧ Exists quorum_reached h)); [by apply up_and|done|by apply send_forward|].
  clear n u Hw Hr Hq. intros h3 n u Hw _ [Hr Hq]. apply wp_slift; [done|]. intros c Hc.
  eapply leads_mono; [apply must_execute_brings; [done|]| |done].
  { left. split_and!; [apply Hw|done|by exists l]. }
  intros h' n' v [Hw' He%since_Exists]. split; [done|]. eapply Exists_impl; [exact He|].
  intros [[] r]; simpl; try done. destruct r; [|done]. intros ->. by exists l.
Qed.

Lemma inner_brings h n :
  at_work false h n →
  brings false (λ r h', r = AddCommitted ∧
      ∃ copy_lsn, later (looked (λ rt, attested i rt = true)) (confirmed Activate copy_lsn) h')
    (run_add_replica_coordinator_inner fuel x i parent_action_id parent_signature) h n.
Proof.
  intros Hw. unfold run_add_replica_coordinator_inner, ensure_add_deadline, read_clock, look.
  eapply (wp_then (λ _, True) false (λ _ _, True)); [done|done| |].
  { apply (wp_call false); [done..|]. intros now Hw'. destruct (_ <=? _); [by apply wp_sfail|by apply wp_sret]. }
  clear h n Hw. intros h n u Hw _ _. apply (wp_call false); [done..|]. intros rt Hw'.
  destruct (shows _ rt) eqn:Hs.
  - unfold attest_existing, look. apply (wp_call false); [done..|]. intros rt' Hw''.
    eapply (wp_then (λ _, True)); [done|done|apply send_forward; [done| |done]|].
    { intros _. apply up_Exists, Exists_app. right. by left. }
    intros h1 n1 u1 Hw1 _ _. eapply (wp_then (λ _, True)); [done|done|by apply attest_brings|].
    intros h2 n2 u2 Hw2 Ha _. by apply wp_sret.
  - unfold add_replica.
    eapply (wp_then (λ _, True)); [done|done|by apply retire_old_brings|]. clear h n rt Hw Hw' Hs. intros h n v Hw _ _.
    eapply (wp_then (λ _, True)); [done|done|by apply send_forward|]. clear h n v Hw. intros h n v Hw _ _.
    eapply (wp_then (λ _, True)); [done|done|by apply (ensure_peer_stage_brings false)|].
    clear n v Hw. intros h1 n v Hw Hp%since_Exists _.
    eapply (wp_then (Exists (confirmed Prepare None))); [done|done|by apply send_forward|]. clear h h1 n v Hw Hp.
    intros h n v Hw _ Hp.
    eapply (wp_then (Exists (confirmed Prepare None))); [done|done|by apply build_brings|]. clear h n v Hw Hp.
    intros h n l Hw Hb Hp.
    eapply (wp_then (λ h, Exists (confirmed Prepare None) h ∧ Exists (built l) h)); [by apply up_and|done|by apply send_forward|].
    clear h n Hw Hp Hb. intros h n v Hw _ [Hp Hb].
    eapply (wp_then (λ h, Exists (confirmed Prepare None) h ∧ Exists (built l) h)); [by apply up_and|done| |].
    { apply (ensure_peer_stage_brings false); [done|]. split_and!; [done|done|by intros ? [= <-]|by left]. }
    clear n v Hw Hp Hb. intros h1 n v Hw Ha%since_Exists [Hp Hb].
    eapply (wp_then (λ h, ready h l)); [done|by split_and!|apply ensure_catch_up_brings; [done|by split_and!]|].
    clear h h1 n v Hw Ha Hp Hb. intros h n v Hw _ Hr.
    eapply (wp_then (λ h, ready h l)); [done|done|by apply ensure_current_brings|].
    clear h n v Hw Hr. intros h n v Hw Hc _.
    eapply (wp_then (λ _, True)); [done|done|by apply send_forward|]. clear h n v Hw Hc. intros h n v Hw _ _.
    eapply (wp_then (λ _, True)); [done|done|by apply attest_brings|]. clear h n v Hw. intros h n v Hw Ha _. by apply wp_sret.
Qed.

(** *** Compensation *)

Lemma cancel_brings running h rt n :
  at_work true (h ++ [existT LookAtRuntime rt]) n → compensating h →
  (∀ id, running = Some id → running_build rt = Some id ∨ running_wait rt = Some id) →
  brings true (λ _ _, True) (cancel_if_running running) (h ++ [existT LookAtRuntime rt]) n.
Proof.
  intros Hw Hc Hr. unfold cancel_if_running, execute_runtime. destruct running as [id|]; [|by apply wp_sret].
  apply (wp_call true); [done|done| |intros r Hw'; by apply wp_sret]. right. exists h, rt. split_and!; [done..|by apply Hr].
Qed.

Lemma restore_brings h n :
  at_work true h n → later starts_compensation (looked (λ rt, tracked_settled rt = true)) h →
  brings true (λ _, since h restored) (restore_previous_configuration i) h n.
Proof.
  intros Hw Hs. unfold restore_previous_configuration, look. apply (wp_call true); [done..|]. intros rt Hw'.
  destruct (shows _ rt) eqn:Hsh; [apply wp_sret; split; [done|]; apply since_snoc; [apply here|done]|].
  apply wp_slift; [done|]. intros c Hc. eapply leads_mono; [apply must_execute_brings; [done|]| |done].
  { right. split; [by apply up_later|done]. }
  intros h' n' u [Hw'' (l & -> & He)]. split; [done|]. rewrite <-app_assoc. eexists. split; [done|].
  apply Exists_app. right. eapply Exists_impl; [exact He|]. intros [[] r]; simpl; try done. destruct r; [|done]. by intros ->.
Qed.

(** The history ends with a clock before the compensation deadline and a look
    at the primary without the addition. *)
Definition proven_undone (h : add_history) : Prop :=
  ∃ h0 now rt, h = h0 ++ [existT ReadClock now; existT LookAtRuntime rt] ∧
    compensating h0 ∧ now ≤ ai_compensation_deadline_unix_seconds i ∧ undone i rt = true.

Lemma compensate_brings h n :
  at_work false h n →
  wp (compensate_add_replica fuel x i parent_action_id parent_signature n)
    (leads working (λ h n _, at_work true h n ∧ proven_undone h) (at_work true)) h.
Proof.
  intros Hw. unfold compensate_add_replica, look, read_clock.
  eapply wp_sbind; [apply (send_progress_wp _ false); [done..|by left]|]. clear h n Hw.
  intros h n u Hw. change (at_work true h n) in Hw.
  apply (wp_call true); [done..|]. intros rt Hw1.
  eapply (wp_then (λ _, True) true); [done|done|apply cancel_brings; [done|apply Hw|by left]|].
  clear h n rt u Hw Hw1. intros h n u Hw _ _.
  apply (wp_call true); [done..|]. intros rt Hw1.
  eapply (wp_then (λ _, True) true); [done|done|apply cancel_brings; [done|apply Hw|by right]|].
  clear h n rt u Hw Hw1. intros h n u Hw _ _.
  eapply (wp_then (λ _, True) true); [done|done|by apply wait_settled_brings|].
  intros h1 n1 u1 Hw1 Hs _. eapply since_later in Hs; [|exact (aw_side _ _ _ Hw)].
  clear h n u Hw. rename h1 into h, n1 into n, u1 into u, Hw1 into Hw.
  eapply (wp_then (λ _, True) true); [done|done|by apply restore_brings|].
  clear Hs. intros h1 n1 u1 Hw1 Hs _. eapply since_later in Hs; [|exact (aw_side _ _ _ Hw)].
  clear h n u Hw. rename h1 into h, n1 into n, u1 into u, Hw1 into Hw.
  eapply (wp_then (later starts_compensation restored) true); [done|done|apply must_execute_brings; [done|]|].
  { split; [done|]. right. by split. }
  intros h1 n1 u1 Hw1 _ Hs1. clear h n u Hw Hs. rename h1 into h, n1 into n, u1 into u, Hw1 into Hw, Hs1 into Hs.
  eapply (wp_then (λ _, True) true (λ _ _, True)); [done|done| |].
  { eapply leads_mono; [apply wp_attempt; apply (ensure_peer_stage_brings true _ None None); [done|by split_and!]| |done].
    intros h' n' [v|e]; [by intros [? _]|done]. }
  clear h n u Hw Hs. intros h n u Hw _ _.
  apply (wp_call true); [done..|]. intros now Hw1. destruct (Z.ltb_spec (ai_compensation_deadline_unix_seconds i) now); [by apply wp_sfail|].
  apply (wp_call true); [done..|]. intros rt Hw2. destruct (undone i rt) eqn:Hu; [|by apply wp_sfail].
  apply wp_sret. split; [done|]. exists h, now, rt. rewrite <-app_assoc. split_and!; [done|apply Hw|done..].
Qed.

(** *** The whole *)

(** What a terminal result rests on. *)
Definition justified (r : result string AddReplicaTerminalResult) (b : bool) (h : add_history) : Prop :=
  match r with
  | Ok AddCommitted => b = false ∧
      ∃ copy_lsn, later (looked (λ rt, attested i rt = true)) (confirmed Activate copy_lsn) h
  | Ok AddCompensated => b = true ∧ proven_undone h
  | Ok AddCompensationIncomplete => b = true
  | Err _ => b = false ∧ ∃ h0 rt, h = h0 ++ [existT LookAtRuntime rt] ∧ shows (add_target_status i) rt = true
  end.

Lemma add_terminal_wp h n :
  at_work false h n →
  wp (add_terminal fuel x i parent_action_id parent_signature n)
    (leads working (λ h n r, ∃ b, at_work b h n ∧ justified r b h) (λ _ _, False)) h.
Proof.
  intros Hw. unfold add_terminal, look.
  eapply wp_sbind; [by apply wp_attempt, inner_brings|]. clear h n Hw. intros h n [r|error] H; cbv beta in H.
  { destruct H as (Hw & -> & Ha). apply wp_sret. by exists false. }
  apply (wp_call false); [done..|]. intros rt Hw.
  destruct (shows (add_target_status i) rt) eqn:Hs.
  { apply wp_sret. exists false. split; [done|]. split; [done|]. by exists h, rt. }
  eapply wp_sbind; [by apply wp_attempt, compensate_brings|]. clear h n rt Hw H Hs. intros h n [r|error'] H; cbv beta in H.
  { destruct H as [Hw Hu]. apply wp_sret. by exists true. }
  eapply wp_sbind; [apply (send_progress_wp _ true); [done..|by left]|]. clear h n H. intros h n u Hw.
  change (at_work true h n) in Hw.
  apply wp_sret. by exists true.
Qed.

(** The coordinator ends by sending its terminal event, or was found waiting. *)
Definition concludes (h : add_history) (r : Z * outcome string CoordinatorEvent) : Prop :=
  follows h ∧
  match r.2 with
  | Done ev => ∃ h0 open res, h = h0 ++ [existT (PublishEvent ev) open] ∧ cv_update ev = AddTerminal res ∧ allowed h0 (PublishEvent ev)
  | Fails _ => False
  | Looping => omap add_terminal_of h = []
  end.

Lemma justified_publish r b h n :
  at_work b h n → justified r b h → allowed h (PublishEvent (mkCoordinatorEvent (execution_at x n) (AddTerminal r))).
Proof.
  intros [Hf -> Ho Hb] Hj. split; [done|].
  destruct r as [[]|e]; simpl in Hj.
  - by destruct Hj as [-> Hj].
  - by destruct Hj as [-> Hj].
  - by rewrite Hj in Hb.
  - by destruct Hj as [-> Hj].
Qed.

Lemma add_coordinator_wp : wp (run_add_replica_coordinator fuel x i parent_action_id parent_signature 0) concludes [].
Proof.
  assert (at_work false [] 0) as Hw.
  { split; [by intros [] ? ? ?|done|done|]. by intros ?%Exists_nil. }
  unfold run_add_replica_coordinator. apply wp_bind. eapply wp_mono; [by apply add_terminal_wp|].
  intros h [n [r|e|]] H; unfold leads in H; simpl in H; [|done|by destruct H].
  destruct H as (b & Hw' & Hj). simpl. intros open. split.
  - apply follows_snoc; [apply Hw'|by eapply justified_publish|apply Hw'].
  - exists h, open, r. split_and!; [done..|by eapply justified_publish].
Qed.

End protocol.

(** ** Properties *)

(** C18. An addition keeps to its protocol, whatever the runtime, the target,
    the transport and the clock answer: the target is built only after it
    was seen prepared; the catch-up configuration and the quorum wait come only
    after the exact build was shown and the target was confirmed active at its
    LSN; the new configuration is made current only after the tracked wait for
    the quorum was shown completed; the previous one is restored only in
    compensation, once no tracked operation is running, and nothing of the
    addition goes forward after that; the target is disconnected in
    compensation only with the previous configuration restored; each request
    to the target carries the control version just read, and is given a
    timeout within the deadline by the clock just read. The coordinator ends
    with one terminal event: Committed rests on the primary and then the
    target attested, Compensated on a last look at the primary without the
    addition before the compensation deadline, an error on the configuration
    shown committed. *)
Theorem addition_follows_protocol fuel x i parent_action_id parent_signature oracle :
  let '(h, r) := exec oracle (run_add_replica_coordinator fuel x i parent_action_id parent_signature 0) [] in
  concludes x i parent_action_id parent_signature h r.
Proof.
  pose proof (wp_exec _ _ oracle _ (add_coordinator_wp x i parent_action_id parent_signature fuel)) as H.
  by destruct (exec _ _ _) as [h r].
Qed.

(** *** After the deadline *)

Section deadline.
  Context (x : CoordinatorExecution) (i : AddReplicaIntent) (parent_action_id parent_signature : string).

Definition clock_of (ev : add_event) : option Z := match ev with existT ReadClock now => Some now | _ => None end.
Definition calls_target (ev : add_event) : bool :=
  match ev with existT (PeerGetStatus _) _ | existT (PeerExecuteStage _ _) _ => true | _ => false end.

Lemma call_in_time h1 ev h2 :
  follows x i parent_action_id parent_signature (h1 ++ ev :: h2) → calls_target ev = true →
  ∃ now, last h1 = Some (existT ReadClock now) ∧ now < ai_deadline_unix_seconds i.
Proof.
  intros Hf Hc. destruct (Hf h1 ev h2 eq_refl) as [Ha _]. destruct ev as [[] r]; try done.
  - destruct Ha as (h0 & now & -> & ? & ?). exists now. rewrite last_snoc. split; [done|lia].
  - destruct Ha as [(h0 & now & -> & ? & ?) _]. exists now. rewrite last_snoc. split; [done|lia].
Qed.
End deadline.

Lemma sorted_after (l1 : list Z) n l2 m : Sorted Z.le (l1 ++ n :: l2) → m ∈ l2 → n ≤ m.
Proof.
  intros Hs%Sorted_StronglySorted Hm; [|intros ?????; lia]. rewrite cons_middle, app_assoc in Hs.
  eapply (StronglySorted_app_1_elem_of Z.le); [exact Hs| |done]. apply elem_of_app. right. by left.
Qed.

(** C19. Once an addition has read a clock past its deadline, and the clock
    does not go back, it asks the target for nothing more: neither its status
    nor a stage, not even the Cleanup of its compensation. *)
Theorem no_target_call_after_deadline fuel x i parent_action_id parent_signature oracle h1 now h2 :
  let h := (exec oracle (run_add_replica_coordinator fuel x i parent_action_id parent_signature 0) []).1 in
  h = h1 ++ existT ReadClock now :: h2 → ai_deadline_unix_seconds i ≤ now → Sorted Z.le (omap clock_of h) →
  ∀ ev, ev ∈ h2 → calls_target ev = false.
Proof.
  cbv zeta. pose proof (wp_exec _ _ oracle _ (add_coordinator_wp x i parent_action_id parent_signature fuel)) as [H _].
  destruct (exec _ _ _) as [h r]. simpl in *. intros -> Hd Hs ev Hin. destruct (calls_target ev) eqn:Hc; [|done]. exfalso.
  apply list_elem_of_split in Hin as (a & b & ->). rewrite app_comm_cons, app_assoc in H.
  destruct (call_in_time _ _ _ _ _ _ _ H Hc) as (now' & Hl & Hlt).
  rewrite last_app_cons in Hl. apply last_Some in Hl as [l Hl].
  apply (f_equal (omap clock_of)) in Hl. rewrite omap_app in Hl. simpl in Hl.
  assert (now' ∈ now :: omap clock_of a) as [->|Hin]%elem_of_cons.
  { change (now' ∈ now :: list_omap _ _ clock_of a). rewrite Hl. apply elem_of_app. right. by left. }
  - lia.
  - rewrite omap_app in Hs. simpl in Hs. rewrite omap_app in Hs. enough (now ≤ now') by lia.
    eapply sorted_after; [exact Hs|]. apply elem_of_app. by left.
Qed.

(** *** The agent's view *)

Definition add_sent_by (ev : add_event) : option CoordinatorEvent :=
  match ev with existT (PublishEvent ev) _ => Some ev | _ => None end.
Definition add_sent (h : add_history) : list CoordinatorEvent := omap add_sent_by h.

(** The agent runs this coordinator, at this phase and with this progress. *)
Definition runs_addition (x : CoordinatorExecution) (n : Z) (p : option AddReplicaProgress) (a : ReplicaAgent) : Prop :=
  ∃ c, active a = Some c ∧ ac_coordinator_execution_id c = Some (execution_at x n) ∧
    do_add_replica_progress (co_action (ac_observation c)) = p.

(** It keeps the addition as ended by this result. *)
Definition addition_concluded (res : result string AddReplicaTerminalResult) (a : ReplicaAgent) : Prop :=
  active a = None ∧ ∃ o l, terminals a = l ++ [o] ∧
    match res with
    | Ok r => do_state (co_action o) = Completed ∧ do_result (co_action o) = Some (ResAddReplica r)
    | Err e => do_state (co_action o) = Failed ∧ do_error (co_action o) = Some (normalize e)
    end.

(** The progress that the agent shows. *)
Definition shown_progress (p : option AddReplicaProgress) (h : add_history) : option AddReplicaProgress :=
  match last (omap add_progress_of h) with Some p => Some p | None => p end.

Lemma length_omap_le {A B} (f : A → option B) l : (length (omap f l) ≤ length l)%nat.
Proof.
  induction l as [|a l IH]; [done|]. change (omap f (a :: l)) with (match f a with Some b => b :: omap f l | None => omap f l end).
  destruct (f a); cbn [length]; lia.
Qed.

Section agent.
  Context (x : CoordinatorExecution) (i : AddReplicaIntent) (parent_action_id parent_signature : string).

Lemma add_sequence_small h : Z.of_nat (length h) ≤ u64_max → 0 ≤ add_sequence h ≤ Z.of_nat (length h).
Proof.
  intros H. unfold add_sequence. pose proof (length_omap_le add_progress_of h). unfold u64_max in *. rewrite Z.mod_small; lia.
Qed.

Lemma receive_add_progress n p0 p a :
  0 ≤ n < u64_max → runs_addition x n p0 a →
  runs_addition x (u64_wrapping_add n 1) (Some p)
    (handle_coordinator_event (mkCoordinatorEvent (execution_at x (u64_wrapping_add n 1)) (AddProgress p)) a).1.
Proof.
  intros Hq (c & Ha & Hid & Hp). unfold handle_coordinator_event. rewrite Ha, Hid. unfold is_current. simpl.
  destruct (next_sequence _ Hq) as [-> ->]. rewrite !bool_decide_eq_true_2, Z.eqb_refl by done. simpl.
  eexists. split; [done|]. by split_and!.
Qed.

Lemma receive_add_terminal n p res a :
  runs_addition x n p a →
  addition_concluded res (handle_coordinator_event (mkCoordinatorEvent (execution_at x n) (AddTerminal res)) a).1.
Proof.
  intros (c & Ha & Hid & Hp). unfold handle_coordinator_event. rewrite Ha, Hid. unfold is_current. simpl.
  rewrite !bool_decide_eq_true_2, Z.eqb_refl by done. simpl.
  destruct res as [r|e]; simpl; (split; [done|]; do 2 eexists; split; [done|by split]).
Qed.

Lemma agent_runs h p a :
  follows x i parent_action_id parent_signature h → Z.of_nat (length h) ≤ u64_max → omap add_terminal_of h = [] →
  runs_addition x 0 p a → runs_addition x (add_sequence h) (shown_progress p h) (receive (add_sent h) a).
Proof.
  induction h as [|ev h IH] using rev_ind; intros Hf Hl Ht Ha; [done|].
  rewrite length_app in Hl. simpl in Hl. rewrite omap_app in Ht. apply app_eq_nil in Ht as [Ht Hte].
  assert (runs_addition x (add_sequence h) (shown_progress p h) (receive (add_sent h) a)) as Hr.
  { apply IH; [|lia|done|done]. intros h1 ev' h2 ->. apply (Hf h1 ev' (h2 ++ [ev])). by rewrite <-app_assoc. }
  unfold add_sent, receive, shown_progress. rewrite add_sequence_snoc, !omap_app, foldl_app.
  fold (add_sent h) (receive (add_sent h) a). destruct (Hf h ev [] eq_refl) as [Hal _].
  destruct ev as [[| | | | | | | |[id u]] r]; try (simpl; rewrite app_nil_r; exact Hr).
  destruct u as [q|res|q|res]; try done. simpl in Hal. destruct Hal as (Hid & _). simpl in Hid. subst id. simpl.
  rewrite last_snoc. eapply receive_add_progress; [|done]. pose proof (add_sequence_small h). lia.
Qed.
End agent.

(** The agent accepts everything its addition coordinator tells it: while
    the coordinator runs, the agent shows the progress last published; at the
    end it keeps the action as completed with the coordinator's result, or as
    failed with its error. *)
Theorem agent_accepts_addition fuel x i parent_action_id parent_signature oracle p a :
  runs_addition x 0 p a →
  let '(h, r) := exec oracle (run_add_replica_coordinator fuel x i parent_action_id parent_signature 0) [] in
  Z.of_nat (length h) ≤ u64_max →
  match r.2 with
  | Done ev => ∃ res, cv_update ev = AddTerminal res ∧ addition_concluded res (receive (add_sent h) a)
  | Fails _ => False
  | Looping => runs_addition x (add_sequence h) (shown_progress p h) (receive (add_sent h) a)
  end.
Proof.
  intros Ha. pose proof (wp_exec _ _ oracle _ (add_coordinator_wp x i parent_action_id parent_signature fuel)) as H.
  destruct (exec _ _ _) as [h r]. destruct H as [Hf Hr]. simpl in *. intros Hl.
  destruct (r.2) as [ev|e|]; [|done|by eapply agent_runs].
  destruct Hr as (h0 & open & res & -> & Hu & Hp). exists res. split; [done|].
  rewrite length_app in Hl. simpl in Hl. destruct (Hf h0 _ [] eq_refl) as [_ Ho].
  assert (runs_addition x (add_sequence h0) (shown_progress p h0) (receive (add_sent h0) a)) as Hr.
  { eapply agent_runs; [|unfold event; lia|done|done]. intros h1 ev' h2 ->. eapply (Hf h1 ev' (h2 ++ _)). by rewrite <-app_assoc. }
  unfold add_sent, receive. rewrite omap_app, foldl_app. fold (add_sent h0) (receive (add_sent h0) a).
  destruct ev as [id u]. simpl in Hu. subst u. destruct Hp as [Hid _]. simpl in Hid. subst id. by eapply receive_add_terminal.
Qed.

(** An addition that goes well, by a clock that stands still: the runtime does
    as it is told, the target too. *)
Module DemoAddition.
Definition execution : CoordinatorExecution := mkCoordinatorExecution "g1" "act" "try".
Definition effects (h : add_history) : list RuntimeEffect :=
  omap (λ ev, match ev with existT (ExecuteRuntime e) _ => Some e | _ => None end) h.
Definition did (f : RuntimeEffect → bool) (h : add_history) : bool := existsb f (effects h).
Definition stages (h : add_history) : list PeerStage :=
  omap (λ ev, match ev with existT (PeerExecuteStage _ r) _ => Some (pr_stage r) | _ => None end) h.
Definition runtime (h : add_history) : RuntimeControlSnapshot :=
  let i := DemoAdd.intent in
  let configuration :=
    if did (λ e, match e with EffUpdateCurrentConfiguration _ => true | _ => false end) h then add_target_status i
    else if did (λ e, match e with EffUpdateTrackedCatchUpConfiguration _ _ _ => true | _ => false end) h then add_catch_up_status i
    else add_previous_status i in
  let built := did (λ e, match e with EffStartTrackedBuild _ _ _ _ => true | _ => false end) h in
  let build := if built then Some (mkRuntimeBuildObservation (build_execution_id i) (semantic_build_key i) 3 "i3" "g3"
                                     BuildCompleted (Some 5) None) else None in
  let wait :=
    if did (λ e, match e with EffStartTrackedCatchUpQuorum _ _ => true | _ => false end) h
    then Some (mkRuntimeQuorumWaitObservation (add_wait_id i) BuildCompleted None) else None in
  let connections : gmap ReplicaId ReplicaInstanceId := if built then {[3 := "i3"]} else ∅ in
  mkRuntimeControlSnapshot "i1" Primary (mkEpoch 1 2) (Some configuration) None None build wait
    (Some (PState.mkPartitionState (access_as_u8 Granted) (access_as_u8 Granted) 5 5 true 5 ∅ connections)).
Definition peer (h : add_history) : PeerLifecycleStatus :=
  let role := if bool_decide (Activate ∈ stages h) then ActiveSecondary
              else if bool_decide (Prepare ∈ stages h) then IdleSecondary else Unknown in
  mkPeerLifecycleStatus 2 3 "i3" "g3" 0 role (mkEpoch 1 2) true 5 None [].
Definition oracle (now : Z) (h : add_history) (q : add_call) : add_answer q :=
  match q return add_answer q with
  | ReadClock => now
  | LookAtRuntime => runtime h
  | ExecuteRuntime _ => Ok EffUnit
  | ConnectPeer _ _ _ _ => Ok tt
  | PeerGetStatus _ => Ok (peer h)
  | PeerExecuteStage _ r =>
      Ok (mkPeerStageObservation 2 AddBuild 1 (pr_message_id r) (pr_input_signature r) (pr_stage r) StageCompleted "g3" 1 None)
  | PauseOrChange | Pause | PublishEvent _ => tt
  end.
Definition run (now : Z) := exec (oracle now) (run_add_replica_coordinator 10 execution DemoAdd.intent "act" "sig" 0) [].
Definition request : CorrelatedControlActionRequest :=
  mkCorrelatedControlActionRequest 3 "act" (add_signature DemoAdd.intent) 1 "i1" "g1" 0 (mkEpoch 1 2)
    (ActAddReplicaIntent DemoAdd.intent).
Definition started : ReplicaAgent :=
  let env := mkTurnEnv 90 (runtime []) (runtime []) (runtime []) in
  match run_agent (Ends := DemoRemove.ends) [(env, EvCommand (Some (ExecuteCorrelatedControlAction request 5)))] DemoAgent.start with
  | Some (a, _) => a
  | None => DemoAgent.start
  end.
End DemoAddition.

(** The addition commits; one that starts after its deadline is compensated,
    and never asks the target to clean up. *)
Example demo_addition :
  (omap add_terminal_of (DemoAddition.run 90).1 = [Ok AddCommitted] ∧
   DemoAddition.stages (DemoAddition.run 90).1 = [Prepare; Activate]) ∧
  (omap add_terminal_of (DemoAddition.run 110).1 = [Ok AddCompensated] ∧
   DemoAddition.effects (DemoAddition.run 110).1 = [EffRemoveReplica 3 "i3"] ∧
   DemoAddition.stages (DemoAddition.run 110).1 = []).
Proof. vm_compute. auto. Qed.

Lemma no_target_call_after_deadline_witness :
  ∃ h2, (DemoAddition.run 110).1 = [] ++ existT ReadClock 110 :: h2 ∧ omap add_terminal_of h2 = [Ok AddCompensated] ∧
    ∀ ev, ev ∈ h2 → calls_target ev = false.
Proof.
  exists (tail (DemoAddition.run 110).1). assert ((DemoAddition.run 110).1 = [] ++ existT ReadClock 110 :: tail (DemoAddition.run 110).1) as H
    by (vm_compute; reflexivity).
  split; [exact H|]. split; [vm_compute; reflexivity|].
  apply (no_target_call_after_deadline 10 DemoAddition.execution DemoAdd.intent "act" "sig" (DemoAddition.oracle 110) [] 110 _ H).
  - vm_compute. discriminate.
  - match goal with |- Sorted _ ?l => let v := eval vm_compute in l in change (Sorted Z.le v) end.
    repeat constructor; lia.
Defined.

Lemma agent_accepts_addition_witness :
  active DemoAddition.started ≠ None ∧
  ∃ res, addition_concluded res (receive (add_sent (DemoAddition.run 90).1) DemoAddition.started).
Proof.
  assert (runs_addition DemoAddition.execution 0 (Some (mkAddReplicaProgress AddValidating false None)) DemoAddition.started) as Ha.
  { eexists. split; [vm_compute; reflexivity|]. split; vm_compute; reflexivity. }
  split; [destruct Ha as (c & -> & _); discriminate|].
  pose proof (agent_accepts_addition 10 DemoAddition.execution DemoAdd.intent "act" "sig" (DemoAddition.oracle 90) _ _ Ha) as Hp.
  fold (DemoAddition.run 90) in Hp.
  assert (Z.of_nat (length (DemoAddition.run 90).1) ≤ u64_max) as Hl by (vm_compute; discriminate).
  assert (match (DemoAddition.run 90).2.2 with Done _ => True | _ => False end) as Hd by (vm_compute; exact I).
  destruct (DemoAddition.run 90) as [h [n o]]. simpl in *. destruct o; [|destruct Hd|destruct Hd].
  destruct (Hp Hl) as (res & _ & Hc). exists res. exact Hc.
Defined.
