(* ===== verification/Proto.v ===== *)
(** The messages of the control plane (kuberic-core/proto/kuberic.proto): enums
    with their numbers, messages with their fields. A message holds an enum as
    its number, and another message as an option. *)

From S2P Require Import Prelude.

Set Default Goal Selector "!".

(** An enum: its values, and the number each has on the wire. *)
Class ProtoEnum (E : Type) := {
  enum_values : list E;
  as_i32 : E → Z;
}.

#[global] Arguments as_i32 {E _} v : simpl never.

(** Only the numbers of the enum are known. *)
Definition try_i32 {E} `{ProtoEnum E} (n : Z) : option E := List.find (λ v, as_i32 v =? n) enum_values.

Class ProtoEnumLaws (E : Type) `{ProtoEnum E} : Prop := try_i32_as_i32 : ∀ v : E, try_i32 (as_i32 v) = Some v.

Lemma try_i32_Some {E} `{ProtoEnum E} n (v : E) : try_i32 n = Some v → as_i32 v = n.
Proof. intros [_ Hv]%List.find_some. by apply Z.eqb_eq in Hv. Qed.

(** ** Enums *)

Inductive RoleProto :=
| ROLE_UNKNOWN | ROLE_PRIMARY | ROLE_ACTIVE_SECONDARY | ROLE_IDLE_SECONDARY | ROLE_NONE.
#[export] Instance RoleProto_numbers : ProtoEnum RoleProto := {|
  enum_values := [ROLE_UNKNOWN; ROLE_PRIMARY; ROLE_ACTIVE_SECONDARY; ROLE_IDLE_SECONDARY; ROLE_NONE];
  as_i32 v := match v with ROLE_UNKNOWN => 0 | ROLE_PRIMARY => 1 | ROLE_ACTIVE_SECONDARY => 2 | ROLE_IDLE_SECONDARY
      => 3 | ROLE_NONE => 4 end |}.
#[export] Instance RoleProto_lawful : ProtoEnumLaws RoleProto.
Proof. intros v. by destruct v. Qed.

Inductive ReplicaStatusProto :=
| STATUS_UP | STATUS_DOWN.
#[export] Instance ReplicaStatusProto_numbers : ProtoEnum ReplicaStatusProto := {|
  enum_values := [STATUS_UP; STATUS_DOWN];
  as_i32 v := match v with STATUS_UP => 0 | STATUS_DOWN => 1 end |}.
#[export] Instance ReplicaStatusProto_lawful : ProtoEnumLaws ReplicaStatusProto.
Proof. intros v. by destruct v. Qed.

Inductive QuorumModeProto :=
| QUORUM_ALL | QUORUM_WRITE.
#[export] Instance QuorumModeProto_numbers : ProtoEnum QuorumModeProto := {|
  enum_values := [QUORUM_ALL; QUORUM_WRITE];
  as_i32 v := match v with QUORUM_ALL => 0 | QUORUM_WRITE => 1 end |}.
#[export] Instance QuorumModeProto_lawful : ProtoEnumLaws QuorumModeProto.
Proof. intros v. by destruct v. Qed.

Inductive OpenModeProto :=
| OPEN_NEW | OPEN_EXISTING.
#[export] Instance OpenModeProto_numbers : ProtoEnum OpenModeProto := {|
  enum_values := [OPEN_NEW; OPEN_EXISTING];
  as_i32 v := match v with OPEN_NEW => 0 | OPEN_EXISTING => 1 end |}.
#[export] Instance OpenModeProto_lawful : ProtoEnumLaws OpenModeProto.
Proof. intros v. by destruct v. Qed.

Inductive AccessStatusProto :=
| ACCESS_GRANTED | ACCESS_RECONFIGURATION_PENDING | ACCESS_NOT_PRIMARY | ACCESS_NO_WRITE_QUORUM.
#[export] Instance AccessStatusProto_numbers : ProtoEnum AccessStatusProto := {|
  enum_values := [ACCESS_GRANTED; ACCESS_RECONFIGURATION_PENDING; ACCESS_NOT_PRIMARY; ACCESS_NO_WRITE_QUORUM];
  as_i32 v := match v with ACCESS_GRANTED => 0 | ACCESS_RECONFIGURATION_PENDING => 1 | ACCESS_NOT_PRIMARY => 2 |
      ACCESS_NO_WRITE_QUORUM => 3 end |}.
#[export] Instance AccessStatusProto_lawful : ProtoEnumLaws AccessStatusProto.
Proof. intros v. by destruct v. Qed.

Inductive ReplicaConfigurationModeProto :=
| CONFIGURATION_NONE | CONFIGURATION_CATCH_UP | CONFIGURATION_CURRENT.
#[export] Instance ReplicaConfigurationModeProto_numbers : ProtoEnum ReplicaConfigurationModeProto := {|
  enum_values := [CONFIGURATION_NONE; CONFIGURATION_CATCH_UP; CONFIGURATION_CURRENT];
  as_i32 v := match v with CONFIGURATION_NONE => 0 | CONFIGURATION_CATCH_UP => 1 | CONFIGURATION_CURRENT => 2 end
      |}.
#[export] Instance ReplicaConfigurationModeProto_lawful : ProtoEnumLaws ReplicaConfigurationModeProto.
Proof. intros v. by destruct v. Qed.

Inductive DurableActionStateProto :=
| DURABLE_ACTION_NONE | DURABLE_ACTION_SCHEDULED | DURABLE_ACTION_IN_PROGRESS | DURABLE_ACTION_COMPLETED |
    DURABLE_ACTION_FAILED.
#[export] Instance DurableActionStateProto_numbers : ProtoEnum DurableActionStateProto := {|
  enum_values := [DURABLE_ACTION_NONE; DURABLE_ACTION_SCHEDULED; DURABLE_ACTION_IN_PROGRESS;
      DURABLE_ACTION_COMPLETED; DURABLE_ACTION_FAILED];
  as_i32 v := match v with DURABLE_ACTION_NONE => 0 | DURABLE_ACTION_SCHEDULED => 1 | DURABLE_ACTION_IN_PROGRESS =>
      2 | DURABLE_ACTION_COMPLETED => 3 | DURABLE_ACTION_FAILED => 4 end |}.
#[export] Instance DurableActionStateProto_lawful : ProtoEnumLaws DurableActionStateProto.
Proof. intros v. by destruct v. Qed.

Inductive DurableActionResultProto :=
| DURABLE_ACTION_RESULT_NONE | DURABLE_ACTION_RESULT_DATA_LOSS_NO_STATE_CHANGE |
    DURABLE_ACTION_RESULT_DATA_LOSS_STATE_CHANGED | DURABLE_ACTION_RESULT_ADD_REPLICA_COMMITTED |
    DURABLE_ACTION_RESULT_ADD_REPLICA_COMPENSATED | DURABLE_ACTION_RESULT_ADD_REPLICA_COMPENSATION_INCOMPLETE |
    DURABLE_ACTION_RESULT_REMOVE_REPLICA_COMMITTED_CLEAN | DURABLE_ACTION_RESULT_REMOVE_REPLICA_COMMITTED_DEGRADED |
    DURABLE_ACTION_RESULT_REMOVE_REPLICA_COMPENSATED | DURABLE_ACTION_RESULT_REMOVE_REPLICA_COMPENSATION_INCOMPLETE.
#[export] Instance DurableActionResultProto_numbers : ProtoEnum DurableActionResultProto := {|
  enum_values := [DURABLE_ACTION_RESULT_NONE; DURABLE_ACTION_RESULT_DATA_LOSS_NO_STATE_CHANGE;
      DURABLE_ACTION_RESULT_DATA_LOSS_STATE_CHANGED; DURABLE_ACTION_RESULT_ADD_REPLICA_COMMITTED;
      DURABLE_ACTION_RESULT_ADD_REPLICA_COMPENSATED; DURABLE_ACTION_RESULT_ADD_REPLICA_COMPENSATION_INCOMPLETE;
      DURABLE_ACTION_RESULT_REMOVE_REPLICA_COMMITTED_CLEAN; DURABLE_ACTION_RESULT_REMOVE_REPLICA_COMMITTED_DEGRADED;
      DURABLE_ACTION_RESULT_REMOVE_REPLICA_COMPENSATED;
      DURABLE_ACTION_RESULT_REMOVE_REPLICA_COMPENSATION_INCOMPLETE];
  as_i32 v := match v with DURABLE_ACTION_RESULT_NONE => 0 | DURABLE_ACTION_RESULT_DATA_LOSS_NO_STATE_CHANGE => 1 |
      DURABLE_ACTION_RESULT_DATA_LOSS_STATE_CHANGED => 2 | DURABLE_ACTION_RESULT_ADD_REPLICA_COMMITTED => 3 |
      DURABLE_ACTION_RESULT_ADD_REPLICA_COMPENSATED => 4 | DURABLE_ACTION_RESULT_ADD_REPLICA_COMPENSATION_INCOMPLETE
      => 6 | DURABLE_ACTION_RESULT_REMOVE_REPLICA_COMMITTED_CLEAN => 8 |
      DURABLE_ACTION_RESULT_REMOVE_REPLICA_COMMITTED_DEGRADED => 9 |
      DURABLE_ACTION_RESULT_REMOVE_REPLICA_COMPENSATED => 10 |
      DURABLE_ACTION_RESULT_REMOVE_REPLICA_COMPENSATION_INCOMPLETE => 11 end |}.
#[export] Instance DurableActionResultProto_lawful : ProtoEnumLaws DurableActionResultProto.
Proof. intros v. by destruct v. Qed.

Inductive DurableActionErrorClassProto :=
| DURABLE_ACTION_ERROR_NONE | DURABLE_ACTION_ERROR_INTERNAL | DURABLE_ACTION_ERROR_NOT_PRIMARY |
    DURABLE_ACTION_ERROR_NO_WRITE_QUORUM | DURABLE_ACTION_ERROR_RECONFIGURATION_PENDING |
    DURABLE_ACTION_ERROR_STALE_EPOCH | DURABLE_ACTION_ERROR_CANCELLED | DURABLE_ACTION_ERROR_CLOSED.
#[export] Instance DurableActionErrorClassProto_numbers : ProtoEnum DurableActionErrorClassProto := {|
  enum_values := [DURABLE_ACTION_ERROR_NONE; DURABLE_ACTION_ERROR_INTERNAL; DURABLE_ACTION_ERROR_NOT_PRIMARY;
      DURABLE_ACTION_ERROR_NO_WRITE_QUORUM; DURABLE_ACTION_ERROR_RECONFIGURATION_PENDING;
      DURABLE_ACTION_ERROR_STALE_EPOCH; DURABLE_ACTION_ERROR_CANCELLED; DURABLE_ACTION_ERROR_CLOSED];
  as_i32 v := match v with DURABLE_ACTION_ERROR_NONE => 0 | DURABLE_ACTION_ERROR_INTERNAL => 1 |
      DURABLE_ACTION_ERROR_NOT_PRIMARY => 2 | DURABLE_ACTION_ERROR_NO_WRITE_QUORUM => 3 |
      DURABLE_ACTION_ERROR_RECONFIGURATION_PENDING => 4 | DURABLE_ACTION_ERROR_STALE_EPOCH => 5 |
      DURABLE_ACTION_ERROR_CANCELLED => 6 | DURABLE_ACTION_ERROR_CLOSED => 7 end |}.
#[export] Instance DurableActionErrorClassProto_lawful : ProtoEnumLaws DurableActionErrorClassProto.
Proof. intros v. by destruct v. Qed.

Inductive LocalFaultTypeProto :=
| LOCAL_FAULT_UNKNOWN | LOCAL_FAULT_TRANSIENT | LOCAL_FAULT_PERMANENT.
#[export] Instance LocalFaultTypeProto_numbers : ProtoEnum LocalFaultTypeProto := {|
  enum_values := [LOCAL_FAULT_UNKNOWN; LOCAL_FAULT_TRANSIENT; LOCAL_FAULT_PERMANENT];
  as_i32 v := match v with LOCAL_FAULT_UNKNOWN => 0 | LOCAL_FAULT_TRANSIENT => 1 | LOCAL_FAULT_PERMANENT => 2 end
      |}.
#[export] Instance LocalFaultTypeProto_lawful : ProtoEnumLaws LocalFaultTypeProto.
Proof. intros v. by destruct v. Qed.

Inductive AddReplicaModeProto :=
| ADD_REPLICA_MODE_UNKNOWN | ADD_REPLICA_MODE_SCALE_UP | ADD_REPLICA_MODE_REBUILD.
#[export] Instance AddReplicaModeProto_numbers : ProtoEnum AddReplicaModeProto := {|
  enum_values := [ADD_REPLICA_MODE_UNKNOWN; ADD_REPLICA_MODE_SCALE_UP; ADD_REPLICA_MODE_REBUILD];
  as_i32 v := match v with ADD_REPLICA_MODE_UNKNOWN => 0 | ADD_REPLICA_MODE_SCALE_UP => 1 | ADD_REPLICA_MODE_REBUILD
      => 2 end |}.
#[export] Instance AddReplicaModeProto_lawful : ProtoEnumLaws AddReplicaModeProto.
Proof. intros v. by destruct v. Qed.

Inductive ConfigurationProgressSourceProto :=
| CONFIGURATION_PROGRESS_UNKNOWN | CONFIGURATION_PROGRESS_FROZEN | CONFIGURATION_PROGRESS_BUILD_COPY_LSN.
#[export] Instance ConfigurationProgressSourceProto_numbers : ProtoEnum ConfigurationProgressSourceProto := {|
  enum_values := [CONFIGURATION_PROGRESS_UNKNOWN; CONFIGURATION_PROGRESS_FROZEN;
      CONFIGURATION_PROGRESS_BUILD_COPY_LSN];
  as_i32 v := match v with CONFIGURATION_PROGRESS_UNKNOWN => 0 | CONFIGURATION_PROGRESS_FROZEN => 1 |
      CONFIGURATION_PROGRESS_BUILD_COPY_LSN => 2 end |}.
#[export] Instance ConfigurationProgressSourceProto_lawful : ProtoEnumLaws ConfigurationProgressSourceProto.
Proof. intros v. by destruct v. Qed.

Inductive AddReplicaCoordinatorPhaseProto :=
| ADD_REPLICA_PHASE_UNKNOWN | ADD_REPLICA_PHASE_VALIDATING | ADD_REPLICA_PHASE_RETIRING_OLD_CONNECTION |
    ADD_REPLICA_PHASE_PREPARING_TARGET | ADD_REPLICA_PHASE_BUILDING | ADD_REPLICA_PHASE_ACTIVATING_TARGET |
    ADD_REPLICA_PHASE_INSTALLING_CATCH_UP_CONFIGURATION | ADD_REPLICA_PHASE_WAITING_FOR_CATCH_UP_QUORUM |
    ADD_REPLICA_PHASE_INSTALLING_CURRENT_CONFIGURATION | ADD_REPLICA_PHASE_ATTESTING |
    ADD_REPLICA_PHASE_COMPENSATING.
#[export] Instance AddReplicaCoordinatorPhaseProto_numbers : ProtoEnum AddReplicaCoordinatorPhaseProto := {|
  enum_values := [ADD_REPLICA_PHASE_UNKNOWN; ADD_REPLICA_PHASE_VALIDATING;
      ADD_REPLICA_PHASE_RETIRING_OLD_CONNECTION; ADD_REPLICA_PHASE_PREPARING_TARGET; ADD_REPLICA_PHASE_BUILDING;
      ADD_REPLICA_PHASE_ACTIVATING_TARGET; ADD_REPLICA_PHASE_INSTALLING_CATCH_UP_CONFIGURATION;
      ADD_REPLICA_PHASE_WAITING_FOR_CATCH_UP_QUORUM; ADD_REPLICA_PHASE_INSTALLING_CURRENT_CONFIGURATION;
      ADD_REPLICA_PHASE_ATTESTING; ADD_REPLICA_PHASE_COMPENSATING];
  as_i32 v := match v with ADD_REPLICA_PHASE_UNKNOWN => 0 | ADD_REPLICA_PHASE_VALIDATING => 1 |
      ADD_REPLICA_PHASE_RETIRING_OLD_CONNECTION => 2 | ADD_REPLICA_PHASE_PREPARING_TARGET => 3 |
      ADD_REPLICA_PHASE_BUILDING => 4 | ADD_REPLICA_PHASE_ACTIVATING_TARGET => 5 |
      ADD_REPLICA_PHASE_INSTALLING_CATCH_UP_CONFIGURATION => 6 | ADD_REPLICA_PHASE_WAITING_FOR_CATCH_UP_QUORUM => 7
      | ADD_REPLICA_PHASE_INSTALLING_CURRENT_CONFIGURATION => 8 | ADD_REPLICA_PHASE_ATTESTING => 9 |
      ADD_REPLICA_PHASE_COMPENSATING => 10 end |}.
#[export] Instance AddReplicaCoordinatorPhaseProto_lawful : ProtoEnumLaws AddReplicaCoordinatorPhaseProto.
Proof. intros v. by destruct v. Qed.

Inductive RemoveReplicaModeProto :=
| REMOVE_REPLICA_MODE_UNKNOWN | REMOVE_REPLICA_MODE_SCALE_DOWN | REMOVE_REPLICA_MODE_FORCE.
#[export] Instance RemoveReplicaModeProto_numbers : ProtoEnum RemoveReplicaModeProto := {|
  enum_values := [REMOVE_REPLICA_MODE_UNKNOWN; REMOVE_REPLICA_MODE_SCALE_DOWN; REMOVE_REPLICA_MODE_FORCE];
  as_i32 v := match v with REMOVE_REPLICA_MODE_UNKNOWN => 0 | REMOVE_REPLICA_MODE_SCALE_DOWN => 1 |
      REMOVE_REPLICA_MODE_FORCE => 2 end |}.
#[export] Instance RemoveReplicaModeProto_lawful : ProtoEnumLaws RemoveReplicaModeProto.
Proof. intros v. by destruct v. Qed.

Inductive RemoveReplicaCoordinatorPhaseProto :=
| REMOVE_REPLICA_PHASE_UNKNOWN | REMOVE_REPLICA_PHASE_VALIDATING |
    REMOVE_REPLICA_PHASE_INSTALLING_CATCH_UP_CONFIGURATION | REMOVE_REPLICA_PHASE_WAITING_FOR_CATCH_UP_QUORUM |
    REMOVE_REPLICA_PHASE_INSTALLING_CURRENT_CONFIGURATION | REMOVE_REPLICA_PHASE_REMOVING_CONNECTION |
    REMOVE_REPLICA_PHASE_RETIRING_TARGET | REMOVE_REPLICA_PHASE_ATTESTING | REMOVE_REPLICA_PHASE_COMPENSATING.
#[export] Instance RemoveReplicaCoordinatorPhaseProto_numbers : ProtoEnum RemoveReplicaCoordinatorPhaseProto := {|
  enum_values := [REMOVE_REPLICA_PHASE_UNKNOWN; REMOVE_REPLICA_PHASE_VALIDATING;
      REMOVE_REPLICA_PHASE_INSTALLING_CATCH_UP_CONFIGURATION; REMOVE_REPLICA_PHASE_WAITING_FOR_CATCH_UP_QUORUM;
      REMOVE_REPLICA_PHASE_INSTALLING_CURRENT_CONFIGURATION; REMOVE_REPLICA_PHASE_REMOVING_CONNECTION;
      REMOVE_REPLICA_PHASE_RETIRING_TARGET; REMOVE_REPLICA_PHASE_ATTESTING; REMOVE_REPLICA_PHASE_COMPENSATING];
  as_i32 v := match v with REMOVE_REPLICA_PHASE_UNKNOWN => 0 | REMOVE_REPLICA_PHASE_VALIDATING => 1 |
      REMOVE_REPLICA_PHASE_INSTALLING_CATCH_UP_CONFIGURATION => 2 | REMOVE_REPLICA_PHASE_WAITING_FOR_CATCH_UP_QUORUM
      => 3 | REMOVE_REPLICA_PHASE_INSTALLING_CURRENT_CONFIGURATION => 4 | REMOVE_REPLICA_PHASE_REMOVING_CONNECTION
      => 5 | REMOVE_REPLICA_PHASE_RETIRING_TARGET => 6 | REMOVE_REPLICA_PHASE_ATTESTING => 7 |
      REMOVE_REPLICA_PHASE_COMPENSATING => 8 end |}.
#[export] Instance RemoveReplicaCoordinatorPhaseProto_lawful : ProtoEnumLaws RemoveReplicaCoordinatorPhaseProto.
Proof. intros v. by destruct v. Qed.

Inductive TargetRetirementObservationProto :=
| TARGET_RETIREMENT_OBSERVATION_UNKNOWN | TARGET_RETIREMENT_OBSERVATION_NOT_ATTEMPTED |
    TARGET_RETIREMENT_OBSERVATION_IN_PROGRESS | TARGET_RETIREMENT_OBSERVATION_COMPLETED |
    TARGET_RETIREMENT_OBSERVATION_UNAVAILABLE | TARGET_RETIREMENT_OBSERVATION_STALE |
    TARGET_RETIREMENT_OBSERVATION_FAILED.
#[export] Instance TargetRetirementObservationProto_numbers : ProtoEnum TargetRetirementObservationProto := {|
  enum_values := [TARGET_RETIREMENT_OBSERVATION_UNKNOWN; TARGET_RETIREMENT_OBSERVATION_NOT_ATTEMPTED;
      TARGET_RETIREMENT_OBSERVATION_IN_PROGRESS; TARGET_RETIREMENT_OBSERVATION_COMPLETED;
      TARGET_RETIREMENT_OBSERVATION_UNAVAILABLE; TARGET_RETIREMENT_OBSERVATION_STALE;
      TARGET_RETIREMENT_OBSERVATION_FAILED];
  as_i32 v := match v with TARGET_RETIREMENT_OBSERVATION_UNKNOWN => 0 | TARGET_RETIREMENT_OBSERVATION_NOT_ATTEMPTED
      => 1 | TARGET_RETIREMENT_OBSERVATION_IN_PROGRESS => 2 | TARGET_RETIREMENT_OBSERVATION_COMPLETED => 3 |
      TARGET_RETIREMENT_OBSERVATION_UNAVAILABLE => 4 | TARGET_RETIREMENT_OBSERVATION_STALE => 5 |
      TARGET_RETIREMENT_OBSERVATION_FAILED => 6 end |}.
#[export] Instance TargetRetirementObservationProto_lawful : ProtoEnumLaws TargetRetirementObservationProto.
Proof. intros v. by destruct v. Qed.

Inductive RemoveReplicaTerminalResultProto :=
| REMOVE_REPLICA_TERMINAL_RESULT_UNKNOWN | REMOVE_REPLICA_TERMINAL_RESULT_COMMITTED_CLEAN |
    REMOVE_REPLICA_TERMINAL_RESULT_COMMITTED_DEGRADED | REMOVE_REPLICA_TERMINAL_RESULT_COMPENSATED |
    REMOVE_REPLICA_TERMINAL_RESULT_COMPENSATION_INCOMPLETE.
#[export] Instance RemoveReplicaTerminalResultProto_numbers : ProtoEnum RemoveReplicaTerminalResultProto := {|
  enum_values := [REMOVE_REPLICA_TERMINAL_RESULT_UNKNOWN; REMOVE_REPLICA_TERMINAL_RESULT_COMMITTED_CLEAN;
      REMOVE_REPLICA_TERMINAL_RESULT_COMMITTED_DEGRADED; REMOVE_REPLICA_TERMINAL_RESULT_COMPENSATED;
      REMOVE_REPLICA_TERMINAL_RESULT_COMPENSATION_INCOMPLETE];
  as_i32 v := match v with REMOVE_REPLICA_TERMINAL_RESULT_UNKNOWN => 0 |
      REMOVE_REPLICA_TERMINAL_RESULT_COMMITTED_CLEAN => 1 | REMOVE_REPLICA_TERMINAL_RESULT_COMMITTED_DEGRADED => 2 |
      REMOVE_REPLICA_TERMINAL_RESULT_COMPENSATED => 3 | REMOVE_REPLICA_TERMINAL_RESULT_COMPENSATION_INCOMPLETE => 4
      end |}.
#[export] Instance RemoveReplicaTerminalResultProto_lawful : ProtoEnumLaws RemoveReplicaTerminalResultProto.
Proof. intros v. by destruct v. Qed.

Inductive RuntimeBuildStateProto :=
| RUNTIME_BUILD_STATE_UNKNOWN | RUNTIME_BUILD_STATE_IN_PROGRESS | RUNTIME_BUILD_STATE_COMPLETED |
    RUNTIME_BUILD_STATE_FAILED | RUNTIME_BUILD_STATE_CANCELLED.
#[export] Instance RuntimeBuildStateProto_numbers : ProtoEnum RuntimeBuildStateProto := {|
  enum_values := [RUNTIME_BUILD_STATE_UNKNOWN; RUNTIME_BUILD_STATE_IN_PROGRESS; RUNTIME_BUILD_STATE_COMPLETED;
      RUNTIME_BUILD_STATE_FAILED; RUNTIME_BUILD_STATE_CANCELLED];
  as_i32 v := match v with RUNTIME_BUILD_STATE_UNKNOWN => 0 | RUNTIME_BUILD_STATE_IN_PROGRESS => 1 |
      RUNTIME_BUILD_STATE_COMPLETED => 2 | RUNTIME_BUILD_STATE_FAILED => 3 | RUNTIME_BUILD_STATE_CANCELLED => 4 end
      |}.
#[export] Instance RuntimeBuildStateProto_lawful : ProtoEnumLaws RuntimeBuildStateProto.
Proof. intros v. by destruct v. Qed.

Inductive PeerStageProto :=
| PEER_STAGE_UNKNOWN | PEER_STAGE_PREPARE | PEER_STAGE_ACTIVATE | PEER_STAGE_CLEANUP | PEER_STAGE_RETIRE.
#[export] Instance PeerStageProto_numbers : ProtoEnum PeerStageProto := {|
  enum_values := [PEER_STAGE_UNKNOWN; PEER_STAGE_PREPARE; PEER_STAGE_ACTIVATE; PEER_STAGE_CLEANUP;
      PEER_STAGE_RETIRE];
  as_i32 v := match v with PEER_STAGE_UNKNOWN => 0 | PEER_STAGE_PREPARE => 1 | PEER_STAGE_ACTIVATE => 2 |
      PEER_STAGE_CLEANUP => 3 | PEER_STAGE_RETIRE => 4 end |}.
#[export] Instance PeerStageProto_lawful : ProtoEnumLaws PeerStageProto.
Proof. intros v. by destruct v. Qed.

Inductive PeerOperationKindProto :=
| PEER_OPERATION_KIND_UNKNOWN | PEER_OPERATION_KIND_ADD_BUILD | PEER_OPERATION_KIND_REMOVE.
#[export] Instance PeerOperationKindProto_numbers : ProtoEnum PeerOperationKindProto := {|
  enum_values := [PEER_OPERATION_KIND_UNKNOWN; PEER_OPERATION_KIND_ADD_BUILD; PEER_OPERATION_KIND_REMOVE];
  as_i32 v := match v with PEER_OPERATION_KIND_UNKNOWN => 0 | PEER_OPERATION_KIND_ADD_BUILD => 1 |
      PEER_OPERATION_KIND_REMOVE => 2 end |}.
#[export] Instance PeerOperationKindProto_lawful : ProtoEnumLaws PeerOperationKindProto.
Proof. intros v. by destruct v. Qed.

Inductive PeerStageStateProto :=
| PEER_STAGE_STATE_UNKNOWN | PEER_STAGE_STATE_ACCEPTED | PEER_STAGE_STATE_IN_PROGRESS | PEER_STAGE_STATE_COMPLETED |
    PEER_STAGE_STATE_FAILED | PEER_STAGE_STATE_STALE | PEER_STAGE_STATE_REJECTED | PEER_STAGE_STATE_CONFLICT.
#[export] Instance PeerStageStateProto_numbers : ProtoEnum PeerStageStateProto := {|
  enum_values := [PEER_STAGE_STATE_UNKNOWN; PEER_STAGE_STATE_ACCEPTED; PEER_STAGE_STATE_IN_PROGRESS;
      PEER_STAGE_STATE_COMPLETED; PEER_STAGE_STATE_FAILED; PEER_STAGE_STATE_STALE; PEER_STAGE_STATE_REJECTED;
      PEER_STAGE_STATE_CONFLICT];
  as_i32 v := match v with PEER_STAGE_STATE_UNKNOWN => 0 | PEER_STAGE_STATE_ACCEPTED => 1 |
      PEER_STAGE_STATE_IN_PROGRESS => 2 | PEER_STAGE_STATE_COMPLETED => 3 | PEER_STAGE_STATE_FAILED => 4 |
      PEER_STAGE_STATE_STALE => 5 | PEER_STAGE_STATE_REJECTED => 6 | PEER_STAGE_STATE_CONFLICT => 7 end |}.
#[export] Instance PeerStageStateProto_lawful : ProtoEnumLaws PeerStageStateProto.
Proof. intros v. by destruct v. Qed.

(** ** Messages *)

Record EpochProto := mkEpochProto {
  ep_data_loss_number : Z;
  ep_configuration_number : Z;
}.
Record ReplicaInfoProto := mkReplicaInfoProto {
  rip_id : Z;
  rip_role : Z;
  rip_status : Z;
  rip_replicator_address : string;
  rip_current_progress : Z;
  rip_catch_up_capability : Z;
  rip_must_catch_up : bool;
  rip_instance_id : string;
}.
Record ReplicaSetConfigProto := mkReplicaSetConfigProto {
  rscp_members : list ReplicaInfoProto;
  rscp_write_quorum : Z;
}.
Record ReplicaConfigurationMemberStatusProto := mkReplicaConfigurationMemberStatusProto {
  cmsp_id : Z;
  cmsp_instance_id : string;
  cmsp_role : Z;
}.
Record ReplicaConfigurationStatusProto := mkReplicaConfigurationStatusProto {
  csp_mode : Z;
  csp_members : list ReplicaConfigurationMemberStatusProto;
  csp_write_quorum : Z;
}.
Record ReplicaElectionConfigurationProto := mkReplicaElectionConfigurationProto {
  recp_current : option ReplicaConfigurationStatusProto;
  recp_previous : option ReplicaConfigurationStatusProto;
}.
Record ReplicaDeactivationInfoProto := mkReplicaDeactivationInfoProto {
  dip_epoch : option EpochProto;
  dip_catch_up_lsn : Z;
}.
Record ReplicaConnectionStatusProto := mkReplicaConnectionStatusProto {
  rcsp_id : Z;
  rcsp_instance_id : string;
}.
Record ConfigurationMemberDescriptorProto := mkConfigurationMemberDescriptorProto {
  cmdp_id : Z;
  cmdp_instance_id : string;
  cmdp_role : Z;
  cmdp_status : Z;
  cmdp_replicator_address : string;
  cmdp_must_catch_up : bool;
  cmdp_progress_source : Z;
  cmdp_current_progress : Z;
  cmdp_catch_up_capability : Z;
}.
Record ConfigurationDescriptorProto := mkConfigurationDescriptorProto {
  cfdp_members : list ConfigurationMemberDescriptorProto;
  cfdp_write_quorum : Z;
}.
Record AddReplicaIntentProto := mkAddReplicaIntentProto {
  arip_operation_id : string;
  arip_attempt_id : string;
  arip_mode : Z;
  arip_epoch : option EpochProto;
  arip_primary_replica_id : Z;
  arip_primary_instance_id : string;
  arip_primary_agent_generation : string;
  arip_primary_control_address : string;
  arip_target_replica_id : Z;
  arip_target_instance_id : string;
  arip_target_agent_generation : string;
  arip_target_control_address : string;
  arip_target_replicator_address : string;
  arip_retired_instance_id : option string;
  arip_previous_configuration : option ConfigurationDescriptorProto;
  arip_catch_up_configuration : option ConfigurationDescriptorProto;
  arip_current_configuration : option ConfigurationDescriptorProto;
  arip_minimum_committed_replicas : Z;
  arip_deadline_unix_seconds : Z;
  arip_compensation_deadline_unix_seconds : Z;
  arip_target_lifecycle_peer_protocol_version : Z;
}.
Record AddReplicaProgressProto := mkAddReplicaProgressProto {
  arpp_phase : Z;
  arpp_commit_observed : bool;
  arpp_copy_lsn : option Z;
}.
Record RemoveReplicaIntentProto := mkRemoveReplicaIntentProto {
  rrip_protocol_version : Z;
  rrip_operation_id : string;
  rrip_action_id : string;
  rrip_attempt_number : Z;
  rrip_attempt_id : string;
  rrip_input_signature : string;
  rrip_mode : Z;
  rrip_epoch : option EpochProto;
  rrip_primary_replica_id : Z;
  rrip_primary_instance_id : string;
  rrip_primary_agent_generation : string;
  rrip_primary_agent_control_version : option Z;
  rrip_primary_control_address : string;
  rrip_primary_replicator_address : string;
  rrip_target_replica_id : Z;
  rrip_target_instance_id : string;
  rrip_expected_target_pod_uid : string;
  rrip_target_pod_name : string;
  rrip_expected_target_agent_generation : option string;
  rrip_target_control_address : option string;
  rrip_target_replicator_address : option string;
  rrip_target_lifecycle_peer_protocol_version : option Z;
  rrip_previous_configuration : option ConfigurationDescriptorProto;
  rrip_reduced_catch_up_configuration : option ConfigurationDescriptorProto;
  rrip_reduced_current_configuration : option ConfigurationDescriptorProto;
  rrip_required_write_quorum : Z;
  rrip_minimum_committed_replicas : Z;
  rrip_maximum_pre_commit_attempts : Z;
  rrip_overall_deadline_unix_seconds : Z;
  rrip_compensation_grace_seconds : Z;
  rrip_compensation_deadline_cap_unix_seconds : Z;
  rrip_call_timeout_seconds : Z;
  rrip_target_retirement_timeout_seconds : Z;
}.
Record RemoveReplicaProgressProto := mkRemoveReplicaProgressProto {
  rrpp_phase : Z;
  rrpp_attempt_id : string;
  rrpp_commit_observed : bool;
  rrpp_commit_observed_unix_seconds : option Z;
  rrpp_connection_absent : bool;
  rrpp_target_retirement : Z;
  rrpp_retirement_expiry_unix_seconds : option Z;
  rrpp_compensation_expiry_unix_seconds : option Z;
  rrpp_error : option string;
  rrpp_current_install_dispatched : bool;
}.
Record ReducedCurrentConfigurationProjectionProto := mkReducedCurrentConfigurationProjectionProto {
  rccp_mode : Z;
  rccp_members : list ReplicaConfigurationMemberStatusProto;
  rccp_write_quorum : Z;
}.
Record RuntimeBuildObservationProto := mkRuntimeBuildObservationProto {
  rbop_execution_id : string;
  rbop_build_key : string;
  rbop_target_replica_id : Z;
  rbop_target_instance_id : string;
  rbop_target_agent_generation : string;
  rbop_state : Z;
  rbop_copy_lsn : option Z;
  rbop_error : option string;
}.
Record PeerStageObservationProto := mkPeerStageObservationProto {
  psop_protocol_version : Z;
  psop_operation_kind : Z;
  psop_stage_semantic_version : Z;
  psop_message_id : string;
  psop_input_signature : string;
  psop_stage : Z;
  psop_state : Z;
  psop_target_agent_generation : string;
  psop_target_peer_control_version : Z;
  psop_error : option string;
}.
Record GetLifecycleStatusRequest := mkGetLifecycleStatusRequest {
  glsq_protocol_version : Z;
  glsq_target_replica_id : Z;
  glsq_target_instance_id : string;
  glsq_expected_target_agent_generation : string;
}.
Record GetLifecycleStatusResponse := mkGetLifecycleStatusResponse {
  glsr_protocol_version : Z;
  glsr_target_replica_id : Z;
  glsr_target_instance_id : string;
  glsr_agent_generation : string;
  glsr_peer_control_version : Z;
  glsr_role : Z;
  glsr_epoch : option EpochProto;
  glsr_healthy : bool;
  glsr_current_progress : Z;
  glsr_current_action : option PeerStageObservationProto;
  glsr_retained_terminal_actions : list PeerStageObservationProto;
}.
Record ExecuteLifecycleStageRequest := mkExecuteLifecycleStageRequest {
  elsr_protocol_version : Z;
  elsr_operation_kind : Z;
  elsr_stage_semantic_version : Z;
  elsr_operation_id : string;
  elsr_attempt_id : string;
  elsr_message_id : string;
  elsr_input_signature : string;
  elsr_stage : Z;
  elsr_sender_replica_id : Z;
  elsr_sender_instance_id : string;
  elsr_sender_agent_generation : string;
  elsr_sender_control_address : string;
  elsr_parent_action_id : string;
  elsr_parent_action_signature : string;
  elsr_target_replica_id : Z;
  elsr_target_instance_id : string;
  elsr_expected_target_agent_generation : string;
  elsr_expected_target_peer_control_version : Z;
  elsr_epoch : option EpochProto;
  elsr_configuration_fence : string;
  elsr_build_key : option string;
  elsr_copy_lsn : option Z;
  elsr_removal_mode : option Z;
  elsr_commit_observed_unix_seconds : option Z;
  elsr_retirement_expiry_unix_seconds : option Z;
  elsr_reduced_current_projection : option ReducedCurrentConfigurationProjectionProto;
}.
Record CorrelatedActionObservationProto := mkCorrelatedActionObservationProto {
  caop_agent_generation : string;
  caop_agent_control_version : Z;
  caop_action_id : string;
  caop_input_signature : string;
  caop_state : Z;
  caop_error : string;
  caop_result : Z;
  caop_error_class : Z;
  caop_add_replica_progress : option AddReplicaProgressProto;
  caop_remove_replica_progress : option RemoveReplicaProgressProto;
}.
Record LocalFaultRecordProto := mkLocalFaultRecordProto {
  lfrp_sequence : Z;
  lfrp_fault_type : Z;
}.
Record GetStatusResponse := mkGetStatusResponse {
  gsr_role : Z;
  gsr_epoch : option EpochProto;
  gsr_current_progress : Z;
  gsr_catch_up_capability : option Z;
  gsr_committed_lsn : Z;
  gsr_healthy : bool;
  gsr_instance_id : string;
  gsr_write_status : option Z;
  gsr_configuration : option ReplicaConfigurationStatusProto;
  gsr_active_replica_connections : list ReplicaConnectionStatusProto;
  gsr_deactivation_info : option ReplicaDeactivationInfoProto;
  gsr_election_configuration : option ReplicaElectionConfigurationProto;
  gsr_replica_agent_protocol_version : Z;
  gsr_agent_generation : string;
  gsr_agent_control_version : Z;
  gsr_current_agent_action : option CorrelatedActionObservationProto;
  gsr_retained_terminal_actions : list CorrelatedActionObservationProto;
  gsr_local_faults : list LocalFaultRecordProto;
  gsr_build_observation : option RuntimeBuildObservationProto;
  gsr_replica_lifecycle_peer_protocol_version : Z;
}.
Inductive ActionProto :=
| RevokeWriteStatusProto
| ChangeRoleProto (epoch : option EpochProto) (role : Z)
| UpdateEpochProto (epoch : option EpochProto)
| UpdateCatchUpConfigurationProto (current previous : option ReplicaSetConfigProto)
| WaitForCatchUpQuorumProto (mode : Z)
| UpdateCurrentConfigurationProto (current : option ReplicaSetConfigProto)
| OpenProto (mode : Z)
| CloseProto
| BuildReplicaProto (replica : option ReplicaInfoProto)
| RemoveReplicaProto (replica_id : Z) (instance_id : string)
| OnDataLossProto (expected_epoch : option EpochProto)
| RecordElectionConfigurationProto (configuration : option ReplicaElectionConfigurationProto)
| AddReplicaIntentAction (intent : AddReplicaIntentProto)
| RemoveReplicaIntentAction (intent : RemoveReplicaIntentProto).

(** The [oneof] of the request, with the fields of each action's message. *)
Record ExecuteCorrelatedControlActionRequest := mkExecuteCorrelatedControlActionRequest {
  ecar_protocol_version : Z;
  ecar_action_id : string;
  ecar_input_signature : string;
  ecar_target_replica_id : Z;
  ecar_target_instance_id : string;
  ecar_expected_agent_generation : string;
  ecar_expected_agent_control_version : option Z;
  ecar_observed_runtime_epoch : option EpochProto;
  ecar_action : option ActionProto;
}.
