(* ===== verification/Convert.v ===== *)
(** Conversions between the control plane's messages and the data of the
    agents (kuberic-core/src/grpc/convert.rs). *)

From S2P Require Import Prelude Types Identity Lifecycle AddReplica RemoveReplica Control Proto.

Set Default Goal Selector "!".

(** Items in order, up to the first error, with what was seen so far. *)
Fixpoint try_map_seen {E S A B} (f : S → A → result E (S * B)) (s : S) (l : list A) : result E (list B) :=
  match l with
  | [] => Ok []
  | x :: l => '(s, y) ← f s x; ys ← try_map_seen f s l; Ok (y :: ys)
  end.

(** [.map(f).transpose()?] *)
Definition try_option {E A B} (f : A → result E B) (o : option A) : result E (option B) :=
  match o with Some x => y ← f x; Ok (Some y) | None => Ok None end.

(** A number that is not one of the enum's. *)
Definition known {E} `{ProtoEnum E} (n : Z) (what : string) : result string E := ok_or (try_i32 n) (what +:+ pretty n).

#[global] Arguments known : simpl never.

(** ** Enums *)

Definition epoch_proto (e : Epoch) : EpochProto := mkEpochProto (data_loss_number e) (configuration_number e).
Definition epoch_from (e : EpochProto) : Epoch := mkEpoch (ep_data_loss_number e) (ep_configuration_number e).

Definition role_proto (r : Role) : RoleProto :=
  match r with
  | Unknown => ROLE_UNKNOWN
  | Primary => ROLE_PRIMARY
  | ActiveSecondary => ROLE_ACTIVE_SECONDARY
  | IdleSecondary => ROLE_IDLE_SECONDARY
  | RoleNone => ROLE_NONE
  end.
Definition role_from (r : RoleProto) : Role :=
  match r with
  | ROLE_UNKNOWN => Unknown
  | ROLE_PRIMARY => Primary
  | ROLE_ACTIVE_SECONDARY => ActiveSecondary
  | ROLE_IDLE_SECONDARY => IdleSecondary
  | ROLE_NONE => RoleNone
  end.
Definition role_from_i32 (v : Z) : Role := role_from (default ROLE_UNKNOWN (try_i32 v)).

Definition open_mode_proto (m : OpenMode) : OpenModeProto :=
  match m with OpenNew => OPEN_NEW | OpenExisting => OPEN_EXISTING end.
Definition open_mode_from (m : OpenModeProto) : OpenMode :=
  match m with OPEN_NEW => OpenNew | OPEN_EXISTING => OpenExisting end.
Definition open_mode_from_i32 (v : Z) : OpenMode := open_mode_from (default OPEN_NEW (try_i32 v)).

Definition quorum_mode_proto (m : ReplicaSetQuorumMode) : QuorumModeProto :=
  match m with QuorumAll => QUORUM_ALL | QuorumWrite => QUORUM_WRITE end.
Definition quorum_mode_from (m : QuorumModeProto) : ReplicaSetQuorumMode :=
  match m with QUORUM_ALL => QuorumAll | QUORUM_WRITE => QuorumWrite end.
Definition quorum_mode_from_i32 (v : Z) : ReplicaSetQuorumMode := quorum_mode_from (default QUORUM_ALL (try_i32 v)).

Definition access_status_proto (s : AccessStatus) : AccessStatusProto :=
  match s with
  | Granted => ACCESS_GRANTED
  | StReconfigurationPending => ACCESS_RECONFIGURATION_PENDING
  | StNotPrimary => ACCESS_NOT_PRIMARY
  | StNoWriteQuorum => ACCESS_NO_WRITE_QUORUM
  end.
Definition try_access_status (value : Z) : result string AccessStatus :=
  s ← known value "unknown runtime write status ";
  Ok (match s with
      | ACCESS_GRANTED => Granted
      | ACCESS_RECONFIGURATION_PENDING => StReconfigurationPending
      | ACCESS_NOT_PRIMARY => StNotPrimary
      | ACCESS_NO_WRITE_QUORUM => StNoWriteQuorum
      end).

Definition replica_status_proto (s : ReplicaStatus) : ReplicaStatusProto :=
  match s with Up => STATUS_UP | Down => STATUS_DOWN end.
Definition replica_status_from (s : ReplicaStatusProto) : ReplicaStatus :=
  match s with STATUS_UP => Up | STATUS_DOWN => Down end.

Definition configuration_mode_proto (m : ReplicaConfigurationMode) : ReplicaConfigurationModeProto :=
  match m with CatchUp => CONFIGURATION_CATCH_UP | Current => CONFIGURATION_CURRENT end.
Definition configuration_mode_from (m : ReplicaConfigurationModeProto) (none : string) :
    result string ReplicaConfigurationMode :=
  match m with
  | CONFIGURATION_CATCH_UP => Ok CatchUp
  | CONFIGURATION_CURRENT => Ok Current
  | CONFIGURATION_NONE => Err none
  end.

Definition action_result_proto (r : DurableActionResult) : DurableActionResultProto :=
  match r with
  | ResDataLoss DataLossNone => DURABLE_ACTION_RESULT_DATA_LOSS_NO_STATE_CHANGE
  | ResDataLoss StateChanged => DURABLE_ACTION_RESULT_DATA_LOSS_STATE_CHANGED
  | ResAddReplica AddCommitted => DURABLE_ACTION_RESULT_ADD_REPLICA_COMMITTED
  | ResAddReplica AddCompensated => DURABLE_ACTION_RESULT_ADD_REPLICA_COMPENSATED
  | ResAddReplica AddCompensationIncomplete => DURABLE_ACTION_RESULT_ADD_REPLICA_COMPENSATION_INCOMPLETE
  | ResRemoveReplica CommittedClean => DURABLE_ACTION_RESULT_REMOVE_REPLICA_COMMITTED_CLEAN
  | ResRemoveReplica CommittedDegraded => DURABLE_ACTION_RESULT_REMOVE_REPLICA_COMMITTED_DEGRADED
  | ResRemoveReplica Compensated => DURABLE_ACTION_RESULT_REMOVE_REPLICA_COMPENSATED
  | ResRemoveReplica CompensationIncomplete => DURABLE_ACTION_RESULT_REMOVE_REPLICA_COMPENSATION_INCOMPLETE
  end.
Definition action_result_from (r : DurableActionResultProto) : option DurableActionResult :=
  match r with
  | DURABLE_ACTION_RESULT_DATA_LOSS_NO_STATE_CHANGE => Some (ResDataLoss DataLossNone)
  | DURABLE_ACTION_RESULT_DATA_LOSS_STATE_CHANGED => Some (ResDataLoss StateChanged)
  | DURABLE_ACTION_RESULT_ADD_REPLICA_COMMITTED => Some (ResAddReplica AddCommitted)
  | DURABLE_ACTION_RESULT_ADD_REPLICA_COMPENSATED => Some (ResAddReplica AddCompensated)
  | DURABLE_ACTION_RESULT_ADD_REPLICA_COMPENSATION_INCOMPLETE => Some (ResAddReplica AddCompensationIncomplete)
  | DURABLE_ACTION_RESULT_REMOVE_REPLICA_COMMITTED_CLEAN => Some (ResRemoveReplica CommittedClean)
  | DURABLE_ACTION_RESULT_REMOVE_REPLICA_COMMITTED_DEGRADED => Some (ResRemoveReplica CommittedDegraded)
  | DURABLE_ACTION_RESULT_REMOVE_REPLICA_COMPENSATED => Some (ResRemoveReplica Compensated)
  | DURABLE_ACTION_RESULT_REMOVE_REPLICA_COMPENSATION_INCOMPLETE => Some (ResRemoveReplica CompensationIncomplete)
  | DURABLE_ACTION_RESULT_NONE => None
  end.

Definition error_class_proto (c : DurableActionErrorClass) : DurableActionErrorClassProto :=
  match c with
  | ClsInternal => DURABLE_ACTION_ERROR_INTERNAL
  | ClsNotPrimary => DURABLE_ACTION_ERROR_NOT_PRIMARY
  | ClsNoWriteQuorum => DURABLE_ACTION_ERROR_NO_WRITE_QUORUM
  | ClsReconfigurationPending => DURABLE_ACTION_ERROR_RECONFIGURATION_PENDING
  | ClsStaleEpoch => DURABLE_ACTION_ERROR_STALE_EPOCH
  | ClsCancelled => DURABLE_ACTION_ERROR_CANCELLED
  | ClsClosed => DURABLE_ACTION_ERROR_CLOSED
  end.
Definition error_class_from (c : DurableActionErrorClassProto) : option DurableActionErrorClass :=
  match c with
  | DURABLE_ACTION_ERROR_INTERNAL => Some ClsInternal
  | DURABLE_ACTION_ERROR_NOT_PRIMARY => Some ClsNotPrimary
  | DURABLE_ACTION_ERROR_NO_WRITE_QUORUM => Some ClsNoWriteQuorum
  | DURABLE_ACTION_ERROR_RECONFIGURATION_PENDING => Some ClsReconfigurationPending
  | DURABLE_ACTION_ERROR_STALE_EPOCH => Some ClsStaleEpoch
  | DURABLE_ACTION_ERROR_CANCELLED => Some ClsCancelled
  | DURABLE_ACTION_ERROR_CLOSED => Some ClsClosed
  | DURABLE_ACTION_ERROR_NONE => None
  end.

Definition add_mode_proto (m : AddReplicaMode) : AddReplicaModeProto :=
  match m with ScaleUp => ADD_REPLICA_MODE_SCALE_UP | Rebuild => ADD_REPLICA_MODE_REBUILD end.
Definition add_mode_from (m : AddReplicaModeProto) : result string AddReplicaMode :=
  match m with
  | ADD_REPLICA_MODE_SCALE_UP => Ok ScaleUp
  | ADD_REPLICA_MODE_REBUILD => Ok Rebuild
  | ADD_REPLICA_MODE_UNKNOWN => Err "add-replica mode is unknown"
  end.

Definition add_phase_proto (p : AddReplicaCoordinatorPhase) : AddReplicaCoordinatorPhaseProto :=
  match p with
  | AddValidating => ADD_REPLICA_PHASE_VALIDATING
  | RetiringOldConnection => ADD_REPLICA_PHASE_RETIRING_OLD_CONNECTION
  | PreparingTarget => ADD_REPLICA_PHASE_PREPARING_TARGET
  | Building => ADD_REPLICA_PHASE_BUILDING
  | ActivatingTarget => ADD_REPLICA_PHASE_ACTIVATING_TARGET
  | AddInstallingCatchUpConfiguration => ADD_REPLICA_PHASE_INSTALLING_CATCH_UP_CONFIGURATION
  | AddWaitingForCatchUpQuorum => ADD_REPLICA_PHASE_WAITING_FOR_CATCH_UP_QUORUM
  | AddInstallingCurrentConfiguration => ADD_REPLICA_PHASE_INSTALLING_CURRENT_CONFIGURATION
  | AddAttesting => ADD_REPLICA_PHASE_ATTESTING
  | AddCompensating => ADD_REPLICA_PHASE_COMPENSATING
  end.
Definition add_phase_from (p : AddReplicaCoordinatorPhaseProto) : result string AddReplicaCoordinatorPhase :=
  match p with
  | ADD_REPLICA_PHASE_VALIDATING => Ok AddValidating
  | ADD_REPLICA_PHASE_RETIRING_OLD_CONNECTION => Ok RetiringOldConnection
  | ADD_REPLICA_PHASE_PREPARING_TARGET => Ok PreparingTarget
  | ADD_REPLICA_PHASE_BUILDING => Ok Building
  | ADD_REPLICA_PHASE_ACTIVATING_TARGET => Ok ActivatingTarget
  | ADD_REPLICA_PHASE_INSTALLING_CATCH_UP_CONFIGURATION => Ok AddInstallingCatchUpConfiguration
  | ADD_REPLICA_PHASE_WAITING_FOR_CATCH_UP_QUORUM => Ok AddWaitingForCatchUpQuorum
  | ADD_REPLICA_PHASE_INSTALLING_CURRENT_CONFIGURATION => Ok AddInstallingCurrentConfiguration
  | ADD_REPLICA_PHASE_ATTESTING => Ok AddAttesting
  | ADD_REPLICA_PHASE_COMPENSATING => Ok AddCompensating
  | ADD_REPLICA_PHASE_UNKNOWN => Err "add-replica progress phase is unknown"
  end.

Definition remove_mode_proto (m : RemoveReplicaMode) : RemoveReplicaModeProto :=
  match m with ScaleDown => REMOVE_REPLICA_MODE_SCALE_DOWN | Force => REMOVE_REPLICA_MODE_FORCE end.
Definition remove_mode_from (m : RemoveReplicaModeProto) : result string RemoveReplicaMode :=
  match m with
  | REMOVE_REPLICA_MODE_SCALE_DOWN => Ok ScaleDown
  | REMOVE_REPLICA_MODE_FORCE => Ok Force
  | REMOVE_REPLICA_MODE_UNKNOWN => Err "remove-replica mode is unknown"
  end.

Definition remove_phase_proto (p : RemoveReplicaCoordinatorPhase) : RemoveReplicaCoordinatorPhaseProto :=
  match p with
  | Validating => REMOVE_REPLICA_PHASE_VALIDATING
  | InstallingCatchUpConfiguration => REMOVE_REPLICA_PHASE_INSTALLING_CATCH_UP_CONFIGURATION
  | WaitingForCatchUpQuorum => REMOVE_REPLICA_PHASE_WAITING_FOR_CATCH_UP_QUORUM
  | InstallingCurrentConfiguration => REMOVE_REPLICA_PHASE_INSTALLING_CURRENT_CONFIGURATION
  | RemovingConnection => REMOVE_REPLICA_PHASE_REMOVING_CONNECTION
  | RetiringTarget => REMOVE_REPLICA_PHASE_RETIRING_TARGET
  | Attesting => REMOVE_REPLICA_PHASE_ATTESTING
  | Compensating => REMOVE_REPLICA_PHASE_COMPENSATING
  end.
Definition remove_phase_from (p : RemoveReplicaCoordinatorPhaseProto) : result string RemoveReplicaCoordinatorPhase :=
  match p with
  | REMOVE_REPLICA_PHASE_VALIDATING => Ok Validating
  | REMOVE_REPLICA_PHASE_INSTALLING_CATCH_UP_CONFIGURATION => Ok InstallingCatchUpConfiguration
  | REMOVE_REPLICA_PHASE_WAITING_FOR_CATCH_UP_QUORUM => Ok WaitingForCatchUpQuorum
  | REMOVE_REPLICA_PHASE_INSTALLING_CURRENT_CONFIGURATION => Ok InstallingCurrentConfiguration
  | REMOVE_REPLICA_PHASE_REMOVING_CONNECTION => Ok RemovingConnection
  | REMOVE_REPLICA_PHASE_RETIRING_TARGET => Ok RetiringTarget
  | REMOVE_REPLICA_PHASE_ATTESTING => Ok Attesting
  | REMOVE_REPLICA_PHASE_COMPENSATING => Ok Compensating
  | REMOVE_REPLICA_PHASE_UNKNOWN => Err "remove-replica coordinator phase is unknown"
  end.

Definition retirement_proto (o : TargetRetirementObservation) : TargetRetirementObservationProto :=
  match o with
  | NotAttempted => TARGET_RETIREMENT_OBSERVATION_NOT_ATTEMPTED
  | RetInProgress => TARGET_RETIREMENT_OBSERVATION_IN_PROGRESS
  | RetCompleted => TARGET_RETIREMENT_OBSERVATION_COMPLETED
  | RetUnavailable => TARGET_RETIREMENT_OBSERVATION_UNAVAILABLE
  | RetStale => TARGET_RETIREMENT_OBSERVATION_STALE
  | RetFailed => TARGET_RETIREMENT_OBSERVATION_FAILED
  end.
Definition retirement_from (o : TargetRetirementObservationProto) : result string TargetRetirementObservation :=
  match o with
  | TARGET_RETIREMENT_OBSERVATION_NOT_ATTEMPTED => Ok NotAttempted
  | TARGET_RETIREMENT_OBSERVATION_IN_PROGRESS => Ok RetInProgress
  | TARGET_RETIREMENT_OBSERVATION_COMPLETED => Ok RetCompleted
  | TARGET_RETIREMENT_OBSERVATION_UNAVAILABLE => Ok RetUnavailable
  | TARGET_RETIREMENT_OBSERVATION_STALE => Ok RetStale
  | TARGET_RETIREMENT_OBSERVATION_FAILED => Ok RetFailed
  | TARGET_RETIREMENT_OBSERVATION_UNKNOWN => Err "target retirement observation is unknown"
  end.

Definition remove_terminal_proto (r : RemoveReplicaTerminalResult) : RemoveReplicaTerminalResultProto :=
  match r with
  | CommittedClean => REMOVE_REPLICA_TERMINAL_RESULT_COMMITTED_CLEAN
  | CommittedDegraded => REMOVE_REPLICA_TERMINAL_RESULT_COMMITTED_DEGRADED
  | Compensated => REMOVE_REPLICA_TERMINAL_RESULT_COMPENSATED
  | CompensationIncomplete => REMOVE_REPLICA_TERMINAL_RESULT_COMPENSATION_INCOMPLETE
  end.
Definition remove_terminal_from (r : RemoveReplicaTerminalResultProto) : result string RemoveReplicaTerminalResult :=
  match r with
  | REMOVE_REPLICA_TERMINAL_RESULT_COMMITTED_CLEAN => Ok CommittedClean
  | REMOVE_REPLICA_TERMINAL_RESULT_COMMITTED_DEGRADED => Ok CommittedDegraded
  | REMOVE_REPLICA_TERMINAL_RESULT_COMPENSATED => Ok Compensated
  | REMOVE_REPLICA_TERMINAL_RESULT_COMPENSATION_INCOMPLETE => Ok CompensationIncomplete
  | REMOVE_REPLICA_TERMINAL_RESULT_UNKNOWN => Err "remove-replica terminal result is unknown"
  end.

Definition build_state_proto (s : RuntimeBuildState) : RuntimeBuildStateProto :=
  match s with
  | BuildInProgress => RUNTIME_BUILD_STATE_IN_PROGRESS
  | BuildCompleted => RUNTIME_BUILD_STATE_COMPLETED
  | BuildFailed => RUNTIME_BUILD_STATE_FAILED
  | BuildCancelled => RUNTIME_BUILD_STATE_CANCELLED
  end.
Definition build_state_from (s : RuntimeBuildStateProto) : result string RuntimeBuildState :=
  match s with
  | RUNTIME_BUILD_STATE_IN_PROGRESS => Ok BuildInProgress
  | RUNTIME_BUILD_STATE_COMPLETED => Ok BuildCompleted
  | RUNTIME_BUILD_STATE_FAILED => Ok BuildFailed
  | RUNTIME_BUILD_STATE_CANCELLED => Ok BuildCancelled
  | RUNTIME_BUILD_STATE_UNKNOWN => Err "runtime build state is unknown"
  end.

Definition peer_stage_proto (s : PeerStage) : PeerStageProto :=
  match s with
  | Prepare => PEER_STAGE_PREPARE
  | Activate => PEER_STAGE_ACTIVATE
  | Cleanup => PEER_STAGE_CLEANUP
  | Retire => PEER_STAGE_RETIRE
  end.
Definition try_peer_stage (value : Z) : result string PeerStage :=
  s ← known value "unknown peer stage ";
  match s with
  | PEER_STAGE_PREPARE => Ok Prepare
  | PEER_STAGE_ACTIVATE => Ok Activate
  | PEER_STAGE_CLEANUP => Ok Cleanup
  | PEER_STAGE_RETIRE => Ok Retire
  | PEER_STAGE_UNKNOWN => Err "peer stage is unknown"
  end.

Definition operation_kind_proto (k : PeerOperationKind) : PeerOperationKindProto :=
  match k with AddBuild => PEER_OPERATION_KIND_ADD_BUILD | Remove => PEER_OPERATION_KIND_REMOVE end.
Definition operation_kind_from (k : PeerOperationKindProto) : result string PeerOperationKind :=
  match k with
  | PEER_OPERATION_KIND_ADD_BUILD => Ok AddBuild
  | PEER_OPERATION_KIND_REMOVE => Ok Remove
  | PEER_OPERATION_KIND_UNKNOWN => Err "peer operation kind is unknown"
  end.

Definition stage_state_proto (s : PeerStageState) : PeerStageStateProto :=
  match s with
  | StageAccepted => PEER_STAGE_STATE_ACCEPTED
  | StageInProgress => PEER_STAGE_STATE_IN_PROGRESS
  | StageCompleted => PEER_STAGE_STATE_COMPLETED
  | StageFailed => PEER_STAGE_STATE_FAILED
  | StageStale => PEER_STAGE_STATE_STALE
  | StageRejected => PEER_STAGE_STATE_REJECTED
  | StageConflict => PEER_STAGE_STATE_CONFLICT
  end.
Definition stage_state_from (s : PeerStageStateProto) : result string PeerStageState :=
  match s with
  | PEER_STAGE_STATE_ACCEPTED => Ok StageAccepted
  | PEER_STAGE_STATE_IN_PROGRESS => Ok StageInProgress
  | PEER_STAGE_STATE_COMPLETED => Ok StageCompleted
  | PEER_STAGE_STATE_FAILED => Ok StageFailed
  | PEER_STAGE_STATE_STALE => Ok StageStale
  | PEER_STAGE_STATE_REJECTED => Ok StageRejected
  | PEER_STAGE_STATE_CONFLICT => Ok StageConflict
  | PEER_STAGE_STATE_UNKNOWN => Err "peer stage observation state is unknown"
  end.

Definition action_state_proto (s : DurableActionState) : DurableActionStateProto :=
  match s with
  | Scheduled => DURABLE_ACTION_SCHEDULED
  | InProgress => DURABLE_ACTION_IN_PROGRESS
  | Completed => DURABLE_ACTION_COMPLETED
  | Failed => DURABLE_ACTION_FAILED
  end.
Definition action_state_from (s : DurableActionStateProto) : result string DurableActionState :=
  match s with
  | DURABLE_ACTION_SCHEDULED => Ok Scheduled
  | DURABLE_ACTION_IN_PROGRESS => Ok InProgress
  | DURABLE_ACTION_COMPLETED => Ok Completed
  | DURABLE_ACTION_FAILED => Ok Failed
  | DURABLE_ACTION_NONE => Err "correlated action state is none"
  end.

Definition fault_type_proto (f : FaultType) : LocalFaultTypeProto :=
  match f with Transient => LOCAL_FAULT_TRANSIENT | Permanent => LOCAL_FAULT_PERMANENT end.
Definition fault_type_from (f : LocalFaultTypeProto) : result string FaultType :=
  match f with
  | LOCAL_FAULT_TRANSIENT => Ok Transient
  | LOCAL_FAULT_PERMANENT => Ok Permanent
  | LOCAL_FAULT_UNKNOWN => Err "local fault type is unknown"
  end.

(** ** Configurations *)

Definition member_status_proto (m : ReplicaConfigurationMemberStatus) : ReplicaConfigurationMemberStatusProto :=
  mkReplicaConfigurationMemberStatusProto (cm_id m) (cm_instance_id m) (as_i32 (role_proto (cm_role m))).

Definition configuration_status_proto (s : ReplicaConfigurationStatus) : ReplicaConfigurationStatusProto :=
  mkReplicaConfigurationStatusProto (as_i32 (configuration_mode_proto (cs_mode s)))
    (member_status_proto <$> cs_members s) (cs_write_quorum s).

(** A role that is known, and not [ROLE_UNKNOWN]. *)
Definition known_role (value : Z) (what unknown : string) : result string Role :=
  role ← known value what;
  match role with ROLE_UNKNOWN => Err unknown | role => Ok (role_from role) end.

Definition try_runtime_member (seen : gset ReplicaId * gset string) (m : ReplicaConfigurationMemberStatusProto) :
    result string (gset ReplicaId * gset string * ReplicaConfigurationMemberStatus) :=
  let '(ids, instances) := seen in
  reject_if ((cmsp_id m <=? 0) || bool_decide (cmsp_id m ∈ ids))
    ("runtime configuration has invalid or duplicate replica ID " +:+ pretty (cmsp_id m));;
  reject_if (empty (cmsp_instance_id m) || bool_decide (cmsp_instance_id m ∈ instances))
    ("runtime configuration replica " +:+ pretty (cmsp_id m) +:+ " has missing or duplicate incarnation");;
  role ← known_role (cmsp_role m) "unknown role "
           ("runtime configuration replica " +:+ pretty (cmsp_id m) +:+ " has unknown role");
  Ok ({[cmsp_id m]} ∪ ids, {[cmsp_instance_id m]} ∪ instances,
      mkReplicaConfigurationMemberStatus (cmsp_id m) (cmsp_instance_id m) role).

Definition try_runtime_configuration_status (s : ReplicaConfigurationStatusProto) :
    result string ReplicaConfigurationStatus :=
  mode ← known (csp_mode s) "unknown runtime configuration mode ";
  mode ← configuration_mode_from mode "runtime configuration mode is none";
  members ← try_map_seen try_runtime_member (∅, ∅) (csp_members s);
  reject_if ((csp_write_quorum s =? 0) || (Z.of_nat (length members) + 1 <? csp_write_quorum s))
    ("invalid runtime configuration write quorum " +:+ pretty (csp_write_quorum s) +:+ " for " +:+
     pretty (length members) +:+ " remote members");;
  Ok (mkReplicaConfigurationStatus mode members (csp_write_quorum s)).

Definition try_election_member (m : ReplicaConfigurationMemberStatusProto) :
    result string ReplicaConfigurationMemberStatus :=
  reject_if (empty (cmsp_instance_id m))
    ("election configuration member " +:+ pretty (cmsp_id m) +:+ " has empty incarnation");;
  role ← known_role (cmsp_role m) "unknown role "
           ("election configuration member " +:+ pretty (cmsp_id m) +:+ " has unknown role");
  Ok (mkReplicaConfigurationMemberStatus (cmsp_id m) (cmsp_instance_id m) role).

Definition try_configuration_status (s : ReplicaConfigurationStatusProto) : result string ReplicaConfigurationStatus :=
  mode ← known (csp_mode s) "unknown configuration mode ";
  mode ← configuration_mode_from mode "election configuration mode is none";
  members ← try_map try_election_member (csp_members s);
  reject_if (bool_decide (members = [])) "election configuration has no members";;
  reject_if ((csp_write_quorum s =? 0) || (Z.of_nat (length members) <? csp_write_quorum s))
    ("invalid election configuration write quorum " +:+ pretty (csp_write_quorum s) +:+ " for " +:+
     pretty (length members) +:+ " members");;
  Ok (mkReplicaConfigurationStatus mode members (csp_write_quorum s)).

Definition election_configuration_proto (c : ReplicaElectionConfiguration) : ReplicaElectionConfigurationProto :=
  mkReplicaElectionConfigurationProto (Some (configuration_status_proto (ec_current c)))
    (configuration_status_proto <$> ec_previous c).
Definition try_election_configuration (c : ReplicaElectionConfigurationProto) : result string ReplicaElectionConfiguration :=
  current ← ok_or (recp_current c) "missing current election configuration";
  current ← try_configuration_status current;
  previous ← try_option try_configuration_status (recp_previous c);
  Ok (mkReplicaElectionConfiguration previous current).

Definition deactivation_info_proto (d : ReplicaDeactivationInfo) : ReplicaDeactivationInfoProto :=
  mkReplicaDeactivationInfoProto (Some (epoch_proto (di_epoch d))) (di_catch_up_lsn d).
Definition try_deactivation_info (d : ReplicaDeactivationInfoProto) : result string ReplicaDeactivationInfo :=
  epoch ← ok_or (dip_epoch d) "missing deactivation epoch";
  Ok (mkReplicaDeactivationInfo (epoch_from epoch) (dip_catch_up_lsn d)).

Definition replica_info_proto (r : ReplicaInfo) : ReplicaInfoProto :=
  mkReplicaInfoProto (ri_id r) (as_i32 (role_proto (ri_role r))) (as_i32 (replica_status_proto (ri_status r)))
    (ri_replicator_address r) (ri_current_progress r) (ri_catch_up_capability r) (ri_must_catch_up r) (ri_instance_id r).
Definition replica_info_from (r : ReplicaInfoProto) : ReplicaInfo :=
  mkReplicaInfo (rip_id r) (rip_instance_id r) (role_from_i32 (rip_role r))
    (if rip_status r =? as_i32 STATUS_UP then Up else Down) (rip_replicator_address r)
    (rip_current_progress r) (rip_catch_up_capability r) (rip_must_catch_up r).

Definition replica_set_config_proto (c : ReplicaSetConfig) : ReplicaSetConfigProto :=
  mkReplicaSetConfigProto (replica_info_proto <$> rc_members c) (rc_write_quorum c).
Definition replica_set_config_from (c : ReplicaSetConfigProto) : ReplicaSetConfig :=
  mkReplicaSetConfig (replica_info_from <$> rscp_members c) (rscp_write_quorum c).

Definition try_replica_info (r : ReplicaInfoProto) : result string ReplicaInfo :=
  reject_if ((rip_id r <=? 0) || empty (rip_instance_id r)) "replica identity is invalid";;
  role ← known_role (rip_role r) "unknown replica role " ("replica " +:+ pretty (rip_id r) +:+ " has unknown role");
  status ← known (rip_status r) "unknown replica status ";
  Ok (mkReplicaInfo (rip_id r) (rip_instance_id r) role (replica_status_from status) (rip_replicator_address r)
        (rip_current_progress r) (rip_catch_up_capability r) (rip_must_catch_up r)).
Definition try_replica_set_config (c : ReplicaSetConfigProto) : result string ReplicaSetConfig :=
  members ← try_map try_replica_info (rscp_members c);
  Ok (mkReplicaSetConfig members (rscp_write_quorum c)).

(** *** Descriptors *)

Definition member_descriptor_proto (m : ConfigurationMemberDescriptor) : ConfigurationMemberDescriptorProto :=
  let '(source, current_progress, catch_up_capability) :=
    match cd_progress m with
    | Frozen current_progress catch_up_capability => (CONFIGURATION_PROGRESS_FROZEN, current_progress, catch_up_capability)
    | BuildCopyLsn => (CONFIGURATION_PROGRESS_BUILD_COPY_LSN, 0, 0)
    end in
  mkConfigurationMemberDescriptorProto (cd_id m) (cd_instance_id m) (as_i32 (role_proto (cd_role m)))
    (as_i32 (replica_status_proto (cd_status m))) (cd_replicator_address m) (cd_must_catch_up m) (as_i32 source)
    current_progress catch_up_capability.
Definition configuration_descriptor_proto (d : ConfigurationDescriptor) : ConfigurationDescriptorProto :=
  mkConfigurationDescriptorProto (member_descriptor_proto <$> cfg_members d) (cfg_write_quorum d).

Definition try_progress_source (m : ConfigurationMemberDescriptorProto) : result string ConfigurationProgressSource :=
  source ← known (cmdp_progress_source m) "unknown configuration progress source ";
  match source with
  | CONFIGURATION_PROGRESS_FROZEN => Ok (Frozen (cmdp_current_progress m) (cmdp_catch_up_capability m))
  | CONFIGURATION_PROGRESS_BUILD_COPY_LSN =>
      reject_if (negb (cmdp_current_progress m =? 0) || negb (cmdp_catch_up_capability m =? 0))
        ("build-copy progress member " +:+ pretty (cmdp_id m) +:+ " carries frozen progress");;
      Ok BuildCopyLsn
  | CONFIGURATION_PROGRESS_UNKNOWN => Err "configuration progress source is unknown"
  end.

Definition try_member_descriptor (seen : gset ReplicaId * gset string) (m : ConfigurationMemberDescriptorProto) :
    result string (gset ReplicaId * gset string * ConfigurationMemberDescriptor) :=
  let '(ids, instances) := seen in
  let member := "configuration descriptor replica " +:+ pretty (cmdp_id m) in
  reject_if ((cmdp_id m <=? 0) || bool_decide (cmdp_id m ∈ ids))
    ("configuration descriptor has invalid or duplicate replica ID " +:+ pretty (cmdp_id m));;
  reject_if (empty (cmdp_instance_id m) || bool_decide (cmdp_instance_id m ∈ instances))
    (member +:+ " has missing or duplicate incarnation");;
  reject_if (empty (cmdp_replicator_address m)) (member +:+ " has no replicator address");;
  role ← known (cmdp_role m) "unknown descriptor role ";
  reject_if (match role with ROLE_UNKNOWN | ROLE_PRIMARY => true | _ => false end) (member +:+ " has invalid remote role");;
  status ← known (cmdp_status m) "unknown descriptor status ";
  progress ← try_progress_source m;
  Ok ({[cmdp_id m]} ∪ ids, {[cmdp_instance_id m]} ∪ instances,
      mkConfigurationMemberDescriptor (cmdp_id m) (cmdp_instance_id m) (role_from role) (replica_status_from status)
        (cmdp_replicator_address m) (cmdp_must_catch_up m) progress).

Definition try_configuration_descriptor (d : ConfigurationDescriptorProto) : result string ConfigurationDescriptor :=
  members ← try_map_seen try_member_descriptor (∅, ∅) (cfdp_members d);
  reject_if (cfdp_write_quorum d =? 0) "configuration descriptor write quorum must be positive";;
  Ok (mkConfigurationDescriptor members (cfdp_write_quorum d)).

Definition required_descriptor (d : option ConfigurationDescriptorProto) (missing : string) :
    result string ConfigurationDescriptor :=
  d ← ok_or d missing;
  try_configuration_descriptor d.

(** ** Intents and progress *)

Definition add_intent_proto (i : AddReplicaIntent) : AddReplicaIntentProto :=
  mkAddReplicaIntentProto (ai_operation_id i) (ai_attempt_id i) (as_i32 (add_mode_proto (ai_mode i)))
    (Some (epoch_proto (ai_epoch i))) (ai_primary_replica_id i) (ai_primary_instance_id i)
    (ai_primary_agent_generation i) (ai_primary_control_address i) (ai_target_replica_id i) (ai_target_instance_id i)
    (ai_target_agent_generation i) (ai_target_control_address i) (ai_target_replicator_address i)
    (ai_retired_instance_id i) (Some (configuration_descriptor_proto (ai_previous_configuration i)))
    (Some (configuration_descriptor_proto (ai_catch_up_configuration i)))
    (Some (configuration_descriptor_proto (ai_current_configuration i))) (ai_minimum_committed_replicas i)
    (ai_deadline_unix_seconds i) (ai_compensation_deadline_unix_seconds i) (ai_target_lifecycle_peer_protocol_version i).

Definition try_add_intent (p : AddReplicaIntentProto) : result string AddReplicaIntent :=
  reject_if (empty (arip_operation_id p) || empty (arip_attempt_id p)) "add-replica intent identity is missing";;
  reject_if ((arip_primary_replica_id p <=? 0) || (arip_target_replica_id p <=? 0)
             || (arip_primary_replica_id p =? arip_target_replica_id p))
    "add-replica primary/target identity is invalid";;
  reject_if (empty (arip_primary_instance_id p) || empty (arip_target_instance_id p)
             || empty (arip_primary_control_address p) || empty (arip_target_control_address p)
             || empty (arip_target_replicator_address p))
    "add-replica intent has missing identity or endpoint";;
  mode ← known (arip_mode p) "unknown add-replica mode ";
  mode ← add_mode_from mode;
  reject_if (bool_decide (mode = Rebuild) && none (arip_retired_instance_id p))
    "rebuild intent has no retired incarnation";;
  reject_if (bool_decide (mode = ScaleUp) && negb (none (arip_retired_instance_id p)))
    "scale-up intent unexpectedly has a retired incarnation";;
  reject_if ((arip_minimum_committed_replicas p =? 0) || (arip_deadline_unix_seconds p <=? 0)
             || (arip_compensation_deadline_unix_seconds p <? arip_deadline_unix_seconds p))
    "add-replica intent has invalid limits or deadlines";;
  epoch ← ok_or (arip_epoch p) "add-replica intent has no epoch";
  primary_generation ← agent_generation_parse (arip_primary_agent_generation p);
  target_generation ← agent_generation_parse (arip_target_agent_generation p);
  previous ← required_descriptor (arip_previous_configuration p) "missing previous configuration descriptor";
  catch_up ← required_descriptor (arip_catch_up_configuration p) "missing catch-up configuration descriptor";
  current ← required_descriptor (arip_current_configuration p) "missing current configuration descriptor";
  let i := mkAddReplicaIntent (arip_operation_id p) (arip_attempt_id p) mode (epoch_from epoch)
    (arip_primary_replica_id p) (arip_primary_instance_id p) primary_generation (arip_primary_control_address p)
    (arip_target_replica_id p) (arip_target_instance_id p) target_generation (arip_target_control_address p)
    (arip_target_replicator_address p) (arip_retired_instance_id p) previous catch_up current
    (arip_minimum_committed_replicas p) (arip_deadline_unix_seconds p) (arip_compensation_deadline_unix_seconds p)
    (arip_target_lifecycle_peer_protocol_version p) in
  validate_add_intent i;;
  Ok i.

Definition add_progress_proto (p : AddReplicaProgress) : AddReplicaProgressProto :=
  mkAddReplicaProgressProto (as_i32 (add_phase_proto (ap_phase p))) (ap_commit_observed p) (ap_copy_lsn p).
Definition try_add_progress (p : AddReplicaProgressProto) : result string AddReplicaProgress :=
  phase ← known (arpp_phase p) "unknown add-replica phase ";
  phase ← add_phase_from phase;
  Ok (mkAddReplicaProgress phase (arpp_commit_observed p) (arpp_copy_lsn p)).

Section endpoints.
  Context {Ends : Endpoints}.

Definition remove_intent_proto (i : RemoveReplicaIntent) : result string RemoveReplicaIntentProto :=
  validate_remove_intent i;;
  Ok (mkRemoveReplicaIntentProto (rm_protocol_version i) (rm_operation_id i) (rm_action_id i) (rm_attempt_number i)
    (rm_attempt_id i) (rm_input_signature i) (as_i32 (remove_mode_proto (rm_mode i))) (Some (epoch_proto (rm_epoch i)))
    (rm_primary_replica_id i) (rm_primary_instance_id i) (rm_primary_agent_generation i)
    (Some (rm_primary_agent_control_version i)) (rm_primary_control_address i) (rm_primary_replicator_address i)
    (rm_target_replica_id i) (rm_target_instance_id i) (rm_expected_target_pod_uid i) (rm_target_pod_name i)
    (rm_expected_target_agent_generation i) (rm_target_control_address i) (rm_target_replicator_address i)
    (rm_target_lifecycle_peer_protocol_version i) (Some (configuration_descriptor_proto (rm_previous_configuration i)))
    (Some (configuration_descriptor_proto (rm_reduced_catch_up_configuration i)))
    (Some (configuration_descriptor_proto (rm_reduced_current_configuration i))) (rm_required_write_quorum i)
    (rm_minimum_committed_replicas i) (rm_maximum_pre_commit_attempts i) (rm_overall_deadline_unix_seconds i)
    (rm_compensation_grace_seconds i) (rm_compensation_deadline_cap_unix_seconds i) (rm_call_timeout_seconds i)
    (rm_target_retirement_timeout_seconds i)).

Definition try_remove_intent (p : RemoveReplicaIntentProto) : result string RemoveReplicaIntent :=
  mode ← known (rrip_mode p) "unknown remove-replica mode ";
  mode ← remove_mode_from mode;
  epoch ← ok_or (rrip_epoch p) "remove-replica intent has no epoch";
  primary_generation ← agent_generation_parse (rrip_primary_agent_generation p);
  control_version ← ok_or (rrip_primary_agent_control_version p)
                      "remove-replica intent has no primary agent control version";
  target_generation ← try_option agent_generation_parse (rrip_expected_target_agent_generation p);
  previous ← required_descriptor (rrip_previous_configuration p) "missing previous remove configuration";
  catch_up ← required_descriptor (rrip_reduced_catch_up_configuration p) "missing reduced catch-up remove configuration";
  current ← required_descriptor (rrip_reduced_current_configuration p) "missing reduced current remove configuration";
  let i := mkRemoveReplicaIntent (rrip_protocol_version p) (rrip_operation_id p) (rrip_action_id p)
    (rrip_attempt_number p) (rrip_attempt_id p) (rrip_input_signature p) mode (epoch_from epoch)
    (rrip_primary_replica_id p) (rrip_primary_instance_id p) primary_generation control_version
    (rrip_primary_control_address p) (rrip_primary_replicator_address p) (rrip_target_replica_id p)
    (rrip_target_instance_id p) (rrip_expected_target_pod_uid p) (rrip_target_pod_name p) target_generation
    (rrip_target_control_address p) (rrip_target_replicator_address p) (rrip_target_lifecycle_peer_protocol_version p)
    previous catch_up current (rrip_required_write_quorum p) (rrip_minimum_committed_replicas p)
    (rrip_maximum_pre_commit_attempts p) (rrip_overall_deadline_unix_seconds p) (rrip_compensation_grace_seconds p)
    (rrip_compensation_deadline_cap_unix_seconds p) (rrip_call_timeout_seconds p)
    (rrip_target_retirement_timeout_seconds p) in
  validate_remove_intent i;;
  Ok i.

Definition remove_progress_proto (p : RemoveReplicaProgress) : result string RemoveReplicaProgressProto :=
  validate_progress_fields p;;
  Ok (mkRemoveReplicaProgressProto (as_i32 (remove_phase_proto (rp_phase p))) (rp_attempt_id p) (rp_commit_observed p)
    (rp_commit_observed_unix_seconds p) (rp_connection_absent p) (as_i32 (retirement_proto (rp_target_retirement p)))
    (rp_retirement_expiry_unix_seconds p) (rp_compensation_expiry_unix_seconds p) (rp_error p)
    (rp_current_install_dispatched p)).
Definition try_remove_progress (p : RemoveReplicaProgressProto) : result string RemoveReplicaProgress :=
  phase ← known (rrpp_phase p) "unknown remove-replica phase ";
  phase ← remove_phase_from phase;
  retirement ← known (rrpp_target_retirement p) "unknown target retirement observation ";
  retirement ← retirement_from retirement;
  let value := mkRemoveReplicaProgress phase (rrpp_attempt_id p) (rrpp_commit_observed p)
    (rrpp_commit_observed_unix_seconds p) (rrpp_connection_absent p) retirement (rrpp_retirement_expiry_unix_seconds p)
    (rrpp_compensation_expiry_unix_seconds p) (rrpp_error p) (rrpp_current_install_dispatched p) in
  validate_progress_fields value;;
  Ok value.

(** ** Peer stages *)

(** Strictly sorted by id, hence without duplicates. *)
Definition validate_projected_member (seen : gset ReplicaId * gset string * option ReplicaId)
    (m : ReplicaConfigurationMemberStatus) : result string (gset ReplicaId * gset string * option ReplicaId) :=
  let '(ids, instances, previous_id) := seen in
  reject_if ((cm_id m <=? 0) || empty (cm_instance_id m) || bool_decide (cm_role m = Unknown)
             || bool_decide (cm_id m ∈ ids) || bool_decide (cm_instance_id m ∈ instances)
             || match previous_id with Some id => cm_id m <=? id | None => false end)
    "reduced current projection members are invalid or not strictly sorted";;
  Ok ({[cm_id m]} ∪ ids, {[cm_instance_id m]} ∪ instances, Some (cm_id m)).

Definition validate_reduced_current_projection (s : ReplicaConfigurationStatus) : result string unit :=
  reject_if (negb (bool_decide (cs_mode s = Current))) "reduced current projection is not Current";;
  reject_if ((cs_write_quorum s =? 0) || (Z.of_nat (length (cs_members s)) + 1 <? cs_write_quorum s))
    "reduced current projection write quorum is invalid";;
  try_fold validate_projected_member (∅, ∅, None) (cs_members s);;
  Ok tt.

Definition projection_proto (s : ReplicaConfigurationStatus) : result string ReducedCurrentConfigurationProjectionProto :=
  validate_reduced_current_projection s;;
  Ok (mkReducedCurrentConfigurationProjectionProto (as_i32 (configuration_mode_proto (cs_mode s)))
        (member_status_proto <$> cs_members s) (cs_write_quorum s)).

Definition try_projected_member (m : ReplicaConfigurationMemberStatusProto) :
    result string ReplicaConfigurationMemberStatus :=
  reject_if ((cmsp_id m <=? 0) || empty (cmsp_instance_id m)) "reduced current projection member identity is invalid";;
  role ← known_role (cmsp_role m) "unknown reduced current projection role "
           "reduced current projection member role is unknown";
  Ok (mkReplicaConfigurationMemberStatus (cmsp_id m) (cmsp_instance_id m) role).
Definition try_projection (p : ReducedCurrentConfigurationProjectionProto) : result string ReplicaConfigurationStatus :=
  mode ← known (rccp_mode p) "unknown reduced current projection mode ";
  mode ← configuration_mode_from mode "reduced current projection mode is none";
  members ← try_map try_projected_member (rccp_members p);
  let s := mkReplicaConfigurationStatus mode members (rccp_write_quorum p) in
  validate_reduced_current_projection s;;
  Ok s.

Definition error_too_long (error : option string) : bool :=
  match error with Some e => (MAX_LIFECYCLE_ERROR_BYTES <? String.length e)%nat | None => false end.

Definition build_observation_proto (o : RuntimeBuildObservation) : RuntimeBuildObservationProto :=
  mkRuntimeBuildObservationProto (rb_execution_id o) (rb_build_key o) (rb_target_replica_id o)
    (rb_target_instance_id o) (rb_target_agent_generation o) (as_i32 (build_state_proto (rb_state o)))
    (rb_copy_lsn o) (rb_error o).
Definition try_build_observation (p : RuntimeBuildObservationProto) : result string RuntimeBuildObservation :=
  reject_if (empty (rbop_execution_id p) || empty (rbop_build_key p) || (rbop_target_replica_id p <=? 0)
             || empty (rbop_target_instance_id p)) "runtime build observation identity is invalid";;
  state ← known (rbop_state p) "unknown runtime build state ";
  state ← build_state_from state;
  reject_if (bool_decide (state = BuildCompleted) && none (rbop_copy_lsn p)) "completed runtime build has no copy LSN";;
  reject_if (error_too_long (rbop_error p)) "runtime build error exceeds the protocol bound";;
  generation ← agent_generation_parse (rbop_target_agent_generation p);
  Ok (mkRuntimeBuildObservation (rbop_execution_id p) (rbop_build_key p) (rbop_target_replica_id p)
        (rbop_target_instance_id p) generation state (rbop_copy_lsn p) (rbop_error p)).

Definition stage_request_proto (r : PeerStageRequest) : result string ExecuteLifecycleStageRequest :=
  validate_request r;;
  projection ← try_option projection_proto (pr_reduced_current_projection r);
  Ok (mkExecuteLifecycleStageRequest (pr_protocol_version r) (as_i32 (operation_kind_proto (pr_operation_kind r)))
    (pr_stage_semantic_version r) (pr_operation_id r) (pr_attempt_id r) (pr_message_id r) (pr_input_signature r)
    (as_i32 (peer_stage_proto (pr_stage r))) (pr_sender_replica_id r) (pr_sender_instance_id r)
    (pr_sender_agent_generation r) (pr_sender_control_address r) (pr_parent_action_id r) (pr_parent_action_signature r)
    (pr_target_replica_id r) (pr_target_instance_id r) (pr_expected_target_agent_generation r)
    (pr_expected_target_peer_control_version r) (Some (epoch_proto (pr_epoch r))) (pr_configuration_fence r)
    (pr_build_key r) (pr_copy_lsn r) ((λ mode, as_i32 (remove_mode_proto mode)) <$> pr_removal_mode r)
    (pr_commit_observed_unix_seconds r) (pr_retirement_expiry_unix_seconds r) projection).

Definition try_remove_mode (mode : Z) : result string RemoveReplicaMode :=
  mode ← known mode "unknown remove-replica mode ";
  remove_mode_from mode.

Definition try_stage_request (p : ExecuteLifecycleStageRequest) : result string PeerStageRequest :=
  reject_if (empty (elsr_operation_id p) || empty (elsr_attempt_id p) || empty (elsr_message_id p)
             || empty (elsr_input_signature p) || empty (elsr_parent_action_id p)
             || empty (elsr_parent_action_signature p) || empty (elsr_sender_control_address p)
             || empty (elsr_configuration_fence p)) "peer stage request has missing required text";;
  reject_if ((elsr_sender_replica_id p <=? 0) || (elsr_target_replica_id p <=? 0)
             || empty (elsr_sender_instance_id p) || empty (elsr_target_instance_id p))
    "peer stage request identity is invalid";;
  stage ← try_peer_stage (elsr_stage p);
  kind ← known (elsr_operation_kind p) "unknown peer operation kind ";
  kind ← operation_kind_from kind;
  removal_mode ← try_option try_remove_mode (elsr_removal_mode p);
  projection ← try_option try_projection (elsr_reduced_current_projection p);
  sender_generation ← agent_generation_parse (elsr_sender_agent_generation p);
  target_generation ← agent_generation_parse (elsr_expected_target_agent_generation p);
  epoch ← ok_or (elsr_epoch p) "peer stage request has no epoch";
  let r := mkPeerStageRequest (elsr_protocol_version p) kind (elsr_stage_semantic_version p) (elsr_operation_id p)
    (elsr_attempt_id p) (elsr_message_id p) (elsr_input_signature p) stage (elsr_sender_replica_id p)
    (elsr_sender_instance_id p) sender_generation (elsr_sender_control_address p) (elsr_parent_action_id p)
    (elsr_parent_action_signature p) (elsr_target_replica_id p) (elsr_target_instance_id p) target_generation
    (elsr_expected_target_peer_control_version p) (epoch_from epoch) (elsr_configuration_fence p) (elsr_build_key p)
    (elsr_copy_lsn p) removal_mode (elsr_commit_observed_unix_seconds p) (elsr_retirement_expiry_unix_seconds p)
    projection in
  validate_request r;;
  Ok r.

Definition stage_observation_proto (o : PeerStageObservation) : PeerStageObservationProto :=
  mkPeerStageObservationProto (po_protocol_version o) (as_i32 (operation_kind_proto (po_operation_kind o)))
    (po_stage_semantic_version o) (po_message_id o) (po_input_signature o) (as_i32 (peer_stage_proto (po_stage o)))
    (as_i32 (stage_state_proto (po_state o))) (po_target_agent_generation o) (po_target_peer_control_version o)
    (po_error o).

(** The states that carry an error. *)
Definition failed_stage (s : PeerStageState) : bool :=
  match s with StageFailed | StageStale | StageRejected | StageConflict => true | _ => false end.

Definition try_stage_observation (p : PeerStageObservationProto) : result string PeerStageObservation :=
  reject_if (empty (psop_message_id p) || empty (psop_input_signature p)) "peer stage observation identity is missing";;
  state ← known (psop_state p) "unknown peer stage state ";
  state ← stage_state_from state;
  reject_if (negb (eqb (failed_stage state) (negb (none (psop_error p)))))
    "peer stage observation terminal error is malformed";;
  reject_if (error_too_long (psop_error p)) "peer stage error exceeds the protocol bound";;
  kind ← known (psop_operation_kind p) "unknown peer operation kind ";
  kind ← operation_kind_from kind;
  stage ← try_peer_stage (psop_stage p);
  generation ← agent_generation_parse (psop_target_agent_generation p);
  Ok (mkPeerStageObservation (psop_protocol_version p) kind (psop_stage_semantic_version p) (psop_message_id p)
        (psop_input_signature p) stage state generation (psop_target_peer_control_version p) (psop_error p)).

Definition lifecycle_status_proto (s : PeerLifecycleStatus) : GetLifecycleStatusResponse :=
  mkGetLifecycleStatusResponse (pl_protocol_version s) (pl_target_replica_id s) (pl_target_instance_id s)
    (pl_agent_generation s) (pl_peer_control_version s) (as_i32 (role_proto (pl_role s)))
    (Some (epoch_proto (pl_epoch s))) (pl_healthy s) (pl_current_progress s)
    (stage_observation_proto <$> pl_current_action s) (stage_observation_proto <$> pl_retained_terminal_actions s).
Definition try_lifecycle_status (p : GetLifecycleStatusResponse) : result string PeerLifecycleStatus :=
  reject_if ((glsr_target_replica_id p <=? 0) || empty (glsr_target_instance_id p))
    "peer status target identity is invalid";;
  role ← known (glsr_role p) "unknown peer runtime role ";
  current ← try_option try_stage_observation (glsr_current_action p);
  retained ← try_map try_stage_observation (glsr_retained_terminal_actions p);
  generation ← agent_generation_parse (glsr_agent_generation p);
  epoch ← ok_or (glsr_epoch p) "peer status has no epoch";
  Ok (mkPeerLifecycleStatus (glsr_protocol_version p) (glsr_target_replica_id p) (glsr_target_instance_id p)
        generation (glsr_peer_control_version p) (role_from role) (epoch_from epoch) (glsr_healthy p)
        (glsr_current_progress p) current retained).

(** ** Correlated actions *)

Definition correlated_action_proto (a : DurableReplicaAction) : result string ActionProto :=
  match a with
  | ActAddReplicaIntent intent => Ok (AddReplicaIntentAction (add_intent_proto intent))
  | ActRemoveReplicaIntent intent => p ← remove_intent_proto intent; Ok (RemoveReplicaIntentAction p)
  | ActOpen mode => Ok (OpenProto (as_i32 (open_mode_proto mode)))
  | ActClose => Ok CloseProto
  | ActRevokeWriteStatus => Ok RevokeWriteStatusProto
  | ActChangeRole epoch role => Ok (ChangeRoleProto (Some (epoch_proto epoch)) (as_i32 (role_proto role)))
  | ActUpdateEpoch epoch => Ok (UpdateEpochProto (Some (epoch_proto epoch)))
  | ActUpdateCatchUpConfiguration current previous =>
      Ok (UpdateCatchUpConfigurationProto (Some (replica_set_config_proto current)) (Some (replica_set_config_proto previous)))
  | ActWaitForCatchUpQuorum mode => Ok (WaitForCatchUpQuorumProto (as_i32 (quorum_mode_proto mode)))
  | ActUpdateCurrentConfiguration current => Ok (UpdateCurrentConfigurationProto (Some (replica_set_config_proto current)))
  | ActBuildReplica replica => Ok (BuildReplicaProto (Some (replica_info_proto replica)))
  | ActRemoveReplica id inst => Ok (RemoveReplicaProto id inst)
  | ActOnDataLoss epoch => Ok (OnDataLossProto (Some (epoch_proto epoch)))
  | ActRecordElectionConfiguration c => Ok (RecordElectionConfigurationProto (Some (election_configuration_proto c)))
  end.

Definition required_config (c : option ReplicaSetConfigProto) (missing : string) : result string ReplicaSetConfig :=
  c ← ok_or c missing;
  try_replica_set_config c.

Definition strict_correlated_action (p : ActionProto) : result string DurableReplicaAction :=
  match p with
  | AddReplicaIntentAction intent => i ← try_add_intent intent; Ok (ActAddReplicaIntent i)
  | RemoveReplicaIntentAction intent => i ← try_remove_intent intent; Ok (ActRemoveReplicaIntent i)
  | RevokeWriteStatusProto => Ok ActRevokeWriteStatus
  | ChangeRoleProto epoch role =>
      role ← known_role role "unknown role " "change-role target role is unknown";
      epoch ← ok_or epoch "missing change-role target epoch";
      Ok (ActChangeRole (epoch_from epoch) role)
  | UpdateEpochProto epoch => epoch ← ok_or epoch "missing update-epoch target epoch"; Ok (ActUpdateEpoch (epoch_from epoch))
  | UpdateCatchUpConfigurationProto current previous =>
      current ← required_config current "missing current catch-up configuration";
      previous ← required_config previous "missing previous catch-up configuration";
      Ok (ActUpdateCatchUpConfiguration current previous)
  | WaitForCatchUpQuorumProto mode =>
      mode ← known mode "unknown quorum mode "; Ok (ActWaitForCatchUpQuorum (quorum_mode_from mode))
  | UpdateCurrentConfigurationProto current =>
      current ← required_config current "missing current configuration";
      Ok (ActUpdateCurrentConfiguration current)
  | OpenProto mode => mode ← known mode "unknown open mode "; Ok (ActOpen (open_mode_from mode))
  | CloseProto => Ok ActClose
  | BuildReplicaProto replica =>
      replica ← ok_or replica "missing build replica";
      replica ← try_replica_info replica;
      Ok (ActBuildReplica replica)
  | RemoveReplicaProto id inst =>
      reject_if ((id <=? 0) || empty inst) "remove-replica target identity is invalid";;
      Ok (ActRemoveReplica id inst)
  | OnDataLossProto epoch => epoch ← ok_or epoch "missing data-loss epoch"; Ok (ActOnDataLoss (epoch_from epoch))
  | RecordElectionConfigurationProto c =>
      c ← ok_or c "missing election configuration";
      c ← try_election_configuration c;
      Ok (ActRecordElectionConfiguration c)
  end.

Definition correlated_request_proto (r : CorrelatedControlActionRequest) :
    result string ExecuteCorrelatedControlActionRequest :=
  action ← correlated_action_proto (cr_action r);
  Ok (mkExecuteCorrelatedControlActionRequest (cr_protocol_version r) (cr_action_id r) (cr_input_signature r)
        (cr_target_replica_id r) (cr_target_instance_id r) (cr_expected_agent_generation r)
        (Some (cr_expected_control_version r)) (Some (epoch_proto (cr_observed_runtime_epoch r))) (Some action)).
Definition try_correlated_request (p : ExecuteCorrelatedControlActionRequest) :
    result string CorrelatedControlActionRequest :=
  reject_if (empty (ecar_action_id p)) "missing correlated action ID";;
  reject_if (empty (ecar_input_signature p)) "missing correlated action input signature";;
  reject_if (ecar_target_replica_id p <=? 0) "target replica ID must be positive";;
  reject_if (empty (ecar_target_instance_id p)) "missing target replica incarnation";;
  generation ← agent_generation_parse (ecar_expected_agent_generation p);
  control_version ← ok_or (ecar_expected_agent_control_version p) "missing expected agent control version";
  epoch ← ok_or (ecar_observed_runtime_epoch p) "missing observed runtime epoch";
  action ← ok_or (ecar_action p) "missing correlated control action";
  action ← strict_correlated_action action;
  Ok (mkCorrelatedControlActionRequest (ecar_protocol_version p) (ecar_action_id p) (ecar_input_signature p)
        (ecar_target_replica_id p) (ecar_target_instance_id p) generation control_version (epoch_from epoch) action).

(** *** Observations *)

Definition correlated_observation_proto (o : CorrelatedActionObservation) :
    result string CorrelatedActionObservationProto :=
  let d := co_action o in
  let action_result := match do_result d with Some r => action_result_proto r | None => DURABLE_ACTION_RESULT_NONE end in
  let error_class := match do_error_class d with Some c => error_class_proto c | None => DURABLE_ACTION_ERROR_NONE end in
  progress ← try_option remove_progress_proto (do_remove_replica_progress d);
  Ok (mkCorrelatedActionObservationProto (co_generation o) (co_control_version o) (do_action_id d) (do_signature d)
        (as_i32 (action_state_proto (do_state d))) (default "" (do_error d)) (as_i32 action_result) (as_i32 error_class)
        (add_progress_proto <$> do_add_replica_progress d) progress).

(** What an observation of this state may carry. *)
Definition check_terminal_data (state : DurableActionState) (error_class : option DurableActionErrorClass)
    (error : option string) (res : option DurableActionResult) : result string unit :=
  match state with
  | Scheduled | InProgress =>
      reject_if (negb (none error_class) || negb (none error) || negb (none res))
        "non-terminal correlated action carries terminal data"
  | Completed => reject_if (negb (none error_class) || negb (none error)) "completed correlated action carries an error"
  | Failed =>
      reject_if (none error_class || none error || negb (none res)) "failed correlated action has malformed terminal data"
  end.

Definition check_result_progress (res : option DurableActionResult) (progress : option RemoveReplicaProgress) :
    result string unit :=
  match res, progress with
  | Some (ResRemoveReplica r), Some p => validate_terminal p r
  | Some (ResRemoveReplica _), None => Err "remove-replica terminal result has no progress"
  | Some _, Some _ => Err "non-removal result carries remove-replica progress"
  | _, _ => Ok tt
  end.

Definition try_correlated_observation (p : CorrelatedActionObservationProto) :
    result string CorrelatedActionObservation :=
  reject_if (empty (caop_action_id p)) "missing correlated action observation ID";;
  reject_if (empty (caop_input_signature p)) "missing correlated action observation signature";;
  state ← known (caop_state p) "unknown durable action state ";
  state ← action_state_from state;
  res ← known (caop_result p) "unknown durable action result ";
  error_class ← known (caop_error_class p) "unknown durable action error class ";
  let error_class := error_class_from error_class in
  let error := if empty (caop_error p) then None else Some (caop_error p) in
  add_progress ← try_option try_add_progress (caop_add_replica_progress p);
  remove_progress ← try_option try_remove_progress (caop_remove_replica_progress p);
  let res := action_result_from res in
  check_terminal_data state error_class error res;;
  check_result_progress res remove_progress;;
  generation ← agent_generation_parse (caop_agent_generation p);
  Ok (mkCorrelatedActionObservation generation (caop_agent_control_version p)
        (mkDurableActionObservation (caop_action_id p) (caop_input_signature p) state error_class error res
           add_progress remove_progress)).

Definition fault_record_proto (r : LocalFaultRecord) : LocalFaultRecordProto :=
  mkLocalFaultRecordProto (lf_sequence r) (as_i32 (fault_type_proto (lf_fault_type r))).
Definition try_fault_record (p : LocalFaultRecordProto) : result string LocalFaultRecord :=
  fault_type ← known (lfrp_fault_type p) "unknown local fault type ";
  fault_type ← fault_type_from fault_type;
  Ok (mkLocalFaultRecord (lfrp_sequence p) fault_type).

(** *** Persisted payloads *)

Definition agent_owned (a : DurableReplicaAction) : bool :=
  match a with ActAddReplicaIntent _ | ActRemoveReplicaIntent _ => true | _ => false end.

(** prost's encoding of a request. *)
Context (encode_to_vec : ExecuteCorrelatedControlActionRequest → list Byte.byte)
  (decode : list Byte.byte → result string ExecuteCorrelatedControlActionRequest).

Definition payload_request (action : ActionProto) : ExecuteCorrelatedControlActionRequest :=
  mkExecuteCorrelatedControlActionRequest 0 "" "" 0 "" "" None None (Some action).

Definition encode_direct_correlated_action_payload (a : DurableReplicaAction) : result string string :=
  reject_if (agent_owned a) "agent-owned replica lifecycle intent has no direct payload projection";;
  action ← correlated_action_proto a;
  Ok (push_hex (encode_to_vec (payload_request action))).

Definition nibble (c : Ascii.ascii) : N :=
  let n := Ascii.N_of_ascii c in
  (if (48 <=? n) && (n <=? 57) then n - 48 else n - 97 + 10)%N.

Fixpoint unhex (s : string) : list Byte.byte :=
  match s with
  | String a (String b s) => default Byte.x00 (Byte.of_N (N.lor (N.shiftl (nibble a) 4) (nibble b))) :: unhex s
  | _ => []
  end.

Definition decode_direct_correlated_action_payload (encoded : string) : result string DurableReplicaAction :=
  reject_if (empty encoded || negb (Nat.even (String.length encoded)) || negb (string_forallb lower_hex_byte encoded))
    "persisted correlated action payload is not valid hexadecimal";;
  request ← map_err (λ error, "invalid persisted correlated action payload: " +:+ error) (decode (unhex encoded));
  action ← ok_or (ecar_action request) "persisted correlated action payload is missing action";
  a ← strict_correlated_action action;
  reject_if (agent_owned a) "persisted replica lifecycle payload projection is unsupported";;
  Ok a.

End endpoints.
