(* ===== verification/Wire.v ===== *)
(** Round trips over the wire: what the conversions of [Convert] write, they
    read back, and nothing else is read as it. *)

From S2P Require Import Prelude Types Identity Lifecycle AddReplica RemoveReplica Control Proto Convert.

Set Default Goal Selector "!".

(** ** Numbers of enums *)

Lemma known_as_i32 {E} `{ProtoEnumLaws E} (v : E) what : known (as_i32 v) what = Ok v.
Proof. unfold known. by rewrite try_i32_as_i32. Qed.
Lemma known_Ok {E} `{ProtoEnum E} n what (v : E) : known n what = Ok v → n = as_i32 v.
Proof. unfold known. intros Hv%ok_or_Ok%try_i32_Some. done. Qed.

Lemma role_from_proto r : role_from (role_proto r) = r.
Proof. by destruct r. Qed.
Lemma role_proto_from r : role_proto (role_from r) = r.
Proof. by destruct r. Qed.

Lemma known_role_proto r what unknown : r ≠ Unknown → known_role (as_i32 (role_proto r)) what unknown = Ok r.
Proof. intros Hr. unfold known_role. rewrite known_as_i32. by destruct r. Qed.
Lemma known_role_Ok n what unknown r : known_role n what unknown = Ok r → r ≠ Unknown ∧ n = as_i32 (role_proto r).
Proof.
  unfold known_role. intros (v & ->%known_Ok & Hv)%bind_Ok. destruct v; simpl in Hv; try done; injection Hv as <-; done.
Qed.

(** The enums whose conversion is one-to-one. *)
Class Exact {A E} (to : A → E) (from : E → result string A) : Prop := {
  exact_to : ∀ a, from (to a) = Ok a;
  exact_from : ∀ e a, from e = Ok a → to a = e;
}.
Ltac exact_enum := split; [by intros []|intros [] a H; try done; injection H as <-; done].
#[export] Instance add_mode_exact : Exact add_mode_proto add_mode_from.
Proof. exact_enum. Qed.
#[export] Instance add_phase_exact : Exact add_phase_proto add_phase_from.
Proof. exact_enum. Qed.
#[export] Instance remove_mode_exact : Exact remove_mode_proto remove_mode_from.
Proof. exact_enum. Qed.
#[export] Instance remove_phase_exact : Exact remove_phase_proto remove_phase_from.
Proof. exact_enum. Qed.
#[export] Instance retirement_exact : Exact retirement_proto retirement_from.
Proof. exact_enum. Qed.
#[export] Instance build_state_exact : Exact build_state_proto build_state_from.
Proof. exact_enum. Qed.
#[export] Instance operation_kind_exact : Exact operation_kind_proto operation_kind_from.
Proof. exact_enum. Qed.
#[export] Instance stage_state_exact : Exact stage_state_proto stage_state_from.
Proof. exact_enum. Qed.
#[export] Instance action_state_exact : Exact action_state_proto action_state_from.
Proof. exact_enum. Qed.
#[export] Instance fault_type_exact : Exact fault_type_proto fault_type_from.
Proof. exact_enum. Qed.
#[export] Instance configuration_mode_exact none : Exact configuration_mode_proto (λ m, configuration_mode_from m none).
Proof. exact_enum. Qed.

Lemma known_exact {A E} `{ProtoEnumLaws E, !@Exact A E to from} a what {B} (k : A → result string B) :
  (e ← known (as_i32 (to a)) what; a ← from e; k a) = k a.
Proof. rewrite known_as_i32. simpl. by rewrite exact_to. Qed.

(** Reading an enum: the value read is the one whose number was there. *)
Lemma known_exact_Ok {A E} `{ProtoEnum E, !@Exact A E to from} n what {B} (k : A → result string B) b :
  (e ← known n what; a ← from e; k a) = Ok b → ∃ a, n = as_i32 (to a) ∧ k a = Ok b.
Proof.
  intros (e & ->%known_Ok & H')%bind_Ok. apply bind_Ok in H' as (a & <-%exact_from & Hk). by exists a.
Qed.

Lemma peer_stage_exact s : try_peer_stage (as_i32 (peer_stage_proto s)) = Ok s.
Proof. unfold try_peer_stage. rewrite known_as_i32. by destruct s. Qed.
Lemma try_peer_stage_Ok n s : try_peer_stage n = Ok s → n = as_i32 (peer_stage_proto s).
Proof. unfold try_peer_stage. intros (v & ->%known_Ok & Hv)%bind_Ok. by destruct v; simpl in Hv; try done; injection Hv as <-. Qed.

Lemma action_result_exact r : action_result_from (action_result_proto r) = Some r.
Proof. by destruct r as [[]|[]|[]]. Qed.
Lemma error_class_exact c : error_class_from (error_class_proto c) = Some c.
Proof. by destruct c. Qed.
Lemma epoch_exact e : epoch_from (epoch_proto e) = e.
Proof. by destruct e. Qed.
Lemma epoch_proto_from e : epoch_proto (epoch_from e) = e.
Proof. by destruct e. Qed.

(** ** Lists and options *)

Lemma try_option_fmap {E A B} (f : A → result E B) (g : B → A) o :
  (∀ x, o = Some x → f (g x) = Ok x) → try_option f (g <$> o) = Ok o.
Proof. destruct o as [x|]; simpl; [|done]. intros H. by rewrite H. Qed.
Lemma try_option_Ok {E A B} (f : A → result E B) o o' :
  try_option f o = Ok o' → match o, o' with Some x, Some y => f x = Ok y | None, None => True | _, _ => False end.
Proof. destruct o as [x|]; simpl; [|by intros [= <-]]. intros (y & Hy & [= <-])%bind_Ok. done. Qed.

Lemma Forall2_fmap_inv {A B} (g : B → A) (P : B → Prop) l l' :
  Forall2 (λ p x, g x = p ∧ P x) l l' → l = g <$> l' ∧ Forall P l'.
Proof.
  induction 1 as [|p x l l' [<- Hx] _ [-> IH]]; [by split|]. split; [done|by constructor].
Qed.

(** Distinct items, as they are seen. *)
Section seen.
  Context {P X : Type} (f : gset ReplicaId * gset string → P → result string (gset ReplicaId * gset string * X))
    (g : X → P) (id : X → ReplicaId) (inst : X → string).

Lemma try_map_seen_fmap l ids insts :
  (∀ x ids insts, x ∈ l → id x ∉ ids → inst x ∉ insts →
     f (ids, insts) (g x) = Ok ({[id x]} ∪ ids, {[inst x]} ∪ insts, x)) →
  NoDup (id <$> l) → NoDup (inst <$> l) → (∀ x, x ∈ l → (id x ∉ ids) ∧ (inst x ∉ insts)) →
  try_map_seen f (ids, insts) (g <$> l) = Ok l.
Proof.
  revert ids insts. induction l as [|x l IH]; intros ids insts Hf Hid Hinst Hs; [done|].
  rewrite fmap_cons. cbn [try_map_seen].
  apply NoDup_cons in Hid as [Hidx Hid]. apply NoDup_cons in Hinst as [Hinstx Hinst].
  destruct (Hs x) as [Hx1 Hx2]; [left|]. rewrite Hf by (done || left). cbn [mbind result_bind].
  rewrite IH; [done|..|done|done|].
  - intros y ids' insts' Hy. apply Hf. by right.
  - intros y Hy. destruct (Hs y) as [H1 H2]; [by right|].
    assert (id y ≠ id x) by (intros He; apply Hidx; rewrite <-He; by apply list_elem_of_fmap_2).
    assert (inst y ≠ inst x) by (intros He; apply Hinstx; rewrite <-He; by apply list_elem_of_fmap_2). set_solver.
Qed.
End seen.

Lemma try_map_seen_Ok {E S P X} (f : S → P → result E (S * X)) (Q : P → X → Prop) s l l' :
  (∀ s p s' x, f s p = Ok (s', x) → Q p x) → try_map_seen f s l = Ok l' → Forall2 Q l l'.
Proof.
  intros Hf. revert s l'. induction l as [|p l IH]; intros s l' H; simpl in H; [injection H as <-; constructor|].
  apply bind_Ok in H as ([s' x] & Hx & H). apply bind_Ok in H as (xs & Hxs & H). injection H as <-.
  constructor; [by eapply Hf|by eapply IH].
Qed.

(** ** Configurations *)

(** A replica that the wire admits in a configuration. *)
Definition wire_info (r : ReplicaInfo) : Prop := 0 < ri_id r ∧ ri_instance_id r ≠ "" ∧ ri_role r ≠ Unknown.

Lemma replica_info_exact r : wire_info r → try_replica_info (replica_info_proto r) = Ok r.
Proof.
  intros (Hid & Hinst & Hrole). unfold try_replica_info, replica_info_proto, empty. simpl.
  rewrite (bool_decide_eq_false_2 (ri_instance_id r = "")) by done. rewrite orb_false_r, (proj2 (Z.leb_gt _ _)) by done. simpl.
  rewrite known_role_proto by done. simpl. rewrite known_as_i32. simpl. destruct r as [? ? ? [] ? ? ? ?]; done.
Qed.
Lemma try_replica_info_Ok p r : try_replica_info p = Ok r → p = replica_info_proto r ∧ wire_info r.
Proof.
  unfold try_replica_info, wire_info, empty. intros ([] & Hc%reject_if_Ok & H)%bind_Ok.
  apply bind_Ok in H as (role & (Hr & He)%known_role_Ok & H). apply bind_Ok in H as (st & Hs%known_Ok & [= <-]).
  guards. split; [|split_and!; (done || simpl; lia)]. destruct p. simpl in *. subst. unfold replica_info_proto. simpl.
  f_equal. by destruct st.
Qed.

Definition wire_config (c : ReplicaSetConfig) : Prop := Forall wire_info (rc_members c).
Lemma replica_set_config_exact c : wire_config c → try_replica_set_config (replica_set_config_proto c) = Ok c.
Proof.
  intros H. unfold try_replica_set_config, replica_set_config_proto. simpl. rewrite try_map_fmap; [by destruct c|].
  eapply Forall_impl; [exact H|]. apply replica_info_exact.
Qed.
Lemma try_replica_set_config_Ok p c :
  try_replica_set_config p = Ok c → p = replica_set_config_proto c ∧ wire_config c.
Proof.
  unfold try_replica_set_config. intros (ms & Hm & [= <-])%bind_Ok.
  eapply (try_map_Ok _ (λ p x, replica_info_proto x = p ∧ wire_info x)) in Hm; [|by intros p' x [-> ?]%try_replica_info_Ok].
  apply Forall2_fmap_inv in Hm as [Hl Hw]. split; [|done]. destruct p. simpl in *. by subst.
Qed.

Lemma required_config_exact c missing :
  wire_config c → required_config (Some (replica_set_config_proto c)) missing = Ok c.
Proof. apply replica_set_config_exact. Qed.
Lemma required_config_Ok o missing c :
  required_config o missing = Ok c → o = Some (replica_set_config_proto c) ∧ wire_config c.
Proof. unfold required_config. intros (p & ->%ok_or_Ok & [-> ?]%try_replica_set_config_Ok)%bind_Ok. done. Qed.

(** *** The configuration an election keeps *)

Definition wire_election_status (s : ReplicaConfigurationStatus) : Prop :=
  Forall (λ m, cm_instance_id m ≠ "" ∧ cm_role m ≠ Unknown) (cs_members s) ∧
  cs_members s ≠ [] ∧ cs_write_quorum s ≠ 0 ∧ cs_write_quorum s ≤ Z.of_nat (length (cs_members s)).

Lemma election_member_exact m :
  cm_instance_id m ≠ "" ∧ cm_role m ≠ Unknown → try_election_member (member_status_proto m) = Ok m.
Proof.
  intros [Hi Hr]. unfold try_election_member, member_status_proto, empty. simpl.
  rewrite (bool_decide_eq_false_2 (cm_instance_id m = "")) by done. simpl. rewrite known_role_proto by done. by destruct m.
Qed.
Lemma try_election_member_Ok p m :
  try_election_member p = Ok m → member_status_proto m = p ∧ cm_instance_id m ≠ "" ∧ cm_role m ≠ Unknown.
Proof.
  unfold try_election_member, empty. intros ([] & Hc%reject_if_Ok & H)%bind_Ok.
  apply bind_Ok in H as (role & (Hr & He)%known_role_Ok & [= <-]). guards.
  split; [|done]. destruct p. simpl in *. by subst.
Qed.

Lemma configuration_status_exact s :
  wire_election_status s → try_configuration_status (configuration_status_proto s) = Ok s.
Proof.
  intros (Hm & Hne & Hz & Hq). unfold try_configuration_status, configuration_status_proto. simpl.
  rewrite known_exact, try_map_fmap; [|eapply Forall_impl; [exact Hm|apply election_member_exact]]. simpl.
  rewrite (bool_decide_eq_false_2 (cs_members s = [])) by done. simpl.
  rewrite (proj2 (Z.eqb_neq _ _)), (proj2 (Z.ltb_ge _ _)) by lia. by destruct s.
Qed.
Lemma try_configuration_status_Ok p s :
  try_configuration_status p = Ok s → configuration_status_proto s = p ∧ wire_election_status s.
Proof.
  unfold try_configuration_status. intros (m & He & H)%known_exact_Ok.
  apply bind_Ok in H as (ms & Hm & H). apply bind_Ok in H as ([] & Hn%reject_if_Ok & H). apply bind_Ok in H as ([] & Hc%reject_if_Ok & [= <-]).
  eapply (try_map_Ok _ (λ p x, member_status_proto x = p ∧ _)) in Hm; [|exact try_election_member_Ok].
  apply Forall2_fmap_inv in Hm as [Hl Hw]. guards. split; [|by split; [done|]; split; [done|simpl; lia]]. destruct p. simpl in *. by subst.
Qed.

Definition wire_election (c : ReplicaElectionConfiguration) : Prop :=
  wire_election_status (ec_current c) ∧ (∀ s, ec_previous c = Some s → wire_election_status s).
Lemma election_configuration_exact c :
  wire_election c → try_election_configuration (election_configuration_proto c) = Ok c.
Proof.
  intros [Hc Hp]. unfold try_election_configuration, election_configuration_proto. simpl.
  rewrite configuration_status_exact by done. simpl. rewrite try_option_fmap; [by destruct c|].
  intros s Hs. by apply configuration_status_exact, Hp.
Qed.
Lemma try_election_configuration_Ok p c :
  try_election_configuration p = Ok c → p = election_configuration_proto c ∧ wire_election c.
Proof.
  unfold try_election_configuration. intros (cur & Hc%ok_or_Ok & H)%bind_Ok.
  apply bind_Ok in H as (s & Hs & H). apply bind_Ok in H as (o & Ho%try_option_Ok & [= <-]).
  apply try_configuration_status_Ok in Hs as [<- Hs]. destruct p as [c' o']. unfold election_configuration_proto. simpl in *.
  subst. unfold wire_election. simpl. destruct o' as [p|], o as [s'|]; try done. apply try_configuration_status_Ok in Ho as [<- Ho]. split; [done|]. split; [done|]. by intros ? [= <-].
Qed.

(** *** Descriptors *)

Definition wire_member (m : ConfigurationMemberDescriptor) : Prop :=
  0 < cd_id m ∧ cd_instance_id m ≠ "" ∧ cd_replicator_address m ≠ "" ∧ cd_role m ≠ Unknown ∧ cd_role m ≠ Primary.
Record wire_descriptor (d : ConfigurationDescriptor) : Prop := {
  wd_ids : NoDup (cd_id <$> cfg_members d);
  wd_instances : NoDup (cd_instance_id <$> cfg_members d);
  wd_members : Forall wire_member (cfg_members d);
  wd_quorum : cfg_write_quorum d ≠ 0;
}.

Lemma progress_source_exact m : try_progress_source (member_descriptor_proto m) = Ok (cd_progress m).
Proof.
  unfold try_progress_source, member_descriptor_proto. by destruct (cd_progress m).
Qed.
Lemma member_descriptor_exact m ids insts :
  wire_member m → cd_id m ∉ ids → cd_instance_id m ∉ insts →
  try_member_descriptor (ids, insts) (member_descriptor_proto m) = Ok ({[cd_id m]} ∪ ids, {[cd_instance_id m]} ∪ insts, m).
Proof.
  intros (Hid & Hinst & Ha & Hr1 & Hr2) Hi1 Hi2. unfold try_member_descriptor. rewrite progress_source_exact.
  assert (cmdp_id (member_descriptor_proto m) = cd_id m ∧ cmdp_instance_id (member_descriptor_proto m) = cd_instance_id m ∧
    cmdp_role (member_descriptor_proto m) = as_i32 (role_proto (cd_role m)) ∧
    cmdp_status (member_descriptor_proto m) = as_i32 (replica_status_proto (cd_status m)) ∧
    cmdp_replicator_address (member_descriptor_proto m) = cd_replicator_address m ∧
    cmdp_must_catch_up (member_descriptor_proto m) = cd_must_catch_up m) as (-> & -> & -> & -> & -> & ->).
  { unfold member_descriptor_proto. by destruct (cd_progress m). }
  unfold empty. rewrite (proj2 (Z.leb_gt _ _)), !bool_decide_eq_false_2 by done. simpl. rewrite !known_as_i32. simpl.
  destruct m as [? ? [] [] ? ? ?]; simpl in *; try done.
Qed.
Lemma try_member_descriptor_Ok seen p seen' m :
  try_member_descriptor seen p = Ok (seen', m) → member_descriptor_proto m = p ∧ wire_member m.
Proof.
  destruct seen as [ids insts]. unfold try_member_descriptor, empty. intros ([] & H1%reject_if_Ok & H)%bind_Ok.
  apply bind_Ok in H as ([] & H2%reject_if_Ok & H). apply bind_Ok in H as ([] & H3%reject_if_Ok & H).
  apply bind_Ok in H as (role & Hr%known_Ok & H). apply bind_Ok in H as ([] & H4%reject_if_Ok & H).
  apply bind_Ok in H as (st & Hs%known_Ok & H). apply bind_Ok in H as (pr & Hp & [= <- <-]). guards.
  split.
  - unfold try_progress_source in Hp. apply bind_Ok in Hp as (src & Hsrc%known_Ok & Hp). destruct p. simpl in *. subst.
    unfold member_descriptor_proto. simpl. destruct src; simpl in Hp; [done| |].
    + injection Hp as <-. by destruct role, st.
    + apply bind_Ok in Hp as ([] & Hz%reject_if_Ok & [= <-]). guards. subst. by destruct role, st.
  - split_and!; simpl; (lia || done || by destruct role).
Qed.

Lemma configuration_descriptor_exact d :
  wire_descriptor d → try_configuration_descriptor (configuration_descriptor_proto d) = Ok d.
Proof.
  intros [Hi1 Hi2 Hm Hq]. unfold try_configuration_descriptor, configuration_descriptor_proto. simpl.
  rewrite (try_map_seen_fmap _ _ cd_id cd_instance_id); [|..|done|done|set_solver].
  - simpl. rewrite (proj2 (Z.eqb_neq _ _)) by done. by destruct d.
  - intros m ids insts Hin. rewrite Forall_forall in Hm. by apply member_descriptor_exact, Hm.
Qed.
Lemma try_configuration_descriptor_Ok p d :
  try_configuration_descriptor p = Ok d → p = configuration_descriptor_proto d.
Proof.
  unfold try_configuration_descriptor. intros (ms & Hm & H)%bind_Ok. apply bind_Ok in H as ([] & _ & [= <-]).
  eapply (try_map_seen_Ok _ (λ p x, member_descriptor_proto x = p ∧ wire_member x)) in Hm;
    [|intros ????; apply try_member_descriptor_Ok].
  apply Forall2_fmap_inv in Hm as [Hl _]. destruct p. simpl in *. by subst.
Qed.
Lemma required_descriptor_exact d missing :
  wire_descriptor d → required_descriptor (Some (configuration_descriptor_proto d)) missing = Ok d.
Proof. apply configuration_descriptor_exact. Qed.
Lemma required_descriptor_Ok o missing d :
  required_descriptor o missing = Ok d → o = Some (configuration_descriptor_proto d).
Proof. unfold required_descriptor. intros (p & ->%ok_or_Ok & ->%try_configuration_descriptor_Ok)%bind_Ok. done. Qed.

(** ** Intents *)

Definition generation_ok (g : AgentGeneration) : Prop := agent_generation_parse g = Ok g.
Lemma generation_parse_Ok v g : agent_generation_parse v = Ok g → v = g ∧ generation_ok g.
Proof.
  unfold generation_ok, agent_generation_parse. intros H. assert (v = g) as ->; [|done].
  by apply bind_Ok in H as ([] & _ & [= ->]).
Qed.

Lemma add_descriptor_wire d : validate_add_descriptor d = Ok tt → wire_descriptor d.
Proof.
  unfold validate_add_descriptor. intros ([] & Hq%reject_if_Ok & H)%bind_Ok. apply bind_Ok in H as (s & Hs & _).
  apply add_members_valid in Hs as (H1 & H2 & H3). guards. split; [done|done| |lia].
  apply Forall_forall. intros m Hm. destruct (H3 m Hm) as ((? & ? & ? & Hr) & _). unfold wire_member. by rewrite Hr.
Qed.

(** A validated intent of known generations travels unchanged. *)
Definition wire_add (i : AddReplicaIntent) : Prop :=
  validate_add_intent i = Ok tt ∧ generation_ok (ai_primary_agent_generation i) ∧ generation_ok (ai_target_agent_generation i).

Lemma add_intent_exact i : wire_add i → try_add_intent (add_intent_proto i) = Ok i.
Proof.
  intros (Hv & Hg1 & Hg2). pose proof Hv as H. unfold validate_add_intent in H.
  apply bind_Ok in H as ([] & Hid%reject_if_Ok & H). apply bind_Ok in H as ([] & Hds%try_for_each_Ok & H).
  apply bind_Ok in H as ([] & _ & H). apply bind_Ok in H as ([] & _ & Hmode).
  apply Forall_cons in Hds as [Hd1 Hds]. apply Forall_cons in Hds as [Hd2 Hds]. apply Forall_cons in Hds as [Hd3 _].
  apply add_descriptor_wire in Hd1, Hd2, Hd3. unfold empty in Hid. guards.
  assert (match ai_mode i with ScaleUp => ai_retired_instance_id i = None | Rebuild => ∃ r, ai_retired_instance_id i = Some r end) as Hr.
  { unfold validate_add_mode in Hmode. destruct (ai_mode i).
    - apply reject_if_Ok, orb_false_elim in Hmode as [Hn _]. by destruct (ai_retired_instance_id i).
    - apply bind_Ok in Hmode as (r & Hr%ok_or_Ok & _). by exists r. }
  unfold try_add_intent, add_intent_proto. simpl. unfold empty. rewrite !bool_decide_eq_false_2 by done.
  rewrite !(proj2 (Z.leb_gt _ _)), !(proj2 (Z.eqb_neq _ _)), (proj2 (Z.ltb_ge _ _)) by lia. simpl.
  rewrite known_exact. rewrite !required_descriptor_exact by done. rewrite Hg1, Hg2. simpl.
  assert ((bool_decide (ai_mode i = Rebuild) && none (ai_retired_instance_id i) = false) ∧
    (bool_decide (ai_mode i = ScaleUp) && negb (none (ai_retired_instance_id i)) = false)) as [-> ->].
  { destruct (ai_mode i); [by rewrite Hr|by destruct Hr as [r ->]]. }
  simpl. destruct i. simpl in *. rewrite epoch_exact. by rewrite Hv.
Qed.

Lemma try_add_intent_Ok p i : try_add_intent p = Ok i → p = add_intent_proto i ∧ wire_add i.
Proof.
  unfold try_add_intent. intros ([] & _ & H)%bind_Ok. apply bind_Ok in H as ([] & _ & H). apply bind_Ok in H as ([] & _ & H).
  apply known_exact_Ok in H as (mode & Hmode & H). apply bind_Ok in H as ([] & _ & H). apply bind_Ok in H as ([] & _ & H).
  apply bind_Ok in H as ([] & _ & H). apply bind_Ok in H as (ep & He%ok_or_Ok & H).
  apply bind_Ok in H as (g1 & [Hg1 Hg1']%generation_parse_Ok & H). apply bind_Ok in H as (g2 & [Hg2 Hg2']%generation_parse_Ok & H).
  apply bind_Ok in H as (d1 & Hd1%required_descriptor_Ok & H). apply bind_Ok in H as (d2 & Hd2%required_descriptor_Ok & H).
  apply bind_Ok in H as (d3 & Hd3%required_descriptor_Ok & H). cbv zeta in H. apply bind_Ok in H as ([] & Hv & [= <-]).
  split; [|done]. destruct p. simpl in *. subst. unfold add_intent_proto. simpl. by rewrite epoch_proto_from.
Qed.

Section endpoints.
  Context {Ends : Endpoints}.

Lemma remove_descriptor_wire name d : validate_descriptor name d = Ok tt → wire_descriptor d.
Proof.
  intros (Hq & H1 & H2 & H3)%validated_descriptor. split; [done|done| |].
  - apply Forall_forall. intros m Hm. destruct (H3 m Hm) as (? & ? & ? & Hr & _). unfold wire_member. by rewrite Hr.
  - rewrite Hq. unfold as_u32. pose proof (Z.mod_pos_bound (Z.of_nat (S (length (cfg_members d)))) (2 ^ 32)).
    pose proof (Z.div_pos (Z.of_nat (S (length (cfg_members d))) `mod` 2 ^ 32) 2). lia.
Qed.

Definition wire_remove (i : RemoveReplicaIntent) : Prop :=
  validate_remove_intent i = Ok tt ∧ generation_ok (rm_primary_agent_generation i) ∧
  (∀ g, rm_expected_target_agent_generation i = Some g → generation_ok g).

Lemma remove_intent_exact i :
  wire_remove i → ∃ p, remove_intent_proto i = Ok p ∧ try_remove_intent p = Ok i.
Proof.
  intros (Hv & Hg1 & Hg2). unfold remove_intent_proto. rewrite Hv. simpl. eexists. split; [done|].
  apply validated_parts in Hv as Hp. destruct Hp as (Hd1%remove_descriptor_wire & Hd2%remove_descriptor_wire & Hd3%remove_descriptor_wire & _).
  unfold try_remove_intent. simpl. rewrite known_exact, Hg1. simpl.
  rewrite !required_descriptor_exact by done.
  assert (try_option agent_generation_parse (rm_expected_target_agent_generation i) = Ok (rm_expected_target_agent_generation i)) as ->.
  { destruct (rm_expected_target_agent_generation i) as [g|]; [|done]. simpl. by rewrite (Hg2 g eq_refl). }
  simpl. destruct i. simpl in *. rewrite epoch_exact. by rewrite Hv.
Qed.

Lemma try_remove_intent_Ok p i : try_remove_intent p = Ok i → remove_intent_proto i = Ok p ∧ wire_remove i.
Proof.
  unfold try_remove_intent. intros (mode & Hmode & H)%known_exact_Ok. apply bind_Ok in H as (ep & He%ok_or_Ok & H).
  apply bind_Ok in H as (g1 & [Hg1 Hg1']%generation_parse_Ok & H). apply bind_Ok in H as (cv & Hcv%ok_or_Ok & H).
  apply bind_Ok in H as (g2 & Hg2%try_option_Ok & H).
  apply bind_Ok in H as (d1 & Hd1%required_descriptor_Ok & H). apply bind_Ok in H as (d2 & Hd2%required_descriptor_Ok & H).
  apply bind_Ok in H as (d3 & Hd3%required_descriptor_Ok & H). cbv zeta in H. apply bind_Ok in H as ([] & Hv & [= <-]).
  assert (rrip_expected_target_agent_generation p = g2 ∧ ∀ g, g2 = Some g → generation_ok g) as [Hg Hg'].
  { destruct (rrip_expected_target_agent_generation p), g2; try done. apply generation_parse_Ok in Hg2 as [-> ?].
    split; [done|]. by intros ? [= <-]. }
  split; [|done]. unfold remove_intent_proto. rewrite Hv. simpl. destruct p. simpl in *. subst. by rewrite epoch_proto_from.
Qed.

(** ** Progress *)

Lemma add_progress_exact p : try_add_progress (add_progress_proto p) = Ok p.
Proof. unfold try_add_progress, add_progress_proto. simpl. rewrite known_exact. by destruct p. Qed.
Lemma try_add_progress_Ok p q : try_add_progress p = Ok q → add_progress_proto q = p.
Proof. unfold try_add_progress. intros (ph & Hp & [= <-])%known_exact_Ok. destruct p. simpl in *. by subst. Qed.

Lemma remove_progress_exact p :
  validate_progress_fields p = Ok tt → ∃ q, remove_progress_proto p = Ok q ∧ try_remove_progress q = Ok p.
Proof.
  intros Hv. unfold remove_progress_proto. rewrite Hv. simpl. eexists. split; [done|].
  unfold try_remove_progress. simpl. rewrite known_exact, known_exact. destruct p. simpl in *. by rewrite Hv.
Qed.
Lemma try_remove_progress_Ok q p :
  try_remove_progress q = Ok p → remove_progress_proto p = Ok q ∧ validate_progress_fields p = Ok tt.
Proof.
  unfold try_remove_progress. intros (ph & Hp & H)%known_exact_Ok. apply known_exact_Ok in H as (rt & Hr & H). cbv zeta in H.
  apply bind_Ok in H as ([] & Hv & [= <-]). split; [|done]. unfold remove_progress_proto. rewrite Hv. simpl.
  destruct q. simpl in *. by subst.
Qed.

(** ** Correlated requests *)

(** The actions that the wire can carry. *)
Definition wire_action (a : DurableReplicaAction) : Prop :=
  match a with
  | ActAddReplicaIntent intent => wire_add intent
  | ActRemoveReplicaIntent intent => wire_remove intent
  | ActChangeRole _ role => role ≠ Unknown
  | ActUpdateCatchUpConfiguration current previous => wire_config current ∧ wire_config previous
  | ActUpdateCurrentConfiguration current => wire_config current
  | ActBuildReplica replica => wire_info replica
  | ActRemoveReplica id inst => 0 < id ∧ inst ≠ ""
  | ActRecordElectionConfiguration c => wire_election c
  | ActOpen _ | ActClose | ActRevokeWriteStatus | ActUpdateEpoch _ | ActWaitForCatchUpQuorum _ | ActOnDataLoss _ => True
  end.

Lemma correlated_action_exact a :
  wire_action a → ∃ p, correlated_action_proto a = Ok p ∧ strict_correlated_action p = Ok a.
Proof.
  intros Hw. destruct a as [i|i|m| | |e r|e|c p|m|c|r|id inst|e|c]; simpl in Hw |- *.
  - eexists. split; [done|]. simpl. by rewrite add_intent_exact.
  - destruct (remove_intent_exact i Hw) as (p & -> & Hp). simpl. eexists. split; [done|]. simpl. by rewrite Hp.
  - eexists. split; [done|]. simpl. rewrite known_as_i32. by destruct m.
  - by eexists.
  - by eexists.
  - eexists. split; [done|]. simpl. rewrite known_role_proto by done. simpl. by rewrite epoch_exact.
  - eexists. split; [done|]. simpl. by rewrite epoch_exact.
  - destruct Hw as [Hc Hp]. eexists. split; [done|]. cbn [strict_correlated_action]. by rewrite !required_config_exact.
  - eexists. split; [done|]. simpl. rewrite known_as_i32. by destruct m.
  - eexists. split; [done|]. cbn [strict_correlated_action]. by rewrite required_config_exact.
  - eexists. split; [done|]. cbn [strict_correlated_action ok_or]. simpl. by rewrite replica_info_exact by done.
  - destruct Hw as [Hid Hi]. eexists. split; [done|]. simpl. unfold empty. rewrite (proj2 (Z.leb_gt _ _)) by lia.
    by rewrite bool_decide_eq_false_2.
  - eexists. split; [done|]. simpl. by rewrite epoch_exact.
  - eexists. split; [done|]. simpl. by rewrite election_configuration_exact.
Qed.

Lemma strict_correlated_action_Ok p a :
  strict_correlated_action p = Ok a → correlated_action_proto a = Ok p ∧ wire_action a.
Proof.
  intros H. destruct p as [|e r|e|c p|m|c|m| |r|id inst|e|c|i|i]; simpl in H.
  - by injection H as <-.
  - apply bind_Ok in H as (role & [Hr ->]%known_role_Ok & H). apply bind_Ok in H as (ep & ->%ok_or_Ok & [= <-]).
    simpl. by rewrite epoch_proto_from.
  - apply bind_Ok in H as (ep & ->%ok_or_Ok & [= <-]). simpl. by rewrite epoch_proto_from.
  - apply bind_Ok in H as (c1 & [-> Hw1]%required_config_Ok & H). by apply bind_Ok in H as (c2 & [-> ?]%required_config_Ok & [= <-]).
  - apply bind_Ok in H as (v & ->%known_Ok & [= <-]). simpl. by destruct v.
  - by apply bind_Ok in H as (c1 & [-> Hw1]%required_config_Ok & [= <-]).
  - apply bind_Ok in H as (v & ->%known_Ok & [= <-]). simpl. by destruct v.
  - by injection H as <-.
  - apply bind_Ok in H as (q & ->%ok_or_Ok & H). by apply bind_Ok in H as (r' & [-> ?]%try_replica_info_Ok & [= <-]).
  - apply bind_Ok in H as ([] & Hc%reject_if_Ok & [= <-]). unfold empty in Hc. guards. split; [done|]. by split; [lia|].
  - apply bind_Ok in H as (ep & ->%ok_or_Ok & [= <-]). simpl. by rewrite epoch_proto_from.
  - apply bind_Ok in H as (q & ->%ok_or_Ok & H). by apply bind_Ok in H as (r' & [-> ?]%try_election_configuration_Ok & [= <-]).
  - by apply bind_Ok in H as (i' & [-> ?]%try_add_intent_Ok & [= <-]).
  - apply bind_Ok in H as (i' & [Hi ?]%try_remove_intent_Ok & [= <-]). simpl. by rewrite Hi.
Qed.

Record wire_request (r : CorrelatedControlActionRequest) : Prop := {
  wr_action_id : cr_action_id r ≠ "";
  wr_signature : cr_input_signature r ≠ "";
  wr_target : 0 < cr_target_replica_id r;
  wr_instance : cr_target_instance_id r ≠ "";
  wr_generation : generation_ok (cr_expected_agent_generation r);
  wr_action : wire_action (cr_action r);
}.

Lemma correlated_request_exact r :
  wire_request r → ∃ p, correlated_request_proto r = Ok p ∧ try_correlated_request p = Ok r.
Proof.
  intros [H1 H2 H3 H4 H5 H6]. destruct (correlated_action_exact _ H6) as (p & Hp & Ha).
  unfold correlated_request_proto. rewrite Hp. simpl. eexists. split; [done|].
  unfold try_correlated_request, empty. simpl. rewrite !bool_decide_eq_false_2, (proj2 (Z.leb_gt _ _)) by done. simpl.
  rewrite H5. simpl. rewrite Ha. simpl. rewrite epoch_exact. by destruct r.
Qed.

Lemma try_correlated_request_Ok p r :
  try_correlated_request p = Ok r → correlated_request_proto r = Ok p ∧ wire_request r.
Proof.
  unfold try_correlated_request, empty. intros H. apply bind_Ok in H as ([] & H1%reject_if_Ok & H).
  apply bind_Ok in H as ([] & H2%reject_if_Ok & H). apply bind_Ok in H as ([] & H3%reject_if_Ok & H).
  apply bind_Ok in H as ([] & H4%reject_if_Ok & H). guards.
  apply bind_Ok in H as (g & [Hg Hg']%generation_parse_Ok & H). apply bind_Ok in H as (cv & Hcv%ok_or_Ok & H).
  apply bind_Ok in H as (e & He%ok_or_Ok & H). apply bind_Ok in H as (a & Ha%ok_or_Ok & H).
  apply bind_Ok in H as (a' & [Ha' Hw]%strict_correlated_action_Ok & [= <-]).
  split; [|by split; (done || simpl; lia)]. unfold correlated_request_proto. simpl. rewrite Ha'. simpl. destruct p. simpl in *. subst. by rewrite epoch_proto_from.
Qed.

(** *** Persisted payloads *)

Lemma unhex_push_hex l : unhex (push_hex l) = l.
Proof.
  induction l as [|b l IH]; [done|]. change (push_hex (b :: l)) with (hex_byte b +:+ push_hex l).
  assert (∀ s, unhex (hex_byte b +:+ s) = b :: unhex s) as -> by (intros s; by destruct b). by rewrite IH.
Qed.
Lemma push_hex_valid l : Nat.even (String.length (push_hex l)) = true ∧ string_forallb lower_hex_byte (push_hex l) = true.
Proof.
  induction l as [|b l [IH1 IH2]]; [done|]. change (push_hex (b :: l)) with (hex_byte b +:+ push_hex l).
  assert (∀ s, Nat.even (String.length (hex_byte b +:+ s)) = Nat.even (String.length s) ∧
    string_forallb lower_hex_byte (hex_byte b +:+ s) = string_forallb lower_hex_byte s) as Hb by (intros s; by destruct b).
  by destruct (Hb (push_hex l)) as [-> ->].
Qed.

(** ** Observations of correlated actions *)

(** An error read from the wire is never empty. *)
Record wire_observation (o : CorrelatedActionObservation) : Prop := {
  wo_action_id : do_action_id (co_action o) ≠ "";
  wo_signature : do_signature (co_action o) ≠ "";
  wo_generation : generation_ok (co_generation o);
  wo_error : do_error (co_action o) ≠ Some "";
  wo_progress : ∀ p, do_remove_replica_progress (co_action o) = Some p → validate_progress_fields p = Ok tt;
  wo_terminal : check_terminal_data (do_state (co_action o)) (do_error_class (co_action o)) (do_error (co_action o))
                  (do_result (co_action o)) = Ok tt;
  wo_result : check_result_progress (do_result (co_action o)) (do_remove_replica_progress (co_action o)) = Ok tt;
}.

Lemma remove_progress_option o :
  (∀ p, o = Some p → validate_progress_fields p = Ok tt) →
  ∃ q, try_option remove_progress_proto o = Ok q ∧ try_option try_remove_progress q = Ok o.
Proof.
  intros H. destruct o as [p|]; [|by exists None]. destruct (remove_progress_exact p (H p eq_refl)) as (q & Hq & Hp).
  exists (Some q). simpl. by rewrite Hq, Hp.
Qed.

Lemma error_text_exact (error : option string) :
  error ≠ Some "" → (if empty (default "" error) then None else Some (default "" error)) = error.
Proof.
  destruct error as [e|]; [|done]. intros He. change (default "" (Some e)) with e. unfold empty.
  rewrite bool_decide_eq_false_2; [done|]. by intros ->.
Qed.

Lemma correlated_observation_exact o :
  wire_observation o → ∃ p, correlated_observation_proto o = Ok p ∧ try_correlated_observation p = Ok o.
Proof.
  intros [H1 H2 H3 H4 H5 H6 H7]. destruct (remove_progress_option _ H5) as (q & Hq & Hp).
  unfold correlated_observation_proto. rewrite Hq. simpl. eexists. split; [done|].
  unfold try_correlated_observation. simpl. rewrite (error_text_exact _ H4). unfold empty.
  rewrite !bool_decide_eq_false_2 by done. simpl. rewrite known_exact, !known_as_i32. simpl.
  assert (error_class_from (match do_error_class (co_action o) with Some c => error_class_proto c | None => DURABLE_ACTION_ERROR_NONE end)
    = do_error_class (co_action o)) as -> by (destruct (do_error_class (co_action o)); [apply error_class_exact|done]).
  assert (action_result_from (match do_result (co_action o) with Some r => action_result_proto r | None => DURABLE_ACTION_RESULT_NONE end)
    = do_result (co_action o)) as -> by (destruct (do_result (co_action o)); [apply action_result_exact|done]).
  rewrite try_option_fmap by (intros; apply add_progress_exact). rewrite Hp. simpl. rewrite H6, H7, H3. simpl.
  by destruct o as [? ? []].
Qed.

Lemma try_option_remove_progress_Ok q o :
  try_option try_remove_progress q = Ok o →
  try_option remove_progress_proto o = Ok q ∧ ∀ p, o = Some p → validate_progress_fields p = Ok tt.
Proof.
  intros H%try_option_Ok. destruct q, o; try done. apply try_remove_progress_Ok in H as [Hp Hv]. simpl. rewrite Hp.
  split; [done|]. by intros ? [= <-].
Qed.

Lemma action_result_proto_from r :
  match action_result_from r with Some r => action_result_proto r | None => DURABLE_ACTION_RESULT_NONE end = r.
Proof. by destruct r. Qed.
Lemma error_class_proto_from c :
  match error_class_from c with Some c => error_class_proto c | None => DURABLE_ACTION_ERROR_NONE end = c.
Proof. by destruct c. Qed.
Lemma error_text_from (e : string) : default "" (if empty e then None else Some e) = e.
Proof. unfold empty. case_bool_decide as He; [by rewrite He|done]. Qed.

Lemma try_correlated_observation_Ok p o :
  try_correlated_observation p = Ok o → correlated_observation_proto o = Ok p ∧ wire_observation o.
Proof.
  unfold try_correlated_observation. intros H. apply bind_Ok in H as ([] & H1%reject_if_Ok & H).
  apply bind_Ok in H as ([] & H2%reject_if_Ok & H).
  apply known_exact_Ok in H as (st & Hst & H). apply bind_Ok in H as (r & Hr%known_Ok & H).
  apply bind_Ok in H as (c & Hc%known_Ok & H). cbv zeta in H. apply bind_Ok in H as (ap & Hap%try_option_Ok & H).
  apply bind_Ok in H as (rp & [Hrp Hrv]%try_option_remove_progress_Ok & H). apply bind_Ok in H as ([] & Ht & H).
  apply bind_Ok in H as ([] & Hp & H). apply bind_Ok in H as (g & [Hg Hg']%generation_parse_Ok & [= <-]).
  split; [|unfold empty in H1, H2; guards; split; try done; simpl; unfold empty; by case_bool_decide; [|intros [= ?]]].
  unfold correlated_observation_proto. simpl. rewrite Hrp. simpl. rewrite action_result_proto_from, error_class_proto_from, error_text_from.
  assert (add_progress_proto <$> ap = caop_add_replica_progress p) as ->.
  { destruct (caop_add_replica_progress p), ap; try done. simpl. by rewrite (try_add_progress_Ok _ _ Hap). }
  destruct p. simpl in *. by subst.
Qed.

Lemma fault_record_exact r : try_fault_record (fault_record_proto r) = Ok r.
Proof. unfold try_fault_record, fault_record_proto. simpl. rewrite known_exact. by destruct r. Qed.

(** ** Peer stages *)

(** The two validations of a projection, of the request and of the message,
    are the same. *)
Lemma same_projection_validation s :
  Convert.validate_reduced_current_projection s = Lifecycle.validate_reduced_current_projection s.
Proof.
  unfold Convert.validate_reduced_current_projection, Lifecycle.validate_reduced_current_projection.
  destruct (reject_if (negb _) _); [|done]. cbn [mbind result_bind].
  destruct (reject_if (_ || _) _); [|done]. cbn [mbind result_bind].
  erewrite (try_fold_ext validate_projected_member); [reflexivity|]. by intros [[??]?] ?.
Qed.

Lemma projected_member_seen seen l seen' m :
  try_fold validate_projected_member seen l = Ok seen' → m ∈ l →
  0 < cm_id m ∧ cm_instance_id m ≠ "" ∧ cm_role m ≠ Unknown.
Proof.
  revert seen. induction l as [|x l IH]; intros [[ids insts] prev] H Hm; [by apply elem_of_nil in Hm|]. simpl in H.
  apply bind_Ok in H as (s & Hx & H). apply bind_Ok in Hx as ([] & Hc%reject_if_Ok & [= <-]).
  apply elem_of_cons in Hm as [->|Hm]; [|by eapply IH]. unfold empty in Hc. guards. split_and!; (done || lia).
Qed.

Lemma projection_exact s :
  Convert.validate_reduced_current_projection s = Ok tt → ∃ p, projection_proto s = Ok p ∧ try_projection p = Ok s.
Proof.
  intros Hv. unfold projection_proto. rewrite Hv. simpl. eexists. split; [done|]. unfold try_projection. simpl.
  rewrite known_exact, try_map_fmap; [destruct s; simpl in *; by rewrite Hv|].
  apply Forall_forall. intros m Hm. unfold Convert.validate_reduced_current_projection in Hv.
  do 2 apply bind_Ok in Hv as ([] & _ & Hv). apply bind_Ok in Hv as (seen & Hv & _).
  destruct (projected_member_seen _ _ _ _ Hv Hm) as (Hid & Hi & Hr).
  unfold try_projected_member, member_status_proto, empty. simpl. rewrite (proj2 (Z.leb_gt _ _)), bool_decide_eq_false_2 by done.
  simpl. rewrite known_role_proto by done. by destruct m.
Qed.
Lemma try_projection_Ok p s : try_projection p = Ok s → projection_proto s = Ok p.
Proof.
  unfold try_projection. intros (m & He & H)%known_exact_Ok. apply bind_Ok in H as (ms & Hm & H). cbv zeta in H.
  apply bind_Ok in H as ([] & Hv & [= <-]). unfold projection_proto. rewrite Hv. simpl.
  eapply (try_map_Ok _ (λ p x, member_status_proto x = p ∧ True)) in Hm.
  { apply Forall2_fmap_inv in Hm as [Hl _]. destruct p. simpl in *. by subst. }
  intros q x Hx. unfold try_projected_member in Hx. apply bind_Ok in Hx as ([] & _ & Hx).
  apply bind_Ok in Hx as (role & [_ Hr]%known_role_Ok & [= <-]). split; [|done]. destruct q. simpl in *. by subst.
Qed.

(** A valid request between agents of known generations. *)
Definition wire_stage (r : PeerStageRequest) : Prop :=
  validate_request r = Ok tt ∧ generation_ok (pr_sender_agent_generation r) ∧
  generation_ok (pr_expected_target_agent_generation r).

(** A valid request carries a valid projection, if any. *)
Lemma request_projection r s :
  validate_request r = Ok tt → pr_reduced_current_projection r = Some s →
  Lifecycle.validate_reduced_current_projection s = Ok tt.
Proof.
  unfold validate_request. intros H Hs. do 3 apply bind_Ok in H as ([] & _ & H). apply bind_Ok in H as ([] & H & _).
  destruct (pr_operation_kind r).
  - unfold validate_add_build_fields in H. apply bind_Ok in H as ([] & _ & H). apply bind_Ok in H as ([] & Hc%reject_if_Ok & _).
    guards. by rewrite Hs in *.
  - unfold validate_retire_fields in H. do 2 apply bind_Ok in H as ([] & _ & H). apply bind_Ok in H as (m & _ & H).
    apply bind_Ok in H as (c & _ & H). apply bind_Ok in H as (e & _ & H). apply bind_Ok in H as ([] & _ & H).
    apply bind_Ok in H as (p & Hp%ok_or_Ok & H). rewrite Hs in Hp. injection Hp as <-. by apply bind_Ok in H as ([] & H & _).
Qed.

Lemma try_remove_mode_exact m : try_remove_mode (as_i32 (remove_mode_proto m)) = Ok m.
Proof. unfold try_remove_mode. rewrite known_as_i32. by destruct m. Qed.

Lemma stage_request_exact r : wire_stage r → ∃ p, stage_request_proto r = Ok p ∧ try_stage_request p = Ok r.
Proof.
  intros (Hv & Hg1 & Hg2). unfold stage_request_proto. rewrite Hv. simpl.
  assert (∃ q, try_option projection_proto (pr_reduced_current_projection r) = Ok q ∧
    try_option try_projection q = Ok (pr_reduced_current_projection r)) as (q & -> & Hq).
  { destruct (pr_reduced_current_projection r) as [s|] eqn:Hs; [|by exists None].
    pose proof (request_projection _ _ Hv Hs) as Hp. rewrite <-same_projection_validation in Hp.
    apply projection_exact in Hp as (q & Hq & Hq'). exists (Some q). simpl. by rewrite Hq, Hq'. }
  simpl. eexists. split; [done|]. pose proof Hv as H. unfold validate_request in H.
  apply bind_Ok in H as ([] & H1%reject_if_Ok & H). apply bind_Ok in H as ([] & H2%reject_if_Ok & _). unfold empty in *. guards.
  unfold try_stage_request. simpl. unfold empty. rewrite !bool_decide_eq_false_2, !(proj2 (Z.leb_gt _ _)) by (done || lia). simpl.
  rewrite peer_stage_exact. simpl. rewrite known_exact. rewrite try_option_fmap by (intros; apply try_remove_mode_exact).
  simpl. rewrite Hq, Hg1, Hg2. simpl. rewrite epoch_exact. destruct r. simpl in *. by rewrite Hv.
Qed.

Lemma try_stage_request_Ok p r : try_stage_request p = Ok r → stage_request_proto r = Ok p ∧ wire_stage r.
Proof.
  unfold try_stage_request. intros H. do 2 apply bind_Ok in H as ([] & _ & H).
  apply bind_Ok in H as (st & Hst%try_peer_stage_Ok & H). apply known_exact_Ok in H as (k & Hk & H).
  apply bind_Ok in H as (m & Hm%try_option_Ok & H). apply bind_Ok in H as (pr & Hpr%try_option_Ok & H).
  apply bind_Ok in H as (g1 & [Hg1 Hg1']%generation_parse_Ok & H). apply bind_Ok in H as (g2 & [Hg2 Hg2']%generation_parse_Ok & H).
  apply bind_Ok in H as (e & He%ok_or_Ok & H). cbv zeta in H. apply bind_Ok in H as ([] & Hv & [= <-]). split; [|done].
  unfold stage_request_proto. rewrite Hv. simpl.
  assert (try_option projection_proto pr = Ok (elsr_reduced_current_projection p)) as ->.
  { destruct (elsr_reduced_current_projection p), pr; try done. simpl. by rewrite (try_projection_Ok _ _ Hpr). }
  simpl. assert ((λ mode, as_i32 (remove_mode_proto mode)) <$> m = elsr_removal_mode p) as ->.
  { destruct (elsr_removal_mode p), m; try done. unfold try_remove_mode in Hm.
    apply bind_Ok in Hm as (v & ->%known_Ok & <-%exact_from). done. }
  destruct p. simpl in *. subst. by rewrite epoch_proto_from.
Qed.

(** *** Their observations, and the target's status *)

Record wire_stage_observation (o : PeerStageObservation) : Prop := {
  ws_message_id : po_message_id o ≠ "";
  ws_signature : po_input_signature o ≠ "";
  ws_generation : generation_ok (po_target_agent_generation o);
  ws_error : failed_stage (po_state o) = negb (none (po_error o));
  ws_bound : error_too_long (po_error o) = false;
}.

Lemma stage_observation_exact o : wire_stage_observation o → try_stage_observation (stage_observation_proto o) = Ok o.
Proof.
  intros [H1 H2 H3 H4 H5]. unfold try_stage_observation, stage_observation_proto. simpl. unfold empty.
  rewrite !bool_decide_eq_false_2 by done. simpl. rewrite known_exact, H4, eqb_reflx, H5. simpl.
  rewrite known_exact, peer_stage_exact. simpl. rewrite H3. by destruct o.
Qed.

Record wire_status (s : PeerLifecycleStatus) : Prop := {
  wl_target : 0 < pl_target_replica_id s;
  wl_instance : pl_target_instance_id s ≠ "";
  wl_generation : generation_ok (pl_agent_generation s);
  wl_current : ∀ o, pl_current_action s = Some o → wire_stage_observation o;
  wl_retained : Forall wire_stage_observation (pl_retained_terminal_actions s);
}.

Lemma lifecycle_status_exact s : wire_status s → try_lifecycle_status (lifecycle_status_proto s) = Ok s.
Proof.
  intros [H1 H2 H3 H4 H5]. unfold try_lifecycle_status, lifecycle_status_proto. simpl. unfold empty.
  rewrite (proj2 (Z.leb_gt _ _)), bool_decide_eq_false_2 by done. simpl. rewrite known_as_i32. simpl.
  rewrite try_option_fmap by (intros o Ho; by apply stage_observation_exact, H4). simpl.
  rewrite try_map_fmap by (eapply Forall_impl; [exact H5|apply stage_observation_exact]). simpl.
  rewrite H3. simpl. rewrite epoch_exact, role_from_proto. by destruct s.
Qed.

(** *** What a status shows besides *)

Record wire_build (o : RuntimeBuildObservation) : Prop := {
  wb_execution_id : rb_execution_id o ≠ "";
  wb_build_key : rb_build_key o ≠ "";
  wb_target : 0 < rb_target_replica_id o;
  wb_instance : rb_target_instance_id o ≠ "";
  wb_generation : generation_ok (rb_target_agent_generation o);
  wb_copied : rb_state o = BuildCompleted → rb_copy_lsn o ≠ None;
  wb_bound : error_too_long (rb_error o) = false;
}.
Lemma build_observation_exact o : wire_build o → try_build_observation (build_observation_proto o) = Ok o.
Proof.
  intros [H1 H2 H3 H4 H5 H6 H7]. unfold try_build_observation, build_observation_proto. simpl. unfold empty.
  rewrite !bool_decide_eq_false_2, (proj2 (Z.leb_gt _ _)) by done. simpl. rewrite known_exact, H7.
  assert (bool_decide (rb_state o = BuildCompleted) && none (rb_copy_lsn o) = false) as ->.
  { case_bool_decide as Hs; [|done]. specialize (H6 Hs). by destruct (rb_copy_lsn o). }
  simpl. rewrite H5. by destruct o.
Qed.

(** A configuration the runtime shows. *)
Record wire_runtime_status (s : ReplicaConfigurationStatus) : Prop := {
  wc_ids : NoDup (cm_id <$> cs_members s);
  wc_instances : NoDup (cm_instance_id <$> cs_members s);
  wc_members : Forall (λ m, 0 < cm_id m ∧ cm_instance_id m ≠ "" ∧ cm_role m ≠ Unknown) (cs_members s);
  wc_quorum : 0 < cs_write_quorum s ≤ Z.of_nat (length (cs_members s)) + 1;
}.
Lemma runtime_status_exact s :
  wire_runtime_status s → try_runtime_configuration_status (configuration_status_proto s) = Ok s.
Proof.
  intros [H1 H2 H3 H4]. unfold try_runtime_configuration_status, configuration_status_proto. simpl.
  rewrite known_exact. rewrite (try_map_seen_fmap _ _ cm_id cm_instance_id); [|..|done|done|set_solver].
  - simpl. rewrite (proj2 (Z.eqb_neq _ _)), (proj2 (Z.ltb_ge _ _)) by lia. by destruct s.
  - intros m ids insts Hin Hi1 Hi2. rewrite Forall_forall in H3. destruct (H3 m Hin) as (? & ? & ?).
    unfold try_runtime_member, member_status_proto, empty. simpl.
    rewrite (proj2 (Z.leb_gt _ _)), !bool_decide_eq_false_2 by done. simpl. rewrite known_role_proto by done. by destruct m.
Qed.

Lemma access_status_exact s : try_access_status (as_i32 (access_status_proto s)) = Ok s.
Proof. unfold try_access_status. rewrite known_as_i32. by destruct s. Qed.
Lemma deactivation_info_exact d : try_deactivation_info (deactivation_info_proto d) = Ok d.
Proof. by destruct d as [[] ?]. Qed.

(** ** What the wire carries *)

(** C20. The control plane's requests are read exactly as they were written:
    a request with its identities, known generations and an action that
    validates has an encoding, and a message decodes to a request exactly when
    the request is such a one and the message is its encoding. So no two
    requests share a message, no two messages are read as one request, and a
    message that is not an encoding (an unknown enum number, a missing field,
    an intent that does not validate) is rejected. *)
Theorem request_wire r :
  (wire_request r → is_ok (correlated_request_proto r) = true) ∧
  ∀ p, try_correlated_request p = Ok r ↔ wire_request r ∧ correlated_request_proto r = Ok p.
Proof.
  split; [intros (p & -> & _)%correlated_request_exact; done|]. intros p. split.
  - intros [Hp Hw]%try_correlated_request_Ok. done.
  - intros [(q & Hq & Hr)%correlated_request_exact Hp]. congruence.
Qed.

(** The same holds between lifecycle peers: a stage request that
    validates, between agents of known generations, has an encoding, and a
    message decodes to a request exactly when it is the encoding of such a
    one. What a target runs is therefore the signed request its sender
    built, projection and removal fence included. *)
Theorem stage_request_wire r :
  (wire_stage r → is_ok (stage_request_proto r) = true) ∧
  ∀ p, try_stage_request p = Ok r ↔ wire_stage r ∧ stage_request_proto r = Ok p.
Proof.
  split; [intros (p & -> & _)%stage_request_exact; done|]. intros p. split.
  - intros [Hp Hw]%try_stage_request_Ok. done.
  - intros [(q & Hq & Hr)%stage_request_exact Hp]. congruence.
Qed.

(** The same holds of an action's observation on its way back: it has an
    encoding when its result, error and progress fit its state and its error
    is not the empty text, and a message decodes to it exactly when it is that
    encoding. *)
Theorem observation_wire o :
  (wire_observation o → is_ok (correlated_observation_proto o) = true) ∧
  ∀ p, try_correlated_observation p = Ok o ↔ wire_observation o ∧ correlated_observation_proto o = Ok p.
Proof.
  split; [intros (p & -> & _)%correlated_observation_exact; done|]. intros p. split.
  - intros [Hp Hw]%try_correlated_observation_Ok. done.
  - intros [(q & Hq & Hr)%correlated_observation_exact Hp]. congruence.
Qed.

(** A direct action the operator persists for a later attempt is the one
    it reads back: provided prost decodes the bytes it encoded, and encodes a
    request to some bytes, the payload of every action the wire admits but the
    agent-owned intents decodes to the action; those intents have no payload. *)
Theorem payload_roundtrip encode_to_vec decode a p :
  correlated_action_proto a = Ok p →
  decode (encode_to_vec (payload_request p)) = Ok (payload_request p) → encode_to_vec (payload_request p) ≠ [] →
  wire_action a →
  match encode_direct_correlated_action_payload encode_to_vec a with
  | Ok payload => agent_owned a = false ∧ decode_direct_correlated_action_payload decode payload = Ok a
  | Err _ => agent_owned a = true
  end.
Proof.
  intros Hp Hd Hne (p' & Hp' & Ha)%correlated_action_exact. rewrite Hp in Hp'. injection Hp' as <-.
  unfold encode_direct_correlated_action_payload. rewrite Hp. destruct (agent_owned a) eqn:Ho; [done|]. simpl. split; [done|].
  unfold decode_direct_correlated_action_payload. destruct (push_hex_valid (encode_to_vec (payload_request p))) as [-> ->].
  unfold empty. rewrite bool_decide_eq_false_2.
  - rewrite unhex_push_hex, Hd. simpl. rewrite Ha. simpl. by rewrite Ho.
  - destruct (encode_to_vec (payload_request p)) as [|b l]; [done|]. by destruct b.
Qed.

(** ** One encoding per direct action *)

Lemma role_number_inj r r' : as_i32 (role_proto r) = as_i32 (role_proto r') → r = r'.
Proof. by destruct r, r'. Qed.
#[export] Instance epoch_proto_inj : Inj (=) (=) epoch_proto.
Proof. intros [] []. by intros [= -> ->]. Qed.
#[export] Instance replica_info_proto_inj : Inj (=) (=) replica_info_proto.
Proof.
  intros [? ? r s ? ? ? ?] [? ? r' s' ? ? ? ?]. unfold replica_info_proto. simpl.
  intros [= -> Hr%role_number_inj Hs -> -> -> -> ->]. subst. by destruct s, s'.
Qed.
#[export] Instance replica_set_config_proto_inj : Inj (=) (=) replica_set_config_proto.
Proof. intros [m q] [m' q']. unfold replica_set_config_proto. simpl. by intros [= ->%(inj (fmap replica_info_proto)) ->]. Qed.
#[export] Instance member_status_proto_inj : Inj (=) (=) member_status_proto.
Proof. intros [? ? r] [? ? r']. unfold member_status_proto. simpl. by intros [= -> -> ->%role_number_inj]. Qed.
#[export] Instance configuration_status_proto_inj : Inj (=) (=) configuration_status_proto.
Proof.
  intros [m l q] [m' l' q']. unfold configuration_status_proto. simpl.
  intros [= Hm ->%(inj (fmap member_status_proto)) ->]. by destruct m, m'.
Qed.
#[export] Instance election_configuration_proto_inj : Inj (=) (=) election_configuration_proto.
Proof.
  intros [c o] [c' o'] H. pose proof (f_equal recp_current H) as Hc. pose proof (f_equal recp_previous H) as Ho.
  apply (inj Some), (inj configuration_status_proto) in Hc. apply (inj (fmap configuration_status_proto)) in Ho.
  simpl in *. by subst.
Qed.

Lemma ok_inj {E A} (a b : A) : @Ok E A a = Ok b → a = b.
Proof. by intros [=]. Qed.

Lemma direct_action_inj a a' p :
  agent_owned a = false → correlated_action_proto a = Ok p → correlated_action_proto a' = Ok p → a = a'.
Proof.
  intros Ho Ha Ha'.
  assert (∀ i p, correlated_action_proto (ActRemoveReplicaIntent i) = Ok p → ∃ q, p = RemoveReplicaIntentAction q) as Hrem
    by (intros i q (? & _ & [= <-])%bind_Ok; eauto).
  destruct a as [i|i|m| | |e r|e|c o|m|c|r|id inst|e|c]; try discriminate Ho; cbn [correlated_action_proto] in Ha;
    apply ok_inj in Ha as <-;
    destruct a' as [i'|i'|m'| | |e' r'|e'|c' o'|m'|c'|r'|id' inst'|e'|c']; try (by apply Hrem in Ha' as [? ?]);
    cbn [correlated_action_proto] in Ha'; try discriminate Ha'; try done; apply ok_inj in Ha'.
  - by destruct m, m'.
  - assert (epoch_proto e = epoch_proto e') as ->%(inj epoch_proto) by congruence.
    assert (as_i32 (role_proto r) = as_i32 (role_proto r')) as ->%role_number_inj by congruence. done.
  - assert (epoch_proto e = epoch_proto e') as ->%(inj epoch_proto) by congruence. done.
  - assert (replica_set_config_proto c = replica_set_config_proto c') as ->%(inj replica_set_config_proto) by congruence.
    assert (replica_set_config_proto o = replica_set_config_proto o') as ->%(inj replica_set_config_proto) by congruence. done.
  - by destruct m, m'.
  - assert (replica_set_config_proto c = replica_set_config_proto c') as ->%(inj replica_set_config_proto) by congruence. done.
  - assert (replica_info_proto r = replica_info_proto r') as ->%(inj replica_info_proto) by congruence. done.
  - congruence.
  - assert (epoch_proto e = epoch_proto e') as ->%(inj epoch_proto) by congruence. done.
  - assert (election_configuration_proto c = election_configuration_proto c') as ->%(inj election_configuration_proto) by congruence. done.
Qed.

(** A persisted payload decodes to no other action than the one it was made
    of, provided prost reads from its own bytes nothing but what it wrote. *)
Lemma payload_faithful encode_to_vec decode a a' payload :
  (∀ m m', decode (encode_to_vec m) = Ok m' → m' = m) →
  encode_direct_correlated_action_payload encode_to_vec a = Ok payload →
  decode_direct_correlated_action_payload decode payload = Ok a' → a' = a.
Proof.
  intros Hlaw. unfold encode_direct_correlated_action_payload. destruct (agent_owned a) eqn:Ho; [discriminate|].
  cbn [reject_if mbind result_bind]. intros (p & Hp & [= <-])%bind_Ok.
  unfold decode_direct_correlated_action_payload.
  intros ([] & _ & (m & Hm & (q & Hq%ok_or_Ok & (b & Hb & ([] & _ & [= <-])%bind_Ok)%bind_Ok)%bind_Ok)%bind_Ok)%bind_Ok.
  rewrite unhex_push_hex in Hm. destruct (decode (encode_to_vec (payload_request p))) as [m'|] eqn:Hd; [|discriminate].
  injection Hm as ->. apply Hlaw in Hd as ->. injection Hq as <-.
  apply strict_correlated_action_Ok in Hb as [Hb _]. symmetry. by eapply direct_action_inj.
Qed.

End endpoints.

(** A change of role, and a prost that knows one message. *)
Module DemoWire.
#[local] Existing Instance DemoRemove.ends.
Definition encode (_ : ExecuteCorrelatedControlActionRequest) : list Byte.byte := [Byte.x2a].
Definition action : DurableReplicaAction := ActChangeRole (mkEpoch 1 2) Primary.
Definition decode (_ : list Byte.byte) : result string ExecuteCorrelatedControlActionRequest :=
  match correlated_action_proto action with Ok p => Ok (payload_request p) | Err e => Err e end.
Definition request : CorrelatedControlActionRequest :=
  mkCorrelatedControlActionRequest 3 "act" "sig" 1 "i1" "000102030405060708090a0b0c0d0e0f" 0
    (mkEpoch 1 2) action.
End DemoWire.
#[local] Existing Instance DemoRemove.ends.

Lemma request_wire_witness :
  ∃ p, correlated_request_proto DemoWire.request = Ok p ∧ try_correlated_request p = Ok DemoWire.request.
Proof.
  destruct (correlated_request_proto DemoWire.request) as [p|e] eqn:Hp; [|discriminate Hp].
  exists p. split; [reflexivity|]. apply (request_wire DemoWire.request). split; [|exact Hp].
  split; (discriminate || reflexivity).
Defined.

Lemma payload_roundtrip_witness :
  encode_direct_correlated_action_payload DemoWire.encode DemoWire.action = Ok "2a" ∧
  decode_direct_correlated_action_payload DemoWire.decode "2a" = Ok DemoWire.action.
Proof.
  split; [vm_compute; reflexivity|].
  destruct (correlated_action_proto DemoWire.action) as [p|e] eqn:Hp; [|discriminate Hp].
  assert (DemoWire.decode (DemoWire.encode (payload_request p)) = Ok (payload_request p)) as Hd
    by (unfold DemoWire.decode; rewrite Hp; reflexivity).
  pose proof (payload_roundtrip DemoWire.encode DemoWire.decode DemoWire.action p Hp Hd ltac:(discriminate) ltac:(discriminate)) as H.
  assert (encode_direct_correlated_action_payload DemoWire.encode DemoWire.action = Ok "2a") as He by (vm_compute; reflexivity).
  rewrite He in H. destruct H as [_ H]. exact H.
Defined.
