(* ===== verification/Ledger.v ===== *)
(** The ledger an agent shows: its action in flight, the terminals it retains
    and its faults, as the handlers of [Agent] leave them after any run. *)

From S2P Require Import Prelude Types Lifecycle AddReplica RemoveReplica Control Agent RemoveCoordinator RemoveProtocol.

Set Default Goal Selector "!".

(** ** The last numbers up to a bound *)

Definition window (bound : nat) (v : Z) : list Z :=
  let n := Z.min v (Z.of_nat bound) in seqZ (v - n + 1) n.

Lemma length_window b v : 0 ≤ v → Z.of_nat (length (window b v)) = Z.min v (Z.of_nat b).
Proof. intros Hv. unfold window. rewrite length_seqZ. lia. Qed.

Lemma retain_fmap {A B} (f : A → B) b x l : f <$> retain b x l = retain b (f x) (f <$> l).
Proof. unfold retain. rewrite fmap_app, length_fmap. by destruct (_ =? _)%nat, l. Qed.

Lemma retain_window b v : (0 < b)%nat → 0 ≤ v → retain b (v + 1) (window b v) = window b (v + 1).
Proof.
  intros Hb Hv. unfold retain. pose proof (length_window b v Hv) as Hl.
  destruct (_ =? _)%nat eqn:E; [apply Nat.eqb_eq in E|apply Nat.eqb_neq in E]; unfold window.
  - rewrite (Z.min_r v), (Z.min_r (v + 1)) by lia. rewrite seqZ_cons by lia. cbn [tail].
    transitivity (seqZ (v + 1 - Z.of_nat b + 1) (Z.pred (Z.of_nat b) + 1)); [|f_equal; lia].
    rewrite seqZ_app by lia. f_equal; [f_equal; lia|]. rewrite seqZ_cons, seqZ_nil by lia. f_equal. lia.
  - rewrite (Z.min_l v), (Z.min_l (v + 1)) by lia. replace (v - v + 1) with 1 by lia.
    replace (v + 1 - (v + 1) + 1) with 1 by lia. rewrite seqZ_app by lia. f_equal.
    rewrite seqZ_cons, seqZ_nil by lia. f_equal. lia.
Qed.

Lemma elem_of_window b v n : n ∈ window b v → 1 ≤ n ≤ v.
Proof. unfold window. rewrite elem_of_seqZ. lia. Qed.
Lemma last_window b v : (0 < b)%nat → 0 < v → last (window b v) = Some v.
Proof.
  intros Hb Hv. replace v with (v - 1 + 1) by lia. rewrite <-retain_window by lia. unfold retain. apply last_snoc.
Qed.
Lemma head_window b v n : head (window b v) = Some n → 1 ≤ n.
Proof.
  intros H. apply (elem_of_window b v). destruct (window b v) as [|x l]; [done|]. injection H as ->. left.
Qed.

(** ** What an entry shows *)

(** An observation without its progress. *)
Definition core (o : CorrelatedActionObservation) : CorrelatedActionObservation :=
  o <| co_action ::= λ d, d <| do_add_replica_progress := None |> <| do_remove_replica_progress := None |> |>.

(** The outcome fits the state. *)
Definition outcome_ok (o : CorrelatedActionObservation) : Prop :=
  let d := co_action o in
  match do_state d with
  | Scheduled | InProgress => do_error_class d = None ∧ do_error d = None ∧ do_result d = None
  | Completed => do_error_class d = None ∧ do_error d = None
  | Failed => is_Some (do_error_class d) ∧ is_Some (do_error d) ∧ do_result d = None
  end.
Definition action_id (o : CorrelatedActionObservation) : string := do_action_id (co_action o).
Definition finished (o : CorrelatedActionObservation) : Prop :=
  do_state (co_action o) = Completed ∨ do_state (co_action o) = Failed.

(** How the action [o] in flight ends. *)
Definition ends (o o' : CorrelatedActionObservation) : Prop :=
  (∃ r, o' = completed_with r o) ∨ (∃ c e, o' = failed c e o).

Definition current_entry (a : ReplicaAgent) : option CorrelatedActionObservation := ac_observation <$> active a.
Definition entries (a : ReplicaAgent) : list CorrelatedActionObservation :=
  option_list (current_entry a) ++ terminals a.

(** ** Moves of the ledger *)

Definition same_faults (a a' : ReplicaAgent) : Prop := faults a' = faults a ∧ fault_sequence a' = fault_sequence a.

Inductive moves (a a' : ReplicaAgent) : Prop :=
| MKeep : ra_control_version a' = ra_control_version a → terminals a' = terminals a →
    core <$> current_entry a' = core <$> current_entry a → same_faults a a' → moves a a'
| MFault f : ra_control_version a' = ra_control_version a → terminals a' = terminals a →
    current_entry a' = current_entry a → fault_sequence a' = u64_saturating_add (fault_sequence a) 1 →
    faults a' = retain FAULT_RETENTION (mkLocalFaultRecord (fault_sequence a') f) (faults a) → moves a a'
| MStart request o : find_correlated a (cr_action_id request) = None → current_entry a = None →
    ra_control_version a' = control_version_advance (ra_control_version a) → current_entry a' = Some o →
    core o = scheduled request InProgress a' → terminals a' = terminals a → same_faults a a' → moves a a'
| MReject request c e : find_correlated a (cr_action_id request) = None → current_entry a = None →
    ra_control_version a' = control_version_advance (ra_control_version a) → current_entry a' = None →
    terminals a' = retain TERMINAL_RETENTION (failed c e (scheduled request Scheduled a')) (terminals a) →
    same_faults a a' → moves a a'
| MEnd o o' : current_entry a = Some o → ends o o' → ra_control_version a' = ra_control_version a →
    current_entry a' = None → terminals a' = retain TERMINAL_RETENTION o' (terminals a) → same_faults a a' → moves a a'.

Section moves.
  Context {Ends : Endpoints}.

Definition steps (a a' : ReplicaAgent) : Prop := moves a a' ∧ ra_generation a' = ra_generation a.

Ltac keep := split; [apply MKeep; (done || by split)|done].

Lemma idle_entry a : active a = None → current_entry a = None.
Proof. unfold current_entry. by intros ->. Qed.

Lemma start_steps a a' request o :
  admitted request a → current_entry a' = Some o → core o = scheduled request InProgress a' →
  ra_control_version a' = control_version_advance (ra_control_version a) → terminals a' = terminals a →
  same_faults a a' → ra_generation a' = ra_generation a → steps a a'.
Proof. intros Had **. split; [|done]. eapply MStart; try done; [apply Had|by apply idle_entry, (ad_idle _ _ Had)]. Qed.

Lemma reject_steps a request c e :
  admitted request a →
  steps a (retain_terminal (failed c e (scheduled request Scheduled (advance_version a))) (advance_version a)).
Proof.
  intros Had. destruct (ad_idle _ _ Had) as [Ha _]. split; [|done].
  eapply MReject; [apply Had|by apply idle_entry|done|by rewrite <-(idle_entry a Ha)|done|by split].
Qed.

Lemma accept_add_steps rt request intent reply a :
  admitted request a → steps a (accept_add rt request intent reply a).1.
Proof.
  intros Had. unfold accept_add. destruct (validate_add_intent intent); [|by apply reject_steps].
  destruct (_ || _); [by apply reject_steps|]. eapply start_steps; (done || by split).
Qed.
Lemma accept_data_loss_steps rt request epoch reply a :
  admitted request a → steps a (accept_data_loss rt request epoch reply a).1.
Proof.
  intros Had. unfold accept_data_loss. destruct (negb _); [by apply reject_steps|].
  destruct (none _); [by apply reject_steps|]. eapply start_steps; (done || by split).
Qed.
Lemma accept_build_steps rt request replica reply a :
  admitted request a → steps a (accept_build rt request replica reply a).1.
Proof.
  intros Had. unfold accept_build. destruct (none _); [by apply reject_steps|]. eapply start_steps; (done || by split).
Qed.
Lemma accept_effect_steps request reply a effect :
  correlated_runtime_effect (cr_action request) = Some effect →
  admitted request a → steps a (accept_effect request reply a).1.
Proof. intros He Had. unfold accept_effect. rewrite He. eapply start_steps; (done || by split). Qed.
Lemma accept_remove_steps now rt request intent reply a :
  validate_remove_intent intent = Ok tt → admitted request a → steps a (accept_remove now rt request intent reply a).1.
Proof.
  intros Hv Had. unfold accept_remove. destruct (negb _); [by apply reject_steps|]. destruct (_ <=? now); [keep|].
  rewrite first_valid by done. eapply start_steps; (done || by split).
Qed.

Lemma accept_correlated_steps now rt rt' request reply a : steps a (accept_correlated now rt rt' request reply a).1.
Proof.
  assert (steps a a) as Hsame by keep.
  assert (∀ accept, (admitted request a → steps a (accept a).1) →
    steps a (answer reply (admit_correlated (rt_epoch rt) request a) accept a).1) as Hgen.
  { intros accept Hacc. unfold answer. destruct (admit_correlated _ _ _) as [[o|]|e] eqn:E; [done| |done].
    apply Hacc. by apply admit_correlated_new in E as [E _]. }
  unfold accept_correlated. destruct (cr_action request) eqn:Eact; cycle 1.
  { unfold answer. destruct (admit_remove _ _ _) as [[o|]|e] eqn:E; [done| |done].
    apply admit_remove_new in E as (E & Hv & _ & _). by apply accept_remove_steps. }
  all: apply Hgen; intros Had;
    first [by apply accept_add_steps|by apply accept_data_loss_steps|by apply accept_build_steps
          |eapply accept_effect_steps; [by rewrite Eact|done]].
Qed.

Lemma end_steps a c o : active a = Some c → ends (ac_observation c) o → steps a (retain_terminal o (a <| active := None |>)).
Proof. intros Hc He. split; [|done]. eapply MEnd; [unfold current_entry; by rewrite Hc|done..|by split]. Qed.

Lemma coordinator_update_steps id u c a : active a = Some c → steps a (coordinator_update id u c a).1.
Proof.
  intros Hc. assert (∀ e, steps a (fail_active_remove_coordinator e a).1) as Hfail.
  { intros e. unfold fail_active_remove_coordinator. rewrite Hc. eapply end_steps; [done|right; by do 2 eexists]. }
  assert (∀ c', core (ac_observation c') = core (ac_observation c) → steps a (a <| active := Some c' |>)) as Hset.
  { intros c' Hcore. split; [|done]. apply MKeep; [done|done| |by split]. unfold current_entry. rewrite Hc. simpl. by f_equal. }
  destruct u as [p|[r|e]|p|[r|e]]; unfold coordinator_update.
  - by apply Hset.
  - eapply end_steps; [done|left; by eexists].
  - eapply end_steps; [done|right; by do 2 eexists].
  - destruct (_ ≫= _); [|done]. by apply Hset.
  - destruct (_ ≫= _); [|done]. eapply end_steps; [done|left; by eexists].
  - eapply end_steps; [done|right; by do 2 eexists].
Qed.

Lemma begin_shutdown_steps a : steps a (begin_shutdown a).1.
Proof. unfold begin_shutdown. destruct (shutting_down a); keep. Qed.

(** Every turn moves the ledger one way. *)
Lemma agent_step_moves e ev a a' outs : agent_step e ev a = Some (a', outs) → steps a a'.
Proof.
  intros H. assert (steps a a) as Hsame by keep. unfold agent_step in H. destruct (serve_exits a); [done|].
  destruct ev as [id res|id st er|ev|f|c|].
  - injection H as H. unfold handle_completion in H. destruct (active a) as [c|] eqn:Hc; [|congruence].
    case_decide; [congruence|]. injection H as <- _. eapply end_steps; [done|].
    destruct res as [[|r]|er]; [by left; eexists|by left; eexists|by right; do 2 eexists].
  - injection H as H. unfold handle_peer_completion in H. destruct (active_peer a) as [c|]; [|congruence].
    case_decide; [congruence|]. destruct st; injection H as <- _; keep.
  - injection H as H. destruct (handle_coordinator_event_cases ev a) as [He|(c & cur & Hc & _ & _ & He)];
      rewrite He in H; [congruence|]. pose proof (coordinator_update_steps (cv_execution_id ev) (cv_update ev) c a Hc) as Hu.
    by rewrite H in Hu.
  - destruct (fault_rx_open a); [|done]. destruct f as [f|]; injection H as <- _; [|keep]. split; [|done]. by eapply MFault.
  - destruct (command_rx_open a); [|done]. destruct c as [c|].
    + injection H as H. destruct c as [request reply|reply|request reply|? ? ? reply]; simpl in H; [|congruence| |congruence].
      * destruct (shutting_down a); [congruence|]. pose proof (accept_correlated_steps (te_now e) (te_rt1 e) (te_rt2 e) request reply a) as Hs.
        by rewrite H in Hs.
      * destruct (shutting_down a); [congruence|]. apply accept_peer_stage_cases in H as [[-> _]|(_ & id & o & p & _ & ->)]; [done|keep].
    + injection H as H. pose proof (begin_shutdown_steps (a <| command_rx_open := false |>)) as [Hm Hg]. rewrite H in Hm, Hg.
      split; [|done]. destruct Hm; [by apply MKeep|by eapply MFault|by eapply MStart|by eapply MReject|by eapply MEnd].
  - destruct (shutting_down a); [done|]. injection H as H. pose proof (begin_shutdown_steps a) as Hs. by rewrite H in Hs.
Qed.

End moves.

(** ** The ledger's invariant *)

Lemma core_eq o o' :
  core o = core o' → co_generation o = co_generation o' ∧ co_control_version o = co_control_version o' ∧
  action_id o = action_id o' ∧ do_state (co_action o) = do_state (co_action o') ∧ (outcome_ok o' → outcome_ok o).
Proof.
  destruct o as [g v [i s st cl e r ap rp]], o' as [g' v' [i' s' st' cl' e' r' ap' rp']]. intros [= -> -> -> -> -> -> -> ->].
  unfold action_id, outcome_ok. simpl. by split_and!.
Qed.

Lemma ends_entry o o' :
  outcome_ok o → do_state (co_action o) = InProgress → ends o o' →
  co_generation o' = co_generation o ∧ co_control_version o' = co_control_version o ∧ action_id o' = action_id o ∧
  outcome_ok o' ∧ finished o'.
Proof.
  unfold outcome_ok, finished, action_id. intros Ho Hst He. rewrite Hst in Ho. destruct Ho as (H1 & H2 & H3).
  destruct He as [(r & ->)|(c & e & ->)]; simpl; split_and!; eauto.
Qed.

Lemma find_correlated_new a id :
  current_entry a = None → find_correlated a id = None → id ∉ action_id <$> terminals a.
Proof.
  unfold current_entry, find_correlated. destruct (active a); [done|]. intros _ Hf (o & -> & Ho)%list_elem_of_fmap.
  assert (o ∈ rev (terminals a)) as Hin by (by rewrite list_elem_of_In, <-in_rev, <-list_elem_of_In).
  apply list_elem_of_In in Hin. pose proof (find_none _ _ Hf o Hin) as Hn. simpl in Hn. by apply bool_decide_eq_false in Hn.
Qed.

Lemma retain_NoDup {A} b (x : A) l : x ∉ l → NoDup l → NoDup (retain b x l).
Proof.
  intros Hx Hl. assert (∀ l', l' `sublist_of` l → NoDup (l' ++ [x])) as H.
  { intros l' Hs. apply NoDup_app. split; [by eapply sublist_NoDup|]. split; [|apply NoDup_singleton].
    intros y Hy ->%list_elem_of_singleton. apply Hx. eapply elem_of_submseteq; [done|by apply sublist_submseteq]. }
  unfold retain. apply H. destruct (_ =? _)%nat; [|done]. destruct l; [done|]. by apply sublist_cons.
Qed.

Definition past (a : ReplicaAgent) : Z := ra_control_version a - (if none (current_entry a) then 0 else 1).

Definition entry_ok (g : AgentGeneration) (o : CorrelatedActionObservation) : Prop := co_generation o = g ∧ outcome_ok o.

Record ledger (a : ReplicaAgent) : Prop := mkLedger {
  lg_version : 0 ≤ past a;
  lg_current : ∀ o, current_entry a = Some o →
    co_control_version o = ra_control_version a ∧ do_state (co_action o) = InProgress;
  lg_history : co_control_version <$> terminals a = window TERMINAL_RETENTION (past a);
  lg_entries : Forall (entry_ok (ra_generation a)) (entries a);
  lg_finished : Forall finished (terminals a);
  lg_distinct : NoDup (action_id <$> entries a);
  lg_faults : 0 ≤ fault_sequence a ∧ lf_sequence <$> faults a = window FAULT_RETENTION (fault_sequence a);
}.

Lemma agent_new_ledger id inst g : ledger (agent_new id inst g).
Proof. split; try constructor; done. Qed.

Lemma u64_succ n : n < u64_max → u64_saturating_add n 1 = n + 1.
Proof. unfold u64_saturating_add. lia. Qed.

(** A terminal more. *)
Lemma retain_ledger a a' o :
  ledger a → ra_generation a' = ra_generation a → current_entry a' = None → ra_control_version a' = past a + 1 →
  terminals a' = retain TERMINAL_RETENTION o (terminals a) → same_faults a a' →
  entry_ok (ra_generation a) o → co_control_version o = past a + 1 → finished o → action_id o ∉ action_id <$> terminals a →
  ledger a'.
Proof.
  intros [Hv Hc Hh He Hf Hd Hfs] Hg Hc' Hv' Ht [Hf1 Hf2] Hok Hov Hof Hid.
  assert (past a' = past a + 1) as Hp by (unfold past at 1; rewrite Hc'; simpl; lia).
  unfold entries in *. rewrite Forall_app in He. rewrite fmap_app in Hd.
  split; unfold entries; rewrite ?Hc', ?Ht, ?Hg, ?Hp, ?Hf1, ?Hf2; simpl; try done; [lia|..].
  - rewrite retain_fmap, Hh, Hov. apply retain_window; [unfold TERMINAL_RETENTION; lia|done].
  - apply retain_Forall; [done|apply He].
  - by apply retain_Forall.
  - rewrite retain_fmap. apply retain_NoDup; [done|]. by apply NoDup_app in Hd as (_ & _ & ?).
Qed.

Lemma steps_ledger a a' :
  steps a a' → ledger a → ra_control_version a < u64_max → fault_sequence a < u64_max →
  ledger a' ∧ ra_control_version a' ≤ ra_control_version a + 1 ∧ fault_sequence a' ≤ fault_sequence a + 1.
Proof.
  intros [Hm Hg] Hl Hcv Hfs. pose proof Hl as [Hv Hc Hh He Hf Hd [Hs0 Hs]].
  destruct Hm as [Hv' Ht Hcore [Hf1 Hf2]|f Hv' Ht Hc' Hf2 Hf1|request o Hnew Hn Hv' Hc' Hcore Ht [Hf1 Hf2]
                 |request c e Hnew Hn Hv' Hc' Ht [Hf1 Hf2]|o o' Hcur Hend Hv' Hc' Ht [Hf1 Hf2]].
  - split; [|lia]. assert (past a' = past a) as Hp.
    { unfold past. rewrite Hv'. by destruct (current_entry a), (current_entry a'). }
    assert (∀ o', current_entry a' = Some o' → ∃ o, current_entry a = Some o ∧ core o' = core o) as Hback.
    { intros o' Ho'. rewrite Ho' in Hcore. destruct (current_entry a) as [o|]; [|done]. exists o. split; [done|]. by apply (inj Some). }
    split; rewrite ?Hp, ?Hg, ?Ht, ?Hf1, ?Hf2; try done.
    + intros o' (o & Ho & Hco)%Hback. apply core_eq in Hco as (_ & -> & _ & -> & _). rewrite Hv'. by apply Hc.
    + unfold entries in *. rewrite Ht. apply Forall_app in He as [He1 He2]. apply Forall_app. split; [|done].
      destruct (current_entry a') as [o'|] eqn:Ho'; [|constructor]. destruct (Hback o' eq_refl) as (o & Ho & Hco).
      rewrite Ho in He1. apply Forall_cons in He1 as [[Hg1 Hok] _]. apply core_eq in Hco as (Hg' & _ & _ & _ & Hok').
      constructor; [|constructor]. split; [congruence|by apply Hok'].
    + unfold entries in *. rewrite Ht. rewrite fmap_app in Hd |- *.
      destruct (current_entry a') as [o'|] eqn:Ho', (current_entry a) as [o|] eqn:Ho; try done.
      destruct (Hback o' eq_refl) as (o1 & [= <-] & Hco). apply core_eq in Hco as (_ & _ & Hid & _). simpl in *. by rewrite Hid.
  - rewrite u64_succ in Hf2 by done. split; [|lia]. assert (past a' = past a) as Hp by (unfold past; by rewrite Hv', Hc').
    split; unfold entries; rewrite ?Hp, ?Hg, ?Ht, ?Hc', ?Hv'; try done. split; [lia|].
    rewrite Hf1, retain_fmap, Hs, Hf2. apply retain_window; [unfold FAULT_RETENTION; lia|done].
  - unfold control_version_advance in Hv'. rewrite u64_succ in Hv' by done. split; [|lia].
    assert (past a' = past a) as Hp by (unfold past; rewrite Hc', Hn, Hv'; simpl; lia).
    change (core o = core (scheduled request InProgress a')) in Hcore.
    apply core_eq in Hcore as (Hco1 & Hco2 & Hco3 & Hco4 & Hco5). simpl in *.
    unfold entries in He, Hd. rewrite Hn in He, Hd. simpl in He, Hd.
    split; unfold entries; rewrite ?Hp, ?Hg, ?Ht, ?Hc', ?Hf1, ?Hf2; try done.
    + by intros ? [= <-].
    + simpl. constructor; [|done]. split; [congruence|]. by apply Hco5.
    + simpl. apply NoDup_cons. split; [|done]. rewrite Hco3. by apply (find_correlated_new a (cr_action_id request)).
  - unfold control_version_advance in Hv'. rewrite u64_succ in Hv' by done. split; [|lia].
    assert (past a = ra_control_version a) as Hp by (unfold past; rewrite Hn; simpl; lia).
    eapply retain_ledger; [done..|lia|done|done| | | |].
    + split; [done|]. unfold outcome_ok. simpl. split_and!; eauto.
    + simpl. lia.
    + by right.
    + by apply (find_correlated_new a (cr_action_id request)).
  - split; [|lia]. assert (past a + 1 = ra_control_version a) as Hp by (unfold past; rewrite Hcur; simpl; lia).
    destruct (Hc o Hcur) as [Ho1 Ho2]. unfold entries in He, Hd. rewrite Hcur in He, Hd. simpl in He, Hd.
    apply Forall_cons in He as [[Ho3 Ho4] _]. apply NoDup_cons in Hd as [Hd _].
    destruct (ends_entry o o' Ho4 Ho2 Hend) as (E1 & E2 & E3 & E4 & E5).
    eapply retain_ledger; [done..|lia|done|done|split; [congruence|done]|lia|done|by rewrite E3].
Qed.

Lemma run_agent_ledger `{Ends : Endpoints} evs a a' outs :
  ledger a → ra_control_version a + Z.of_nat (length evs) ≤ u64_max →
  fault_sequence a + Z.of_nat (length evs) ≤ u64_max →
  run_agent evs a = Some (a', outs) →
  ledger a' ∧ ra_generation a' = ra_generation a ∧ ra_control_version a' ≤ u64_max.
Proof.
  revert a outs. induction evs as [|[e ev] evs IH]; intros a outs Hl Hv Hf H; simpl in H.
  { injection H as <- _. by split_and!; [|..|simpl in Hv; lia]. }
  apply bind_Some in H as ([a1 o1] & Hs%agent_step_moves & H). apply bind_Some in H as ([a2 o2] & Hr & [= <- _]).
  cbn [length] in *. destruct (steps_ledger _ _ Hs Hl) as (Hl1 & ? & ?); [lia..|]. destruct Hs as [_ Hg].
  destruct (IH a1 o2) as (Hl2 & Hg2 & Hm2); [done|lia..|done|]. split_and!; [done|congruence|done].
Qed.
