(* ===== verification/Grpc.v ===== *)
(** The two gRPC services of a pod and their clients
    (kuberic-core/src/grpc/server.rs, handle.rs, peer_server.rs,
    peer_client.rs): what a call makes of the agent's answer on the serving
    side, and of the response on the calling side. *)

From S2P Require Import Prelude Types Quorum Replicator Identity Lifecycle AddReplica RemoveReplica Control Agent Proto Convert.

Set Default Goal Selector "!".

(** ** Statuses of calls *)

(** The canonical status codes of gRPC. *)
Inductive Code :=
| CodeOk
| CodeCancelled
| CodeUnknown
| CodeInvalidArgument
| CodeDeadlineExceeded
| CodeNotFound
| CodeAlreadyExists
| CodePermissionDenied
| CodeResourceExhausted
| CodeFailedPrecondition
| CodeAborted
| CodeOutOfRange
| CodeUnimplemented
| CodeInternal
| CodeUnavailable
| CodeDataLoss
| CodeUnauthenticated.

(** What the code reads of a [tonic::Status]. *)
Record Status := mkStatus { code : Code; message : string }.

(** ** The serving side *)

Definition runtime_error_status (error : KubericError) : Status :=
  let text := error_to_string error in
  match error with
  | NoWriteQuorum => mkStatus CodeUnavailable text
  | AgentBusy => mkStatus CodeResourceExhausted text
  | ActionIdConflict _ => mkStatus CodeAlreadyExists text
  | ActionSignatureMismatch _ | InvalidCorrelatedActionId => mkStatus CodeInvalidArgument text
  | UnsupportedControlProtocolVersion _ => mkStatus CodeUnimplemented text
  | CorrelatedTargetMismatch _ _ _ _ | StaleAgentGeneration _ _ | StaleAgentControlVersion _ _ | StaleEpoch _ _ =>
      mkStatus CodeFailedPrecondition text
  | CorrelatedContinuityUnavailable _ => mkStatus CodeAborted text
  | _ => mkStatus CodeInternal text
  end.

Definition peer_error_status (error : KubericError) : Status :=
  let text := error_to_string error in
  match error with
  | UnsupportedPeerProtocolVersion _ => mkStatus CodeUnimplemented text
  | PeerStageIdConflict _ => mkStatus CodeAlreadyExists text
  | PeerStageTargetMismatch _ | PeerStageStale _ | StaleAgentGeneration _ _ | StaleEpoch _ _ =>
      mkStatus CodeFailedPrecondition text
  | ActionSignatureMismatch _ => mkStatus CodeInvalidArgument text
  | AgentBusy => mkStatus CodeResourceExhausted text
  | Closed => mkStatus CodeUnavailable text
  | _ => mkStatus CodeInternal text
  end.

(** [send_cmd]: the agent's answer, or [None] where its channel or the sender
    of the answer is gone. *)
Definition send_cmd {T} (answer : option (result KubericError T)) : result Status T :=
  answer ← ok_or answer (mkStatus CodeUnavailable "runtime closed");
  map_err runtime_error_status answer.

Definition connection_proto (c : ReplicaConnectionStatus) : ReplicaConnectionStatusProto :=
  mkReplicaConnectionStatusProto (rcs_id c) (rcs_instance_id c).

Section services.
  Context {Ends : Endpoints}.

(** [ControlServer::get_status]. *)
Definition serve_get_status (answer : option ReplicaStatusInfo) : result Status GetStatusResponse :=
  info ← ok_or answer (mkStatus CodeUnavailable "runtime closed");
  let agent := si_agent info in
  current ← map_err (mkStatus CodeFailedPrecondition)
              (try_option correlated_observation_proto (as_current_action agent));
  retained ← map_err (mkStatus CodeFailedPrecondition)
               (try_map correlated_observation_proto (as_retained_terminal_actions agent));
  Ok (mkGetStatusResponse (as_i32 (role_proto (si_role info))) (Some (epoch_proto (si_epoch info)))
        (si_current_progress info) (si_catch_up_capability info) (si_committed_lsn info) (si_healthy info)
        (si_instance_id info) (Some (as_i32 (access_status_proto (si_write_status info))))
        (configuration_status_proto <$> si_configuration info)
        (connection_proto <$> si_active_replica_connections info)
        (deactivation_info_proto <$> si_deactivation_info info)
        (election_configuration_proto <$> si_election_configuration info)
        (as_protocol_version agent) (as_generation agent) (as_control_version agent) current retained
        (fault_record_proto <$> as_local_faults agent) (build_observation_proto <$> si_build_observation info)
        (as_lifecycle_peer_protocol_version agent)).

(** [ControlServer::execute_correlated_control_action]. *)
Definition serve_execute_correlated
    (agent : CorrelatedControlActionRequest → option (result KubericError CorrelatedActionObservation))
    (p : ExecuteCorrelatedControlActionRequest) : result Status (option CorrelatedActionObservationProto) :=
  request ← map_err (mkStatus CodeInvalidArgument) (try_correlated_request p);
  acknowledgement ← send_cmd (agent request);
  observation ← map_err (mkStatus CodeFailedPrecondition) (correlated_observation_proto acknowledgement);
  Ok (Some observation).

(** [PeerServer::get_lifecycle_status]. *)
Definition serve_get_lifecycle_status
    (agent : ReplicaId → ReplicaInstanceId → AgentGeneration → option (result KubericError PeerLifecycleStatus))
    (p : GetLifecycleStatusRequest) : result Status GetLifecycleStatusResponse :=
  reject_if (negb (glsq_protocol_version p =? REPLICA_LIFECYCLE_PEER_PROTOCOL_VERSION))
    (mkStatus CodeUnimplemented
       ("unsupported replica lifecycle peer protocol version " +:+ pretty (glsq_protocol_version p)));;
  generation ← map_err (mkStatus CodeInvalidArgument) (agent_generation_parse (glsq_expected_target_agent_generation p));
  answer ← ok_or (agent (glsq_target_replica_id p) (glsq_target_instance_id p) generation)
             (mkStatus CodeUnavailable "replica agent closed");
  status ← map_err peer_error_status answer;
  Ok (lifecycle_status_proto status).

(** [PeerServer::execute_lifecycle_stage]. *)
Definition serve_execute_stage (agent : PeerStageRequest → option (result KubericError PeerStageObservation))
    (p : ExecuteLifecycleStageRequest) : result Status (option PeerStageObservationProto) :=
  request ← map_err (mkStatus CodeInvalidArgument) (try_stage_request p);
  answer ← ok_or (agent request) (mkStatus CodeUnavailable "replica agent closed");
  observation ← map_err peer_error_status answer;
  Ok (Some (stage_observation_proto observation)).

(** ** The operator's handle on a replica *)

(** A handle without its channel. *)
Record GrpcReplicaHandle := mkGrpcReplicaHandle {
  gh_id : ReplicaId;
  gh_instance_id : ReplicaInstanceId;
  gh_control_address : string;
  gh_data_address : option string;
  gh_current_progress : Lsn;
  gh_catch_up_capability : Lsn;
}.
Definition replicator_address (h : GrpcReplicaHandle) : string := default "" (gh_data_address h).

(** How an address that is no endpoint, a connection that fails and a status
    are rendered, by http and tonic. *)
Context (invalid_address : string → string) (status_text : Status → string).

(** [connect_inner]; [connected] is what connecting the channel ends with. *)
Definition connect_inner (id : ReplicaId) (instance_id : ReplicaInstanceId) (control_address : string)
    (data_address : option string) (connected : result string unit) : result KubericError GrpcReplicaHandle :=
  reject_if (negb (endpoint_valid control_address)) (Internal (invalid_address control_address));;
  map_err Internal connected;;
  Ok (mkGrpcReplicaHandle id instance_id control_address data_address 0 0).

Definition handle_map_err (error : Status) : KubericError :=
  let text := message error in
  match code error with
  | CodeFailedPrecondition =>
      if contains "replica-agent" text || contains "stale agent" text || contains "stale epoch" text
         || contains "correlated action target" text
      then RemoteAgentPreconditionRejected text else NotPrimary
  | CodeResourceExhausted => AgentBusy
  | CodeAlreadyExists => RemoteAgentConflict text
  | CodeAborted => RemoteAgentContinuityUnavailable text
  | CodeUnimplemented => RemoteControlProtocolUnsupported text
  | CodeInvalidArgument => RemoteAgentRequestRejected text
  | CodeUnavailable =>
      if contains "no write quorum" text then NoWriteQuorum
      else if contains "reconfiguration" text then ReconfigurationPending
      else Internal (status_text error)
  | _ => Internal (status_text error)
  end.

Definition invalid_status (message : string) : KubericError := RemoteAgentRequestRejected message.

Definition validate_protocol_version (version : Z) : result KubericError unit :=
  reject_if (negb (version =? CORRELATED_CONTROL_PROTOCOL_VERSION))
    (RemoteControlProtocolUnsupported ("replica-agent status protocol version must be " +:+
       pretty CORRELATED_CONTROL_PROTOCOL_VERSION +:+ ", got " +:+ pretty version)).

Definition validate_observation (agent : ReplicaAgentStatus) (o : CorrelatedActionObservation) :
    result KubericError unit :=
  let d := co_action o in
  let action := "action " +:+ do_action_id d in
  reject_if (negb (bool_decide (co_generation o = as_generation agent)))
    (invalid_status (action +:+ " belongs to another agent generation"));;
  reject_if (as_control_version agent <? co_control_version o)
    (invalid_status (action +:+ " has control version beyond agent status"));;
  reject_if (co_control_version o =? 0) (invalid_status (action +:+ " has zero control version"));;
  match do_state d with
  | Scheduled | InProgress =>
      reject_if (negb (none (do_error_class d)) || negb (none (do_error d)) || negb (none (do_result d)))
        (invalid_status ("non-terminal " +:+ action +:+ " carries a terminal outcome"))
  | Completed =>
      reject_if (negb (none (do_error_class d)) || negb (none (do_error d)))
        (invalid_status ("completed " +:+ action +:+ " carries an error"))
  | Failed =>
      reject_if (none (do_error_class d) || none (do_error d) || negb (none (do_result d)))
        (invalid_status ("failed " +:+ action +:+ " has a malformed outcome"))
  end.

Definition is_terminal (s : DurableActionState) : bool :=
  match s with Completed | Failed => true | Scheduled | InProgress => false end.

(** [windows(2).any(f)]. *)
Fixpoint any_window {A} (f : A → A → bool) (l : list A) : bool :=
  match l with
  | x :: (y :: _) as l => f x y || any_window f l
  | _ => false
  end.

Definition validate_current (agent : ReplicaAgentStatus) : result KubericError (gset string) :=
  match as_current_action agent with
  | Some current =>
      validate_observation agent current;;
      reject_if (negb (co_control_version current =? as_control_version agent))
        (invalid_status "replica-agent current action control version is not current");;
      reject_if (is_terminal (do_state (co_action current))) (invalid_status "replica-agent current action is terminal");;
      Ok {[do_action_id (co_action current)]}
  | None => Ok ∅
  end.

Definition validate_retained (agent : ReplicaAgentStatus) (action_ids : gset string) (o : CorrelatedActionObservation) :
    result KubericError (gset string) :=
  validate_observation agent o;;
  reject_if (negb (is_terminal (do_state (co_action o)))) (invalid_status "replica-agent retained action is not terminal");;
  reject_if (bool_decide (do_action_id (co_action o) ∈ action_ids))
    (invalid_status ("replica-agent returned duplicate action ID " +:+ do_action_id (co_action o)));;
  Ok ({[do_action_id (co_action o)]} ∪ action_ids).

Definition validate_agent_observations (agent : ReplicaAgentStatus) : result KubericError unit :=
  let retained := as_retained_terminal_actions agent in
  let version := as_control_version agent in
  reject_if (TERMINAL_RETENTION <? length retained)%nat
    (invalid_status ("replica-agent returned " +:+ pretty (length retained) +:+
       " retained terminal actions; maximum is " +:+ pretty TERMINAL_RETENTION));;
  reject_if (FAULT_RETENTION <? length (as_local_faults agent))%nat
    (invalid_status ("replica-agent returned " +:+ pretty (length (as_local_faults agent)) +:+
       " local faults; maximum is " +:+ pretty FAULT_RETENTION));;
  let accepted_terminal_count := Z.max 0 (version - (if none (as_current_action agent) then 0 else 1)) in
  let expected_retained := Z.min accepted_terminal_count (Z.of_nat TERMINAL_RETENTION) in
  reject_if (negb (Z.of_nat (length retained) =? expected_retained))
    (invalid_status ("replica-agent retained " +:+ pretty (length retained) +:+ " terminal actions, expected " +:+
       pretty expected_retained +:+ " at control version " +:+ pretty version));;
  action_ids ← validate_current agent;
  try_fold (validate_retained agent) action_ids retained;;
  reject_if (any_window (λ o p, negb (u64_saturating_add (co_control_version o) 1 =? co_control_version p)) retained)
    (invalid_status "replica-agent retained actions are not control-version contiguous");;
  (match as_current_action agent, last retained with
   | Some current, Some terminal =>
       reject_if (negb (u64_saturating_add (co_control_version terminal) 1 =? co_control_version current))
         (invalid_status "replica-agent current action does not follow retained history")
   | None, Some terminal =>
       reject_if (negb (co_control_version terminal =? version))
         (invalid_status "replica-agent newest terminal is not at the current control version")
   | None, None =>
       reject_if (negb (version =? 0))
         (invalid_status "replica-agent has a nonzero control version without action history")
   | Some _, None => Ok tt
   end);;
  reject_if (any_window (λ f g, lf_sequence g <=? lf_sequence f) (as_local_faults agent)
             || match head (as_local_faults agent) with Some f => lf_sequence f =? 0 | None => false end)
    (invalid_status "replica-agent local faults are not in sequence order").

Definition decode_runtime_configuration (c : option ReplicaConfigurationStatusProto) :
    result KubericError (option ReplicaConfigurationStatus) :=
  map_err invalid_status (try_option try_runtime_configuration_status c).

Definition decode_write_status (value : option Z) : result KubericError AccessStatus :=
  value ← ok_or value (invalid_status "missing runtime write status");
  map_err invalid_status (try_access_status value).

Definition connection_from (c : ReplicaConnectionStatusProto) : ReplicaConnectionStatus :=
  mkReplicaConnectionStatus (rcsp_id c) (rcsp_instance_id c).

(** What [get_status] reads before it records the replica's progress. *)
Definition decode_agent_status (r : GetStatusResponse) : result KubericError ReplicaAgentStatus :=
  generation ← map_err invalid_status (agent_generation_parse (gsr_agent_generation r));
  current ← map_err invalid_status (try_option try_correlated_observation (gsr_current_agent_action r));
  retained ← map_err invalid_status (try_map try_correlated_observation (gsr_retained_terminal_actions r));
  faults ← map_err invalid_status (try_map try_fault_record (gsr_local_faults r));
  let agent := mkReplicaAgentStatus (gsr_replica_agent_protocol_version r)
    (gsr_replica_lifecycle_peer_protocol_version r) generation (gsr_agent_control_version r) current retained faults in
  validate_agent_observations agent;;
  Ok agent.

Record StatusPrefix := mkStatusPrefix {
  sp_epoch : Epoch;
  sp_role : Role;
  sp_agent : ReplicaAgentStatus;
  sp_election : option ReplicaElectionConfiguration;
  sp_deactivation : option ReplicaDeactivationInfo;
}.
Definition decode_prefix (r : GetStatusResponse) : result KubericError StatusPrefix :=
  validate_protocol_version (gsr_replica_agent_protocol_version r);;
  reject_if (negb (gsr_replica_lifecycle_peer_protocol_version r =? REPLICA_LIFECYCLE_PEER_PROTOCOL_VERSION))
    (RemoteControlProtocolUnsupported ("replica lifecycle peer protocol version must be " +:+
       pretty REPLICA_LIFECYCLE_PEER_PROTOCOL_VERSION +:+ ", got " +:+
       pretty (gsr_replica_lifecycle_peer_protocol_version r)));;
  reject_if (empty (gsr_instance_id r)) (invalid_status "missing runtime replica incarnation");;
  epoch ← ok_or (gsr_epoch r) (invalid_status "missing runtime epoch");
  role ← map_err invalid_status (known (gsr_role r) "unknown runtime role ");
  agent ← decode_agent_status r;
  election ← map_err invalid_status (try_option try_election_configuration (gsr_election_configuration r));
  deactivation ← map_err invalid_status (try_option try_deactivation_info (gsr_deactivation_info r));
  Ok (mkStatusPrefix (epoch_from epoch) (role_from role) agent election deactivation).

Definition decode_rest (r : GetStatusResponse) (p : StatusPrefix) : result KubericError ReplicaStatusInfo :=
  write_status ← decode_write_status (gsr_write_status r);
  configuration ← decode_runtime_configuration (gsr_configuration r);
  build ← map_err invalid_status (try_option try_build_observation (gsr_build_observation r));
  Ok (mkReplicaStatusInfo (gsr_instance_id r) (sp_role p) (sp_epoch p) (gsr_current_progress r)
        (gsr_catch_up_capability r) (gsr_committed_lsn r) (gsr_healthy r) write_status configuration
        (sp_election p) (sp_deactivation p) (connection_from <$> gsr_active_replica_connections r) build (sp_agent p)).

(** [get_status]: the handle keeps the progress of a response whose prefix is
    valid, also where the rest is not. *)
Definition handle_get_status (response : result Status GetStatusResponse) (h : GrpcReplicaHandle) :
    GrpcReplicaHandle * result KubericError ReplicaStatusInfo :=
  match response with
  | Err error => (h, Err (handle_map_err error))
  | Ok r =>
      match decode_prefix r with
      | Err error => (h, Err error)
      | Ok p =>
          (mkGrpcReplicaHandle (gh_id h) (gh_instance_id h) (gh_control_address h) (gh_data_address h)
             (gsr_current_progress r) (default 0 (gsr_catch_up_capability r)),
           decode_rest r p)
      end
  end.

(** [execute_correlated_control_action], over a service. *)
Definition handle_execute_correlated
    (service : ExecuteCorrelatedControlActionRequest → result Status (option CorrelatedActionObservationProto))
    (request : CorrelatedControlActionRequest) : result KubericError CorrelatedActionObservation :=
  p ← map_err invalid_status (correlated_request_proto request);
  response ← map_err handle_map_err (service p);
  observation ← ok_or response (invalid_status "missing correlated control acknowledgement");
  map_err invalid_status (try_correlated_observation observation).

(** ** The client of a lifecycle peer *)

Record GrpcPeerClient := mkGrpcPeerClient {
  gp_target_replica_id : ReplicaId;
  gp_target_instance_id : ReplicaInstanceId;
  gp_target_generation : AgentGeneration;
}.

(** [connect_with_timeout]; [connected] is [None] where the time ran out. *)
Definition connect_with_timeout (address : string) (id : ReplicaId) (instance_id : ReplicaInstanceId)
    (generation : AgentGeneration) (timeout_nanos : Z) (connected : option (result string unit)) :
    result KubericError GrpcPeerClient :=
  reject_if (Z.min timeout_nanos 5000000000 =? 0) (RemotePeerUnavailable "peer connect budget is exhausted");;
  reject_if (negb (endpoint_valid address)) (Internal (invalid_address address));;
  connected ← ok_or connected (RemotePeerUnavailable "peer connect timed out");
  map_err RemotePeerUnavailable connected;;
  Ok (mkGrpcPeerClient id instance_id generation).

Definition peer_map_err (error : Status) : KubericError :=
  let text := message error in
  match code error with
  | CodeUnimplemented => RemoteControlProtocolUnsupported text
  | CodeAlreadyExists => RemoteAgentConflict text
  | CodeFailedPrecondition | CodeInvalidArgument => RemotePeerRequestRejected text
  | CodeResourceExhausted => AgentBusy
  | CodeUnavailable => RemotePeerUnavailable text
  | _ => Internal (status_text error)
  end.

(** [GrpcPeerClient::get_status], over a service that may run out of time. *)
Definition peer_get_status
    (service : GetLifecycleStatusRequest → option (result Status GetLifecycleStatusResponse)) (c : GrpcPeerClient) :
    result KubericError PeerLifecycleStatus :=
  response ← ok_or (service (mkGetLifecycleStatusRequest REPLICA_LIFECYCLE_PEER_PROTOCOL_VERSION
                      (gp_target_replica_id c) (gp_target_instance_id c) (gp_target_generation c)))
               (RemotePeerUnavailable "peer status timed out");
  response ← map_err peer_map_err response;
  s ← map_err RemotePeerRequestRejected (try_lifecycle_status response);
  reject_if (negb (pl_protocol_version s =? REPLICA_LIFECYCLE_PEER_PROTOCOL_VERSION)
             || negb (pl_target_replica_id s =? gp_target_replica_id c)
             || negb (bool_decide (pl_target_instance_id s = gp_target_instance_id c))
             || negb (bool_decide (pl_agent_generation s = gp_target_generation c))
             || (PEER_TERMINAL_RETENTION <? length (pl_retained_terminal_actions s))%nat)
    (RemotePeerRequestRejected "peer status does not match the expected target");;
  Ok s.

(** The observation answers the request, at the generation expected. *)
Definition answers_request (c : GrpcPeerClient) (request : PeerStageRequest) (o : PeerStageObservation) : bool :=
  (po_protocol_version o =? REPLICA_LIFECYCLE_PEER_PROTOCOL_VERSION)
  && bool_decide (po_operation_kind o = pr_operation_kind request)
  && (po_stage_semantic_version o =? pr_stage_semantic_version request)
  && bool_decide (po_message_id o = pr_message_id request)
  && bool_decide (po_input_signature o = pr_input_signature request)
  && bool_decide (po_stage o = pr_stage request)
  && bool_decide (po_target_agent_generation o = gp_target_generation c).

(** [GrpcPeerClient::execute_stage]. *)
Definition execute_stage
    (service : ExecuteLifecycleStageRequest → option (result Status (option PeerStageObservationProto)))
    (c : GrpcPeerClient) (request : PeerStageRequest) : result KubericError PeerStageObservation :=
  map_err RemotePeerRequestRejected (validate_request request);;
  p ← map_err RemotePeerRequestRejected (stage_request_proto request);
  response ← ok_or (service p) (RemotePeerUnavailable "peer stage timed out");
  response ← map_err peer_map_err response;
  observation ← ok_or response (RemotePeerRequestRejected "peer stage response has no observation");
  o ← map_err RemotePeerRequestRejected (try_stage_observation observation);
  reject_if (negb (answers_request c request o))
    (RemotePeerRequestRejected "peer stage response does not match the request");;
  Ok o.

End services.
