(* ===== verification/Calls.v ===== *)
(** Calls over gRPC, from the caller to the agent and back: what a caller
    learns is what the agent answered, or an error of the class that the
    answer belongs to. *)

From S2P Require Import Prelude Types Quorum Replicator Identity Lifecycle AddReplica RemoveReplica Control Agent RemoveCoordinator Proto Convert Wire Ledger Grpc.

Set Default Goal Selector "!".

(** ** Errors *)

(** What the operator makes of an agent's error. *)
Definition operator_sees (status_text : Status → string) (e : KubericError) : KubericError :=
  match e with
  | NoWriteQuorum => NoWriteQuorum
  | AgentBusy => AgentBusy
  | ActionIdConflict _ => RemoteAgentConflict (error_to_string e)
  | ActionSignatureMismatch _ | InvalidCorrelatedActionId => RemoteAgentRequestRejected (error_to_string e)
  | UnsupportedControlProtocolVersion _ => RemoteControlProtocolUnsupported (error_to_string e)
  | CorrelatedTargetMismatch _ _ _ _ | StaleAgentGeneration _ _ | StaleAgentControlVersion _ _ | StaleEpoch _ _ =>
      RemoteAgentPreconditionRejected (error_to_string e)
  | CorrelatedContinuityUnavailable _ => RemoteAgentContinuityUnavailable (error_to_string e)
  | _ => Internal (status_text (mkStatus CodeInternal (error_to_string e)))
  end.

(** The errors of a target that mean that the call itself is stale: another
    attempt of the same call cannot succeed. *)
Definition stale_call (e : KubericError) : bool :=
  match e with
  | UnsupportedPeerProtocolVersion _ | PeerStageIdConflict _ | PeerStageTargetMismatch _ | PeerStageStale _
  | StaleAgentGeneration _ _ | StaleEpoch _ _ | ActionSignatureMismatch _ => true
  | _ => false
  end.

(** ** Statuses *)

(** What a runtime shows fits the wire. *)
Record wire_runtime (rt : RuntimeControlSnapshot) : Prop := {
  wrt_instance : rt_instance_id rt ≠ "";
  wrt_configuration : ∀ c, rt_configuration rt = Some c → wire_runtime_status c;
  wrt_election : ∀ c, rt_election_configuration rt = Some c → wire_election c;
  wrt_build : ∀ b, rt_build_observation rt = Some b → wire_build b;
}.

Lemma any_window_false {A} (f : A → A → bool) l :
  (∀ i x y, l !! i = Some x → l !! S i = Some y → f x y = false) → any_window f l = false.
Proof.
  induction l as [|x [|y l] IH]; intros H; [done..|]. cbn [any_window]. rewrite (H 0%nat x y) by done. simpl.
  apply IH. intros i a b Ha Hb. by apply (H (S i)).
Qed.

(** Neighbours in a window follow each other. *)
Lemma window_neighbours {A} (g : A → Z) b v l i x y :
  g <$> l = window b v → l !! i = Some x → l !! S i = Some y → g y = g x + 1.
Proof.
  intros Hw Hx Hy. assert (window b v !! i = Some (g x) ∧ window b v !! S i = Some (g y)) as [Hwx Hwy].
  { rewrite <-Hw, !list_lookup_fmap, Hx, Hy. done. }
  unfold window in Hwx, Hwy. apply lookup_seqZ in Hwx as [-> _], Hwy as [-> _]. lia.
Qed.

Section delivery.
  Context {Ends : Endpoints}.

Lemma validate_observation_Ok s o :
  entry_ok (as_generation s) o → 1 ≤ co_control_version o ≤ as_control_version s → validate_observation s o = Ok tt.
Proof.
  intros [Hg Ho] Hv. unfold validate_observation. rewrite bool_decide_eq_true_2 by done. simpl.
  rewrite (proj2 (Z.ltb_ge _ _)), (proj2 (Z.eqb_neq _ _)) by lia. simpl.
  unfold outcome_ok in Ho. destruct (do_state (co_action o)); simpl.
  1,2: by destruct Ho as (-> & -> & ->).
  - by destruct Ho as (-> & ->).
  - by destruct Ho as ([? ->] & [? ->] & ->).
Qed.

Lemma finished_terminal o : finished o → is_terminal (do_state (co_action o)) = true.
Proof. by intros [-> | ->]. Qed.

Lemma validate_retained_fold s ids l :
  Forall (λ o, validate_observation s o = Ok tt ∧ finished o) l → NoDup (action_id <$> l) →
  (∀ o, o ∈ l → action_id o ∉ ids) → is_ok (try_fold (validate_retained s) ids l) = true.
Proof.
  revert ids. induction l as [|o l IH]; intros ids Hl Hd Hi; [done|].
  apply Forall_cons in Hl as [[Ho Hf] Hl]. rewrite fmap_cons in Hd. apply NoDup_cons in Hd as [Hn Hd].
  assert (validate_retained s ids o = Ok ({[action_id o]} ∪ ids)) as Hr.
  { unfold validate_retained. rewrite Ho, finished_terminal by done. simpl.
    by rewrite (bool_decide_eq_false_2 (_ ∈ ids)) by (apply Hi; left). }
  cbn [try_fold]. rewrite Hr. apply IH; [done..|].
  intros o' Ho'. apply not_elem_of_union. split; [|apply Hi; by right].
  intros He%elem_of_singleton. apply Hn. rewrite <-He. by apply list_elem_of_fmap_2.
Qed.

Lemma reject_no {E} (c : bool) (e : E) : c = false → reject_if c e = Ok tt.
Proof. by intros ->. Qed.

(** An agent's ledger passes the operator's checks. *)
Lemma ledger_validates rt a :
  ledger a → ra_control_version a ≤ u64_max → validate_agent_observations (si_agent (agent_status rt a)) = Ok tt.
Proof.
  intros [Hv Hc Hh He Hf Hd [Hs0 Hs]] Hmax.
  assert (Z.of_nat (length (terminals a)) = Z.min (past a) 16) as Hlen.
  { rewrite <-(length_fmap co_control_version), Hh. by apply length_window. }
  assert (Z.of_nat (length (faults a)) = Z.min (fault_sequence a) 16) as Hlf.
  { rewrite <-(length_fmap lf_sequence), Hs. by apply length_window. }
  unfold validate_agent_observations. cbn [si_agent agent_status as_current_action as_retained_terminal_actions
    as_control_version as_local_faults]. fold (current_entry a).
  rewrite (reject_no (TERMINAL_RETENTION <? length (terminals a))%nat) by (apply Nat.ltb_ge; unfold TERMINAL_RETENTION; lia). cbn [mbind result_bind].
  rewrite (reject_no (FAULT_RETENTION <? length (faults a))%nat) by (apply Nat.ltb_ge; unfold FAULT_RETENTION; lia). cbn [mbind result_bind].
  fold (past a). rewrite (reject_no (negb (Z.of_nat (length (terminals a)) =? _))) by (apply negb_false_iff, Z.eqb_eq; unfold TERMINAL_RETENTION; lia).
  cbn [mbind result_bind]. set (s := mkReplicaAgentStatus _ _ _ _ _ _ _).
  assert (past a ≤ ra_control_version a) as Hpast by (unfold past; destruct (none _); lia).
  unfold entries in He, Hd. apply Forall_app in He as [He1 He2]. rewrite fmap_app in Hd. apply NoDup_app in Hd as (_ & Hd1 & Hd2).
  assert (∃ ids, validate_current s = Ok ids ∧ ∀ o, o ∈ terminals a → action_id o ∉ ids) as (ids & -> & Hids).
  { unfold validate_current. cbn [s as_current_action as_control_version]. destruct (current_entry a) as [o|] eqn:Ho; [|exists ∅; split; [done|set_solver]].
    destruct (Hc o eq_refl) as [Hov Host]. apply Forall_cons in He1 as [He1 _].
    rewrite validate_observation_Ok; [|done|simpl; unfold past in Hv; rewrite Ho in Hv; simpl in Hv; lia]. simpl.
    rewrite Hov, Z.eqb_refl, Host. simpl. eexists. split; [done|]. intros t Ht Hin%elem_of_singleton.
    apply (Hd1 (action_id o)); [left|]. rewrite <-(Hin : action_id t = action_id o). by apply list_elem_of_fmap_2. }
  cbn [mbind result_bind].
  assert (is_ok (try_fold (validate_retained s) ids (terminals a)) = true) as Hfold.
  { apply validate_retained_fold; [|done|done]. rewrite Forall_forall in He2, Hf. apply Forall_forall. intros o Ho.
    split; [|by apply Hf]. apply validate_observation_Ok; [by apply He2|].
    assert (co_control_version o ∈ window TERMINAL_RETENTION (past a)) as Hw by (rewrite <-Hh; by apply list_elem_of_fmap_2).
    apply elem_of_window in Hw. simpl. lia. }
  destruct (try_fold _ _ _); [|done]. cbn [mbind result_bind].
  rewrite (reject_no (any_window _ (terminals a))).
  2: { apply any_window_false. intros i x y Hx Hy. pose proof (window_neighbours _ _ _ _ _ _ _ Hh Hx Hy) as Hxy.
    assert (co_control_version y ∈ window TERMINAL_RETENTION (past a)) as Hw.
    { rewrite <-Hh. apply list_elem_of_fmap_2. by eapply list_elem_of_lookup_2. }
    apply elem_of_window in Hw. apply negb_false_iff, Z.eqb_eq. rewrite u64_succ; lia. }
  cbn [mbind result_bind].
  assert (∀ t, last (terminals a) = Some t → co_control_version t = past a) as Hlast.
  { intros t Ht. assert (last (window TERMINAL_RETENTION (past a)) = Some (co_control_version t)) as Hw.
    { rewrite <-Hh, fmap_last, Ht. done. }
    rewrite last_window in Hw; [congruence|unfold TERMINAL_RETENTION; lia|].
    destruct (decide (past a = 0)) as [Hz|]; [|lia]. rewrite Hz in Hlen. destruct (terminals a); [done|simpl in Hlen; lia]. }
  assert (match current_entry a, last (terminals a) with
    | Some current, Some terminal => negb (u64_saturating_add (co_control_version terminal) 1 =? co_control_version current)
    | None, Some terminal => negb (co_control_version terminal =? ra_control_version a)
    | None, None => negb (ra_control_version a =? 0)
    | Some _, None => false end = false) as Hnewest.
  { unfold past in *. destruct (current_entry a) as [o|] eqn:Ho, (last (terminals a)) as [t|] eqn:Ht; simpl in *.
    - destruct (Hc o eq_refl) as [-> _]. rewrite (Hlast t eq_refl), u64_succ by lia. apply negb_false_iff, Z.eqb_eq. lia.
    - done.
    - rewrite (Hlast t eq_refl). apply negb_false_iff, Z.eqb_eq. lia.
    - apply last_None in Ht. rewrite Ht in Hlen. simpl in Hlen. apply negb_false_iff, Z.eqb_eq. lia. }
  destruct (current_entry a), (last (terminals a)); rewrite ?Hnewest; cbn [reject_if mbind result_bind].
  all: apply reject_no, orb_false_iff; split; [apply any_window_false|].
  all: try (intros i x y Hx Hy; pose proof (window_neighbours _ _ _ _ _ _ _ Hs Hx Hy); apply Z.leb_gt; lia).
  all: destruct (head (faults a)) as [f|] eqn:Hfh; [|done]; apply Z.eqb_neq;
    assert (head (window FAULT_RETENTION (fault_sequence a)) = Some (lf_sequence f)) as Hw
      by (rewrite <-Hs; destruct (faults a); [done|]; by injection Hfh as ->);
    apply head_window in Hw; lia.
Qed.

(** ** Theorems *)

Context (status_text : Status → string).

(** C21. Errors keep their class over the wire. The operator is told apart a
    busy agent, a lost quorum, a reused action ID, a malformed request, an
    unsupported protocol, a stale fence and an unprovable continuity, and any
    other error is internal; a coordinator gives up a call to a target as
    stale exactly when the target's error says that the call itself is stale,
    and otherwise may try again. *)
Theorem error_classes_survive e :
  handle_map_err status_text (runtime_error_status e) = operator_sees status_text e ∧
  (te_kind (lifecycle_transport_error (peer_map_err status_text (peer_error_status e))) = Stale ↔ stale_call e = true).
Proof.
  split; [|by destruct e].
  assert (∀ e, contains "stale agent" (error_to_string e) = true ∨ contains "stale epoch" (error_to_string e) = true ∨
      contains "correlated action target" (error_to_string e) = true →
    handle_map_err status_text (mkStatus CodeFailedPrecondition (error_to_string e)) =
      RemoteAgentPreconditionRejected (error_to_string e)) as Hstale.
  { intros e' He. unfold handle_map_err. cbn [code message]. cbv zeta.
    destruct He as [-> | [-> | ->]]; by rewrite ?orb_true_r. }
  destruct e; try reflexivity; apply Hstale;
    first [left; reflexivity|right; left; reflexivity|right; right; reflexivity].
Qed.

(** A stage call returns what the target's agent answers, and nothing
    else: a request that validates is delivered to the agent as it is, and the
    caller gets the agent's observation when it is one of this request at the
    expected generation, an error otherwise; a request that does not validate
    is not sent; and whatever a service responds, an observation returned
    carries the message ID, the signature, the stage and the operation kind of
    the request. *)
Theorem stage_call_exact agent c request :
  wire_stage request → (∀ o, agent request = Some (Ok o) → wire_stage_observation o) →
  execute_stage status_text (λ p, Some (serve_execute_stage agent p)) c request =
    match agent request with
    | None => Err (RemotePeerUnavailable "replica agent closed")
    | Some (Err e) => Err (peer_map_err status_text (peer_error_status e))
    | Some (Ok o) =>
        if answers_request c request o then Ok o
        else Err (RemotePeerRequestRejected "peer stage response does not match the request")
    end ∧
  ∀ service o, execute_stage status_text service c request = Ok o →
    po_message_id o = pr_message_id request ∧ po_input_signature o = pr_input_signature request ∧
    po_stage o = pr_stage request ∧ po_operation_kind o = pr_operation_kind request ∧
    po_target_agent_generation o = gp_target_generation c.
Proof.
  intros Hw Ho. split.
  - destruct (stage_request_exact _ Hw) as (p & Hp & Hq). unfold execute_stage, serve_execute_stage.
    destruct Hw as [Hv _]. rewrite Hv, Hp. simpl. rewrite Hq. simpl.
    destruct (agent request) as [[o|e]|]; [|done..]. simpl. rewrite stage_observation_exact by by apply Ho.
    simpl. by destruct (answers_request c request o).
  - intros service o H. unfold execute_stage in H. do 2 apply bind_Ok in H as (? & _ & H).
    do 4 apply bind_Ok in H as (? & _ & H). apply bind_Ok in H as ([] & Hc%reject_if_Ok & [= <-]).
    apply negb_false_iff in Hc. unfold answers_request in Hc. rewrite !andb_true_iff, !bool_decide_eq_true in Hc. naive_solver.
Qed.

Lemma connection_exact c : connection_from (connection_proto c) = c.
Proof. by destruct c. Qed.

Lemma try_map_encode l :
  Forall wire_observation l → ∃ ps, try_map correlated_observation_proto l = Ok ps ∧ try_map try_correlated_observation ps = Ok l.
Proof.
  induction 1 as [|o l Ho _ (ps & IH1 & IH2)]; [by exists []|].
  destruct (correlated_observation_exact _ Ho) as (p & Hp & Hq). exists (p :: ps). cbn [try_map].
  by rewrite Hp, Hq, IH1, IH2.
Qed.

(** An agent's status, decoded by the operator: itself. *)
Lemma status_exact rt a h :
  ledger a → ra_control_version a ≤ u64_max → generation_ok (ra_generation a) → wire_runtime rt →
  Forall wire_observation (entries a) →
  (handle_get_status status_text (serve_get_status (Some (agent_status rt a))) h).2 = Ok (agent_status rt a).
Proof.
  intros Hl Hmax Hg [R1 R2 R3 R4] [He1 He2]%Forall_app. pose proof (ledger_validates rt a Hl Hmax) as Hval.
  destruct (try_map_encode _ He2) as (ps & Hps & Hqs).
  assert (∃ q, try_option correlated_observation_proto (current_entry a) = Ok q ∧
    try_option try_correlated_observation q = Ok (current_entry a)) as (q & Hq1 & Hq2).
  { destruct (current_entry a) as [o|]; [|by exists None]. apply Forall_cons in He1 as [He1 _].
    destruct (correlated_observation_exact _ He1) as (p & Hp & Hq). exists (Some p). simpl. by rewrite Hp, Hq. }
  unfold serve_get_status. cbn [ok_or mbind result_bind agent_status si_agent as_current_action as_retained_terminal_actions].
  fold (current_entry a). rewrite Hq1, Hps. cbn [map_err mbind result_bind].
  unfold handle_get_status, decode_prefix, validate_protocol_version.
  cbn [gsr_replica_agent_protocol_version gsr_replica_lifecycle_peer_protocol_version gsr_instance_id gsr_epoch gsr_role
    gsr_election_configuration gsr_deactivation_info as_protocol_version as_lifecycle_peer_protocol_version].
  rewrite !Z.eqb_refl. unfold empty. simpl. rewrite bool_decide_eq_false_2 by done. simpl.
  rewrite known_as_i32. simpl. unfold decode_agent_status. simpl. rewrite Hg. simpl. rewrite Hq2, Hqs. simpl.
  rewrite (try_map_fmap try_fault_record fault_record_proto) by (apply Forall_forall; intros; apply fault_record_exact). simpl.
  unfold agent_status in Hval. simpl in Hval. fold (current_entry a) in Hval. rewrite Hval. simpl.
  rewrite (try_option_fmap try_election_configuration election_configuration_proto) by (intros; apply election_configuration_exact; by apply R3). simpl.
  rewrite (try_option_fmap try_deactivation_info deactivation_info_proto) by (intros; apply deactivation_info_exact). simpl.
  unfold decode_rest, decode_write_status, decode_runtime_configuration. simpl. rewrite access_status_exact. simpl.
  rewrite (try_option_fmap try_runtime_configuration_status configuration_status_proto) by (intros; apply runtime_status_exact; by apply R2). simpl.
  rewrite (try_option_fmap try_build_observation build_observation_proto) by (intros; apply build_observation_exact; by apply R4). simpl.
  rewrite epoch_exact, role_from_proto, <-list_fmap_compose.
  rewrite (list_fmap_ext (connection_from ∘ connection_proto) id) by (intros; apply connection_exact).
  by rewrite list_fmap_id.
Qed.

(** C22. The operator always sees the agent as it is. Whatever an agent did
    since it started, the status it returns passes every check of the
    operator's client (the retained terminals are exactly the last sixteen of
    the control versions, without a gap before the action in flight, with
    distinct IDs, outcomes that fit their states, and faults in order), and is
    decoded to the very status that was encoded, provided that the runtime
    snapshot is one the wire can represent and so is every retained entry (an
    entry with an empty error text is not). *)
Theorem status_delivered evs id inst g rt a outs h :
  run_agent evs (agent_new id inst g) = Some (a, outs) → Z.of_nat (length evs) ≤ u64_max →
  generation_ok g → wire_runtime rt → Forall wire_observation (entries a) →
  (handle_get_status status_text (serve_get_status (Some (agent_status rt a))) h).2 = Ok (agent_status rt a).
Proof.
  intros Hrun Hlen Hg Hrt Hobs.
  destruct (run_agent_ledger evs (agent_new id inst g) a outs (agent_new_ledger id inst g) Hlen Hlen Hrun) as (Hl & Hgen & Hmax).
  apply status_exact; [done|done|by rewrite Hgen|done|done].
Qed.

End delivery.

(** An agent that was asked to open, and a target that accepts a stage. *)
Module DemoCalls.
#[local] Existing Instance DemoRemove.ends.
Definition generation : AgentGeneration := "000102030405060708090a0b0c0d0e0f".
Definition request : CorrelatedControlActionRequest :=
  mkCorrelatedControlActionRequest 3 "o" "open:New" 1 "i1" generation 0 (mkEpoch 1 2) (ActOpen OpenNew).
Definition opening : list (TurnEnv * AgentEvent) :=
  (DemoAgent.env,.) <$> [EvCommand (Some (ExecuteCorrelatedControlAction request 5)); EvFault (Some Transient)].
Definition start : ReplicaAgent := agent_new 1 "i1" generation.
Definition opened : ReplicaAgent * list AgentOut := default (start, []) (run_agent opening start).
Definition handle : GrpcReplicaHandle := mkGrpcReplicaHandle 1 "i1" "http://c1" None 0 0.
Definition stage : PeerStageRequest :=
  let unsigned (signature : string) :=
    mkPeerStageRequest 2 AddBuild 1 "op" "try" "m1" signature Prepare 2 "i2" generation "http://c2" "parent" "psig"
      1 "i1" generation 0 (mkEpoch 1 2) "fence" None None None None None None in
  unsigned (request_signature (unsigned "")).
Definition target (request : PeerStageRequest) : option (result KubericError PeerStageObservation) :=
  Some (Ok (mkPeerStageObservation 2 AddBuild 1 "m1" (pr_input_signature request) Prepare StageAccepted generation 1 None)).
Definition client : GrpcPeerClient := mkGrpcPeerClient 1 "i1" generation.
Definition text (s : Status) : string := message s.
End DemoCalls.
#[local] Existing Instance DemoRemove.ends.

Lemma stage_call_exact_witness :
  is_ok (execute_stage DemoCalls.text (λ p, Some (serve_execute_stage DemoCalls.target p)) DemoCalls.client DemoCalls.stage) = true.
Proof.
  assert (wire_stage DemoCalls.stage) as Hw by (split; [vm_compute; reflexivity|split; reflexivity]).
  assert (∀ o, DemoCalls.target DemoCalls.stage = Some (Ok o) → wire_stage_observation o) as Ho.
  { intros o Ho. injection Ho as <-. split; vm_compute; (discriminate || reflexivity). }
  destruct (stage_call_exact DemoCalls.text DemoCalls.target DemoCalls.client DemoCalls.stage Hw Ho) as [He _].
  rewrite He. vm_compute. reflexivity.
Defined.

Lemma status_delivered_witness :
  as_control_version (si_agent (agent_status DemoAgent.runtime DemoCalls.opened.1)) = 1 ∧
  (handle_get_status DemoCalls.text (serve_get_status (Some (agent_status DemoAgent.runtime DemoCalls.opened.1)))
     DemoCalls.handle).2 = Ok (agent_status DemoAgent.runtime DemoCalls.opened.1).
Proof.
  split; [vm_compute; reflexivity|].
  assert (run_agent DemoCalls.opening DemoCalls.start = Some DemoCalls.opened) as H by (vm_compute; reflexivity).
  rewrite (surjective_pairing DemoCalls.opened) in H.
  apply (status_delivered DemoCalls.text DemoCalls.opening 1 "i1" DemoCalls.generation DemoAgent.runtime DemoCalls.opened.1
    DemoCalls.opened.2 DemoCalls.handle H).
  - vm_compute. discriminate.
  - vm_compute. reflexivity.
  - split; [discriminate| |discriminate|discriminate]. intros c Hc. injection Hc as <-.
    split; [| | |split; vm_compute; (reflexivity || discriminate)].
    + apply (bool_decide_unpack _). vm_compute. exact I.
    + apply (bool_decide_unpack _). vm_compute. exact I.
    + repeat constructor; discriminate.
  - repeat constructor; try discriminate; try reflexivity.
Defined.
