(* ===== verification/Crd.v ===== *)
(** The durable part of the status of a [KubericSet]
    (kuberic-operator/src/crd.rs): the stable topology, the checkpoint of the
    operation in progress with its pending action, and the conversions
    between persisted and in-memory snapshots. Serialization is not
    modelled: a status is the value the API server stores. *)

From S2P Require Import Prelude Types.

Set Default Goal Selector "!".

(** ** Enumerations with many variants

    Equality through the discriminant, which is linear in the number of
    variants. *)

Class Enumerated (E : Type) := { variants : list E; discriminant : E → nat }.

Class EnumeratedLaws (E : Type) `{Enumerated E} : Prop :=
  variants_discriminant : ∀ v : E, variants !! discriminant v = Some v.

#[export] Instance discriminant_inj `{EnumeratedLaws E} : Inj (=) (=) (discriminant (E := E)).
Proof. intros x y Hxy. apply (inj Some). by rewrite <-!variants_discriminant, Hxy. Qed.

Definition enumerated_eq_dec `{EnumeratedLaws E} : EqDecision E := λ x y,
  match decide (discriminant x = discriminant y) with
  | left Heq => left (inj discriminant x y Heq)
  | right Hne => right (λ Heq, Hne (f_equal discriminant Heq))
  end.

(** ** Persisted state *)

Record EpochStatus := mkEpochStatus {
  es_data_loss_number : Z;
  es_configuration_number : Z;
}.
#[export] Instance eta_EpochStatus : Settable EpochStatus :=
  {| eta_record r := mkEpochStatus (es_data_loss_number r) (es_configuration_number r) |}.
#[export] Instance EpochStatus_eq_dec : EqDecision EpochStatus.
Proof. solve_decision. Defined.

Inductive StableReplicaRoleStatus :=
| StablePrimary | StableActiveSecondary.
#[export] Instance StableReplicaRoleStatus_eq_dec : EqDecision StableReplicaRoleStatus.
Proof. solve_decision. Defined.

Record StableReplicaElectionMetadataStatus := mkStableReplicaElectionMetadataStatus {
  sm_current_lsn : Z;
  sm_committed_lsn : Z;
  sm_first_retained_lsn : Z;
  sm_deactivation_epoch : EpochStatus;
  sm_deactivation_catch_up_lsn : Z;
}.
#[export] Instance eta_StableReplicaElectionMetadataStatus : Settable StableReplicaElectionMetadataStatus :=
  {| eta_record r := mkStableReplicaElectionMetadataStatus (sm_current_lsn r) (sm_committed_lsn r) (sm_first_retained_lsn r) (sm_deactivation_epoch r)
    (sm_deactivation_catch_up_lsn r) |}.
#[export] Instance StableReplicaElectionMetadataStatus_eq_dec : EqDecision StableReplicaElectionMetadataStatus.
Proof. solve_decision. Defined.

Record StableReplicaSnapshotStatus := mkStableReplicaSnapshotStatus {
  srs_id : Z;
  srs_instance_id : string;
  srs_role : StableReplicaRoleStatus;
  srs_election_metadata : option StableReplicaElectionMetadataStatus;
}.
#[export] Instance eta_StableReplicaSnapshotStatus : Settable StableReplicaSnapshotStatus :=
  {| eta_record r := mkStableReplicaSnapshotStatus (srs_id r) (srs_instance_id r) (srs_role r) (srs_election_metadata r) |}.
#[export] Instance StableReplicaSnapshotStatus_eq_dec : EqDecision StableReplicaSnapshotStatus.
Proof. solve_decision. Defined.

Record StablePartitionSnapshotStatus := mkStablePartitionSnapshotStatus {
  ss_epoch : EpochStatus;
  ss_primary_id : Z;
  ss_members : list StableReplicaSnapshotStatus;
  ss_write_quorum : Z;
}.
#[export] Instance eta_StablePartitionSnapshotStatus : Settable StablePartitionSnapshotStatus :=
  {| eta_record r := mkStablePartitionSnapshotStatus (ss_epoch r) (ss_primary_id r) (ss_members r) (ss_write_quorum r) |}.
#[export] Instance StablePartitionSnapshotStatus_eq_dec : EqDecision StablePartitionSnapshotStatus.
Proof. solve_decision. Defined.

(** [OptionalStablePartitionSnapshotStatus] is a newtype of the option; its
    [Deref], which panics on [None], is [Operation.previous]. *)
Abbreviation OptionalStablePartitionSnapshotStatus := (option StablePartitionSnapshotStatus) (only parsing).

Inductive ConfigurationProgressSourceStatus :=
| PsFrozen | PsBuildCopyLsn.
#[export] Instance ConfigurationProgressSourceStatus_eq_dec : EqDecision ConfigurationProgressSourceStatus.
Proof. solve_decision. Defined.

Record ConfigurationMemberDescriptorStatus := mkConfigurationMemberDescriptorStatus {
  cmds_id : Z;
  cmds_instance_id : string;
  cmds_role : string;
  cmds_status : string;
  cmds_replicator_address : string;
  cmds_must_catch_up : bool;
  cmds_progress_source : ConfigurationProgressSourceStatus;
  cmds_current_progress : Z;
  cmds_catch_up_capability : Z;
}.
#[export] Instance eta_ConfigurationMemberDescriptorStatus : Settable ConfigurationMemberDescriptorStatus :=
  {| eta_record r := mkConfigurationMemberDescriptorStatus (cmds_id r) (cmds_instance_id r) (cmds_role r) (cmds_status r) (cmds_replicator_address r)
    (cmds_must_catch_up r) (cmds_progress_source r) (cmds_current_progress r)
    (cmds_catch_up_capability r) |}.
#[export] Instance ConfigurationMemberDescriptorStatus_eq_dec : EqDecision ConfigurationMemberDescriptorStatus.
Proof. solve_decision. Defined.

Record ConfigurationDescriptorStatus := mkConfigurationDescriptorStatus {
  cds_members : list ConfigurationMemberDescriptorStatus;
  cds_write_quorum : Z;
}.
#[export] Instance eta_ConfigurationDescriptorStatus : Settable ConfigurationDescriptorStatus :=
  {| eta_record r := mkConfigurationDescriptorStatus (cds_members r) (cds_write_quorum r) |}.
#[export] Instance ConfigurationDescriptorStatus_eq_dec : EqDecision ConfigurationDescriptorStatus.
Proof. solve_decision. Defined.

Record AddReplicaIntentStatus := mkAddReplicaIntentStatus {
  ais_attempt : Z;
  ais_attempt_id : string;
  ais_action_id : string;
  ais_primary_instance_id : string;
  ais_primary_agent_generation : string;
  ais_primary_control_address : string;
  ais_target_agent_generation : string;
  ais_target_control_address : string;
  ais_target_replicator_address : string;
  ais_target_lifecycle_peer_protocol_version : Z;
  ais_previous_configuration : ConfigurationDescriptorStatus;
  ais_catch_up_configuration : ConfigurationDescriptorStatus;
  ais_current_configuration : ConfigurationDescriptorStatus;
  ais_deadline_unix_seconds : Z;
  ais_compensation_deadline_unix_seconds : Z;
  ais_last_observed_phase : option string;
}.
#[export] Instance eta_AddReplicaIntentStatus : Settable AddReplicaIntentStatus :=
  {| eta_record r := mkAddReplicaIntentStatus (ais_attempt r) (ais_attempt_id r) (ais_action_id r) (ais_primary_instance_id r)
    (ais_primary_agent_generation r) (ais_primary_control_address r)
    (ais_target_agent_generation r) (ais_target_control_address r)
    (ais_target_replicator_address r) (ais_target_lifecycle_peer_protocol_version r)
    (ais_previous_configuration r) (ais_catch_up_configuration r) (ais_current_configuration r)
    (ais_deadline_unix_seconds r) (ais_compensation_deadline_unix_seconds r)
    (ais_last_observed_phase r) |}.
#[export] Instance AddReplicaIntentStatus_eq_dec : EqDecision AddReplicaIntentStatus.
Proof. solve_decision. Defined.

Inductive RemoveReplicaCoordinatorPhaseStatus :=
| RcValidating | RcInstallingCatchUpConfiguration | RcWaitingForCatchUpQuorum
| RcInstallingCurrentConfiguration | RcRemovingConnection | RcRetiringTarget | RcAttesting
| RcCompensating.
#[export] Instance RemoveReplicaCoordinatorPhaseStatus_eq_dec : EqDecision RemoveReplicaCoordinatorPhaseStatus.
Proof. solve_decision. Defined.

Inductive TargetRetirementObservationStatus :=
| TrNotAttempted | TrInProgress | TrCompleted | TrUnavailable | TrStale | TrFailed.
#[export] Instance TargetRetirementObservationStatus_eq_dec : EqDecision TargetRetirementObservationStatus.
Proof. solve_decision. Defined.

Inductive RemoveReplicaTerminalResultStatus :=
| RtCommittedClean | RtCommittedDegraded | RtCompensated | RtCompensationIncomplete.
#[export] Instance RemoveReplicaTerminalResultStatus_eq_dec : EqDecision RemoveReplicaTerminalResultStatus.
Proof. solve_decision. Defined.

Record RemoveReplicaIntentStatus := mkRemoveReplicaIntentStatus {
  ris_attempt : Z;
  ris_attempt_id : string;
  ris_action_id : string;
  ris_input_signature : string;
  ris_primary_instance_id : string;
  ris_primary_agent_generation : string;
  ris_primary_agent_control_version : Z;
  ris_primary_control_address : string;
  ris_primary_replicator_address : string;
  ris_target_agent_generation : option string;
  ris_target_control_address : option string;
  ris_target_replicator_address : option string;
  ris_target_lifecycle_peer_protocol_version : option Z;
  ris_previous_configuration : ConfigurationDescriptorStatus;
  ris_reduced_catch_up_configuration : ConfigurationDescriptorStatus;
  ris_reduced_current_configuration : ConfigurationDescriptorStatus;
  ris_required_write_quorum : Z;
  ris_maximum_pre_commit_attempts : Z;
  ris_overall_deadline_unix_seconds : Z;
  ris_compensation_grace_seconds : Z;
  ris_compensation_deadline_cap_unix_seconds : Z;
  ris_call_timeout_seconds : Z;
  ris_target_retirement_timeout_seconds : Z;
  ris_compensation_expiry_unix_seconds : option Z;
  ris_last_observed_phase : option RemoveReplicaCoordinatorPhaseStatus;
  ris_last_observed_result : option RemoveReplicaTerminalResultStatus;
  ris_current_install_dispatched : bool;
}.
#[export] Instance eta_RemoveReplicaIntentStatus : Settable RemoveReplicaIntentStatus :=
  {| eta_record r := mkRemoveReplicaIntentStatus (ris_attempt r) (ris_attempt_id r) (ris_action_id r) (ris_input_signature r)
    (ris_primary_instance_id r) (ris_primary_agent_generation r)
    (ris_primary_agent_control_version r) (ris_primary_control_address r)
    (ris_primary_replicator_address r) (ris_target_agent_generation r)
    (ris_target_control_address r) (ris_target_replicator_address r)
    (ris_target_lifecycle_peer_protocol_version r) (ris_previous_configuration r)
    (ris_reduced_catch_up_configuration r) (ris_reduced_current_configuration r)
    (ris_required_write_quorum r) (ris_maximum_pre_commit_attempts r)
    (ris_overall_deadline_unix_seconds r) (ris_compensation_grace_seconds r)
    (ris_compensation_deadline_cap_unix_seconds r) (ris_call_timeout_seconds r)
    (ris_target_retirement_timeout_seconds r) (ris_compensation_expiry_unix_seconds r)
    (ris_last_observed_phase r) (ris_last_observed_result r) (ris_current_install_dispatched r) |}.
#[export] Instance RemoveReplicaIntentStatus_eq_dec : EqDecision RemoveReplicaIntentStatus.
Proof. solve_decision. Defined.

Record RemoveReplicaCommitEvidenceStatus := mkRemoveReplicaCommitEvidenceStatus {
  ces_attempt_id : string;
  ces_action_id : string;
  ces_primary_agent_generation : string;
  ces_configuration_signature : string;
  ces_observed_unix_seconds : Z;
}.
#[export] Instance eta_RemoveReplicaCommitEvidenceStatus : Settable RemoveReplicaCommitEvidenceStatus :=
  {| eta_record r := mkRemoveReplicaCommitEvidenceStatus (ces_attempt_id r) (ces_action_id r) (ces_primary_agent_generation r)
    (ces_configuration_signature r) (ces_observed_unix_seconds r) |}.
#[export] Instance RemoveReplicaCommitEvidenceStatus_eq_dec : EqDecision RemoveReplicaCommitEvidenceStatus.
Proof. solve_decision. Defined.

Record RemoveReplicaCleanupStatus := mkRemoveReplicaCleanupStatus {
  cls_connection_absent : bool;
  cls_target_retirement : option TargetRetirementObservationStatus;
  cls_target_labels_fenced : bool;
  cls_target_pod_deleted : bool;
}.
#[export] Instance eta_RemoveReplicaCleanupStatus : Settable RemoveReplicaCleanupStatus :=
  {| eta_record r := mkRemoveReplicaCleanupStatus (cls_connection_absent r) (cls_target_retirement r) (cls_target_labels_fenced r)
    (cls_target_pod_deleted r) |}.
#[export] Instance RemoveReplicaCleanupStatus_eq_dec : EqDecision RemoveReplicaCleanupStatus.
Proof. solve_decision. Defined.

Inductive RemoveReplicaDispositionStatus :=
| FailedPreCommitIncomplete (attempt : Z) (last_observed_phase : option RemoveReplicaCoordinatorPhaseStatus)
    (reason : string)
| InvalidRemovalState (attempt : Z) (last_observed_phase : option RemoveReplicaCoordinatorPhaseStatus)
    (previous_configuration_signature reduced_configuration_signature reason : string)
| AmbiguousPrimaryRestart (old_generation new_generation : string)
    (last_observed_phase : option RemoveReplicaCoordinatorPhaseStatus)
    (previous_configuration_signature reduced_configuration_signature missing_evidence_reason : string).
#[export] Instance RemoveReplicaDispositionStatus_eq_dec : EqDecision RemoveReplicaDispositionStatus.
Proof. solve_decision. Defined.

Record FailoverMemberStatus := mkFailoverMemberStatus {
  fms_id : Z;
  fms_instance_id : string;
  fms_role : StableReplicaRoleStatus;
  fms_dropped : bool;
  fms_last_known : option StableReplicaElectionMetadataStatus;
}.
#[export] Instance eta_FailoverMemberStatus : Settable FailoverMemberStatus :=
  {| eta_record r := mkFailoverMemberStatus (fms_id r) (fms_instance_id r) (fms_role r) (fms_dropped r) (fms_last_known r) |}.
#[export] Instance FailoverMemberStatus_eq_dec : EqDecision FailoverMemberStatus.
Proof. solve_decision. Defined.

Record FailoverConfigurationStatus := mkFailoverConfigurationStatus {
  fcs_members : list FailoverMemberStatus;
  fcs_write_quorum : Z;
}.
#[export] Instance eta_FailoverConfigurationStatus : Settable FailoverConfigurationStatus :=
  {| eta_record r := mkFailoverConfigurationStatus (fcs_members r) (fcs_write_quorum r) |}.
#[export] Instance FailoverConfigurationStatus_eq_dec : EqDecision FailoverConfigurationStatus.
Proof. solve_decision. Defined.

Record ReplicaElectionObservationStatus := mkReplicaElectionObservationStatus {
  eos_id : Z;
  eos_instance_id : string;
  eos_epoch : EpochStatus;
  eos_role : string;
  eos_healthy : bool;
  eos_current_lsn : Z;
  eos_committed_lsn : Z;
  eos_first_retained_lsn : option Z;
  eos_deactivation_epoch : option EpochStatus;
  eos_deactivation_catch_up_lsn : option Z;
  eos_configuration_matches : bool;
}.
#[export] Instance eta_ReplicaElectionObservationStatus : Settable ReplicaElectionObservationStatus :=
  {| eta_record r := mkReplicaElectionObservationStatus (eos_id r) (eos_instance_id r) (eos_epoch r) (eos_role r) (eos_healthy r) (eos_current_lsn r)
    (eos_committed_lsn r) (eos_first_retained_lsn r) (eos_deactivation_epoch r)
    (eos_deactivation_catch_up_lsn r) (eos_configuration_matches r) |}.
#[export] Instance ReplicaElectionObservationStatus_eq_dec : EqDecision ReplicaElectionObservationStatus.
Proof. solve_decision. Defined.

Inductive DurableDataLossResultStatus :=
| DlNoStateChange | DlStateChanged.
#[export] Instance DurableDataLossResultStatus_eq_dec : EqDecision DurableDataLossResultStatus.
Proof. solve_decision. Defined.

Record DurableFailoverStatus := mkDurableFailoverStatus {
  fo_previous_configuration : option FailoverConfigurationStatus;
  fo_current_configuration : FailoverConfigurationStatus;
  fo_observations : list ReplicaElectionObservationStatus;
  fo_unavailable_replicas : list Z;
  fo_final_attestations : list ReplicaElectionObservationStatus;
  fo_target_confirmed : bool;
  fo_data_loss_required : bool;
  fo_configuration_epoch_intent : option EpochStatus;
  fo_data_loss_epoch_intent : option EpochStatus;
  fo_data_loss_result : option DurableDataLossResultStatus;
  fo_next_configuration_index : Z;
  fo_next_secondary_index : Z;
  fo_next_label_index : Z;
  fo_next_attestation_index : Z;
  fo_next_unavailable_index : Z;
  fo_assessment : option string;
  fo_promotion_committed : bool;
}.
#[export] Instance eta_DurableFailoverStatus : Settable DurableFailoverStatus :=
  {| eta_record r := mkDurableFailoverStatus (fo_previous_configuration r) (fo_current_configuration r) (fo_observations r)
    (fo_unavailable_replicas r) (fo_final_attestations r) (fo_target_confirmed r)
    (fo_data_loss_required r) (fo_configuration_epoch_intent r) (fo_data_loss_epoch_intent r)
    (fo_data_loss_result r) (fo_next_configuration_index r) (fo_next_secondary_index r)
    (fo_next_label_index r) (fo_next_attestation_index r) (fo_next_unavailable_index r)
    (fo_assessment r) (fo_promotion_committed r) |}.
#[export] Instance DurableFailoverStatus_eq_dec : EqDecision DurableFailoverStatus.
Proof. solve_decision. Defined.

Inductive DurableOperationKind :=
| OpCreatePartition | OpSwitchover | OpAddReplica | OpRemoveReplica | OpFailover.
#[export] Instance DurableOperationKind_eq_dec : EqDecision DurableOperationKind.
Proof. solve_decision. Defined.

Inductive DurableAddMode :=
| AmScaleUp | AmRebuild.
#[export] Instance DurableAddMode_eq_dec : EqDecision DurableAddMode.
Proof. solve_decision. Defined.

Inductive DurableRemoveMode :=
| RmScaleDown | RmForce.
#[export] Instance DurableRemoveMode_eq_dec : EqDecision DurableRemoveMode.
Proof. solve_decision. Defined.

Module Phase.
Inductive DurableOperationPhase :=
| AddFreezeIntent | AddDispatchIntent | AddAwaitCoordination | AddRecordCommit | AddPublishTarget
| AddCommittedDegradedHandoff | AddDeleteCompensatedTarget | CreateFenceRouting | CreateOpenPrimary
| CreatePromotePrimary | CreatePrimaryCurrentConfiguration | CreateCommitPrimary
| CreateOpenSecondary | CreateUpdateSecondaryEpoch | CreateAssignSecondaryIdle
| CreateBuildSecondary | CreateAssignSecondaryActive | CreateCatchUpConfiguration
| CreateWaitForCatchUpQuorum | CreateCurrentConfiguration | CreateCommitSecondary
| CreatePublishRouting | CreateFinalize | CreateCompensateRestoreConfiguration
| CreateCompensateRemoveCandidate | CreateCompensateDemoteCandidate
| CreateCompensateCloseCandidate | CreateCompensateDeleteCandidate | CreateCompensateFinalize
| Revoke | CaptureLsn | PreCatchUp | DemoteOldPrimary | PromoteTarget | DistributeEpoch
| UpdateCatchUpConfiguration | WaitForCatchUpQuorum | UpdateCurrentConfiguration
| LabelTargetPrimary | LabelOldSecondary | Finalize | RestorePreviousConfiguration
| CompensatePromoteOldPrimary | CompensateDistributeEpoch | CompensateCatchUpConfiguration
| CompensateCurrentConfiguration | CompensateLabelOldPrimary | CompensateLabelTargetSecondary
| CompensateFinalize | AddFinalize | AddCompensateFinalize | RemoveFreezeIntent
| RemoveDispatchIntent | RemoveAwaitCoordination | RemoveRecordCommit | RemoveAwaitCleanup
| RemoveDeleteTargetPod | RemovePublishTopology | RemoveFinalize | RemoveCompensateFinalize
| FailoverRecordStartingConfiguration | FailoverCollect | FailoverAssess
| FailoverWaitForBestCandidate | FailoverWaitForReadQuorum | FailoverPersistConfigurationEpoch
| FailoverPersistDataLossEpoch | FailoverApplyCandidateEpoch | FailoverNotifyDataLoss
| FailoverRefreshCandidate | FailoverPromoteCandidate | FailoverCommitPromotion
| FailoverDistributeEpoch | FailoverCatchUpConfiguration | FailoverWaitForCatchUpQuorum
| FailoverCurrentConfiguration | FailoverRecordElectionConfiguration | FailoverLabelMembers
| FailoverAttest | FailoverFinalize | Completed | Failed | Poisoned.

(** Its derived [Debug] text. *)
Definition debug (v : DurableOperationPhase) : string :=
  match v with
  | AddFreezeIntent => "AddFreezeIntent" | AddDispatchIntent => "AddDispatchIntent"
  | AddAwaitCoordination => "AddAwaitCoordination" | AddRecordCommit => "AddRecordCommit"
  | AddPublishTarget => "AddPublishTarget"
  | AddCommittedDegradedHandoff => "AddCommittedDegradedHandoff"
  | AddDeleteCompensatedTarget => "AddDeleteCompensatedTarget"
  | CreateFenceRouting => "CreateFenceRouting" | CreateOpenPrimary => "CreateOpenPrimary"
  | CreatePromotePrimary => "CreatePromotePrimary"
  | CreatePrimaryCurrentConfiguration => "CreatePrimaryCurrentConfiguration"
  | CreateCommitPrimary => "CreateCommitPrimary" | CreateOpenSecondary => "CreateOpenSecondary"
  | CreateUpdateSecondaryEpoch => "CreateUpdateSecondaryEpoch"
  | CreateAssignSecondaryIdle => "CreateAssignSecondaryIdle"
  | CreateBuildSecondary => "CreateBuildSecondary"
  | CreateAssignSecondaryActive => "CreateAssignSecondaryActive"
  | CreateCatchUpConfiguration => "CreateCatchUpConfiguration"
  | CreateWaitForCatchUpQuorum => "CreateWaitForCatchUpQuorum"
  | CreateCurrentConfiguration => "CreateCurrentConfiguration"
  | CreateCommitSecondary => "CreateCommitSecondary"
  | CreatePublishRouting => "CreatePublishRouting" | CreateFinalize => "CreateFinalize"
  | CreateCompensateRestoreConfiguration => "CreateCompensateRestoreConfiguration"
  | CreateCompensateRemoveCandidate => "CreateCompensateRemoveCandidate"
  | CreateCompensateDemoteCandidate => "CreateCompensateDemoteCandidate"
  | CreateCompensateCloseCandidate => "CreateCompensateCloseCandidate"
  | CreateCompensateDeleteCandidate => "CreateCompensateDeleteCandidate"
  | CreateCompensateFinalize => "CreateCompensateFinalize" | Revoke => "Revoke"
  | CaptureLsn => "CaptureLsn" | PreCatchUp => "PreCatchUp"
  | DemoteOldPrimary => "DemoteOldPrimary" | PromoteTarget => "PromoteTarget"
  | DistributeEpoch => "DistributeEpoch"
  | UpdateCatchUpConfiguration => "UpdateCatchUpConfiguration"
  | WaitForCatchUpQuorum => "WaitForCatchUpQuorum"
  | UpdateCurrentConfiguration => "UpdateCurrentConfiguration"
  | LabelTargetPrimary => "LabelTargetPrimary" | LabelOldSecondary => "LabelOldSecondary"
  | Finalize => "Finalize" | RestorePreviousConfiguration => "RestorePreviousConfiguration"
  | CompensatePromoteOldPrimary => "CompensatePromoteOldPrimary"
  | CompensateDistributeEpoch => "CompensateDistributeEpoch"
  | CompensateCatchUpConfiguration => "CompensateCatchUpConfiguration"
  | CompensateCurrentConfiguration => "CompensateCurrentConfiguration"
  | CompensateLabelOldPrimary => "CompensateLabelOldPrimary"
  | CompensateLabelTargetSecondary => "CompensateLabelTargetSecondary"
  | CompensateFinalize => "CompensateFinalize" | AddFinalize => "AddFinalize"
  | AddCompensateFinalize => "AddCompensateFinalize" | RemoveFreezeIntent => "RemoveFreezeIntent"
  | RemoveDispatchIntent => "RemoveDispatchIntent"
  | RemoveAwaitCoordination => "RemoveAwaitCoordination"
  | RemoveRecordCommit => "RemoveRecordCommit" | RemoveAwaitCleanup => "RemoveAwaitCleanup"
  | RemoveDeleteTargetPod => "RemoveDeleteTargetPod"
  | RemovePublishTopology => "RemovePublishTopology" | RemoveFinalize => "RemoveFinalize"
  | RemoveCompensateFinalize => "RemoveCompensateFinalize"
  | FailoverRecordStartingConfiguration => "FailoverRecordStartingConfiguration"
  | FailoverCollect => "FailoverCollect" | FailoverAssess => "FailoverAssess"
  | FailoverWaitForBestCandidate => "FailoverWaitForBestCandidate"
  | FailoverWaitForReadQuorum => "FailoverWaitForReadQuorum"
  | FailoverPersistConfigurationEpoch => "FailoverPersistConfigurationEpoch"
  | FailoverPersistDataLossEpoch => "FailoverPersistDataLossEpoch"
  | FailoverApplyCandidateEpoch => "FailoverApplyCandidateEpoch"
  | FailoverNotifyDataLoss => "FailoverNotifyDataLoss"
  | FailoverRefreshCandidate => "FailoverRefreshCandidate"
  | FailoverPromoteCandidate => "FailoverPromoteCandidate"
  | FailoverCommitPromotion => "FailoverCommitPromotion"
  | FailoverDistributeEpoch => "FailoverDistributeEpoch"
  | FailoverCatchUpConfiguration => "FailoverCatchUpConfiguration"
  | FailoverWaitForCatchUpQuorum => "FailoverWaitForCatchUpQuorum"
  | FailoverCurrentConfiguration => "FailoverCurrentConfiguration"
  | FailoverRecordElectionConfiguration => "FailoverRecordElectionConfiguration"
  | FailoverLabelMembers => "FailoverLabelMembers" | FailoverAttest => "FailoverAttest"
  | FailoverFinalize => "FailoverFinalize" | Completed => "Completed" | Failed => "Failed"
  | Poisoned => "Poisoned"
  end.

#[global] Instance DurableOperationPhase_enumerated : Enumerated DurableOperationPhase := {|
  variants := [
  AddFreezeIntent; AddDispatchIntent; AddAwaitCoordination; AddRecordCommit; AddPublishTarget;
  AddCommittedDegradedHandoff; AddDeleteCompensatedTarget; CreateFenceRouting; CreateOpenPrimary;
  CreatePromotePrimary; CreatePrimaryCurrentConfiguration; CreateCommitPrimary;
  CreateOpenSecondary; CreateUpdateSecondaryEpoch; CreateAssignSecondaryIdle; CreateBuildSecondary;
  CreateAssignSecondaryActive; CreateCatchUpConfiguration; CreateWaitForCatchUpQuorum;
  CreateCurrentConfiguration; CreateCommitSecondary; CreatePublishRouting; CreateFinalize;
  CreateCompensateRestoreConfiguration; CreateCompensateRemoveCandidate;
  CreateCompensateDemoteCandidate; CreateCompensateCloseCandidate; CreateCompensateDeleteCandidate;
  CreateCompensateFinalize; Revoke; CaptureLsn; PreCatchUp; DemoteOldPrimary; PromoteTarget;
  DistributeEpoch; UpdateCatchUpConfiguration; WaitForCatchUpQuorum; UpdateCurrentConfiguration;
  LabelTargetPrimary; LabelOldSecondary; Finalize; RestorePreviousConfiguration;
  CompensatePromoteOldPrimary; CompensateDistributeEpoch; CompensateCatchUpConfiguration;
  CompensateCurrentConfiguration; CompensateLabelOldPrimary; CompensateLabelTargetSecondary;
  CompensateFinalize; AddFinalize; AddCompensateFinalize; RemoveFreezeIntent; RemoveDispatchIntent;
  RemoveAwaitCoordination; RemoveRecordCommit; RemoveAwaitCleanup; RemoveDeleteTargetPod;
  RemovePublishTopology; RemoveFinalize; RemoveCompensateFinalize;
  FailoverRecordStartingConfiguration; FailoverCollect; FailoverAssess;
  FailoverWaitForBestCandidate; FailoverWaitForReadQuorum; FailoverPersistConfigurationEpoch;
  FailoverPersistDataLossEpoch; FailoverApplyCandidateEpoch; FailoverNotifyDataLoss;
  FailoverRefreshCandidate; FailoverPromoteCandidate; FailoverCommitPromotion;
  FailoverDistributeEpoch; FailoverCatchUpConfiguration; FailoverWaitForCatchUpQuorum;
  FailoverCurrentConfiguration; FailoverRecordElectionConfiguration; FailoverLabelMembers;
  FailoverAttest; FailoverFinalize; Completed; Failed; Poisoned];
  discriminant v := (match v with
  | AddFreezeIntent => 0 | AddDispatchIntent => 1 | AddAwaitCoordination => 2
  | AddRecordCommit => 3 | AddPublishTarget => 4 | AddCommittedDegradedHandoff => 5
  | AddDeleteCompensatedTarget => 6 | CreateFenceRouting => 7 | CreateOpenPrimary => 8
  | CreatePromotePrimary => 9 | CreatePrimaryCurrentConfiguration => 10 | CreateCommitPrimary => 11
  | CreateOpenSecondary => 12 | CreateUpdateSecondaryEpoch => 13 | CreateAssignSecondaryIdle => 14
  | CreateBuildSecondary => 15 | CreateAssignSecondaryActive => 16
  | CreateCatchUpConfiguration => 17 | CreateWaitForCatchUpQuorum => 18
  | CreateCurrentConfiguration => 19 | CreateCommitSecondary => 20 | CreatePublishRouting => 21
  | CreateFinalize => 22 | CreateCompensateRestoreConfiguration => 23
  | CreateCompensateRemoveCandidate => 24 | CreateCompensateDemoteCandidate => 25
  | CreateCompensateCloseCandidate => 26 | CreateCompensateDeleteCandidate => 27
  | CreateCompensateFinalize => 28 | Revoke => 29 | CaptureLsn => 30 | PreCatchUp => 31
  | DemoteOldPrimary => 32 | PromoteTarget => 33 | DistributeEpoch => 34
  | UpdateCatchUpConfiguration => 35 | WaitForCatchUpQuorum => 36
  | UpdateCurrentConfiguration => 37 | LabelTargetPrimary => 38 | LabelOldSecondary => 39
  | Finalize => 40 | RestorePreviousConfiguration => 41 | CompensatePromoteOldPrimary => 42
  | CompensateDistributeEpoch => 43 | CompensateCatchUpConfiguration => 44
  | CompensateCurrentConfiguration => 45 | CompensateLabelOldPrimary => 46
  | CompensateLabelTargetSecondary => 47 | CompensateFinalize => 48 | AddFinalize => 49
  | AddCompensateFinalize => 50 | RemoveFreezeIntent => 51 | RemoveDispatchIntent => 52
  | RemoveAwaitCoordination => 53 | RemoveRecordCommit => 54 | RemoveAwaitCleanup => 55
  | RemoveDeleteTargetPod => 56 | RemovePublishTopology => 57 | RemoveFinalize => 58
  | RemoveCompensateFinalize => 59 | FailoverRecordStartingConfiguration => 60
  | FailoverCollect => 61 | FailoverAssess => 62 | FailoverWaitForBestCandidate => 63
  | FailoverWaitForReadQuorum => 64 | FailoverPersistConfigurationEpoch => 65
  | FailoverPersistDataLossEpoch => 66 | FailoverApplyCandidateEpoch => 67
  | FailoverNotifyDataLoss => 68 | FailoverRefreshCandidate => 69 | FailoverPromoteCandidate => 70
  | FailoverCommitPromotion => 71 | FailoverDistributeEpoch => 72
  | FailoverCatchUpConfiguration => 73 | FailoverWaitForCatchUpQuorum => 74
  | FailoverCurrentConfiguration => 75 | FailoverRecordElectionConfiguration => 76
  | FailoverLabelMembers => 77 | FailoverAttest => 78 | FailoverFinalize => 79 | Completed => 80
  | Failed => 81 | Poisoned => 82
  end)%nat |}.
#[global] Instance DurableOperationPhase_lawful : EnumeratedLaws DurableOperationPhase.
Proof. by intros []. Qed.
#[global] Instance DurableOperationPhase_eq_dec : EqDecision DurableOperationPhase := enumerated_eq_dec.
End Phase.

Module Action.
Inductive DurableActionKind :=
| AddReplicaIntent | RemoveReplicaIntent | CreateFencePod | CreateOpenPrimary
| CreatePromotePrimary | CreatePrimaryCurrentConfiguration | CreateOpenSecondary
| CreateUpdateSecondaryEpoch | CreateAssignSecondaryIdle | CreateBuildSecondary
| CreateAssignSecondaryActive | CreateCatchUpConfiguration | CreateWaitForCatchUpQuorum
| CreateCurrentConfiguration | CreatePublishPrimary | CreatePublishSecondary
| CreateCompensateRestoreConfiguration | CreateCompensateRemoveCandidate
| CreateCompensateDemoteCandidate | CreateCompensateCloseCandidate
| CreateCompensateDeleteCandidate | RevokeWrite | DemoteOldPrimary | PromoteTarget
| UpdateSecondaryEpoch | UpdateCatchUpConfiguration | WaitForCatchUpQuorum
| UpdateCurrentConfiguration | LabelTargetPrimary | LabelOldSecondary
| RestorePreviousConfiguration | CompensatePromoteOldPrimary | CompensateUpdateSecondaryEpoch
| CompensateCatchUpConfiguration | CompensateCurrentConfiguration | CompensateLabelOldPrimary
| CompensateLabelTargetSecondary | FailoverRecordStartingConfiguration
| FailoverUpdateCandidateEpoch | FailoverOnDataLoss | FailoverPromoteCandidate
| FailoverUpdateSecondaryEpoch | FailoverCatchUpConfiguration | FailoverWaitForCatchUpQuorum
| FailoverCurrentConfiguration | FailoverRecordElectionConfiguration | FailoverLabelMember.

(** Its derived [Debug] text. *)
Definition debug (v : DurableActionKind) : string :=
  match v with
  | AddReplicaIntent => "AddReplicaIntent" | RemoveReplicaIntent => "RemoveReplicaIntent"
  | CreateFencePod => "CreateFencePod" | CreateOpenPrimary => "CreateOpenPrimary"
  | CreatePromotePrimary => "CreatePromotePrimary"
  | CreatePrimaryCurrentConfiguration => "CreatePrimaryCurrentConfiguration"
  | CreateOpenSecondary => "CreateOpenSecondary"
  | CreateUpdateSecondaryEpoch => "CreateUpdateSecondaryEpoch"
  | CreateAssignSecondaryIdle => "CreateAssignSecondaryIdle"
  | CreateBuildSecondary => "CreateBuildSecondary"
  | CreateAssignSecondaryActive => "CreateAssignSecondaryActive"
  | CreateCatchUpConfiguration => "CreateCatchUpConfiguration"
  | CreateWaitForCatchUpQuorum => "CreateWaitForCatchUpQuorum"
  | CreateCurrentConfiguration => "CreateCurrentConfiguration"
  | CreatePublishPrimary => "CreatePublishPrimary"
  | CreatePublishSecondary => "CreatePublishSecondary"
  | CreateCompensateRestoreConfiguration => "CreateCompensateRestoreConfiguration"
  | CreateCompensateRemoveCandidate => "CreateCompensateRemoveCandidate"
  | CreateCompensateDemoteCandidate => "CreateCompensateDemoteCandidate"
  | CreateCompensateCloseCandidate => "CreateCompensateCloseCandidate"
  | CreateCompensateDeleteCandidate => "CreateCompensateDeleteCandidate"
  | RevokeWrite => "RevokeWrite" | DemoteOldPrimary => "DemoteOldPrimary"
  | PromoteTarget => "PromoteTarget" | UpdateSecondaryEpoch => "UpdateSecondaryEpoch"
  | UpdateCatchUpConfiguration => "UpdateCatchUpConfiguration"
  | WaitForCatchUpQuorum => "WaitForCatchUpQuorum"
  | UpdateCurrentConfiguration => "UpdateCurrentConfiguration"
  | LabelTargetPrimary => "LabelTargetPrimary" | LabelOldSecondary => "LabelOldSecondary"
  | RestorePreviousConfiguration => "RestorePreviousConfiguration"
  | CompensatePromoteOldPrimary => "CompensatePromoteOldPrimary"
  | CompensateUpdateSecondaryEpoch => "CompensateUpdateSecondaryEpoch"
  | CompensateCatchUpConfiguration => "CompensateCatchUpConfiguration"
  | CompensateCurrentConfiguration => "CompensateCurrentConfiguration"
  | CompensateLabelOldPrimary => "CompensateLabelOldPrimary"
  | CompensateLabelTargetSecondary => "CompensateLabelTargetSecondary"
  | FailoverRecordStartingConfiguration => "FailoverRecordStartingConfiguration"
  | FailoverUpdateCandidateEpoch => "FailoverUpdateCandidateEpoch"
  | FailoverOnDataLoss => "FailoverOnDataLoss"
  | FailoverPromoteCandidate => "FailoverPromoteCandidate"
  | FailoverUpdateSecondaryEpoch => "FailoverUpdateSecondaryEpoch"
  | FailoverCatchUpConfiguration => "FailoverCatchUpConfiguration"
  | FailoverWaitForCatchUpQuorum => "FailoverWaitForCatchUpQuorum"
  | FailoverCurrentConfiguration => "FailoverCurrentConfiguration"
  | FailoverRecordElectionConfiguration => "FailoverRecordElectionConfiguration"
  | FailoverLabelMember => "FailoverLabelMember"
  end.

#[global] Instance DurableActionKind_enumerated : Enumerated DurableActionKind := {|
  variants := [
  AddReplicaIntent; RemoveReplicaIntent; CreateFencePod; CreateOpenPrimary; CreatePromotePrimary;
  CreatePrimaryCurrentConfiguration; CreateOpenSecondary; CreateUpdateSecondaryEpoch;
  CreateAssignSecondaryIdle; CreateBuildSecondary; CreateAssignSecondaryActive;
  CreateCatchUpConfiguration; CreateWaitForCatchUpQuorum; CreateCurrentConfiguration;
  CreatePublishPrimary; CreatePublishSecondary; CreateCompensateRestoreConfiguration;
  CreateCompensateRemoveCandidate; CreateCompensateDemoteCandidate; CreateCompensateCloseCandidate;
  CreateCompensateDeleteCandidate; RevokeWrite; DemoteOldPrimary; PromoteTarget;
  UpdateSecondaryEpoch; UpdateCatchUpConfiguration; WaitForCatchUpQuorum;
  UpdateCurrentConfiguration; LabelTargetPrimary; LabelOldSecondary; RestorePreviousConfiguration;
  CompensatePromoteOldPrimary; CompensateUpdateSecondaryEpoch; CompensateCatchUpConfiguration;
  CompensateCurrentConfiguration; CompensateLabelOldPrimary; CompensateLabelTargetSecondary;
  FailoverRecordStartingConfiguration; FailoverUpdateCandidateEpoch; FailoverOnDataLoss;
  FailoverPromoteCandidate; FailoverUpdateSecondaryEpoch; FailoverCatchUpConfiguration;
  FailoverWaitForCatchUpQuorum; FailoverCurrentConfiguration; FailoverRecordElectionConfiguration;
  FailoverLabelMember];
  discriminant v := (match v with
  | AddReplicaIntent => 0 | RemoveReplicaIntent => 1 | CreateFencePod => 2 | CreateOpenPrimary => 3
  | CreatePromotePrimary => 4 | CreatePrimaryCurrentConfiguration => 5 | CreateOpenSecondary => 6
  | CreateUpdateSecondaryEpoch => 7 | CreateAssignSecondaryIdle => 8 | CreateBuildSecondary => 9
  | CreateAssignSecondaryActive => 10 | CreateCatchUpConfiguration => 11
  | CreateWaitForCatchUpQuorum => 12 | CreateCurrentConfiguration => 13
  | CreatePublishPrimary => 14 | CreatePublishSecondary => 15
  | CreateCompensateRestoreConfiguration => 16 | CreateCompensateRemoveCandidate => 17
  | CreateCompensateDemoteCandidate => 18 | CreateCompensateCloseCandidate => 19
  | CreateCompensateDeleteCandidate => 20 | RevokeWrite => 21 | DemoteOldPrimary => 22
  | PromoteTarget => 23 | UpdateSecondaryEpoch => 24 | UpdateCatchUpConfiguration => 25
  | WaitForCatchUpQuorum => 26 | UpdateCurrentConfiguration => 27 | LabelTargetPrimary => 28
  | LabelOldSecondary => 29 | RestorePreviousConfiguration => 30
  | CompensatePromoteOldPrimary => 31 | CompensateUpdateSecondaryEpoch => 32
  | CompensateCatchUpConfiguration => 33 | CompensateCurrentConfiguration => 34
  | CompensateLabelOldPrimary => 35 | CompensateLabelTargetSecondary => 36
  | FailoverRecordStartingConfiguration => 37 | FailoverUpdateCandidateEpoch => 38
  | FailoverOnDataLoss => 39 | FailoverPromoteCandidate => 40 | FailoverUpdateSecondaryEpoch => 41
  | FailoverCatchUpConfiguration => 42 | FailoverWaitForCatchUpQuorum => 43
  | FailoverCurrentConfiguration => 44 | FailoverRecordElectionConfiguration => 45
  | FailoverLabelMember => 46
  end)%nat |}.
#[global] Instance DurableActionKind_lawful : EnumeratedLaws DurableActionKind.
Proof. by intros []. Qed.
#[global] Instance DurableActionKind_eq_dec : EqDecision DurableActionKind := enumerated_eq_dec.
End Action.

Inductive DurablePostconditionKind :=
| PcAddReplicaCoordinated | PcRemoveReplicaCoordinated | PcWriteRevoked | PcRole | PcEpoch
| PcCatchUpConfiguration | PcCatchUpQuorum | PcCurrentConfiguration | PcPodRoleLabel | PcOpened
| PcBuildCompleted | PcReplicaRemoved | PcClosed | PcPodDeleted | PcDataLossCompleted
| PcElectionConfiguration.
#[export] Instance DurablePostconditionKind_eq_dec : EqDecision DurablePostconditionKind.
Proof. solve_decision. Defined.

Record DurablePostconditionStatus := mkDurablePostconditionStatus {
  pc_kind : DurablePostconditionKind;
  pc_role : option StableReplicaRoleStatus;
}.
#[export] Instance eta_DurablePostconditionStatus : Settable DurablePostconditionStatus :=
  {| eta_record r := mkDurablePostconditionStatus (pc_kind r) (pc_role r) |}.
#[export] Instance DurablePostconditionStatus_eq_dec : EqDecision DurablePostconditionStatus.
Proof. solve_decision. Defined.

Record PendingActionStatus := mkPendingActionStatus {
  pa_action_id : string;
  pa_sequence : Z;
  pa_kind : Action.DurableActionKind;
  pa_target_id : Z;
  pa_target_instance_id : string;
  pa_expected_epoch : EpochStatus;
  pa_desired_postcondition : DurablePostconditionStatus;
  pa_attempts : Z;
  pa_deadline_unix_seconds : Z;
  pa_last_error : option string;
  pa_dispatch_authorized : bool;
  pa_dispatch_agent_generation : option string;
  pa_dispatch_agent_control_version : option Z;
  pa_dispatch_observed_runtime_epoch : option EpochStatus;
  pa_dispatch_action_payload : string;
}.
#[export] Instance eta_PendingActionStatus : Settable PendingActionStatus :=
  {| eta_record r := mkPendingActionStatus (pa_action_id r) (pa_sequence r) (pa_kind r) (pa_target_id r) (pa_target_instance_id r)
    (pa_expected_epoch r) (pa_desired_postcondition r) (pa_attempts r)
    (pa_deadline_unix_seconds r) (pa_last_error r) (pa_dispatch_authorized r)
    (pa_dispatch_agent_generation r) (pa_dispatch_agent_control_version r)
    (pa_dispatch_observed_runtime_epoch r) (pa_dispatch_action_payload r) |}.
#[export] Instance PendingActionStatus_eq_dec : EqDecision PendingActionStatus.
Proof. solve_decision. Defined.

Record DurableOperationStatus := mkDurableOperationStatus {
  op_operation_id : string;
  op_execution_id : string;
  op_version : Z;
  op_kind : DurableOperationKind;
  op_phase : Phase.DurableOperationPhase;
  op_previous_snapshot : OptionalStablePartitionSnapshotStatus;
  op_target_snapshot : StablePartitionSnapshotStatus;
  op_committed_snapshot : option StablePartitionSnapshotStatus;
  op_minimum_committed_replicas : option Z;
  op_old_primary_id : Z;
  op_target_primary_id : Z;
  op_add_mode : option DurableAddMode;
  op_remove_mode : option DurableRemoveMode;
  op_target_replica_id : option Z;
  op_target_instance_id : option string;
  op_target_pod_name : option string;
  op_target_pod_uid : option string;
  op_remove_target_replicator_address : option string;
  op_remove_target_agent_generation : option string;
  op_retired_instance_id : option string;
  op_frozen_lsn : option Z;
  op_next_secondary_index : Z;
  op_phase_deadline_unix_seconds : Z;
  op_pending_action : option PendingActionStatus;
  op_last_error : option string;
  op_failover : option DurableFailoverStatus;
  op_add_intent : option AddReplicaIntentStatus;
  op_remove_intent : option RemoveReplicaIntentStatus;
  op_remove_commit_evidence : option RemoveReplicaCommitEvidenceStatus;
  op_remove_cleanup : option RemoveReplicaCleanupStatus;
  op_removal_disposition : option RemoveReplicaDispositionStatus;
}.
#[export] Instance eta_DurableOperationStatus : Settable DurableOperationStatus :=
  {| eta_record r := mkDurableOperationStatus (op_operation_id r) (op_execution_id r) (op_version r) (op_kind r) (op_phase r)
    (op_previous_snapshot r) (op_target_snapshot r) (op_committed_snapshot r)
    (op_minimum_committed_replicas r) (op_old_primary_id r) (op_target_primary_id r)
    (op_add_mode r) (op_remove_mode r) (op_target_replica_id r) (op_target_instance_id r)
    (op_target_pod_name r) (op_target_pod_uid r) (op_remove_target_replicator_address r)
    (op_remove_target_agent_generation r) (op_retired_instance_id r) (op_frozen_lsn r)
    (op_next_secondary_index r) (op_phase_deadline_unix_seconds r) (op_pending_action r)
    (op_last_error r) (op_failover r) (op_add_intent r) (op_remove_intent r)
    (op_remove_commit_evidence r) (op_remove_cleanup r) (op_removal_disposition r) |}.
#[export] Instance DurableOperationStatus_eq_dec : EqDecision DurableOperationStatus.
Proof. solve_decision. Defined.

Record StatusCondition := mkStatusCondition {
  sc_type : string;
  sc_status : string;
  sc_reason : string;
  sc_message : string;
  sc_last_transition_time : string;
}.
#[export] Instance eta_StatusCondition : Settable StatusCondition :=
  {| eta_record r := mkStatusCondition (sc_type r) (sc_status r) (sc_reason r) (sc_message r) (sc_last_transition_time r) |}.

Definition DURABLE_OPERATION_VERSION : Z := 1.
Definition ADD_REPLICA_OPERATION_VERSION : Z := 3.
Definition REMOVE_REPLICA_OPERATION_VERSION : Z := 2.

(** ** Conversions with the core snapshots *)

Definition to_epoch (e : EpochStatus) : Epoch :=
  mkEpoch (es_data_loss_number e) (es_configuration_number e).
Definition of_epoch (e : Epoch) : EpochStatus :=
  mkEpochStatus (data_loss_number e) (configuration_number e).

Definition stable_role (r : StableReplicaRoleStatus) : Role :=
  match r with StablePrimary => Primary | StableActiveSecondary => ActiveSecondary end.

Definition to_metadata (m : StableReplicaElectionMetadataStatus) : StableReplicaElectionMetadata :=
  mkStableReplicaElectionMetadata (sm_current_lsn m) (sm_committed_lsn m) (sm_first_retained_lsn m)
    (to_epoch (sm_deactivation_epoch m)) (sm_deactivation_catch_up_lsn m).
Definition of_metadata (m : StableReplicaElectionMetadata) : StableReplicaElectionMetadataStatus :=
  mkStableReplicaElectionMetadataStatus (md_current_lsn m) (md_committed_lsn m) (md_first_retained_lsn m)
    (of_epoch (md_deactivation_epoch m)) (md_deactivation_catch_up_lsn m).

Definition replica_try_from_status (value : StableReplicaSnapshotStatus) : result string StableReplicaSnapshot :=
  reject_if (bool_decide (srs_instance_id value = ""))
    ("stable snapshot replica " +:+ pretty (srs_id value) +:+ " has an empty incarnation");;
  Ok (mkStableReplicaSnapshot (srs_id value) (srs_instance_id value) (stable_role (srs_role value))
    (to_metadata <$> srs_election_metadata value)).

Definition replica_status_try_from (value : StableReplicaSnapshot) : result string StableReplicaSnapshotStatus :=
  role ← match sr_role value with
         | Primary => Ok StablePrimary
         | ActiveSecondary => Ok StableActiveSecondary
         | role => Err ("replica " +:+ pretty (sr_id value) +:+ " has unsupported stable role " +:+ role_debug role)
         end;
  Ok (mkStableReplicaSnapshotStatus (sr_id value) (sr_instance_id value) role
    (of_metadata <$> sr_election_metadata value)).

Definition snapshot_try_from_status (value : StablePartitionSnapshotStatus) : result string StablePartitionSnapshot :=
  members ← try_map replica_try_from_status (ss_members value);
  Ok (mkStablePartitionSnapshot (to_epoch (ss_epoch value)) (ss_primary_id value) members (ss_write_quorum value)).

Definition snapshot_status_try_from (value : StablePartitionSnapshot) : result string StablePartitionSnapshotStatus :=
  members ← try_map replica_status_try_from (sp_members value);
  Ok (mkStablePartitionSnapshotStatus (of_epoch (sp_epoch value)) (sp_primary_id value) members (sp_write_quorum value)).

(** ** The conversions are inverse where both are defined *)

Lemma to_of_epoch e : to_epoch (of_epoch e) = e.
Proof. by destruct e. Qed.
Lemma of_to_epoch e : of_epoch (to_epoch e) = e.
Proof. by destruct e. Qed.
#[export] Instance to_epoch_inj : Inj (=) (=) to_epoch.
Proof. intros a b Hab. by rewrite <-(of_to_epoch a), Hab, of_to_epoch. Qed.

Lemma to_of_metadata m : to_metadata (of_metadata m) = m.
Proof. destruct m as [? ? ? []]. done. Qed.
Lemma of_to_metadata m : of_metadata (to_metadata m) = m.
Proof. destruct m as [? ? ? []]. done. Qed.

Lemma option_fmap_cancel {A B} (f : A → B) (g : B → A) (o : option A) :
  (∀ x, g (f x) = x) → g <$> (f <$> o) = o.
Proof. intros Hgf. destruct o; simpl; [by rewrite Hgf|done]. Qed.

Lemma replica_status_cancel x y :
  sr_instance_id x ≠ "" → replica_status_try_from x = Ok y → replica_try_from_status y = Ok x.
Proof.
  intros Hx. unfold replica_status_try_from. rewrite bind_Ok. intros (role & Hr & [= <-]).
  unfold replica_try_from_status. cbn. rewrite bool_decide_eq_false_2 by done. cbn.
  rewrite (option_fmap_cancel of_metadata to_metadata) by apply to_of_metadata.
  destruct x as [? ? [] ?], role; try done.
Qed.

Lemma replica_core_cancel y x : replica_try_from_status y = Ok x → replica_status_try_from x = Ok y.
Proof.
  unfold replica_try_from_status. rewrite bind_Ok. intros (u & Hu%reject_if_Ok & [= <-]).
  unfold replica_status_try_from. cbn.
  rewrite (option_fmap_cancel to_metadata of_metadata) by apply of_to_metadata.
  by destruct y as [? ? [] ?].
Qed.

Lemma snapshot_core_cancel y x :
  snapshot_try_from_status y = Ok x → snapshot_status_try_from x = Ok y.
Proof.
  unfold snapshot_try_from_status. rewrite bind_Ok. intros (members & Hm & [= <-]).
  unfold snapshot_status_try_from. cbn.
  rewrite (try_map_cancel replica_try_from_status replica_status_try_from (λ _, True) _ _
    (λ x y _, replica_core_cancel x y) (Forall_true _ _ (λ _, I)) Hm). cbn.
  rewrite of_to_epoch. by destruct y.
Qed.

(** A snapshot the driver holds survives the status of the [KubericSet]:
    what the operator persists of a snapshot whose incarnations are known
    reads back as that snapshot, and what reads back is what was persisted. *)
Theorem snapshot_status_roundtrip x y :
  Forall (λ m, sr_instance_id m ≠ "") (sp_members x) →
  (snapshot_status_try_from x = Ok y ↔ snapshot_try_from_status y = Ok x).
Proof.
  intros Hne. split; [|apply snapshot_core_cancel].
  unfold snapshot_status_try_from. rewrite bind_Ok. intros (members & Hm & [= <-]).
  unfold snapshot_try_from_status. cbn.
  rewrite (try_map_cancel _ _ _ _ _ replica_status_cancel Hne Hm). cbn.
  rewrite to_of_epoch. by destruct x.
Qed.

Module DemoCrd.
Definition snapshot : StablePartitionSnapshot := mkStablePartitionSnapshot (mkEpoch 2 7) 4
  [mkStableReplicaSnapshot 4 "pod-uid/exact" Primary
     (Some (mkStableReplicaElectionMetadata 12 11 3 (mkEpoch 2 6) 10));
   mkStableReplicaSnapshot 8 "another uid" ActiveSecondary None] 2.
Definition persisted : StablePartitionSnapshotStatus := mkStablePartitionSnapshotStatus (mkEpochStatus 2 7) 4
  [mkStableReplicaSnapshotStatus 4 "pod-uid/exact" StablePrimary
     (Some (mkStableReplicaElectionMetadataStatus 12 11 3 (mkEpochStatus 2 6) 10));
   mkStableReplicaSnapshotStatus 8 "another uid" StableActiveSecondary None] 2.
End DemoCrd.

Lemma snapshot_status_roundtrip_witness :
  Forall (λ m, sr_instance_id m ≠ "") (sp_members DemoCrd.snapshot) ∧
  (snapshot_status_try_from DemoCrd.snapshot = Ok DemoCrd.persisted ↔
   snapshot_try_from_status DemoCrd.persisted = Ok DemoCrd.snapshot).
Proof.
  assert (Forall (λ m, sr_instance_id m ≠ "") (sp_members DemoCrd.snapshot)) as Hne by (repeat constructor; done).
  split; [exact Hne|]. exact (snapshot_status_roundtrip DemoCrd.snapshot DemoCrd.persisted Hne).
Defined.
