(* ===== verification/Operation.v ===== *)
(** What the durable workflows of the operator share
    (kuberic-operator/src/durable/mod.rs): the observations they decide on,
    the decisions they make, and how an operation records an error or is
    poisoned. *)

From S2P Require Import Prelude Types Lifecycle Control Proto Convert Crd.

Set Default Goal Selector "!".

(** ** Failures

    A decision returns [Result<_, String>], and panics where the source
    unwraps an option or indexes a vector out of range. *)

Inductive failure := Error (message : string) | Panic (message : string).

Definition error {A} (message : string) : result failure A := Err (Error message).
Definition fail_if (c : bool) (message : string) : result failure unit := reject_if c (Error message).
Definition or_fail {A} (o : option A) (message : string) : result failure A := ok_or o (Error message).
Definition lift {A} (r : result string A) : result failure A := map_err Error r.
Definition unwrap {A} (o : option A) : result failure A :=
  ok_or o (Panic "called `Option::unwrap()` on a `None` value").

(** [Deref] of [OptionalStablePartitionSnapshotStatus]. *)
Definition expect_previous (o : option StablePartitionSnapshotStatus) : result failure StablePartitionSnapshotStatus :=
  ok_or o (Panic "operation protocol requires a previous stable snapshot").

Definition index_list {A} (l : list A) (i : Z) : result failure A :=
  ok_or (l !! Z.to_nat i) (Panic "index out of bounds").

Definition panics {A} (r : result failure A) : bool :=
  match r with Err (Panic _) => true | _ => false end.

(** [u32] additions, release and saturating. *)
Definition u32_add (a b : Z) : Z := (a + b) `mod` 2 ^ 32.
Definition u32_saturating_add (a b : Z) : Z := Z.min u32_max (a + b).

(** ** Observations *)

Definition ACTION_DEADLINE_SECONDS : Z := 10.
Definition MAX_ERROR_LENGTH : nat := 512.

Record ReplicaObservation := mkReplicaObservation {
  ro_status : ReplicaStatusInfo;
  ro_control_address : string;
  ro_replicator_address : string;
  ro_pod_name : string;
  ro_pod_role_label : option string;
}.

Abbreviation OperationObservations := (gmap Z ReplicaObservation) (only parsing).

Definition correlated_action_observation (status : ReplicaStatusInfo) (action_id : string) :
    option DurableActionObservation :=
  let mine observation := bool_decide (do_action_id (co_action observation) = action_id) in
  match as_current_action (si_agent status) with
  | Some observation =>
      if mine observation then Some (co_action observation)
      else co_action <$> List.find mine (rev (as_retained_terminal_actions (si_agent status)))
  | None => co_action <$> List.find mine (rev (as_retained_terminal_actions (si_agent status)))
  end.

(** prost's encoding and decoding of a correlated request. *)
Class PayloadCodec := mkPayloadCodec {
  prost_encode : ExecuteCorrelatedControlActionRequest → list Byte.byte;
  prost_decode : list Byte.byte → result string ExecuteCorrelatedControlActionRequest;
}.

(** prost reads from its own bytes nothing but the message it wrote. *)
Class PayloadCodecLaws (Codec : PayloadCodec) : Prop :=
  prost_faithful m m' : prost_decode (prost_encode m) = Ok m' → m' = m.

Section payloads.
  Context {Ends : Endpoints} {Codec : PayloadCodec}.

Definition encode_payload (action : DurableReplicaAction) : result string string :=
  encode_direct_correlated_action_payload prost_encode action.
Definition decode_payload (payload : string) : result string DurableReplicaAction :=
  decode_direct_correlated_action_payload prost_decode payload.

Definition pending_action_signature (pending : PendingActionStatus) (derived_action : DurableReplicaAction) :
    result string string :=
  if empty (pa_dispatch_action_payload pending) then Ok (action_signature derived_action)
  else action_signature <$> decode_payload (pa_dispatch_action_payload pending).
End payloads.

(** ** Decisions *)

Inductive Decision :=
| Persist (operation : DurableOperationStatus)
| Execute (target_id : Z) (action_id : string) (action : DurableReplicaAction)
| PatchPodRole (target_id : Z) (role : string)
| PatchPodRoleExactUid (target_id : Z) (expected_uid role : string)
| DeletePod (pod_name expected_uid : string)
| CommitSnapshot (operation : DurableOperationStatus) (snapshot : StablePartitionSnapshotStatus)
| RecordCommitEvidence (operation : DurableOperationStatus)
| Wait
| Complete (operation : DurableOperationStatus) (snapshot : StablePartitionSnapshotStatus) (compensated : bool)
| CompleteDegraded (operation : DurableOperationStatus) (snapshot : StablePartitionSnapshotStatus)
| RestartCreation (operation : DurableOperationStatus).

(** ** Errors an operation records *)

(** A byte that continues a UTF-8 character. *)
Definition is_continuation (c : Ascii.ascii) : bool :=
  let n := Ascii.N_of_ascii c in ((128 <=? n) && (n <? 192))%N.

(** [chars().take(n).collect()]. *)
Fixpoint take_chars (n : nat) (s : string) : string :=
  match s with
  | EmptyString => EmptyString
  | String c s =>
      if is_continuation c then String c (take_chars n s)
      else match n with O => EmptyString | S n => String c (take_chars n s) end
  end.

Fixpoint char_count (s : string) : nat :=
  match s with
  | EmptyString => 0
  | String c s => if is_continuation c then char_count s else S (char_count s)
  end.

Definition bounded_error (error : string) : string := take_chars MAX_ERROR_LENGTH error.

Definition record_activity_error (operation : DurableOperationStatus) (error : string) : DurableOperationStatus :=
  let bounded := bounded_error error in
  operation
    <| op_last_error := Some bounded |>
    <| op_pending_action ::= fmap (M := option) (λ pending,
         pending <| pa_attempts := u32_saturating_add (pa_attempts pending) 1 |>
                 <| pa_last_error := Some bounded |>) |>.

Definition poison (operation : DurableOperationStatus) (message : string) : DurableOperationStatus :=
  operation
    <| op_phase := Phase.Poisoned |>
    <| op_pending_action := None |>
    <| op_last_error := Some (bounded_error message) |>.

Definition fail_closed (operation : DurableOperationStatus) (error : string) : DurableOperationStatus :=
  poison operation error.

(** ** The condition an operation shows *)

Definition coordinator_phase_debug (p : RemoveReplicaCoordinatorPhaseStatus) : string :=
  match p with
  | RcValidating => "Validating" | RcInstallingCatchUpConfiguration => "InstallingCatchUpConfiguration"
  | RcWaitingForCatchUpQuorum => "WaitingForCatchUpQuorum"
  | RcInstallingCurrentConfiguration => "InstallingCurrentConfiguration"
  | RcRemovingConnection => "RemovingConnection" | RcRetiringTarget => "RetiringTarget"
  | RcAttesting => "Attesting" | RcCompensating => "Compensating"
  end.

Definition operation_name (kind : DurableOperationKind) : string :=
  match kind with
  | OpCreatePartition => "partition creation"
  | OpSwitchover => "switchover"
  | OpAddReplica => "replica add/rebuild"
  | OpRemoveReplica => "replica removal"
  | OpFailover => "failover"
  end.

Definition condition_text (operation : DurableOperationStatus) : string * string * string :=
  match op_phase operation with
  | Phase.Completed =>
      ("False", "Completed",
       "durable " +:+ operation_name (op_kind operation) +:+ " completed and stable topology was persisted")
  | Phase.Failed =>
      ("False", "CompensatedOrSafeFailure",
       default "durable operation returned to its previous stable topology" (op_last_error operation))
  | Phase.Poisoned =>
      ("True", "Poisoned", default "durable operation cannot advance safely" (op_last_error operation))
  | Phase.FailoverWaitForBestCandidate =>
      ("True", "WaitingForBestCandidate",
       default "waiting for the best eligible replica" (op_failover operation ≫= fo_assessment))
  | Phase.FailoverWaitForReadQuorum =>
      ("True", "QuorumLoss",
       default "waiting for previous/current read quorum" (op_failover operation ≫= fo_assessment))
  | Phase.FailoverNotifyDataLoss =>
      ("True", "DataLossNegotiation",
       "advanced data-loss epoch is awaiting correlated callback completion")
  | Phase.AddFreezeIntent =>
      ("True", "FreezingAddReplicaIntent",
       "observing exact primary and target fences before persisting one coarse intent")
  | Phase.AddDispatchIntent | Phase.AddAwaitCoordination =>
      ("True", "AwaitingPrimaryAgentCoordination",
       default "coarse add/build intent is awaiting primary-agent progress"
         (op_add_intent operation ≫= ais_last_observed_phase))
  | Phase.AddRecordCommit | Phase.AddPublishTarget =>
      ("True", "PublishingCommittedReplica",
       "current configuration is committed; exact target attestation and publication are pending")
  | Phase.RemoveFreezeIntent =>
      ("True", "FreezingRemoveReplicaIntent",
       "observing exact primary, target capability, and structural configuration fences")
  | Phase.RemoveDispatchIntent | Phase.RemoveAwaitCoordination =>
      ("True", "AwaitingPrimaryAgentRemoval",
       default "coarse remove intent is awaiting primary-agent progress"
         ((λ phase, "coarse removal coordinator is " +:+ coordinator_phase_debug phase) <$>
          (op_remove_intent operation ≫= ris_last_observed_phase)))
  | Phase.RemoveCompensateFinalize =>
      ("True", "FinalizingCompensatedRemoval",
       default "previous Current is restored; final compensated status is pending" (op_last_error operation))
  | Phase.RemoveRecordCommit | Phase.RemoveAwaitCleanup | Phase.RemoveDeleteTargetPod
  | Phase.RemovePublishTopology | Phase.RemoveFinalize =>
      ("True", "PublishingCommittedRemoval",
       "reduced Current is committed; exact cleanup and final publication are pending")
  | _ =>
      ("True", "Advancing",
       "durable " +:+ operation_name (op_kind operation) +:+ " is advancing one checkpoint at a time")
  end.

Definition operation_condition (operation : DurableOperationStatus) (now : Z) : StatusCondition :=
  let '(status, reason, message) := condition_text operation in
  mkStatusCondition "DurableOperation" status reason (bounded_error message) (pretty now).

(** ** Facts *)

Lemma fail_if_Ok c m u : fail_if c m = Ok u ↔ c = false.
Proof. apply reject_if_Ok. Qed.

Lemma or_fail_Ok {A} (o : option A) m a : or_fail o m = Ok a ↔ o = Some a.
Proof. apply ok_or_Ok. Qed.

Lemma unwrap_Ok {A} (o : option A) a : unwrap o = Ok a ↔ o = Some a.
Proof. apply ok_or_Ok. Qed.

Lemma lift_Ok {A} (r : result string A) a : lift r = Ok a ↔ r = Ok a.
Proof. destruct r; simpl; naive_solver. Qed.

Lemma index_list_Ok {A} (l : list A) i a : index_list l i = Ok a ↔ l !! Z.to_nat i = Some a.
Proof. apply ok_or_Ok. Qed.

Lemma panics_bind {A B} (m : result failure A) (f : A → result failure B) :
  panics m = false → (∀ a, m = Ok a → panics (f a) = false) → panics (m ≫= f) = false.
Proof. destruct m as [a|[]]; simpl; auto. Qed.

Lemma panics_fail_if c m : panics (fail_if c m) = false.
Proof. by destruct c. Qed.
Lemma panics_or_fail {A} (o : option A) m : panics (or_fail o m) = false.
Proof. by destruct o. Qed.
Lemma panics_lift {A} (r : result string A) : panics (lift r) = false.
Proof. by destruct r. Qed.

Lemma panics_try_map {A B} (f : A → result failure B) l : (∀ x, panics (f x) = false) → panics (try_map f l) = false.
Proof.
  intros Hf. induction l as [|x l IH]; [done|]. cbn [try_map]. apply panics_bind; [done|]. intros y _.
  by apply panics_bind; [done|].
Qed.
Lemma panics_try_fold {A S} (f : S → A → result failure S) s l :
  (∀ s x, panics (f s x) = false) → panics (try_fold f s l) = false.
Proof. intros Hf. revert s. induction l as [|x l IH]; intros s; [done|]. cbn [try_fold]. by apply panics_bind. Qed.
Lemma panics_try_for_each {A} (f : A → result failure unit) l :
  (∀ x, panics (f x) = false) → panics (try_for_each f l) = false.
Proof. intros Hf. induction l as [|x l IH]; [done|]. cbn [try_for_each]. by apply panics_bind. Qed.

Create HintDb panics discriminated.
#[export] Hint Resolve panics_fail_if panics_or_fail panics_lift : panics.

(** A bind panics only where its parts do. *)
Ltac no_panic :=
  repeat first
    [ progress auto with panics
    | apply panics_bind; [|intros ? ?]
    | case_match; subst; try discriminate ].

(** The same through the loops. *)
Ltac quiet :=
  repeat first
    [ done
    | progress auto with panics
    | apply panics_try_map; intros | apply panics_try_fold; intros | apply panics_try_for_each; intros
    | apply panics_bind; [|intros ? ?]
    | progress case_match; subst; try discriminate ].

Lemma bounded_error_length error : (char_count (bounded_error error) ≤ MAX_ERROR_LENGTH)%nat.
Proof.
  unfold bounded_error. generalize MAX_ERROR_LENGTH as n. induction error as [|c s IH]; intros n; simpl; [lia|].
  destruct (is_continuation c) eqn:Hc; simpl.
  - rewrite Hc. apply IH.
  - destruct n as [|n]; simpl; [lia|]. rewrite Hc. specialize (IH n). lia.
Qed.

Lemma correlated_observation_id status id a :
  correlated_action_observation status id = Some a → do_action_id a = id.
Proof.
  unfold correlated_action_observation. set (mine := λ o, bool_decide (do_action_id (co_action o) = id)).
  assert (∀ l, co_action <$> List.find mine l = Some a → do_action_id a = id) as Hfind.
  { intros l (o & Ho & ->)%fmap_Some. apply List.find_some in Ho as [_ Ho]. by apply bool_decide_eq_true in Ho. }
  destruct (as_current_action (si_agent status)) as [o|]; [|apply Hfind].
  change (bool_decide (do_action_id (co_action o) = id)) with (mine o).
  destruct (mine o) eqn:Ho; [|apply Hfind]. intros [= <-]. by apply bool_decide_eq_true in Ho.
Qed.
