(* ===== verification/Switchover.v ===== *)
(** The explicit switchover machine (kuberic-operator/src/durable/switchover.rs):
    the operation a request starts, what one reconcile decides from the
    checkpoint and the live observations, and the checks a checkpoint, a
    pending action and a terminal topology pass. *)

From S2P Require Import Prelude Types Lifecycle Control Proto Convert Crd Operation.

Set Default Goal Selector "!".

Inductive ActionObservation :=
| AoPrecondition
| AoPostcondition
| AoInProgress
| AoFailed (error : string)
| AoUnavailable
| AoImpossible.

(** ** Snapshots *)

Definition validate_snapshot (snapshot : StablePartitionSnapshotStatus) : result string unit :=
  scanned ← try_fold (λ (scan : gset Z * Z) member,
      let '(ids, primary_count) := scan in
      reject_if (empty (srs_instance_id member)) ("replica " +:+ pretty (srs_id member) +:+ " has an empty incarnation");;
      reject_if (bool_decide (srs_id member ∈ ids)) ("duplicate replica ID " +:+ pretty (srs_id member));;
      Ok ({[srs_id member]} ∪ ids,
          if bool_decide (srs_role member = StablePrimary) then primary_count + 1 else primary_count))
    (∅, 0) (ss_members snapshot);
  reject_if (negb (scanned.2 =? 1) ||
      negb (existsb (λ member, (srs_id member =? ss_primary_id snapshot) &&
                               bool_decide (srs_role member = StablePrimary)) (ss_members snapshot)))
    "snapshot must contain exactly one matching primary";;
  reject_if (negb (ss_write_quorum snapshot =? as_u32 (length (ss_members snapshot)) / 2 + 1))
    "snapshot write quorum is not a majority".

Definition find_member (snapshot : StablePartitionSnapshotStatus) (id : Z) : option StableReplicaSnapshotStatus :=
  List.find (λ member, srs_id member =? id) (ss_members snapshot).

Definition config_for_snapshot (snapshot : StablePartitionSnapshotStatus) (observations : OperationObservations) :
    result string ReplicaSetConfig :=
  members ← try_fold (λ members member,
      if srs_id member =? ss_primary_id snapshot then Ok members
      else
        observation ← ok_or (observations !! srs_id member) ("replica " +:+ pretty (srs_id member) +:+ " is unavailable");
        reject_if (negb (bool_decide (si_instance_id (ro_status observation) = srs_instance_id member)))
          ("replica " +:+ pretty (srs_id member) +:+ " incarnation changed");;
        Ok (members ++ [mkReplicaInfo (srs_id member) (srs_instance_id member) ActiveSecondary Up
                          (ro_replicator_address observation) 0 0 false]))
    [] (ss_members snapshot);
  Ok (mkReplicaSetConfig (sort_by_key ri_id members) (ss_write_quorum snapshot)).

(** ** Starting *)

Definition start_switchover (set_uid : string) (previous : StablePartitionSnapshotStatus) (target_primary_id now : Z) :
    result string DurableOperationStatus :=
  validate_snapshot previous;;
  reject_if (ss_primary_id previous =? target_primary_id) "switchover target is already primary";;
  reject_if (negb (existsb (λ member, srs_id member =? target_primary_id) (ss_members previous)))
    ("switchover target replica " +:+ pretty target_primary_id +:+ " is not in the stable snapshot");;
  configuration_number ← ok_or (i64_checked_add (es_configuration_number (ss_epoch previous)) 1)
    "switchover epoch overflow";
  let target := previous
    <| ss_epoch ::= (λ e, e <| es_configuration_number := configuration_number |>) |>
    <| ss_primary_id := target_primary_id |>
    <| ss_members ::= fmap (M := list) (λ member,
         member <| srs_role := if srs_id member =? target_primary_id then StablePrimary else StableActiveSecondary |>) |> in
  let operation_id := set_uid +:+ ":switchover:v" +:+ pretty DURABLE_OPERATION_VERSION +:+ ":" +:+
    pretty (es_data_loss_number (ss_epoch previous)) +:+ "-" +:+
    pretty (es_configuration_number (ss_epoch previous)) +:+ ":" +:+ pretty target_primary_id in
  Ok {|
    op_operation_id := operation_id;
    op_execution_id := operation_id +:+ ":execution-1";
    op_version := DURABLE_OPERATION_VERSION;
    op_kind := OpSwitchover;
    op_phase := Phase.Revoke;
    op_previous_snapshot := Some previous;
    op_target_snapshot := target;
    op_committed_snapshot := None;
    op_minimum_committed_replicas := None;
    op_old_primary_id := ss_primary_id previous;
    op_target_primary_id := target_primary_id;
    op_add_mode := None;
    op_remove_mode := None;
    op_target_replica_id := None;
    op_target_instance_id := None;
    op_target_pod_name := None;
    op_target_pod_uid := None;
    op_remove_target_replicator_address := None;
    op_remove_target_agent_generation := None;
    op_retired_instance_id := None;
    op_frozen_lsn := None;
    op_next_secondary_index := 0;
    op_phase_deadline_unix_seconds := i64_add now ACTION_DEADLINE_SECONDS;
    op_pending_action := None;
    op_last_error := None;
    op_failover := None;
    op_add_intent := None;
    op_remove_intent := None;
    op_remove_commit_evidence := None;
    op_remove_cleanup := None;
    op_removal_disposition := None |}.

(** ** The secondaries an epoch is distributed to *)

Definition sorted_ids_but (excluded : list Z) (snapshot : StablePartitionSnapshotStatus) : list Z :=
  sort_by Z.le (srs_id <$> filter (λ member, srs_id member ∉ excluded) (ss_members snapshot)).

Definition epoch_distribution_ids (operation : DurableOperationStatus) : result failure (list Z) :=
  previous ← expect_previous (op_previous_snapshot operation);
  Ok (sorted_ids_but [op_old_primary_id operation; op_target_primary_id operation] previous).

Definition compensation_epoch_distribution_ids (operation : DurableOperationStatus) : result failure (list Z) :=
  previous ← expect_previous (op_previous_snapshot operation);
  Ok (sorted_ids_but [op_old_primary_id operation] previous).

(** ** Configurations and topologies *)

Definition compensation_snapshot (operation : DurableOperationStatus) : result failure StablePartitionSnapshotStatus :=
  snapshot ← unwrap (op_previous_snapshot operation);
  Ok (snapshot <| ss_epoch := ss_epoch (op_target_snapshot operation) |>).

Definition previous_config (operation : DurableOperationStatus) (observations : OperationObservations) :
    result failure ReplicaSetConfig :=
  previous ← expect_previous (op_previous_snapshot operation);
  lift (config_for_snapshot previous observations).
Definition target_config (operation : DurableOperationStatus) (observations : OperationObservations) :
    result failure ReplicaSetConfig :=
  lift (config_for_snapshot (op_target_snapshot operation) observations).
Definition compensation_config (operation : DurableOperationStatus) (observations : OperationObservations) :
    result failure ReplicaSetConfig :=
  snapshot ← compensation_snapshot operation;
  lift (config_for_snapshot snapshot observations).

Definition same_switchover_topology (actual expected : StablePartitionSnapshotStatus) : bool :=
  bool_decide (ss_epoch actual = ss_epoch expected) &&
  (ss_primary_id actual =? ss_primary_id expected) &&
  (ss_write_quorum actual =? ss_write_quorum expected) &&
  (length (ss_members actual) =? length (ss_members expected))%nat &&
  forallb (λ '(actual, expected),
    (srs_id actual =? srs_id expected) &&
    bool_decide (srs_instance_id actual = srs_instance_id expected) &&
    bool_decide (srs_role actual = srs_role expected)) (zip (ss_members actual) (ss_members expected)).

Definition valid_compensation_snapshot (operation : DurableOperationStatus) (snapshot : StablePartitionSnapshotStatus) : bool :=
  match op_previous_snapshot operation with
  | None => false
  | Some previous =>
      if negb (ss_primary_id snapshot =? op_old_primary_id operation)
         || negb (ss_write_quorum snapshot =? ss_write_quorum previous)
         || negb (length (ss_members snapshot) =? length (ss_members previous))%nat
         || (negb (bool_decide (ss_epoch snapshot = ss_epoch previous)) &&
             negb (bool_decide (ss_epoch snapshot = ss_epoch (op_target_snapshot operation))))
      then false
      else
        forallb (λ expected,
          match filter (λ actual, srs_id actual = srs_id expected) (ss_members snapshot) with
          | [actual] =>
              bool_decide (srs_instance_id actual = srs_instance_id expected) &&
              bool_decide (srs_role actual =
                if srs_id expected =? op_old_primary_id operation then StablePrimary else StableActiveSecondary)
          | _ => false
          end) (ss_members previous)
  end.

Definition validate_switchover_terminal (operation : DurableOperationStatus) (snapshot : StablePartitionSnapshotStatus)
    (compensated : bool) : result string unit :=
  if compensated then
    reject_if (negb (bool_decide (op_phase operation = Phase.Failed)) ||
               negb (none (op_pending_action operation)) ||
               negb (valid_compensation_snapshot operation snapshot))
      "compensated durable switchover terminal is inconsistent"
  else
    reject_if (negb (bool_decide (op_phase operation = Phase.Completed)) ||
               negb (none (op_pending_action operation)) ||
               negb (same_switchover_topology snapshot (op_target_snapshot operation)))
      "successful durable switchover terminal is inconsistent".

(** ** Pending actions *)

Definition pod_role_action (kind : Action.DurableActionKind) : option string :=
  match kind with
  | Action.LabelTargetPrimary | Action.CompensateLabelOldPrimary => Some "primary"
  | Action.LabelOldSecondary | Action.CompensateLabelTargetSecondary => Some "secondary"
  | _ => None
  end.

Definition action_id (operation : DurableOperationStatus) (sequence : Z) (kind : Action.DurableActionKind) : string :=
  op_execution_id operation +:+ ":" +:+ pretty sequence +:+ ":" +:+ Action.debug kind.

Definition pending_target (operation : DurableOperationStatus) (kind : Action.DurableActionKind) : result failure Z :=
  match kind with
  | Action.RevokeWrite | Action.DemoteOldPrimary | Action.CompensatePromoteOldPrimary
  | Action.CompensateCatchUpConfiguration | Action.CompensateCurrentConfiguration
  | Action.RestorePreviousConfiguration => Ok (op_old_primary_id operation)
  | Action.PromoteTarget | Action.UpdateCatchUpConfiguration | Action.WaitForCatchUpQuorum
  | Action.UpdateCurrentConfiguration
  | Action.LabelTargetPrimary | Action.CompensateLabelTargetSecondary => Ok (op_target_primary_id operation)
  | Action.LabelOldSecondary | Action.CompensateLabelOldPrimary => Ok (op_old_primary_id operation)
  | Action.UpdateSecondaryEpoch =>
      ids ← epoch_distribution_ids operation; index_list ids (op_next_secondary_index operation)
  | Action.CompensateUpdateSecondaryEpoch =>
      ids ← compensation_epoch_distribution_ids operation; index_list ids (op_next_secondary_index operation)
  | _ => error "non-switchover action cannot be scheduled"
  end.

Definition pending_postcondition (kind : Action.DurableActionKind) : result failure DurablePostconditionStatus :=
  match kind with
  | Action.RevokeWrite => Ok (mkDurablePostconditionStatus PcWriteRevoked None)
  | Action.DemoteOldPrimary | Action.UpdateSecondaryEpoch | Action.CompensateUpdateSecondaryEpoch =>
      Ok (mkDurablePostconditionStatus
        (match kind with Action.UpdateSecondaryEpoch => PcEpoch | _ => PcRole end) (Some StableActiveSecondary))
  | Action.PromoteTarget | Action.CompensatePromoteOldPrimary =>
      Ok (mkDurablePostconditionStatus PcRole (Some StablePrimary))
  | Action.UpdateCatchUpConfiguration | Action.CompensateCatchUpConfiguration =>
      Ok (mkDurablePostconditionStatus PcCatchUpConfiguration None)
  | Action.WaitForCatchUpQuorum => Ok (mkDurablePostconditionStatus PcCatchUpQuorum None)
  | Action.UpdateCurrentConfiguration | Action.RestorePreviousConfiguration
  | Action.CompensateCurrentConfiguration => Ok (mkDurablePostconditionStatus PcCurrentConfiguration None)
  | Action.LabelTargetPrimary | Action.LabelOldSecondary | Action.CompensateLabelOldPrimary
  | Action.CompensateLabelTargetSecondary => Ok (mkDurablePostconditionStatus PcPodRoleLabel None)
  | _ => error "non-switchover action has no switchover postcondition"
  end.

Definition pending_action (operation : DurableOperationStatus) (sequence : Z) (kind : Action.DurableActionKind) (now : Z) :
    result failure PendingActionStatus :=
  target_id ← pending_target operation kind;
  previous ← expect_previous (op_previous_snapshot operation);
  member ← or_fail (find_member previous target_id)
    ("pending action target " +:+ pretty target_id +:+ " is not a snapshot member");
  let expected_epoch := match kind with
    | Action.RevokeWrite | Action.PromoteTarget | Action.RestorePreviousConfiguration => ss_epoch previous
    | _ => ss_epoch (op_target_snapshot operation)
    end in
  postcondition ← pending_postcondition kind;
  Ok {|
    pa_action_id := action_id operation sequence kind;
    pa_sequence := sequence;
    pa_kind := kind;
    pa_target_id := target_id;
    pa_target_instance_id := srs_instance_id member;
    pa_expected_epoch := expected_epoch;
    pa_desired_postcondition := postcondition;
    pa_attempts := 0;
    pa_deadline_unix_seconds := i64_add now ACTION_DEADLINE_SECONDS;
    pa_last_error := None;
    pa_dispatch_authorized := false;
    pa_dispatch_agent_generation := None;
    pa_dispatch_agent_control_version := None;
    pa_dispatch_observed_runtime_epoch := None;
    pa_dispatch_action_payload := "" |}.

Definition with_pending (operation : DurableOperationStatus) (pending : PendingActionStatus) : DurableOperationStatus :=
  operation <| op_pending_action := Some pending |>.

Definition switchover_label_uid (operation : DurableOperationStatus) (target_id : Z) : result failure string :=
  previous ← expect_previous (op_previous_snapshot operation);
  member ← or_fail
    match find_member previous target_id with
    | Some member => Some member
    | None => find_member (op_target_snapshot operation) target_id
    end
    ("switchover label target " +:+ pretty target_id +:+ " is not in its snapshots");
  Ok (srs_instance_id member).

Definition action_allowed_in_phase (phase : Phase.DurableOperationPhase) (kind : Action.DurableActionKind) : bool :=
  match phase, kind with
  | Phase.Revoke, Action.RevokeWrite
  | Phase.DemoteOldPrimary, Action.DemoteOldPrimary
  | Phase.PromoteTarget, Action.PromoteTarget
  | Phase.DistributeEpoch, Action.UpdateSecondaryEpoch
  | Phase.UpdateCatchUpConfiguration, Action.UpdateCatchUpConfiguration
  | Phase.WaitForCatchUpQuorum, Action.WaitForCatchUpQuorum
  | Phase.UpdateCurrentConfiguration, Action.UpdateCurrentConfiguration
  | Phase.LabelTargetPrimary, Action.LabelTargetPrimary
  | Phase.LabelOldSecondary, Action.LabelOldSecondary
  | Phase.RestorePreviousConfiguration, Action.RestorePreviousConfiguration
  | Phase.CompensatePromoteOldPrimary, Action.CompensatePromoteOldPrimary
  | Phase.CompensateDistributeEpoch, Action.CompensateUpdateSecondaryEpoch
  | Phase.CompensateCatchUpConfiguration, Action.CompensateCatchUpConfiguration
  | Phase.CompensateCurrentConfiguration, Action.CompensateCurrentConfiguration
  | Phase.CompensateLabelOldPrimary, Action.CompensateLabelOldPrimary
  | Phase.CompensateLabelTargetSecondary, Action.CompensateLabelTargetSecondary => true
  | _, _ => false
  end.

(** ** Checks of a checkpoint *)

Definition validate_operation (operation : DurableOperationStatus) : result failure unit :=
  fail_if (negb (op_version operation =? DURABLE_OPERATION_VERSION))
    ("unsupported durable operation version " +:+ pretty (op_version operation));;
  fail_if (negb (bool_decide (op_kind operation = OpSwitchover))) "unsupported durable operation kind";;
  fail_if (none (op_previous_snapshot operation)) "switchover operation has no previous stable snapshot";;
  previous ← expect_previous (op_previous_snapshot operation);
  lift (validate_snapshot previous);;
  lift (validate_snapshot (op_target_snapshot operation));;
  fail_if (negb (op_old_primary_id operation =? ss_primary_id previous) ||
           negb (op_target_primary_id operation =? ss_primary_id (op_target_snapshot operation)))
    "operation primary identities conflict with snapshots".

Definition validate_pending_action (operation : DurableOperationStatus) (pending : PendingActionStatus) :
    result failure unit :=
  fail_if (negb (action_allowed_in_phase (op_phase operation) (pa_kind pending)))
    ("pending action " +:+ Action.debug (pa_kind pending) +:+ " is illegal in phase " +:+ Phase.debug (op_phase operation));;
  fail_if (negb (bool_decide (pa_action_id pending = action_id operation (pa_sequence pending) (pa_kind pending))))
    "pending action ID is not deterministic for this execution";;
  previous ← expect_previous (op_previous_snapshot operation);
  member ← or_fail (find_member previous (pa_target_id pending))
    "pending action target is not in the operation snapshot";
  fail_if (negb (bool_decide (srs_instance_id member = pa_target_instance_id pending)))
    "pending action target incarnation conflicts with snapshot";;
  expected ← pending_action operation (pa_sequence pending) (pa_kind pending) 0;
  fail_if (negb (pa_target_id pending =? pa_target_id expected) ||
           negb (bool_decide (pa_expected_epoch pending = pa_expected_epoch expected)) ||
           negb (bool_decide (pa_desired_postcondition pending = pa_desired_postcondition expected)))
    "pending action target or postcondition is not deterministic".

(** What the durable pilot checks of an operation it is handed. *)
Definition validate_switchover_operation (operation : DurableOperationStatus) : result failure unit :=
  validate_operation operation;;
  match op_pending_action operation with
  | Some pending => validate_pending_action operation pending
  | None => Ok tt
  end.

(** ** Transitions *)

Inductive PostconditionAdvance :=
| AdvPhase (phase : Phase.DurableOperationPhase)
| AdvPhaseAndResetIndex (phase : Phase.DurableOperationPhase)
| AdvIncrementIndex.

Definition postcondition_advance (kind : Action.DurableActionKind) : option PostconditionAdvance :=
  match kind with
  | Action.RevokeWrite => Some (AdvPhase Phase.CaptureLsn)
  | Action.DemoteOldPrimary => Some (AdvPhase Phase.PromoteTarget)
  | Action.PromoteTarget => Some (AdvPhaseAndResetIndex Phase.DistributeEpoch)
  | Action.UpdateSecondaryEpoch => Some AdvIncrementIndex
  | Action.UpdateCatchUpConfiguration => Some (AdvPhase Phase.WaitForCatchUpQuorum)
  | Action.WaitForCatchUpQuorum => Some (AdvPhase Phase.UpdateCurrentConfiguration)
  | Action.UpdateCurrentConfiguration => Some (AdvPhase Phase.LabelTargetPrimary)
  | Action.LabelTargetPrimary => Some (AdvPhase Phase.LabelOldSecondary)
  | Action.LabelOldSecondary => Some (AdvPhase Phase.Finalize)
  | Action.RestorePreviousConfiguration => Some (AdvPhase Phase.Failed)
  | Action.CompensatePromoteOldPrimary => Some (AdvPhaseAndResetIndex Phase.CompensateDistributeEpoch)
  | Action.CompensateUpdateSecondaryEpoch => Some AdvIncrementIndex
  | Action.CompensateCatchUpConfiguration => Some (AdvPhase Phase.CompensateCurrentConfiguration)
  | Action.CompensateCurrentConfiguration => Some (AdvPhase Phase.CompensateLabelOldPrimary)
  | Action.CompensateLabelOldPrimary => Some (AdvPhase Phase.CompensateLabelTargetSecondary)
  | Action.CompensateLabelTargetSecondary => Some (AdvPhase Phase.CompensateFinalize)
  | _ => None
  end.

(** A phase entered at [now] has until [now + ACTION_DEADLINE_SECONDS]. *)
Definition enter_phase (phase : Phase.DurableOperationPhase) (now : Z) (operation : DurableOperationStatus) :
    DurableOperationStatus :=
  operation <| op_phase := phase |> <| op_phase_deadline_unix_seconds := i64_add now ACTION_DEADLINE_SECONDS |>.

Definition advance_after_switchover_postcondition (operation : DurableOperationStatus) (pending : PendingActionStatus)
    (now : Z) : result failure DurableOperationStatus :=
  advance ← or_fail (postcondition_advance (pa_kind pending)) "non-switchover action reached switchover decision";
  let next := operation
    <| op_pending_action := None |>
    <| op_last_error := None |>
    <| op_phase_deadline_unix_seconds := i64_add now ACTION_DEADLINE_SECONDS |> in
  Ok match advance with
     | AdvPhase phase => next <| op_phase := phase |>
     | AdvPhaseAndResetIndex phase => next <| op_phase := phase |> <| op_next_secondary_index := 0 |>
     | AdvIncrementIndex => next <| op_next_secondary_index ::= (λ i, u32_saturating_add i 1) |>
     end.

Definition is_switchover_postcondition_transition (operation next : DurableOperationStatus)
    (pending : PendingActionStatus) : bool :=
  if negb (none (op_pending_action next)) then false
  else match postcondition_advance (pa_kind pending) with
  | Some (AdvPhase phase) => bool_decide (op_phase next = phase)
  | Some (AdvPhaseAndResetIndex phase) => bool_decide (op_phase next = phase) && (op_next_secondary_index next =? 0)
  | Some AdvIncrementIndex =>
      bool_decide (op_phase next = op_phase operation) &&
      (op_next_secondary_index next =? u32_saturating_add (op_next_secondary_index operation) 1)
  | None => false
  end.

Definition is_legal_switchover_phase_transition (current next : Phase.DurableOperationPhase) : bool :=
  bool_decide (current = next) || bool_decide (next = Phase.Poisoned) ||
  match current, next with
  | Phase.Revoke, (Phase.CaptureLsn | Phase.Failed)
  | Phase.CaptureLsn, Phase.PreCatchUp
  | Phase.PreCatchUp, (Phase.DemoteOldPrimary | Phase.RestorePreviousConfiguration)
  | Phase.DemoteOldPrimary, (Phase.PromoteTarget | Phase.RestorePreviousConfiguration)
  | Phase.PromoteTarget, (Phase.DistributeEpoch | Phase.CompensatePromoteOldPrimary)
  | Phase.DistributeEpoch, Phase.UpdateCatchUpConfiguration
  | Phase.UpdateCatchUpConfiguration, Phase.WaitForCatchUpQuorum
  | Phase.WaitForCatchUpQuorum, Phase.UpdateCurrentConfiguration
  | Phase.UpdateCurrentConfiguration, Phase.LabelTargetPrimary
  | Phase.LabelTargetPrimary, Phase.LabelOldSecondary
  | Phase.LabelOldSecondary, Phase.Finalize
  | Phase.RestorePreviousConfiguration, Phase.Failed
  | Phase.CompensatePromoteOldPrimary, Phase.CompensateDistributeEpoch
  | Phase.CompensateDistributeEpoch, Phase.CompensateCatchUpConfiguration
  | Phase.CompensateCatchUpConfiguration, Phase.CompensateCurrentConfiguration
  | Phase.CompensateCurrentConfiguration, Phase.CompensateLabelOldPrimary
  | Phase.CompensateLabelOldPrimary, Phase.CompensateLabelTargetSecondary
  | Phase.CompensateLabelTargetSecondary, Phase.CompensateFinalize => true
  | _, _ => false
  end.

Definition timeout_phase (kind : Action.DurableActionKind) : Phase.DurableOperationPhase :=
  match kind with
  | Action.RevokeWrite => Phase.Failed
  | Action.DemoteOldPrimary => Phase.RestorePreviousConfiguration
  | Action.PromoteTarget => Phase.CompensatePromoteOldPrimary
  | _ => Phase.Poisoned
  end.

Definition timeout_transition (operation : DurableOperationStatus) (pending : PendingActionStatus) (now : Z) :
    DurableOperationStatus :=
  operation
    <| op_pending_action := None |>
    <| op_phase_deadline_unix_seconds := i64_add now ACTION_DEADLINE_SECONDS |>
    <| op_last_error := Some ("durable action " +:+ Action.debug (pa_kind pending) +:+ " reached its deadline") |>
    <| op_phase := timeout_phase (pa_kind pending) |>.

(** ** What the live state says of a pending action *)

Definition config_status (mode : ReplicaConfigurationMode) (config : ReplicaSetConfig) : ReplicaConfigurationStatus :=
  configuration_status_from_config mode config.

Definition configuration_observation (status : ReplicaStatusInfo) (expected : ReplicaConfigurationStatus)
    (precondition : option ReplicaConfigurationStatus) (allow_none_precondition : bool) (expected_epoch : Epoch) :
    ActionObservation :=
  if negb (bool_decide (si_role status = Primary)) || negb (bool_decide (si_epoch status = expected_epoch))
  then AoImpossible
  else if bool_decide (si_configuration status = Some expected) then AoPostcondition
  else if bool_decide (si_configuration status = precondition)
          || (allow_none_precondition && none (si_configuration status))
  then AoPrecondition
  else AoImpossible.

Definition action_for (operation : DurableOperationStatus) (pending : PendingActionStatus)
    (observations : OperationObservations) : result failure DurableReplicaAction :=
  let target_epoch := to_epoch (ss_epoch (op_target_snapshot operation)) in
  match pa_kind pending with
  | Action.RevokeWrite => Ok ActRevokeWriteStatus
  | Action.DemoteOldPrimary => Ok (ActChangeRole target_epoch ActiveSecondary)
  | Action.PromoteTarget | Action.CompensatePromoteOldPrimary => Ok (ActChangeRole target_epoch Primary)
  | Action.UpdateSecondaryEpoch => Ok (ActUpdateEpoch target_epoch)
  | Action.CompensateUpdateSecondaryEpoch => Ok (ActUpdateEpoch target_epoch)
  | Action.UpdateCatchUpConfiguration =>
      current ← target_config operation observations;
      previous ← previous_config operation observations;
      Ok (ActUpdateCatchUpConfiguration current previous)
  | Action.WaitForCatchUpQuorum => Ok (ActWaitForCatchUpQuorum QuorumWrite)
  | Action.UpdateCurrentConfiguration =>
      current ← target_config operation observations; Ok (ActUpdateCurrentConfiguration current)
  | Action.RestorePreviousConfiguration =>
      current ← previous_config operation observations; Ok (ActUpdateCurrentConfiguration current)
  | Action.CompensateCatchUpConfiguration =>
      current ← compensation_config operation observations;
      previous ← previous_config operation observations;
      Ok (ActUpdateCatchUpConfiguration current previous)
  | Action.CompensateCurrentConfiguration =>
      current ← compensation_config operation observations; Ok (ActUpdateCurrentConfiguration current)
  | Action.LabelTargetPrimary | Action.LabelOldSecondary | Action.CompensateLabelOldPrimary
  | Action.CompensateLabelTargetSecondary => error "pod label actions are executed by the cluster API"
  | _ => error "non-switchover action reached switchover action mapping"
  end.

(** A replica with [role] at [epoch]. *)
Definition holds (role : Role) (epoch : Epoch) (status : ReplicaStatusInfo) : bool :=
  bool_decide (si_role status = role) && bool_decide (si_epoch status = epoch).
Definition writes (access : AccessStatus) (status : ReplicaStatusInfo) : bool :=
  bool_decide (si_write_status status = access).

(** The verdict where no record of the action is left: by kind, from the
    role, epoch, access, configuration and label of the replica. *)
Definition observe_state (operation : DurableOperationStatus) (pending : PendingActionStatus)
    (observations : OperationObservations) (observation : ReplicaObservation) : result failure ActionObservation :=
  previous_snapshot ← expect_previous (op_previous_snapshot operation);
  let previous_epoch := to_epoch (ss_epoch previous_snapshot) in
  let target_epoch := to_epoch (ss_epoch (op_target_snapshot operation)) in
  let status := ro_status observation in
  match pa_kind pending with
  | Action.RevokeWrite =>
      Ok (if holds Primary previous_epoch status && writes StReconfigurationPending status then AoPostcondition
          else if holds Primary previous_epoch status && writes Granted status then AoPrecondition
          else AoImpossible)
  | Action.DemoteOldPrimary =>
      Ok (if holds ActiveSecondary target_epoch status then AoPostcondition
          else if holds Primary previous_epoch status && writes StReconfigurationPending status then AoPrecondition
          else AoImpossible)
  | Action.PromoteTarget =>
      Ok (if holds Primary target_epoch status then AoPostcondition
          else if holds ActiveSecondary previous_epoch status then AoPrecondition
          else AoImpossible)
  | Action.UpdateSecondaryEpoch | Action.CompensateUpdateSecondaryEpoch =>
      Ok (if holds ActiveSecondary target_epoch status then AoPostcondition
          else if holds ActiveSecondary previous_epoch status then AoPrecondition
          else AoImpossible)
  | Action.UpdateCatchUpConfiguration =>
      target ← target_config operation observations;
      Ok (configuration_observation status (config_status CatchUp target) None true target_epoch)
  | Action.WaitForCatchUpQuorum =>
      Ok (if holds Primary target_epoch status then AoPrecondition else AoImpossible)
  | Action.UpdateCurrentConfiguration =>
      target ← target_config operation observations;
      Ok (configuration_observation status (config_status Current target) (Some (config_status CatchUp target))
            false target_epoch)
  | Action.RestorePreviousConfiguration =>
      previous ← previous_config operation observations;
      let expected := config_status Current previous in
      Ok (if negb (holds Primary previous_epoch status) then AoImpossible
          else if writes Granted status && bool_decide (si_configuration status = Some expected) then AoPostcondition
          else if writes StReconfigurationPending status && bool_decide (si_configuration status = Some expected)
          then AoPrecondition
          else AoImpossible)
  | Action.LabelTargetPrimary | Action.LabelOldSecondary | Action.CompensateLabelOldPrimary
  | Action.CompensateLabelTargetSecondary =>
      expected ← unwrap (pod_role_action (pa_kind pending));
      let expected_role := match pa_kind pending with
        | Action.LabelTargetPrimary | Action.CompensateLabelOldPrimary => Primary
        | _ => ActiveSecondary
        end in
      Ok (if negb (bool_decide (si_epoch status = target_epoch)) || negb (bool_decide (si_role status = expected_role))
          then AoImpossible
          else if bool_decide (ro_pod_role_label observation = Some expected) then AoPostcondition
          else AoPrecondition)
  | Action.CompensatePromoteOldPrimary =>
      Ok (if holds Primary target_epoch status then AoPostcondition
          else if holds ActiveSecondary target_epoch status then AoPrecondition
          else AoImpossible)
  | Action.CompensateCatchUpConfiguration =>
      compensation ← compensation_config operation observations;
      previous ← previous_config operation observations;
      Ok (configuration_observation status (config_status CatchUp compensation)
            (Some (config_status Current previous)) false target_epoch)
  | Action.CompensateCurrentConfiguration =>
      compensation ← compensation_config operation observations;
      Ok (configuration_observation status (config_status Current compensation)
            (Some (config_status CatchUp compensation)) false target_epoch)
  | _ => error "non-switchover action reached switchover observation"
  end.

(** ** Attestation of a topology *)

Definition exact_observation (operation : DurableOperationStatus) (observations : OperationObservations) (id : Z)
    (expected_epoch : Epoch) : result failure ReplicaObservation :=
  observation ← or_fail (observations !! id) ("replica " +:+ pretty id +:+ " is unavailable");
  previous ← expect_previous (op_previous_snapshot operation);
  member ← or_fail (find_member previous id) ("replica " +:+ pretty id +:+ " is not in the operation snapshot");
  fail_if (negb (bool_decide (si_instance_id (ro_status observation) = srs_instance_id member)))
    ("replica " +:+ pretty id +:+ " incarnation changed");;
  fail_if (negb (bool_decide (si_epoch (ro_status observation) = expected_epoch)))
    ("replica " +:+ pretty id +:+ " epoch is stale or unexpected");;
  Ok observation.

Definition validate_snapshot_observation (operation : DurableOperationStatus) (snapshot : StablePartitionSnapshotStatus)
    (observations : OperationObservations) : result failure unit :=
  let expected_epoch := to_epoch (ss_epoch snapshot) in
  try_for_each (λ member,
    observation ← exact_observation operation observations (srs_id member) expected_epoch;
    let expected_role := stable_role (srs_role member) in
    fail_if (negb (bool_decide (si_role (ro_status observation) = expected_role)))
      ("replica " +:+ pretty (srs_id member) +:+ " has role " +:+ role_debug (si_role (ro_status observation)) +:+
       ", expected " +:+ role_debug expected_role);;
    let expected_label := if srs_id member =? ss_primary_id snapshot then "primary" else "secondary" in
    fail_if (negb (bool_decide (ro_pod_role_label observation = Some expected_label)))
      ("replica " +:+ pretty (srs_id member) +:+ " pod role label is not " +:+ expected_label))
    (ss_members snapshot);;
  primary ← or_fail (observations !! ss_primary_id snapshot)
    ("snapshot primary " +:+ pretty (ss_primary_id snapshot) +:+ " is unavailable");
  config ← lift (config_for_snapshot snapshot observations);
  fail_if (negb (bool_decide (si_configuration (ro_status primary) = Some (config_status Current config))))
    "snapshot primary current configuration is not durable target".

Section decisions.
  Context {Ends : Endpoints} {Codec : PayloadCodec}.

Definition observe_action (operation : DurableOperationStatus) (pending : PendingActionStatus)
    (observations : OperationObservations) : result failure ActionObservation :=
  match observations !! pa_target_id pending with
  | None => Ok AoUnavailable
  | Some observation =>
      if negb (bool_decide (si_instance_id (ro_status observation) = pa_target_instance_id pending))
      then Ok AoImpossible
      else match correlated_action_observation (ro_status observation) (pa_action_id pending) with
      | Some action =>
          if negb (none (pod_role_action (pa_kind pending))) then Ok AoImpossible
          else
            expected_action ← action_for operation pending observations;
            expected_signature ← lift (pending_action_signature pending expected_action);
            if negb (bool_decide (do_signature action = expected_signature)) then Ok AoImpossible
            else Ok match do_state action with
              | Scheduled | InProgress => AoInProgress
              | Completed => AoPostcondition
              | Failed => AoFailed (default "runtime reported durable activity failure" (do_error action))
              end
      | None => observe_state operation pending observations observation
      end
  end.

Definition decide_pending (operation : DurableOperationStatus) (pending : PendingActionStatus)
    (observations : OperationObservations) (now : Z) : result failure Decision :=
  observed ← observe_action operation pending observations;
  let expired := pa_deadline_unix_seconds pending <=? now in
  match observed with
  | AoPostcondition => next ← advance_after_switchover_postcondition operation pending now; Ok (Persist next)
  | AoPrecondition =>
      if expired then Ok (Persist (timeout_transition operation pending now))
      else match pod_role_action (pa_kind pending) with
      | Some role =>
          uid ← switchover_label_uid operation (pa_target_id pending);
          Ok (PatchPodRoleExactUid (pa_target_id pending) uid role)
      | None =>
          action ← action_for operation pending observations;
          Ok (Execute (pa_target_id pending) (pa_action_id pending) action)
      end
  | AoInProgress => Ok (if expired then Persist (timeout_transition operation pending now) else Wait)
  | AoFailed err =>
      let recorded := record_activity_error operation err in
      Ok (Persist ((timeout_transition recorded pending now) <| op_last_error := Some err |>))
  | AoUnavailable =>
      Ok (if expired then Persist (poison operation "durable action target was unavailable at its deadline") else Wait)
  | AoImpossible =>
      Ok (Persist (poison operation "live state matches neither the durable action precondition nor postcondition"))
  end.

(** Schedule the action of the phase. *)
Definition schedule (operation : DurableOperationStatus) (sequence : Z) (kind : Action.DurableActionKind) (now : Z) :
    result failure Decision :=
  pending ← pending_action operation sequence kind now; Ok (Persist (with_pending operation pending)).

Definition decide_capture (operation : DurableOperationStatus) (observations : OperationObservations) (now : Z) :
    result failure Decision :=
  match observations !! op_old_primary_id operation with
  | None =>
      Ok (if op_phase_deadline_unix_seconds operation <=? now
          then Persist (poison operation "old primary was unavailable while capturing the frozen LSN")
          else Wait)
  | Some old =>
      previous ← expect_previous (op_previous_snapshot operation);
      expected_member ← unwrap (find_member previous (op_old_primary_id operation));
      if negb (bool_decide (si_instance_id (ro_status old) = srs_instance_id expected_member))
         || negb (bool_decide (si_epoch (ro_status old) = to_epoch (ss_epoch previous)))
      then Ok (Persist (poison operation "old primary incarnation or epoch changed while capturing the frozen LSN"))
      else if negb (bool_decide (si_role (ro_status old) = Primary))
              || negb (writes StReconfigurationPending (ro_status old))
      then Ok (Persist (poison operation "old primary is not write-revoked while capturing the frozen LSN"))
      else Ok (Persist ((enter_phase Phase.PreCatchUp now operation)
                  <| op_frozen_lsn := Some (si_current_progress (ro_status old)) |>))
  end.

Definition decide_pre_catch_up (operation : DurableOperationStatus) (observations : OperationObservations) (now : Z) :
    result failure Decision :=
  let expired := op_phase_deadline_unix_seconds operation <=? now in
  let restore message := Persist ((enter_phase Phase.RestorePreviousConfiguration now operation)
                            <| op_last_error := Some message |>) in
  match observations !! op_target_primary_id operation with
  | None => Ok (if expired then restore "switchover target was unavailable during pre-catch-up" else Wait)
  | Some target =>
      previous ← expect_previous (op_previous_snapshot operation);
      expected_member ← unwrap (find_member previous (op_target_primary_id operation));
      if negb (bool_decide (si_instance_id (ro_status target) = srs_instance_id expected_member))
         || negb (bool_decide (si_epoch (ro_status target) = to_epoch (ss_epoch previous)))
      then Ok (Persist (poison operation "switchover target incarnation or epoch changed during pre-catch-up"))
      else
        frozen ← or_fail (op_frozen_lsn operation) "pre-catch-up phase has no frozen LSN";
        if negb (bool_decide (si_role (ro_status target) = ActiveSecondary))
        then Ok (Persist (poison operation "switchover target is not an active secondary during pre-catch-up"))
        else if frozen <=? si_current_progress (ro_status target)
        then Ok (Persist (enter_phase Phase.DemoteOldPrimary now operation))
        else Ok (if expired then restore "switchover target did not reach the frozen primary LSN" else Wait)
  end.

(** A phase that updates the epoch of one secondary after another. *)
Definition decide_distribute (ids : list Z) (sequence : Z) (kind : Action.DurableActionKind)
    (done : Phase.DurableOperationPhase) (operation : DurableOperationStatus) (now : Z) : result failure Decision :=
  if Z.of_nat (length ids) <=? op_next_secondary_index operation
  then Ok (Persist (enter_phase done now operation))
  else schedule operation (u32_add sequence (op_next_secondary_index operation)) kind now.

Definition message_of (f : failure) : string := match f with Error m | Panic m => m end.

(** [Finalize] and [CompensateFinalize]: attest [snapshot] or wait for it. *)
Definition decide_finalize (operation : DurableOperationStatus) (snapshot : StablePartitionSnapshotStatus)
    (final : DurableOperationStatus) (compensated : bool) (observations : OperationObservations) (now : Z) :
    result failure Decision :=
  match validate_snapshot_observation operation snapshot observations with
  | Err (Panic m) => Err (Panic m)
  | Err (Error err) =>
      Ok (if op_phase_deadline_unix_seconds operation <=? now then Persist (poison operation err) else Wait)
  | Ok _ =>
      lift (validate_switchover_terminal final snapshot compensated);;
      Ok (Complete final snapshot compensated)
  end.

Definition decide_failed (operation : DurableOperationStatus) (observations : OperationObservations) :
    result failure Decision :=
  old ← or_fail (observations !! op_old_primary_id operation) "failed operation old primary is unavailable";
  previous ← expect_previous (op_previous_snapshot operation);
  let previous_epoch := to_epoch (ss_epoch previous) in
  let target_epoch := to_epoch (ss_epoch (op_target_snapshot operation)) in
  let complete snapshot :=
    lift (validate_switchover_terminal operation snapshot true);; Ok (Complete operation snapshot true) in
  if holds Primary previous_epoch (ro_status old) then
    snapshot ← unwrap (op_previous_snapshot operation); complete snapshot
  else if holds Primary target_epoch (ro_status old) then
    snapshot ← compensation_snapshot operation; complete snapshot
  else Ok (Persist (poison operation "failed operation cannot attest a stable old-primary topology")).

Definition decide_phase (operation : DurableOperationStatus) (observations : OperationObservations) (now : Z) :
    result failure Decision :=
  match op_phase operation with
  | Phase.Revoke => schedule operation 1 Action.RevokeWrite now
  | Phase.CaptureLsn => decide_capture operation observations now
  | Phase.PreCatchUp => decide_pre_catch_up operation observations now
  | Phase.DemoteOldPrimary => schedule operation 2 Action.DemoteOldPrimary now
  | Phase.PromoteTarget => schedule operation 3 Action.PromoteTarget now
  | Phase.DistributeEpoch =>
      secondaries ← epoch_distribution_ids operation;
      decide_distribute secondaries 100 Action.UpdateSecondaryEpoch Phase.UpdateCatchUpConfiguration operation now
  | Phase.CompensateFinalize =>
      snapshot ← compensation_snapshot operation;
      decide_finalize operation snapshot (operation <| op_phase := Phase.Failed |>) true observations now
  | Phase.UpdateCatchUpConfiguration => schedule operation 1000 Action.UpdateCatchUpConfiguration now
  | Phase.WaitForCatchUpQuorum => schedule operation 1001 Action.WaitForCatchUpQuorum now
  | Phase.UpdateCurrentConfiguration => schedule operation 1002 Action.UpdateCurrentConfiguration now
  | Phase.LabelTargetPrimary => schedule operation 1003 Action.LabelTargetPrimary now
  | Phase.LabelOldSecondary => schedule operation 1004 Action.LabelOldSecondary now
  | Phase.Finalize =>
      decide_finalize operation (op_target_snapshot operation)
        (operation <| op_phase := Phase.Completed |> <| op_pending_action := None |>) false observations now
  | Phase.RestorePreviousConfiguration => schedule operation 1500 Action.RestorePreviousConfiguration now
  | Phase.CompensatePromoteOldPrimary => schedule operation 2000 Action.CompensatePromoteOldPrimary now
  | Phase.CompensateDistributeEpoch =>
      secondaries ← compensation_epoch_distribution_ids operation;
      decide_distribute secondaries 2100 Action.CompensateUpdateSecondaryEpoch Phase.CompensateCatchUpConfiguration
        operation now
  | Phase.CompensateCatchUpConfiguration => schedule operation 2001 Action.CompensateCatchUpConfiguration now
  | Phase.CompensateCurrentConfiguration => schedule operation 2002 Action.CompensateCurrentConfiguration now
  | Phase.CompensateLabelOldPrimary => schedule operation 2003 Action.CompensateLabelOldPrimary now
  | Phase.CompensateLabelTargetSecondary => schedule operation 2004 Action.CompensateLabelTargetSecondary now
  | Phase.Completed | Phase.Failed | Phase.Poisoned => Ok Wait
  | phase => error ("phase " +:+ Phase.debug phase +:+ " is not valid for switchover")
  end.

Definition decide_switchover (operation : DurableOperationStatus) (observations : OperationObservations) (now : Z) :
    result failure Decision :=
  validate_operation operation;;
  if bool_decide (op_phase operation = Phase.Completed) || bool_decide (op_phase operation = Phase.Poisoned)
  then Ok Wait
  else if bool_decide (op_phase operation = Phase.Failed) then decide_failed operation observations
  else match op_pending_action operation with
  | Some pending => validate_pending_action operation pending;; decide_pending operation pending observations now
  | None => decide_phase operation observations now
  end.
End decisions.
