(* ===== verification/SwitchoverSteps.v ===== *)
(** The switchover machine as a step relation: every checkpoint a decision
    persists is one of nine kinds of step, and the steps keep a checkpoint
    well formed. *)

From S2P Require Import Prelude Types Lifecycle Control Proto Convert Crd Operation Switchover.

Set Default Goal Selector "!".

(** ** Valid snapshots *)

Section scan.
#[local] Definition scan (s : gset Z * Z) (member : StableReplicaSnapshotStatus) : result string (gset Z * Z) :=
    let '(ids, primary_count) := s in
    reject_if (empty (srs_instance_id member)) ("replica " +:+ pretty (srs_id member) +:+ " has an empty incarnation");;
    reject_if (bool_decide (srs_id member ∈ ids)) ("duplicate replica ID " +:+ pretty (srs_id member));;
    Ok ({[srs_id member]} ∪ ids,
        if bool_decide (srs_role member = StablePrimary) then primary_count + 1 else primary_count).

Definition primaries (l : list StableReplicaSnapshotStatus) : Z :=
  Z.of_nat (length (filter (λ m, srs_role m = StablePrimary) l)).

Lemma scan_Ok (l : list StableReplicaSnapshotStatus) (ids : gset Z) (n : Z) s :
  try_fold scan (ids, n) l = Ok s ↔
  (Forall (λ m, srs_instance_id m ≠ "") l) ∧ NoDup (srs_id <$> l) ∧ (Forall (λ m, (srs_id m) ∉ ids) l) ∧
  s = (list_to_set (srs_id <$> l) ∪ ids, n + primaries l).
Proof.
  revert ids n. induction l as [|m l IH]; intros ids n; simpl.
  - unfold primaries. simpl. rewrite Z.add_0_r, (left_id_L ∅ (∪)). split; [intros [= <-]|intros (_ & _ & _ & ->); done].
    split; [constructor|]. split; [constructor|]. by split; [constructor|].
  - rewrite bind_Ok, Forall_cons, NoDup_cons, Forall_cons.
    assert (Forall (λ x, (srs_id x) ∉ {[srs_id m]} ∪ ids) l ↔
      (srs_id m ∉ srs_id <$> l) ∧ Forall (λ x, (srs_id x) ∉ ids) l) as Hids.
    { rewrite !Forall_forall, list_elem_of_fmap. set_solver. }
    assert (∀ z, n + z = (if bool_decide (srs_role m = StablePrimary) then n + 1 else n) +
      (z - if bool_decide (srs_role m = StablePrimary) then 1 else 0)) as Hn by (intros; case_bool_decide; lia).
    assert (primaries (m :: l) = (if bool_decide (srs_role m = StablePrimary) then 1 else 0) + primaries l) as Hp.
    { unfold primaries. rewrite filter_cons. case_decide; case_bool_decide; simpl; done || lia. }
    assert (list_to_set (srs_id <$> l) ∪ ({[srs_id m]} ∪ ids) = {[srs_id m]} ∪ list_to_set (srs_id <$> l) ∪ ids) as Hset by set_solver.
    split.
    + intros (s1 & ([] & Hne%reject_if_Ok & ([] & Hid%reject_if_Ok & [= <-])%bind_Ok)%bind_Ok & Hl).
      apply IH in Hl as (? & ? & (? & ?)%Hids & ->). unfold empty in Hne. guards.
      split; [done|]. split; [done|]. split; [done|]. rewrite Hp, Hset. f_equal. case_bool_decide; lia.
    + intros ([Hne ?] & [Hni ?] & [Hid ?] & ->). eexists. split.
      { unfold empty. rewrite (bool_decide_eq_false_2 (srs_instance_id m = "")) by done. simpl.
        rewrite (bool_decide_eq_false_2 (srs_id m ∈ ids)) by done. reflexivity. }
      apply IH. split; [done|]. split; [done|]. split; [by apply Hids|]. rewrite Hp, Hset. f_equal. case_bool_decide; lia.
Qed.
End scan.

(** What [validate_snapshot] accepts. *)
Record valid_snapshot (s : StablePartitionSnapshotStatus) : Prop := mkValidSnapshot {
  vs_named : Forall (λ m, srs_instance_id m ≠ "") (ss_members s);
  vs_ids : NoDup (srs_id <$> ss_members s);
  vs_one : primaries (ss_members s) = 1;
  vs_primary : ∃ m, m ∈ ss_members s ∧ srs_id m = ss_primary_id s ∧ srs_role m = StablePrimary;
  vs_quorum : ss_write_quorum s = as_u32 (length (ss_members s)) / 2 + 1;
}.

Lemma validate_snapshot_Ok s : validate_snapshot s = Ok tt ↔ valid_snapshot s.
Proof.
  unfold validate_snapshot. rewrite bind_Ok. split.
  - intros (scanned & (Hn & Hd & _ & ->)%scan_Ok & Hrest). cbn [fst snd] in Hrest.
    apply bind_Ok in Hrest as ([] & Hp%reject_if_Ok & Hq%reject_if_Ok). guards.
    apply existsb_exists in Hp as (m & Hm%list_elem_of_In & Hmp).
    apply andb_true_iff in Hmp as [Hid%Z.eqb_eq Hr%bool_decide_eq_true].
    split; [done..|by exists m|done].
  - intros [Hn Hd H1 (m & Hm & Hid & Hr) Hq]. eexists. split.
    { apply scan_Ok. split; [done|]. split; [done|]. split; [|done]. rewrite Forall_forall. set_solver. }
    cbn [fst snd]. rewrite H1. simpl. rewrite Hq, Z.eqb_refl. simpl.
    replace (existsb _ _) with true; [done|]. symmetry. apply existsb_exists. exists m.
    split; [by apply list_elem_of_In|]. rewrite Hid, Z.eqb_refl. simpl. by apply bool_decide_eq_true.
Qed.

Lemma find_member_Some s id m : find_member s id = Some m → m ∈ ss_members s ∧ srs_id m = id.
Proof.
  unfold find_member. intros [Hm Hid]%List.find_some. split; [by apply list_elem_of_In|lia].
Qed.

Lemma find_member_In s m :
  NoDup (srs_id <$> ss_members s) → m ∈ ss_members s → find_member s (srs_id m) = Some m.
Proof. apply (find_key_In srs_id). Qed.

(** The roles of a valid topology are determined by its primary. *)
Lemma valid_role s m :
  valid_snapshot s → m ∈ ss_members s →
  srs_role m = if srs_id m =? ss_primary_id s then StablePrimary else StableActiveSecondary.
Proof.
  intros [_ Hd H1 (q & Hq & Hqid & Hqr) _] Hm. unfold primaries in H1.
  destruct (filter (λ m, srs_role m = StablePrimary) (ss_members s)) as [|x [|]] eqn:Hf; [done| |simpl in H1; lia].
  assert (∀ y, y ∈ ss_members s → srs_role y = StablePrimary → y = x) as Hx.
  { intros y Hy Hr. apply list_elem_of_singleton. rewrite <-Hf. by apply list_elem_of_filter. }
  destruct (Z.eqb_spec (srs_id m) (ss_primary_id s)) as [He|He].
  - rewrite <-Hqid in He. pose proof (find_member_In s m Hd Hm) as Hfm. rewrite He, (find_member_In s q Hd Hq) in Hfm.
    by injection Hfm as <-.
  - destruct (srs_role m) eqn:Hr; [|done]. destruct He. rewrite (Hx m Hm Hr), <-(Hx q Hq Hqr). done.
Qed.

(** ** The topology of an operation *)

(** The target snapshot a request derives. *)
Definition switched (previous : StablePartitionSnapshotStatus) (target : Z) : StablePartitionSnapshotStatus :=
  previous
    <| ss_epoch ::= (λ e, e <| es_configuration_number ::= Z.add 1 |>) |>
    <| ss_primary_id := target |>
    <| ss_members ::= fmap (M := list) (λ member,
         member <| srs_role := if srs_id member =? target then StablePrimary else StableActiveSecondary |>) |>.

Lemma switched_ids p t : srs_id <$> ss_members (switched p t) = srs_id <$> ss_members p.
Proof. simpl. rewrite <-list_fmap_compose. done. Qed.

Lemma filter_id (l : list StableReplicaSnapshotStatus) m :
  NoDup (srs_id <$> l) → m ∈ l → filter (λ x, srs_id x = srs_id m) l = [m].
Proof.
  intros Hnd Hm. apply singleton_list.
  - by apply list_elem_of_filter.
  - apply NoDup_filter. by eapply NoDup_fmap_1.
  - intros y [Hy Hin]%list_elem_of_filter. apply list_elem_of_lookup in Hin as [i Hi], Hm as [j Hj].
    assert (i = j) as ->; [|congruence]. apply (NoDup_lookup (srs_id <$> l) _ _ (srs_id m)); [done|..].
    + by rewrite list_lookup_fmap, Hi, <-Hy.
    + by rewrite list_lookup_fmap, Hj.
Qed.

Lemma switched_primaries p m :
  NoDup (srs_id <$> ss_members p) → m ∈ ss_members p → primaries (ss_members (switched p (srs_id m))) = 1.
Proof.
  intros Hnd Hm. unfold primaries. pose proof (filter_id (ss_members p) m Hnd Hm) as H1.
  assert (length (filter (λ m, srs_role m = StablePrimary) (ss_members (switched p (srs_id m)))) =
    length (filter (λ x, srs_id x = srs_id m) (ss_members p))) as ->; [|by rewrite H1].
  simpl. clear. generalize (ss_members p) as l. induction l as [|x l IH]; [done|].
  rewrite fmap_cons, !filter_cons. simpl. destruct (Z.eqb_spec (srs_id x) (srs_id m)) as [He|He].
  - rewrite decide_True, decide_True by done. simpl. by f_equal.
  - rewrite decide_False, decide_False by done. done.
Qed.

Lemma switched_valid p m : valid_snapshot p → m ∈ ss_members p → valid_snapshot (switched p (srs_id m)).
Proof.
  intros [Hn Hd _ _ Hq] Hm. split.
  - simpl. apply Forall_fmap. eapply Forall_impl; [exact Hn|]. done.
  - by rewrite switched_ids.
  - by apply switched_primaries.
  - exists (m <| srs_role := StablePrimary |>). split; [|done]. simpl. apply list_elem_of_fmap. exists m. split; [|done].
    by rewrite Z.eqb_refl.
  - simpl. by rewrite length_fmap.
Qed.

Lemma find_member_switched p t id :
  find_member (switched p t) id =
  (λ m, m <| srs_role := if srs_id m =? t then StablePrimary else StableActiveSecondary |>) <$> find_member p id.
Proof.
  unfold find_member. simpl. induction (ss_members p) as [|x l IH]; [done|]. simpl.
  by destruct (srs_id x =? id).
Qed.

(** An operation from the stable topology [p] to its member [t]. *)
Record topology (p : StablePartitionSnapshotStatus) (t : StableReplicaSnapshotStatus) (op : DurableOperationStatus) : Prop :=
mkTopology {
  tp_version : op_version op = DURABLE_OPERATION_VERSION;
  tp_kind : op_kind op = OpSwitchover;
  tp_previous : op_previous_snapshot op = Some p;
  tp_target : op_target_snapshot op = switched p (srs_id t);
  tp_old_id : op_old_primary_id op = ss_primary_id p;
  tp_target_id : op_target_primary_id op = srs_id t;
}.

(** A request the operator accepts: a valid topology and another member. *)
Record request_ok (p : StablePartitionSnapshotStatus) (t : StableReplicaSnapshotStatus) : Prop := mkRequestOk {
  rq_valid : valid_snapshot p;
  rq_member : t ∈ ss_members p;
  rq_other : srs_id t ≠ ss_primary_id p;
  rq_epoch : in_i64 (es_configuration_number (ss_epoch p) + 1);
  rq_size : Z.of_nat (length (ss_members p)) ≤ u32_max;
}.

Section request.
  Context (p : StablePartitionSnapshotStatus) (t : StableReplicaSnapshotStatus).

Lemma request_old : request_ok p t → ∃ m, find_member p (ss_primary_id p) = Some m.
Proof.
  intros [[_ Hd _ (m & Hm & Hid & _) _] _ _ _ _]. exists m. rewrite <-Hid. by apply find_member_In.
Qed.

Lemma request_target : request_ok p t → find_member p (srs_id t) = Some t.
Proof. intros [[_ Hd _ _ _] Ht _ _ _]. by apply find_member_In. Qed.

Lemma topology_valid op : request_ok p t → topology p t op → validate_operation op = Ok tt.
Proof.
  intros Hrq [Hv Hk Hp Ht Ho Hti]. unfold validate_operation. rewrite Hv, Hk, Hp. cbn.
  assert (validate_snapshot p = Ok tt) as -> by (apply validate_snapshot_Ok, Hrq). cbn.
  assert (validate_snapshot (op_target_snapshot op) = Ok tt) as ->.
  { rewrite Ht. apply validate_snapshot_Ok. by apply switched_valid; [apply Hrq|apply Hrq]. }
  cbn. rewrite Ho, Hti, Ht. cbn. by rewrite !Z.eqb_refl.
Qed.

(** The secondaries the two epoch distributions go through. *)
Definition distribution : list Z := sorted_ids_but [ss_primary_id p; srs_id t] p.
Definition compensation_distribution : list Z := sorted_ids_but [ss_primary_id p] p.

Lemma topology_distribution op : topology p t op → epoch_distribution_ids op = Ok distribution.
Proof. intros [_ _ Hp _ Ho Ht]. unfold epoch_distribution_ids. by rewrite Hp, Ho, Ht. Qed.
Lemma topology_compensation_distribution op :
  topology p t op → compensation_epoch_distribution_ids op = Ok compensation_distribution.
Proof. intros [_ _ Hp _ Ho _]. unfold compensation_epoch_distribution_ids. by rewrite Hp, Ho. Qed.

Lemma sorted_ids_but_elem excluded s id :
  id ∈ sorted_ids_but excluded s ↔ (∃ m, m ∈ ss_members s ∧ srs_id m = id) ∧ (id ∉ excluded).
Proof.
  unfold sorted_ids_but. rewrite elem_of_sort_by, list_elem_of_fmap. setoid_rewrite list_elem_of_filter. naive_solver.
Qed.

Lemma sorted_ids_but_length excluded s : (length (sorted_ids_but excluded s) ≤ length (ss_members s))%nat.
Proof. unfold sorted_ids_but. rewrite sort_by_Permutation, length_fmap. apply length_filter. Qed.

(** ** Well-formed checkpoints *)

(** The action a phase schedules, with its sequence number. *)
Definition phase_action (phase : Phase.DurableOperationPhase) : option (Z * Action.DurableActionKind) :=
  match phase with
  | Phase.Revoke => Some (1, Action.RevokeWrite)
  | Phase.DemoteOldPrimary => Some (2, Action.DemoteOldPrimary)
  | Phase.PromoteTarget => Some (3, Action.PromoteTarget)
  | Phase.DistributeEpoch => Some (100, Action.UpdateSecondaryEpoch)
  | Phase.UpdateCatchUpConfiguration => Some (1000, Action.UpdateCatchUpConfiguration)
  | Phase.WaitForCatchUpQuorum => Some (1001, Action.WaitForCatchUpQuorum)
  | Phase.UpdateCurrentConfiguration => Some (1002, Action.UpdateCurrentConfiguration)
  | Phase.LabelTargetPrimary => Some (1003, Action.LabelTargetPrimary)
  | Phase.LabelOldSecondary => Some (1004, Action.LabelOldSecondary)
  | Phase.RestorePreviousConfiguration => Some (1500, Action.RestorePreviousConfiguration)
  | Phase.CompensatePromoteOldPrimary => Some (2000, Action.CompensatePromoteOldPrimary)
  | Phase.CompensateDistributeEpoch => Some (2100, Action.CompensateUpdateSecondaryEpoch)
  | Phase.CompensateCatchUpConfiguration => Some (2001, Action.CompensateCatchUpConfiguration)
  | Phase.CompensateCurrentConfiguration => Some (2002, Action.CompensateCurrentConfiguration)
  | Phase.CompensateLabelOldPrimary => Some (2003, Action.CompensateLabelOldPrimary)
  | Phase.CompensateLabelTargetSecondary => Some (2004, Action.CompensateLabelTargetSecondary)
  | _ => None
  end.

Definition distributes (phase : Phase.DurableOperationPhase) : option (list Z) :=
  match phase with
  | Phase.DistributeEpoch => Some distribution
  | Phase.CompensateDistributeEpoch => Some compensation_distribution
  | _ => None
  end.

Definition action_sequence (op : DurableOperationStatus) (base : Z) : Z :=
  match distributes (op_phase op) with Some _ => u32_add base (op_next_secondary_index op) | None => base end.

(** The phases of a switchover that schedule no action. *)
Definition quiet_phase (phase : Phase.DurableOperationPhase) : bool :=
  match phase with
  | Phase.CaptureLsn | Phase.PreCatchUp | Phase.Finalize | Phase.CompensateFinalize
  | Phase.Completed | Phase.Failed | Phase.Poisoned => true
  | _ => false
  end.

(** The phases after the frozen LSN was captured. *)
Definition frozen_phase (phase : Phase.DurableOperationPhase) : bool :=
  match phase with
  | Phase.Revoke | Phase.CaptureLsn | Phase.Failed | Phase.Poisoned => false
  | _ => true
  end.

Record wf_operation (op : DurableOperationStatus) : Prop := mkWfOperation {
  wf_topology : topology p t op;
  wf_phase : is_Some (phase_action (op_phase op)) ∨ quiet_phase (op_phase op) = true;
  wf_pending pa : op_pending_action op = Some pa →
    ∃ base, phase_action (op_phase op) = Some (base, pa_kind pa) ∧
            pa_sequence pa = action_sequence op base ∧ validate_pending_action op pa = Ok tt;
  wf_index : 0 ≤ op_next_secondary_index op ∧
    ∀ ids, distributes (op_phase op) = Some ids → op_next_secondary_index op ≤ Z.of_nat (length ids);
  wf_frozen : frozen_phase (op_phase op) = true → is_Some (op_frozen_lsn op);
}.
End request.

(** ** Steps *)

(** The replica [id] answers as the incarnation [p] records, at [p]'s epoch. *)
Definition exact (p : StablePartitionSnapshotStatus) (id : Z) (observations : OperationObservations)
    (o : ReplicaObservation) : Prop :=
  observations !! id = Some o ∧
  (∃ m, find_member p id = Some m ∧ si_instance_id (ro_status o) = srs_instance_id m) ∧
  si_epoch (ro_status o) = to_epoch (ss_epoch p).

(** The old primary, revoked, with [lsn] as its progress. *)
Definition frozen_at (p : StablePartitionSnapshotStatus) (observations : OperationObservations) (lsn : Z) : Prop :=
  ∃ o, exact p (ss_primary_id p) observations o ∧ si_role (ro_status o) = Primary ∧
       si_write_status (ro_status o) = StReconfigurationPending ∧ si_current_progress (ro_status o) = lsn.

(** The target, a secondary that has reached [lsn]. *)
Definition caught_up_at (p : StablePartitionSnapshotStatus) (t : StableReplicaSnapshotStatus)
    (observations : OperationObservations) (lsn : Z) : Prop :=
  ∃ o, exact p (srs_id t) observations o ∧ si_role (ro_status o) = ActiveSecondary ∧
       lsn ≤ si_current_progress (ro_status o).

Section steps.
  Context {Ends : Endpoints} {Codec : PayloadCodec}.
  Context (p : StablePartitionSnapshotStatus) (t : StableReplicaSnapshotStatus).

(** What one decision may persist. *)
Inductive step (op : DurableOperationStatus) (observations : OperationObservations) (now : Z) :
    DurableOperationStatus → Prop :=
| step_schedule base kind pa :
    op_pending_action op = None → phase_action (op_phase op) = Some (base, kind) →
    (∀ ids, distributes p t (op_phase op) = Some ids → op_next_secondary_index op < Z.of_nat (length ids)) →
    pending_action op (action_sequence p t op base) kind now = Ok pa →
    step op observations now (with_pending op pa)
| step_done pa next :
    op_pending_action op = Some pa → observe_action op pa observations = Ok AoPostcondition →
    advance_after_switchover_postcondition op pa now = Ok next →
    step op observations now next
| step_timeout pa :
    op_pending_action op = Some pa →
    (observe_action op pa observations = Ok AoPrecondition ∨ observe_action op pa observations = Ok AoInProgress) →
    pa_deadline_unix_seconds pa ≤ now →
    step op observations now (timeout_transition op pa now)
| step_failed pa err :
    op_pending_action op = Some pa → observe_action op pa observations = Ok (AoFailed err) →
    step op observations now
      ((timeout_transition (record_activity_error op err) pa now) <| op_last_error := Some err |>)
| step_captured lsn :
    op_pending_action op = None → op_phase op = Phase.CaptureLsn → frozen_at p observations lsn →
    step op observations now ((enter_phase Phase.PreCatchUp now op) <| op_frozen_lsn := Some lsn |>)
| step_caught_up lsn :
    op_pending_action op = None → op_phase op = Phase.PreCatchUp → op_frozen_lsn op = Some lsn →
    caught_up_at p t observations lsn →
    step op observations now (enter_phase Phase.DemoteOldPrimary now op)
| step_restore message :
    op_pending_action op = None → op_phase op = Phase.PreCatchUp → op_phase_deadline_unix_seconds op ≤ now →
    step op observations now
      ((enter_phase Phase.RestorePreviousConfiguration now op) <| op_last_error := Some message |>)
| step_distributed ids next_phase :
    op_pending_action op = None → distributes p t (op_phase op) = Some ids →
    Z.of_nat (length ids) ≤ op_next_secondary_index op →
    next_phase = match op_phase op with
      | Phase.DistributeEpoch => Phase.UpdateCatchUpConfiguration
      | _ => Phase.CompensateCatchUpConfiguration
      end →
    step op observations now (enter_phase next_phase now op)
| step_poison message :
    op_phase op ≠ Phase.Completed → op_phase op ≠ Phase.Poisoned →
    step op observations now (poison op message).

(** The compensated topologies: the previous one, at its epoch or at the
    target's. *)
Definition restored (epoch : EpochStatus) : StablePartitionSnapshotStatus := p <| ss_epoch := epoch |>.

(** What one decision is. *)
Inductive outcome (op : DurableOperationStatus) (observations : OperationObservations) (now : Z) :
    result failure Decision → Prop :=
| out_step next : step op observations now next → outcome op observations now (Ok (Persist next))
| out_execute pa action :
    op_pending_action op = Some pa → observe_action op pa observations = Ok AoPrecondition →
    now < pa_deadline_unix_seconds pa → pod_role_action (pa_kind pa) = None →
    action_for op pa observations = Ok action →
    outcome op observations now (Ok (Execute (pa_target_id pa) (pa_action_id pa) action))
| out_label pa m role :
    op_pending_action op = Some pa → observe_action op pa observations = Ok AoPrecondition →
    now < pa_deadline_unix_seconds pa → pod_role_action (pa_kind pa) = Some role →
    find_member p (pa_target_id pa) = Some m →
    outcome op observations now (Ok (PatchPodRoleExactUid (pa_target_id pa) (srs_instance_id m) role))
| out_wait :
    (op_phase op = Phase.Completed ∨ op_phase op = Phase.Poisoned ∨
     (∃ pa, op_pending_action op = Some pa ∧ now < pa_deadline_unix_seconds pa) ∨
     (op_pending_action op = None ∧ quiet_phase (op_phase op) = true ∧ now < op_phase_deadline_unix_seconds op)) →
    outcome op observations now (Ok Wait)
| out_completed :
    op_pending_action op = None → op_phase op = Phase.Finalize →
    validate_snapshot_observation op (switched p (srs_id t)) observations = Ok tt →
    outcome op observations now
      (Ok (Complete (op <| op_phase := Phase.Completed |> <| op_pending_action := None |>) (switched p (srs_id t)) false))
| out_compensated :
    op_pending_action op = None → op_phase op = Phase.CompensateFinalize →
    validate_snapshot_observation op (restored (ss_epoch (op_target_snapshot op))) observations = Ok tt →
    outcome op observations now
      (Ok (Complete (op <| op_phase := Phase.Failed |>) (restored (ss_epoch (op_target_snapshot op))) true))
| out_failed epoch o :
    op_phase op = Phase.Failed → op_pending_action op = None →
    (epoch = ss_epoch p ∨ epoch = ss_epoch (op_target_snapshot op)) →
    observations !! ss_primary_id p = Some o → holds Primary (to_epoch epoch) (ro_status o) = true →
    outcome op observations now (Ok (Complete op (restored epoch) true))
| out_error message : outcome op observations now (Err (Error message)).
End steps.

(** ** Nothing panics *)

Section total.
  Context (p : StablePartitionSnapshotStatus) (t : StableReplicaSnapshotStatus).
  Context (op : DurableOperationStatus) (Htop : topology p t op).

Lemma expect_topology : expect_previous (op_previous_snapshot op) = Ok p.
Proof. by rewrite (tp_previous _ _ _ Htop). Qed.
Lemma compensation_topology : compensation_snapshot op = Ok (restored p (ss_epoch (op_target_snapshot op))).
Proof. unfold compensation_snapshot. by rewrite (tp_previous _ _ _ Htop). Qed.

Lemma panics_previous_config obs : panics (previous_config op obs) = false.
Proof. unfold previous_config. rewrite expect_topology. apply panics_lift. Qed.
Lemma panics_target_config obs : panics (target_config op obs) = false.
Proof. apply panics_lift. Qed.
Lemma panics_compensation_config obs : panics (compensation_config op obs) = false.
Proof. unfold compensation_config. rewrite compensation_topology. apply panics_lift. Qed.

#[local] Hint Resolve panics_previous_config panics_target_config panics_compensation_config : panics.

Lemma panics_action_for pa obs : panics (action_for op pa obs) = false.
Proof. unfold action_for. destruct (pa_kind pa); no_panic. Qed.

Lemma panics_observe_state pa obs o : panics (observe_state op pa obs o) = false.
Proof.
  unfold observe_state. rewrite expect_topology. cbn [mbind result_bind].
  destruct (pa_kind pa) eqn:Hk; no_panic; unfold unwrap; simpl; done.
Qed.

#[local] Hint Resolve panics_action_for panics_observe_state : panics.

Lemma panics_observe_action `{Ends : Endpoints} `{Codec : PayloadCodec} pa obs : panics (observe_action op pa obs) = false.
Proof. unfold observe_action. no_panic. Qed.

Lemma panics_attest obs s : panics (validate_snapshot_observation op s obs) = false.
Proof.
  unfold validate_snapshot_observation. apply panics_bind; [|intros _ _; no_panic].
  induction (ss_members s) as [|m l IH]; [done|]. cbn [try_for_each].
  apply panics_bind; [|done]. unfold exact_observation. rewrite expect_topology. no_panic.
Qed.
End total.

(** ** Scheduling *)

Section schedule.
  Context (p : StablePartitionSnapshotStatus) (t : StableReplicaSnapshotStatus) (Hrq : request_ok p t).

(** Whom an action addresses. *)
Definition action_target (op : DurableOperationStatus) (kind : Action.DurableActionKind) : option Z :=
  match kind with
  | Action.PromoteTarget | Action.UpdateCatchUpConfiguration | Action.WaitForCatchUpQuorum
  | Action.UpdateCurrentConfiguration | Action.LabelTargetPrimary | Action.CompensateLabelTargetSecondary =>
      Some (srs_id t)
  | Action.UpdateSecondaryEpoch => distribution p t !! Z.to_nat (op_next_secondary_index op)
  | Action.CompensateUpdateSecondaryEpoch => compensation_distribution p !! Z.to_nat (op_next_secondary_index op)
  | _ => Some (ss_primary_id p)
  end.

Lemma pending_target_Ok op kind id :
  topology p t op → pending_target op kind = Ok id → action_target op kind = Some id.
Proof.
  intros Htop. unfold pending_target. rewrite (topology_distribution p t op Htop), (topology_compensation_distribution p t op Htop).
  rewrite (tp_old_id _ _ _ Htop), (tp_target_id _ _ _ Htop).
  destruct kind; cbn; try discriminate; try (by intros [= <-]); apply index_list_Ok.
Qed.

Lemma action_target_member op kind id :
  action_target op kind = Some id → ∃ m, find_member p id = Some m.
Proof.
  intros Hid. destruct (request_old p t Hrq) as [old Hold]. pose proof (request_target p t Hrq) as Htgt.
  assert (∀ ex i, sorted_ids_but ex p !! i = Some id → ∃ m, find_member p id = Some m) as Hdist.
  { intros ex i [(m & Hm & <-) _]%list_elem_of_lookup_2%sorted_ids_but_elem. exists m.
    apply find_member_In; [apply Hrq|done]. }
  destruct kind; cbn in Hid; try (injection Hid as <-; eauto; fail); by eapply Hdist.
Qed.

(** The action of the phase can be scheduled, and is the one the checks of a
    pending action accept. *)
Lemma schedulable op base kind seq now :
  topology p t op → 0 ≤ op_next_secondary_index op → phase_action (op_phase op) = Some (base, kind) →
  (∀ ids, distributes p t (op_phase op) = Some ids → op_next_secondary_index op < Z.of_nat (length ids)) →
  ∃ pa, pending_action op seq kind now = Ok pa ∧ pa_kind pa = kind ∧ pa_sequence pa = seq.
Proof.
  intros Htop H0 Hpa Hidx.
  assert (∃ id, pending_target op kind = Ok id) as [id Hid].
  { unfold pending_target. rewrite (topology_distribution p t op Htop), (topology_compensation_distribution p t op Htop).
    assert (∀ ids : list Z, op_next_secondary_index op < Z.of_nat (length ids) →
      ∃ id, index_list ids (op_next_secondary_index op) = Ok id) as Hi.
    { intros ids Hlt. destruct (lookup_lt_is_Some_2 ids (Z.to_nat (op_next_secondary_index op))) as [x Hx]; [lia|].
      exists x. by apply index_list_Ok. }
    destruct (op_phase op); try discriminate Hpa; injection Hpa as <- <-; cbn; try (by eexists); by apply Hi, Hidx. }
  assert (∃ pc, pending_postcondition kind = Ok pc) as [pc Hpc].
  { destruct (op_phase op); try discriminate Hpa; injection Hpa as <- <-; by eexists. }
  pose proof (pending_target_Ok op kind id Htop Hid) as (m & Hm)%action_target_member.
  unfold pending_action. rewrite Hid. cbn [mbind result_bind]. rewrite (expect_topology p t op Htop). cbn [mbind result_bind].
  rewrite Hm. cbn [or_fail ok_or mbind result_bind]. rewrite Hpc. cbn [mbind result_bind]. by eexists.
Qed.

(** Its fields. *)
Lemma pending_action_Ok op seq kind now pa :
  topology p t op → pending_action op seq kind now = Ok pa →
  pa_kind pa = kind ∧ pa_sequence pa = seq ∧ pa_action_id pa = action_id op seq kind ∧
  action_target op kind = Some (pa_target_id pa) ∧
  (∃ m, find_member p (pa_target_id pa) = Some m ∧ pa_target_instance_id pa = srs_instance_id m) ∧
  pa_deadline_unix_seconds pa = i64_add now ACTION_DEADLINE_SECONDS.
Proof.
  intros Htop. unfold pending_action. rewrite bind_Ok. intros (id & Hid & Hrest).
  rewrite (expect_topology p t op Htop) in Hrest. cbn [mbind result_bind] in Hrest.
  apply bind_Ok in Hrest as (m & Hm%or_fail_Ok & (pc & Hpc & [= <-])%bind_Ok). cbn.
  split; [done|]. split; [done|]. split; [done|]. split; [by apply pending_target_Ok|]. split; [by exists m|done].
Qed.

Lemma phase_action_allowed phase base kind :
  phase_action phase = Some (base, kind) → action_allowed_in_phase phase kind = true.
Proof. destruct phase; try discriminate; by intros [= <- <-]. Qed.

Lemma scheduled_valid op base kind now pa :
  topology p t op → phase_action (op_phase op) = Some (base, kind) →
  pending_action op (action_sequence p t op base) kind now = Ok pa →
  validate_pending_action (with_pending op pa) pa = Ok tt.
Proof.
  intros Htop Hpa Hok. pose proof (pending_action_Ok _ _ _ _ _ Htop Hok) as (Hk & Hs & Hid & _ & (m & Hm & Hi) & _).
  unfold validate_pending_action. cbn [op_phase with_pending over]. rewrite Hk, (phase_action_allowed _ _ _ Hpa), Hs, Hid.
  cbn [negb fail_if reject_if mbind result_bind].
  rewrite bool_decide_eq_true_2 by done. cbn.
  rewrite (tp_previous _ _ _ Htop). cbn. rewrite Hm. cbn. rewrite bool_decide_eq_true_2 by done. cbn.
  assert (∃ pa', pending_action (with_pending op pa) (action_sequence p t op base) kind 0 = Ok pa' ∧
    pa_target_id pa' = pa_target_id pa ∧ pa_expected_epoch pa' = pa_expected_epoch pa ∧
    pa_desired_postcondition pa' = pa_desired_postcondition pa) as (pa' & -> & H1 & H2 & H3).
  { revert Hok. clear. unfold pending_action. change (pending_target (with_pending op pa) kind) with (pending_target op kind).
    change (op_previous_snapshot (with_pending op pa)) with (op_previous_snapshot op).
    rewrite bind_Ok. intros (id & -> & (prev & -> & (m & Hm & (pc & Hpc & [= <-])%bind_Ok)%bind_Ok)%bind_Ok).
    cbn [mbind result_bind]. rewrite Hm. cbn [mbind result_bind]. rewrite Hpc. cbn. by eexists. }
  cbn. rewrite H1, H2, H3, Z.eqb_refl. by rewrite !bool_decide_eq_true_2 by done.
Qed.

(** What the checks of a pending action establish. *)
Lemma valid_pending op pa :
  topology p t op → validate_pending_action op pa = Ok tt →
  pa_action_id pa = action_id op (pa_sequence pa) (pa_kind pa) ∧
  action_target op (pa_kind pa) = Some (pa_target_id pa) ∧
  ∃ m, find_member p (pa_target_id pa) = Some m ∧ pa_target_instance_id pa = srs_instance_id m.
Proof.
  intros Htop. unfold validate_pending_action. rewrite (expect_topology _ _ _ Htop).
  intros ([] & _ & ([] & Hid%fail_if_Ok & Hv)%bind_Ok)%bind_Ok. cbn [mbind result_bind] in Hv.
  apply bind_Ok in Hv as (m & Hm%or_fail_Ok & ([] & Hi%fail_if_Ok & (e & He & Hf%fail_if_Ok)%bind_Ok)%bind_Ok).
  guards. apply (pending_action_Ok _ _ _ _ _ Htop) in He as (_ & _ & _ & Ht & _).
  split; [done|]. split; [|by exists m]. rewrite Ht. by f_equal.
Qed.
End schedule.

(** ** Terminal topologies *)

Lemma same_topology_refl s : same_switchover_topology s s = true.
Proof.
  unfold same_switchover_topology. rewrite bool_decide_eq_true_2, !Z.eqb_refl, Nat.eqb_refl by done. simpl.
  induction (ss_members s) as [|m l IH]; [done|]. simpl. rewrite Z.eqb_refl, !bool_decide_eq_true_2 by done. done.
Qed.

Section terminal.
  Context (p : StablePartitionSnapshotStatus) (t : StableReplicaSnapshotStatus) (Hrq : request_ok p t).
  Context (op : DurableOperationStatus) (Htop : topology p t op).

Lemma restored_valid epoch :
  epoch = ss_epoch p ∨ epoch = ss_epoch (op_target_snapshot op) →
  valid_compensation_snapshot op (restored p epoch) = true.
Proof.
  intros He. unfold valid_compensation_snapshot. rewrite (tp_previous _ _ _ Htop), (tp_old_id _ _ _ Htop). cbn [restored over].
  change (ss_primary_id (restored p epoch)) with (ss_primary_id p).
  change (ss_write_quorum (restored p epoch)) with (ss_write_quorum p).
  change (ss_members (restored p epoch)) with (ss_members p). change (ss_epoch (restored p epoch)) with epoch.
  rewrite !Z.eqb_refl, Nat.eqb_refl. cbn [negb orb].
  assert (negb (bool_decide (epoch = ss_epoch p)) && negb (bool_decide (epoch = ss_epoch (op_target_snapshot op))) = false) as ->.
  { apply andb_false_iff. rewrite !negb_false_iff, !bool_decide_eq_true. exact He. }
  apply forallb_forall. intros m Hm%list_elem_of_In.
  rewrite (filter_id (ss_members p) m) by (try apply Hrq; done).
  rewrite bool_decide_eq_true_2 by done. cbn [andb]. apply bool_decide_eq_true. apply valid_role; [apply Hrq|done].
Qed.

Lemma terminal_restored epoch op' :
  op_phase op' = Phase.Failed → op_pending_action op' = None →
  op' <| op_phase := op_phase op |> <| op_pending_action := op_pending_action op |> = op →
  epoch = ss_epoch p ∨ epoch = ss_epoch (op_target_snapshot op) →
  validate_switchover_terminal op' (restored p epoch) true = Ok tt.
Proof.
  intros Hph Hpend Hsame He. unfold validate_switchover_terminal. rewrite Hph, Hpend.
  rewrite bool_decide_eq_true_2 by done. cbn [negb none orb].
  assert (valid_compensation_snapshot op' (restored p epoch) = true) as ->; [|done].
  rewrite <-(restored_valid epoch He). rewrite <-Hsame. done.
Qed.

Lemma terminal_target op' :
  op_phase op' = Phase.Completed → op_pending_action op' = None → op_target_snapshot op' = op_target_snapshot op →
  validate_switchover_terminal op' (op_target_snapshot op) false = Ok tt.
Proof.
  intros Hph Hpend Ht. unfold validate_switchover_terminal. rewrite Hph, Hpend, Ht, same_topology_refl.
  by rewrite bool_decide_eq_true_2.
Qed.
End terminal.

(** ** Every decision is an outcome *)

(** Case analysis on the condition a decision starts with. *)
Ltac split_if H := match goal with |- outcome _ _ _ _ _ (if ?b then _ else _) => destruct b eqn:H end.

Section decides.
  Context {Ends : Endpoints} {Codec : PayloadCodec}.
  Context (p : StablePartitionSnapshotStatus) (t : StableReplicaSnapshotStatus) (Hrq : request_ok p t).

Lemma no_panic_outcome {A} op obs now (r : result failure A) (k : A → result failure Decision) :
  panics r = false → (∀ a, r = Ok a → outcome p t op obs now (k a)) → outcome p t op obs now (r ≫= k).
Proof. destruct r as [a|[m|m]]; [|constructor|done]. intros _ Hk. by apply Hk. Qed.

Lemma decide_pending_outcome op pa obs now :
  wf_operation p t op → op_pending_action op = Some pa → quiet_phase (op_phase op) = false →
  outcome p t op obs now (decide_pending op pa obs now).
Proof.
  intros Hwf Hpa Hq. pose proof (wf_topology _ _ _ Hwf) as Htop. unfold decide_pending.
  assert (op_phase op ≠ Phase.Completed ∧ op_phase op ≠ Phase.Poisoned) as [Hnc Hnp] by (by split; intros E; rewrite E in Hq).
  destruct (wf_pending _ _ _ Hwf _ Hpa) as (base & Hact & _ & _).
  apply no_panic_outcome; [by eapply panics_observe_action|]. intros seen Hseen.
  destruct (Z.leb_spec (pa_deadline_unix_seconds pa) now) as [Hexp|Hexp].
  all: destruct seen; cbn [mbind result_bind].
  - constructor. eapply step_timeout; eauto.
  - apply no_panic_outcome; [by unfold advance_after_switchover_postcondition; no_panic|].
    intros next Hnext. constructor. eapply step_done; eauto.
  - constructor. eapply step_timeout; eauto.
  - constructor. eapply step_failed; eauto.
  - constructor. by apply step_poison.
  - constructor. by apply step_poison.
  - destruct (pod_role_action (pa_kind pa)) as [role|] eqn:Hrole.
    + destruct (wf_pending _ _ _ Hwf _ Hpa) as (b & _ & _ & Hv).
      destruct (valid_pending p t op pa Htop Hv) as (_ & _ & (m & Hm & _)).
      unfold switchover_label_uid. rewrite (expect_topology _ _ _ Htop). cbn [mbind result_bind]. rewrite Hm. cbn.
      eapply out_label; eauto.
    + apply no_panic_outcome; [by eapply panics_action_for|]. intros act Hactn. eapply out_execute; eauto.
  - apply no_panic_outcome; [by unfold advance_after_switchover_postcondition; no_panic|].
    intros next Hnext. constructor. eapply step_done; eauto.
  - apply out_wait. right. right. left. eauto.
  - constructor. eapply step_failed; eauto.
  - apply out_wait. right. right. left. eauto.
  - constructor. by apply step_poison.
Qed.

Lemma schedule_outcome op base kind obs now :
  wf_operation p t op → op_pending_action op = None → phase_action (op_phase op) = Some (base, kind) →
  (∀ ids, distributes p t (op_phase op) = Some ids → op_next_secondary_index op < Z.of_nat (length ids)) →
  outcome p t op obs now (schedule op (action_sequence p t op base) kind now).
Proof.
  intros Hwf Hpend Hpa Hidx. destruct (schedulable p t Hrq op base kind (action_sequence p t op base) now
    (wf_topology _ _ _ Hwf) (proj1 (wf_index _ _ _ Hwf)) Hpa Hidx) as (pa & Hok & _).
  unfold schedule. rewrite Hok. cbn. constructor. by eapply step_schedule.
Qed.

Lemma plain_schedule op base kind obs now :
  wf_operation p t op → op_pending_action op = None → phase_action (op_phase op) = Some (base, kind) →
  distributes p t (op_phase op) = None →
  outcome p t op obs now (schedule op base kind now).
Proof.
  intros Hwf Hpend Hpa Hd.
  assert (action_sequence p t op base = base) as Hs by (unfold action_sequence; by rewrite Hd).
  rewrite <-Hs at 1. apply schedule_outcome; [done..|]. intros ids. by rewrite Hd.
Qed.

Lemma distribute_outcome op ids base kind done obs now :
  wf_operation p t op → op_pending_action op = None → phase_action (op_phase op) = Some (base, kind) →
  distributes p t (op_phase op) = Some ids →
  done = match op_phase op with
    | Phase.DistributeEpoch => Phase.UpdateCatchUpConfiguration | _ => Phase.CompensateCatchUpConfiguration end →
  outcome p t op obs now (decide_distribute ids base kind done op now).
Proof.
  intros Hwf Hpend Hpa Hd ->. unfold decide_distribute. destruct (Z.leb_spec (Z.of_nat (length ids)) (op_next_secondary_index op)).
  - constructor. by eapply step_distributed.
  - assert (action_sequence p t op base = u32_add base (op_next_secondary_index op)) as <-
      by (unfold action_sequence; by rewrite Hd).
    apply schedule_outcome; [done..|]. rewrite Hd. by intros ids' [= <-].
Qed.

Lemma member_exact id o obs m :
  obs !! id = Some o → find_member p id = Some m →
  negb (bool_decide (si_instance_id (ro_status o) = srs_instance_id m))
    || negb (bool_decide (si_epoch (ro_status o) = to_epoch (ss_epoch p))) = false → exact p id obs o.
Proof. intros Ho Hm Hg. guards. split; [done|]. split; [by exists m|done]. Qed.

Lemma capture_outcome op obs now :
  wf_operation p t op → op_pending_action op = None → op_phase op = Phase.CaptureLsn →
  outcome p t op obs now (decide_capture op obs now).
Proof.
  intros Hwf Hpend Hph. pose proof (wf_topology _ _ _ Hwf) as Htop.
  assert (∀ m, step p t op obs now (poison op m)) as Hpoison by (intros; apply step_poison; by rewrite Hph).
  unfold decide_capture. rewrite (tp_old_id _ _ _ Htop). destruct (obs !! ss_primary_id p) as [o|] eqn:Ho.
  - rewrite (expect_topology _ _ _ Htop). cbn [mbind result_bind]. destruct (request_old p t Hrq) as [m Hm].
    rewrite Hm. cbn [unwrap ok_or mbind result_bind]. split_if Hg; [constructor; apply Hpoison|].
    split_if Hg2; constructor; [apply Hpoison|]. apply step_captured; [done..|]. exists o.
    unfold writes in Hg2. guards. split; [|done]. eapply member_exact; [done|done|]. by rewrite !bool_decide_eq_true_2.
  - case_match eqn:Hd; [constructor; apply Hpoison|]. apply Z.leb_gt in Hd. apply out_wait. do 3 right. by rewrite Hph.
Qed.

Lemma pre_catch_up_outcome op obs now :
  wf_operation p t op → op_pending_action op = None → op_phase op = Phase.PreCatchUp →
  outcome p t op obs now (decide_pre_catch_up op obs now).
Proof.
  intros Hwf Hpend Hph. pose proof (wf_topology _ _ _ Hwf) as Htop.
  assert (∀ m, step p t op obs now (poison op m)) as Hpoison by (intros; apply step_poison; by rewrite Hph).
  assert (∀ m, outcome p t op obs now (Ok (if op_phase_deadline_unix_seconds op <=? now
    then Persist ((enter_phase Phase.RestorePreviousConfiguration now op) <| op_last_error := Some m |>) else Wait))) as Hrest.
  { intros m. destruct (Z.leb_spec (op_phase_deadline_unix_seconds op) now).
    - constructor. by apply step_restore.
    - apply out_wait. do 3 right. by rewrite Hph. }
  unfold decide_pre_catch_up. rewrite (tp_target_id _ _ _ Htop). destruct (obs !! srs_id t) as [o|] eqn:Ho; [|apply Hrest].
  rewrite (expect_topology _ _ _ Htop). cbn [mbind result_bind]. rewrite (request_target p t Hrq).
  cbn [unwrap ok_or mbind result_bind]. split_if Hg; [constructor; apply Hpoison|].
  destruct (wf_frozen _ _ _ Hwf) as [lsn Hlsn]; [by rewrite Hph|]. rewrite Hlsn. cbn [or_fail ok_or mbind result_bind].
  split_if Hr; [constructor; apply Hpoison|]. destruct (Z.leb_spec lsn (si_current_progress (ro_status o))); [|apply Hrest].
  constructor. eapply step_caught_up; [done..|]. exists o. guards. split; [|done].
  eapply member_exact; [done|by apply (request_target p t)|]. by rewrite !bool_decide_eq_true_2.
Qed.

Lemma finalize_outcome op snapshot final compensated obs now :
  wf_operation p t op → op_pending_action op = None → quiet_phase (op_phase op) = true →
  op_phase op ≠ Phase.Completed → op_phase op ≠ Phase.Poisoned →
  validate_switchover_terminal final snapshot compensated = Ok tt →
  (validate_snapshot_observation op snapshot obs = Ok tt → outcome p t op obs now (Ok (Complete final snapshot compensated))) →
  outcome p t op obs now (decide_finalize op snapshot final compensated obs now).
Proof.
  intros Hwf Hpend Hq Hnc Hnp Hterm Hout. unfold decide_finalize.
  pose proof (panics_attest p t op (wf_topology _ _ _ Hwf) obs snapshot) as Hp.
  destruct (validate_snapshot_observation op snapshot obs) as [[]|[m|m]]; [|clear Hp|discriminate Hp].
  - rewrite Hterm. cbn. by apply Hout.
  - destruct (Z.leb_spec (op_phase_deadline_unix_seconds op) now); [constructor; by apply step_poison|].
    apply out_wait. do 3 right. done.
Qed.

Lemma failed_outcome op obs now :
  wf_operation p t op → op_pending_action op = None → op_phase op = Phase.Failed →
  outcome p t op obs now (decide_failed op obs).
Proof.
  intros Hwf Hpend Hph. pose proof (wf_topology _ _ _ Hwf) as Htop.
  unfold decide_failed. rewrite (tp_old_id _ _ _ Htop). destruct (obs !! ss_primary_id p) as [o|] eqn:Ho; [|constructor].
  cbn [or_fail ok_or mbind result_bind]. rewrite (expect_topology _ _ _ Htop). cbn [mbind result_bind].
  assert (∀ e, e = ss_epoch p ∨ e = ss_epoch (op_target_snapshot op) →
    validate_switchover_terminal op (restored p e) true = Ok tt) as Hterm.
  { intros e He. apply (terminal_restored p t Hrq op Htop); [done..|by destruct op|done]. }
  split_if H1; [|split_if H2].
  - rewrite (tp_previous _ _ _ Htop). cbn [unwrap ok_or mbind result_bind].
    assert (restored p (ss_epoch p) = p) as Hre by by destruct p. pose proof (Hterm _ (or_introl eq_refl)) as Ht. rewrite Hre in Ht.
    rewrite Ht. cbn. pose proof (out_failed p t op obs now (ss_epoch p) o Hph Hpend (or_introl eq_refl) Ho H1) as Hout.
    by rewrite Hre in Hout.
  - rewrite (compensation_topology _ _ _ Htop). cbn [mbind result_bind]. rewrite Hterm by by right. cbn.
    eapply out_failed; [done|done|by right|done|done].
  - constructor. apply step_poison; by rewrite Hph.
Qed.

Theorem decide_outcome op obs now :
  wf_operation p t op → outcome p t op obs now (decide_switchover op obs now).
Proof.
  intros Hwf. pose proof (wf_topology _ _ _ Hwf) as Htop. unfold decide_switchover.
  rewrite (topology_valid p t op Hrq Htop). cbn [mbind result_bind].
  split_if Hterm.
  { apply orb_true_iff in Hterm. rewrite !bool_decide_eq_true in Hterm. apply out_wait. destruct Hterm; auto. }
  apply orb_false_iff in Hterm as [Hnc%bool_decide_eq_false Hnp%bool_decide_eq_false].
  assert (quiet_phase (op_phase op) = true → op_pending_action op = None) as Hquiet.
  { intros Hq. destruct (op_pending_action op) as [pa|] eqn:Hpa; [|done].
    destruct (wf_pending _ _ _ Hwf _ Hpa) as (b & Hb & _). destruct (op_phase op); done. }
  case_bool_decide as Hf; [apply failed_outcome; [done| |done]; apply Hquiet; by rewrite Hf|].
  destruct (op_pending_action op) as [pa|] eqn:Hpa.
  { destruct (wf_pending _ _ _ Hwf _ Hpa) as (b & Hb & _ & Hv). rewrite Hv. cbn [mbind result_bind].
    apply decide_pending_outcome; [done..|]. destruct (op_phase op); done. }
  unfold decide_phase. pose proof (wf_phase _ _ _ Hwf) as Hphase.
  destruct (op_phase op) eqn:Hph; try (destruct Hphase as [[? ?]|?]; discriminate);
    try (apply plain_schedule; [done|done|by rewrite Hph|by rewrite Hph]); try done.
  - by apply capture_outcome.
  - by apply pre_catch_up_outcome.
  - rewrite (topology_distribution _ _ _ Htop). cbn [mbind result_bind]. apply distribute_outcome; [done|done|by rewrite Hph..].
  - rewrite (tp_target _ _ _ Htop). apply finalize_outcome; [done|done|by rewrite Hph..| |by constructor].
    rewrite <-(tp_target _ _ _ Htop). by apply (terminal_target op).
  - rewrite (topology_compensation_distribution _ _ _ Htop). cbn [mbind result_bind].
    apply distribute_outcome; [done|done|by rewrite Hph..].
  - rewrite (compensation_topology _ _ _ Htop). cbn [mbind result_bind].
    apply finalize_outcome; [done|done|by rewrite Hph..| |by constructor].
    apply (terminal_restored p t Hrq op Htop); [done|done|by destruct op|by right].
Qed.
End decides.

(** ** Steps keep a checkpoint well formed *)

Section preserved.
  Context {Ends : Endpoints} {Codec : PayloadCodec}.
  Context (p : StablePartitionSnapshotStatus) (t : StableReplicaSnapshotStatus) (Hrq : request_ok p t).

(** An operation that moved to a phase without a pending action. *)
Lemma wf_moved op op' :
  wf_operation p t op → topology p t op' → op_pending_action op' = None →
  (is_Some (phase_action (op_phase op')) ∨ quiet_phase (op_phase op') = true) →
  0 ≤ op_next_secondary_index op' →
  (∀ ids, distributes p t (op_phase op') = Some ids → op_next_secondary_index op' ≤ Z.of_nat (length ids)) →
  (frozen_phase (op_phase op') = true → is_Some (op_frozen_lsn op')) →
  wf_operation p t op'.
Proof.
  intros Hwf Htop Hpend Hph H0 Hidx Hfr. split; [done|done| |done|done]. intros pa. by rewrite Hpend.
Qed.

(** A pending distribution is within the list of secondaries. *)
Lemma pending_in_range op pa ids :
  wf_operation p t op → op_pending_action op = Some pa → distributes p t (op_phase op) = Some ids →
  op_next_secondary_index op < Z.of_nat (length ids).
Proof.
  intros Hwf Hpa Hd. destruct (wf_pending _ _ _ Hwf _ Hpa) as (base & Hact & _ & Hv).
  destruct (valid_pending p t op pa (wf_topology _ _ _ Hwf) Hv) as (_ & Htgt & _).
  pose proof (proj1 (wf_index _ _ _ Hwf)).
  assert (ids !! Z.to_nat (op_next_secondary_index op) = Some (pa_target_id pa)) as Hl%lookup_lt_Some; [|lia].
  destruct (op_phase op); try discriminate Hd; injection Hd as <-; injection Hact as <- Hk; by rewrite <-Hk in Htgt.
Qed.

(** The phase an observed postcondition moves to, and the index. *)
Lemma advanced_wf op pa next now :
  wf_operation p t op → op_pending_action op = Some pa →
  advance_after_switchover_postcondition op pa now = Ok next →
  wf_operation p t next ∧ is_legal_switchover_phase_transition (op_phase op) (op_phase next) = true.
Proof.
  intros Hwf Hpa Hadv. destruct (wf_pending _ _ _ Hwf _ Hpa) as (base & Hact & _ & _).
  pose proof (wf_topology _ _ _ Hwf) as Htop. pose proof (wf_index _ _ _ Hwf) as [H0 Hidx].
  pose proof (wf_frozen _ _ _ Hwf) as Hfr.
  assert (∀ ids, distributes p t (op_phase op) = Some ids →
    u32_saturating_add (op_next_secondary_index op) 1 ≤ Z.of_nat (length ids)) as Hinc.
  { intros ids Hd. pose proof (pending_in_range op pa ids Hwf Hpa Hd). unfold u32_saturating_add. lia. }
  assert (0 ≤ u32_saturating_add (op_next_secondary_index op) 1) by (unfold u32_saturating_add, u32_max; lia).
  unfold advance_after_switchover_postcondition in Hadv.
  destruct (op_phase op) eqn:Hph; try discriminate Hact; injection Hact as <- Hk; rewrite <-Hk in Hadv; cbn in Hadv;
    injection Hadv as <-; (split; [|cbn; rewrite ?Hph; vm_compute; reflexivity]);
    (eapply wf_moved; [exact Hwf|split; apply Htop|done|cbn; rewrite ?Hph; cbn; eauto|cbn; lia|cbn; rewrite ?Hph; cbn; try done|cbn; rewrite ?Hph; cbn; eauto]).
  all: intros ids [= <-]; lia.
Qed.

(** The phase a deadline moves to. *)
Lemma timeout_wf op op' pa :
  wf_operation p t op → op_pending_action op = Some pa → topology p t op' →
  op_pending_action op' = None → op_phase op' = timeout_phase (pa_kind pa) →
  op_next_secondary_index op' = op_next_secondary_index op → op_frozen_lsn op' = op_frozen_lsn op →
  wf_operation p t op' ∧ is_legal_switchover_phase_transition (op_phase op) (op_phase op') = true.
Proof.
  intros Hwf Hpa Htop' Hpend Hph' Hi Hf. destruct (wf_pending _ _ _ Hwf _ Hpa) as (base & Hact & _ & _).
  pose proof (wf_frozen _ _ _ Hwf) as Hfr. pose proof (proj1 (wf_index _ _ _ Hwf)).
  destruct (op_phase op) eqn:Hph; try discriminate Hact; injection Hact as <- Hk; rewrite <-Hk in Hph'; cbn in Hph';
    (split; [|rewrite Hph'; vm_compute; reflexivity]);
    (eapply wf_moved; [exact Hwf|done|done|rewrite Hph'; cbn; eauto|lia|rewrite Hph'; done|rewrite Hph', Hf; cbn; eauto]).
  all: done.
Qed.

Lemma poison_wf op message :
  wf_operation p t op →
  wf_operation p t (poison op message) ∧
  is_legal_switchover_phase_transition (op_phase op) (op_phase (poison op message)) = true.
Proof.
  intros Hwf. split.
  - eapply wf_moved; [exact Hwf|split; apply Hwf|done|by right|apply (wf_index _ _ _ Hwf)|done|done].
  - change (op_phase (poison op message)) with Phase.Poisoned. unfold is_legal_switchover_phase_transition.
    rewrite (bool_decide_eq_true_2 (Phase.Poisoned = Phase.Poisoned)) by done. by rewrite orb_true_r.
Qed.

Lemma step_wf op obs now next :
  wf_operation p t op → step p t op obs now next →
  wf_operation p t next ∧ is_legal_switchover_phase_transition (op_phase op) (op_phase next) = true.
Proof.
  intros Hwf Hst. pose proof (wf_topology _ _ _ Hwf) as Htop. pose proof (wf_index _ _ _ Hwf) as [H0 Hidx].
  pose proof (wf_frozen _ _ _ Hwf) as Hfr.
  destruct Hst as [base kind pa Hpend Hact Hlt Hok|pa next Hpa _ Hadv|pa Hpa _ _|pa err Hpa _|lsn Hpend Hph _|lsn Hpend Hph _ _
    |message Hpend Hph _|ids ph Hpend Hd Hge ->|message _ _].
  - split.
    + split; [split; apply Htop|apply (wf_phase _ _ _ Hwf)| |done|done].
      intros pa' [= <-]. exists base. destruct (pending_action_Ok p t op _ _ _ _ Htop Hok) as (-> & -> & _).
      split; [done|]. split; [done|]. by eapply scheduled_valid.
    + unfold is_legal_switchover_phase_transition. rewrite (bool_decide_eq_true_2 (op_phase op = op_phase (with_pending op pa))) by done. done.
  - by eapply advanced_wf.
  - eapply timeout_wf; [done|done|split; apply Htop|done..].
  - eapply timeout_wf; [done|done|split; apply Htop|done..].
  - split; [|cbn; by rewrite Hph]. eapply wf_moved; [exact Hwf|split; apply Htop|done|cbn; auto|done|done|cbn; eauto].
  - split; [|cbn; by rewrite Hph]. rewrite Hph in Hfr. eapply wf_moved; [exact Hwf|split; apply Htop|done|cbn; eauto|done|done|cbn; eauto].
  - split; [|cbn; by rewrite Hph]. rewrite Hph in Hfr. eapply wf_moved; [exact Hwf|split; apply Htop|done|cbn; eauto|done|done|cbn; eauto].
  - destruct (op_phase op) eqn:Hph; try discriminate Hd; (split; [|vm_compute; reflexivity]);
      (eapply wf_moved; [exact Hwf|split; apply Htop|done|cbn; eauto|done|done|cbn; eauto]).
  - by apply poison_wf.
Qed.
End preserved.
