(* ===== verification/Effects.v ===== *)
(** Dispatching the action of an operation
    (kuberic-operator/src/durable/effects.rs, and the [Execute] arm of
    [reconcile_durable_operation] in kuberic-operator/src/reconciler.rs): the
    fences and the payload are persisted before the call, the request is
    rebuilt from what was persisted, and an error of the call is recorded
    according to what it proves. *)

From S2P Require Import Prelude Types Lifecycle RemoveReplica Control Agent Proto Convert Wire Crd Operation.

Set Default Goal Selector "!".

Definition MAX_EFFECT_DIAGNOSTIC_BYTES : nat := 512.
Definition bounded (value : string) : string := take_chars MAX_EFFECT_DIAGNOSTIC_BYTES value.

Record ReplicaEffectCommand := mkReplicaEffectCommand {
  rec_action_id : string;
  rec_target_id : ReplicaId;
  rec_target_instance_id : string;
  rec_expected_agent_generation : string;
  rec_expected_control_version : Z;
  rec_observed_runtime_epoch : EpochStatus;
  rec_action_payload : string;
}.

Record LabelEffectCommand := mkLabelEffectCommand {
  lec_target_id : ReplicaId;
  lec_pod_name : string;
  lec_expected_uid : string;
  lec_role : string;
}.

Inductive DurableEffectOutcome (T : Type) :=
| EffApplied (x : T)
| EffDefiniteFailure (class message : string)
| EffProvenNoAdmission (reason : string)
| EffPending
| EffUnknown (reason : string).
Arguments EffApplied {T} x.
Arguments EffDefiniteFailure {T} class message.
Arguments EffProvenNoAdmission {T} reason.
Arguments EffPending {T}.
Arguments EffUnknown {T} reason.

Definition definite_failure {T} (class message : string) : DurableEffectOutcome T :=
  EffDefiniteFailure (bounded class) (bounded message).
Definition proven_no_admission {T} (reason : string) : DurableEffectOutcome T := EffProvenNoAdmission (bounded reason).
Definition unknown {T} (reason : string) : DurableEffectOutcome T := EffUnknown (bounded reason).

Inductive DispatchFailureDisposition := DispProvenNoAdmission | DispDefiniteFailure | DispUnknown.
#[export] Instance DispatchFailureDisposition_eq_dec : EqDecision DispatchFailureDisposition.
Proof. solve_decision. Defined.

Inductive DispatchEvidencePlan :=
| PlanReady
| PlanPersist (planned : PendingActionStatus)
| PlanWaitForExactIncarnation
| PlanWaitForSupportedProtocol.

(** ** What an error of the call proves *)

Definition dispatch_rejection_requires_refresh (e : KubericError) : bool :=
  match e with RemoteAgentPreconditionRejected _ | RemoteAgentContinuityUnavailable _ => true | _ => false end.

Definition dispatch_rejection_is_retryable_without_execution (e : KubericError) : bool :=
  match e with AgentBusy => true | _ => false end.

Definition classify_dispatch_failure (e : KubericError) : DispatchFailureDisposition :=
  if dispatch_rejection_requires_refresh e || dispatch_rejection_is_retryable_without_execution e
  then DispProvenNoAdmission
  else match e with
  | RemoteAgentConflict _ | RemoteAgentTerminalFailure _ _ => DispDefiniteFailure
  | _ => DispUnknown
  end.

Definition clear_dispatch_evidence (pending : PendingActionStatus) : PendingActionStatus :=
  pending <| pa_dispatch_agent_generation := None |>
          <| pa_dispatch_agent_control_version := None |>
          <| pa_dispatch_observed_runtime_epoch := None |>
          <| pa_dispatch_action_payload := "" |>.

Definition operation_after_dispatch_error (operation : DurableOperationStatus) (e : KubericError) : DurableOperationStatus :=
  match e with
  | RemoteAgentConflict _ => fail_closed operation (error_to_string e)
  | _ =>
      if dispatch_rejection_requires_refresh e then
        operation <| op_pending_action ::= fmap (M := option) (λ pending,
          (clear_dispatch_evidence pending) <| pa_last_error := Some (bounded (error_to_string e)) |>) |>
      else if dispatch_rejection_is_retryable_without_execution e then
        operation <| op_pending_action ::= fmap (M := option) (λ pending,
          pending <| pa_last_error := Some (bounded (error_to_string e)) |>) |>
      else record_activity_error operation (error_to_string e)
  end.

(** The acknowledgement of a call is the observation it carries. *)
Definition correlated_acknowledgement_result (observation : CorrelatedActionObservation) (expected_action_id : string)
    (expected_signature : string) (expected_generation : AgentGeneration)
    (expected_control_version : AgentControlVersion) : result KubericError unit :=
  if negb (bool_decide (co_generation observation = expected_generation))
     || (co_control_version observation =? 0)
     || (u64_saturating_add expected_control_version 1 <? co_control_version observation)
     || negb (bool_decide (do_action_id (co_action observation) = expected_action_id))
     || negb (bool_decide (do_signature (co_action observation) = expected_signature))
  then Err (RemoteAgentRequestRejected "correlated acknowledgement does not match the dispatched action")
  else if negb (bool_decide (do_state (co_action observation) = Failed)) then Ok tt
  else
    class ← ok_or (do_error_class (co_action observation))
      (RemoteAgentRequestRejected "failed correlated acknowledgement has no error class");
    Err (RemoteAgentTerminalFailure class
      (default "correlated control action failed" (do_error (co_action observation)))).

Section dispatch.
  Context {Ends : Endpoints} {Codec : PayloadCodec}.

(** ** Freezing the dispatch *)

Definition compare_plan (pending planned : PendingActionStatus) : DispatchEvidencePlan :=
  if bool_decide (planned = pending) then PlanReady else PlanPersist planned.

Definition plan_dispatch_evidence (pending : PendingActionStatus) (observed : ReplicaStatusInfo)
    (addressed_instance : ReplicaInstanceId) (action : DurableReplicaAction) (persist_action_payload : bool) :
    DispatchEvidencePlan :=
  let exact_incarnation :=
    bool_decide (addressed_instance = pa_target_instance_id pending) &&
    bool_decide (si_instance_id observed = pa_target_instance_id pending) in
  if negb exact_incarnation then PlanWaitForExactIncarnation
  else
    let agent := si_agent observed in
    if negb (as_protocol_version agent =? CORRELATED_CONTROL_PROTOCOL_VERSION) then PlanWaitForSupportedProtocol
    else
      let runtime_epoch := of_epoch (si_epoch observed) in
      let evidence_matches :=
        bool_decide (pa_dispatch_agent_generation pending = Some (as_generation agent)) &&
        bool_decide (pa_dispatch_agent_control_version pending = Some (as_control_version agent)) &&
        bool_decide (pa_dispatch_observed_runtime_epoch pending = Some runtime_epoch) in
      let planned := pending
        <| pa_dispatch_agent_generation := Some (as_generation agent) |>
        <| pa_dispatch_agent_control_version := Some (as_control_version agent) |>
        <| pa_dispatch_observed_runtime_epoch := Some runtime_epoch |> in
      let local_record_exists := negb (none (correlated_action_observation observed (pa_action_id pending))) in
      if persist_action_payload then
        if empty (pa_dispatch_action_payload planned) || (negb evidence_matches && negb local_record_exists) then
          match encode_payload action with
          | Ok payload => compare_plan pending (planned <| pa_dispatch_action_payload := payload |>)
          | Err _ => PlanWaitForSupportedProtocol
          end
        else compare_plan pending planned
      else compare_plan pending (planned <| pa_dispatch_action_payload := "" |>).

(** ** The request *)

Definition command_from_pending (pending : PendingActionStatus) : result string ReplicaEffectCommand :=
  map_err (λ e, "decode frozen correlated action: " +:+ e) (decode_payload (pa_dispatch_action_payload pending));;
  generation ← ok_or (pa_dispatch_agent_generation pending) "correlated command is missing agent generation";
  version ← ok_or (pa_dispatch_agent_control_version pending) "correlated command is missing control version";
  epoch ← ok_or (pa_dispatch_observed_runtime_epoch pending) "correlated command is missing runtime epoch";
  Ok (mkReplicaEffectCommand (pa_action_id pending) (pa_target_id pending) (pa_target_instance_id pending)
    generation version epoch (pa_dispatch_action_payload pending)).

Definition correlated_request (action_id : string) (target_id : ReplicaId) (target_instance_id : string)
    (generation : AgentGeneration) (control_version : AgentControlVersion) (observed_runtime_epoch : Epoch)
    (action : DurableReplicaAction) : CorrelatedControlActionRequest :=
  mkCorrelatedControlActionRequest CORRELATED_CONTROL_PROTOCOL_VERSION action_id (action_signature action)
    target_id target_instance_id generation control_version observed_runtime_epoch action.

(** The request of a frozen command ([execute_replica_command]). *)
Definition command_request (command : ReplicaEffectCommand) : result string CorrelatedControlActionRequest :=
  generation ← agent_generation_parse (rec_expected_agent_generation command);
  action ← decode_payload (rec_action_payload command);
  Ok (correlated_request (rec_action_id command) (rec_target_id command) (rec_target_instance_id command) generation
    (rec_expected_control_version command) (to_epoch (rec_observed_runtime_epoch command)) action).

(** The request of [execute_planned_control_action]. *)
Definition planned_request (pending : PendingActionStatus) (authoritative_action : option DurableReplicaAction) :
    result string CorrelatedControlActionRequest :=
  match authoritative_action with
  | Some action =>
      generation ← ok_or (pa_dispatch_agent_generation pending) "correlated dispatch is missing agent generation";
      generation ← agent_generation_parse generation;
      control_version ← ok_or (pa_dispatch_agent_control_version pending)
        "correlated dispatch is missing agent control version";
      observed_epoch ← ok_or (pa_dispatch_observed_runtime_epoch pending)
        "correlated dispatch is missing observed runtime epoch";
      Ok (correlated_request (pa_action_id pending) (pa_target_id pending) (pa_target_instance_id pending) generation
        control_version (to_epoch observed_epoch) action)
  | None => command ← command_from_pending pending; command_request command
  end.

(** The call of the replica's handle. *)
Context (call : CorrelatedControlActionRequest → result KubericError CorrelatedActionObservation).

Definition execute_correlated_action (request : CorrelatedControlActionRequest) : result KubericError unit :=
  observation ← call request;
  correlated_acknowledgement_result observation (cr_action_id request) (cr_input_signature request)
    (cr_expected_agent_generation request) (cr_expected_control_version request).

Definition execute_planned_control_action (pending : PendingActionStatus)
    (authoritative_action : option DurableReplicaAction) : result KubericError unit :=
  request ← map_err Internal (planned_request pending authoritative_action);
  execute_correlated_action request.

(** ** One dispatch *)

(** The [Execute] arm of a reconcile, on the replica [observed] and the
    incarnation of its handle: the checkpoint it persists, if any, and the
    request it sent, if any. *)
Definition dispatch (operation : DurableOperationStatus) (pending : PendingActionStatus) (observed : ReplicaStatusInfo)
    (addressed_instance : ReplicaInstanceId) (action : DurableReplicaAction) (coarse_intent : bool) :
    option DurableOperationStatus * option CorrelatedControlActionRequest :=
  match plan_dispatch_evidence pending observed addressed_instance action (negb coarse_intent) with
  | PlanPersist planned => (Some (operation <| op_pending_action := Some planned |>), None)
  | PlanWaitForExactIncarnation | PlanWaitForSupportedProtocol => (None, None)
  | PlanReady =>
      let authoritative := if coarse_intent then Some action else None in
      let sent := match planned_request pending authoritative with Ok request => Some request | Err _ => None end in
      match execute_planned_control_action pending authoritative with
      | Ok _ => (None, sent)
      | Err e => (Some (operation_after_dispatch_error operation e), sent)
      end
  end.
End dispatch.

(** ** Bookkeeping *)

(** What dispatching may change of a pending action: attempts, errors,
    authorization and the dispatch evidence. *)
Definition same_intent (pa pa' : PendingActionStatus) : Prop :=
  ∃ attempts error authorized generation version epoch payload,
    pa' = pa <| pa_attempts := attempts |> <| pa_last_error := error |> <| pa_dispatch_authorized := authorized |>
      <| pa_dispatch_agent_generation := generation |> <| pa_dispatch_agent_control_version := version |>
      <| pa_dispatch_observed_runtime_epoch := epoch |> <| pa_dispatch_action_payload := payload |>.

(** What recording a dispatch may change of an operation. *)
Definition bookkeeping (op op' : DurableOperationStatus) : Prop :=
  ∃ error pending,
    op' = op <| op_last_error := error |> <| op_pending_action := pending |> ∧
    match op_pending_action op, pending with
    | Some pa, Some pa' => same_intent pa pa'
    | None, None => True
    | _, _ => False
    end.

Lemma same_intent_fields pa a b c d e f g :
  same_intent pa (pa <| pa_attempts := a |> <| pa_last_error := b |> <| pa_dispatch_authorized := c |>
      <| pa_dispatch_agent_generation := d |> <| pa_dispatch_agent_control_version := e |>
      <| pa_dispatch_observed_runtime_epoch := f |> <| pa_dispatch_action_payload := g |>).
Proof. by exists a, b, c, d, e, f, g. Qed.

Lemma same_intent_refl pa : same_intent pa pa.
Proof. destruct pa. by eexists _, _, _, _, _, _, _. Qed.

Lemma bookkeeping_fmap op f error :
  (∀ pa, same_intent pa (f pa)) →
  bookkeeping op (op <| op_last_error := error |> <| op_pending_action ::= fmap (M := option) f |>).
Proof.
  intros Hf. exists error, (f <$> op_pending_action op). split; [by destruct op|].
  destruct (op_pending_action op) as [pa|]; simpl; [apply Hf|done].
Qed.

Lemma record_activity_error_bookkeeping op e : bookkeeping op (record_activity_error op e).
Proof.
  apply (bookkeeping_fmap op (λ pending, pending <| pa_attempts := u32_saturating_add (pa_attempts pending) 1 |>
    <| pa_last_error := Some (bounded_error e) |>)).
  intros []. do 7 eexists. cbv -[u32_saturating_add bounded_error]. reflexivity.
Qed.

Lemma dispatch_error_bookkeeping op e :
  bookkeeping op (operation_after_dispatch_error op e) ∨
  ∃ message, operation_after_dispatch_error op e = poison op message.
Proof.
  assert (op <| op_last_error := op_last_error op |> = op) as Hop by by destruct op.
  destruct e; try (left; apply record_activity_error_bookkeeping); try (right; by eexists);
    left; unfold operation_after_dispatch_error; cbn [dispatch_rejection_requires_refresh
      dispatch_rejection_is_retryable_without_execution];
    rewrite <-Hop at 2; apply bookkeeping_fmap; intros []; do 7 eexists; cbv; reflexivity.
Qed.

Section dispatch_facts.
  Context {Ends : Endpoints} {Codec : PayloadCodec}.
  Context (call : CorrelatedControlActionRequest → result KubericError CorrelatedActionObservation).

(** A plan changes the dispatch evidence only. *)
Lemma plan_same_intent pa observed inst action payload pa' :
  plan_dispatch_evidence pa observed inst action payload = PlanPersist pa' → same_intent pa pa'.
Proof.
  unfold plan_dispatch_evidence. intros Hplan.
  assert (∀ q, same_intent pa q → compare_plan pa q = PlanPersist pa' → same_intent pa pa') as Hq.
  { clear Hplan. intros q Hs. unfold compare_plan. case_bool_decide; [discriminate|by intros [= <-]]. }
  repeat (case_match; try discriminate); (eapply Hq; [|exact Hplan]); destruct pa; do 7 eexists; cbv -[of_epoch]; reflexivity.
Qed.

(** With the evidence settled the checkpoint holds the fences observed now,
    and a payload unless the action is rebuilt by its coordinator. *)
Record evidence (pa : PendingActionStatus) (observed : ReplicaStatusInfo) : Prop := mkEvidence {
  ev_instance : si_instance_id observed = pa_target_instance_id pa;
  ev_protocol : as_protocol_version (si_agent observed) = CORRELATED_CONTROL_PROTOCOL_VERSION;
  ev_generation : pa_dispatch_agent_generation pa = Some (as_generation (si_agent observed));
  ev_version : pa_dispatch_agent_control_version pa = Some (as_control_version (si_agent observed));
  ev_epoch : pa_dispatch_observed_runtime_epoch pa = Some (of_epoch (si_epoch observed));
}.

Lemma plan_ready_evidence pa observed inst action payload :
  plan_dispatch_evidence pa observed inst action payload = PlanReady →
  inst = pa_target_instance_id pa ∧ evidence pa observed.
Proof.
  unfold plan_dispatch_evidence. intros Hplan.
  match type of Hplan with (if ?b then _ else _) = _ => destruct b eqn:Hi; [discriminate|] end.
  match type of Hplan with (if ?b then _ else _) = _ => destruct b eqn:Hp; [discriminate|] end.
  guards. apply andb_true_iff in Hi as [Hi1%bool_decide_eq_true Hi2%bool_decide_eq_true].
  assert (∀ q, compare_plan pa q = PlanReady → q = pa) as Hq.
  { clear Hplan. intros q. unfold compare_plan. case_bool_decide; [done|discriminate]. }
  split; [done|].
  repeat (case_match; try discriminate); apply Hq in Hplan; (split; [done|done|..]); rewrite <-Hplan; reflexivity.
Qed.

(** What a dispatch that sends anything found settled. *)
Lemma dispatch_sent op pa observed inst action (coarse : bool) persisted request :
  dispatch call op pa observed inst action coarse = (persisted, Some request) →
  planned_request pa (if coarse then Some action else None) = Ok request ∧
  inst = pa_target_instance_id pa ∧ evidence pa observed.
Proof.
  unfold dispatch. destruct (plan_dispatch_evidence pa observed inst action (negb coarse)) eqn:Hplan; try discriminate.
  apply plan_ready_evidence in Hplan as (Hinst & Hev).
  intros Hsent. apply (f_equal snd) in Hsent. split; [|by split].
  set (authoritative := if coarse then Some action else None) in *.
  destruct (planned_request pa authoritative); [|by destruct (execute_planned_control_action call pa authoritative)].
  destruct (execute_planned_control_action call pa authoritative); by injection Hsent as ->.
Qed.

(** The request of a frozen action, and of one its coordinator rebuilt. *)
Lemma planned_request_fields pa authoritative request :
  planned_request pa authoritative = Ok request →
  cr_action_id request = pa_action_id pa ∧ cr_target_replica_id request = pa_target_id pa ∧
  cr_target_instance_id request = pa_target_instance_id pa ∧
  pa_dispatch_agent_generation pa = Some (cr_expected_agent_generation request) ∧
  pa_dispatch_agent_control_version pa = Some (cr_expected_control_version request) ∧
  pa_dispatch_observed_runtime_epoch pa = Some (of_epoch (cr_observed_runtime_epoch request)) ∧
  match authoritative with
  | Some action => cr_action request = action
  | None => decode_payload (pa_dispatch_action_payload pa) = Ok (cr_action request)
  end ∧
  cr_input_signature request = action_signature (cr_action request).
Proof.
  unfold planned_request, command_from_pending. destruct authoritative as [action|].
  { destruct (pa_dispatch_agent_generation pa) as [g|], (pa_dispatch_agent_control_version pa) as [v|],
      (pa_dispatch_observed_runtime_epoch pa) as [e|]; cbn; try discriminate;
      destruct (agent_generation_parse g) as [g'|] eqn:Hgen; try discriminate. intros [= <-]. cbn.
    unfold agent_generation_parse in Hgen. apply bind_Ok in Hgen as (u & _ & [= <-]). by rewrite of_to_epoch. }
  destruct (decode_payload (pa_dispatch_action_payload pa)) as [a|] eqn:Hd; [|discriminate].
  destruct (pa_dispatch_agent_generation pa) as [g|], (pa_dispatch_agent_control_version pa) as [v|],
    (pa_dispatch_observed_runtime_epoch pa) as [e|]; try discriminate. cbn. unfold command_request. cbn. rewrite Hd.
  intros (g' & Hgen & [= <-])%bind_Ok. cbn.
  unfold agent_generation_parse in Hgen. apply bind_Ok in Hgen as (u & _ & [= <-]). by rewrite of_to_epoch.
Qed.

(** What a dispatch persists is bookkeeping, or the operation poisoned. *)
Lemma dispatch_persists op pa observed inst action coarse op' sent :
  op_pending_action op = Some pa →
  dispatch call op pa observed inst action coarse = (Some op', sent) →
  bookkeeping op op' ∨ ∃ message, op' = poison op message.
Proof.
  intros Hpa. unfold dispatch. destruct (plan_dispatch_evidence _ _ _ _ _) eqn:Hplan; try discriminate.
  - destruct (execute_planned_control_action _ _ _) as [|e]; [discriminate|]. intros [= <- _].
    apply dispatch_error_bookkeeping.
  - intros [= <- _]. left. exists (op_last_error op), (Some planned). split; [by destruct op|]. rewrite Hpa.
    by eapply plan_same_intent.
Qed.

Lemma error_payload op e :
  op_pending_action (operation_after_dispatch_error op e) = None ∨
  ∃ f, op_pending_action (operation_after_dispatch_error op e) = f <$> op_pending_action op ∧
    ∀ pa, pa_dispatch_action_payload (f pa) = pa_dispatch_action_payload pa ∨ pa_dispatch_action_payload (f pa) = "".
Proof.
  assert (∀ e, ∃ f, op_pending_action (record_activity_error op e) = f <$> op_pending_action op ∧
    ∀ pa, pa_dispatch_action_payload (f pa) = pa_dispatch_action_payload pa) as Hrec
    by (intros m; by eexists).
  destruct e; try (right; destruct (Hrec (error_to_string _)) as (f & -> & Hf); exists f; split; [done|]; intros pa; by left);
    try (by left); right; (eexists; split; [reflexivity|]); intros pa; (by left) || (by right).
Qed.

(** The payload that stays in the checkpoint is the one that was there, none,
    or that of the action dispatched. *)
Lemma dispatch_payload op pa pa' observed inst action op' sent :
  op_pending_action op = Some pa → dispatch call op pa observed inst action false = (Some op', sent) →
  op_pending_action op' = Some pa' →
  pa_dispatch_action_payload pa' = pa_dispatch_action_payload pa ∨ pa_dispatch_action_payload pa' = "" ∨
  encode_payload action = Ok (pa_dispatch_action_payload pa').
Proof.
  intros Hpa. unfold dispatch. cbn [negb]. destruct (plan_dispatch_evidence _ _ _ _ _) eqn:Hplan; try discriminate.
  - destruct (execute_planned_control_action _ _ _) as [|e]; [discriminate|]. intros [= <- _].
    destruct (error_payload op e) as [->|(f & -> & Hf)]; [discriminate|]. rewrite Hpa. intros [= <-].
    destruct (Hf pa) as [->| ->]; auto.
  - intros [= <- _] [= <-]. unfold plan_dispatch_evidence, compare_plan in Hplan.
    repeat (case_match; try discriminate); injection Hplan as <-; cbn; auto.
Qed.

(** C40. A control action is sent only under fences the checkpoint already
    holds and the replica still shows. Whenever a dispatch sends a request,
    the handle and the replica are the incarnation the pending action was
    planned for, the replica speaks the current protocol, and the agent
    generation, control version and runtime epoch of the request are those
    persisted with the pending action and those the replica shows now. The
    request is for the pending action's target under its ID with the signature
    of its action, which is the persisted payload, or, for a coordinated
    intent, the one handed in. All a dispatch ever persists is attempts,
    errors, authorization and dispatch evidence of the same pending action (for
    a direct action the payload kept, none or that of the action handed in), or
    the operation poisoned. *)
Theorem dispatch_fenced op pa observed inst action (coarse : bool) persisted sent :
  op_pending_action op = Some pa →
  dispatch call op pa observed inst action coarse = (persisted, sent) →
  (∀ request, sent = Some request →
     inst = pa_target_instance_id pa ∧ si_instance_id observed = pa_target_instance_id pa ∧
     as_protocol_version (si_agent observed) = CORRELATED_CONTROL_PROTOCOL_VERSION ∧
     cr_action_id request = pa_action_id pa ∧
     cr_target_replica_id request = pa_target_id pa ∧ cr_target_instance_id request = pa_target_instance_id pa ∧
     pa_dispatch_agent_generation pa = Some (cr_expected_agent_generation request) ∧
     pa_dispatch_agent_control_version pa = Some (cr_expected_control_version request) ∧
     pa_dispatch_observed_runtime_epoch pa = Some (of_epoch (cr_observed_runtime_epoch request)) ∧
     cr_expected_agent_generation request = as_generation (si_agent observed) ∧
     cr_expected_control_version request = as_control_version (si_agent observed) ∧
     cr_observed_runtime_epoch request = si_epoch observed ∧
     cr_input_signature request = action_signature (cr_action request) ∧
     if coarse then cr_action request = action
     else decode_payload (pa_dispatch_action_payload pa) = Ok (cr_action request)) ∧
  (∀ op', persisted = Some op' →
     (∃ message, op' = poison op message) ∨
     bookkeeping op op' ∧
     ∀ pa', coarse = false → op_pending_action op' = Some pa' →
       pa_dispatch_action_payload pa' = pa_dispatch_action_payload pa ∨ pa_dispatch_action_payload pa' = "" ∨
       encode_payload action = Ok (pa_dispatch_action_payload pa')).
Proof.
  intros Hpa Hd. split.
  - intros request ->. apply dispatch_sent in Hd as (Hreq & Hinst & [Hi Hp Hg Hv He]).
    apply planned_request_fields in Hreq as (Hid & Ht & Hti & Hg' & Hv' & He' & Hact & Hs).
    assert (cr_observed_runtime_epoch request = si_epoch observed) as Hep.
    { rewrite He in He'. rewrite <-(to_of_epoch (si_epoch observed)), <-(to_of_epoch (cr_observed_runtime_epoch request)). congruence. }
    split_and!; try done; [congruence..|]. by destruct coarse.
  - intros op' ->. destruct (dispatch_persists _ _ _ _ _ _ _ _ Hpa Hd) as [Hb|Hp]; [right|by left].
    split; [done|]. intros pa' -> Hpa'. by eapply dispatch_payload.
Qed.
End dispatch_facts.

(** A frozen promotion, and the replica it was planned for. *)
Module DemoEffects.
#[local] Existing Instance DemoRemove.ends.
#[global] Instance codec : PayloadCodec := mkPayloadCodec DemoWire.encode DemoWire.decode.
Definition generation : string := "000102030405060708090a0b0c0d0e0f".
Definition pending : PendingActionStatus :=
  mkPendingActionStatus "set:3:PromoteTarget" 3 Action.PromoteTarget 2 "u2" (mkEpochStatus 1 1)
    (mkDurablePostconditionStatus PcRole (Some StablePrimary)) 0 110 None false (Some generation) (Some 4)
    (Some (mkEpochStatus 1 1)) "2a".
Definition status : ReplicaStatusInfo :=
  mkReplicaStatusInfo "u2" ActiveSecondary (mkEpoch 1 1) 7 None 7 true StNotPrimary None None None [] None
    (mkReplicaAgentStatus 3 1 generation 4 None [] []).
Definition operation : DurableOperationStatus :=
  mkDurableOperationStatus "set" "set:1" 1 OpSwitchover Phase.PromoteTarget None
    (mkStablePartitionSnapshotStatus (mkEpochStatus 1 2) 2 [] 1) None None 1 2 None None None None None None None None None
    None 0 110 (Some pending) None None None None None None None.
Definition call (_ : CorrelatedControlActionRequest) : result KubericError CorrelatedActionObservation := Err AgentBusy.
Definition sent : CorrelatedControlActionRequest :=
  correlated_request "set:3:PromoteTarget" 2 "u2" generation 4 (mkEpoch 1 1) DemoWire.action.
End DemoEffects.

Lemma dispatch_fenced_witness :
  planned_request (Ends := DemoRemove.ends) DemoEffects.pending None = Ok DemoEffects.sent ∧
  pa_dispatch_agent_control_version DemoEffects.pending = Some (cr_expected_control_version DemoEffects.sent).
Proof.
  assert (dispatch (Ends := DemoRemove.ends) DemoEffects.call DemoEffects.operation DemoEffects.pending DemoEffects.status "u2"
    DemoWire.action false = (Some (operation_after_dispatch_error DemoEffects.operation AgentBusy), Some DemoEffects.sent)) as Hd
    by (vm_compute; reflexivity).
  destruct (dispatch_fenced (Ends := DemoRemove.ends) DemoEffects.call DemoEffects.operation DemoEffects.pending
    DemoEffects.status "u2" DemoWire.action false _ _ eq_refl Hd) as [H _].
  destruct (H _ eq_refl) as (_ & _ & _ & _ & _ & _ & _ & Hv & _). split; [reflexivity|exact Hv].
Defined.
