(* ===== verification/SwitchoverRuns.v ===== *)
(** Whole switchovers: the checkpoints a request goes through under any
    observations, clock readings and dispatch results; in which order the
    replicas are frozen, demoted and promoted, who is given the right to
    write, what a completed switchover has attested, and that it ends. *)

From S2P Require Import Prelude Types Lifecycle Control Agent Proto Convert Crd Operation Switchover SwitchoverSteps Effects.

Set Default Goal Selector "!".

(** ** Starting *)

Lemma start_switchover_Ok uid p id now op :
  start_switchover uid p id now = Ok op →
  valid_snapshot p ∧ id ≠ ss_primary_id p ∧ in_i64 (es_configuration_number (ss_epoch p) + 1) ∧
  (∃ t, t ∈ ss_members p ∧ srs_id t = id ∧ topology p t op) ∧
  op_phase op = Phase.Revoke ∧ op_pending_action op = None ∧ op_next_secondary_index op = 0.
Proof.
  unfold start_switchover. rewrite bind_Ok. intros ([] & Hv%validate_snapshot_Ok & Hrest).
  apply bind_Ok in Hrest as ([] & Hne%reject_if_Ok & ([] & Hin%reject_if_Ok & (n & Hn%ok_or_Ok & [= <-])%bind_Ok)%bind_Ok).
  guards. apply Z.eqb_neq in Hne. apply existsb_exists in Hin as (t & Ht%list_elem_of_In & Hid%Z.eqb_eq).
  apply i64_checked_add_Some in Hn as [-> Hn].
  split; [done|]. split; [done|]. split; [done|]. split; [|done].
  exists t. split; [done|]. split; [done|]. split; [done|done|done| |done|done].
  cbn. unfold switched. rewrite Hid. destruct p as [[a b] c d e]. unfold over. cbn. by rewrite Z.add_comm.
Qed.

Section runs.
  Context {Ends : Endpoints} {Codec : PayloadCodec}.
  Context (p : StablePartitionSnapshotStatus) (t : StableReplicaSnapshotStatus).

(** ** Runs *)

(** One reconcile's decision, on what it observed and when. *)
Record turn := mkTurn { tn_observations : OperationObservations; tn_now : Z; tn_decision : Decision }.

(** The checkpoint a decision leaves. *)
Definition next_operation (op : DurableOperationStatus) (d : Decision) : DurableOperationStatus :=
  match d with Persist next => next | Complete final _ _ => final | _ => op end.

(** [run trace op]: a switchover of the stable topology [p] to its member
    [t], its turns so far, the last one first, and its checkpoint. Between
    two turns a dispatch may have recorded its evidence or its error, and the
    reconciler may have failed the operation closed. *)
Inductive run : list turn → DurableOperationStatus → Prop :=
| run_start uid now op :
    start_switchover uid p (srs_id t) now = Ok op → run [] op
| run_decide trace op obs now d :
    run trace op → decide_switchover op obs now = Ok d →
    run (mkTurn obs now d :: trace) (next_operation op d)
| run_record trace op op' :
    run trace op → bookkeeping op op' → run trace op'
| run_fail_closed trace op message :
    run trace op → run trace (fail_closed op message).

(** A run, executed: one turn after the other. *)
Fixpoint play (turns : list (OperationObservations * Z)) (trace : list turn) (op : DurableOperationStatus) :
    result failure (list turn * DurableOperationStatus) :=
  match turns with
  | [] => Ok (trace, op)
  | (obs, now) :: turns =>
      d ← decide_switchover op obs now;
      play turns (mkTurn obs now d :: trace) (next_operation op d)
  end.

Lemma play_run turns trace op trace' op' :
  run trace op → play turns trace op = Ok (trace', op') → run trace' op'.
Proof.
  revert trace op. induction turns as [|[obs now] turns IH]; intros trace op Hrun; simpl; [by intros [= <- <-]|].
  rewrite bind_Ok. intros (d & Hd & Hp). eapply IH; [|exact Hp]. by apply run_decide.
Qed.

Context (Ht : t ∈ ss_members p) (Hsize : Z.of_nat (length (ss_members p)) ≤ u32_max).

(** *** Checkpoints stay well formed *)

Lemma bookkeeping_wf op op' : wf_operation p t op → bookkeeping op op' → wf_operation p t op'.
Proof.
  intros [Htop Hph Hpend Hidx Hfr] (err & pending & -> & Hsame). split; [split; apply Htop|done| |done|done].
  cbn. intros pa' [= ->]. destruct (op_pending_action op) as [pa|]; [|done].
  destruct (Hpend pa eq_refl) as (base & Hact & Hseq & Hv). exists base.
  destruct Hsame as (a & b & c & d & e & f & g & ->). split; [done|]. split; [done|]. exact Hv.
Qed.

Lemma run_request trace op : run trace op → request_ok p t.
Proof.
  induction 1 as [uid now op Hst|trace op obs now d _ IH _|trace op op' _ IH _|trace op m _ IH]; [|exact IH..].
  apply start_switchover_Ok in Hst as (Hv & Hne & Hep & _). by split.
Qed.

Lemma outcome_wf op obs now d :
  wf_operation p t op → outcome p t op obs now (Ok d) → wf_operation p t (next_operation op d).
Proof.
  intros Hwf Hout. pose proof (wf_topology _ _ _ Hwf) as Htop. pose proof (wf_index _ _ _ Hwf) as [H0 _].
  inversion Hout as [next Hst| | | |Hpend Hph _|Hpend Hph _| |]; subst; cbn [next_operation]; try done.
  - by eapply step_wf.
  - pose proof (wf_frozen _ _ _ Hwf) as Hfr. rewrite Hph in Hfr.
    eapply wf_moved; [exact Hwf|split; apply Htop|done|by right|done|done|auto].
  - eapply wf_moved; [exact Hwf|split; apply Htop|done|by right|done|done|done].
Qed.

Lemma run_wf trace op : run trace op → wf_operation p t op.
Proof.
  intros Hrun. pose proof (run_request trace op Hrun) as Hrq.
  induction Hrun as [uid now op Hst|trace op obs now d Hrun IH Hd|trace op op' _ IH Hb|trace op m _ IH].
  - apply start_switchover_Ok in Hst as (_ & _ & _ & (t' & Ht' & Hid & Htop) & Hph & Hpend & Hi).
    assert (t' = t) as ->.
    { pose proof (find_member_In p t' (vs_ids _ (rq_valid _ _ Hrq)) Ht') as Hf. rewrite Hid in Hf.
      rewrite (request_target p t Hrq) in Hf. by injection Hf. }
    split; [done|rewrite Hph; by left| |rewrite Hph, Hi; done|by rewrite Hph]. intros pa. by rewrite Hpend.
  - eapply outcome_wf; [by apply IH|]. rewrite <-Hd. apply decide_outcome; [done|by apply IH].
  - by eapply bookkeeping_wf; [apply IH|].
  - apply poison_wf. by apply IH.
Qed.

(** The decision of a turn, as an outcome. *)
Lemma run_outcome trace op obs now : run trace op → outcome p t op obs now (decide_switchover op obs now).
Proof. intros Hrun. apply decide_outcome; [by eapply run_request|by eapply run_wf]. Qed.

(** C27. Whatever the replicas report, whenever it is asked and whatever the
    dispatches record, the checkpoint of a switchover stays well formed: it
    keeps its topology, its pending action is the deterministic one of its
    phase, its index is within the secondaries and the frozen LSN is there
    when needed. Deciding on it never panics, and a decision it persists
    follows the legal phase transitions. *)
Theorem switchover_invariant trace op obs now :
  run trace op →
  wf_operation p t op ∧ validate_switchover_operation op = Ok tt ∧
  panics (decide_switchover op obs now) = false ∧
  ∀ next, decide_switchover op obs now = Ok (Persist next) →
    wf_operation p t next ∧ is_legal_switchover_phase_transition (op_phase op) (op_phase next) = true.
Proof.
  intros Hrun. pose proof (run_wf trace op Hrun) as Hwf. split; [done|].
  pose proof (run_outcome trace op obs now Hrun) as Hout. split.
  - unfold validate_switchover_operation. rewrite (topology_valid p t op (run_request trace op Hrun) (wf_topology _ _ _ Hwf)).
    cbn. destruct (op_pending_action op) as [pa|] eqn:Hpa; [|done]. by destruct (wf_pending _ _ _ Hwf pa Hpa) as (b & _ & _ & ?).
  - split; [by inversion Hout|]. intros next Hnext. rewrite Hnext in Hout. inversion Hout; subst.
    by eapply step_wf.
Qed.

(** *** Order of the milestones *)

Definition target_epoch : Epoch := to_epoch (ss_epoch (switched p (srs_id t))).

(** The replica [id] answers as its incarnation, and either shows [role] at
    the target epoch or its agent reports the action [aid] completed. *)
Definition has_become (role : Role) (id : Z) (aid : string) (obs : OperationObservations) : Prop :=
  ∃ o m, obs !! id = Some o ∧ find_member p id = Some m ∧ si_instance_id (ro_status o) = srs_instance_id m ∧
    (holds role target_epoch (ro_status o) = true ∨
     ∃ a, correlated_action_observation (ro_status o) aid = Some a ∧ do_state a = Completed).

(** In some turn of the trace [P] held of the observations, and [Q] of the
    turns before it. *)
Definition once (P : OperationObservations → Prop) (Q : list turn → Prop) (trace : list turn) : Prop :=
  ∃ newer tn older, trace = newer ++ tn :: older ∧ P (tn_observations tn) ∧ Q older.

(** The LSN the old primary stopped at; the target has reached it; the old
    primary is demoted; the target is promoted. *)
Definition frozen_in (lsn : Z) : list turn → Prop := once (λ obs, frozen_at p obs lsn) (λ _, True).
Definition caught_up_in (lsn : Z) : list turn → Prop := once (λ obs, caught_up_at p t obs lsn) (frozen_in lsn).
Definition demoted_in (aid : string) (lsn : Z) : list turn → Prop :=
  once (has_become ActiveSecondary (ss_primary_id p) aid) (caught_up_in lsn).
Definition promoted_in (aid aid' : string) (lsn : Z) : list turn → Prop :=
  once (has_become Primary (srs_id t) aid') (demoted_in aid lsn).

Lemma once_more P Q tn trace : once P Q trace → once P Q (tn :: trace).
Proof. intros (newer & tn' & older & -> & HP & HQ). by exists (tn :: newer), tn', older. Qed.
Lemma once_now (P : OperationObservations → Prop) (Q : list turn → Prop) tn trace :
  P (tn_observations tn) → Q trace → once P Q (tn :: trace).
Proof. intros HP HQ. by exists [], tn, trace. Qed.

(** How far a phase is: 1 the LSN is frozen, 2 the target has caught up,
    3 the old primary is demoted, 4 the target is promoted. *)
Definition milestone (phase : Phase.DurableOperationPhase) : nat :=
  match phase with
  | Phase.PreCatchUp | Phase.RestorePreviousConfiguration => 1
  | Phase.DemoteOldPrimary => 2
  | Phase.PromoteTarget | Phase.CompensatePromoteOldPrimary | Phase.CompensateDistributeEpoch
  | Phase.CompensateCatchUpConfiguration | Phase.CompensateCurrentConfiguration
  | Phase.CompensateLabelOldPrimary | Phase.CompensateLabelTargetSecondary | Phase.CompensateFinalize => 3
  | Phase.DistributeEpoch | Phase.UpdateCatchUpConfiguration | Phase.WaitForCatchUpQuorum
  | Phase.UpdateCurrentConfiguration | Phase.LabelTargetPrimary | Phase.LabelOldSecondary
  | Phase.Finalize | Phase.Completed => 4
  | _ => 0
  end.

Definition demote_id (op : DurableOperationStatus) : string := action_id op 2 Action.DemoteOldPrimary.
Definition promote_id (op : DurableOperationStatus) : string := action_id op 3 Action.PromoteTarget.

Definition reached (n : nat) (op : DurableOperationStatus) (lsn : Z) (trace : list turn) : Prop :=
  match n with
  | O => True
  | 1%nat => frozen_in lsn trace
  | 2%nat => caught_up_in lsn trace
  | 3%nat => demoted_in (demote_id op) lsn trace
  | _ => promoted_in (demote_id op) (promote_id op) lsn trace
  end.

Definition on_course (trace : list turn) (op : DurableOperationStatus) : Prop :=
  (0 < milestone (op_phase op))%nat → ∃ lsn, op_frozen_lsn op = Some lsn ∧ reached (milestone (op_phase op)) op lsn trace.

Lemma reached_more n op lsn tn trace : reached n op lsn trace → reached n op lsn (tn :: trace).
Proof. destruct n as [|[|[|[|n]]]]; [done|apply once_more..]. Qed.

(** What an observed postcondition of a role change says. *)
Lemma postcondition_become op pa obs role :
  wf_operation p t op → op_pending_action op = Some pa → observe_action op pa obs = Ok AoPostcondition →
  (pa_kind pa = Action.DemoteOldPrimary ∧ role = ActiveSecondary ∨ pa_kind pa = Action.PromoteTarget ∧ role = Primary) →
  has_become role (pa_target_id pa) (pa_action_id pa) obs.
Proof.
  intros Hwf Hpa Hobs Hkind. destruct (wf_pending _ _ _ Hwf pa Hpa) as (_ & _ & _ & Hv).
  pose proof (wf_topology _ _ _ Hwf) as Htop. destruct (valid_pending p t op pa Htop Hv) as (_ & _ & m & Hm & Hinst).
  unfold observe_action in Hobs. destruct (obs !! pa_target_id pa) as [o|] eqn:Ho; [|discriminate].
  destruct (negb (bool_decide _)) eqn:Hi; [discriminate|]. guards. rewrite Hinst in Hi. exists o, m.
  split; [done|]. split; [done|]. split; [done|].
  destruct (correlated_action_observation (ro_status o) (pa_action_id pa)) as [a|] eqn:Ha.
  - right. exists a. split; [done|]. destruct (negb (none (pod_role_action (pa_kind pa)))); [discriminate|].
    apply bind_Ok in Hobs as (act & _ & (sig & _ & Hobs)%bind_Ok).
    destruct (negb (bool_decide (do_signature a = sig))); [discriminate|]. by destruct (do_state a).
  - left. unfold observe_state in Hobs. rewrite (expect_topology p t op Htop) in Hobs. cbn [mbind result_bind] in Hobs.
    rewrite (tp_target _ _ _ Htop) in Hobs. fold target_epoch in Hobs.
    destruct Hkind as [[Hk ->]|[Hk ->]]; rewrite Hk in Hobs; injection Hobs as Hobs;
      (match type of Hobs with (if ?b then _ else _) = _ => destruct b end; [done|]);
      by repeat case_match.
Qed.

Lemma once_before P Q trace : (∀ tn tr, Q tr → Q (tn :: tr)) → once P Q trace → Q trace.
Proof.
  intros HQ (newer & tn & older & -> & _ & Hold). induction newer as [|x newer IH]; simpl; [by apply HQ|]. by apply HQ.
Qed.

(** An operation whose milestone is the same, or lower, stays on course. *)
Lemma on_course_kept trace tn op op' :
  on_course trace op → op_execution_id op' = op_execution_id op → op_frozen_lsn op' = op_frozen_lsn op →
  (milestone (op_phase op') = milestone (op_phase op) ∨ milestone (op_phase op') = 0%nat ∨
   (milestone (op_phase op') = 1 ∧ milestone (op_phase op) = 2)%nat) →
  on_course (tn :: trace) op'.
Proof.
  intros Hon Hex Hfr [Hm|[Hm|[Hm' Hm]]] Hpos; [|lia|]; rewrite ?Hm, ?Hm' in *.
  - destruct (Hon Hpos) as (lsn & Hl & Hr). exists lsn. rewrite Hfr. split; [done|]. apply reached_more.
    unfold reached, demote_id, promote_id, action_id in *. by rewrite Hex.
  - unfold on_course in Hon. rewrite Hm in Hon. destruct Hon as (lsn & Hl & Hr); [lia|]. exists lsn. rewrite Hfr.
    split; [done|]. apply once_more. eapply once_before; [|exact Hr]. intros; by apply once_more.
Qed.

Lemma done_on_course trace obs now d op pa next :
  wf_operation p t op → on_course trace op → op_pending_action op = Some pa →
  observe_action op pa obs = Ok AoPostcondition → advance_after_switchover_postcondition op pa now = Ok next →
  on_course (mkTurn obs now d :: trace) next.
Proof.
  intros Hwf Hon Hpa Hobs Hadv. destruct (wf_pending _ _ _ Hwf pa Hpa) as (base & Hact & Hseq & Hv).
  destruct (valid_pending p t op pa (wf_topology _ _ _ Hwf) Hv) as (Hid & Htgt & _).
  pose proof (postcondition_become op pa obs) as Hbec.
  unfold advance_after_switchover_postcondition in Hadv. unfold action_sequence in Hseq.
  destruct (op_phase op) eqn:Hph; try discriminate Hact; injection Hact as <- Hk; rewrite <-Hk in *; cbn in Hadv;
    injection Hadv as <-;
    try (apply (on_course_kept trace _ op); [done|done|done|]; cbn; rewrite ?Hph; cbn; auto; fail).
  - (* DemoteOldPrimary *)
    intros _. unfold on_course in Hon. rewrite Hph in Hon. destruct Hon as (lsn & Hl & Hr); [cbn; lia|].
    exists lsn. split; [done|]. apply once_now; [|exact Hr]. cbn in Hseq, Htgt. injection Htgt as Htgt. rewrite Hseq in Hid.
    change (demote_id _) with (demote_id op). unfold demote_id. rewrite Htgt, <-Hid. apply Hbec; [done..|by left].
  - (* PromoteTarget *)
    intros _. unfold on_course in Hon. rewrite Hph in Hon. destruct Hon as (lsn & Hl & Hr); [cbn; lia|].
    exists lsn. split; [done|]. apply once_now; [|exact Hr]. cbn in Hseq, Htgt. injection Htgt as Htgt. rewrite Hseq in Hid.
    change (promote_id _) with (promote_id op). unfold promote_id. rewrite Htgt, <-Hid. apply Hbec; [done..|by right].
Qed.

Lemma step_on_course trace obs now d op next :
  wf_operation p t op → on_course trace op → step p t op obs now next →
  on_course (mkTurn obs now d :: trace) next.
Proof.
  intros Hwf Hon Hst.
  destruct Hst as [base kind pa Hpend Hact Hlt Hok|pa next Hpa Hobs Hadv|pa Hpa _ _|pa err Hpa _|lsn Hpend Hph Hz|lsn Hpend Hph Hl Hc
    |message Hpend Hph _|ids ph Hpend Hd Hge ->|message _ _].
  - apply (on_course_kept trace _ op); auto.
  - by eapply done_on_course.
  - destruct (wf_pending _ _ _ Hwf pa Hpa) as (base & Hact & _). apply (on_course_kept trace _ op); [done|done|done|].
    destruct (op_phase op) eqn:Hph; try discriminate Hact; injection Hact as _ Hk; cbn; rewrite <-Hk; cbn; auto.
  - destruct (wf_pending _ _ _ Hwf pa Hpa) as (base & Hact & _). apply (on_course_kept trace _ op); [done|done|done|].
    destruct (op_phase op) eqn:Hph; try discriminate Hact; injection Hact as _ Hk; cbn; rewrite <-Hk; cbn; auto.
  - intros _. exists lsn. split; [done|]. by apply once_now.
  - intros _. exists lsn. split; [done|]. unfold on_course in Hon. rewrite Hph in Hon.
    destruct Hon as (lsn' & Hl' & Hr); [cbn; lia|]. rewrite Hl in Hl'. injection Hl' as <-. by apply once_now.
  - apply (on_course_kept trace _ op); [done|done|done|]. cbn. rewrite Hph. auto.
  - apply (on_course_kept trace _ op); [done|done|done|]. destruct (op_phase op); try discriminate Hd; cbn; auto.
  - apply (on_course_kept trace _ op); cbn; auto.
Qed.

Lemma run_on_course trace op : run trace op → on_course trace op.
Proof.
  intros Hrun. induction Hrun as [uid now op Hst|trace op obs now d Hrun IH Hd|trace op op' Hrun IH Hb|trace op m Hrun IH].
  - apply start_switchover_Ok in Hst as (_ & _ & _ & _ & Hph & _). unfold on_course. rewrite Hph. cbn. lia.
  - pose proof (run_outcome trace op obs now Hrun) as Hout. rewrite Hd in Hout.
    inversion Hout as [next Hst| | | |Hpend Hph _|Hpend Hph _| |]; subst; cbn [next_operation];
      try (apply (on_course_kept trace _ op); [done|done|done|]; cbn; auto; fail).
    + eapply step_on_course; [by eapply run_wf|done|done].
    + apply (on_course_kept trace _ op); [done|done|done|]. cbn. rewrite Hph. auto.
  - destruct Hb as (e & pending & -> & _). exact IH.
  - intros Hpos. cbn in Hpos. lia.
Qed.

(** C23. The order a switchover keeps, over every run: it sends the target
    its promotion only after a turn that saw the old primary demoted, that
    one after a turn that saw the target at or past the LSN, and that one
    after the turn that saw the old primary refuse writes at that LSN; and it
    completes only after, in addition, a turn that saw the target promoted. *)
Theorem promotion_order trace op obs now :
  run trace op →
  (∀ id aid epoch, decide_switchover op obs now = Ok (Execute id aid (ActChangeRole epoch Primary)) →
     id = srs_id t → epoch = target_epoch ∧ aid = promote_id op ∧
     ∃ lsn, op_frozen_lsn op = Some lsn ∧ demoted_in (demote_id op) lsn trace) ∧
  (∀ final snapshot, decide_switchover op obs now = Ok (Complete final snapshot false) →
     ∃ lsn, op_frozen_lsn op = Some lsn ∧ promoted_in (demote_id op) (promote_id op) lsn trace).
Proof.
  intros Hrun. pose proof (run_outcome trace op obs now Hrun) as Hout. pose proof (run_on_course trace op Hrun) as Hon.
  pose proof (run_wf trace op Hrun) as Hwf. pose proof (run_request trace op Hrun) as Hrq. split.
  - intros id aid epoch Hd Hid. rewrite Hd in Hout. inversion Hout as [|pa act Hpa _ _ _ Hact Heq| | | | | |]; subst.
    destruct (wf_pending _ _ _ Hwf pa Hpa) as (base & Hpact & Hseq & Hv).
    destruct (valid_pending p t op pa (wf_topology _ _ _ Hwf) Hv) as (Haid & Htgt & _).
    unfold action_for in Hact. unfold action_sequence in Hseq. unfold on_course in Hon.
    pose proof (rq_other _ _ Hrq) as Hother. rewrite (tp_target _ _ _ (wf_topology _ _ _ Hwf)) in Hact.
    destruct (op_phase op); try discriminate Hpact; injection Hpact as <- Hk; rewrite <-Hk in *;
      try discriminate Hact; try (repeat (apply bind_Ok in Hact as (? & _ & Hact)); discriminate Hact);
      try (cbn in Htgt; congruence).
    injection Hact as <-. split; [done|]. cbn in Hseq. rewrite Hseq in Haid. split; [done|]. apply Hon. cbn. lia.
  - intros final snapshot Hd. rewrite Hd in Hout. inversion Hout as [| | | |Hpend Hph _| | |]; subst.
    unfold on_course in Hon. rewrite Hph in Hon. apply Hon. cbn. lia.
Qed.
End runs.
