(* ===== verification/SwitchoverEnds.v ===== *)
(** How switchovers end: one replica at most is given a configuration to
    write under, a completed switchover has attested its topology, every run
    is bounded and no turn past its deadlines waits. *)

From S2P Require Import Prelude Types Lifecycle Control Agent Proto Convert Crd Operation Switchover SwitchoverSteps Effects SwitchoverRuns.

Set Default Goal Selector "!".

Section ends.
  Context {Ends : Endpoints} {Codec : PayloadCodec}.
  Context (p : StablePartitionSnapshotStatus) (t : StableReplicaSnapshotStatus).
  Context (Ht : t ∈ ss_members p) (Hsize : Z.of_nat (length (ss_members p)) ≤ u32_max).

(** ** One writer *)

(** The actions after which a primary admits writes. *)
Definition installs (action : DurableReplicaAction) : bool :=
  match action with
  | ActUpdateCatchUpConfiguration _ _ | ActUpdateCurrentConfiguration _ => true
  | _ => false
  end.

(** The replicas a run sent a configuration to. *)
Definition installed (tn : turn) : option Z :=
  match tn_decision tn with Execute id _ action => if installs action then Some id else None | _ => None end.
Definition writers (trace : list turn) : list Z := omap installed trace.

(** Who may have been sent a configuration in a phase. *)
Inductive side := NoWriter | OldPrimary | NewPrimary | OneWriter.
Definition phase_side (phase : Phase.DurableOperationPhase) : side :=
  match phase with
  | Phase.UpdateCatchUpConfiguration | Phase.WaitForCatchUpQuorum | Phase.UpdateCurrentConfiguration
  | Phase.LabelTargetPrimary | Phase.LabelOldSecondary | Phase.Finalize | Phase.Completed => NewPrimary
  | Phase.RestorePreviousConfiguration | Phase.Failed | Phase.CompensatePromoteOldPrimary
  | Phase.CompensateDistributeEpoch | Phase.CompensateCatchUpConfiguration
  | Phase.CompensateCurrentConfiguration | Phase.CompensateLabelOldPrimary
  | Phase.CompensateLabelTargetSecondary | Phase.CompensateFinalize => OldPrimary
  | Phase.Poisoned => OneWriter
  | _ => NoWriter
  end.

Definition on_side (s : side) (trace : list turn) : Prop :=
  match s with
  | NoWriter => writers trace = []
  | OldPrimary => Forall (eq (ss_primary_id p)) (writers trace)
  | NewPrimary => Forall (eq (srs_id t)) (writers trace)
  | OneWriter => ∃ id, Forall (eq id) (writers trace)
  end.

Lemma on_side_one s trace : on_side s trace → ∃ id, Forall (eq id) (writers trace).
Proof. destruct s; simpl; [intros ->; exists 0; constructor|eauto..]. Qed.

(** Moving from one side to another without sending a configuration. *)
Definition side_leads (s s' : side) : Prop := s' = s ∨ s = NoWriter ∨ s' = OneWriter.

Lemma on_side_kept s s' tn trace :
  on_side s trace → installed tn = None → side_leads s s' → on_side s' (tn :: trace).
Proof.
  intros Hs Hi Hl. unfold side_leads in Hl. assert (writers (tn :: trace) = writers trace) as Hw by (unfold writers; simpl; by rewrite Hi).
  destruct Hl as [->|[->| ->]].
  - by destruct s; unfold on_side in *; rewrite Hw.
  - simpl in Hs. destruct s'; unfold on_side; rewrite Hw, Hs; try done. by exists 0.
  - apply on_side_one in Hs. unfold on_side. by rewrite Hw.
Qed.

Lemma legal_side phase phase' :
  is_legal_switchover_phase_transition phase phase' = true →
  side_leads (phase_side phase) (phase_side phase').
Proof.
  unfold is_legal_switchover_phase_transition, side_leads. intros Hl.
  apply orb_true_iff in Hl as [[->%bool_decide_eq_true| ->%bool_decide_eq_true]%orb_true_iff|Hl]; [by left|by right; right|].
  destruct phase; try discriminate Hl; destruct phase'; try discriminate Hl; simpl; auto.
Qed.

Lemma executed_side op pa obs act tn trace :
  wf_operation p t op → op_pending_action op = Some pa → action_for op pa obs = Ok act → on_side (phase_side (op_phase op)) trace →
  tn_decision tn = Execute (pa_target_id pa) (pa_action_id pa) act →
  on_side (phase_side (op_phase op)) (tn :: trace).
Proof.
  intros Hwf Hpa Hact Hs Hd. destruct (wf_pending _ _ _ Hwf pa Hpa) as (base & Hpact & _ & Hv).
  destruct (valid_pending p t op pa (wf_topology _ _ _ Hwf) Hv) as (_ & Htgt & _).
  destruct (installs act) eqn:Hi.
  - assert (writers (tn :: trace) = pa_target_id pa :: writers trace) as Hw.
    { unfold writers. simpl. unfold installed at 1. by rewrite Hd, Hi. }
    unfold action_for in Hact. unfold on_side in *. rewrite Hw.
    destruct (op_phase op); try discriminate Hpact; injection Hpact as <- Hk; rewrite <-Hk in *;
      try (injection Hact as <-; discriminate Hi); try discriminate Hact; cbn in Htgt; injection Htgt as <-; by constructor.
  - apply (on_side_kept (phase_side (op_phase op))); [done| |by left]. unfold installed. by rewrite Hd, Hi.
Qed.

Lemma run_on_side trace op : run p t trace op → on_side (phase_side (op_phase op)) trace.
Proof.
  intros Hrun. induction Hrun as [uid now op Hst|trace op obs now d Hrun IH Hd|trace op op' Hrun IH Hb|trace op m Hrun IH].
  - apply start_switchover_Ok in Hst as (_ & _ & _ & _ & Hph & _). by rewrite Hph.
  - pose proof (run_wf p t Ht Hsize trace op Hrun) as Hwf. pose proof (run_outcome p t Ht Hsize trace op obs now Hrun) as Hout.
    rewrite Hd in Hout.
    inversion Hout as [next Hst|pa act Hpa _ _ _ Hact|pa m role Hpa| |Hpend Hph _|Hpend Hph _|epoch o Hph| ]; subst;
      cbn [next_operation].
    + destruct (step_wf p t op obs now next Hwf Hst) as [_ Hlegal].
      apply (on_side_kept (phase_side (op_phase op))); [done|done|by apply legal_side].
    + by eapply executed_side.
    + apply (on_side_kept (phase_side (op_phase op))); [done|done|by left].
    + apply (on_side_kept (phase_side (op_phase op))); [done|done|by left].
    + apply (on_side_kept (phase_side (op_phase op))); [done|done|]. rewrite Hph. by left.
    + apply (on_side_kept (phase_side (op_phase op))); [done|done|]. rewrite Hph. by left.
    + apply (on_side_kept (phase_side (op_phase op))); [done|done|]. by left.
  - destruct Hb as (e & pending & -> & _). exact IH.
  - by apply on_side_one in IH.
Qed.

(** C24. A switchover never opens two replicas for writes: over every run,
    all the configurations it sends, whether it goes through, restores the
    previous topology or compensates, go to one and the same replica; and on
    the way to success that is the target. *)
Theorem one_writer trace op :
  run p t trace op →
  (∃ id, ∀ id', id' ∈ writers trace → id' = id) ∧
  (op_phase op = Phase.Completed → ∀ id', id' ∈ writers trace → id' = srs_id t).
Proof.
  intros Hrun. pose proof (run_on_side trace op Hrun) as Hs. split.
  - apply on_side_one in Hs as [id Hid]. exists id. intros id' Hin. rewrite Forall_forall in Hid. by symmetry; apply Hid.
  - intros Hc id' Hin. rewrite Hc in Hs. simpl in Hs. rewrite Forall_forall in Hs. by symmetry; apply Hs.
Qed.

(** ** What a completion attests *)

(** Every member answers as its incarnation, at the epoch, in the role and
    under the label of [s], and its primary holds exactly that configuration. *)
Definition attested (s : StablePartitionSnapshotStatus) (obs : OperationObservations) : Prop :=
  (∀ m, m ∈ ss_members s → ∃ o, obs !! srs_id m = Some o ∧
     si_instance_id (ro_status o) = srs_instance_id m ∧ si_epoch (ro_status o) = to_epoch (ss_epoch s) ∧
     si_role (ro_status o) = stable_role (srs_role m) ∧
     ro_pod_role_label o = Some (if srs_id m =? ss_primary_id s then "primary" else "secondary")) ∧
  ∃ o config, obs !! ss_primary_id s = Some o ∧ config_for_snapshot s obs = Ok config ∧
    si_configuration (ro_status o) = Some (config_status Current config).

Lemma attests op s obs :
  topology p t op → (∀ m, m ∈ ss_members s → ∃ m', find_member p (srs_id m) = Some m' ∧ srs_instance_id m' = srs_instance_id m) →
  validate_snapshot_observation op s obs = Ok tt → attested s obs.
Proof.
  intros Htop Hsame. unfold validate_snapshot_observation. rewrite bind_Ok. intros ([] & Hall%try_for_each_Ok & Hprim).
  apply bind_Ok in Hprim as (o & Ho%or_fail_Ok & (config & Hc%lift_Ok & Heq%fail_if_Ok)%bind_Ok). guards. split; [|by exists o, config].
  intros m Hm. rewrite Forall_forall in Hall. specialize (Hall m Hm).
  apply bind_Ok in Hall as (om & Hom & ([] & Hr%fail_if_Ok & Hl%fail_if_Ok)%bind_Ok). guards.
  unfold exact_observation in Hom. rewrite (expect_topology p t op Htop) in Hom.
  apply bind_Ok in Hom as (om' & Hget%or_fail_Ok & Hom). cbn [mbind result_bind] in Hom.
  apply bind_Ok in Hom as (m' & Hm'%or_fail_Ok & ([] & Hi%fail_if_Ok & ([] & He%fail_if_Ok & [= <-])%bind_Ok)%bind_Ok). guards.
  destruct (Hsame m Hm) as (m'' & Hm'' & Hinst). rewrite Hm' in Hm''. injection Hm'' as <-.
  exists om'. split; [done|]. split; [congruence|]. split; [done|]. split; [done|done].
Qed.

(** C25. What a finished switchover publishes is what is there: it completes
    with the target topology, or with the previous members at the target
    epoch after a compensation, only on a turn in which every member answered
    as the incarnation recorded for it, at that epoch, in that role and under
    that label, and the primary held exactly that configuration; the terminal
    passes the checks made of it. A switchover that failed publishes the
    previous members under an epoch at which its old primary is seen as
    primary; of that ending no more is attested: no incarnation, no other
    member, no write status. *)
Theorem completion_attested trace op obs now final snapshot compensated :
  run p t trace op → decide_switchover op obs now = Ok (Complete final snapshot compensated) →
  validate_switchover_terminal final snapshot compensated = Ok tt ∧
  (compensated = false ∧ snapshot = switched p (srs_id t) ∧ attested snapshot obs ∨
   compensated = true ∧ (∃ epoch, snapshot = restored p epoch) ∧
     (op_phase op = Phase.CompensateFinalize ∧ ss_epoch snapshot = ss_epoch (switched p (srs_id t)) ∧ attested snapshot obs ∨
      op_phase op = Phase.Failed ∧ ∃ o, obs !! ss_primary_id p = Some o ∧
        si_role (ro_status o) = Primary ∧ si_epoch (ro_status o) = to_epoch (ss_epoch snapshot))).
Proof.
  intros Hrun Hd. pose proof (run_outcome p t Ht Hsize trace op obs now Hrun) as Hout. rewrite Hd in Hout.
  pose proof (run_wf p t Ht Hsize trace op Hrun) as Hwf. pose proof (run_request p t Ht Hsize trace op Hrun) as Hrq.
  pose proof (wf_topology _ _ _ Hwf) as Htop.
  assert (∀ m, m ∈ ss_members p → find_member p (srs_id m) = Some m) as Hfind by (intros; by apply find_member_In; [apply Hrq|]).
  inversion Hout as [| | | |Hpend Hph Hatt|Hpend Hph Hatt|epoch o Hph Hpend He Ho Hh|]; subst.
  - split; [rewrite <-(tp_target _ _ _ Htop); by apply (terminal_target op)|]. left. split; [done|]. split; [done|].
    eapply attests; [done| |done]. intros m Hm. simpl in Hm. apply list_elem_of_fmap in Hm as (m' & -> & Hm').
    exists m'. split; [exact (Hfind m' Hm')|done].
  - split; [apply (terminal_restored p t Hrq op Htop); [done|done|by destruct op|by right]|]. right. split; [done|].
    split; [by eexists|]. left. split; [done|]. split; [by rewrite (tp_target _ _ _ Htop)|].
    eapply attests; [done| |done]. intros m Hm. exists m. split; [by apply Hfind|done].
  - split; [apply (terminal_restored p t Hrq final Htop); [done|done|by destruct final|done]|]. right. split; [done|].
    split; [by eexists|]. right. split; [done|]. exists o. unfold holds in Hh.
    apply andb_true_iff in Hh as [Hr%bool_decide_eq_true Hep%bool_decide_eq_true]. done.
Qed.

(** ** Termination *)

Definition members_count : Z := Z.of_nat (length (ss_members p)).

(** The longest way from a phase to an end. *)
Definition rank (phase : Phase.DurableOperationPhase) : Z :=
  match phase with
  | Phase.Revoke => 13 | Phase.CaptureLsn => 12 | Phase.PreCatchUp => 11 | Phase.DemoteOldPrimary => 10
  | Phase.PromoteTarget => 9
  | Phase.DistributeEpoch => 8 | Phase.UpdateCatchUpConfiguration => 7 | Phase.WaitForCatchUpQuorum => 6
  | Phase.UpdateCurrentConfiguration => 5 | Phase.LabelTargetPrimary => 4 | Phase.LabelOldSecondary => 3
  | Phase.Finalize => 2
  | Phase.CompensatePromoteOldPrimary => 8 | Phase.CompensateDistributeEpoch => 7
  | Phase.CompensateCatchUpConfiguration => 6 | Phase.CompensateCurrentConfiguration => 5
  | Phase.CompensateLabelOldPrimary => 4 | Phase.CompensateLabelTargetSecondary => 3
  | Phase.CompensateFinalize => 2
  | Phase.RestorePreviousConfiguration => 2
  | Phase.Failed => 1
  | _ => 0
  end.

(** The secondaries left in a distribution. *)
Definition remaining (op : DurableOperationStatus) : Z :=
  match distributes p t (op_phase op) with
  | Some ids => Z.of_nat (length ids) - op_next_secondary_index op
  | None => 0
  end.

Definition measure (op : DurableOperationStatus) : Z :=
  rank (op_phase op) * (2 * members_count + 2) + 2 * remaining op +
  (if none (op_pending_action op) then 1 else 0).

Definition is_persist (tn : turn) : bool := match tn_decision tn with Persist _ => true | _ => false end.
Definition persists (trace : list turn) : Z := Z.of_nat (length (filter (λ tn, is_persist tn = true) trace)).

Lemma distributes_bound ids phase : distributes p t phase = Some ids → Z.of_nat (length ids) ≤ members_count.
Proof.
  unfold members_count. destruct phase; try discriminate; intros [= <-]; apply inj_le, sorted_ids_but_length.
Qed.

Lemma remaining_bounds op : wf_operation p t op → 0 ≤ remaining op ≤ members_count.
Proof.
  intros Hwf. pose proof (wf_index _ _ _ Hwf) as [H0 Hidx]. unfold remaining.
  destruct (distributes p t (op_phase op)) as [ids|] eqn:Hd; [|unfold members_count; lia].
  pose proof (distributes_bound ids _ Hd). specialize (Hidx ids eq_refl). lia.
Qed.

Lemma rank_nonneg phase : 0 ≤ rank phase.
Proof. destruct phase; done. Qed.

Lemma rank_active op :
  wf_operation p t op → op_phase op ≠ Phase.Completed → op_phase op ≠ Phase.Poisoned → 1 ≤ rank (op_phase op).
Proof.
  intros Hwf Hnc Hnp. destruct (wf_phase _ _ _ Hwf) as [[x Hx]|Hq]; destruct (op_phase op); done.
Qed.

(** A move to a lower phase without a pending action lowers the measure. *)
Lemma measure_lower op op' :
  wf_operation p t op → wf_operation p t op' → rank (op_phase op') < rank (op_phase op) → measure op' < measure op.
Proof.
  intros Hwf Hwf' Hr. pose proof (remaining_bounds op Hwf). pose proof (remaining_bounds op' Hwf').
  unfold measure. assert (rank (op_phase op') * (2 * members_count + 2) + (2 * members_count + 2) ≤
    rank (op_phase op) * (2 * members_count + 2)) by nia. repeat case_match; lia.
Qed.

Lemma poison_measure op message : wf_operation p t op → measure (poison op message) ≤ measure op.
Proof.
  intros Hwf. pose proof (remaining_bounds op Hwf). pose proof (rank_nonneg (op_phase op)).
  unfold measure. change (remaining (poison op message)) with 0. change (rank (op_phase (poison op message))) with 0.
  change (op_pending_action (poison op message)) with (@None PendingActionStatus). cbn [none].
  destruct (decide (op_phase op = Phase.Completed)) as [Hc|Hc]; [|destruct (decide (op_phase op = Phase.Poisoned)) as [Hp|Hp]].
  - destruct (op_pending_action op) as [pa|] eqn:Hpa; [|cbn; nia].
    destruct (wf_pending _ _ _ Hwf pa Hpa) as (b & Hb & _). by rewrite Hc in Hb.
  - destruct (op_pending_action op) as [pa|] eqn:Hpa; [|cbn; nia].
    destruct (wf_pending _ _ _ Hwf pa Hpa) as (b & Hb & _). by rewrite Hp in Hb.
  - pose proof (rank_active op Hwf Hc Hp). case_match; nia.
Qed.

Lemma step_measure op obs now next :
  wf_operation p t op → step p t op obs now next → measure next < measure op.
Proof.
  intros Hwf Hst. pose proof (proj1 (step_wf p t op obs now next Hwf Hst)) as Hwf'.
  destruct Hst as [base kind pa Hpend Hact Hlt Hok|pa next Hpa Hobs Hadv|pa Hpa _ _|pa err Hpa _|lsn Hpend Hph Hz|lsn Hpend Hph Hl Hc
    |message Hpend Hph _|ids ph Hpend Hd Hge ->|message Hnc Hnp].
  - unfold measure. change (remaining (with_pending op pa)) with (remaining op). rewrite Hpend. cbn. lia.
  - destruct (wf_pending _ _ _ Hwf pa Hpa) as (base & Hact & _ & _). pose proof (pending_in_range p t op pa) as Hrange.
    unfold advance_after_switchover_postcondition in Hadv.
    assert (∀ ids, distributes p t (op_phase op) = Some ids → op_next_secondary_index op < Z.of_nat (length ids) ∧
      u32_saturating_add (op_next_secondary_index op) 1 = op_next_secondary_index op + 1) as Hinc.
    { intros ids Hd. specialize (Hrange ids Hwf Hpa Hd). pose proof (distributes_bound ids _ Hd).
      unfold members_count, u32_saturating_add in *. lia. }
    destruct (op_phase op) eqn:Hph; try discriminate Hact; injection Hact as <- Hk; rewrite <-Hk in Hadv; cbn in Hadv;
      injection Hadv as <-; try (apply measure_lower; [done|done|]; cbn; rewrite ?Hph; cbn; lia);
      destruct (Hinc _ eq_refl) as [_ Heq]; unfold measure, remaining; rewrite Hpa; cbn [op_phase op_next_secondary_index
        op_pending_action over]; rewrite Hph; cbn [distributes none]; rewrite Heq; lia.
  - apply measure_lower; [done|done|]. destruct (wf_pending _ _ _ Hwf pa Hpa) as (base & Hact & _ & _).
    destruct (op_phase op) eqn:Hph; try discriminate Hact; injection Hact as _ Hk; cbn; rewrite <-Hk; cbn; lia.
  - apply measure_lower; [done|done|]. destruct (wf_pending _ _ _ Hwf pa Hpa) as (base & Hact & _ & _).
    destruct (op_phase op) eqn:Hph; try discriminate Hact; injection Hact as _ Hk; cbn; rewrite <-Hk; cbn; lia.
  - apply measure_lower; [done|done|]. cbn. rewrite Hph. cbn. lia.
  - apply measure_lower; [done|done|]. cbn. rewrite Hph. cbn. lia.
  - apply measure_lower; [done|done|]. cbn. rewrite Hph. cbn. lia.
  - apply measure_lower; [done|done|]. destruct (op_phase op); try discriminate Hd; cbn; lia.
  - apply measure_lower; [done|done|]. cbn. pose proof (rank_active op Hwf Hnc Hnp). lia.
Qed.

Definition measure_bound : Z := 13 * (2 * members_count + 2) + 1.

Lemma run_measure trace op : run p t trace op → persists trace + measure op ≤ measure_bound.
Proof.
  intros Hrun. induction Hrun as [uid now op Hst|trace op obs now d Hrun IH Hd|trace op op' Hrun IH Hb|trace op m Hrun IH].
  - apply start_switchover_Ok in Hst as (_ & _ & _ & _ & Hph & Hpend & _).
    unfold measure, remaining, measure_bound, persists. rewrite Hph, Hpend. cbn. lia.
  - pose proof (run_wf p t Ht Hsize trace op Hrun) as Hwf. pose proof (run_outcome p t Ht Hsize trace op obs now Hrun) as Hout.
    rewrite Hd in Hout. assert (∀ tn, persists (tn :: trace) =
      (if is_persist tn then 1 else 0) + persists trace) as Hp.
    { intros tn. unfold persists. rewrite filter_cons. destruct (is_persist tn); simpl; lia. }
    rewrite Hp. unfold is_persist. pose proof (outcome_wf p t op obs now d Hwf Hout) as Hwf'.
    inversion Hout as [next Hst| | | |Hpend Hph _|Hpend Hph _| |]; subst; cbn [next_operation tn_decision] in *; try lia.
    + pose proof (step_measure op obs now next Hwf Hst). lia.
    + pose proof (measure_lower op _ Hwf Hwf') as Hm. cbn in Hm. rewrite Hph in Hm. cbn in Hm. lia.
    + pose proof (measure_lower op _ Hwf Hwf') as Hm. cbn in Hm. rewrite Hph in Hm. cbn in Hm. lia.
  - destruct Hb as (e & pending & -> & Hsame).
    assert (measure (op <| op_last_error := e |> <| op_pending_action := pending |>) = measure op) as ->; [|done].
    unfold measure. cbn. destruct (op_pending_action op), pending; done.
  - pose proof (poison_measure op m (run_wf p t Ht Hsize trace op Hrun)). unfold fail_closed. lia.
Qed.

(** *** Every turn decides when the replicas answer *)

Lemma is_ok_bind {E A B} (m : result E A) (f : A → result E B) :
  is_ok m = true → (∀ a, m = Ok a → is_ok (f a) = true) → is_ok (m ≫= f) = true.
Proof. destruct m as [a|]; simpl; auto. Qed.

(** All members answer, as the incarnations the topology records. *)
Definition answering (obs : OperationObservations) : Prop :=
  ∀ m, m ∈ ss_members p → ∃ o, obs !! srs_id m = Some o ∧ si_instance_id (ro_status o) = srs_instance_id m.

(** The payload persisted with a dispatch, if there is one, decodes. *)
Definition readable (op : DurableOperationStatus) : Prop :=
  ∀ pa, op_pending_action op = Some pa →
    pa_dispatch_action_payload pa = "" ∨ is_ok (decode_payload (pa_dispatch_action_payload pa)) = true.

Lemma config_answering s obs :
  (∀ m, m ∈ ss_members s → ∃ o, obs !! srs_id m = Some o ∧ si_instance_id (ro_status o) = srs_instance_id m) →
  is_ok (config_for_snapshot s obs) = true.
Proof.
  intros Hans. unfold config_for_snapshot. apply is_ok_bind; [|done].
  match goal with |- is_ok (try_fold ?f _ _) = true => set (add := f) end. generalize (@nil ReplicaInfo).
  induction (ss_members s) as [|m l IH]; intros acc; [done|]. cbn [try_fold]. apply is_ok_bind.
  - unfold add. destruct (srs_id m =? ss_primary_id s); [done|]. destruct (Hans m) as (o & -> & Hi); [left|]. cbn.
    by rewrite bool_decide_eq_true_2.
  - intros a _. apply IH. intros m' Hm'. apply Hans. by right.
Qed.

Lemma is_ok_lift {A} (r : result string A) : is_ok (lift r) = is_ok r.
Proof. by destruct r. Qed.

Section answers.
  Context (op : DurableOperationStatus) (obs : OperationObservations).
  Context (Hwf : wf_operation p t op) (Hans : answering obs).

Lemma ok_previous_config : is_ok (previous_config op obs) = true.
Proof.
  unfold previous_config. rewrite (expect_topology p t op (wf_topology _ _ _ Hwf)). cbn. rewrite is_ok_lift. by apply config_answering.
Qed.
Lemma ok_target_config : is_ok (target_config op obs) = true.
Proof.
  unfold target_config. rewrite is_ok_lift, (tp_target _ _ _ (wf_topology _ _ _ Hwf)). apply config_answering.
  intros m (m' & -> & Hm')%list_elem_of_fmap. exact (Hans m' Hm').
Qed.
Lemma ok_compensation_config : is_ok (compensation_config op obs) = true.
Proof.
  unfold compensation_config. rewrite (compensation_topology p t op (wf_topology _ _ _ Hwf)). cbn. rewrite is_ok_lift.
  by apply config_answering.
Qed.

Lemma ok_action_for base pa :
  phase_action (op_phase op) = Some (base, pa_kind pa) → pod_role_action (pa_kind pa) = None →
  is_ok (action_for op pa obs) = true.
Proof.
  intros Hact Hrole. unfold action_for. destruct (op_phase op); try discriminate Hact; injection Hact as _ Hk;
    rewrite <-Hk in *; try discriminate Hrole; try done;
    repeat (apply is_ok_bind; [apply ok_previous_config || apply ok_target_config || apply ok_compensation_config|intros ? _]); done.
Qed.

Lemma ok_observe_state base pa o :
  phase_action (op_phase op) = Some (base, pa_kind pa) → is_ok (observe_state op pa obs o) = true.
Proof.
  intros Hact. unfold observe_state. rewrite (expect_topology p t op (wf_topology _ _ _ Hwf)). cbn [mbind result_bind].
  destruct (op_phase op); try discriminate Hact; injection Hact as _ Hk; rewrite <-Hk; try done;
    repeat (apply is_ok_bind; [apply ok_previous_config || apply ok_target_config || apply ok_compensation_config|intros ? _]); done.
Qed.

Lemma ok_observe_action base pa :
  op_pending_action op = Some pa → readable op → phase_action (op_phase op) = Some (base, pa_kind pa) →
  is_ok (observe_action op pa obs) = true.
Proof.
  intros Hpa Hread Hact. unfold observe_action. destruct (obs !! pa_target_id pa) as [o|]; [|done].
  destruct (negb _); [done|]. destruct (correlated_action_observation _ _) as [a|]; [|by eapply ok_observe_state].
  destruct (pod_role_action (pa_kind pa)) eqn:Hrole; [done|]. cbn [none negb].
  apply is_ok_bind; [by eapply ok_action_for|]. intros act _. apply is_ok_bind; [|intros sig _; by case_match].
  rewrite is_ok_lift. unfold pending_action_signature, empty.
  destruct (Hread pa Hpa) as [->|Hdec]; [done|]. case_bool_decide; [done|]. by destruct (decode_payload _).
Qed.

Context (Hrq : request_ok p t).

Lemma ok_schedule base kind seq now :
  phase_action (op_phase op) = Some (base, kind) →
  (∀ ids, distributes p t (op_phase op) = Some ids → op_next_secondary_index op < Z.of_nat (length ids)) →
  is_ok (schedule op seq kind now) = true.
Proof.
  intros Hact Hidx. destruct (schedulable p t Hrq op base kind seq now (wf_topology _ _ _ Hwf)
    (proj1 (wf_index _ _ _ Hwf)) Hact Hidx) as (pa & Hok & _). unfold schedule. by rewrite Hok.
Qed.

Lemma ok_distribute ids base kind done seq now :
  phase_action (op_phase op) = Some (base, kind) → distributes p t (op_phase op) = Some ids →
  is_ok (decide_distribute ids seq kind done op now) = true.
Proof.
  intros Hact Hd. unfold decide_distribute. destruct (Z.leb_spec (Z.of_nat (length ids)) (op_next_secondary_index op)); [done|].
  eapply ok_schedule; [done|]. rewrite Hd. by intros ids' [= <-].
Qed.

Lemma ok_pending pa base now :
  op_pending_action op = Some pa → readable op → phase_action (op_phase op) = Some (base, pa_kind pa) →
  is_ok (decide_pending op pa obs now) = true.
Proof.
  intros Hpa Hread Hact. unfold decide_pending. apply is_ok_bind; [by eapply ok_observe_action|]. intros seen _.
  assert (is_ok (advance_after_switchover_postcondition op pa now) = true) as Hadv.
  { unfold advance_after_switchover_postcondition.
    destruct (op_phase op); try discriminate Hact; injection Hact as _ Hk; by rewrite <-Hk. }
  destruct seen; try done.
  - case_match; [done|]. destruct (pod_role_action (pa_kind pa)) as [role|] eqn:Hrole.
    + destruct (wf_pending _ _ _ Hwf pa Hpa) as (_ & _ & _ & Hv).
      destruct (valid_pending p t op pa (wf_topology _ _ _ Hwf) Hv) as (_ & _ & m & Hm & _).
      unfold switchover_label_uid. rewrite (expect_topology p t op (wf_topology _ _ _ Hwf)). cbn [mbind result_bind]. by rewrite Hm.
    + apply is_ok_bind; [by eapply ok_action_for|done].
  - by apply is_ok_bind.
Qed.

Lemma ok_finalize snapshot final compensated now :
  validate_switchover_terminal final snapshot compensated = Ok tt →
  is_ok (decide_finalize op snapshot final compensated obs now) = true.
Proof.
  intros Hterm. unfold decide_finalize. pose proof (panics_attest p t op (wf_topology _ _ _ Hwf) obs snapshot) as Hp.
  destruct (validate_snapshot_observation op snapshot obs) as [[]|[m|m]]; [by rewrite Hterm|done|discriminate Hp].
Qed.

Lemma ok_failed : op_phase op = Phase.Failed → op_pending_action op = None → is_ok (decide_failed op obs) = true.
Proof.
  intros Hph Hpend. pose proof (wf_topology _ _ _ Hwf) as Htop. unfold decide_failed. rewrite (tp_old_id _ _ _ Htop).
  destruct (vs_primary _ (rq_valid _ _ Hrq)) as (m & Hm & Hid & _). destruct (Hans m Hm) as (o & Ho & _). rewrite Hid in Ho.
  rewrite Ho. cbn [or_fail ok_or mbind result_bind]. rewrite (expect_topology p t op Htop). cbn [mbind result_bind].
  assert (∀ e, e = ss_epoch p ∨ e = ss_epoch (op_target_snapshot op) →
    validate_switchover_terminal op (restored p e) true = Ok tt) as Hterm.
  { intros e He. apply (terminal_restored p t Hrq op Htop); [done..|by destruct op|done]. }
  case_match; [|case_match; [|done]].
  - rewrite (tp_previous _ _ _ Htop). cbn [unwrap ok_or mbind result_bind].
    assert (restored p (ss_epoch p) = p) as Hre by by destruct p. pose proof (Hterm _ (or_introl eq_refl)) as Ht'. rewrite Hre in Ht'.
    by rewrite Ht'.
  - rewrite (compensation_topology p t op Htop). cbn [mbind result_bind]. by rewrite Hterm by by right.
Qed.

Lemma ok_decide now : readable op → is_ok (decide_switchover op obs now) = true.
Proof.
  intros Hread. pose proof (wf_topology _ _ _ Hwf) as Htop. unfold decide_switchover.
  rewrite (topology_valid p t op Hrq Htop). cbn [mbind result_bind]. case_match eqn:Hterm; [done|].
  apply orb_false_iff in Hterm as [Hnc%bool_decide_eq_false Hnp%bool_decide_eq_false].
  assert (quiet_phase (op_phase op) = true → op_pending_action op = None) as Hquiet.
  { intros Hq. destruct (op_pending_action op) as [pa|] eqn:Hpa; [|done].
    destruct (wf_pending _ _ _ Hwf _ Hpa) as (b & Hb & _). destruct (op_phase op); done. }
  case_bool_decide as Hf; [apply ok_failed; [done|apply Hquiet; by rewrite Hf]|].
  destruct (op_pending_action op) as [pa|] eqn:Hpa.
  { destruct (wf_pending _ _ _ Hwf _ Hpa) as (b & Hb & _ & Hv). rewrite Hv. cbn [mbind result_bind]. by eapply ok_pending. }
  unfold decide_phase. pose proof (wf_phase _ _ _ Hwf) as Hphase. pose proof (wf_frozen _ _ _ Hwf) as Hfr.
  destruct (op_phase op) eqn:Hph; try (destruct Hphase as [[? ?]|?]; discriminate); try done;
    try (eapply ok_schedule; [by rewrite Hph|by rewrite Hph]).
  - unfold decide_capture. rewrite (tp_old_id _ _ _ Htop). destruct (obs !! _); [|done].
    rewrite (expect_topology p t op Htop). cbn [mbind result_bind]. destruct (request_old p t Hrq) as [m ->]. cbn. by repeat case_match.
  - unfold decide_pre_catch_up. rewrite (tp_target_id _ _ _ Htop). destruct (obs !! _); [|done].
    rewrite (expect_topology p t op Htop). cbn [mbind result_bind]. rewrite (request_target p t Hrq). cbn.
    destruct Hfr as [lsn ->]; [done|]. cbn. by repeat case_match.
  - rewrite (topology_distribution _ _ _ Htop). cbn [mbind result_bind]. by eapply ok_distribute; rewrite Hph.
  - rewrite (tp_target _ _ _ Htop). apply ok_finalize. rewrite <-(tp_target _ _ _ Htop). by apply (terminal_target op).
  - rewrite (topology_compensation_distribution _ _ _ Htop). cbn [mbind result_bind]. by eapply ok_distribute; rewrite Hph.
  - rewrite (compensation_topology _ _ _ Htop). cbn [mbind result_bind]. apply ok_finalize.
    apply (terminal_restored p t Hrq op Htop); [done|done|by destruct op|by right].
Qed.
End answers.

(** C26. A switchover ends: over every run its decisions persist at most
    26 (n + 1) + 1 checkpoints for n members. When the members answer as
    themselves and the deadlines of the checkpoint have passed, a turn never
    waits and never acts: it completes, or it persists a checkpoint with
    strictly less left to do; so 26 (n + 1) + 1 such turns reach a completion
    or a poisoned operation. *)
Theorem switchover_terminates trace op obs now :
  run p t trace op →
  persists trace ≤ 26 * (members_count + 1) + 1 ∧ 0 ≤ measure op ≤ 26 * (members_count + 1) + 1 ∧
  (op_phase op ≠ Phase.Completed → op_phase op ≠ Phase.Poisoned →
   answering obs → readable op → op_phase_deadline_unix_seconds op ≤ now →
   (∀ pa, op_pending_action op = Some pa → pa_deadline_unix_seconds pa ≤ now) →
   match decide_switchover op obs now with
   | Ok (Persist next) => measure next < measure op
   | Ok (Complete final _ _) => op_phase final = Phase.Completed ∨ op_phase final = Phase.Failed
   | _ => False
   end).
Proof.
  intros Hrun. pose proof (run_wf p t Ht Hsize trace op Hrun) as Hwf. pose proof (run_request p t Ht Hsize trace op Hrun) as Hrq.
  pose proof (run_measure trace op Hrun) as Hm. pose proof (remaining_bounds op Hwf). pose proof (rank_nonneg (op_phase op)).
  assert (0 ≤ measure op) by (unfold measure, members_count in *; case_match; nia).
  assert (0 ≤ persists trace) by (unfold persists; lia). unfold measure_bound in Hm.
  split; [lia|]. split; [lia|]. intros Hnc Hnp Hans Hread Hdl Hpdl.
  pose proof (run_outcome p t Ht Hsize trace op obs now Hrun) as Hout. pose proof (ok_decide op obs Hwf Hans Hrq now Hread) as Hok.
  inversion Hout as [next Hst Heq|pa act Hpa _ Hlt|pa m role Hpa _ Hlt|Hw|Hpend Hph _|Hpend Hph _|epoch o Hph|m Heq]; subst.
  - by eapply step_measure.
  - specialize (Hpdl pa Hpa). lia.
  - specialize (Hpdl pa Hpa). lia.
  - destruct Hw as [?|[?|[(pa & Hpa & Hlt)|(_ & _ & Hlt)]]]; [done|done| |lia]. specialize (Hpdl pa Hpa). lia.
  - by left.
  - by right.
  - by right.
  - by rewrite <-Heq in Hok.
Qed.
End ends.
