(* ===== verification/SwitchoverDemo.v ===== *)
(** A switchover of three replicas, played: the instances on which the
    theorems about switchovers are applied, and a revocation whose deadline
    passes. *)

From S2P Require Import Prelude Types Lifecycle Control Agent RemoveReplica Proto Convert Crd Operation Switchover SwitchoverSteps Effects SwitchoverRuns SwitchoverEnds.

Set Default Goal Selector "!".

Module DemoSwitchover.
#[local] Existing Instance DemoRemove.ends.
#[global] Instance codec : PayloadCodec := mkPayloadCodec (λ _, [Byte.x2a]) (λ _, Err "no message").

Definition member (id : Z) (uid : string) (role : StableReplicaRoleStatus) : StableReplicaSnapshotStatus :=
  mkStableReplicaSnapshotStatus id uid role None.
Definition target : StableReplicaSnapshotStatus := member 2 "u2" StableActiveSecondary.
Definition topology3 : StablePartitionSnapshotStatus := mkStablePartitionSnapshotStatus (mkEpochStatus 1 5) 1
  [member 1 "u1" StablePrimary; target; member 3 "u3" StableActiveSecondary] 2.

Definition waited : CorrelatedActionObservation := mkCorrelatedActionObservation "g" 1
  (mkDurableActionObservation "set:switchover:v1:1-5:2:execution-1:1001:WaitForCatchUpQuorum" "wait-for-catch-up:Write"
     Completed None None None None None).
Definition replica (id : Z) (uid : string) (role : Role) (epoch : Epoch) (access : AccessStatus)
    (configuration : option ReplicaConfigurationStatus) (label : string) : ReplicaObservation :=
  mkReplicaObservation
    (mkReplicaStatusInfo uid role epoch 7 None 7 true access configuration None None [] None
       (mkReplicaAgentStatus 3 1 "g" 1 None [waited] []))
    "control" "replicator" ("pod-" +:+ uid) (Some label).

Definition before : Epoch := mkEpoch 1 5.
Definition after : Epoch := mkEpoch 1 6.
Definition three (a b c : ReplicaObservation) : OperationObservations := <[1 := a]> (<[2 := b]> (<[3 := c]> ∅)).
Definition third (epoch : Epoch) : ReplicaObservation := replica 3 "u3" ActiveSecondary epoch StNotPrimary None "secondary".

Definition serving : OperationObservations :=
  three (replica 1 "u1" Primary before Granted None "primary")
    (replica 2 "u2" ActiveSecondary before StNotPrimary None "secondary") (third before).
Definition revoked : OperationObservations :=
  three (replica 1 "u1" Primary before StReconfigurationPending None "primary")
    (replica 2 "u2" ActiveSecondary before StNotPrimary None "secondary") (third before).
Definition demoted : OperationObservations :=
  three (replica 1 "u1" ActiveSecondary after StNotPrimary None "primary")
    (replica 2 "u2" ActiveSecondary before StNotPrimary None "secondary") (third before).
Definition promoted (configuration : option ReplicaConfigurationStatus) (l1 l2 : string) (e : Epoch) : OperationObservations :=
  three (replica 1 "u1" ActiveSecondary after StNotPrimary None l1)
    (replica 2 "u2" Primary after StReconfigurationPending configuration l2) (third e).
Definition installed_as (mode : ReplicaConfigurationMode) : option ReplicaConfigurationStatus :=
  Some (mkReplicaConfigurationStatus mode [mkReplicaConfigurationMemberStatus 1 "u1" ActiveSecondary;
    mkReplicaConfigurationMemberStatus 3 "u3" ActiveSecondary] 2).

Definition start : DurableOperationStatus :=
  match start_switchover "set" topology3 2 100 with Ok op => op | Err _ => mkDurableOperationStatus "" "" 0 OpSwitchover
    Phase.Poisoned None topology3 None None 0 0 None None None None None None None None None None 0 0 None None None None None None None None end.

Definition to_promotion : list (OperationObservations * Z) :=
  (λ o, (o, 101)) <$> [serving; serving; revoked; revoked; revoked; revoked; revoked; demoted; demoted].
Definition to_finalize : list (OperationObservations * Z) :=
  to_promotion ++ ((λ o, (o, 102)) <$>
    [demoted; promoted None "primary" "secondary" before; promoted None "primary" "secondary" before;
     promoted None "primary" "secondary" after; promoted None "primary" "secondary" after;
     promoted None "primary" "secondary" after; promoted None "primary" "secondary" after;
     promoted (installed_as CatchUp) "primary" "secondary" after; promoted (installed_as CatchUp) "primary" "secondary" after;
     promoted (installed_as CatchUp) "primary" "secondary" after; promoted (installed_as CatchUp) "primary" "secondary" after;
     promoted (installed_as CatchUp) "primary" "secondary" after;
     promoted (installed_as Current) "primary" "secondary" after; promoted (installed_as Current) "primary" "secondary" after;
     promoted (installed_as Current) "primary" "primary" after; promoted (installed_as Current) "primary" "primary" after;
     promoted (installed_as Current) "secondary" "primary" after]).
Definition finished : OperationObservations := promoted (installed_as Current) "secondary" "primary" after.

Definition played (turns : list (OperationObservations * Z)) : list turn * DurableOperationStatus :=
  match play turns [] start with Ok r => r | Err _ => ([], start) end.

(** The agent of the old primary, still revoking. *)
Definition revoking : OperationObservations :=
  <[1 := mkReplicaObservation
     (mkReplicaStatusInfo "u1" Primary before 7 None 7 true Granted None None None [] None
        (mkReplicaAgentStatus 3 1 "g" 1 (Some (mkCorrelatedActionObservation "g" 1
           (mkDurableActionObservation "set:switchover:v1:1-5:2:execution-1:1:RevokeWrite" "revoke-write-status"
              InProgress None None None None None))) [] []))
     "control" "replicator" "pod-u1" (Some "primary")]> serving.
Definition to_failure : list (OperationObservations * Z) := [(serving, 101); (revoking, 200)].
End DemoSwitchover.

Section played.
#[local] Existing Instance DemoRemove.ends.
Import DemoSwitchover.

Lemma started : start_switchover "set" topology3 (srs_id target) 100 = Ok start.
Proof. vm_compute. reflexivity. Qed.

Lemma played_run turns : is_ok (play turns [] start) = true → run topology3 target (played turns).1 (played turns).2.
Proof.
  unfold played. destruct (play turns [] start) as [[tr op]|] eqn:Hp; [|discriminate]. intros _.
  eapply play_run; [|exact Hp]. eapply run_start, started.
Qed.

Lemma target_member : target ∈ ss_members topology3.
Proof. right. left. Qed.
Lemma small : Z.of_nat (length (ss_members topology3)) ≤ u32_max.
Proof. vm_compute. discriminate. Qed.

Lemma switchover_invariant_witness :
  let op := (played to_promotion).2 in
  run topology3 target (played to_promotion).1 op ∧ wf_operation topology3 target op ∧
  panics (decide_switchover op demoted 101) = false.
Proof.
  assert (run topology3 target (played to_promotion).1 (played to_promotion).2) as Hrun
    by (apply played_run; vm_compute; reflexivity).
  split; [exact Hrun|].
  pose proof (switchover_invariant topology3 target target_member small _ _ demoted 101 Hrun) as (Hwf & _ & Hp & _). by split.
Defined.

Lemma promotion_order_witness :
  (∃ lsn, demoted_in topology3 target (demote_id (played to_promotion).2) lsn (played to_promotion).1) ∧
  (∃ lsn, promoted_in topology3 target (demote_id (played to_finalize).2) (promote_id (played to_finalize).2) lsn
     (played to_finalize).1).
Proof.
  split.
  - destruct (decide_switchover (played to_promotion).2 demoted 101) as [d|e] eqn:Hd; [|vm_compute in Hd; discriminate Hd].
    assert (d = Execute 2 (promote_id (played to_promotion).2) (ActChangeRole after Primary)) as ->
      by (vm_compute in Hd; injection Hd as <-; vm_compute; reflexivity).
    assert (run topology3 target (played to_promotion).1 (played to_promotion).2) as Hrun
      by (apply played_run; vm_compute; reflexivity).
    destruct (promotion_order topology3 target target_member small _ _ demoted 101 Hrun) as [Hex _].
    destruct (Hex _ _ _ Hd eq_refl) as (_ & _ & lsn & _ & H). by exists lsn.
  - destruct (decide_switchover (played to_finalize).2 finished 102) as [d|e] eqn:Hd; [|vm_compute in Hd; discriminate Hd].
    assert (∃ final snapshot, d = Complete final snapshot false) as (final & snapshot & ->)
      by (vm_compute in Hd; injection Hd as <-; by eexists _, _).
    assert (run topology3 target (played to_finalize).1 (played to_finalize).2) as Hrun
      by (apply played_run; vm_compute; reflexivity).
    destruct (promotion_order topology3 target target_member small _ _ finished 102 Hrun) as [_ Hc].
    destruct (Hc _ _ Hd) as (lsn & _ & H). by exists lsn.
Defined.

Lemma one_writer_witness : ∃ id, (∀ id', id' ∈ writers (played to_finalize).1 → id' = id) ∧ writers (played to_finalize).1 ≠ [].
Proof.
  assert (run topology3 target (played to_finalize).1 (played to_finalize).2) as Hrun
    by (apply played_run; vm_compute; reflexivity).
  destruct (one_writer topology3 target target_member small _ _ Hrun) as [[id Hid] _]. exists id. split; [exact Hid|].
  vm_compute. discriminate.
Defined.

Lemma completion_attested_witness : attested (switched topology3 (srs_id target)) finished.
Proof.
  destruct (decide_switchover (played to_finalize).2 finished 102) as [d|e] eqn:Hd; [|vm_compute in Hd; discriminate Hd].
  assert (∃ final snapshot, d = Complete final snapshot false) as (final & snapshot & ->)
    by (vm_compute in Hd; injection Hd as <-; by eexists _, _).
  assert (run topology3 target (played to_finalize).1 (played to_finalize).2) as Hrun
    by (apply played_run; vm_compute; reflexivity).
  destruct (completion_attested topology3 target target_member small _ _ finished 102 _ _ _ Hrun Hd) as [_ [(_ & -> & H)|(Hf & _)]];
    [exact H|discriminate Hf].
Defined.

Lemma switchover_terminates_witness :
  0 ≤ measure topology3 target (played to_promotion).2 ≤ 105 ∧
  match decide_switchover (played to_promotion).2 demoted 500 with
  | Ok (Persist next) => measure topology3 target next < measure topology3 target (played to_promotion).2
  | _ => False
  end.
Proof.
  assert (run topology3 target (played to_promotion).1 (played to_promotion).2) as Hrun
    by (apply played_run; vm_compute; reflexivity).
  destruct (switchover_terminates topology3 target target_member small _ _ demoted 500 Hrun) as (_ & Hm & Hnext).
  split; [exact Hm|].
  assert (answering topology3 demoted) as Hans.
  { intros m Hm'. apply list_elem_of_In in Hm'.
    destruct Hm' as [<-|[<-|[<-|[]]]]; eexists; (split; [reflexivity|reflexivity]). }
  assert (readable (played to_promotion).2) as Hread.
  { intros pa Hpa. left. vm_compute in Hpa. injection Hpa as <-. reflexivity. }
  assert (∀ pa, op_pending_action (played to_promotion).2 = Some pa → pa_deadline_unix_seconds pa ≤ 500) as Hdl.
  { intros pa Hpa. vm_compute in Hpa. injection Hpa as <-. vm_compute. discriminate. }
  specialize (Hnext ltac:(vm_compute; discriminate) ltac:(vm_compute; discriminate) Hans Hread ltac:(vm_compute; discriminate) Hdl).
  destruct (decide_switchover (played to_promotion).2 demoted 500) as [d|e] eqn:Hd; [|destruct Hnext].
  destruct d; try (exfalso; vm_compute in Hd; discriminate Hd). exact Hnext.
Defined.

(** A switchover given up in its first phase can leave the partition
    without a writer. When the revocation has not been observed done by its
    deadline the switchover fails and completes as compensated: there is a run
    whose last turn publishes the previous topology, its old primary Primary
    at the previous epoch and refusing writes, and no turn of the run sent
    anything but the revocation. *)
Theorem revocation_left_in_force :
  ∃ trace op final old,
    run topology3 target trace op ∧ decide_switchover op revoked 201 = Ok (Complete final topology3 true) ∧
    op_phase final = Phase.Failed ∧
    revoked !! ss_primary_id topology3 = Some old ∧ si_instance_id (ro_status old) = "u1" ∧
    holds Primary before (ro_status old) = true ∧ writes StReconfigurationPending (ro_status old) = true ∧
    writers trace = [].
Proof.
  exists (played to_failure).1, (played to_failure).2.
  destruct (decide_switchover (played to_failure).2 revoked 201) as [d|e] eqn:Hd; [|vm_compute in Hd; discriminate Hd].
  assert (∃ final, d = Complete final topology3 true ∧ op_phase final = Phase.Failed) as (final & -> & Hf)
    by (vm_compute in Hd; injection Hd as <-; by eexists).
  eexists final, _. split; [apply played_run; vm_compute; reflexivity|]. split; [done|]. split; [done|].
  split; [vm_compute; reflexivity|]. by repeat split.
Qed.
End played.
