(* ===== verification/Failover.v ===== *)
(** The failover machine (kuberic-operator/src/durable/failover.rs): the
    operation a failed primary starts, the observations it records, the
    election it feeds ([Election]), and what one reconcile decides from the
    checkpoint and the live observations. *)

From S2P Require Import Prelude Types Lifecycle Control Proto Convert Crd Operation Election.

Set Default Goal Selector "!".

Definition DATA_LOSS_ACTION_DEADLINE_SECONDS : Z := 60.

Definition failover_ref (operation : DurableOperationStatus) : result failure DurableFailoverStatus :=
  or_fail (op_failover operation) "failover operation has no failover checkpoint".

(** [next.failover_mut()?] and the assignments through it. *)
Definition failover_mut (f : DurableFailoverStatus → DurableFailoverStatus) (operation : DurableOperationStatus) :
    result failure DurableOperationStatus :=
  failover ← failover_ref operation; Ok (operation <| op_failover := Some (f failover) |>).

Definition with_phase (phase : Phase.DurableOperationPhase) (now : Z) (operation : DurableOperationStatus) :
    DurableOperationStatus :=
  operation <| op_phase := phase |> <| op_pending_action := None |>
    <| op_phase_deadline_unix_seconds := i64_add now ACTION_DEADLINE_SECONDS |>.

(** [next.phase = phase; next.phase_deadline_unix_seconds = now + ...]. *)
Definition move_to (phase : Phase.DurableOperationPhase) (now : Z) (operation : DurableOperationStatus) :
    DurableOperationStatus :=
  operation <| op_phase := phase |> <| op_phase_deadline_unix_seconds := i64_add now ACTION_DEADLINE_SECONDS |>.

(** ** Names of roles *)

Definition role_name (r : Role) : string :=
  match r with
  | Unknown => "unknown" | Primary => "primary" | ActiveSecondary => "activeSecondary"
  | IdleSecondary => "idleSecondary" | RoleNone => "none"
  end.

Definition parse_role (s : string) : Role :=
  if bool_decide (s = "primary") then Primary
  else if bool_decide (s = "activeSecondary") then ActiveSecondary
  else if bool_decide (s = "idleSecondary") then IdleSecondary
  else if bool_decide (s = "none") then RoleNone
  else Unknown.

(** ** Checks *)

Definition validate_failover_snapshot (snapshot : StablePartitionSnapshotStatus) : result failure unit :=
  lift (map_err (λ e, "invalid stable snapshot: " +:+ e) (snapshot_try_from_status snapshot));; Ok tt.

Definition validate_failover_operation (operation : DurableOperationStatus) : result failure unit :=
  fail_if (negb (op_version operation =? DURABLE_OPERATION_VERSION))
    ("unsupported durable operation version " +:+ pretty (op_version operation));;
  fail_if (negb (bool_decide (op_kind operation = OpFailover))) "operation is not failover";;
  failover ← failover_ref operation;
  previous ← or_fail (op_previous_snapshot operation) "failover has no previous stable snapshot";
  validate_failover_snapshot previous;;
  if fo_target_confirmed failover then validate_failover_snapshot (op_target_snapshot operation) else Ok tt.

(** ** Starting *)

Definition start_failover (set_identity : string) (previous_snapshot : StablePartitionSnapshotStatus)
    (failed_primary_id : Z) (minimum_committed_replicas : nat) (now : Z) : result failure DurableOperationStatus :=
  validate_failover_snapshot previous_snapshot;;
  fail_if (negb (ss_primary_id previous_snapshot =? failed_primary_id))
    ("failed primary " +:+ pretty failed_primary_id +:+ " differs from stable primary " +:+
     pretty (ss_primary_id previous_snapshot));;
  let current_configuration := mkFailoverConfigurationStatus
    ((λ member, mkFailoverMemberStatus (srs_id member) (srs_instance_id member) (srs_role member)
        (srs_id member =? failed_primary_id) (srs_election_metadata member)) <$> ss_members previous_snapshot)
    (ss_write_quorum previous_snapshot) in
  let operation_id := "failover:" +:+ set_identity +:+ ":" +:+
    pretty (es_data_loss_number (ss_epoch previous_snapshot)) +:+ ":" +:+
    pretty (es_configuration_number (ss_epoch previous_snapshot)) +:+ ":" +:+ pretty failed_primary_id in
  Ok {|
    op_operation_id := operation_id;
    op_execution_id := operation_id +:+ ":execution";
    op_version := DURABLE_OPERATION_VERSION;
    op_kind := OpFailover;
    op_phase := Phase.FailoverRecordStartingConfiguration;
    op_previous_snapshot := Some previous_snapshot;
    op_target_snapshot := previous_snapshot;
    op_committed_snapshot := None;
    op_minimum_committed_replicas := Some (as_u32 (Nat.max minimum_committed_replicas 1));
    op_old_primary_id := failed_primary_id;
    op_target_primary_id := failed_primary_id;
    op_add_mode := None;
    op_remove_mode := None;
    op_target_replica_id := None;
    op_target_instance_id := None;
    op_target_pod_name := None;
    op_target_pod_uid := None;
    op_remove_target_replicator_address := None;
    op_remove_target_agent_generation := None;
    op_retired_instance_id := None;
    op_frozen_lsn := None;
    op_next_secondary_index := 0;
    op_phase_deadline_unix_seconds := i64_add now ACTION_DEADLINE_SECONDS;
    op_pending_action := None;
    op_last_error := None;
    op_failover := Some {|
      fo_previous_configuration := None;
      fo_current_configuration := current_configuration;
      fo_observations := [];
      fo_unavailable_replicas := [];
      fo_final_attestations := [];
      fo_target_confirmed := false;
      fo_data_loss_required := false;
      fo_configuration_epoch_intent := None;
      fo_data_loss_epoch_intent := None;
      fo_data_loss_result := None;
      fo_next_configuration_index := 0;
      fo_next_secondary_index := 0;
      fo_next_label_index := 0;
      fo_next_attestation_index := 0;
      fo_next_unavailable_index := 0;
      fo_assessment := None;
      fo_promotion_committed := false |};
    op_add_intent := None;
    op_remove_intent := None;
    op_remove_commit_evidence := None;
    op_remove_cleanup := None;
    op_removal_disposition := None |}.

(** ** Configurations *)

Definition configuration_member (id : Z) (instance : string) (role : StableReplicaRoleStatus) :
    ReplicaConfigurationMemberStatus :=
  mkReplicaConfigurationMemberStatus id instance (stable_role role).

Definition runtime_configuration (configuration : FailoverConfigurationStatus) (catch_up : bool) :
    ReplicaConfigurationStatus :=
  mkReplicaConfigurationStatus (if catch_up then CatchUp else Current)
    ((λ m, configuration_member (fms_id m) (fms_instance_id m) (fms_role m)) <$> fcs_members configuration)
    (fcs_write_quorum configuration).

Definition snapshot_configuration (mode : ReplicaConfigurationMode) (snapshot : StablePartitionSnapshotStatus) :
    ReplicaConfigurationStatus :=
  mkReplicaConfigurationStatus mode
    ((λ m, configuration_member (srs_id m) (srs_instance_id m) (srs_role m)) <$> ss_members snapshot)
    (ss_write_quorum snapshot).

Definition configuration_status_equal (left right : ReplicaConfigurationStatus) : bool :=
  bool_decide (cs_mode left = cs_mode right) && (cs_write_quorum left =? cs_write_quorum right) &&
  bool_decide (sort_by_key cm_id (cs_members left) = sort_by_key cm_id (cs_members right)).

Definition failover_election_configuration (operation : DurableOperationStatus) :
    result failure ReplicaElectionConfiguration :=
  failover ← failover_ref operation;
  Ok (mkReplicaElectionConfiguration
    ((λ c, runtime_configuration c true) <$> fo_previous_configuration failover)
    (runtime_configuration (fo_current_configuration failover) false)).

Definition target_election_configuration (operation : DurableOperationStatus) : ReplicaElectionConfiguration :=
  mkReplicaElectionConfiguration None (snapshot_configuration Current (op_target_snapshot operation)).

Definition runtime_configuration_matches (observed : option ReplicaElectionConfiguration)
    (failover : DurableFailoverStatus) : bool :=
  match observed with
  | None => false
  | Some observed =>
      configuration_status_equal (ec_current observed) (runtime_configuration (fo_current_configuration failover) false) &&
      match ec_previous observed, fo_previous_configuration failover with
      | None, None => true
      | Some observed, Some expected => configuration_status_equal observed (runtime_configuration expected true)
      | _, _ => false
      end
  end.

Definition target_runtime_configuration_matches (observed : option ReplicaElectionConfiguration)
    (target : StablePartitionSnapshotStatus) : bool :=
  match observed with
  | None => false
  | Some observed =>
      none (ec_previous observed) &&
      configuration_status_equal (ec_current observed) (snapshot_configuration Current target)
  end.

Definition configuration_matches_target (configuration : ReplicaConfigurationStatus) (operation : DurableOperationStatus) :
    bool :=
  configuration_status_equal configuration (snapshot_configuration (cs_mode configuration) (op_target_snapshot operation)).

(** What the action and the dispatch use of a replica's handle. *)
Record FailoverHandle := mkFailoverHandle { fh_instance_id : ReplicaInstanceId; fh_replicator_address : string }.
Abbreviation FailoverHandles := (gmap Z FailoverHandle) (only parsing).

Definition snapshot_config (snapshot : StablePartitionSnapshotStatus) (handles : FailoverHandles) (must_catch_up : bool) :
    result failure ReplicaSetConfig :=
  members ← try_map (λ member,
      handle ← or_fail (handles !! srs_id member) ("replica " +:+ pretty (srs_id member) +:+ " has no current handle");
      Ok (mkReplicaInfo (srs_id member) (srs_instance_id member) (stable_role (srs_role member)) Up
        (fh_replicator_address handle)
        (match srs_election_metadata member with Some m => sm_current_lsn m | None => 0 end)
        (match srs_election_metadata member with Some m => sm_first_retained_lsn m | None => 0 end)
        (must_catch_up && negb (srs_id member =? ss_primary_id snapshot)))) (ss_members snapshot);
  Ok (mkReplicaSetConfig members (ss_write_quorum snapshot)).

Definition failover_target_config (operation : DurableOperationStatus) (handles : FailoverHandles) (must_catch_up : bool) :
    result failure ReplicaSetConfig :=
  snapshot_config (op_target_snapshot operation) handles must_catch_up.

Definition committed_config (operation : DurableOperationStatus) (handles : FailoverHandles) :
    result failure ReplicaSetConfig :=
  snapshot ← or_fail (op_committed_snapshot operation) "failover has no committed promotion snapshot";
  snapshot_config snapshot handles false.

Definition primary_only_snapshot (snapshot : StablePartitionSnapshotStatus) : result failure StablePartitionSnapshotStatus :=
  primary ← or_fail (List.find (λ m, srs_id m =? ss_primary_id snapshot) (ss_members snapshot)) "target primary is absent";
  Ok (mkStablePartitionSnapshotStatus (ss_epoch snapshot) (ss_primary_id snapshot)
    [primary <| srs_role := StablePrimary |>] 1).

(** ** Actions *)

Definition placeholder_action (operation : DurableOperationStatus) (pending : PendingActionStatus) :
    result failure DurableReplicaAction :=
  match pa_kind pending with
  | Action.FailoverRecordStartingConfiguration =>
      configuration ← failover_election_configuration operation; Ok (ActRecordElectionConfiguration configuration)
  | Action.FailoverRecordElectionConfiguration =>
      Ok (ActRecordElectionConfiguration (target_election_configuration operation))
  | Action.FailoverUpdateCandidateEpoch | Action.FailoverUpdateSecondaryEpoch =>
      Ok (ActUpdateEpoch (to_epoch (pa_expected_epoch pending)))
  | Action.FailoverOnDataLoss => Ok (ActOnDataLoss (to_epoch (pa_expected_epoch pending)))
  | Action.FailoverPromoteCandidate => Ok (ActChangeRole (to_epoch (pa_expected_epoch pending)) Primary)
  | Action.FailoverWaitForCatchUpQuorum => Ok (ActWaitForCatchUpQuorum QuorumWrite)
  | kind => error ("action " +:+ Action.debug kind +:+ " requires live replica addresses")
  end.

Definition failover_action_for (operation : DurableOperationStatus) (pending : PendingActionStatus)
    (handles : FailoverHandles) : result failure DurableReplicaAction :=
  let target_epoch := to_epoch (pa_expected_epoch pending) in
  match pa_kind pending with
  | Action.FailoverRecordStartingConfiguration =>
      configuration ← failover_election_configuration operation; Ok (ActRecordElectionConfiguration configuration)
  | Action.FailoverRecordElectionConfiguration =>
      Ok (ActRecordElectionConfiguration (target_election_configuration operation))
  | Action.FailoverUpdateCandidateEpoch | Action.FailoverUpdateSecondaryEpoch => Ok (ActUpdateEpoch target_epoch)
  | Action.FailoverOnDataLoss => Ok (ActOnDataLoss target_epoch)
  | Action.FailoverPromoteCandidate => Ok (ActChangeRole target_epoch Primary)
  | Action.FailoverCatchUpConfiguration =>
      current ← failover_target_config operation handles false;
      previous ← committed_config operation handles;
      Ok (ActUpdateCatchUpConfiguration current previous)
  | Action.FailoverWaitForCatchUpQuorum => Ok (ActWaitForCatchUpQuorum QuorumWrite)
  | Action.FailoverCurrentConfiguration =>
      current ← failover_target_config operation handles false; Ok (ActUpdateCurrentConfiguration current)
  | kind => error ("unsupported failover action " +:+ Action.debug kind)
  end.

Definition failover_pending_label (operation : DurableOperationStatus) : option (Z * string) :=
  pending ← op_pending_action operation;
  if bool_decide (pa_kind pending = Action.FailoverLabelMember)
  then Some (pa_target_id pending,
             if pa_target_id pending =? op_target_primary_id operation then "primary" else "secondary")
  else None.

(** ** Pending actions *)

Definition member_list {A} (id : A → Z) (instance : A → string) (l : list A) : string :=
  String.concat "," ((λ m, pretty (id m) +:+ "@" +:+ instance m) <$> l).

Definition action_scope (operation : DurableOperationStatus) : string :=
  let current := match op_failover operation with
    | Some failover => member_list fms_id fms_instance_id (fcs_members (fo_current_configuration failover))
    | None => ""
    end in
  "current[" +:+ current +:+ "]-target[" +:+
  member_list srs_id srs_instance_id (ss_members (op_target_snapshot operation)) +:+ "]".

Definition target_instance (operation : DurableOperationStatus) (target_id : Z) : option string :=
  let current := failover ← op_failover operation;
    fms_instance_id <$> List.find (λ m, fms_id m =? target_id) (fcs_members (fo_current_configuration failover)) in
  match current with
  | Some instance => Some instance
  | None => srs_instance_id <$> List.find (λ m, srs_id m =? target_id) (ss_members (op_target_snapshot operation))
  end.

Definition pending_sequence (operation : DurableOperationStatus) : Z :=
  u32_saturating_add
    (match op_pending_action operation with Some pending => u32_saturating_add (pa_sequence pending) 1 | None => 0 end)
    (match op_failover operation with
     | Some failover => u32_add (u32_add (fo_next_configuration_index failover) (fo_next_secondary_index failover))
                          (fo_next_label_index failover)
     | None => 0
     end).

Definition make_pending (operation : DurableOperationStatus) (kind : Action.DurableActionKind) (target_id : Z)
    (postcondition : DurablePostconditionKind) (role : option StableReplicaRoleStatus) (now : Z) : PendingActionStatus :=
  let sequence := pending_sequence operation in
  {|
    pa_action_id := op_operation_id operation +:+ ":" +:+ Action.debug kind +:+ ":" +:+ action_scope operation +:+ ":" +:+
      pretty target_id +:+ ":" +:+ pretty sequence;
    pa_sequence := sequence;
    pa_kind := kind;
    pa_target_id := target_id;
    pa_target_instance_id := default "" (target_instance operation target_id);
    pa_expected_epoch := ss_epoch (op_target_snapshot operation);
    pa_desired_postcondition := mkDurablePostconditionStatus postcondition role;
    pa_attempts := 0;
    pa_deadline_unix_seconds := i64_add now
      (if bool_decide (kind = Action.FailoverOnDataLoss) then DATA_LOSS_ACTION_DEADLINE_SECONDS else ACTION_DEADLINE_SECONDS);
    pa_last_error := None;
    pa_dispatch_authorized := false;
    pa_dispatch_agent_generation := None;
    pa_dispatch_agent_control_version := None;
    pa_dispatch_observed_runtime_epoch := None;
    pa_dispatch_action_payload := "" |}.

(** ** Election input *)

Definition election_configuration_status (configuration : FailoverConfigurationStatus) : ElectionConfiguration :=
  mkElectionConfiguration
    ((λ m, mkElectionMember (fms_id m) (fms_instance_id m) (stable_role (fms_role m)) (fms_dropped m)
        (to_metadata <$> fms_last_known m)) <$> fcs_members configuration)
    (fcs_write_quorum configuration).

Definition election_observation (operation : DurableOperationStatus) (o : ReplicaElectionObservationStatus) :
    result failure ElectionObservation :=
  configuration ← (if eos_configuration_matches o
                   then Some <$> failover_election_configuration operation else Ok None);
  Ok (mkElectionObservation (eos_instance_id o) (to_epoch (eos_epoch o)) (parse_role (eos_role o)) (eos_healthy o)
    (eos_current_lsn o) (eos_committed_lsn o) (eos_first_retained_lsn o)
    ((λ e, mkReplicaDeactivationInfo (to_epoch e) (default 0 (eos_deactivation_catch_up_lsn o))) <$>
       eos_deactivation_epoch o)
    configuration).

(** [required_catch_up_lsn]: the latest deactivation the accepted replicas
    report, else their latest commit. *)
Definition required_lsn (accepted : list ElectionObservation) : Z :=
  match max_by Z.compare (omap (λ o, di_catch_up_lsn <$> ob_deactivation o) accepted) with
  | Some lsn => lsn
  | None => default 0 (max_by Z.compare (ob_committed_lsn <$> accepted))
  end.

Definition election_input (operation : DurableOperationStatus) : result failure ElectionInput :=
  failover ← failover_ref operation;
  let current := election_configuration_status (fo_current_configuration failover) in
  let previous := election_configuration_status <$> fo_previous_configuration failover in
  previous_snapshot ← or_fail (op_previous_snapshot operation) "failover has no previous snapshot";
  observations ← try_map (λ o, observation ← election_observation operation o; Ok (eos_id o, observation))
    (fo_observations failover);
  let input := mkElectionInput (to_epoch (ss_epoch previous_snapshot)) (op_old_primary_id operation) 0 previous current
    (foldl (λ (m : gmap Z ElectionObservation) p, <[p.1 := p.2]> m) ∅ observations) in
  Ok (mkElectionInput (Election.expected_epoch input) (failed_primary_id input)
    (required_lsn (btree_values (accepted_observations input)))
    (in_previous input) (in_current input) (Election.observations input)).

(** ** Recording observations *)

(** The members that are not dropped, the current configuration's over the
    previous one's, by identity. *)
Definition configured_members (failover : DurableFailoverStatus) : gmap Z FailoverMemberStatus :=
  let insert_all := foldl (λ (m : gmap Z FailoverMemberStatus) member,
    if fms_dropped member then m else <[fms_id member := member]> m) in
  insert_all (insert_all ∅ (match fo_previous_configuration failover with Some c => fcs_members c | None => [] end))
    (fcs_members (fo_current_configuration failover)).

Definition observed_ids (l : list ReplicaElectionObservationStatus) (id : Z) : bool :=
  existsb (λ o, eos_id o =? id) l.

Definition collection_complete (operation : DurableOperationStatus) : bool :=
  match op_failover operation with
  | None => false
  | Some failover =>
      forallb (λ member, observed_ids (fo_observations failover) (fms_id member)
                         || bool_decide (fms_id member ∈ fo_unavailable_replicas failover))
        (btree_values (configured_members failover))
  end.

Definition final_attestation_complete (operation : DurableOperationStatus) : bool :=
  match op_failover operation with
  | None => false
  | Some failover => forallb (λ m, observed_ids (fo_final_attestations failover) (srs_id m))
                       (ss_members (op_target_snapshot operation))
  end.

(** [target.retain(...); target.push(...); target.sort_by_key(...)]. *)
Definition replace_observation (o : ReplicaElectionObservationStatus) (l : list ReplicaElectionObservationStatus) :
    list ReplicaElectionObservationStatus :=
  sort_by_key eos_id (filter (λ existing, eos_id existing ≠ eos_id o) l ++ [o]).

Definition observation_status (replica_id : Z) (status : ReplicaStatusInfo) (configuration_matches : bool) :
    ReplicaElectionObservationStatus :=
  mkReplicaElectionObservationStatus replica_id (si_instance_id status) (of_epoch (si_epoch status))
    (role_name (si_role status)) (si_healthy status) (si_current_progress status) (si_committed_lsn status)
    (si_catch_up_capability status) ((λ d, of_epoch (di_epoch d)) <$> si_deactivation_info status)
    (di_catch_up_lsn <$> si_deactivation_info status) configuration_matches.

Definition find_failover_member (failover : DurableFailoverStatus) (id : Z) : option FailoverMemberStatus :=
  match List.find (λ m, fms_id m =? id) (fcs_members (fo_current_configuration failover)) with
  | Some member => Some member
  | None => previous ← fo_previous_configuration failover; List.find (λ m, fms_id m =? id) (fcs_members previous)
  end.

Definition record_observation (operation : DurableOperationStatus) (replica_id : Z) (status : ReplicaStatusInfo)
    (final_attestation : bool) (now : Z) : result failure DurableOperationStatus :=
  failover ← failover_ref operation;
  member ← or_fail (find_failover_member failover replica_id)
    ("replica " +:+ pretty replica_id +:+ " is not in failover configuration");
  let configuration_matches :=
    if final_attestation then target_runtime_configuration_matches (si_election_configuration status) (op_target_snapshot operation)
    else runtime_configuration_matches (si_election_configuration status) failover in
  let observation := observation_status replica_id status configuration_matches in
  fail_if (negb (bool_decide (si_instance_id status = fms_instance_id member)))
    ("replica " +:+ pretty replica_id +:+ " incarnation changed from " +:+ fms_instance_id member +:+ " to " +:+
     si_instance_id status);;
  let failover := (if final_attestation
    then failover <| fo_final_attestations ::= replace_observation observation |>
    else failover <| fo_observations ::= replace_observation observation |>)
    <| fo_unavailable_replicas ::= filter (λ unavailable, unavailable ≠ replica_id) |> in
  let next := operation <| op_failover := Some failover |> in
  let phase :=
    if final_attestation then Phase.FailoverAttest
    else if bool_decide (op_phase operation = Phase.FailoverCollect) && negb (collection_complete next)
    then Phase.FailoverCollect
    else Phase.FailoverAssess in
  Ok (move_to phase now next).

(** The first member with the identity takes the new incarnation. *)
Fixpoint adopt_member (replica_id : Z) (instance_id : string) (l : list FailoverMemberStatus) :
    list FailoverMemberStatus :=
  match l with
  | [] => []
  | m :: l =>
      if fms_id m =? replica_id then m <| fms_instance_id := instance_id |> <| fms_last_known := None |> :: l
      else m :: adopt_member replica_id instance_id l
  end.

Definition adopt_replacement_before_confirmation (operation : DurableOperationStatus) (replica_id : Z)
    (instance_id : string) (now : Z) : result failure DurableOperationStatus :=
  failover ← failover_ref operation;
  fail_if (fo_target_confirmed failover) "cannot adopt replacement after primary confirmation";;
  let adopt c := c <| fcs_members ::= adopt_member replica_id instance_id |> in
  let failover := failover
    <| fo_current_configuration ::= adopt |>
    <| fo_previous_configuration ::= fmap (M := option) adopt |>
    <| fo_observations ::= filter (λ o, eos_id o ≠ replica_id) |>
    <| fo_unavailable_replicas ::= filter (λ unavailable, unavailable ≠ replica_id) |>
    <| fo_assessment := None |>
    <| fo_next_configuration_index := 0 |>
    <| fo_next_unavailable_index := 0 |> in
  Ok (with_phase Phase.FailoverRecordStartingConfiguration now (operation <| op_failover := Some failover |>)).

(** ** What the live state says of a pending action *)

Inductive FailoverActionObservation := FoCompleted | FoFailed (error : string) | FoInProgress | FoIncomplete.

Definition postcondition_holds (status : ReplicaStatusInfo) (pending : PendingActionStatus)
    (operation : DurableOperationStatus) (postcondition : DurablePostconditionKind)
    (role : option StableReplicaRoleStatus) : result failure bool :=
  let expected_epoch := to_epoch (pa_expected_epoch pending) in
  let configured mode := match si_configuration status with
    | Some configuration => bool_decide (cs_mode configuration = mode) && configuration_matches_target configuration operation
    | None => false
    end in
  match postcondition with
  | PcEpoch => Ok (bool_decide (si_epoch status = expected_epoch))
  | PcRole => Ok (bool_decide (si_epoch status = expected_epoch) &&
      match role with Some role => bool_decide (si_role status = stable_role role) | None => false end)
  | PcCatchUpConfiguration => Ok (configured CatchUp)
  | PcCurrentConfiguration => Ok (configured Current)
  | PcElectionConfiguration =>
      match si_election_configuration status with
      | None => Ok false
      | Some configuration =>
          match pa_kind pending with
          | Action.FailoverRecordStartingConfiguration =>
              failover ← unwrap (op_failover operation);
              Ok (runtime_configuration_matches (Some configuration) failover)
          | Action.FailoverRecordElectionConfiguration =>
              Ok (target_runtime_configuration_matches (Some configuration) (op_target_snapshot operation))
          | _ => Ok false
          end
      end
  | _ => Ok false
  end.

Definition action_observed (status : ReplicaStatusInfo) (pending : PendingActionStatus) (signature : option string)
    (operation : DurableOperationStatus) (postcondition : DurablePostconditionKind)
    (role : option StableReplicaRoleStatus) : result failure FailoverActionObservation :=
  match correlated_action_observation status (pa_action_id pending) with
  | Some action =>
      if match signature with Some signature => negb (bool_decide (do_signature action = signature)) | None => false end
      then Ok (FoFailed "durable action signature conflict")
      else Ok match do_state action with
        | Completed => FoCompleted
        | Failed => FoFailed (default "durable action failed" (do_error action))
        | Scheduled | InProgress => FoInProgress
        end
  | None =>
      completed ← postcondition_holds status pending operation postcondition role;
      Ok (if (completed : bool) then FoCompleted else FoIncomplete)
  end.

Definition completed_data_loss (status : ReplicaStatusInfo) (pending : PendingActionStatus) (signature : string) :
    result failure (option DurableDataLossResultStatus) :=
  match correlated_action_observation status (pa_action_id pending) with
  | None => Ok None
  | Some completed =>
      match do_state completed with
      | Scheduled | InProgress => Ok None
      | state =>
          fail_if (negb (bool_decide (do_signature completed = signature))) "data-loss completion signature conflict";;
          match state with
          | Failed => error (default "data-loss callback failed" (do_error completed))
          | _ =>
              match do_result completed with
              | Some (ResDataLoss DataLossNone) => Ok (Some DlNoStateChange)
              | Some (ResDataLoss StateChanged) => Ok (Some DlStateChanged)
              | Some (ResAddReplica _) | Some (ResRemoveReplica _) =>
                  error "data-loss completion carries a non-data-loss result"
              | None => error "data-loss completion has no result"
              end
          end
      end
  end.

(** ** Decisions *)

Definition minimum_replicas (operation : DurableOperationStatus) : Z := default 1 (op_minimum_committed_replicas operation).

Definition id_list_debug (l : list Z) : string := "[" +:+ String.concat ", " (pretty <$> l) +:+ "]".

Definition decide_assessment (operation : DurableOperationStatus) (now : Z) : result failure Decision :=
  input ← election_input operation;
  decision ← lift (evaluate input);
  match decision with
  | Proceed _ _ _ | DataLossRequired _ _ _ =>
      let data_loss_required := match decision with DataLossRequired _ _ _ => true | _ => false end in
      target ← lift (build_target input decision false);
      let '(primary_id, members, write_quorum) := target in
      fail_if (Z.of_nat (length members) <? minimum_replicas operation)
        ("failover target has " +:+ pretty (length members) +:+ " replicas below minimum " +:+
         pretty (minimum_replicas operation));;
      target ← lift (snapshot_status_try_from (mkStablePartitionSnapshot
        (to_epoch (ss_epoch (op_target_snapshot operation))) primary_id members write_quorum));
      next ← failover_mut (λ failover, failover
          <| fo_target_confirmed := true |>
          <| fo_data_loss_required := data_loss_required |>
          <| fo_assessment := Some (if data_loss_required
               then "read quorum unavailable; data-loss negotiation required"
               else "previous/current read quorum satisfied") |>)
        (operation <| op_target_primary_id := primary_id |> <| op_target_snapshot := target |>);
      Ok (Persist (move_to Phase.FailoverPersistConfigurationEpoch now next))
  | WaitForBestCandidate possible_candidates _ _ =>
      next ← failover_mut (λ failover, failover <| fo_assessment := Some (bounded_error
          ("waiting for possibly better replicas " +:+ id_list_debug possible_candidates)) |>)
        (with_phase Phase.FailoverWaitForBestCandidate now operation);
      Ok (Persist next)
  | WaitForQuorum _ _ =>
      next ← failover_mut (λ failover, failover
          <| fo_assessment := Some "waiting for previous/current read quorum" |>)
        (with_phase Phase.FailoverWaitForReadQuorum now operation);
      Ok (Persist next)
  end.

Section decisions.
  Context {Ends : Endpoints} {Codec : PayloadCodec}.

Definition decide_pending_action (operation : DurableOperationStatus) (observations : OperationObservations) (now : Z)
    (kind : Action.DurableActionKind) (target_id : Z) (postcondition : DurablePostconditionKind)
    (role : option StableReplicaRoleStatus) (phase completed_phase : Phase.DurableOperationPhase) :
    result failure Decision :=
  match op_pending_action operation with
  | Some pending =>
      fail_if (negb (bool_decide (pa_kind pending = kind)) || negb (pa_target_id pending =? target_id))
        ("phase " +:+ Phase.debug phase +:+ " has incompatible pending action " +:+ Action.debug (pa_kind pending));;
      if pa_dispatch_authorized pending then
        action ← match failover_action_for operation pending ∅ with
                 | Err (Error _) => placeholder_action operation pending
                 | r => r
                 end;
        Ok (Execute target_id (pa_action_id pending) action)
      else match observations !! target_id with
      | None => Ok Wait
      | Some observation =>
          signature ← match placeholder_action operation pending with
                      | Ok action => Some <$> lift (pending_action_signature pending action)
                      | Err (Panic m) => Err (Panic m)
                      | Err (Error _) => Ok None
                      end;
          observed ← action_observed (ro_status observation) pending signature operation postcondition role;
          let expired := pa_deadline_unix_seconds pending <=? now in
          Ok match observed with
          | FoCompleted => Persist (with_phase completed_phase now operation)
          | FoFailed err => Persist (poison operation err)
          | FoInProgress =>
              if expired then Persist (poison operation "durable failover action remained in progress past its deadline")
              else Wait
          | FoIncomplete =>
              if expired then Persist (poison operation "durable failover action reached its deadline")
              else Persist (operation <| op_pending_action := Some (pending <| pa_dispatch_authorized := true |>) |>)
          end
      end
  | None =>
      Ok (Persist (operation <| op_phase := phase |>
        <| op_pending_action := Some (make_pending operation kind target_id postcondition role now) |>))
  end.

Definition decide_data_loss (operation : DurableOperationStatus) (observations : OperationObservations) (now : Z) :
    result failure Decision :=
  let notify := decide_pending_action operation observations now Action.FailoverOnDataLoss
    (op_target_primary_id operation) PcDataLossCompleted None
    Phase.FailoverNotifyDataLoss Phase.FailoverNotifyDataLoss in
  match op_pending_action operation with
  | None => notify
  | Some pending =>
      match observations !! pa_target_id pending with
      | None => notify
      | Some observation =>
          action ← failover_action_for operation pending ∅;
          signature ← lift (pending_action_signature pending action);
          completed ← completed_data_loss (ro_status observation) pending signature;
          match completed with
          | None => notify
          | Some res =>
              next ← failover_mut (λ failover, failover <| fo_data_loss_result := Some res |>)
                (operation <| op_pending_action := None |>);
              match res with
              | DlStateChanged =>
                  target ← primary_only_snapshot (op_target_snapshot next);
                  let next := next <| op_target_snapshot := target |> in
                  if Z.of_nat (length (ss_members target)) <? minimum_replicas next
                  then Ok (Persist (poison next "state-changing data loss reduced target below minimum replicas"))
                  else Ok (Persist (move_to Phase.FailoverRefreshCandidate now next))
              | DlNoStateChange => Ok (Persist (move_to Phase.FailoverPromoteCandidate now next))
              end
          end
      end
  end.

(** A step done for one member after another: when the decision clears the
    pending action, the index advances. *)
Definition count_done (bump : DurableFailoverStatus → DurableFailoverStatus) (decision : Decision) :
    result failure Decision :=
  match decision with
  | Persist next =>
      if none (op_pending_action next) then next ← failover_mut bump next; Ok (Persist next) else Ok decision
  | other => Ok other
  end.

Definition target_secondaries (operation : DurableOperationStatus) : list Z :=
  srs_id <$> filter (λ m, srs_id m ≠ op_target_primary_id operation) (ss_members (op_target_snapshot operation)).

Definition decide_distribute_epoch (operation : DurableOperationStatus) (observations : OperationObservations) (now : Z) :
    result failure Decision :=
  failover ← failover_ref operation;
  match target_secondaries operation !! Z.to_nat (fo_next_secondary_index failover) with
  | None => Ok (Persist (with_phase Phase.FailoverCatchUpConfiguration now operation))
  | Some target_id =>
      decision ← decide_pending_action operation observations now Action.FailoverUpdateSecondaryEpoch target_id PcEpoch None
        Phase.FailoverDistributeEpoch Phase.FailoverDistributeEpoch;
      count_done (λ fo, fo <| fo_next_secondary_index ::= (λ i, u32_add i 1) |>) decision
  end.

Definition recorded_members (operation : DurableOperationStatus) (starting : bool) : result failure (list Z) :=
  if starting
  then failover ← failover_ref operation; Ok (btree_entries (configured_members failover)).*1
  else Ok (srs_id <$> ss_members (op_target_snapshot operation)).

Definition decide_record_configuration (operation : DurableOperationStatus) (observations : OperationObservations)
    (now : Z) (starting : bool) : result failure Decision :=
  failover ← failover_ref operation;
  members ← recorded_members operation starting;
  match members !! Z.to_nat (fo_next_configuration_index failover) with
  | None =>
      next ← failover_mut (λ failover, failover <| fo_next_configuration_index := 0 |>)
        (operation <| op_pending_action := None |>);
      Ok (Persist (move_to (if starting then Phase.FailoverCollect else Phase.FailoverLabelMembers) now next))
  | Some target_id =>
      let phase := op_phase operation in
      decision ← decide_pending_action operation observations now
        (if starting then Action.FailoverRecordStartingConfiguration else Action.FailoverRecordElectionConfiguration)
        target_id PcElectionConfiguration None phase phase;
      count_done (λ fo, fo <| fo_next_configuration_index ::= (λ i, u32_add i 1) |>) decision
  end.

(** The members to label: the target's, and the old primary if it left. *)
Definition label_members (operation : DurableOperationStatus) : list (Z * StableReplicaRoleStatus) :=
  let members := (λ m, (srs_id m, srs_role m)) <$> ss_members (op_target_snapshot operation) in
  if existsb (λ m : Z * StableReplicaRoleStatus, m.1 =? op_old_primary_id operation) members then members
  else members ++ [(op_old_primary_id operation, StableActiveSecondary)].

Definition decide_label_members (operation : DurableOperationStatus) (observations : OperationObservations) (now : Z) :
    result failure Decision :=
  failover ← failover_ref operation;
  match label_members operation !! Z.to_nat (fo_next_label_index failover) with
  | None => Ok (Persist (with_phase Phase.FailoverAttest now operation))
  | Some (member_id, member_role) =>
      let desired := if member_id =? op_target_primary_id operation then "primary" else "secondary" in
      match op_pending_action operation with
      | Some pending =>
          fail_if (negb (bool_decide (pa_kind pending = Action.FailoverLabelMember)) ||
                   negb (pa_target_id pending =? member_id))
            "failover label phase has incompatible pending action";;
          if pa_dispatch_authorized pending then Ok (PatchPodRole member_id desired)
          else match observations !! member_id with
          | None => Ok Wait
          | Some observation =>
              if bool_decide (ro_pod_role_label observation = Some desired) then
                next ← failover_mut (λ fo, fo <| fo_next_label_index ::= (λ i, u32_add i 1) |>)
                  (operation <| op_pending_action := None |>);
                Ok (Persist next)
              else Ok (Persist (operation <| op_pending_action := Some (pending <| pa_dispatch_authorized := true |>) |>))
          end
      | None =>
          Ok (Persist (operation <| op_pending_action := Some (make_pending operation Action.FailoverLabelMember member_id
            PcPodRoleLabel (Some member_role) now) |>))
      end
  end.

(** ** Final attestation *)

Definition attested_member (failover : DurableFailoverStatus) (snapshot : StablePartitionSnapshotStatus)
    (member : StableReplicaSnapshotStatus) : result failure StableReplicaSnapshotStatus :=
  let missing what := "replica " +:+ pretty (srs_id member) +:+ " lacks " +:+ what in
  observation ← or_fail (List.find (λ o, eos_id o =? srs_id member) (fo_final_attestations failover))
    (missing "final attestation");
  fail_if (negb (bool_decide (eos_instance_id observation = srs_instance_id member)) ||
           negb (bool_decide (to_epoch (eos_epoch observation) = to_epoch (ss_epoch snapshot))) ||
           negb (bool_decide (parse_role (eos_role observation) = stable_role (srs_role member))) ||
           negb (eos_healthy observation) || negb (eos_configuration_matches observation))
    ("replica " +:+ pretty (srs_id member) +:+ " final attestation differs from target");;
  deactivation_epoch ← or_fail (eos_deactivation_epoch observation) (missing "deactivation evidence");
  first_retained_lsn ← or_fail (eos_first_retained_lsn observation) (missing "retained progress");
  deactivation_catch_up_lsn ← or_fail (eos_deactivation_catch_up_lsn observation) (missing "deactivation progress");
  Ok (member <| srs_election_metadata := Some (mkStableReplicaElectionMetadataStatus (eos_current_lsn observation)
    (eos_committed_lsn observation) first_retained_lsn deactivation_epoch deactivation_catch_up_lsn) |>).

Definition snapshot_from_attestations (operation : DurableOperationStatus) : result failure StablePartitionSnapshotStatus :=
  let snapshot := op_target_snapshot operation in
  failover ← failover_ref operation;
  members ← try_map (attested_member failover snapshot) (ss_members snapshot);
  let snapshot := snapshot <| ss_members := members |> in
  validate_failover_snapshot snapshot;;
  Ok snapshot.

(** ** The machine *)

Definition decide_configuration_epoch (operation : DurableOperationStatus) (now : Z) : result failure Decision :=
  let e := ss_epoch (op_target_snapshot operation) in
  configuration_number ← or_fail (i64_checked_add (es_configuration_number e) 1) "configuration epoch overflow";
  let intent := mkEpochStatus (es_data_loss_number e) configuration_number in
  next ← failover_mut (λ failover, failover <| fo_configuration_epoch_intent := Some intent |>) operation;
  failover ← failover_ref next;
  Ok (Persist (move_to (if fo_data_loss_required failover then Phase.FailoverPersistDataLossEpoch
                        else Phase.FailoverApplyCandidateEpoch) now
    (next <| op_target_snapshot ::= (λ s, s <| ss_epoch := intent |>) |>))).

Definition decide_data_loss_epoch (operation : DurableOperationStatus) (now : Z) : result failure Decision :=
  failover ← failover_ref operation;
  configuration_intent ← or_fail (fo_configuration_epoch_intent failover) "data-loss intent has no configuration intent";
  data_loss_number ← or_fail (i64_checked_add (es_data_loss_number configuration_intent) 1) "data-loss epoch overflow";
  let intent := mkEpochStatus data_loss_number (es_configuration_number configuration_intent) in
  next ← failover_mut (λ failover, failover <| fo_data_loss_epoch_intent := Some intent |>) operation;
  Ok (Persist (move_to Phase.FailoverApplyCandidateEpoch now
    (next <| op_target_snapshot ::= (λ s, s <| ss_epoch := intent |>) |>))).

Definition decide_commit_promotion (operation : DurableOperationStatus) (now : Z) : result failure Decision :=
  next ← failover_mut (λ failover, failover <| fo_promotion_committed := true |> <| fo_next_secondary_index := 0 |>)
    (with_phase Phase.FailoverDistributeEpoch now operation);
  snapshot ← primary_only_snapshot (op_target_snapshot operation);
  Ok (CommitSnapshot (next <| op_committed_snapshot := Some snapshot |>) snapshot).

Definition decide_attest (operation : DurableOperationStatus) : result failure Decision :=
  if final_attestation_complete operation then
    snapshot ← snapshot_from_attestations operation;
    Ok (Complete (operation <| op_phase := Phase.Completed |> <| op_pending_action := None |>
      <| op_target_snapshot := snapshot |>) snapshot false)
  else Ok Wait.

Definition decide_failover (operation : DurableOperationStatus) (observations : OperationObservations) (now : Z) :
    result failure Decision :=
  validate_failover_operation operation;;
  let act kind postcondition role phase completed_phase :=
    decide_pending_action operation observations now kind (op_target_primary_id operation) postcondition role
      phase completed_phase in
  match op_phase operation with
  | Phase.FailoverRecordStartingConfiguration => decide_record_configuration operation observations now true
  | Phase.FailoverCollect =>
      Ok (if collection_complete operation then Persist (with_phase Phase.FailoverAssess now operation) else Wait)
  | Phase.FailoverAssess => decide_assessment operation now
  | Phase.FailoverWaitForBestCandidate | Phase.FailoverWaitForReadQuorum => Ok Wait
  | Phase.FailoverPersistConfigurationEpoch => decide_configuration_epoch operation now
  | Phase.FailoverPersistDataLossEpoch => decide_data_loss_epoch operation now
  | Phase.FailoverApplyCandidateEpoch =>
      failover ← failover_ref operation;
      act Action.FailoverUpdateCandidateEpoch PcEpoch None Phase.FailoverApplyCandidateEpoch
        (if fo_data_loss_required failover then Phase.FailoverNotifyDataLoss else Phase.FailoverPromoteCandidate)
  | Phase.FailoverNotifyDataLoss => decide_data_loss operation observations now
  | Phase.FailoverRefreshCandidate => Ok Wait
  | Phase.FailoverPromoteCandidate =>
      act Action.FailoverPromoteCandidate PcRole (Some StablePrimary)
        Phase.FailoverPromoteCandidate Phase.FailoverCommitPromotion
  | Phase.FailoverCommitPromotion => decide_commit_promotion operation now
  | Phase.FailoverDistributeEpoch => decide_distribute_epoch operation observations now
  | Phase.FailoverCatchUpConfiguration =>
      act Action.FailoverCatchUpConfiguration PcCatchUpConfiguration None
        Phase.FailoverCatchUpConfiguration Phase.FailoverWaitForCatchUpQuorum
  | Phase.FailoverWaitForCatchUpQuorum =>
      act Action.FailoverWaitForCatchUpQuorum PcCatchUpQuorum None
        Phase.FailoverWaitForCatchUpQuorum Phase.FailoverCurrentConfiguration
  | Phase.FailoverCurrentConfiguration =>
      act Action.FailoverCurrentConfiguration PcCurrentConfiguration None
        Phase.FailoverCurrentConfiguration Phase.FailoverRecordElectionConfiguration
  | Phase.FailoverRecordElectionConfiguration => decide_record_configuration operation observations now false
  | Phase.FailoverLabelMembers => decide_label_members operation observations now
  | Phase.FailoverAttest => decide_attest operation
  | Phase.FailoverFinalize | Phase.Completed | Phase.Failed | Phase.Poisoned => Ok Wait
  | phase => error ("unsupported failover phase " +:+ Phase.debug phase)
  end.
End decisions.
