(* ===== verification/FailoverLoop.v ===== *)
(** One reconcile of a failover
    ([reconcile_failover_operation] in kuberic-operator/src/reconciler.rs):
    which replica it probes, what it records or adopts before it decides, and
    how it dispatches the authorized action. The pods, the handles it could
    create, the probe's answer, the clock and the reply to a dispatch are its
    arguments. *)

From S2P Require Import Prelude Types Lifecycle Control Agent Proto Convert Crd Operation Effects Election Failover.

Set Default Goal Selector "!".

Record FailoverPod := mkFailoverPod {
  fp_id : Z;
  fp_instance_id : ReplicaInstanceId;
  fp_name : string;
  fp_role_label : option string;
}.

Record FailoverTurn := mkFailoverTurn {
  ft_pods : list FailoverPod;
  ft_handles : FailoverHandles;
  ft_status : Z → result KubericError ReplicaStatusInfo;
  ft_control_address : Z → string;
  ft_call : CorrelatedControlActionRequest → result KubericError CorrelatedActionObservation;
  ft_now : Z;
}.

(** What a reconcile does to the checkpoint and the cluster. *)
Inductive FailoverEffect :=
| FePersist (operation : DurableOperationStatus) (sent : option CorrelatedControlActionRequest)
| FeCommit (operation : DurableOperationStatus) (snapshot : StablePartitionSnapshotStatus)
| FeComplete (operation : DurableOperationStatus) (snapshot : StablePartitionSnapshotStatus)
| FePatchLabel (target_id : Z) (role : string)
| FeRequeue (sent : option CorrelatedControlActionRequest).

(** ** Which replica is probed *)

Definition failover_wait_probe_ids (operation : DurableOperationStatus) : list Z :=
  match op_failover operation with
  | None => []
  | Some failover =>
      let expected_epoch := match op_previous_snapshot operation with
        | Some snapshot => ss_epoch snapshot
        | None => ss_epoch (op_target_snapshot operation)
        end in
      let probes := foldl (λ probes o,
          let eligible_role := bool_decide (eos_role o = "primary") || bool_decide (eos_role o = "activeSecondary") in
          let transient := eligible_role &&
            (negb (bool_decide (eos_epoch o = expected_epoch)) || negb (eos_healthy o) || none (eos_first_retained_lsn o)) in
          if transient && negb (bool_decide (eos_id o ∈ probes)) then probes ++ [eos_id o] else probes)
        (fo_unavailable_replicas failover) (fo_observations failover) in
      sort_by Z.le probes
  end.

Definition rotate_wait_probe_index (previous : Z) (probe_count : nat) : Z :=
  u32_add previous 1 `mod` as_u32 probe_count.

(** [flat_map, chain, filter(seen.insert), filter(!dropped), find]. *)
Fixpoint first_unobserved (failover : DurableFailoverStatus) (seen : gset Z) (l : list FailoverMemberStatus) : option Z :=
  match l with
  | [] => None
  | m :: l =>
      if bool_decide (fms_id m ∈ seen) then first_unobserved failover seen l
      else if fms_dropped m || observed_ids (fo_observations failover) (fms_id m)
              || bool_decide (fms_id m ∈ fo_unavailable_replicas failover)
      then first_unobserved failover ({[fms_id m]} ∪ seen) l
      else Some (fms_id m)
  end.

Definition next_unobserved_failover_member (failover : DurableFailoverStatus) : option Z :=
  first_unobserved failover ∅
    ((match fo_previous_configuration failover with Some c => fcs_members c | None => [] end) ++
     fcs_members (fo_current_configuration failover)).

Definition failover_probe_id (operation : DurableOperationStatus) : option Z :=
  match op_pending_action operation with
  | Some pending => Some (pa_target_id pending)
  | None =>
      failover ← op_failover operation;
      match op_phase operation with
      | Phase.FailoverCollect => next_unobserved_failover_member failover
      | Phase.FailoverWaitForBestCandidate | Phase.FailoverWaitForReadQuorum =>
          let probes := failover_wait_probe_ids operation in
          probes !! Z.to_nat (fo_next_unavailable_index failover `mod` Z.of_nat (length probes))
      | Phase.FailoverRefreshCandidate => Some (op_target_primary_id operation)
      | Phase.FailoverAttest =>
          srs_id <$> List.find (λ m, negb (observed_ids (fo_final_attestations failover) (srs_id m)))
            (ss_members (op_target_snapshot operation))
      | _ => None
      end
  end.

(** ** Replaced members *)

Definition find_pod (pods : list FailoverPod) (id : Z) : option FailoverPod := List.find (λ p, fp_id p =? id) pods.

(** [members.len() as u32 / 2 + 1]. *)
Definition majority {A} (l : list A) : Z := as_u32 (length l) / 2 + 1.

(** After the promotion is committed a replaced secondary leaves the target
    configuration. *)
Definition drop_replaced (operation : DurableOperationStatus) (id : Z) : result failure DurableOperationStatus :=
  let target := (op_target_snapshot operation) <| ss_members ::= filter (λ m, srs_id m ≠ id) |> in
  checkpoint ← unwrap (op_failover operation);
  let members := filter (λ m, fms_id m ≠ id) (fcs_members (fo_current_configuration checkpoint)) in
  Ok (operation
    <| op_target_snapshot := (target <| ss_write_quorum := majority (ss_members target) |>) |>
    <| op_failover := Some (checkpoint
         <| fo_current_configuration := mkFailoverConfigurationStatus members (majority members) |>
         <| fo_observations ::= filter (λ o, eos_id o ≠ id) |>
         <| fo_final_attestations ::= filter (λ o, eos_id o ≠ id) |>
         <| fo_next_secondary_index := 0 |> <| fo_next_configuration_index := 0 |>
         <| fo_next_label_index := 0 |> <| fo_next_attestation_index := 0 |>) |>
    <| op_pending_action := None |>
    <| op_phase := Phase.FailoverCatchUpConfiguration |>).

Definition replace_member (operation : DurableOperationStatus) (failover : DurableFailoverStatus) (id : Z)
    (instance_id : ReplicaInstanceId) (now : Z) : result failure DurableOperationStatus :=
  if negb (fo_target_confirmed failover) then adopt_replacement_before_confirmation operation id instance_id now
  else if fo_promotion_committed failover && negb (id =? op_target_primary_id operation) then
    if Z.of_nat (length (ss_members (op_target_snapshot operation)) - 1) <? minimum_replicas operation
    then Ok (fail_closed operation "post-promotion replacement would reduce target below minimum replicas")
    else drop_replaced operation id
  else Ok (fail_closed operation ("confirmed failover replica " +:+ pretty id +:+ " incarnation changed")).

(** The first configured member whose pod is another incarnation. *)
Definition replaced_member (failover : DurableFailoverStatus) (pods : list FailoverPod) : option (Z * ReplicaInstanceId) :=
  head (omap (λ member : FailoverMemberStatus,
      pod ← find_pod pods (fms_id member);
      if bool_decide (fp_instance_id pod = fms_instance_id member) then None
      else Some (fms_id member, fp_instance_id pod)) (btree_values (configured_members failover))).

(** ** The probe *)

Definition relevant (operation : DurableOperationStatus) (failover : DurableFailoverStatus) (id : Z) : bool :=
  existsb (λ m, fms_id m =? id) (fcs_members (fo_current_configuration failover)) ||
  match fo_previous_configuration failover with
  | Some c => existsb (λ m, fms_id m =? id) (fcs_members c)
  | None => false
  end ||
  existsb (λ m, srs_id m =? id) (ss_members (op_target_snapshot operation)).

(** The handles created for the pods that are relevant. *)
Definition relevant_handles (operation : DurableOperationStatus) (failover : DurableFailoverStatus) (turn : FailoverTurn) :
    FailoverHandles :=
  map_imap (λ id handle,
    match find_pod (ft_pods turn) id with
    | Some _ => if relevant operation failover id then Some handle else None
    | None => None
    end) (ft_handles turn).

Definition probe (turn : FailoverTurn) (handles : FailoverHandles) (probe_id : option Z) :
    result failure OperationObservations :=
  match probe_id with
  | None => Ok ∅
  | Some id =>
      match handles !! id, find_pod (ft_pods turn) id with
      | Some handle, Some pod =>
          match ft_status turn id with
          | Ok status => Ok {[ id := mkReplicaObservation status (ft_control_address turn id)
              (fh_replicator_address handle) (fp_name pod) (fp_role_label pod) ]}
          | Err (RemoteControlProtocolUnsupported m) =>
              error ("failover probe " +:+ pretty id +:+ " has unsupported or malformed control status: " +:+
                error_to_string (RemoteControlProtocolUnsupported m))
          | Err (RemoteAgentRequestRejected m) =>
              error ("failover probe " +:+ pretty id +:+ " has unsupported or malformed control status: " +:+
                error_to_string (RemoteAgentRequestRejected m))
          | Err _ => Ok ∅
          end
      | _, _ => Ok ∅
      end
  end.

(** ** Recording *)

(** [match result { Ok(next) => next, Err(error) => fail_closed(...) }]. *)
Definition or_fail_closed (operation : DurableOperationStatus) (r : result failure DurableOperationStatus) :
    result failure DurableOperationStatus :=
  match r with Err (Error e) => Ok (fail_closed operation e) | r => r end.

Definition is_waiting (phase : Phase.DurableOperationPhase) : bool :=
  match phase with Phase.FailoverWaitForBestCandidate | Phase.FailoverWaitForReadQuorum => true | _ => false end.

Definition rotate_probe (operation next : DurableOperationStatus) (prior : Z) : DurableOperationStatus :=
  let wait_count := length (failover_wait_probe_ids operation) in
  if (0 <? wait_count)%nat
  then next <| op_failover ::= fmap (M := option) (λ fo, fo <| fo_next_unavailable_index := rotate_wait_probe_index prior wait_count |>) |>
  else next.

Definition record_probe (operation : DurableOperationStatus) (failover : DurableFailoverStatus) (id : Z)
    (status : ReplicaStatusInfo) (now : Z) : result failure DurableOperationStatus :=
  next ← or_fail_closed operation (record_observation operation id status false now);
  Ok (if is_waiting (op_phase operation) then rotate_probe operation next (fo_next_unavailable_index failover) else next).

Definition mark_unavailable (operation : DurableOperationStatus) (failover : DurableFailoverStatus) (id : Z) :
    DurableOperationStatus :=
  operation <| op_failover := Some (failover <| fo_unavailable_replicas ::= (λ l,
    if bool_decide (id ∈ l) then l else sort_by Z.le (l ++ [id])) |>) |>.

Definition refreshed_valid (status : ReplicaStatusInfo) (target_epoch : Epoch) : bool :=
  si_healthy status &&
  bool_decide (si_role status = Primary ∨ si_role status = ActiveSecondary) &&
  match si_catch_up_capability status with
  | Some first => (first <=? si_committed_lsn status) && (si_committed_lsn status <=? si_current_progress status)
  | None => false
  end &&
  match si_deactivation_info status with
  | Some deactivation => bool_decide (di_epoch deactivation = target_epoch)
  | None => false
  end.

(** [iter_mut().find(...).unwrap()] of the target's member. *)
Fixpoint set_metadata (id : Z) (metadata : StableReplicaElectionMetadataStatus) (l : list StableReplicaSnapshotStatus) :
    result failure (list StableReplicaSnapshotStatus) :=
  match l with
  | [] => Err (Panic "called `Option::unwrap()` on a `None` value")
  | m :: l =>
      if srs_id m =? id then Ok (m <| srs_election_metadata := Some metadata |> :: l)
      else l ← set_metadata id metadata l; Ok (m :: l)
  end.

Definition refresh_candidate (operation : DurableOperationStatus) (refreshed : ReplicaStatusInfo) (now : Z) :
    result failure DurableOperationStatus :=
  let target_epoch := to_epoch (ss_epoch (op_target_snapshot operation)) in
  if negb (bool_decide (si_epoch refreshed = target_epoch))
  then Ok (fail_closed operation "refreshed data-loss candidate has wrong epoch")
  else if negb (refreshed_valid refreshed target_epoch)
  then Ok (fail_closed operation "state-changing data-loss callback produced invalid candidate evidence")
  else
    next ← or_fail_closed operation
      (record_observation operation (op_target_primary_id operation) refreshed false now);
    if bool_decide (op_phase next = Phase.Poisoned) then Ok next
    else
      deactivation ← unwrap (si_deactivation_info refreshed);
      first_retained_lsn ← unwrap (si_catch_up_capability refreshed);
      members ← set_metadata (op_target_primary_id operation)
        (mkStableReplicaElectionMetadataStatus (si_current_progress refreshed) (si_committed_lsn refreshed)
          first_retained_lsn (of_epoch (di_epoch deactivation)) (di_catch_up_lsn deactivation))
        (ss_members (op_target_snapshot next));
      Ok (next <| op_target_snapshot ::= (λ s, s <| ss_members := members |>) |>
               <| op_phase := Phase.FailoverPromoteCandidate |>).

(** [next.pending_action = None; next.failover...next_label_index += 1]. *)
Definition label_done (operation : DurableOperationStatus) (failover : DurableFailoverStatus) : DurableOperationStatus :=
  operation <| op_pending_action := None |>
    <| op_failover := Some (failover <| fo_next_label_index ::= (λ i, u32_add i 1) |>) |>.

Definition set_authorized (authorized : bool) (operation : DurableOperationStatus) : DurableOperationStatus :=
  operation <| op_pending_action ::= fmap (M := option) (λ p, p <| pa_dispatch_authorized := authorized |>) |>.

Section turns.
  Context {Ends : Endpoints} {Codec : PayloadCodec}.

(** ** Applying a decision *)

Definition apply_failover_decision (pods : list FailoverPod) (decision : Decision) : result failure FailoverEffect :=
  match decision with
  | Persist operation => Ok (FePersist operation None)
  | CommitSnapshot operation snapshot => Ok (FeCommit operation snapshot)
  | Complete operation snapshot _ =>
      or_fail (find_pod pods (ss_primary_id snapshot)) "completed failover primary has no current pod";;
      failover ← or_fail (op_failover operation) "completed failover has no attestation";
      try_for_each (λ stable,
        or_fail (List.find (λ o, eos_id o =? srs_id stable) (fo_final_attestations failover))
          ("replica " +:+ pretty (srs_id stable) +:+ " lacks final status attestation");;
        or_fail (find_pod pods (srs_id stable)) ("replica " +:+ pretty (srs_id stable) +:+ " has no current pod");;
        Ok tt) (ss_members snapshot);;
      Ok (FeComplete operation snapshot)
  | Wait => Ok (FeRequeue None)
  | _ => error "failover emitted an activity without persisted dispatch authorization"
  end.

Definition decide_or_fail_closed (operation decided : DurableOperationStatus) (observations : OperationObservations)
    (now : Z) : result failure Decision :=
  match decide_failover decided observations now with
  | Err (Error e) => Ok (Persist (fail_closed operation e))
  | r => r
  end.

(** The action in flight is still to be done. *)
Definition still_incomplete (decision : Decision) : bool :=
  match decision with
  | Persist next => match op_pending_action next with Some pending => pa_dispatch_authorized pending | None => false end
  | _ => false
  end.

(** ** An authorized action *)

Definition reconcile_authorized (operation : DurableOperationStatus) (failover : DurableFailoverStatus)
    (pending : PendingActionStatus) (handles : FailoverHandles) (observations : OperationObservations)
    (turn : FailoverTurn) : result failure FailoverEffect :=
  match failover_pending_label operation with
  | Some (target_id, role) =>
      match find_pod (ft_pods turn) target_id with
      | None => Ok (FeRequeue None)
      | Some pod =>
          if bool_decide (fp_role_label pod = Some role) then Ok (FePersist (label_done operation failover) None)
          else Ok (FePatchLabel target_id role)
      end
  | None =>
      observed_decision ← decide_or_fail_closed operation (set_authorized false operation) observations (ft_now turn);
      if still_incomplete observed_decision then
        match observations !! pa_target_id pending, handles !! pa_target_id pending with
        | Some observed, Some handle =>
            action ← failover_action_for operation pending handles;
            let '(persisted, sent) := dispatch (ft_call turn) operation pending (ro_status observed)
              (fh_instance_id handle) action false in
            Ok match persisted with
              | Some next => FePersist next sent
              | None => FeRequeue sent
              end
        | _, _ => Ok (FeRequeue None)
        end
      else apply_failover_decision (ft_pods turn) observed_decision
  end.

(** ** The action of the phase *)

Definition has_pending (test : PendingActionStatus → bool) (operation : DurableOperationStatus) : bool :=
  match op_pending_action operation with Some pending => test pending | None => false end.

(** A starting configuration that cannot be recorded on a replica without a
    handle is skipped. *)
Definition skip_record (operation : DurableOperationStatus) : DurableOperationStatus :=
  operation <| op_pending_action := None |>
    <| op_failover ::= fmap (M := option) (λ fo, fo <| fo_next_configuration_index ::= (λ i, u32_add i 1) |>) |>.

Definition reconcile_label (operation : DurableOperationStatus) (failover : DurableFailoverStatus)
    (pods : list FailoverPod) : result failure FailoverEffect :=
  '(target_id, desired) ← or_fail (failover_pending_label operation) "failover label phase has invalid pending action";
  let pod := find_pod pods target_id in
  Ok (FePersist
    (if bool_decide (pod ≫= fp_role_label = Some desired) || none pod
     then label_done operation failover else set_authorized true operation) None).

Definition reconcile_action (operation : DurableOperationStatus) (failover : DurableFailoverStatus)
    (handles : FailoverHandles) (observations : OperationObservations) (turn : FailoverTurn) :
    result failure FailoverEffect :=
  if has_pending (λ pending, bool_decide (pa_kind pending = Action.FailoverRecordStartingConfiguration) &&
                             none (handles !! pa_target_id pending)) operation
  then Ok (FePersist (skip_record operation) None)
  else if bool_decide (op_phase operation = Phase.FailoverLabelMembers) &&
          has_pending (λ pending, negb (pa_dispatch_authorized pending)) operation
  then reconcile_label operation failover (ft_pods turn)
  else match op_pending_action operation with
  | Some pending =>
      if pa_dispatch_authorized pending
      then reconcile_authorized operation failover pending handles observations turn
      else
        decision ← decide_or_fail_closed operation operation observations (ft_now turn);
        apply_failover_decision (ft_pods turn) decision
  | None =>
      decision ← decide_or_fail_closed operation operation observations (ft_now turn);
      apply_failover_decision (ft_pods turn) decision
  end.

(** ** The reconcile *)

Definition reconcile_failover_operation (operation : DurableOperationStatus) (turn : FailoverTurn) :
    result failure FailoverEffect :=
  let now := ft_now turn in
  fail_if (negb (bool_decide (op_kind operation = OpFailover))) "FailingOver phase has a non-failover operation";;
  failover ← or_fail (op_failover operation) "failover operation has no checkpoint";
  match replaced_member failover (ft_pods turn) with
  | Some (id, instance_id) =>
      next ← replace_member operation failover id instance_id now; Ok (FePersist next None)
  | None =>
      let handles := relevant_handles operation failover turn in
      let probe_id := failover_probe_id operation in
      observations ← probe turn handles probe_id;
      let probed := id ← probe_id; observation ← observations !! id; Some (id, observation) in
      let collecting := bool_decide (op_phase operation = Phase.FailoverCollect) in
      let waiting := is_waiting (op_phase operation) in
      match probe_id, probed with
      | Some id, Some (_, observation) =>
          if collecting || waiting then
            next ← record_probe operation failover id (ro_status observation) now; Ok (FePersist next None)
          else if bool_decide (op_phase operation = Phase.FailoverAttest) then
            next ← or_fail_closed operation (record_observation operation id (ro_status observation) true now);
            Ok (FePersist next None)
          else if bool_decide (op_phase operation = Phase.FailoverRefreshCandidate) && (id =? op_target_primary_id operation) then
            next ← refresh_candidate operation (ro_status observation) now; Ok (FePersist next None)
          else reconcile_action operation failover handles observations turn
      | Some id, None =>
          if collecting then Ok (FePersist (mark_unavailable operation failover id) None)
          else if waiting then Ok (FePersist (rotate_probe operation operation (fo_next_unavailable_index failover)) None)
          else reconcile_action operation failover handles observations turn
      | None, _ => reconcile_action operation failover handles observations turn
      end
  end.
End turns.
