(* ===== verification/FailoverSteps.v ===== *)
(** Failover as a step relation: what [decide_failover] can decide
    ([decided]), and what one reconcile can make of a checkpoint ([fstep]),
    with the evidence each decision rests on. *)

From S2P Require Import Prelude Types Lifecycle Control Agent Convert Crd Operation Effects Election Failover FailoverLoop.

Set Default Goal Selector "!".

(** ** Phases *)

(** The action a phase has pending. *)
Definition phase_kind (phase : Phase.DurableOperationPhase) : option Action.DurableActionKind :=
  match phase with
  | Phase.FailoverRecordStartingConfiguration => Some Action.FailoverRecordStartingConfiguration
  | Phase.FailoverApplyCandidateEpoch => Some Action.FailoverUpdateCandidateEpoch
  | Phase.FailoverNotifyDataLoss => Some Action.FailoverOnDataLoss
  | Phase.FailoverPromoteCandidate => Some Action.FailoverPromoteCandidate
  | Phase.FailoverDistributeEpoch => Some Action.FailoverUpdateSecondaryEpoch
  | Phase.FailoverCatchUpConfiguration => Some Action.FailoverCatchUpConfiguration
  | Phase.FailoverWaitForCatchUpQuorum => Some Action.FailoverWaitForCatchUpQuorum
  | Phase.FailoverCurrentConfiguration => Some Action.FailoverCurrentConfiguration
  | Phase.FailoverRecordElectionConfiguration => Some Action.FailoverRecordElectionConfiguration
  | Phase.FailoverLabelMembers => Some Action.FailoverLabelMember
  | _ => None
  end.

(** The phase after the action of a phase, and the index it advances. *)
Definition phase_after (op : DurableOperationStatus) (fo : DurableFailoverStatus) : Phase.DurableOperationPhase :=
  match op_phase op with
  | Phase.FailoverApplyCandidateEpoch =>
      if fo_data_loss_required fo then Phase.FailoverNotifyDataLoss else Phase.FailoverPromoteCandidate
  | Phase.FailoverPromoteCandidate => Phase.FailoverCommitPromotion
  | Phase.FailoverCatchUpConfiguration => Phase.FailoverWaitForCatchUpQuorum
  | Phase.FailoverWaitForCatchUpQuorum => Phase.FailoverCurrentConfiguration
  | Phase.FailoverCurrentConfiguration => Phase.FailoverRecordElectionConfiguration
  | phase => phase
  end.
Definition counted (phase : Phase.DurableOperationPhase) (fo : DurableFailoverStatus) : DurableFailoverStatus :=
  match phase with
  | Phase.FailoverRecordStartingConfiguration | Phase.FailoverRecordElectionConfiguration =>
      fo <| fo_next_configuration_index ::= (λ i, u32_add i 1) |>
  | Phase.FailoverDistributeEpoch => fo <| fo_next_secondary_index ::= (λ i, u32_add i 1) |>
  | Phase.FailoverLabelMembers => fo <| fo_next_label_index ::= (λ i, u32_add i 1) |>
  | _ => fo
  end.

(** The phase after a phase whose work is done without an action. *)
Definition phase_ends (phase : Phase.DurableOperationPhase) : option Phase.DurableOperationPhase :=
  match phase with
  | Phase.FailoverRecordStartingConfiguration => Some Phase.FailoverCollect
  | Phase.FailoverCollect => Some Phase.FailoverAssess
  | Phase.FailoverDistributeEpoch => Some Phase.FailoverCatchUpConfiguration
  | Phase.FailoverRecordElectionConfiguration => Some Phase.FailoverLabelMembers
  | Phase.FailoverLabelMembers => Some Phase.FailoverAttest
  | _ => None
  end.

(** Whom the action of a phase addresses. *)
Definition addressed (op : DurableOperationStatus) (fo : DurableFailoverStatus) (id : Z) : Prop :=
  match op_phase op with
  | Phase.FailoverRecordStartingConfiguration => ∃ m, configured_members fo !! id = Some m
  | Phase.FailoverDistributeEpoch => id ∈ target_secondaries op
  | Phase.FailoverRecordElectionConfiguration => id ∈ srs_id <$> ss_members (op_target_snapshot op)
  | Phase.FailoverLabelMembers => id ∈ (label_members op).*1
  | _ => id = op_target_primary_id op
  end.

(** What a status must show for the pending action to count as done. *)
Definition seen_done `{Endpoints} `{PayloadCodec} (op : DurableOperationStatus) (pa : PendingActionStatus)
    (status : ReplicaStatusInfo) : Prop :=
  (∃ a, correlated_action_observation status (pa_action_id pa) = Some a ∧ do_state a = Completed ∧
     ∀ action signature, placeholder_action op pa = Ok action → pending_action_signature pa action = Ok signature →
       do_signature a = signature) ∨
  ∃ postcondition role, postcondition_holds status pa op postcondition role = Ok true ∧
    (pa_kind pa = Action.FailoverPromoteCandidate → postcondition = PcRole ∧ role = Some StablePrimary).

Section steps.
  Context {Ends : Endpoints} {Codec : PayloadCodec}.

(** ** What is decided *)

Inductive decided (op : DurableOperationStatus) (fo : DurableFailoverStatus) (obs : OperationObservations) (now : Z) :
    Decision → Prop :=
| de_wait : decided op fo obs now Wait
| de_execute id aid action :
    (∃ pa, op_pending_action op = Some pa ∧ pa_dispatch_authorized pa = true) →
    decided op fo obs now (Execute id aid action)
| de_patch id role :
    (∃ pa, op_pending_action op = Some pa ∧ pa_dispatch_authorized pa = true) →
    decided op fo obs now (PatchPodRole id role)
| de_poison m fo' :
    fo' = fo ∨ fo' = counted (op_phase op) fo →
    decided op fo obs now (Persist ((poison op m) <| op_failover := Some fo' |>))
| de_schedule kind id postcondition role :
    op_pending_action op = None → phase_kind (op_phase op) = Some kind → addressed op fo id →
    decided op fo obs now
      (Persist (op <| op_pending_action := Some (make_pending op kind id postcondition role now) |>))
| de_authorize pa :
    op_pending_action op = Some pa → pa_dispatch_authorized pa = false →
    decided op fo obs now (Persist (op <| op_pending_action := Some (pa <| pa_dispatch_authorized := true |>) |>))
| de_done pa o :
    op_pending_action op = Some pa → phase_kind (op_phase op) = Some (pa_kind pa) →
    obs !! pa_target_id pa = Some o → seen_done op pa (ro_status o) →
    decided op fo obs now (Persist ((with_phase (phase_after op fo) now op)
      <| op_failover := Some (counted (op_phase op) fo) |>))
| de_labelled pa :
    op_phase op = Phase.FailoverLabelMembers → op_pending_action op = Some pa →
    pa_kind pa = Action.FailoverLabelMember →
    decided op fo obs now (Persist (op <| op_pending_action := None |>
      <| op_failover := Some (counted (op_phase op) fo) |>))
| de_ends phase index :
    phase_ends (op_phase op) = Some phase →
    decided op fo obs now (Persist ((with_phase phase now op)
      <| op_failover := Some (fo <| fo_next_configuration_index := index |>) |>))
| de_wait_for phase m :
    op_phase op = Phase.FailoverAssess →
    phase = Phase.FailoverWaitForBestCandidate ∨ phase = Phase.FailoverWaitForReadQuorum →
    decided op fo obs now (Persist ((with_phase phase now op) <| op_failover := Some (fo <| fo_assessment := m |>) |>))
| de_confirm input decision candidate primary_id members write_quorum target m :
    op_phase op = Phase.FailoverAssess →
    election_input op = Ok input → evaluate input = Ok decision → decided_candidate decision = Some candidate →
    build_target input decision false = Ok (primary_id, members, write_quorum) →
    minimum_replicas op ≤ Z.of_nat (length members) →
    snapshot_status_try_from (mkStablePartitionSnapshot (to_epoch (ss_epoch (op_target_snapshot op)))
      primary_id members write_quorum) = Ok target →
    decided op fo obs now (Persist (move_to Phase.FailoverPersistConfigurationEpoch now
      (op <| op_target_primary_id := primary_id |> <| op_target_snapshot := target |>
          <| op_failover := Some (fo <| fo_target_confirmed := true |>
               <| fo_data_loss_required := match decision with DataLossRequired _ _ _ => true | _ => false end |>
               <| fo_assessment := m |>) |>)))
| de_configuration_epoch intent :
    op_phase op = Phase.FailoverPersistConfigurationEpoch →
    i64_checked_add (es_configuration_number (ss_epoch (op_target_snapshot op))) 1 = Some (es_configuration_number intent) →
    es_data_loss_number intent = es_data_loss_number (ss_epoch (op_target_snapshot op)) →
    decided op fo obs now (Persist (move_to (if fo_data_loss_required fo then Phase.FailoverPersistDataLossEpoch
                                             else Phase.FailoverApplyCandidateEpoch) now
      (op <| op_failover := Some (fo <| fo_configuration_epoch_intent := Some intent |>) |>
          <| op_target_snapshot ::= (λ s, s <| ss_epoch := intent |>) |>)))
| de_data_loss_epoch configuration_intent intent :
    op_phase op = Phase.FailoverPersistDataLossEpoch →
    fo_configuration_epoch_intent fo = Some configuration_intent →
    i64_checked_add (es_data_loss_number configuration_intent) 1 = Some (es_data_loss_number intent) →
    es_configuration_number intent = es_configuration_number configuration_intent →
    decided op fo obs now (Persist (move_to Phase.FailoverApplyCandidateEpoch now
      (op <| op_failover := Some (fo <| fo_data_loss_epoch_intent := Some intent |>) |>
          <| op_target_snapshot ::= (λ s, s <| ss_epoch := intent |>) |>)))
| de_data_loss pa o a res target next :
    op_phase op = Phase.FailoverNotifyDataLoss → op_pending_action op = Some pa →
    obs !! pa_target_id pa = Some o → correlated_action_observation (ro_status o) (pa_action_id pa) = Some a →
    do_state a = Completed → do_result a = Some (ResDataLoss res) →
    (res = DataLossNone ∧ target = op_target_snapshot op ∨
     res = StateChanged ∧ primary_only_snapshot (op_target_snapshot op) = Ok target) →
    (∃ m, res = StateChanged ∧ next = poison (op <| op_target_snapshot := target |>) m) ∨
    minimum_replicas op ≤ Z.of_nat (length (ss_members target)) ∧ res = StateChanged ∧
      next = with_phase Phase.FailoverRefreshCandidate now (op <| op_target_snapshot := target |>) ∨
    res = DataLossNone ∧ next = with_phase Phase.FailoverPromoteCandidate now op →
    decided op fo obs now (Persist (next <| op_failover := Some (fo <| fo_data_loss_result :=
      Some (match res with DataLossNone => DlNoStateChange | StateChanged => DlStateChanged end) |>) |>))
| de_commit snapshot :
    op_phase op = Phase.FailoverCommitPromotion → primary_only_snapshot (op_target_snapshot op) = Ok snapshot →
    decided op fo obs now (CommitSnapshot ((with_phase Phase.FailoverDistributeEpoch now op)
      <| op_failover := Some (fo <| fo_promotion_committed := true |> <| fo_next_secondary_index := 0 |>) |>
      <| op_committed_snapshot := Some snapshot |>) snapshot)
| de_complete snapshot :
    op_phase op = Phase.FailoverAttest → snapshot_from_attestations op = Ok snapshot →
    decided op fo obs now (Complete (op <| op_phase := Phase.Completed |> <| op_pending_action := None |>
      <| op_target_snapshot := snapshot |>) snapshot false).

Context (op : DurableOperationStatus) (fo : DurableFailoverStatus).
Context (Hfo : op_failover op = Some fo).

Lemma failover_ref_Some : failover_ref op = Ok fo.
Proof. unfold failover_ref. by rewrite Hfo. Qed.

Lemma failover_mut_Some f next :
  op_failover next = Some fo → failover_mut f next = Ok (next <| op_failover := Some (f fo) |>).
Proof. intros Hn. unfold failover_mut, failover_ref. by rewrite Hn. Qed.

(** What [decide_pending_action] decides in the phase of its action. *)
Inductive acted (obs : OperationObservations) (now : Z) (kind : Action.DurableActionKind) (id : Z)
    (postcondition : DurablePostconditionKind) (role : option StableReplicaRoleStatus)
    (done : Phase.DurableOperationPhase) : Decision → Prop :=
| ac_wait : acted obs now kind id postcondition role done Wait
| ac_execute aid action :
    (∃ pa, op_pending_action op = Some pa ∧ pa_dispatch_authorized pa = true) →
    acted obs now kind id postcondition role done (Execute id aid action)
| ac_poison m : acted obs now kind id postcondition role done (Persist (poison op m))
| ac_schedule :
    op_pending_action op = None →
    acted obs now kind id postcondition role done
      (Persist (op <| op_pending_action := Some (make_pending op kind id postcondition role now) |>))
| ac_authorize pa :
    op_pending_action op = Some pa → pa_dispatch_authorized pa = false →
    acted obs now kind id postcondition role done
      (Persist (op <| op_pending_action := Some (pa <| pa_dispatch_authorized := true |>) |>))
| ac_done pa o :
    op_pending_action op = Some pa → pa_kind pa = kind → pa_target_id pa = id → obs !! id = Some o →
    action_observed (ro_status o) pa (match placeholder_action op pa with
        | Ok action => match pending_action_signature pa action with Ok s => Some s | Err _ => None end
        | Err _ => None end) op postcondition role = Ok FoCompleted →
    acted obs now kind id postcondition role done (Persist (with_phase done now op)).

Lemma decide_pending_action_acted obs now kind id postcondition role done d :
  decide_pending_action op obs now kind id postcondition role (op_phase op) done = Ok d →
  acted obs now kind id postcondition role done d.
Proof.
  unfold decide_pending_action. destruct (op_pending_action op) as [pa|] eqn:Hpa.
  - intros ([] & Hc%fail_if_Ok & H)%bind_Ok. guards. destruct (pa_dispatch_authorized pa) eqn:Hauth.
    { apply bind_Ok in H as (action & _ & [= <-]). constructor. eauto. }
    destruct (obs !! id) as [o|] eqn:Ho; [|injection H as <-; constructor].
    apply bind_Ok in H as (signature & Hs & H). apply bind_Ok in H as (seen & Hseen & H).
    assert (signature = match placeholder_action op pa with
        | Ok action => match pending_action_signature pa action with Ok s => Some s | Err _ => None end
        | Err _ => None end) as ->.
    { destruct (placeholder_action op pa) as [action|[]]; [|by injection Hs as <-|done].
      destruct (pending_action_signature pa action); [by injection Hs as <-|done]. }
    destruct seen; injection H as <-.
    + eapply ac_done; eauto.
    + constructor.
    + destruct (_ <=? _); constructor.
    + destruct (_ <=? _); [constructor|by apply ac_authorize].
  - intros [= <-]. assert (op <| op_phase := op_phase op |> = op) as -> by by destruct op. by apply ac_schedule.
Qed.

Lemma action_observed_done status pa signature postcondition role :
  action_observed status pa signature op postcondition role = Ok FoCompleted →
  (∃ a, correlated_action_observation status (pa_action_id pa) = Some a ∧ do_state a = Completed ∧
     ∀ s, signature = Some s → do_signature a = s) ∨
  postcondition_holds status pa op postcondition role = Ok true.
Proof.
  unfold action_observed. destruct (correlated_action_observation _ _) as [a|] eqn:Ha.
  - intros H. left. exists a. split; [done|]. destruct signature as [s|].
    + destruct (negb (bool_decide (do_signature a = s))) eqn:Hs; [discriminate|]. guards.
      destruct (do_state a); try discriminate. split; [done|]. by intros ? [= <-].
    + destruct (do_state a); try discriminate. done.
  - intros ([] & Hb & H)%bind_Ok; [by right|discriminate].
Qed.

Lemma acted_seen pa status postcondition role :
  action_observed status pa (match placeholder_action op pa with
      | Ok action => match pending_action_signature pa action with Ok s => Some s | Err _ => None end
      | Err _ => None end) op postcondition role = Ok FoCompleted →
  (pa_kind pa = Action.FailoverPromoteCandidate → postcondition = PcRole ∧ role = Some StablePrimary) →
  seen_done op pa status.
Proof.
  intros [(a & Ha & Hst & Hs)|Hp]%action_observed_done Hprom; [left|right; by exists postcondition, role].
  exists a. split; [done|]. split; [done|]. intros action s Hact Hsig. apply Hs. by rewrite Hact, Hsig.
Qed.

(** ** Every decision is one of these *)

Lemma keep_failover x fo' : op_failover x = Some fo' → x <| op_failover := Some fo' |> = x.
Proof. destruct x; simpl. by intros ->. Qed.

Lemma decided_poison obs now m : decided op fo obs now (Persist (poison op m)).
Proof. rewrite <-(keep_failover (poison op m) fo Hfo). apply de_poison. by left. Qed.

Section act.
  Context (obs : OperationObservations) (now : Z) (kind : Action.DurableActionKind) (id : Z).
  Context (postcondition : DurablePostconditionKind) (role : option StableReplicaRoleStatus).
  Context (Hkind : phase_kind (op_phase op) = Some kind) (Hid : addressed op fo id).
  Context (Hprom : kind = Action.FailoverPromoteCandidate → postcondition = PcRole ∧ role = Some StablePrimary).

Lemma acted_decided d :
  counted (op_phase op) fo = fo → acted obs now kind id postcondition role (phase_after op fo) d →
  decided op fo obs now d.
Proof.
  intros Hc Ha. destruct Ha as [|aid action Hauth|m|Hp|pa Hp Hauth|pa o Hp Hk Ht Ho Hseen].
  - constructor.
  - by constructor.
  - apply decided_poison.
  - by constructor.
  - by apply de_authorize.
  - assert (with_phase (phase_after op fo) now op =
      (with_phase (phase_after op fo) now op) <| op_failover := Some (counted (op_phase op) fo) |>) as ->
      by (rewrite Hc; symmetry; by apply keep_failover).
    eapply de_done; [done|congruence|by rewrite Ht|]. eapply acted_seen; [exact Hseen|]. rewrite Hk. exact Hprom.
Qed.

Lemma counted_decided bump d d' :
  (bump fo = counted (op_phase op) fo) → phase_after op fo = op_phase op →
  acted obs now kind id postcondition role (op_phase op) d → count_done bump d = Ok d' →
  decided op fo obs now d'.
Proof.
  intros Hb Hph Ha. destruct Ha as [|aid action Hauth|m|Hp|pa Hp Hauth|pa o Hp Hk Ht Ho Hseen].
  - intros [= <-]. constructor.
  - intros [= <-]. by constructor.
  - unfold count_done. simpl. rewrite failover_mut_Some by exact Hfo. intros [= <-]. apply de_poison. by right.
  - intros [= <-]. by constructor.
  - intros [= <-]. by apply de_authorize.
  - unfold count_done. simpl. rewrite failover_mut_Some by exact Hfo. intros [= <-]. rewrite Hb.
    assert (with_phase (op_phase op) now op = with_phase (phase_after op fo) now op) as -> by by rewrite Hph.
    eapply de_done; [done|congruence|by rewrite Ht|]. eapply acted_seen; [exact Hseen|]. rewrite Hk. exact Hprom.
Qed.
End act.

Lemma decided_assessment obs now d :
  op_phase op = Phase.FailoverAssess → decide_assessment op now = Ok d → decided op fo obs now d.
Proof.
  intros Hph. unfold decide_assessment. intros (input & Hin & (dec & Hdec%lift_Ok & H)%bind_Ok)%bind_Ok.
  assert (∀ candidate (m : list StableReplicaSnapshot → string), decided_candidate dec = Some candidate →
    (target ← lift (build_target input dec false);
     let '(primary_id, members, write_quorum) := target in
     fail_if (Z.of_nat (length members) <? minimum_replicas op) (m members);;
     target ← lift (snapshot_status_try_from (mkStablePartitionSnapshot
       (to_epoch (ss_epoch (op_target_snapshot op))) primary_id members write_quorum));
     next ← failover_mut (λ failover, failover
          <| fo_target_confirmed := true |>
          <| fo_data_loss_required := match dec with DataLossRequired _ _ _ => true | _ => false end |>
          <| fo_assessment := Some (if match dec with DataLossRequired _ _ _ => true | _ => false end
               then "read quorum unavailable; data-loss negotiation required"
               else "previous/current read quorum satisfied") |>)
        (op <| op_target_primary_id := primary_id |> <| op_target_snapshot := target |>);
     Ok (Persist (move_to Phase.FailoverPersistConfigurationEpoch now next))) = Ok d →
    decided op fo obs now d) as Hconfirm.
  { intros candidate m Hc ([[pid ms] wq] & Hb%lift_Ok & ([] & Hmin%fail_if_Ok & (target & Ht%lift_Ok & Hd)%bind_Ok)%bind_Ok)%bind_Ok.
    guards. rewrite failover_mut_Some in Hd by done. injection Hd as <-. by eapply de_confirm. }
  destruct dec as [c pq cq|l pq cq|pq cq|c pq cq].
  - eapply Hconfirm; [reflexivity|]. exact H.
  - rewrite failover_mut_Some in H by done. injection H as <-. by eapply de_wait_for; [|left].
  - rewrite failover_mut_Some in H by done. injection H as <-. by eapply de_wait_for; [|right].
  - eapply Hconfirm; [reflexivity|]. exact H.
Qed.

Lemma decided_ends obs now phase :
  phase_ends (op_phase op) = Some phase → decided op fo obs now (Persist (with_phase phase now op)).
Proof.
  intros He.
  assert (with_phase phase now op = (with_phase phase now op)
    <| op_failover := Some (fo <| fo_next_configuration_index := fo_next_configuration_index fo |>) |>) as ->
    by (symmetry; apply keep_failover; change (op_failover (with_phase phase now op)) with (op_failover op);
        rewrite Hfo; by destruct fo).
  by apply de_ends.
Qed.

Lemma decide_act obs now kind id postcondition role done d :
  phase_kind (op_phase op) = Some kind → addressed op fo id → counted (op_phase op) fo = fo →
  (kind = Action.FailoverPromoteCandidate → postcondition = PcRole ∧ role = Some StablePrimary) →
  done = phase_after op fo →
  decide_pending_action op obs now kind id postcondition role (op_phase op) done = Ok d → decided op fo obs now d.
Proof. intros Hk Hid Hc Hp -> H%decide_pending_action_acted. by eapply acted_decided. Qed.

Lemma decided_data_loss obs now d :
  op_phase op = Phase.FailoverNotifyDataLoss → decide_data_loss op obs now = Ok d → decided op fo obs now d.
Proof.
  intros Hph. unfold decide_data_loss.
  assert (∀ d, decide_pending_action op obs now Action.FailoverOnDataLoss (op_target_primary_id op) PcDataLossCompleted None
    Phase.FailoverNotifyDataLoss Phase.FailoverNotifyDataLoss = Ok d → decided op fo obs now d) as Hnotify.
  { clear d. intros d. rewrite <-Hph at 1. intros H. eapply decide_act; [..|exact H]; rewrite ?Hph; try done.
    - unfold addressed. by rewrite Hph.
    - unfold phase_after. by rewrite Hph. }
  destruct (op_pending_action op) as [pa|] eqn:Hpa; [|apply Hnotify].
  destruct (obs !! pa_target_id pa) as [o|] eqn:Ho; [|apply Hnotify].
  intros (action & _ & (signature & _ & (completed & Hc & H)%bind_Ok)%bind_Ok)%bind_Ok.
  destruct completed as [res|]; [|by apply Hnotify].
  rewrite failover_mut_Some in H by done. cbn [mbind result_bind] in H.
  assert (∃ a, correlated_action_observation (ro_status o) (pa_action_id pa) = Some a ∧ do_state a = Completed ∧
    do_result a = Some (ResDataLoss match res with DlNoStateChange => DataLossNone | DlStateChanged => StateChanged end)) as
    (a & Ha & Hst & Hr).
  { unfold completed_data_loss in Hc. destruct (correlated_action_observation _ _) as [a|]; [|discriminate].
    exists a. split; [done|]. destruct (do_state a); try discriminate; apply bind_Ok in Hc as ([] & _ & Hc); [|discriminate].
    split; [done|]. by destruct (do_result a) as [[[]| |]|]; try discriminate; injection Hc as <-. }
  destruct res.
  - injection H as <-. change DlNoStateChange with
      (match DataLossNone with DataLossNone => DlNoStateChange | StateChanged => DlStateChanged end).
    change (move_to Phase.FailoverPromoteCandidate now ?x) with
      ((with_phase Phase.FailoverPromoteCandidate now op) <| op_failover := op_failover x |>).
    eapply (de_data_loss op fo obs now pa o a DataLossNone (op_target_snapshot op)); eauto.
  - apply bind_Ok in H as (target & Ht & H). cbn [op_target_snapshot over] in Ht.
    change DlStateChanged with (match StateChanged with DataLossNone => DlNoStateChange | StateChanged => DlStateChanged end) in H.
    destruct (_ <? _) eqn:Hmin in H.
    + injection H as <-. change (poison ?x ?m) with ((poison (op <| op_target_snapshot := target |>) m) <| op_failover := op_failover x |>).
      eapply (de_data_loss op fo obs now pa o a StateChanged target); eauto.
    + injection H as <-. apply Z.ltb_ge in Hmin.
      change (move_to Phase.FailoverRefreshCandidate now ?x) with
        ((with_phase Phase.FailoverRefreshCandidate now (op <| op_target_snapshot := target |>)) <| op_failover := op_failover x |>).
      eapply (de_data_loss op fo obs now pa o a StateChanged target); eauto.
Qed.

Lemma decided_distribute obs now d :
  op_phase op = Phase.FailoverDistributeEpoch → decide_distribute_epoch op obs now = Ok d → decided op fo obs now d.
Proof.
  intros Hph. unfold decide_distribute_epoch. rewrite failover_ref_Some. cbn [mbind result_bind].
  destruct (target_secondaries op !! _) as [id|] eqn:Hid.
  - intros (d' & Hd & Hc)%bind_Ok. rewrite <-Hph in Hd at 1. rewrite <-Hph in Hd at 1.
    eapply counted_decided; [..|by eapply decide_pending_action_acted|exact Hc]; rewrite ?Hph; try done.
    + unfold addressed. rewrite Hph. by eapply list_elem_of_lookup_2.
    + unfold phase_after. by rewrite Hph.
  - intros [= <-]. apply decided_ends. by rewrite Hph.
Qed.

Lemma decided_record obs now (starting : bool) d :
  op_phase op = (if starting then Phase.FailoverRecordStartingConfiguration else Phase.FailoverRecordElectionConfiguration) →
  decide_record_configuration op obs now starting = Ok d → decided op fo obs now d.
Proof.
  intros Hph. unfold decide_record_configuration. rewrite failover_ref_Some. cbn [mbind result_bind].
  intros (members & Hm & H)%bind_Ok. destruct (members !! _) as [id|] eqn:Hid.
  - apply bind_Ok in H as (d' & Hd & Hc). apply list_elem_of_lookup_2 in Hid.
    eapply counted_decided; [..|by eapply decide_pending_action_acted|exact Hc]; try (by destruct starting; rewrite Hph);
      unfold addressed, phase_after; destruct starting; rewrite ?Hph; try done.
    + unfold recorded_members in Hm. rewrite failover_ref_Some in Hm. injection Hm as <-.
      apply list_elem_of_fmap in Hid as ([i m] & -> & Hin). apply elem_of_btree_entries in Hin. by exists m.
    + by injection Hm as <-.
  - rewrite failover_mut_Some in H by done. injection H as <-.
    change (move_to ?ph now ?x) with ((with_phase ph now op) <| op_failover := op_failover x |>).
    apply de_ends. destruct starting; by rewrite Hph.
Qed.

Lemma decided_label obs now d :
  op_phase op = Phase.FailoverLabelMembers → decide_label_members op obs now = Ok d → decided op fo obs now d.
Proof.
  intros Hph. unfold decide_label_members. rewrite failover_ref_Some. cbn [mbind result_bind].
  destruct (label_members op !! _) as [[id role]|] eqn:Hid.
  - destruct (op_pending_action op) as [pa|] eqn:Hpa.
    + intros ([] & Hk%fail_if_Ok & H)%bind_Ok. guards. destruct (pa_dispatch_authorized pa) eqn:Hauth.
      { injection H as <-. constructor. eauto. }
      destruct (obs !! id); [|injection H as <-; constructor]. destruct (bool_decide _).
      * rewrite failover_mut_Some in H by done. injection H as <-.
        assert (counted (op_phase op) fo = fo <| fo_next_label_index ::= (λ i, u32_add i 1) |>) as <- by by rewrite Hph.
        by eapply de_labelled.
      * injection H as <-. by apply de_authorize.
    + intros [= <-]. apply de_schedule; [done|by rewrite Hph|]. unfold addressed. rewrite Hph.
      apply list_elem_of_fmap. exists (id, role). split; [done|]. by eapply list_elem_of_lookup_2.
  - intros [= <-]. apply decided_ends. by rewrite Hph.
Qed.

(** Whatever [decide_failover] decides is one of the listed decisions. *)
Lemma decide_failover_decided obs now d : decide_failover op obs now = Ok d → decided op fo obs now d.
Proof.
  unfold decide_failover. intros ([] & _ & H)%bind_Ok. rewrite failover_ref_Some in H. cbn [mbind result_bind] in H.
  destruct (op_phase op) eqn:Hph; try discriminate; try (injection H as <-; constructor; fail);
    try (rewrite <-Hph in H at 1; eapply decide_act; [..|exact H]; unfold phase_after; rewrite ?Hph; try done;
         unfold addressed; by rewrite Hph).
  - by apply (decided_record obs now true).
  - destruct (collection_complete op); injection H as <-; [|constructor].
    apply decided_ends. by rewrite Hph.
  - by apply decided_assessment.
  - unfold decide_configuration_epoch in H. apply bind_Ok in H as (cn & Hcn%or_fail_Ok & H).
    rewrite failover_mut_Some in H by done. cbn [mbind result_bind] in H.
    unfold failover_ref in H. cbn in H. injection H as <-.
    by apply (de_configuration_epoch op fo obs now (mkEpochStatus (es_data_loss_number (ss_epoch (op_target_snapshot op))) cn)).
  - unfold decide_data_loss_epoch in H. rewrite failover_ref_Some in H. cbn [mbind result_bind] in H.
    apply bind_Ok in H as (ci & Hci%or_fail_Ok & (dn & Hdn%or_fail_Ok & H)%bind_Ok).
    rewrite failover_mut_Some in H by done. injection H as <-.
    by apply (de_data_loss_epoch op fo obs now ci (mkEpochStatus dn (es_configuration_number ci))).
  - by apply decided_data_loss.
  - unfold decide_commit_promotion in H. rewrite failover_mut_Some in H by done. cbn [mbind result_bind] in H.
    apply bind_Ok in H as (snapshot & Hs & [= <-]). by apply de_commit.
  - by apply decided_distribute.
  - by apply (decided_record obs now false).
  - by apply decided_label.
  - unfold decide_attest in H. destruct (final_attestation_complete op); [|injection H as <-; constructor].
    apply bind_Ok in H as (snapshot & Hs & [= <-]). by apply de_complete.
Qed.
End steps.

(** ** One reconcile *)

(** The observations are those the turn's probe answers. *)
Definition answered (turn : FailoverTurn) (obs : OperationObservations) : Prop :=
  ∀ id o, obs !! id = Some o → ft_status turn id = Ok (ro_status o).

Section reconciles.
  Context {Ends : Endpoints} {Codec : PayloadCodec}.

Inductive fstep (op : DurableOperationStatus) (fo : DurableFailoverStatus) (turn : FailoverTurn) : FailoverEffect → Prop :=
| fs_adopt id instance next :
    adopt_replacement_before_confirmation op id instance (ft_now turn) = Ok next →
    fstep op fo turn (FePersist next None)
| fs_drop id next :
    fo_target_confirmed fo = true → fo_promotion_committed fo = true → id ≠ op_target_primary_id op →
    minimum_replicas op ≤ Z.of_nat (length (ss_members (op_target_snapshot op)) - 1) →
    drop_replaced op id = Ok next → fstep op fo turn (FePersist next None)
| fs_poison m index :
    fstep op fo turn (FePersist ((poison op m) <| op_failover := Some (fo <| fo_next_unavailable_index := index |>) |>) None)
| fs_recorded id status next index :
    op_phase op = Phase.FailoverCollect ∨ is_waiting (op_phase op) = true →
    ft_status turn id = Ok status → record_observation op id status false (ft_now turn) = Ok next →
    fstep op fo turn (FePersist (next <| op_failover ::=
      fmap (M := option) (λ fo, fo <| fo_next_unavailable_index := index |>) |>) None)
| fs_unavailable ids index :
    op_phase op = Phase.FailoverCollect ∨ is_waiting (op_phase op) = true →
    fstep op fo turn (FePersist (op <| op_failover :=
      Some (fo <| fo_unavailable_replicas := ids |> <| fo_next_unavailable_index := index |>) |>) None)
| fs_refreshed status next :
    op_phase op = Phase.FailoverRefreshCandidate → ft_status turn (op_target_primary_id op) = Ok status →
    refresh_candidate op status (ft_now turn) = Ok next → fstep op fo turn (FePersist next None)
| fs_attest id status next :
    op_phase op = Phase.FailoverAttest → ft_status turn id = Ok status →
    record_observation op id status true (ft_now turn) = Ok next → fstep op fo turn (FePersist next None)
| fs_skip pa :
    op_pending_action op = Some pa → pa_kind pa = Action.FailoverRecordStartingConfiguration →
    fstep op fo turn (FePersist (skip_record op) None)
| fs_label_done pa :
    op_pending_action op = Some pa → pa_kind pa = Action.FailoverLabelMember →
    fstep op fo turn (FePersist (label_done op fo) None)
| fs_authorize pa :
    op_pending_action op = Some pa → fstep op fo turn (FePersist (set_authorized true op) None)
| fs_patch id role : fstep op fo turn (FePatchLabel id role)
| fs_requeue : fstep op fo turn (FeRequeue None)
| fs_dispatch pa status handles instance action persisted sent :
    op_pending_action op = Some pa → pa_dispatch_authorized pa = true → ft_status turn (pa_target_id pa) = Ok status →
    failover_action_for op pa handles = Ok action →
    dispatch (ft_call turn) op pa status instance action false = (persisted, sent) →
    fstep op fo turn match persisted with Some next => FePersist next sent | None => FeRequeue sent end
| fs_decided op' obs d eff :
    op' = op ∨ op' = set_authorized false op → answered turn obs → decided op' fo obs (ft_now turn) d →
    apply_failover_decision (ft_pods turn) d = Ok eff → fstep op fo turn eff.

Context (op : DurableOperationStatus) (fo : DurableFailoverStatus) (Hfo : op_failover op = Some fo).
Context (turn : FailoverTurn).

Lemma set_failover_index :
  (fo <| fo_next_unavailable_index := fo_next_unavailable_index fo |>) = fo.
Proof. by destruct fo. Qed.

Lemma fs_fail_closed m : fstep op fo turn (FePersist (fail_closed op m) None).
Proof.
  assert (fail_closed op m = (poison op m) <| op_failover := Some (fo <| fo_next_unavailable_index := fo_next_unavailable_index fo |>) |>) as ->
    by (rewrite set_failover_index; symmetry; by apply keep_failover).
  constructor.
Qed.

Lemma decide_fstep op' obs d eff :
  op' = op ∨ op' = set_authorized false op → answered turn obs →
  decide_or_fail_closed op op' obs (ft_now turn) = Ok d → apply_failover_decision (ft_pods turn) d = Ok eff →
  fstep op fo turn eff.
Proof.
  intros Hop Hobs Hd Heff. unfold decide_or_fail_closed in Hd.
  destruct (decide_failover op' obs (ft_now turn)) as [d'|[m|m]] eqn:Hdf; [| |discriminate].
  - injection Hd as <-. eapply fs_decided; [done|done| |done]. eapply decide_failover_decided; [|done].
    by destruct Hop as [->| ->].
  - injection Hd as <-. injection Heff as <-. apply fs_fail_closed.
Qed.

Lemma probe_answered handles id obs : probe turn handles id = Ok obs → answered turn obs.
Proof.
  unfold probe, answered. destruct id as [id|]; [|by intros [= <-] ? ? ?%lookup_empty_Some].
  destruct (handles !! id), (find_pod (ft_pods turn) id); try (by intros [= <-] ? ? ?%lookup_empty_Some).
  destruct (ft_status turn id) as [status|e] eqn:Hs.
  - intros [= <-] id' o. rewrite lookup_singleton_Some. by intros [<- <-].
  - destruct e; try discriminate; by intros [= <-] ? ? ?%lookup_empty_Some.
Qed.

Lemma authorized_fstep pa handles obs eff :
  op_pending_action op = Some pa → pa_dispatch_authorized pa = true → answered turn obs →
  reconcile_authorized op fo pa handles obs turn = Ok eff → fstep op fo turn eff.
Proof.
  intros Hpa Hauth Hobs. unfold reconcile_authorized.
  destruct (failover_pending_label op) as [[id role]|] eqn:Hlabel.
  - assert (pa_kind pa = Action.FailoverLabelMember) as Hk.
    { unfold failover_pending_label in Hlabel. rewrite Hpa in Hlabel. simpl in Hlabel.
      destruct (bool_decide _) eqn:Hb; [|discriminate]. by guards. }
    destruct (find_pod _ _); [|intros [= <-]; constructor].
    destruct (bool_decide _); intros [= <-]; [by eapply fs_label_done|constructor].
  - intros (d & Hd & H)%bind_Ok. destruct (still_incomplete d); [|by eapply (decide_fstep _ obs d); [right|..]].
    destruct (obs !! pa_target_id pa) as [o|] eqn:Ho; [|injection H as <-; constructor].
    destruct (handles !! pa_target_id pa) as [h|]; [|injection H as <-; constructor].
    apply bind_Ok in H as (action & Hact & H).
    destruct (dispatch _ _ _ _ _ _ _) as [persisted sent] eqn:Hdisp. injection H as <-.
    eapply fs_dispatch; eauto.
Qed.

Lemma action_fstep handles obs eff :
  answered turn obs → reconcile_action op fo handles obs turn = Ok eff → fstep op fo turn eff.
Proof.
  intros Hobs. unfold reconcile_action. destruct (has_pending _ _) eqn:Hskip.
  { intros [= <-]. unfold has_pending in Hskip. destruct (op_pending_action op) as [pa|] eqn:Hpa; [|discriminate].
    apply andb_true_iff in Hskip as [Hk _]. guards. by eapply fs_skip. }
  clear Hskip. destruct (_ && _) eqn:Hlabel.
  - apply andb_true_iff in Hlabel as [_ Hun]. unfold has_pending in Hun.
    destruct (op_pending_action op) as [pa|] eqn:Hpa; [|discriminate].
    unfold reconcile_label. intros ([id desired] & Hl%or_fail_Ok & H)%bind_Ok. injection H as <-.
    unfold failover_pending_label in Hl. rewrite Hpa in Hl. simpl in Hl. destruct (bool_decide (pa_kind pa = _)) eqn:Hb; [|discriminate].
    guards. destruct (_ || _); [by eapply fs_label_done|by eapply fs_authorize].
  - destruct (op_pending_action op) as [pa|] eqn:Hpa.
    + destruct (pa_dispatch_authorized pa) eqn:Hauth; [by apply authorized_fstep|].
      intros (d & Hd & H)%bind_Ok. by eapply (decide_fstep op obs d); [left|..].
    + intros (d & Hd & H)%bind_Ok. by eapply (decide_fstep op obs d); [left|..].
Qed.

Lemma rotate_fs next :
  ∃ index, rotate_probe op next (fo_next_unavailable_index fo) = next ∨
    rotate_probe op next (fo_next_unavailable_index fo) =
      next <| op_failover ::= fmap (M := option) (λ fo, fo <| fo_next_unavailable_index := index |>) |>.
Proof. unfold rotate_probe. destruct (_ <? _)%nat; [eexists; by right|exists 0; by left]. Qed.

(** A reconcile that does not fail makes one of these steps. *)
Lemma reconcile_fstep eff : reconcile_failover_operation op turn = Ok eff → fstep op fo turn eff.
Proof.
  unfold reconcile_failover_operation. intros ([] & _ & H)%bind_Ok. rewrite Hfo in H. cbn [or_fail ok_or mbind result_bind] in H.
  destruct (replaced_member fo (ft_pods turn)) as [[id instance]|].
  { apply bind_Ok in H as (next & Hn & [= <-]). unfold replace_member in Hn.
    destruct (fo_target_confirmed fo) eqn:Hc; simpl in Hn; [|by eapply fs_adopt].
    destruct (_ && _) eqn:Hcom; [|injection Hn as <-; apply fs_fail_closed].
    apply andb_true_iff in Hcom as [Hcom Hne%negb_true_iff%Z.eqb_neq].
    destruct (_ <? _) eqn:Hmin; [injection Hn as <-; apply fs_fail_closed|]. apply Z.ltb_ge in Hmin. by eapply fs_drop. }
  apply bind_Ok in H as (obs & Hobs%probe_answered & H).
  destruct (failover_probe_id op) as [id|]; [|by eapply action_fstep].
  cbn [mbind option_bind] in H. destruct (obs !! id) as [o|] eqn:Ho; cbn [mbind option_bind] in H.
  - specialize (Hobs id o Ho) as Hst.
    destruct (bool_decide (op_phase op = Phase.FailoverCollect) || is_waiting (op_phase op)) eqn:Hrec.
    + assert (op_phase op = Phase.FailoverCollect ∨ is_waiting (op_phase op) = true) as Hph.
      { apply orb_true_iff in Hrec as [Hb%bool_decide_eq_true|Hb]; [by left|by right]. }
      apply bind_Ok in H as (next & Hn & [= <-]). unfold record_probe in Hn. apply bind_Ok in Hn as (n & Hn & Heq).
      unfold or_fail_closed in Hn. destruct (record_observation _ _ _ _ _) as [n'|[m|m]] eqn:Hr; [| |discriminate].
      * injection Hn as ->. assert (n = n <| op_failover ::= fmap (M := option) (λ fo, fo <| fo_next_unavailable_index := 
          match op_failover n with Some fo => fo_next_unavailable_index fo | None => 0 end |>) |>) as Hid.
        { destruct (op_failover n) as [f|] eqn:Hf; destruct n; simpl in *; subst; [by destruct f|done]. }
        assert (∀ index, fstep op fo turn (FePersist (n <| op_failover ::=
          fmap (M := option) (λ fo, fo <| fo_next_unavailable_index := index |>) |>) None)) as Hidx
          by (intros index; by eapply (fs_recorded op fo turn id (ro_status o))).
        destruct (is_waiting _); injection Heq as <-; [|rewrite Hid; apply Hidx].
        destruct (rotate_fs n) as [index [-> | ->]]; [rewrite Hid|]; apply Hidx.
      * injection Hn as <-. destruct (is_waiting _); injection Heq as <-; [|apply fs_fail_closed].
        destruct (rotate_fs (fail_closed op m)) as [index [-> | ->]]; [apply fs_fail_closed|].
        assert ((fail_closed op m) <| op_failover ::= fmap (M := option) (λ fo, fo <| fo_next_unavailable_index := index |>) |> =
          (poison op m) <| op_failover := Some (fo <| fo_next_unavailable_index := index |>) |>) as ->
          by (destruct op; simpl in *; by subst). constructor.
    + destruct (bool_decide (op_phase op = Phase.FailoverAttest)) eqn:Hatt.
      * guards. apply bind_Ok in H as (next & Hn & [= <-]). unfold or_fail_closed in Hn.
        destruct (record_observation _ _ _ _ _) as [n'|[m|m]] eqn:Hr; [| |discriminate]; injection Hn as <-; [|apply fs_fail_closed].
        by eapply fs_attest.
      * destruct (_ && _) eqn:Href; [|by eapply action_fstep].
        apply andb_true_iff in Href as [Hrf ->%Z.eqb_eq]. guards. apply bind_Ok in H as (next & Hn & [= <-]).
        by eapply fs_refreshed.
  - destruct (bool_decide (op_phase op = Phase.FailoverCollect)) eqn:Hcol.
    + guards. injection H as <-. unfold mark_unavailable.
      match goal with |- fstep _ _ _ (FePersist (op <| op_failover := Some (fo <| fo_unavailable_replicas ::= ?f |>) |>) _) =>
        change (fo <| fo_unavailable_replicas ::= f |>) with (fo <| fo_unavailable_replicas := f (fo_unavailable_replicas fo) |>
          <| fo_next_unavailable_index := fo_next_unavailable_index fo |>) end.
      apply fs_unavailable. by left.
    + destruct (is_waiting (op_phase op)) eqn:Hw; [|by eapply action_fstep]. injection H as <-.
      assert (∀ index, fstep op fo turn (FePersist (op <| op_failover ::=
          fmap (M := option) (λ fo, fo <| fo_next_unavailable_index := index |>) |>) None)) as Hidx.
      { intros index. assert (op <| op_failover ::= fmap (M := option) (λ fo, fo <| fo_next_unavailable_index := index |>) |> =
          op <| op_failover := Some (fo <| fo_unavailable_replicas := fo_unavailable_replicas fo |>
            <| fo_next_unavailable_index := index |>) |>) as -> by (destruct op, fo; simpl in *; by subst).
        apply fs_unavailable. by right. }
      destruct (rotate_fs op) as [index [-> | ->]]; [|apply Hidx].
      pose proof (Hidx (fo_next_unavailable_index fo)) as Hs.
      assert (op <| op_failover ::= fmap (M := option) (λ f, f <| fo_next_unavailable_index := fo_next_unavailable_index fo |>) |> = op)
        as Heq by (destruct op, fo; simpl in *; by subst). by rewrite Heq in Hs.
Qed.
End reconciles.
