(* ===== verification/FailoverRuns.v ===== *)
(** Runs of a failover: its reconciles from the start, whatever the pods, the
    replicas and the clock answer and whichever status writes are lost; the
    invariant every checkpoint keeps, and what led to it. *)

From S2P Require Import Prelude Types Lifecycle Control Agent Convert Wire Crd Operation Effects Election Failover FailoverLoop FailoverSteps.

Set Default Goal Selector "!".

(** ** Runs *)

Record entry := mkEntry {
  en_operation : DurableOperationStatus;
  en_turn : FailoverTurn;
  en_effect : FailoverEffect;
}.

(** The checkpoint after an effect, none once the operation is complete. *)
Definition next_operation (op : DurableOperationStatus) (eff : FailoverEffect) : option DurableOperationStatus :=
  match eff with
  | FePersist next _ | FeCommit next _ => Some next
  | FeComplete _ _ => None
  | _ => Some op
  end.

Definition sent_request (eff : FailoverEffect) : option CorrelatedControlActionRequest :=
  match eff with FePersist _ sent | FeRequeue sent => sent | _ => None end.

(** How far a phase is: 0 poisoned, 1 before a candidate is confirmed, 9 once
    the promotion is committed. *)
Definition rank (phase : Phase.DurableOperationPhase) : Z :=
  match phase with
  | Phase.Poisoned => 0
  | Phase.FailoverRecordStartingConfiguration | Phase.FailoverCollect | Phase.FailoverAssess
  | Phase.FailoverWaitForBestCandidate | Phase.FailoverWaitForReadQuorum => 1
  | Phase.FailoverPersistConfigurationEpoch => 2
  | Phase.FailoverPersistDataLossEpoch => 3
  | Phase.FailoverApplyCandidateEpoch => 4
  | Phase.FailoverNotifyDataLoss => 5
  | Phase.FailoverRefreshCandidate => 6
  | Phase.FailoverPromoteCandidate => 7
  | Phase.FailoverCommitPromotion => 8
  | Phase.FailoverDistributeEpoch | Phase.FailoverCatchUpConfiguration | Phase.FailoverWaitForCatchUpQuorum
  | Phase.FailoverCurrentConfiguration | Phase.FailoverRecordElectionConfiguration
  | Phase.FailoverLabelMembers | Phase.FailoverAttest | Phase.Completed => 9
  | _ => 10
  end.

Definition is_data_loss (d : ElectionDecision) : bool :=
  match d with DataLossRequired _ _ _ => true | _ => false end.

Definition is_candidate (c : RankedCandidate) (m : StableReplicaSnapshotStatus) : Prop := srs_id m = rk_id c.

Section runs.
  Context {Ends : Endpoints} {Codec : PayloadCodec}.
  Context (p : StablePartitionSnapshotStatus) (minimum : Z).

Inductive frun : list entry → DurableOperationStatus → Prop :=
| fr_start uid failed replicas now op :
    start_failover uid p failed replicas now = Ok op → minimum = as_u32 (Nat.max replicas 1) → frun [] op
| fr_turn tr op turn eff next :
    frun tr op → reconcile_failover_operation op turn = Ok eff → next_operation op eff = Some next →
    frun (mkEntry op turn eff :: tr) next
| fr_lost tr op turn eff :
    frun tr op → reconcile_failover_operation op turn = Ok eff → frun (mkEntry op turn eff :: tr) op.

(** ** Evidence *)

(** Some reconcile of the run did [P]. *)
Definition happened (P : entry → Prop) (tr : list entry) : Prop := ∃ en, en ∈ tr ∧ P en.
Lemma happened_sub P tr tr2 : tr ⊆ tr2 → happened P tr → happened P tr2.
Proof. intros Hsub (en & Hin & HP). exists en. split; [by apply Hsub|done]. Qed.
Lemma happened_in P en tr : en ∈ tr → P en → happened P tr.
Proof. intros. by exists en. Qed.

(** An assessment of the recorded observations decided on [c], with [members]
    as the target, giving up the read quorum or not. *)
Definition elected (members : list StableReplicaSnapshot) (c : RankedCandidate) (data_loss : bool) (en : entry) : Prop :=
  op_phase (en_operation en) = Phase.FailoverAssess ∧
  ∃ input d write_quorum, election_input (en_operation en) = Ok input ∧ failed_primary_id input = ss_primary_id p ∧
    evaluate input = Ok d ∧ decided_candidate d = Some c ∧ data_loss = is_data_loss d ∧
    build_target input d false = Ok (rk_id c, members, write_quorum).

(** The candidate's status, asked for the pending action [kind] at [epoch]. *)
Definition asked (kind : Action.DurableActionKind) (epoch : EpochStatus) (c : RankedCandidate)
    (Q : PendingActionStatus → ReplicaStatusInfo → Prop) (en : entry) : Prop :=
  ∃ pa status, op_pending_action (en_operation en) = Some pa ∧ pa_kind pa = kind ∧ pa_target_id pa = rk_id c ∧
    pa_expected_epoch pa = epoch ∧ ft_status (en_turn en) (rk_id c) = Ok status ∧ Q pa status.

Definition completed_as (pa : PendingActionStatus) (status : ReplicaStatusInfo) (R : option DurableActionResult → Prop) : Prop :=
  ∃ a, correlated_action_observation status (pa_action_id pa) = Some a ∧ do_state a = Completed ∧ R (do_result a).

(** The candidate showed itself primary at the epoch, or its promotion done. *)
Definition promoted (epoch : EpochStatus) (c : RankedCandidate) : entry → Prop :=
  asked Action.FailoverPromoteCandidate epoch c (λ pa status,
    (si_role status = Primary ∧ si_epoch status = to_epoch epoch) ∨ completed_as pa status (λ _, True)).

(** The candidate answered the data-loss callback. *)
Definition callback_answered (epoch : EpochStatus) (c : RankedCandidate) : entry → Prop :=
  asked Action.FailoverOnDataLoss epoch c (λ pa status,
    completed_as pa status (λ r, ∃ res, r = Some (ResDataLoss res))).

Definition committed (s : StablePartitionSnapshotStatus) (en : entry) : Prop :=
  ∃ op, en_effect en = FeCommit op s.

(** A member answered the final attestation, against the target of the time. *)
Definition attested (target : StablePartitionSnapshotStatus) (o : ReplicaElectionObservationStatus) (en : entry) : Prop :=
  let then_target := op_target_snapshot (en_operation en) in
  op_phase (en_operation en) = Phase.FailoverAttest ∧ ss_epoch then_target = ss_epoch target ∧
  ss_members target ⊆ ss_members then_target ∧
  ∃ status, ft_status (en_turn en) (eos_id o) = Ok status ∧
    o = observation_status (eos_id o) status
          (target_runtime_configuration_matches (si_election_configuration status) then_target).

(** ** The invariant *)

(** The pending action is the phase's, for whom it addresses, at the target
    epoch; its payload, if any, is of the action the checkpoint asks for. *)
Record pending_ok (op : DurableOperationStatus) (fo : DurableFailoverStatus) (pa : PendingActionStatus) : Prop := mkPendingOk {
  pk_kind : phase_kind (op_phase op) = Some (pa_kind pa);
  pk_target : addressed op fo (pa_target_id pa);
  pk_epoch : pa_expected_epoch pa = ss_epoch (op_target_snapshot op);
  pk_instance : pa_target_instance_id pa = default "" (target_instance op (pa_target_id pa));
  pk_payload : pa_dispatch_action_payload pa = "" ∨ ∃ handles action,
    failover_action_for op pa handles = Ok action ∧ encode_payload action = Ok (pa_dispatch_action_payload pa);
}.

(** The epoch intents, persisted before the target has their epoch. *)
Definition epochs_ok (fo : DurableFailoverStatus) (epoch : EpochStatus) : Prop :=
  let dn := es_data_loss_number (ss_epoch p) in
  let cn := es_configuration_number (ss_epoch p) in
  match fo_configuration_epoch_intent fo, fo_data_loss_epoch_intent fo with
  | None, None => epoch = ss_epoch p
  | Some c, None => c = mkEpochStatus dn (cn + 1) ∧ epoch = c
  | Some c, Some d => c = mkEpochStatus dn (cn + 1) ∧ d = mkEpochStatus (dn + 1) (cn + 1) ∧ epoch = d ∧
      fo_data_loss_required fo = true
  | None, Some _ => False
  end.

Record unconfirmed (op : DurableOperationStatus) (fo : DurableFailoverStatus) : Prop := mkUnconfirmed {
  un_confirmed : fo_target_confirmed fo = false;
  un_committed : fo_promotion_committed fo = false;
  un_required : fo_data_loss_required fo = false;
  un_configuration : fo_configuration_epoch_intent fo = None;
  un_data_loss : fo_data_loss_epoch_intent fo = None;
  un_attested : fo_final_attestations fo = [];
  un_target : op_target_snapshot op = p;
  un_rank : 0 ≤ rank (op_phase op) ≤ 1;
}.

Record confirmed (tr : list entry) (op : DurableOperationStatus) (fo : DurableFailoverStatus)
    (c : RankedCandidate) (members : list StableReplicaSnapshot) : Prop := mkConfirmed {
  cf_confirmed : fo_target_confirmed fo = true;
  cf_elected : happened (elected members c (fo_data_loss_required fo)) tr;
  cf_primary : op_target_primary_id op = rk_id c ∧ ss_primary_id (op_target_snapshot op) = rk_id c;
  cf_members : ∀ m, m ∈ ss_members (op_target_snapshot op) → ∃ s, s ∈ members ∧ sr_id s = srs_id m ∧
    sr_instance_id s = srs_instance_id m ∧ (srs_role m = StablePrimary ↔ srs_id m = rk_id c);
  cf_ids : NoDup (srs_id <$> ss_members (op_target_snapshot op));
  cf_candidate : rk_id c ∈ srs_id <$> ss_members (op_target_snapshot op);
  cf_quorum : ss_write_quorum (op_target_snapshot op) = majority (ss_members (op_target_snapshot op));
  cf_minimum : rank (op_phase op) = 0 ∧ fo_promotion_committed fo = false ∨
    minimum ≤ Z.of_nat (length (ss_members (op_target_snapshot op)));
  cf_current : ∀ m, m ∈ ss_members (op_target_snapshot op) →
    fms_instance_id <$> List.find (λ f, fms_id f =? srs_id m) (fcs_members (fo_current_configuration fo)) =
      Some (srs_instance_id m);
  cf_epoch : epochs_ok fo (ss_epoch (op_target_snapshot op));
  cf_rank : rank (op_phase op) = 0 ∨ 2 ≤ rank (op_phase op) ≤ 9;
  cf_intent : 3 ≤ rank (op_phase op) ∨ fo_promotion_committed fo = true → is_Some (fo_configuration_epoch_intent fo);
  cf_fresh : rank (op_phase op) = 2 → fo_configuration_epoch_intent fo = None;
  cf_data_loss_phase : rank (op_phase op) = 3 → fo_data_loss_required fo = true ∧ fo_data_loss_epoch_intent fo = None;
  cf_negotiates : 5 ≤ rank (op_phase op) ≤ 6 → fo_data_loss_required fo = true;
  cf_data_loss_intent : 4 ≤ rank (op_phase op) ∨ fo_promotion_committed fo = true → fo_data_loss_required fo = true → is_Some (fo_data_loss_epoch_intent fo);
  cf_callback : 6 ≤ rank (op_phase op) ∨ fo_promotion_committed fo = true → fo_data_loss_required fo = true →
    happened (callback_answered (ss_epoch (op_target_snapshot op)) c) tr;
  cf_promoted : 8 ≤ rank (op_phase op) ∨ fo_promotion_committed fo = true →
    happened (promoted (ss_epoch (op_target_snapshot op)) c) tr;
  cf_committed : 9 ≤ rank (op_phase op) ↔ (0 < rank (op_phase op) ∧ fo_promotion_committed fo = true);
  cf_snapshot : fo_promotion_committed fo = true → ∃ s, op_committed_snapshot op = Some s ∧ happened (committed s) tr ∧
    ss_epoch s = ss_epoch (op_target_snapshot op) ∧ ss_primary_id s = rk_id c ∧ srs_id <$> ss_members s = [rk_id c];
  cf_unattested : fo_promotion_committed fo = false → fo_final_attestations fo = [];
  cf_attested : ∀ o, o ∈ fo_final_attestations fo → happened (attested (op_target_snapshot op) o) tr;
}.

Record failing (tr : list entry) (op : DurableOperationStatus) (fo : DurableFailoverStatus) : Prop := mkFailing {
  fl_kind : op_kind op = OpFailover;
  fl_failover : op_failover op = Some fo;
  fl_single : fo_previous_configuration fo = None;
  fl_previous : op_previous_snapshot op = Some p;
  fl_old : op_old_primary_id op = ss_primary_id p;
  fl_minimum : op_minimum_committed_replicas op = Some minimum;
  fl_pending pa : op_pending_action op = Some pa → pending_ok op fo pa;
  fl_stage : unconfirmed op fo ∨ ∃ c members, confirmed tr op fo c members;
}.

(** ** Steps that keep the stage *)

(** What most steps leave alone in the failover's own checkpoint. *)
Record same_course (fo fo' : DurableFailoverStatus) : Prop := mkSameCourse {
  sc_single : fo_previous_configuration fo' = fo_previous_configuration fo;
  sc_current : fo_current_configuration fo' = fo_current_configuration fo;
  sc_attested : fo_final_attestations fo' = fo_final_attestations fo;
  sc_confirmed : fo_target_confirmed fo' = fo_target_confirmed fo;
  sc_required : fo_data_loss_required fo' = fo_data_loss_required fo;
  sc_configuration : fo_configuration_epoch_intent fo' = fo_configuration_epoch_intent fo;
  sc_data_loss : fo_data_loss_epoch_intent fo' = fo_data_loss_epoch_intent fo;
  sc_committed : fo_promotion_committed fo' = fo_promotion_committed fo;
}.

Lemma same_course_refl fo : same_course fo fo.
Proof. by constructor. Qed.

(** And in the operation. *)
Record same_plan (op op' : DurableOperationStatus) : Prop := mkSamePlan {
  sp_kind : op_kind op' = op_kind op;
  sp_previous : op_previous_snapshot op' = op_previous_snapshot op;
  sp_old : op_old_primary_id op' = op_old_primary_id op;
  sp_minimum : op_minimum_committed_replicas op' = op_minimum_committed_replicas op;
  sp_target : op_target_snapshot op' = op_target_snapshot op;
  sp_primary : op_target_primary_id op' = op_target_primary_id op;
  sp_committed : op_committed_snapshot op' = op_committed_snapshot op;
}.

(** A move between phases that asks for nothing new but, possibly, the
    evidence given with it. *)
Definition moves (fo : DurableFailoverStatus) (a b : Z) : Prop :=
  b = 0 ∨ a = 1 ∧ b = 1 ∨ 0 < a ∧ 2 ≤ b ≤ 9 ∧ (3 ≤ b → 3 ≤ a) ∧ (b = 2 → a = 2) ∧ (b = 3 → a = 3) ∧
    (4 ≤ b → fo_data_loss_required fo = true → 4 ≤ a) ∧
    (5 ≤ b ≤ 6 → 5 ≤ a ≤ 6 ∨ fo_data_loss_required fo = true) ∧ (9 ≤ b ↔ 9 ≤ a).

Lemma unconfirmed_moves op fo op' fo' :
  unconfirmed op fo → same_course fo fo' → same_plan op op' → 0 ≤ rank (op_phase op') ≤ 1 → unconfirmed op' fo'.
Proof. intros [] [] [] Hr. constructor; congruence || done. Qed.

Lemma confirmed_moves tr tr2 op fo c members op' fo' :
  tr ⊆ tr2 → confirmed tr op fo c members → same_course fo fo' → same_plan op op' →
  moves fo (rank (op_phase op)) (rank (op_phase op')) →
  (6 ≤ rank (op_phase op') → fo_data_loss_required fo = true → 6 ≤ rank (op_phase op) ∨
     happened (callback_answered (ss_epoch (op_target_snapshot op)) c) tr2) →
  (8 ≤ rank (op_phase op') → 8 ≤ rank (op_phase op) ∨ happened (promoted (ss_epoch (op_target_snapshot op)) c) tr2) →
  confirmed tr2 op' fo' c members.
Proof.
  intros Hsub [] [] [] Hmv Hcb Hpr. unfold moves in Hmv.
  constructor; rewrite ?sp_target0, ?sp_primary0, ?sp_committed0, ?sc_required0, ?sc_confirmed0, ?sc_current0,
    ?sc_configuration0, ?sc_data_loss0, ?sc_committed0, ?sc_attested0; try done.
  - by apply (happened_sub _ _ _ Hsub).
  - destruct cf_minimum0 as [[Hr Hc]|]; [|by right]. left. split; [|done]. lia.
  - unfold epochs_ok in *. by rewrite sc_configuration0, sc_data_loss0, sc_required0.
  - lia.
  - intros Hor. apply cf_intent0. destruct Hor; [left; lia|by right].
  - intros Hr. apply cf_fresh0. lia.
  - intros Hr. apply cf_data_loss_phase0. lia.
  - intros Hr. destruct Hmv as [|[|(_ & _ & _ & _ & _ & _ & Hn & _)]]; [lia..|].
    destruct (Hn Hr); [by apply cf_negotiates0|done].
  - intros Hor Hdl. apply cf_data_loss_intent0; [|done]. destruct Hor; [left|by right].
    destruct Hmv as [|[|(_ & _ & _ & _ & _ & H4 & _)]]; [lia..|by apply H4].
  - intros Hor Hdl. destruct Hor as [Hr|Hc]; [|by apply (happened_sub _ _ _ Hsub), cf_callback0; [right|]].
    destruct (Hcb Hr Hdl) as [Hr'|Hen]; [by apply (happened_sub _ _ _ Hsub), cf_callback0; [left|]|done].
  - intros [Hr|Hc]; [|by apply (happened_sub _ _ _ Hsub), cf_promoted0; right].
    destruct (Hpr Hr) as [Hr'|Hen]; [by apply (happened_sub _ _ _ Hsub), cf_promoted0; left|done].
  - destruct cf_committed0 as [H1 H2]. split.
    + intros Hr. split; [lia|]. apply H1. lia.
    + intros [Hr Hc]. destruct Hmv as [|[|(Ha & _ & _ & _ & _ & _ & _ & Hb)]]; [lia|lia|]. apply Hb, H2. done.
  - intros Hc. destruct (cf_snapshot0 Hc) as (s & Hs & Hh & Hrest). exists s. split; [done|]. split; [by apply (happened_sub _ _ _ Hsub)|done].
  - intros o Ho. apply (happened_sub _ _ _ Hsub). by apply cf_attested0.
Qed.

Lemma confirmed_later tr tr2 op fo c members : tr ⊆ tr2 → confirmed tr op fo c members → confirmed tr2 op fo c members.
Proof.
  intros Hsub Hcf. eapply (confirmed_moves tr tr2 op fo c members); [done|done|apply same_course_refl|by constructor|..].
  - pose proof (cf_rank _ _ _ _ _ Hcf). unfold moves. lia.
  - auto.
  - auto.
Qed.

Lemma failing_moves tr tr2 op fo op' fo' :
  tr ⊆ tr2 → failing tr op fo → same_course fo fo' → same_plan op op' → op_failover op' = Some fo' →
  moves fo (rank (op_phase op)) (rank (op_phase op')) →
  (∀ c members, confirmed tr op fo c members →
     (6 ≤ rank (op_phase op') → fo_data_loss_required fo = true → 6 ≤ rank (op_phase op) ∨
        happened (callback_answered (ss_epoch (op_target_snapshot op)) c) tr2) ∧
     (8 ≤ rank (op_phase op') → 8 ≤ rank (op_phase op) ∨ happened (promoted (ss_epoch (op_target_snapshot op)) c) tr2)) →
  (∀ pa, op_pending_action op' = Some pa → pending_ok op' fo' pa) →
  failing tr2 op' fo'.
Proof.
  intros Hsub [] Hc Hp Hfo Hmv Hev Hpend. destruct (id Hp) as [], (id Hc) as []. constructor; try congruence; [done|].
  destruct fl_stage0 as [Hu|(c & members & Hcf)]; [left|right].
  - eapply unconfirmed_moves; [done..|]. pose proof (un_rank _ _ Hu). unfold moves in Hmv. lia.
  - exists c, members. destruct (Hev c members Hcf). by eapply confirmed_moves.
Qed.

(** With the rank kept, no evidence is asked for. *)
Lemma failing_stays tr tr2 op fo op' fo' :
  tr ⊆ tr2 → failing tr op fo → same_course fo fo' → same_plan op op' → op_failover op' = Some fo' →
  rank (op_phase op') = rank (op_phase op) ∨ rank (op_phase op') = 0 →
  (∀ pa, op_pending_action op' = Some pa → pending_ok op' fo' pa) →
  failing tr2 op' fo'.
Proof.
  intros Hsub Hf Hc Hp Hfo Hr Hpend. eapply failing_moves; [done..| | |done].
  - unfold moves. destruct Hr as [->| ->]; [|by left].
    destruct (fl_stage _ _ _ Hf) as [Hu|(c & members & Hcf)].
    + pose proof (un_rank _ _ Hu). lia.
    + pose proof (cf_rank _ _ _ _ _ Hcf). lia.
  - intros c members Hcf. destruct Hr as [->| ->]; split; (lia || auto).
Qed.

Lemma failing_later tr tr2 op fo : tr ⊆ tr2 → failing tr op fo → failing tr2 op fo.
Proof.
  intros Hsub Hf. eapply failing_stays; [done|done|apply same_course_refl|by constructor|apply Hf|by left|apply Hf].
Qed.

Lemma failing_quiet tr op fo : failing tr op fo → phase_kind (op_phase op) = None → op_pending_action op = None.
Proof.
  intros Hf Hk. destruct (op_pending_action op) as [pa|] eqn:Hpa; [|done].
  destruct (fl_pending _ _ _ Hf pa Hpa) as [Hk']. congruence.
Qed.

Lemma failing_unconfirmed tr op fo :
  failing tr op fo → rank (op_phase op) = 1 ∨ fo_target_confirmed fo = false → unconfirmed op fo.
Proof.
  intros Hf Hr. destruct (fl_stage _ _ _ Hf) as [Hu|(c & members & Hcf)]; [done|].
  pose proof (cf_rank _ _ _ _ _ Hcf). pose proof (cf_confirmed _ _ _ _ _ Hcf). destruct Hr; [lia|congruence].
Qed.

Lemma failing_confirmed tr op fo :
  failing tr op fo → 2 ≤ rank (op_phase op) ∨ fo_target_confirmed fo = true → ∃ c members, confirmed tr op fo c members.
Proof.
  intros Hf Hr. destruct (fl_stage _ _ _ Hf) as [Hu|?]; [|done].
  pose proof (un_rank _ _ Hu). pose proof (un_confirmed _ _ Hu). destruct Hr; [lia|congruence].
Qed.

Lemma poison_failing tr tr2 op fo fo' m :
  tr ⊆ tr2 → failing tr op fo → same_course fo fo' → failing tr2 ((poison op m) <| op_failover := Some fo' |>) fo'.
Proof. intros Hsub Hf Hc. eapply failing_stays; [done|done|done|by constructor|done|by right|done]. Qed.

(** *** Pending actions *)

Lemma same_intent_ok op fo op' pa pa' :
  pending_ok op fo pa → same_intent pa pa' → same_plan op op' → op_phase op' = op_phase op → op_failover op' = op_failover op →
  (pa_dispatch_action_payload pa' = pa_dispatch_action_payload pa ∨ pa_dispatch_action_payload pa' = "" ∨
   ∃ handles action, failover_action_for op pa handles = Ok action ∧ encode_payload action = Ok (pa_dispatch_action_payload pa')) →
  pending_ok op' fo pa'.
Proof.
  intros [Hk Ht He Hi Hpay] (a & b & c & d & e & f & g & ->) [] Hph Hfo Hpay'.
  assert (∀ handles, failover_action_for op' (pa <| pa_attempts := a |> <| pa_last_error := b |> <| pa_dispatch_authorized := c |>
      <| pa_dispatch_agent_generation := d |> <| pa_dispatch_agent_control_version := e |>
      <| pa_dispatch_observed_runtime_epoch := f |> <| pa_dispatch_action_payload := g |>) handles =
    failover_action_for op pa handles) as Hact.
  { intros handles. unfold failover_action_for, failover_target_config, committed_config, failover_election_configuration,
      target_election_configuration, failover_ref. cbn [pa_kind pa_expected_epoch over]. by rewrite Hfo, sp_target0, sp_committed0. }
  constructor; cbn [pa_kind pa_target_id pa_expected_epoch pa_target_instance_id pa_dispatch_action_payload over].
  - by rewrite Hph.
  - unfold addressed in *. unfold target_secondaries, label_members in *. by rewrite Hph, sp_target0, sp_primary0, sp_old0.
  - by rewrite sp_target0.
  - unfold target_instance in *. by rewrite Hfo, sp_target0.
  - cbn in Hpay'. destruct Hpay' as [->|[->|(h & action & Ha & Hen)]]; [|by left|].
    + destruct Hpay as [->|(h & action & Ha & Hen)]; [by left|]. right. exists h, action. by rewrite Hact.
    + right. exists h, action. by rewrite Hact.
Qed.

Lemma bookkeeping_plan op op' : bookkeeping op op' → same_plan op op' ∧ op_phase op' = op_phase op ∧ op_failover op' = op_failover op.
Proof. intros (e & pending & -> & _). by split_and!. Qed.

Lemma dispatch_failing tr tr2 op fo pa status handles instance action call next sent :
  tr ⊆ tr2 → failing tr op fo → op_pending_action op = Some pa → failover_action_for op pa handles = Ok action →
  dispatch call op pa status instance action false = (Some next, sent) → failing tr2 next fo.
Proof.
  intros Hsub Hf Hpa Hact Hd. destruct (dispatch_persists call op pa status instance action false next sent Hpa Hd) as [Hb|[m ->]].
  - destruct (bookkeeping_plan _ _ Hb) as (Hplan & Hph & Hfo).
    eapply failing_stays; [done|done|apply same_course_refl|done|rewrite Hfo; apply Hf|left; by rewrite Hph|].
    intros pa' Hpa'. destruct Hb as (e & pending & -> & Hs). rewrite Hpa in Hs. cbn in Hpa'. rewrite Hpa' in Hs.
    eapply same_intent_ok; [by apply (fl_pending _ _ _ Hf)|done|done|done|done|].
    destruct (dispatch_payload call op pa pa' status instance action _ sent Hpa Hd Hpa') as [H|[H|H]];
      [by left|by right; left|right; right; eauto].
  - rewrite <-(keep_failover (poison op m) fo (fl_failover _ _ _ Hf)). by apply (poison_failing tr tr2 op fo); [..|apply same_course_refl].
Qed.

Lemma authorize_failing tr tr2 op fo b : tr ⊆ tr2 → failing tr op fo → failing tr2 (set_authorized b op) fo.
Proof.
  intros Hsub Hf. eapply failing_stays; [done|done|apply same_course_refl|by constructor|apply Hf|by left|].
  intros pa' Hpa'. unfold set_authorized in Hpa'. cbn in Hpa'. destruct (op_pending_action op) as [pa|] eqn:Hpa; [|discriminate].
  injection Hpa' as <-. eapply same_intent_ok; [by apply (fl_pending _ _ _ Hf)| |by constructor|done|done|by left].
  destruct pa. do 7 eexists. cbv. reflexivity.
Qed.

Lemma scheduled_ok op fo kind id postcondition role now :
  phase_kind (op_phase op) = Some kind → addressed op fo id → op_failover op = Some fo →
  pending_ok (op <| op_pending_action := Some (make_pending op kind id postcondition role now) |>) fo
    (make_pending op kind id postcondition role now).
Proof. intros Hk Hid Hfo. by constructor; [..|left]. Qed.

(** *** The election is confirmed *)

Lemma election_input_fields op fo input :
  op_failover op = Some fo → election_input op = Ok input →
  failed_primary_id input = op_old_primary_id op ∧ in_current input = election_configuration_status (fo_current_configuration fo).
Proof.
  intros Hfo. unfold election_input, failover_ref. rewrite Hfo. cbn [or_fail ok_or mbind result_bind].
  by intros (ps & _ & (os & _ & [= <-])%bind_Ok)%bind_Ok.
Qed.

Lemma snapshot_status_spec epoch pid members wq target :
  snapshot_status_try_from (mkStablePartitionSnapshot epoch pid members wq) = Ok target →
  ss_epoch target = of_epoch epoch ∧ ss_primary_id target = pid ∧ ss_write_quorum target = wq ∧
  length (ss_members target) = length members ∧
  Forall2 (λ s m, srs_id m = sr_id s ∧ srs_instance_id m = sr_instance_id s ∧ stable_role (srs_role m) = sr_role s)
    members (ss_members target).
Proof.
  unfold snapshot_status_try_from. intros (ms & Hms & [= <-])%bind_Ok. cbn. split; [done|]. split; [done|]. split; [done|].
  split; [by eapply try_map_length|]. eapply try_map_Ok; [|exact Hms]. intros s m. unfold replica_status_try_from.
  intros (role & Hr & [= <-])%bind_Ok. cbn. split; [done|]. split; [done|]. destruct (sr_role s); try discriminate; by injection Hr as <-.
Qed.

Lemma confirm_confirmed tr tr2 en op fo input d c pid members wq target m now :
  en ∈ tr2 → en_operation en = op → failing tr op fo → unconfirmed op fo →
  op_phase op = Phase.FailoverAssess → election_input op = Ok input → evaluate input = Ok d → decided_candidate d = Some c →
  build_target input d false = Ok (pid, members, wq) → minimum_replicas op ≤ Z.of_nat (length members) →
  snapshot_status_try_from (mkStablePartitionSnapshot (to_epoch (ss_epoch (op_target_snapshot op))) pid members wq) = Ok target →
  confirmed tr2 (move_to Phase.FailoverPersistConfigurationEpoch now
      (op <| op_target_primary_id := pid |> <| op_target_snapshot := target |>
          <| op_failover := Some (fo <| fo_target_confirmed := true |> <| fo_data_loss_required := is_data_loss d |>
               <| fo_assessment := m |>) |>))
    (fo <| fo_target_confirmed := true |> <| fo_data_loss_required := is_data_loss d |> <| fo_assessment := m |>) c members.
Proof.
  set (fo2 := fo <| fo_target_confirmed := true |> <| fo_data_loss_required := is_data_loss d |> <| fo_assessment := m |>).
  assert (fo_current_configuration fo2 = fo_current_configuration fo) as Hcur2 by done.
  assert (fo_configuration_epoch_intent fo2 = fo_configuration_epoch_intent fo) as Hci2 by done.
  assert (fo_data_loss_epoch_intent fo2 = fo_data_loss_epoch_intent fo) as Hdi2 by done.
  assert (fo_promotion_committed fo2 = fo_promotion_committed fo) as Hpc2 by done.
  assert (fo_final_attestations fo2 = fo_final_attestations fo) as Hfa2 by done.
  assert (fo_target_confirmed fo2 = true ∧ fo_data_loss_required fo2 = is_data_loss d) as [Hc2 Hr2] by done.
  clearbody fo2.
  intros Hen Heno Hf Hu Hph Hin Hev Hc Hb Hmin Ht.
  destruct (election_input_fields _ _ _ (fl_failover _ _ _ Hf) Hin) as [Hfailed Hcur].
  destruct (build_target_spec _ _ _ _ _ _ Hev Hb) as (c' & Hc' & -> & Hcin & Hsort & -> & _ & Hms).
  rewrite Hc in Hc'. injection Hc' as <-.
  destruct (snapshot_status_spec _ _ _ _ _ Ht) as (He & Hp & Hq & Hlen & Hall). rewrite of_to_epoch in He.
  pose proof (evaluate_valid _ _ Hev _ (or_introl eq_refl)) as Hnd.
  assert (srs_id <$> ss_members target = sr_id <$> members) as Hids.
  { clear -Hall. induction Hall as [|s m l l' (H & _) _ IH]; [done|]. rewrite !fmap_cons. by rewrite H, IH. }
  assert (∀ x, x ∈ ss_members target → ∃ s, s ∈ members ∧ srs_id x = sr_id s ∧ srs_instance_id x = sr_instance_id s ∧
    stable_role (srs_role x) = sr_role s) as Hmem.
  { intros x [k Hk]%list_elem_of_lookup. destruct (Forall2_lookup_r _ _ _ _ _ Hall Hk) as (s & Hs & H).
    exists s. split; [by eapply list_elem_of_lookup_2|done]. }
  pose proof (un_target _ _ Hu) as Htp.
  constructor; cbn [op_target_snapshot op_target_primary_id op_phase over move_to rank];
    rewrite ?Hcur2, ?Hci2, ?Hdi2, ?Hpc2, ?Hfa2, ?Hc2, ?Hr2, ?(un_committed _ _ Hu), ?(un_attested _ _ Hu); try done; try lia.
  - eapply happened_in; [exact Hen|]. unfold elected. rewrite Heno. split; [done|]. exists input, d, (as_u32 (length members) / 2 + 1).
    by rewrite Hfailed, (fl_old _ _ _ Hf).
  - intros x Hx. destruct (Hmem x Hx) as (s & Hs & Hid & Hi & Hr). exists s. split; [done|]. split; [done|]. split; [done|].
    destruct (Hms s Hs) as (m' & e & _ & Hid' & _ & (_ & _ & Hrole & _)%target_member_Some). rewrite Hid, <-Hid', <-Hrole, <-Hr.
    by destruct (srs_role x).
  - rewrite Hids. clear -Hsort. induction Hsort as [|x l _ IH Hx]; constructor; [|done]. rewrite Forall_forall in Hx. intros Hin%Hx. lia.
  - by rewrite Hids.
  - rewrite Hq. unfold majority. by rewrite Hlen.
  - right. unfold minimum_replicas in Hmin. rewrite (fl_minimum _ _ _ Hf) in Hmin. simpl in Hmin. lia.
  - intros x Hx. destruct (Hmem x Hx) as (s & Hs & Hid & Hi & _). destruct (Hms s Hs) as (m' & e & Hm' & Hid' & _ & Htm).
    pose proof (target_member_instance _ _ _ _ _ _ Hnd Hm' Htm) as Hinst. rewrite Hcur in Hm', Hnd.
    cbn [election_configuration_status el_members] in Hm', Hnd.
    apply list_elem_of_fmap in Hm' as (f & -> & Hfin). cbn in Hinst, Hid'. rewrite <-list_fmap_compose in Hnd.
    rewrite Hid, <-Hid', (find_key_In fms_id _ f Hnd Hfin). simpl. by rewrite Hinst, Hi.
  - unfold epochs_ok. rewrite Hci2, Hdi2, (un_configuration _ _ Hu), (un_data_loss _ _ Hu). by rewrite He, Htp.
  - by rewrite (un_configuration _ _ Hu).
  - by intros o Ho%elem_of_nil.
Qed.
End runs.
