(* ===== verification/FailoverInvariant.v ===== *)
(** The invariant of a failover is kept by every reconcile, with the evidence
    each change of its stage rests on. *)

From S2P Require Import Prelude Types Lifecycle Control Agent Convert Wire Crd Operation Effects Election Failover FailoverLoop FailoverSteps FailoverRuns.

Set Default Goal Selector "!".

Lemma failover_rank_range phase kind : phase_kind phase = Some kind → rank phase = 1 ∨ 4 ≤ rank phase ≤ 9.
Proof. destruct phase; cbn; intros; (discriminate || lia). Qed.

Lemma counted_course phase fo : same_course fo (counted phase fo).
Proof. by destruct phase. Qed.

Lemma set_authorized_none b op : op_pending_action op = None → set_authorized b op = op.
Proof. destruct op; simpl. by intros ->. Qed.

Lemma set_authorized_some b op pa :
  op_pending_action op = Some pa → op <| op_pending_action := Some (pa <| pa_dispatch_authorized := b |>) |> = set_authorized b op.
Proof. destruct op; simpl. by intros ->. Qed.

(** Where the work of a phase leads. *)
Lemma moves_after op fo kind :
  phase_kind (op_phase op) = Some kind → moves fo (rank (op_phase op)) (rank (phase_after op fo)).
Proof.
  unfold phase_after, moves. destruct (op_phase op); try discriminate; intros _; cbn; try lia.
  destruct (fo_data_loss_required fo); cbn; lia.
Qed.

Lemma rank_ends phase next : phase_ends phase = Some next → rank next = rank phase.
Proof. destruct phase; try discriminate; by intros [= <-]. Qed.

Lemma set_metadata_spec id metadata l l' :
  set_metadata id metadata l = Ok l' →
  Forall2 (λ m m', srs_id m' = srs_id m ∧ srs_instance_id m' = srs_instance_id m ∧ srs_role m' = srs_role m) l l'.
Proof.
  revert l'. induction l as [|m l IH]; cbn [set_metadata]; intros l'; [done|]. destruct (srs_id m =? id).
  - intros [= <-]. constructor; [done|]. clear. by induction l; constructor.
  - intros (l2 & Hl & [= <-])%bind_Ok. constructor; [done|]. by apply IH.
Qed.

Lemma primary_only_spec target s :
  primary_only_snapshot target = Ok s → ∃ m, m ∈ ss_members target ∧ srs_id m = ss_primary_id target ∧
    s = mkStablePartitionSnapshotStatus (ss_epoch target) (ss_primary_id target) [m <| srs_role := StablePrimary |>] 1.
Proof.
  unfold primary_only_snapshot. intros (m & Hm%or_fail_Ok & [= <-])%bind_Ok.
  apply List.find_some in Hm as [Hin Heq%Z.eqb_eq]. exists m. split; [by apply list_elem_of_In|done].
Qed.

Lemma filter_all {A} (P : A → Prop) `{∀ x, base.Decision (P x)} (l : list A) : (∀ x, x ∈ l → P x) → filter P l = l.
Proof.
  induction l as [|x l IH]; [done|]. intros Hall. rewrite filter_cons_True by (apply Hall; left).
  f_equal. apply IH. intros y Hy. apply Hall. by right.
Qed.

Lemma filter_length_one (id : Z) (l : list StableReplicaSnapshotStatus) :
  NoDup (srs_id <$> l) → (length l ≤ S (length (filter (λ m, srs_id m ≠ id) l)))%nat.
Proof.
  induction l as [|m l IH]; [simpl; lia|]. rewrite fmap_cons. intros [Hm Hnd]%NoDup_cons. rewrite filter_cons.
  case_decide as Hd; [specialize (IH Hnd); simpl; lia|].
  assert (filter (λ m, srs_id m ≠ id) l = l) as ->; [|done].
  apply filter_all. intros x Hx Heq. apply Hm. rewrite Hd, <-Heq. by apply list_elem_of_fmap_2.
Qed.

Section invariant.
  Context {Ends : Endpoints} {Codec : PayloadCodec}.
  Context (p : StablePartitionSnapshotStatus) (minimum : Z).
  Context (tr tr2 : list entry) (Hsub : tr ⊆ tr2).
  Context (op : DurableOperationStatus) (fo : DurableFailoverStatus) (Hf : failing p minimum tr op fo).
  Context (turn : FailoverTurn) (eff : FailoverEffect) (Hen : mkEntry op turn eff ∈ tr2).

(** A change of the checkpoint that leaves identity, snapshot and minimum. *)
Lemma failing_becomes op' fo' :
  op_kind op' = op_kind op → op_previous_snapshot op' = op_previous_snapshot op →
  op_old_primary_id op' = op_old_primary_id op →
  op_minimum_committed_replicas op' = op_minimum_committed_replicas op →
  op_failover op' = Some fo' → fo_previous_configuration fo' = None → op_pending_action op' = None →
  (unconfirmed p op' fo' ∨ ∃ c members, confirmed p minimum tr2 op' fo' c members) →
  failing p minimum tr2 op' fo'.
Proof. destruct Hf. intros. constructor; try congruence. Qed.

(** *** Decisions *)

Context (op' : DurableOperationStatus) (Hop : op' = op ∨ op' = set_authorized false op).

Lemma decided_on : failing p minimum tr op' fo.
Proof. destruct Hop as [->| ->]; [done|]. by apply (authorize_failing _ _ tr tr). Qed.

Lemma decided_phase : op_phase op' = op_phase op.
Proof. by destruct Hop as [->| ->]. Qed.

Lemma decided_quiet : phase_kind (op_phase op') = None → op' = op.
Proof.
  rewrite decided_phase. intros Hk%(failing_quiet _ _ _ _ _ Hf). destruct Hop as [?| ->]; [done|]. by apply set_authorized_none.
Qed.

(** The pending action asks the replica whose status the probe answered. *)
Lemma decided_asked kind epoch c pa o (Q : PendingActionStatus → ReplicaStatusInfo → Prop) obs :
  op_pending_action op' = Some pa → answered turn obs → obs !! pa_target_id pa = Some o →
  pa_kind pa = kind → pa_target_id pa = rk_id c → pa_expected_epoch pa = epoch →
  (∀ pa', pa_action_id pa' = pa_action_id pa → Q pa' (ro_status o)) →
  happened (asked kind epoch c Q) tr2.
Proof.
  intros Hpa Hobs Ho Hk Ht He HQ. eapply happened_in; [exact Hen|]. unfold asked. cbn [en_operation en_turn].
  specialize (Hobs _ _ Ho). rewrite Ht in Hobs. destruct Hop as [->| ->].
  - exists pa, (ro_status o). split_and!; try done. by apply HQ.
  - unfold set_authorized in Hpa. cbn in Hpa. destruct (op_pending_action op) as [pa0|] eqn:Hpa0; [|discriminate].
    injection Hpa as <-. exists pa0, (ro_status o). split_and!; try done. by apply HQ.
Qed.

Lemma done_failing pa o obs now :
  op_pending_action op' = Some pa → phase_kind (op_phase op') = Some (pa_kind pa) → answered turn obs →
  obs !! pa_target_id pa = Some o → seen_done op' pa (ro_status o) →
  failing p minimum tr2 ((with_phase (phase_after op' fo) now op') <| op_failover := Some (counted (op_phase op') fo) |>)
    (counted (op_phase op') fo).
Proof.
  intros Hpa Hk Hobs Ho Hseen. eapply failing_moves; [exact Hsub|exact decided_on|apply counted_course|by constructor|done| |..].
  - cbn [op_phase with_phase over]. by eapply moves_after.
  - intros c members Hcf. cbn [op_phase with_phase over]. split.
    + unfold phase_after. destruct (op_phase op'); try discriminate; cbn; try lia.
      destruct (fo_data_loss_required fo); [cbn; lia|done].
    + unfold phase_after. destruct (op_phase op') eqn:Hph; try discriminate; cbn [rank]; try lia;
        try (destruct (fo_data_loss_required fo); cbn [rank]; lia). intros _. right.
      destruct (fl_pending _ _ _ _ _ decided_on pa Hpa) as [Hk' Ht He _ _]. rewrite Hph in Hk'. injection Hk' as Hk'.
      unfold addressed in Ht. rewrite Hph in Ht. destruct (cf_primary _ _ _ _ _ _ _ Hcf) as [Hp _].
      eapply decided_asked; [exact Hpa|exact Hobs|exact Ho|by rewrite Hk'|congruence|done|].
      intros pa' Hid. destruct Hseen as [(a & Ha & Hst & _)|(post & role & Hholds & Hpost)].
      * right. exists a. by rewrite Hid.
      * left. destruct (Hpost (eq_sym Hk')) as [-> ->]. injection Hholds as [He' Hr]%andb_true_iff. guards.
        split; [done|]. congruence.
  - intros pa'. by cbn.
Qed.
(** The configuration epoch is taken before the target has it. *)
Lemma configuration_epoch_failing intent now :
  op_phase op' = Phase.FailoverPersistConfigurationEpoch →
  i64_checked_add (es_configuration_number (ss_epoch (op_target_snapshot op'))) 1 = Some (es_configuration_number intent) →
  es_data_loss_number intent = es_data_loss_number (ss_epoch (op_target_snapshot op')) →
  failing p minimum tr2 (move_to (if fo_data_loss_required fo then Phase.FailoverPersistDataLossEpoch
                                  else Phase.FailoverApplyCandidateEpoch) now
      (op' <| op_failover := Some (fo <| fo_configuration_epoch_intent := Some intent |>) |>
           <| op_target_snapshot ::= (λ s, s <| ss_epoch := intent |>) |>))
    (fo <| fo_configuration_epoch_intent := Some intent |>).
Proof.
  intros Hph [Hcn _]%i64_checked_add_Some Hdn.
  pose proof decided_on as Hf'. pose proof (failing_quiet _ _ _ _ _ Hf') as Hquiet. rewrite Hph in Hquiet.
  apply failing_becomes; try done; try (by destruct Hop as [->| ->]).
  { apply (fl_single _ _ _ _ _ Hf'). }
  { by apply Hquiet. }
  destruct (failing_confirmed _ _ _ _ _ Hf') as (c & members & Hcf); [left; by rewrite Hph|].
  right. exists c, members. eapply confirmed_later in Hcf; [|exact Hsub]. destruct Hcf. rewrite Hph in *. cbn [rank] in *.
  assert (fo_promotion_committed fo = false) as Hnc by (destruct (fo_promotion_committed fo); [lia|done]).
  specialize (cf_fresh eq_refl). unfold epochs_ok in cf_epoch. rewrite cf_fresh in cf_epoch.
  destruct (fo_data_loss_epoch_intent fo) eqn:Hdl; [done|].
  assert (rank (if fo_data_loss_required fo then Phase.FailoverPersistDataLossEpoch else Phase.FailoverApplyCandidateEpoch) =
    if fo_data_loss_required fo then 3 else 4) as Hr by by destruct (fo_data_loss_required fo).
  constructor; cbn [op_phase move_to over op_target_snapshot op_target_primary_id ss_members ss_epoch ss_primary_id ss_write_quorum
    fo_target_confirmed fo_data_loss_required fo_promotion_committed fo_configuration_epoch_intent fo_data_loss_epoch_intent
    fo_current_configuration fo_final_attestations op_committed_snapshot]; rewrite ?Hr; try done.
  2: { unfold epochs_ok. cbn. rewrite Hdl, <-cf_epoch. destruct intent. cbn in *. by rewrite Hcn, Hdn. }
  all: rewrite ?Hnc, ?Hdl, ?(cf_unattested Hnc); destruct (fo_data_loss_required fo); try done; try lia.
  all: try (intros [|]; (lia || done)).
  all: try (intros [|] ?; (lia || done)).
  all: by intros o ?%elem_of_nil.
Qed.
(** So is the data-loss epoch. *)
Lemma data_loss_epoch_failing c0 intent now :
  op_phase op' = Phase.FailoverPersistDataLossEpoch → fo_configuration_epoch_intent fo = Some c0 →
  i64_checked_add (es_data_loss_number c0) 1 = Some (es_data_loss_number intent) →
  es_configuration_number intent = es_configuration_number c0 →
  failing p minimum tr2 (move_to Phase.FailoverApplyCandidateEpoch now
      (op' <| op_failover := Some (fo <| fo_data_loss_epoch_intent := Some intent |>) |>
           <| op_target_snapshot ::= (λ s, s <| ss_epoch := intent |>) |>))
    (fo <| fo_data_loss_epoch_intent := Some intent |>).
Proof.
  intros Hph Hc0 [Hdn _]%i64_checked_add_Some Hcn.
  pose proof decided_on as Hf'. pose proof (failing_quiet _ _ _ _ _ Hf') as Hquiet. rewrite Hph in Hquiet.
  apply failing_becomes; try done; try (by destruct Hop as [->| ->]).
  { apply (fl_single _ _ _ _ _ Hf'). }
  { by apply Hquiet. }
  destruct (failing_confirmed _ _ _ _ _ Hf') as (c & members & Hcf); [left; by rewrite Hph|].
  right. exists c, members. eapply confirmed_later in Hcf; [|exact Hsub]. destruct Hcf. rewrite Hph in *. cbn [rank] in *.
  assert (fo_promotion_committed fo = false) as Hnc by (destruct (fo_promotion_committed fo); [lia|done]).
  destruct (cf_data_loss_phase eq_refl) as [Hreq Hdl]. unfold epochs_ok in cf_epoch. rewrite Hc0, Hdl in cf_epoch.
  destruct cf_epoch as [Hc0eq Hep].
  constructor; cbn [op_phase move_to over op_target_snapshot op_target_primary_id ss_members ss_epoch ss_primary_id ss_write_quorum
    fo_target_confirmed fo_data_loss_required fo_promotion_committed fo_configuration_epoch_intent fo_data_loss_epoch_intent
    fo_current_configuration fo_final_attestations op_committed_snapshot rank];
    rewrite ?Hnc, ?Hreq, ?(cf_unattested Hnc), ?Hc0; try done; try lia.
  { by rewrite <-Hreq. }
  { unfold epochs_ok. cbn. rewrite Hc0, Hreq. split; [done|]. split; [|done]. rewrite Hc0eq in *. destruct intent. cbn in *.
    by rewrite Hcn, Hdn. }
  all: try (intros [|]; (lia || done)).
  all: try (intros [|] ?; (lia || done)).
  all: by intros o ?%elem_of_nil.
Qed.

(** The data-loss callback answered: the candidate keeps its state, or the
    target shrinks to it. *)
Lemma data_loss_failing pa o a res target next :
  op_phase op' = Phase.FailoverNotifyDataLoss → op_pending_action op' = Some pa →
  (∃ obs, answered turn obs ∧ obs !! pa_target_id pa = Some o) →
  correlated_action_observation (ro_status o) (pa_action_id pa) = Some a →
  do_state a = Completed → do_result a = Some (ResDataLoss res) →
  (target = op_target_snapshot op' ∨ primary_only_snapshot (op_target_snapshot op') = Ok target) →
  (rank (op_phase next) = 0 ∨ minimum_replicas op' ≤ Z.of_nat (length (ss_members target)) ∨ target = op_target_snapshot op') →
  op_phase next = Phase.Poisoned ∨ op_phase next = Phase.FailoverRefreshCandidate ∨ op_phase next = Phase.FailoverPromoteCandidate →
  same_plan (op' <| op_target_snapshot := target |>) next → op_pending_action next = None →
  failing p minimum tr2 (next <| op_failover := Some (fo <| fo_data_loss_result :=
      Some (match res with DataLossNone => DlNoStateChange | StateChanged => DlStateChanged end) |>) |>)
    (fo <| fo_data_loss_result := Some (match res with DataLossNone => DlNoStateChange | StateChanged => DlStateChanged end) |>).
Proof.
  intros Hph Hpa (obs & Hobs & Ho) Ha Hst Hres Htarget Hmin Hnext [] Hnone.
  cbn [op_kind op_previous_snapshot op_old_primary_id op_minimum_committed_replicas op_target_snapshot op_target_primary_id
    op_committed_snapshot over] in *.
  pose proof decided_on as Hf'. set (r := match res with DataLossNone => _ | StateChanged => _ end). clearbody r.
  assert (∃ c members, confirmed p minimum tr2 op' fo c members) as (c & members & Hcf).
  { destruct (failing_confirmed _ _ _ _ _ Hf') as (c & members & Hcf); [left; by rewrite Hph|].
    exists c, members. by eapply confirmed_later. }
  assert (happened (callback_answered (ss_epoch (op_target_snapshot op')) c) tr2) as Hcb.
  { destruct (fl_pending _ _ _ _ _ Hf' pa Hpa) as [Hk Ht He _ _]. rewrite Hph in Hk. injection Hk as Hk.
    unfold addressed in Ht. rewrite Hph in Ht. destruct (cf_primary _ _ _ _ _ _ _ Hcf) as [Hp _].
    eapply decided_asked; [exact Hpa|exact Hobs|exact Ho|done|congruence|done|].
    intros pa' Hid. exists a. rewrite Hid. eauto. }
  apply failing_becomes; try (by destruct Hop as [->| ->]); try done.
  { apply (fl_single _ _ _ _ _ Hf'). }
  right. exists c, members. destruct Hcf. rewrite Hph in *. cbn [rank] in *.
  assert (fo_promotion_committed fo = false) as Hnc by (destruct (fo_promotion_committed fo); [lia|done]).
  assert (rank (op_phase next) = 0 ∨ rank (op_phase next) = 6 ∨ rank (op_phase next) = 7) as Hr
    by (destruct Hnext as [->|[->| ->]]; auto).
  assert (ss_epoch target = ss_epoch (op_target_snapshot op') ∧ ss_primary_id target = ss_primary_id (op_target_snapshot op') ∧
    (∀ m, m ∈ ss_members target → ∃ m0, m0 ∈ ss_members (op_target_snapshot op') ∧ srs_id m = srs_id m0 ∧
       srs_instance_id m = srs_instance_id m0 ∧ (srs_role m = srs_role m0 ∨ srs_role m = StablePrimary ∧ srs_id m = rk_id c)) ∧
    NoDup (srs_id <$> ss_members target) ∧ rk_id c ∈ srs_id <$> ss_members target ∧
    ss_write_quorum target = majority (ss_members target)) as (He & Hpid & Hms & Hnd & Hc & Hq).
  { destruct cf_primary as [_ Hpc]. destruct Htarget as [->|(m & Hm & Hid & ->)%primary_only_spec].
    - split_and!; try done. intros m Hm. exists m. auto.
    - cbn. split_and!; try done.
      + intros x ->%list_elem_of_singleton. exists m. cbn. rewrite Hid, Hpc. split_and!; auto.
      + apply NoDup_singleton.
      + rewrite Hid, Hpc. by apply list_elem_of_singleton. }
  assert (minimum_replicas op' = minimum) as Hmineq by (unfold minimum_replicas; by rewrite (fl_minimum _ _ _ _ _ Hf')).
  constructor; cbn [op_phase over op_target_snapshot op_target_primary_id op_committed_snapshot
    fo_target_confirmed fo_data_loss_required fo_promotion_committed fo_configuration_epoch_intent fo_data_loss_epoch_intent
    fo_current_configuration fo_final_attestations];
    rewrite ?sp_target, ?sp_primary, ?sp_committed, ?Hnc, ?(cf_unattested Hnc), ?He, ?Hpid; try done; try lia.
  - intros m (m0 & Hm0 & Hid & Hinst & Hrole)%Hms. destruct (cf_members m0 Hm0) as (x & Hx & Hxid & Hxi & Hxr).
    exists x. split; [done|]. split; [congruence|]. split; [congruence|]. rewrite Hid.
    destruct Hrole as [->|[-> Hidc]]; [done|]. split; [congruence|done].
  - destruct Hmin as [|[?| ->]]; [by left|right; lia|]. right. by destruct cf_minimum as [[? _]|].
  - intros m (m0 & Hm0 & Hid & Hinst & _)%Hms. rewrite Hid, Hinst. by apply cf_current.
  - intros _. apply cf_intent. left. lia.
  - intros _. apply cf_negotiates. lia.
  - intros _. apply cf_data_loss_intent. left. lia.
  - by intros o0 ?%elem_of_nil.
Qed.
(** The promotion is committed with the snapshot that has the candidate alone. *)
Lemma commit_failing snapshot now :
  op_phase op' = Phase.FailoverCommitPromotion → primary_only_snapshot (op_target_snapshot op') = Ok snapshot →
  (∃ next, eff = FeCommit next snapshot) →
  failing p minimum tr2 ((with_phase Phase.FailoverDistributeEpoch now op')
      <| op_failover := Some (fo <| fo_promotion_committed := true |> <| fo_next_secondary_index := 0 |>) |>
      <| op_committed_snapshot := Some snapshot |>)
    (fo <| fo_promotion_committed := true |> <| fo_next_secondary_index := 0 |>).
Proof.
  intros Hph (m & Hm & Hid & ->)%primary_only_spec [next Heff]. pose proof decided_on as Hf'.
  apply failing_becomes; try done; try (by destruct Hop as [->| ->]).
  { apply (fl_single _ _ _ _ _ Hf'). }
  destruct (failing_confirmed _ _ _ _ _ Hf') as (c & members & Hcf); [left; by rewrite Hph|].
  right. exists c, members. eapply confirmed_later in Hcf; [|exact Hsub]. destruct Hcf. rewrite Hph in *. cbn [rank] in *.
  assert (fo_promotion_committed fo = false) as Hnc by (destruct (fo_promotion_committed fo); [lia|done]).
  constructor; cbn [op_phase with_phase over op_target_snapshot op_target_primary_id op_committed_snapshot
    fo_target_confirmed fo_data_loss_required fo_promotion_committed fo_configuration_epoch_intent fo_data_loss_epoch_intent
    fo_current_configuration fo_final_attestations rank];
    rewrite ?(cf_unattested Hnc); try done; try lia.
  - intros _. apply cf_intent. left. lia.
  - intros _. apply cf_data_loss_intent. left. lia.
  - intros _. apply cf_callback. left. lia.
  - intros _. apply cf_promoted. left. lia.
  - intros _. eexists. split; [done|]. destruct cf_primary as [_ Hpc]. cbn. rewrite Hid, Hpc. split_and!; try done.
    eapply happened_in; [exact Hen|]. exists next. cbn. rewrite Heff. by rewrite Hpc.
  - by intros o ?%elem_of_nil.
Qed.

(** A decision that is persisted keeps the invariant. *)
Lemma decided_failing obs now d next :
  answered turn obs → decided op' fo obs now d →
  d = Persist next ∨ (∃ s, d = CommitSnapshot next s ∧ eff = FeCommit next s) →
  ∃ fo', failing p minimum tr2 next fo'.
Proof.
  intros Hobs Hd Hnext. pose proof decided_on as Hf'. pose proof (fl_pending _ _ _ _ _ Hf') as Hpending.
  destruct Hd as [|id aid action _|id role _|m fo' Hfo'|kind id post role Hnone Hk Hid|pa Hpa Hauth|pa o Hpa Hk Ho Hseen
    |pa Hph Hpa Hk|phase index He|phase m Hph Hw|input d c pid members wq target m Hph Hin Hev Hc Hb Hmin Ht
    |intent Hph Hcn Hdn|c0 intent Hph Hc0 Hdn Hcn|pa o a res target x Hph Hpa Ho Ha Hst Hres Htarget Hx|s Hph Hs|s Hph Hs];
    destruct Hnext as [[= <-]|(s' & [= <- <-] & Heff)].
  - exists fo'. destruct Hfo' as [->| ->]; eapply poison_failing; eauto using same_course_refl, counted_course.
  - exists fo. eapply failing_stays; [exact Hsub|exact Hf'|apply same_course_refl|by constructor|apply Hf'|by left|].
    intros pa [= <-]. apply scheduled_ok; [done..|apply Hf'].
  - exists fo. rewrite set_authorized_some by done. by apply (authorize_failing _ _ tr).
  - exists (counted (op_phase op') fo). by eapply done_failing.
  - exists (counted (op_phase op') fo).
    eapply failing_stays; [exact Hsub|exact Hf'|apply counted_course|by constructor|done|by left|done].
  - eexists. eapply failing_stays; [exact Hsub|exact Hf'| |by constructor|done|left; by apply rank_ends|done]. done.
  - eexists. eapply failing_stays; [exact Hsub|exact Hf'| |by constructor|done| |done]; [done|].
    left. rewrite Hph. by destruct Hw as [->| ->].
  - assert (op' = op) as -> by (apply decided_quiet; by rewrite Hph).
    eexists. apply failing_becomes; try done.
    { apply (fl_single _ _ _ _ _ Hf'). }
    { apply (failing_quiet _ _ _ _ _ Hf'). by rewrite Hph. }
    right. exists c, members. eapply (confirm_confirmed _ _ tr); try done.
    eapply failing_unconfirmed; [exact Hf'|]. left. by rewrite Hph.
  - eexists. by apply configuration_epoch_failing.
  - eexists. by eapply data_loss_epoch_failing.
  - eexists. apply (data_loss_failing pa o a res target); try done.
    + eauto.
    + destruct Htarget as [[_ ->]|[_ ?]]; auto.
    + destruct Hx as [(m & _ & ->)|[(? & _ & ->)|[-> ->]]]; [by left|right; by left|].
      destruct Htarget as [[_ ->]|[[=] _]]. right. by right.
    + destruct Hx as [(m & _ & ->)|[(? & _ & ->)|[-> ->]]]; auto.
    + destruct Hx as [(m & _ & ->)|[(? & _ & ->)|[-> ->]]]; [by constructor..|].
      destruct Htarget as [[_ ->]|[[=] _]]. by constructor.
    + by destruct Hx as [(m & _ & ->)|[(? & _ & ->)|[-> ->]]].
  - eexists. apply commit_failing; eauto.
Qed.
End invariant.

(** ** The steps of the reconciler itself *)

Lemma record_observation_spec op fo id status final now next :
  op_failover op = Some fo → record_observation op id status final now = Ok next →
  ∃ o fo' phase, o = observation_status id status
      (if final then target_runtime_configuration_matches (si_election_configuration status) (op_target_snapshot op)
       else runtime_configuration_matches (si_election_configuration status) fo) ∧
    fo' = (if final then fo <| fo_final_attestations ::= replace_observation o |>
           else fo <| fo_observations ::= replace_observation o |>)
          <| fo_unavailable_replicas ::= filter (λ unavailable, unavailable ≠ id) |> ∧
    (if final : bool then phase = Phase.FailoverAttest else phase = Phase.FailoverCollect ∨ phase = Phase.FailoverAssess) ∧
    next = move_to phase now (op <| op_failover := Some fo' |>).
Proof.
  intros Hfo. unfold record_observation, failover_ref. rewrite Hfo. cbn [or_fail ok_or mbind result_bind].
  intros (member & _ & ([] & _ & H)%bind_Ok)%bind_Ok. injection H as <-. do 3 eexists.
  split; [reflexivity|]. split; [reflexivity|]. split; [|reflexivity].
  destruct final; [done|]. destruct (_ && _); auto.
Qed.

Section steps.
  Context {Ends : Endpoints} {Codec : PayloadCodec}.
  Context (p : StablePartitionSnapshotStatus) (minimum : Z).
  Context (tr tr2 : list entry) (Hsub : tr ⊆ tr2).
  Context (op : DurableOperationStatus) (fo : DurableFailoverStatus) (Hf : failing p minimum tr op fo).
  Context (turn : FailoverTurn) (eff : FailoverEffect) (Hen : mkEntry op turn eff ∈ tr2).

Lemma adopt_failing id instance now next :
  adopt_replacement_before_confirmation op id instance now = Ok next → ∃ fo', failing p minimum tr2 next fo'.
Proof.
  unfold adopt_replacement_before_confirmation, failover_ref. rewrite (fl_failover _ _ _ _ _ Hf).
  cbn [or_fail ok_or mbind result_bind]. intros ([] & Hc%fail_if_Ok & H)%bind_Ok. injection H as <-.
  destruct (failing_unconfirmed _ _ _ _ _ Hf (or_intror Hc)). eexists.
  apply (failing_becomes p minimum tr tr2 op fo Hf); try done.
  { cbn [fo_previous_configuration over]. by rewrite (fl_single _ _ _ _ _ Hf). }
  left. constructor; try done; cbn [op_phase with_phase over rank]; lia.
Qed.

Lemma recorded_failing id status next index :
  op_phase op = Phase.FailoverCollect ∨ is_waiting (op_phase op) = true →
  record_observation op id status false (ft_now turn) = Ok next →
  ∃ fo', failing p minimum tr2 (next <| op_failover ::=
      fmap (M := option) (λ fo, fo <| fo_next_unavailable_index := index |>) |>) fo'.
Proof.
  intros Hph H. apply (record_observation_spec _ fo) in H as (o & fo' & phase & _ & -> & Hphase & ->); [|apply Hf].
  assert (rank (op_phase op) = 1 ∧ phase_kind (op_phase op) = None) as [Hr Hk].
  { destruct Hph as [->|Hw]; [done|]. unfold is_waiting in Hw. by destruct (op_phase op). }
  eexists. eapply failing_stays; [exact Hsub|exact Hf| |by constructor|done| |]; [done| |].
  - left. rewrite Hr. by destruct Hphase as [->| ->].
  - intros pa. cbn [op_pending_action move_to over]. by rewrite (failing_quiet _ _ _ _ _ Hf Hk).
Qed.

Lemma attest_failing id status next :
  op_phase op = Phase.FailoverAttest → ft_status turn id = Ok status →
  record_observation op id status true (ft_now turn) = Ok next → ∃ fo', failing p minimum tr2 next fo'.
Proof.
  intros Hph Hst H. apply (record_observation_spec _ fo) in H as (o & fo' & phase & Ho & -> & -> & ->); [|apply Hf].
  eexists. apply (failing_becomes p minimum tr tr2 op fo Hf); try done.
  { apply (fl_single _ _ _ _ _ Hf). }
  { cbn [op_pending_action move_to over]. apply (failing_quiet _ _ _ _ _ Hf). by rewrite Hph. }
  destruct (failing_confirmed _ _ _ _ _ Hf) as (c & members & Hcf); [left; by rewrite Hph|].
  right. exists c, members. apply (confirmed_later _ _ _ tr2) in Hcf; [|exact Hsub]. destruct Hcf. rewrite Hph in *. cbn [rank] in *.
  constructor; cbn [op_phase move_to over op_target_snapshot op_target_primary_id op_committed_snapshot
    fo_target_confirmed fo_data_loss_required fo_promotion_committed fo_configuration_epoch_intent fo_data_loss_epoch_intent
    fo_current_configuration fo_final_attestations rank]; try done.
  - intros Hnc. assert (fo_promotion_committed fo = true) by (apply cf_committed; lia). congruence.
  - intros x Hx. unfold replace_observation in Hx. rewrite elem_of_sort_by_key in Hx. apply elem_of_app in Hx as [Hx|Hx].
    + apply cf_attested. by apply list_elem_of_filter in Hx as [_ Hx].
    + apply list_elem_of_singleton in Hx as ->. eapply happened_in; [exact Hen|]. unfold attested. cbn [en_operation en_turn].
      split; [done|]. split; [done|]. split; [done|]. exists status. by rewrite Ho.
Qed.
(** A replaced secondary leaves the target; what the others attested was
    against the target that still had it. *)
Lemma drop_failing id next :
  fo_target_confirmed fo = true → fo_promotion_committed fo = true → id ≠ op_target_primary_id op →
  minimum_replicas op ≤ Z.of_nat (length (ss_members (op_target_snapshot op)) - 1) →
  drop_replaced op id = Ok next → ∃ fo', failing p minimum tr2 next fo'.
Proof.
  intros Htc Hpc Hid Hmin. unfold drop_replaced. rewrite (fl_failover _ _ _ _ _ Hf).
  cbn [unwrap mbind result_bind]. intros [= <-].
  eexists. apply (failing_becomes p minimum tr tr2 op fo Hf); try done.
  { apply (fl_single _ _ _ _ _ Hf). }
  destruct (failing_confirmed _ _ _ _ _ Hf) as (c & members & Hcf); [by right|].
  assert (minimum_replicas op = minimum) as Hmineq by (unfold minimum_replicas; by rewrite (fl_minimum _ _ _ _ _ Hf)).
  right. exists c, members. apply (confirmed_later _ _ _ tr2) in Hcf; [|exact Hsub]. destruct Hcf.
  assert (∀ m, m ∈ filter (λ m, srs_id m ≠ id) (ss_members (op_target_snapshot op)) →
    srs_id m ≠ id ∧ m ∈ ss_members (op_target_snapshot op)) as Hmem by (by intros m ?%list_elem_of_filter).
  constructor; cbn [op_phase over op_target_snapshot op_target_primary_id op_committed_snapshot
    ss_members ss_epoch ss_primary_id ss_write_quorum
    fo_target_confirmed fo_data_loss_required fo_promotion_committed fo_configuration_epoch_intent fo_data_loss_epoch_intent
    fo_current_configuration fo_final_attestations fcs_members rank]; try done; try lia.
  - intros m [_ Hm]%Hmem. by apply cf_members.
  - eapply sublist_NoDup; [exact cf_ids|]. apply fmap_sublist, sublist_filter.
  - apply list_elem_of_fmap in cf_candidate as (m & Hm & Hin). apply list_elem_of_fmap. exists m. split; [done|].
    apply list_elem_of_filter. split; [|done]. destruct cf_primary. congruence.
  - right. pose proof (filter_length_one id _ cf_ids). lia.
  - intros m [Hne Hm]%Hmem. rewrite find_filter; [by apply cf_current|]. intros f Hfm%Z.eqb_eq. congruence.
  - intros _. apply cf_intent. by right.
  - intros _. apply cf_data_loss_intent. by right.
  - intros _. apply cf_callback. by right.
  - intros _. apply cf_promoted. by right.
  - congruence.
  - intros o [_ Ho]%list_elem_of_filter. destruct (cf_attested o Ho) as (en & Hin & Hph & He & Hms & Hst). exists en.
    split; [done|]. split; [done|]. split; [done|]. split; [|done]. intros m [_ Hm]%list_elem_of_filter. by apply Hms.
Qed.

(** The refreshed candidate's progress enters the target. *)
Lemma refresh_failing status now next :
  op_phase op = Phase.FailoverRefreshCandidate → refresh_candidate op status now = Ok next →
  ∃ fo', failing p minimum tr2 next fo'.
Proof.
  intros Hph. unfold refresh_candidate.
  assert (∀ m, ∃ fo', failing p minimum tr2 (fail_closed op m) fo') as Hclosed.
  { intros m. exists fo. rewrite <-(keep_failover (fail_closed op m) fo) by apply Hf.
    eapply poison_failing; [exact Hsub|exact Hf|apply same_course_refl]. }
  destruct (negb _); [intros [= <-]; apply Hclosed|]. destruct (negb _); [intros [= <-]; apply Hclosed|].
  unfold or_fail_closed. destruct (record_observation _ _ _ _ _) as [x|[m|m]] eqn:Hr; [| |discriminate].
  2: { cbn [mbind result_bind]. rewrite bool_decide_eq_true_2 by done. intros [= <-]. apply Hclosed. }
  apply (record_observation_spec _ fo) in Hr as (o & fo' & phase & _ & -> & Hphase & ->); [|apply Hf].
  cbn [mbind result_bind]. rewrite bool_decide_eq_false_2 by (by destruct Hphase as [->| ->]).
  intros (di & _ & (first & _ & (ms & Hms%set_metadata_spec & H)%bind_Ok)%bind_Ok)%bind_Ok.
  cbn [op_target_snapshot move_to over] in Hms. injection H as <-.
  eexists. apply (failing_becomes p minimum tr tr2 op fo Hf); try done.
  { apply (fl_single _ _ _ _ _ Hf). }
  { cbn [op_pending_action move_to over]. apply (failing_quiet _ _ _ _ _ Hf). by rewrite Hph. }
  destruct (failing_confirmed _ _ _ _ _ Hf) as (c & members & Hcf); [left; by rewrite Hph|].
  right. exists c, members. apply (confirmed_later _ _ _ tr2) in Hcf; [|exact Hsub]. destruct Hcf. rewrite Hph in *. cbn [rank] in *.
  assert (fo_promotion_committed fo = false) as Hnc by (destruct (fo_promotion_committed fo); [lia|done]).
  assert (srs_id <$> ms = srs_id <$> ss_members (op_target_snapshot op)) as Hids.
  { clear -Hms. induction Hms as [|m m' l l' (H & _) _ IH]; [done|]. rewrite !fmap_cons. by rewrite H, IH. }
  assert (∀ m', m' ∈ ms → ∃ m, m ∈ ss_members (op_target_snapshot op) ∧ srs_id m' = srs_id m ∧
    srs_instance_id m' = srs_instance_id m ∧ srs_role m' = srs_role m) as Hmem.
  { intros m' [k Hk]%list_elem_of_lookup. destruct (Forall2_lookup_r _ _ _ _ _ Hms Hk) as (m & Hm & H).
    exists m. split; [by eapply list_elem_of_lookup_2|done]. }
  apply Forall2_length in Hms as Hlen.
  constructor; cbn [op_phase move_to over op_target_snapshot op_target_primary_id op_committed_snapshot
    ss_members ss_epoch ss_primary_id ss_write_quorum
    fo_target_confirmed fo_data_loss_required fo_promotion_committed fo_configuration_epoch_intent fo_data_loss_epoch_intent
    fo_current_configuration fo_final_attestations rank];
    rewrite ?Hids, ?Hnc, ?(cf_unattested Hnc); try done; try lia.
  - intros m' (m & Hm & -> & -> & ->)%Hmem. by apply cf_members.
  - rewrite cf_quorum. unfold majority. by rewrite Hlen.
  - intros m' (m & Hm & -> & -> & _)%Hmem. by apply cf_current.
  - intros _. apply cf_intent. left. lia.
  - intros _. apply cf_data_loss_intent. left. lia.
  - intros _. apply cf_callback. left. lia.
  - by intros o' ?%elem_of_nil.
Qed.

(** Every step keeps the invariant. *)
Lemma step_failing e next :
  e = eff → fstep op fo turn e → next_operation op e = Some next → ∃ fo', failing p minimum tr2 next fo'.
Proof.
  intros He Hstep. destruct Hstep as [id instance x Hx|id x Htc Hpc Hid Hmin Hx|m index|id status x index Hph Hst Hx|ids index Hph
    |status x Hph Hst Hx|id status x Hph Hst Hx|pa Hpa Hk|pa Hpa Hk|pa Hpa|id role| |pa status handles instance action persisted sent Hpa Hauth Hst Hact Hd
    |op' obs d e Hop Hobs Hd Heff].
  - intros [= <-]. by eapply adopt_failing.
  - intros [= <-]. by eapply drop_failing.
  - intros [= <-]. eexists. by eapply poison_failing.
  - intros [= <-]. by eapply recorded_failing.
  - intros [= <-]. eexists. eapply failing_stays; [exact Hsub|exact Hf| |by constructor|done|by left|]; [done|].
    intros pa. cbn [op_pending_action over]. rewrite (failing_quiet _ _ _ _ _ Hf); [done|].
    destruct Hph as [->|Hw]; [done|]. unfold is_waiting in Hw. by destruct (op_phase op).
  - intros [= <-]. by eapply refresh_failing.
  - intros [= <-]. by eapply attest_failing.
  - intros [= <-]. eexists. eapply failing_stays; [exact Hsub|exact Hf| |by constructor| |by left|done].
    2: { unfold skip_record. cbn [op_failover over]. by rewrite (fl_failover _ _ _ _ _ Hf). } done.
  - intros [= <-]. eexists. eapply failing_stays; [exact Hsub|exact Hf| |by constructor|done|by left|done]. done.
  - intros [= <-]. exists fo. by eapply authorize_failing.
  - intros [= <-]. exists fo. by eapply failing_later.
  - intros [= <-]. exists fo. by eapply failing_later.
  - destruct persisted as [x|]; intros [= <-]; exists fo; [by eapply dispatch_failing|by eapply failing_later].
  - intros Hn. destruct d as [x| | | | |x s| | |x s b| |]; cbn [apply_failover_decision] in Heff; try discriminate.
    + injection Heff as <-. injection Hn as <-. apply (decided_failing _ _ tr tr2 Hsub op fo Hf turn eff Hen op' Hop obs _ _ x Hobs Hd). by left.
    + injection Heff as <-. injection Hn as <-. apply (decided_failing _ _ tr tr2 Hsub op fo Hf turn eff Hen op' Hop obs _ _ x Hobs Hd). eauto.
    + injection Heff as <-. injection Hn as <-. exists fo. by eapply failing_later.
    + apply bind_Ok in Heff as (? & _ & (? & _ & ([] & _ & [= <-])%bind_Ok)%bind_Ok). discriminate.
Qed.

End steps.

Section runs.
  Context {Ends : Endpoints} {Codec : PayloadCodec}.
  Context (p : StablePartitionSnapshotStatus) (minimum : Z).

Lemma start_failing uid failed replicas now op :
  start_failover uid p failed replicas now = Ok op → minimum = as_u32 (Nat.max replicas 1) → ∃ fo, failing p minimum [] op fo.
Proof.
  unfold start_failover. intros ([] & _ & ([] & Hfailed%fail_if_Ok & H)%bind_Ok)%bind_Ok ->. guards. injection H as <-.
  eexists. constructor; try done. left. by constructor.
Qed.

(** Every checkpoint of a run is a failover in one of its two stages. *)
Lemma frun_failing tr op : frun p minimum tr op → ∃ fo, failing p minimum tr op fo.
Proof.
  induction 1 as [uid failed replicas now op Hs Hm|tr op turn eff next _ [fo Hf] Hr Hn|tr op turn eff _ [fo Hf] Hr].
  - by eapply start_failing.
  - eapply (step_failing p minimum tr _ _ op fo Hf turn eff); [|reflexivity| |exact Hn]; [by left|].
    apply reconcile_fstep; [apply Hf|done].
  - exists fo. eapply failing_later; [|exact Hf]. set_solver.
    Unshelve. set_solver.
Qed.
End runs.
