(* ===== verification/FailoverPanics.v ===== *)
(** No reconcile of a failover panics: the [unwrap]s of the source are reached
    only where their value is there. *)

From S2P Require Import Prelude Types Lifecycle Control Agent Proto Convert Wire Crd Operation Effects Election Failover FailoverLoop FailoverSteps FailoverRuns FailoverInvariant.

Set Default Goal Selector "!".

Section panics.
  Context {Ends : Endpoints} {Codec : PayloadCodec}.

Lemma panics_failover_ref op : panics (failover_ref op) = false.
Proof. unfold failover_ref. no_panic. Qed.
#[local] Hint Resolve panics_failover_ref : panics.
Lemma panics_failover_mut f op : panics (failover_mut f op) = false.
Proof. unfold failover_mut. no_panic. Qed.
#[local] Hint Resolve panics_failover_mut : panics.
Lemma panics_record_observation op id status final now : panics (record_observation op id status final now) = false.
Proof. unfold record_observation. no_panic. Qed.
#[local] Hint Resolve panics_record_observation : panics.
#[local] Hint Resolve panics_try_map : panics.
Lemma panics_configuration op : panics (failover_election_configuration op) = false.
Proof. unfold failover_election_configuration. no_panic. Qed.
#[local] Hint Resolve panics_configuration : panics.
Lemma panics_snapshot_config s handles must : panics (snapshot_config s handles must) = false.
Proof. unfold snapshot_config. apply panics_bind; [|done]. apply panics_try_map. intros m. no_panic. Qed.
#[local] Hint Resolve panics_snapshot_config : panics.
Lemma panics_placeholder op pa : panics (placeholder_action op pa) = false.
Proof. unfold placeholder_action. destruct (pa_kind pa); no_panic. Qed.
#[local] Hint Resolve panics_placeholder : panics.
Lemma panics_failover_action op pa handles : panics (failover_action_for op pa handles) = false.
Proof. unfold failover_action_for, failover_target_config, committed_config. destruct (pa_kind pa); no_panic. Qed.
#[local] Hint Resolve panics_failover_action : panics.
Lemma panics_primary_only s : panics (primary_only_snapshot s) = false.
Proof. unfold primary_only_snapshot. no_panic. Qed.
#[local] Hint Resolve panics_primary_only : panics.
Lemma panics_validate s : panics (validate_failover_snapshot s) = false.
Proof. unfold validate_failover_snapshot. no_panic. Qed.
#[local] Hint Resolve panics_validate : panics.
Lemma panics_election_input op : panics (election_input op) = false.
Proof.
  unfold election_input, election_observation. no_panic; apply panics_try_map; intros o; no_panic.

Qed.
#[local] Hint Resolve panics_election_input : panics.
Lemma panics_assessment op now : panics (decide_assessment op now) = false.
Proof. unfold decide_assessment. no_panic. Qed.
Lemma panics_postcondition status pa op postcondition role :
  is_Some (op_failover op) → panics (postcondition_holds status pa op postcondition role) = false.
Proof. intros [fo Hfo]. unfold postcondition_holds. rewrite Hfo. destruct postcondition; cbn [unwrap mbind result_bind]; no_panic. Qed.
#[local] Hint Resolve panics_postcondition : panics.
Lemma panics_count_done bump d : panics (count_done bump d) = false.
Proof. unfold count_done. no_panic. Qed.
#[local] Hint Resolve panics_count_done : panics.

Section some.
  Context (op : DurableOperationStatus) (Hfo : is_Some (op_failover op)).

Lemma panics_pending_action obs now kind id postcondition role phase done :
  panics (decide_pending_action op obs now kind id postcondition role phase done) = false.
Proof.
  unfold decide_pending_action. destruct (op_pending_action op) as [pa|]; [|done].
  pose proof (panics_failover_action op pa ∅) as Ha. pose proof (panics_placeholder op pa) as Hp.
  assert (∀ s sig, panics (action_observed s pa sig op postcondition role) = false) as Ho by (intros; unfold action_observed; no_panic).
  no_panic.
Qed.
#[local] Hint Resolve panics_pending_action : panics.
Lemma panics_data_loss obs now : panics (decide_data_loss op obs now) = false.
Proof.
  unfold decide_data_loss. no_panic. unfold completed_data_loss. no_panic.
Qed.
#[local] Hint Resolve panics_data_loss : panics.
Lemma panics_snapshot_from_attestations : panics (snapshot_from_attestations op) = false.
Proof. unfold snapshot_from_attestations. no_panic. apply panics_try_map. intros m. unfold attested_member. no_panic. Qed.
#[local] Hint Resolve panics_snapshot_from_attestations : panics.
#[local] Hint Resolve panics_assessment : panics.
Lemma panics_decide_failover obs now : panics (decide_failover op obs now) = false.
Proof.
  unfold decide_failover, validate_failover_operation.
  unfold decide_record_configuration, recorded_members, decide_configuration_epoch, decide_data_loss_epoch,
    decide_commit_promotion, decide_distribute_epoch, decide_label_members, decide_attest.
  no_panic.
Qed.
End some.

Section reconciles.
  Context (op : DurableOperationStatus) (Hfo : is_Some (op_failover op)) (turn : FailoverTurn).
#[local] Hint Resolve panics_decide_failover : panics.

Lemma panics_closed op' op2 obs now : is_Some (op_failover op2) → panics (decide_or_fail_closed op' op2 obs now) = false.
Proof.
  intros H2. pose proof (panics_decide_failover op2 H2 obs now) as Hd. unfold decide_or_fail_closed.
  destruct (decide_failover _ _ _) as [|[]]; done.
Qed.
#[local] Hint Resolve panics_closed : panics.
Lemma panics_or_fail_closed op' r : panics r = false → panics (or_fail_closed op' r) = false.
Proof. by destruct r as [|[]]. Qed.
#[local] Hint Resolve panics_or_fail_closed : panics.
Lemma panics_apply pods d : panics (apply_failover_decision pods d) = false.
Proof.
  unfold apply_failover_decision. no_panic.
  all: apply panics_try_for_each; intros m; no_panic.
Qed.
#[local] Hint Resolve panics_apply : panics.
Lemma panics_authorized fo pa handles obs : panics (reconcile_authorized op fo pa handles obs turn) = false.
Proof. unfold reconcile_authorized. no_panic. Qed.
#[local] Hint Resolve panics_authorized : panics.
Lemma panics_action fo handles obs : panics (reconcile_action op fo handles obs turn) = false.
Proof. unfold reconcile_action, reconcile_label. no_panic. Qed.
#[local] Hint Resolve panics_action : panics.
Lemma panics_probe handles id : panics (probe turn handles id) = false.
Proof. unfold probe. no_panic. Qed.
#[local] Hint Resolve panics_probe : panics.
Lemma panics_set_metadata id metadata l : id ∈ srs_id <$> l → panics (set_metadata id metadata l) = false.
Proof.
  induction l as [|m l IH]; [by intros ?%elem_of_nil|]. rewrite fmap_cons. cbn [set_metadata].
  intros [->|Hin]%elem_of_cons; [by rewrite Z.eqb_refl|]. destruct (_ =? _); [done|]. apply panics_bind; [by apply IH|done].
Qed.
Lemma panics_refresh status now :
  op_target_primary_id op ∈ srs_id <$> ss_members (op_target_snapshot op) → panics (refresh_candidate op status now) = false.
Proof.
  intros Hin. unfold refresh_candidate. destruct (negb (bool_decide _)); [done|].
  destruct (refreshed_valid _ _) eqn:Hvalid; [cbn [negb]|done]. unfold refreshed_valid in Hvalid.
  apply panics_bind; [auto with panics|]. intros next Hnext. case (bool_decide (op_phase next = Phase.Poisoned)); [done|].
  destruct (si_deactivation_info status); [|by rewrite andb_false_r in Hvalid].
  destruct (si_catch_up_capability status); [|by rewrite andb_false_r in Hvalid].
  apply panics_bind; [done|intros d _]. apply panics_bind; [done|intros f _].
  apply panics_bind; [|done]. apply panics_set_metadata. destruct Hfo as [fo Hfo'].
  unfold or_fail_closed in Hnext. destruct (record_observation _ _ _ _ _) as [x|[m|m]] eqn:Hr; [| |discriminate].
  - injection Hnext as <-. by apply (record_observation_spec _ fo) in Hr as (o & fo' & phase & _ & _ & _ & ->).
  - by injection Hnext as <-.
Qed.
Lemma panics_reconcile :
  (op_phase op = Phase.FailoverRefreshCandidate → op_target_primary_id op ∈ srs_id <$> ss_members (op_target_snapshot op)) →
  panics (reconcile_failover_operation op turn) = false.
Proof.
  intros Hin. pose proof Hfo as [fo Hfo']. unfold reconcile_failover_operation. rewrite Hfo'.
  apply panics_bind; [auto with panics|intros _ _]. cbn [or_fail ok_or mbind result_bind].
  destruct (replaced_member _ _) as [[id instance]|].
  { apply panics_bind; [|done]. unfold replace_member, adopt_replacement_before_confirmation, drop_replaced. rewrite Hfo'.
    cbn [unwrap]. no_panic. }
  apply panics_bind; [auto with panics|intros obs _].
  assert (∀ status now, op_phase op = Phase.FailoverRefreshCandidate → panics (refresh_candidate op status now) = false) as Href
    by (intros; by apply panics_refresh, Hin).
  destruct (failover_probe_id op) as [id|]; [|auto with panics]. cbn [mbind option_bind].
  destruct (obs !! id) as [o|]; cbn [mbind option_bind].
  - destruct (_ || _). { unfold record_probe. no_panic. } case_bool_decide; [no_panic|].
    destruct (bool_decide _ && _) eqn:Hb; [|auto with panics]. apply andb_true_iff in Hb as [Hb _]. guards.
    apply panics_bind; [by apply Href|done].
  - no_panic.
Qed.
End reconciles.
End panics.
