(* ===== verification/FailoverSafety.v ===== *)
(** What failover promises: which requests it sends and what they rest on,
    what a completion attests, and that no reconcile panics. *)

From S2P Require Import Prelude Types Lifecycle Control Agent Proto Convert Wire Crd Operation Effects Election Failover FailoverLoop FailoverSteps FailoverRuns FailoverInvariant FailoverPanics.

Set Default Goal Selector "!".

(** The epoch of the new primary. *)
Definition epoch_after (p : StablePartitionSnapshotStatus) (data_loss : bool) : EpochStatus :=
  mkEpochStatus (es_data_loss_number (ss_epoch p) + (if data_loss then 1 else 0)) (es_configuration_number (ss_epoch p) + 1).

Lemma parse_role_name r : parse_role (role_name r) = r.
Proof. by destruct r. Qed.

(** What the final attestation requires of a member, in the shape it has in
    the checkpoint. *)
Lemma attested_member_spec failover snapshot member member' :
  attested_member failover snapshot member = Ok member' →
  srs_id member' = srs_id member ∧ srs_instance_id member' = srs_instance_id member ∧ srs_role member' = srs_role member ∧
  ∃ o first epoch lsn, o ∈ fo_final_attestations failover ∧ eos_id o = srs_id member ∧
    eos_instance_id o = srs_instance_id member ∧ to_epoch (eos_epoch o) = to_epoch (ss_epoch snapshot) ∧
    parse_role (eos_role o) = stable_role (srs_role member) ∧ eos_healthy o = true ∧ eos_configuration_matches o = true ∧
    eos_first_retained_lsn o = Some first ∧ eos_deactivation_epoch o = Some epoch ∧ eos_deactivation_catch_up_lsn o = Some lsn ∧
    srs_election_metadata member' = Some (mkStableReplicaElectionMetadataStatus (eos_current_lsn o) (eos_committed_lsn o) first epoch lsn).
Proof.
  unfold attested_member. intros (o & Ho%or_fail_Ok & ([] & Hc%fail_if_Ok & (epoch & He%or_fail_Ok & (first & Hf%or_fail_Ok & (lsn & Hl%or_fail_Ok &
    [= <-])%bind_Ok)%bind_Ok)%bind_Ok)%bind_Ok)%bind_Ok. guards. apply List.find_some in Ho as [Hin%list_elem_of_In Hid%Z.eqb_eq].
  split; [done|]. split; [done|]. split; [done|]. exists o, first, epoch, lsn. split_and!; try done.
Qed.

Section safety.
  Context {Ends : Endpoints} {Codec : PayloadCodec}.
  Context (p : StablePartitionSnapshotStatus) (minimum : Z).

(** The promotion of [c] was seen done and is recorded with it alone. *)
Definition promotion_recorded (c : RankedCandidate) (epoch : EpochStatus) (tr : list entry) : Prop :=
  happened (promoted epoch c) tr ∧
  ∃ s, happened (committed s) tr ∧ ss_epoch s = epoch ∧ ss_primary_id s = rk_id c ∧ srs_id <$> ss_members s = [rk_id c].

(** The failed primary is never elected. *)
Lemma elected_other members c data_loss tr : happened (elected p members c data_loss) tr → rk_id c ≠ ss_primary_id p.
Proof.
  intros (en & _ & _ & input & d & q & _ & Hfailed & Hev & Hc & _ & Hb).
  destruct (build_target_spec _ _ _ _ _ _ Hev Hb) as (c' & Hc' & _ & Hin & _ & _ & _ & Hms).
  apply list_elem_of_fmap in Hin as (s & Hid & Hs). destruct (Hms s Hs) as (m & e & _ & Hm & _ & Ht).
  apply target_member_Some in Ht as (_ & Hne & _). rewrite Hfailed in Hne. congruence.
Qed.

(** ** What is sent *)

Section sent.
  Context (tr : list entry) (op : DurableOperationStatus) (fo : DurableFailoverStatus) (Hf : failing p minimum tr op fo).
  Context `{!PayloadCodecLaws Codec} (turn : FailoverTurn).

Lemma sent_pending eff request :
  fstep op fo turn eff → sent_request eff = Some request →
  ∃ pa handles, op_pending_action op = Some pa ∧ pending_ok op fo pa ∧
    cr_target_replica_id request = pa_target_id pa ∧ cr_target_instance_id request = pa_target_instance_id pa ∧
    failover_action_for op pa handles = Ok (cr_action request).
Proof.
  intros Hstep Hsent. destruct Hstep as [| | | | | | | | | | | |pa status handles instance action persisted sent Hpa Hauth Hst Hact Hd
    |op' obs d eff _ _ _ Heff]; try discriminate Hsent.
  - assert (sent = Some request) as -> by (by destruct persisted).
    pose proof (fl_pending _ _ _ _ _ Hf pa Hpa) as Hok.
    apply dispatch_sent in Hd as (Hreq & _ & _). apply planned_request_fields in Hreq as (_ & Ht & Hi & _ & _ & _ & Hdec & _).
    destruct (pk_payload _ _ _ Hok) as [He|(h & a & Ha & Hen)]; [by rewrite He in Hdec|].
    exists pa, h. split; [done|]. split; [done|]. split; [done|]. split; [done|].
    assert (cr_action request = a) as ->; [|done].
    eapply payload_faithful; [apply prost_faithful|exact Hen|exact Hdec].
  - destruct d; cbn in Heff; try discriminate; try (by injection Heff as <-).
    by apply bind_Ok in Heff as (? & _ & (? & _ & ([] & _ & [= <-])%bind_Ok)%bind_Ok).
Qed.
Lemma confirmed_epoch c members :
  confirmed p minimum tr op fo c members → 4 ≤ rank (op_phase op) →
  ss_epoch (op_target_snapshot op) = epoch_after p (fo_data_loss_required fo).
Proof.
  intros [] Hr. unfold epochs_ok in cf_epoch. destruct (cf_intent ltac:(left; lia)) as [ci Hci]. rewrite Hci in cf_epoch.
  destruct (fo_data_loss_epoch_intent fo) as [d|] eqn:Hd.
  - destruct cf_epoch as (_ & Heq & -> & ->). by rewrite Heq.
  - destruct cf_epoch as [-> ->]. destruct (fo_data_loss_required fo) eqn:Hreq; [|unfold epoch_after; f_equal; lia].
    destruct (cf_data_loss_intent ltac:(left; lia) eq_refl) as [? [=]].
Qed.

(** The candidate's member, at the incarnation its observation had. *)
Lemma confirmed_candidate c members :
  confirmed p minimum tr op fo c members →
  ∃ s, s ∈ members ∧ sr_id s = rk_id c ∧ target_instance op (rk_id c) = Some (sr_instance_id s).
Proof.
  pose proof (fl_failover _ _ _ _ _ Hf) as Hfo. intros []. apply list_elem_of_fmap in cf_candidate as (m & Hm & Hin).
  destruct (cf_members m Hin) as (s & Hs & Hid & Hinst & _). exists s. split; [done|]. split; [congruence|].
  unfold target_instance. rewrite Hfo. cbn [mbind option_bind]. by rewrite Hm, (cf_current m Hin), Hinst.
Qed.

(** Whom a request addresses, once a candidate is confirmed. *)
Definition to_candidate (c : RankedCandidate) (members : list StableReplicaSnapshot) (request : CorrelatedControlActionRequest) : Prop :=
  cr_target_replica_id request = rk_id c ∧
  ∃ s, s ∈ members ∧ sr_id s = rk_id c ∧ sr_instance_id s = cr_target_instance_id request.

(** What the requests of a failover rest on. *)
Definition justified (request : CorrelatedControlActionRequest) : Prop :=
  match cr_action request with
  | ActRecordElectionConfiguration _ => True
  | action =>
      ∃ c members data_loss, happened (elected p members c data_loss) tr ∧ rk_id c ≠ ss_primary_id p ∧
      let epoch := epoch_after p data_loss in
      match action with
      | ActUpdateEpoch e => e = to_epoch epoch ∧
          (to_candidate c members request ∨ cr_target_replica_id request ≠ rk_id c ∧ promotion_recorded c epoch tr)
      | ActOnDataLoss e => e = to_epoch epoch ∧ data_loss = true ∧ to_candidate c members request
      | ActChangeRole e role => e = to_epoch epoch ∧ role = Primary ∧ to_candidate c members request ∧
          (data_loss = true → happened (callback_answered epoch c) tr)
      | ActUpdateCatchUpConfiguration _ _ | ActWaitForCatchUpQuorum _ | ActUpdateCurrentConfiguration _ =>
          to_candidate c members request ∧ promotion_recorded c epoch tr
      | _ => False
      end
  end.

Lemma confirmed_recorded c members :
  confirmed p minimum tr op fo c members → 9 ≤ rank (op_phase op) →
  promotion_recorded c (epoch_after p (fo_data_loss_required fo)) tr.
Proof.
  intros Hcf Hr. rewrite <-(confirmed_epoch c members) by (done || lia). destruct Hcf.
  apply cf_committed in Hr as [_ Hpc]. split; [apply cf_promoted; by right|].
  destruct (cf_snapshot Hpc) as (s & _ & Hh & He & Hp & Hm). by exists s.
Qed.

Lemma sent_justified eff request :
  fstep op fo turn eff → sent_request eff = Some request → justified request.
Proof.
  intros Hstep Hsent. destruct (sent_pending _ _ Hstep Hsent) as (pa & handles & Hpa & [Hk Ht He Hi _] & Hid & Hinst & Hact).
  unfold justified, failover_action_for in *. unfold addressed in Ht.
  assert (rank (op_phase op) = 1 ∨ 4 ≤ rank (op_phase op)) as [Hr|Hr] by (apply failover_rank_range in Hk; lia).
  { assert (pa_kind pa = Action.FailoverRecordStartingConfiguration) as Hkind
      by (destruct (op_phase op); try discriminate Hr; try discriminate Hk; by injection Hk).
    rewrite Hkind in Hact. apply bind_Ok in Hact as (? & _ & [= <-]). done. }
  destruct (failing_confirmed _ _ _ _ _ Hf) as (c & members & Hcf); [left; lia|].
  pose proof (confirmed_epoch _ _ Hcf Hr) as Hep. rewrite Hep in He.
  destruct (confirmed_candidate _ _ Hcf) as (s & Hs & Hsid & Hsi).
  destruct (cf_primary _ _ _ _ _ _ _ Hcf) as [Hp _].
  pose proof (cf_elected _ _ _ _ _ _ _ Hcf) as Hel.
  assert (pa_target_id pa = op_target_primary_id op → to_candidate c members request) as Hcand.
  { intros Hti. split; [congruence|]. exists s. split; [done|]. split; [done|]. rewrite Hinst, Hi, Hti, Hp, Hsi. done. }
  pose proof (confirmed_recorded _ _ Hcf) as Hrec.
  destruct (op_phase op) eqn:Hph; try discriminate Hk; injection Hk as Hk; rewrite <-Hk in Hact; cbn [rank] in *; try lia;
    try discriminate Hact;
    try (apply bind_Ok in Hact as (current & _ & Hact)); try (apply bind_Ok in Hact as (previous & _ & Hact));
    injection Hact as <-; try done; exists c, members, (fo_data_loss_required fo); (split; [done|]);
    (split; [by eapply elected_other|]); rewrite ?He; cbn zeta.
  - split; [done|]. left. by apply Hcand.
  - split; [done|]. split; [|by apply Hcand].
    apply (cf_negotiates _ _ _ _ _ _ _ Hcf). rewrite Hph. cbn. lia.
  - split; [done|]. split; [done|]. split; [by apply Hcand|]. intros Hreq. rewrite <-Hep. apply (cf_callback _ _ _ _ _ _ _ Hcf); [|done].
    left. rewrite Hph. cbn. lia.
  - split; [done|]. right. split; [|by apply Hrec].
    unfold target_secondaries in Ht. apply list_elem_of_fmap in Ht as (m & Hm & [Hne _]%list_elem_of_filter). congruence.
  - split; [by apply Hcand|by apply Hrec].
  - split; [by apply Hcand|by apply Hrec].
  - split; [by apply Hcand|by apply Hrec].
Qed.
End sent.

(** C28. A failover sends nothing it has no right to. In any run, whatever the
    pods, replicas and clocks answer and whichever status writes are lost:
    every request but the recording of a configuration follows an assessment
    in the run that elected a replica other than the failed primary. The
    promotion goes to that replica, at the incarnation that was elected, at
    the one new epoch (the configuration number raised by one, the data-loss
    number too exactly when the read quorum was given up), and after a data
    loss only once that replica answered its callback. Every other member is
    given the new epoch, and a configuration is installed on the primary, only
    when the promotion was seen done and committed with it alone. *)
Theorem failover_requests_justified tr op turn eff request :
  PayloadCodecLaws Codec → frun p minimum tr op → reconcile_failover_operation op turn = Ok eff →
  sent_request eff = Some request → justified tr request.
Proof.
  intros Hlaws Hrun Hr Hsent. destruct (frun_failing _ _ _ _ Hrun) as [fo Hf].
  eapply sent_justified; [exact Hf|exact Hlaws| |exact Hsent]. apply reconcile_fstep; [apply Hf|done].
Qed.

(** ** What a completion attests *)

(** [m] answered the final attestation as the snapshot has it, holding the
    configuration of a target no smaller than the snapshot. *)
Definition answered_final (tr : list entry) (snapshot : StablePartitionSnapshotStatus) (m : StableReplicaSnapshotStatus) : Prop :=
  happened (λ en, ∃ status first deactivation,
    let then_target := op_target_snapshot (en_operation en) in
    op_phase (en_operation en) = Phase.FailoverAttest ∧ ft_status (en_turn en) (srs_id m) = Ok status ∧
    si_instance_id status = srs_instance_id m ∧ si_epoch status = to_epoch (ss_epoch snapshot) ∧
    si_role status = stable_role (srs_role m) ∧ si_healthy status = true ∧
    si_catch_up_capability status = Some first ∧ si_deactivation_info status = Some deactivation ∧
    srs_election_metadata m = Some (mkStableReplicaElectionMetadataStatus (si_current_progress status) (si_committed_lsn status)
      first (of_epoch (di_epoch deactivation)) (di_catch_up_lsn deactivation)) ∧
    target_runtime_configuration_matches (si_election_configuration status) then_target = true ∧
    ss_epoch then_target = ss_epoch snapshot ∧ (srs_id <$> ss_members snapshot) ⊆ (srs_id <$> ss_members then_target)) tr.

Lemma snapshot_attested tr op fo snapshot :
  (∀ o, o ∈ fo_final_attestations fo → happened (attested (op_target_snapshot op) o) tr) → op_failover op = Some fo →
  snapshot_from_attestations op = Ok snapshot →
  ss_epoch snapshot = ss_epoch (op_target_snapshot op) ∧ ss_primary_id snapshot = ss_primary_id (op_target_snapshot op) ∧
  ss_write_quorum snapshot = ss_write_quorum (op_target_snapshot op) ∧
  srs_id <$> ss_members snapshot = srs_id <$> ss_members (op_target_snapshot op) ∧
  is_ok (snapshot_try_from_status snapshot) = true ∧
  ∀ m, m ∈ ss_members snapshot → answered_final tr snapshot m.
Proof.
  intros Hatt Hfo. unfold snapshot_from_attestations, failover_ref. rewrite Hfo. cbn [or_fail ok_or mbind result_bind].
  intros (ms & Hms & ([] & Hv & [= <-])%bind_Ok)%bind_Ok. cbn [ss_epoch ss_primary_id ss_write_quorum ss_members over].
  apply (try_map_Ok _ (λ m m', attested_member fo (op_target_snapshot op) m = Ok m')) in Hms; [|done].
  assert (srs_id <$> ms = srs_id <$> ss_members (op_target_snapshot op)) as Hids.
  { clear -Hms. induction Hms as [|m m' l l' (H & _)%attested_member_spec _ IH]; [done|]. rewrite !fmap_cons. by rewrite H, IH. }
  split; [done|]. split; [done|]. split; [done|]. split; [done|]. split.
  { unfold validate_failover_snapshot in Hv. apply bind_Ok in Hv as (s & Hs%lift_Ok & _).
    destruct (snapshot_try_from_status _); [done|discriminate Hs]. }
  intros m' [k Hk]%list_elem_of_lookup. destruct (Forall2_lookup_r _ _ _ _ _ Hms Hk) as (m & Hm & Hspec).
  apply attested_member_spec in Hspec as (Hid & Hinst & Hrole & o & first & epoch & lsn & Hin & Hoid & Hoi & Hoe & Hor & Hoh & Hoc & Hof & Hod & Hol & Hmeta).
  destruct (Hatt o Hin) as (en & Hen & Hph & Hte & Hsub & status & Hst & Ho). eapply happened_in; [exact Hen|].
  assert (∃ d, si_deactivation_info status = Some d ∧ of_epoch (di_epoch d) = epoch ∧ di_catch_up_lsn d = lsn) as (d & Hd & <- & <-).
  { rewrite Ho in Hod, Hol. cbn in Hod, Hol. destruct (si_deactivation_info status) as [d|]; [|discriminate]. exists d.
    injection Hod as <-. injection Hol as <-. done. }
  exists status, first, d. cbn [ss_epoch ss_members over]. split; [done|]. split; [by rewrite Hid, <-Hoid|].
  rewrite Ho in Hoi, Hoe, Hor, Hoh, Hoc, Hof, Hmeta. cbn in Hoi, Hoe, Hor, Hoh, Hoc, Hof, Hmeta.
  rewrite to_of_epoch in Hoe. rewrite parse_role_name in Hor.
  split; [by rewrite Hinst|]. split; [done|]. split; [by rewrite Hrole|]. split; [done|]. split; [done|]. split; [done|].
  split; [done|]. split; [done|]. split; [done|]. rewrite Hids. intros x (y & -> & Hy)%list_elem_of_fmap.
  apply list_elem_of_fmap. exists y. split; [done|]. by apply Hsub.
Qed.

Lemma fstep_complete op fo turn final snapshot :
  fstep op fo turn (FeComplete final snapshot) →
  ∃ op', (op' = op ∨ op' = set_authorized false op) ∧ op_phase op' = Phase.FailoverAttest ∧
    snapshot_from_attestations op' = Ok snapshot ∧
    final = op' <| op_phase := Phase.Completed |> <| op_pending_action := None |> <| op_target_snapshot := snapshot |>.
Proof.
  remember (FeComplete final snapshot) as eff eqn:Heff. intros Hstep.
  destruct Hstep as [| | | | | | | | | | | |pa status handles instance action persisted sent Hpa Hauth Hst Hact Hd
    |op' obs d eff Hop _ Hd Hap]; try discriminate Heff; [by destruct persisted|]. subst eff.
  destruct Hd; cbn in Hap; try discriminate.
  apply bind_Ok in Hap as (? & _ & (? & _ & ([] & _ & [= <- <-])%bind_Ok)%bind_Ok). by exists op'.
Qed.

(** C29. What a finished failover publishes is what was attested. It completes
    only with the elected replica, never the failed one, as primary, its
    promotion seen done and committed, at the one new epoch, with a valid
    snapshot of at least the minimum number of members, all different, whose
    write quorum is their majority; and every member answered the final
    attestation: healthy, as the incarnation and in the role the snapshot
    gives it, at that epoch, with the progress the snapshot records, holding
    the target configuration of that moment, which had every member of the
    snapshot. *)
Theorem failover_completion_attested tr op turn final snapshot :
  frun p minimum tr op → reconcile_failover_operation op turn = Ok (FeComplete final snapshot) →
  op_phase final = Phase.Completed ∧ op_target_snapshot final = snapshot ∧
  ∃ c members data_loss, happened (elected p members c data_loss) tr ∧ rk_id c ≠ ss_primary_id p ∧
    promotion_recorded c (epoch_after p data_loss) tr ∧
    ss_epoch snapshot = epoch_after p data_loss ∧ ss_primary_id snapshot = rk_id c ∧
    NoDup (srs_id <$> ss_members snapshot) ∧ rk_id c ∈ srs_id <$> ss_members snapshot ∧
    minimum ≤ Z.of_nat (length (ss_members snapshot)) ∧ ss_write_quorum snapshot = majority (ss_members snapshot) ∧
    is_ok (snapshot_try_from_status snapshot) = true ∧
    ∀ m, m ∈ ss_members snapshot → answered_final tr snapshot m.
Proof.
  intros Hrun Hr. destruct (frun_failing _ _ _ _ Hrun) as [fo Hf]. pose proof (fl_failover _ _ _ _ _ Hf) as Hfo.
  apply (reconcile_fstep _ fo Hfo), fstep_complete in Hr as (op' & Hop & Hph & Hs & ->).
  split; [done|]. split; [done|]. pose proof (decided_on p minimum tr op fo Hf op' Hop) as Hf'.
  destruct (failing_confirmed _ _ _ _ _ Hf') as (c & members & Hcf); [left; by rewrite Hph|].
  pose proof (confirmed_epoch tr op' fo c members Hcf ltac:(rewrite Hph; done)) as Hep.
  pose proof (confirmed_recorded tr op' fo c members Hcf ltac:(rewrite Hph; done)) as Hrec.
  destruct Hcf. destruct (snapshot_attested tr op' fo snapshot cf_attested (fl_failover _ _ _ _ _ Hf') Hs) as (He & Hp & Hq & Hids & Hv & Hall).
  exists c, members, (fo_data_loss_required fo). split; [done|]. split; [by eapply elected_other|]. split; [done|].
  destruct cf_primary as [_ Hpc]. apply (f_equal length) in Hids as Hlen. rewrite !length_fmap in Hlen.
  rewrite Hids, Hp, He, Hq, Hlen. split; [done|]. split; [done|]. split; [done|]. split; [done|].
  split; [rewrite Hph in cf_minimum; by destruct cf_minimum as [[[=] _]|]|]. split; [|done].
  rewrite cf_quorum. unfold majority. by rewrite Hlen.
Qed.

(** C30. Every reachable failover is well formed and a reconcile never panics.
    Whatever came before, the checkpoint is a failover from the given snapshot
    with one configuration; its pending action is the one of its phase,
    addressed and fenced as the phase asks; before a candidate is confirmed
    the target is the previous snapshot and no epoch was taken; after, the
    target has distinct members at elected incarnations, the candidate as its
    primary and a majority as its quorum, at the epoch of the last intent
    persisted; and each stage it has reached has its evidence in the run. *)
Theorem failover_invariant tr op turn :
  frun p minimum tr op →
  (∃ fo, failing p minimum tr op fo) ∧ panics (reconcile_failover_operation op turn) = false.
Proof.
  intros Hrun. destruct (frun_failing _ _ _ _ Hrun) as [fo Hf]. split; [by exists fo|].
  apply panics_reconcile; [rewrite (fl_failover _ _ _ _ _ Hf); by eexists|]. intros Hph.
  destruct (failing_confirmed _ _ _ _ _ Hf) as (c & members & Hcf); [left; by rewrite Hph|].
  destruct (cf_primary _ _ _ _ _ _ _ Hcf) as [-> _]. apply (cf_candidate _ _ _ _ _ _ _ Hcf).
Qed.
End safety.
