(* ===== verification/FailoverDemo.v ===== *)
(** A failover of four replicas, played: the instances on which the theorems
    about failovers are applied, and a replacement in the middle of the epoch
    distribution. *)

From S2P Require Import Prelude Types Lifecycle Control Agent RemoveReplica Proto Convert Wire Crd Operation Effects Election Failover FailoverLoop FailoverSteps FailoverRuns FailoverInvariant FailoverPanics FailoverSafety.

Set Default Goal Selector "!".

Module DemoFailover.
#[local] Existing Instance DemoRemove.ends.

(** A codec that knows one message, the promotion. *)
Definition promotion : ExecuteCorrelatedControlActionRequest :=
  payload_request (ChangeRoleProto (Some (mkEpochProto 1 6)) 1).
Definition encode (m : ExecuteCorrelatedControlActionRequest) : list Byte.byte :=
  match m with
  | mkExecuteCorrelatedControlActionRequest version id signature replica instance generation None None
      (Some (ChangeRoleProto (Some (mkEpochProto data_loss configuration)) role)) =>
      if bool_decide ((version, id, signature, replica, instance, generation, data_loss, configuration, role) =
                      (0, "", "", 0, "", "", 1, 6, 1)) then [Byte.x2a] else []
  | _ => []
  end.
Definition decode (bytes : list Byte.byte) : result string ExecuteCorrelatedControlActionRequest :=
  match bytes with [Byte.x2a] => Ok promotion | _ => Err "no message" end.
#[global] Instance codec : PayloadCodec := mkPayloadCodec encode decode.
#[global] Instance codec_laws : PayloadCodecLaws codec.
Proof.
  intros m m'. cbn [prost_encode prost_decode codec]. unfold encode, decode.
  destruct m as [version id signature replica instance generation v e a]. repeat (case_match; try discriminate).
  intros [= <-]. guards. by simplify_eq.
Qed.

Definition member (id : Z) (uid : string) (role : StableReplicaRoleStatus) : StableReplicaSnapshotStatus :=
  mkStableReplicaSnapshotStatus id uid role None.
Definition topology4 : StablePartitionSnapshotStatus := mkStablePartitionSnapshotStatus (mkEpochStatus 1 5) 1
  [member 1 "u1" StablePrimary; member 2 "u2" StableActiveSecondary; member 3 "u3" StableActiveSecondary;
   member 4 "u4" StableActiveSecondary] 3.
Definition generation : string := "000102030405060708090a0b0c0d0e0f".

(** How the cluster answers: who was replaced, who was never asked for the
    new epoch, and whether the promotion has been carried out. *)
Record answers := mkAnswers { an_replaced : list Z; an_behind : list Z; an_promoted : bool }.

Definition uid (a : answers) (id : Z) : string := (if bool_decide (id ∈ an_replaced a) then "v" else "u") +:+ pretty id.

Definition at_epoch (a : answers) (op : DurableOperationStatus) (id : Z) : Epoch :=
  to_epoch (if (4 <=? rank (op_phase op)) && negb (bool_decide (id ∈ an_behind a))
            then ss_epoch (op_target_snapshot op) else mkEpochStatus 1 5).

Definition done (op : DurableOperationStatus) : list CorrelatedActionObservation :=
  match op_pending_action op with
  | Some pa =>
      if bool_decide (pa_kind pa = Action.FailoverWaitForCatchUpQuorum)
      then [mkCorrelatedActionObservation generation 1 (mkDurableActionObservation (pa_action_id pa) "wait-for-catch-up:Write"
             Completed None None None None None)] else []
  | None => []
  end.

Definition elects (op : DurableOperationStatus) : option ReplicaElectionConfiguration :=
  match op_phase op with
  | Phase.FailoverRecordElectionConfiguration | Phase.FailoverAttest => Some (target_election_configuration op)
  | _ => match failover_election_configuration op with Ok c => Some c | Err _ => None end
  end.

Definition status (a : answers) (op : DurableOperationStatus) (id : Z) : ReplicaStatusInfo :=
  mkReplicaStatusInfo (uid a id)
    (if an_promoted a && (id =? op_target_primary_id op) then Primary else ActiveSecondary) (at_epoch a op id) 7 (Some 1) 7 true
    StNotPrimary
    (Some (snapshot_configuration (match op_phase op with Phase.FailoverCatchUpConfiguration => CatchUp | _ => Current end)
       (op_target_snapshot op)))
    (elects op) (Some (mkReplicaDeactivationInfo (mkEpoch 1 5) 7)) [] None
    (mkReplicaAgentStatus 3 1 generation 1 None (done op) []).

Definition turn (a : answers) (op : DurableOperationStatus) : FailoverTurn := {|
  ft_pods := (λ id, mkFailoverPod id (uid a id) ("pod-" +:+ pretty id) (Some (if id =? 2 then "primary" else "secondary"))) <$> [2; 3; 4];
  ft_handles := list_to_map ((λ id, (id, mkFailoverHandle (uid a id) "replicator")) <$> [2; 3; 4]);
  ft_status id := Ok (status a op id);
  ft_control_address _ := "control";
  ft_call _ := Err AgentBusy;
  ft_now := 101 |}.

Definition start : DurableOperationStatus :=
  match start_failover "set" topology4 1 2 100 with Ok op => op | Err _ => mkDurableOperationStatus "" "" 0 OpFailover
    Phase.Poisoned None topology4 None None 0 0 None None None None None None None None None None 0 0 None None None None None None None None end.

Fixpoint play (l : list answers) (tr : list entry) (op : DurableOperationStatus) : list entry * DurableOperationStatus :=
  match l with
  | [] => (tr, op)
  | a :: l =>
      match reconcile_failover_operation op (turn a op) with
      | Ok eff => match next_operation op eff with
        | Some next => play l (mkEntry op (turn a op) eff :: tr) next
        | None => (tr, op)
        end
      | Err _ => (tr, op)
      end
  end.

Definition waiting : answers := mkAnswers [] [] false.
Definition serving : answers := mkAnswers [] [] true.
Definition to_promotion : list answers := replicate 17 waiting.
Definition to_completion : list answers := to_promotion ++ replicate 32 serving.

(** Replica 3 is replaced while its epoch is being distributed; replica 4,
    which comes after it, is healthy and does what it is asked. *)
Definition replaced : answers := mkAnswers [3] [4] true.
Definition to_replacement : list answers :=
  replicate 17 (mkAnswers [] [4] false) ++ replicate 2 (mkAnswers [] [4] true) ++ replicate 22 replaced.
Definition played (l : list answers) : list entry * DurableOperationStatus := play l [] start.
End DemoFailover.

Section played.
#[local] Existing Instance DemoRemove.ends.
Import DemoFailover.

Lemma failover_started : frun topology4 2 [] start.
Proof. eapply (fr_start topology4 2 "set" 1 2 100); [vm_compute; reflexivity|reflexivity]. Qed.

Lemma play_frun l tr op : frun topology4 2 tr op → frun topology4 2 (play l tr op).1 (play l tr op).2.
Proof.
  revert tr op. induction l as [|a l IH]; intros tr op Hrun; [done|]. cbn [play].
  destruct (reconcile_failover_operation op (turn a op)) as [eff|] eqn:Hr; [|done].
  destruct (next_operation op eff) as [next|] eqn:Hn; [|done]. apply IH. by eapply fr_turn.
Qed.

Lemma played_frun l : frun topology4 2 (played l).1 (played l).2.
Proof. apply play_frun, failover_started. Qed.

Lemma failover_requests_justified_witness :
  ∃ request, cr_action request = ActChangeRole (mkEpoch 1 6) Primary ∧ justified topology4 (played to_promotion).1 request.
Proof.
  destruct (reconcile_failover_operation (played to_promotion).2 (turn waiting (played to_promotion).2)) as [eff|e] eqn:Hr;
    [|vm_compute in Hr; discriminate Hr].
  destruct (sent_request eff) as [request|] eqn:Hs; [|vm_compute in Hr; injection Hr as <-; discriminate Hs].
  exists request. split.
  - vm_compute in Hr. injection Hr as <-. injection Hs as <-. reflexivity.
  - exact (failover_requests_justified topology4 2 _ _ _ _ _ codec_laws (played_frun to_promotion) Hr Hs).
Defined.

Lemma failover_completion_attested_witness :
  ∃ snapshot, length (ss_members snapshot) = 3%nat ∧
    ∀ m, m ∈ ss_members snapshot → answered_final (played to_completion).1 snapshot m.
Proof.
  destruct (reconcile_failover_operation (played to_completion).2 (turn serving (played to_completion).2)) as [eff|e] eqn:Hr;
    [|vm_compute in Hr; discriminate Hr].
  assert (∃ final snapshot, eff = FeComplete final snapshot ∧ length (ss_members snapshot) = 3%nat) as (final & snapshot & -> & Hl)
    by (vm_compute in Hr; injection Hr as <-; eexists _, _; split; reflexivity).
  exists snapshot. split; [exact Hl|].
  destruct (failover_completion_attested topology4 2 _ _ _ _ _ (played_frun to_completion) Hr)
    as (_ & _ & c & members & dl & _ & _ & _ & _ & _ & _ & _ & _ & _ & _ & H). exact H.
Defined.

Lemma failover_invariant_witness :
  (∃ fo, failing topology4 2 (played to_promotion).1 (played to_promotion).2 fo) ∧
  panics (reconcile_failover_operation (played to_promotion).2 (turn serving (played to_promotion).2)) = false.
Proof. exact (failover_invariant topology4 2 _ _ _ (played_frun to_promotion)). Defined.

(** Replica 4 at an entry: alive, unmoved and not to be moved. *)
Definition left_behind (en : entry) : bool :=
  match ft_status (en_turn en) 4 with
  | Ok status => si_healthy status && (bool_decide (si_instance_id status = "u4") && bool_decide (si_epoch status = mkEpoch 1 5))
  | Err _ => false
  end &&
  match op_pending_action (en_operation en) with
  | Some pa => negb ((pa_target_id pa =? 4) && bool_decide (pa_kind pa = Action.FailoverUpdateSecondaryEpoch))
  | None => true
  end.

Lemma left_behind_true en :
  left_behind en = true →
  (∃ status, ft_status (en_turn en) 4 = Ok status ∧ si_healthy status = true ∧ si_instance_id status = "u4" ∧
     si_epoch status = mkEpoch 1 5) ∧
  (∀ pa, op_pending_action (en_operation en) = Some pa → pa_target_id pa = 4 →
     pa_kind pa ≠ Action.FailoverUpdateSecondaryEpoch).
Proof.
  unfold left_behind. intros [Hst Hpa]%andb_true_iff. split.
  - destruct (ft_status (en_turn en) 4) as [status|]; [|discriminate].
    apply andb_true_iff in Hst as [Hh [Hi He]%andb_true_iff]. guards. by exists status.
  - intros pa Hp Ht Hk. rewrite Hp, Ht, Hk in Hpa. discriminate Hpa.
Qed.

(** A replacement in the middle of the epoch distribution poisons the
    failover. When a secondary is replaced after the promotion is committed,
    the target shrinks and the failover goes on with the catch-up
    configuration, past the distribution. There is a run in which a healthy
    secondary of the target, which answers throughout as its incarnation at
    the epoch it was left at, is never planned an epoch update, reaches the
    final attestation at the old epoch, and poisons the failover there. *)
Theorem replacement_skips_distribution :
  ∃ trace op,
    frun topology4 2 trace op ∧
    op_phase op = Phase.Poisoned ∧ op_last_error op = Some "replica 4 final attestation differs from target" ∧
    srs_id <$> ss_members (op_target_snapshot op) = [2; 4] ∧ ss_epoch (op_target_snapshot op) = mkEpochStatus 1 6 ∧
    ∀ en, en ∈ trace →
      (∃ status, ft_status (en_turn en) 4 = Ok status ∧ si_healthy status = true ∧ si_instance_id status = "u4" ∧
         si_epoch status = to_epoch (ss_epoch topology4)) ∧
      (∀ pa, op_pending_action (en_operation en) = Some pa → pa_target_id pa = 4 →
         pa_kind pa ≠ Action.FailoverUpdateSecondaryEpoch).
Proof.
  exists (played to_replacement).1, (played to_replacement).2. split; [apply played_frun|].
  split; [vm_compute; reflexivity|]. split; [vm_compute; reflexivity|]. split; [vm_compute; reflexivity|].
  split; [vm_compute; reflexivity|].
  assert (forallb left_behind (played to_replacement).1 = true) as Hall by (vm_compute; reflexivity).
  intros en Hen%list_elem_of_In. rewrite forallb_forall in Hall. exact (left_behind_true en (Hall en Hen)).
Qed.
End played.
