(* ===== verification/AddWorkflow.v ===== *)
(** The operator's add-replica workflow
    (kuberic-operator/src/durable/add_replica.rs): it freezes the intent of an
    addition from what it observes, hands it to the agent of the primary, and
    decides from the observed outcome whether the addition committed. *)

From S2P Require Import Prelude Types Lifecycle AddReplica Control Replicator Agent Proto Convert Crd Operation.

Set Default Goal Selector "!".

Definition ADD_DEADLINE_SECONDS : Z := 600.
Definition COMPENSATION_GRACE_SECONDS : Z := 30.

(** ** Checks *)

Definition validate_add_snapshot (snapshot : StablePartitionSnapshotStatus) : result failure unit :=
  fail_if (bool_decide (ss_members snapshot = [])) "stable snapshot has no members";;
  scanned ← try_fold (λ (scan : gset Z * gset string * Z) member,
      let '(ids, instances, primary_count) := scan in
      fail_if ((srs_id member <=? 0) || bool_decide (srs_id member ∈ ids))
        "stable snapshot has invalid or duplicate replica ID";;
      fail_if (empty (srs_instance_id member) || bool_decide (srs_instance_id member ∈ instances))
        "stable snapshot has missing or duplicate incarnation";;
      let primary := bool_decide (srs_role member = StablePrimary) in
      fail_if (primary && negb (srs_id member =? ss_primary_id snapshot))
        "stable snapshot primary role conflicts with primary ID";;
      Ok ({[srs_id member]} ∪ ids, {[srs_instance_id member]} ∪ instances,
          if primary then primary_count + 1 else primary_count))
    (∅, ∅, 0) (ss_members snapshot);
  fail_if (negb (scanned.2 =? 1)) "stable snapshot must contain exactly one primary";;
  fail_if (negb (ss_write_quorum snapshot =? as_u32 (length (ss_members snapshot)) / 2 + 1))
    "stable snapshot has invalid write quorum".

Definition add_target_replica_id (operation : DurableOperationStatus) : result failure Z :=
  or_fail (op_target_replica_id operation) "add operation has no target replica ID".

Definition filled (o : option string) : option string :=
  match o with Some value => if empty value then None else Some value | None => None end.

Definition add_target_instance_id (operation : DurableOperationStatus) : result failure string :=
  or_fail (filled (op_target_instance_id operation)) "add operation has no target incarnation".

Definition add_target_pod_name (operation : DurableOperationStatus) : result failure string :=
  or_fail (filled (op_target_pod_name operation)) "add operation has no target pod".

(** ** The frozen configurations *)

Definition add_descriptor_status (descriptor : ConfigurationDescriptor) : ConfigurationDescriptorStatus :=
  mkConfigurationDescriptorStatus
    ((λ member,
        let '(progress_source, current_progress, catch_up_capability) := match cd_progress member with
          | Frozen current_progress catch_up_capability => (PsFrozen, current_progress, catch_up_capability)
          | BuildCopyLsn => (PsBuildCopyLsn, 0, 0)
          end in
        mkConfigurationMemberDescriptorStatus (cd_id member) (cd_instance_id member) (role_debug (cd_role member))
          (replica_status_debug (cd_status member)) (cd_replicator_address member) (cd_must_catch_up member)
          progress_source current_progress catch_up_capability) <$> cfg_members descriptor)
    (cfg_write_quorum descriptor).

Definition add_core_member (seen : gset Z * gset string) (member : ConfigurationMemberDescriptorStatus) :
    result string (gset Z * gset string * ConfigurationMemberDescriptor) :=
  let '(ids, instances) := seen in
  reject_if ((cmds_id member <=? 0) || bool_decide (cmds_id member ∈ ids))
    "configuration descriptor has duplicate replica ID";;
  reject_if (empty (cmds_instance_id member) || bool_decide (cmds_instance_id member ∈ instances))
    "configuration descriptor has duplicate incarnation";;
  reject_if (negb (bool_decide (cmds_role member = "ActiveSecondary")) || negb (bool_decide (cmds_status member = "Up")))
    "configuration descriptor has unsupported role/status";;
  Ok ({[cmds_id member]} ∪ ids, {[cmds_instance_id member]} ∪ instances,
      mkConfigurationMemberDescriptor (cmds_id member) (cmds_instance_id member) ActiveSecondary Up
        (cmds_replicator_address member) (cmds_must_catch_up member)
        match cmds_progress_source member with
        | PsFrozen => Frozen (cmds_current_progress member) (cmds_catch_up_capability member)
        | PsBuildCopyLsn => BuildCopyLsn
        end).

Definition add_core_descriptor (descriptor : ConfigurationDescriptorStatus) : result string ConfigurationDescriptor :=
  '(_, members) ← try_fold (λ (scan : gset Z * gset string * list ConfigurationMemberDescriptor) member,
      '(seen, m) ← add_core_member scan.1 member; Ok (seen, scan.2 ++ [m]))
    ((∅, ∅), []) (cds_members descriptor);
  Ok (mkConfigurationDescriptor members (cds_write_quorum descriptor)).

(** ** Starting *)

Definition add_retired_instance (mode : DurableAddMode) (existing : option StableReplicaSnapshotStatus)
    (target_replica_id : Z) (target_instance_id : string) : result failure (option string) :=
  match mode with
  | AmScaleUp =>
      fail_if (negb (none existing))
        ("scale-up target replica " +:+ pretty target_replica_id +:+ " is already committed");;
      Ok None
  | AmRebuild =>
      member ← or_fail existing ("rebuild target replica " +:+ pretty target_replica_id +:+ " is not committed");
      fail_if (negb (bool_decide (srs_role member = StableActiveSecondary)))
        "only a stable secondary can be rebuilt";;
      fail_if (bool_decide (srs_instance_id member = target_instance_id))
        "rebuild target must have a new incarnation";;
      Ok (Some (srs_instance_id member))
  end.

(** [iter_mut().find(...)] of the target and the two assignments. *)
Fixpoint renew_member (id : Z) (instance_id : string) (l : list StableReplicaSnapshotStatus) :
    list StableReplicaSnapshotStatus :=
  match l with
  | [] => []
  | m :: l =>
      if srs_id m =? id then m <| srs_instance_id := instance_id |> <| srs_election_metadata := None |> :: l
      else m :: renew_member id instance_id l
  end.

Definition add_target_snapshot (previous : StablePartitionSnapshotStatus)
    (existing : option StableReplicaSnapshotStatus) (id : Z) (instance_id : string) : StablePartitionSnapshotStatus :=
  let members := sort_by_key srs_id match existing with
    | Some _ => renew_member id instance_id (ss_members previous)
    | None => ss_members previous ++ [mkStableReplicaSnapshotStatus id instance_id StableActiveSecondary None]
    end in
  previous <| ss_members := members |> <| ss_write_quorum := as_u32 (length members) / 2 + 1 |>.

Definition start_add_replica (set_uid : string) (previous : StablePartitionSnapshotStatus) (target_replica_id : Z)
    (target_instance_id target_pod_name : string) (mode : DurableAddMode) (minimum_committed_replicas : nat) (now : Z) :
    result failure DurableOperationStatus :=
  validate_add_snapshot previous;;
  fail_if (empty target_instance_id) "add target incarnation is empty";;
  fail_if (target_replica_id =? ss_primary_id previous) "cannot add or rebuild the primary as a secondary";;
  let existing := List.find (λ member, srs_id member =? target_replica_id) (ss_members previous) in
  retired_instance_id ← add_retired_instance mode existing target_replica_id target_instance_id;
  fail_if (existsb (λ member, bool_decide (srs_instance_id member = target_instance_id) &&
                              negb (srs_id member =? target_replica_id)) (ss_members previous))
    "add target incarnation duplicates another stable member";;
  let target := add_target_snapshot previous existing target_replica_id target_instance_id in
  validate_add_snapshot target;;
  fail_if (length (ss_members target) <? Nat.max minimum_committed_replicas 1)%nat
    "target topology is below minReplicas";;
  let operation_id := set_uid +:+ ":add-replica:v" +:+ pretty ADD_REPLICA_OPERATION_VERSION +:+ ":" +:+
    pretty (es_data_loss_number (ss_epoch previous)) +:+ "-" +:+
    pretty (es_configuration_number (ss_epoch previous)) +:+ ":" +:+ pretty target_replica_id +:+ "@" +:+
    target_instance_id in
  Ok {|
    op_operation_id := operation_id;
    op_execution_id := operation_id +:+ ":execution-1";
    op_version := ADD_REPLICA_OPERATION_VERSION;
    op_kind := OpAddReplica;
    op_phase := Phase.AddFreezeIntent;
    op_previous_snapshot := Some previous;
    op_target_snapshot := target;
    op_committed_snapshot := None;
    op_minimum_committed_replicas := Some (as_u32 (Nat.max minimum_committed_replicas 1));
    op_old_primary_id := ss_primary_id previous;
    op_target_primary_id := ss_primary_id previous;
    op_add_mode := Some mode;
    op_remove_mode := None;
    op_target_replica_id := Some target_replica_id;
    op_target_instance_id := Some target_instance_id;
    op_target_pod_name := Some target_pod_name;
    op_target_pod_uid := None;
    op_remove_target_replicator_address := None;
    op_remove_target_agent_generation := None;
    op_retired_instance_id := retired_instance_id;
    op_frozen_lsn := None;
    op_next_secondary_index := 0;
    op_phase_deadline_unix_seconds := i64_add now ADD_DEADLINE_SECONDS;
    op_pending_action := None;
    op_last_error := None;
    op_failover := None;
    op_add_intent := None;
    op_remove_intent := None;
    op_remove_commit_evidence := None;
    op_remove_cleanup := None;
    op_removal_disposition := None |}.

Section workflow.
  Context {Ends : Endpoints}.

(** ** The frozen intent *)

Definition core_mode (mode : option DurableAddMode) : result failure AddReplicaMode :=
  match mode with
  | Some AmScaleUp => Ok ScaleUp
  | Some AmRebuild => Ok Rebuild
  | None => error "add operation has no mode"
  end.

Definition core_add_intent (operation : DurableOperationStatus) : result failure AddReplicaIntent :=
  intent ← or_fail (op_add_intent operation) "add operation has no frozen intent";
  mode ← core_mode (op_add_mode operation);
  previous ← expect_previous (op_previous_snapshot operation);
  primary_generation ← lift (agent_generation_parse (ais_primary_agent_generation intent));
  target_id ← add_target_replica_id operation;
  target_instance ← add_target_instance_id operation;
  target_generation ← lift (agent_generation_parse (ais_target_agent_generation intent));
  previous_configuration ← lift (add_core_descriptor (ais_previous_configuration intent));
  catch_up_configuration ← lift (add_core_descriptor (ais_catch_up_configuration intent));
  current_configuration ← lift (add_core_descriptor (ais_current_configuration intent));
  let core := {|
    ai_operation_id := op_operation_id operation;
    ai_attempt_id := ais_attempt_id intent;
    ai_mode := mode;
    ai_epoch := to_epoch (ss_epoch previous);
    ai_primary_replica_id := op_old_primary_id operation;
    ai_primary_instance_id := ais_primary_instance_id intent;
    ai_primary_agent_generation := primary_generation;
    ai_primary_control_address := ais_primary_control_address intent;
    ai_target_replica_id := target_id;
    ai_target_instance_id := target_instance;
    ai_target_agent_generation := target_generation;
    ai_target_control_address := ais_target_control_address intent;
    ai_target_replicator_address := ais_target_replicator_address intent;
    ai_retired_instance_id := op_retired_instance_id operation;
    ai_previous_configuration := previous_configuration;
    ai_catch_up_configuration := catch_up_configuration;
    ai_current_configuration := current_configuration;
    ai_minimum_committed_replicas := default 1 (op_minimum_committed_replicas operation);
    ai_deadline_unix_seconds := ais_deadline_unix_seconds intent;
    ai_compensation_deadline_unix_seconds := ais_compensation_deadline_unix_seconds intent;
    ai_target_lifecycle_peer_protocol_version := ais_target_lifecycle_peer_protocol_version intent |} in
  lift (validate_add_intent core);;
  Ok core.

Definition descriptor_for_snapshot (snapshot : StablePartitionSnapshotStatus) (operation : DurableOperationStatus)
    (observations : OperationObservations) (target_must_catch_up : bool) : result failure ConfigurationDescriptor :=
  target_id ← add_target_replica_id operation;
  members ← try_map (λ member,
      observation ← or_fail (observations !! srs_id member)
        ("replica " +:+ pretty (srs_id member) +:+ " is unavailable for frozen config");
      is_target ← (if srs_id member =? target_id
                   then instance ← add_target_instance_id operation; Ok (bool_decide (srs_instance_id member = instance))
                   else Ok false);
      let status := ro_status observation in
      Ok (mkConfigurationMemberDescriptor (srs_id member) (srs_instance_id member) ActiveSecondary Up
        (ro_replicator_address observation) (target_must_catch_up && is_target)
        (if (is_target : bool) then BuildCopyLsn
         else Frozen (si_current_progress status) (default (si_current_progress status) (si_catch_up_capability status)))))
    (filter (λ member, srs_id member ≠ ss_primary_id snapshot) (ss_members snapshot));
  Ok (mkConfigurationDescriptor (sort_by_key cd_id members) (ss_write_quorum snapshot)).

Definition validate_add_operation (operation : DurableOperationStatus) : result failure unit :=
  fail_if (negb (op_version operation =? ADD_REPLICA_OPERATION_VERSION))
    ("unsupported add-replica operation version " +:+ pretty (op_version operation) +:+ "; expected " +:+
     pretty ADD_REPLICA_OPERATION_VERSION);;
  fail_if (negb (bool_decide (op_kind operation = OpAddReplica))) "add decision received another operation kind";;
  previous ← expect_previous (op_previous_snapshot operation);
  validate_add_snapshot previous;;
  validate_add_snapshot (op_target_snapshot operation);;
  match op_add_intent operation with
  | Some intent =>
      fail_if (negb (bool_decide (ais_action_id intent = ais_attempt_id intent +:+ ":AddReplicaIntent")))
        "frozen add action ID is not deterministic";;
      core_add_intent operation;; Ok tt
  | None => Ok tt
  end;;
  match op_pending_action operation with
  | Some pending =>
      intent ← or_fail (op_add_intent operation) "pending coarse add has no frozen intent";
      fail_if (negb (bool_decide (pa_kind pending = Action.AddReplicaIntent)) ||
               negb (bool_decide (pa_action_id pending = ais_action_id intent)) ||
               negb (pa_target_id pending =? op_old_primary_id operation) ||
               negb (bool_decide (pa_target_instance_id pending = ais_primary_instance_id intent)) ||
               negb (bool_decide (pc_kind (pa_desired_postcondition pending) = PcAddReplicaCoordinated)))
        "pending coarse add action is not deterministic"
  | None => Ok tt
  end.

Definition stable_member (operation : DurableOperationStatus) (id : Z) : result failure StableReplicaSnapshotStatus :=
  previous ← expect_previous (op_previous_snapshot operation);
  or_fail (List.find (λ member, srs_id member =? id) (ss_members previous)) "stable primary member is missing".

(** ** Freezing *)

(** The status form of an intent. *)
Definition frozen_intent (attempt : Z) (core : AddReplicaIntent) : AddReplicaIntentStatus := {|
  ais_attempt := attempt;
  ais_attempt_id := ai_attempt_id core;
  ais_action_id := ai_attempt_id core +:+ ":AddReplicaIntent";
  ais_primary_instance_id := ai_primary_instance_id core;
  ais_primary_agent_generation := ai_primary_agent_generation core;
  ais_primary_control_address := ai_primary_control_address core;
  ais_target_agent_generation := ai_target_agent_generation core;
  ais_target_control_address := ai_target_control_address core;
  ais_target_replicator_address := ai_target_replicator_address core;
  ais_target_lifecycle_peer_protocol_version := ai_target_lifecycle_peer_protocol_version core;
  ais_previous_configuration := add_descriptor_status (ai_previous_configuration core);
  ais_catch_up_configuration := add_descriptor_status (ai_catch_up_configuration core);
  ais_current_configuration := add_descriptor_status (ai_current_configuration core);
  ais_deadline_unix_seconds := ai_deadline_unix_seconds core;
  ais_compensation_deadline_unix_seconds := ai_compensation_deadline_unix_seconds core;
  ais_last_observed_phase := None |}.

(** The intent the observations allow, and its status form. *)
Definition observed_intent (operation : DurableOperationStatus) (observations : OperationObservations) (now : Z) :
    result failure (AddReplicaIntent * AddReplicaIntentStatus) :=
  primary ← or_fail (observations !! op_old_primary_id operation)
    "stable primary is unavailable while freezing add intent";
  target_id ← add_target_replica_id operation;
  target ← or_fail (observations !! target_id) "add target is unavailable while freezing intent";
  previous ← expect_previous (op_previous_snapshot operation);
  primary_member ← stable_member operation (op_old_primary_id operation);
  fail_if (negb (bool_decide (si_instance_id (ro_status primary) = srs_instance_id primary_member)) ||
           negb (bool_decide (si_role (ro_status primary) = Primary)) ||
           negb (bool_decide (si_epoch (ro_status primary) = to_epoch (ss_epoch previous))))
    "stable primary observation cannot freeze add intent";;
  target_instance ← add_target_instance_id operation;
  fail_if (negb (bool_decide (si_instance_id (ro_status target) = target_instance)) ||
           negb (as_lifecycle_peer_protocol_version (si_agent (ro_status target)) =?
                 REPLICA_LIFECYCLE_PEER_PROTOCOL_VERSION))
    "target observation cannot freeze add intent";;
  previous_configuration ← descriptor_for_snapshot previous operation observations false;
  catch_up_configuration ← descriptor_for_snapshot (op_target_snapshot operation) operation observations true;
  current_configuration ← descriptor_for_snapshot (op_target_snapshot operation) operation observations false;
  let attempt := match op_add_intent operation with
    | Some intent => u32_saturating_add (ais_attempt intent) 1
    | None => 1
    end in
  let attempt_id := op_operation_id operation +:+ ":attempt-" +:+ pretty attempt in
  mode ← core_mode (op_add_mode operation);
  let core := {|
    ai_operation_id := op_operation_id operation;
    ai_attempt_id := attempt_id;
    ai_mode := mode;
    ai_epoch := to_epoch (ss_epoch previous);
    ai_primary_replica_id := op_old_primary_id operation;
    ai_primary_instance_id := srs_instance_id primary_member;
    ai_primary_agent_generation := as_generation (si_agent (ro_status primary));
    ai_primary_control_address := ro_control_address primary;
    ai_target_replica_id := target_id;
    ai_target_instance_id := target_instance;
    ai_target_agent_generation := as_generation (si_agent (ro_status target));
    ai_target_control_address := ro_control_address target;
    ai_target_replicator_address := ro_replicator_address target;
    ai_retired_instance_id := op_retired_instance_id operation;
    ai_previous_configuration := previous_configuration;
    ai_catch_up_configuration := catch_up_configuration;
    ai_current_configuration := current_configuration;
    ai_minimum_committed_replicas := default 1 (op_minimum_committed_replicas operation);
    ai_deadline_unix_seconds := i64_add now ADD_DEADLINE_SECONDS;
    ai_compensation_deadline_unix_seconds := i64_add (i64_add now ADD_DEADLINE_SECONDS) COMPENSATION_GRACE_SECONDS;
    ai_target_lifecycle_peer_protocol_version := REPLICA_LIFECYCLE_PEER_PROTOCOL_VERSION |} in
  Ok (core, frozen_intent attempt core).

Definition freeze_add_intent (operation : DurableOperationStatus) (observations : OperationObservations) (now : Z) :
    result failure Decision :=
  '(core, intent) ← observed_intent operation observations now;
  Ok (Persist (operation <| op_add_intent := Some intent |> <| op_phase := Phase.AddDispatchIntent |>
    <| op_phase_deadline_unix_seconds := ai_deadline_unix_seconds core |> <| op_pending_action := None |>)).

Definition dispatch_add_intent (operation : DurableOperationStatus) : result failure Decision :=
  intent ← or_fail (op_add_intent operation) "add dispatch phase has no frozen intent";
  previous ← expect_previous (op_previous_snapshot operation);
  Ok (Persist (operation <| op_phase := Phase.AddAwaitCoordination |>
    <| op_pending_action := Some {|
         pa_action_id := ais_action_id intent;
         pa_sequence := ais_attempt intent;
         pa_kind := Action.AddReplicaIntent;
         pa_target_id := op_old_primary_id operation;
         pa_target_instance_id := ais_primary_instance_id intent;
         pa_expected_epoch := ss_epoch previous;
         pa_desired_postcondition := mkDurablePostconditionStatus PcAddReplicaCoordinated None;
         pa_attempts := 0;
         pa_deadline_unix_seconds := ais_deadline_unix_seconds intent;
         pa_last_error := None;
         pa_dispatch_authorized := false;
         pa_dispatch_agent_generation := None;
         pa_dispatch_agent_control_version := None;
         pa_dispatch_observed_runtime_epoch := None;
         pa_dispatch_action_payload := "" |} |>)).

(** ** What the live state shows *)

Definition primary_current_configuration_matches (operation : DurableOperationStatus) (primary : ReplicaObservation) :
    result failure bool :=
  match op_add_intent operation with
  | None => Ok false
  | Some intent =>
      descriptor ← lift (add_core_descriptor (ais_current_configuration intent));
      Ok (bool_decide (si_role (ro_status primary) = Primary) &&
          bool_decide (si_epoch (ro_status primary) = to_epoch (ss_epoch (op_target_snapshot operation))) &&
          bool_decide (si_configuration (ro_status primary) = Some (descriptor_status descriptor Current)))
  end.

Definition attest_member (operation : DurableOperationStatus) (intent : AddReplicaIntentStatus)
    (observations : OperationObservations) (member : StableReplicaSnapshotStatus) : result failure unit :=
  let target := op_target_snapshot operation in
  observation ← or_fail (observations !! srs_id member)
    ("target member " +:+ pretty (srs_id member) +:+ " is unavailable");
  let status := ro_status observation in
  fail_if (negb (bool_decide (si_instance_id status = srs_instance_id member)) ||
           negb (bool_decide (si_epoch status = to_epoch (ss_epoch target))) || negb (si_healthy status))
    ("target member " +:+ pretty (srs_id member) +:+ " identity, epoch, or health is not attested");;
  target_id ← add_target_replica_id operation;
  fail_if ((srs_id member =? target_id) &&
           negb (bool_decide (as_generation (si_agent status) = ais_target_agent_generation intent)))
    "target agent generation is not attested";;
  let expected_role := if srs_id member =? ss_primary_id target then Primary else ActiveSecondary in
  fail_if (negb (bool_decide (si_role status = expected_role)))
    ("target member " +:+ pretty (srs_id member) +:+ " role is not attested").

Definition add_final_attestation (operation : DurableOperationStatus) (observations : OperationObservations) :
    result failure unit :=
  intent ← or_fail (op_add_intent operation) "add operation has no frozen intent";
  core ← core_add_intent operation;
  let target := op_target_snapshot operation in
  fail_if (Z.of_nat (length (ss_members target)) <? default 1 (op_minimum_committed_replicas operation))
    "target topology is below minReplicas";;
  try_for_each (attest_member operation intent observations) (ss_members target);;
  primary ← or_fail (observations !! ss_primary_id target) "target primary is unavailable";
  matches ← primary_current_configuration_matches operation primary;
  fail_if (negb matches) "target current configuration is not attested";;
  target_id ← add_target_replica_id operation;
  target_instance ← add_target_instance_id operation;
  fail_if (negb (existsb (λ connection, (rcs_id connection =? target_id) &&
                                        bool_decide (rcs_instance_id connection = target_instance))
                   (si_active_replica_connections (ro_status primary))))
    "target primary connection is not attested";;
  build ← or_fail (si_build_observation (ro_status primary)) "primary has no build attestation";
  fail_if (negb (bool_decide (rb_build_key build = semantic_build_key core)) ||
           negb (rb_target_replica_id build =? target_id) ||
           negb (bool_decide (rb_target_instance_id build = target_instance)) ||
           negb (bool_decide (rb_target_agent_generation build = ais_target_agent_generation intent)) ||
           negb (bool_decide (rb_state build = BuildCompleted)))
    "primary build attestation does not match frozen intent".

(** The derived [Debug] of the coordinator's phase. *)
Definition add_phase_debug (phase : AddReplicaCoordinatorPhase) : string :=
  match phase with
  | AddValidating => "Validating" | RetiringOldConnection => "RetiringOldConnection"
  | PreparingTarget => "PreparingTarget" | Building => "Building" | ActivatingTarget => "ActivatingTarget"
  | AddInstallingCatchUpConfiguration => "InstallingCatchUpConfiguration"
  | AddWaitingForCatchUpQuorum => "WaitingForCatchUpQuorum"
  | AddInstallingCurrentConfiguration => "InstallingCurrentConfiguration"
  | AddAttesting => "Attesting" | AddCompensating => "Compensating"
  end.

(** ** Deciding *)

Definition committed_degraded_decision (operation : DurableOperationStatus) (target_pod_role_label : option string) :
    result failure Decision :=
  if bool_decide (target_pod_role_label = Some "secondary") then
    target_id ← add_target_replica_id operation; Ok (PatchPodRole target_id "bootstrap")
  else Ok (Persist (operation <| op_phase := Phase.AddCommittedDegradedHandoff |>)).

(** The intent is frozen anew. *)
Definition refreeze (operation : DurableOperationStatus) : DurableOperationStatus :=
  operation <| op_pending_action := None |> <| op_phase := Phase.AddFreezeIntent |>.

Definition decide_coordinated (operation : DurableOperationStatus) (intent : AddReplicaIntentStatus)
    (observation : DurableActionObservation) (now : Z) : Decision :=
  match do_state observation with
  | Scheduled | InProgress =>
      if ais_compensation_deadline_unix_seconds intent <=? now
      then Persist (poison operation "coarse add coordinator remained in progress beyond its bounded deadline")
      else Wait
  | Failed =>
      if now <? ais_deadline_unix_seconds intent then Wait
      else Persist (poison operation (default "coarse add coordinator failed" (do_error observation)))
  | Completed =>
      match do_result observation with
      | Some (ResAddReplica AddCommitted) =>
          if ais_deadline_unix_seconds intent <=? now
          then Persist (poison operation "primary reported add commit but current configuration is not observable")
          else Wait
      | Some (ResAddReplica AddCompensated) =>
          Persist (operation <| op_pending_action := None |> <| op_phase := Phase.AddDeleteCompensatedTarget |>)
      | Some (ResAddReplica AddCompensationIncomplete) =>
          Persist (poison operation "coarse add compensation could not prove its safety barrier")
      | Some (ResDataLoss _) | Some (ResRemoveReplica _) | None =>
          Persist (poison operation "coarse add completion has no typed add result")
      end
  end.

Definition decide_await_coordination (operation : DurableOperationStatus) (observations : OperationObservations)
    (now : Z) : result failure Decision :=
  intent ← or_fail (op_add_intent operation) "await-coordination phase has no intent";
  pending ← or_fail (op_pending_action operation) "await-coordination phase has no pending action";
  core ← core_add_intent operation;
  primary ← or_fail (observations !! op_old_primary_id operation) "add primary is unavailable";
  if negb (bool_decide (as_generation (si_agent (ro_status primary)) = ais_primary_agent_generation intent))
  then Ok (Persist (refreeze operation))
  else
    target_id ← add_target_replica_id operation;
    let target := observations !! target_id in
    if match target with
       | Some target => negb (bool_decide (as_generation (si_agent (ro_status target)) = ais_target_agent_generation intent))
       | None => false
       end
    then Ok (Persist (refreeze operation))
    else match correlated_action_observation (ro_status primary) (ais_action_id intent) with
    | Some observation =>
        if negb (bool_decide (do_signature observation = add_signature core)) then
          Ok (Persist (if none target then refreeze operation
                       else poison operation "coarse add action signature conflicts with frozen intent"))
        else
          let next := match do_add_replica_progress observation with
            | Some progress =>
                operation <| op_add_intent := Some (intent <| ais_last_observed_phase := Some (add_phase_debug (ap_phase progress)) |>) |>
            | None => operation
            end in
          Ok (if negb (bool_decide (next = operation)) then Persist next else decide_coordinated operation intent observation now)
    | None =>
        if ais_deadline_unix_seconds intent <=? now
        then Ok (Persist (poison operation "coarse add action continuity is unavailable at its deadline"))
        else Ok (Execute (op_old_primary_id operation) (pa_action_id pending) (ActAddReplicaIntent core))
    end.

(** The target was seen not to have taken part: fresh, or at most built. *)
Definition safely_uncommitted (operation : DurableOperationStatus) (previous : StablePartitionSnapshotStatus)
    (target : ReplicaObservation) : bool :=
  let status := ro_status target in
  let instance := match add_target_instance_id operation with Ok instance => instance | Err _ => "" end in
  let fresh := negb (si_healthy status) && bool_decide (si_role status = Unknown) &&
               bool_decide (si_epoch status = mkEpoch 0 0) in
  bool_decide (si_instance_id status = instance) &&
  match op_add_intent operation with
  | None => fresh
  | Some intent =>
      bool_decide (as_generation (si_agent status) = ais_target_agent_generation intent) &&
      (fresh || bool_decide (si_epoch status = to_epoch (ss_epoch previous)) &&
                bool_decide (si_role status = IdleSecondary ∨ si_role status = RoleNone))
  end.

Definition decide_primary_lost (operation : DurableOperationStatus) (target : option ReplicaObservation)
    (pod_identities : gmap Z string) (target_pod_role_label : option string) (now : Z) : result failure Decision :=
  if negb (none (op_committed_snapshot operation)) then committed_degraded_decision operation target_pod_role_label
  else
    previous ← expect_previous (op_previous_snapshot operation);
    primary_member ← stable_member operation (op_old_primary_id operation);
    if bool_decide (pod_identities !! op_old_primary_id operation = Some (srs_instance_id primary_member)) then
      Ok (if op_phase_deadline_unix_seconds operation <=? now
          then Persist (poison operation "primary status is unavailable; commit state is ambiguous and target is preserved")
          else Wait)
    else if match target with Some target => safely_uncommitted operation previous target | None => false end then
      Ok (Persist (operation <| op_phase := Phase.AddDeleteCompensatedTarget |> <| op_pending_action := None |>
        <| op_last_error := Some "primary was lost before target activation" |>))
    else Ok (Persist (poison operation "primary loss after target activation is commit-ambiguous; target preserved")).

Definition decide_publish (operation : DurableOperationStatus) (observations : OperationObservations)
    (published : bool) (target_id : Z) (target_pod_role_label : option string) (done : Decision) (now : Z) :
    result failure Decision :=
  match add_final_attestation operation observations with
  | Err (Panic m) => Err (Panic m)
  | Ok _ => Ok (if published then done else PatchPodRole target_id "secondary")
  | Err (Error _) =>
      if op_phase_deadline_unix_seconds operation <=? now
      then committed_degraded_decision operation target_pod_role_label
      else Ok Wait
  end.

Definition decide_add_phase (operation : DurableOperationStatus) (observations : OperationObservations)
    (target_id : Z) (target_pod_role_label : option string) (now : Z) : result failure Decision :=
  match op_phase operation with
  | Phase.AddFreezeIntent =>
      match freeze_add_intent operation observations now with
      | Err (Error e) => Ok (if op_phase_deadline_unix_seconds operation <=? now then Persist (poison operation e) else Wait)
      | r => r
      end
  | Phase.AddDispatchIntent => dispatch_add_intent operation
  | Phase.AddAwaitCoordination => decide_await_coordination operation observations now
  | Phase.AddRecordCommit =>
      Ok (Persist (operation <| op_phase := Phase.AddPublishTarget |>
        <| op_phase_deadline_unix_seconds := i64_add now ACTION_DEADLINE_SECONDS |>))
  | Phase.AddPublishTarget =>
      decide_publish operation observations
        (bool_decide ((observations !! target_id) ≫= ro_pod_role_label = Some "secondary")) target_id target_pod_role_label
        (Persist (operation <| op_phase := Phase.AddFinalize |>
          <| op_phase_deadline_unix_seconds := i64_add now ACTION_DEADLINE_SECONDS |>)) now
  | Phase.AddFinalize =>
      decide_publish operation observations (bool_decide (target_pod_role_label = Some "secondary")) target_id
        target_pod_role_label
        (Complete (operation <| op_phase := Phase.Completed |>) (op_target_snapshot operation) false) now
  | phase => error ("phase " +:+ Phase.debug phase +:+ " is not valid for coarse add-replica")
  end.

(** The phases in which the addition is still coordinated. *)
Definition decide_add_active (operation : DurableOperationStatus) (observations : OperationObservations)
    (pod_identities : gmap Z string) (target_pod_role_label : option string) (now : Z) : result failure Decision :=
  target_id ← add_target_replica_id operation;
  let target := observations !! target_id in
  match observations !! op_old_primary_id operation with
  | None => decide_primary_lost operation target pod_identities target_pod_role_label now
  | Some primary =>
      current ← primary_current_configuration_matches operation primary;
      if current && none (op_committed_snapshot operation) then
        Ok (Persist (operation <| op_committed_snapshot := Some (op_target_snapshot operation) |>
          <| op_pending_action := None |> <| op_phase := Phase.AddRecordCommit |>))
      else
        previous ← expect_previous (op_previous_snapshot operation);
        expected_primary ← stable_member operation (op_old_primary_id operation);
        let status := ro_status primary in
        if negb (bool_decide (si_instance_id status = srs_instance_id expected_primary)) ||
           negb (bool_decide (si_role status = Primary)) ||
           negb (bool_decide (si_epoch status = to_epoch (ss_epoch previous)))
        then
          if negb (none (op_committed_snapshot operation)) then committed_degraded_decision operation target_pod_role_label
          else Ok (if op_phase_deadline_unix_seconds operation <=? now
                   then Persist (poison operation "primary runtime continuity was lost while add intent was active")
                   else Wait)
        else decide_add_phase operation observations target_id target_pod_role_label now
  end.

Definition decide_add_replica (operation : DurableOperationStatus) (observations : OperationObservations)
    (pod_identities : gmap Z string) (target_pod_role_label : option string) (now : Z) : result failure Decision :=
  validate_add_operation operation;;
  match op_phase operation with
  | Phase.Completed | Phase.Failed | Phase.Poisoned => Ok Wait
  | Phase.AddCommittedDegradedHandoff =>
      snapshot ← or_fail (op_committed_snapshot operation) "degraded handoff has no committed snapshot";
      Ok (CompleteDegraded (operation <| op_phase := Phase.Failed |>) snapshot)
  | Phase.AddDeleteCompensatedTarget =>
      target_id ← add_target_replica_id operation;
      instance ← add_target_instance_id operation;
      if negb (bool_decide (pod_identities !! target_id = Some instance))
      then Ok (Persist (operation <| op_phase := Phase.AddCompensateFinalize |>))
      else pod_name ← add_target_pod_name operation; Ok (DeletePod pod_name instance)
  | Phase.AddCompensateFinalize =>
      snapshot ← unwrap (op_previous_snapshot operation);
      Ok (Complete (operation <| op_phase := Phase.Failed |>) snapshot true)
  | _ => decide_add_active operation observations pod_identities target_pod_role_label now
  end.
End workflow.
