(* ===== verification/AddSteps.v ===== *)
(** What the add-replica workflow relies on: the snapshots it accepts, the
    round trip of a frozen configuration through its status form, and the
    intent it observes. *)

From S2P Require Import Prelude Types Lifecycle AddReplica Control Agent Convert Wire Crd Operation Switchover SwitchoverSteps AddWorkflow.

Set Default Goal Selector "!".

(** ** Valid topologies *)

Definition named (s : StablePartitionSnapshotStatus) (m : StableReplicaSnapshotStatus) : Prop :=
  0 < srs_id m ∧ srs_instance_id m ≠ "" ∧ (srs_role m = StablePrimary → srs_id m = ss_primary_id s).

(** What the workflows that change the membership accept as a snapshot. *)
Record valid_topology (s : StablePartitionSnapshotStatus) : Prop := mkValidTopology {
  vt_named : ∀ m, m ∈ ss_members s → named s m;
  vt_ids : NoDup (srs_id <$> ss_members s);
  vt_instances : NoDup (srs_instance_id <$> ss_members s);
  vt_one : primaries (ss_members s) = 1;
  vt_quorum : ss_write_quorum s = as_u32 (length (ss_members s)) / 2 + 1;
}.

Lemma primaries_cons m l :
  primaries (m :: l) = (if bool_decide (srs_role m = StablePrimary) then 1 else 0) + primaries l.
Proof. unfold primaries. rewrite filter_cons. case_decide; case_bool_decide; simpl; done || lia. Qed.

Lemma primaries_Permutation l l' : l ≡ₚ l' → primaries l = primaries l'.
Proof. unfold primaries. by intros ->. Qed.

(** A scan that rejects repeated identities and counts the primaries. *)
Lemma scan_members {E} (good : StableReplicaSnapshotStatus → Prop)
    (f : gset Z * gset string * Z → StableReplicaSnapshotStatus → result E (gset Z * gset string * Z)) l ids instances n r :
  (∀ ids instances n m r, f (ids, instances, n) m = Ok r ↔
     good m ∧ (srs_id m ∉ ids) ∧ (srs_instance_id m ∉ instances) ∧
     r = ({[srs_id m]} ∪ ids, {[srs_instance_id m]} ∪ instances,
          if bool_decide (srs_role m = StablePrimary) then n + 1 else n)) →
  (∃ seen, try_fold f (ids, instances, n) l = Ok (seen, r)) ↔
  (∀ m, m ∈ l → good m ∧ (srs_id m ∉ ids) ∧ srs_instance_id m ∉ instances) ∧
  NoDup (srs_id <$> l) ∧ NoDup (srs_instance_id <$> l) ∧ r = n + primaries l.
Proof.
  intros Hf. revert ids instances n. induction l as [|m l IH]; intros ids instances n; simpl.
  - unfold primaries. simpl. rewrite Z.add_0_r. split; [intros (seen & [= <- <-])|intros (_ & _ & _ & ->); by eexists].
    split; [by intros m ?%elem_of_nil|]. split_and!; [constructor..|done].
  - rewrite primaries_cons. rewrite !NoDup_cons, !list_elem_of_fmap.
    assert (∀ z, (if bool_decide (srs_role m = StablePrimary) then n + 1 else n) + z =
      n + ((if bool_decide (srs_role m = StablePrimary) then 1 else 0) + z)) as Hz by (intros; case_bool_decide; lia).
    split.
    + intros (seen & (s1 & (Hm & Hi & Hs & ->)%Hf & Hl)%bind_Ok).
      destruct (proj1 (IH _ _ _) (ex_intro _ seen Hl)) as (Hall & Hd1 & Hd2 & ->). rewrite Hz. split.
      { intros x [->|Hx]%elem_of_cons; [done|]. destruct (Hall x Hx) as (? & ? & ?). set_solver. }
      split_and!; try done.
      * intros (x & Hx1 & Hx2). destruct (Hall x Hx2) as (_ & Hx & _). set_solver.
      * intros (x & Hx1 & Hx2). destruct (Hall x Hx2) as (_ & _ & Hx). set_solver.
    + intros (Hall & [Hni Hd1] & [Hns Hd2] & ->). destruct (Hall m) as (Hm & Hi & Hs); [left|].
      destruct (proj2 (IH ({[srs_id m]} ∪ ids) ({[srs_instance_id m]} ∪ instances)
        (if bool_decide (srs_role m = StablePrimary) then n + 1 else n))) as (seen & Hseen).
      { split; [|split; [done|split; [done|by rewrite Hz]]]. intros x Hx. destruct (Hall x) as (? & ? & ?); [by right|].
        split; [done|]. split; set_solver. }
      exists seen. rewrite bind_Ok. eexists. split; [|exact Hseen]. apply Hf. by split_and!.
Qed.

Lemma valid_primary s : valid_topology s →
  ∃ m, m ∈ ss_members s ∧ srs_id m = ss_primary_id s ∧ srs_role m = StablePrimary.
Proof.
  intros [Hn _ _ H1 _]. unfold primaries in H1.
  destruct (filter _ _) as [|m l] eqn:Hf; [done|].
  assert (m ∈ filter (λ m, srs_role m = StablePrimary) (ss_members s)) as [Hr Hm]%list_elem_of_filter by (rewrite Hf; left).
  exists m. split; [done|]. split; [|done]. by apply Hn.
Qed.

Lemma valid_topology_valid s : valid_topology s → valid_snapshot s.
Proof.
  intros Hv. split; [|apply Hv..| |apply Hv].
  - apply Forall_forall. intros m Hm. by apply Hv.
  - by apply valid_primary.
Qed.

(** Such a scan accepts exactly the valid topologies. *)
Lemma scan_valid {E} (s : StablePartitionSnapshotStatus)
    (f : gset Z * gset string * Z → StableReplicaSnapshotStatus → result E (gset Z * gset string * Z)) :
  (∀ ids instances n m r, f (ids, instances, n) m = Ok r ↔
     named s m ∧ (srs_id m ∉ ids) ∧ (srs_instance_id m ∉ instances) ∧
     r = ({[srs_id m]} ∪ ids, {[srs_instance_id m]} ∪ instances,
          if bool_decide (srs_role m = StablePrimary) then n + 1 else n)) →
  ss_members s ≠ [] ∧ (∃ r, try_fold f (∅, ∅, 0) (ss_members s) = Ok r ∧ r.2 = 1) ∧
    ss_write_quorum s = as_u32 (length (ss_members s)) / 2 + 1 ↔ valid_topology s.
Proof.
  intros Hf. split.
  - intros (Hne & ([seen r] & Hr & H1) & Hq). cbn in H1. subst r.
    destruct (proj1 (scan_members (named s) f _ _ _ _ 1 Hf) (ex_intro _ seen Hr)) as (Hall & Hd1 & Hd2 & Hp).
    split; try done. intros m Hm. by apply Hall.
  - intros Hv. destruct (valid_primary s Hv) as (pm & Hpm & _). split.
    { destruct (ss_members s); [by apply elem_of_nil in Hpm|done]. }
    split; [|apply Hv]. destruct (proj2 (scan_members (named s) f (ss_members s) ∅ ∅ 0 1 Hf)) as (seen & Hs); [|by eexists].
    split_and!; [|apply Hv..|by rewrite (vt_one s Hv)]. intros m Hm. split; [by apply Hv|]. split; set_solver.
Qed.

Lemma validate_add_snapshot_Ok s : validate_add_snapshot s = Ok tt ↔ valid_topology s.
Proof.
  unfold validate_add_snapshot. set (f := λ (scan : gset Z * gset string * Z) (member : StableReplicaSnapshotStatus), _).
  rewrite <-(scan_valid s f).
  - rewrite bind_Ok. split.
    + intros ([] & Hne%fail_if_Ok%bool_decide_eq_false & (r & Hr & ([] & H1%fail_if_Ok & H2%fail_if_Ok)%bind_Ok)%bind_Ok). guards.
      split; [done|]. split; [|lia]. exists r. split; [done|lia].
    + intros (Hne & (r & Hr & H1) & Hq). exists tt. split; [by apply fail_if_Ok, bool_decide_eq_false|].
      apply bind_Ok. exists r. split; [exact Hr|]. by rewrite H1, Hq, Z.eqb_refl.
  - intros ids instances n m r. unfold f, named, empty. split.
    + intros ([] & H1%fail_if_Ok & ([] & H2%fail_if_Ok & ([] & H3%fail_if_Ok & [= <-])%bind_Ok)%bind_Ok)%bind_Ok.
      guards. split_and!; try done; [lia|]. intros Hr. rewrite (bool_decide_eq_true_2 _ Hr) in H3. simpl in H3. by guards.
    + intros ((H0 & Hne & Hp) & Hi & Hs & ->). rewrite (proj2 (Z.leb_gt _ _)) by lia.
      rewrite (bool_decide_eq_false_2 _ Hi), (bool_decide_eq_false_2 _ Hne), (bool_decide_eq_false_2 _ Hs). cbn.
      case_bool_decide as Hr; simpl; [|done]. by rewrite (Hp Hr), Z.eqb_refl.
Qed.

(** ** Frozen configurations *)

Definition plain (d : ConfigurationDescriptor) : Prop :=
  ∀ m, m ∈ cfg_members d → cd_role m = ActiveSecondary ∧ cd_status m = Up.

Definition distinct_members (l : list ConfigurationMemberDescriptor) : Prop :=
  (∀ m, m ∈ l → 0 < cd_id m ∧ cd_instance_id m ≠ "") ∧ NoDup (cd_id <$> l) ∧ NoDup (cd_instance_id <$> l).

(** The status form of one member. *)
Definition member_status (member : ConfigurationMemberDescriptor) : ConfigurationMemberDescriptorStatus :=
  let '(progress_source, current_progress, catch_up_capability) := match cd_progress member with
    | Frozen current_progress catch_up_capability => (PsFrozen, current_progress, catch_up_capability)
    | BuildCopyLsn => (PsBuildCopyLsn, 0, 0)
    end in
  mkConfigurationMemberDescriptorStatus (cd_id member) (cd_instance_id member) (role_debug (cd_role member))
    (replica_status_debug (cd_status member)) (cd_replicator_address member) (cd_must_catch_up member)
    progress_source current_progress catch_up_capability.

Lemma add_core_member_Ok ids instances m r :
  cd_role m = ActiveSecondary → cd_status m = Up →
  add_core_member (ids, instances) (member_status m) = Ok r ↔
  0 < cd_id m ∧ cd_instance_id m ≠ "" ∧ (cd_id m ∉ ids) ∧ (cd_instance_id m ∉ instances) ∧
  r = ({[cd_id m]} ∪ ids, {[cd_instance_id m]} ∪ instances, m).
Proof.
  destruct m as [id inst role status address must progress]. cbn [cd_role cd_status]. intros -> ->.
  assert (add_core_member (ids, instances) (member_status (mkConfigurationMemberDescriptor id inst ActiveSecondary Up address must progress)) =
    (reject_if ((id <=? 0) || bool_decide (id ∈ ids)) "configuration descriptor has duplicate replica ID";;
     reject_if (empty inst || bool_decide (inst ∈ instances)) "configuration descriptor has duplicate incarnation";;
     Ok ({[id]} ∪ ids, {[inst]} ∪ instances,
         mkConfigurationMemberDescriptor id inst ActiveSecondary Up address must progress))) as ->.
  { by destruct progress. }
  cbn [cd_id cd_instance_id]. unfold empty. split.
  - intros ([] & H1%reject_if_Ok & ([] & H2%reject_if_Ok & [= <-])%bind_Ok)%bind_Ok. guards. split_and!; done || lia.
  - intros (H0 & Hne & Hi & Hs & ->). rewrite (proj2 (Z.leb_gt _ _)) by lia.
    by rewrite (bool_decide_eq_false_2 _ Hi), (bool_decide_eq_false_2 _ Hne), (bool_decide_eq_false_2 _ Hs).
Qed.

(** Reading the members of a frozen configuration one after the other, with
    [core] the check of one member, [form] its status form and [good] what is
    known of the members. *)
Section read.
  Context (core : gset Z * gset string → ConfigurationMemberDescriptorStatus →
    result string (gset Z * gset string * ConfigurationMemberDescriptor)).
  Context (form : ConfigurationMemberDescriptor → ConfigurationMemberDescriptorStatus).
  Context (good : ConfigurationMemberDescriptor → Prop).
  Context (Hcore : ∀ ids instances m r, good m → core (ids, instances) (form m) = Ok r ↔
    0 < cd_id m ∧ cd_instance_id m ≠ "" ∧ (cd_id m ∉ ids) ∧ (cd_instance_id m ∉ instances) ∧
    r = ({[cd_id m]} ∪ ids, {[cd_instance_id m]} ∪ instances, m)).

Definition read_step (scan : gset Z * gset string * list ConfigurationMemberDescriptor)
    (member : ConfigurationMemberDescriptorStatus) :=
  '(seen, m) ← core scan.1 member; Ok (seen, scan.2 ++ [m]).

Lemma read_step_Ok ids instances acc m l r :
  good m →
  try_fold read_step (ids, instances, acc) (form m :: l) = Ok r ↔
  (0 < cd_id m ∧ cd_instance_id m ≠ "" ∧ (cd_id m ∉ ids) ∧ (cd_instance_id m ∉ instances)) ∧
  try_fold read_step ({[cd_id m]} ∪ ids, {[cd_instance_id m]} ∪ instances, acc ++ [m]) l = Ok r.
Proof.
  intros Hg. cbn [try_fold]. unfold read_step at 1. rewrite bind_Ok. cbn [fst snd]. split.
  - intros (q & (q' & Hq & Hq')%bind_Ok & Hl). apply Hcore in Hq as (? & ? & ? & ? & ->); [|done].
    by injection Hq' as <-.
  - intros ((? & ? & ? & ?) & Hl). eexists. split; [|exact Hl]. apply bind_Ok. eexists.
    split; [by apply Hcore|done].
Qed.

Lemma read_members l ids instances acc members :
  (∀ m, m ∈ l → good m) →
  (∃ seen, try_fold read_step (ids, instances, acc) (form <$> l) = Ok (seen, members)) ↔
  members = acc ++ l ∧ distinct_members l ∧ ∀ m, m ∈ l → (cd_id m ∉ ids) ∧ (cd_instance_id m ∉ instances).
Proof.
  revert ids instances acc. unfold distinct_members. induction l as [|m l IH]; intros ids instances acc Hp.
  - simpl. rewrite app_nil_r. split; [|intros (-> & _); by eexists]. intros (seen & [= <- <-]).
    split; [done|]. split; [|by intros m ?%elem_of_nil]. split; [by intros m ?%elem_of_nil|]. split; constructor.
  - assert (good m) as Hg by (apply Hp; left). rewrite !fmap_cons, !NoDup_cons, !list_elem_of_fmap.
    setoid_rewrite (read_step_Ok ids instances acc m _ _ Hg). split.
    + intros (seen & Hm & Hl). destruct (proj1 (IH _ _ _ (λ x Hx, Hp x ltac:(by right))) (ex_intro _ seen Hl))
        as (-> & (Hall & Hd1 & Hd2) & Hfresh).
      rewrite <-app_assoc. split; [done|]. split; [split; [|split; (split; [|done])]|].
      * intros x [->|Hx]%elem_of_cons; [by destruct Hm as (? & ? & _)|by apply Hall].
      * intros (x & Hx1 & Hx2). destruct (Hfresh x Hx2). set_solver.
      * intros (x & Hx1 & Hx2). destruct (Hfresh x Hx2). set_solver.
      * intros x [->|Hx]%elem_of_cons; [by destruct Hm as (_ & _ & ?)|]. destruct (Hfresh x Hx). set_solver.
    + intros (-> & (Hall & [Hn1 Hd1] & [Hn2 Hd2]) & Hfresh).
      destruct (proj2 (IH ({[cd_id m]} ∪ ids) ({[cd_instance_id m]} ∪ instances) (acc ++ [m])
        (λ x Hx, Hp x ltac:(by right)))) as (seen & Hseen).
      { rewrite <-app_assoc. split; [done|]. split; [by split; [intros x Hx; apply Hall; right|]|].
        intros x Hx. destruct (Hfresh x); [by right|]. split; set_solver. }
      exists seen. split; [|exact Hseen]. destruct (Hall m) as [? ?]; [left|].
      destruct (Hfresh m) as [? ?]; [left|]. done.
Qed.

(** Reading from the start succeeds exactly on distinct members, and gives
    them back. *)
Lemma read_all l members :
  (∀ m, m ∈ l → good m) →
  (∃ seen, try_fold read_step (∅, ∅, []) (form <$> l) = Ok (seen, members)) ↔ members = l ∧ distinct_members l.
Proof.
  intros Hg. rewrite (read_members l ∅ ∅ [] members Hg). split; [by intros (-> & ? & _)|].
  intros (-> & Hd). split; [done|]. split; [done|]. intros m Hm. split; set_solver.
Qed.
End read.

(** A frozen configuration is read back as itself, and is read back exactly
    when its members are distinct. *)
Lemma add_descriptor_exact d d' :
  plain d → add_core_descriptor (add_descriptor_status d) = Ok d' ↔ d' = d ∧ distinct_members (cfg_members d).
Proof.
  intros Hp. unfold add_core_descriptor. change (λ scan member, _) with (read_step add_core_member).
  change (cds_members (add_descriptor_status d)) with (member_status <$> cfg_members d).
  assert (∀ members, (∃ seen, try_fold (read_step add_core_member) (∅, ∅, []) (member_status <$> cfg_members d) = Ok (seen, members)) ↔
    members = cfg_members d ∧ distinct_members (cfg_members d)) as Hall.
  { intros members. apply (read_all add_core_member member_status (λ m, cd_role m = ActiveSecondary ∧ cd_status m = Up)); [|done].
    intros ids instances m r [Hr Hs]. by apply add_core_member_Ok. }
  rewrite bind_Ok. split.
  - intros ([seen members] & Hs & [= <-]). destruct (proj1 (Hall members) (ex_intro _ seen Hs)) as (-> & Hd). by destruct d.
  - intros (-> & Hd). destruct (proj2 (Hall _) (conj eq_refl Hd)) as (seen & Hs). eexists. split; [exact Hs|]. by destruct d.
Qed.

(** ** The request *)

(** What a started addition asks for: [target] is [previous] with the
    incarnation [inst] at [id], new or in the place of a secondary. *)
Record add_request (previous target : StablePartitionSnapshotStatus) (id : Z) (inst : string)
    (mode : DurableAddMode) (retired : option string) : Prop := mkAddRequest {
  ar_previous : valid_topology previous;
  ar_target : valid_topology target;
  ar_named : inst ≠ "";
  ar_secondary : id ≠ ss_primary_id previous;
  ar_epoch : ss_epoch target = ss_epoch previous;
  ar_primary : ss_primary_id target = ss_primary_id previous;
  ar_member : ∃ m, m ∈ ss_members target ∧ srs_id m = id ∧ srs_instance_id m = inst;
  ar_others : ∀ m, srs_id m ≠ id → m ∈ ss_members target ↔ m ∈ ss_members previous;
  ar_mode : match mode with
    | AmScaleUp => retired = None ∧ ∀ m, m ∈ ss_members previous → srs_id m ≠ id ∧ srs_instance_id m ≠ inst
    | AmRebuild => ∃ m, m ∈ ss_members previous ∧ srs_id m = id ∧ retired = Some (srs_instance_id m) ∧ srs_instance_id m ≠ inst
    end;
}.

Lemma renew_member_spec id inst l :
  NoDup (srs_id <$> l) → (∃ m, m ∈ l ∧ srs_id m = id) →
  (∃ m, m ∈ renew_member id inst l ∧ srs_id m = id ∧ srs_instance_id m = inst) ∧
  ∀ m, srs_id m ≠ id → m ∈ renew_member id inst l ↔ m ∈ l.
Proof.
  induction l as [|x l IH]; intros Hnd (m & Hm & Hid); [by apply elem_of_nil in Hm|].
  rewrite fmap_cons, NoDup_cons in Hnd. destruct Hnd as [Hx Hnd]. cbn [renew_member]. destruct (Z.eqb_spec (srs_id x) id) as [He|He].
  - split; [eexists; split; [left|done]|]. intros y Hy. rewrite !elem_of_cons. split.
    + intros [->|Hin]; [by destruct Hy|by right].
    + intros [->|Hin]; [by destruct Hy|by right].
  - apply elem_of_cons in Hm as [->|Hm]; [done|]. destruct IH as ((y & Hy & Hyp) & Hothers); [done|by exists m|].
    split; [exists y; split; [by right|done]|]. intros z Hz. rewrite !elem_of_cons. by rewrite Hothers.
Qed.

Lemma find_id l id : match List.find (λ m, srs_id m =? id) l with
  | Some m => m ∈ l ∧ srs_id m = id
  | None => ∀ m, m ∈ l → srs_id m ≠ id
  end.
Proof.
  destruct (List.find _ l) as [m|] eqn:Hf.
  - apply List.find_some in Hf as [Hm Hid%Z.eqb_eq]. split; [by apply list_elem_of_In|done].
  - intros m Hm%list_elem_of_In. pose proof (List.find_none _ _ Hf m Hm) as Hne. by apply Z.eqb_neq.
Qed.

(** The operation a request starts. *)
Record started_as (uid : string) (previous : StablePartitionSnapshotStatus) (id : Z) (inst pod : string)
    (mode : DurableAddMode) (op : DurableOperationStatus) : Prop := mkStartedAs {
  sa_request : add_request previous (op_target_snapshot op) id inst mode (op_retired_instance_id op);
  sa_previous : op_previous_snapshot op = Some previous;
  sa_version : op_version op = ADD_REPLICA_OPERATION_VERSION;
  sa_kind : op_kind op = OpAddReplica;
  sa_operation_id : op_operation_id op ≠ "";
  sa_old_primary : op_old_primary_id op = ss_primary_id previous;
  sa_mode : op_add_mode op = Some mode;
  sa_target_id : op_target_replica_id op = Some id;
  sa_target_instance : op_target_instance_id op = Some inst;
  sa_target_pod : op_target_pod_name op = Some pod;
  sa_minimum : ∃ minimum, op_minimum_committed_replicas op = Some (as_u32 minimum) ∧
    (1 ≤ minimum ≤ length (ss_members (op_target_snapshot op)))%nat;
}.

Lemma retired_instance mode previous id inst retired :
  add_retired_instance mode (List.find (λ m, srs_id m =? id) (ss_members previous)) id inst = Ok retired →
  existsb (λ m, bool_decide (srs_instance_id m = inst) && negb (srs_id m =? id)) (ss_members previous) = false →
  match mode with
  | AmScaleUp => retired = None ∧ ∀ m, m ∈ ss_members previous → srs_id m ≠ id ∧ srs_instance_id m ≠ inst
  | AmRebuild => ∃ m, m ∈ ss_members previous ∧ srs_id m = id ∧ retired = Some (srs_instance_id m) ∧ srs_instance_id m ≠ inst
  end.
Proof.
  pose proof (find_id (ss_members previous) id) as Hf. intros Hr Hdup. unfold add_retired_instance in Hr. destruct mode.
  - apply bind_Ok in Hr as ([] & Hn%fail_if_Ok & [= <-]). split; [done|].
    destruct (List.find _ _) as [m|]; [done|]. intros m Hm. split; [by apply Hf|]. intros Hi.
    apply (existsb_false _ _ m) in Hdup; [|done]. apply andb_false_iff in Hdup as [Hd|Hd]; guards; [done|].
    by destruct (Hf m Hm).
  - apply bind_Ok in Hr as (m & Hm%or_fail_Ok & Hr). rewrite Hm in Hf. destruct Hf as [Hin Hid].
    apply bind_Ok in Hr as ([] & _ & ([] & Hne%fail_if_Ok & [= <-])%bind_Ok). guards. by exists m.
Qed.

Lemma append_nonempty (a b : string) : b ≠ "" → a +:+ b ≠ "".
Proof. by destruct a. Qed.

Lemma start_add_replica_Ok uid previous id inst pod mode minimum now op :
  start_add_replica uid previous id inst pod mode minimum now = Ok op →
  started_as uid previous id inst pod mode op ∧ op_phase op = Phase.AddFreezeIntent ∧ op_pending_action op = None ∧
  op_committed_snapshot op = None ∧ op_add_intent op = None.
Proof.
  unfold start_add_replica. intros ([] & Hv%validate_add_snapshot_Ok & H)%bind_Ok.
  apply bind_Ok in H as ([] & Hne%fail_if_Ok & H). apply bind_Ok in H as ([] & Hsec%fail_if_Ok & H).
  apply bind_Ok in H as (retired & Hret & H). apply bind_Ok in H as ([] & Hdup%fail_if_Ok & H).
  apply bind_Ok in H as ([] & Ht%validate_add_snapshot_Ok & H). apply bind_Ok in H as ([] & Hmin%fail_if_Ok & H).
  injection H as <-. apply bool_decide_eq_false in Hne. apply Z.eqb_neq in Hsec. apply Nat.ltb_ge in Hmin.
  pose proof (retired_instance _ _ _ _ _ Hret Hdup) as Hmode. clear Hret Hdup.
  pose proof (find_id (ss_members previous) id) as Hf.
  assert ((∃ m, m ∈ ss_members (add_target_snapshot previous (List.find (λ m, srs_id m =? id) (ss_members previous)) id inst) ∧
      srs_id m = id ∧ srs_instance_id m = inst) ∧
    ∀ m, srs_id m ≠ id → m ∈ ss_members (add_target_snapshot previous (List.find (λ m, srs_id m =? id) (ss_members previous)) id inst)
      ↔ m ∈ ss_members previous) as [Hmem Hothers].
  { unfold add_target_snapshot. cbn [ss_members over]. setoid_rewrite elem_of_sort_by_key.
    destruct (List.find _ _) as [x|].
    - apply renew_member_spec; [apply Hv|]. by exists x.
    - split; [|intros m Hm; set_solver]. eexists. split; [apply elem_of_app; right; by left|done]. }
  split; [|done]. split; cbn [op_target_snapshot op_retired_instance_id op_previous_snapshot op_version op_kind op_operation_id
    op_old_primary_id op_add_mode op_target_replica_id op_target_instance_id op_target_pod_name op_minimum_committed_replicas]; try done.
  - apply append_nonempty. done.
  - eexists. split; [done|]. lia.
Qed.

(** A list less the one element with a key. *)
Lemma length_less_one {A} (key : A → Z) (l : list A) (x : A) :
  NoDup (key <$> l) → x ∈ l → length l = S (length (filter (λ y, key y ≠ key x) l)).
Proof.
  induction l as [|y l IH]; intros Hnd Hx; [by apply elem_of_nil in Hx|].
  rewrite fmap_cons, NoDup_cons in Hnd. destruct Hnd as [Hy Hnd]. rewrite filter_cons. case_decide as Hd.
  - apply elem_of_cons in Hx as [->|Hx]; [done|]. simpl. by rewrite IH.
  - assert (filter (λ z, key z ≠ key x) l = l) as ->; [|done]. clear IH Hx.
    assert (∀ z, z ∈ l → key z ≠ key x) as Hl.
    { intros z Hz Heq. apply Hy. assert (key y = key x) as -> by (destruct (decide (key y = key x)); [done|by destruct Hd]).
      rewrite <-Heq. by apply list_elem_of_fmap_2. }
    clear -Hl. induction l as [|z l IH]; [done|]. rewrite filter_cons_True by (apply Hl; left).
    f_equal. apply IH. intros w Hw. apply Hl. by right.
Qed.

(** ** What is observed *)

Definition secondaries (s : StablePartitionSnapshotStatus) : list StableReplicaSnapshotStatus :=
  filter (λ m, srs_id m ≠ ss_primary_id s) (ss_members s).

Definition exact_target (id : Z) (inst : string) (m : StableReplicaSnapshotStatus) : bool :=
  (srs_id m =? id) && bool_decide (srs_instance_id m = inst).

(** The member of a configuration that stands for a replica of a snapshot. *)
Definition describes (obs : OperationObservations) (id : Z) (inst : string) (must : bool)
    (m : StableReplicaSnapshotStatus) (c : ConfigurationMemberDescriptor) : Prop :=
  ∃ o, obs !! srs_id m = Some o ∧
    c = mkConfigurationMemberDescriptor (srs_id m) (srs_instance_id m) ActiveSecondary Up (ro_replicator_address o)
      (must && exact_target id inst m)
      (if exact_target id inst m then BuildCopyLsn
       else Frozen (si_current_progress (ro_status o))
              (default (si_current_progress (ro_status o)) (si_catch_up_capability (ro_status o)))).

Definition configures (s : StablePartitionSnapshotStatus) (obs : OperationObservations) (id : Z) (inst : string)
    (must : bool) (d : ConfigurationDescriptor) : Prop :=
  ∃ cs, Forall2 (describes obs id inst must) (secondaries s) cs ∧
    d = mkConfigurationDescriptor (sort_by_key cd_id cs) (ss_write_quorum s).

Lemma filled_Some s : s ≠ "" → filled (Some s) = Some s.
Proof. intros Hs. unfold filled, empty. by rewrite bool_decide_eq_false_2. Qed.

Section descriptor.
  Context (op : DurableOperationStatus) (id : Z) (inst : string).
  Context (Hid : op_target_replica_id op = Some id) (Hinst : op_target_instance_id op = Some inst) (Hne : inst ≠ "").

Lemma target_id_Ok : add_target_replica_id op = Ok id.
Proof. unfold add_target_replica_id. by rewrite Hid. Qed.
Lemma target_instance_Ok : add_target_instance_id op = Ok inst.
Proof. unfold add_target_instance_id. rewrite Hinst, filled_Some by done. done. Qed.

Lemma descriptor_for_snapshot_Ok s obs must d :
  descriptor_for_snapshot s op obs must = Ok d → configures s obs id inst must d.
Proof.
  unfold descriptor_for_snapshot, configures. rewrite target_id_Ok, target_instance_Ok. cbn [mbind result_bind].
  rewrite bind_Ok. intros (cs & Hcs & [= <-]). exists cs. split; [|done].
  eapply try_map_Ok in Hcs; [exact Hcs|]. intros m c (o & Ho%or_fail_Ok & (b & Hb & [= <-])%bind_Ok)%bind_Ok. exists o.
  split; [done|]. unfold exact_target. destruct (srs_id m =? id); injection Hb as <-; done.
Qed.

Lemma descriptor_for_snapshot_total s obs must :
  (∀ m, m ∈ ss_members s → is_Some (obs !! srs_id m)) → ∃ d, descriptor_for_snapshot s op obs must = Ok d.
Proof.
  intros Hall. unfold descriptor_for_snapshot. rewrite target_id_Ok, target_instance_Ok. cbn [mbind result_bind].
  assert (∀ m, m ∈ filter (λ m, srs_id m ≠ ss_primary_id s) (ss_members s) → is_Some (obs !! srs_id m)) as Hsec.
  { intros m [_ Hm]%list_elem_of_filter. by apply Hall. }
  induction (filter _ _) as [|m l IH]; [by eexists|]. destruct IH as [d Hd]; [intros; apply Hsec; by right|].
  destruct (Hsec m) as [o Ho]; [left|]. cbn [try_map]. rewrite Ho. cbn [or_fail ok_or mbind result_bind].
  apply bind_Ok in Hd as (cs & -> & _).
  destruct (srs_id m =? id); cbn [mbind result_bind]; by eexists.
Qed.
End descriptor.

Lemma configures_ids s obs id inst must cs :
  Forall2 (describes obs id inst must) (secondaries s) cs →
  cd_id <$> cs = srs_id <$> secondaries s ∧ cd_instance_id <$> cs = srs_instance_id <$> secondaries s.
Proof.
  induction 1 as [|m c ms cs (o & _ & ->) _ [IH1 IH2]]; [done|]. rewrite !fmap_cons, IH1, IH2. done.
Qed.

Lemma configures_member s obs id inst must d c :
  configures s obs id inst must d → c ∈ cfg_members d →
  ∃ m, m ∈ secondaries s ∧ describes obs id inst must m c.
Proof.
  intros (cs & Hcs & ->). cbn. rewrite elem_of_sort_by_key. intros [i Hi]%list_elem_of_lookup.
  destruct (Forall2_lookup_r _ _ _ _ _ Hcs Hi) as (m & Hm & Hd). exists m. split; [by eapply list_elem_of_lookup_2|done].
Qed.

Lemma configures_stands s obs id inst must d m :
  configures s obs id inst must d → m ∈ secondaries s → ∃ c, c ∈ cfg_members d ∧ describes obs id inst must m c.
Proof.
  intros (cs & Hcs & ->) [i Hi]%list_elem_of_lookup. destruct (Forall2_lookup_l _ _ _ _ _ Hcs Hi) as (c & Hc & Hd).
  exists c. split; [|done]. cbn. rewrite elem_of_sort_by_key. by eapply list_elem_of_lookup_2.
Qed.

Lemma configures_plain s obs id inst must d : configures s obs id inst must d → plain d.
Proof. intros Hd c Hc. destruct (configures_member _ _ _ _ _ _ _ Hd Hc) as (m & _ & o & _ & ->). done. Qed.

Lemma NoDup_fmap_filter {A B} (f : A → B) (P : A → Prop) `{∀ x, base.Decision (P x)} (l : list A) :
  NoDup (f <$> l) → NoDup (f <$> filter P l).
Proof.
  induction l as [|x l IH]; [done|]. rewrite fmap_cons, NoDup_cons, filter_cons. intros [Hx Hl].
  case_decide; [|by apply IH]. rewrite fmap_cons, NoDup_cons. split; [|by apply IH].
  intros (y & Hy & [_ Hin]%list_elem_of_filter)%list_elem_of_fmap. apply Hx. rewrite Hy. by apply list_elem_of_fmap_2.
Qed.

Lemma configures_distinct s obs id inst must d :
  valid_topology s → configures s obs id inst must d → distinct_members (cfg_members d).
Proof.
  intros Hv Hd. split.
  - intros c Hc. destruct (configures_member _ _ _ _ _ _ _ Hd Hc) as (m & Hm & o & _ & ->).
    apply list_elem_of_filter in Hm as [_ Hm]. destruct (vt_named _ Hv m Hm) as (? & ? & _). done.
  - destruct Hd as (cs & Hcs & ->). cbn. rewrite sort_by_key_Permutation.
    destruct (configures_ids _ _ _ _ _ _ Hcs) as [-> ->].
    split; apply NoDup_fmap_filter, Hv.
Qed.

(** ** The observed intent *)

(** An intent that records what was observed of a request. *)
Record observes (op : DurableOperationStatus) (p : StablePartitionSnapshotStatus) (id : Z) (inst : string)
    (mode : DurableAddMode) (obs : OperationObservations) (now : Z) (core : AddReplicaIntent) : Prop := mkObserves {
  ob_primary : ∃ primary pm, obs !! ss_primary_id p = Some primary ∧ pm ∈ ss_members p ∧ srs_id pm = ss_primary_id p ∧
    si_instance_id (ro_status primary) = srs_instance_id pm ∧ si_role (ro_status primary) = Primary ∧
    si_epoch (ro_status primary) = to_epoch (ss_epoch p) ∧
    ai_primary_replica_id core = ss_primary_id p ∧ ai_primary_instance_id core = srs_instance_id pm ∧
    ai_primary_agent_generation core = as_generation (si_agent (ro_status primary)) ∧
    ai_primary_control_address core = ro_control_address primary;
  ob_target : ∃ target, obs !! id = Some target ∧ si_instance_id (ro_status target) = inst ∧
    ai_target_replica_id core = id ∧ ai_target_instance_id core = inst ∧
    ai_target_agent_generation core = as_generation (si_agent (ro_status target)) ∧
    ai_target_control_address core = ro_control_address target ∧
    ai_target_replicator_address core = ro_replicator_address target;
  ob_operation : ai_operation_id core = op_operation_id op ∧ ai_epoch core = to_epoch (ss_epoch p) ∧
    ai_retired_instance_id core = op_retired_instance_id op ∧
    ai_minimum_committed_replicas core = default 1 (op_minimum_committed_replicas op) ∧
    Ok (ai_mode core) = core_mode (Some mode) ∧
    ai_target_lifecycle_peer_protocol_version core = REPLICA_LIFECYCLE_PEER_PROTOCOL_VERSION;
  ob_attempt : ∃ attempt, ai_attempt_id core = op_operation_id op +:+ ":attempt-" +:+ pretty (attempt : Z);
  ob_previous : configures p obs id inst false (ai_previous_configuration core);
  ob_catch_up : configures (op_target_snapshot op) obs id inst true (ai_catch_up_configuration core);
  ob_current : configures (op_target_snapshot op) obs id inst false (ai_current_configuration core);
  ob_deadline : ai_deadline_unix_seconds core = i64_add now ADD_DEADLINE_SECONDS ∧
    ai_compensation_deadline_unix_seconds core = i64_add (i64_add now ADD_DEADLINE_SECONDS) COMPENSATION_GRACE_SECONDS;
}.

Section observed.
  Context (uid : string) (p : StablePartitionSnapshotStatus) (id : Z) (inst pod : string) (mode : DurableAddMode).

Lemma started_primary op : started_as uid p id inst pod mode op →
  ∃ pm, pm ∈ ss_members p ∧ srs_id pm = ss_primary_id p ∧ stable_member op (op_old_primary_id op) = Ok pm.
Proof.
  intros [Hr Hp _ _ _ Ho _ _ _ _ _]. destruct (valid_primary p) as (pm & Hin & Hid & _); [apply Hr|].
  exists pm. split; [done|]. split; [done|]. unfold stable_member. rewrite Hp, Ho. cbn.
  rewrite <-Hid. rewrite (find_key_In srs_id) by (done || apply Hr). done.
Qed.

Lemma started_target op : started_as uid p id inst pod mode op →
  add_target_replica_id op = Ok id ∧ add_target_instance_id op = Ok inst.
Proof.
  intros Hs. split; [apply target_id_Ok, Hs|apply target_instance_Ok; [apply Hs|]].
  apply (ar_named _ _ _ _ _ _ (sa_request _ _ _ _ _ _ _ Hs)).
Qed.

Lemma observed_intent_Ok op obs now core intent :
  started_as uid p id inst pod mode op → observed_intent op obs now = Ok (core, intent) →
  observes op p id inst mode obs now core ∧ ∃ attempt, intent = frozen_intent attempt core.
Proof.
  intros Hs. destruct (started_primary op Hs) as (pm & Hpm & Hpid & Hstable). destruct (started_target op Hs) as [Hid Hinst].
  pose proof (ar_named _ _ _ _ _ _ (sa_request _ _ _ _ _ _ _ Hs)) as Hne.
  pose proof (descriptor_for_snapshot_Ok op id inst (sa_target_id _ _ _ _ _ _ _ Hs) (sa_target_instance _ _ _ _ _ _ _ Hs) Hne) as Hdesc.
  unfold observed_intent. rewrite Hid, Hinst, Hstable, (sa_previous _ _ _ _ _ _ _ Hs), (sa_mode _ _ _ _ _ _ _ Hs),
    (sa_old_primary _ _ _ _ _ _ _ Hs).
  intros (primary & Hprimary%or_fail_Ok & H)%bind_Ok. cbn [mbind result_bind] in H.
  apply bind_Ok in H as (target & Htarget%or_fail_Ok & H). cbn [mbind result_bind expect_previous ok_or] in H.
  apply bind_Ok in H as ([] & H1%fail_if_Ok & H). apply bind_Ok in H as ([] & H2%fail_if_Ok & H).
  apply bind_Ok in H as (pc & Hpc%Hdesc & H). apply bind_Ok in H as (cc & Hcc%Hdesc & H).
  apply bind_Ok in H as (kc & Hkc%Hdesc & H). apply bind_Ok in H as (cmode & Hmode & H).
  injection H as <- <-. guards. split; [|by eexists]. split.
  - exists primary, pm. by split_and!.
  - exists target. by split_and!.
  - by split_and!.
  - by eexists.
  - done.
  - done.
  - done.
  - done.
Qed.

(** What was frozen is read back from the checkpoint as the intent that was
    observed, exactly when that intent is a valid one. *)
Lemma core_add_intent_frozen op obs now core attempt phase c :
  started_as uid p id inst pod mode op → observes op p id inst mode obs now core →
  op_add_intent op = Some ((frozen_intent attempt core) <| ais_last_observed_phase := phase |>) →
  core_add_intent op = Ok c ↔ c = core ∧ generation_ok (ai_primary_agent_generation core) ∧
    generation_ok (ai_target_agent_generation core) ∧ validate_add_intent core = Ok tt.
Proof.
  intros Hs Hob Hi. destruct (started_target op Hs) as [Hid Hinst]. destruct (sa_request _ _ _ _ _ _ _ Hs) as [Hvp Hvt _ _ _ _ _ _ _].
  unfold core_add_intent. rewrite Hi, Hid, Hinst, (sa_previous _ _ _ _ _ _ _ Hs), (sa_mode _ _ _ _ _ _ _ Hs), (sa_old_primary _ _ _ _ _ _ _ Hs).
  destruct Hob as [(? & pm & _ & _ & _ & _ & _ & _ & Hpid & _) (? & _ & _ & Htid & Htinst & _)
    (Hop & Hep & Hret & Hmin & Hmode & Hver) _ Hpc Hcc Hkc _].
  pose proof (proj2 (add_descriptor_exact _ _ (configures_plain _ _ _ _ _ _ Hpc)) (conj eq_refl (configures_distinct _ _ _ _ _ _ Hvp Hpc))) as Hpd.
  pose proof (proj2 (add_descriptor_exact _ _ (configures_plain _ _ _ _ _ _ Hcc)) (conj eq_refl (configures_distinct _ _ _ _ _ _ Hvt Hcc))) as Hcd.
  pose proof (proj2 (add_descriptor_exact _ _ (configures_plain _ _ _ _ _ _ Hkc)) (conj eq_refl (configures_distinct _ _ _ _ _ _ Hvt Hkc))) as Hkd.
  cbn [or_fail ok_or mbind result_bind expect_previous frozen_intent ais_attempt_id ais_primary_agent_generation ais_target_agent_generation
    ais_primary_instance_id ais_primary_control_address ais_target_control_address ais_target_replicator_address ais_previous_configuration
    ais_catch_up_configuration ais_current_configuration ais_deadline_unix_seconds ais_compensation_deadline_unix_seconds
    ais_target_lifecycle_peer_protocol_version over].
  rewrite <-Hmode, Hpd, Hcd, Hkd. cbn [mbind result_bind lift map_err].
  assert ({| ai_operation_id := op_operation_id op; ai_attempt_id := ai_attempt_id core; ai_mode := ai_mode core;
      ai_epoch := to_epoch (ss_epoch p); ai_primary_replica_id := ss_primary_id p;
      ai_primary_instance_id := ai_primary_instance_id core; ai_primary_agent_generation := ai_primary_agent_generation core;
      ai_primary_control_address := ai_primary_control_address core; ai_target_replica_id := id; ai_target_instance_id := inst;
      ai_target_agent_generation := ai_target_agent_generation core; ai_target_control_address := ai_target_control_address core;
      ai_target_replicator_address := ai_target_replicator_address core; ai_retired_instance_id := op_retired_instance_id op;
      ai_previous_configuration := ai_previous_configuration core; ai_catch_up_configuration := ai_catch_up_configuration core;
      ai_current_configuration := ai_current_configuration core;
      ai_minimum_committed_replicas := default 1 (op_minimum_committed_replicas op);
      ai_deadline_unix_seconds := ai_deadline_unix_seconds core;
      ai_compensation_deadline_unix_seconds := ai_compensation_deadline_unix_seconds core;
      ai_target_lifecycle_peer_protocol_version := ai_target_lifecycle_peer_protocol_version core |} = core) as Hcore.
  { destruct core. cbn in *. by subst. }
  rewrite !bind_Ok. setoid_rewrite lift_Ok. split.
  - intros (g & [<- Hg]%generation_parse_Ok & H). apply bind_Ok in H as (g' & [<- Hg']%lift_Ok%generation_parse_Ok & H).
    match type of H with context [validate_add_intent ?x] => replace x with core in H by (symmetry; exact Hcore) end. apply bind_Ok in H as ([] & Hv%lift_Ok & [= <-]). done.
  - intros (-> & Hg & Hg' & Hv). eexists. split; [exact Hg|]. rewrite Hg'. cbn [lift map_err mbind result_bind].
    match goal with |- context [validate_add_intent ?x] => replace x with core by (symmetry; exact Hcore) end. by rewrite Hv.
Qed.

(** Every observation has the addresses an intent needs. *)
Definition addressed_observations (obs : OperationObservations) : Prop :=
  ∀ id o, obs !! id = Some o → ro_control_address o ≠ "" ∧ ro_replicator_address o ≠ "".

Lemma add_members_accepted l ids instances :
  distinct_members l → (∀ m, m ∈ l → cd_replicator_address m ≠ "" ∧ cd_role m = ActiveSecondary) →
  (∀ m, m ∈ l → (cd_id m ∉ ids) ∧ (cd_instance_id m ∉ instances)) →
  is_ok (try_fold validate_add_member (ids, instances) l) = true.
Proof.
  revert ids instances. induction l as [|m l IH]; intros ids instances (Hall & Hd1 & Hd2) Ha Hf; [done|].
  rewrite fmap_cons, NoDup_cons in Hd1. rewrite fmap_cons, NoDup_cons in Hd2. destruct Hd1 as [Hn1 Hd1], Hd2 as [Hn2 Hd2].
  destruct (Hall m) as [H0 Hi]; [left|]. destruct (Ha m) as [Hr Hrole]; [left|]. destruct (Hf m) as [Hf1 Hf2]; [left|].
  cbn [try_fold validate_add_member]. unfold empty. rewrite (proj2 (Z.leb_gt _ _)) by lia.
  rewrite (bool_decide_eq_false_2 _ Hf1), (bool_decide_eq_false_2 _ Hf2), (bool_decide_eq_false_2 _ Hi),
    (bool_decide_eq_false_2 _ Hr), (bool_decide_eq_true_2 _ Hrole). cbn. apply IH.
  - split; [|done]. intros x Hx. apply Hall. by right.
  - intros x Hx. apply Ha. by right.
  - intros x Hx. destruct (Hf x) as [? ?]; [by right|]. split.
    + intros [Heq%elem_of_singleton|?]%elem_of_union; [|done]. apply Hn1. rewrite <-Heq. by apply list_elem_of_fmap_2.
    + intros [Heq%elem_of_singleton|?]%elem_of_union; [|done]. apply Hn2. rewrite <-Heq. by apply list_elem_of_fmap_2.
Qed.

Lemma secondaries_length s : valid_topology s → length (ss_members s) = S (length (secondaries s)).
Proof.
  intros Hv. destruct (valid_primary s Hv) as (pm & Hpm & Hid & _). unfold secondaries. rewrite <-Hid.
  apply (length_less_one srs_id); [apply Hv|done].
Qed.

Lemma configures_length s obs must d :
  configures s obs id inst must d → length (cfg_members d) = length (secondaries s).
Proof.
  intros (cs & Hcs & ->). cbn. rewrite (Permutation_length (sort_by_key_Permutation cd_id cs)).
  symmetry. by eapply Forall2_length.
Qed.

Lemma configures_accepted s obs must d :
  valid_topology s → addressed_observations obs → configures s obs id inst must d →
  Z.of_nat (length (ss_members s)) ≤ u32_max → validate_add_descriptor d = Ok tt.
Proof.
  intros Hv Ha Hd Hlen. unfold validate_add_descriptor.
  assert (cfg_write_quorum d = ss_write_quorum s) as -> by by destruct Hd as (cs & _ & ->).
  rewrite (configures_length _ _ _ _ Hd), (vt_quorum _ Hv), as_u32_small by done. rewrite (secondaries_length _ Hv).
  pose proof (Z.div_pos (Z.of_nat (S (length (secondaries s)))) 2).
  pose proof (Z.mul_div_le (Z.of_nat (S (length (secondaries s)))) 2).
  rewrite (proj2 (Z.eqb_neq _ 0)), (proj2 (Z.ltb_ge _ _)) by lia. cbn.
  pose proof (add_members_accepted (cfg_members d) ∅ ∅ (configures_distinct _ _ _ _ _ _ Hv Hd)) as Hacc.
  destruct (try_fold _ _ _) as [|e]; [done|]. assert (false = true) as []%diff_false_true. apply Hacc.
  - intros c Hc. destruct (configures_member _ _ _ _ _ _ _ Hd Hc) as (m & _ & o & Ho & ->). cbn. split; [|done]. by eapply Ha.
  - intros c Hc. split; apply not_elem_of_empty.
Qed.

Lemma target_member_of obs must d T :
  valid_topology T → id ≠ ss_primary_id T → (∃ m, m ∈ ss_members T ∧ srs_id m = id ∧ srs_instance_id m = inst) →
  configures T obs id inst must d →
  ∃ c, filter (λ c, is_member id inst c = true) (cfg_members d) = [c] ∧ cd_must_catch_up c = must ∧ cd_progress c = BuildCopyLsn.
Proof.
  intros Hv Hne (m & Hm & Hmid & Hmi) Hd.
  destruct (configures_stands T obs id inst must d m Hd) as (c & Hc & o & Ho & Heq).
  { apply list_elem_of_filter. split; [congruence|done]. }
  assert (exact_target id inst m = true) as Hex
    by (unfold exact_target; rewrite Hmid, Z.eqb_refl; by apply bool_decide_eq_true).
  rewrite Hex, andb_true_r in Heq. exists c. split; [|by subst c].
  apply singleton_list.
  - apply list_elem_of_filter. split; [|done]. subst c. unfold is_member. cbn. rewrite Hmid, Z.eqb_refl. by apply bool_decide_eq_true.
  - apply NoDup_filter. destruct (configures_distinct _ _ _ _ _ _ Hv Hd) as (_ & Hnd & _). by eapply NoDup_fmap_1.
  - intros c' [Hc' Hin]%list_elem_of_filter. unfold is_member in Hc'. apply andb_true_iff in Hc' as [Hid%Z.eqb_eq _].
    destruct (configures_distinct _ _ _ _ _ _ Hv Hd) as (_ & Hnd & _).
    pose proof (find_key_In cd_id (cfg_members d) c Hnd Hc) as H1.
    pose proof (find_key_In cd_id (cfg_members d) c' Hnd Hin) as H2.
    assert (cd_id c = cd_id c') as He by (subst c; cbn; congruence). rewrite He in H1. congruence.
Qed.

Lemma observed_mode op obs now core :
  started_as uid p id inst pod mode op → observes op p id inst mode obs now core → validate_add_mode core = Ok tt.
Proof.
  intros Hs Hob. destruct (sa_request _ _ _ _ _ _ _ Hs) as [Hvp _ _ Hsec _ _ _ _ Hm].
  destruct (ob_operation _ _ _ _ _ _ _ _ Hob) as (_ & _ & Hret & _ & Hmode & _).
  destruct (ob_target _ _ _ _ _ _ _ _ Hob) as (_ & _ & _ & Hid & Hinst & _).
  pose proof (ob_previous _ _ _ _ _ _ _ _ Hob) as Hpc.
  unfold validate_add_mode. rewrite Hret, Hid, Hinst. destruct mode; injection Hmode as ->.
  - destruct Hm as [-> Hno]. apply reject_if_Ok. cbn. apply not_true_iff_false. intros (c & Hc%list_elem_of_In & Hx)%existsb_exists.
    destruct (configures_member _ _ _ _ _ _ _ Hpc Hc) as (m & [_ Hin]%list_elem_of_filter & o & _ & ->). cbn in Hx.
    destruct (Hno m Hin) as [H1 H2]. apply orb_true_iff in Hx as [Hx%Z.eqb_eq|Hx%bool_decide_eq_true]; done.
  - destruct Hm as (m & Hin & Hmid & -> & Hne). cbn [ok_or mbind result_bind]. apply reject_if_Ok.
    rewrite (bool_decide_eq_false_2 _ Hne). cbn. apply negb_false_iff, existsb_exists.
    destruct (configures_stands _ _ _ _ _ _ m Hpc) as (c & Hc & o & _ & ->).
    { apply list_elem_of_filter. split; [congruence|done]. }
    eexists. split; [by apply list_elem_of_In|]. unfold is_member. cbn. rewrite Hmid, Z.eqb_refl. by apply bool_decide_eq_true.
Qed.

(** An intent observed with addresses everywhere, within the clock's range, is
    a valid one. *)
Lemma observed_accepted op obs now core :
  started_as uid p id inst pod mode op → observes op p id inst mode obs now core → addressed_observations obs →
  Z.of_nat (length (ss_members p)) ≤ u32_max → Z.of_nat (length (ss_members (op_target_snapshot op))) ≤ u32_max →
  0 < now + ADD_DEADLINE_SECONDS → now + ADD_DEADLINE_SECONDS + COMPENSATION_GRACE_SECONDS ≤ i64_max →
  validate_add_intent core = Ok tt.
Proof.
  intros Hs Hob Ha Hlp Hlt Hnow0 Hnow1. pose proof (observed_mode _ _ _ _ Hs Hob) as Hmode.
  destruct (sa_request _ _ _ _ _ _ _ Hs) as [Hvp Hvt Hne Hsec Hep Hprim Hmem _ _].
  pose proof (target_member_of obs true (ai_catch_up_configuration core) (op_target_snapshot op) Hvt ltac:(congruence) Hmem
    (ob_catch_up _ _ _ _ _ _ _ _ Hob)) as (cc & Hcc & Hcm & Hcp).
  pose proof (target_member_of obs false (ai_current_configuration core) (op_target_snapshot op) Hvt ltac:(congruence) Hmem
    (ob_current _ _ _ _ _ _ _ _ Hob)) as (kc & Hkc & Hkm & Hkp).
  destruct Hob as [(pr & pm & Hpr & Hpm & Hpmid & _ & _ & _ & Hpid & Hpinst & _ & Hpaddr)
    (tg & Htg & _ & Htid & Htinst & _ & Htaddr & Htrep) (Hop & _ & _ & Hmin & _ & Hver) (attempt & Hatt)
    Hpc Hccfg Hkcfg [Hd Hcd]].
  destruct (Ha _ _ Hpr) as [Hpr1 _]. destruct (Ha _ _ Htg) as [Htg1 Htg2].
  destruct (vt_named _ Hvp pm Hpm) as (Hpm0 & Hpm1 & _). destruct Hmem as (tm & Htm & Htmid & _).
  destruct (vt_named _ Hvt tm Htm) as (Htm0 & _). destruct (sa_minimum _ _ _ _ _ _ _ Hs) as (minimum & Hminop & Hminle).
  unfold ADD_DEADLINE_SECONDS, COMPENSATION_GRACE_SECONDS in *.
  rewrite (i64_add_small now) in Hd, Hcd by (unfold in_i64, i64_min, i64_max in *; lia).
  rewrite i64_add_small in Hcd by (unfold in_i64, i64_min, i64_max in *; lia).
  rewrite Hminop in Hmin. cbn [default] in Hmin. change (ai_minimum_committed_replicas core = as_u32 minimum) in Hmin.
  rewrite as_u32_small in Hmin by lia.
  unfold validate_add_intent. rewrite Htid, Htinst, Hcc, Hkc.
  assert (ai_attempt_id core ≠ "") as Hatt' by (rewrite Hatt; pose proof (sa_operation_id _ _ _ _ _ _ _ Hs); by destruct (op_operation_id op)).
  assert (ai_operation_id core ≠ "") as Hop' by (rewrite Hop; apply Hs).
  apply bind_Ok. exists tt. split.
  { apply reject_if_Ok. unfold empty. rewrite Hver, Hpid, Hpinst, Hpaddr, Htaddr, Htrep, Hmin, Hd, Hcd, Z.eqb_refl. repeat rewrite bool_decide_eq_false_2 by done.
    rewrite !(proj2 (Z.leb_gt _ _)) by lia. rewrite !(proj2 (Z.eqb_neq _ _)) by (congruence || lia).
    by rewrite (proj2 (Z.ltb_ge _ _)) by lia. }
  cbn [mbind result_bind try_for_each].
  rewrite (configures_accepted p obs _ _ Hvp Ha Hpc Hlp), (configures_accepted _ obs _ _ Hvt Ha Hccfg Hlt),
    (configures_accepted _ obs _ _ Hvt Ha Hkcfg Hlt). cbn [mbind result_bind].
  rewrite Hcm, Hkm, Hcp, Hkp. cbn.
  pose proof (secondaries_length _ Hvt) as Hlen. pose proof (configures_length _ _ _ _ Hkcfg) as Hkl. rewrite Hkl, <-Hlen.
  assert (cfg_write_quorum (ai_current_configuration core) = ss_write_quorum (op_target_snapshot op)) as -> by by destruct Hkcfg as (? & _ & ->).
  assert (cfg_write_quorum (ai_catch_up_configuration core) = ss_write_quorum (op_target_snapshot op)) as -> by by destruct Hccfg as (? & _ & ->).
  rewrite (vt_quorum _ Hvt), Z.eqb_refl, (proj2 (Z.ltb_ge _ _)) by lia. done.
Qed.
End observed.
