(* ===== verification/Turns.v ===== *)
(** The turns of the workflows that change the membership: what one reconcile
    saw and decided, what a list of turns has seen, and the checkpoint a
    decision leaves. *)

From S2P Require Import Prelude Types Crd Operation.

Set Default Goal Selector "!".

(** One reconcile: the checkpoint it decided on, what it saw and what it
    decided. *)
Record membership_turn := mkMembershipTurn {
  mt_operation : DurableOperationStatus;
  mt_observations : OperationObservations;
  mt_pods : gmap Z string;
  mt_label : option string;
  mt_now : Z;
  mt_decision : Decision;
}.

Definition seen (P : membership_turn → Prop) (trace : list membership_turn) : Prop := ∃ tn, tn ∈ trace ∧ P tn.
Lemma seen_here P tn trace : P tn → seen P (tn :: trace).
Proof. intros HP. exists tn. split; [left|done]. Qed.
Lemma seen_before P tn trace : seen P trace → seen P (tn :: trace).
Proof. intros (t & Ht & HP). exists t. split; [by right|done]. Qed.
Lemma seen_later P trace trace' : trace ⊆ trace' → seen P trace → seen P trace'.
Proof. intros Hsub (tn & Hin & HP). exists tn. split; [by apply Hsub|done]. Qed.
Lemma seen_impl (P Q : membership_turn → Prop) trace : (∀ tn, P tn → Q tn) → seen P trace → seen Q trace.
Proof. intros HPQ (tn & Hin & HP). exists tn. split; [done|by apply HPQ]. Qed.

(** The checkpoint a decision leaves. *)
Definition after_decision (op : DurableOperationStatus) (d : Decision) : DurableOperationStatus :=
  match d with
  | Persist next | RecordCommitEvidence next | RestartCreation next | CommitSnapshot next _ => next
  | Complete final _ _ | CompleteDegraded final _ => final
  | Execute _ _ _ | PatchPodRole _ _ | PatchPodRoleExactUid _ _ _ | DeletePod _ _ | Wait => op
  end.

(** A deletion leaves the checkpoint as it is. *)
Lemma after_decision_or_delete op d :
  ((∃ name uid, d = DeletePod name uid) ∧ after_decision op d = op) ∨ ∀ name uid, d ≠ DeletePod name uid.
Proof. destruct d; try (right; done). left. split; [by eexists _, _|done]. Qed.
