(* ===== verification/AddRuns.v ===== *)
(** Whole additions: the checkpoints a request goes through under any
    observations, pods, labels and clock readings; what its decisions rest
    on, and the invariant every reachable checkpoint keeps. *)

From S2P Require Import Prelude Types Lifecycle AddReplica Control Replicator Agent Convert Wire Crd Operation Switchover SwitchoverSteps Effects AddWorkflow AddSteps Turns.

Set Default Goal Selector "!".

(** ** Evidence *)

(** The configuration a primary shows once the topology is current. *)
Definition current_configuration (s : StablePartitionSnapshotStatus) : ReplicaConfigurationStatus :=
  mkReplicaConfigurationStatus Current
    (sort_by_key cm_id ((λ m, mkReplicaConfigurationMemberStatus (srs_id m) (srs_instance_id m) ActiveSecondary)
       <$> secondaries s)) (ss_write_quorum s).

(** The primary shows the topology [s] as its current configuration. *)
Definition shows_current (s : StablePartitionSnapshotStatus) (o : ReplicaObservation) : Prop :=
  si_role (ro_status o) = Primary ∧ si_epoch (ro_status o) = to_epoch (ss_epoch s) ∧
  si_configuration (ro_status o) = Some (current_configuration s).

Lemma configures_current s obs id inst must d :
  configures s obs id inst must d → descriptor_status d Current = current_configuration s.
Proof.
  intros (cs & Hcs & ->). unfold descriptor_status, current_configuration. cbn. f_equal.
  rewrite (sort_by_key_map _ cd_id cm_id), sort_by_key_idemp, <-(sort_by_key_map _ cd_id cm_id) by done. f_equal.
  induction Hcs as [|m c ms cs (o & _ & ->) _ IH]; [done|]. rewrite !fmap_cons, IH. done.
Qed.

Section evidence.
  Context {Ends : Endpoints}.
  Context (p T : StablePartitionSnapshotStatus) (id : Z) (inst : string).

Definition shown_committed (tn : membership_turn) : Prop :=
  ∃ o, mt_observations tn !! ss_primary_id p = Some o ∧ shows_current T o.

(** The primary's agent reports the frozen action as compensated. *)
Definition reported_compensated (op : DurableOperationStatus) (obs : OperationObservations) : Prop :=
  ∃ o core a, obs !! ss_primary_id p = Some o ∧ core_add_intent op = Ok core ∧
    as_generation (si_agent (ro_status o)) = ai_primary_agent_generation core ∧
    correlated_action_observation (ro_status o) (ai_attempt_id core +:+ ":AddReplicaIntent") = Some a ∧
    do_signature a = add_signature core ∧ do_state a = Completed ∧ do_result a = Some (ResAddReplica AddCompensated).

(** The target's process has not been made a member: it is fresh, or at most
    the idle replica its frozen intent built, at the epoch. *)
Definition never_activated (op : DurableOperationStatus) (o : ReplicaObservation) : Prop :=
  si_instance_id (ro_status o) = inst ∧
  (si_role (ro_status o) = Unknown ∧ si_epoch (ro_status o) = mkEpoch 0 0 ∧ si_healthy (ro_status o) = false ∨
   (si_role (ro_status o) = IdleSecondary ∨ si_role (ro_status o) = RoleNone) ∧
   si_epoch (ro_status o) = to_epoch (ss_epoch p) ∧
   ∃ i, op_add_intent op = Some i ∧ as_generation (si_agent (ro_status o)) = ais_target_agent_generation i).

(** The primary's pod is gone, and the target took no part in a commit. *)
Definition lost_uncommitted (op : DurableOperationStatus) (obs : OperationObservations) (pods : gmap Z string) : Prop :=
  obs !! ss_primary_id p = None ∧
  (∃ pm, pm ∈ ss_members p ∧ srs_id pm = ss_primary_id p ∧ pods !! ss_primary_id p ≠ Some (srs_instance_id pm)) ∧
  ∃ o, obs !! id = Some o ∧ never_activated op o.

Definition uncommitted_shown (tn : membership_turn) : Prop :=
  reported_compensated (mt_operation tn) (mt_observations tn) ∨
  lost_uncommitted (mt_operation tn) (mt_observations tn) (mt_pods tn).

Definition target_gone (tn : membership_turn) : Prop := mt_pods tn !! id ≠ Some inst.

(** Every member was seen on its own, healthy, in its role and at the epoch,
    and the primary with the topology, the target's connection and its
    completed build. *)
Record attested_topology (core : AddReplicaIntent) (obs : OperationObservations) : Prop := mkAttested {
  at_members : ∀ m, m ∈ ss_members T → ∃ o, obs !! srs_id m = Some o ∧
    si_instance_id (ro_status o) = srs_instance_id m ∧ si_epoch (ro_status o) = to_epoch (ss_epoch T) ∧
    si_healthy (ro_status o) = true ∧
    si_role (ro_status o) = (if srs_id m =? ss_primary_id T then Primary else ActiveSecondary) ∧
    (srs_id m = id → as_generation (si_agent (ro_status o)) = ai_target_agent_generation core);
  at_primary : ∃ o build, obs !! ss_primary_id T = Some o ∧ shows_current T o ∧
    (∃ c, c ∈ si_active_replica_connections (ro_status o) ∧ rcs_id c = id ∧ rcs_instance_id c = inst) ∧
    si_build_observation (ro_status o) = Some build ∧ rb_state build = BuildCompleted ∧
    rb_build_key build = semantic_build_key core ∧ rb_target_replica_id build = id ∧ rb_target_instance_id build = inst ∧
    rb_target_agent_generation build = ai_target_agent_generation core;
}.
End evidence.

(** ** What a reconcile can decide *)

Definition add_active (phase : Phase.DurableOperationPhase) : Prop :=
  phase = Phase.AddFreezeIntent ∨ phase = Phase.AddDispatchIntent ∨ phase = Phase.AddAwaitCoordination ∨
  phase = Phase.AddRecordCommit ∨ phase = Phase.AddPublishTarget ∨ phase = Phase.AddFinalize.

(** The phases of an addition. *)
Definition add_phase (phase : Phase.DurableOperationPhase) : Prop :=
  add_active phase ∨ phase = Phase.AddCommittedDegradedHandoff ∨ phase = Phase.AddDeleteCompensatedTarget ∨
  phase = Phase.AddCompensateFinalize ∨ phase = Phase.Completed ∨ phase = Phase.Failed ∨ phase = Phase.Poisoned.

Section outcomes.
  Context {Ends : Endpoints}.
  Context (uid : string) (p : StablePartitionSnapshotStatus) (id : Z) (inst pod : string) (mode : DurableAddMode).
  Context (op : DurableOperationStatus) (obs : OperationObservations) (pods : gmap Z string)
    (label : option string) (now : Z).
Let T := op_target_snapshot op.

Inductive add_outcome : result failure Decision → Prop :=
| ao_wait : add_outcome (Ok Wait)
| ao_error e : add_outcome (Err (Error e))
| ao_poison m : add_active (op_phase op) → add_outcome (Ok (Persist (poison op m)))
| ao_handoff s :
    op_phase op = Phase.AddCommittedDegradedHandoff → op_committed_snapshot op = Some s →
    add_outcome (Ok (CompleteDegraded (op <| op_phase := Phase.Failed |>) s))
| ao_gone :
    op_phase op = Phase.AddDeleteCompensatedTarget → pods !! id ≠ Some inst →
    add_outcome (Ok (Persist (op <| op_phase := Phase.AddCompensateFinalize |>)))
| ao_delete :
    op_phase op = Phase.AddDeleteCompensatedTarget → pods !! id = Some inst →
    add_outcome (Ok (DeletePod pod inst))
| ao_restored :
    op_phase op = Phase.AddCompensateFinalize →
    add_outcome (Ok (Complete (op <| op_phase := Phase.Failed |>) p true))
| ao_commit o :
    add_active (op_phase op) → op_committed_snapshot op = None →
    obs !! ss_primary_id p = Some o → shows_current T o →
    add_outcome (Ok (Persist (op <| op_committed_snapshot := Some T |> <| op_pending_action := None |>
      <| op_phase := Phase.AddRecordCommit |>)))
| ao_degrade :
    add_active (op_phase op) → (op_committed_snapshot op ≠ None ∨ op_phase op = Phase.AddPublishTarget ∨ op_phase op = Phase.AddFinalize) →
    label ≠ Some "secondary" →
    add_outcome (Ok (Persist (op <| op_phase := Phase.AddCommittedDegradedHandoff |>)))
| ao_unpublish :
    label = Some "secondary" → add_outcome (Ok (PatchPodRole id "bootstrap"))
| ao_lost :
    add_active (op_phase op) → op_committed_snapshot op = None → lost_uncommitted p id inst op obs pods →
    add_outcome (Ok (Persist (op <| op_phase := Phase.AddDeleteCompensatedTarget |> <| op_pending_action := None |>
      <| op_last_error := Some "primary was lost before target activation" |>)))
| ao_freeze core attempt :
    op_phase op = Phase.AddFreezeIntent → observes op p id inst mode obs now core →
    add_outcome (Ok (Persist (op <| op_add_intent := Some (frozen_intent attempt core) |>
      <| op_phase := Phase.AddDispatchIntent |> <| op_phase_deadline_unix_seconds := ai_deadline_unix_seconds core |>
      <| op_pending_action := None |>)))
| ao_dispatch i pa :
    op_phase op = Phase.AddDispatchIntent → op_add_intent op = Some i →
    pa_kind pa = Action.AddReplicaIntent → pa_action_id pa = ais_action_id i → pa_target_id pa = ss_primary_id p →
    pa_target_instance_id pa = ais_primary_instance_id i →
    pc_kind (pa_desired_postcondition pa) = PcAddReplicaCoordinated →
    add_outcome (Ok (Persist (op <| op_phase := Phase.AddAwaitCoordination |> <| op_pending_action := Some pa |>)))
| ao_refreeze :
    op_phase op = Phase.AddAwaitCoordination → add_outcome (Ok (Persist (refreeze op)))
| ao_progress i phase :
    op_phase op = Phase.AddAwaitCoordination → op_add_intent op = Some i →
    add_outcome (Ok (Persist (op <| op_add_intent := Some (i <| ais_last_observed_phase := phase |>) |>)))
| ao_compensated :
    op_phase op = Phase.AddAwaitCoordination → reported_compensated p op obs →
    add_outcome (Ok (Persist (op <| op_pending_action := None |> <| op_phase := Phase.AddDeleteCompensatedTarget |>)))
| ao_execute o core :
    op_phase op = Phase.AddAwaitCoordination → core_add_intent op = Ok core → obs !! ss_primary_id p = Some o →
    as_generation (si_agent (ro_status o)) = ai_primary_agent_generation core →
    (∀ t, obs !! id = Some t → as_generation (si_agent (ro_status t)) = ai_target_agent_generation core) →
    correlated_action_observation (ro_status o) (ai_attempt_id core +:+ ":AddReplicaIntent") = None →
    now < ai_deadline_unix_seconds core →
    add_outcome (Ok (Execute (ss_primary_id p) (ai_attempt_id core +:+ ":AddReplicaIntent") (ActAddReplicaIntent core)))
| ao_published :
    op_phase op = Phase.AddRecordCommit →
    add_outcome (Ok (Persist (op <| op_phase := Phase.AddPublishTarget |>
      <| op_phase_deadline_unix_seconds := i64_add now ACTION_DEADLINE_SECONDS |>)))
| ao_finalize :
    op_phase op = Phase.AddPublishTarget →
    add_outcome (Ok (Persist (op <| op_phase := Phase.AddFinalize |>
      <| op_phase_deadline_unix_seconds := i64_add now ACTION_DEADLINE_SECONDS |>)))
| ao_patch core :
    core_add_intent op = Ok core → attested_topology T id inst core obs →
    add_outcome (Ok (PatchPodRole id "secondary"))
| ao_complete core :
    op_phase op = Phase.AddFinalize → core_add_intent op = Ok core → attested_topology T id inst core obs →
    label = Some "secondary" →
    add_outcome (Ok (Complete (op <| op_phase := Phase.Completed |>) T false)).

Context (Hs : started_as uid p id inst pod mode op).
Context (Hheld : ∀ i, op_add_intent op = Some i → ∃ obs0 now0 core attempt phase,
  observes op p id inst mode obs0 now0 core ∧ i = (frozen_intent attempt core) <| ais_last_observed_phase := phase |>).

(** What holds of a frozen intent that is read back. *)
Lemma held_core i core : op_add_intent op = Some i → core_add_intent op = Ok core →
  (∃ obs0 now0, observes op p id inst mode obs0 now0 core) ∧
  ais_action_id i = ai_attempt_id core +:+ ":AddReplicaIntent" ∧
  ais_primary_agent_generation i = ai_primary_agent_generation core ∧
  ais_primary_instance_id i = ai_primary_instance_id core ∧
  ais_target_agent_generation i = ai_target_agent_generation core ∧
  ais_deadline_unix_seconds i = ai_deadline_unix_seconds core ∧
  ais_current_configuration i = add_descriptor_status (ai_current_configuration core).
Proof.
  intros Hi Hc. destruct (Hheld i Hi) as (obs0 & now0 & core' & attempt & phase & Hob & ->).
  apply (core_add_intent_frozen uid p id inst pod mode op obs0 now0 core' attempt phase core Hs Hob Hi) in Hc as (-> & _).
  split; [by eexists _, _|]. done.
Qed.

Lemma current_matches o b : primary_current_configuration_matches op o = Ok b → b = true → shows_current T o.
Proof.
  unfold primary_current_configuration_matches. destruct (op_add_intent op) as [i|] eqn:Hi; [|by intros [= <-]].
  destruct (Hheld i eq_refl) as (obs0 & now0 & core & attempt & phase & Hob & ->).
  intros (d & Hd%lift_Ok & [= <-])%bind_Ok Hb. pose proof (ob_current _ _ _ _ _ _ _ _ Hob) as Hk.
  apply add_descriptor_exact in Hd as [-> _]; [|by eapply configures_plain].
  rewrite (configures_current _ _ _ _ _ _ Hk) in Hb. apply andb_true_iff in Hb as [Hb Hcfg].
  apply andb_true_iff in Hb as [Hr He]. guards. done.
Qed.

Lemma attestation_Ok :
  add_final_attestation op obs = Ok tt → ∃ core, core_add_intent op = Ok core ∧ attested_topology T id inst core obs.
Proof.
  destruct (started_target _ _ _ _ _ _ _ Hs) as [Hid Hinst]. pose proof held_core as Hof. pose proof current_matches as Hshows.
  unfold add_final_attestation.
  destruct (op_add_intent op) as [i|] eqn:Hi; [|done]. cbn [or_fail ok_or mbind result_bind].
  intros (core & Hcore & H)%bind_Ok. destruct (Hof i core eq_refl Hcore) as (_ & _ & _ & _ & Htg & _).
  rewrite Hid, Hinst in H. cbn [mbind result_bind] in H.
  apply bind_Ok in H as ([] & _ & H). apply bind_Ok in H as ([] & Hm & H). apply bind_Ok in H as (o & Ho%or_fail_Ok & H).
  apply bind_Ok in H as (b & Hb & H). apply bind_Ok in H as ([] & Hbt%fail_if_Ok & H). guards.
  apply bind_Ok in H as ([] & Hc%fail_if_Ok & H). apply bind_Ok in H as (build & Hbuild%or_fail_Ok & Hbs%fail_if_Ok). guards.
  rewrite Htg in *. exists core. split; [done|]. split.
  - intros m Hin. apply try_for_each_Ok in Hm. rewrite Forall_forall in Hm. specialize (Hm m Hin).
    unfold attest_member in Hm. rewrite Hid, Htg in Hm. apply bind_Ok in Hm as (om & Hom%or_fail_Ok & Hm).
    apply bind_Ok in Hm as ([] & Hm1%fail_if_Ok & Hm). cbn [mbind result_bind] in Hm.
    apply bind_Ok in Hm as ([] & Hm2%fail_if_Ok & Hm3%fail_if_Ok). guards. exists om. split_and!; try done.
    intros Hmid. rewrite Hmid, Z.eqb_refl in Hm2. cbn in Hm2. by guards.
  - exists o, build. split; [done|]. split; [by eapply Hshows|].
    split; [|by split_and!]. apply existsb_exists in Hc as (c & Hc%list_elem_of_In & Hcc).
    apply andb_true_iff in Hcc as [Hc1%Z.eqb_eq Hc2%bool_decide_eq_true]. by exists c.
Qed.

Lemma panics_core_add_intent : panics (core_add_intent op) = false.
Proof.
  unfold core_add_intent, core_mode, add_target_replica_id, add_target_instance_id. rewrite (sa_previous _ _ _ _ _ _ _ Hs).
  cbn [expect_previous ok_or]. no_panic.
Qed.

Lemma panics_add_attestation : panics (add_final_attestation op obs) = false.
Proof.
  pose proof panics_core_add_intent as Hc. unfold add_final_attestation, primary_current_configuration_matches, add_target_replica_id, add_target_instance_id.
  apply panics_bind; [auto with panics|]. intros i _. apply panics_bind; [done|]. intros core _.
  apply panics_bind; [auto with panics|]. intros _ _. apply panics_bind.
  { induction (ss_members (op_target_snapshot op)) as [|m l IH]; [done|]. cbn [try_for_each]. apply panics_bind; [|done].
    unfold attest_member, add_target_replica_id. no_panic. }
  intros _ _. no_panic.
Qed.

Lemma degraded_outcome :
  add_active (op_phase op) → (op_committed_snapshot op ≠ None ∨ op_phase op = Phase.AddPublishTarget ∨ op_phase op = Phase.AddFinalize) →
  add_outcome (committed_degraded_decision op label).
Proof.
  intros Ha Hc. unfold committed_degraded_decision. case_bool_decide as Hl.
  - rewrite (proj1 (started_target _ _ _ _ _ _ _ Hs)). by apply ao_unpublish.
  - by apply ao_degrade.
Qed.

Lemma coordinated_outcome i core a o :
  op_phase op = Phase.AddAwaitCoordination → core_add_intent op = Ok core → obs !! ss_primary_id p = Some o →
  as_generation (si_agent (ro_status o)) = ai_primary_agent_generation core →
  correlated_action_observation (ro_status o) (ai_attempt_id core +:+ ":AddReplicaIntent") = Some a →
  do_signature a = add_signature core → add_outcome (Ok (decide_coordinated op i a now)).
Proof.
  intros Hph Hcore Ho Hgen Ha Hsig. assert (add_active (op_phase op)) as Hact by (rewrite Hph; do 2 right; by left).
  unfold decide_coordinated. repeat case_match; try (by apply ao_wait); try (by apply ao_poison).
  apply ao_compensated; [done|]. by exists o, core, a.
Qed.

Lemma await_outcome :
  op_phase op = Phase.AddAwaitCoordination →
  (∀ pa i, op_pending_action op = Some pa → op_add_intent op = Some i → pa_action_id pa = ais_action_id i) →
  add_outcome (decide_await_coordination op obs now).
Proof.
  intros Hph Hpend. pose proof held_core as Hof. pose proof coordinated_outcome as Hco. pose proof (sa_old_primary _ _ _ _ _ _ _ Hs) as Hold.
  pose proof panics_core_add_intent as Hpc. pose proof (proj1 (started_target _ _ _ _ _ _ _ Hs)) as Hid.
  assert (add_active (op_phase op)) as Hact by (rewrite Hph; do 2 right; by left).
  unfold decide_await_coordination. destruct (op_add_intent op) as [i|] eqn:Hi; [|apply ao_error]. cbn [or_fail ok_or mbind result_bind].
  destruct (op_pending_action op) as [pa|] eqn:Hpa; [|apply ao_error]. cbn [or_fail ok_or mbind result_bind].
  destruct (core_add_intent op) as [core|[e|e]] eqn:Hcore; [|apply ao_error|done]. cbn [mbind result_bind].
  destruct (Hof i core eq_refl eq_refl) as (_ & Hact' & Hpg & _ & Htg & Hdl & _). rewrite Hold, Hpg, Htg, Hid, Hact', Hdl.
  destruct (obs !! ss_primary_id p) as [o|] eqn:Ho; [|apply ao_error]. cbn [or_fail ok_or mbind result_bind].
  case_bool_decide as Hgen; cbn [negb]; [|by apply ao_refreeze].
  match goal with |- add_outcome (if ?b then _ else _) => destruct b eqn:Hb end; [by apply ao_refreeze|].
  assert (∀ t, obs !! id = Some t → as_generation (si_agent (ro_status t)) = ai_target_agent_generation core) as Htgen.
  { intros t Ht. rewrite Ht in Hb. by guards. }
  destruct (correlated_action_observation _ _) as [a|] eqn:Ha.
  - case_bool_decide as Hsig; cbn [negb]; [|destruct (obs !! id); [by apply ao_poison|by apply ao_refreeze]].
    destruct (do_add_replica_progress a) as [progress|].
    + case_bool_decide; cbn [negb]; [by eapply Hco|]. by apply ao_progress.
    + rewrite bool_decide_eq_true_2 by done. by eapply Hco.
  - destruct (Z.leb_spec (ai_deadline_unix_seconds core) now) as [Hl|Hl]; [by apply ao_poison|].
    rewrite (Hpend pa i eq_refl eq_refl), Hact'. by eapply ao_execute.
Qed.

Lemma publish_outcome published target_done :
  op_phase op = Phase.AddPublishTarget ∨ op_phase op = Phase.AddFinalize →
  (∀ core, published = true → core_add_intent op = Ok core → attested_topology T id inst core obs → add_outcome (Ok target_done)) →
  add_outcome (decide_publish op obs published id label target_done now).
Proof.
  intros Hph Hdone. pose proof panics_add_attestation as Hp. pose proof attestation_Ok as Hok. unfold decide_publish.
  assert (add_active (op_phase op)) as Hact by (unfold add_active; tauto).
  destruct (add_final_attestation op obs) as [[]|[m|m]]; [| |done].
  - destruct (Hok eq_refl) as (core & Hcore & Hatt). destruct published; [by eapply Hdone|by eapply ao_patch].
  - case_match; [|by apply ao_wait]. apply degraded_outcome; [done|tauto].
Qed.

Lemma freeze_outcome : op_phase op = Phase.AddFreezeIntent →
  ∃ r, freeze_add_intent op obs now = r ∧
    match r with Ok d => add_outcome (Ok d) | Err (Error e) => True | Err (Panic e) => False end.
Proof.
  intros Hph. eexists. split; [done|]. unfold freeze_add_intent.
  assert (panics (observed_intent op obs now) = false) as Hp.
  { unfold observed_intent, stable_member, descriptor_for_snapshot, add_target_replica_id, add_target_instance_id, core_mode.
    rewrite (sa_previous _ _ _ _ _ _ _ Hs), (sa_mode _ _ _ _ _ _ _ Hs). cbn [expect_previous ok_or].
    assert (∀ f (l : list StableReplicaSnapshotStatus), (∀ m, panics (f m) = false) →
      panics (try_map (B := ConfigurationMemberDescriptor) f l) = false) as Hmap.
    { intros f l Hf. induction l as [|m l IH]; [done|]. cbn [try_map]. apply panics_bind; [done|]. intros c _.
      by apply panics_bind; [done|]. }
    repeat first [apply Hmap; intros | progress no_panic]. }
  destruct (observed_intent op obs now) as [[core i]|[e|e]] eqn:Ho; [|done|done]. cbn [mbind result_bind].
  destruct (observed_intent_Ok uid p id inst pod mode op obs now core i Hs Ho) as (Hob & attempt & ->).
  by apply ao_freeze.
Qed.

Lemma phase_outcome :
  (∀ pa i, op_pending_action op = Some pa → op_add_intent op = Some i → pa_action_id pa = ais_action_id i) →
  add_outcome (decide_add_phase op obs id label now).
Proof.
  intros Hpend. unfold decide_add_phase. destruct (op_phase op) eqn:Hph; try apply ao_error.
  - destruct (freeze_outcome Hph) as (r & -> & Hr). destruct r as [d|[e|e]]; [done| |done].
    case_match; [apply ao_poison|apply ao_wait]. unfold add_active. tauto.
  - pose proof ao_dispatch as Hd. unfold dispatch_add_intent. destruct (op_add_intent op) as [i|] eqn:Hi; [|apply ao_error].
    cbn [or_fail ok_or mbind result_bind]. rewrite (sa_previous _ _ _ _ _ _ _ Hs). cbn [expect_previous ok_or mbind result_bind].
    eapply Hd; try done. apply Hs.
  - by apply await_outcome.
  - by apply ao_published.
  - apply publish_outcome; [by left|]. intros core _ _ _. by apply ao_finalize.
  - apply publish_outcome; [by right|]. intros core Hl%bool_decide_eq_true Hcore Hatt. by eapply ao_complete.
Qed.

Lemma safely_uncommitted_spec o : safely_uncommitted op p o = true → never_activated p inst op o.
Proof.
  unfold safely_uncommitted, never_activated. rewrite (proj2 (started_target _ _ _ _ _ _ _ Hs)).
  intros [Hi Hrest]%andb_true_iff. guards. split; [done|].
  assert (∀ b, negb (si_healthy (ro_status o)) && bool_decide (si_role (ro_status o) = Unknown) &&
    bool_decide (si_epoch (ro_status o) = mkEpoch 0 0) = b → b = true →
    si_role (ro_status o) = Unknown ∧ si_epoch (ro_status o) = mkEpoch 0 0 ∧ si_healthy (ro_status o) = false) as Hfresh.
  { intros b <- [[Hh Hr]%andb_true_iff He]%andb_true_iff. guards. done. }
  destruct (op_add_intent op) as [i|]; [|left; by eapply Hfresh].
  apply andb_true_iff in Hrest as [Hg Hrest]. apply orb_true_iff in Hrest as [Hf|Hb]; [left; by eapply Hfresh|right].
  apply andb_true_iff in Hb as [He Hr]. guards. split; [done|]. split; [done|]. by exists i.
Qed.

Lemma lost_outcome :
  add_active (op_phase op) → obs !! ss_primary_id p = None →
  add_outcome (decide_primary_lost op (obs !! id) pods label now).
Proof.
  intros Hact Hnone. destruct (started_primary _ _ _ _ _ _ _ Hs) as (pm & Hpm & Hpid & Hst).
  unfold decide_primary_lost. rewrite Hst, (sa_previous _ _ _ _ _ _ _ Hs), (sa_old_primary _ _ _ _ _ _ _ Hs).
  destruct (op_committed_snapshot op) as [s|] eqn:Hc; cbn [none negb].
  { apply degraded_outcome; [done|]. left. by rewrite Hc. }
  cbn [expect_previous ok_or mbind result_bind]. case_bool_decide as Hpod'.
  { case_match; [by apply ao_poison|apply ao_wait]. }
  destruct (obs !! id) as [t|] eqn:Ht; [|by apply ao_poison].
  destruct (safely_uncommitted op p t) eqn:Hsafe; [|by apply ao_poison].
  apply ao_lost; [done|done|]. split; [done|]. split; [by exists pm|].
  exists t. split; [done|]. by apply safely_uncommitted_spec.
Qed.

Lemma active_outcome :
  add_active (op_phase op) →
  (∀ pa i, op_pending_action op = Some pa → op_add_intent op = Some i → pa_action_id pa = ais_action_id i) →
  add_outcome (decide_add_active op obs pods label now).
Proof.
  intros Hact Hpend. destruct (started_primary _ _ _ _ _ _ _ Hs) as (pm & Hpm & Hpid & Hst).
  unfold decide_add_active. rewrite (proj1 (started_target _ _ _ _ _ _ _ Hs)), Hst, (sa_previous _ _ _ _ _ _ _ Hs), (sa_old_primary _ _ _ _ _ _ _ Hs).
  cbn [mbind result_bind]. destruct (obs !! ss_primary_id p) as [o|] eqn:Ho; [|by apply lost_outcome].
  pose proof current_matches as Hcm. pose proof degraded_outcome as Hdeg. pose proof phase_outcome as Hph.
  assert (panics (primary_current_configuration_matches op o) = false) as Hp
    by (unfold primary_current_configuration_matches; no_panic).
  destruct (primary_current_configuration_matches op o) as [b|[e|e]] eqn:Hb; [|apply ao_error|done]. cbn [mbind result_bind].
  destruct (b && none (op_committed_snapshot op)) eqn:Hbc.
  - apply andb_true_iff in Hbc as [-> Hc]. eapply ao_commit; [done| |exact Ho|by eapply Hcm].
    by destruct (op_committed_snapshot op).
  - cbn [expect_previous ok_or mbind result_bind]. case_match.
    + destruct (op_committed_snapshot op) as [s|] eqn:Hc; cbn [none negb]; [apply Hdeg; [done|by left]|].
      case_match; [by apply ao_poison|apply ao_wait].
    + by apply Hph.
Qed.

Lemma validated_pending : validate_add_operation op = Ok tt →
  ∀ pa i, op_pending_action op = Some pa → op_add_intent op = Some i → pa_action_id pa = ais_action_id i.
Proof.
  intros Hv pa i Hpa Hi. unfold validate_add_operation in Hv. rewrite Hpa, Hi in Hv.
  do 6 (apply bind_Ok in Hv as (? & _ & Hv)). cbn [or_fail ok_or mbind result_bind] in Hv. apply fail_if_Ok in Hv. by guards.
Qed.

Lemma panics_validate_add : panics (validate_add_operation op) = false.
Proof.
  pose proof panics_core_add_intent as Hc. unfold validate_add_operation. rewrite (sa_previous _ _ _ _ _ _ _ Hs).
  cbn [expect_previous ok_or]. unfold validate_add_snapshot.
  assert (∀ f s (l : list StableReplicaSnapshotStatus), (∀ (s : gset Z * gset string * Z) m, panics (f s m) = false) →
    panics (try_fold f s l) = false) as Hfold.
  { intros f s l Hf. revert s. induction l as [|m l IH]; intros s; [done|]. cbn [try_fold]. by apply panics_bind. }
  repeat first [apply Hfold; intros | progress no_panic | exact Hc].
Qed.

(** Every decision is one of these outcomes. *)
Lemma decide_add_outcome : add_phase (op_phase op) → add_outcome (decide_add_replica op obs pods label now).
Proof.
  intros Hin. pose proof panics_validate_add as Hp. pose proof validated_pending as Hvp. unfold decide_add_replica.
  destruct (validate_add_operation op) as [[]|[e|e]]; [|apply ao_error|done]. cbn [mbind result_bind].
  specialize (Hvp eq_refl). destruct (started_target _ _ _ _ _ _ _ Hs) as [Hid Hinst].
  pose proof (active_outcome) as Hactive. unfold add_phase in Hin.
  destruct (op_phase op) eqn:Hph; try (by apply ao_wait); try (by apply Hactive; [unfold add_active; tauto|]);
    try (exfalso; clear -Hin; unfold add_active in Hin; by repeat destruct Hin as [Hin|Hin]).
  - destruct (op_committed_snapshot op) as [s|] eqn:Hc; [|apply ao_error]. by apply ao_handoff.
  - rewrite Hid, Hinst. cbn [mbind result_bind]. case_bool_decide as Hpods; cbn [negb]; [|by apply ao_gone].
    unfold add_target_pod_name. rewrite (sa_target_pod _ _ _ _ _ _ _ Hs). unfold filled.
    destruct (empty pod); [apply ao_error|by apply ao_delete].
  - rewrite (sa_previous _ _ _ _ _ _ _ Hs). by apply ao_restored.
Qed.
End outcomes.

(** ** Runs *)

Section runs.
  Context {Ends : Endpoints}.
  Context (p : StablePartitionSnapshotStatus) (id : Z) (inst pod : string) (mode : DurableAddMode).

(** [add_run T trace op]: an addition of [inst] at [id] to the stable topology
    [p], which makes it [T]; its turns so far, the last one first, and its
    checkpoint. The write of a turn may have been lost; between two turns a
    dispatch may have recorded its evidence or its error, and the reconciler
    may have failed the operation closed. *)
Inductive add_run (T : StablePartitionSnapshotStatus) : list membership_turn → DurableOperationStatus → Prop :=
| add_run_start uid minimum now op :
    start_add_replica uid p id inst pod mode minimum now = Ok op → op_target_snapshot op = T → add_run T [] op
| add_run_decide trace op obs pods label now d :
    add_run T trace op → decide_add_replica op obs pods label now = Ok d →
    add_run T (mkMembershipTurn op obs pods label now d :: trace) (after_decision op d)
| add_run_lost trace op obs pods label now d :
    add_run T trace op → decide_add_replica op obs pods label now = Ok d →
    add_run T (mkMembershipTurn op obs pods label now d :: trace) op
| add_run_record trace op op' :
    add_run T trace op → bookkeeping op op' → add_run T trace op'
| add_run_fail_closed trace op message :
    add_run T trace op → add_run T trace (fail_closed op message).

Context (T : StablePartitionSnapshotStatus).

(** The frozen intent is one that was observed in a turn before. *)
Definition frozen_in (trace : list membership_turn) (op : DurableOperationStatus) (i : AddReplicaIntentStatus) : Prop :=
  ∃ tn core attempt phase, tn ∈ trace ∧ op_phase (mt_operation tn) = Phase.AddFreezeIntent ∧
    observes op p id inst mode (mt_observations tn) (mt_now tn) core ∧
    i = (frozen_intent attempt core) <| ais_last_observed_phase := phase |>.

(** What a phase says of the commit. *)
Definition phase_commit (trace : list membership_turn) (op : DurableOperationStatus) : Prop :=
  match op_phase op with
  | Phase.AddFreezeIntent | Phase.AddDispatchIntent | Phase.AddAwaitCoordination => op_committed_snapshot op = None
  | Phase.AddRecordCommit | Phase.AddPublishTarget | Phase.AddFinalize | Phase.Completed => op_committed_snapshot op ≠ None
  | Phase.AddCommittedDegradedHandoff =>
      op_committed_snapshot op ≠ None ∧ seen (λ tn, mt_label tn ≠ Some "secondary") trace
  | Phase.AddDeleteCompensatedTarget => op_committed_snapshot op = None ∧ seen (uncommitted_shown p id inst) trace
  | Phase.AddCompensateFinalize =>
      op_committed_snapshot op = None ∧ seen (uncommitted_shown p id inst) trace ∧ seen (target_gone id inst) trace
  | Phase.Failed =>
      op_committed_snapshot op ≠ None ∨
      op_committed_snapshot op = None ∧ seen (uncommitted_shown p id inst) trace ∧ seen (target_gone id inst) trace
  | Phase.Poisoned => True
  | _ => False
  end.

(** The target's pod was deleted only when it was safe to, and then nothing
    was or is committed. *)
Definition deletion_ok (trace : list membership_turn) (op : DurableOperationStatus) : Prop :=
  ∀ tn name uid, tn ∈ trace → mt_decision tn = DeletePod name uid →
    name = pod ∧ uid = inst ∧ mt_pods tn !! id = Some inst ∧ seen (uncommitted_shown p id inst) trace ∧
    op_committed_snapshot op = None ∧ ¬ add_active (op_phase op).

Record adding (trace : list membership_turn) (op : DurableOperationStatus) : Prop := mkAdding {
  ad_started : ∃ uid, started_as uid p id inst pod mode op;
  ad_target : op_target_snapshot op = T;
  ad_intent : ∀ i, op_add_intent op = Some i → frozen_in trace op i;
  ad_commit : ∀ s, op_committed_snapshot op = Some s → s = T ∧ seen (shown_committed p T) trace;
  ad_phase : phase_commit trace op;
  ad_deleted : deletion_ok trace op;
}.

Lemma phase_commit_later trace trace' op : trace ⊆ trace' → phase_commit trace op → phase_commit trace' op.
Proof.
  intros Hsub. unfold phase_commit. destruct (op_phase op); try done.
  - intros [? Hl]. split; [done|by eapply seen_later].
  - intros [? Hl]. split; [done|by eapply seen_later].
  - intros (? & Hu & Hg). split; [done|]. split; by eapply seen_later.
  - intros [?|(? & Hu & Hg)]; [by left|right]. split; [done|]. split; by eapply seen_later.
Qed.

(** What a checkpoint keeps of its request. *)
Record same_request (op op' : DurableOperationStatus) : Prop := mkSameRequest {
  sm_target : op_target_snapshot op' = op_target_snapshot op;
  sm_retired : op_retired_instance_id op' = op_retired_instance_id op;
  sm_previous : op_previous_snapshot op' = op_previous_snapshot op;
  sm_version : op_version op' = op_version op;
  sm_kind : op_kind op' = op_kind op;
  sm_operation_id : op_operation_id op' = op_operation_id op;
  sm_old_primary : op_old_primary_id op' = op_old_primary_id op;
  sm_mode : op_add_mode op' = op_add_mode op;
  sm_target_id : op_target_replica_id op' = op_target_replica_id op;
  sm_target_instance : op_target_instance_id op' = op_target_instance_id op;
  sm_target_pod : op_target_pod_name op' = op_target_pod_name op;
  sm_minimum : op_minimum_committed_replicas op' = op_minimum_committed_replicas op;
}.

Lemma same_request_started uid op op' :
  same_request op op' → started_as uid p id inst pod mode op → started_as uid p id inst pod mode op'.
Proof.
  intros [Ht Hr Hp Hv Hk Ho Hold Hm Hti Htn Htp Hmin] []. split; rewrite ?Ht, ?Hr, ?Hp, ?Hv, ?Hk, ?Ho, ?Hold, ?Hm, ?Hti, ?Htn, ?Htp, ?Hmin; done.
Qed.

Lemma same_request_observes op op' obs now core :
  same_request op op' → observes op p id inst mode obs now core → observes op' p id inst mode obs now core.
Proof. intros [Ht Hr _ _ _ Ho _ _ _ _ _ Hmin] []. split; rewrite ?Ht, ?Hr, ?Ho, ?Hmin; done. Qed.

Lemma frozen_in_later trace trace' op op' i :
  same_request op op' → trace ⊆ trace' → frozen_in trace op i → frozen_in trace' op' i.
Proof.
  intros Hsame Hsub (tn & core & attempt & phase & Hin & Hph & Hob & ->). exists tn, core, attempt, phase.
  split; [by apply Hsub|]. split; [done|]. split; [by eapply same_request_observes|done].
Qed.

(** A checkpoint that keeps its request and either keeps its commit or
    records the one it has just seen. *)
Lemma adding_next news trace op op' :
  adding trace op → same_request op op' →
  (∀ i, op_add_intent op' = Some i → frozen_in (news ++ trace) op' i) →
  (op_committed_snapshot op' = op_committed_snapshot op ∨
   op_committed_snapshot op' = Some T ∧ seen (shown_committed p T) (news ++ trace) ∧ add_active (op_phase op)) →
  (add_active (op_phase op') → add_active (op_phase op)) →
  (∀ tn name uid, tn ∈ news → mt_decision tn = DeletePod name uid →
     name = pod ∧ uid = inst ∧ mt_pods tn !! id = Some inst ∧ seen (uncommitted_shown p id inst) (news ++ trace) ∧
     op_committed_snapshot op' = None ∧ ¬ add_active (op_phase op')) →
  phase_commit (news ++ trace) op' → adding (news ++ trace) op'.
Proof.
  intros [(uid & Hs) HT Hi Hc _ Hdel] Hsame Hi' Hc' Hact Hnew Hph.
  assert (trace ⊆ news ++ trace) as Hsub by set_solver. split.
  - exists uid. by eapply same_request_started.
  - by rewrite (sm_target _ _ Hsame).
  - done.
  - intros s Hs'. destruct Hc' as [Hc'|(Hc' & Hseen & _)].
    + rewrite Hc' in Hs'. destruct (Hc s Hs') as [-> Hsn]. split; [done|]. by eapply seen_later.
    + rewrite Hc' in Hs'. injection Hs' as <-. done.
  - done.
  - intros tn name u Hin Hd. apply elem_of_app in Hin as [Hin|Hin]; [by eapply Hnew|].
    destruct (Hdel tn name u Hin Hd) as (? & ? & ? & Hseen & Hnone & Hna). split_and!; try done.
    + by eapply seen_later.
    + destruct Hc' as [->|(_ & _ & Ha)]; done.
    + tauto.
Qed.

Lemma adding_phase trace op : adding trace op → add_phase (op_phase op).
Proof.
  intros Had. pose proof (ad_phase _ _ Had) as Hph. unfold phase_commit, add_phase, add_active in *.
  destruct (op_phase op); try done; tauto.
Qed.

Lemma adding_held trace op : adding trace op → ∀ i, op_add_intent op = Some i → ∃ obs0 now0 core attempt phase,
  observes op p id inst mode obs0 now0 core ∧ i = (frozen_intent attempt core) <| ais_last_observed_phase := phase |>.
Proof.
  intros Had i (tn & core & attempt & phase & _ & _ & Hob & ->)%(ad_intent _ _ Had). by eexists _, _, core, attempt, phase.
Qed.

Lemma adding_outcome trace op obs pods label now :
  adding trace op → add_outcome p id inst pod mode op obs pods label now (decide_add_replica op obs pods label now).
Proof.
  intros Had. destruct (ad_started _ _ Had) as [uid Hs]. eapply decide_add_outcome; [exact Hs|by eapply adding_held|by eapply adding_phase].
Qed.

Lemma adding_poison trace op m : adding trace op → adding trace (poison op m).
Proof.
  intros Had. apply (adding_next [] trace op); try done.
  - intros i Hi. apply (frozen_in_later trace trace op); [done|done|]. by apply (ad_intent _ _ Had).
  - by left.
  - unfold add_active. cbn. naive_solver.
  - intros tn name u Hin. by apply elem_of_nil in Hin.
Qed.

Lemma adding_bookkeeping trace op op' : adding trace op → bookkeeping op op' → adding trace op'.
Proof.
  intros Had (err & pending & -> & _). apply (adding_next [] trace op); try done.
  - intros i Hi. apply (frozen_in_later trace trace op); [done|done|]. by apply (ad_intent _ _ Had).
  - by left.
  - intros tn name u Hin. by apply elem_of_nil in Hin.
  - exact (ad_phase _ _ Had).
Qed.

(** A decision keeps the invariant. *)
Lemma adding_decide trace op obs pods label now d :
  adding trace op → add_outcome p id inst pod mode op obs pods label now (Ok d) →
  adding (mkMembershipTurn op obs pods label now d :: trace) (after_decision op d).
Proof.
  intros Had Hout. pose proof (ad_phase _ _ Had) as Hphase. pose proof (ad_target _ _ Had) as HT.
  set (tn := mkMembershipTurn op obs pods label now d).
  assert (∀ op', op_add_intent op' = op_add_intent op → same_request op op' →
    ∀ i, op_add_intent op' = Some i → frozen_in ([tn] ++ trace) op' i) as Hkeep.
  { intros op' He Hsame i Hi. apply (frozen_in_later trace _ op); [done|set_solver|]. apply (ad_intent _ _ Had). congruence. }
  assert (∀ op', (∀ name u, d ≠ DeletePod name u) → ∀ tn0 name u, tn0 ∈ [tn] → mt_decision tn0 = DeletePod name u →
    name = pod ∧ u = inst ∧ mt_pods tn0 !! id = Some inst ∧ seen (uncommitted_shown p id inst) ([tn] ++ trace) ∧
    op_committed_snapshot op' = None ∧ ¬ add_active (op_phase op')) as Hnodel.
  { intros op' Hd tn0 name u ->%list_elem_of_singleton Heq. by destruct (Hd name u). }
  assert (∀ P, seen P trace → seen P ([tn] ++ trace)) as Hlater by (intros P; apply seen_later; set_solver).
  change (mkMembershipTurn op obs pods label now d :: trace) with ([tn] ++ trace).
  assert (phase_commit ([tn] ++ trace) op) as Hsame.
  { eapply phase_commit_later; [|exact Hphase]. set_solver. }
  inversion Hout; clear Hout; subst d; cbn [after_decision];
    try match goal with X : op_phase op = _ |- _ => rename X into Hp end;
    try match goal with X : observes _ _ _ _ _ _ _ _ |- _ => rename X into Hob end;
    try (apply (adding_next [tn] trace op op); [done|done|by apply Hkeep|by left|done|by apply Hnodel|done]).
  - (* poison *)
    apply (adding_next [tn] trace op); [done|done|by apply Hkeep|by left|unfold add_active; cbn; naive_solver|by apply Hnodel|done].
  - (* the handoff of a committed, degraded target *)
    apply (adding_next [tn] trace op); [done|done|by apply Hkeep|by left|unfold add_active; cbn; naive_solver|by apply Hnodel|].
    unfold phase_commit in *. cbn. rewrite Hp in Hphase. left. tauto.
  - (* the pod is gone *)
    apply (adding_next [tn] trace op); [done|done|by apply Hkeep|by left|unfold add_active; cbn; naive_solver|by apply Hnodel|].
    unfold phase_commit in *. cbn. rewrite Hp in Hphase. destruct Hphase as [? ?]. split; [done|]. split; [by apply Hlater|].
    by apply seen_here.
  - (* the pod is deleted *)
    apply (adding_next [tn] trace op op); [done|done|by apply Hkeep|by left|done| |done].
    intros tn0 name u ->%list_elem_of_singleton [= <- <-]. unfold phase_commit in Hphase. rewrite Hp in Hphase.
    destruct Hphase as [? ?]. split_and!; try done; [by apply Hlater|]. unfold add_active. rewrite Hp. naive_solver.
  - (* restored *)
    apply (adding_next [tn] trace op); [done|done|by apply Hkeep|by left|unfold add_active; cbn; naive_solver|by apply Hnodel|].
    unfold phase_commit in *. cbn. rewrite Hp in Hphase. right. destruct Hphase as (? & ? & ?). auto.
  - (* the commit *)
    apply (adding_next [tn] trace op); [done|done|by apply Hkeep| |done|by apply Hnodel|done]. right.
    split; [by cbn; rewrite HT|]. split; [|done]. apply seen_here. exists o. by rewrite <-HT.
  - (* degraded *)
    apply (adding_next [tn] trace op); [done|done|by apply Hkeep|by left|unfold add_active; cbn; naive_solver|by apply Hnodel|].
    unfold phase_commit in *. cbn. split; [|by apply seen_here].
    match goal with X : _ ∨ _ ∨ _ |- _ => destruct X as [?|[Hp|Hp]] end; [done|by rewrite Hp in Hphase..].
  - (* lost before a commit *)
    apply (adding_next [tn] trace op); [done|done|by apply Hkeep|by left|unfold add_active; cbn; naive_solver|by apply Hnodel|].
    unfold phase_commit. cbn. split; [done|]. apply seen_here. by right.
  - (* frozen *)
    apply (adding_next [tn] trace op); [done|done| |by left|unfold add_active; rewrite Hp; tauto|by apply Hnodel|].
    + intros i [= <-]. exists tn, core, attempt, None. split; [left|]. split; [done|]. split; [|done].
      by eapply same_request_observes; [|exact Hob].
    + unfold phase_commit in *. cbn. by rewrite Hp in Hphase.
  - (* dispatched *)
    apply (adding_next [tn] trace op); [done|done|by apply Hkeep|by left|unfold add_active; rewrite Hp; tauto|by apply Hnodel|].
    unfold phase_commit in *. cbn. by rewrite Hp in Hphase.
  - (* frozen anew *)
    apply (adding_next [tn] trace op); [done|done|by apply Hkeep|by left|unfold add_active; rewrite Hp; tauto|by apply Hnodel|].
    unfold phase_commit in *. cbn. by rewrite Hp in Hphase.
  - (* the coordinator's phase *)
    apply (adding_next [tn] trace op); [done|done| |by left|done|by apply Hnodel|].
    + intros i' [= <-]. destruct (ad_intent _ _ Had i) as (tn0 & core & attempt & ph & Hin & Hph & Hob & ->); [done|].
      exists tn0, core, attempt, phase. split; [by right|]. split; [done|]. split; [|done].
      by eapply same_request_observes; [|exact Hob].
    + unfold phase_commit in *. cbn. by rewrite Hp in Hphase |- *.
  - (* compensated *)
    apply (adding_next [tn] trace op); [done|done|by apply Hkeep|by left|unfold add_active; cbn; naive_solver|by apply Hnodel|].
    unfold phase_commit in *. cbn. rewrite Hp in Hphase. split; [done|]. apply seen_here. by left.
  - (* to be published *)
    apply (adding_next [tn] trace op); [done|done|by apply Hkeep|by left|unfold add_active; rewrite Hp; tauto|by apply Hnodel|].
    unfold phase_commit in *. cbn. by rewrite Hp in Hphase.
  - (* to be finalized *)
    apply (adding_next [tn] trace op); [done|done|by apply Hkeep|by left|unfold add_active; rewrite Hp; tauto|by apply Hnodel|].
    unfold phase_commit in *. cbn. by rewrite Hp in Hphase.
  - (* completed *)
    apply (adding_next [tn] trace op); [done|done|by apply Hkeep|by left|unfold add_active; cbn; naive_solver|by apply Hnodel|].
    unfold phase_commit in *. cbn. by rewrite Hp in Hphase.
Qed.

(** So does a decision whose write is lost. *)
Lemma adding_lost trace op obs pods label now d :
  adding trace op → add_outcome p id inst pod mode op obs pods label now (Ok d) →
  adding (mkMembershipTurn op obs pods label now d :: trace) op.
Proof.
  intros Had Hout. destruct (after_decision_or_delete op d) as [[Hd Hsame]|Hd].
  - rewrite <-Hsame at 2. by apply adding_decide.
  - apply (adding_next [_] trace op); try done.
    + intros i Hi. apply (frozen_in_later trace _ op); [done|set_solver|]. by apply (ad_intent _ _ Had).
    + by left.
    + intros tn name u ->%list_elem_of_singleton Heq. by destruct (Hd name u).
    + eapply phase_commit_later; [|exact (ad_phase _ _ Had)]. set_solver.
Qed.

Lemma add_run_adding trace op : add_run T trace op → adding trace op.
Proof.
  induction 1 as [uid minimum now op Hst HT|trace op obs pods label now d _ IH Hd|trace op obs pods label now d _ IH Hd
    |trace op op' _ IH Hb|trace op m _ IH].
  - apply start_add_replica_Ok in Hst as (Hs & Hph & _ & Hc & Hi). split.
    + by exists uid.
    + done.
    + intros i. by rewrite Hi.
    + intros s. by rewrite Hc.
    + unfold phase_commit. by rewrite Hph.
    + intros tn name u Hin. by apply elem_of_nil in Hin.
  - apply adding_decide; [done|]. rewrite <-Hd. by eapply adding_outcome.
  - apply adding_lost; [done|]. rewrite <-Hd. by eapply adding_outcome.
  - by eapply adding_bookkeeping.
  - by apply adding_poison.
Qed.

(** A run, executed: one turn after the other. *)
Fixpoint add_play (turns : list (OperationObservations * gmap Z string * option string * Z)) (trace : list membership_turn)
    (op : DurableOperationStatus) : result failure (list membership_turn * DurableOperationStatus) :=
  match turns with
  | [] => Ok (trace, op)
  | (obs, pods, label, now) :: turns =>
      d ← decide_add_replica op obs pods label now;
      add_play turns (mkMembershipTurn op obs pods label now d :: trace) (after_decision op d)
  end.

Lemma add_play_run turns trace op trace' op' :
  add_run T trace op → add_play turns trace op = Ok (trace', op') → add_run T trace' op'.
Proof.
  revert trace op. induction turns as [|[[[obs pods] label] now] turns IH]; intros trace op Hrun; cbn [add_play]; [by intros [= <- <-]|].
  rewrite bind_Ok. intros (d & Hd & Hp). eapply IH; [|exact Hp]. by apply add_run_decide.
Qed.
End runs.
