(* ===== verification/AddSafety.v ===== *)
(** What additions guarantee: the pod of the target is deleted only where
    nothing was committed, an addition completes only as attested, and the
    intent the operator sends is the one it observed. *)

From S2P Require Import Prelude Types Lifecycle AddReplica Control Replicator Agent Convert Wire Crd Operation Switchover SwitchoverSteps Effects AddWorkflow AddSteps Turns AddRuns.

Set Default Goal Selector "!".

Section safety.
  Context {Ends : Endpoints}.
  Context (p : StablePartitionSnapshotStatus) (id : Z) (inst pod : string) (mode : DurableAddMode)
    (T : StablePartitionSnapshotStatus).

(** A turn of a run was decided on a checkpoint of the run. *)
Lemma run_turn trace op tn :
  add_run p id inst pod mode T trace op → tn ∈ trace →
  ∃ before, before ⊆ trace ∧ add_run p id inst pod mode T before (mt_operation tn) ∧
    decide_add_replica (mt_operation tn) (mt_observations tn) (mt_pods tn) (mt_label tn) (mt_now tn) = Ok (mt_decision tn).
Proof.
  induction 1 as [uid minimum now op Hst HT|trace op obs pods label now d Hrun IH Hd|trace op obs pods label now d Hrun IH Hd
    |trace op op' _ IH _|trace op m _ IH].
  - by intros ?%elem_of_nil.
  - intros [->|Hin]%elem_of_cons.
    + exists trace. split; [set_solver|]. split; done.
    + destruct (IH Hin) as (before & Hsub & Hrest). exists before. split; [set_solver|done].
  - intros [->|Hin]%elem_of_cons.
    + exists trace. split; [set_solver|]. split; done.
    + destruct (IH Hin) as (before & Hsub & Hrest). exists before. split; [set_solver|done].
  - exact IH.
  - exact IH.
Qed.

Lemma turn_outcome trace op tn :
  add_run p id inst pod mode T trace op → tn ∈ trace →
  ∃ before, before ⊆ trace ∧ adding p id inst pod mode T before (mt_operation tn) ∧
    add_outcome p id inst pod mode (mt_operation tn) (mt_observations tn) (mt_pods tn) (mt_label tn) (mt_now tn)
      (Ok (mt_decision tn)).
Proof.
  intros Hrun Hin. destruct (run_turn _ _ _ Hrun Hin) as (before & Hsub & Hbefore & Hd). exists before.
  apply add_run_adding in Hbefore. split; [done|]. split; [done|]. rewrite <-Hd. by eapply adding_outcome.
Qed.

(** C31. An addition deletes a pod only where nothing was or will be
    committed: the pod is the target's, by name and incarnation, and the run
    has seen that the primary's agent reported the frozen action compensated, or the
    primary's pod was gone and the target was seen never to have been
    activated. A commit is recorded only as the requested topology, which the
    primary was seen to show as its current configuration; after it, and in
    the whole run before it, no pod is deleted. *)
Theorem addition_never_undone trace op :
  add_run p id inst pod mode T trace op →
  (∀ tn name uid, tn ∈ trace → mt_decision tn = DeletePod name uid →
     name = pod ∧ uid = inst ∧ mt_pods tn !! id = Some inst ∧ seen (uncommitted_shown p id inst) trace ∧
     op_committed_snapshot op = None) ∧
  (∀ s, op_committed_snapshot op = Some s →
     s = T ∧ seen (shown_committed p T) trace ∧ ∀ tn name uid, tn ∈ trace → mt_decision tn ≠ DeletePod name uid).
Proof.
  intros Hrun. pose proof (add_run_adding _ _ _ _ _ _ _ _ Hrun) as Had. split.
  - intros tn name uid Hin Hd. destruct (ad_deleted _ _ _ _ _ _ _ _ Had tn name uid Hin Hd) as (? & ? & ? & ? & ? & _). done.
  - intros s Hs. destruct (ad_commit _ _ _ _ _ _ _ _ Had s Hs) as [-> Hseen]. split; [done|]. split; [done|].
    intros tn name uid Hin Hd. destruct (ad_deleted _ _ _ _ _ _ _ _ Had tn name uid Hin Hd) as (_ & _ & _ & _ & Hnone & _).
    congruence.
Qed.

(** C32. What a completed addition has shown. As done: the snapshot is the
    requested one, the target carries the secondary's label, and in that very
    turn every member answered healthy, as its own incarnation, in its role
    and at the epoch, and the primary with that configuration current, the
    target's connection and its completed build under the frozen intent. As
    undone: the snapshot is the previous one, nothing was committed and the
    target's pod is gone. Degraded: the commit was seen, and the target seen
    unlabelled. *)
Theorem addition_completion_attested trace op tn :
  add_run p id inst pod mode T trace op → tn ∈ trace →
  (∀ final s, mt_decision tn = Complete final s false →
     s = T ∧ mt_label tn = Some "secondary" ∧ seen (shown_committed p T) trace ∧
     ∃ core, core_add_intent (mt_operation tn) = Ok core ∧ attested_topology T id inst core (mt_observations tn)) ∧
  (∀ final s, mt_decision tn = Complete final s true →
     s = p ∧ op_committed_snapshot (mt_operation tn) = None ∧
     seen (uncommitted_shown p id inst) trace ∧ seen (target_gone id inst) trace) ∧
  (∀ final s, mt_decision tn = CompleteDegraded final s →
     s = T ∧ seen (shown_committed p T) trace ∧ seen (λ tn, mt_label tn ≠ Some "secondary") trace).
Proof.
  intros Hrun Hin. destruct (turn_outcome _ _ _ Hrun Hin) as (before & Hsub & Had & Hout).
  pose proof (ad_phase _ _ _ _ _ _ _ _ Had) as Hph. unfold phase_commit in Hph.
  pose proof (ad_target _ _ _ _ _ _ _ _ Had) as HT.
  assert (op_committed_snapshot (mt_operation tn) ≠ None → seen (shown_committed p T) trace) as Hseen.
  { intros Hne. destruct (op_committed_snapshot (mt_operation tn)) as [s|] eqn:Hc; [|done].
    eapply seen_later; [exact Hsub|]. by apply (ad_commit _ _ _ _ _ _ _ _ Had s). }
  split; [|split]; intros final s Hd; rewrite Hd in Hout; inversion Hout; subst.
  - split; [done|]. split; [done|]. split; [|by exists core]. apply Hseen.
    match goal with X : op_phase _ = _ |- _ => by rewrite X in Hph end.
  - match goal with X : op_phase _ = _ |- _ => rewrite X in Hph end. destruct Hph as (? & ? & ?).
    split; [done|]. split; [done|]. split; by eapply seen_later.
  - match goal with X : op_phase _ = _ |- _ => rewrite X in Hph end. destruct Hph as (? & ?).
    split; [|split; [by apply Hseen|by eapply seen_later]]. by eapply ad_commit.
Qed.

(** A checkpoint that has just frozen an intent passes the checks of the next
    decision, which reads that intent back. *)
Lemma fresh_intent_accepted uid op obs now core attempt :
  started_as uid p id inst pod mode op → observes op p id inst mode obs now core →
  op_add_intent op = Some (frozen_intent attempt core) → op_pending_action op = None →
  addressed_observations obs → (∀ i o, obs !! i = Some o → generation_ok (as_generation (si_agent (ro_status o)))) →
  Z.of_nat (length (ss_members p)) ≤ u32_max → Z.of_nat (length (ss_members (op_target_snapshot op))) ≤ u32_max →
  0 < now + ADD_DEADLINE_SECONDS → now + ADD_DEADLINE_SECONDS + COMPENSATION_GRACE_SECONDS ≤ i64_max →
  core_add_intent op = Ok core ∧ validate_add_operation op = Ok tt.
Proof.
  intros Hs Hob Hi Hpend Ha Hg Hlp Hlt Hn0 Hn1.
  assert (core_add_intent op = Ok core) as Hcore.
  { apply (core_add_intent_frozen uid p id inst pod mode op obs now core attempt None core Hs Hob Hi).
    destruct (ob_primary _ _ _ _ _ _ _ _ Hob) as (o & _ & Ho & _ & _ & _ & _ & _ & _ & _ & Hpg & _).
    destruct (ob_target _ _ _ _ _ _ _ _ Hob) as (o' & Ho' & _ & _ & _ & Htg & _).
    split; [done|]. split; [rewrite Hpg; by eapply Hg|]. split; [rewrite Htg; by eapply Hg|].
    by eapply observed_accepted. }
  split; [done|]. destruct (sa_request _ _ _ _ _ _ _ Hs) as [Hvp Hvt _ _ _ _ _ _ _].
  unfold validate_add_operation. rewrite (sa_version _ _ _ _ _ _ _ Hs), (sa_kind _ _ _ _ _ _ _ Hs), (sa_previous _ _ _ _ _ _ _ Hs), Hi, Hpend, Hcore.
  cbn [expect_previous ok_or mbind result_bind negb fail_if reject_if Z.eqb Pos.eqb ADD_REPLICA_OPERATION_VERSION].
  rewrite (bool_decide_eq_true_2 (OpAddReplica = _)) by done. cbn [negb fail_if reject_if mbind result_bind].
  rewrite (proj2 (validate_add_snapshot_Ok _) Hvp), (proj2 (validate_add_snapshot_Ok _) Hvt).
  cbn [mbind result_bind frozen_intent ais_action_id ais_attempt_id]. by rewrite (bool_decide_eq_true_2 (_ = _)).
Qed.

(** The request a turn sends, and what it was frozen from. *)
Definition sends_frozen (trace : list membership_turn) (tn : membership_turn) (target : Z) (action_id : string)
    (action : DurableReplicaAction) : Prop :=
  ∃ core tn0, tn0 ∈ trace ∧ op_phase (mt_operation tn0) = Phase.AddFreezeIntent ∧
    observes (mt_operation tn) p id inst mode (mt_observations tn0) (mt_now tn0) core ∧
    validate_add_intent core = Ok tt ∧ action = ActAddReplicaIntent core ∧
    target = ss_primary_id p ∧ action_id = ai_attempt_id core +:+ ":AddReplicaIntent" ∧
    mt_now tn < ai_deadline_unix_seconds core ∧
    (∃ o, mt_observations tn !! ss_primary_id p = Some o ∧
       as_generation (si_agent (ro_status o)) = ai_primary_agent_generation core) ∧
    (∀ o, mt_observations tn !! id = Some o →
       as_generation (si_agent (ro_status o)) = ai_target_agent_generation core).

(** C33. The checkpoint form of an intent is equivalent to the intent: the
    one the operator rebuilds and sends is, field by field, the one it built
    from its observations when it froze it, it goes to the primary while both
    agents are the processes observed then and before the deadline, and it is
    a valid one. Conversely an intent frozen from observations with addresses
    and generations is rebuilt from the checkpoint as itself, so that the
    next decision is not refused. Deciding never panics. *)
Theorem frozen_intent_equivalent trace op obs pods label now :
  add_run p id inst pod mode T trace op →
  (∀ tn target action_id action, tn ∈ trace → mt_decision tn = Execute target action_id action →
     sends_frozen trace tn target action_id action) ∧
  panics (decide_add_replica op obs pods label now) = false ∧
  ∀ next, decide_add_replica op obs pods label now = Ok (Persist next) → op_phase next = Phase.AddDispatchIntent →
    addressed_observations obs → (∀ i o, obs !! i = Some o → generation_ok (as_generation (si_agent (ro_status o)))) →
    Z.of_nat (length (ss_members p)) ≤ u32_max → Z.of_nat (length (ss_members T)) ≤ u32_max →
    0 < now + ADD_DEADLINE_SECONDS → now + ADD_DEADLINE_SECONDS + COMPENSATION_GRACE_SECONDS ≤ i64_max →
    ∃ core, observes op p id inst mode obs now core ∧ core_add_intent next = Ok core ∧
      validate_add_operation next = Ok tt.
Proof.
  intros Hrun. pose proof (add_run_adding _ _ _ _ _ _ _ _ Hrun) as Had. split; [|split].
  - intros tn target action_id action Hin Hd. destruct (turn_outcome _ _ _ Hrun Hin) as (before & Hsub & Had' & Hout).
    rewrite Hd in Hout. inversion Hout; subst. destruct (ad_started _ _ _ _ _ _ _ _ Had') as [uid Hs].
    destruct (op_add_intent (mt_operation tn)) as [i|] eqn:Hi; [|by match goal with X : core_add_intent _ = Ok _ |- _ =>
      unfold core_add_intent in X; rewrite Hi in X end].
    destruct (ad_intent _ _ _ _ _ _ _ _ Had' i Hi) as (tn0 & core' & attempt & phase & Hin0 & Hph0 & Hob & ->).
    match goal with X : core_add_intent _ = Ok _ |- _ =>
      apply (core_add_intent_frozen uid p id inst pod mode _ _ _ core' attempt phase core Hs Hob Hi) in X as (-> & _ & _ & Hv) end.
    exists core', tn0. split_and!; try done; [by apply Hsub|]. by eexists.
  - pose proof (adding_outcome _ _ _ _ _ _ _ _ obs pods label now Had) as Hout. by inversion Hout.
  - intros next Hd Hph Ha Hg Hlp Hlt Hn0 Hn1. pose proof (adding_outcome _ _ _ _ _ _ _ _ obs pods label now Had) as Hout.
    rewrite Hd in Hout. destruct (ad_started _ _ _ _ _ _ _ _ Had) as [uid Hs].
    pose proof (ad_target _ _ _ _ _ _ _ _ Had) as HT.
    inversion Hout; subst next; try (by cbn in Hph); [|by cbn in Hph; congruence].
    set (next := op <| op_add_intent := _ |> <| op_phase := _ |> <| op_phase_deadline_unix_seconds := _ |> <| op_pending_action := _ |>).
    assert (same_request op next) as Hsame by done. exists core. split; [done|].
    match goal with X : observes op _ _ _ _ obs now core |- _ => rename X into Hob end.
    apply (fresh_intent_accepted uid next obs now core attempt); try done.
    + by eapply same_request_started.
    + by eapply same_request_observes.
    + by rewrite (sm_target _ _ Hsame), HT.
Qed.
End safety.
