(* ===== verification/AddDemo.v ===== *)
(** Two additions of a third replica, played: one that commits and completes,
    one that the primary's agent compensates. The theorems about additions
    are applied to them. *)

From S2P Require Import Prelude Types Lifecycle AddReplica Control Replicator Agent RemoveReplica Proto Convert Wire Crd Operation Effects AddWorkflow AddSteps Turns AddRuns AddSafety.

Set Default Goal Selector "!".

Module DemoAddition.
#[local] Existing Instance DemoRemove.ends.

Definition stable : StablePartitionSnapshotStatus := mkStablePartitionSnapshotStatus (mkEpochStatus 1 5) 1
  [mkStableReplicaSnapshotStatus 1 "u1" StablePrimary None; mkStableReplicaSnapshotStatus 2 "u2" StableActiveSecondary None] 2.
Definition grown : StablePartitionSnapshotStatus := mkStablePartitionSnapshotStatus (mkEpochStatus 1 5) 1
  [mkStableReplicaSnapshotStatus 1 "u1" StablePrimary None; mkStableReplicaSnapshotStatus 2 "u2" StableActiveSecondary None;
   mkStableReplicaSnapshotStatus 3 "u3" StableActiveSecondary None] 2.
Definition begun : result failure DurableOperationStatus :=
  start_add_replica "set" stable 3 "u3" "set-3" AmScaleUp 1 100.

Definition process : string := "0123456789abcdef0123456789abcdef".
Definition agent (done : list CorrelatedActionObservation) : ReplicaAgentStatus :=
  mkReplicaAgentStatus 3 REPLICA_LIFECYCLE_PEER_PROTOCOL_VERSION process 1 None done [].
Definition replica (inst : string) (role : Role) (configuration : option ReplicaConfigurationStatus)
    (connections : list ReplicaConnectionStatus) (build : option RuntimeBuildObservation)
    (done : list CorrelatedActionObservation) (label : option string) : ReplicaObservation :=
  mkReplicaObservation
    (mkReplicaStatusInfo inst role (mkEpoch 1 5) 7 None 7 true Granted configuration None None connections build (agent done))
    "http://control" "http://data" "pod" label.

Definition secondary2 : ReplicaObservation := replica "u2" ActiveSecondary None [] None [] (Some "secondary").
Definition observed (primary : ReplicaObservation) (target : ReplicaObservation) : OperationObservations :=
  <[1 := primary]> (<[2 := secondary2]> (<[3 := target]> ∅)).
Definition pods : gmap Z string := <[1 := "u1"]> (<[2 := "u2"]> (<[3 := "u3"]> ∅)).
Definition quiet : OperationObservations :=
  observed (replica "u1" Primary None [] None [] (Some "primary")) (replica "u3" IdleSecondary None [] None [] None).

Definition ready : list (OperationObservations * gmap Z string * option string * Z) :=
  [(quiet, pods, None, 101); (quiet, pods, None, 102)].
Definition played (turns : list (OperationObservations * gmap Z string * option string * Z)) :
    result failure (list membership_turn * DurableOperationStatus) :=
  op ← begun; add_play turns [] op.
Definition core : result failure AddReplicaIntent := r ← played ready; core_add_intent r.2.
Definition signature : string := match core with Ok c => add_signature c | Err _ => "" end.
Definition build_key : string := match core with Ok c => semantic_build_key c | Err _ => "" end.

(** The primary's agent has compensated the action. *)
Definition reported : CorrelatedActionObservation := mkCorrelatedActionObservation process 1
  (mkDurableActionObservation "set:add-replica:v3:1-5:3@u3:attempt-1:AddReplicaIntent" signature Completed None None
     (Some (ResAddReplica AddCompensated)) None None).
Definition compensated : OperationObservations :=
  observed (replica "u1" Primary None [] None [reported] (Some "primary")) (replica "u3" IdleSecondary None [] None [] None).
Definition undone : list (OperationObservations * gmap Z string * option string * Z) :=
  ready ++ [(quiet, pods, None, 103); (compensated, pods, None, 104); (compensated, pods, None, 105);
            (compensated, delete 3 pods, None, 106); (compensated, delete 3 pods, None, 107)].

(** The primary shows the new configuration, the target's connection and its
    build. *)
Definition built : RuntimeBuildObservation :=
  mkRuntimeBuildObservation "build" build_key 3 "u3" process BuildCompleted (Some 7) None.
Definition current : OperationObservations :=
  observed (replica "u1" Primary (Some (current_configuration grown)) [mkReplicaConnectionStatus 3 "u3"] (Some built) [] (Some "primary"))
    (replica "u3" ActiveSecondary None [] None [] (Some "secondary")).
Definition done : list (OperationObservations * gmap Z string * option string * Z) :=
  ready ++ [(quiet, pods, None, 103); (current, pods, None, 104); (current, pods, None, 105);
            (current, pods, Some "secondary", 106); (current, pods, Some "secondary", 107)].

Definition trace_of (turns : list (OperationObservations * gmap Z string * option string * Z)) : list membership_turn :=
  match played turns with Ok r => r.1 | Err _ => [] end.
Definition begun_operation : DurableOperationStatus :=
  match begun with Ok op => op | Err _ => mkDurableOperationStatus "" "" 0 OpAddReplica
    Phase.Poisoned None stable None None 0 0 None None None None None None None None None None 0 0 None None None None None None None None end.
Definition last_of (turns : list (OperationObservations * gmap Z string * option string * Z)) : DurableOperationStatus :=
  match played turns with Ok r => r.2 | Err _ => begun_operation end.

(** The turn a played run ends with. *)
Definition final_turn (turns : list (OperationObservations * gmap Z string * option string * Z)) : membership_turn :=
  match trace_of turns with tn :: _ => tn | [] => mkMembershipTurn begun_operation ∅ ∅ None 0 Wait end.
Definition turn_at (i : nat) (turns : list (OperationObservations * gmap Z string * option string * Z)) : membership_turn :=
  match trace_of turns !! i with Some tn => tn | None => mkMembershipTurn begun_operation ∅ ∅ None 0 Wait end.

Definition is_delete (d : Decision) : bool := match d with DeletePod "set-3" "u3" => true | _ => false end.
Definition completes (compensated : bool) (d : Decision) : bool :=
  match d with Complete _ _ c => Bool.eqb c compensated | _ => false end.
End DemoAddition.

Section played.
#[local] Existing Instance DemoRemove.ends.
Import DemoAddition.

Lemma addition_begun : start_add_replica "set" stable 3 "u3" "set-3" AmScaleUp 1 100 = Ok begun_operation.
Proof. vm_compute. reflexivity. Qed.

Lemma addition_run turns : is_ok (played turns) = true → add_run stable 3 "u3" "set-3" AmScaleUp grown (trace_of turns) (last_of turns).
Proof.
  unfold trace_of, last_of, played, begun. rewrite addition_begun. cbn [mbind result_bind].
  destruct (add_play turns [] begun_operation) as [[tr op]|] eqn:Hp; [|discriminate]. intros _.
  eapply add_play_run; [|exact Hp]. eapply add_run_start; [exact addition_begun|]. vm_compute. reflexivity.
Qed.

Lemma turn_at_in i turns : (i < length (trace_of turns))%nat → turn_at i turns ∈ trace_of turns.
Proof.
  intros Hi. unfold turn_at. destruct (lookup_lt_is_Some_2 _ _ Hi) as [tn Htn]. rewrite Htn. by eapply list_elem_of_lookup_2.
Qed.

Lemma undone_deletes : is_ok (played undone) && is_delete (mt_decision (turn_at 2 undone)) = true.
Proof. vm_compute. reflexivity. Qed.
Lemma undone_ends : is_ok (played undone) && completes true (mt_decision (turn_at 0 undone)) = true.
Proof. vm_compute. reflexivity. Qed.
Lemma done_ends : is_ok (played done) && completes false (mt_decision (turn_at 0 done)) = true.
Proof. vm_compute. reflexivity. Qed.

Lemma addition_never_undone_witness :
  ∃ tn, tn ∈ trace_of undone ∧ mt_decision tn = DeletePod "set-3" "u3" ∧ seen (uncommitted_shown stable 3 "u3") (trace_of undone).
Proof.
  pose proof undone_deletes as Hd. apply andb_true_iff in Hd as [Hok Hd].
  destruct (addition_never_undone stable 3 "u3" "set-3" AmScaleUp grown _ _ (addition_run undone Hok)) as [Hdel _].
  exists (turn_at 2 undone). assert (turn_at 2 undone ∈ trace_of undone) as Hin by (apply turn_at_in; vm_compute; lia).
  assert (mt_decision (turn_at 2 undone) = DeletePod "set-3" "u3") as He.
  { destruct (mt_decision (turn_at 2 undone)); try discriminate Hd. unfold is_delete in Hd. revert Hd. repeat case_match; by subst. }
  split; [exact Hin|]. split; [exact He|]. by apply (Hdel _ _ _ Hin He).
Defined.

Lemma completes_inv b d : completes b d = true → ∃ final s, d = Complete final s b.
Proof. destruct d; try discriminate. intros Hb%Bool.eqb_prop. subst. by eexists _, _. Qed.

Lemma addition_completion_attested_witness :
  (∃ core, attested_topology grown 3 "u3" core (mt_observations (turn_at 0 done))) ∧
  seen (target_gone 3 "u3") (trace_of undone).
Proof.
  pose proof done_ends as Hd. apply andb_true_iff in Hd as [Hok Hd]. apply completes_inv in Hd as (final & s & Hd).
  pose proof undone_ends as Hu. apply andb_true_iff in Hu as [Hok' Hu]. apply completes_inv in Hu as (final' & s' & Hu).
  assert (turn_at 0 done ∈ trace_of done) as Hin by (apply turn_at_in; vm_compute; lia).
  assert (turn_at 0 undone ∈ trace_of undone) as Hin' by (apply turn_at_in; vm_compute; lia).
  destruct (addition_completion_attested stable 3 "u3" "set-3" AmScaleUp grown _ _ _ (addition_run done Hok) Hin) as (H1 & _).
  destruct (addition_completion_attested stable 3 "u3" "set-3" AmScaleUp grown _ _ _ (addition_run undone Hok') Hin') as (_ & H2 & _).
  destruct (H1 _ _ Hd) as (_ & _ & _ & core & _ & Hatt). destruct (H2 _ _ Hu) as (_ & _ & _ & Hgone). split; [by exists core|done].
Defined.

Lemma quiet_addressed : addressed_observations quiet ∧
  ∀ i o, quiet !! i = Some o → generation_ok (as_generation (si_agent (ro_status o))).
Proof.
  assert (∀ i o, quiet !! i = Some o → ro_control_address o = "http://control" ∧ ro_replicator_address o = "http://data" ∧
    as_generation (si_agent (ro_status o)) = process) as Hall.
  { intros i o. unfold quiet, observed. rewrite !lookup_insert_Some, lookup_empty.
    intros [[_ <-]|[_ [[_ <-]|[_ [[_ <-]|[_ ?]]]]]]; done. }
  split; intros i o Ho; destruct (Hall i o Ho) as (H1 & H2 & H3); [by rewrite H1, H2|]. rewrite H3. vm_compute. reflexivity.
Qed.

Definition freezes (d : result failure Decision) : bool :=
  match d with Ok (Persist next) => bool_decide (op_phase next = Phase.AddDispatchIntent) | _ => false end.
Lemma begun_freezes : freezes (decide_add_replica begun_operation quiet pods None 101) = true.
Proof. vm_compute. reflexivity. Qed.

Lemma frozen_intent_equivalent_witness :
  ∃ next core, decide_add_replica begun_operation quiet pods None 101 = Ok (Persist next) ∧
    core_add_intent next = Ok core ∧ validate_add_operation next = Ok tt.
Proof.
  pose proof begun_freezes as Hf. unfold freezes in Hf.
  destruct (decide_add_replica begun_operation quiet pods None 101) as [[next| | | | | | | | | |]|] eqn:Hd; try discriminate Hf.
  apply bool_decide_eq_true in Hf.
  assert (add_run stable 3 "u3" "set-3" AmScaleUp grown [] begun_operation) as Hrun.
  { eapply add_run_start; [exact addition_begun|]. vm_compute. reflexivity. }
  destruct (frozen_intent_equivalent stable 3 "u3" "set-3" AmScaleUp grown [] begun_operation quiet pods None 101 Hrun) as (_ & _ & Hnext).
  destruct quiet_addressed as [Ha Hg].
  destruct (Hnext next Hd Hf Ha Hg) as (core & _ & Hcore & Hv); [vm_compute; first [reflexivity|discriminate]..|].
  by exists next, core.
Defined.
End played.
