(* ===== verification/RemoveWorkflow.v ===== *)
(** The operator's remove-replica workflow
    (kuberic-operator/src/durable/remove_replica.rs): it freezes the intent of
    a removal, hands it to the agent of the primary, tells from the primary's
    configuration whether the removal committed, and cleans up after it. *)

From S2P Require Import Prelude Types Lifecycle AddReplica RemoveReplica Control Replicator Agent Proto Convert Crd Operation AddWorkflow.

Set Default Goal Selector "!".

Definition REMOVE_REPLICA_OVERALL_TIMEOUT_SECONDS : Z := 600.

Record RemoveReplicaTarget := mkRemoveReplicaTarget {
  rt_replica_id : Z;
  rt_pod_name : string;
  rt_pod_uid : string;
  rt_replicator_address : string;
  rt_agent_generation : option AgentGeneration;
}.

Inductive ConfigurationObservation := PreviousCurrent | ReducedCatchUp | ReducedCurrent.
#[export] Instance ConfigurationObservation_eq_dec : EqDecision ConfigurationObservation.
Proof. solve_decision. Defined.

(** An error is kept as a value, a panic is not. *)
Definition caught {A} (r : result failure A) : result failure (result string A) :=
  match r with Ok a => Ok (Ok a) | Err (Error e) => Ok (Err e) | Err (Panic m) => Err (Panic m) end.

(** A kept error is returned. *)
Definition rethrow {A} (r : result string A) : result failure A := lift r.

(** ** Forms of the status *)

Definition coordinator_phase_status (phase : RemoveReplicaCoordinatorPhase) : RemoveReplicaCoordinatorPhaseStatus :=
  match phase with
  | Validating => RcValidating
  | InstallingCatchUpConfiguration => RcInstallingCatchUpConfiguration
  | WaitingForCatchUpQuorum => RcWaitingForCatchUpQuorum
  | InstallingCurrentConfiguration => RcInstallingCurrentConfiguration
  | RemovingConnection => RcRemovingConnection
  | RetiringTarget => RcRetiringTarget
  | Attesting => RcAttesting
  | Compensating => RcCompensating
  end.

Definition terminal_result_status (terminal : RemoveReplicaTerminalResult) : RemoveReplicaTerminalResultStatus :=
  match terminal with
  | CommittedClean => RtCommittedClean
  | CommittedDegraded => RtCommittedDegraded
  | Compensated => RtCompensated
  | CompensationIncomplete => RtCompensationIncomplete
  end.

Definition retirement_status (observation : TargetRetirementObservation) : TargetRetirementObservationStatus :=
  match observation with
  | NotAttempted => TrNotAttempted
  | RetInProgress => TrInProgress
  | RetCompleted => TrCompleted
  | RetUnavailable => TrUnavailable
  | RetStale => TrStale
  | RetFailed => TrFailed
  end.

(** ** Checks *)

Definition validate_remove_snapshot (snapshot : StablePartitionSnapshotStatus) : result failure unit :=
  fail_if (bool_decide (ss_members snapshot = [])) "stable snapshot has no members";;
  scanned ← try_fold (λ (scan : gset Z * gset string * Z) member,
      let '(ids, instances, primaries) := scan in
      fail_if ((srs_id member <=? 0) || bool_decide (srs_id member ∈ ids) ||
               empty (srs_instance_id member) || bool_decide (srs_instance_id member ∈ instances))
        "stable snapshot contains invalid or duplicate identity";;
      let primary := bool_decide (srs_role member = StablePrimary) in
      fail_if (primary && negb (srs_id member =? ss_primary_id snapshot))
        "stable snapshot primary role conflicts with primary ID";;
      Ok ({[srs_id member]} ∪ ids, {[srs_instance_id member]} ∪ instances,
          if primary then primaries + 1 else primaries))
    (∅, ∅, 0) (ss_members snapshot);
  fail_if (negb (scanned.2 =? 1) || negb (ss_write_quorum snapshot =? as_u32 (length (ss_members snapshot)) / 2 + 1))
    "stable snapshot primary or quorum is invalid".

Definition remove_mode (operation : DurableOperationStatus) : result failure RemoveReplicaMode :=
  match op_remove_mode operation with
  | Some RmScaleDown => Ok ScaleDown
  | Some RmForce => Ok Force
  | None => error "remove operation has no mode"
  end.

Definition remove_target_replica_id (operation : DurableOperationStatus) : result failure Z :=
  or_fail (op_target_replica_id operation) "remove operation has no target replica ID".
Definition remove_target_instance_id (operation : DurableOperationStatus) : result failure string :=
  or_fail (filled (op_target_instance_id operation)) "remove operation has no target incarnation".
Definition remove_target_pod_name (operation : DurableOperationStatus) : result failure string :=
  or_fail (filled (op_target_pod_name operation)) "remove operation has no target pod name".
Definition remove_target_pod_uid (operation : DurableOperationStatus) : result failure string :=
  or_fail (filled (op_target_pod_uid operation)) "remove operation has no target pod UID".

(** [target_instance_id(operation).unwrap_or_default()]. *)
Definition instance_or_default (operation : DurableOperationStatus) : string :=
  match remove_target_instance_id operation with Ok instance => instance | Err _ => "" end.

(** ** Starting *)

Definition start_remove_replica (set_uid : string) (previous : StablePartitionSnapshotStatus)
    (target_request : RemoveReplicaTarget) (mode : DurableRemoveMode) (min_replicas : nat) (now : Z) :
    result failure DurableOperationStatus :=
  validate_remove_snapshot previous;;
  fail_if (empty (rt_pod_name target_request) || empty (rt_pod_uid target_request) ||
           empty (rt_replicator_address target_request))
    "remove target pod name, UID, and historical replicator address must be non-empty";;
  fail_if (bool_decide (mode = RmScaleDown) && none (rt_agent_generation target_request))
    "ScaleDown target has no preadmitted agent generation";;
  fail_if (rt_replica_id target_request =? ss_primary_id previous) "cannot remove the primary";;
  target_member ← or_fail (List.find (λ member, srs_id member =? rt_replica_id target_request) (ss_members previous))
    ("remove target replica " +:+ pretty (rt_replica_id target_request) +:+ " is not committed");
  fail_if (negb (bool_decide (srs_role target_member = StableActiveSecondary)))
    "only a stable secondary can be removed";;
  fail_if (negb (bool_decide (srs_instance_id target_member = rt_pod_uid target_request)))
    "remove target runtime incarnation and pod UID differ";;
  let members := filter (λ member, srs_id member ≠ rt_replica_id target_request) (ss_members previous) in
  fail_if (length members <? Nat.max min_replicas 1)%nat
    ("removal would reduce membership below minReplicas (" +:+ pretty (Nat.max min_replicas 1) +:+ ")");;
  fail_if (Z.of_nat (length members) <? ss_write_quorum previous)
    "retained members cannot satisfy the previous write quorum";;
  let target_snapshot := previous <| ss_members := members |>
    <| ss_write_quorum := as_u32 (length members) / 2 + 1 |> in
  validate_remove_snapshot target_snapshot;;
  let operation_id := set_uid +:+ ":remove-replica:v" +:+ pretty REMOVE_REPLICA_OPERATION_VERSION +:+ ":" +:+
    pretty (es_data_loss_number (ss_epoch previous)) +:+ "-" +:+
    pretty (es_configuration_number (ss_epoch previous)) +:+ ":" +:+ pretty (rt_replica_id target_request) +:+ "@" +:+
    srs_instance_id target_member in
  Ok {|
    op_operation_id := operation_id;
    op_execution_id := operation_id +:+ ":execution-1";
    op_version := REMOVE_REPLICA_OPERATION_VERSION;
    op_kind := OpRemoveReplica;
    op_phase := Phase.RemoveFreezeIntent;
    op_previous_snapshot := Some previous;
    op_target_snapshot := target_snapshot;
    op_committed_snapshot := None;
    op_minimum_committed_replicas := Some (as_u32 (Nat.max min_replicas 1));
    op_old_primary_id := ss_primary_id previous;
    op_target_primary_id := ss_primary_id previous;
    op_add_mode := None;
    op_remove_mode := Some mode;
    op_target_replica_id := Some (rt_replica_id target_request);
    op_target_instance_id := Some (srs_instance_id target_member);
    op_target_pod_name := Some (rt_pod_name target_request);
    op_target_pod_uid := Some (rt_pod_uid target_request);
    op_remove_target_replicator_address := Some (rt_replicator_address target_request);
    op_remove_target_agent_generation := rt_agent_generation target_request;
    op_retired_instance_id := None;
    op_frozen_lsn := None;
    op_next_secondary_index := 0;
    op_phase_deadline_unix_seconds := i64_add now REMOVE_REPLICA_OVERALL_TIMEOUT_SECONDS;
    op_pending_action := None;
    op_last_error := None;
    op_failover := None;
    op_add_intent := None;
    op_remove_intent := None;
    op_remove_commit_evidence := None;
    op_remove_cleanup := None;
    op_removal_disposition := None |}.

(** ** Configurations *)

Definition remove_configuration_status (snapshot : StablePartitionSnapshotStatus) (mode : ReplicaConfigurationMode) :
    ReplicaConfigurationStatus :=
  mkReplicaConfigurationStatus mode
    (sort_by_key cm_id ((λ member, mkReplicaConfigurationMemberStatus (srs_id member) (srs_instance_id member) ActiveSecondary)
       <$> filter (λ member, srs_id member ≠ ss_primary_id snapshot) (ss_members snapshot)))
    (ss_write_quorum snapshot).

Definition classify_configuration (operation : DurableOperationStatus) (status : ReplicaStatusInfo) :
    result failure ConfigurationObservation :=
  configuration ← or_fail (si_configuration status) "primary runtime exposes no exact configuration";
  previous ← expect_previous (op_previous_snapshot operation);
  if bool_decide (configuration = remove_configuration_status previous Current) then Ok PreviousCurrent
  else if bool_decide (configuration = remove_configuration_status (op_target_snapshot operation) CatchUp) then Ok ReducedCatchUp
  else if bool_decide (configuration = remove_configuration_status (op_target_snapshot operation) Current) then Ok ReducedCurrent
  else error "primary configuration is not previous, reduced CatchUp, or reduced Current".

Definition describe_remove_member (operation : DurableOperationStatus) (observations : OperationObservations)
    (target_id : Z) (target_instance : string) (member : StableReplicaSnapshotStatus) :
    result failure ConfigurationMemberDescriptor :=
  let observation := match observations !! srs_id member with
    | Some observation =>
        if bool_decide (si_instance_id (ro_status observation) = srs_instance_id member) then Some observation else None
    | None => None
    end in
  let is_target := (srs_id member =? target_id) && bool_decide (srs_instance_id member = target_instance) in
  fail_if (none observation && negb is_target)
    ("retained replica " +:+ pretty (srs_id member) +:+ " is unavailable while freezing remove intent");;
  replicator_address ← or_fail
    match observation with
    | Some observation => Some (ro_replicator_address observation)
    | None => op_remove_target_replicator_address operation
    end "remove target has no historical replicator address";
  let progress := match observation with
    | Some observation =>
        let status := ro_status observation in
        (si_current_progress status, default (si_current_progress status) (si_catch_up_capability status))
    | None =>
        match srs_election_metadata member with
        | Some metadata => (sm_current_lsn metadata, sm_first_retained_lsn metadata)
        | None => (0, 0)
        end
    end in
  Ok (mkConfigurationMemberDescriptor (srs_id member) (srs_instance_id member) ActiveSecondary
    (if none observation then Down else Up) replicator_address false (Frozen progress.1 progress.2)).

Definition remove_descriptor_for_snapshot (operation : DurableOperationStatus) (snapshot : StablePartitionSnapshotStatus)
    (observations : OperationObservations) (reduced : bool) : result failure ConfigurationDescriptor :=
  target_id ← remove_target_replica_id operation;
  target_instance ← remove_target_instance_id operation;
  members ← try_map (describe_remove_member operation observations target_id target_instance)
    (filter (λ member, srs_id member ≠ ss_primary_id snapshot) (ss_members snapshot));
  let members := sort_by_key cd_id members in
  fail_if (reduced && existsb (λ member, cd_id member =? target_id) members)
    "reduced remove descriptor still contains the target";;
  Ok (mkConfigurationDescriptor members (ss_write_quorum snapshot)).

Definition remove_member_status (member : ConfigurationMemberDescriptor) :
    result failure ConfigurationMemberDescriptorStatus :=
  match cd_progress member with
  | Frozen current_progress catch_up_capability =>
      Ok (mkConfigurationMemberDescriptorStatus (cd_id member) (cd_instance_id member) (role_debug (cd_role member))
        (replica_status_debug (cd_status member)) (cd_replicator_address member) (cd_must_catch_up member)
        PsFrozen current_progress catch_up_capability)
  | BuildCopyLsn => Err (Panic "internal error: entered unreachable code: remove descriptors never use build progress")
  end.

Definition remove_descriptor_status (descriptor : ConfigurationDescriptor) : result failure ConfigurationDescriptorStatus :=
  members ← try_map remove_member_status (cfg_members descriptor);
  Ok (mkConfigurationDescriptorStatus members (cfg_write_quorum descriptor)).

Definition remove_core_member (seen : gset Z * gset string) (member : ConfigurationMemberDescriptorStatus) :
    result string (gset Z * gset string * ConfigurationMemberDescriptor) :=
  let '(ids, instances) := seen in
  reject_if ((cmds_id member <=? 0) || bool_decide (cmds_id member ∈ ids))
    "remove descriptor has an invalid or duplicate replica ID";;
  reject_if (empty (cmds_instance_id member) || bool_decide (cmds_instance_id member ∈ instances))
    "remove descriptor has a missing or duplicate incarnation";;
  reject_if (negb (bool_decide (cmds_role member = "ActiveSecondary")) || cmds_must_catch_up member ||
             negb (bool_decide (cmds_progress_source member = PsFrozen)))
    "remove descriptor has unsupported member semantics";;
  status ← (if bool_decide (cmds_status member = "Up") then Ok Up
            else if bool_decide (cmds_status member = "Down") then Ok Down
            else Err "remove descriptor has an unknown member status");
  Ok ({[cmds_id member]} ∪ ids, {[cmds_instance_id member]} ∪ instances,
      mkConfigurationMemberDescriptor (cmds_id member) (cmds_instance_id member) ActiveSecondary status
        (cmds_replicator_address member) false
        (Frozen (cmds_current_progress member) (cmds_catch_up_capability member))).

Definition remove_core_descriptor (descriptor : ConfigurationDescriptorStatus) : result string ConfigurationDescriptor :=
  '(_, members) ← try_fold (λ (scan : gset Z * gset string * list ConfigurationMemberDescriptor) member,
      '(seen, m) ← remove_core_member scan.1 member; Ok (seen, scan.2 ++ [m]))
    ((∅, ∅), []) (cds_members descriptor);
  Ok (mkConfigurationDescriptor members (cds_write_quorum descriptor)).

Definition remove_descriptor_signature (descriptor : ConfigurationDescriptorStatus) : string :=
  match remove_core_descriptor descriptor with Ok descriptor => descriptor_signature descriptor | Err _ => "invalid" end.

Definition exact_connection_absent (operation : DurableOperationStatus) (status : ReplicaStatusInfo) : bool :=
  negb (existsb (λ connection, (rcs_id connection =? default 0 (op_target_replica_id operation)) &&
                               bool_decide (Some (rcs_instance_id connection) = op_target_instance_id operation))
          (si_active_replica_connections status)).

(** ** Ends without a commit *)

Definition precommit_failure_is_proven (intent : RemoveReplicaIntentStatus) (now : Z) : bool :=
  negb (ris_current_install_dispatched intent) &&
  (default (ris_overall_deadline_unix_seconds intent) (ris_compensation_expiry_unix_seconds intent) <=? now).

Definition terminal_retirement (observation : TargetRetirementObservation) : option TargetRetirementObservation :=
  match observation with
  | RetCompleted | RetUnavailable | RetStale | RetFailed => Some observation
  | _ => None
  end.

Definition merge_retirement_evidence (current observed : option TargetRetirementObservationStatus) :
    option TargetRetirementObservationStatus :=
  if bool_decide (current = Some TrCompleted) then current
  else match observed with Some _ => observed | None => current end.

Definition failed_precommit (operation : DurableOperationStatus) (reason : string) : DurableOperationStatus :=
  poison (operation <| op_removal_disposition := Some (FailedPreCommitIncomplete
      (match op_remove_intent operation with Some intent => ris_attempt intent | None => 0 end)
      (op_remove_intent operation ≫= ris_last_observed_phase) (bounded_error reason)) |>) reason.

Definition invalid_removal (operation : DurableOperationStatus) (reason : string) : DurableOperationStatus :=
  let intent := op_remove_intent operation in
  poison (operation <| op_removal_disposition := Some (InvalidRemovalState
      (match intent with Some intent => ris_attempt intent | None => 0 end)
      (intent ≫= ris_last_observed_phase)
      (match intent with Some intent => remove_descriptor_signature (ris_previous_configuration intent) | None => "unfrozen" end)
      (match intent with Some intent => remove_descriptor_signature (ris_reduced_current_configuration intent) | None => "unfrozen" end)
      (bounded_error reason)) |>) reason.

Definition ambiguous_restart (operation : DurableOperationStatus) (intent : RemoveReplicaIntentStatus)
    (new_generation : AgentGeneration) (reason : string) : DurableOperationStatus :=
  poison (operation <| op_removal_disposition := Some (AmbiguousPrimaryRestart
      (ris_primary_agent_generation intent) new_generation (ris_last_observed_phase intent)
      (remove_descriptor_signature (ris_previous_configuration intent))
      (remove_descriptor_signature (ris_reduced_current_configuration intent)) (bounded_error reason)) |>) reason.

Section workflow.
  Context {Ends : Endpoints}.

(** ** The frozen intent *)

Definition core_remove_intent (operation : DurableOperationStatus) : result failure RemoveReplicaIntent :=
  intent ← or_fail (op_remove_intent operation) "remove operation has no frozen intent";
  mode ← remove_mode operation;
  previous ← expect_previous (op_previous_snapshot operation);
  primary_generation ← lift (agent_generation_parse (ris_primary_agent_generation intent));
  target_id ← remove_target_replica_id operation;
  target_instance ← remove_target_instance_id operation;
  pod_uid ← remove_target_pod_uid operation;
  pod_name ← remove_target_pod_name operation;
  target_generation ← match ris_target_agent_generation intent with
    | Some generation => generation ← lift (agent_generation_parse generation); Ok (Some generation)
    | None => Ok None
    end;
  previous_configuration ← lift (remove_core_descriptor (ris_previous_configuration intent));
  reduced_catch_up ← lift (remove_core_descriptor (ris_reduced_catch_up_configuration intent));
  reduced_current ← lift (remove_core_descriptor (ris_reduced_current_configuration intent));
  let core := {|
    rm_protocol_version := REMOVE_REPLICA_INTENT_PROTOCOL_VERSION;
    rm_operation_id := op_operation_id operation;
    rm_action_id := ris_action_id intent;
    rm_attempt_number := ris_attempt intent;
    rm_attempt_id := ris_attempt_id intent;
    rm_input_signature := ris_input_signature intent;
    rm_mode := mode;
    rm_epoch := to_epoch (ss_epoch previous);
    rm_primary_replica_id := op_old_primary_id operation;
    rm_primary_instance_id := ris_primary_instance_id intent;
    rm_primary_agent_generation := primary_generation;
    rm_primary_agent_control_version := ris_primary_agent_control_version intent;
    rm_primary_control_address := ris_primary_control_address intent;
    rm_primary_replicator_address := ris_primary_replicator_address intent;
    rm_target_replica_id := target_id;
    rm_target_instance_id := target_instance;
    rm_expected_target_pod_uid := pod_uid;
    rm_target_pod_name := pod_name;
    rm_expected_target_agent_generation := target_generation;
    rm_target_control_address := ris_target_control_address intent;
    rm_target_replicator_address := ris_target_replicator_address intent;
    rm_target_lifecycle_peer_protocol_version := ris_target_lifecycle_peer_protocol_version intent;
    rm_previous_configuration := previous_configuration;
    rm_reduced_catch_up_configuration := reduced_catch_up;
    rm_reduced_current_configuration := reduced_current;
    rm_required_write_quorum := ris_required_write_quorum intent;
    rm_minimum_committed_replicas := default 1 (op_minimum_committed_replicas operation);
    rm_maximum_pre_commit_attempts := ris_maximum_pre_commit_attempts intent;
    rm_overall_deadline_unix_seconds := ris_overall_deadline_unix_seconds intent;
    rm_compensation_grace_seconds := ris_compensation_grace_seconds intent;
    rm_compensation_deadline_cap_unix_seconds := ris_compensation_deadline_cap_unix_seconds intent;
    rm_call_timeout_seconds := ris_call_timeout_seconds intent;
    rm_target_retirement_timeout_seconds := ris_target_retirement_timeout_seconds intent |} in
  lift (validate_remove_intent core);;
  Ok core.

(** *** The checks of an operation, in their order *)

Definition validate_remove_topology (operation : DurableOperationStatus) : result failure unit :=
  previous ← expect_previous (op_previous_snapshot operation);
  let target := op_target_snapshot operation in
  fail_if (negb (length (ss_members previous) =? length (ss_members target) + 1)%nat ||
           negb (ss_primary_id previous =? ss_primary_id target) ||
           negb (bool_decide (ss_epoch previous = ss_epoch target)) ||
           negb (op_old_primary_id operation =? ss_primary_id previous) ||
           negb (op_target_primary_id operation =? ss_primary_id previous))
    "remove snapshot transition is invalid";;
  target_id ← remove_target_replica_id operation;
  target_instance ← remove_target_instance_id operation;
  pod_uid ← remove_target_pod_uid operation;
  fail_if (negb (bool_decide (target_instance = pod_uid))) "remove target runtime incarnation and pod UID differ";;
  remove_target_pod_name operation;;
  or_fail (filled (op_remove_target_replicator_address operation)) "remove operation has no historical target endpoint";;
  fail_if (target_id =? ss_primary_id previous) "cannot remove the primary";;
  previous_target ← or_fail (List.find (λ member, srs_id member =? target_id) (ss_members previous))
    "remove previous snapshot has no target";
  fail_if (negb (bool_decide (srs_instance_id previous_target = target_instance)) ||
           negb (bool_decide (srs_role previous_target = StableActiveSecondary)) ||
           existsb (λ member, (srs_id member =? target_id) || bool_decide (srs_instance_id member = target_instance))
             (ss_members target))
    "remove target identity or role is invalid";;
  try_for_each (λ retained,
      fail_if (negb (existsb (λ member, bool_decide (member = retained)) (ss_members previous)))
        ("target snapshot changed retained replica " +:+ pretty (srs_id retained))) (ss_members target).

Definition validate_remove_frozen (operation : DurableOperationStatus) : result failure unit :=
  match op_remove_intent operation with
  | Some intent =>
      fail_if (negb (bool_decide (ris_action_id intent = ris_attempt_id intent +:+ ":RemoveReplicaIntent")) ||
               (ris_attempt intent =? 0) || (MAX_REMOVE_REPLICA_PRE_COMMIT_ATTEMPTS <? ris_attempt intent))
        "frozen remove action identity or attempt is invalid";;
      core_remove_intent operation;; Ok tt
  | None => Ok tt
  end.

Definition validate_remove_pending (operation : DurableOperationStatus) : result failure unit :=
  match op_pending_action operation with
  | Some pending =>
      intent ← or_fail (op_remove_intent operation) "pending remove action has no frozen intent";
      fail_if (negb (bool_decide (pa_kind pending = Action.RemoveReplicaIntent)) ||
               negb (bool_decide (pa_action_id pending = ris_action_id intent)) ||
               negb (pa_target_id pending =? op_old_primary_id operation) ||
               negb (bool_decide (pa_target_instance_id pending = ris_primary_instance_id intent)) ||
               negb (bool_decide (pc_kind (pa_desired_postcondition pending) = PcRemoveReplicaCoordinated)))
        "pending coarse remove action is not deterministic"
  | None => Ok tt
  end.

Definition validate_remove_operation (operation : DurableOperationStatus) : result failure unit :=
  fail_if (negb (op_version operation =? REMOVE_REPLICA_OPERATION_VERSION))
    ("unsupported remove-replica operation version " +:+ pretty (op_version operation) +:+ "; expected " +:+
     pretty REMOVE_REPLICA_OPERATION_VERSION);;
  fail_if (negb (bool_decide (op_kind operation = OpRemoveReplica))) "remove decision received another operation kind";;
  previous ← expect_previous (op_previous_snapshot operation);
  validate_remove_snapshot previous;;
  validate_remove_snapshot (op_target_snapshot operation);;
  validate_remove_topology operation;;
  or_fail (op_remove_mode operation) "remove operation has no mode";;
  fail_if (negb (none (op_add_mode operation)) || negb (none (op_add_intent operation)))
    "remove operation contains add state";;
  fail_if (negb (none (op_remove_commit_evidence operation)) && none (op_remove_intent operation))
    "remove commit evidence has no frozen intent";;
  (if bool_decide (op_remove_mode operation = Some RmScaleDown) then
     generation ← or_fail (op_remove_target_agent_generation operation)
       "ScaleDown operation has no preadmitted target generation";
     lift (agent_generation_parse generation);; Ok tt
   else Ok tt);;
  validate_remove_frozen operation;;
  validate_remove_pending operation;;
  fail_if (negb (none (op_removal_disposition operation)) && negb (bool_decide (op_phase operation = Phase.Poisoned)))
    "remove disposition is not pinned in Poisoned".

(** ** Identities *)

Definition validate_primary_identity (operation : DurableOperationStatus) (primary : ReplicaObservation) :
    result failure unit :=
  previous ← expect_previous (op_previous_snapshot operation);
  member ← or_fail (List.find (λ member, srs_id member =? op_old_primary_id operation) (ss_members previous))
    "stable primary member is missing";
  let status := ro_status primary in
  fail_if (negb (bool_decide (si_instance_id status = srs_instance_id member)) ||
           negb (bool_decide (si_role status = Primary)) ||
           negb (bool_decide (si_epoch status = to_epoch (ss_epoch previous))) ||
           negb (bool_decide (si_write_status status = Granted)) || negb (si_healthy status))
    "stable primary is not the exact writable runtime at the frozen epoch".

Definition validate_scale_down_target (operation : DurableOperationStatus) (target : ReplicaObservation) :
    result failure unit :=
  let status := ro_status target in
  fail_if (negb (bool_decide (op_remove_target_agent_generation operation = Some (as_generation (si_agent status)))))
    "ScaleDown target generation changed after preadmission";;
  target_instance ← remove_target_instance_id operation;
  fail_if (negb (bool_decide (si_instance_id status = target_instance)) ||
           negb (as_lifecycle_peer_protocol_version (si_agent status) =? REPLICA_LIFECYCLE_PEER_PROTOCOL_VERSION) ||
           negb (si_healthy status))
    "ScaleDown target lacks exact lifecycle-peer-v2 capability".

Definition validate_optional_force_target (operation : DurableOperationStatus) (target : ReplicaObservation) :
    result failure unit :=
  target_instance ← remove_target_instance_id operation;
  fail_if (negb (bool_decide (si_instance_id (ro_status target) = target_instance)))
    "Force target observation belongs to another incarnation".

(** ** Freezing *)

(** The attempt to freeze: its number, and whether it redrives a removal that
    has committed under an earlier process of the primary. *)
Definition next_attempt (operation : DurableOperationStatus) (observed_configuration : ConfigurationObservation)
    (primary : ReplicaObservation) : Z * bool :=
  match op_remove_intent operation with
  | Some intent =>
      if bool_decide (observed_configuration = ReducedCurrent) &&
         negb (bool_decide (ris_primary_agent_generation intent = as_generation (si_agent (ro_status primary))))
      then (ris_attempt intent, true)
      else (u32_saturating_add (ris_attempt intent) 1, false)
  | None => (1, false)
  end.

Definition remove_intent_status (core : RemoveReplicaIntent) (previous reduced : ConfigurationDescriptorStatus) :
    RemoveReplicaIntentStatus := {|
  ris_attempt := rm_attempt_number core;
  ris_attempt_id := rm_attempt_id core;
  ris_action_id := rm_action_id core;
  ris_input_signature := rm_input_signature core;
  ris_primary_instance_id := rm_primary_instance_id core;
  ris_primary_agent_generation := rm_primary_agent_generation core;
  ris_primary_agent_control_version := rm_primary_agent_control_version core;
  ris_primary_control_address := rm_primary_control_address core;
  ris_primary_replicator_address := rm_primary_replicator_address core;
  ris_target_agent_generation := rm_expected_target_agent_generation core;
  ris_target_control_address := rm_target_control_address core;
  ris_target_replicator_address := rm_target_replicator_address core;
  ris_target_lifecycle_peer_protocol_version := rm_target_lifecycle_peer_protocol_version core;
  ris_previous_configuration := previous;
  ris_reduced_catch_up_configuration := reduced;
  ris_reduced_current_configuration := reduced;
  ris_required_write_quorum := rm_required_write_quorum core;
  ris_maximum_pre_commit_attempts := rm_maximum_pre_commit_attempts core;
  ris_overall_deadline_unix_seconds := rm_overall_deadline_unix_seconds core;
  ris_compensation_grace_seconds := rm_compensation_grace_seconds core;
  ris_compensation_deadline_cap_unix_seconds := rm_compensation_deadline_cap_unix_seconds core;
  ris_call_timeout_seconds := rm_call_timeout_seconds core;
  ris_target_retirement_timeout_seconds := rm_target_retirement_timeout_seconds core;
  ris_compensation_expiry_unix_seconds := None;
  ris_last_observed_phase := None;
  ris_last_observed_result := None;
  ris_current_install_dispatched := false |}.

(** The intent of an attempt, without its signature. *)
Definition unsigned_remove_intent (operation : DurableOperationStatus) (primary : ReplicaObservation)
    (target : option ReplicaObservation) (previous_configuration reduced : ConfigurationDescriptor)
    (attempt : Z) (attempt_id : string) (now : Z) (signature : string) : result failure RemoveReplicaIntent :=
  mode ← remove_mode operation;
  previous ← expect_previous (op_previous_snapshot operation);
  target_id ← remove_target_replica_id operation;
  target_instance ← remove_target_instance_id operation;
  pod_uid ← remove_target_pod_uid operation;
  pod_name ← remove_target_pod_name operation;
  let status := ro_status primary in
  Ok {|
    rm_protocol_version := REMOVE_REPLICA_INTENT_PROTOCOL_VERSION;
    rm_operation_id := op_operation_id operation;
    rm_action_id := attempt_id +:+ ":RemoveReplicaIntent";
    rm_attempt_number := attempt;
    rm_attempt_id := attempt_id;
    rm_input_signature := signature;
    rm_mode := mode;
    rm_epoch := to_epoch (ss_epoch previous);
    rm_primary_replica_id := op_old_primary_id operation;
    rm_primary_instance_id := si_instance_id status;
    rm_primary_agent_generation := as_generation (si_agent status);
    rm_primary_agent_control_version := as_control_version (si_agent status);
    rm_primary_control_address := ro_control_address primary;
    rm_primary_replicator_address := ro_replicator_address primary;
    rm_target_replica_id := target_id;
    rm_target_instance_id := target_instance;
    rm_expected_target_pod_uid := pod_uid;
    rm_target_pod_name := pod_name;
    rm_expected_target_agent_generation := (λ target, as_generation (si_agent (ro_status target))) <$> target;
    rm_target_control_address := ro_control_address <$> target;
    rm_target_replicator_address := ro_replicator_address <$> target;
    rm_target_lifecycle_peer_protocol_version := (λ _, REPLICA_LIFECYCLE_PEER_PROTOCOL_VERSION) <$> target;
    rm_previous_configuration := previous_configuration;
    rm_reduced_catch_up_configuration := reduced;
    rm_reduced_current_configuration := reduced;
    rm_required_write_quorum := ss_write_quorum previous;
    rm_minimum_committed_replicas := default 1 (op_minimum_committed_replicas operation);
    rm_maximum_pre_commit_attempts := MAX_REMOVE_REPLICA_PRE_COMMIT_ATTEMPTS;
    rm_overall_deadline_unix_seconds := i64_add now REMOVE_REPLICA_OVERALL_TIMEOUT_SECONDS;
    rm_compensation_grace_seconds := REMOVE_REPLICA_COMPENSATION_GRACE_SECONDS;
    rm_compensation_deadline_cap_unix_seconds :=
      i64_add (i64_add now REMOVE_REPLICA_OVERALL_TIMEOUT_SECONDS) REMOVE_REPLICA_COMPENSATION_GRACE_SECONDS;
    rm_call_timeout_seconds := REMOVE_REPLICA_CALL_TIMEOUT_SECONDS;
    rm_target_retirement_timeout_seconds := REMOVE_REPLICA_RETIREMENT_TIMEOUT_SECONDS |}.

(** The target as the intent can name it: this incarnation, with the current
    peer protocol. *)
Definition nameable_target (operation : DurableOperationStatus) (target : option ReplicaObservation) :
    option ReplicaObservation :=
  match target with
  | Some observation =>
      if bool_decide (si_instance_id (ro_status observation) = instance_or_default operation) &&
         (as_lifecycle_peer_protocol_version (si_agent (ro_status observation)) =? REPLICA_LIFECYCLE_PEER_PROTOCOL_VERSION)
      then target else None
  | None => None
  end.

Definition freeze_attempt (operation : DurableOperationStatus) (observations : OperationObservations) (now : Z) :
    result failure Decision :=
  primary ← or_fail (observations !! op_old_primary_id operation)
    "stable primary is unavailable while freezing remove intent";
  validate_primary_identity operation primary;;
  observed_configuration ← classify_configuration operation (ro_status primary);
  target_id ← remove_target_replica_id operation;
  let target := observations !! target_id in
  (if bool_decide (op_remove_mode operation = Some RmScaleDown) then
     target ← or_fail target "ScaleDown target is unavailable while freezing remove intent";
     validate_scale_down_target operation target
   else match target with
        | Some target => validate_optional_force_target operation target
        | None => Ok tt
        end);;
  previous ← expect_previous (op_previous_snapshot operation);
  previous_configuration ← remove_descriptor_for_snapshot operation previous observations false;
  reduced ← remove_descriptor_for_snapshot operation (op_target_snapshot operation) observations true;
  let '(attempt, post_commit_redrive) := next_attempt operation observed_configuration primary in
  if MAX_REMOVE_REPLICA_PRE_COMMIT_ATTEMPTS <? attempt then
    Ok (Persist (failed_precommit operation "the durable three-attempt pre-commit removal limit is exhausted"))
  else
    let attempt_id :=
      if (post_commit_redrive : bool)
      then op_operation_id operation +:+ ":postcommit-" +:+ as_generation (si_agent (ro_status primary))
      else op_operation_id operation +:+ ":attempt-" +:+ pretty attempt in
    let build := unsigned_remove_intent operation primary (nameable_target operation target)
      previous_configuration reduced attempt attempt_id now in
    unsigned ← build "";
    core ← build (remove_signature unsigned);
    lift (validate_remove_intent core);;
    previous_status ← remove_descriptor_status previous_configuration;
    reduced_status ← remove_descriptor_status reduced;
    Ok (Persist (operation <| op_remove_intent := Some (remove_intent_status core previous_status reduced_status) |>
      <| op_pending_action := None |> <| op_phase := Phase.RemoveDispatchIntent |>
      <| op_phase_deadline_unix_seconds := rm_overall_deadline_unix_seconds core |> <| op_last_error := None |>)).

Definition dispatch_remove_intent (operation : DurableOperationStatus) : result failure Decision :=
  intent ← or_fail (op_remove_intent operation) "remove dispatch phase has no frozen intent";
  previous ← expect_previous (op_previous_snapshot operation);
  Ok (Persist (operation <| op_phase := Phase.RemoveAwaitCoordination |>
    <| op_pending_action := Some {|
         pa_action_id := ris_action_id intent;
         pa_sequence := ris_attempt intent;
         pa_kind := Action.RemoveReplicaIntent;
         pa_target_id := op_old_primary_id operation;
         pa_target_instance_id := ris_primary_instance_id intent;
         pa_expected_epoch := ss_epoch previous;
         pa_desired_postcondition := mkDurablePostconditionStatus PcRemoveReplicaCoordinated None;
         pa_attempts := 0;
         pa_deadline_unix_seconds := ris_overall_deadline_unix_seconds intent;
         pa_last_error := None;
         pa_dispatch_authorized := false;
         pa_dispatch_agent_generation := None;
         pa_dispatch_agent_control_version := None;
         pa_dispatch_observed_runtime_epoch := None;
         pa_dispatch_action_payload := "" |} |>)).

(** ** Recording a commit *)

Definition record_commit_evidence (operation : DurableOperationStatus) (primary_generation : AgentGeneration)
    (observed_unix_seconds : Z) (connection_absent : bool) (target_retirement : option TargetRetirementObservationStatus)
    (observed_phase : option RemoveReplicaCoordinatorPhaseStatus) (compensation_expiry : option Z)
    (current_install_dispatched : bool) : result failure Decision :=
  intent ← unwrap (op_remove_intent operation);
  core ← core_remove_intent operation;
  let next_intent := intent
    <| ris_last_observed_phase := match observed_phase with Some _ => observed_phase | None => ris_last_observed_phase intent end |>
    <| ris_compensation_expiry_unix_seconds := compensation_expiry |>
    <| ris_current_install_dispatched := current_install_dispatched |> in
  Ok (RecordCommitEvidence (operation <| op_phase := Phase.RemoveRecordCommit |> <| op_pending_action := None |>
    <| op_committed_snapshot := Some (op_target_snapshot operation) |>
    <| op_remove_commit_evidence := Some {|
         ces_attempt_id := ris_attempt_id intent;
         ces_action_id := ris_action_id intent;
         ces_primary_agent_generation := primary_generation;
         ces_configuration_signature := descriptor_signature (rm_reduced_current_configuration core);
         ces_observed_unix_seconds := observed_unix_seconds |} |>
    <| op_remove_cleanup := Some (mkRemoveReplicaCleanupStatus connection_absent target_retirement false false) |>
    <| op_remove_intent := Some next_intent |>)).

Definition record_commit (operation : DurableOperationStatus) (progress : RemoveReplicaProgress) : result failure Decision :=
  observed_unix_seconds ← or_fail (rp_commit_observed_unix_seconds progress)
    "committed remove progress has no observation time";
  intent ← or_fail (op_remove_intent operation) "committed remove progress has no frozen intent";
  primary_generation ← lift (agent_generation_parse (ris_primary_agent_generation intent));
  record_commit_evidence operation primary_generation observed_unix_seconds (rp_connection_absent progress)
    (retirement_status <$> terminal_retirement (rp_target_retirement progress))
    (Some (coordinator_phase_status (rp_phase progress))) (rp_compensation_expiry_unix_seconds progress)
    (rp_current_install_dispatched progress).

Definition record_observed_commit (operation : DurableOperationStatus) (primary_generation : AgentGeneration)
    (observed_unix_seconds : Z) (connection_absent : bool) : result failure Decision :=
  record_commit_evidence operation primary_generation observed_unix_seconds connection_absent None None
    (op_remove_intent operation ≫= ris_compensation_expiry_unix_seconds) true.

(** ** Coordination *)

(** The removal result an observation carries; another kind is an error. *)
Definition observed_result (observed : DurableActionObservation) :
    result failure (option RemoveReplicaTerminalResultStatus) :=
  match do_result observed with
  | Some (ResRemoveReplica result) => Ok (Some (terminal_result_status result))
  | Some _ => error "remove action carries an unrelated terminal result"
  | None => Ok None
  end.

Definition persist_progress_if_changed (operation : DurableOperationStatus) (progress : RemoveReplicaProgress)
    (observed : DurableActionObservation) : result failure (option Decision) :=
  intent ← unwrap (op_remove_intent operation);
  if ris_current_install_dispatched intent && negb (rp_current_install_dispatched progress) then
    Ok (Some (Persist (invalid_removal operation
      "remove coordinator regressed durable reduced-current installation dispatch evidence")))
  else if match ris_compensation_expiry_unix_seconds intent with
          | Some expiry => negb (bool_decide (rp_compensation_expiry_unix_seconds progress = Some expiry))
          | None => false
          end then
    Ok (Some (Persist (invalid_removal operation "remove compensation expiry changed after it was durably observed")))
  else
    let phase := coordinator_phase_status (rp_phase progress) in
    result ← observed_result observed;
    if bool_decide (ris_last_observed_phase intent = Some phase) &&
       bool_decide (ris_last_observed_result intent = result) &&
       bool_decide (ris_compensation_expiry_unix_seconds intent = rp_compensation_expiry_unix_seconds progress) &&
       Bool.eqb (ris_current_install_dispatched intent) (rp_current_install_dispatched progress)
    then Ok None
    else Ok (Some (Persist (operation <| op_remove_intent := Some (intent
      <| ris_last_observed_phase := Some phase |> <| ris_last_observed_result := result |>
      <| ris_compensation_expiry_unix_seconds := rp_compensation_expiry_unix_seconds progress |>
      <| ris_current_install_dispatched := rp_current_install_dispatched progress |>) |>))).

(** The attempt is frozen anew. *)
Definition next_attempt_phase (operation : DurableOperationStatus) : DurableOperationStatus :=
  operation <| op_phase := Phase.RemoveFreezeIntent |> <| op_pending_action := None |>.

Definition compensate_finalize (operation : DurableOperationStatus) (reason : string) : DurableOperationStatus :=
  operation <| op_phase := Phase.RemoveCompensateFinalize |> <| op_pending_action := None |> <| op_last_error := Some reason |>.

Definition classify_incomplete (operation : DurableOperationStatus)
    (configuration : result string ConfigurationObservation) (progress : option RemoveReplicaProgress) (now : Z) :
    result failure Decision :=
  intent ← unwrap (op_remove_intent operation);
  let dispatched := ris_current_install_dispatched intent in
  match configuration with
  | Ok ReducedCurrent =>
      progress ← or_fail progress "reduced Current is observed but exact coordinator commit time is unavailable";
      if rp_commit_observed progress then record_commit operation progress
      else Ok (Persist (invalid_removal operation
        "reduced Current is observed without exact coordinator commit evidence"))
  | Ok PreviousCurrent =>
      if dispatched then
        Ok (Persist (invalid_removal operation
          "previous Current restoration followed reduced-current installation dispatch"))
      else Ok (Persist (compensate_finalize operation "previous Current configuration is restored"))
  | Ok ReducedCatchUp =>
      if negb dispatched then
        if ris_attempt intent <? MAX_REMOVE_REPLICA_PRE_COMMIT_ATTEMPTS then
          Ok (Persist ((next_attempt_phase operation)
            <| op_last_error := Some "pre-commit removal attempt ended with reduced CatchUp installed" |>))
        else Ok (Persist (failed_precommit operation
          "reduced CatchUp remains installed after all three proven pre-commit attempts"))
      else Ok (Persist (invalid_removal operation
        "reduced-current installation was dispatched but exact commit state is not proven"))
  | Err e =>
      if dispatched then Ok (Persist (invalid_removal operation e))
      else if precommit_failure_is_proven intent now then Ok (Persist (failed_precommit operation e))
      else Ok Wait
  end.

Definition classify_terminal (operation : DurableOperationStatus)
    (configuration : result string ConfigurationObservation) (terminal : RemoveReplicaTerminalResult)
    (progress : option RemoveReplicaProgress) (now : Z) : result failure Decision :=
  match terminal with
  | CommittedClean | CommittedDegraded =>
      observed ← rethrow configuration;
      if negb (bool_decide (observed = ReducedCurrent)) then
        Ok (Persist (invalid_removal operation
          "committed coordinator result lacks exact reduced Current configuration"))
      else
        progress ← or_fail progress "committed coordinator result has no retained progress";
        record_commit operation progress
  | Compensated =>
      if match op_remove_intent operation with Some intent => ris_current_install_dispatched intent | None => false end ||
         match progress with Some progress => rp_current_install_dispatched progress | None => false end then
        Ok (Persist (invalid_removal operation
          "compensated coordinator result followed reduced-current installation dispatch"))
      else
        observed ← rethrow configuration;
        if negb (bool_decide (observed = PreviousCurrent)) then
          Ok (Persist (invalid_removal operation
            "compensated coordinator result lacks exact previous Current restoration"))
        else Ok (Persist (compensate_finalize operation "remove-replica pre-commit work was compensated"))
  | CompensationIncomplete => classify_incomplete operation configuration progress now
  end.

Definition classify_new_primary_generation (operation : DurableOperationStatus) (primary : ReplicaObservation)
    (pod_identities : gmap Z string) (now : Z) : result failure Decision :=
  intent ← unwrap (op_remove_intent operation);
  let status := ro_status primary in
  if bool_decide (si_role status = Unknown) || negb (si_healthy status) || none (si_configuration status) then
    if bool_decide (pod_identities !! op_old_primary_id operation = Some (ris_primary_instance_id intent)) then
      Ok (Persist (ambiguous_restart operation intent (as_generation (si_agent status))
        "the new primary-agent generation has no surviving exact runtime configuration or coordinator evidence"))
    else Ok (Persist (invalid_removal operation
      "the stable primary incarnation changed while removal was active"))
  else
    validate_primary_identity operation primary;;
    configuration ← classify_configuration operation status;
    match configuration with
    | ReducedCurrent =>
        record_observed_commit operation (as_generation (si_agent status)) now (exact_connection_absent operation status)
    | PreviousCurrent | ReducedCatchUp =>
        if ris_current_install_dispatched intent then
          Ok (Persist (invalid_removal operation
            "the previous generation dispatched reduced-current installation without cancellation or quiescence proof"))
        else if (MAX_REMOVE_REPLICA_PRE_COMMIT_ATTEMPTS <=? ris_attempt intent) &&
                negb (bool_decide (si_configuration status =
                                   Some (remove_configuration_status (op_target_snapshot operation) Current))) then
          Ok (Persist (failed_precommit operation "the durable three-attempt pre-commit removal limit is exhausted"))
        else Ok (Persist (next_attempt_phase operation))
    end.

(** What the state of the observed action asks for, once its progress is
    recorded. *)
Definition classify_observed (operation : DurableOperationStatus)
    (configuration : result string ConfigurationObservation) (observed : DurableActionObservation) (now : Z) :
    result failure Decision :=
  let progress := do_remove_replica_progress observed in
  match do_state observed with
  | Scheduled | InProgress => Ok Wait
  | Completed =>
      match do_result observed with
      | Some (ResRemoveReplica result) => classify_terminal operation configuration result progress now
      | _ => Ok (Persist (invalid_removal operation "completed remove coordinator has no typed removal result"))
      end
  | Failed => classify_incomplete operation configuration progress now
  end.

(** The action the primary's agent reports. *)
Definition decide_observed (operation : DurableOperationStatus) (intent : RemoveReplicaIntentStatus)
    (core : RemoveReplicaIntent) (configuration : result string ConfigurationObservation)
    (observed : DurableActionObservation) (now : Z) : result failure Decision :=
  if negb (bool_decide (do_signature observed = ris_input_signature intent)) then
    Ok (Persist (invalid_removal operation "the primary retained the removal action ID with another signature"))
  else
    match do_remove_replica_progress observed with
    | Some progress =>
        lift (validate_progress core progress);;
        persisted ← persist_progress_if_changed operation progress observed;
        match persisted with
        | Some decision => Ok decision
        | None =>
            if rp_commit_observed progress then
              configuration ← rethrow configuration;
              if negb (bool_decide (configuration = ReducedCurrent)) then
                Ok (Persist (invalid_removal operation
                  "coordinator commit evidence does not match exact reduced Current state"))
              else record_commit operation progress
            else classify_observed operation configuration observed now
        end
    | None => classify_observed operation configuration observed now
    end.

(** No report of the action: the configuration alone. *)
Definition decide_unobserved (operation : DurableOperationStatus) (intent : RemoveReplicaIntentStatus)
    (core : RemoveReplicaIntent) (configuration : result string ConfigurationObservation)
    (status : ReplicaStatusInfo) (now : Z) : result failure Decision :=
  match configuration with
  | Err _ => classify_incomplete operation configuration None now
  | Ok ReducedCurrent =>
      record_observed_commit operation (as_generation (si_agent status)) now (exact_connection_absent operation status)
  | Ok PreviousCurrent | Ok ReducedCatchUp =>
      if now <? ris_overall_deadline_unix_seconds intent then
        Ok (Execute (op_old_primary_id operation) (ris_action_id intent) (ActRemoveReplicaIntent core))
      else Ok (Persist (failed_precommit operation
        "remove coordinator has no retained evidence at the overall deadline"))
  end.

Definition decide_remove_await (operation : DurableOperationStatus) (observations : OperationObservations)
    (pod_identities : gmap Z string) (now : Z) : result failure Decision :=
  intent ← or_fail (op_remove_intent operation) "remove coordination phase has no frozen intent";
  core ← core_remove_intent operation;
  match observations !! op_old_primary_id operation with
  | None =>
      if ris_current_install_dispatched intent && (ris_overall_deadline_unix_seconds intent <=? now) then
        Ok (Persist (invalid_removal operation
          "reduced-current installation was dispatched and primary configuration remained unavailable"))
      else if precommit_failure_is_proven intent now then
        Ok (Persist (failed_precommit operation
          "same-generation primary remained unavailable through the proven pre-commit expiry"))
      else Ok Wait
  | Some primary =>
      let status := ro_status primary in
      if negb (bool_decide (si_instance_id status = ris_primary_instance_id intent)) then
        Ok (Persist (invalid_removal operation "the primary runtime incarnation changed during removal"))
      else if negb (bool_decide (as_generation (si_agent status) = ris_primary_agent_generation intent)) then
        classify_new_primary_generation operation primary pod_identities now
      else
        identity ← caught (validate_primary_identity operation primary);
        match identity with
        | Err e => Ok (Persist (invalid_removal operation e))
        | Ok _ =>
            configuration ← caught (classify_configuration operation status);
            match correlated_action_observation status (ris_action_id intent) with
            | Some observed => decide_observed operation intent core configuration observed now
            | None => decide_unobserved operation intent core configuration status now
            end
        end
  end.

(** ** After the commit *)

(** What the primary's process that committed shows of the cleanup; a state
    that contradicts the commit ends the removal. *)
Definition observe_committed_primary (operation : DurableOperationStatus) (intent : RemoveReplicaIntentStatus)
    (primary : ReplicaObservation) (cleanup : RemoveReplicaCleanupStatus) :
    result failure (result Decision (RemoveReplicaCleanupStatus * RemoveReplicaIntentStatus)) :=
  let status := ro_status primary in
  configuration ← classify_configuration operation status;
  if negb (bool_decide (configuration = ReducedCurrent)) then
    Ok (Err (Persist (invalid_removal operation "post-commit primary no longer exposes exact reduced Current")))
  else
    let target_id := match remove_target_replica_id operation with Ok id => id | Err _ => 0 end in
    let cleanup := cleanup <| cls_connection_absent :=
      negb (existsb (λ connection, (rcs_id connection =? target_id) &&
                                   bool_decide (rcs_instance_id connection = instance_or_default operation))
              (si_active_replica_connections status)) |> in
    match correlated_action_observation status (ris_action_id intent) with
    | None => Ok (Ok (cleanup, intent))
    | Some observed =>
        if negb (bool_decide (do_signature observed = ris_input_signature intent)) then
          Ok (Err (Persist (invalid_removal operation "post-commit primary action signature changed")))
        else
          Ok (Ok match do_remove_replica_progress observed with
          | None => (cleanup, intent)
          | Some progress =>
              (cleanup <| cls_connection_absent := cls_connection_absent cleanup || rp_connection_absent progress |>
                 <| cls_target_retirement := merge_retirement_evidence (cls_target_retirement cleanup)
                      (retirement_status <$> terminal_retirement (rp_target_retirement progress)) |>,
               intent <| ris_last_observed_phase := Some (coordinator_phase_status (rp_phase progress)) |>
                 <| ris_last_observed_result := match do_result observed with
                      | Some (ResRemoveReplica result) => Some (terminal_result_status result)
                      | _ => ris_last_observed_result intent
                      end |>)
          end)
    end.

(** The committing process is gone: so are its connections, and nothing can
    be asked of it. *)
Definition primary_replaced (cleanup : RemoveReplicaCleanupStatus) : RemoveReplicaCleanupStatus :=
  cleanup <| cls_connection_absent := true |>
    <| cls_target_retirement := merge_retirement_evidence (cls_target_retirement cleanup) (Some TrUnavailable) |>.

(** [Result::unwrap]. *)
Definition unwrap_result {A} (r : result failure A) : result failure A :=
  match r with
  | Err (Error e) => Err (Panic ("called `Result::unwrap()` on an `Err` value: " +:+ e))
  | r => r
  end.

(** The target was seen retired. *)
Definition target_shows_retired (operation : DurableOperationStatus) (observations : OperationObservations) :
    result failure bool :=
  target_id ← remove_target_replica_id operation;
  match observations !! target_id with
  | None => Ok false
  | Some target =>
      instance ← unwrap_result (remove_target_instance_id operation);
      let status := ro_status target in
      Ok (bool_decide (si_instance_id status = instance) && bool_decide (si_role status = RoleNone) &&
          negb (si_healthy status))
  end.

Definition decide_cleanup (operation : DurableOperationStatus) (observations : OperationObservations)
    (pod_identities : gmap Z string) (target_pod_role_label : option string) (now : Z) : result failure Decision :=
  let cleanup := default (mkRemoveReplicaCleanupStatus false None false false) (op_remove_cleanup operation) in
  intent ← unwrap (op_remove_intent operation);
  let committed_generation := match op_remove_commit_evidence operation with
    | Some evidence => ces_primary_agent_generation evidence
    | None => ris_primary_agent_generation intent
    end in
  observed ← match observations !! op_old_primary_id operation with
    | Some primary =>
        if bool_decide (si_instance_id (ro_status primary) = ris_primary_instance_id intent) &&
           bool_decide (as_generation (si_agent (ro_status primary)) = committed_generation)
        then observe_committed_primary operation intent primary cleanup
        else Ok (Ok (primary_replaced cleanup, intent))
    | None =>
        if bool_decide (pod_identities !! op_old_primary_id operation = Some (ris_primary_instance_id intent))
        then Ok (Ok (cleanup, intent))
        else Ok (Ok (primary_replaced cleanup, intent))
    end;
  match observed with
  | Err decision => Ok decision
  | Ok (cleanup, next_intent) =>
      retired ← target_shows_retired operation observations;
      let cleanup := if (retired : bool)
        then cleanup <| cls_target_retirement := merge_retirement_evidence (cls_target_retirement cleanup) (Some TrCompleted) |>
        else cleanup in
      let next cleanup := operation <| op_remove_cleanup := Some cleanup |> <| op_remove_intent := Some next_intent |> in
      let unfinished := if bool_decide (next cleanup = operation) then Wait else Persist (next cleanup) in
      if negb (cls_connection_absent cleanup) then Ok unfinished
      else
        let expiry := match op_remove_commit_evidence operation with
          | Some evidence => Z.min (i64_saturating_add (ces_observed_unix_seconds evidence) REMOVE_REPLICA_RETIREMENT_TIMEOUT_SECONDS)
                               (ris_overall_deadline_unix_seconds intent)
          | None => now
          end in
        if none (cls_target_retirement cleanup) && (now <? expiry) then Ok unfinished
        else
          let cleanup := if none (cls_target_retirement cleanup)
            then cleanup <| cls_target_retirement := merge_retirement_evidence (cls_target_retirement cleanup) (Some TrUnavailable) |>
            else cleanup in
          let delete cleanup := Persist ((next cleanup) <| op_phase := Phase.RemoveDeleteTargetPod |>) in
          if cls_target_labels_fenced cleanup then Ok (delete cleanup)
          else
            target_id ← remove_target_replica_id operation;
            pod_uid ← remove_target_pod_uid operation;
            if negb (bool_decide (pod_identities !! target_id = Some pod_uid))
            then Ok (Persist (next (cleanup <| cls_target_labels_fenced := true |>)))
            else if negb (bool_decide (target_pod_role_label = Some "retired"))
            then Ok (PatchPodRoleExactUid target_id pod_uid "retired")
            else Ok (delete (cleanup <| cls_target_labels_fenced := true |>))
  end.

Definition decide_post_commit (operation : DurableOperationStatus) (observations : OperationObservations)
    (pod_identities : gmap Z string) (target_pod_role_label : option string) (now : Z) : result failure Decision :=
  if negb (bool_decide (op_committed_snapshot operation = Some (op_target_snapshot operation))) then
    Ok (Persist (invalid_removal operation "remove commit evidence does not carry the exact frozen reduced snapshot"))
  else match op_phase operation with
  | Phase.RemoveRecordCommit => Ok (Persist (operation <| op_phase := Phase.RemoveAwaitCleanup |>))
  | Phase.RemoveAwaitCleanup => decide_cleanup operation observations pod_identities target_pod_role_label now
  | Phase.RemoveDeleteTargetPod =>
      target_id ← remove_target_replica_id operation;
      pod_uid ← remove_target_pod_uid operation;
      if bool_decide (pod_identities !! target_id = Some pod_uid) then
        pod_name ← remove_target_pod_name operation; Ok (DeletePod pod_name pod_uid)
      else
        let cleanup := default (mkRemoveReplicaCleanupStatus false None false false) (op_remove_cleanup operation) in
        Ok (Persist (operation <| op_remove_cleanup := Some (cleanup <| cls_target_pod_deleted := true |>) |>
          <| op_phase := Phase.RemovePublishTopology |>))
  | Phase.RemovePublishTopology =>
      cleanup ← or_fail (op_remove_cleanup operation) "remove publication has no cleanup evidence";
      if negb (cls_connection_absent cleanup) || none (cls_target_retirement cleanup) ||
         negb (cls_target_labels_fenced cleanup) || negb (cls_target_pod_deleted cleanup) then
        Ok (Persist (invalid_removal operation "remove publication lacks exact post-commit cleanup evidence"))
      else Ok (CommitSnapshot (operation <| op_phase := Phase.RemoveFinalize |>) (op_target_snapshot operation))
  | Phase.RemoveFinalize =>
      Ok (Complete (operation <| op_phase := Phase.Completed |> <| op_pending_action := None |>)
            (op_target_snapshot operation) false)
  | phase => error ("phase " +:+ Phase.debug phase +:+ " is not valid for committed coarse removal")
  end.

Definition decide_remove_replica (operation : DurableOperationStatus) (observations : OperationObservations)
    (pod_identities : gmap Z string) (target_pod_role_label : option string) (now : Z) : result failure Decision :=
  validate_remove_operation operation;;
  match op_phase operation with
  | Phase.Completed | Phase.Failed | Phase.Poisoned => Ok Wait
  | phase =>
      if negb (none (op_remove_commit_evidence operation))
      then decide_post_commit operation observations pod_identities target_pod_role_label now
      else match phase with
      | Phase.RemoveFreezeIntent => freeze_attempt operation observations now
      | Phase.RemoveDispatchIntent => dispatch_remove_intent operation
      | Phase.RemoveAwaitCoordination => decide_remove_await operation observations pod_identities now
      | Phase.RemoveRecordCommit => error "remove commit-record phase has no durable commit evidence"
      | Phase.RemoveCompensateFinalize =>
          snapshot ← unwrap (op_previous_snapshot operation);
          Ok (Complete (operation <| op_phase := Phase.Failed |> <| op_pending_action := None |>) snapshot true)
      | phase => error ("phase " +:+ Phase.debug phase +:+ " is not valid for pre-commit coarse removal")
      end
  end.
End workflow.
