(* ===== verification/RemoveSteps.v ===== *)
(** What the remove-replica workflow relies on: the request it accepts, the
    round trip of a frozen intent through its status form, and that deciding
    never panics. *)

From S2P Require Import Prelude Types Lifecycle AddReplica RemoveReplica Control Replicator Agent Convert Wire Crd Operation AddWorkflow AddSteps RemoveWorkflow.

Set Default Goal Selector "!".

(** ** The request *)

Lemma validate_remove_snapshot_Ok s : validate_remove_snapshot s = Ok tt ↔ valid_topology s.
Proof.
  unfold validate_remove_snapshot. set (f := λ (scan : gset Z * gset string * Z) (member : StableReplicaSnapshotStatus), _).
  rewrite <-(scan_valid s f).
  - rewrite bind_Ok. split.
    + intros ([] & Hne%fail_if_Ok%bool_decide_eq_false & (r & Hr & H%fail_if_Ok)%bind_Ok). guards.
      split; [done|]. split; [|lia]. exists r. split; [done|lia].
    + intros (Hne & (r & Hr & H1) & Hq). exists tt. split; [by apply fail_if_Ok, bool_decide_eq_false|].
      apply bind_Ok. exists r. split; [exact Hr|]. by rewrite H1, Hq, !Z.eqb_refl.
  - intros ids instances n m r. unfold f, named, empty. split.
    + intros ([] & H1%fail_if_Ok & ([] & H3%fail_if_Ok & [= <-])%bind_Ok)%bind_Ok.
      guards. split_and!; try done; [lia|]. intros Hr. rewrite (bool_decide_eq_true_2 _ Hr) in H3. simpl in H3. by guards.
    + intros ((H0 & Hne & Hp) & Hi & Hs & ->). rewrite (proj2 (Z.leb_gt _ _)) by lia.
      rewrite (bool_decide_eq_false_2 _ Hi), (bool_decide_eq_false_2 _ Hne), (bool_decide_eq_false_2 _ Hs). cbn.
      case_bool_decide as Hr; simpl; [|done]. by rewrite (Hp Hr), Z.eqb_refl.
Qed.

(** What a started removal asks for: the topology [T] is [p] without the
    incarnation [inst] of the secondary [id]. *)
Record removal_request (p T : StablePartitionSnapshotStatus) (id : Z) (inst : string) : Prop := mkRemovalRequest {
  rq_previous : valid_topology p;
  rq_target : valid_topology T;
  rq_primary : ss_primary_id T = ss_primary_id p;
  rq_epoch : ss_epoch T = ss_epoch p;
  rq_secondary : id ≠ ss_primary_id p;
  rq_member : ∃ m, m ∈ ss_members p ∧ srs_id m = id ∧ srs_instance_id m = inst ∧ srs_role m = StableActiveSecondary;
  rq_members : ss_members T = filter (λ m, srs_id m ≠ id) (ss_members p);
  rq_quorum : ss_write_quorum p ≤ Z.of_nat (length (ss_members T));
}.

(** The operation a request starts. *)
Record removes_as (p : StablePartitionSnapshotStatus) (id : Z) (inst pod : string) (mode : DurableRemoveMode)
    (op : DurableOperationStatus) : Prop := mkRemovesAs {
  ra_request : removal_request p (op_target_snapshot op) id inst;
  ra_previous : op_previous_snapshot op = Some p;
  ra_version : op_version op = REMOVE_REPLICA_OPERATION_VERSION;
  ra_kind : op_kind op = OpRemoveReplica;
  ra_old_primary : op_old_primary_id op = ss_primary_id p;
  ra_target_primary : op_target_primary_id op = ss_primary_id p;
  ra_mode : op_remove_mode op = Some mode;
  ra_add : op_add_mode op = None ∧ op_add_intent op = None;
  ra_target_id : op_target_replica_id op = Some id;
  ra_target_instance : op_target_instance_id op = Some inst;
  ra_target_pod : op_target_pod_name op = Some pod;
  ra_target_uid : op_target_pod_uid op = Some inst;
  ra_named : inst ≠ "" ∧ pod ≠ "";
  ra_address : ∃ address, op_remove_target_replicator_address op = Some address ∧ address ≠ "";
  ra_generation : mode = RmScaleDown → op_remove_target_agent_generation op ≠ None;
}.

Lemma start_remove_replica_Ok uid p request mode min_replicas now op :
  start_remove_replica uid p request mode min_replicas now = Ok op →
  removes_as p (rt_replica_id request) (rt_pod_uid request) (rt_pod_name request) mode op ∧
  op_phase op = Phase.RemoveFreezeIntent ∧ op_pending_action op = None ∧ op_committed_snapshot op = None ∧
  op_remove_intent op = None ∧ op_remove_commit_evidence op = None ∧ op_remove_cleanup op = None ∧
  op_removal_disposition op = None.
Proof.
  unfold start_remove_replica. intros ([] & Hv%validate_remove_snapshot_Ok & H)%bind_Ok.
  apply bind_Ok in H as ([] & Hne%fail_if_Ok & H). apply bind_Ok in H as ([] & Hgen%fail_if_Ok & H).
  apply bind_Ok in H as ([] & Hprim%fail_if_Ok & H). apply bind_Ok in H as (m & Hm%or_fail_Ok & H).
  apply bind_Ok in H as ([] & Hrole%fail_if_Ok & H). apply bind_Ok in H as ([] & Hinst%fail_if_Ok & H).
  apply bind_Ok in H as ([] & Hmin%fail_if_Ok & H). apply bind_Ok in H as ([] & Hq%fail_if_Ok & H).
  apply bind_Ok in H as ([] & Ht%validate_remove_snapshot_Ok & [= <-]). unfold empty in *. guards.
  apply Z.eqb_neq in Hprim. pose proof (find_id (ss_members p) (rt_replica_id request)) as Hf. rewrite Hm in Hf.
  destruct Hf as [Hin Hid]. destruct (vt_named _ Hv m Hin) as (_ & Hmne & _). split; [|done].
  split; cbn [op_target_snapshot op_previous_snapshot op_version op_kind op_old_primary_id op_target_primary_id op_remove_mode
    op_add_mode op_add_intent op_target_replica_id op_target_instance_id op_target_pod_name op_target_pod_uid
    op_remove_target_replicator_address op_remove_target_agent_generation]; try done; try congruence.
  - split; try done. exists m. by split_and!.
  - by eexists.
  - intros ->. rewrite bool_decide_eq_true_2 in Hgen by done. by destruct (rt_agent_generation request).
Qed.

(** ** Frozen configurations *)

(** The target's incarnation, where it answers. *)
Definition answers (obs : OperationObservations) (m : StableReplicaSnapshotStatus) (o : ReplicaObservation) : Prop :=
  obs !! srs_id m = Some o ∧ si_instance_id (ro_status o) = srs_instance_id m.

(** The member of a removal's configuration that stands for a replica: as the
    replica answers or, for the target alone, as it last was. *)
Definition stands_for (op : DurableOperationStatus) (id : Z) (inst : string) (obs : OperationObservations)
    (m : StableReplicaSnapshotStatus) (c : ConfigurationMemberDescriptor) : Prop :=
  (∃ o, answers obs m o ∧
     c = mkConfigurationMemberDescriptor (srs_id m) (srs_instance_id m) ActiveSecondary Up (ro_replicator_address o) false
       (Frozen (si_current_progress (ro_status o))
          (default (si_current_progress (ro_status o)) (si_catch_up_capability (ro_status o))))) ∨
  (srs_id m = id ∧ srs_instance_id m = inst ∧ (∀ o, ¬ answers obs m o) ∧
   ∃ address a b, op_remove_target_replicator_address op = Some address ∧
     c = mkConfigurationMemberDescriptor (srs_id m) (srs_instance_id m) ActiveSecondary Down address false (Frozen a b)).

Definition remove_configures (op : DurableOperationStatus) (id : Z) (inst : string) (s : StablePartitionSnapshotStatus)
    (obs : OperationObservations) (d : ConfigurationDescriptor) : Prop :=
  ∃ cs, Forall2 (stands_for op id inst obs) (secondaries s) cs ∧
    d = mkConfigurationDescriptor (sort_by_key cd_id cs) (ss_write_quorum s).

Definition settled_member (m : ConfigurationMemberDescriptor) : Prop :=
  cd_role m = ActiveSecondary ∧ cd_must_catch_up m = false ∧ is_frozen (cd_progress m) = true.

Section descriptors.
  Context (p : StablePartitionSnapshotStatus) (id : Z) (inst pod : string) (mode : DurableRemoveMode).
  Context (op : DurableOperationStatus) (Hs : removes_as p id inst pod mode op).

Lemma remove_targets :
  remove_target_replica_id op = Ok id ∧ remove_target_instance_id op = Ok inst ∧
  remove_target_pod_name op = Ok pod ∧ remove_target_pod_uid op = Ok inst ∧
  remove_mode op = Ok (match mode with RmScaleDown => ScaleDown | RmForce => Force end).
Proof.
  destruct (ra_named _ _ _ _ _ _ Hs) as [Hi Hp].
  unfold remove_target_replica_id, remove_target_instance_id, remove_target_pod_name, remove_target_pod_uid, remove_mode.
  rewrite (ra_target_id _ _ _ _ _ _ Hs), (ra_target_instance _ _ _ _ _ _ Hs), (ra_target_pod _ _ _ _ _ _ Hs),
    (ra_target_uid _ _ _ _ _ _ Hs), (ra_mode _ _ _ _ _ _ Hs), !filled_Some by done. by destruct mode.
Qed.

Lemma describe_remove_member_Ok obs m c :
  describe_remove_member op obs id inst m = Ok c → stands_for op id inst obs m c.
Proof.
  unfold describe_remove_member, stands_for, answers. destruct (obs !! srs_id m) as [o|] eqn:Ho.
  - case_bool_decide as Hi.
    + cbn [none negb andb fail_if reject_if mbind result_bind or_fail ok_or]. intros [= <-]. left. by exists o.
    + intros ([] & Ht%fail_if_Ok & H)%bind_Ok. apply bind_Ok in H as (a & Ha%or_fail_Ok & [= <-]). right. cbn in Ht.
      apply negb_false_iff, andb_true_iff in Ht as [Hid%Z.eqb_eq Hinst%bool_decide_eq_true].
      split_and!; [done..|by intros o' [[= <-] ?]|]. destruct (srs_election_metadata m) as [md|]; by eexists _, _, _.
  - intros ([] & Ht%fail_if_Ok & H)%bind_Ok. apply bind_Ok in H as (a & Ha%or_fail_Ok & [= <-]). right. cbn in Ht.
    apply negb_false_iff, andb_true_iff in Ht as [Hid%Z.eqb_eq Hinst%bool_decide_eq_true].
    split_and!; [done..|by intros o' [? ?]|]. destruct (srs_election_metadata m) as [md|]; by eexists _, _, _.
Qed.

Lemma remove_descriptor_for_snapshot_Ok s obs reduced d :
  remove_descriptor_for_snapshot op s obs reduced = Ok d →
  remove_configures op id inst s obs d.
Proof.
  destruct remove_targets as (Hid & Hinst & _). unfold remove_descriptor_for_snapshot. rewrite Hid, Hinst. cbn [mbind result_bind].
  rewrite bind_Ok. intros (cs & Hcs & ([] & _ & [= <-])%bind_Ok). exists cs. split; [|done].
  eapply try_map_Ok in Hcs; [exact Hcs|]. apply describe_remove_member_Ok.
Qed.
End descriptors.

Lemma remove_configures_settled op id inst s obs d m :
  remove_configures op id inst s obs d → m ∈ cfg_members d → settled_member m.
Proof.
  intros (cs & Hcs & ->). cbn. rewrite elem_of_sort_by_key. intros [i Hi]%list_elem_of_lookup.
  destruct (Forall2_lookup_r _ _ _ _ _ Hcs Hi) as (x & _ & [(o & _ & ->)|(_ & _ & _ & a & b & c & _ & ->)]); done.
Qed.

Lemma remove_descriptor_status_Ok d :
  (∀ m, m ∈ cfg_members d → settled_member m) → remove_descriptor_status d = Ok (add_descriptor_status d).
Proof.
  intros Hp. unfold remove_descriptor_status.
  assert (try_map remove_member_status (cfg_members d) = Ok (member_status <$> cfg_members d)) as ->; [|done].
  induction (cfg_members d) as [|m l IH]; [done|]. cbn [try_map]. rewrite IH by (intros; apply Hp; by right).
  destruct (Hp m) as (_ & _ & Hf); [left|]. unfold remove_member_status, member_status.
  by destruct m as [? ? ? ? ? ? []].
Qed.

Lemma remove_core_member_Ok ids instances m r :
  settled_member m → remove_core_member (ids, instances) (member_status m) = Ok r ↔
  0 < cd_id m ∧ cd_instance_id m ≠ "" ∧ (cd_id m ∉ ids) ∧ (cd_instance_id m ∉ instances) ∧
  r = ({[cd_id m]} ∪ ids, {[cd_instance_id m]} ∪ instances, m).
Proof.
  destruct m as [id inst role status address must progress]. intros (Hr & Hm & Hf). cbn in Hr, Hm, Hf. subst.
  destruct progress as [a b|]; [|done].
  assert (remove_core_member (ids, instances) (member_status (mkConfigurationMemberDescriptor id inst ActiveSecondary status address false (Frozen a b))) =
    (reject_if ((id <=? 0) || bool_decide (id ∈ ids)) "remove descriptor has an invalid or duplicate replica ID";;
     reject_if (empty inst || bool_decide (inst ∈ instances)) "remove descriptor has a missing or duplicate incarnation";;
     Ok ({[id]} ∪ ids, {[inst]} ∪ instances,
         mkConfigurationMemberDescriptor id inst ActiveSecondary status address false (Frozen a b)))) as ->.
  { by destruct status. }
  cbn [cd_id cd_instance_id]. unfold empty. split.
  - intros ([] & H1%reject_if_Ok & ([] & H2%reject_if_Ok & [= <-])%bind_Ok)%bind_Ok. guards. split_and!; done || lia.
  - intros (H0 & Hne & Hi & Hs & ->). rewrite (proj2 (Z.leb_gt _ _)) by lia.
    by rewrite (bool_decide_eq_false_2 _ Hi), (bool_decide_eq_false_2 _ Hne), (bool_decide_eq_false_2 _ Hs).
Qed.

(** A frozen configuration is read back as itself, exactly when its members
    are distinct. *)
Lemma remove_descriptor_exact d d' :
  (∀ m, m ∈ cfg_members d → settled_member m) →
  remove_core_descriptor (add_descriptor_status d) = Ok d' ↔ d' = d ∧ distinct_members (cfg_members d).
Proof.
  intros Hp. unfold remove_core_descriptor. change (λ scan member, _) with (read_step remove_core_member).
  change (cds_members (add_descriptor_status d)) with (member_status <$> cfg_members d).
  assert (∀ members, (∃ seen, try_fold (read_step remove_core_member) (∅, ∅, []) (member_status <$> cfg_members d) = Ok (seen, members)) ↔
    members = cfg_members d ∧ distinct_members (cfg_members d)) as Hall.
  { intros members. by apply (read_all remove_core_member member_status settled_member); [apply remove_core_member_Ok|]. }
  rewrite bind_Ok. split.
  - intros ([seen members] & Hsc & [= <-]). destruct (proj1 (Hall members) (ex_intro _ seen Hsc)) as (-> & Hd). by destruct d.
  - intros (-> & Hd). destruct (proj2 (Hall _) (conj eq_refl Hd)) as (seen & Hsc). eexists. split; [exact Hsc|]. by destruct d.
Qed.

Lemma valid_descriptor_distinct {Ends : Endpoints} name d : validate_descriptor name d = Ok tt → distinct_members (cfg_members d).
Proof. intros (_ & Hi & Hn & Hall)%validated_descriptor. split; [|done]. intros m Hm. by destruct (Hall m Hm) as (? & ? & _). Qed.

(** ** The observed intent *)

(** The primary answers as the stable topology has it, and takes writes. *)
Definition exact_primary (p : StablePartitionSnapshotStatus) (o : ReplicaObservation) : Prop :=
  (∃ m, m ∈ ss_members p ∧ srs_id m = ss_primary_id p ∧ si_instance_id (ro_status o) = srs_instance_id m) ∧
  si_role (ro_status o) = Primary ∧ si_epoch (ro_status o) = to_epoch (ss_epoch p) ∧
  si_write_status (ro_status o) = Granted ∧ si_healthy (ro_status o) = true.

Definition removal_mode (mode : DurableRemoveMode) : RemoveReplicaMode :=
  match mode with RmScaleDown => ScaleDown | RmForce => Force end.

(** The configuration each observation stands for. *)
Definition configuration_shown (p T : StablePartitionSnapshotStatus) (c : ConfigurationObservation) : ReplicaConfigurationStatus :=
  match c with
  | PreviousCurrent => remove_configuration_status p Current
  | ReducedCatchUp => remove_configuration_status T CatchUp
  | ReducedCurrent => remove_configuration_status T Current
  end.

(** A valid intent that records what was observed of a removal. *)
Record removal_of {Ends : Endpoints} (op : DurableOperationStatus) (p : StablePartitionSnapshotStatus) (id : Z)
    (inst pod : string) (mode : DurableRemoveMode) (obs : OperationObservations) (now : Z)
    (core : RemoveReplicaIntent) : Prop := mkRemovalOf {
  rf_primary : ∃ o c, obs !! ss_primary_id p = Some o ∧ exact_primary p o ∧
    si_configuration (ro_status o) = Some (configuration_shown p (op_target_snapshot op) c) ∧
    rm_primary_replica_id core = ss_primary_id p ∧ rm_primary_instance_id core = si_instance_id (ro_status o) ∧
    rm_primary_agent_generation core = as_generation (si_agent (ro_status o)) ∧
    rm_primary_agent_control_version core = as_control_version (si_agent (ro_status o)) ∧
    rm_primary_control_address core = ro_control_address o ∧ rm_primary_replicator_address core = ro_replicator_address o;
  rf_target : rm_target_replica_id core = id ∧ rm_target_instance_id core = inst ∧ rm_expected_target_pod_uid core = inst ∧
    rm_target_pod_name core = pod;
  rf_named : ∃ t, (∀ o, t = Some o → obs !! id = Some o ∧ si_instance_id (ro_status o) = inst) ∧
    rm_expected_target_agent_generation core = (λ o, as_generation (si_agent (ro_status o))) <$> t ∧
    rm_target_control_address core = ro_control_address <$> t ∧ rm_target_replicator_address core = ro_replicator_address <$> t ∧
    rm_target_lifecycle_peer_protocol_version core = (λ _, REPLICA_LIFECYCLE_PEER_PROTOCOL_VERSION) <$> t;
  rf_scale_down : mode = RmScaleDown → ∃ o, obs !! id = Some o ∧ si_instance_id (ro_status o) = inst ∧
    si_healthy (ro_status o) = true ∧ op_remove_target_agent_generation op = Some (as_generation (si_agent (ro_status o)));
  rf_operation : rm_protocol_version core = REMOVE_REPLICA_INTENT_PROTOCOL_VERSION ∧ rm_operation_id core = op_operation_id op ∧
    rm_mode core = removal_mode mode ∧ rm_epoch core = to_epoch (ss_epoch p) ∧
    rm_minimum_committed_replicas core = default 1 (op_minimum_committed_replicas op);
  rf_attempt : 1 ≤ rm_attempt_number core ≤ MAX_REMOVE_REPLICA_PRE_COMMIT_ATTEMPTS ∧
    rm_action_id core = rm_attempt_id core +:+ ":RemoveReplicaIntent";
  rf_previous : remove_configures op id inst p obs (rm_previous_configuration core);
  rf_reduced : remove_configures op id inst (op_target_snapshot op) obs (rm_reduced_current_configuration core);
  rf_catch_up : rm_reduced_catch_up_configuration core = rm_reduced_current_configuration core;
  rf_deadline : rm_overall_deadline_unix_seconds core = i64_add now REMOVE_REPLICA_OVERALL_TIMEOUT_SECONDS;
  rf_valid : validate_remove_intent core = Ok tt;
}.

(** Its status form, and what the coordinator's progress changes of it. *)
Definition frozen_removal (core : RemoveReplicaIntent) : RemoveReplicaIntentStatus :=
  remove_intent_status core (add_descriptor_status (rm_previous_configuration core))
    (add_descriptor_status (rm_reduced_current_configuration core)).

Definition progressed (i i' : RemoveReplicaIntentStatus) : Prop :=
  ∃ phase result expiry dispatched, i' = i <| ris_last_observed_phase := phase |> <| ris_last_observed_result := result |>
    <| ris_compensation_expiry_unix_seconds := expiry |> <| ris_current_install_dispatched := dispatched |>.

(** What progress does not change. *)
Record same_attempt (i i' : RemoveReplicaIntentStatus) : Prop := mkSameAttempt {
  sa_attempt : ris_attempt i' = ris_attempt i ∧ ris_attempt_id i' = ris_attempt_id i ∧ ris_action_id i' = ris_action_id i ∧
    ris_input_signature i' = ris_input_signature i;
  sa_primary : ris_primary_instance_id i' = ris_primary_instance_id i ∧
    ris_primary_agent_generation i' = ris_primary_agent_generation i ∧
    ris_primary_agent_control_version i' = ris_primary_agent_control_version i ∧
    ris_primary_control_address i' = ris_primary_control_address i ∧
    ris_primary_replicator_address i' = ris_primary_replicator_address i;
  sa_target : ris_target_agent_generation i' = ris_target_agent_generation i ∧
    ris_target_control_address i' = ris_target_control_address i ∧
    ris_target_replicator_address i' = ris_target_replicator_address i ∧
    ris_target_lifecycle_peer_protocol_version i' = ris_target_lifecycle_peer_protocol_version i;
  sa_configurations : ris_previous_configuration i' = ris_previous_configuration i ∧
    ris_reduced_catch_up_configuration i' = ris_reduced_catch_up_configuration i ∧
    ris_reduced_current_configuration i' = ris_reduced_current_configuration i ∧
    ris_required_write_quorum i' = ris_required_write_quorum i;
  sa_limits : ris_maximum_pre_commit_attempts i' = ris_maximum_pre_commit_attempts i ∧
    ris_overall_deadline_unix_seconds i' = ris_overall_deadline_unix_seconds i ∧
    ris_compensation_grace_seconds i' = ris_compensation_grace_seconds i ∧
    ris_compensation_deadline_cap_unix_seconds i' = ris_compensation_deadline_cap_unix_seconds i ∧
    ris_call_timeout_seconds i' = ris_call_timeout_seconds i ∧
    ris_target_retirement_timeout_seconds i' = ris_target_retirement_timeout_seconds i;
}.

Lemma progressed_same i i' : progressed i i' → same_attempt i i'.
Proof. intros (? & ? & ? & ? & ->). by destruct i. Qed.

Lemma progressed_refl i : progressed i i.
Proof. destruct i as [? ? ? ? ? ? ? ? ? ? ? ? ? ? ? ? ? ? ? ? ? ? ? a b c d]. by exists b, c, a, d. Qed.

Lemma progressed_commit i phase expiry dispatched :
  progressed i (i <| ris_last_observed_phase := phase |> <| ris_compensation_expiry_unix_seconds := expiry |>
    <| ris_current_install_dispatched := dispatched |>).
Proof. exists phase, (ris_last_observed_result i), expiry, dispatched. by destruct i. Qed.

Lemma progressed_cleanup i phase result :
  progressed i (i <| ris_last_observed_phase := phase |> <| ris_last_observed_result := result |>).
Proof. exists phase, result, (ris_compensation_expiry_unix_seconds i), (ris_current_install_dispatched i). by destruct i. Qed.

Lemma progressed_trans i i' i'' : progressed i i' → progressed i' i'' → progressed i i''.
Proof. intros (? & ? & ? & ? & ->) (a & b & c & d & ->). exists a, b, c, d. by destruct i. Qed.

Section observed.
  Context {Ends : Endpoints}.
  Context (p : StablePartitionSnapshotStatus) (id : Z) (inst pod : string) (mode : DurableRemoveMode).

Lemma validate_primary_identity_Ok op o :
  removes_as p id inst pod mode op → validate_primary_identity op o = Ok tt → exact_primary p o.
Proof.
  intros Hs. unfold validate_primary_identity. rewrite (ra_previous _ _ _ _ _ _ Hs), (ra_old_primary _ _ _ _ _ _ Hs).
  cbn [expect_previous ok_or mbind result_bind]. pose proof (find_id (ss_members p) (ss_primary_id p)) as Hf.
  intros (m & Hm%or_fail_Ok & Hg%fail_if_Ok)%bind_Ok. rewrite Hm in Hf. destruct Hf as [Hin Hid]. guards.
  split; [by exists m|]. done.
Qed.

Lemma classify_configuration_Ok op status c :
  removes_as p id inst pod mode op → classify_configuration op status = Ok c →
  si_configuration status = Some (configuration_shown p (op_target_snapshot op) c).
Proof.
  intros Hs. unfold classify_configuration. rewrite (ra_previous _ _ _ _ _ _ Hs).
  intros (cfg & Hcfg%or_fail_Ok & H)%bind_Ok. cbn [expect_previous ok_or mbind result_bind] in H. rewrite Hcfg.
  repeat case_bool_decide; try (injection H as <-; simpl; congruence). done.
Qed.

Lemma next_attempt_pos op c o : (∀ i, op_remove_intent op = Some i → 1 ≤ ris_attempt i) → 1 ≤ (next_attempt op c o).1.
Proof.
  intros Hi. unfold next_attempt. destruct (op_remove_intent op) as [i|]; [|done]. specialize (Hi i eq_refl).
  destruct (_ && _); cbn; [done|]. unfold u32_saturating_add, u32_max. lia.
Qed.

(** What freezing an attempt records. *)
Lemma freeze_attempt_Ok op obs now d :
  removes_as p id inst pod mode op → (∀ i, op_remove_intent op = Some i → 1 ≤ ris_attempt i) →
  freeze_attempt op obs now = Ok d →
  (∃ message, d = Persist (failed_precommit op message)) ∨
  ∃ core, removal_of op p id inst pod mode obs now core ∧
    d = Persist (op <| op_remove_intent := Some (frozen_removal core) |> <| op_pending_action := None |>
      <| op_phase := Phase.RemoveDispatchIntent |>
      <| op_phase_deadline_unix_seconds := rm_overall_deadline_unix_seconds core |> <| op_last_error := None |>).
Proof.
  intros Hs Hatt. destruct (remove_targets p id inst pod mode op Hs) as (Hid & Hinst & Hpod & Huid & Hmode).
  unfold freeze_attempt. rewrite (ra_old_primary _ _ _ _ _ _ Hs), Hid, (ra_previous _ _ _ _ _ _ Hs), (ra_mode _ _ _ _ _ _ Hs).
  intros (o & Ho%or_fail_Ok & H)%bind_Ok. apply bind_Ok in H as ([] & Hprim%(validate_primary_identity_Ok _ _ Hs) & H).
  apply bind_Ok in H as (c & Hc & H). cbn [mbind result_bind expect_previous ok_or] in H.
  apply bind_Ok in H as ([] & Htarget & H). apply bind_Ok in H as (prev & Hprev & H). apply bind_Ok in H as (red & Hred & H).
  apply (remove_descriptor_for_snapshot_Ok p id inst pod mode op Hs) in Hprev, Hred.
  pose proof (next_attempt_pos op c o Hatt) as Hpos. destruct (next_attempt op c o) as [attempt redrive]. cbn in Hpos.
  destruct (Z.ltb_spec MAX_REMOVE_REPLICA_PRE_COMMIT_ATTEMPTS attempt) as [Hl|Hl]; [injection H as <-; left; by eexists|right].
  unfold unsigned_remove_intent in H. rewrite Hid, Hinst, Hpod, Huid, Hmode, (ra_previous _ _ _ _ _ _ Hs), (ra_old_primary _ _ _ _ _ _ Hs) in H.
  cbn [expect_previous ok_or mbind result_bind] in H. apply bind_Ok in H as ([] & Hvalid%lift_Ok & H).
  match type of Hvalid with validate_remove_intent ?core' = _ => set (core := core') in * end.
  rewrite (remove_descriptor_status_Ok prev (λ m, remove_configures_settled _ _ _ _ _ _ m Hprev)) in H.
  rewrite (remove_descriptor_status_Ok red (λ m, remove_configures_settled _ _ _ _ _ _ m Hred)) in H. cbn [mbind result_bind] in H.
  exists core. split; [|by injection H as <-]. split.
  - exists o, c. apply (classify_configuration_Ok _ _ _ Hs) in Hc. by split_and!.
  - done.
  - exists (nameable_target op (obs !! id)). split; [|done]. unfold nameable_target, instance_or_default. rewrite Hinst.
    destruct (obs !! id) as [t|]; [|by intros]. 
    destruct (bool_decide (si_instance_id (ro_status t) = inst)) eqn:Hb; [|by intros]. apply bool_decide_eq_true in Hb.
    destruct (_ =? _); [|by intros]. by intros o' [= <-].
  - intros ->. cbn in Htarget. apply bind_Ok in Htarget as (t & Ht%or_fail_Ok & Hv). exists t. split; [done|].
    unfold validate_scale_down_target in Hv. rewrite Hinst in Hv.
    apply bind_Ok in Hv as ([] & Hg%fail_if_Ok & Hv). cbn [mbind result_bind] in Hv. apply fail_if_Ok in Hv. by guards.
  - done.
  - done.
  - done.
  - done.
  - done.
  - done.
  - done.
Qed.

(** What was frozen is read back as the intent that was observed. *)
Lemma core_remove_intent_frozen op obs now core i c :
  removes_as p id inst pod mode op → removal_of op p id inst pod mode obs now core →
  op_remove_intent op = Some i → progressed (frozen_removal core) i →
  core_remove_intent op = Ok c ↔ c = core ∧ generation_ok (rm_primary_agent_generation core) ∧
    ∀ g, rm_expected_target_agent_generation core = Some g → generation_ok g.
Proof.
  intros Hs Hrf Hi [(Ha1 & Ha2 & Ha3 & Ha4) (Hb1 & Hb2 & Hb3 & Hb4 & Hb5) (Hc1 & Hc2 & Hc3 & Hc4) (Hd1 & Hd2 & Hd3 & Hd4)
    (He1 & He2 & He3 & He4 & He5 & He6)]%progressed_same.
  destruct (remove_targets p id inst pod mode op Hs) as (Hid & Hinst & Hpod & Huid & Hmode).
  pose proof (rf_valid _ _ _ _ _ _ _ _ _ Hrf) as Hv. destruct (validated_parts _ Hv) as (Hvp & _ & Hvr & _).
  destruct Hrf as [(o & _ & _ & _ & _ & Hpid & _) (Htid & Htinst & Huid' & Hpod') _ _ (Hver & Hop & Hm & Hep & Hmin) [_ Hact] Hp Hr Hc _ _].
  unfold core_remove_intent. rewrite Hi, Hid, Hinst, Hpod, Huid, Hmode, (ra_previous _ _ _ _ _ _ Hs), (ra_old_primary _ _ _ _ _ _ Hs).
  cbn [or_fail ok_or mbind result_bind expect_previous].
  rewrite Ha1, Ha2, Ha3, Ha4, Hb1, Hb2, Hb3, Hb4, Hb5, Hc1, Hc2, Hc3, Hc4, Hd1, Hd2, Hd3, Hd4, He1, He2, He3, He4, He5, He6.
  cbn [ris_attempt ris_attempt_id ris_action_id ris_input_signature ris_primary_instance_id ris_primary_agent_generation
    ris_primary_agent_control_version ris_primary_control_address ris_primary_replicator_address ris_target_agent_generation
    ris_target_control_address ris_target_replicator_address ris_target_lifecycle_peer_protocol_version
    ris_previous_configuration ris_reduced_catch_up_configuration ris_reduced_current_configuration ris_required_write_quorum
    ris_maximum_pre_commit_attempts ris_overall_deadline_unix_seconds ris_compensation_grace_seconds
    ris_compensation_deadline_cap_unix_seconds ris_call_timeout_seconds ris_target_retirement_timeout_seconds
    frozen_removal remove_intent_status over].
  rewrite (proj2 (remove_descriptor_exact _ _ (λ m, remove_configures_settled _ _ _ _ _ _ m Hp))
    (conj eq_refl (valid_descriptor_distinct _ _ Hvp))).
  rewrite (proj2 (remove_descriptor_exact _ _ (λ m, remove_configures_settled _ _ _ _ _ _ m Hr))
    (conj eq_refl (valid_descriptor_distinct _ _ Hvr))).
  cbn [mbind result_bind lift map_err]. rewrite !bind_Ok. setoid_rewrite lift_Ok.
  assert (∀ g tg, g = rm_primary_agent_generation core → tg = rm_expected_target_agent_generation core →
    mkRemoveReplicaIntent REMOVE_REPLICA_INTENT_PROTOCOL_VERSION (op_operation_id op) (rm_action_id core) (rm_attempt_number core)
      (rm_attempt_id core) (rm_input_signature core) (match mode with RmScaleDown => ScaleDown | RmForce => Force end)
      (to_epoch (ss_epoch p)) (ss_primary_id p) (rm_primary_instance_id core) g (rm_primary_agent_control_version core)
      (rm_primary_control_address core) (rm_primary_replicator_address core) id inst inst pod tg (rm_target_control_address core)
      (rm_target_replicator_address core) (rm_target_lifecycle_peer_protocol_version core) (rm_previous_configuration core)
      (rm_reduced_current_configuration core) (rm_reduced_current_configuration core) (rm_required_write_quorum core)
      (default 1 (op_minimum_committed_replicas op)) (rm_maximum_pre_commit_attempts core) (rm_overall_deadline_unix_seconds core)
      (rm_compensation_grace_seconds core) (rm_compensation_deadline_cap_unix_seconds core) (rm_call_timeout_seconds core)
      (rm_target_retirement_timeout_seconds core) = core) as Hcore.
  { intros g tg -> ->. destruct core. cbn in *. by subst. }
  split.
  - intros (g & [<- Hg]%generation_parse_Ok & H). apply bind_Ok in H as (tg & Htg & H).
    assert (tg = rm_expected_target_agent_generation core ∧ ∀ g, rm_expected_target_agent_generation core = Some g → generation_ok g) as [-> Hok].
    { destruct (rm_expected_target_agent_generation core) as [g|].
      - apply bind_Ok in Htg as (g' & [<- Hg']%lift_Ok%generation_parse_Ok & [= <-]). split; [done|]. by intros ? [= <-].
      - injection Htg as <-. done. }
    rewrite Hcore, Hv in H by done. by injection H as <-.
  - intros (-> & Hg & Htg). eexists. split; [exact Hg|]. apply bind_Ok. exists (rm_expected_target_agent_generation core). split.
    + destruct (rm_expected_target_agent_generation core) as [g|]; [|done]. by rewrite (Htg g eq_refl).
    + by rewrite Hcore, Hv.
Qed.
End observed.

(** ** No decision panics *)

Section panics.
  Context {Ends : Endpoints}.
  Context (p : StablePartitionSnapshotStatus) (id : Z) (inst pod : string) (mode : DurableRemoveMode).
  Context (op : DurableOperationStatus) (Hs : removes_as p id inst pod mode op).

Lemma panics_expect_previous : panics (expect_previous (op_previous_snapshot op)) = false.
Proof. by rewrite (ra_previous _ _ _ _ _ _ Hs). Qed.
Lemma panics_remove_targets :
  panics (remove_target_replica_id op) = false ∧ panics (remove_target_instance_id op) = false ∧
  panics (remove_target_pod_name op) = false ∧ panics (remove_target_pod_uid op) = false ∧ panics (remove_mode op) = false.
Proof. by destruct (remove_targets p id inst pod mode op Hs) as (-> & -> & -> & -> & ->). Qed.
#[local] Hint Resolve panics_expect_previous : panics.
#[local] Hint Extern 1 (panics (remove_target_replica_id _) = _) => apply panics_remove_targets : panics.
#[local] Hint Extern 1 (panics (remove_target_instance_id _) = _) => apply panics_remove_targets : panics.
#[local] Hint Extern 1 (panics (remove_target_pod_name _) = _) => apply panics_remove_targets : panics.
#[local] Hint Extern 1 (panics (remove_target_pod_uid _) = _) => apply panics_remove_targets : panics.
#[local] Hint Extern 1 (panics (remove_mode _) = _) => apply panics_remove_targets : panics.

Lemma panics_core_remove : panics (core_remove_intent op) = false.
Proof. unfold core_remove_intent. quiet. Qed.
Lemma panics_classify_configuration status : panics (classify_configuration op status) = false.
Proof. unfold classify_configuration. quiet. Qed.
Lemma panics_primary_identity o : panics (validate_primary_identity op o) = false.
Proof. unfold validate_primary_identity. quiet. Qed.
#[local] Hint Resolve panics_core_remove panics_classify_configuration panics_primary_identity : panics.

Lemma panics_validate_remove_snapshot s : panics (validate_remove_snapshot s) = false.
Proof. unfold validate_remove_snapshot. quiet. Qed.
#[local] Hint Resolve panics_validate_remove_snapshot : panics.

Lemma panics_validate_remove : panics (validate_remove_operation op) = false.
Proof.
  unfold validate_remove_operation, validate_remove_topology, validate_remove_frozen, validate_remove_pending. quiet.
Qed.

Lemma panics_remove_descriptor s obs reduced : panics (remove_descriptor_for_snapshot op s obs reduced) = false.
Proof. unfold remove_descriptor_for_snapshot, describe_remove_member. quiet. Qed.
#[local] Hint Resolve panics_remove_descriptor : panics.

Lemma panics_remove_status s obs reduced d :
  remove_descriptor_for_snapshot op s obs reduced = Ok d → panics (remove_descriptor_status d) = false.
Proof.
  intros Hd%(remove_descriptor_for_snapshot_Ok p id inst pod mode op Hs).
  by rewrite (remove_descriptor_status_Ok d (λ m, remove_configures_settled _ _ _ _ _ _ m Hd)).
Qed.
#[local] Hint Extern 1 (panics (remove_descriptor_status _) = _) => eapply panics_remove_status; eassumption : panics.

Lemma panics_freeze_attempt obs now : panics (freeze_attempt op obs now) = false.
Proof.
  unfold freeze_attempt, validate_scale_down_target, validate_optional_force_target, unsigned_remove_intent. quiet.
Qed.
End panics.
