(* ===== verification/RemoveOutcomes.v ===== *)
(** What a reconcile of a removal can decide, and what each decision rests
    on. *)

From S2P Require Import Prelude Types Lifecycle AddReplica RemoveReplica Control Replicator Agent Convert Wire Crd Operation AddWorkflow AddSteps Turns RemoveWorkflow RemoveSteps.

Set Default Goal Selector "!".

(** ** Evidence *)

Section evidence.
  Context (p T : StablePartitionSnapshotStatus) (id : Z) (inst : string).

(** The primary, exact and writable, shows a configuration as current. *)
Definition primary_shows (s : StablePartitionSnapshotStatus) (o : ReplicaObservation) : Prop :=
  exact_primary p o ∧ si_configuration (ro_status o) = Some (remove_configuration_status s Current).

Definition shown_reduced (tn : membership_turn) : Prop :=
  ∃ o, mt_observations tn !! ss_primary_id p = Some o ∧ primary_shows T o.

(** What the primary's agent reports of the frozen action. *)
Definition reports (op : DurableOperationStatus) (obs : OperationObservations) (o : ReplicaObservation)
    (i : RemoveReplicaIntentStatus) (a : DurableActionObservation) : Prop :=
  obs !! ss_primary_id p = Some o ∧ op_remove_intent op = Some i ∧
  correlated_action_observation (ro_status o) (ris_action_id i) = Some a ∧ do_signature a = ris_input_signature i.

(** The action has ended without having dispatched the reduced installation,
    and the primary shows the previous configuration. *)
Definition ended_unreduced (op : DurableOperationStatus) (obs : OperationObservations) : Prop :=
  ∃ o i a, reports op obs o i a ∧ primary_shows p o ∧ (do_state a = Completed ∨ do_state a = Failed) ∧
    ris_current_install_dispatched i = false ∧
    ∀ progress, do_remove_replica_progress a = Some progress → rp_current_install_dispatched progress = false.

Definition shown_unreduced (tn : membership_turn) : Prop := ended_unreduced (mt_operation tn) (mt_observations tn).

(** The process that committed is not the primary any more. *)
Definition committer_gone (op : DurableOperationStatus) (obs : OperationObservations) (pods : gmap Z string) : Prop :=
  ∃ i ev, op_remove_intent op = Some i ∧ op_remove_commit_evidence op = Some ev ∧
    match obs !! ss_primary_id p with
    | Some o => ¬ (si_instance_id (ro_status o) = ris_primary_instance_id i ∧
                   as_generation (si_agent (ro_status o)) = ces_primary_agent_generation ev)
    | None => pods !! ss_primary_id p ≠ Some (ris_primary_instance_id i)
    end.

(** The primary holds no connection to the target: it shows none, or its
    coordinator reports so, or its process is gone. *)
Definition connection_gone (tn : membership_turn) : Prop :=
  (∃ o, mt_observations tn !! ss_primary_id p = Some o ∧
     ∀ c, c ∈ si_active_replica_connections (ro_status o) → ¬ (rcs_id c = id ∧ rcs_instance_id c = inst)) ∨
  (∃ o i a progress, reports (mt_operation tn) (mt_observations tn) o i a ∧
     do_remove_replica_progress a = Some progress ∧ rp_connection_absent progress = true) ∨
  committer_gone (mt_operation tn) (mt_observations tn) (mt_pods tn).

(** The target's retirement is settled: reported, seen at the target, given
    up with its coordinator, or out of time. *)
Definition retirement_settled (tn : membership_turn) : Prop :=
  (∃ o i a progress, reports (mt_operation tn) (mt_observations tn) o i a ∧
     do_remove_replica_progress a = Some progress ∧ terminal_retirement (rp_target_retirement progress) ≠ None) ∨
  committer_gone (mt_operation tn) (mt_observations tn) (mt_pods tn) ∨
  (∃ o, mt_observations tn !! id = Some o ∧ si_instance_id (ro_status o) = inst ∧ si_role (ro_status o) = RoleNone ∧
     si_healthy (ro_status o) = false) ∨
  ∃ i ev, op_remove_intent (mt_operation tn) = Some i ∧ op_remove_commit_evidence (mt_operation tn) = Some ev ∧
    Z.min (i64_saturating_add (ces_observed_unix_seconds ev) REMOVE_REPLICA_RETIREMENT_TIMEOUT_SECONDS)
      (ris_overall_deadline_unix_seconds i) ≤ mt_now tn.

(** The target's pod carries no serving label any more, or is gone. *)
Definition target_fenced (tn : membership_turn) : Prop :=
  mt_pods tn !! id ≠ Some inst ∨ mt_label tn = Some "retired".

Definition target_absent (tn : membership_turn) : Prop := mt_pods tn !! id ≠ Some inst.

(** Each entry of a cleanup was there or is seen in a turn. *)
Record cleans (tn : membership_turn) (c c' : RemoveReplicaCleanupStatus) : Prop := mkCleans {
  cl_connection : cls_connection_absent c' = true → cls_connection_absent c = true ∨ connection_gone tn;
  cl_retirement : cls_target_retirement c' ≠ None → cls_target_retirement c ≠ None ∨ retirement_settled tn;
  cl_fenced : cls_target_labels_fenced c' = true → cls_target_labels_fenced c = true ∨ target_fenced tn;
  cl_deleted : cls_target_pod_deleted c' = true → cls_target_pod_deleted c = true ∨ target_absent tn;
}.

Lemma cleans_refl tn c : cleans tn c c.
Proof. split; auto. Qed.
Lemma cleans_trans tn c c' c'' : cleans tn c c' → cleans tn c' c'' → cleans tn c c''.
Proof. intros [H1 H2 H3 H4] [G1 G2 G3 G4]. split; intros H; [apply G1 in H|apply G2 in H|apply G3 in H|apply G4 in H]; tauto. Qed.
End evidence.

Definition no_cleanup : RemoveReplicaCleanupStatus := mkRemoveReplicaCleanupStatus false None false false.

(** What the deletion of the target's pod waits for. *)
Definition fenced_off (c : RemoveReplicaCleanupStatus) : Prop :=
  cls_connection_absent c = true ∧ cls_target_retirement c ≠ None ∧ cls_target_labels_fenced c = true.

Lemma merge_retirement_some current observed :
  merge_retirement_evidence current observed ≠ None → current ≠ None ∨ observed ≠ None.
Proof. unfold merge_retirement_evidence. case_bool_decide; [by left|]. destruct observed; [by right|by left]. Qed.

Lemma next_attempt_error op : next_attempt_phase op = (next_attempt_phase op) <| op_last_error := op_last_error op |>.
Proof. by destruct op. Qed.

(** ** Outcomes *)

Section outcomes.
  Context {Ends : Endpoints}.
  Context (p : StablePartitionSnapshotStatus) (id : Z) (inst pod : string) (mode : DurableRemoveMode).
  Context (op : DurableOperationStatus) (obs : OperationObservations) (pods : gmap Z string)
    (label : option string) (now : Z).
Let T := op_target_snapshot op.
Let tn := mkMembershipTurn op obs pods label now Wait.

(** The cleanup an operation holds. *)
Definition held_cleanup : RemoveReplicaCleanupStatus := default no_cleanup (op_remove_cleanup op).

Definition uncommitted (phase : Phase.DurableOperationPhase) : Prop :=
  op_phase op = phase ∧ op_remove_commit_evidence op = None.
Definition committed (phase : Phase.DurableOperationPhase) : Prop :=
  op_phase op = phase ∧ op_remove_commit_evidence op ≠ None ∧ op_committed_snapshot op = Some T.

Inductive remove_outcome : result failure Decision → Prop :=
| ro_wait : remove_outcome (Ok Wait)
| ro_error e : remove_outcome (Err (Error e))
| ro_poison disposition message :
    remove_outcome (Ok (Persist (poison (op <| op_removal_disposition := Some disposition |>) message)))
| ro_freeze core :
    uncommitted Phase.RemoveFreezeIntent → removal_of op p id inst pod mode obs now core →
    remove_outcome (Ok (Persist (op <| op_remove_intent := Some (frozen_removal core) |> <| op_pending_action := None |>
      <| op_phase := Phase.RemoveDispatchIntent |>
      <| op_phase_deadline_unix_seconds := rm_overall_deadline_unix_seconds core |> <| op_last_error := None |>)))
| ro_dispatch i pa :
    uncommitted Phase.RemoveDispatchIntent → op_remove_intent op = Some i →
    pa_kind pa = Action.RemoveReplicaIntent → pa_action_id pa = ris_action_id i → pa_target_id pa = ss_primary_id p →
    pa_target_instance_id pa = ris_primary_instance_id i →
    pc_kind (pa_desired_postcondition pa) = PcRemoveReplicaCoordinated →
    remove_outcome (Ok (Persist (op <| op_phase := Phase.RemoveAwaitCoordination |> <| op_pending_action := Some pa |>)))
| ro_progress i i' :
    uncommitted Phase.RemoveAwaitCoordination → op_remove_intent op = Some i → progressed i i' →
    (ris_current_install_dispatched i = true → ris_current_install_dispatched i' = true) →
    remove_outcome (Ok (Persist (op <| op_remove_intent := Some i' |>)))
| ro_again i err :
    uncommitted Phase.RemoveAwaitCoordination → op_remove_intent op = Some i → ris_current_install_dispatched i = false →
    remove_outcome (Ok (Persist ((next_attempt_phase op) <| op_last_error := err |>)))
| ro_compensate message :
    uncommitted Phase.RemoveAwaitCoordination → ended_unreduced p op obs →
    remove_outcome (Ok (Persist (compensate_finalize op message)))
| ro_execute o i core :
    uncommitted Phase.RemoveAwaitCoordination → op_remove_intent op = Some i → core_remove_intent op = Ok core →
    obs !! ss_primary_id p = Some o → exact_primary p o → si_instance_id (ro_status o) = ris_primary_instance_id i →
    as_generation (si_agent (ro_status o)) = ris_primary_agent_generation i →
    correlated_action_observation (ro_status o) (ris_action_id i) = None → now < ris_overall_deadline_unix_seconds i →
    remove_outcome (Ok (Execute (ss_primary_id p) (ris_action_id i) (ActRemoveReplicaIntent core)))
| ro_commit o i i' ev c :
    uncommitted Phase.RemoveAwaitCoordination → op_remove_intent op = Some i → progressed i i' →
    obs !! ss_primary_id p = Some o → primary_shows p T o → cleans p id inst tn no_cleanup c →
    ces_attempt_id ev = ris_attempt_id i → ces_action_id ev = ris_action_id i →
    as_generation (si_agent (ro_status o)) = ces_primary_agent_generation ev →
    remove_outcome (Ok (RecordCommitEvidence (op <| op_phase := Phase.RemoveRecordCommit |> <| op_pending_action := None |>
      <| op_committed_snapshot := Some T |> <| op_remove_commit_evidence := Some ev |>
      <| op_remove_cleanup := Some c |> <| op_remove_intent := Some i' |>)))
| ro_restored :
    uncommitted Phase.RemoveCompensateFinalize →
    remove_outcome (Ok (Complete (op <| op_phase := Phase.Failed |> <| op_pending_action := None |>) p true))
| ro_recorded :
    committed Phase.RemoveRecordCommit →
    remove_outcome (Ok (Persist (op <| op_phase := Phase.RemoveAwaitCleanup |>)))
| ro_cleaned c i i' :
    committed Phase.RemoveAwaitCleanup → op_remove_intent op = Some i → progressed i i' →
    cleans p id inst tn held_cleanup c →
    remove_outcome (Ok (Persist (op <| op_remove_cleanup := Some c |> <| op_remove_intent := Some i' |>)))
| ro_fenced_off c i i' :
    committed Phase.RemoveAwaitCleanup → op_remove_intent op = Some i → progressed i i' →
    cleans p id inst tn held_cleanup c → fenced_off c →
    remove_outcome (Ok (Persist (op <| op_remove_cleanup := Some c |> <| op_remove_intent := Some i' |>
      <| op_phase := Phase.RemoveDeleteTargetPod |>)))
| ro_fence c :
    committed Phase.RemoveAwaitCleanup → cleans p id inst tn held_cleanup c →
    cls_connection_absent c = true → cls_target_retirement c ≠ None → pods !! id = Some inst →
    remove_outcome (Ok (PatchPodRoleExactUid id inst "retired"))
| ro_delete :
    committed Phase.RemoveDeleteTargetPod → pods !! id = Some inst →
    remove_outcome (Ok (DeletePod pod inst))
| ro_deleted c :
    committed Phase.RemoveDeleteTargetPod → pods !! id ≠ Some inst →
    c = held_cleanup <| cls_target_pod_deleted := true |> →
    remove_outcome (Ok (Persist (op <| op_remove_cleanup := Some c |> <| op_phase := Phase.RemovePublishTopology |>)))
| ro_publish c :
    committed Phase.RemovePublishTopology → op_remove_cleanup op = Some c → fenced_off c → cls_target_pod_deleted c = true →
    remove_outcome (Ok (CommitSnapshot (op <| op_phase := Phase.RemoveFinalize |>) T))
| ro_complete :
    committed Phase.RemoveFinalize →
    remove_outcome (Ok (Complete (op <| op_phase := Phase.Completed |> <| op_pending_action := None |>) T false)).

Context (Hs : removes_as p id inst pod mode op).

(** *** Recording the commit *)

Lemma connection_absent_gone o :
  obs !! ss_primary_id p = Some o → exact_connection_absent op (ro_status o) = true → connection_gone p id inst tn.
Proof.
  intros Ho Habs. left. exists o. split; [done|]. intros c Hc [Hid Hinst]. unfold exact_connection_absent in Habs.
  apply negb_true_iff in Habs. rewrite (ra_target_id _ _ _ _ _ _ Hs), (ra_target_instance _ _ _ _ _ _ Hs) in Habs.
  apply (existsb_false _ _ c) in Habs; [|done]. cbn in Habs.
  rewrite Hid, Hinst, Z.eqb_refl, bool_decide_eq_true_2 in Habs by done. done.
Qed.

Lemma record_commit_evidence_outcome i o generation observed absent retirement phase expiry dispatched :
  uncommitted Phase.RemoveAwaitCoordination → op_remove_intent op = Some i →
  obs !! ss_primary_id p = Some o → primary_shows p T o → as_generation (si_agent (ro_status o)) = generation →
  (absent = true → connection_gone p id inst tn) → (retirement ≠ None → retirement_settled p id inst tn) →
  remove_outcome (record_commit_evidence op generation observed absent retirement phase expiry dispatched).
Proof.
  intros Hph Hi Ho Hshow Hgen Habs Hret. pose proof (panics_core_remove p id inst pod mode op Hs) as Hp.
  pose proof (ro_commit o i) as Hro. unfold record_commit_evidence. rewrite Hi. cbn [unwrap ok_or mbind result_bind].
  destruct (core_remove_intent op) as [core|[e|e]]; [|apply ro_error|done]. cbn [mbind result_bind].
  eapply Hro; try done.
  - apply progressed_commit.
  - split; cbn; auto; done.
Qed.

Lemma reported_outcome i o a progress :
  uncommitted Phase.RemoveAwaitCoordination → reports p op obs o i a → primary_shows p T o →
  as_generation (si_agent (ro_status o)) = ris_primary_agent_generation i →
  do_remove_replica_progress a = Some progress → remove_outcome (record_commit op progress).
Proof.
  intros Hph Hr Hshow Hgen Hprog. pose proof Hr as (Ho & Hi & _). pose proof record_commit_evidence_outcome as Hrec.
  unfold record_commit. destruct (rp_commit_observed_unix_seconds progress) as [t|]; [|apply ro_error].
  cbn [or_fail ok_or mbind result_bind]. rewrite Hi. cbn [or_fail ok_or mbind result_bind].
  destruct (agent_generation_parse _) as [g|] eqn:Hg; [|apply ro_error]. cbn [lift map_err mbind result_bind].
  apply generation_parse_Ok in Hg as [<- _]. eapply Hrec; try done.
  - intros Habs. right. left. by exists o, i, a, progress.
  - intros Hret. left. exists o, i, a, progress. split; [done|]. split; [done|]. by destruct (terminal_retirement _).
Qed.

Lemma observed_commit_outcome i o generation observed :
  uncommitted Phase.RemoveAwaitCoordination → op_remove_intent op = Some i →
  obs !! ss_primary_id p = Some o → primary_shows p T o → as_generation (si_agent (ro_status o)) = generation →
  remove_outcome (record_observed_commit op generation observed (exact_connection_absent op (ro_status o))).
Proof.
  intros Hph Hi Ho Hshow Hgen. unfold record_observed_commit. eapply record_commit_evidence_outcome; try done.
  by apply connection_absent_gone.
Qed.

(** *** Coordination *)

Lemma persist_progress_outcome i a progress :
  uncommitted Phase.RemoveAwaitCoordination → op_remove_intent op = Some i →
  match persist_progress_if_changed op progress a with
  | Ok (Some d) => remove_outcome (Ok d)
  | Ok None => ris_current_install_dispatched i = rp_current_install_dispatched progress
  | Err (Error _) => True
  | Err (Panic _) => False
  end.
Proof.
  intros Hph Hi. pose proof (ro_progress i) as Hpr. unfold persist_progress_if_changed. rewrite Hi. cbn [unwrap ok_or mbind result_bind].
  destruct (ris_current_install_dispatched i && negb (rp_current_install_dispatched progress)) eqn:Hd; [apply ro_poison|].
  match goal with |- context [if ?b then Ok (Some (Persist (invalid_removal _ _))) else _] => destruct b end; [apply ro_poison|].
  assert (match observed_result a with Err (Panic _) => False | _ => True end) as Hobs by (unfold observed_result; by repeat case_match).
  destruct (observed_result a) as [result|[e|e]]; [|done|done]. cbn [mbind result_bind].
  match goal with |- context [if ?b then Ok None else _] => destruct b eqn:Hb end; [by apply andb_true_iff in Hb as [_ Hb%Bool.eqb_prop]|].
  eapply Hpr; [done|done|by eexists _, _, _, _|]. cbn. intros Ht. rewrite Ht in Hd. by destruct (rp_current_install_dispatched _).
Qed.

(** What the outcome of an ended action rests on: the configuration the
    primary shows, a commit it may record, and that it may be undone. *)
Lemma incomplete_outcome i configuration progress :
  uncommitted Phase.RemoveAwaitCoordination → op_remove_intent op = Some i →
  (∀ pr, progress = Some pr → configuration = Ok ReducedCurrent → remove_outcome (record_commit op pr)) →
  (configuration = Ok PreviousCurrent → ris_current_install_dispatched i = false → ended_unreduced p op obs) →
  remove_outcome (classify_incomplete op configuration progress now).
Proof.
  intros Hph Hi Hcommit Hended. pose proof (ro_again i) as Hagain. unfold classify_incomplete. rewrite Hi. cbn [unwrap ok_or mbind result_bind].
  destruct configuration as [[]|e].
  - destruct (ris_current_install_dispatched i) eqn:Hd; [apply ro_poison|]. by apply ro_compensate; [|apply Hended].
  - destruct (ris_current_install_dispatched i) eqn:Hd; [apply ro_poison|]. cbn [negb]. case_match; [|apply ro_poison]. by apply Hagain.
  - destruct progress as [pr|]; [|apply ro_error]. cbn [or_fail ok_or mbind result_bind]. case_match; [by apply Hcommit|apply ro_poison].
  - destruct (ris_current_install_dispatched i); [apply ro_poison|]. case_match; [apply ro_poison|apply ro_wait].
Qed.

Lemma terminal_outcome i configuration terminal progress :
  uncommitted Phase.RemoveAwaitCoordination → op_remove_intent op = Some i →
  (∀ pr, progress = Some pr → configuration = Ok ReducedCurrent → remove_outcome (record_commit op pr)) →
  (configuration = Ok PreviousCurrent → ris_current_install_dispatched i = false → ended_unreduced p op obs) →
  remove_outcome (classify_terminal op configuration terminal progress now).
Proof.
  intros Hph Hi Hcommit Hended. pose proof incomplete_outcome as Hinc. unfold classify_terminal, rethrow.
  destruct terminal; try by eapply Hinc.
  - destruct configuration as [c|e]; [|apply ro_error]. cbn [lift map_err mbind result_bind].
    case_bool_decide as Hc; cbn [negb]; [|apply ro_poison]. subst c.
    destruct progress as [pr|]; [|apply ro_error]. by apply Hcommit.
  - destruct configuration as [c|e]; [|apply ro_error]. cbn [lift map_err mbind result_bind].
    case_bool_decide as Hc; cbn [negb]; [|apply ro_poison]. subst c.
    destruct progress as [pr|]; [|apply ro_error]. by apply Hcommit.
  - rewrite Hi. destruct (ris_current_install_dispatched i) eqn:Hd; [apply ro_poison|]. cbn [orb].
    case_match; [apply ro_poison|]. destruct configuration as [c|e]; [|apply ro_error]. cbn [lift map_err mbind result_bind].
    case_bool_decide as Hc; cbn [negb]; [|apply ro_poison]. subst c. by apply ro_compensate; [|apply Hended].
Qed.

(** An error that is kept: its configuration is what the primary shows. *)
Lemma caught_configuration status r :
  caught (classify_configuration op status) = Ok r →
  ∀ c, r = Ok c → si_configuration status = Some (configuration_shown p T c).
Proof.
  intros Hr c ->. destruct (classify_configuration op status) as [c'|[e|e]] eqn:Hc; [|done|done]. injection Hr as ->.
  by eapply classify_configuration_Ok.
Qed.

Lemma observed_outcome i core o a configuration :
  uncommitted Phase.RemoveAwaitCoordination → reports p op obs o i a ∨ do_signature a ≠ ris_input_signature i →
  op_remove_intent op = Some i → exact_primary p o →
  as_generation (si_agent (ro_status o)) = ris_primary_agent_generation i →
  (∀ c, configuration = Ok c → si_configuration (ro_status o) = Some (configuration_shown p T c)) →
  remove_outcome (decide_observed op i core configuration a now).
Proof.
  intros Hph Hrep Hi Hex Hgen Hcfg. unfold decide_observed. case_bool_decide as Hsig; cbn [negb]; [|apply ro_poison].
  destruct Hrep as [Hrep|]; [|done].
  assert (∀ pr, do_remove_replica_progress a = Some pr → configuration = Ok ReducedCurrent → remove_outcome (record_commit op pr)) as Hcommit.
  { intros pr Hpr Hc. eapply reported_outcome; try done. split; [done|]. by apply Hcfg in Hc. }
  assert ((do_state a = Completed ∨ do_state a = Failed) →
    (∀ pr, do_remove_replica_progress a = Some pr → ris_current_install_dispatched i = rp_current_install_dispatched pr) →
    configuration = Ok PreviousCurrent → ris_current_install_dispatched i = false → ended_unreduced p op obs) as Hended.
  { intros Hst Hsame Hc Hd. exists o, i, a. split; [done|]. split; [split; [done|by apply Hcfg in Hc]|]. split; [done|]. split; [done|].
    intros pr Hpr. rewrite <-Hd. symmetry. by apply Hsame. }
  assert ((∀ pr, do_remove_replica_progress a = Some pr → ris_current_install_dispatched i = rp_current_install_dispatched pr) →
    remove_outcome (classify_observed op configuration a now)) as Hclass.
  { intros Hsame. unfold classify_observed. destruct (do_state a) eqn:Hst; [apply ro_wait..| |].
    - destruct (do_result a) as [[]|]; try apply ro_poison. apply (terminal_outcome i); try done. intros; apply Hended; auto.
    - apply (incomplete_outcome i); try done. intros; apply Hended; auto. }
  destruct (do_remove_replica_progress a) as [pr|] eqn:Hpr; [|by apply Hclass].
  pose proof (persist_progress_outcome i a pr Hph Hi) as Hpers.
  destruct (validate_progress core pr); [|apply ro_error]. cbn [lift map_err mbind result_bind].
  destruct (persist_progress_if_changed op pr a) as [[d|]|[e|e]]; [done| |apply ro_error|done]. cbn [mbind result_bind].
  destruct (rp_commit_observed pr).
  - destruct configuration as [c|e]; [|apply ro_error]. cbn [rethrow lift map_err mbind result_bind].
    case_bool_decide as Hc; cbn [negb]; [|apply ro_poison]. subst c. by apply Hcommit.
  - apply Hclass. by intros ? [= <-].
Qed.

Lemma unobserved_outcome i core o configuration :
  uncommitted Phase.RemoveAwaitCoordination → op_remove_intent op = Some i → core_remove_intent op = Ok core →
  obs !! ss_primary_id p = Some o → exact_primary p o → si_instance_id (ro_status o) = ris_primary_instance_id i →
  as_generation (si_agent (ro_status o)) = ris_primary_agent_generation i →
  correlated_action_observation (ro_status o) (ris_action_id i) = None →
  (∀ c, configuration = Ok c → si_configuration (ro_status o) = Some (configuration_shown p T c)) →
  remove_outcome (decide_unobserved op i core configuration (ro_status o) now).
Proof.
  intros Hph Hi Hcore Ho Hex Hinst Hgen Hnone Hcfg. unfold decide_unobserved. rewrite (ra_old_primary _ _ _ _ _ _ Hs).
  destruct configuration as [[]|e].
  - destruct (Z.ltb_spec now (ris_overall_deadline_unix_seconds i)); [by eapply ro_execute|apply ro_poison].
  - destruct (Z.ltb_spec now (ris_overall_deadline_unix_seconds i)); [by eapply ro_execute|apply ro_poison].
  - eapply observed_commit_outcome; try done. split; [done|by apply (Hcfg ReducedCurrent)].
  - by apply (incomplete_outcome i).
Qed.

Lemma new_generation_outcome i o :
  uncommitted Phase.RemoveAwaitCoordination → op_remove_intent op = Some i → obs !! ss_primary_id p = Some o →
  remove_outcome (classify_new_primary_generation op o pods now).
Proof.
  intros Hph Hi Ho. pose proof (ro_again i (op_last_error op) Hph Hi) as Hagain. pose proof observed_commit_outcome as Hobs.
  pose proof (validate_primary_identity_Ok p id inst pod mode op o Hs) as Hex. pose proof (panics_primary_identity p id inst pod mode op Hs o) as Hp1.
  pose proof (panics_classify_configuration p id inst pod mode op Hs (ro_status o)) as Hp2.
  pose proof (classify_configuration_Ok p id inst pod mode op (ro_status o) ReducedCurrent Hs) as Hred.
  unfold classify_new_primary_generation. rewrite Hi. cbn [unwrap ok_or mbind result_bind].
  match goal with |- remove_outcome (if ?b then _ else _) => destruct b end; [case_match; apply ro_poison|].
  destruct (validate_primary_identity op o) as [[]|[e|e]]; [|apply ro_error|done]. cbn [mbind result_bind].
  destruct (classify_configuration op (ro_status o)) as [c|[e|e]]; [|apply ro_error|done]. cbn [mbind result_bind].
  assert (remove_outcome (if ris_current_install_dispatched i then Ok (Persist (invalid_removal op
      "the previous generation dispatched reduced-current installation without cancellation or quiescence proof"))
    else if (MAX_REMOVE_REPLICA_PRE_COMMIT_ATTEMPTS <=? ris_attempt i) &&
            negb (bool_decide (si_configuration (ro_status o) = Some (remove_configuration_status (op_target_snapshot op) Current)))
    then Ok (Persist (failed_precommit op "the durable three-attempt pre-commit removal limit is exhausted"))
    else Ok (Persist (next_attempt_phase op)))) as Hnext.
  { destruct (ris_current_install_dispatched i) eqn:Hd; [apply ro_poison|]. case_match; [apply ro_poison|].
    assert (next_attempt_phase op = (next_attempt_phase op) <| op_last_error := op_last_error op |>) as ->
      by apply next_attempt_error. by apply Hagain. }
  destruct c; [exact Hnext|exact Hnext|]. eapply Hobs; try done. split; [by apply Hex|by apply Hred].
Qed.

Lemma await_removal_outcome :
  uncommitted Phase.RemoveAwaitCoordination → remove_outcome (decide_remove_await op obs pods now).
Proof.
  intros Hph. pose proof (panics_core_remove p id inst pod mode op Hs) as Hp. pose proof new_generation_outcome as Hnew.
  pose proof observed_outcome as Hob. pose proof unobserved_outcome as Hun. unfold decide_remove_await.
  destruct (op_remove_intent op) as [i|] eqn:Hi; [|apply ro_error]. cbn [or_fail ok_or mbind result_bind].
  destruct (core_remove_intent op) as [core|[e|e]] eqn:Hcore; [|apply ro_error|done]. cbn [mbind result_bind].
  rewrite (ra_old_primary _ _ _ _ _ _ Hs). destruct (obs !! ss_primary_id p) as [o|] eqn:Ho.
  2:{ case_match; [apply ro_poison|]. case_match; [apply ro_poison|apply ro_wait]. }
  case_bool_decide as Hinst; cbn [negb]; [|apply ro_poison].
  case_bool_decide as Hgen; cbn [negb]; [|by eapply Hnew].
  pose proof (validate_primary_identity_Ok p id inst pod mode op o Hs) as Hex. pose proof (panics_primary_identity p id inst pod mode op Hs o) as Hp1.
  destruct (validate_primary_identity op o) as [[]|[e|e]]; cbn [caught mbind result_bind]; [|apply ro_poison|done].
  pose proof (caught_configuration (ro_status o)) as Hcfg. pose proof (panics_classify_configuration p id inst pod mode op Hs (ro_status o)) as Hp2.
  destruct (caught (classify_configuration op (ro_status o))) as [r|[e|e]] eqn:Hr;
    [|by destruct (classify_configuration _ _) as [|[]]|by destruct (classify_configuration _ _) as [|[]]].
  cbn [mbind result_bind]. destruct (correlated_action_observation _ _) as [a|] eqn:Ha.
  - eapply Hob; try done; [|by apply Hex|by apply Hcfg].
    destruct (decide (do_signature a = ris_input_signature i)); [left|by right]. split; [done|]. by rewrite Hi.
  - eapply Hun; try done; [by apply Hex|by apply Hcfg].
Qed.

(** *** Cleaning up *)

Lemma committed_primary_observed i o c :
  obs !! ss_primary_id p = Some o → op_remove_intent op = Some i →
  match observe_committed_primary op i o c with
  | Ok (Ok (c', i')) => cleans p id inst tn c c' ∧ progressed i i'
  | Ok (Err d) => remove_outcome (Ok d)
  | Err (Error _) => True
  | Err (Panic _) => False
  end.
Proof.
  intros Ho Hi. destruct (remove_targets p id inst pod mode op Hs) as (Hid & Hinst & _).
  pose proof (panics_classify_configuration p id inst pod mode op Hs (ro_status o)) as Hp. unfold observe_committed_primary, instance_or_default.
  destruct (classify_configuration op (ro_status o)) as [cfg|[e|e]]; [|done|done]. cbn [mbind result_bind].
  case_bool_decide; cbn [negb]; [|apply ro_poison]. rewrite Hid, Hinst.
  set (absent := negb (existsb _ _)). assert (cleans p id inst tn c (c <| cls_connection_absent := absent |>)) as Hc0.
  { split; cbn; auto. intros Habs. right. left. exists o. split; [done|]. intros x Hx [Hxi Hxn]. apply negb_true_iff in Habs.
    apply (existsb_false _ _ x) in Habs; [|done]. cbn in Habs. rewrite Hxi, Hxn, Z.eqb_refl, bool_decide_eq_true_2 in Habs by done. done. }
  destruct (correlated_action_observation _ _) as [a|] eqn:Ha; [|by split; [|apply progressed_refl]].
  case_bool_decide as Hsig; cbn [negb]; [|apply ro_poison].
  destruct (do_remove_replica_progress a) as [pr|] eqn:Hpr; [|by split; [|apply progressed_refl]].
  split; [|apply progressed_cleanup]. eapply cleans_trans; [exact Hc0|]. split; cbn; auto.
  - intros [?|Habs]%orb_true_iff; [by left|right]. right. left. by exists o, i, a, pr.
  - intros [?|Hret]%merge_retirement_some; [by left|right]. left. exists o, i, a, pr. split; [done|]. split; [done|].
    by destruct (terminal_retirement _).
Qed.

Lemma replaced_cleans c : committer_gone p op obs pods → cleans p id inst tn c (primary_replaced c).
Proof. intros Hg. split; cbn; auto; intros _; right; right; [by right|by left]. Qed.

Lemma retired_cleans c (retired : bool) : target_shows_retired op obs = Ok retired →
  cleans p id inst tn c (if retired then c <| cls_target_retirement := merge_retirement_evidence (cls_target_retirement c) (Some TrCompleted) |> else c).
Proof.
  destruct (remove_targets p id inst pod mode op Hs) as (Hid & Hinst & _). unfold target_shows_retired. rewrite Hid, Hinst.
  cbn [mbind result_bind unwrap_result]. destruct (obs !! id) as [o|] eqn:Ho; [|intros [= <-]; apply cleans_refl].
  intros [= <-]. match goal with |- cleans _ _ _ _ _ (if ?b then _ else _) => destruct b eqn:Hb end; [|apply cleans_refl].
  apply andb_true_iff in Hb as [[Hbi Hbr]%andb_true_iff Hbh]. guards. split; cbn; auto.
  intros _. right. do 2 right. left. by exists o.
Qed.

Lemma cleanup_outcome i :
  committed Phase.RemoveAwaitCleanup → op_remove_intent op = Some i →
  remove_outcome (decide_cleanup op obs pods label now).
Proof.
  intros Hph Hi. pose proof Hph as (_ & Hev & _). destruct (remove_targets p id inst pod mode op Hs) as (Hid & Hinst & _ & Huid & _).
  pose proof committed_primary_observed as Hob. pose proof replaced_cleans as Hrep. pose proof retired_cleans as Hret.
  pose proof ro_cleaned as Hclean. pose proof ro_fenced_off as Hoff. pose proof ro_fence as Hfence. unfold held_cleanup, no_cleanup in *.
  unfold decide_cleanup. rewrite Hi, Hid, Huid, (ra_old_primary _ _ _ _ _ _ Hs). cbn [unwrap ok_or mbind result_bind].
  set (c := default _ (op_remove_cleanup op)) in *. destruct (op_remove_commit_evidence op) as [ev|] eqn:Hevd; [|done].
  match goal with |- remove_outcome (?m ≫= _) => set (observed := m) end.
  assert (match observed with
    | Ok (Ok (c', i')) => cleans p id inst tn c c' ∧ progressed i i'
    | Ok (Err d) => remove_outcome (Ok d)
    | Err (Error _) => True
    | Err (Panic _) => False
    end) as Hobs.
  { unfold observed. destruct (obs !! ss_primary_id p) as [o|] eqn:Ho.
    - destruct (bool_decide (si_instance_id (ro_status o) = _) && _) eqn:Hb; [by apply Hob|].
      split; [|apply progressed_refl]. apply Hrep. exists i, ev. rewrite Ho. split; [done|]. split; [done|]. intros [H1 H2].
      by rewrite !bool_decide_eq_true_2 in Hb.
    - case_bool_decide as Hb; (split; [|apply progressed_refl]); [apply cleans_refl|]. apply Hrep. exists i, ev. by rewrite Ho. }
  clearbody observed. destruct observed as [[[c1 i1]|d]|[e|e]]; [|exact Hobs|apply ro_error|done]. destruct Hobs as [Hc1 Hi1].
  cbn [mbind result_bind]. assert (panics (target_shows_retired op obs) = false) as Hp.
  { unfold target_shows_retired. rewrite Hid, Hinst. cbn. by case_match. }
  destruct (target_shows_retired op obs) as [retired|[e|e]] eqn:Hr; [|apply ro_error|done]. cbn [mbind result_bind].
  pose proof (cleans_trans _ _ _ _ _ _ _ Hc1 (Hret c1 retired eq_refl)) as Hc2.
  set (c2 := if retired then _ else _) in *. clearbody c2.
  assert (∀ c', cleans p id inst tn c2 c' → remove_outcome (Ok (Persist (op <| op_remove_cleanup := Some c' |> <| op_remove_intent := Some i1 |>)))) as Hsave.
  { intros c' Hc'. eapply Hclean; try done. by eapply cleans_trans. }
  assert (remove_outcome (Ok (if bool_decide (op <| op_remove_cleanup := Some c2 |> <| op_remove_intent := Some i1 |> = op) then Wait
    else Persist (op <| op_remove_cleanup := Some c2 |> <| op_remove_intent := Some i1 |>)))) as Hunf.
  { case_bool_decide; [apply ro_wait|]. apply Hsave, cleans_refl. }
  destruct (cls_connection_absent c2) eqn:Habs; cbn [negb]; [|exact Hunf].
  match goal with |- remove_outcome (if ?b then _ else _) => destruct b eqn:Hexp end; [exact Hunf|].
  set (c3 := if none (cls_target_retirement c2) then _ else c2).
  assert (cleans p id inst tn c2 c3 ∧ cls_connection_absent c3 = true ∧ cls_target_retirement c3 ≠ None ∧
    cls_target_labels_fenced c3 = cls_target_labels_fenced c2) as (Hc3 & Habs3 & Hret3 & Hf3).
  { unfold c3. destruct (cls_target_retirement c2) as [r|] eqn:Hret2; cbn [none] in *; [|cbn [andb] in Hexp].
    - split; [apply cleans_refl|]. by rewrite Hret2.
    - split; [|split; [exact Habs|by split]]. split; cbn; auto. intros _. right. do 3 right. exists i, ev. split; [done|]. split; [done|]. by apply Z.ltb_ge in Hexp. }
  clearbody c3. pose proof (cleans_trans _ _ _ _ _ _ _ Hc2 Hc3) as Hc. destruct (cls_target_labels_fenced c3) eqn:Hfenced.
  { eapply Hoff; try done. }
  cbn [mbind result_bind]. destruct (bool_decide (pods !! id = Some inst)) eqn:Hpod; guards; cbn [negb].
  2:{ apply Hsave. eapply cleans_trans; [exact Hc3|]. split; cbn; auto. intros _. right. by left. }
  destruct (bool_decide (label = Some "retired")) eqn:Hlabel; guards; cbn [negb]; [|by eapply Hfence].
  eapply Hoff; try done. eapply cleans_trans; [exact Hc|]. split; cbn; auto. intros _. right. by right.
Qed.

(** *** Deciding *)

Lemma post_commit_outcome i :
  op_remove_commit_evidence op ≠ None → op_remove_intent op = Some i →
  remove_outcome (decide_post_commit op obs pods label now).
Proof.
  intros Hev Hi. destruct (remove_targets p id inst pod mode op Hs) as (Hid & Hinst & Hpod & Huid & _).
  pose proof ro_publish as Hpub. unfold decide_post_commit. case_bool_decide as Hc; cbn [negb]; [|apply ro_poison].
  destruct (op_phase op) eqn:Hph; try apply ro_error.
  - by apply ro_recorded.
  - by eapply cleanup_outcome.
  - rewrite Hid, Huid. cbn [mbind result_bind]. case_bool_decide as Hgone; [|by apply ro_deleted]. rewrite Hpod. by apply ro_delete.
  - destruct (op_remove_cleanup op) as [c|]; [|apply ro_error]. cbn [or_fail ok_or mbind result_bind].
    match goal with |- remove_outcome (if ?b then _ else _) => destruct b eqn:Hb end; [apply ro_poison|].
    apply orb_false_elim in Hb as [[[H1 H2]%orb_false_elim H3]%orb_false_elim H4]. guards.
    apply (Hpub c); try done. split; [done|]. split; [by destruct (cls_target_retirement c)|done].
  - by apply ro_complete.
Qed.

(** Every decision is one of these outcomes. *)
Lemma decide_remove_outcome :
  (∀ i, op_remove_intent op = Some i → 1 ≤ ris_attempt i) →
  remove_outcome (decide_remove_replica op obs pods label now).
Proof.
  intros Hatt. pose proof (panics_validate_remove p id inst pod mode op Hs) as Hpv.
  pose proof (panics_freeze_attempt p id inst pod mode op Hs obs now) as Hpf. pose proof post_commit_outcome as Hpost.
  pose proof ro_dispatch as Hdisp. pose proof await_removal_outcome as Haw.
  pose proof (freeze_attempt_Ok p id inst pod mode op obs now) as Hfr. unfold uncommitted in *. unfold decide_remove_replica.
  destruct (validate_remove_operation op) as [[]|[e|e]] eqn:Hv; [|apply ro_error|done]. cbn [mbind result_bind].
  assert (op_remove_commit_evidence op ≠ None → ∃ i, op_remove_intent op = Some i) as Hint.
  { intros Hev. unfold validate_remove_operation in Hv. do 8 (apply bind_Ok in Hv as (? & _ & Hv)).
    apply bind_Ok in Hv as ([] & Hc%fail_if_Ok & _). destruct (op_remove_intent op) as [i|]; [by eexists|].
    by destruct (op_remove_commit_evidence op). }
  destruct (op_phase op) eqn:Hph; try apply ro_wait;
    (destruct (op_remove_commit_evidence op) as [ev|] eqn:Hev; cbn [none negb];
     [destruct Hint as [i Hi]; [done|by eapply Hpost]|]); try apply ro_error.
  - destruct (freeze_attempt op obs now) as [d|[e|e]] eqn:Hf; [|apply ro_error|done].
    destruct (Hfr d Hs Hatt eq_refl) as [(m & ->)|(core & Hrf & ->)]; [apply ro_poison|]. by apply ro_freeze.
  - unfold dispatch_remove_intent. destruct (op_remove_intent op) as [i|] eqn:Hi; [|apply ro_error].
    cbn [or_fail ok_or mbind result_bind]. rewrite (ra_previous _ _ _ _ _ _ Hs). cbn [expect_previous ok_or mbind result_bind].
    eapply Hdisp; try done. apply Hs.
  - by apply Haw.
  - rewrite (ra_previous _ _ _ _ _ _ Hs). by apply ro_restored.
Qed.
End outcomes.
