(* ===== verification/RemoveRuns.v ===== *)
(** Whole removals: the checkpoints a request goes through under any
    observations, pods, labels and clock readings, and the invariant every
    reachable checkpoint keeps. *)

From S2P Require Import Prelude Types Lifecycle AddReplica RemoveReplica Control Replicator Agent Convert Wire Crd Operation Effects AddWorkflow AddSteps Turns RemoveWorkflow RemoveSteps RemoveOutcomes.

Set Default Goal Selector "!".

Section runs.
  Context {Ends : Endpoints}.
  Context (p : StablePartitionSnapshotStatus) (id : Z) (inst pod : string) (mode : DurableRemoveMode)
    (T : StablePartitionSnapshotStatus).

(** [remove_run trace op]: a removal of [inst] at [id] from the stable topology
    [p], which makes it [T]; its turns so far, the last one first, and its
    checkpoint. The write of a turn may have been lost; between two turns a
    dispatch may have recorded its evidence or its error, and the reconciler
    may have failed the operation closed. *)
Inductive remove_run : list membership_turn → DurableOperationStatus → Prop :=
| remove_run_start uid request min_replicas now op :
    start_remove_replica uid p request mode min_replicas now = Ok op → op_target_snapshot op = T →
    rt_replica_id request = id → rt_pod_uid request = inst → rt_pod_name request = pod → remove_run [] op
| remove_run_decide trace op obs pods label now d :
    remove_run trace op → decide_remove_replica op obs pods label now = Ok d →
    remove_run (mkMembershipTurn op obs pods label now d :: trace) (after_decision op d)
| remove_run_lost trace op obs pods label now d :
    remove_run trace op → decide_remove_replica op obs pods label now = Ok d →
    remove_run (mkMembershipTurn op obs pods label now d :: trace) op
| remove_run_record trace op op' :
    remove_run trace op → bookkeeping op op' → remove_run trace op'
| remove_run_fail_closed trace op message :
    remove_run trace op → remove_run trace (fail_closed op message).

(** The frozen intent is one that was observed in a turn before. *)
Definition removal_frozen (trace : list membership_turn) (op : DurableOperationStatus) (i : RemoveReplicaIntentStatus) : Prop :=
  ∃ tn core, tn ∈ trace ∧ op_phase (mt_operation tn) = Phase.RemoveFreezeIntent ∧
    removal_of op p id inst pod mode (mt_observations tn) (mt_now tn) core ∧ progressed (frozen_removal core) i.

(** The entries of the cleanup have been seen. *)
Definition cleanup_seen (trace : list membership_turn) (c : RemoveReplicaCleanupStatus) : Prop :=
  (cls_connection_absent c = true → seen (connection_gone p id inst) trace) ∧
  (cls_target_retirement c ≠ None → seen (retirement_settled p id inst) trace) ∧
  (cls_target_labels_fenced c = true → seen (target_fenced id inst) trace) ∧
  (cls_target_pod_deleted c = true → seen (target_absent id inst) trace).

Definition undispatched (op : DurableOperationStatus) : Prop :=
  ∀ i, op_remove_intent op = Some i → ris_current_install_dispatched i = false.

(** What a phase says of the commit. *)
Definition phase_removal (trace : list membership_turn) (op : DurableOperationStatus) : Prop :=
  match op_phase op with
  | Phase.RemoveFreezeIntent | Phase.RemoveDispatchIntent => op_remove_commit_evidence op = None ∧ undispatched op
  | Phase.RemoveAwaitCoordination => op_remove_commit_evidence op = None
  | Phase.RemoveCompensateFinalize | Phase.Failed =>
      op_remove_commit_evidence op = None ∧ undispatched op ∧ seen (shown_unreduced p) trace
  | Phase.RemoveRecordCommit | Phase.RemoveAwaitCleanup => op_remove_commit_evidence op ≠ None
  | Phase.RemoveDeleteTargetPod =>
      op_remove_commit_evidence op ≠ None ∧ ∃ c, op_remove_cleanup op = Some c ∧ fenced_off c
  | Phase.RemovePublishTopology | Phase.RemoveFinalize | Phase.Completed =>
      op_remove_commit_evidence op ≠ None ∧
      ∃ c, op_remove_cleanup op = Some c ∧ fenced_off c ∧ cls_target_pod_deleted c = true
  | Phase.Poisoned => True
  | _ => False
  end.

Record removing (trace : list membership_turn) (op : DurableOperationStatus) : Prop := mkRemoving {
  rm_started : removes_as p id inst pod mode op;
  rm_target : op_target_snapshot op = T;
  rm_intent : ∀ i, op_remove_intent op = Some i → removal_frozen trace op i;
  rm_commit : op_remove_commit_evidence op ≠ None →
    op_committed_snapshot op = Some T ∧ seen (shown_reduced p T) trace ∧ op_remove_intent op ≠ None;
  rm_uncommitted : op_remove_commit_evidence op = None → op_committed_snapshot op = None;
  rm_cleanup : ∀ c, op_remove_cleanup op = Some c → cleanup_seen trace c;
  rm_phase : phase_removal trace op;
}.

Lemma cleanup_seen_later trace trace' c : trace ⊆ trace' → cleanup_seen trace c → cleanup_seen trace' c.
Proof. intros Hsub (H1 & H2 & H3 & H4). split_and!; intros H; eapply seen_later; eauto. Qed.

Lemma cleans_seen trace tn c c' : cleanup_seen trace c → cleans p id inst tn c c' → cleanup_seen (tn :: trace) c'.
Proof.
  intros (H1 & H2 & H3 & H4) [G1 G2 G3 G4].
  split_and!; intros H; [apply G1 in H as [H|H]|apply G2 in H as [H|H]|apply G3 in H as [H|H]|apply G4 in H as [H|H]];
    try (apply seen_before; auto; done); by apply seen_here.
Qed.

Lemma no_cleanup_seen trace : cleanup_seen trace no_cleanup.
Proof. done. Qed.

Lemma phase_removal_later trace trace' op : trace ⊆ trace' → phase_removal trace op → phase_removal trace' op.
Proof.
  intros Hsub. unfold phase_removal. destruct (op_phase op); try done; intros (? & ? & Hs); (split; [done|split; [done|by eapply seen_later]]).
Qed.

(** What a checkpoint keeps of its request. *)
Record same_removal (op op' : DurableOperationStatus) : Prop := mkSameRemoval {
  sr_target : op_target_snapshot op' = op_target_snapshot op;
  sr_previous : op_previous_snapshot op' = op_previous_snapshot op;
  sr_version : op_version op' = op_version op;
  sr_kind : op_kind op' = op_kind op;
  sr_operation_id : op_operation_id op' = op_operation_id op;
  sr_old_primary : op_old_primary_id op' = op_old_primary_id op;
  sr_target_primary : op_target_primary_id op' = op_target_primary_id op;
  sr_mode : op_remove_mode op' = op_remove_mode op;
  sr_add : op_add_mode op' = op_add_mode op ∧ op_add_intent op' = op_add_intent op;
  sr_target_id : op_target_replica_id op' = op_target_replica_id op;
  sr_target_instance : op_target_instance_id op' = op_target_instance_id op;
  sr_target_pod : op_target_pod_name op' = op_target_pod_name op;
  sr_target_uid : op_target_pod_uid op' = op_target_pod_uid op;
  sr_address : op_remove_target_replicator_address op' = op_remove_target_replicator_address op;
  sr_generation : op_remove_target_agent_generation op' = op_remove_target_agent_generation op;
  sr_minimum : op_minimum_committed_replicas op' = op_minimum_committed_replicas op;
}.

Lemma same_removal_started op op' :
  same_removal op op' → removes_as p id inst pod mode op → removes_as p id inst pod mode op'.
Proof.
  intros [H1 H2 H3 H4 H5 H6 H7 H8 [H9 H10] H11 H12 H13 H14 H15 H16 H17] [].
  split; rewrite ?H1, ?H2, ?H3, ?H4, ?H6, ?H7, ?H8, ?H9, ?H10, ?H11, ?H12, ?H13, ?H14, ?H15, ?H16; done.
Qed.

Lemma same_removal_configures op op' s obs d :
  same_removal op op' → remove_configures op id inst s obs d → remove_configures op' id inst s obs d.
Proof.
  intros Hsame (cs & Hcs & ->). exists cs. split; [|done]. eapply Forall2_impl; [exact Hcs|]. intros m c.
  unfold stands_for. by rewrite (sr_address _ _ Hsame).
Qed.

Lemma same_removal_of op op' obs now core :
  same_removal op op' → removal_of op p id inst pod mode obs now core → removal_of op' p id inst pod mode obs now core.
Proof.
  intros Hsame [Hp Ht Hn Hsd Ho Ha Hpc Hrc Hcc Hd Hv].
  split; rewrite ?(sr_target _ _ Hsame), ?(sr_generation _ _ Hsame), ?(sr_operation_id _ _ Hsame), ?(sr_minimum _ _ Hsame);
    try done; by eapply same_removal_configures.
Qed.

Lemma removal_frozen_later trace trace' op op' i :
  same_removal op op' → trace ⊆ trace' → removal_frozen trace op i → removal_frozen trace' op' i.
Proof.
  intros Hsame Hsub (tn & core & Hin & Hph & Hob & Hpr). exists tn, core. split; [by apply Hsub|]. split; [done|].
  split; [by eapply same_removal_of|done].
Qed.

Lemma removal_frozen_progressed trace op i i' : progressed i i' → removal_frozen trace op i → removal_frozen trace op i'.
Proof.
  intros Hp (tn & core & Hin & Hph & Hob & Hpr). exists tn, core. split_and!; try done. by eapply progressed_trans.
Qed.

Lemma removal_frozen_attempt trace op i : removal_frozen trace op i → 1 ≤ ris_attempt i ≤ MAX_REMOVE_REPLICA_PRE_COMMIT_ATTEMPTS.
Proof.
  intros (tn & core & _ & _ & Hob & [(Ha & _) _ _ _ _]%progressed_same). rewrite Ha.
  by destruct (rf_attempt _ _ _ _ _ _ _ _ _ Hob).
Qed.

Lemma removing_outcome trace op obs pods label now :
  removing trace op → remove_outcome p id inst pod mode op obs pods label now (decide_remove_replica op obs pods label now).
Proof.
  intros Hr. apply decide_remove_outcome; [apply Hr|]. intros i Hi. by apply (removal_frozen_attempt trace op), (rm_intent _ _ Hr).
Qed.

(** A checkpoint that keeps its intent, its commit and its cleanup. *)
Lemma removing_keep trace trace' op op' :
  removing trace op → trace ⊆ trace' → same_removal op op' →
  op_remove_intent op' = op_remove_intent op → op_remove_commit_evidence op' = op_remove_commit_evidence op →
  op_committed_snapshot op' = op_committed_snapshot op → op_remove_cleanup op' = op_remove_cleanup op →
  phase_removal trace' op' → removing trace' op'.
Proof.
  intros [Hs HT Hi Hc Hu Hcl _] Hsub Hsame Ei Ee Ec Ecl Hph. split.
  - by eapply same_removal_started.
  - by rewrite (sr_target _ _ Hsame).
  - intros i. rewrite Ei. intros Hi'. eapply removal_frozen_later; eauto.
  - rewrite Ee, Ec, Ei. intros Hev. destruct (Hc Hev) as (? & ? & ?). split; [done|]. split; [by eapply seen_later|done].
  - by rewrite Ee, Ec.
  - intros c. rewrite Ecl. intros Hcl'. eapply cleanup_seen_later; eauto.
  - done.
Qed.

(** A checkpoint whose intent has progressed, or whose cleanup has. *)
Lemma removing_progress trace trace' op op' i i' :
  removing trace op → trace ⊆ trace' → same_removal op op' →
  op_remove_intent op = Some i → op_remove_intent op' = Some i' → progressed i i' →
  op_remove_commit_evidence op' = op_remove_commit_evidence op → op_committed_snapshot op' = op_committed_snapshot op →
  (∀ c, op_remove_cleanup op' = Some c → cleanup_seen trace' c) →
  phase_removal trace' op' → removing trace' op'.
Proof.
  intros [Hs HT Hi Hc Hu _ _] Hsub Hsame Ei Ei' Hp Ee Ec Hcl Hph. split.
  - by eapply same_removal_started.
  - by rewrite (sr_target _ _ Hsame).
  - intros i0. rewrite Ei'. intros [= <-]. eapply removal_frozen_later; [done|done|].
    eapply removal_frozen_progressed; [done|]. by apply Hi.
  - rewrite Ee, Ec, Ei'. intros Hev. destruct (Hc Hev) as (? & ? & ?). split; [done|]. split; [by eapply seen_later|done].
  - by rewrite Ee, Ec.
  - done.
  - done.
Qed.

(** A checkpoint with a newly frozen intent. *)
Lemma removing_freeze trace trace' op op' i :
  removing trace op → trace ⊆ trace' → same_removal op op' →
  op_remove_intent op' = Some i → removal_frozen trace' op' i →
  op_remove_commit_evidence op' = None → op_committed_snapshot op' = op_committed_snapshot op →
  op_remove_commit_evidence op = None → op_remove_cleanup op' = op_remove_cleanup op →
  phase_removal trace' op' → removing trace' op'.
Proof.
  intros [Hs HT _ _ Hu Hcl _] Hsub Hsame Ei Hi Ee Ec He Ecl Hph. split.
  - by eapply same_removal_started.
  - by rewrite (sr_target _ _ Hsame).
  - intros i'. rewrite Ei. by intros [= <-].
  - by rewrite Ee.
  - rewrite Ec. intros _. by apply Hu.
  - intros c. rewrite Ecl. intros Hc. eapply cleanup_seen_later; eauto.
  - done.
Qed.

(** The checkpoint a recorded commit leaves. *)
Definition commit_checkpoint (op : DurableOperationStatus) (s : StablePartitionSnapshotStatus)
    (ev : RemoveReplicaCommitEvidenceStatus) (c : RemoveReplicaCleanupStatus) (i : RemoveReplicaIntentStatus) : DurableOperationStatus :=
  op <| op_phase := Phase.RemoveRecordCommit |> <| op_pending_action := None |>
    <| op_committed_snapshot := Some s |> <| op_remove_commit_evidence := Some ev |>
    <| op_remove_cleanup := Some c |> <| op_remove_intent := Some i |>.

Lemma commit_checkpoint_fields op s ev c i :
  same_removal op (commit_checkpoint op s ev c i) ∧ op_remove_intent (commit_checkpoint op s ev c i) = Some i ∧
  op_remove_commit_evidence (commit_checkpoint op s ev c i) = Some ev ∧
  op_committed_snapshot (commit_checkpoint op s ev c i) = Some s ∧ op_remove_cleanup (commit_checkpoint op s ev c i) = Some c ∧
  op_phase (commit_checkpoint op s ev c i) = Phase.RemoveRecordCommit ∧ op_pending_action (commit_checkpoint op s ev c i) = None ∧
  op_removal_disposition (commit_checkpoint op s ev c i) = op_removal_disposition op.
Proof. by destruct op. Qed.

(** A checkpoint that records the commit. *)
Lemma removing_commit trace trace' op op' i i' c :
  removing trace op → trace ⊆ trace' → same_removal op op' →
  op_remove_intent op = Some i → op_remove_intent op' = Some i' → progressed i i' →
  op_remove_commit_evidence op' ≠ None → op_committed_snapshot op' = Some T → seen (shown_reduced p T) trace' →
  op_remove_cleanup op' = Some c → cleanup_seen trace' c →
  phase_removal trace' op' → removing trace' op'.
Proof.
  intros [Hs HT Hi _ _ _ _] Hsub Hsame Ei Ei' Hp Ee Ec Hseen Ecl Hc Hph. split.
  - by eapply same_removal_started.
  - by rewrite (sr_target _ _ Hsame).
  - intros i0. rewrite Ei'. intros [= <-]. eapply removal_frozen_later; [done|done|].
    eapply removal_frozen_progressed; [done|]. by apply Hi.
  - intros _. by rewrite Ei'.
  - done.
  - intros c'. rewrite Ecl. by intros [= <-].
  - done.
Qed.

Lemma held_cleanup_seen trace op : removing trace op → cleanup_seen trace (held_cleanup op).
Proof.
  intros Hr. unfold held_cleanup. destruct (op_remove_cleanup op) as [c|] eqn:Hc; cbn [default].
  - by apply (rm_cleanup _ _ Hr).
  - apply no_cleanup_seen.
Qed.

Ltac keeps := eapply removing_keep; [eassumption|set_solver|done|done|done|done|done|].

(** A decision keeps the invariant. *)
Lemma removing_decide trace op obs pods label now d :
  removing trace op → remove_outcome p id inst pod mode op obs pods label now (Ok d) →
  removing (mkMembershipTurn op obs pods label now d :: trace) (after_decision op d).
Proof.
  intros Hr Hout. pose proof (rm_phase _ _ Hr) as Hphase. pose proof (rm_target _ _ Hr) as HT.
  pose proof (held_cleanup_seen _ _ Hr) as Hheld. set (tn := mkMembershipTurn op obs pods label now d).
  assert (phase_removal (tn :: trace) op) as Hsame by (eapply phase_removal_later; [|exact Hphase]; set_solver).
  assert (∀ c c', cleans p id inst (mkMembershipTurn op obs pods label now Wait) c c' → cleans p id inst tn c c') as Hcl.
  { intros c c' [G1 G2 G3 G4]. by split. }
  unfold phase_removal in Hphase. inversion Hout; clear Hout; subst d; cbn [after_decision];
    try match goal with X : uncommitted _ _ |- _ => destruct X as [Hp He]; rewrite Hp in Hphase end;
    try match goal with X : committed _ _ |- _ => destruct X as (Hp & He & Hc); rewrite Hp in Hphase end;
    try match goal with X : cleans _ _ _ _ _ _ |- _ => rename X into Hclean; apply Hcl in Hclean end;
    try (by keeps).
  - (* frozen *)
    eapply removing_freeze; [exact Hr|set_solver|done|done| |done|done|done|done|].
    + exists tn, core. split; [left|]. split; [done|]. split; [by apply (same_removal_of op)|apply progressed_refl].
    + split; [done|]. by intros i [= <-].
  - (* progress *)
    eapply removing_progress; [exact Hr|set_solver|done|eassumption|done|done|done|done| |].
    + intros c Hc'. eapply cleanup_seen_later; [|by eapply (rm_cleanup _ _ Hr)]. set_solver.
    + unfold phase_removal. cbn. by rewrite Hp.
  - (* another attempt *)
    keeps. split; [done|]. intros i'. cbn. naive_solver.
  - (* compensated *)
    keeps. match goal with X : ended_unreduced _ _ _ |- _ => rename X into Hend end. split; [done|]. split; [|by apply seen_here].
    destruct Hend as (o & i & a & (_ & Hi & _) & _ & _ & Hd & _). intros i'. cbn. naive_solver.
  - (* the commit *)
    change (removing (tn :: trace) (commit_checkpoint op (op_target_snapshot op) ev c i')). rewrite HT.
    destruct (commit_checkpoint_fields op T ev c i') as (F1 & F2 & F3 & F4 & F5 & F6 & _).
    eapply removing_commit; [exact Hr|set_solver|exact F1|eassumption|exact F2|eassumption|by rewrite F3|exact F4| |exact F5| |].
    + apply seen_here. exists o. split; [done|]. by rewrite <-HT.
    + eapply cleans_seen; [apply no_cleanup_seen|done].
    + unfold phase_removal. by rewrite F6, F3.
  - (* restored *)
    keeps. destruct Hphase as (? & ? & ?). split; [done|]. split; [done|]. by apply seen_before.
  - (* cleaned *)
    eapply removing_progress; [exact Hr|set_solver|done|eassumption|done|done|done|done| |].
    + intros c' [= <-]. by eapply cleans_seen.
    + unfold phase_removal. cbn. by rewrite Hp.
  - (* fenced off *)
    eapply removing_progress; [exact Hr|set_solver|done|eassumption|done|done|done|done| |].
    + intros c' [= <-]. by eapply cleans_seen.
    + split; [done|]. by exists c.
  - (* the pod is gone *)
    destruct Hphase as (_ & c0 & Hc0 & Hoff). destruct (op_remove_intent op) as [i|] eqn:Hi; [|by destruct (rm_commit _ _ Hr He) as (_ & _ & [])].
    eapply (removing_progress trace _ op _ i i); [exact Hr|set_solver|done|done|done|apply progressed_refl|done|done| |].
    + intros c' [= <-]. subst c. destruct Hheld as (G1 & G2 & G3 & _).
      split_and!; cbn; intros H; [apply seen_before; auto..|]. by apply seen_here.
    + split; [done|]. eexists. split; [done|]. subst c. unfold held_cleanup. rewrite Hc0. by destruct Hoff.
Qed.

(** So does a decision whose write is lost. *)
Lemma removing_lost trace op tn : removing trace op → removing (tn :: trace) op.
Proof.
  intros Hr. eapply removing_keep; [exact Hr|set_solver|done|done|done|done|done|].
  eapply phase_removal_later; [|exact (rm_phase _ _ Hr)]. set_solver.
Qed.

Lemma remove_run_removing trace op : remove_run trace op → removing trace op.
Proof.
  induction 1 as [uid request n now op Hst HT Eid Einst Epod|trace op obs pods label now d _ IH Hd|trace op obs pods label now d _ IH _
    |trace op op' _ IH (err & pending & -> & _)|trace op m _ IH].
  - apply start_remove_replica_Ok in Hst as (Hs & Hph & _ & Hc & Hi & He & Hcl & _). split.
    + by rewrite Eid, Einst, Epod in Hs.
    + done.
    + intros i. by rewrite Hi.
    + by rewrite He.
    + done.
    + intros c. by rewrite Hcl.
    + unfold phase_removal. rewrite Hph. split; [done|]. intros i. by rewrite Hi.
  - apply removing_decide; [done|]. rewrite <-Hd. by eapply removing_outcome.
  - by apply removing_lost.
  - eapply removing_keep; [exact IH|done|done|done|done|done|done|]. exact (rm_phase _ _ IH).
  - by eapply removing_keep; [exact IH|..].
Qed.

(** A run as it was when a turn was decided. *)
Lemma remove_run_split trace op after tn before :
  remove_run trace op → trace = after ++ tn :: before →
  remove_run before (mt_operation tn) ∧
  decide_remove_replica (mt_operation tn) (mt_observations tn) (mt_pods tn) (mt_label tn) (mt_now tn) = Ok (mt_decision tn).
Proof.
  intros Hrun. revert after.
  induction Hrun as [uid request n now op Hst HT Hid Hinst Hpod|trace op obs pods label now d Hrun IH Hd|trace op obs pods label now d Hrun IH Hd
    |trace op op' _ IH _|trace op m _ IH]; intros after Ht.
  - by destruct after.
  - destruct after as [|x after]; injection Ht as <- Ht; [by subst|by eapply IH].
  - destruct after as [|x after]; injection Ht as <- Ht; [by subst|by eapply IH].
  - by eapply IH.
  - by eapply IH.
Qed.

(** What a turn of a run decided, and what held before it. *)
Lemma remove_turn_outcome trace op after tn before :
  remove_run trace op → trace = after ++ tn :: before →
  removing before (mt_operation tn) ∧
  remove_outcome p id inst pod mode (mt_operation tn) (mt_observations tn) (mt_pods tn) (mt_label tn) (mt_now tn)
    (Ok (mt_decision tn)).
Proof.
  intros Hrun Ht. destruct (remove_run_split _ _ _ _ _ Hrun Ht) as [Hb Hd]. apply remove_run_removing in Hb. split; [done|].
  rewrite <-Hd. by eapply removing_outcome.
Qed.

(** A run, executed: one turn after the other. *)
Fixpoint remove_play (turns : list (OperationObservations * gmap Z string * option string * Z)) (trace : list membership_turn)
    (op : DurableOperationStatus) : result failure (list membership_turn * DurableOperationStatus) :=
  match turns with
  | [] => Ok (trace, op)
  | (obs, pods, label, now) :: turns =>
      d ← decide_remove_replica op obs pods label now;
      remove_play turns (mkMembershipTurn op obs pods label now d :: trace) (after_decision op d)
  end.

Lemma remove_play_run turns trace op trace' op' :
  remove_run trace op → remove_play turns trace op = Ok (trace', op') → remove_run trace' op'.
Proof.
  revert trace op. induction turns as [|[[[obs pods] label] now] turns IH]; intros trace op Hrun; cbn [remove_play]; [by intros [= <- <-]|].
  rewrite bind_Ok. intros (d & Hd & Hp). eapply IH; [|exact Hp]. by apply remove_run_decide.
Qed.
End runs.
