(* ===== verification/RemoveSafety.v ===== *)
(** What removals guarantee: a pod is deleted only after the removal has
    committed and its target is fenced off, a removal completes only as seen,
    and the intent the operator sends is the one it observed. *)

From S2P Require Import Prelude Types Lifecycle AddReplica RemoveReplica Control Replicator Agent Convert Wire Crd Operation Effects AddWorkflow AddSteps Turns RemoveWorkflow RemoveSteps RemoveOutcomes RemoveRuns.

Set Default Goal Selector "!".

Section safety.
  Context {Ends : Endpoints}.
  Context (p : StablePartitionSnapshotStatus) (id : Z) (inst pod : string) (mode : DurableRemoveMode)
    (T : StablePartitionSnapshotStatus).

(** What a cleanup that fences the target off has seen. *)
Lemma fenced_off_seen trace op c :
  removing p id inst pod mode T trace op → op_remove_cleanup op = Some c → fenced_off c →
  seen (connection_gone p id inst) trace ∧ seen (retirement_settled p id inst) trace ∧ seen (target_fenced id inst) trace ∧
  (cls_target_pod_deleted c = true → seen (target_absent id inst) trace).
Proof.
  intros Hr Hc (H1 & H2 & H3). destruct (rm_cleanup _ _ _ _ _ _ _ _ Hr c Hc) as (G1 & G2 & G3 & G4).
  split_and!; auto.
Qed.

(** C34. A removal deletes a pod only after it has committed, and only the
    target's, by name and incarnation. Before the turn that deletes:
    - the primary, exact, writable and at the epoch, was seen to show the
      reduced topology as its current configuration ([shown_reduced]);
    - the connection to the target was gone: the replica observed as primary
      showed none, or the coordinator of the frozen action reported so, or the
      process that had shown the commit was gone, replaced by another, or
      unobserved with its pod gone ([connection_gone]);
    - the target's retirement was settled: reported as over, seen at the
      target, given up with the committing process, or out of time
      ([retirement_settled]);
    - the target's pod was seen without its serving label or gone.
    Its label is taken away only after the commit, with the connection gone and
    the retirement settled in the same sense. No other label is patched. *)
Theorem removal_deletes_committed_only trace op after tn before :
  remove_run p id inst pod mode T trace op → trace = after ++ tn :: before →
  (∀ name uid, mt_decision tn = DeletePod name uid →
     name = pod ∧ uid = inst ∧ mt_pods tn !! id = Some inst ∧ seen (shown_reduced p T) before ∧
     seen (connection_gone p id inst) before ∧ seen (retirement_settled p id inst) before ∧
     seen (target_fenced id inst) before) ∧
  (∀ target uid role, mt_decision tn = PatchPodRoleExactUid target uid role →
     target = id ∧ uid = inst ∧ role = "retired" ∧ seen (shown_reduced p T) before ∧
     seen (connection_gone p id inst) (tn :: before) ∧ seen (retirement_settled p id inst) (tn :: before)) ∧
  (∀ target role, mt_decision tn ≠ PatchPodRole target role).
Proof.
  intros Hrun Ht. destruct (remove_turn_outcome _ _ _ _ _ _ _ _ _ _ _ Hrun Ht) as [Hr Hout].
  pose proof (rm_phase _ _ _ _ _ _ _ _ Hr) as Hph. pose proof (held_cleanup_seen _ _ _ _ _ _ _ _ Hr) as Hheld.
  unfold phase_removal in Hph. split; [|split].
  - intros name uid Hd. rewrite Hd in Hout.
    assert (committed (mt_operation tn) Phase.RemoveDeleteTargetPod ∧ name = pod ∧ uid = inst ∧ mt_pods tn !! id = Some inst)
      as ((Hp & He & _) & ? & ? & ?) by by inversion Hout.
    rewrite Hp in Hph. destruct Hph as (_ & c & Hc & Hoff). destruct (fenced_off_seen _ _ _ Hr Hc Hoff) as (? & ? & ? & _).
    split_and!; try done. by apply (rm_commit _ _ _ _ _ _ _ _ Hr).
  - intros target uid role Hd. rewrite Hd in Hout.
    assert (∃ c, committed (mt_operation tn) Phase.RemoveAwaitCleanup ∧
      cleans p id inst tn (held_cleanup (mt_operation tn)) c ∧ cls_connection_absent c = true ∧
      cls_target_retirement c ≠ None ∧ target = id ∧ uid = inst ∧ role = "retired") as (c & (Hp & He & _) & Hcl & Habs & Hret & ? & ? & ?).
    { inversion Hout; subst. exists c. split_and!; try done. by match goal with X : cleans _ _ _ _ _ _ |- _ => destruct X end. }
    destruct (cleans_seen p id inst before _ _ _ Hheld Hcl) as (G1 & G2 & _). split_and!; auto.
    by apply (rm_commit _ _ _ _ _ _ _ _ Hr).
  - intros target role Hd. rewrite Hd in Hout. by inversion Hout.
Qed.

(** C35. What a completed removal has shown. As done: the topology published
    and completed with is the requested one, the commit was seen before, and so
    was that the target's pod is gone. As undone: the topology is the previous
    one, no commit is recorded, and the primary was seen, exact and writable,
    to show the previous configuration after the frozen action had ended
    without dispatching the installation of the reduced one. A commit is
    recorded in no other turn than one where the primary shows it. *)
Theorem removal_completion_attested trace op after tn before :
  remove_run p id inst pod mode T trace op → trace = after ++ tn :: before →
  (∀ final s, mt_decision tn = Complete final s false ∨ mt_decision tn = CommitSnapshot final s →
     s = T ∧ seen (shown_reduced p T) before ∧ seen (connection_gone p id inst) before ∧
     seen (retirement_settled p id inst) before ∧ seen (target_fenced id inst) before ∧ seen (target_absent id inst) before) ∧
  (∀ final s, mt_decision tn = Complete final s true →
     s = p ∧ op_committed_snapshot (mt_operation tn) = None ∧ seen (shown_unreduced p) before ∧
     ∀ i, op_remove_intent (mt_operation tn) = Some i → ris_current_install_dispatched i = false) ∧
  (∀ next, mt_decision tn = RecordCommitEvidence next → shown_reduced p T tn ∧ op_committed_snapshot next = Some T) ∧
  (∀ final s, mt_decision tn ≠ CompleteDegraded final s).
Proof.
  intros Hrun Ht. destruct (remove_turn_outcome _ _ _ _ _ _ _ _ _ _ _ Hrun Ht) as [Hr Hout].
  pose proof (rm_phase _ _ _ _ _ _ _ _ Hr) as Hph. pose proof (rm_target _ _ _ _ _ _ _ _ Hr) as HT. unfold phase_removal in Hph.
  split; [|split; [|split]].
  - intros final s Hd.
    assert (op_target_snapshot (mt_operation tn) = s ∧
      (op_phase (mt_operation tn) = Phase.RemovePublishTopology ∨ op_phase (mt_operation tn) = Phase.RemoveFinalize)) as [<- Hp].
    { destruct Hd as [Hd|Hd]; rewrite Hd in Hout; inversion Hout; subst;
        match goal with X : committed _ _ |- _ => destruct X as (Hp & _) end; split; [done|by right|done|by left]. }
    rewrite HT. split; [done|].
    assert (op_remove_commit_evidence (mt_operation tn) ≠ None ∧ ∃ c, op_remove_cleanup (mt_operation tn) = Some c ∧ fenced_off c ∧
      cls_target_pod_deleted c = true) as (He & c & Hc & Hoff & Hdel) by by destruct Hp as [Hp|Hp]; rewrite Hp in Hph.
    destruct (fenced_off_seen _ _ _ Hr Hc Hoff) as (? & ? & ? & ?). split; [by apply (rm_commit _ _ _ _ _ _ _ _ Hr)|].
    split_and!; auto.
  - intros final s Hd. rewrite Hd in Hout. inversion Hout; subst.
    match goal with X : uncommitted _ _ |- _ => destruct X as (Hp & He) end. rewrite Hp in Hph. destruct Hph as (_ & Hu & Hs).
    split_and!; try done. by apply (rm_uncommitted _ _ _ _ _ _ _ _ Hr).
  - intros next Hd. rewrite Hd in Hout. rewrite <-HT. inversion Hout. split; [by exists o|done].
  - intros final s Hd. rewrite Hd in Hout. by inversion Hout.
Qed.

(** ** The checks of the next decision *)

Lemma remove_accessors_same op op' : same_removal op op' →
  remove_target_replica_id op' = remove_target_replica_id op ∧ remove_target_instance_id op' = remove_target_instance_id op ∧
  remove_target_pod_name op' = remove_target_pod_name op ∧ remove_target_pod_uid op' = remove_target_pod_uid op ∧
  remove_mode op' = remove_mode op.
Proof.
  intros Hs. unfold remove_target_replica_id, remove_target_instance_id, remove_target_pod_name, remove_target_pod_uid, remove_mode.
  by rewrite (sr_target_id _ _ Hs), (sr_target_instance _ _ Hs), (sr_target_pod _ _ Hs), (sr_target_uid _ _ Hs), (sr_mode _ _ Hs).
Qed.

(** An intent that has progressed is read back as before. *)
Lemma core_remove_intent_same op op' i i' :
  same_removal op op' → op_remove_intent op = Some i → op_remove_intent op' = Some i' → progressed i i' →
  core_remove_intent op' = core_remove_intent op.
Proof.
  intros Hs Hi Hi' [(Ha1 & Ha2 & Ha3 & Ha4) (Hb1 & Hb2 & Hb3 & Hb4 & Hb5) (Hc1 & Hc2 & Hc3 & Hc4) (Hd1 & Hd2 & Hd3 & Hd4)
    (He1 & He2 & He3 & He4 & He5 & He6)]%progressed_same.
  destruct (remove_accessors_same _ _ Hs) as (Hid & Hinst & Hpod & Huid & Hmode).
  unfold core_remove_intent. rewrite Hi, Hi', Hid, Hinst, Hpod, Huid, Hmode, (sr_previous _ _ Hs), (sr_old_primary _ _ Hs),
    (sr_operation_id _ _ Hs), (sr_minimum _ _ Hs). cbn [or_fail ok_or mbind result_bind].
  by rewrite Ha1, Ha2, Ha3, Ha4, Hb1, Hb2, Hb3, Hb4, Hb5, Hc1, Hc2, Hc3, Hc4, Hd1, Hd2, Hd3, Hd4, He1, He2, He3, He4, He5, He6.
Qed.

Lemma validate_remove_keeps op op' :
  same_removal op op' → validate_remove_operation op = Ok tt →
  validate_remove_frozen op' = Ok tt → validate_remove_pending op' = Ok tt →
  (op_remove_commit_evidence op' ≠ None → op_remove_intent op' ≠ None) → op_removal_disposition op' = None →
  validate_remove_operation op' = Ok tt.
Proof.
  intros Hs Hv Hf Hpd Hev Hd. destruct (remove_accessors_same _ _ Hs) as (Hid & Hinst & Hpod & Huid & Hmode).
  assert (validate_remove_topology op' = validate_remove_topology op) as Htop.
  { unfold validate_remove_topology. by rewrite Hid, Hinst, Hpod, Huid, (sr_previous _ _ Hs), (sr_target _ _ Hs),
      (sr_old_primary _ _ Hs), (sr_target_primary _ _ Hs), (sr_address _ _ Hs). }
  destruct (sr_add _ _ Hs) as [Ham Hai]. unfold validate_remove_operation in *.
  rewrite Htop, Hf, Hpd, Hd, (sr_version _ _ Hs), (sr_kind _ _ Hs), (sr_previous _ _ Hs), (sr_target _ _ Hs), (sr_mode _ _ Hs),
    (sr_generation _ _ Hs), Ham, Hai.
  do 8 (apply bind_Ok in Hv as (? & -> & Hv); cbn [mbind result_bind]).
  apply bind_Ok in Hv as ([] & _ & Hv). apply bind_Ok in Hv as ([] & Hgen & Hv).
  assert (fail_if (negb (none (op_remove_commit_evidence op')) && none (op_remove_intent op'))
    "remove commit evidence has no frozen intent" = Ok tt) as ->.
  { destruct (op_remove_commit_evidence op'), (op_remove_intent op'); try done. by destruct Hev. }
  cbn [mbind result_bind]. by rewrite Hgen.
Qed.

Lemma validated_now op obs pods label now d :
  decide_remove_replica op obs pods label now = Ok d → validate_remove_operation op = Ok tt.
Proof. unfold decide_remove_replica. by intros ([] & Hv & _)%bind_Ok. Qed.

(** The intent a turn sends, and what it was frozen from. *)
Definition sends_removal (before : list membership_turn) (tn : membership_turn) (target : Z) (action_id : string)
    (action : DurableReplicaAction) : Prop :=
  ∃ core tn0 o, tn0 ∈ before ∧ op_phase (mt_operation tn0) = Phase.RemoveFreezeIntent ∧
    removal_of (mt_operation tn) p id inst pod mode (mt_observations tn0) (mt_now tn0) core ∧
    action = ActRemoveReplicaIntent core ∧ target = ss_primary_id p ∧ action_id = rm_action_id core ∧
    mt_now tn < rm_overall_deadline_unix_seconds core ∧ op_committed_snapshot (mt_operation tn) = None ∧
    mt_observations tn !! ss_primary_id p = Some o ∧ exact_primary p o ∧
    as_generation (si_agent (ro_status o)) = rm_primary_agent_generation core ∧
    correlated_action_observation (ro_status o) action_id = None.

(** C36. The checkpoint form of a removal's intent is equivalent to the
    intent: what the operator rebuilds and sends is, field by field, the valid
    intent it built from its observations when it froze it; it goes to the
    exact writable primary while its agent is the process observed then, has
    no report of the action, nothing is committed and the deadline is not
    reached. Conversely a freshly frozen intent is rebuilt as itself and
    passes the checks of the next decision, is at most the third, and is
    frozen only where no earlier one dispatched the installation of the
    reduced configuration. Deciding never panics. *)
Theorem removal_intent_equivalent trace op obs pods label now :
  remove_run p id inst pod mode T trace op →
  (∀ after tn before target action_id action, trace = after ++ tn :: before →
     mt_decision tn = Execute target action_id action → sends_removal before tn target action_id action) ∧
  panics (decide_remove_replica op obs pods label now) = false ∧
  ∀ next, decide_remove_replica op obs pods label now = Ok (Persist next) → op_phase next = Phase.RemoveDispatchIntent →
    undispatched op ∧ undispatched next ∧
    ∃ core, removal_of op p id inst pod mode obs now core ∧ rm_attempt_number core ≤ MAX_REMOVE_REPLICA_PRE_COMMIT_ATTEMPTS ∧
      ((∀ i o, obs !! i = Some o → generation_ok (as_generation (si_agent (ro_status o)))) →
       core_remove_intent next = Ok core ∧ validate_remove_operation next = Ok tt).
Proof.
  intros Hrun. pose proof (remove_run_removing _ _ _ _ _ _ _ _ Hrun) as Hr. split; [|split].
  - intros after tn before target action_id action Ht Hd. destruct (remove_turn_outcome _ _ _ _ _ _ _ _ _ _ _ Hrun Ht) as [Hb Hout].
    rewrite Hd in Hout. clear Hd Hrun Hr. inversion Hout; subst.
    match goal with X : op_remove_intent _ = Some _ |- _ => rename X into Hi end.
    match goal with X : core_remove_intent _ = Ok _ |- _ => rename X into Hcore end.
    match goal with X : uncommitted _ _ |- _ => destruct X as [_ He] end.
    destruct (rm_intent _ _ _ _ _ _ _ _ Hb _ Hi) as (tn0 & core' & Hin & Hph & Hob & Hpr).
    apply (core_remove_intent_frozen p id inst pod mode _ _ _ core' _ core (rm_started _ _ _ _ _ _ _ _ Hb) Hob Hi Hpr) in Hcore as (-> & _).
    destruct (progressed_same _ _ Hpr) as [(_ & _ & Hact & _) (_ & Hgen & _) _ _ (_ & Hdl & _)]. cbn in Hact, Hgen, Hdl.
    exists core', tn0, o. split_and!; try done; try congruence; try lia. all: by apply (rm_uncommitted _ _ _ _ _ _ _ _ Hb).
  - pose proof (removing_outcome _ _ _ _ _ _ _ _ obs pods label now Hr) as Hout. by inversion Hout.
  - intros next Hd Hph. pose proof (removing_outcome _ _ _ _ _ _ _ _ obs pods label now Hr) as Hout.
    pose proof (validated_now _ _ _ _ _ _ Hd) as Hv. pose proof (rm_started _ _ _ _ _ _ _ _ Hr) as Hs.
    pose proof (rm_phase _ _ _ _ _ _ _ _ Hr) as Hphase. unfold phase_removal in Hphase. rewrite Hd in Hout.
    assert (∃ core, uncommitted op Phase.RemoveFreezeIntent ∧ removal_of op p id inst pod mode obs now core ∧
      next = op <| op_remove_intent := Some (frozen_removal core) |> <| op_pending_action := None |>
        <| op_phase := Phase.RemoveDispatchIntent |>
        <| op_phase_deadline_unix_seconds := rm_overall_deadline_unix_seconds core |> <| op_last_error := None |>)
      as (core & [Hp He] & Hob & ->).
    { inversion Hout; subst next; try (by cbn in Hph); try (by exists core);
        match goal with X : uncommitted _ _ |- _ => destruct X as [Hp _] | X : committed _ _ |- _ => destruct X as [Hp _] end;
        cbn in Hph; congruence. }
    rewrite Hp in Hphase. destruct Hphase as [_ Hu]. split; [done|]. split; [by intros i [= <-]|]. exists core. split; [done|].
    split; [by destruct (rf_attempt _ _ _ _ _ _ _ _ _ Hob) as [[_ ?] _]|]. intros Hg.
    set (next := _ <| op_last_error := None |>). assert (same_removal op next) as Hsame by done.
    assert (core_remove_intent next = Ok core) as Hcore.
    { apply (core_remove_intent_frozen p id inst pod mode next obs now core (frozen_removal core)); [by eapply same_removal_started|
        by eapply same_removal_of|done|apply progressed_refl|]. split; [done|].
      destruct (rf_primary _ _ _ _ _ _ _ _ _ Hob) as (o & _ & Ho & _ & _ & _ & _ & -> & _). split; [by eapply Hg|].
      destruct (rf_named _ _ _ _ _ _ _ _ _ Hob) as (t & Hnt & Htg & _). intros g. rewrite Htg.
      destruct t as [o'|]; [|done]. destruct (Hnt o' eq_refl) as [Ho' _]. intros [= <-]. by eapply Hg. }
    split; [done|]. apply (validate_remove_keeps op next Hsame Hv).
    + destruct (rf_attempt _ _ _ _ _ _ _ _ _ Hob) as [[Ha1 Ha2] Ha]. unfold validate_remove_frozen.
      change (op_remove_intent next) with (Some (frozen_removal core)). rewrite Hcore. cbn [frozen_removal remove_intent_status ris_action_id ris_attempt_id ris_attempt].
      rewrite (bool_decide_eq_true_2 _ Ha), (proj2 (Z.eqb_neq _ _)), (proj2 (Z.ltb_ge _ _)) by lia. done.
    + done.
    + done.
    + unfold validate_remove_operation in Hv. do 12 (apply bind_Ok in Hv as (? & _ & Hv)). apply fail_if_Ok in Hv. rewrite Hp in Hv.
      change (op_removal_disposition next) with (op_removal_disposition op). by destruct (op_removal_disposition op).
Qed.
End safety.
