(* ===== verification/RemoveFinish.v ===== *)
(** A committed removal is always finished: the checks of every later
    decision pass, and where the deadline is over and the primary holds no
    connection to the target, at most seven turns complete it. *)

From S2P Require Import Prelude Types Lifecycle AddReplica RemoveReplica Control Replicator Agent Convert Wire Crd Operation Effects AddWorkflow AddSteps Turns RemoveWorkflow RemoveSteps RemoveOutcomes RemoveRuns RemoveSafety.

Set Default Goal Selector "!".

Section finish.
  Context {Ends : Endpoints}.
  Context (p : StablePartitionSnapshotStatus) (id : Z) (inst pod : string) (mode : DurableRemoveMode)
    (T : StablePartitionSnapshotStatus).

(** ** The checks pass *)

Definition accepted (op : DurableOperationStatus) : Prop :=
  validate_remove_operation op = Ok tt ∧ op_pending_action op = None.

Lemma validated_parts_remove op : validate_remove_operation op = Ok tt →
  validate_remove_frozen op = Ok tt ∧ (op_phase op ≠ Phase.Poisoned → op_removal_disposition op = None).
Proof.
  unfold validate_remove_operation. intros Hv. do 10 (apply bind_Ok in Hv as (? & _ & Hv)).
  apply bind_Ok in Hv as ([] & Hf & Hv).
  apply bind_Ok in Hv as (? & _ & Hv%fail_if_Ok). split; [done|]. intros Hp. rewrite bool_decide_eq_false_2 in Hv by done.
  by destruct (op_removal_disposition op).
Qed.

(** Progress keeps them. *)
Lemma accepted_progressed op op' i i' :
  same_removal op op' → validate_remove_operation op = Ok tt → op_phase op ≠ Phase.Poisoned →
  op_remove_intent op = Some i → op_remove_intent op' = Some i' → progressed i i' →
  op_pending_action op' = None → op_removal_disposition op' = op_removal_disposition op → accepted op'.
Proof.
  intros Hs Hv Hph Hi Hi' Hp Hpd Hd. destruct (validated_parts_remove _ Hv) as [Hf Hdis]. split; [|done].
  apply (validate_remove_keeps op op'); try done.
  - unfold validate_remove_frozen in *. rewrite Hi in Hf. rewrite Hi', (core_remove_intent_same _ _ _ _ Hs Hi Hi' Hp).
    destruct (progressed_same _ _ Hp) as [(-> & -> & -> & _) _ _ _ _]. exact Hf.
  - unfold validate_remove_pending. by rewrite Hpd.
  - by rewrite Hi'.
  - rewrite Hd. by apply Hdis.
Qed.

Lemma committed_accepted trace op :
  remove_run p id inst pod mode T trace op → op_remove_commit_evidence op ≠ None → op_phase op ≠ Phase.Poisoned → accepted op.
Proof.
  induction 1 as [uid request n now op Hst _ _ _ _|trace op obs pods label now d Hrun IH Hd|trace op obs pods label now d _ IH _
    |trace op op' Hrun IH (err & pending & -> & Hpd)|trace op m _ _]; intros He Hph.
  - apply start_remove_replica_Ok in Hst as (_ & _ & _ & _ & _ & Hn & _). by destruct He.
  - pose proof (validated_now _ _ _ _ _ _ Hd) as Hv. pose proof (remove_run_removing _ _ _ _ _ _ _ _ Hrun) as Hr.
    pose proof (removing_outcome _ _ _ _ _ _ _ _ obs pods label now Hr) as Hout. rewrite Hd in Hout.
    assert (∀ phase, committed op phase → phase ≠ Phase.Poisoned → accepted op ∧ ∃ i, op_remove_intent op = Some i) as Hok.
    { intros phase (Hp & Hev & _) Hne. split; [apply IH; congruence|].
      destruct (op_remove_intent op) as [i|] eqn:Hi; [by exists i|]. by destruct (rm_commit _ _ _ _ _ _ _ _ Hr Hev) as (_ & _ & []). }
    inversion Hout; clear Hout; subst d; cbn [after_decision] in *; try (by apply IH); try (by destruct Hph);
      try match goal with X : uncommitted _ _ |- _ => destruct X as [Hp Hn] end;
      try (by destruct He);
      try match goal with X : committed _ _ |- _ => destruct (Hok _ X ltac:(done)) as [[_ Hpd] [j Hj]]; destruct X as [Hp _] end;
      try (eapply (accepted_progressed op); [done|exact Hv|congruence|exact Hj|exact Hj|apply progressed_refl|exact Hpd|done]);
      try match goal with X : progressed ?i ?i' |- _ =>
        apply (accepted_progressed op _ i i'); [done|exact Hv|congruence|done|done|done|exact Hpd|done] end.
    + (* the commit *)
      change (accepted (commit_checkpoint op (op_target_snapshot op) ev c i')).
      destruct (commit_checkpoint_fields op (op_target_snapshot op) ev c i') as (F1 & F2 & _ & _ & _ & _ & F7 & F8).
      eapply (accepted_progressed op); [exact F1|exact Hv|congruence|eassumption|exact F2|eassumption|exact F7|exact F8].
    + eapply (accepted_progressed op); [done|exact Hv|congruence|exact Hj|exact Hj|apply progressed_refl|done|done].
  - by apply IH.
  - destruct (IH He Hph) as [Hv Hn]. rewrite Hn in Hpd. destruct pending; [done|]. split; [|done].
    destruct (validated_parts_remove _ Hv) as [Hf Hdis].
    apply (validate_remove_keeps op); try done.
    + intros Hev. by apply (rm_commit _ _ _ _ _ _ _ _ (remove_run_removing _ _ _ _ _ _ _ _ Hrun)).
    + by apply Hdis.
  - done.
Qed.

(** ** The turns that finish it *)

(** The target's pod and its label, as the cluster answers a decision. *)
Definition answered (d : Decision) (pods : gmap Z string) (label : option string) : gmap Z string * option string :=
  match d with
  | PatchPodRoleExactUid target uid role => (pods, if bool_decide (pods !! target = Some uid) then Some role else label)
  | DeletePod _ uid => (if bool_decide (pods !! id = Some uid) then delete id pods else pods, label)
  | _ => (pods, label)
  end.

Fixpoint settle (turns : list (OperationObservations * Z)) (pods : gmap Z string) (label : option string)
    (trace : list membership_turn) (op : DurableOperationStatus) : result failure (list membership_turn * DurableOperationStatus) :=
  match turns with
  | [] => Ok (trace, op)
  | (obs, now) :: turns =>
      d ← decide_remove_replica op obs pods label now;
      settle turns (answered d pods label).1 (answered d pods label).2 (mkMembershipTurn op obs pods label now d :: trace)
        (after_decision op d)
  end.

(** What a turn must see: the deadline is over, and the process that
    committed is gone, or shows the reduced topology as current, no connection
    to the target and, if any, the report of the frozen action. *)
Definition favourable (op : DurableOperationStatus) (pods : gmap Z string) (turn : OperationObservations * Z) : Prop :=
  ∀ i, op_remove_intent op = Some i →
    ris_overall_deadline_unix_seconds i ≤ turn.2 ∧
    match turn.1 !! ss_primary_id p with
    | None => pods !! ss_primary_id p ≠ Some (ris_primary_instance_id i)
    | Some o =>
        si_configuration (ro_status o) = Some (remove_configuration_status T Current) ∧
        (∀ c, c ∈ si_active_replica_connections (ro_status o) → ¬ (rcs_id c = id ∧ rcs_instance_id c = inst)) ∧
        ∀ a, correlated_action_observation (ro_status o) (ris_action_id i) = Some a → do_signature a = ris_input_signature i
    end.

Lemma favourable_progressed op op' i i' pods turn :
  op_remove_intent op = Some i → op_remove_intent op' = Some i' → progressed i i' →
  favourable op pods turn → favourable op' pods turn.
Proof.
  intros Hi Hi' Hp Hf i0. rewrite Hi'. intros [= <-]. destruct (Hf i Hi) as [Hd Hm].
  destruct (progressed_same _ _ Hp) as [(_ & _ & Ha & Hsig) (Hin & _) _ _ (_ & Hdl & _)].
  by rewrite Hdl, Ha, Hsig, Hin.
Qed.

(** What is still to be done. *)
Definition remaining (op : DurableOperationStatus) (pods : gmap Z string) (label : option string) : nat :=
  let present := bool_decide (pods !! id = Some inst) in
  match op_phase op with
  | Phase.RemoveRecordCommit => 7
  | Phase.RemoveAwaitCleanup =>
      if cls_target_labels_fenced (held_cleanup op) then (if present then 5 else 4)
      else if present then (if bool_decide (label = Some "retired") then 5 else 6) else 5
  | Phase.RemoveDeleteTargetPod => if present then 4 else 3
  | Phase.RemovePublishTopology => 2
  | Phase.RemoveFinalize => 1
  | _ => 0
  end.

Lemma not_classified_previous :
  removal_request p T id inst →
  remove_configuration_status T Current ≠ remove_configuration_status p Current.
Proof.
  intros [Hvp Hvt Hprim _ _ (m & Hm & Hid & _) HT _] [= Hl _].
  apply (f_equal length) in Hl. rewrite !(Permutation_length (sort_by_key_Permutation _ _)), !length_fmap in Hl.
  pose proof (secondaries_length _ Hvt) as Ht. pose proof (secondaries_length _ Hvp) as Hpl. unfold secondaries in *.
  pose proof (length_less_one srs_id (ss_members p) m (vt_ids _ Hvp) Hm) as Hlen. rewrite Hid, <-HT in Hlen. lia.
Qed.

Lemma classified_reduced op status :
  removes_as p id inst pod mode op → op_target_snapshot op = T →
  si_configuration status = Some (remove_configuration_status T Current) → classify_configuration op status = Ok ReducedCurrent.
Proof.
  intros Hs HT Hcfg. pose proof (ra_request _ _ _ _ _ _ Hs) as Hrq. rewrite HT in Hrq. unfold classify_configuration.
  rewrite Hcfg, (ra_previous _ _ _ _ _ _ Hs), HT. cbn [or_fail ok_or mbind result_bind expect_previous].
  rewrite bool_decide_eq_false_2 by (by apply not_classified_previous). rewrite bool_decide_eq_false_2 by done.
  by rewrite bool_decide_eq_true_2.
Qed.

(** Where the turn is favourable, the cleanup is complete but for the label. *)
Lemma cleanup_favourable op i obs pods label now :
  removes_as p id inst pod mode op → op_target_snapshot op = T → op_remove_intent op = Some i →
  op_remove_commit_evidence op ≠ None → favourable op pods (obs, now) →
  ∃ c i', progressed i i' ∧ cls_target_labels_fenced c = cls_target_labels_fenced (held_cleanup op) ∧
    let next c := op <| op_remove_cleanup := Some c |> <| op_remove_intent := Some i' |> in
    decide_cleanup op obs pods label now = Ok (
      if cls_target_labels_fenced c then Persist ((next c) <| op_phase := Phase.RemoveDeleteTargetPod |>)
      else if negb (bool_decide (pods !! id = Some inst)) then Persist (next (c <| cls_target_labels_fenced := true |>))
      else if negb (bool_decide (label = Some "retired")) then PatchPodRoleExactUid id inst "retired"
      else Persist ((next (c <| cls_target_labels_fenced := true |>)) <| op_phase := Phase.RemoveDeleteTargetPod |>)).
Proof.
  intros Hs HT Hi Hev Hfav. destruct (remove_targets p id inst pod mode op Hs) as (Hid & Hinst & _ & Huid & _).
  destruct (Hfav i Hi) as [Hdl Hprim]. cbn [fst snd] in Hdl, Hprim. unfold decide_cleanup.
  rewrite Hi, Hid, Huid, (ra_old_primary _ _ _ _ _ _ Hs). cbn [unwrap ok_or mbind result_bind].
  change (default _ (op_remove_cleanup op)) with (held_cleanup op).
  destruct (op_remove_commit_evidence op) as [ev|]; [|done].
  match goal with |- context [?m ≫= _] => set (observed := m) end.
  assert (∃ c i', observed = Ok (Ok (c, i')) ∧ progressed i i' ∧ cls_connection_absent c = true ∧
    cls_target_labels_fenced c = cls_target_labels_fenced (held_cleanup op)) as (c1 & i1 & -> & Hp & Habs & Hfen).
  { unfold observed. destruct (obs !! ss_primary_id p) as [o|].
    - destruct Hprim as (Hcfg & Hconn & Hsig). case_match; [|by eexists _, i; split; [done|split; [apply progressed_refl|done]]].
      unfold observe_committed_primary, instance_or_default. rewrite (classified_reduced op _ Hs HT Hcfg), Hid, Hinst.
      cbn [mbind result_bind]. rewrite bool_decide_eq_true_2 by done. cbn [negb].
      assert (existsb (λ connection, (rcs_id connection =? id) && bool_decide (rcs_instance_id connection = inst))
        (si_active_replica_connections (ro_status o)) = false) as ->.
      { apply not_true_is_false. intros (c & Hc%list_elem_of_In & Hb)%existsb_exists.
        apply andb_true_iff in Hb as [H1%Z.eqb_eq H2%bool_decide_eq_true]. by destruct (Hconn c Hc). }
      cbn [negb]. destruct (correlated_action_observation _ _) as [a|] eqn:Ha; [|by eexists _, i; split; [done|split; [apply progressed_refl|done]]].
      rewrite bool_decide_eq_true_2 by by apply Hsig. cbn [negb].
      destruct (do_remove_replica_progress a); [|by eexists _, i; split; [done|split; [apply progressed_refl|done]]].
      eexists _, _. split; [done|]. split; [apply progressed_cleanup|done].
    - rewrite bool_decide_eq_false_2 by done. by eexists _, i; split; [done|split; [apply progressed_refl|done]]. }
  cbn [mbind result_bind].
  assert (∃ retired, target_shows_retired op obs = Ok retired) as (retired & ->).
  { unfold target_shows_retired. rewrite Hid, Hinst. cbn [mbind result_bind]. destruct (obs !! id); by eexists. }
  cbn [mbind result_bind]. set (c2 := if retired then _ else c1).
  assert (cls_connection_absent c2 = true ∧ cls_target_labels_fenced c2 = cls_target_labels_fenced (held_cleanup op)) as [Habs2 Hfen2]
    by (unfold c2; by destruct retired).
  clearbody c2. rewrite Habs2. cbn [negb].
  match goal with |- context [none _ && ?b] => replace b with false by (symmetry; apply Z.ltb_ge; lia) end.
  rewrite andb_false_r. set (c3 := if none _ then _ else c2).
  assert (cls_target_labels_fenced c3 = cls_target_labels_fenced (held_cleanup op)) as Hfen3 by (unfold c3; destruct (none _); exact Hfen2).
  clearbody c3. exists c3, i1. split; [done|]. split; [done|]. cbn zeta.
  by repeat case_match.
Qed.

(** A checkpoint on the way: committed and not given up. *)
Definition under_way (trace : list membership_turn) (op : DurableOperationStatus) : Prop :=
  remove_run p id inst pod mode T trace op ∧ op_remove_commit_evidence op ≠ None ∧ op_phase op ≠ Phase.Poisoned.

Lemma under_way_phase trace op : under_way trace op →
  op_phase op = Phase.RemoveRecordCommit ∨ op_phase op = Phase.RemoveAwaitCleanup ∨ op_phase op = Phase.RemoveDeleteTargetPod ∨
  op_phase op = Phase.RemovePublishTopology ∨ op_phase op = Phase.RemoveFinalize ∨ op_phase op = Phase.Completed.
Proof.
  intros (Hrun & He & Hp). pose proof (rm_phase _ _ _ _ _ _ _ _ (remove_run_removing _ _ _ _ _ _ _ _ Hrun)) as Hph.
  unfold phase_removal in Hph. destruct (op_phase op); try done; try tauto; exfalso; naive_solver.
Qed.

(** What a post-commit phase decides. *)
Lemma decide_under_way trace op obs pods label now : under_way trace op → op_phase op ≠ Phase.Completed →
  decide_remove_replica op obs pods label now = decide_post_commit op obs pods label now ∧
  op_committed_snapshot op = Some (op_target_snapshot op).
Proof.
  intros Hu Hnc. pose proof (under_way_phase _ _ Hu) as Hph. destruct Hu as (Hrun & He & Hp).
  destruct (committed_accepted _ _ Hrun He Hp) as [Hv _]. pose proof (remove_run_removing _ _ _ _ _ _ _ _ Hrun) as Hr.
  split; [|by rewrite (rm_target _ _ _ _ _ _ _ _ Hr); apply (rm_commit _ _ _ _ _ _ _ _ Hr)].
  unfold decide_remove_replica. rewrite Hv. cbn [mbind result_bind].
  assert (none (op_remove_commit_evidence op) = false) as -> by by destruct (op_remove_commit_evidence op).
  cbn [negb]. by destruct Hph as [->|[->|[->|[->|[->|Hph]]]]].
Qed.

(** One favourable turn. *)
Definition advances (op : DurableOperationStatus) (pods : gmap Z string) (label : option string) (d : Decision) : Prop :=
  let op' := after_decision op d in
  op_remove_commit_evidence op' ≠ None ∧ op_phase op' ≠ Phase.Poisoned ∧
  (∃ i i', op_remove_intent op = Some i ∧ op_remove_intent op' = Some i' ∧ progressed i i') ∧
  (answered d pods label).1 !! ss_primary_id p = pods !! ss_primary_id p ∧
  (remaining op' (answered d pods label).1 (answered d pods label).2 ≤ pred (remaining op pods label))%nat.

Lemma favourable_turn trace op obs pods label now :
  under_way trace op → favourable op pods (obs, now) →
  ∃ d, decide_remove_replica op obs pods label now = Ok d ∧ advances op pods label d.
Proof.
  intros Hu Hfav. pose proof (under_way_phase _ _ Hu) as Hph. pose proof Hu as (Hrun & He & Hp).
  pose proof (remove_run_removing _ _ _ _ _ _ _ _ Hrun) as Hr. pose proof (rm_started _ _ _ _ _ _ _ _ Hr) as Hs.
  destruct (remove_targets p id inst pod mode op Hs) as (Hid & Hinst & Hpod & Huid & _).
  destruct (op_remove_intent op) as [i|] eqn:Hi; [|by destruct (rm_commit _ _ _ _ _ _ _ _ Hr He) as (_ & _ & [])].
  assert (ss_primary_id p ≠ id) as Hne by (intros Heq; by apply (rq_secondary _ _ _ _ (ra_request _ _ _ _ _ _ Hs))).
  assert (∀ op', op_remove_intent op' = Some i → ∃ i0 i', op_remove_intent op = Some i0 ∧ op_remove_intent op' = Some i' ∧ progressed i0 i') as Hsame.
  { intros op' Hi'. exists i, i. split; [done|]. split; [done|apply progressed_refl]. }
  pose proof (rm_phase _ _ _ _ _ _ _ _ Hr) as Hphase. unfold phase_removal in Hphase.
  destruct (decide (op_phase op = Phase.Completed)) as [Hc|Hnc].
  { exists Wait. split; [|unfold advances, remaining; cbn [after_decision answered fst snd]; rewrite Hc; by eauto 10].
    destruct (committed_accepted _ _ Hrun He Hp) as [Hv _]. unfold decide_remove_replica. rewrite Hv, Hc. done. }
  destruct (decide_under_way _ _ obs pods label now Hu Hnc) as [-> Hsnap]. unfold decide_post_commit.
  rewrite bool_decide_eq_true_2 by done. cbn [negb].
  destruct Hph as [Hq|[Hq|[Hq|[Hq|[Hq|Hq]]]]]; [..|done]; rewrite Hq in *.
  - eexists. split; [done|]. split_and!; try done; [by apply Hsame|]. unfold remaining. rewrite Hq. cbn. repeat case_match; lia.
  - destruct (cleanup_favourable op i obs pods label now Hs (rm_target _ _ _ _ _ _ _ _ Hr) Hi He Hfav) as (c & i' & Hpr & Hfen & Hd).
    eexists. split; [exact Hd|]. unfold advances, remaining. rewrite Hq, <-Hfen.
    assert (∃ i0 i1, Some i = Some i0 ∧ Some i' = Some i1 ∧ progressed i0 i1) as Hpr' by by eexists _, _.
    destruct (cls_target_labels_fenced c) eqn:Hf.
    { cbn. rewrite Hi. split_and!; try done. case_match; lia. }
    destruct (bool_decide (pods !! id = Some inst)) eqn:Hb; cbn [negb].
    + destruct (bool_decide (label = Some "retired")) eqn:Hl; cbn [negb].
      * cbn. rewrite Hi, Hb. split_and!; try done.
      * cbn. rewrite Hq, Hb.
        rewrite <-Hfen. split_and!; try done. by apply Hsame.
    + cbn. rewrite Hq, Hb, Hi. split_and!; try done.
  - rewrite Hid, Huid, Hpod. cbn [mbind result_bind].
    destruct (bool_decide (pods !! id = Some inst)) eqn:Hb; cbn [mbind result_bind]; eexists; (split; [done|]); unfold advances, remaining; cbn.
    + rewrite Hq, Hb. split_and!; try done; [by apply Hsame|by rewrite lookup_delete_ne|].
      rewrite lookup_delete_eq. by rewrite bool_decide_eq_false_2.
    + rewrite Hq, Hb. split_and!; try done. by apply Hsame.
  - destruct Hphase as (_ & c & Hc & (H1 & H2 & H3) & H4). rewrite Hc. cbn [or_fail ok_or mbind result_bind]. rewrite H1, H3, H4.
    assert (none (cls_target_retirement c) = false) as -> by by destruct (cls_target_retirement c). cbn [negb orb].
    eexists. split; [done|]. unfold advances, remaining. cbn. rewrite Hq. split_and!; try done. by apply Hsame.
  - eexists. split; [done|]. unfold advances, remaining. cbn. rewrite Hq. split_and!; try done. by apply Hsame.
Qed.

(** C37. A committed removal can always be finished. Whatever the run before,
    take a checkpoint that records the commit and has not been given up, and
    seven turns or more that are [favourable]: the overall deadline is over,
    and either the primary is observed with exactly the reduced topology as its
    current configuration, no connection to the target and, if it reports the
    frozen action, its true signature, or it is not observed and its pod is
    gone. If the cluster answers the label patch and the deletion of the pod,
    no decision of these turns fails and the removal completes with them. *)
Theorem committed_removal_finishes trace op turns pods label :
  remove_run p id inst pod mode T trace op → op_remove_commit_evidence op ≠ None → op_phase op ≠ Phase.Poisoned →
  (7 ≤ length turns)%nat → (∀ turn, turn ∈ turns → favourable op pods turn) →
  ∃ trace' op', settle turns pods label trace op = Ok (trace', op') ∧ remove_run p id inst pod mode T trace' op' ∧
    op_phase op' = Phase.Completed.
Proof.
  intros Hrun He Hp Hlen Hfav. assert (under_way trace op) as Hu by done. clear Hrun He Hp.
  assert (remaining op pods label ≤ length turns)%nat as Hrem.
  { transitivity 7%nat; [|done]. unfold remaining. repeat case_match; lia. }
  clear Hlen. revert trace op pods label Hu Hfav Hrem.
  induction turns as [|[obs now] turns IH]; intros trace op pods label Hu Hfav Hrem.
  - exists trace, op. split; [done|]. split; [apply Hu|]. cbn in Hrem. pose proof (under_way_phase _ _ Hu) as Hph. unfold remaining in Hrem.
    destruct Hph as [Hq|[Hq|[Hq|[Hq|[Hq|Hq]]]]]; rewrite Hq in Hrem; repeat case_match; try lia; done.
  - destruct (favourable_turn trace op obs pods label now Hu (Hfav _ ltac:(left))) as (d & Hd & Hev & Hpo & (i & i' & Hi & Hi' & Hpr) & Hprim & Hrest).
    cbn [settle]. rewrite Hd. cbn [mbind result_bind]. apply IH.
    + destruct Hu as (Hrun & _ & _). split; [by apply remove_run_decide|done].
    + intros turn Hin. eapply favourable_progressed; [exact Hi|exact Hi'|exact Hpr|].
      intros i0 Hi0. destruct (Hfav turn ltac:(by right) i0 Hi0) as [Hdl Hm]. rewrite Hprim. done.
    + cbn in Hrem. lia.
Qed.
End finish.
