(* ===== verification/RemoveDemo.v ===== *)
(** Two removals of a third replica, played: one that commits and cleans up,
    one whose action ends before the commit. The theorems about removals are
    applied to them. *)

From S2P Require Import Prelude Types Lifecycle AddReplica Control Replicator Agent RemoveReplica Proto Convert Wire Crd Operation Effects AddWorkflow AddSteps Turns AddDemo RemoveWorkflow RemoveSteps RemoveOutcomes RemoveRuns RemoveSafety RemoveFinish.

Set Default Goal Selector "!".

Module DemoRemoval.
#[local] Existing Instance DemoRemove.ends.
Import DemoAddition.

Definition request : RemoveReplicaTarget := mkRemoveReplicaTarget 3 "set-3" "u3" "http://data" (Some process).
Definition start : result failure DurableOperationStatus := start_remove_replica "set" grown request RmScaleDown 1 100.
Definition started : DurableOperationStatus := match start with Ok op => op | Err _ => begun_operation end.

Definition configured (s : StablePartitionSnapshotStatus) (connections : list ReplicaConnectionStatus)
    (reports : list CorrelatedActionObservation) (target : ReplicaObservation) : OperationObservations :=
  observed (replica "u1" Primary (Some (remove_configuration_status s Current)) connections None reports (Some "primary")) target.
Definition serving : ReplicaObservation := replica "u3" ActiveSecondary None [] None [] (Some "secondary").
Definition retired : ReplicaObservation := mkReplicaObservation
  (mkReplicaStatusInfo "u3" RoleNone (mkEpoch 1 5) 7 None 7 false Granted None None None [] None (agent [])) "http://control" "http://data" "set-3" None.

(** The primary shows the previous configuration, then the reduced one. *)
Definition before : OperationObservations := configured grown [mkReplicaConnectionStatus 3 "u3"] [] serving.
Definition reduced : OperationObservations := configured stable [] [] serving.
Definition clean : OperationObservations := configured stable [] [] retired.

Definition turns_type : Type := list (OperationObservations * gmap Z string * option string * Z).
Definition frozen : turns_type := [(before, pods, Some "secondary", 101); (before, pods, Some "secondary", 102)].
Definition committing : turns_type :=
  frozen ++ [(before, pods, Some "secondary", 103); (reduced, pods, Some "secondary", 104)].
Definition done : turns_type := committing ++
  [(reduced, pods, Some "secondary", 105); (clean, pods, Some "secondary", 106); (clean, pods, Some "retired", 107);
   (clean, pods, Some "retired", 108); (clean, delete 3 pods, None, 109); (clean, delete 3 pods, None, 110);
   (clean, delete 3 pods, None, 111)].

Definition result_of (turns : turns_type) : list membership_turn * DurableOperationStatus :=
  match remove_play turns [] started with Ok r => r | Err _ => ([], started) end.
Definition intent : RemoveReplicaIntentStatus :=
  match op_remove_intent (result_of frozen).2 with Some i => i | None => frozen_removal DemoRemove.intent end.

(** The action has failed before the commit. *)
Definition failed : CorrelatedActionObservation := mkCorrelatedActionObservation process 1
  (mkDurableActionObservation (ris_action_id intent) (ris_input_signature intent) Failed None (Some "no quorum") None None None).
Definition ended : OperationObservations := configured grown [mkReplicaConnectionStatus 3 "u3"] [failed] serving.
Definition undone : turns_type := frozen ++
  [(before, pods, Some "secondary", 103); (ended, pods, Some "secondary", 104); (ended, pods, Some "secondary", 105)].

(** The turn at a position, and the run before it. *)
Definition turn_of (i : nat) (turns : turns_type) : membership_turn :=
  match (result_of turns).1 !! i with Some tn => tn | None => mkMembershipTurn started ∅ ∅ None 0 Wait end.
Definition earlier (i : nat) (turns : turns_type) : list membership_turn := drop (S i) (result_of turns).1.
Definition played_through (turns : turns_type) : bool := is_ok (remove_play turns [] started).

(** Turns after the deadline, for a removal that has committed. *)
Definition late : list (OperationObservations * Z) := replicate 7 (reduced, 800).
Definition records (op : DurableOperationStatus) : bool :=
  negb (none (op_remove_commit_evidence op)) && negb (bool_decide (op_phase op = Phase.Poisoned)).
End DemoRemoval.

Section played.
#[local] Existing Instance DemoRemove.ends.
Import DemoAddition DemoRemoval.

Lemma removal_started : start_remove_replica "set" grown request RmScaleDown 1 100 = Ok started.
Proof. vm_compute. reflexivity. Qed.

Lemma removal_begins : remove_run grown 3 "u3" "set-3" RmScaleDown stable [] started.
Proof. eapply remove_run_start; [exact removal_started|vm_compute; reflexivity|done|done|done]. Qed.

Lemma removal_run turns : played_through turns = true →
  remove_run grown 3 "u3" "set-3" RmScaleDown stable (result_of turns).1 (result_of turns).2.
Proof.
  unfold played_through, result_of. destruct (remove_play turns [] started) as [[tr op]|] eqn:Hp; [|discriminate]. intros _.
  eapply remove_play_run; [exact removal_begins|exact Hp].
Qed.

Lemma turn_of_split i turns : (i < length (result_of turns).1)%nat →
  (result_of turns).1 = take i (result_of turns).1 ++ turn_of i turns :: earlier i turns.
Proof.
  intros Hi. unfold turn_of, earlier. destruct (lookup_lt_is_Some_2 _ _ Hi) as [tn Htn]. rewrite Htn.
  symmetry. by apply take_drop_middle.
Qed.

Lemma done_plays : played_through done = true.
Proof. vm_compute. reflexivity. Qed.
Lemma undone_plays : played_through undone = true.
Proof. vm_compute. reflexivity. Qed.
Lemma done_deletes : is_delete (mt_decision (turn_of 3 done)) = true.
Proof. vm_compute. reflexivity. Qed.
Lemma done_completes : completes false (mt_decision (turn_of 0 done)) = true.
Proof. vm_compute. reflexivity. Qed.
Lemma undone_completes : completes true (mt_decision (turn_of 0 undone)) = true.
Proof. vm_compute. reflexivity. Qed.

Lemma is_delete_inv d : is_delete d = true → d = DeletePod "set-3" "u3".
Proof. destruct d; try discriminate. unfold is_delete. intros Hd. revert Hd. repeat case_match; by subst. Qed.

Lemma removal_deletes_committed_only_witness :
  mt_decision (turn_of 3 done) = DeletePod "set-3" "u3" ∧
  seen (shown_reduced grown stable) (earlier 3 done) ∧ seen (target_fenced 3 "u3") (earlier 3 done).
Proof.
  pose proof (is_delete_inv _ done_deletes) as Hd. split; [exact Hd|].
  destruct (removal_deletes_committed_only grown 3 "u3" "set-3" RmScaleDown stable _ _ _ _ _ (removal_run done done_plays)
    (turn_of_split 3 done ltac:(vm_compute; lia))) as [Hdel _].
  destruct (Hdel _ _ Hd) as (_ & _ & _ & Hshown & _ & _ & Hfenced). by split.
Defined.

Lemma removal_completion_attested_witness :
  seen (target_absent 3 "u3") (earlier 0 done) ∧ seen (shown_unreduced grown) (earlier 0 undone).
Proof.
  pose proof (completes_inv _ _ done_completes) as (final & s & Hd). pose proof (completes_inv _ _ undone_completes) as (final' & s' & Hu).
  destruct (removal_completion_attested grown 3 "u3" "set-3" RmScaleDown stable _ _ _ _ _ (removal_run done done_plays)
    (turn_of_split 0 done ltac:(vm_compute; lia))) as (H1 & _).
  destruct (removal_completion_attested grown 3 "u3" "set-3" RmScaleDown stable _ _ _ _ _ (removal_run undone undone_plays)
    (turn_of_split 0 undone ltac:(vm_compute; lia))) as (_ & H2 & _).
  destruct (H1 final s (or_introl Hd)) as (_ & _ & _ & _ & _ & Habs). destruct (H2 final' s' Hu) as (_ & _ & Hshown & _). by split.
Defined.

Definition freezes_removal (d : result failure Decision) : bool :=
  match d with Ok (Persist next) => bool_decide (op_phase next = Phase.RemoveDispatchIntent) | _ => false end.
Lemma started_freezes : freezes_removal (decide_remove_replica started before pods None 101) = true.
Proof. vm_compute. reflexivity. Qed.

Lemma before_generations : ∀ i o, before !! i = Some o → generation_ok (as_generation (si_agent (ro_status o))).
Proof.
  assert (∀ i o, before !! i = Some o → as_generation (si_agent (ro_status o)) = process) as Hall.
  { intros i o. unfold before, configured, observed. rewrite !lookup_insert_Some, lookup_empty.
    intros [[_ <-]|[_ [[_ <-]|[_ [[_ <-]|[_ ?]]]]]]; done. }
  intros i o Ho. rewrite (Hall i o Ho). vm_compute. reflexivity.
Qed.

Lemma removal_intent_equivalent_witness :
  ∃ next core, decide_remove_replica started before pods None 101 = Ok (Persist next) ∧
    core_remove_intent next = Ok core ∧ validate_remove_operation next = Ok tt.
Proof.
  pose proof started_freezes as Hf. unfold freezes_removal in Hf.
  destruct (decide_remove_replica started before pods None 101) as [[next| | | | | | | | | |]|] eqn:Hd; try discriminate Hf.
  apply bool_decide_eq_true in Hf.
  destruct (removal_intent_equivalent grown 3 "u3" "set-3" RmScaleDown stable [] started before pods None 101 removal_begins) as (_ & _ & Hnext).
  destruct (Hnext next Hd Hf) as (_ & _ & core & _ & _ & Hok). destruct (Hok before_generations) as [Hcore Hv]. exists next, core. split; [reflexivity|]. split; [exact Hcore|exact Hv].
Defined.

Lemma committing_plays : played_through committing = true.
Proof. vm_compute. reflexivity. Qed.
Lemma committing_records : records (result_of committing).2 = true.
Proof. vm_compute. reflexivity. Qed.

Lemma late_favourable turn : turn ∈ late → favourable grown 3 "u3" stable (result_of committing).2 pods turn.
Proof.
  intros [-> _]%elem_of_replicate i Hi.
  assert (match op_remove_intent (result_of committing).2 with
    | Some i => bool_decide (ris_overall_deadline_unix_seconds i ≤ 800) | None => false end = true) as Hd by (vm_compute; reflexivity).
  rewrite Hi in Hd. clear Hi. apply bool_decide_eq_true in Hd. split; [exact Hd|]. clear Hd. cbn [fst].
  assert (reduced !! ss_primary_id grown = Some (replica "u1" Primary (Some (remove_configuration_status stable Current)) [] None [] (Some "primary"))) as ->
    by (vm_compute; reflexivity).
  cbn [replica ro_status si_configuration si_active_replica_connections si_agent]. split; [reflexivity|]. split.
  - intros c Hc. by apply elem_of_nil in Hc.
  - intros a Ha. unfold correlated_action_observation in Ha. cbn in Ha. discriminate Ha.
Qed.

Lemma committed_removal_finishes_witness :
  ∃ trace op, settle 3 late pods (Some "secondary") (result_of committing).1 (result_of committing).2 = Ok (trace, op) ∧
    op_phase op = Phase.Completed.
Proof.
  pose proof committing_records as Hr. apply andb_true_iff in Hr as [He Hp].
  destruct (committed_removal_finishes grown 3 "u3" "set-3" RmScaleDown stable _ _ late pods (Some "secondary")
    (removal_run committing committing_plays)) as (trace & op & Hs & _ & Hc).
  - intros Hn. rewrite Hn in He. discriminate He.
  - intros Hn. rewrite Hn in Hp. discriminate Hp.
  - vm_compute. lia.
  - exact late_favourable.
  - exists trace, op. split; [exact Hs|exact Hc].
Defined.
End played.
