(* ===== verification/CreateWorkflow.v ===== *)
(** The operator's creation of a partition
    (kuberic-operator/src/durable/create_partition.rs): it fences every pod
    from routing, brings up the primary, adds the secondaries one at a time,
    recording each configuration the primary has made current, and publishes
    the members once all are committed. *)

From S2P Require Import Prelude Types Lifecycle Control Proto Convert Crd Operation Switchover AddWorkflow.

Set Default Goal Selector "!".

Definition BUILD_DEADLINE_SECONDS : Z := 600.

Record CreatePartitionTarget := mkCreatePartitionTarget {
  ct_replica_id : Z;
  ct_instance_id : string;
  ct_pod_name : string;
}.

(** [usize] subtraction of one; its underflow is a panic. *)
Definition usize_pred (n : nat) : result failure nat :=
  match n with O => Err (Panic "attempt to subtract with overflow") | S n => Ok n end.

Definition create_majority (member_count : nat) : Z := as_u32 member_count / 2 + 1.

Definition create_target_epoch (operation : DurableOperationStatus) : Epoch := to_epoch (ss_epoch (op_target_snapshot operation)).

Definition create_target_replica_id (operation : DurableOperationStatus) : result failure Z :=
  or_fail (op_target_replica_id operation) "creation operation has no current target ID".

Definition create_target_instance_id (operation : DurableOperationStatus) : result failure string :=
  or_fail (filled (op_target_instance_id operation)) "creation operation has no current target incarnation".

Definition create_target_pod_name (operation : DurableOperationStatus) : result failure string :=
  or_fail (filled (op_target_pod_name operation)) "creation operation has no current target pod".

(** ** Snapshots *)

Definition validate_create_snapshot (snapshot : StablePartitionSnapshotStatus) : result failure unit :=
  fail_if (bool_decide (ss_members snapshot = [])) "stable snapshot has no members";;
  scanned ← try_fold (λ (scan : gset Z * gset string * Z) member,
      let '(ids, instances, primary_count) := scan in
      fail_if (empty (srs_instance_id member) || bool_decide (srs_id member ∈ ids) ||
               bool_decide (srs_instance_id member ∈ instances))
        "stable snapshot has empty or duplicate identity";;
      let primary := bool_decide (srs_role member = StablePrimary) in
      fail_if (primary && negb (srs_id member =? ss_primary_id snapshot))
        "stable snapshot primary role disagrees with primary ID";;
      Ok ({[srs_id member]} ∪ ids, {[srs_instance_id member]} ∪ instances,
          if primary then primary_count + 1 else primary_count))
    (∅, ∅, 0) (ss_members snapshot);
  fail_if (negb (scanned.2 =? 1) || negb (ss_write_quorum snapshot =? create_majority (length (ss_members snapshot))))
    "stable snapshot primary or majority quorum is invalid".

Definition validate_committed_prefix (committed target : StablePartitionSnapshotStatus) : result failure unit :=
  validate_create_snapshot committed;;
  fail_if (negb (bool_decide (ss_epoch committed = ss_epoch target)) ||
           negb (ss_primary_id committed =? ss_primary_id target) ||
           (length (ss_members target) <? length (ss_members committed))%nat ||
           negb (bool_decide (ss_members committed = take (length (ss_members committed)) (ss_members target))) ||
           negb (ss_write_quorum committed =? create_majority (length (ss_members committed))))
    "committed bootstrap snapshot is not an exact target prefix".

(** The slice [members[..secondary_count + 1]]. *)
Definition snapshot_prefix (target : StablePartitionSnapshotStatus) (secondary_count : nat) :
    result failure StablePartitionSnapshotStatus :=
  let member_count := S secondary_count in
  if (length (ss_members target) <? member_count)%nat then Err (Panic "range end index out of range for slice")
  else Ok (mkStablePartitionSnapshotStatus (ss_epoch target) (ss_primary_id target)
             (take member_count (ss_members target)) (create_majority member_count)).

Definition create_committed_snapshot (operation : DurableOperationStatus) : result failure StablePartitionSnapshotStatus :=
  or_fail (op_committed_snapshot operation) "creation has no committed bootstrap topology".

Definition attempted_snapshot (operation : DurableOperationStatus) : result failure StablePartitionSnapshotStatus :=
  committed ← create_committed_snapshot operation;
  target_id ← create_target_replica_id operation;
  next ← or_fail (List.find (λ member, srs_id member =? target_id) (ss_members (op_target_snapshot operation)))
    "current creation candidate is absent from target snapshot";
  if existsb (λ member, srs_id member =? target_id) (ss_members committed) then Ok committed
  else
    let members := sort_by_key srs_id (ss_members committed ++ [next]) in
    Ok (committed <| ss_members := members |> <| ss_write_quorum := create_majority (length members) |>).

(** ** Configurations *)

Definition candidate_info (operation : DurableOperationStatus) (observations : OperationObservations) (role : Role) :
    result failure ReplicaInfo :=
  target_id ← create_target_replica_id operation;
  observation ← or_fail (observations !! target_id) ("creation candidate " +:+ pretty target_id +:+ " is unavailable");
  instance ← create_target_instance_id operation;
  let status := ro_status observation in
  fail_if (negb (bool_decide (si_instance_id status = instance))) "creation candidate incarnation changed";;
  Ok (mkReplicaInfo target_id (si_instance_id status) role Up (ro_replicator_address observation)
    (si_current_progress status) (si_current_progress status) false).

Definition create_config_for_snapshot (snapshot : StablePartitionSnapshotStatus) (observations : OperationObservations)
    (must_catch_up : bool) (must_catch_up_id : option Z) : result failure ReplicaSetConfig :=
  members ← try_fold (λ members member,
      if srs_id member =? ss_primary_id snapshot then Ok members
      else
        observation ← or_fail (observations !! srs_id member)
          ("creation member " +:+ pretty (srs_id member) +:+ " is unavailable");
        let status := ro_status observation in
        fail_if (negb (bool_decide (si_instance_id status = srs_instance_id member)))
          ("creation member " +:+ pretty (srs_id member) +:+ " incarnation changed");;
        Ok (members ++ [mkReplicaInfo (srs_id member) (srs_instance_id member) ActiveSecondary Up
                          (ro_replicator_address observation) (si_current_progress status) (si_current_progress status)
                          (must_catch_up && bool_decide (must_catch_up_id = Some (srs_id member)))]))
    [] (ss_members snapshot);
  Ok (mkReplicaSetConfig members (ss_write_quorum snapshot)).

Definition configuration_status_for_snapshot (snapshot : StablePartitionSnapshotStatus) (mode : ReplicaConfigurationMode) :
    ReplicaConfigurationStatus :=
  configuration_status_from_config mode (mkReplicaSetConfig
    ((λ member, mkReplicaInfo (srs_id member) (srs_instance_id member) ActiveSecondary Up "" 0 0 false) <$>
       filter (λ member, srs_id member ≠ ss_primary_id snapshot) (ss_members snapshot))
    (ss_write_quorum snapshot)).

Definition create_configuration_observation (status : ReplicaStatusInfo) (expected : ReplicaConfigurationStatus)
    (precondition : option ReplicaConfigurationStatus) (expected_epoch : Epoch) : ActionObservation :=
  if negb (bool_decide (si_role status = Primary)) || negb (bool_decide (si_epoch status = expected_epoch))
  then AoImpossible
  else if bool_decide (si_configuration status = Some expected) then AoPostcondition
  else if bool_decide (si_configuration status = precondition) then AoPrecondition
  else AoImpossible.

(** ** Starting *)

Definition check_target (seen : gset Z * gset string) (target : CreatePartitionTarget) : result failure (gset Z * gset string) :=
  let '(ids, instances) := seen in
  fail_if ((ct_replica_id target <=? 0) || empty (ct_instance_id target) || empty (ct_pod_name target) ||
           bool_decide (ct_replica_id target ∈ ids) || bool_decide (ct_instance_id target ∈ instances))
    "creation targets have invalid or duplicate identity";;
  Ok ({[ct_replica_id target]} ∪ ids, {[ct_instance_id target]} ∪ instances).

Definition create_target_snapshot (targets : list CreatePartitionTarget) (primary_id : Z)
    (committed_snapshot : option StablePartitionSnapshotStatus) : StablePartitionSnapshotStatus :=
  mkStablePartitionSnapshotStatus
    (match committed_snapshot with Some snapshot => ss_epoch snapshot | None => mkEpochStatus 0 1 end)
    primary_id
    ((λ target, mkStableReplicaSnapshotStatus (ct_replica_id target) (ct_instance_id target)
        (if ct_replica_id target =? primary_id then StablePrimary else StableActiveSecondary) None) <$> targets)
    (create_majority (length targets)).

Definition start_create_partition (set_uid : string) (targets : list CreatePartitionTarget)
    (committed_snapshot : option StablePartitionSnapshotStatus) (min_replicas : nat) (now : Z) :
    result failure DurableOperationStatus :=
  fail_if (bool_decide (targets = [])) "partition creation has no replica targets";;
  fail_if ((min_replicas =? 0)%nat || (length targets <? min_replicas)%nat)
    ("minReplicas must be between 1 and the desired replica count (" +:+ pretty (Z.of_nat (length targets)) +:+ ")");;
  let targets := sort_by_key ct_replica_id targets in
  try_fold check_target (∅, ∅) targets;;
  current ← index_list targets 0;
  let primary_id := ct_replica_id current in
  let target_snapshot := create_target_snapshot targets primary_id committed_snapshot in
  validate_create_snapshot target_snapshot;;
  match committed_snapshot with
  | Some committed => validate_committed_prefix committed target_snapshot
  | None => Ok tt
  end;;
  let identities := String.concat ","
    ((λ target, pretty (ct_replica_id target) +:+ "@" +:+ ct_instance_id target) <$> targets) in
  let operation_id := set_uid +:+ ":create-partition:v" +:+ pretty DURABLE_OPERATION_VERSION +:+ ":" +:+
    pretty (es_configuration_number (ss_epoch target_snapshot)) +:+ ":" +:+ identities in
  Ok {|
    op_operation_id := operation_id;
    op_execution_id := operation_id +:+ ":execution-1";
    op_version := DURABLE_OPERATION_VERSION;
    op_kind := OpCreatePartition;
    op_phase := Phase.CreateFenceRouting;
    op_previous_snapshot := None;
    op_target_snapshot := target_snapshot;
    op_committed_snapshot := committed_snapshot;
    op_minimum_committed_replicas := Some (as_u32 min_replicas);
    op_old_primary_id := primary_id;
    op_target_primary_id := primary_id;
    op_add_mode := None;
    op_remove_mode := None;
    op_target_replica_id := Some (ct_replica_id current);
    op_target_instance_id := Some (ct_instance_id current);
    op_target_pod_name := Some (ct_pod_name current);
    op_target_pod_uid := Some (ct_instance_id current);
    op_remove_target_replicator_address := None;
    op_remove_target_agent_generation := None;
    op_retired_instance_id := None;
    op_frozen_lsn := None;
    op_next_secondary_index := 0;
    op_phase_deadline_unix_seconds := i64_add now ACTION_DEADLINE_SECONDS;
    op_pending_action := None;
    op_last_error := None;
    op_failover := None;
    op_add_intent := None;
    op_remove_intent := None;
    op_remove_commit_evidence := None;
    op_remove_cleanup := None;
    op_removal_disposition := None |}.

(** ** Checks of a checkpoint *)

Definition is_committed_member (operation : DurableOperationStatus) (replica_id : Z) : bool :=
  match op_committed_snapshot operation with
  | Some snapshot => existsb (λ member, srs_id member =? replica_id) (ss_members snapshot)
  | None => false
  end.

Definition ensure_compensation_target_uncommitted (operation : DurableOperationStatus) : result failure unit :=
  target_id ← create_target_replica_id operation;
  fail_if (is_committed_member operation target_id)
    ("creation compensation cannot target committed replica " +:+ pretty target_id).

Definition is_compensation_phase (phase : Phase.DurableOperationPhase) : bool :=
  match phase with
  | Phase.CreateCompensateRestoreConfiguration | Phase.CreateCompensateRemoveCandidate
  | Phase.CreateCompensateDemoteCandidate | Phase.CreateCompensateCloseCandidate
  | Phase.CreateCompensateDeleteCandidate | Phase.CreateCompensateFinalize => true
  | _ => false
  end.

Definition is_compensation_action (kind : Action.DurableActionKind) : bool :=
  match kind with
  | Action.CreateCompensateRestoreConfiguration | Action.CreateCompensateRemoveCandidate
  | Action.CreateCompensateDemoteCandidate | Action.CreateCompensateCloseCandidate
  | Action.CreateCompensateDeleteCandidate => true
  | _ => false
  end.

(** [windows(2).all(...)]. *)
Fixpoint ids_increase (l : list StableReplicaSnapshotStatus) : bool :=
  match l with
  | a :: (b :: _) as rest => (srs_id a <? srs_id b) && ids_increase rest
  | _ => true
  end.

Definition validate_create_operation (operation : DurableOperationStatus) : result failure unit :=
  let target := op_target_snapshot operation in
  fail_if (negb (op_version operation =? DURABLE_OPERATION_VERSION))
    ("unsupported durable operation version " +:+ pretty (op_version operation));;
  fail_if (negb (bool_decide (op_kind operation = OpCreatePartition))) "operation kind is not create-partition";;
  fail_if (negb (none (op_previous_snapshot operation))) "partition creation must explicitly have no previous topology";;
  validate_create_snapshot target;;
  first ← index_list (ss_members target) 0;
  fail_if (negb (srs_id first =? ss_primary_id target) || negb (op_old_primary_id operation =? ss_primary_id target) ||
           negb (op_target_primary_id operation =? ss_primary_id target))
    "creation primary identity is inconsistent";;
  fail_if (negb (ids_increase (ss_members target))) "creation target members are not in deterministic ID order";;
  minimum ← or_fail (op_minimum_committed_replicas operation) "creation operation has no minReplicas";
  fail_if ((minimum =? 0) || (Z.of_nat (length (ss_members target)) <? minimum))
    "creation minReplicas is outside the target membership";;
  match op_committed_snapshot operation with
  | Some committed => validate_committed_prefix committed target
  | None => Ok tt
  end;;
  (if is_compensation_phase (op_phase operation) then ensure_compensation_target_uncommitted operation else Ok tt);;
  create_target_replica_id operation;;
  create_target_instance_id operation;;
  create_target_pod_name operation;;
  Ok tt.

Definition expected_member_role (member : StableReplicaSnapshotStatus) (primary_id : Z) : Role :=
  if srs_id member =? primary_id then Primary else ActiveSecondary.

Definition validate_committed_member (committed : StablePartitionSnapshotStatus) (epoch : Epoch)
    (observations : OperationObservations) (member : StableReplicaSnapshotStatus) : result failure unit :=
  observation ← or_fail (observations !! srs_id member)
    ("committed bootstrap member " +:+ pretty (srs_id member) +:+ " is unavailable");
  let status := ro_status observation in
  fail_if (negb (bool_decide (si_instance_id status = srs_instance_id member)))
    ("committed bootstrap member " +:+ pretty (srs_id member) +:+ " incarnation changed");;
  fail_if (negb (bool_decide (si_role status = expected_member_role member (ss_primary_id committed))) ||
           negb (bool_decide (si_epoch status = epoch)))
    ("committed bootstrap member " +:+ pretty (srs_id member) +:+ " has unexpected role or epoch").

(** The configuration the primary may show in a phase. *)
Definition committed_configuration_valid (operation : DurableOperationStatus) (committed : StablePartitionSnapshotStatus)
    (observed : option ReplicaConfigurationStatus) : result failure bool :=
  let committed_current := configuration_status_for_snapshot committed Current in
  attempted ← match attempted_snapshot operation with
              | Ok snapshot => Ok (Some snapshot)
              | Err (Error _) => Ok None
              | Err (Panic m) => Err (Panic m)
              end;
  let shows_attempted mode := match attempted with
    | Some snapshot => bool_decide (observed = Some (configuration_status_for_snapshot snapshot mode))
    | None => false
    end in
  Ok match op_phase operation with
  | Phase.CreateCatchUpConfiguration | Phase.CreateCompensateRestoreConfiguration =>
      bool_decide (observed = Some committed_current) || shows_attempted CatchUp
  | Phase.CreateWaitForCatchUpQuorum => shows_attempted CatchUp
  | Phase.CreateCurrentConfiguration | Phase.CreateCommitSecondary => shows_attempted CatchUp || shows_attempted Current
  | Phase.CreatePublishRouting | Phase.CreateFinalize =>
      bool_decide (observed = Some (configuration_status_for_snapshot (op_target_snapshot operation) Current))
  | _ => bool_decide (observed = Some committed_current)
  end.

Definition validate_committed_observations (operation : DurableOperationStatus) (observations : OperationObservations) :
    result failure unit :=
  match op_committed_snapshot operation with
  | None => Ok tt
  | Some committed =>
      try_for_each (validate_committed_member committed (create_target_epoch operation) observations) (ss_members committed);;
      primary ← or_fail (observations !! ss_primary_id committed) "committed bootstrap primary is unavailable";
      valid ← committed_configuration_valid operation committed (si_configuration (ro_status primary));
      fail_if (negb valid) "committed bootstrap primary has unexpected configuration"
  end.

Definition validate_final_member (target : StablePartitionSnapshotStatus) (epoch : Epoch)
    (observations : OperationObservations) (member : StableReplicaSnapshotStatus) : result failure unit :=
  observation ← or_fail (observations !! srs_id member)
    ("final creation member " +:+ pretty (srs_id member) +:+ " is unavailable");
  let expected_role := expected_member_role member (ss_primary_id target) in
  let expected_label := if bool_decide (expected_role = Primary) then "primary" else "secondary" in
  let status := ro_status observation in
  fail_if (negb (bool_decide (si_instance_id status = srs_instance_id member)) ||
           negb (bool_decide (si_role status = expected_role)) || negb (bool_decide (si_epoch status = epoch)) ||
           negb (bool_decide (ro_pod_role_label observation = Some expected_label)))
    ("final creation member " +:+ pretty (srs_id member) +:+
     " does not match committed role, epoch, incarnation, or label").

Definition validate_final_observations (operation : DurableOperationStatus) (observations : OperationObservations) :
    result failure unit :=
  let target := op_target_snapshot operation in
  fail_if (negb (bool_decide (op_committed_snapshot operation = Some target))) "final creation topology is not durably committed";;
  try_for_each (validate_final_member target (create_target_epoch operation) observations) (ss_members target).

Definition current_candidate_changed (operation : DurableOperationStatus) (observations : OperationObservations) : bool :=
  match op_phase operation with
  | Phase.CreateCompensateRestoreConfiguration | Phase.CreateCompensateRemoveCandidate
  | Phase.CreateCompensateDemoteCandidate | Phase.CreateCompensateCloseCandidate
  | Phase.CreateCompensateDeleteCandidate | Phase.CreateCompensateFinalize | Phase.CreateFenceRouting
  | Phase.CreatePublishRouting | Phase.CreateFinalize => false
  | _ =>
      match op_target_replica_id operation with
      | None => false
      | Some target_id =>
          match observations !! target_id, filled (op_target_instance_id operation) with
          | Some observation, Some expected => negb (bool_decide (si_instance_id (ro_status observation) = expected))
          | _, _ => false
          end
      end
  end.

(** ** Actions *)

Definition create_action_for (operation : DurableOperationStatus) (pending : PendingActionStatus)
    (observations : OperationObservations) : result failure DurableReplicaAction :=
  let epoch := create_target_epoch operation in
  match pa_kind pending with
  | Action.CreateOpenPrimary | Action.CreateOpenSecondary => Ok (ActOpen OpenNew)
  | Action.CreatePromotePrimary => Ok (ActChangeRole epoch Primary)
  | Action.CreatePrimaryCurrentConfiguration =>
      primary ← snapshot_prefix (op_target_snapshot operation) 0;
      current ← create_config_for_snapshot primary observations false None;
      Ok (ActUpdateCurrentConfiguration current)
  | Action.CreateUpdateSecondaryEpoch => Ok (ActUpdateEpoch epoch)
  | Action.CreateAssignSecondaryIdle => Ok (ActChangeRole epoch IdleSecondary)
  | Action.CreateBuildSecondary =>
      replica ← candidate_info operation observations IdleSecondary; Ok (ActBuildReplica replica)
  | Action.CreateAssignSecondaryActive => Ok (ActChangeRole epoch ActiveSecondary)
  | Action.CreateCatchUpConfiguration =>
      committed ← create_committed_snapshot operation;
      attempted ← attempted_snapshot operation;
      current ← create_config_for_snapshot attempted observations true (op_target_replica_id operation);
      previous ← create_config_for_snapshot committed observations false None;
      Ok (ActUpdateCatchUpConfiguration current previous)
  | Action.CreateWaitForCatchUpQuorum => Ok (ActWaitForCatchUpQuorum QuorumWrite)
  | Action.CreateCurrentConfiguration =>
      attempted ← attempted_snapshot operation;
      current ← create_config_for_snapshot attempted observations false None;
      Ok (ActUpdateCurrentConfiguration current)
  | Action.CreateCompensateRestoreConfiguration =>
      committed ← create_committed_snapshot operation;
      current ← create_config_for_snapshot committed observations false None;
      Ok (ActUpdateCurrentConfiguration current)
  | Action.CreateCompensateRemoveCandidate =>
      target_id ← create_target_replica_id operation;
      instance ← create_target_instance_id operation;
      Ok (ActRemoveReplica target_id instance)
  | Action.CreateCompensateDemoteCandidate => Ok (ActChangeRole epoch RoleNone)
  | Action.CreateCompensateCloseCandidate => Ok ActClose
  | Action.CreateFencePod | Action.CreatePublishPrimary | Action.CreatePublishSecondary
  | Action.CreateCompensateDeleteCandidate => error "cluster action does not map to a runtime action"
  | _ => error "non-creation action reached creation action construction"
  end.

(** The replica an action is sent to, or whose pod it changes. *)
Definition runtime_target_id (operation : DurableOperationStatus) (kind : Action.DurableActionKind) (current_id : Z) :
    result failure Z :=
  match kind with
  | Action.CreateBuildSecondary | Action.CreateCatchUpConfiguration | Action.CreateWaitForCatchUpQuorum
  | Action.CreateCurrentConfiguration | Action.CreatePrimaryCurrentConfiguration
  | Action.CreateCompensateRestoreConfiguration | Action.CreateCompensateRemoveCandidate =>
      Ok (ss_primary_id (op_target_snapshot operation))
  | Action.CreateFencePod | Action.CreatePublishPrimary | Action.CreatePublishSecondary =>
      member ← or_fail (ss_members (op_target_snapshot operation) !! Z.to_nat (op_next_secondary_index operation))
        "creation routing index is out of range";
      Ok (srs_id member)
  | _ => Ok current_id
  end.

Definition create_postcondition (kind : Action.DurableActionKind) : result failure DurablePostconditionKind :=
  match kind with
  | Action.CreateFencePod => Ok PcPodRoleLabel
  | Action.CreateOpenPrimary | Action.CreateOpenSecondary => Ok PcOpened
  | Action.CreatePromotePrimary | Action.CreateAssignSecondaryIdle | Action.CreateAssignSecondaryActive
  | Action.CreateCompensateDemoteCandidate => Ok PcRole
  | Action.CreatePrimaryCurrentConfiguration | Action.CreateCurrentConfiguration
  | Action.CreateCompensateRestoreConfiguration => Ok PcCurrentConfiguration
  | Action.CreateUpdateSecondaryEpoch => Ok PcEpoch
  | Action.CreateBuildSecondary => Ok PcBuildCompleted
  | Action.CreateCatchUpConfiguration => Ok PcCatchUpConfiguration
  | Action.CreateWaitForCatchUpQuorum => Ok PcCatchUpQuorum
  | Action.CreatePublishPrimary | Action.CreatePublishSecondary => Ok PcPodRoleLabel
  | Action.CreateCompensateRemoveCandidate => Ok PcReplicaRemoved
  | Action.CreateCompensateCloseCandidate => Ok PcClosed
  | Action.CreateCompensateDeleteCandidate => Ok PcPodDeleted
  | _ => error "non-creation action cannot be scheduled"
  end.

Definition create_pending_action (operation : DurableOperationStatus) (sequence : Z) (kind : Action.DurableActionKind)
    (now : Z) : result failure PendingActionStatus :=
  (if is_compensation_action kind then ensure_compensation_target_uncommitted operation else Ok tt);;
  current_id ← create_target_replica_id operation;
  target_id ← runtime_target_id operation kind current_id;
  member ← or_fail (List.find (λ member, srs_id member =? target_id) (ss_members (op_target_snapshot operation)))
    "creation action target is absent from target snapshot";
  postcondition ← create_postcondition kind;
  let role := match kind with
    | Action.CreatePublishPrimary => Some StablePrimary
    | Action.CreatePublishSecondary => Some StableActiveSecondary
    | _ => None
    end in
  Ok {|
    pa_action_id := op_execution_id operation +:+ ":" +:+ pretty sequence +:+ ":" +:+ Action.debug kind;
    pa_sequence := sequence;
    pa_kind := kind;
    pa_target_id := target_id;
    pa_target_instance_id := srs_instance_id member;
    pa_expected_epoch := ss_epoch (op_target_snapshot operation);
    pa_desired_postcondition := mkDurablePostconditionStatus postcondition role;
    pa_attempts := 0;
    pa_deadline_unix_seconds := i64_add now
      (if bool_decide (kind = Action.CreateBuildSecondary) then BUILD_DEADLINE_SECONDS else ACTION_DEADLINE_SECONDS);
    pa_last_error := None;
    pa_dispatch_authorized := false;
    pa_dispatch_agent_generation := None;
    pa_dispatch_agent_control_version := None;
    pa_dispatch_observed_runtime_epoch := None;
    pa_dispatch_action_payload := "" |}.

Definition create_action_allowed (phase : Phase.DurableOperationPhase) (kind : Action.DurableActionKind) : bool :=
  match phase, kind with
  | Phase.CreateFenceRouting, Action.CreateFencePod
  | Phase.CreateOpenPrimary, Action.CreateOpenPrimary
  | Phase.CreatePromotePrimary, Action.CreatePromotePrimary
  | Phase.CreatePrimaryCurrentConfiguration, Action.CreatePrimaryCurrentConfiguration
  | Phase.CreateOpenSecondary, Action.CreateOpenSecondary
  | Phase.CreateUpdateSecondaryEpoch, Action.CreateUpdateSecondaryEpoch
  | Phase.CreateAssignSecondaryIdle, Action.CreateAssignSecondaryIdle
  | Phase.CreateBuildSecondary, Action.CreateBuildSecondary
  | Phase.CreateAssignSecondaryActive, Action.CreateAssignSecondaryActive
  | Phase.CreateCatchUpConfiguration, Action.CreateCatchUpConfiguration
  | Phase.CreateWaitForCatchUpQuorum, Action.CreateWaitForCatchUpQuorum
  | Phase.CreateCurrentConfiguration, Action.CreateCurrentConfiguration
  | Phase.CreatePublishRouting, (Action.CreatePublishPrimary | Action.CreatePublishSecondary)
  | Phase.CreateCompensateRestoreConfiguration, Action.CreateCompensateRestoreConfiguration
  | Phase.CreateCompensateRemoveCandidate, Action.CreateCompensateRemoveCandidate
  | Phase.CreateCompensateDemoteCandidate, Action.CreateCompensateDemoteCandidate
  | Phase.CreateCompensateCloseCandidate, Action.CreateCompensateCloseCandidate
  | Phase.CreateCompensateDeleteCandidate, Action.CreateCompensateDeleteCandidate => true
  | _, _ => false
  end.

Definition validate_create_pending (operation : DurableOperationStatus) (pending : PendingActionStatus) : result failure unit :=
  fail_if (negb (create_action_allowed (op_phase operation) (pa_kind pending)))
    ("pending action " +:+ Action.debug (pa_kind pending) +:+ " is illegal in creation phase " +:+
     Phase.debug (op_phase operation));;
  expected ← create_pending_action operation (pa_sequence pending) (pa_kind pending) 0;
  fail_if (negb (bool_decide (pa_action_id pending = pa_action_id expected)) ||
           negb (pa_target_id pending =? pa_target_id expected) ||
           negb (bool_decide (pa_target_instance_id pending = pa_target_instance_id expected)) ||
           negb (bool_decide (pa_expected_epoch pending = pa_expected_epoch expected)) ||
           negb (bool_decide (pa_desired_postcondition pending = pa_desired_postcondition expected)))
    "pending creation action is not deterministic".

(** ** Transitions *)

(** The phase after an action; its [unreachable!] is a panic. *)
Definition create_next_phase (kind : Action.DurableActionKind) : result failure Phase.DurableOperationPhase :=
  match kind with
  | Action.CreateOpenPrimary => Ok Phase.CreatePromotePrimary
  | Action.CreatePromotePrimary => Ok Phase.CreatePrimaryCurrentConfiguration
  | Action.CreatePrimaryCurrentConfiguration => Ok Phase.CreateCommitPrimary
  | Action.CreateOpenSecondary => Ok Phase.CreateUpdateSecondaryEpoch
  | Action.CreateUpdateSecondaryEpoch => Ok Phase.CreateAssignSecondaryIdle
  | Action.CreateAssignSecondaryIdle => Ok Phase.CreateBuildSecondary
  | Action.CreateBuildSecondary => Ok Phase.CreateAssignSecondaryActive
  | Action.CreateAssignSecondaryActive => Ok Phase.CreateCatchUpConfiguration
  | Action.CreateCatchUpConfiguration => Ok Phase.CreateWaitForCatchUpQuorum
  | Action.CreateWaitForCatchUpQuorum => Ok Phase.CreateCurrentConfiguration
  | Action.CreateCurrentConfiguration => Ok Phase.CreateCommitSecondary
  | Action.CreateCompensateRestoreConfiguration => Ok Phase.CreateCompensateRemoveCandidate
  | Action.CreateCompensateRemoveCandidate => Ok Phase.CreateCompensateDemoteCandidate
  | Action.CreateCompensateDemoteCandidate => Ok Phase.CreateCompensateCloseCandidate
  | Action.CreateCompensateCloseCandidate => Ok Phase.CreateCompensateDeleteCandidate
  | Action.CreateCompensateDeleteCandidate => Ok Phase.CreateCompensateFinalize
  | _ => Err (Panic "internal error: entered unreachable code: validated creation action")
  end.

Definition failure_phase (phase : Phase.DurableOperationPhase) (uncommitted : bool) : Phase.DurableOperationPhase :=
  match phase with
  | Phase.CreateFenceRouting | Phase.CreateCompensateRestoreConfiguration | Phase.CreateCompensateRemoveCandidate
  | Phase.CreateCompensateDemoteCandidate | Phase.CreateCompensateCloseCandidate
  | Phase.CreateCompensateDeleteCandidate | Phase.CreateCompensateFinalize => Phase.Poisoned
  | Phase.CreateOpenPrimary =>
      if uncommitted then Phase.CreateCompensateDeleteCandidate else Phase.CreateCompensateRemoveCandidate
  | Phase.CreateCatchUpConfiguration | Phase.CreateWaitForCatchUpQuorum | Phase.CreateCurrentConfiguration =>
      Phase.CreateCompensateRestoreConfiguration
  | Phase.CreateCommitPrimary | Phase.CreateCommitSecondary | Phase.CreatePublishRouting | Phase.CreateFinalize =>
      Phase.Poisoned
  | _ => Phase.CreateCompensateRemoveCandidate
  end.

Definition failure_decision (operation : DurableOperationStatus) (error : string) (now : Z) : Decision :=
  Persist (operation
    <| op_pending_action := None |>
    <| op_last_error := Some (bounded_error error) |>
    <| op_phase_deadline_unix_seconds := i64_add now ACTION_DEADLINE_SECONDS |>
    <| op_phase := failure_phase (op_phase operation) (none (op_committed_snapshot operation)) |>).

(** What a step leaves before it chooses the next phase. *)
Definition step_done (operation : DurableOperationStatus) (now : Z) : DurableOperationStatus :=
  operation
    <| op_pending_action := None |>
    <| op_last_error := None |>
    <| op_phase_deadline_unix_seconds := i64_add now ACTION_DEADLINE_SECONDS |>.

Definition set_current_target (operation : DurableOperationStatus) (member : StableReplicaSnapshotStatus)
    (observations : OperationObservations) : result failure DurableOperationStatus :=
  observation ← or_fail (observations !! srs_id member)
    ("creation target " +:+ pretty (srs_id member) +:+ " is unavailable");
  Ok (operation
    <| op_target_replica_id := Some (srs_id member) |>
    <| op_target_instance_id := Some (srs_instance_id member) |>
    <| op_target_pod_uid := Some (srs_instance_id member) |>
    <| op_target_pod_name := Some (ro_pod_name observation) |>).

Definition create_move (operation : DurableOperationStatus) (phase : Phase.DurableOperationPhase) (index : nat) :
    DurableOperationStatus :=
  operation <| op_phase := phase |> <| op_next_secondary_index := as_u32 index |>.

Definition advance_after_commit (operation : DurableOperationStatus) (committed : StablePartitionSnapshotStatus)
    (observations : OperationObservations) (now : Z) : result failure Decision :=
  committed_secondaries ← usize_pred (length (ss_members committed));
  secondary_count ← usize_pred (length (ss_members (op_target_snapshot operation)));
  let next := (step_done operation now) <| op_committed_snapshot := Some committed |> in
  if (committed_secondaries =? secondary_count)%nat then
    primary ← or_fail (ss_members (op_target_snapshot operation) !! 0%nat) "creation target has no primary";
    next ← set_current_target (create_move next Phase.CreatePublishRouting 0) primary observations;
    Ok (Persist next)
  else
    let next := create_move next Phase.CreateOpenSecondary committed_secondaries in
    target ← or_fail (ss_members (op_target_snapshot operation) !! (committed_secondaries + 1)%nat)
      "creation target has no next secondary";
    if match observations !! srs_id target with
       | Some observation => negb (bool_decide (si_instance_id (ro_status observation) = srs_instance_id target))
       | None => false
       end
    then Ok (RestartCreation (next <| op_phase := Phase.Failed |>
               <| op_last_error := Some "next creation candidate incarnation changed" |>))
    else next ← set_current_target next target observations; Ok (Persist next).

Definition advance_after_fencing (operation : DurableOperationStatus) (observations : OperationObservations) :
    result failure DurableOperationStatus :=
  let members := ss_members (op_target_snapshot operation) in
  match op_committed_snapshot operation with
  | None =>
      primary ← index_list members 0;
      set_current_target (create_move operation Phase.CreateOpenPrimary 0) primary observations
  | Some snapshot =>
      let committed_secondaries := (length (ss_members snapshot) - 1)%nat in
      secondary_count ← usize_pred (length members);
      if (committed_secondaries =? secondary_count)%nat then
        primary ← index_list members 0;
        set_current_target (create_move operation Phase.CreatePublishRouting 0) primary observations
      else
        target ← index_list members (Z.of_nat committed_secondaries + 1);
        set_current_target (create_move operation Phase.CreateOpenSecondary committed_secondaries) target observations
  end.

Definition secondary_sequence (operation : DurableOperationStatus) (offset : Z) : result failure Z :=
  fail_if (none (op_committed_snapshot operation)) "secondary creation requires a committed primary";;
  Ok (u32_add (u32_add 10 ((op_next_secondary_index operation * 10) `mod` 2 ^ 32)) offset).

Definition create_with_phase (operation : DurableOperationStatus) (phase : Phase.DurableOperationPhase) (now : Z) :
    DurableOperationStatus :=
  operation <| op_phase := phase |> <| op_pending_action := None |>
    <| op_phase_deadline_unix_seconds := i64_add now ACTION_DEADLINE_SECONDS |>.

Definition persist_pending (operation : DurableOperationStatus) (pending : PendingActionStatus) : Decision :=
  Persist (operation <| op_pending_action := Some pending |>).

Definition restart_or_poison_fence (operation : DurableOperationStatus) (target_id : Z) (error : string) : Decision :=
  if is_committed_member operation target_id then Persist (poison operation error)
  else RestartCreation (operation <| op_phase := Phase.Failed |> <| op_pending_action := None |>
         <| op_last_error := Some (bounded_error error) |>).

Definition fence_member (operation : DurableOperationStatus) : result failure StableReplicaSnapshotStatus :=
  or_fail (ss_members (op_target_snapshot operation) !! Z.to_nat (op_next_secondary_index operation))
    "creation fencing index is out of range".

(** ** What the live state says of a pending action *)

Definition none_or_unknown (role : Role) : bool := bool_decide (role = RoleNone ∨ role = Unknown).

(** [status.healthy && status.role == role && status.epoch == epoch]. *)
Definition healthy_at (status : ReplicaStatusInfo) (role : Role) (epoch : Epoch) : bool :=
  si_healthy status && bool_decide (si_role status = role) && bool_decide (si_epoch status = epoch).
Definition role_at (status : ReplicaStatusInfo) (role : Role) (epoch : Epoch) : bool :=
  bool_decide (si_role status = role) && bool_decide (si_epoch status = epoch).

(** The verdict of the role, epoch, configuration and label alone. *)
Definition create_direct_observation (operation : DurableOperationStatus) (pending : PendingActionStatus)
    (observation : ReplicaObservation) : result failure ActionObservation :=
  let epoch := create_target_epoch operation in
  let status := ro_status observation in
  let unset := mkEpoch 0 0 in
  match pa_kind pending with
  | Action.CreateFencePod =>
      Ok (if bool_decide (ro_pod_role_label observation = Some "bootstrap") then AoPostcondition else AoPrecondition)
  | Action.CreateOpenPrimary | Action.CreateOpenSecondary =>
      Ok (if si_healthy status && bool_decide (si_role status = Unknown) then AoPostcondition
          else if negb (si_healthy status) && bool_decide (si_role status = Unknown) then AoPrecondition
          else AoImpossible)
  | Action.CreatePromotePrimary =>
      Ok (if healthy_at status Primary epoch then AoPostcondition
          else if healthy_at status Unknown unset then AoPrecondition
          else AoImpossible)
  | Action.CreatePrimaryCurrentConfiguration =>
      primary ← snapshot_prefix (op_target_snapshot operation) 0;
      Ok (create_configuration_observation status (configuration_status_for_snapshot primary Current) None epoch)
  | Action.CreateUpdateSecondaryEpoch =>
      Ok (if healthy_at status Unknown epoch then AoPostcondition
          else if healthy_at status Unknown unset then AoPrecondition
          else AoImpossible)
  | Action.CreateAssignSecondaryIdle =>
      Ok (if role_at status IdleSecondary epoch then AoPostcondition
          else if role_at status Unknown epoch then AoPrecondition
          else AoImpossible)
  | Action.CreateBuildSecondary | Action.CreateWaitForCatchUpQuorum | Action.CreateCompensateRemoveCandidate =>
      Ok AoPrecondition
  | Action.CreateAssignSecondaryActive =>
      Ok (if role_at status ActiveSecondary epoch then AoPostcondition
          else if role_at status IdleSecondary epoch then AoPrecondition
          else AoImpossible)
  | Action.CreateCatchUpConfiguration =>
      committed ← create_committed_snapshot operation;
      attempted ← attempted_snapshot operation;
      Ok (create_configuration_observation status (configuration_status_for_snapshot attempted CatchUp)
            (Some (configuration_status_for_snapshot committed Current)) epoch)
  | Action.CreateCurrentConfiguration =>
      attempted ← attempted_snapshot operation;
      Ok (create_configuration_observation status (configuration_status_for_snapshot attempted Current)
            (Some (configuration_status_for_snapshot attempted CatchUp)) epoch)
  | Action.CreatePublishPrimary | Action.CreatePublishSecondary =>
      let expected := if bool_decide (pa_kind pending = Action.CreatePublishPrimary) then "primary" else "secondary" in
      Ok (if bool_decide (ro_pod_role_label observation = Some expected) then AoPostcondition else AoPrecondition)
  | Action.CreateCompensateRestoreConfiguration =>
      committed ← create_committed_snapshot operation;
      attempted ← attempted_snapshot operation;
      Ok (create_configuration_observation status (configuration_status_for_snapshot committed Current)
            (Some (configuration_status_for_snapshot attempted CatchUp)) epoch)
  | Action.CreateCompensateDemoteCandidate =>
      Ok (if none_or_unknown (si_role status) then AoPostcondition
          else if bool_decide (si_epoch status = epoch) &&
                  bool_decide (si_role status = Primary ∨ si_role status = IdleSecondary ∨ si_role status = ActiveSecondary)
          then AoPrecondition
          else AoImpossible)
  | Action.CreateCompensateCloseCandidate =>
      Ok (if negb (si_healthy status) then AoPostcondition
          else if none_or_unknown (si_role status) then AoPrecondition
          else AoImpossible)
  | Action.CreateCompensateDeleteCandidate => Err (Panic "internal error: entered unreachable code")
  | _ => error "non-creation action reached creation observation"
  end.

Section workflow.
  Context {Ends : Endpoints} {Codec : PayloadCodec}.

(** The record the replica keeps of the pending action, where there is one. *)
Definition create_recorded_observation (operation : DurableOperationStatus) (pending : PendingActionStatus)
    (observations : OperationObservations) (status : ReplicaStatusInfo) (direct : ActionObservation) :
    result failure ActionObservation :=
  match create_action_for operation pending observations with
  | Err (Panic m) => Err (Panic m)
  | Err (Error _) => Ok direct
  | Ok expected_action =>
      expected_signature ← lift (pending_action_signature pending expected_action);
      Ok match correlated_action_observation status (pa_action_id pending) with
         | None => direct
         | Some active =>
             if negb (bool_decide (do_signature active = expected_signature)) then AoImpossible
             else match do_state active with
             | Scheduled | InProgress => AoInProgress
             | Completed => AoPostcondition
             | Failed => AoFailed (default "runtime reported durable activity failure" (do_error active))
             end
         end
  end.

Definition create_observe_action (operation : DurableOperationStatus) (pending : PendingActionStatus)
    (observations : OperationObservations) : result failure ActionObservation :=
  let observation := observations !! pa_target_id pending in
  let same o := bool_decide (si_instance_id (ro_status o) = pa_target_instance_id pending) in
  if bool_decide (pa_kind pending = Action.CreateCompensateDeleteCandidate) then
    Ok match observation with
       | None => AoPostcondition
       | Some observation => if same observation then AoPrecondition else AoPostcondition
       end
  else match observation with
  | None => Ok AoUnavailable
  | Some observation =>
      if negb (same observation) then
        Ok match pa_kind pending with
           | Action.CreateCompensateDemoteCandidate | Action.CreateCompensateCloseCandidate => AoPostcondition
           | _ => AoImpossible
           end
      else
        direct ← create_direct_observation operation pending observation;
        match direct with
        | AoPostcondition => Ok direct
        | _ => create_recorded_observation operation pending observations (ro_status observation) direct
        end
  end.

(** ** Deciding *)

Definition decide_fence_pending (operation : DurableOperationStatus) (pending : PendingActionStatus)
    (observations : OperationObservations) (pod_identities : gmap Z string) (now : Z) : result failure Decision :=
  member ← fence_member operation;
  fail_if (negb (pa_target_id pending =? srs_id member) ||
           negb (bool_decide (pa_target_instance_id pending = srs_instance_id member)))
    "pending fence action does not target the current fence member";;
  let expired := pa_deadline_unix_seconds pending <=? now in
  match observations !! srs_id member with
  | Some observation =>
      if negb (bool_decide (si_instance_id (ro_status observation) = srs_instance_id member))
      then Ok (restart_or_poison_fence operation (srs_id member) "fence member incarnation changed")
      else if bool_decide (ro_pod_role_label observation = Some "bootstrap") then
        let next := step_done operation now in
        let next_index := S (Z.to_nat (op_next_secondary_index operation)) in
        if (next_index =? length (ss_members (op_target_snapshot operation)))%nat
        then next ← advance_after_fencing next observations; Ok (Persist next)
        else Ok (Persist (next <| op_next_secondary_index := as_u32 next_index |>))
      else Ok (if expired
               then Persist (poison operation "fence label did not reach the bootstrap postcondition before its deadline")
               else PatchPodRole (srs_id member) "bootstrap")
  | None =>
      Ok (if negb expired then Wait
          else match pod_identities !! srs_id member with
          | Some instance_id =>
              if negb (bool_decide (instance_id = srs_instance_id member))
              then restart_or_poison_fence operation (srs_id member) "fence member incarnation changed while unavailable"
              else Persist (poison operation "fence member runtime remained unavailable at its deadline")
          | None => restart_or_poison_fence operation (srs_id member) "fence member pod disappeared"
          end)
  end.

Definition is_publish_action (kind : Action.DurableActionKind) : bool :=
  match kind with Action.CreatePublishPrimary | Action.CreatePublishSecondary => true | _ => false end.

(** The step after an action done: the next member to publish, or the next
    phase. *)
Definition advance_after_action (operation : DurableOperationStatus) (kind : Action.DurableActionKind) (now : Z) :
    result failure DurableOperationStatus :=
  let next := step_done operation now in
  if is_publish_action kind then
    let next_index := S (Z.to_nat (op_next_secondary_index operation)) in
    Ok (if (next_index =? length (ss_members (op_target_snapshot operation)))%nat
        then next <| op_phase := Phase.CreateFinalize |>
        else next <| op_next_secondary_index := as_u32 next_index |>)
  else phase ← create_next_phase kind; Ok (next <| op_phase := phase |>).

Definition perform_action (operation : DurableOperationStatus) (pending : PendingActionStatus)
    (observations : OperationObservations) : result failure Decision :=
  match pa_kind pending with
  | Action.CreatePublishPrimary => Ok (PatchPodRole (pa_target_id pending) "primary")
  | Action.CreatePublishSecondary => Ok (PatchPodRole (pa_target_id pending) "secondary")
  | Action.CreateCompensateDeleteCandidate =>
      pod_name ← create_target_pod_name operation;
      expected_uid ← create_target_instance_id operation;
      Ok (DeletePod pod_name expected_uid)
  | _ =>
      action ← create_action_for operation pending observations;
      Ok (Execute (pa_target_id pending) (pa_action_id pending) action)
  end.

(** A target that cannot be asked any more counts as demoted, closed, deleted. *)
Definition unavailable_phase (kind : Action.DurableActionKind) : option Phase.DurableOperationPhase :=
  match kind with
  | Action.CreateCompensateDemoteCandidate => Some Phase.CreateCompensateCloseCandidate
  | Action.CreateCompensateCloseCandidate => Some Phase.CreateCompensateDeleteCandidate
  | Action.CreateCompensateDeleteCandidate => Some Phase.CreateCompensateFinalize
  | _ => None
  end.

Definition create_decide_pending (operation : DurableOperationStatus) (pending : PendingActionStatus)
    (observations : OperationObservations) (pod_identities : gmap Z string) (now : Z) : result failure Decision :=
  if bool_decide (pa_kind pending = Action.CreateFencePod)
  then decide_fence_pending operation pending observations pod_identities now
  else
    observed ← create_observe_action operation pending observations;
    let expired := pa_deadline_unix_seconds pending <=? now in
    match observed with
    | AoPostcondition => next ← advance_after_action operation (pa_kind pending) now; Ok (Persist next)
    | AoInProgress =>
        Ok (if expired
            then failure_decision operation "durable creation activity remained in progress past its deadline" now
            else Wait)
    | AoPrecondition =>
        if expired
        then Ok (failure_decision operation
               ("durable creation action " +:+ Action.debug (pa_kind pending) +:+ " reached its deadline") now)
        else perform_action operation pending observations
    | AoFailed err => Ok (failure_decision (record_activity_error operation err) err now)
    | AoUnavailable =>
        Ok match unavailable_phase (pa_kind pending) with
           | Some phase => Persist (operation <| op_pending_action := None |> <| op_phase := phase |>)
           | None =>
               if expired
               then failure_decision operation "durable creation action target was unavailable at its deadline" now
               else Wait
           end
    | AoImpossible =>
        Ok (Persist (poison operation
          "live state matches neither the creation action precondition nor postcondition"))
    end.

(** Schedule the action of the phase. *)
Definition create_schedule (operation : DurableOperationStatus) (sequence : Z) (kind : Action.DurableActionKind) (now : Z) :
    result failure Decision :=
  pending ← create_pending_action operation sequence kind now; Ok (persist_pending operation pending).

Definition schedule_secondary (operation : DurableOperationStatus) (offset : Z) (kind : Action.DurableActionKind) (now : Z) :
    result failure Decision :=
  sequence ← secondary_sequence operation offset; create_schedule operation sequence kind now.

(** Record a configuration as committed, once the primary shows it. *)
Definition decide_commit (operation : DurableOperationStatus) (snapshot : StablePartitionSnapshotStatus)
    (observations : OperationObservations) (message : string) (now : Z) : result failure Decision :=
  primary ← or_fail (observations !! ss_primary_id (op_target_snapshot operation)) "creation primary is unavailable";
  if negb (bool_decide (si_configuration (ro_status primary) = Some (configuration_status_for_snapshot snapshot Current)))
  then Ok (Persist (poison operation message))
  else advance_after_commit operation snapshot observations now.

Definition decide_create_phase (operation : DurableOperationStatus) (observations : OperationObservations) (now : Z) :
    result failure Decision :=
  let target := op_target_snapshot operation in
  let index := Z.to_nat (op_next_secondary_index operation) in
  match op_phase operation with
  | Phase.CreateFenceRouting =>
      or_fail (ss_members target !! index) "creation fencing index is out of range";;
      create_schedule operation (u32_add 500 (as_u32 index)) Action.CreateFencePod now
  | Phase.CreateOpenPrimary => create_schedule operation 1 Action.CreateOpenPrimary now
  | Phase.CreatePromotePrimary => create_schedule operation 2 Action.CreatePromotePrimary now
  | Phase.CreatePrimaryCurrentConfiguration => create_schedule operation 3 Action.CreatePrimaryCurrentConfiguration now
  | Phase.CreateCommitPrimary =>
      primary_snapshot ← snapshot_prefix target 0;
      decide_commit operation primary_snapshot observations "primary-only current configuration is not committed" now
  | Phase.CreateOpenSecondary => schedule_secondary operation 0 Action.CreateOpenSecondary now
  | Phase.CreateUpdateSecondaryEpoch => schedule_secondary operation 1 Action.CreateUpdateSecondaryEpoch now
  | Phase.CreateAssignSecondaryIdle => schedule_secondary operation 2 Action.CreateAssignSecondaryIdle now
  | Phase.CreateBuildSecondary => schedule_secondary operation 3 Action.CreateBuildSecondary now
  | Phase.CreateAssignSecondaryActive => schedule_secondary operation 4 Action.CreateAssignSecondaryActive now
  | Phase.CreateCatchUpConfiguration => schedule_secondary operation 5 Action.CreateCatchUpConfiguration now
  | Phase.CreateWaitForCatchUpQuorum => schedule_secondary operation 6 Action.CreateWaitForCatchUpQuorum now
  | Phase.CreateCurrentConfiguration => schedule_secondary operation 7 Action.CreateCurrentConfiguration now
  | Phase.CreateCommitSecondary =>
      expanded ← attempted_snapshot operation;
      decide_commit operation expanded observations "expanded current configuration is not committed" now
  | Phase.CreatePublishRouting =>
      member ← or_fail (ss_members target !! index) "creation routing index is out of range";
      create_schedule operation (u32_add 1000 (as_u32 index))
        (if srs_id member =? ss_primary_id target then Action.CreatePublishPrimary else Action.CreatePublishSecondary) now
  | Phase.CreateFinalize =>
      validate_final_observations operation observations;;
      Ok (Complete (operation <| op_phase := Phase.Completed |> <| op_pending_action := None |>) target false)
  | Phase.CreateCompensateRestoreConfiguration =>
      create_schedule operation 2000 Action.CreateCompensateRestoreConfiguration now
  | Phase.CreateCompensateRemoveCandidate =>
      if none (op_committed_snapshot operation)
      then Ok (Persist (create_with_phase operation Phase.CreateCompensateDemoteCandidate now))
      else create_schedule operation 2001 Action.CreateCompensateRemoveCandidate now
  | Phase.CreateCompensateDemoteCandidate => create_schedule operation 2002 Action.CreateCompensateDemoteCandidate now
  | Phase.CreateCompensateCloseCandidate => create_schedule operation 2003 Action.CreateCompensateCloseCandidate now
  | Phase.CreateCompensateDeleteCandidate => create_schedule operation 2004 Action.CreateCompensateDeleteCandidate now
  | Phase.CreateCompensateFinalize =>
      Ok (RestartCreation (operation <| op_phase := Phase.Failed |> <| op_pending_action := None |>))
  | phase => error ("phase " +:+ Phase.debug phase +:+ " is not valid for partition creation")
  end.

Definition decide_create_partition (operation : DurableOperationStatus) (observations : OperationObservations)
    (pod_identities : gmap Z string) (now : Z) : result failure Decision :=
  validate_create_operation operation;;
  match op_phase operation with
  | Phase.Completed | Phase.Failed | Phase.Poisoned => Ok Wait
  | _ =>
      match op_pending_action operation with
      | Some pending => validate_create_pending operation pending
      | None => Ok tt
      end;;
      match validate_committed_observations operation observations with
      | Err (Panic m) => Err (Panic m)
      | Err (Error e) => Ok (Persist (poison operation e))
      | Ok _ =>
          if current_candidate_changed operation observations
          then Ok (failure_decision operation "creation candidate incarnation changed" now)
          else match op_pending_action operation with
          | Some pending => create_decide_pending operation pending observations pod_identities now
          | None => decide_create_phase operation observations now
          end
      end
  end.
End workflow.
