(* ===== verification/CreateSteps.v ===== *)
(** What the creation of a partition relies on: the plan it accepts, the
    prefixes of it that are committed, what a checkpoint that passes the checks
    is, and what the live state must show for a step to count as done. *)

From S2P Require Import Prelude Types Lifecycle Control Agent Convert Wire Crd Operation Switchover SwitchoverSteps AddWorkflow AddSteps CreateWorkflow.

Set Default Goal Selector "!".

(** ** Plans *)

Definition identified (s : StablePartitionSnapshotStatus) (m : StableReplicaSnapshotStatus) : Prop :=
  srs_instance_id m ≠ "" ∧ (srs_role m = StablePrimary → srs_id m = ss_primary_id s).

(** What a creation accepts as a snapshot. *)
Record creatable (s : StablePartitionSnapshotStatus) : Prop := mkCreatable {
  cb_identified : ∀ m, m ∈ ss_members s → identified s m;
  cb_ids : NoDup (srs_id <$> ss_members s);
  cb_instances : NoDup (srs_instance_id <$> ss_members s);
  cb_one : primaries (ss_members s) = 1;
  cb_quorum : ss_write_quorum s = create_majority (length (ss_members s));
}.

Lemma creatable_primary s : creatable s → ∃ m, m ∈ ss_members s ∧ srs_role m = StablePrimary ∧ srs_id m = ss_primary_id s.
Proof.
  intros [Hi _ _ H1 _]. unfold primaries in H1. destruct (filter _ _) as [|m l] eqn:Hf; [done|].
  assert (m ∈ filter (λ m, srs_role m = StablePrimary) (ss_members s)) as [Hr Hm]%list_elem_of_filter by (rewrite Hf; left).
  exists m. split; [done|]. split; [done|]. by apply Hi.
Qed.

Lemma creatable_nonempty s : creatable s → ss_members s ≠ [].
Proof. intros (m & Hm & _)%creatable_primary He. rewrite He in Hm. by apply elem_of_nil in Hm. Qed.

Lemma validate_create_snapshot_Ok s : validate_create_snapshot s = Ok tt ↔ creatable s.
Proof.
  unfold validate_create_snapshot. set (f := λ (scan : gset Z * gset string * Z) (member : StableReplicaSnapshotStatus), _).
  assert (∀ ids instances n m r, f (ids, instances, n) m = Ok r ↔
     identified s m ∧ (srs_id m ∉ ids) ∧ (srs_instance_id m ∉ instances) ∧
     r = ({[srs_id m]} ∪ ids, {[srs_instance_id m]} ∪ instances,
          if bool_decide (srs_role m = StablePrimary) then n + 1 else n)) as Hf.
  { intros ids instances n m r. unfold f, identified, empty. split.
    - intros ([] & H1%fail_if_Ok & ([] & H2%fail_if_Ok & [= <-])%bind_Ok)%bind_Ok. guards. split_and!; try done.
      intros Hr. rewrite (bool_decide_eq_true_2 _ Hr) in H2. simpl in H2. by guards.
    - intros ((Hne & Hp) & Hi & Hs & ->).
      rewrite (bool_decide_eq_false_2 _ Hi), (bool_decide_eq_false_2 _ Hne), (bool_decide_eq_false_2 _ Hs). cbn.
      case_bool_decide as Hr; simpl; [|done]. by rewrite (Hp Hr), Z.eqb_refl. }
  rewrite bind_Ok. split.
  - intros ([] & _ & ([seen r] & Hr & H%fail_if_Ok)%bind_Ok). cbn [snd] in H. guards.
    destruct (proj1 (scan_members (identified s) f _ _ _ _ r Hf) (ex_intro _ seen Hr)) as (Hall & Hd1 & Hd2 & Hp).
    split; try done; [|lia]. intros m Hm. by apply Hall.
  - intros Hc. exists tt. split; [by apply fail_if_Ok, bool_decide_eq_false_2, creatable_nonempty|].
    destruct (proj2 (scan_members (identified s) f (ss_members s) ∅ ∅ 0 1 Hf)) as (seen & Hs).
    { split; [|split; [apply Hc|split; [apply Hc|by rewrite (cb_one s Hc)]]].
      intros m Hm. split; [by apply Hc|]. split; set_solver. }
    apply bind_Ok. exists (seen, 1). split; [exact Hs|]. cbn [snd]. rewrite (cb_quorum s Hc), !Z.eqb_refl. done.
Qed.

(** A plan: its members ordered by identity, the primary first. *)
Record plan (T : StablePartitionSnapshotStatus) : Prop := mkPlan {
  pl_valid : creatable T;
  pl_sorted : StronglySorted Z.lt (srs_id <$> ss_members T);
  pl_head : ∃ m, ss_members T !! 0%nat = Some m ∧ srs_id m = ss_primary_id T;
}.

(** Its first [k] members. *)
Definition planned (T : StablePartitionSnapshotStatus) (k : nat) : StablePartitionSnapshotStatus :=
  mkStablePartitionSnapshotStatus (ss_epoch T) (ss_primary_id T) (take k (ss_members T)) (create_majority k).

Lemma planned_members T k : (k ≤ length (ss_members T))%nat → length (ss_members (planned T k)) = k.
Proof. intros Hk. unfold planned. cbn [ss_members]. rewrite length_take. lia. Qed.

Lemma planned_all T : creatable T → planned T (length (ss_members T)) = T.
Proof. intros Hc. unfold planned. rewrite firstn_all, <-(cb_quorum T Hc). by destruct T. Qed.

Lemma planned_planned T k i : (i ≤ k)%nat → planned (planned T k) i = planned T i.
Proof. intros Hi. unfold planned. cbn [ss_epoch ss_primary_id ss_members]. rewrite take_take. do 2 f_equal. lia. Qed.

Lemma planned_in T k m : m ∈ ss_members (planned T k) → m ∈ ss_members T.
Proof. unfold planned. cbn [ss_members]. intros (i & Hi & _)%elem_of_take. by eapply list_elem_of_lookup_2. Qed.

Lemma snapshot_prefix_Ok T : plan T → snapshot_prefix T 0 = Ok (planned T 1).
Proof.
  intros [_ _ (m & Hm & _)]. unfold snapshot_prefix. destruct (ss_members T) as [|x l] eqn:HT; [done|].
  cbn [length]. rewrite (proj2 (Nat.ltb_ge _ _)) by lia. unfold planned. by rewrite HT.
Qed.

Section plan.
  Context (T : StablePartitionSnapshotStatus) (HT : plan T).
Abbreviation members := (ss_members T).

Lemma plan_nonempty : (0 < length members)%nat.
Proof. destruct HT as [_ _ (m & Hm & _)]. by eapply lookup_lt_Some. Qed.

Lemma plan_ids : NoDup (srs_id <$> members).
Proof. apply HT. Qed.

Lemma plan_position i j m x :
  members !! i = Some m → members !! j = Some x → srs_id m = srs_id x → i = j.
Proof.
  intros Hi Hj He. apply (NoDup_lookup (srs_id <$> members) i j (srs_id m)); [apply plan_ids|by rewrite list_lookup_fmap, Hi|].
  by rewrite list_lookup_fmap, Hj, He.
Qed.

Lemma plan_find i m : members !! i = Some m → List.find (λ x, srs_id x =? srs_id m) members = Some m.
Proof. intros Hi. apply find_key_In; [apply plan_ids|by eapply list_elem_of_lookup_2]. Qed.

Lemma plan_primary m : members !! 0%nat = Some m → srs_id m = ss_primary_id T ∧ srs_role m = StablePrimary.
Proof.
  intros Hm. destruct HT as [Hc _ (m' & Hm' & Hid)]. rewrite Hm in Hm'. injection Hm' as <-. split; [done|].
  destruct (creatable_primary T Hc) as (x & Hx & Hr & Hxid). apply list_elem_of_lookup in Hx as [j Hj].
  assert (0%nat = j) as <- by (eapply plan_position; [exact Hm|exact Hj|congruence]). congruence.
Qed.

Lemma plan_secondary i m : members !! i = Some m → i ≠ 0%nat → srs_id m ≠ ss_primary_id T.
Proof.
  intros Hi Hne He. destruct HT as [_ _ (x & Hx & Hid)]. apply Hne.
  eapply plan_position; [exact Hi|exact Hx|congruence].
Qed.

Lemma planned_creatable k : (1 ≤ k ≤ length members)%nat → creatable (planned T k).
Proof.
  intros Hk. destruct HT as [Hc _ (h & Hh & Hid)].
  assert (∀ {A} (f : StableReplicaSnapshotStatus → A), NoDup (f <$> members) → NoDup (f <$> take k members)) as Hsub.
  { intros A f Hnd. rewrite fmap_take. eapply sublist_NoDup; [exact Hnd|]. apply sublist_take. }
  split; cbn [planned ss_members ss_primary_id ss_write_quorum].
  - intros m (i & Hi & _)%elem_of_take. apply (cb_identified T Hc). by eapply list_elem_of_lookup_2.
  - apply Hsub, Hc.
  - apply Hsub, Hc.
  - pose proof (cb_one T Hc) as H1. destruct (ss_members T) as [|x l] eqn:Hl; [done|].
    destruct k as [|k]; [lia|]. cbn [take]. injection Hh as ->.
    assert (srs_role h = StablePrimary) as Hr by (apply plan_primary; by rewrite Hl).
    rewrite primaries_cons, bool_decide_eq_true_2 in H1 by done. rewrite primaries_cons, bool_decide_eq_true_2 by done.
    assert (primaries l = 0) as H0 by lia. unfold primaries in *.
    assert (∀ m, m ∈ l → srs_role m ≠ StablePrimary) as Hno.
    { intros m Hm Hrm. assert (m ∈ filter (λ m, srs_role m = StablePrimary) l) as Hin by (by apply list_elem_of_filter).
      destruct (filter (λ m, srs_role m = StablePrimary) l); [by apply elem_of_nil in Hin|done]. }
    destruct (filter (λ m, srs_role m = StablePrimary) (take k l)) as [|x l'] eqn:Hf; [done|]. exfalso.
    assert (x ∈ filter (λ m, srs_role m = StablePrimary) (take k l)) as [Hx (i & Hi & _)%elem_of_take]%list_elem_of_filter
      by (rewrite Hf; left).
    apply (Hno x); [by eapply list_elem_of_lookup_2|done].
  - by rewrite length_take, Nat.min_l by lia.
Qed.

Lemma validate_prefix_Ok c :
  validate_committed_prefix c T = Ok tt ↔ ∃ k, (1 ≤ k ≤ length members)%nat ∧ c = planned T k.
Proof.
  unfold validate_committed_prefix. rewrite bind_Ok. split.
  - intros ([] & Hc%validate_create_snapshot_Ok & H%fail_if_Ok). guards.
    exists (length (ss_members c)). match goal with X : (_ <? _)%nat = false |- _ => apply Nat.ltb_ge in X end.
    split.
    + split; [|done]. pose proof (creatable_nonempty c Hc). destruct (ss_members c); [done|]. simpl. lia.
    + unfold planned. destruct c as [e p l q]. cbn in *. congruence.
  - intros (k & Hk & ->). exists tt. split; [by apply validate_create_snapshot_Ok, planned_creatable|].
    rewrite planned_members by apply Hk. cbn [planned ss_epoch ss_primary_id ss_members ss_write_quorum].
    rewrite !bool_decide_eq_true_2, !Z.eqb_refl, (proj2 (Nat.ltb_ge _ _)) by (done || apply Hk). done.
Qed.

(** A committed planned and the next member, in order. *)
Lemma planned_snoc k m : members !! k = Some m →
  sort_by_key srs_id (take k members ++ [m]) = take (S k) members.
Proof.
  intros Hk. rewrite <-(take_S_r _ _ _ Hk). apply sort_by_id.
  pose proof (pl_sorted T HT) as Hs.
  rewrite <-(take_drop (S k) members), fmap_app in Hs. apply StronglySorted_app_1_l in Hs.
  clear -Hs. induction (take (S k) members) as [|x l IH]; [constructor|].
  rewrite fmap_cons in Hs. apply StronglySorted_inv in Hs as [Hs Hx]. constructor; [by apply IH|].
  rewrite Forall_fmap in Hx. eapply Forall_impl; [exact Hx|]. intros y Hy. unfold key_le. cbn in Hy. lia.
Qed.

Lemma planned_has k m i : members !! i = Some m → existsb (λ x, srs_id x =? srs_id m) (take k members) = bool_decide (i < k)%nat.
Proof.
  intros Hi. apply eq_true_iff_eq. rewrite existsb_exists, bool_decide_eq_true. split.
  - intros (x & (j & Hj & Hjk)%list_elem_of_In%elem_of_take & He%Z.eqb_eq). by rewrite (plan_position i j m x).
  - intros Hlt. exists m. split; [|apply Z.eqb_refl]. apply list_elem_of_In, elem_of_take. by exists i.
Qed.
End plan.

(** ** Checkpoints that pass the checks *)

Definition committed_count (op : DurableOperationStatus) : nat :=
  match op_committed_snapshot op with Some s => length (ss_members s) | None => 0 end.

(** What is committed is the first [k] members of the target. *)
Definition committed_first (op : DurableOperationStatus) (k : nat) : Prop :=
  match op_committed_snapshot op with
  | None => k = 0%nat
  | Some s => (1 ≤ k ≤ length (ss_members (op_target_snapshot op)))%nat ∧ s = planned (op_target_snapshot op) k
  end.

Record valid_creation (op : DurableOperationStatus) : Prop := mkValidCreation {
  vc_version : op_version op = DURABLE_OPERATION_VERSION;
  vc_kind : op_kind op = OpCreatePartition;
  vc_previous : op_previous_snapshot op = None;
  vc_plan : plan (op_target_snapshot op);
  vc_old : op_old_primary_id op = ss_primary_id (op_target_snapshot op);
  vc_primary : op_target_primary_id op = ss_primary_id (op_target_snapshot op);
  vc_minimum : ∃ n, op_minimum_committed_replicas op = Some n ∧ n ≠ 0 ∧ n ≤ Z.of_nat (length (ss_members (op_target_snapshot op)));
  vc_committed : ∃ k, committed_first op k;
  vc_compensation : is_compensation_phase (op_phase op) = true →
    ∀ id, op_target_replica_id op = Some id → is_committed_member op id = false;
  vc_target : ∃ id inst pod, op_target_replica_id op = Some id ∧ op_target_instance_id op = Some inst ∧
    op_target_pod_name op = Some pod ∧ inst ≠ "" ∧ pod ≠ "";
}.

Lemma filled_is_Some o s : filled o = Some s ↔ o = Some s ∧ s ≠ "".
Proof.
  destruct o as [t|]; [|naive_solver]. unfold filled, empty. case_bool_decide; [naive_solver|]. split; [|naive_solver].
  by intros [= <-].
Qed.

Lemma ids_increase_sorted l : ids_increase l = true ↔ StronglySorted Z.lt (srs_id <$> l).
Proof.
  induction l as [|x l IH]; [by split; [constructor|]|]. destruct l as [|y l].
  { split; [|done]. intros _. repeat constructor. }
  cbn [ids_increase]. rewrite fmap_cons, andb_true_iff, IH, Z.ltb_lt. split.
  - intros [Hxy Hs]. constructor; [done|]. rewrite fmap_cons in *. apply StronglySorted_inv in Hs as [_ Hy].
    constructor; [done|]. eapply Forall_impl; [exact Hy|]. intros z Hz. cbn in Hz. lia.
  - intros [Hs Hx]%StronglySorted_inv. rewrite fmap_cons in Hx. by apply Forall_cons in Hx as [? _].
Qed.

Lemma ensure_uncommitted_Ok op id : op_target_replica_id op = Some id →
  ensure_compensation_target_uncommitted op = Ok tt ↔ is_committed_member op id = false.
Proof. intros Hid. unfold ensure_compensation_target_uncommitted, create_target_replica_id. rewrite Hid. apply fail_if_Ok. Qed.

Lemma validate_create_Ok op : validate_create_operation op = Ok tt ↔ valid_creation op.
Proof.
  unfold validate_create_operation. split.
  - intros ([] & H1%fail_if_Ok & ([] & H2%fail_if_Ok & ([] & H3%fail_if_Ok & H)%bind_Ok)%bind_Ok)%bind_Ok.
    apply bind_Ok in H as ([] & Hc%validate_create_snapshot_Ok & (h & Hh%index_list_Ok & H)%bind_Ok).
    apply bind_Ok in H as ([] & H4%fail_if_Ok & ([] & H5%fail_if_Ok & (n & Hn%or_fail_Ok & H)%bind_Ok)%bind_Ok).
    apply bind_Ok in H as ([] & H6%fail_if_Ok & ([] & H7 & H)%bind_Ok).
    apply bind_Ok in H as ([] & H8 & (id & Hid%or_fail_Ok & (inst & Hinst%or_fail_Ok & (pod & Hpod%or_fail_Ok & _)%bind_Ok)%bind_Ok)%bind_Ok).
    guards. apply filled_is_Some in Hinst as [Hinst Hi0], Hpod as [Hpod Hp0].
    assert (plan (op_target_snapshot op)) as HT.
    { split; [done|by apply ids_increase_sorted|]. exists h. split; [done|]. congruence. }
    split; try done; try lia.
    + destruct (op_previous_snapshot op); done.
    + exists n. split; [done|]. match goal with X : (n =? 0) = false |- _ => apply Z.eqb_neq in X end. lia.
    + unfold committed_first. destruct (op_committed_snapshot op) as [s|]; [|by exists 0%nat].
      apply (validate_prefix_Ok _ HT) in H7 as (k & Hk & ->). by exists k.
    + intros Hph id' Hid'. rewrite Hph in H8. by apply (ensure_uncommitted_Ok op id' Hid') in H8.
    + by exists id, inst, pod.
  - intros [Hv Hk Hp HT Ho Hpr (n & Hn & Hn0 & Hnl) (k & Hc) Hcp (id & inst & pod & Hid & Hinst & Hpod & Hi0 & Hp0)].
    rewrite Hv, Hk, Hp, Ho, Hpr, Hn, Z.eqb_refl. cbn [none negb fail_if].
    rewrite (proj2 (validate_create_snapshot_Ok _) (pl_valid _ HT)). destruct (pl_head _ HT) as (h & Hh & Hhid).
    unfold index_list. change (Z.to_nat 0) with 0%nat. rewrite Hh. cbn. rewrite Hhid, Z.eqb_refl. cbn.
    rewrite (proj2 (ids_increase_sorted _) (pl_sorted _ HT)). cbn.
    rewrite (proj2 (Z.eqb_neq _ _) Hn0), (proj2 (Z.ltb_ge _ _) Hnl). cbn.
    assert (match op_committed_snapshot op with Some c => validate_committed_prefix c (op_target_snapshot op) | None => Ok tt end = Ok tt) as ->.
    { unfold committed_first in Hc. destruct (op_committed_snapshot op) as [s|]; [|done]. apply validate_prefix_Ok; [done|]. by exists k. }
    assert ((if is_compensation_phase (op_phase op) then ensure_compensation_target_uncommitted op else Ok tt) = Ok tt) as ->.
    { destruct (is_compensation_phase (op_phase op)); [|done]. apply (ensure_uncommitted_Ok op id Hid). by apply Hcp. }
    unfold create_target_replica_id, create_target_instance_id, create_target_pod_name. rewrite Hid, Hinst, Hpod.
    rewrite !filled_Some by done. done.
Qed.

(** ** The candidate *)

(** The current target is the plan's member at [i]. *)
Definition target_at (op : DurableOperationStatus) (i : nat) (m : StableReplicaSnapshotStatus) : Prop :=
  ss_members (op_target_snapshot op) !! i = Some m ∧ op_target_replica_id op = Some (srs_id m) ∧
  op_target_instance_id op = Some (srs_instance_id m).

Section candidate.
  Context (op : DurableOperationStatus) (k : nat).
  Context (HT : plan (op_target_snapshot op)) (Hk : committed_first op k).
Let T := op_target_snapshot op.

Lemma committed_bound : (k ≤ length (ss_members T))%nat.
Proof. unfold committed_first in Hk. destruct (op_committed_snapshot op); [by destruct Hk as [[_ ?] _]|lia]. Qed.

Lemma committed_some : (1 ≤ k)%nat → op_committed_snapshot op = Some (planned T k).
Proof. unfold committed_first in Hk. destruct (op_committed_snapshot op); [by destruct Hk as [_ ->]|lia]. Qed.

Lemma committed_none : op_committed_snapshot op = None ↔ k = 0%nat.
Proof. unfold committed_first in Hk. destruct (op_committed_snapshot op); [|done]. split; [done|lia]. Qed.

Lemma committed_id i m : ss_members T !! i = Some m → is_committed_member op (srs_id m) = bool_decide (i < k)%nat.
Proof.
  intros Hi. unfold is_committed_member, committed_first in *. destruct (op_committed_snapshot op) as [s|].
  - destruct Hk as [_ ->]. by apply planned_has.
  - subst k. by rewrite bool_decide_eq_false_2 by lia.
Qed.

Lemma attempted_at m : (1 ≤ k)%nat → target_at op k m → attempted_snapshot op = Ok (planned T (S k)).
Proof.
  intros H1 (Hm & Hid & _). unfold attempted_snapshot, create_committed_snapshot, create_target_replica_id.
  rewrite Hid, (committed_some H1). cbn [or_fail ok_or mbind result_bind]. fold T in Hm |- *.
  rewrite (plan_find T HT k m Hm). cbn [or_fail ok_or mbind result_bind].
  assert (existsb (λ member, srs_id member =? srs_id m) (ss_members (planned T k)) = false) as ->.
  { cbn [planned ss_members]. rewrite (planned_has T HT k m k Hm). by rewrite bool_decide_eq_false_2 by lia. }
  f_equal. unfold planned at 2. cbn [planned ss_members]. rewrite (planned_snoc T HT k m Hm).
  apply lookup_lt_Some in Hm. unfold over, planned. cbn. rewrite length_take. do 2 f_equal. lia.
Qed.
End candidate.

(** ** What a step must show *)

(** The primary, at the epoch, with [s] as its configuration. *)
Definition shows (s : StablePartitionSnapshotStatus) (mode : ReplicaConfigurationMode) (status : ReplicaStatusInfo) : Prop :=
  si_role status = Primary ∧ si_epoch status = to_epoch (ss_epoch s) ∧
  si_configuration status = Some (configuration_status_for_snapshot s mode).

(** The live state that makes a step done without a report of it; [s] is the
    topology with the candidate. *)
Definition reached (s : StablePartitionSnapshotStatus) (kind : Action.DurableActionKind) (status : ReplicaStatusInfo) : Prop :=
  let at_epoch role := si_role status = role ∧ si_epoch status = to_epoch (ss_epoch s) in
  match kind with
  | Action.CreateOpenPrimary | Action.CreateOpenSecondary => si_healthy status = true ∧ si_role status = Unknown
  | Action.CreatePromotePrimary => si_healthy status = true ∧ at_epoch Primary
  | Action.CreateUpdateSecondaryEpoch => si_healthy status = true ∧ at_epoch Unknown
  | Action.CreateAssignSecondaryIdle => at_epoch IdleSecondary
  | Action.CreateAssignSecondaryActive => at_epoch ActiveSecondary
  | Action.CreateCatchUpConfiguration => shows s CatchUp status
  | Action.CreatePrimaryCurrentConfiguration | Action.CreateCurrentConfiguration => shows s Current status
  | _ => False
  end.

(** The steps that bring up the primary, and a secondary. *)
Definition primary_steps : list Action.DurableActionKind :=
  [Action.CreateOpenPrimary; Action.CreatePromotePrimary; Action.CreatePrimaryCurrentConfiguration].
Definition secondary_steps : list Action.DurableActionKind :=
  [Action.CreateOpenSecondary; Action.CreateUpdateSecondaryEpoch; Action.CreateAssignSecondaryIdle;
   Action.CreateBuildSecondary; Action.CreateAssignSecondaryActive; Action.CreateCatchUpConfiguration;
   Action.CreateWaitForCatchUpQuorum; Action.CreateCurrentConfiguration].
Definition steps_of (i : nat) : list Action.DurableActionKind := match i with O => primary_steps | S _ => secondary_steps end.

(** How many of them are done in a phase. *)
Definition steps_done (phase : Phase.DurableOperationPhase) : option nat :=
  match phase with
  | Phase.CreateOpenPrimary | Phase.CreateOpenSecondary => Some 0%nat
  | Phase.CreatePromotePrimary | Phase.CreateUpdateSecondaryEpoch => Some 1%nat
  | Phase.CreatePrimaryCurrentConfiguration | Phase.CreateAssignSecondaryIdle => Some 2%nat
  | Phase.CreateCommitPrimary | Phase.CreateBuildSecondary => Some 3%nat
  | Phase.CreateAssignSecondaryActive => Some 4%nat
  | Phase.CreateCatchUpConfiguration => Some 5%nat
  | Phase.CreateWaitForCatchUpQuorum => Some 6%nat
  | Phase.CreateCurrentConfiguration => Some 7%nat
  | Phase.CreateCommitSecondary => Some 8%nat
  | _ => None
  end.

Definition brings_up_primary (phase : Phase.DurableOperationPhase) : bool :=
  match phase with
  | Phase.CreateOpenPrimary | Phase.CreatePromotePrimary | Phase.CreatePrimaryCurrentConfiguration
  | Phase.CreateCommitPrimary => true
  | _ => false
  end.

(** The primary is asked, not the candidate. *)
Definition asks_primary (kind : Action.DurableActionKind) : bool :=
  match kind with
  | Action.CreateBuildSecondary | Action.CreateCatchUpConfiguration | Action.CreateWaitForCatchUpQuorum
  | Action.CreateCurrentConfiguration | Action.CreatePrimaryCurrentConfiguration
  | Action.CreateCompensateRestoreConfiguration | Action.CreateCompensateRemoveCandidate => true
  | _ => false
  end.

Definition routing_action (kind : Action.DurableActionKind) : bool :=
  match kind with
  | Action.CreateFencePod | Action.CreatePublishPrimary | Action.CreatePublishSecondary => true
  | _ => false
  end.

Section observed.
  Context {Ends : Endpoints} {Codec : PayloadCodec}.

(** The replica reports the pending action, as it was sent, completed. *)
Definition reported (op : DurableOperationStatus) (pa : PendingActionStatus) (obs : OperationObservations)
    (status : ReplicaStatusInfo) : Prop :=
  ∃ action a, create_action_for op pa obs = Ok action ∧ pending_action_signature pa action = Ok (do_signature a) ∧
    correlated_action_observation status (pa_action_id pa) = Some a ∧ do_state a = Completed.

Lemma observe_done op pa obs :
  create_observe_action op pa obs = Ok AoPostcondition → is_compensation_action (pa_kind pa) = false →
  ∃ o, obs !! pa_target_id pa = Some o ∧ si_instance_id (ro_status o) = pa_target_instance_id pa ∧
    (create_direct_observation op pa o = Ok AoPostcondition ∨ reported op pa obs (ro_status o)).
Proof.
  unfold create_observe_action. intros H Hc. rewrite bool_decide_eq_false_2 in H by (intros He; by rewrite He in Hc).
  destruct (obs !! pa_target_id pa) as [o|]; [|done]. exists o. split; [done|].
  case_bool_decide as Hi; cbn [negb] in H; [|destruct (pa_kind pa); done]. split; [done|].
  apply bind_Ok in H as (direct & Hd & H). rewrite Hd.
  assert (direct = AoPostcondition ∨ create_recorded_observation op pa obs (ro_status o) direct = Ok AoPostcondition ∧ direct ≠ AoPostcondition) as [->|[Hr Hne]];
    [by destruct direct; auto|by left|]. right. clear H. unfold create_recorded_observation in Hr.
  destruct (create_action_for op pa obs) as [action|[]] eqn:Ha; [|by injection Hr as ->|done].
  apply bind_Ok in Hr as (signature & Hs%lift_Ok & Hr).
  destruct (correlated_action_observation (ro_status o) (pa_action_id pa)) as [a|] eqn:Hco; [|by injection Hr as ->].
  exists action, a. split; [done|]. destruct (bool_decide (do_signature a = signature)) eqn:Hsig; cbn [negb] in Hr; [|done]. guards. subst signature.
  split; [done|]. split; [done|]. by destruct (do_state a).
Qed.

Lemma configuration_post status expected precondition epoch :
  create_configuration_observation status expected precondition epoch = AoPostcondition →
  si_role status = Primary ∧ si_epoch status = epoch ∧ si_configuration status = Some expected.
Proof.
  unfold create_configuration_observation. destruct (negb _ || negb _) eqn:H; [done|]. guards.
  repeat case_bool_decide; done.
Qed.

(** For a step of the candidate at [k], the direct verdict is [reached]. *)
Lemma direct_reached op k m pa o :
  plan (op_target_snapshot op) → committed_first op k → target_at op k m → pa_kind pa ∈ steps_of k →
  create_direct_observation op pa o = Ok AoPostcondition →
  reached (planned (op_target_snapshot op) (S k)) (pa_kind pa) (ro_status o).
Proof.
  intros HT Hk Hm Hin. unfold create_direct_observation, create_committed_snapshot, reached, healthy_at, role_at, create_target_epoch.
  destruct k as [|k].
  - cbn [steps_of] in Hin. unfold primary_steps in Hin. rewrite !elem_of_cons in Hin.
    rewrite (snapshot_prefix_Ok _ HT). cbn [mbind result_bind].
    destruct Hin as [->|[->|[->|[]%elem_of_nil]]]; intros [= H].
    + destruct (si_healthy _ && _) eqn:Hg; [apply andb_true_iff in Hg as [? ?]; by guards|]. by case_match.
    + destruct (si_healthy _ && _ && _) eqn:Hg; [|by case_match].
      apply andb_true_iff in Hg as [[? ?]%andb_true_iff ?]. guards. done.
    + by apply configuration_post in H.
  - rewrite (attempted_at op (S k) HT Hk m) by (done || lia). rewrite (committed_some op (S k) Hk) by lia.
    cbn [or_fail ok_or mbind result_bind].
    cbn [steps_of] in Hin. unfold secondary_steps in Hin. rewrite !elem_of_cons in Hin.
    destruct Hin as [->|[->|[->|[->|[->|[->|[->|[->|[]%elem_of_nil]]]]]]]]; intros [= H]; try done.
    + destruct (si_healthy _ && _) eqn:Hg; [apply andb_true_iff in Hg as [? ?]; by guards|]. by case_match.
    + destruct (si_healthy _ && _ && _) eqn:Hg; [|by case_match].
      apply andb_true_iff in Hg as [[? ?]%andb_true_iff ?]. guards. done.
    + destruct (bool_decide _ && _) eqn:Hg; [apply andb_true_iff in Hg as [? ?]; by guards|]. by case_match.
    + destruct (bool_decide _ && _) eqn:Hg; [apply andb_true_iff in Hg as [? ?]; by guards|]. by case_match.
    + by apply configuration_post in H.
    + by apply configuration_post in H.
Qed.
End observed.

(** ** Pending actions *)

(** Whom an action of the checkpoint addresses. *)
Definition create_addressed (op : DurableOperationStatus) (kind : Action.DurableActionKind) (m : StableReplicaSnapshotStatus) : Prop :=
  m ∈ ss_members (op_target_snapshot op) ∧
  if asks_primary kind then srs_id m = ss_primary_id (op_target_snapshot op)
  else if routing_action kind then ss_members (op_target_snapshot op) !! Z.to_nat (op_next_secondary_index op) = Some m
  else op_target_replica_id op = Some (srs_id m).

Lemma create_pending_Ok op sequence kind now pa :
  plan (op_target_snapshot op) →
  create_pending_action op sequence kind now = Ok pa →
  pa_kind pa = kind ∧ pa_action_id pa = op_execution_id op +:+ ":" +:+ pretty sequence +:+ ":" +:+ Action.debug kind ∧
  pa_sequence pa = sequence ∧ pa_dispatch_action_payload pa = "" ∧
  (is_compensation_action kind = true → ∀ id, op_target_replica_id op = Some id → is_committed_member op id = false) ∧
  ∃ m, create_addressed op kind m ∧ pa_target_id pa = srs_id m ∧ pa_target_instance_id pa = srs_instance_id m.
Proof.
  intros HT H. unfold create_pending_action in H. apply bind_Ok in H as ([] & Hc & (id & Hid%or_fail_Ok & (target & Htg & H)%bind_Ok)%bind_Ok).
  apply bind_Ok in H as (m & Hm%or_fail_Ok & (pc & _ & [= <-])%bind_Ok). cbn.
  apply List.find_some in Hm as [Hin%list_elem_of_In He%Z.eqb_eq].
  split; [done|]. split; [done|]. split; [done|]. split; [done|]. split.
  - intros Hk id' Hid'. rewrite Hk in Hc. by apply (ensure_uncommitted_Ok op id' Hid') in Hc.
  - exists m. split; [|done]. split; [done|].
    assert (target = (if asks_primary kind then ss_primary_id (op_target_snapshot op)
              else if routing_action kind then target else id)) as Ht.
    { destruct kind; cbn in Htg |- *; try (by injection Htg as <-); try done. }
    destruct (asks_primary kind); [congruence|]. destruct (routing_action kind) eqn:Hr; [|by rewrite Hid, He, Ht].
    assert (∃ x, ss_members (op_target_snapshot op) !! Z.to_nat (op_next_secondary_index op) = Some x ∧ target = srs_id x) as (x & Hx & Htx).
    { destruct kind; try discriminate; cbn in Htg; apply bind_Ok in Htg as (x & Hx%or_fail_Ok & [= <-]); by exists x. }
    apply list_elem_of_lookup in Hin as [j Hj]. rewrite Hx. f_equal.
    assert (Z.to_nat (op_next_secondary_index op) = j) by (eapply plan_position; [exact HT|exact Hx|exact Hj|congruence]).
    congruence.
Qed.

Lemma validate_create_pending_Ok op pa :
  plan (op_target_snapshot op) →
  validate_create_pending op pa = Ok tt →
  create_action_allowed (op_phase op) (pa_kind pa) = true ∧
  pa_action_id pa = op_execution_id op +:+ ":" +:+ pretty (pa_sequence pa) +:+ ":" +:+ Action.debug (pa_kind pa) ∧
  (is_compensation_action (pa_kind pa) = true → ∀ id, op_target_replica_id op = Some id → is_committed_member op id = false) ∧
  ∃ m, create_addressed op (pa_kind pa) m ∧ pa_target_id pa = srs_id m ∧ pa_target_instance_id pa = srs_instance_id m.
Proof.
  intros HT H. unfold validate_create_pending in H. apply bind_Ok in H as ([] & Ha%fail_if_Ok & (e & He & H%fail_if_Ok)%bind_Ok).
  guards. destruct (create_pending_Ok _ _ _ _ _ HT He) as (Hk & Hi & _ & _ & Hc & m & Hm & Hid & Hinst).
  split; [done|]. split; [congruence|]. split; [done|]. exists m. split; [done|]. split; congruence.
Qed.

(** The actions of a phase, and the phases they lead to. *)
Lemma allowed_cases phase kind : create_action_allowed phase kind = true →
  (phase = Phase.CreateFenceRouting ∧ kind = Action.CreateFencePod) ∨
  (phase = Phase.CreatePublishRouting ∧ (kind = Action.CreatePublishPrimary ∨ kind = Action.CreatePublishSecondary)) ∨
  (is_compensation_phase phase = true ∧ is_compensation_action kind = true ∧ routing_action kind = false ∧
     (kind = Action.CreateCompensateDeleteCandidate → phase = Phase.CreateCompensateDeleteCandidate) ∧
     (∃ next, create_next_phase kind = Ok next ∧ is_compensation_phase next = true ∧
        next ≠ Phase.CreateCompensateRestoreConfiguration) ∧
     ∀ next, unavailable_phase kind = Some next → is_compensation_phase next = true ∧
        next ≠ Phase.CreateCompensateRestoreConfiguration) ∨
  (∃ j, steps_done phase = Some j ∧ is_compensation_phase phase = false ∧ is_compensation_action kind = false ∧
     routing_action kind = false ∧ unavailable_phase kind = None ∧
     (if brings_up_primary phase then primary_steps else secondary_steps) !! j = Some kind ∧
     ∃ next, create_next_phase kind = Ok next ∧ steps_done next = Some (S j) ∧
       brings_up_primary next = brings_up_primary phase ∧ is_compensation_phase next = false).
Proof.
  destruct phase; try discriminate; destruct kind; try discriminate; intros _;
    first [left; done | right; left; split; [done|by left] | right; left; split; [done|by right] | right; right];
    first [left; split; [done|]; split; [done|]; split; [done|]; split; [done|]; split; [by eexists|by intros next [= <-]]
          | right; eexists; do 6 (split; [done|]); by eexists ].
Qed.

Lemma steps_nodup i : NoDup (steps_of i).
Proof. destruct i; cbn [steps_of]; by eapply (bool_decide_unpack _). Qed.
