(* ===== verification/CreateOutcomes.v ===== *)
(** What one reconcile of a creation can decide, from a checkpoint at a stage
    of its plan. *)

From S2P Require Import Prelude Types Lifecycle Control Agent Convert Wire Crd Operation Switchover SwitchoverSteps AddWorkflow AddSteps CreateWorkflow CreateSteps.

Set Default Goal Selector "!".

(** ** Stages *)

(** The candidate is being brought up, or its addition undone. *)
Definition has_candidate (phase : Phase.DurableOperationPhase) : bool :=
  is_compensation_phase phase || match steps_done phase with Some _ => true | None => false end.

(** What a phase says of the [k] committed members and of the candidate. *)
Definition stage_ok (op : DurableOperationStatus) (k : nat) : Prop :=
  let n := length (ss_members (op_target_snapshot op)) in
  if has_candidate (op_phase op) then
    (k < n)%nat ∧ (∃ m, target_at op k m) ∧ (brings_up_primary (op_phase op) = true → k = 0%nat) ∧
    (brings_up_primary (op_phase op) = false → is_compensation_phase (op_phase op) = false ∨
       op_phase op = Phase.CreateCompensateRestoreConfiguration → (1 ≤ k)%nat)
  else match op_phase op with
  | Phase.CreateFenceRouting => ∃ i : nat, op_next_secondary_index op = Z.of_nat i ∧ (i < n)%nat
  | Phase.CreatePublishRouting => k = n ∧ ∃ i : nat, op_next_secondary_index op = Z.of_nat i ∧ (i < n)%nat
  | Phase.CreateFinalize | Phase.Completed => k = n
  | Phase.Failed | Phase.Poisoned => True
  | _ => False
  end.

Definition terminal_phase (phase : Phase.DurableOperationPhase) : bool :=
  match phase with Phase.Completed | Phase.Failed | Phase.Poisoned => true | _ => false end.

(** A step leaves the plan, and, but where it moves on, the committed members
    and the candidate. *)
Record keeps (op next : DurableOperationStatus) : Prop := mkKeeps {
  kp_target : op_target_snapshot next = op_target_snapshot op;
  kp_version : op_version next = op_version op;
  kp_kind : op_kind next = op_kind op;
  kp_previous : op_previous_snapshot next = op_previous_snapshot op;
  kp_old : op_old_primary_id next = op_old_primary_id op;
  kp_primary : op_target_primary_id next = op_target_primary_id op;
  kp_minimum : op_minimum_committed_replicas next = op_minimum_committed_replicas op;
}.

Record stays (op next : DurableOperationStatus) : Prop := mkStays {
  sy_keeps : keeps op next;
  sy_committed : op_committed_snapshot next = op_committed_snapshot op;
  sy_id : op_target_replica_id next = op_target_replica_id op;
  sy_instance : op_target_instance_id next = op_target_instance_id op;
  sy_pod : op_target_pod_name next = op_target_pod_name op;
}.

Lemma keeps_trans op1 op2 op3 : keeps op1 op2 → keeps op2 op3 → keeps op1 op3.
Proof. intros [] []. constructor; congruence. Qed.
Lemma stays_refl op : stays op op.
Proof. by repeat constructor. Qed.
Lemma stays_trans op1 op2 op3 : stays op1 op2 → stays op2 op3 → stays op1 op3.
Proof. intros [H1] [H2]. constructor; try congruence. by eapply keeps_trans. Qed.

Lemma step_done_stays op now : stays op (step_done op now) ∧ op_phase (step_done op now) = op_phase op ∧
  op_next_secondary_index (step_done op now) = op_next_secondary_index op ∧ op_pending_action (step_done op now) = None.
Proof. by destruct op. Qed.

Lemma create_move_stays op phase i : stays op (create_move op phase i) ∧ op_phase (create_move op phase i) = phase ∧
  op_next_secondary_index (create_move op phase i) = as_u32 i ∧
  op_pending_action (create_move op phase i) = op_pending_action op.
Proof. by destruct op. Qed.

Lemma set_current_target_Ok op m obs next :
  set_current_target op m obs = Ok next →
  keeps op next ∧ op_committed_snapshot next = op_committed_snapshot op ∧ op_phase next = op_phase op ∧
  op_next_secondary_index next = op_next_secondary_index op ∧ op_pending_action next = op_pending_action op ∧
  op_target_replica_id next = Some (srs_id m) ∧ op_target_instance_id next = Some (srs_instance_id m) ∧
  ∃ o, obs !! srs_id m = Some o ∧ op_target_pod_name next = Some (ro_pod_name o).
Proof.
  unfold set_current_target. intros (o & Ho%or_fail_Ok & [= <-])%bind_Ok. destruct op. cbn.
  do 7 (split; [done|]). by exists o.
Qed.

Definition publish_kind (T : StablePartitionSnapshotStatus) (m : StableReplicaSnapshotStatus) : Action.DurableActionKind :=
  if srs_id m =? ss_primary_id T then Action.CreatePublishPrimary else Action.CreatePublishSecondary.
Definition published_label (T : StablePartitionSnapshotStatus) (m : StableReplicaSnapshotStatus) : string :=
  if srs_id m =? ss_primary_id T then "primary" else "secondary".

(** The label to publish is that of the member at the index. *)
Definition publishes (op : DurableOperationStatus) : Prop :=
  ∀ pa, op_pending_action op = Some pa → op_phase op = Phase.CreatePublishRouting →
    ∃ m, ss_members (op_target_snapshot op) !! Z.to_nat (op_next_secondary_index op) = Some m ∧
      pa_kind pa = publish_kind (op_target_snapshot op) m.

Section outcomes.
  Context {Ends : Endpoints} {Codec : PayloadCodec}.

(** ** Evidence *)

(** A step of bringing up [m] as the last member of [s] was seen done: the
    replica asked, in its planned incarnation, shows it or reports it. *)
Definition shown_done (op : DurableOperationStatus) (obs : OperationObservations) (s : StablePartitionSnapshotStatus)
    (m : StableReplicaSnapshotStatus) (kind : Action.DurableActionKind) : Prop :=
  ∃ pa o x, op_pending_action op = Some pa ∧ pa_kind pa = kind ∧
    x ∈ ss_members s ∧ srs_id x = (if asks_primary kind then ss_primary_id s else srs_id m) ∧
    obs !! srs_id x = Some o ∧ si_instance_id (ro_status o) = srs_instance_id x ∧
    (reached s kind (ro_status o) ∨ reported op pa obs (ro_status o)).

(** The planned primary has [s] as its current configuration. *)
Definition shown_current (obs : OperationObservations) (s : StablePartitionSnapshotStatus) : Prop :=
  ∃ o x, x ∈ ss_members s ∧ srs_id x = ss_primary_id s ∧ obs !! srs_id x = Some o ∧
    si_instance_id (ro_status o) = srs_instance_id x ∧
    si_configuration (ro_status o) = Some (configuration_status_for_snapshot s Current).

(** A pod carries a label. *)
Definition shown_label (obs : OperationObservations) (m : StableReplicaSnapshotStatus) (label : string) : Prop :=
  ∃ o, obs !! srs_id m = Some o ∧ si_instance_id (ro_status o) = srs_instance_id m ∧ ro_pod_role_label o = Some label.

(** Every member was seen in its role, incarnation and label at the epoch, the
    primary with the whole topology as its current configuration. *)
Record attested_creation (obs : OperationObservations) (T : StablePartitionSnapshotStatus) : Prop := mkAttestedCreation {
  ac_members : ∀ m, m ∈ ss_members T → ∃ o, obs !! srs_id m = Some o ∧
    si_instance_id (ro_status o) = srs_instance_id m ∧
    si_role (ro_status o) = (if srs_id m =? ss_primary_id T then Primary else ActiveSecondary) ∧
    si_epoch (ro_status o) = to_epoch (ss_epoch T) ∧ ro_pod_role_label o = Some (published_label T m);
  ac_primary : shown_current obs T;
}.

(** ** Outcomes *)

Context (op : DurableOperationStatus) (obs : OperationObservations) (pods : gmap Z string) (now : Z) (k : nat).
Abbreviation T := (op_target_snapshot op).
Abbreviation members := (ss_members (op_target_snapshot op)).

(** Where fencing resumes, and where a commit goes on. *)
Definition resume_phase (committed : nat) : Phase.DurableOperationPhase :=
  if (committed =? 0)%nat then Phase.CreateOpenPrimary
  else if (committed =? length members)%nat then Phase.CreatePublishRouting else Phase.CreateOpenSecondary.
Definition resume_member (committed : nat) : nat := if (committed =? length members)%nat then 0%nat else committed.

Inductive create_step (next : DurableOperationStatus) : Prop :=
| cs_poisoned :
    stays op next → op_next_secondary_index next = op_next_secondary_index op → op_phase next = Phase.Poisoned → create_step next
| cs_failed :
    terminal_phase (op_phase op) = false → stays op next → op_next_secondary_index next = op_next_secondary_index op → op_pending_action next = None →
    op_phase next = failure_phase (op_phase op) (none (op_committed_snapshot op)) → create_step next
| cs_scheduled :
    stays op next → op_next_secondary_index next = op_next_secondary_index op → op_phase next = op_phase op →
    publishes next → create_step next
| cs_fenced i m :
    op_phase op = Phase.CreateFenceRouting → op_next_secondary_index op = Z.of_nat i →
    members !! i = Some m → shown_label obs m "bootstrap" → (S i < length members)%nat →
    stays op next → op_phase next = Phase.CreateFenceRouting → op_next_secondary_index next = Z.of_nat (S i) →
    op_pending_action next = None → create_step next
| cs_resumed i m t :
    op_phase op = Phase.CreateFenceRouting → op_next_secondary_index op = Z.of_nat i →
    members !! i = Some m → shown_label obs m "bootstrap" → S i = length members →
    keeps op next → op_committed_snapshot next = op_committed_snapshot op →
    op_phase next = resume_phase k → target_at next (resume_member k) t →
    (k = length members → op_next_secondary_index next = 0) → op_pending_action next = None → create_step next
| cs_step j kind m :
    steps_done (op_phase op) = Some j → steps_of k !! j = Some kind → target_at op k m →
    shown_done op obs (planned T (S k)) m kind →
    stays op next → op_next_secondary_index next = op_next_secondary_index op → op_pending_action next = None →
    steps_done (op_phase next) = Some (S j) → brings_up_primary (op_phase next) = brings_up_primary (op_phase op) →
    is_compensation_phase (op_phase next) = false → create_step next
| cs_retreat :
    is_compensation_phase (op_phase op) = true → is_compensation_phase (op_phase next) = true →
    op_phase next ≠ Phase.CreateCompensateRestoreConfiguration →
    stays op next → op_pending_action next = None → create_step next
| cs_published i m :
    op_phase op = Phase.CreatePublishRouting → op_next_secondary_index op = Z.of_nat i →
    members !! i = Some m → shown_label obs m (published_label T m) →
    stays op next → op_pending_action next = None →
    (if (S i =? length members)%nat then op_phase next = Phase.CreateFinalize
     else op_phase next = Phase.CreatePublishRouting ∧ op_next_secondary_index next = Z.of_nat (S i)) → create_step next
| cs_commit m t :
    steps_done (op_phase op) = Some (length (steps_of k)) → target_at op k m →
    shown_current obs (planned T (S k)) → keeps op next → op_committed_snapshot next = Some (planned T (S k)) →
    op_phase next = resume_phase (S k) → target_at next (resume_member (S k)) t →
    (S k = length members → op_next_secondary_index next = 0) → op_pending_action next = None → create_step next.

Inductive create_outcome : result failure Decision → Prop :=
| co_wait : create_outcome (Ok Wait)
| co_error e : create_outcome (Err (Error e))
| co_persist next : create_step next → create_outcome (Ok (Persist next))
| co_fence m :
    op_phase op = Phase.CreateFenceRouting → m ∈ members → create_outcome (Ok (PatchPodRole (srs_id m) "bootstrap"))
| co_publish m :
    op_phase op = Phase.CreatePublishRouting → m ∈ members →
    create_outcome (Ok (PatchPodRole (srs_id m) (published_label T m)))
| co_execute pa m action :
    op_pending_action op = Some pa → create_action_allowed (op_phase op) (pa_kind pa) = true →
    create_addressed op (pa_kind pa) m → create_action_for op pa obs = Ok action →
    create_outcome (Ok (Execute (srs_id m) (pa_action_id pa) action))
| co_delete m name :
    op_phase op = Phase.CreateCompensateDeleteCandidate → target_at op k m → op_target_pod_name op = Some name →
    create_outcome (Ok (DeletePod name (srs_instance_id m)))
| co_lost next :
    op_phase op = Phase.CreateFenceRouting → (k < length members)%nat → stays op next → op_phase next = Phase.Failed →
    create_outcome (Ok (RestartCreation next))
| co_lost_next next m :
    steps_done (op_phase op) = Some (length (steps_of k)) → target_at op k m →
    shown_current obs (planned T (S k)) → keeps op next → op_committed_snapshot next = Some (planned T (S k)) →
    op_phase next = Phase.Failed → create_outcome (Ok (RestartCreation next))
| co_undone next :
    op_phase op = Phase.CreateCompensateFinalize → stays op next → op_phase next = Phase.Failed →
    create_outcome (Ok (RestartCreation next))
| co_complete next :
    op_phase op = Phase.CreateFinalize → k = length members → attested_creation obs T →
    stays op next → op_phase next = Phase.Completed → create_outcome (Ok (Complete next T false)).

(** ** The parts of a decision *)

Context (Hv : valid_creation op) (Hk : committed_first op k) (Hst : stage_ok op k) (Hpub : publishes op).
Context (Hsize : Z.of_nat (length members) ≤ u32_max).

Lemma outcome_of r : panics r = false → (∀ d, r = Ok d → create_outcome (Ok d)) → create_outcome r.
Proof. destruct r as [d|[e|m]]; simpl; intros Hp Hd; [by apply Hd|constructor|done]. Qed.

Lemma outcome_poison m : create_outcome (Ok (Persist (poison op m))).
Proof. apply co_persist, cs_poisoned; [|by destruct op..]. by destruct op. Qed.

Lemma outcome_failure op' e :
  terminal_phase (op_phase op) = false → stays op op' → op_next_secondary_index op' = op_next_secondary_index op → op_phase op' = op_phase op →
  create_outcome (Ok (failure_decision op' e now)).
Proof.
  intros Hnt Hs Hi Hp. unfold failure_decision. apply co_persist, cs_failed; [done|..].
  - eapply stays_trans; [exact Hs|]. by destruct op'.
  - rewrite <-Hi. by destruct op'.
  - by destruct op'.
  - rewrite <-Hp, <-(sy_committed _ _ Hs). by destruct op'.
Qed.

Lemma panics_create_pending sequence kind at_ : panics (create_pending_action op sequence kind at_) = false.
Proof.
  unfold create_pending_action, ensure_compensation_target_uncommitted, create_target_replica_id.
  apply panics_bind; [destruct (is_compensation_action kind); quiet|]. intros _ _. apply panics_bind; [quiet|]. intros id _.
  apply panics_bind; [unfold runtime_target_id; destruct kind; quiet|]. intros target _.
  apply panics_bind; [quiet|]. intros m _. apply panics_bind; [destruct kind; done|done].
Qed.

Lemma outcome_schedule sequence kind :
  (op_phase op = Phase.CreatePublishRouting → ∃ m, members !! Z.to_nat (op_next_secondary_index op) = Some m ∧ kind = publish_kind T m) →
  create_outcome (create_schedule op sequence kind now).
Proof.
  intros Hp. apply outcome_of.
  - unfold create_schedule. apply panics_bind; [apply panics_create_pending|done].
  - intros d (pa & Hpa & [= <-])%bind_Ok. apply (create_pending_Ok _ _ _ _ _ (vc_plan _ Hv)) in Hpa as (Hkind & _).
    apply co_persist, cs_scheduled; [by destruct op|by destruct op|by destruct op|].
    intros pa' Hpa' Hph. assert (pa' = pa) as -> by (destruct op; cbn in Hpa'; congruence).
    destruct Hp as (m & Hm & ->); [by destruct op|]. exists m. split; [by destruct op|]. by destruct op.
Qed.

Lemma outcome_secondary offset kind :
  op_phase op ≠ Phase.CreatePublishRouting → create_outcome (schedule_secondary op offset kind now).
Proof.
  intros Hp. unfold schedule_secondary, secondary_sequence. destruct (none (op_committed_snapshot op)); [apply co_error|].
  cbn [fail_if reject_if mbind result_bind]. by apply outcome_schedule.
Qed.

(** The members at the positions the advances go to. *)
Lemma members_at i : (i < length members)%nat → ∃ m, members !! i = Some m.
Proof. intros Hi. destruct (lookup_lt_is_Some_2 _ _ Hi) as [m Hm]. by exists m. Qed.

Lemma usize_pred_members : usize_pred (length members) = Ok (length members - 1)%nat.
Proof. pose proof (plan_nonempty _ (vc_plan _ Hv)) as Hn. destruct (length members); [lia|]. cbn. f_equal. lia. Qed.

Lemma resume_last j : j = length members → resume_phase j = Phase.CreatePublishRouting ∧ resume_member j = 0%nat.
Proof.
  intros He. pose proof (plan_nonempty _ (vc_plan _ Hv)). unfold resume_phase, resume_member.
  by rewrite (proj2 (Nat.eqb_neq j 0)), (proj2 (Nat.eqb_eq _ _) He) by lia.
Qed.
Lemma resume_next j : j ≠ 0%nat → j ≠ length members → resume_phase j = Phase.CreateOpenSecondary ∧ resume_member j = j.
Proof.
  intros H0 He. unfold resume_phase, resume_member.
  by rewrite (proj2 (Nat.eqb_neq j 0)), (proj2 (Nat.eqb_neq _ _) He) by lia.
Qed.

(** *** Commits *)

Lemma outcome_commit m :
  steps_done (op_phase op) = Some (length (steps_of k)) → target_at op k m → shown_current obs (planned T (S k)) →
  create_outcome (advance_after_commit op (planned T (S k)) obs now).
Proof.
  intros Hph Hm Hshown. pose proof (lookup_lt_Some _ _ _ (proj1 Hm)) as Hlt.
  destruct (step_done_stays op now) as (Hs1 & _ & Hi1 & Hp1).
  unfold advance_after_commit. rewrite planned_members, usize_pred_members by lia. cbn [usize_pred mbind result_bind].
  set (next := (step_done op now) <| op_committed_snapshot := Some (planned T (S k)) |>).
  assert (keeps op next ∧ op_committed_snapshot next = Some (planned T (S k)) ∧ op_pending_action next = None) as (Hkeep & Hc & Hp).
  { split; [|split]; [|by destruct op..]. eapply keeps_trans; [apply Hs1|]. by destruct op. }
  clearbody next.
  assert (∀ phase i t, members !! resume_member (S k) = Some t → phase = resume_phase (S k) → (S k = length members → i = 0%nat) →
    create_outcome (next0 ← set_current_target (create_move next phase i) t obs; Ok (Persist next0))) as Hgo.
  { intros phase i t Ht -> Hi. apply outcome_of.
    - unfold set_current_target. quiet.
    - intros d (fin & Hfin & [= <-])%bind_Ok. destruct (create_move_stays next (resume_phase (S k)) i) as (Hs2 & Hph2 & Hi2 & Hp2).
      destruct (set_current_target_Ok _ _ _ _ Hfin) as (Hk3 & Hc3 & Hph3 & Hi3 & Hp3 & Hid3 & Hinst3 & _).
      pose proof (keeps_trans _ _ _ Hkeep (keeps_trans _ _ _ (sy_keeps _ _ Hs2) Hk3)) as Hkk.
      eapply co_persist, (cs_commit _ m t); [done|done|done|exact Hkk| | | | |].
      + rewrite Hc3, (sy_committed _ _ Hs2). done.
      + congruence.
      + split; [by rewrite (kp_target _ _ Hkk)|done].
      + intros He. rewrite Hi3, Hi2, (Hi He). done.
      + congruence. }
  destruct (Nat.eqb_spec k (length members - 1)) as [He|He].
  - assert (S k = length members) as He2 by lia.
    destruct (ss_members (op_target_snapshot op) !! 0%nat) as [t|] eqn:Ht; [|by apply co_error]. cbn [or_fail ok_or mbind result_bind].
    destruct (resume_last (S k) He2) as [Hrp Hrm]. apply Hgo; [by rewrite Hrm|done|done].
  - assert (S k ≠ length members) as He2 by lia. rewrite Nat.add_1_r.
    destruct (members_at (S k)) as [t Ht]; [lia|]. rewrite Ht. cbn [or_fail ok_or mbind result_bind].
    destruct (resume_next (S k)) as [Hrp Hrm]; [done|done|].
    destruct (match obs !! srs_id t with Some o => _ | None => false end).
    + eapply co_lost_next; [done|exact Hm|done| | |].
      * eapply keeps_trans; [exact Hkeep|]. by destruct next.
      * rewrite <-Hc. by destruct next.
      * by destruct next.
    + apply Hgo; [by rewrite Hrm|done|]. intros. lia.
Qed.

(** *** Fences *)

Lemma outcome_resumed i m :
  op_phase op = Phase.CreateFenceRouting → op_next_secondary_index op = Z.of_nat i → members !! i = Some m →
  shown_label obs m "bootstrap" → S i = length members →
  create_outcome (next ← advance_after_fencing (step_done op now) obs; Ok (Persist next)).
Proof.
  intros Hph Hi Hm Hlab Hlast. destruct (step_done_stays op now) as (Hs1 & _ & _ & Hp1).
  set (next := step_done op now) in *. clearbody next.
  assert (∀ t j, members !! resume_member k = Some t → (k = length members → j = 0%nat) →
    create_outcome (next0 ← set_current_target (create_move next (resume_phase k) j) t obs; Ok (Persist next0))) as Hgo.
  { intros t j Ht Hj. apply outcome_of; [unfold set_current_target; quiet|].
    intros d (fin & Hfin & [= <-])%bind_Ok. destruct (create_move_stays next (resume_phase k) j) as (Hs2 & Hph2 & Hi2 & Hp2).
    destruct (set_current_target_Ok _ _ _ _ Hfin) as (Hk3 & Hc3 & Hph3 & Hi3 & Hp3 & Hid3 & Hinst3 & _).
    pose proof (keeps_trans _ _ _ (sy_keeps _ _ Hs1) (keeps_trans _ _ _ (sy_keeps _ _ Hs2) Hk3)) as Hkk.
    eapply co_persist, (cs_resumed _ i m t); [done|done|done|done|done|exact Hkk| | | | |].
    - rewrite Hc3, (sy_committed _ _ Hs2). apply Hs1.
    - congruence.
    - split; [by rewrite (kp_target _ _ Hkk)|done].
    - intros He. rewrite Hi3, Hi2, (Hj He). done.
    - congruence. }
  unfold advance_after_fencing. rewrite (kp_target _ _ (sy_keeps _ _ Hs1)), (sy_committed _ _ Hs1).
  pose proof (plan_nonempty _ (vc_plan _ Hv)) as Hn. destruct (members_at 0 Hn) as [h Hh].
  unfold index_list. change (Z.to_nat 0) with 0%nat. rewrite Hh. cbn [or_fail ok_or mbind result_bind].
  pose proof (committed_bound _ _ Hk) as Hb. pose proof Hk as Hk'. unfold committed_first in Hk'.
  destruct (op_committed_snapshot op) as [s|] eqn:Hc.
  - destruct Hk' as [Hkb ->]. rewrite planned_members, usize_pred_members by lia. cbn [mbind result_bind].
    destruct (Nat.eqb_spec (k - 1) (length members - 1)) as [He|He].
    + assert (k = length members) as He2 by lia.
      destruct (resume_last k He2) as [<- Hrm]. apply Hgo; [by rewrite Hrm|done].
    + assert (k ≠ length members) as He2 by lia.
      assert (Z.to_nat (Z.of_nat (k - 1) + 1) = k) as -> by lia. destruct (members_at k) as [t Ht]; [lia|]. rewrite Ht.
      cbn [ok_or mbind result_bind].
      destruct (resume_next k) as [<- Hrm]; [lia|done|]. apply Hgo; [by rewrite Hrm|done].
  - assert (Phase.CreateOpenPrimary = resume_phase k) as -> by (by rewrite Hk').
    apply Hgo; [|done]. unfold resume_member. destruct (Nat.eqb_spec k (length members)); [done|]. by rewrite Hk'.
Qed.

Lemma outcome_fence_lost m e :
  op_phase op = Phase.CreateFenceRouting → m ∈ members →
  create_outcome (Ok (restart_or_poison_fence op (srs_id m) e)).
Proof.
  intros Hph [i Hi]%list_elem_of_lookup. unfold restart_or_poison_fence.
  rewrite (committed_id op k (vc_plan _ Hv) Hk i m Hi). case_bool_decide; [apply outcome_poison|].
  apply co_lost; [done| |by destruct op|by destruct op]. apply lookup_lt_Some in Hi. lia.
Qed.

Lemma outcome_fence pa :
  op_phase op = Phase.CreateFenceRouting → create_outcome (decide_fence_pending op pa obs pods now).
Proof.
  intros Hph. pose proof Hst as Hi. unfold stage_ok in Hi. rewrite Hph in Hi. cbn in Hi. destruct Hi as (i & Hi & Hlt).
  destruct (members_at i Hlt) as [m Hm]. pose proof (list_elem_of_lookup_2 _ _ _ Hm) as Hin.
  unfold decide_fence_pending, fence_member. rewrite Hi, Nat2Z.id, Hm. cbn [or_fail ok_or mbind result_bind].
  destruct (fail_if _ _) as [[]|[e|e]] eqn:Hf; [|apply co_error|].
  2: { unfold fail_if, reject_if in Hf. by case_match. }
  clear Hf. cbn [mbind result_bind]. destruct (obs !! srs_id m) as [o|] eqn:Ho.
  - destruct (bool_decide (si_instance_id (ro_status o) = srs_instance_id m)) eqn:Hinst; cbn [negb]; [|by apply outcome_fence_lost].
    destruct (bool_decide (ro_pod_role_label o = Some "bootstrap")) eqn:Hlab; guards.
    + assert (shown_label obs m "bootstrap") as Hshown by (by exists o).
      destruct (Nat.eqb_spec (S i) (length members)) as [He|He]; [by eapply outcome_resumed|].
      destruct (step_done_stays op now) as (Hs1 & Hph1 & Hi1 & Hp1). set (next := step_done op now) in *. clearbody next.
      eapply co_persist, (cs_fenced _ i m); [done|done|done|done|lia| | | |].
      * eapply stays_trans; [exact Hs1|]. by destruct next.
      * rewrite <-Hph, <-Hph1. by destruct next.
      * cbn. apply as_u32_small. lia.
      * rewrite <-Hp1. by destruct next.
    + destruct (pa_deadline_unix_seconds pa <=? now); [apply outcome_poison|]. by apply co_fence.
  - destruct (pa_deadline_unix_seconds pa <=? now); cbn [negb]; [|apply co_wait].
    destruct (pods !! srs_id m) as [inst|]; [|by apply outcome_fence_lost].
    destruct (bool_decide (inst = _)); cbn [negb]; [apply outcome_poison|by apply outcome_fence_lost].
Qed.

(** *** Actions *)

Lemma planned_member i j m : members !! i = Some m → (i < j)%nat → m ∈ ss_members (planned T j).
Proof. intros Hi Hij. cbn [planned ss_members]. apply elem_of_take. by exists i. Qed.

Lemma panics_attempted : panics (attempted_snapshot op) = false.
Proof. unfold attempted_snapshot, create_committed_snapshot, create_target_replica_id. quiet. Qed.
#[local] Hint Resolve panics_attempted : panics.
Lemma panics_create_config s must id : panics (create_config_for_snapshot s obs must id) = false.
Proof. unfold create_config_for_snapshot. quiet. Qed.
#[local] Hint Resolve panics_create_config : panics.
Lemma panics_create_action pa : panics (create_action_for op pa obs) = false.
Proof.
  unfold create_action_for. rewrite (snapshot_prefix_Ok _ (vc_plan _ Hv)).
  unfold candidate_info, create_committed_snapshot, create_target_replica_id, create_target_instance_id.
  destruct (pa_kind pa); quiet.
Qed.
Lemma panics_create_direct pa o :
  pa_kind pa ≠ Action.CreateCompensateDeleteCandidate → panics (create_direct_observation op pa o) = false.
Proof.
  intros Hne. unfold create_direct_observation. rewrite (snapshot_prefix_Ok _ (vc_plan _ Hv)).
  unfold create_committed_snapshot. destruct (pa_kind pa); quiet.
Qed.
Lemma panics_create_observe pa : panics (create_observe_action op pa obs) = false.
Proof.
  unfold create_observe_action. destruct (bool_decide (pa_kind pa = _)) eqn:Hk'; guards; [done|].
  destruct (obs !! pa_target_id pa) as [o|]; [|done]. destruct (negb _); [done|]. apply panics_bind; [by apply panics_create_direct|].
  intros direct _. assert (panics (create_recorded_observation op pa obs (ro_status o) direct) = false) as Hr; [|by destruct direct].
  unfold create_recorded_observation. pose proof (panics_create_action pa) as Ha.
  destruct (create_action_for op pa obs) as [action|[]]; [|done|done]. apply panics_bind; [apply panics_lift|done].
Qed.

(** A step's replica, among the members of the topology it leads to. *)
Lemma step_replica m m' kind :
  target_at op k m → create_addressed op kind m' → routing_action kind = false →
  m' ∈ ss_members (planned T (S k)) ∧ srs_id m' = (if asks_primary kind then ss_primary_id (planned T (S k)) else srs_id m).
Proof.
  intros (Hm & Hid & _) [Hin Ha] Hr. destruct (asks_primary kind).
  - split; [|done]. destruct (pl_head _ (vc_plan _ Hv)) as (h & Hh & Hhid). apply list_elem_of_lookup in Hin as [j Hj].
    apply (planned_member j); [done|]. assert (0%nat = j); [|lia]. eapply plan_position; [apply Hv|exact Hh|exact Hj|congruence].
  - rewrite Hr in Ha. assert (srs_id m' = srs_id m) as He by congruence. split; [|done].
    apply list_elem_of_lookup in Hin as [j Hj]. assert (k = j) as <- by (eapply plan_position; [apply Hv|exact Hm|exact Hj|done]).
    apply (planned_member k); [done|lia].
Qed.

Lemma stage_step kind j :
  steps_done (op_phase op) = Some j → is_compensation_phase (op_phase op) = false →
  (if brings_up_primary (op_phase op) then primary_steps else secondary_steps) !! j = Some kind →
  steps_of k !! j = Some kind ∧ (∃ m, target_at op k m).
Proof.
  intros Hj Hc Hs. pose proof Hst as H. unfold stage_ok, has_candidate in H. rewrite Hj, Hc in H. cbn in H.
  destruct H as (_ & Hm & H0 & H1). split; [|done]. destruct (brings_up_primary (op_phase op)).
  - by rewrite H0.
  - destruct k as [|k']; [|done]. specialize (H1 eq_refl (or_introl eq_refl)). lia.
Qed.

Lemma stage_retreat : is_compensation_phase (op_phase op) = true → (k < length members)%nat ∧ ∃ m, target_at op k m.
Proof. intros Hc. pose proof Hst as H. unfold stage_ok, has_candidate in H. rewrite Hc in H. cbn in H. by destruct H as (? & ? & _). Qed.

(** The outcome of the verdicts that do not depend on the kind. *)
Lemma outcome_advance pa next :
  op_pending_action op = Some pa → validate_create_pending op pa = Ok tt → pa_kind pa ≠ Action.CreateFencePod →
  create_observe_action op pa obs = Ok AoPostcondition → advance_after_action op (pa_kind pa) now = Ok next →
  create_outcome (Ok (Persist next)).
Proof.
  intros Hpa Hval Hnf Hobs Hadv. apply (validate_create_pending_Ok _ _ (vc_plan _ Hv)) in Hval as (Hall & _ & _ & m & Hm & Hid & Hinst).
  destruct (step_done_stays op now) as (Hs1 & Hph1 & Hi1 & Hp1). unfold advance_after_action in Hadv.
  set (base := step_done op now) in *. clearbody base.
  destruct (allowed_cases _ _ Hall) as [[_ ?]|[[Hph Hkinds]|[(Hc & Hca & Hr & _ & (nx & Hnx & Hnc & Hne) & _)|(j & Hj & Hc & Hca & Hr & _ & Hkind & nx & Hnx & Hnj & Hnb & Hnc)]]].
  - done.
  - pose proof Hst as Hi. unfold stage_ok in Hi. rewrite Hph in Hi. cbn in Hi. destruct Hi as (_ & i & Hi & Hlt).
    assert (is_publish_action (pa_kind pa) = true) as Hpk by (by destruct Hkinds as [->| ->]). rewrite Hpk, Hi, Nat2Z.id in Hadv.
    destruct (Hpub pa Hpa Hph) as (x & Hx & Hxk). rewrite Hi, Nat2Z.id in Hx.
    assert (x = m) as ->.
    { destruct Hm as [_ Ha]. rewrite Hi, Nat2Z.id in Ha. destruct Hkinds as [He|He]; rewrite He in Ha; cbn in Ha; congruence. }
    assert (shown_label obs m (published_label T m)) as Hlab.
    { destruct (observe_done op pa obs Hobs) as (o & Ho & Hoi & Hd); [by destruct Hkinds as [->| ->]|].
      rewrite Hid in Ho. exists o. split; [done|]. split; [congruence|]. destruct Hd as [Hd|(action & a & Hact & _)].
      - unfold create_direct_observation in Hd. unfold publish_kind in Hxk. unfold published_label.
        destruct (srs_id m =? ss_primary_id T); rewrite Hxk in Hd; cbn in Hd; injection Hd as Hd;
          destruct (bool_decide (ro_pod_role_label o = _)) eqn:Hl in Hd; guards; done.
      - unfold create_action_for in Hact. by destruct Hkinds as [He|He]; rewrite He in Hact. }
    eapply co_persist, (cs_published _ i m); [done|done|done|done| | |].
    + destruct (S i =? length members)%nat; injection Hadv as <-; (eapply stays_trans; [exact Hs1|]; by destruct base).
    + destruct (S i =? length members)%nat; injection Hadv as <-; rewrite <-Hp1; by destruct base.
    + destruct (S i =? length members)%nat; injection Hadv as <-; [by destruct base|].
      split; [rewrite <-Hph, <-Hph1; by destruct base|]. cbn. apply as_u32_small. lia.
  - assert (is_publish_action (pa_kind pa) = false) as Hpk by (destruct (pa_kind pa); done). rewrite Hpk, Hnx in Hadv.
    injection Hadv as <-. apply co_persist, cs_retreat; [done|by destruct base|by destruct base| |rewrite <-Hp1; by destruct base].
    eapply stays_trans; [exact Hs1|]. by destruct base.
  - assert (is_publish_action (pa_kind pa) = false) as Hpk by (destruct (pa_kind pa); done). rewrite Hpk, Hnx in Hadv.
    injection Hadv as <-. destruct (stage_step _ _ Hj Hc Hkind) as (Hstep & t & Ht).
    eapply co_persist, (cs_step _ j (pa_kind pa) t); [done|done|done| | | | | | |].
    + destruct (observe_done op pa obs Hobs Hca) as (o & Ho & Hoi & Hd). destruct (step_replica t m _ Ht Hm Hr) as [Hin Hxid].
      exists pa, o, m. split; [done|]. split; [done|]. split; [done|]. split; [done|]. split; [congruence|]. split; [congruence|].
      destruct Hd as [Hd|]; [left|by right]. eapply direct_reached; [apply Hv|done|done|by eapply list_elem_of_lookup_2|done].
    + eapply stays_trans; [exact Hs1|]. by destruct base.
    + rewrite <-Hi1. by destruct base.
    + rewrite <-Hp1. by destruct base.
    + rewrite <-Hnj. by destruct base.
    + rewrite <-Hnb. by destruct base.
    + rewrite <-Hnc. by destruct base.
Qed.

Lemma outcome_perform pa :
  op_pending_action op = Some pa → validate_create_pending op pa = Ok tt → pa_kind pa ≠ Action.CreateFencePod →
  create_outcome (perform_action op pa obs).
Proof.
  intros Hpa Hval Hnf. apply (validate_create_pending_Ok _ _ (vc_plan _ Hv)) in Hval as (Hall & _ & _ & m & Hm & Hid & _).
  assert (create_outcome (action ← create_action_for op pa obs; Ok (Execute (pa_target_id pa) (pa_action_id pa) action))) as Hex.
  { apply outcome_of; [apply panics_bind; [apply panics_create_action|done]|]. intros d (action & Ha & [= <-])%bind_Ok.
    rewrite Hid. by eapply co_execute. }
  destruct (allowed_cases _ _ Hall) as [[_ ?]|[[Hph Hkinds]|[(Hc & Hca & Hr & Hdel & _)|(j & Hj & Hc & Hca & Hr & _)]]].
  - done.
  - destruct (Hpub pa Hpa Hph) as (x & Hx & Hxk).
    assert (x = m) as ->. { destruct Hm as [_ Ha]. destruct Hkinds as [He|He]; rewrite He in Ha; cbn in Ha; congruence. }
    assert (perform_action op pa obs = Ok (PatchPodRole (srs_id m) (published_label T m))) as ->.
    { unfold perform_action. rewrite <-Hid. unfold publish_kind in Hxk. unfold published_label.
      by destruct (srs_id m =? ss_primary_id T); rewrite Hxk. }
    apply co_publish; [done|]. by eapply list_elem_of_lookup_2.
  - destruct (decide (pa_kind pa = Action.CreateCompensateDeleteCandidate)) as [He|He].
    + unfold perform_action. rewrite He. destruct (stage_retreat Hc) as (_ & t & Ht).
      unfold create_target_pod_name, create_target_instance_id. destruct (vc_target _ Hv) as (id & inst & pod & _ & Hinst & Hpod & Hi0 & Hp0).
      rewrite Hpod, Hinst, !filled_Some by done. cbn. destruct Ht as (Ht1 & Ht2 & Ht3). rewrite Hinst in Ht3. injection Ht3 as ->.
      apply co_delete; [by apply Hdel|done|done].
    + unfold perform_action. destruct (pa_kind pa); try done; exact Hex.
  - unfold perform_action. destruct (pa_kind pa); try done; exact Hex.
Qed.

Lemma outcome_pending pa :
  op_pending_action op = Some pa → validate_create_pending op pa = Ok tt →
  create_outcome (create_decide_pending op pa obs pods now).
Proof.
  intros Hpa Hval. unfold create_decide_pending. destruct (bool_decide (pa_kind pa = Action.CreateFencePod)) eqn:Hf; guards.
  { apply outcome_fence. apply (validate_create_pending_Ok _ _ (vc_plan _ Hv)) in Hval as (Hall & _).
    destruct (allowed_cases _ _ Hall) as [[? _]|[[_ [He|He]]|[(_ & He & _)|(j & _ & _ & _ & He & _)]]]; [done|..]; by rewrite Hf in He. }
  pose proof (panics_create_observe pa) as Hp.
  assert (terminal_phase (op_phase op) = false) as Hnt.
  { apply (validate_create_pending_Ok _ _ (vc_plan _ Hv)) in Hval as (Hall & _). by destruct (op_phase op). }
  destruct (create_observe_action op pa obs) as [observed|[e|e]] eqn:Ho; [|by apply co_error|done].
  cbn [mbind result_bind]. pose proof (outcome_failure op) as Hfail.
  destruct observed.
  - destruct (pa_deadline_unix_seconds pa <=? now); [apply Hfail; [done|apply stays_refl|done|done]|]. by apply outcome_perform.
  - apply outcome_of; [|intros d (next & Hn & [= <-])%bind_Ok; by eapply outcome_advance].
    apply panics_bind; [|done]. unfold advance_after_action. destruct (is_publish_action (pa_kind pa)) eqn:Hpk; [done|].
    apply (validate_create_pending_Ok _ _ (vc_plan _ Hv)) in Hval as (Hall & _).
    destruct (allowed_cases _ _ Hall) as [[_ ?]|[[_ [He|He]]|[(_ & _ & _ & _ & (nx & -> & _) & _)|(j & _ & _ & _ & _ & _ & _ & nx & -> & _)]]];
      [done|by rewrite He in Hpk|by rewrite He in Hpk|done|done].
  - destruct (pa_deadline_unix_seconds pa <=? now); [apply Hfail; [done|apply stays_refl|done|done]|apply co_wait].
  - apply outcome_failure; [done|by destruct op..].
  - destruct (unavailable_phase (pa_kind pa)) as [phase|] eqn:Hu.
    + apply (validate_create_pending_Ok _ _ (vc_plan _ Hv)) in Hval as (Hall & _).
      destruct (allowed_cases _ _ Hall) as [[_ ?]|[[_ [He|He]]|[(Hc & _ & _ & _ & _ & Hun)|(j & _ & _ & _ & _ & Hn & _)]]];
        [done|by rewrite He in Hu|by rewrite He in Hu| |congruence].
      destruct (Hun _ Hu) as [Hnc Hne]. apply co_persist, cs_retreat; [done|by destruct op|by destruct op|by destruct op|by destruct op].
    + destruct (pa_deadline_unix_seconds pa <=? now); [apply Hfail; [done|apply stays_refl|done|done]|apply co_wait].
  - apply outcome_poison.
Qed.

(** *** The checks of what is observed *)

Definition shown_member (s : StablePartitionSnapshotStatus) (m : StableReplicaSnapshotStatus) : Prop :=
  ∃ o, obs !! srs_id m = Some o ∧ si_instance_id (ro_status o) = srs_instance_id m ∧
    si_role (ro_status o) = (if srs_id m =? ss_primary_id s then Primary else ActiveSecondary) ∧
    si_epoch (ro_status o) = to_epoch (ss_epoch T).

Lemma committed_observed s :
  op_committed_snapshot op = Some s → validate_committed_observations op obs = Ok tt →
  (∀ m, m ∈ ss_members s → shown_member s m) ∧
  ∃ o, obs !! ss_primary_id s = Some o ∧ committed_configuration_valid op s (si_configuration (ro_status o)) = Ok true.
Proof.
  unfold validate_committed_observations. intros ->. rewrite bind_Ok.
  intros ([] & Hall%try_for_each_Ok & (o & Ho%or_fail_Ok & (b & Hb & Hn%fail_if_Ok)%bind_Ok)%bind_Ok). split.
  - intros m Hm. rewrite Forall_forall in Hall. specialize (Hall m Hm). unfold validate_committed_member in Hall.
    apply bind_Ok in Hall as (om & Hom%or_fail_Ok & ([] & H1%fail_if_Ok & H2%fail_if_Ok)%bind_Ok). guards. by exists om.
  - exists o. split; [done|]. by destruct b.
Qed.

Lemma panics_committed_observations : panics (validate_committed_observations op obs) = false.
Proof.
  unfold validate_committed_observations, validate_committed_member, committed_configuration_valid.
  pose proof panics_attempted as Ha. destruct (attempted_snapshot op) as [s|[]]; [quiet|quiet|done].
Qed.

Lemma decide_commit_outcome m message :
  steps_done (op_phase op) = Some (length (steps_of k)) → target_at op k m →
  (∀ o, obs !! ss_primary_id T = Some o → ∃ x, x ∈ ss_members (planned T (S k)) ∧ srs_id x = ss_primary_id T ∧
     si_instance_id (ro_status o) = srs_instance_id x) →
  create_outcome (decide_commit op (planned T (S k)) obs message now).
Proof.
  intros Hph Hm Hx. unfold decide_commit. destruct (obs !! ss_primary_id T) as [o|] eqn:Ho; [|by apply co_error].
  cbn [or_fail ok_or mbind result_bind]. destruct (negb _) eqn:Hc; [apply outcome_poison|]. guards.
  destruct (Hx o eq_refl) as (x & Hin & Hid & Hinst). eapply outcome_commit; [done|exact Hm|].
  exists o, x. split; [done|]. split; [done|]. by rewrite Hid.
Qed.

(** The stage of a phase that has a candidate. *)
Lemma candidate_stage : has_candidate (op_phase op) = true →
  (k < length members)%nat ∧ (∃ m, target_at op k m) ∧ (brings_up_primary (op_phase op) = true → k = 0%nat) ∧
  (brings_up_primary (op_phase op) = false → is_compensation_phase (op_phase op) = false → (1 ≤ k)%nat).
Proof.
  intros Hc. pose proof Hst as H. unfold stage_ok in H. rewrite Hc in H. destruct H as (? & ? & ? & Hs).
  do 3 (split; [done|]). intros Hb1 Hb2. apply Hs; auto.
Qed.

Lemma outcome_final :
  op_phase op = Phase.CreateFinalize → validate_committed_observations op obs = Ok tt →
  create_outcome (validate_final_observations op obs;;
    Ok (Complete (op <| op_phase := Phase.Completed |> <| op_pending_action := None |>) T false)).
Proof.
  intros Hph Hobs. pose proof Hst as Hkn. unfold stage_ok in Hkn. rewrite Hph in Hkn. cbn in Hkn.
  apply outcome_of; [unfold validate_final_observations, validate_final_member; quiet|].
  intros d ([] & Hfin & [= <-])%bind_Ok. unfold validate_final_observations in Hfin.
  apply bind_Ok in Hfin as ([] & Hc%fail_if_Ok & Hall%try_for_each_Ok). guards.
  destruct (committed_observed _ Hc Hobs) as (_ & o & Ho & Hcfg).
  assert (∀ m, m ∈ members → ∃ o, obs !! srs_id m = Some o ∧ si_instance_id (ro_status o) = srs_instance_id m ∧
    si_role (ro_status o) = (if srs_id m =? ss_primary_id T then Primary else ActiveSecondary) ∧
    si_epoch (ro_status o) = to_epoch (ss_epoch T) ∧ ro_pod_role_label o = Some (published_label T m)) as Hmem.
  { intros m Hm. rewrite Forall_forall in Hall. specialize (Hall m Hm). unfold validate_final_member, expected_member_role in Hall.
    apply bind_Ok in Hall as (om & Hom%or_fail_Ok & Hg%fail_if_Ok). guards. exists om. split; [done|]. split; [done|].
    unfold published_label. destruct (srs_id m =? ss_primary_id T); done. }
  apply co_complete; [done|done| |by destruct op|by destruct op]. split; [exact Hmem|].
  destruct (pl_head _ (vc_plan _ Hv)) as (h & Hh & Hhid). pose proof (list_elem_of_lookup_2 _ _ _ Hh) as Hin.
  destruct (Hmem h Hin) as (oh & Hoh & Hinst & _). exists oh, h. split; [done|]. split; [done|]. split; [done|]. split; [done|].
  rewrite Hhid, Ho in Hoh. injection Hoh as <-. unfold committed_configuration_valid in Hcfg.
  apply bind_Ok in Hcfg as (at_ & _ & [= Hcfg]). rewrite Hph in Hcfg. by guards.
Qed.

Lemma outcome_phase :
  validate_committed_observations op obs = Ok tt → current_candidate_changed op obs = false →
  create_outcome (decide_create_phase op obs now).
Proof.
  intros Hobs Hcand. unfold decide_create_phase. pose proof candidate_stage as Hcs. pose proof Hst as Hs. unfold stage_ok in Hs.
  destruct (op_phase op) eqn:Hph; try (by apply co_error);
    try (by (apply outcome_schedule; rewrite Hph)); try (by (apply outcome_secondary; rewrite Hph)).
  - (* fencing *)
    destruct (ss_members (op_target_snapshot op) !! _) eqn:Hl; [|by apply co_error]. cbn [or_fail ok_or mbind result_bind].
    apply outcome_schedule. by rewrite Hph.
  - (* the primary's commit *)
    destruct (Hcs eq_refl) as (_ & (m & Hm) & H0 & _). specialize (H0 eq_refl).
    rewrite (snapshot_prefix_Ok _ (vc_plan _ Hv)). cbn [mbind result_bind].
    replace (planned T 1) with (planned T (S k)) by (by rewrite H0). apply (decide_commit_outcome m); [by rewrite Hph, H0|done|].
    intros o Ho. exists m. destruct Hm as (Hm & Hid & Hinst). split; [by eapply planned_member; [exact Hm|lia]|].
    assert (srs_id m = ss_primary_id T) as Hmid by (apply (plan_primary T); [apply Hv|by rewrite <-H0 at 1]).
    split; [done|]. unfold current_candidate_changed in Hcand. rewrite Hph, Hid, Hmid, Ho, Hinst in Hcand.
    destruct (vc_target _ Hv) as (? & inst & ? & _ & Hi & _ & Hne & _). rewrite Hinst in Hi. injection Hi as <-.
    rewrite filled_Some in Hcand by done. by guards.
  - (* a secondary's commit *)
    destruct (Hcs eq_refl) as (_ & (m & Hm) & _ & H1). specialize (H1 eq_refl eq_refl).
    rewrite (attempted_at op k (vc_plan _ Hv) Hk m H1 Hm). cbn [mbind result_bind].
    apply (decide_commit_outcome m); [rewrite Hph; by destruct k; [lia|]|done|].
    intros o Ho. destruct (pl_head _ (vc_plan _ Hv)) as (h & Hh & Hhid). exists h.
    split; [apply (planned_member 0 _ _ Hh); lia|]. split; [done|].
    destruct (committed_observed _ (committed_some op k Hk H1) Hobs) as (Hmem & _).
    destruct (Hmem h) as (o' & Ho' & Hinst & _); [apply (planned_member 0 _ _ Hh); lia|]. congruence.
  - (* publishing *)
    destruct (ss_members (op_target_snapshot op) !! Z.to_nat (op_next_secondary_index op)) as [m|] eqn:Hl; [|by apply co_error].
    cbn [or_fail ok_or mbind result_bind]. apply outcome_schedule. intros _. by exists m.
  - by apply outcome_final.
  - destruct (none (op_committed_snapshot op)); [|by (apply outcome_schedule; rewrite Hph)].
    unfold create_with_phase. apply co_persist, cs_retreat; [by rewrite Hph|by destruct op|by destruct op|by destruct op|by destruct op].
  - apply co_undone; [done|by destruct op|by destruct op].
Qed.

Theorem create_decide_outcome : create_outcome (decide_create_partition op obs pods now).
Proof.
  unfold decide_create_partition. rewrite (proj2 (validate_create_Ok op) Hv). cbn [mbind result_bind].
  destruct (terminal_phase (op_phase op)) eqn:Hnt; [by destruct (op_phase op); try discriminate; apply co_wait|].
  assert (create_outcome (
      match op_pending_action op with Some pending => validate_create_pending op pending | None => Ok tt end;;
      match validate_committed_observations op obs with
      | Err (Panic m) => Err (Panic m)
      | Err (Error e) => Ok (Persist (poison op e))
      | Ok _ =>
          if current_candidate_changed op obs
          then Ok (failure_decision op "creation candidate incarnation changed" now)
          else match op_pending_action op with
          | Some pending => create_decide_pending op pending obs pods now
          | None => decide_create_phase op obs now
          end
      end)) as Hgo; [|by destruct (op_phase op); try apply co_wait; apply Hgo].
  assert (∀ r : result failure Decision, (validate_committed_observations op obs = Ok tt → current_candidate_changed op obs = false → create_outcome r) →
    create_outcome match validate_committed_observations op obs with
      | Err (Panic m) => Err (Panic m)
      | Err (Error e) => Ok (Persist (poison op e))
      | Ok _ => if current_candidate_changed op obs
          then Ok (failure_decision op "creation candidate incarnation changed" now) else r
      end) as Hchecked.
  { intros r Hr. pose proof panics_committed_observations as Hp.
    destruct (validate_committed_observations op obs) as [[]|[e|e]]; [|apply outcome_poison|done].
    destruct (current_candidate_changed op obs); [|by apply Hr]. apply outcome_failure; [done|apply stays_refl|done|done]. }
  destruct (op_pending_action op) as [pa|] eqn:Hpa.
  - destruct (validate_create_pending op pa) as [[]|[e|e]] eqn:Hval; [|by apply co_error|].
    + apply (Hchecked (create_decide_pending op pa obs pods now)). intros _ _. by apply outcome_pending.
    + exfalso. unfold validate_create_pending in Hval. pose proof (panics_create_pending (pa_sequence pa) (pa_kind pa) 0) as Hp.
      destruct (fail_if _ _) as [[]|[]] eqn:Hf in Hval; [|done|unfold fail_if, reject_if in Hf; by case_match].
      destruct (create_pending_action op _ _ _) as [x|[]] in Hp, Hval; [|done|done]. cbn in Hval.
      unfold fail_if, reject_if in Hval. by case_match.
  - apply (Hchecked (decide_create_phase op obs now)). apply outcome_phase.
Qed.
End outcomes.
