(* ===== verification/CreateRuns.v ===== *)
(** Whole creations: the checkpoints a partition goes through, restarts
    included, under any observations, pods, clock readings and lost status
    writes; the invariant every checkpoint keeps and what led to it. *)

From S2P Require Import Prelude Types Lifecycle Control Agent Convert Wire Crd Operation Switchover SwitchoverSteps Effects AddWorkflow AddSteps Turns CreateWorkflow CreateSteps CreateOutcomes.

Set Default Goal Selector "!".

(** ** Order in a trace *)

(** Turns that did each of these, the first of the list last. *)
Fixpoint in_order (Ps : list (membership_turn → Prop)) (trace : list membership_turn) : Prop :=
  match Ps with
  | [] => True
  | P :: Ps => ∃ later tn earlier, trace = later ++ tn :: earlier ∧ P tn ∧ in_order Ps earlier
  end.

Lemma in_order_later Ps tn trace : in_order Ps trace → in_order Ps (tn :: trace).
Proof. destruct Ps as [|P Ps]; [done|]. intros (l & t & e & -> & HP & Ho). by exists (tn :: l), t, e. Qed.

Lemma in_order_now (P : membership_turn → Prop) Ps tn trace : P tn → in_order Ps trace → in_order (P :: Ps) (tn :: trace).
Proof. intros HP Ho. by exists [], tn, trace. Qed.

Lemma in_order_seen P Ps trace : P ∈ Ps → in_order Ps trace → seen P trace.
Proof.
  revert trace. induction Ps as [|Q Ps IH]; intros trace; [by intros ?%elem_of_nil|].
  intros [->|Hin]%elem_of_cons (l & tn & e & -> & HQ & Ho).
  - exists tn. split; [|done]. apply elem_of_app. right. left.
  - apply (seen_later P e); [|by apply IH]. intros x Hx. apply elem_of_app. right. by right.
Qed.

(** ** Starting *)

Lemma check_targets l seen_before r :
  try_fold check_target seen_before l = Ok r → ∀ t, t ∈ l → 0 < ct_replica_id t ∧ ct_instance_id t ≠ "" ∧ ct_pod_name t ≠ "".
Proof.
  revert seen_before. induction l as [|x l IH]; intros sb; cbn [try_fold]; [by intros _ t ?%elem_of_nil|].
  intros (sb' & Hx & Hl)%bind_Ok t [->|Ht]%elem_of_cons; [|by eapply IH]. destruct sb as [ids instances]. unfold check_target in Hx.
  apply bind_Ok in Hx as ([] & H%fail_if_Ok & _). unfold empty in H. guards.
  match goal with X : (_ <=? 0) = false |- _ => apply Z.leb_gt in X end. done.
Qed.

Record created (targets : list CreatePartitionTarget) (committed : option StablePartitionSnapshotStatus)
    (op : DurableOperationStatus) : Prop := mkCreated {
  st_valid : valid_creation op;
  st_phase : op_phase op = Phase.CreateFenceRouting;
  st_index : op_next_secondary_index op = 0;
  st_pending : op_pending_action op = None;
  st_committed : op_committed_snapshot op = committed;
  st_members : srs_id <$> ss_members (op_target_snapshot op) = ct_replica_id <$> sort_by_key ct_replica_id targets ∧
    srs_instance_id <$> ss_members (op_target_snapshot op) = ct_instance_id <$> sort_by_key ct_replica_id targets;
  st_target : ∃ m, target_at op 0 m;
}.

Lemma start_create_Ok uid targets committed minimum now op :
  start_create_partition uid targets committed minimum now = Ok op → Z.of_nat (length targets) ≤ u32_max →
  created targets committed op.
Proof.
  unfold start_create_partition. intros ([] & _ & ([] & Hmin%fail_if_Ok & H)%bind_Ok)%bind_Ok Hsize.
  set (sorted := sort_by_key ct_replica_id targets) in *.
  assert (sorted ≡ₚ targets) as Hperm by apply sort_by_key_Permutation.
  apply bind_Ok in H as (seen_ids & Hfold & (h & Hh%index_list_Ok & H)%bind_Ok).
  set (T := create_target_snapshot sorted (ct_replica_id h) committed) in *.
  apply bind_Ok in H as ([] & Hcr%validate_create_snapshot_Ok & ([] & Hpre & [= <-])%bind_Ok).
  assert (srs_id <$> ss_members T = ct_replica_id <$> sorted ∧ srs_instance_id <$> ss_members T = ct_instance_id <$> sorted) as [Hids Hinsts].
  { unfold T. cbn [create_target_snapshot ss_members]. by rewrite <-!list_fmap_compose. }
  pose proof (check_targets _ _ _ Hfold h (list_elem_of_lookup_2 _ _ _ Hh)) as (Hpos & Hine & Hpne).
  change (Z.to_nat 0) with 0%nat in Hh.
  set (hm := mkStableReplicaSnapshotStatus (ct_replica_id h) (ct_instance_id h) StablePrimary None).
  assert (ss_members T !! 0%nat = Some hm) as Hhead.
  { unfold T. cbn [create_target_snapshot ss_members]. rewrite list_lookup_fmap, Hh. cbn. by rewrite Z.eqb_refl. }
  assert (ss_primary_id T = ct_replica_id h) as Hprim by done. clearbody T.
  assert (length (ss_members T) = length targets) as Hlen.
  { rewrite <-(length_fmap srs_id), Hids, length_fmap. by rewrite Hperm. }
  assert (plan T) as HT.
  { split; [done| |by exists hm]. rewrite Hids. apply sort_by_key_strict.
    pose proof (cb_ids T Hcr) as Hnd. rewrite Hids in Hnd. unfold sorted in Hnd. by rewrite sort_by_key_Permutation in Hnd. }
  apply orb_false_elim in Hmin as [Hm0%Nat.eqb_neq Hml%Nat.ltb_ge].
  split; cbn; try done.
  - split; cbn; try done.
    + exists (as_u32 minimum). split; [done|]. rewrite as_u32_small by lia.
      change (Z.of_nat minimum ≠ 0 ∧ Z.of_nat minimum ≤ Z.of_nat (length (ss_members T))). lia.
    + unfold committed_first. cbn. destruct committed as [c|]; [|by exists 0%nat].
      apply (validate_prefix_Ok T HT) in Hpre as (k & Hk & ->). by exists k.
    + by exists (ct_replica_id h), (ct_instance_id h), (ct_pod_name h).
  - by exists hm.
Qed.

(** ** Runs *)

Section runs.
  Context {Ends : Endpoints} {Codec : PayloadCodec}.

(** Started on no topology, or, after an attempt that failed, on what it had
    committed; between two turns a dispatch may have recorded its evidence or
    its error, a status write may have been lost, and the reconciler may have
    failed the operation closed. The number of replicas is an [i32]. *)
Inductive create_run : list membership_turn → DurableOperationStatus → Prop :=
| create_run_start uid targets minimum now op :
    start_create_partition uid targets None minimum now = Ok op → Z.of_nat (length targets) ≤ u32_max → create_run [] op
| create_run_restart trace old uid targets minimum now op :
    create_run trace old → op_phase old = Phase.Failed →
    start_create_partition uid targets (op_committed_snapshot old) minimum now = Ok op →
    Z.of_nat (length targets) ≤ u32_max → create_run trace op
| create_run_decide trace op obs pods now d :
    create_run trace op → decide_create_partition op obs pods now = Ok d →
    create_run (mkMembershipTurn op obs pods None now d :: trace) (after_decision op d)
| create_run_lost trace op obs pods now d :
    create_run trace op → decide_create_partition op obs pods now = Ok d →
    create_run (mkMembershipTurn op obs pods None now d :: trace) op
| create_run_record trace op op' : create_run trace op → bookkeeping op op' → create_run trace op'
| create_run_fail_closed trace op message : create_run trace op → create_run trace (fail_closed op message).

(** A run, executed. *)
Fixpoint create_play (turns : list (OperationObservations * gmap Z string * Z)) (trace : list membership_turn)
    (op : DurableOperationStatus) : result failure (list membership_turn * DurableOperationStatus) :=
  match turns with
  | [] => Ok (trace, op)
  | (obs, pods, now) :: turns =>
      d ← decide_create_partition op obs pods now;
      create_play turns (mkMembershipTurn op obs pods None now d :: trace) (after_decision op d)
  end.

Lemma create_play_run turns trace op trace' op' :
  create_run trace op → create_play turns trace op = Ok (trace', op') → create_run trace' op'.
Proof.
  revert trace op. induction turns as [|[[obs pods] now] turns IH]; intros trace op Hrun; cbn [create_play].
  - by intros [= <- <-].
  - intros (d & Hd & Hp)%bind_Ok. eapply IH; [by apply create_run_decide|exact Hp].
Qed.

(** ** Evidence *)

Definition took (s : StablePartitionSnapshotStatus) (m : StableReplicaSnapshotStatus) (kind : Action.DurableActionKind)
    (tn : membership_turn) : Prop := shown_done (mt_operation tn) (mt_observations tn) s m kind.
Definition was_current (s : StablePartitionSnapshotStatus) (tn : membership_turn) : Prop := shown_current (mt_observations tn) s.
Definition fenced (m : StableReplicaSnapshotStatus) (tn : membership_turn) : Prop :=
  shown_label (mt_observations tn) m "bootstrap".

(** The member at [i] was brought up: every step of it seen done, in order,
    and then the topology with it current. *)
Definition brought_up (T : StablePartitionSnapshotStatus) (i : nat) (m : StableReplicaSnapshotStatus) : list membership_turn → Prop :=
  in_order (was_current (planned T (S i)) :: rev (took (planned T (S i)) m <$> steps_of i)).

(** ** The invariant *)

Record creating (trace : list membership_turn) (op : DurableOperationStatus) (k : nat) : Prop := mkCreating {
  cr_plan : plan (op_target_snapshot op);
  cr_size : Z.of_nat (length (ss_members (op_target_snapshot op))) ≤ u32_max;
  cr_committed : committed_first op k;
  cr_stage : stage_ok op k;
  cr_publishes : publishes op;
  cr_steps m j : target_at op k m → steps_done (op_phase op) = Some j →
    in_order (rev (took (planned (op_target_snapshot op) (S k)) m <$> take j (steps_of k))) trace;
  cr_members i m : (i < k)%nat → ss_members (op_target_snapshot op) !! i = Some m → brought_up (op_target_snapshot op) i m trace;
  cr_fenced i m : terminal_phase (op_phase op) = false → ss_members (op_target_snapshot op) !! i = Some m →
    (op_phase op = Phase.CreateFenceRouting → Z.of_nat i < op_next_secondary_index op) → seen (fenced m) trace;
}.

Lemma creating_later trace op k tn : creating trace op k → creating (tn :: trace) op k.
Proof.
  intros [H1 H2 H3 H4 H5 H6 H7 H8]. split; try done.
  - intros m j Hm Hj. by apply in_order_later, H6.
  - intros i m Hi Hm. by apply in_order_later, (H7 i m).
  - intros i m Ht Hm Hph. by apply seen_before, (H8 i m).
Qed.

Lemma target_stays op next i m : stays op next → target_at next i m → target_at op i m.
Proof.
  intros [[Ht] _ Hid Hinst _] (H1 & H2 & H3). rewrite Ht in H1. rewrite Hid in H2. rewrite Hinst in H3. done.
Qed.
Lemma stays_target op next i m : stays op next → target_at op i m → target_at next i m.
Proof. intros [[Ht] _ Hid Hinst _] (H1 & H2 & H3). split; [by rewrite Ht|]. by rewrite Hid, Hinst. Qed.

Lemma keeps_committed op next k :
  keeps op next → op_committed_snapshot next = op_committed_snapshot op → committed_first op k → committed_first next k.
Proof. intros [Ht] Hc. unfold committed_first. by rewrite Hc, Ht. Qed.

(** Steps within the plan keep everything that does not depend on the phase. *)
Lemma creating_stays trace trace' op next k :
  trace ⊆ trace' → (∀ Ps, in_order Ps trace → in_order Ps trace') →
  creating trace op k → stays op next → stage_ok next k → publishes next →
  (∀ m j, target_at op k m → steps_done (op_phase next) = Some j →
     in_order (rev (took (planned (op_target_snapshot op) (S k)) m <$> take j (steps_of k))) trace') →
  (terminal_phase (op_phase next) = false → terminal_phase (op_phase op) = false ∧
     ∀ i m, ss_members (op_target_snapshot op) !! i = Some m →
       (op_phase next = Phase.CreateFenceRouting → Z.of_nat i < op_next_secondary_index next) →
       seen (fenced m) trace' ∨ (op_phase op = Phase.CreateFenceRouting → Z.of_nat i < op_next_secondary_index op)) →
  creating trace' next k.
Proof.
  intros Hsub Hord Hc Hs Hstage Hp Hsteps Hf. pose proof (kp_target _ _ (sy_keeps _ _ Hs)) as HT. split; try done.
  - rewrite HT. apply Hc.
  - rewrite HT. apply Hc.
  - eapply keeps_committed; [apply Hs|apply Hs|apply Hc].
  - intros m j Hm Hj. rewrite HT. apply Hsteps; [|done]. by eapply target_stays.
  - intros i m Hi Hm. rewrite HT in Hm |- *. apply Hord. by apply (cr_members _ _ _ Hc).
  - intros i m Ht Hm Hph. rewrite HT in Hm. destruct (Hf Ht) as [Hto Hfi]. destruct (Hfi i m Hm Hph) as [|Ho]; [done|].
    eapply seen_later; [exact Hsub|]. by apply (cr_fenced _ _ _ Hc i m).
Qed.

Lemma was_brought_up trace op k m tn :
  creating trace op k → target_at op k m → steps_done (op_phase op) = Some (length (steps_of k)) →
  was_current (planned (op_target_snapshot op) (S k)) tn → brought_up (op_target_snapshot op) k m (tn :: trace).
Proof.
  intros Hc Hm Hj Hcur. apply in_order_now; [done|]. pose proof (cr_steps _ _ _ Hc m _ Hm Hj) as Ho.
  by rewrite firstn_all in Ho.
Qed.

(** A turn that commits the candidate. *)
Lemma creating_commit trace op k m tn next :
  creating trace op k → target_at op k m → steps_done (op_phase op) = Some (length (steps_of k)) →
  was_current (planned (op_target_snapshot op) (S k)) tn → keeps op next →
  op_committed_snapshot next = Some (planned (op_target_snapshot op) (S k)) → stage_ok next (S k) →
  op_pending_action next = None → op_phase next ≠ Phase.CreateFenceRouting →
  (∀ j, steps_done (op_phase next) = Some j → j = 0%nat) → creating (tn :: trace) next (S k).
Proof.
  intros Hc Hm Hj Hcur Hk Hcm Hst Hp Hph Hj0. pose proof (kp_target _ _ Hk) as HT.
  pose proof (lookup_lt_Some _ _ _ (proj1 Hm)) as Hlt. split; rewrite ?HT.
  - apply Hc.
  - apply Hc.
  - unfold committed_first. rewrite Hcm, HT. split; [lia|done].
  - done.
  - intros pa Hpa. congruence.
  - intros m' j _ Hj'. by rewrite (Hj0 j Hj').
  - intros i m' Hi Hm'. destruct (decide (i = k)) as [->|Hne].
    + assert (m' = m) as -> by (destruct Hm as (Hm & _); congruence). by eapply was_brought_up.
    + apply in_order_later, (cr_members _ _ _ Hc); [lia|done].
  - intros i m' _ Hm' _. apply seen_before, (cr_fenced _ _ _ Hc i m'); [by destruct (op_phase op)|done|].
    intros He. by rewrite He in Hj.
Qed.

(** What the stage is where the plan is resumed. *)
Lemma resumed_stage op next k t :
  plan (op_target_snapshot op) → keeps op next → (k ≤ length (ss_members (op_target_snapshot op)))%nat →
  op_phase next = resume_phase op k → target_at next (resume_member op k) t →
  (k = length (ss_members (op_target_snapshot op)) → op_next_secondary_index next = 0) →
  stage_ok next k ∧ op_phase next ≠ Phase.CreateFenceRouting ∧ ∀ j, steps_done (op_phase next) = Some j → j = 0%nat.
Proof.
  intros HT [Hkt] Hb Hph Ht Hi. pose proof (plan_nonempty _ HT) as Hn. unfold stage_ok. rewrite Hph, Hkt. unfold resume_phase, resume_member in *.
  destruct (Nat.eqb_spec k (length (ss_members (op_target_snapshot op)))) as [He|He].
  - destruct (Nat.eqb_spec k 0); [lia|]. cbn. split; [|by split]. split; [done|]. exists 0%nat. split; [by apply Hi|done].
  - destruct (Nat.eqb_spec k 0) as [->|Hk0]; cbn; (split; [|split; [done|by intros j [= <-]]]).
    + split; [lia|]. split; [by exists t|]. by split.
    + split; [lia|]. split; [by exists t|]. split; [done|]. intros _ _. lia.
Qed.

Section turn.
  Context (trace : list membership_turn) (op : DurableOperationStatus) (k : nat) (tn : membership_turn).
  Context (Hc : creating trace op k) (Hop : mt_operation tn = op).
  Abbreviation obs := (mt_observations tn).

(** The steps that leave the committed members as they are. *)
Lemma creating_next next :
  stays op next → stage_ok next k → publishes next →
  (∀ m j, target_at op k m → steps_done (op_phase next) = Some j →
     in_order (rev (took (planned (op_target_snapshot op) (S k)) m <$> take j (steps_of k))) (tn :: trace)) →
  (terminal_phase (op_phase next) = false → terminal_phase (op_phase op) = false ∧
     (op_phase op = Phase.CreateFenceRouting → op_phase next = Phase.CreateFenceRouting ∧
        op_next_secondary_index next = op_next_secondary_index op)) →
  creating (tn :: trace) next k.
Proof.
  intros Hs Hst Hp Hsteps Hf. apply (creating_stays trace _ op); [set_solver|intros; by apply in_order_later|done..|].
  intros Ht. destruct (Hf Ht) as [Hto Hfe]. split; [done|]. intros i m _ Hph. right.
  intros He. destruct (Hfe He) as [Hpn <-]. by apply Hph.
Qed.

Lemma creating_step next :
  create_step op obs k next → ∃ k', creating (tn :: trace) next k'.
Proof.
  intros Hs. pose proof (cr_stage _ _ _ Hc) as Hst. pose proof (cr_plan _ _ _ Hc) as HT.
  pose proof (committed_bound _ _ (cr_committed _ _ _ Hc)) as Hb.
  destruct Hs as [Hs Hi Hph|Hnt Hs Hi Hp Hph|Hs Hi Hph Hp|i m Hpo Hio Hm Hlab Hlt Hs Hph Hi Hp|i m t Hpo Hio Hm Hlab Hlast Hk Hcm Hph Ht Hi Hp
    |j kind m Hj Hkind Hm Hdone Hs Hi Hp Hjn Hbn Hcn|Hco Hcn Hne Hs Hp|i m Hpo Hio Hm Hlab Hs Hp Hn|m t Hj Hm Hcur Hk Hcm Hph Ht Hi Hp].
  - (* poisoned *)
    exists k. apply creating_next; [done|unfold stage_ok; by rewrite Hph|intros pa _; by rewrite Hph|by rewrite Hph|by rewrite Hph].
  - (* failed *)
    exists k. apply creating_next; [done| |intros pa; congruence| |].
    + unfold stage_ok in *. rewrite Hph, (kp_target _ _ (sy_keeps _ _ Hs)).
      assert (∀ m, target_at op k m → target_at next k m) as Htt by (intros m; by apply stays_target).
      destruct (op_phase op) eqn:Hpo; try done; cbn in Hst |- *;
        try (destruct Hst as (Hlt & [m Hm] & H0 & H1)); try destruct (none (op_committed_snapshot op)); cbn;
        try (split; [done|]; split; [exists m; by apply Htt|]; split; [done|]; intros _; try by intros [|]);
        try (intros _; by apply H1; [|by left]).
    + intros m j _. rewrite Hph. by destruct (op_phase op), (none (op_committed_snapshot op)).
    + intros Htn. split; [done|]. intros He. by rewrite Hph, He in Htn.
  - (* scheduled *)
    exists k. apply creating_next; [done| |done| |].
    + unfold stage_ok in *. rewrite Hph, Hi, (kp_target _ _ (sy_keeps _ _ Hs)).
      destruct (has_candidate (op_phase op)); [|done]. destruct Hst as (? & [m Hm] & ? & ?).
      split; [done|]. split; [exists m; by apply (stays_target op)|done].
    + intros m j Hm Hj. apply in_order_later. apply (cr_steps _ _ _ Hc); [done|by rewrite <-Hph].
    + by rewrite Hph, Hi.
  - (* fenced *)
    exists k. apply (creating_stays trace _ op); [set_solver|intros; by apply in_order_later|done|done| | | |].
    + unfold stage_ok. rewrite Hph, (kp_target _ _ (sy_keeps _ _ Hs)). cbn. by exists (S i).
    + intros pa. congruence.
    + intros m' j _. by rewrite Hph.
    + intros _. rewrite Hpo. split; [done|]. intros i' m' Hm' Hin. specialize (Hin Hph). rewrite Hi in Hin.
      destruct (decide (i' = i)) as [->|Hne]; [left; apply seen_here; unfold fenced; by rewrite Hm in Hm'; injection Hm' as <-|right].
      intros _. lia.
  - (* all fenced *)
    exists k. destruct (resumed_stage op next k t HT Hk Hb Hph Ht Hi) as (Hst' & Hnf & Hj0).
    split; rewrite ?(kp_target _ _ Hk); try apply Hc; try done.
    + by eapply keeps_committed; [exact Hk|exact Hcm|apply Hc].
    + intros pa. congruence.
    + intros m' j _ Hj. by rewrite (Hj0 j Hj).
    + intros i' m' Hi' Hm'. by apply in_order_later, (cr_members _ _ _ Hc).
    + intros i' m' _ Hm' _. destruct (decide (i' = i)) as [->|Hne].
      * apply seen_here. unfold fenced. rewrite Hm in Hm'. by injection Hm' as <-.
      * apply seen_before, (cr_fenced _ _ _ Hc i' m'); [by rewrite Hpo|done|]. apply lookup_lt_Some in Hm'. lia.
  - (* a step done *)
    exists k. apply creating_next; [done| |intros pa; congruence| |].
    + unfold stage_ok, has_candidate in *. rewrite Hjn, Hbn, Hcn, (kp_target _ _ (sy_keeps _ _ Hs)). rewrite Hj in Hst.
      assert (is_compensation_phase (op_phase op) = false) as Hcf by (by destruct (op_phase op)). rewrite Hcf in Hst. cbn in Hst |- *.
      destruct Hst as (Hlt & [x Hx] & H0 & H1). split; [done|]. split; [exists x; by apply (stays_target op)|]. split; [done|].
      intros Hbo _. apply H1; [done|by left].
    + intros m' j' Hm' Hj'. rewrite Hjn in Hj'. injection Hj' as <-.
      assert (m' = m) as -> by (destruct Hm as (Hm & _), Hm' as (Hm' & _); congruence).
      rewrite (take_S_r _ _ _ Hkind), fmap_app, rev_app_distr. cbn [fmap list_fmap rev app].
      apply in_order_now; [unfold took; by rewrite Hop|]. by apply (cr_steps _ _ _ Hc).
    + intros _. split; [by destruct (op_phase op)|]. intros He. by rewrite He in Hj.
  - (* a step undone *)
    exists k. assert (steps_done (op_phase next) = None) as Hjn by (by destruct (op_phase next)).
    apply creating_next; [done| |intros pa; congruence|by rewrite Hjn|].
    + unfold stage_ok, has_candidate in *. rewrite Hco in Hst. rewrite Hcn, (kp_target _ _ (sy_keeps _ _ Hs)). cbn in Hst |- *.
      destruct Hst as (Hlt & [x Hx] & _ & _). split; [done|]. split; [exists x; by apply (stays_target op)|].
      split; [by destruct (op_phase next)|]. by intros _ [|].
    + intros _. split; [by destruct (op_phase op)|]. intros He. by rewrite He in Hco.
  - (* published *)
    exists k. unfold stage_ok in Hst. rewrite Hpo in Hst. cbn in Hst. destruct Hst as [Hkn _]. apply lookup_lt_Some in Hm as Hlt.
    assert (op_phase next = Phase.CreateFinalize ∨
      op_phase next = Phase.CreatePublishRouting ∧ op_next_secondary_index next = Z.of_nat (S i) ∧
      (S i < length (ss_members (op_target_snapshot op)))%nat) as Hph.
    { destruct (Nat.eqb_spec (S i) (length (ss_members (op_target_snapshot op)))); [by left|right]. destruct Hn. split_and!; try done. lia. }
    apply creating_next; [done| |intros pa; congruence| |].
    + unfold stage_ok. rewrite (kp_target _ _ (sy_keeps _ _ Hs)). destruct Hph as [->|(-> & -> & ?)]; cbn; [done|].
      split; [done|]. by exists (S i).
    + intros m' j _. by destruct Hph as [->|(-> & _)].
    + intros _. by rewrite Hpo.
  - (* committed *)
    exists (S k). assert (S k ≤ length (ss_members (op_target_snapshot op)))%nat as Hb' by (pose proof (lookup_lt_Some _ _ _ (proj1 Hm)); lia).
    destruct (resumed_stage op next (S k) t HT Hk Hb' Hph Ht Hi) as (Hst' & Hnf & Hj0).
    by eapply creating_commit.
Qed.

Lemma creating_outcome d :
  create_outcome op obs k (Ok d) → ∃ k', creating (tn :: trace) (after_decision op d) k'.
Proof.
  intros Ho. pose proof (creating_later _ _ _ tn Hc) as Hl.
  assert (∀ next, stays op next → terminal_phase (op_phase next) = true → stage_ok next k → creating (tn :: trace) next k) as Hend.
  { intros next Hs Ht Hst. apply creating_next; [done|done| | |congruence].
    - intros pa _ Hph. by rewrite Hph in Ht.
    - intros m j _. by destruct (op_phase next). }
  remember (Ok d) as r eqn:Hr.
  destruct Ho as [|e|next Hs|m Hph Hm|m Hph Hm|pa m action Hpa Hal Had Hact|m name Hph Hm Hn|next Hph Hlt Hs Hp|next m Hj Hm Hcur Hk Hcm Hp
    |next Hph Hs Hp|next Hph Hkn Hat Hs Hp]; try discriminate Hr; injection Hr as <-; cbn [after_decision]; try (by exists k).
  - by apply creating_step.
  - exists k. apply Hend; [done|by rewrite Hp|unfold stage_ok; by rewrite Hp].
  - exists (S k). assert (stage_ok next (S k)) as Hst by (unfold stage_ok; by rewrite Hp).
    split.
    + rewrite (kp_target _ _ Hk). apply Hc.
    + rewrite (kp_target _ _ Hk). apply Hc.
    + unfold committed_first. rewrite Hcm, (kp_target _ _ Hk). split; [|done]. pose proof (lookup_lt_Some _ _ _ (proj1 Hm)). lia.
    + done.
    + intros pa _. by rewrite Hp.
    + intros m' j _. by rewrite Hp.
    + rewrite (kp_target _ _ Hk). intros i m' Hi Hm'. destruct (decide (i = k)) as [->|Hne].
      * assert (m' = m) as -> by (destruct Hm as (Hm & _); congruence). by eapply was_brought_up.
      * apply in_order_later, (cr_members _ _ _ Hc); [lia|done].
    + by rewrite Hp.
  - exists k. apply Hend; [done|by rewrite Hp|unfold stage_ok; by rewrite Hp].
  - exists k. apply Hend; [done|by rewrite Hp|]. unfold stage_ok. rewrite Hp, (kp_target _ _ (sy_keeps _ _ Hs)). done.
Qed.
End turn.

(** ** Starts *)

(** A creation started on what an earlier one had committed goes on from it. *)
Lemma creating_started trace targets committed op :
  created targets committed op → Z.of_nat (length targets) ≤ u32_max →
  (∀ s, committed = Some s → ∃ old k, creating trace old k ∧ op_committed_snapshot old = Some s) →
  ∃ k, creating trace op k.
Proof.
  intros [Hv Hph Hi Hp Hc Hm (h & Ht)] Hsize Hold. destruct (vc_committed _ Hv) as [k Hk]. exists k.
  assert (length (ss_members (op_target_snapshot op)) = length targets) as Hlen.
  { rewrite <-(length_fmap srs_id), (proj1 Hm), length_fmap. by rewrite sort_by_key_Permutation. }
  pose proof (plan_nonempty _ (vc_plan _ Hv)) as Hn. split.
  - apply Hv.
  - by rewrite Hlen.
  - done.
  - unfold stage_ok. rewrite Hph, Hi. cbn. by exists 0%nat.
  - intros pa. congruence.
  - intros m j _. by rewrite Hph.
  - intros i m Hik Him. assert (op_committed_snapshot op = Some (planned (op_target_snapshot op) k)) as Hs by (apply committed_some; [done|lia]).
    rewrite Hc in Hs. destruct (Hold _ Hs) as (old & k' & Ho & Hcs). pose proof (committed_bound _ _ Hk) as Hb.
    pose proof (cr_committed _ _ _ Ho) as Hko. unfold committed_first in Hko. rewrite Hcs in Hko. destruct Hko as [Hkb He].
    assert (k = k') as <-.
    { apply (f_equal (λ s, length (ss_members s))) in He. by rewrite !planned_members in He by lia. }
    assert (ss_members (op_target_snapshot old) !! i = Some m) as Hom.
    { apply (f_equal (λ s, ss_members s !! i)) in He. cbn [planned ss_members] in He. by rewrite !lookup_take_lt, Him in He by lia. }
    pose proof (cr_members _ _ _ Ho i m Hik Hom) as Hup. unfold brought_up in *.
    by rewrite <-(planned_planned (op_target_snapshot op) k (S i)), He, planned_planned by lia.
  - intros i m _ _ Hidx. specialize (Hidx Hph). rewrite Hi in Hidx. lia.
Qed.

Lemma creating_record trace op op' k : creating trace op k → bookkeeping op op' → creating trace op' k.
Proof.
  intros Hc (error & pending & -> & Hpd).
  assert (stays op (op <| op_last_error := error |> <| op_pending_action := pending |>)) as Hs by by destruct op.
  set (next := op <| op_last_error := error |> <| op_pending_action := pending |>) in *.
  assert (op_phase next = op_phase op ∧ op_next_secondary_index next = op_next_secondary_index op ∧ op_pending_action next = pending)
    as (Hph & Hi & Hp) by by destruct op.
  clearbody next. apply (creating_stays trace _ op); [set_solver|done..| | | |].
  - pose proof (cr_stage _ _ _ Hc) as Hst. unfold stage_ok in *. rewrite Hph, Hi, (kp_target _ _ (sy_keeps _ _ Hs)).
    destruct (has_candidate (op_phase op)); [|done]. destruct Hst as (? & [m Hm] & ? & ?).
    split; [done|]. split; [exists m; by apply (stays_target op)|done].
  - intros pa' Hpa' Hphn. rewrite Hp in Hpa'. rewrite Hpa' in Hpd. destruct (op_pending_action op) as [pa|] eqn:Hpa; [|done].
    rewrite Hph in Hphn. destruct (cr_publishes _ _ _ Hc pa Hpa Hphn) as (m & Hm & Hk).
    exists m. rewrite (kp_target _ _ (sy_keeps _ _ Hs)), Hi. split; [done|]. rewrite <-Hk.
    destruct Hpd as (? & ? & ? & ? & ? & ? & ? & ->). by destruct pa.
  - intros m j Hm Hj. rewrite Hph in Hj. by apply (cr_steps _ _ _ Hc).
  - rewrite Hph, Hi. intros Ht. split; [done|]. intros i m _ Hidx. by right.
Qed.

Lemma creating_fail_closed trace op k message : creating trace op k → creating trace (fail_closed op message) k.
Proof.
  intros Hc. assert (stays op (fail_closed op message) ∧ op_phase (fail_closed op message) = Phase.Poisoned) as [Hs Hph] by by destruct op.
  set (next := fail_closed op message) in *. clearbody next.
  apply (creating_stays trace _ op); [set_solver|done..| | | |]; try by rewrite ?Hph.
  - unfold stage_ok. by rewrite Hph.
  - intros pa _. by rewrite Hph.
Qed.

(** Every checkpoint of a run keeps the invariant. *)
Theorem create_run_creating trace op : create_run trace op → ∃ k, creating trace op k.
Proof.
  assert (∀ trace op obs pods now d k, creating trace op k → decide_create_partition op obs pods now = Ok d →
    create_outcome op obs k (Ok d)) as Hgo.
  { intros trace' op' obs pods now d k Hc Hd. rewrite <-Hd.
    assert (valid_creation op') as Hv.
    { apply validate_create_Ok. unfold decide_create_partition in Hd. by apply bind_Ok in Hd as ([] & Hv & _). }
    apply create_decide_outcome; [done|apply Hc|apply Hc|apply Hc|apply Hc]. }
  induction 1 as [uid targets minimum now op Hst Hsize|trace old uid targets minimum now op Hrun IH _ Hst Hsize
    |trace op obs pods now d Hrun [k IH] Hd|trace op obs pods now d Hrun [k IH] Hd|trace op op' Hrun [k IH] Hb|trace op message Hrun [k IH]].
  - eapply creating_started; [by eapply start_create_Ok|done|done].
  - eapply creating_started; [by eapply start_create_Ok|done|]. intros s Hs. destruct IH as [k IH]. by exists old, k.
  - eapply creating_outcome; [exact IH|done|]. by eapply Hgo.
  - exists k. by apply creating_later.
  - exists k. by eapply creating_record.
  - exists k. by apply creating_fail_closed.
Qed.

(** What a turn of a run decided, and the invariant before it. *)
Lemma create_turn_outcome trace op after tn before :
  create_run trace op → trace = after ++ tn :: before →
  ∃ k, creating before (mt_operation tn) k ∧ valid_creation (mt_operation tn) ∧
    create_outcome (mt_operation tn) (mt_observations tn) k (Ok (mt_decision tn)).
Proof.
  intros Hrun. revert after. induction Hrun as [| |trace op obs pods now d Hrun IH Hd|trace op obs pods now d Hrun IH Hd| |];
    intros after He; try (by eapply IHHrun); [by destruct after| |].
  all: destruct after as [|x after]; [|injection He as <- He; by eapply IH].
  all: injection He as <- ->; cbn [mt_operation mt_observations mt_decision].
  all: destruct (create_run_creating _ _ Hrun) as [k Hc]; exists k; split; [done|].
  all: assert (valid_creation op) as Hv
    by (apply validate_create_Ok; unfold decide_create_partition in Hd; by apply bind_Ok in Hd as ([] & Hv & _)).
  all: split; [done|]; rewrite <-Hd; apply create_decide_outcome; [done|apply Hc|apply Hc|apply Hc|apply Hc].
Qed.
End runs.
