(* ===== verification/CreateSafety.v ===== *)
(** What holds over every creation of a partition: in which order its replicas
    are asked what, and that what is committed stays. *)

From S2P Require Import Prelude Types Lifecycle Control Agent Convert Wire Crd Operation Switchover SwitchoverSteps Effects AddWorkflow AddSteps Turns CreateWorkflow CreateSteps CreateOutcomes CreateRuns.

Set Default Goal Selector "!".

(** ** What is asked of a replica *)




Section safety.
  Context {Ends : Endpoints} {Codec : PayloadCodec}.





(** ** Commits *)

(** The committed topology of [new] extends the one of [old]. *)
Definition extends (old new : DurableOperationStatus) : Prop :=
  ∀ s, op_committed_snapshot old = Some s → ∃ s', op_committed_snapshot new = Some s' ∧
    ss_epoch s' = ss_epoch s ∧ ss_primary_id s' = ss_primary_id s ∧ ss_members s `prefix_of` ss_members s'.

Lemma extends_refl op : extends op op.
Proof. intros s Hs. by exists s. Qed.
Lemma extends_same op op' : op_committed_snapshot op' = op_committed_snapshot op → extends op op'.
Proof. intros He s Hs. exists s. by rewrite He. Qed.
Lemma extends_trans op1 op2 op3 : extends op1 op2 → extends op2 op3 → extends op1 op3.
Proof.
  intros H1 H2 s Hs. destruct (H1 s Hs) as (s2 & Hs2 & He & Hp & Hm), (H2 s2 Hs2) as (s3 & Hs3 & He' & Hp' & Hm').
  exists s3. split_and!; [done|congruence|congruence|by etransitivity].
Qed.

(** A decision leaves what is committed, or adds the candidate to it. *)
Definition adds_one (op next : DurableOperationStatus) (obs : OperationObservations) (k : nat) : Prop :=
  op_committed_snapshot next = op_committed_snapshot op ∨
  ∃ m, target_at op k m ∧ steps_done (op_phase op) = Some (length (steps_of k)) ∧
    shown_current obs (planned (op_target_snapshot op) (S k)) ∧
    op_committed_snapshot next = Some (planned (op_target_snapshot op) (S k)).

Lemma outcome_adds_one op obs k d :
  create_outcome op obs k (Ok d) →
  op_target_snapshot (after_decision op d) = op_target_snapshot op ∧ adds_one op (after_decision op d) obs k.
Proof.
  assert (∀ next, stays op next → op_target_snapshot next = op_target_snapshot op ∧ adds_one op next obs k) as Hstays.
  { intros next [[Ht] Hc _ _ _]. split; [done|by left]. }
  intros Ho. remember (Ok d) as r eqn:Hr.
  destruct Ho as [|e|next Hs|m Hph Hm|m Hph Hm|pa m action Hpa Hal Had Hact|m name Hph Hm Hn|next Hph Hlt Hs Hp|next m Hj Hm Hcur Hk Hcm Hp
    |next Hph Hs Hp|next Hph Hkn Hat Hs Hp]; try discriminate Hr; injection Hr as <-; cbn [after_decision];
    try (by apply Hstays); try (split; [done|by left]).
  - destruct Hs as [Hs _ _|_ Hs _ _ _|Hs _ _ _|i m _ _ _ _ _ Hs _ _ _|i m t _ _ _ _ _ Hk Hcm _ _ _ _|j kind m _ _ _ _ Hs _ _ _ _ _|_ _ _ Hs _
      |i m _ _ _ _ Hs _ _|m t Hj Hm Hcur Hk Hcm Hph Ht Hi Hp]; try (by apply Hstays).
    + split; [apply Hk|by left].
    + split; [apply Hk|]. right. by exists m.
  - split; [apply Hk|]. right. by exists m.
Qed.

Lemma adds_one_extends op next obs k : committed_first op k → adds_one op next obs k → extends op next.
Proof.
  intros Hk [He|(m & Hm & _ & _ & Hs)]; [by apply extends_same|]. intros s Hc. unfold committed_first in Hk. rewrite Hc in Hk.
  destruct Hk as [_ ->]. eexists. split; [exact Hs|]. split; [done|]. split; [done|]. cbn [planned ss_members].
  rewrite (take_S_r _ _ _ (proj1 Hm)). by eexists.
Qed.

(** What a run has committed it keeps. *)
Lemma run_extends trace op tn : create_run trace op → tn ∈ trace → extends (mt_operation tn) op.
Proof.
  assert (∀ trace op obs pods now d, create_run trace op → decide_create_partition op obs pods now = Ok d →
    extends op (after_decision op d)) as Hdec.
  { intros trace' op' obs pods now d Hrun Hd.
    destruct (create_turn_outcome _ _ [] _ _ (create_run_decide _ _ _ _ _ _ Hrun Hd) eq_refl) as (k & Hc & _ & Hout).
    cbn in Hc, Hout. eapply adds_one_extends; [apply Hc|]. by eapply outcome_adds_one. }
  induction 1 as [uid targets minimum now op Hst Hsize|trace old uid targets minimum now op Hrun IH _ Hst Hsize
    |trace op obs pods now d Hrun IH Hd|trace op obs pods now d Hrun IH Hd|trace op op' Hrun IH Hb|trace op message Hrun IH].
  - by intros ?%elem_of_nil.
  - intros Hin. eapply extends_trans; [by apply IH|]. apply extends_same. by apply (start_create_Ok _ _ _ _ _ _ Hst Hsize).
  - intros [->|Hin]%elem_of_cons; [by eapply Hdec|]. eapply extends_trans; [by apply IH|]. by eapply Hdec.
  - intros [->|Hin]%elem_of_cons; [by apply extends_refl|by apply IH].
  - intros Hin. eapply extends_trans; [by apply IH|]. apply extends_same. destruct Hb as (e & p & -> & _). by destruct op.
  - intros Hin. eapply extends_trans; [by apply IH|]. apply extends_same. by destruct op.
Qed.

Lemma panics_validate_create op : panics (validate_create_operation op) = false.
Proof.
  unfold validate_create_operation. do 3 (apply panics_bind; [quiet|intros _ _]).
  apply panics_bind; [unfold validate_create_snapshot; quiet|]. intros [] (h & Hh & _)%validate_create_snapshot_Ok%creatable_primary.
  apply panics_bind.
  { unfold index_list. destruct (ss_members (op_target_snapshot op)); [by apply elem_of_nil in Hh|done]. }
  intros first _. unfold validate_committed_prefix, validate_create_snapshot, ensure_compensation_target_uncommitted,
    create_target_replica_id, create_target_instance_id, create_target_pod_name. quiet.
Qed.

(** Deciding on a checkpoint of a run never panics. *)
Lemma create_never_panics trace op obs pods now :
  create_run trace op → panics (decide_create_partition op obs pods now) = false.
Proof.
  intros Hrun. destruct (create_run_creating _ _ Hrun) as [k Hc].
  destruct (validate_create_operation op) as [[]|e] eqn:Hv.
  - assert (create_outcome op obs k (decide_create_partition op obs pods now)) as Ho
      by (apply create_decide_outcome; [by apply validate_create_Ok|apply Hc..]). by destruct Ho.
  - pose proof (panics_validate_create op) as Hp. rewrite Hv in Hp. unfold decide_create_partition. rewrite Hv. by destruct e.
Qed.

(** What a completed creation has attested. *)
Lemma committed_everything trace op k :
  creating trace op k → k = length (ss_members (op_target_snapshot op)) →
  op_committed_snapshot op = Some (op_target_snapshot op) ∧
  ∀ i m, ss_members (op_target_snapshot op) !! i = Some m → brought_up (op_target_snapshot op) i m trace.
Proof.
  intros Hc Hk. pose proof (plan_nonempty _ (cr_plan _ _ _ Hc)) as Hn. split.
  - rewrite (committed_some op k (cr_committed _ _ _ Hc)) by lia. by rewrite Hk, (planned_all _ (pl_valid _ (cr_plan _ _ _ Hc))).
  - intros i m Hi. apply (cr_members _ _ _ Hc); [|done]. apply lookup_lt_Some in Hi. lia.
Qed.

(** C39. What a creation commits it keeps. Over any run, restarts and lost
    writes included: no decision panics; what is committed at any turn is an
    initial part of what is committed at the end of the run; a turn adds at
    most one member to it, the next of the plan, which has been brought up and
    is current at the primary in that turn. A pod is deleted only if it is the
    candidate's, by incarnation, and the candidate comes after all committed
    members. A serving label is given only once the whole plan is committed and
    every pod was seen fenced; any other patch is a fence. And a creation
    completes only with the plan, all of it committed and brought up, and every
    member seen in that turn in its role, incarnation and label at the epoch,
    with the plan as the primary's current configuration. *)
Theorem creation_keeps_commits trace op after tn before :
  create_run trace op → trace = after ++ tn :: before →
  let op0 := mt_operation tn in
  let T := op_target_snapshot op0 in
  (∀ obs pods now, panics (decide_create_partition op obs pods now) = false) ∧
  extends op0 op ∧
  (op_target_snapshot (after_decision op0 (mt_decision tn)) = T ∧
   (op_committed_snapshot (after_decision op0 (mt_decision tn)) = op_committed_snapshot op0 ∨
    ∃ k m, committed_first op0 k ∧ ss_members T !! k = Some m ∧ brought_up T k m (tn :: before) ∧
      shown_current (mt_observations tn) (planned T (S k)) ∧
      op_committed_snapshot (after_decision op0 (mt_decision tn)) = Some (planned T (S k)))) ∧
  (∀ name uid, mt_decision tn = DeletePod name uid →
     ∃ k m, committed_first op0 k ∧ ss_members T !! k = Some m ∧ uid = srs_instance_id m ∧ op_target_pod_name op0 = Some name) ∧
  (∀ target label, mt_decision tn = PatchPodRole target label →
     ∃ m, m ∈ ss_members T ∧ target = srs_id m ∧
       (label = "bootstrap" ∨
        label = published_label T m ∧ op_committed_snapshot op0 = Some T ∧ ∀ x, x ∈ ss_members T → seen (fenced x) before)) ∧
  (∀ final s compensated, mt_decision tn = Complete final s compensated →
     compensated = false ∧ s = T ∧ op_committed_snapshot op0 = Some T ∧ attested_creation (mt_observations tn) T ∧
     ∀ i m, ss_members T !! i = Some m → brought_up T i m before ∧ seen (fenced m) before).
Proof.
  intros Hrun Ht. cbv zeta. destruct (create_turn_outcome _ _ _ _ _ Hrun Ht) as (k & Hc & Hv & Hout).
  destruct (outcome_adds_one _ _ _ _ Hout) as [HT Hadd].
  assert (terminal_phase (op_phase (mt_operation tn)) = false → op_phase (mt_operation tn) ≠ Phase.CreateFenceRouting →
    ∀ x, x ∈ ss_members (op_target_snapshot (mt_operation tn)) → seen (fenced x) before) as Hfenced.
  { intros Hnt Hnf x [i Hx]%list_elem_of_lookup. apply (cr_fenced _ _ _ Hc i x); done. }
  split; [intros; by eapply create_never_panics|]. split; [eapply run_extends; [exact Hrun|rewrite Ht; apply elem_of_app; right; left]|].
  split; [|split; [|split]].
  - split; [done|]. destruct Hadd as [|(m & Hm & Hj & Hcur & Hs)]; [by left|right]. exists k, m.
    split; [apply Hc|]. split; [apply Hm|]. split; [by eapply was_brought_up|done].
  - intros name uid Hd. rewrite Hd in Hout. remember (Ok (DeletePod name uid)) as r eqn:Hr.
    destruct Hout as [| | | | | |m pod Hph Hm Hn| | | |]; try discriminate Hr. injection Hr as <- <-.
    exists k, m. split; [apply Hc|]. split; [apply Hm|]. done.
  - intros target label Hd. rewrite Hd in Hout. remember (Ok (PatchPodRole target label)) as r eqn:Hr.
    destruct Hout as [| | |m Hph Hm|m Hph Hm| | | | | |]; try discriminate Hr; injection Hr as <- <-; exists m; (split; [done|]; split; [done|]).
    + by left.
    + right. split; [done|]. pose proof (cr_stage _ _ _ Hc) as Hst. unfold stage_ok in Hst. rewrite Hph in Hst. cbn in Hst.
      split; [by apply (committed_everything _ _ _ Hc (proj1 Hst))|]. apply Hfenced; by rewrite Hph.
  - intros final s compensated Hd. rewrite Hd in Hout. remember (Ok (Complete final s compensated)) as r eqn:Hr.
    destruct Hout as [| | | | | | | | | |next Hph Hkn Hat Hs Hp]; try discriminate Hr. injection Hr as <- <- <-.
    destruct (committed_everything _ _ _ Hc Hkn) as [Hcs Hall]. split_and!; [done|done|done|done|].
    intros i m Hi. split; [by apply Hall|]. apply Hfenced; [by rewrite Hph|by rewrite Hph|by eapply list_elem_of_lookup_2].
Qed.
End safety.
