(* ===== verification/CreateDemo.v ===== *)
(** Two creations of a partition of two replicas, played against a small
    cluster that does as it is told: one that completes, one whose second
    replica never answers and is deleted. The theorems about creations are
    applied to them. *)

From S2P Require Import Prelude Types Lifecycle Control Agent RemoveReplica Proto Convert Wire Crd Operation Effects AddWorkflow AddSteps Turns CreateWorkflow CreateSteps CreateOutcomes CreateRuns CreateSafety.

Set Default Goal Selector "!".

Module DemoCreation.
#[local] Existing Instance DemoRemove.ends.
#[global] Instance codec : PayloadCodec := mkPayloadCodec (λ _, [Byte.x2a]) (λ _, Err "no message").

(** A pod and the replica in it. *)
Record cell := mkCell {
  ce_role : Role;
  ce_epoch : Epoch;
  ce_healthy : bool;
  ce_configuration : option ReplicaConfigurationStatus;
  ce_label : option string;
  ce_reports : list CorrelatedActionObservation;
}.
Definition cluster : Type := gmap Z cell.

Definition process : string := "0123456789abcdef0123456789abcdef".
Definition fresh : cell := mkCell Unknown (mkEpoch 0 0) false None None [].
Definition start : cluster := <[1 := fresh]> (<[2 := fresh]> ∅).

Definition status_of (id : Z) (c : cell) : ReplicaStatusInfo :=
  mkReplicaStatusInfo ("u" +:+ pretty id) (ce_role c) (ce_epoch c) 0 None 0 (ce_healthy c) Granted (ce_configuration c)
    None None [] None (mkReplicaAgentStatus 3 REPLICA_LIFECYCLE_PEER_PROTOCOL_VERSION process 1 None (ce_reports c) []).
Definition observed (w : cluster) : gmap Z ReplicaObservation :=
  map_imap (λ id c, Some (mkReplicaObservation (status_of id c) "http://control" "http://data" ("set-" +:+ pretty id) (ce_label c))) w.
Definition pods (w : cluster) : gmap Z string := map_imap (λ id (_ : cell), Some ("u" +:+ pretty id)) w.

(** The replica does what it is asked and reports it. *)
Definition acts (action_id : string) (action : DurableReplicaAction) (c : cell) : cell :=
  let report := mkCorrelatedActionObservation process 1
    (mkDurableActionObservation action_id (action_signature action) Completed None None None None None) in
  let '(role, epoch, healthy, configuration) :=
    match action with
    | ActOpen _ => (ce_role c, ce_epoch c, true, ce_configuration c)
    | ActChangeRole epoch role => (role, epoch, ce_healthy c, ce_configuration c)
    | ActUpdateEpoch epoch => (ce_role c, epoch, ce_healthy c, ce_configuration c)
    | ActUpdateCatchUpConfiguration current _ =>
        (ce_role c, ce_epoch c, ce_healthy c, Some (configuration_status_from_config CatchUp current))
    | ActUpdateCurrentConfiguration current =>
        (ce_role c, ce_epoch c, ce_healthy c, Some (configuration_status_from_config Current current))
    | _ => (ce_role c, ce_epoch c, ce_healthy c, ce_configuration c)
    end in
  mkCell role epoch healthy configuration (ce_label c) (report :: ce_reports c).
Definition labelled (role : string) (c : cell) : cell :=
  mkCell (ce_role c) (ce_epoch c) (ce_healthy c) (ce_configuration c) (Some role) (ce_reports c).

(** The cluster's answer; the replica [dead] answers nothing. *)
Definition answer (dead : Z) (w : cluster) (d : Decision) : cluster :=
  match d with
  | Execute id action_id action => if id =? dead then w else alter (acts action_id action) id w
  | PatchPodRole id role => alter (labelled role) id w
  | DeletePod name uid => filter (λ p : Z * cell, "u" +:+ pretty p.1 ≠ uid) w
  | _ => w
  end.

Fixpoint sim (turns : nat) (dead : Z) (w : cluster) (now : Z) (trace : list membership_turn) (op : DurableOperationStatus) :
    list membership_turn * DurableOperationStatus :=
  match turns with
  | O => (trace, op)
  | S turns =>
      if terminal_phase (op_phase op) then (trace, op)
      else match decide_create_partition op (observed w) (pods w) now with
      | Ok d => sim turns dead (answer dead w d) (now + 2) (mkMembershipTurn op (observed w) (pods w) None now d :: trace)
                  (after_decision op d)
      | Err _ => (trace, op)
      end
  end.

Definition targets : list CreatePartitionTarget :=
  [mkCreatePartitionTarget 1 "u1" "set-1"; mkCreatePartitionTarget 2 "u2" "set-2"].
Definition begun : result failure DurableOperationStatus := start_create_partition "set" targets None 1 100.
Definition begun_operation : DurableOperationStatus :=
  match begun with Ok op => op | Err _ => DemoEffects.operation end.
Definition completed : list membership_turn * DurableOperationStatus := sim 100 0 start 100 [] begun_operation.
Definition undone : list membership_turn * DurableOperationStatus := sim 100 2 start 100 [] begun_operation.
End DemoCreation.

Section played.
#[local] Existing Instance DemoRemove.ends.
Import DemoCreation.

Lemma sim_run turns dead w now trace op :
  create_run trace op → create_run (sim turns dead w now trace op).1 (sim turns dead w now trace op).2.
Proof.
  revert w now trace op. induction turns as [|turns IH]; intros w now trace op Hrun; cbn [sim]; [done|].
  destruct (terminal_phase (op_phase op)); [done|].
  destruct (decide_create_partition op (observed w) (pods w) now) as [d|e] eqn:Hd; [|done]. by apply IH, create_run_decide.
Qed.

Lemma creation_begun : create_run [] begun_operation.
Proof.
  apply (create_run_start "set" targets 1 100); [|done]. unfold begun_operation.
  assert (is_ok begun = true) as Hok by (vm_compute; reflexivity). unfold begun in *.
  destruct (start_create_partition "set" targets None 1 100) as [op|]; [done|discriminate Hok].
Qed.

Lemma completed_run : create_run completed.1 completed.2.
Proof. apply sim_run, creation_begun. Qed.
Lemma undone_run : create_run undone.1 undone.2.
Proof. apply sim_run, creation_begun. Qed.

(** The turn at a position, the last one first, and the run before it. *)
Definition played_turn (i : nat) (trace : list membership_turn) : membership_turn :=
  default (mkMembershipTurn begun_operation ∅ ∅ None 0 Wait) (trace !! i).

Lemma played_split i trace : (i < length trace)%nat → trace = take i trace ++ played_turn i trace :: drop (S i) trace.
Proof.
  intros Hi. unfold played_turn. destruct (lookup_lt_is_Some_2 _ _ Hi) as [tn Htn]. rewrite Htn. symmetry. by apply take_drop_middle.
Qed.


Definition is_completion (d : Decision) : bool := match d with Complete _ _ _ => true | _ => false end.
Definition is_deletion (d : Decision) : bool := match d with DeletePod _ _ => true | _ => false end.

Lemma completed_completes : is_completion (mt_decision (played_turn 0 completed.1)) = true.
Proof. vm_compute. reflexivity. Qed.
Lemma undone_creation_deletes : is_deletion (mt_decision (played_turn 2 undone.1)) = true.
Proof. vm_compute. reflexivity. Qed.

Lemma delete_inv d : is_deletion d = true → ∃ name uid, d = DeletePod name uid.
Proof. destruct d; try discriminate. intros _. by do 2 eexists. Qed.
Lemma complete_inv d : is_completion d = true → ∃ final s c, d = Complete final s c.
Proof. destruct d; try discriminate. intros _. by do 3 eexists. Qed.

Definition first : StableReplicaSnapshotStatus := mkStableReplicaSnapshotStatus 1 "u1" StablePrimary None.
Abbreviation catching_up := (played_turn 15 completed.1).
Abbreviation completing := (played_turn 0 completed.1).
Abbreviation deleting := (played_turn 2 undone.1).


(** The first creation ends with everything committed and attested; the second
    deletes the pod of the replica that never answered. *)
Lemma creation_keeps_commits_witness :
  (∃ final s c, mt_decision completing = Complete final s c ∧
     attested_creation (mt_observations completing) s ∧ brought_up s 0 first (drop 1 completed.1)) ∧
  ∃ name uid k m, mt_decision deleting = DeletePod name uid ∧ committed_first (mt_operation deleting) k ∧
    ss_members (op_target_snapshot (mt_operation deleting)) !! k = Some m ∧ uid = srs_instance_id m.
Proof.
  assert (0 < length completed.1)%nat as Hlen by (vm_compute; lia).
  assert (2 < length undone.1)%nat as Hlen' by (vm_compute; lia). split.
  - destruct (complete_inv _ completed_completes) as (final & s & c & Hd). exists final, s, c. split; [exact Hd|].
    destruct (creation_keeps_commits _ _ _ _ _ completed_run (played_split 0 completed.1 Hlen)) as (_ & _ & _ & _ & _ & Hc).
    destruct (Hc final s c Hd) as (_ & Hs & _ & Hatt & Hall). rewrite Hs. split; [exact Hatt|].
    assert (ss_members (op_target_snapshot (mt_operation completing)) !! 0%nat = Some first) as Hfirst by (vm_compute; reflexivity).
    exact (proj1 (Hall 0%nat first Hfirst)).
  - destruct (delete_inv _ undone_creation_deletes) as (name & uid & Hd). exists name, uid.
    destruct (creation_keeps_commits _ _ _ _ _ undone_run (played_split 2 undone.1 Hlen')) as (_ & _ & _ & Hdel & _).
    destruct (Hdel name uid Hd) as (k & m & Hk & Hm & Hu & _). exists k, m. split; [exact Hd|]. split; [exact Hk|].
    split; [exact Hm|exact Hu].
Defined.
End played.
